(* ===== verification/_CoqProject ===== *)
-Q . S2P
Prelude.v
Ring.v
Irq.v
Chrdev.v
Resource.v
Vmalloc.v
Host.v
Timer.v
Itimer.v
Vsprintf.v
Dma.v
Cred.v
Procs.v
Pipe.v
PageAlloc.v
PageAllocFacts.v
PageAllocSys.v
Kmalloc.v
KmallocFacts.v
KmallocSys.v
Locks.v
LocksFacts.v
LocksSys.v
Sem.v
SemFacts.v
SemSys.v
SemCalls.v
Msg.v
MsgFacts.v
MsgSys.v
MsgCalls.v
Avl.v
AvlFacts.v
AvlOps.v
Mmap.v
MmapRights.v
MmapFacts.v
MmapSteps.v
MmapUnmap.v
MmapMunmap.v
MmapMerge.v
MmapMap.v
MmapSys.v
MmapCalls.v
Deci.v
MrpHw.v
PowCtrl.v
Reboot.v
Mrp.v
MrpFacts.v
MrpInv.v
MrpFops.v
MrpFopsFacts.v
MrpSys.v
MrpInit.v
