(* ===== verification/Prelude.v ===== *)
(** * A verification library for the SBC kernel

    The program is the Linux 2.0.36 kernel of the single board computer in the
    PlayStation 2 TOOL, with the drivers that were added for it: the DECI1
    driver that talks to the PlayStation over the MRP interface, and the power
    control driver.  The library models those drivers, their messages and /proc
    reports apart, the parts of the kernel that they stand on, and self-contained
    parts of the kernel that user programs rely on, each as Rocq functions
    translated from the C source, and proves what makes them correct.

    ** Conventions

    A C integer is a [Z] kept in the range of its type; wrap-around is written
    out with [u8], [u16], [u32], [s16] and [s32].  Code that changes state is a
    function in the monad [M S] below, over a record [S] of the variables it
    uses: it returns a value and the new state ([Ret]) or cannot go on
    ([Stuck]), for the reasons a kernel has: it loops for ever ([BusyLoop]), it
    sleeps and is not woken ([Asleep]), it leaves an array ([OutOfBounds]) or
    follows a null pointer ([NullDeref]).  Error codes are negative results, as
    in the source, and constants keep the names and the values that they have in
    the headers.  A theorem that a call returns therefore also says that none
    of these happens.

    Where a process sleeps, the model takes a list of naps: what the rest of
    the system does to the state during each sleep.  Hardware, firmware and user
    memory are not in the repository: a board is any instance of a class
    ([MrpDevice]) or any sequence of answers, and theorems hold for all of them
    or name what they need.  Loops whose end is not evident from the data take
    fuel, enough for the longest list or table the state can hold; running out
    is [OutOfFuel] and the theorems exclude it.

    ** The DECI1 driver (drivers/char/ps2mrp-psnet.c)

    - [Ring]: the byte rings of the control port refine a bounded queue.
    - [Deci]: the packet header, its layout and its checksum, which finds every
      change confined to one word.
    - [MrpHw]: the register windows of the board as an interface.
    - [Mrp], [MrpFacts], [MrpInv]: one unit and its interrupt side.  Packets are
      transferred exactly; the unit's invariant is kept on any board; the
      interrupt handler ends.
    - [MrpFops], [MrpFopsFacts]: the file operations, what they accept and
      return on every branch, and the round trip of a packet.
    - [MrpSys]: the unit in use as a transition system of file operations and
      interrupts, in which others make calls while one sleeps, to any depth; its
      invariant, the files that are open, and exclusive opening.
    - [MrpInit]: probing, loading and unloading over the models of interrupts,
      device tables and mapped memory; loading starts every board that answers,
      and unloading gives everything back but the mapping it forgets.

    ** The power control driver (drivers/char/ps2powctrl.c, kernel/sys.c)

    - [PowCtrl]: LED, power switch and polling from a kernel timer; loading and
      unloading; [Reboot]: who may halt the machine and that it is then halted.

    ** What the drivers stand on

    - [Irq] (arch/i386/kernel/irq.c, include/asm-i386/irq.h): masks, chains of
      handlers, the entry points, dispatch and probing; masks, gates and chains
      agree in every reachable state, with interrupts nested in any way.
    - [Chrdev] (fs/devices.c), [Resource] (kernel/resource.c), [Dma]
      (kernel/dma.c): tables of devices, ports and channels refine maps and lists
      of disjoint ranges.
    - [Vmalloc] (mm/vmalloc.c): areas of kernel addresses and their page tables;
      [Host] is the interface through which the drivers use them.
    - [Timer] (kernel/sched.c): the timing wheel refines a table of due times;
      [Itimer] (kernel/itimer.c): the interval timers over it.
    - [PageAlloc], [PageAllocFacts], [PageAllocSys] (mm/page_alloc.c,
      arch/i386/mm/init.c): the buddy system with its linked queues and bitmaps;
      pages are never given out twice, requests fail only for want of a block,
      and boot frees exactly the usable memory.
    - [Kmalloc], [KmallocFacts], [KmallocSys] (mm/kmalloc.c): small blocks, with
      descriptors, headers and free lists in memory, over the interface
      [PageSource] with the laws [PageLaws], which the page allocator satisfies
      whatever pages [try_to_free_page] frees ([Reclaim]).
      Blocks in use never overlap, however calls overtake each other; everything
      goes back to the page allocator but the cache, which can lose pages.
    - [Vsprintf] (lib/vsprintf.c, lib/ctype.c): formatted output and reading
      numbers; what is printed is read back.

    ** What programs rely on

    - [Cred] (kernel/sys.c): identities, groups and limits; no call gains
      privilege.  [Procs] (kernel/sys.c, kernel/fork.c): priorities, process
      groups and sessions, daemons, and the choice of process numbers; no group
      but that of the daemons spans two sessions.
    - [Pipe] (fs/pipe.c): pipes refine a bounded queue; short writes are atomic.
    - [Locks], [LocksFacts], [LocksSys] (fs/locks.c): record locks refine a table
      of the lock each process has on each byte, but for some requests up to the
      end of the file; waits never form a circle.
    - [Sem], [SemFacts], [SemSys], [SemCalls] (ipc/sem.c, ipc/util.c): System V
      semaphores.  Operations are atomic, their trial and their execution agree,
      no process sleeps for operations that could go through, and an exit takes
      back what was done with SEM_UNDO.  Others may act while semget sleeps, when
      two processes can make sets with one key.
    - [Msg], [MsgFacts], [MsgSys], [MsgCalls] (ipc/msg.c): message queues refine
      mailboxes from which messages are taken by type; every message is in one
      queue, and sleepers on a removed queue learn of it.  The 16-bit counter of
      messages can wrap, which loses the queue's messages.

    - [Avl], [AvlFacts], [AvlOps] (mm/mmap.c, include/linux/mm.h): the tree of the
      areas of a process, with nodes in memory and a stack of the places on the way
      to a node; inserting and removing keep it balanced and change nothing else.
    - [Mmap] (mm/mmap.c, include/linux/mm.h, arch/i386/mm/fault.c): the memory map
      of a process on top of the tree.  [MmapRights] says bit by bit who may map
      what, which flags an area gets and which accesses it allows.  [MmapFacts]
      relates the state to a list of areas: [space] for the tree and the list,
      [rings] for the areas of an inode, [world] for both with areas outside of
      the map.  [MmapSteps] has inserting and detaching, [MmapUnmap] and
      [MmapMunmap] unmapping, [MmapMerge] merging, [MmapMap] finding a free
      range and mapping, [MmapSys] the break, the stack, the tree made from the
      list, and exit.  [MmapCalls] has the properties: the structures and the
      accounts stay right, and each call changes what is mapped
      where exactly as it should.  The counters and the parts of an area survive
      only if [kmalloc] succeeds, which the theorems say with [mem_ok]; what is lost
      if it never does ([no_mem]) is a theorem too.

    ** Not modelled

    The rest of the tree is the stock kernel for many machines.  Left out are
    hardware drivers, file systems, networking, paging and the other
    architectures, whose behaviour is that of devices and formats outside the
    repository; assembly code but for what the entry points of interrupts do to
    the masks; the text of messages and /proc reports; and the older driver
    drivers/char/ps2mrp.c, which ps2mrp-psnet.c replaces. Multiprocessor code is
    not modelled: the Makefile builds for one processor. *)

From stdpp Require Export base list numbers sets.

#[global] Open Scope Z_scope.

(** ** Integer widths of the i386 target *)

Definition u8 (x : Z) : Z := x mod 2 ^ 8.
Definition u16 (x : Z) : Z := x mod 2 ^ 16.
Definition u32 (x : Z) : Z := x mod 2 ^ 32.
Definition s32 (x : Z) : Z := (x + 2 ^ 31) mod 2 ^ 32 - 2 ^ 31.

(** [f & m] as a C condition, and [f & ~m]. *)
Definition has (f m : Z) : bool := negb (Z.land f m =? 0).
Definition clr (f m : Z) : Z := Z.land f (Z.lnot m).

(** ** Error numbers *)

Definition EPERM : Z := 1.
Definition EINTR : Z := 4.
Definition EIO : Z := 5.
Definition EAGAIN : Z := 11.
Definition EWOULDBLOCK : Z := EAGAIN.
Definition ENOMEM : Z := 12.
Definition EACCES : Z := 13.
Definition EFAULT : Z := 14.
Definition EBUSY : Z := 16.
Definition ENODEV : Z := 19.
Definition EINVAL : Z := 22.
Definition ETXTBSY : Z := 26.

(** ** Little-endian memory *)

Definition word_of_bytes (b0 b1 b2 b3 : Z) : Z :=
  b0 + 2 ^ 8 * b1 + 2 ^ 16 * b2 + 2 ^ 24 * b3.

Definition bytes_of_word (w : Z) : list Z :=
  [u8 w; u8 (w / 2 ^ 8); u8 (w / 2 ^ 16); u8 (w / 2 ^ 24)].

(** A byte buffer read as words; the bytes past its end, which the last
    incomplete word also covers, read as 0. *)
Fixpoint words_of_bytes (bs : list Z) : list Z :=
  match bs with
  | b0 :: b1 :: b2 :: b3 :: rest => word_of_bytes b0 b1 b2 b3 :: words_of_bytes rest
  | [] => []
  | [b0] => [word_of_bytes b0 0 0 0]
  | [b0; b1] => [word_of_bytes b0 b1 0 0]
  | [b0; b1; b2] => [word_of_bytes b0 b1 b2 0]
  end.

Definition bytes_of_words (ws : list Z) : list Z := ws ≫= bytes_of_word.

Definition is_byte (b : Z) : Prop := 0 ≤ b < 2 ^ 8.
Definition is_word (w : Z) : Prop := 0 ≤ w < 2 ^ 32.

#[global] Instance is_byte_dec b : Decision (is_byte b).
Proof. unfold is_byte. apply _. Defined.

#[global] Instance is_word_dec w : Decision (is_word w).
Proof. unfold is_word. apply _. Defined.

(** ** Effects: code that returns or gets stuck *)

Inductive stuck :=
| BusyLoop      (** a loop whose condition nothing that can run will change *)
| Asleep        (** the process is still asleep when the observation ends *)
| OutOfBounds   (** a store or load outside of the buffer it was meant for *)
| NullDeref     (** a null pointer was followed *)
| OutOfFuel.    (** a loop was still running when its fuel ended *)

Inductive out (S A : Type) :=
| Ret (a : A) (s : S)
| Stuck (w : stuck) (s : S).
Arguments Ret {S A} a s.
Arguments Stuck {S A} w s.

Definition M (S A : Type) : Type := S → out S A.

#[global] Instance M_ret {S} : MRet (M S) := λ A a s, Ret a s.
#[global] Instance M_bind {S} : MBind (M S) := λ A B k m s,
  match m s with
  | Ret a s' => k a s'
  | Stuck w s' => Stuck w s'
  end.

Definition gets {S A} (f : S → A) : M S A := λ s, Ret (f s) s.
Definition modify {S} (f : S → S) : M S unit := λ s, Ret tt (f s).
Definition halt {S A} (w : stuck) : M S A := λ s, Stuck w s.
Definition when {S} (b : bool) (m : M S unit) : M S unit :=
  if b then m else mret tt.

(** Run [f] for each element of [l], in order. *)
Fixpoint for_each {S B} (l : list B) (f : B → M S unit) : M S unit :=
  match l with
  | [] => mret tt
  | x :: l' => f x ;; for_each l' f
  end.

(** Weakest precondition: [Q] of the result when the code returns, [E] of the
    reason when it gets stuck. *)
Definition wp {S A} (m : M S A) (Q : A → S → Prop) (E : stuck → S → Prop)
    (s : S) : Prop :=
  match m s with
  | Ret a s' => Q a s'
  | Stuck w s' => E w s'
  end.

Definition never {S} : stuck → S → Prop := λ _ _, False.

(** ** Record update

    [x <| p := v |>] is [x] with field [p] set to [v], for a record type with
    an [Eta] instance (its constructor applied to its projections). *)

Class Eta (R : Type) := eta : R → R.
Class Upd {R F : Type} (p : R → F) := upd : (F → F) → R → R.
Arguments upd {R F} p {_} f x /.

Ltac mk_upd R F p :=
  let E := constr:(_ : Eta R) in
  let E := eval hnf in E in
  exact (fun (f : F → F) (r : R) =>
    ltac:(let b := eval cbv beta in (E r) in
          match b with
          | context C [p r] => let b' := context C [f (p r)] in exact b'
          end)).

#[global] Hint Extern 1 (@Upd ?R ?F ?p) => mk_upd R F p : typeclass_instances.

Notation "x <| p := v |>" := (upd p (λ _, v) x)
  (at level 1, left associativity, p constr at level 1, v at level 99,
   format "x <| p  :=  v |>").

(** ** Tactics and hint databases *)

Create Rewrite HintDb bits.
Create Rewrite HintDb flags.

(** Case analysis on every [if] and [match] of the goal that is not under a
    binder, with its equation. *)
Ltac split_match :=
  repeat match goal with
  | |- context [match ?x with _ => _ end] =>
      let E := fresh "E" in destruct x eqn:E
  end.

(** Turn boolean tests in the context into propositions. *)
Ltac to_prop :=
  repeat match goal with
  | H : (_ =? _) = true |- _ => apply Z.eqb_eq in H
  | H : (_ =? _) = false |- _ => apply Z.eqb_neq in H
  | H : (_ <? _) = true |- _ => apply Z.ltb_lt in H
  | H : (_ <? _) = false |- _ => apply Z.ltb_ge in H
  | H : (_ <=? _) = true |- _ => apply Z.leb_le in H
  | H : (_ <=? _) = false |- _ => apply Z.leb_gt in H
  | H : negb _ = true |- _ => apply negb_true_iff in H
  | H : negb _ = false |- _ => apply negb_false_iff in H
  | H : (_ && _)%bool = true |- _ => apply andb_true_iff in H as [??]
  | H : (_ || _)%bool = false |- _ => apply orb_false_iff in H as [??]
  end.

(** Prove a decidable closed proposition by evaluating its decision. *)
Ltac by_compute := apply (bool_decide_unpack _); vm_compute; exact I.

(** ** Lemmas: widths *)

Lemma u8_range x : 0 ≤ u8 x < 2 ^ 8.
Proof. apply Z.mod_pos_bound. lia. Qed.

Lemma u16_range x : 0 ≤ u16 x < 2 ^ 16.
Proof. apply Z.mod_pos_bound. lia. Qed.

Lemma u32_range x : 0 ≤ u32 x < 2 ^ 32.
Proof. apply Z.mod_pos_bound. lia. Qed.

Lemma s32_range x : - 2 ^ 31 ≤ s32 x < 2 ^ 31.
Proof.
  unfold s32. pose proof (Z.mod_pos_bound (x + 2 ^ 31) (2 ^ 32) ltac:(lia)). lia.
Qed.

Lemma u8_id x : 0 ≤ x < 2 ^ 8 → u8 x = x.
Proof. apply Z.mod_small. Qed.

Lemma u16_id x : 0 ≤ x < 2 ^ 16 → u16 x = x.
Proof. apply Z.mod_small. Qed.

Lemma u32_id x : 0 ≤ x < 2 ^ 32 → u32 x = x.
Proof. apply Z.mod_small. Qed.

Lemma s32_id x : - 2 ^ 31 ≤ x < 2 ^ 31 → s32 x = x.
Proof. intros H. unfold s32. rewrite Z.mod_small; lia. Qed.

Lemma u32_s32 x : u32 (s32 x) = u32 x.
Proof. unfold u32, s32. rewrite Zminus_mod_idemp_l. f_equal. lia. Qed.

Lemma u32_add_l x y : u32 (u32 x + y) = u32 (x + y).
Proof. apply Z.add_mod_idemp_l. lia. Qed.

Lemma u32_add_r x y : u32 (x + u32 y) = u32 (x + y).
Proof. apply Z.add_mod_idemp_r. lia. Qed.

Lemma u32_sub_l x y : u32 (u32 x - y) = u32 (x - y).
Proof. unfold u32. apply Zminus_mod_idemp_l. Qed.

Lemma u32_sub_r x y : u32 (x - u32 y) = u32 (x - y).
Proof. unfold u32. apply Zminus_mod_idemp_r. Qed.

Lemma u32_idemp x : u32 (u32 x) = u32 x.
Proof. apply u32_id, u32_range. Qed.

#[export] Hint Rewrite u32_add_l u32_add_r u32_sub_l u32_sub_r u32_idemp : bits.

(** ** Lemmas: flag tests *)

Lemma has_lor f a m : has (Z.lor f a) m = has f m || has a m.
Proof.
  unfold has. rewrite Z.land_lor_distr_l.
  destruct (Z.land f m =? 0) eqn:E1, (Z.land a m =? 0) eqn:E2; to_prop; simpl.
  - by rewrite E1, E2.
  - rewrite E1, Z.lor_0_l. by apply Z.eqb_neq in E2 as ->.
  - rewrite E2, Z.lor_0_r. by apply Z.eqb_neq in E1 as ->.
  - apply negb_true_iff, Z.eqb_neq. intros [??]%Z.lor_eq_0_iff. done.
Qed.

Lemma has_pow2 f k : 0 ≤ k → has f (2 ^ k) = Z.testbit f k.
Proof.
  intros Hk. unfold has.
  destruct (Z.testbit f k) eqn:E.
  - apply negb_true_iff, Z.eqb_neq. intros H.
    assert (Z.testbit (Z.land f (2 ^ k)) k = true) as HH.
    { rewrite Z.land_spec, E, Z.pow2_bits_true by lia. done. }
    rewrite H, Z.bits_0 in HH. done.
  - apply negb_false_iff, Z.eqb_eq, Z.bits_inj'. intros n Hn.
    rewrite Z.land_spec, Z.bits_0.
    destruct (decide (n = k)) as [->|Hne]; [by rewrite E|].
    rewrite Z.pow2_bits_false by lia. apply andb_false_r.
Qed.

(** [m] has exactly one bit set. *)
Definition one_bit (m : Z) : Prop := ∃ k, 0 ≤ k ∧ m = 2 ^ k.

Lemma has_clr f a m : one_bit m → has (clr f a) m = has f m && negb (has a m).
Proof.
  intros (k & Hk & ->). rewrite !has_pow2 by done.
  unfold clr. by rewrite Z.land_spec, Z.lnot_spec.
Qed.

Lemma has_u16 f m : one_bit m → m < 2 ^ 16 → has (u16 f) m = has f m.
Proof.
  intros (k & Hk & ->) Hlt. apply Z.pow_lt_mono_r_iff in Hlt; [|lia|lia].
  rewrite !has_pow2 by lia. unfold u16. by rewrite Z.mod_pow2_bits_low by lia.
Qed.

Lemma has_0_l m : has 0 m = false.
Proof. reflexivity. Qed.

Lemma lor_range a b k : 0 ≤ k → 0 ≤ a < 2 ^ k → 0 ≤ b < 2 ^ k → 0 ≤ Z.lor a b < 2 ^ k.
Proof.
  intros Hk Ha Hb. split; [apply Z.lor_nonneg; lia|].
  rewrite <-(Z.mod_small a (2 ^ k)), <-(Z.mod_small b (2 ^ k)) by done.
  rewrite <-!Z.land_ones, <-Z.land_lor_distr_l, Z.land_ones by done.
  apply Z.mod_pos_bound. lia.
Qed.

Lemma land_range a b k : 0 ≤ k → 0 ≤ a < 2 ^ k → 0 ≤ Z.land a b < 2 ^ k.
Proof.
  intros Hk Ha. split; [apply Z.land_nonneg; lia|].
  rewrite <-(Z.mod_small a (2 ^ k)) by done.
  rewrite <-Z.land_ones, <-Z.land_assoc, (Z.land_comm (Z.ones k)), Z.land_assoc,
    Z.land_ones by done.
  apply Z.mod_pos_bound. lia.
Qed.

(** Decide [one_bit] of a numeral. *)
Ltac one_bit :=
  lazymatch goal with
  | |- one_bit ?m => exists (Z.log2 m); split; [vm_compute; discriminate | reflexivity]
  end.

(** Evaluate the flag tests between numerals. *)
Ltac has_eval :=
  repeat match goal with
  | |- context [has ?a ?b] =>
      let v := eval vm_compute in (has a b) in
      lazymatch v with
      | true => change (has a b) with true
      | false => change (has a b) with false
      end
  | H : context [has ?a ?b] |- _ =>
      let v := eval vm_compute in (has a b) in
      lazymatch v with
      | true => change (has a b) with true in H
      | false => change (has a b) with false in H
      end
  end.

(** Evaluate the equality tests between numerals. *)
Ltac eqb_eval :=
  repeat match goal with
  | |- context [?a =? ?b] =>
      let v := eval vm_compute in (a =? b) in
      lazymatch v with
      | true => change (a =? b) with true
      | false => change (a =? b) with false
      end
  end; cbn [negb andb orb].

#[export] Hint Rewrite has_lor : flags.
#[export] Hint Rewrite has_clr using one_bit : flags.
#[export] Hint Rewrite has_u16 using first [one_bit | reflexivity] : flags.

(** Simplify flag tests: distribute over [|=] and [&= ~], then evaluate. *)
Ltac flag_simpl :=
  autorewrite with flags in *; has_eval;
  rewrite ?orb_false_r, ?orb_true_r, ?andb_true_r, ?andb_false_r in *.

(** ** Lemmas: weakest preconditions *)

Lemma wp_ret {S A} (a : A) Q E (s : S) : wp (mret a) Q E s ↔ Q a s.
Proof. reflexivity. Qed.

Lemma wp_bind {S A B} (m : M S A) (k : A → M S B) Q E s :
  wp (m ≫= k) Q E s ↔ wp m (λ a s', wp (k a) Q E s') E s.
Proof. unfold wp, mbind, M_bind. destruct (m s); reflexivity. Qed.

Lemma wp_gets {S A} (f : S → A) Q E s : wp (gets f) Q E s ↔ Q (f s) s.
Proof. reflexivity. Qed.

Lemma wp_modify {S} (f : S → S) Q E s : wp (modify f) Q E s ↔ Q tt (f s).
Proof. reflexivity. Qed.

Lemma wp_halt {S A} w (Q : A → S → Prop) E s : wp (halt w) Q E s ↔ E w s.
Proof. reflexivity. Qed.

Lemma wp_mono {S A} (m : M S A) (Q Q' : A → S → Prop) (E E' : stuck → S → Prop) s :
  (∀ a s', Q a s' → Q' a s') → (∀ w s', E w s' → E' w s') →
  wp m Q E s → wp m Q' E' s.
Proof. unfold wp. destruct (m s); eauto. Qed.

Lemma wp_when {S} b (m : M S unit) Q E s :
  (b = true → wp m Q E s) → (b = false → Q tt s) → wp (when b m) Q E s.
Proof. intros Ht Hf. destruct b; [by apply Ht | by apply Hf]. Qed.

Lemma wp_for_each {S B} (I : list B → S → Prop) (f : B → M S unit) E :
  ∀ l s, (∀ x rest s', I (x :: rest) s' → wp (f x) (λ _ s'', I rest s'') E s') →
  I l s → wp (for_each l f) (λ _ s', I [] s') E s.
Proof.
  induction l as [|x l IH]; intros s Hf HI; [done|].
  simpl. apply wp_bind. eapply wp_mono; [|done|exact (Hf _ _ _ HI)].
  intros [] s' HI'. by apply IH.
Qed.

Lemma wp_Ret {S A} (m : M S A) Q s :
  wp m Q never s ↔ ∃ a s', m s = Ret a s' ∧ Q a s'.
Proof.
  unfold wp, never. destruct (m s).
  - split; [by eauto|]. intros (?&?&[= -> ->]&?). done.
  - split; [done|]. intros (?&?&?&?). done.
Qed.

(** [m] returns, from any state. *)
Definition returns {S A} (m : M S A) : Prop := ∀ s, ∃ a s', m s = Ret a s'.

Lemma returns_bind {S A B} (m : M S A) (k : A → M S B) :
  returns m → (∀ a, returns (k a)) → returns (m ≫= k).
Proof.
  intros Hm Hk s. destruct (Hm s) as (a & s' & E). unfold mbind, M_bind. rewrite E. apply Hk.
Qed.

Lemma returns_when {S} b (m : M S unit) : returns m → returns (when b m).
Proof. intros Hm. destruct b; [done|]. intros s. by do 2 eexists. Qed.

Lemma wp_returns {S A} (m : M S A) (Q : A → S → Prop) E s :
  returns m → (∀ a s', Q a s') → wp m Q E s.
Proof. intros Hm HQ. destruct (Hm s) as (a & s' & Er). unfold wp. by rewrite Er. Qed.

(** Prove [returns] of straight-line code, given the device's accesses. *)
Ltac returns :=
  repeat match goal with
  | |- returns (mbind _ _) => apply returns_bind; [|intros ?]
  | |- returns (when _ _) => apply returns_when
  | |- returns (match ?x with _ => _ end) => destruct x
  | |- returns (mret _) => intros ?; by do 2 eexists
  | |- returns (modify _) => intros ?; by do 2 eexists
  | |- returns (gets _) => intros ?; by do 2 eexists
  | |- returns _ => solve [auto with returns]
  end.

Create HintDb returns.

Create Rewrite HintDb wp.
#[export] Hint Rewrite @wp_ret @wp_bind @wp_gets @wp_modify @wp_halt : wp.

(** Push a weakest precondition through straight-line code. *)
Ltac wp_step := autorewrite with wp; cbn beta iota.

(** ** Lemmas: loops *)

Lemma bind_assoc {S A B C} (m : M S A) (k : A → M S B) (j : B → M S C) s :
  ((m ≫= k) ≫= j) s = (m ≫= λ a, k a ≫= j) s.
Proof. unfold mbind, M_bind. by destruct (m s). Qed.

Lemma bind_eq {S A B} (m m' : M S A) (k : A → M S B) s :
  m s = m' s → (m ≫= k) s = (m' ≫= k) s.
Proof. unfold mbind, M_bind. by intros ->. Qed.

Lemma bind_Ret {S A B} (m : M S A) (k : A → M S B) s a s' :
  m s = Ret a s' → (m ≫= k) s = k a s'.
Proof. unfold mbind, M_bind. by intros ->. Qed.

Lemma for_each_app {S B} (l1 l2 : list B) (f : B → M S unit) s :
  for_each (l1 ++ l2) f s = (for_each l1 f ;; for_each l2 f) s.
Proof.
  revert s. induction l1 as [|x l1 IH]; intros s; [done|].
  cbn. unfold mbind, M_bind in *. destruct (f x s); [|done]. apply IH.
Qed.

Lemma for_each_ext {S B} (l : list B) (f g : B → M S unit) s :
  (∀ x s, x ∈ l → f x s = g x s) → for_each l f s = for_each l g s.
Proof.
  revert s. induction l as [|x l IH]; intros s Hfg; [done|].
  cbn. unfold mbind, M_bind. rewrite Hfg by set_solver.
  destruct (g x s); [|done]. apply IH. intros. apply Hfg. set_solver.
Qed.

Lemma for_each_map {S B C} (h : C → B) (l : list C) (f : B → M S unit) s :
  for_each (h <$> l) f s = for_each l (λ x, f (h x)) s.
Proof.
  revert s. induction l as [|x l IH]; intros s; [done|].
  cbn. unfold mbind, M_bind. destruct (f (h x) s); [apply IH|done].
Qed.

(** [n] rounds of [c] consecutive iterations are [c * n] iterations. *)
Lemma for_each_rounds {S} (g : nat → M S unit) (c n : nat) s :
  for_each (seq 0 n) (λ l, for_each (seq 0 c) (λ j, g (c * l + j)%nat)) s =
  for_each (seq 0 (c * n)) g s.
Proof.
  revert s. induction n as [|n IH]; intros s; [by rewrite Nat.mul_0_r|].
  rewrite seq_S, for_each_app, Nat.mul_succ_r, seq_app, for_each_app.
  unfold mbind, M_bind. rewrite IH.
  destruct (for_each (seq 0 (c * n)) g s) as [[] s'|]; [|done].
  cbn. unfold mbind, M_bind. cbn.
  replace (seq (c * n) c) with (Nat.add (c * n) <$> seq 0 c)
    by (by rewrite fmap_add_seq, Nat.add_0_r).
  rewrite for_each_map. by destruct (for_each _ _ s') as [[]|].
Qed.

(** A transfer unrolled eight times, after the odd words, is the plain loop. *)
Lemma for_each_duff {S} (f : nat → M S unit) (k n : nat) s :
  (for_each (seq 0 k) f ;;
   for_each (seq 0 n) (λ l, for_each (seq 0 8) (λ j, f (k + 8 * l + j)%nat))) s =
  for_each (seq 0 (k + 8 * n)) f s.
Proof.
  rewrite seq_app, for_each_app. unfold mbind, M_bind.
  destruct (for_each (seq 0 k) f s) as [[] s'|]; [|done].
  replace (seq (0 + k) (8 * n)) with (Nat.add k <$> seq 0 (8 * n))
    by (by rewrite fmap_add_seq, Nat.add_0_r).
  rewrite for_each_map, <-(for_each_rounds (λ i, f (k + i)%nat)).
  apply for_each_ext. intros l s'' _. apply for_each_ext. intros j s3 _.
  by rewrite Nat.add_assoc.
Qed.

Lemma wp_for_each_seq {S} (I : nat → S → Prop) (f : nat → M S unit) E : ∀ n b s,
  (∀ i s', (b ≤ i < b + n)%nat → I i s' → wp (f i) (λ _ s'', I (i + 1)%nat s'') E s') →
  I b s → wp (for_each (seq b n) f) (λ _ s', I (b + n)%nat s') E s.
Proof.
  induction n as [|n IH]; intros b s Hf HI; cbn.
  { by rewrite Nat.add_0_r. }
  apply wp_bind. eapply wp_mono; [|done|apply (Hf b); [lia|done]].
  intros [] s' HI'. replace (b + Datatypes.S n)%nat with (Datatypes.S b + n)%nat by lia.
  apply IH.
  - intros i s'' Hi. apply Hf. lia.
  - by rewrite Nat.add_1_r in HI'.
Qed.

(** ** Lemmas: little-endian memory *)

Lemma list_ind4 {A} (P : list A → Prop) :
  P [] → (∀ a, P [a]) → (∀ a b, P [a; b]) → (∀ a b c, P [a; b; c]) →
  (∀ a b c d l, P l → P (a :: b :: c :: d :: l)) → ∀ l, P l.
Proof.
  intros H0 H1 H2 H3 H4. fix IH 1.
  intros [|a [|b [|c [|d l]]]]; [apply H0|apply H1|apply H2|apply H3|].
  apply H4, IH.
Qed.

Lemma bytes_of_word_of_bytes b0 b1 b2 b3 :
  is_byte b0 → is_byte b1 → is_byte b2 → is_byte b3 →
  bytes_of_word (word_of_bytes b0 b1 b2 b3) = [b0; b1; b2; b3].
Proof.
  unfold is_byte, bytes_of_word, word_of_bytes, u8. intros.
  repeat f_equal; Z.div_mod_to_equations; lia.
Qed.

Lemma word_of_bytes_of_word w :
  is_word w →
  word_of_bytes (u8 w) (u8 (w / 2 ^ 8)) (u8 (w / 2 ^ 16)) (u8 (w / 2 ^ 24)) = w.
Proof.
  unfold is_word, word_of_bytes, u8. intros.
  Z.div_mod_to_equations. lia.
Qed.

Lemma word_of_bytes_range b0 b1 b2 b3 :
  is_byte b0 → is_byte b1 → is_byte b2 → is_byte b3 →
  is_word (word_of_bytes b0 b1 b2 b3).
Proof. unfold is_byte, is_word, word_of_bytes. lia. Qed.

Lemma bytes_of_words_cons w ws :
  bytes_of_words (w :: ws) = bytes_of_word w ++ bytes_of_words ws.
Proof. reflexivity. Qed.

Lemma length_bytes_of_words ws : length (bytes_of_words ws) = (4 * length ws)%nat.
Proof.
  induction ws as [|w ws IH]; [done|].
  rewrite bytes_of_words_cons, length_app, IH. cbn [length bytes_of_word]. lia.
Qed.

Lemma words_of_bytes_of_words ws :
  Forall is_word ws → words_of_bytes (bytes_of_words ws) = ws.
Proof.
  induction 1 as [|w ws Hw _ IH]; [done|].
  rewrite bytes_of_words_cons. cbn -[bytes_of_words].
  rewrite IH, word_of_bytes_of_word by done. done.
Qed.

Lemma length_words_of_bytes bs :
  length (words_of_bytes bs) = ((length bs + 3) / 4)%nat.
Proof.
  induction bs as [|a|a b|a b c|a b c d l IH] using list_ind4; try reflexivity.
  cbn [words_of_bytes length]. rewrite IH.
  replace (S (S (S (S (length l)))) + 3)%nat with (length l + 3 + 1 * 4)%nat by lia.
  rewrite Nat.div_add by lia. lia.
Qed.

Lemma bytes_of_words_of_bytes bs :
  Forall is_byte bs →
  take (length bs) (bytes_of_words (words_of_bytes bs)) = bs.
Proof.
  assert (is_byte 0) as H0 by (unfold is_byte; lia).
  induction bs as [|a|a b|a b c|a b c d l IH] using list_ind4; intros H; [done|..].
  1-3: rewrite !Forall_cons_iff in H; destruct_and?; cbn [words_of_bytes];
    rewrite bytes_of_words_cons, bytes_of_word_of_bytes by done; reflexivity.
  rewrite !Forall_cons_iff in H. destruct_and?.
  cbn [words_of_bytes]. rewrite bytes_of_words_cons, bytes_of_word_of_bytes by done.
  cbn -[bytes_of_words]. rewrite IH by done. done.
Qed.

Lemma words_of_bytes_range bs :
  Forall is_byte bs → Forall is_word (words_of_bytes bs).
Proof.
  assert (is_byte 0) as H0 by (unfold is_byte; lia).
  induction bs as [|a|a b|a b c|a b c d l IH] using list_ind4; intros H;
    decompose_Forall_hyps; cbn [words_of_bytes];
    repeat constructor; try apply word_of_bytes_range; auto.
  all: by apply word_of_bytes_range.
Qed.

Lemma bytes_of_words_range ws : Forall is_byte (bytes_of_words ws).
Proof.
  induction ws as [|w ws IH]; [constructor|].
  rewrite bytes_of_words_cons. apply Forall_app. split; [|done].
  unfold bytes_of_word. repeat (apply Forall_cons_2; [apply u8_range|]). constructor.
Qed.

Lemma bytes_of_words_take k ws :
  bytes_of_words (take k ws) = take (4 * k) (bytes_of_words ws).
Proof.
  revert k. induction ws as [|w ws IH]; intros [|k]; [done|done|done|].
  cbn [take]. rewrite !bytes_of_words_cons, IH.
  replace (4 * S k)%nat with (length (bytes_of_word w) + 4 * k)%nat by (cbn; lia).
  by rewrite take_app_add.
Qed.

(** Words made from some bytes, read back as bytes, start with these bytes. *)
Lemma take_bytes_of_words n bs :
  Forall is_byte bs → (n ≤ length bs)%nat →
  take n (bytes_of_words (words_of_bytes bs)) = take n bs.
Proof.
  intros Hb Hn. rewrite <-(bytes_of_words_of_bytes bs Hb) at 2.
  by rewrite take_take, Nat.min_l.
Qed.

(** ** Lemmas: filters *)

Section Filter.
Context {A : Type} (P : A → Prop) `{∀ x, Decision (P x)}.

Lemma list_filter_all (l : list A) : Forall P l → filter P l = l.
Proof. induction 1 as [|x l Hx _ IH]; [done|]. rewrite filter_cons_True by done. by f_equal. Qed.

Lemma list_filter_none (l : list A) : Forall (λ x, ¬ P x) l → filter P l = [].
Proof. induction 1 as [|x l Hx _ IH]; [done|]. by rewrite filter_cons_False. Qed.

Lemma filter_nil_Forall (l : list A) : filter P l = [] → Forall (λ x, ¬ P x) l.
Proof.
  induction l as [|x l IH]; [by constructor|]. rewrite filter_cons.
  destruct (decide (P x)); [done|]. intros E. constructor; [done|by apply IH].
Qed.

End Filter.

(** ** Lemmas: sums *)

Definition sumZ {A} (f : A → Z) (l : list A) : Z := foldr (λ x n, f x + n) 0 l.

Lemma sumZ_cons {A} (f : A → Z) x l : sumZ f (x :: l) = f x + sumZ f l.
Proof. done. Qed.

Lemma sumZ_app {A} (f : A → Z) l1 l2 : sumZ f (l1 ++ l2) = sumZ f l1 + sumZ f l2.
Proof. induction l1 as [|x l1 IH]; [done|]. rewrite <-app_comm_cons, !sumZ_cons, IH. lia. Qed.

Lemma sumZ_insert {A} (f : A → Z) l (i : nat) x y : l !! i = Some x → sumZ f (<[i := y]> l) = sumZ f l - f x + f y.
Proof.
  revert i. induction l as [|z l IH]; intros [|i] E; try done; cbn in E; cbn [insert list_insert]; rewrite !sumZ_cons.
  - injection E as <-. lia.
  - rewrite IH by done. lia.
Qed.

Lemma sumZ_ext {A} (f g : A → Z) l : (∀ x, x ∈ l → f x = g x) → sumZ f l = sumZ g l.
Proof.
  induction l as [|x l IH]; intros H; [done|]. rewrite !sumZ_cons, (H x), IH; [done| |by apply list_elem_of_here].
  intros y Hy. apply H. by apply list_elem_of_further.
Qed.
