(* ===== verification/Ring.v ===== *)
(** * Ring: the control-port ring buffers of the MRP driver

    Models [struct ringbuf_s], [ringbuf_put] and [ringbuf_get] of
    include/linux/ps2mrp-psnet.h.  The indices are free-running 32-bit
    counters that are masked on every access, so they wrap around at [2 ^ 32]
    while the buffer wraps around at [RINGBUF_SIZE].

    The interface [BoundedFifo] states what the driver relies on: a queue
    with an abstract content, a capacity, and put and get that act on the two
    ends of the content.  [ring_fifo] discharges it for the ring buffer. *)

From S2P Require Import Prelude.

(** ** Code *)

Definition RINGBUF_SIZE : Z := 0x1000.
Definition RINGBUF_INDEX_MASK : Z := 0xfff.

Record ringbuf_s := MkRing {
  buf : list Z;
  write_index : Z;
  read_index : Z;
  count : Z;
}.

Definition ringbuf_put (ring : ringbuf_s) (x : Z) : ringbuf_s :=
  let index := Z.land (write_index ring) RINGBUF_INDEX_MASK in
  {| buf := <[Z.to_nat index := u8 x]> (buf ring);
     write_index := u32 (write_index ring + 1);
     read_index := read_index ring;
     count := u32 (count ring + 1) |}.

Definition ringbuf_get (ring : ringbuf_s) : Z * ringbuf_s :=
  let index := Z.land (read_index ring) RINGBUF_INDEX_MASK in
  let rc := default 0 (buf ring !! Z.to_nat index) in
  (rc, {| buf := buf ring;
          write_index := write_index ring;
          read_index := u32 (read_index ring + 1);
          count := u32 (count ring - 1) |}).

(** The state [memset] and [mrp_reset] leave: no element, whatever the bytes. *)
Definition ring_clear (ring : ringbuf_s) : ringbuf_s :=
  {| buf := buf ring; write_index := 0; read_index := 0; count := 0 |}.

Definition ring_zero : ringbuf_s :=
  {| buf := replicate (Z.to_nat RINGBUF_SIZE) 0;
     write_index := 0; read_index := 0; count := 0 |}.

(** ** The interface the driver uses *)

Class BoundedFifo (Q : Type) := {
  fifo_ok : Q → Prop;
  fifo_content : Q → list Z;
  fifo_count : Q → Z;
  fifo_capacity : Z;
  fifo_put : Q → Z → Q;
  fifo_get : Q → Z * Q;
  fifo_count_spec q : fifo_ok q → fifo_count q = Z.of_nat (length (fifo_content q));
  fifo_bound q : fifo_ok q → fifo_count q ≤ fifo_capacity;
  fifo_put_spec q x :
    fifo_ok q → fifo_count q < fifo_capacity →
    fifo_ok (fifo_put q x) ∧ fifo_content (fifo_put q x) = fifo_content q ++ [u8 x];
  fifo_get_spec q :
    fifo_ok q → 0 < fifo_count q →
    fifo_ok (fifo_get q).2 ∧
    fifo_content q = (fifo_get q).1 :: fifo_content (fifo_get q).2;
}.

(** ** Invariant and abstraction of the ring buffer *)

Definition slot (i : Z) : nat := Z.to_nat (i mod RINGBUF_SIZE).

Definition ring_at (r : ringbuf_s) (i : Z) : Z := default 0 (buf r !! slot i).

Definition ring_content (r : ringbuf_s) : list Z :=
  (λ k, ring_at r (read_index r + Z.of_nat k)) <$> seq 0 (Z.to_nat (count r)).

Record ring_ok (r : ringbuf_s) : Prop := {
  ring_len : length (buf r) = Z.to_nat RINGBUF_SIZE;
  ring_count : 0 ≤ count r ≤ RINGBUF_SIZE;
  ring_read : 0 ≤ read_index r < 2 ^ 32;
  ring_write : write_index r = u32 (read_index r + count r);
}.

(** A queue of bytes with the ring's capacity: the abstract machine. *)
Inductive ring_op := OPut (x : Z) | OGet.

Fixpoint spec_run (ops : list ring_op) (q : list Z) : option (list Z * list Z) :=
  match ops with
  | [] => Some ([], q)
  | OPut x :: ops' =>
      if Z.of_nat (length q) <? RINGBUF_SIZE then spec_run ops' (q ++ [u8 x]) else None
  | OGet :: ops' =>
      match q with
      | [] => None
      | y :: q' =>
          match spec_run ops' q' with
          | Some (ys, q'') => Some (y :: ys, q'')
          | None => None
          end
      end
  end.

Fixpoint ring_run (ops : list ring_op) (r : ringbuf_s) : list Z * ringbuf_s :=
  match ops with
  | [] => ([], r)
  | OPut x :: ops' => ring_run ops' (ringbuf_put r x)
  | OGet :: ops' =>
      let '(y, r') := ringbuf_get r in
      let '(ys, r'') := ring_run ops' r' in
      (y :: ys, r'')
  end.

(** ** Lemmas *)

Lemma mask_slot i : Z.to_nat (Z.land i RINGBUF_INDEX_MASK) = slot i.
Proof.
  unfold slot. change RINGBUF_INDEX_MASK with (Z.ones 12).
  rewrite Z.land_ones by lia. done.
Qed.

(** The ring's slots do not see the wrap-around of the 32-bit indices. *)
Lemma slot_u32 i : slot (u32 i) = slot i.
Proof.
  unfold slot, u32, RINGBUF_SIZE.
  rewrite Z.mod_mod_divide; [done|].
  exists (2 ^ 20). reflexivity.
Qed.

Lemma slot_lt i : (slot i < Z.to_nat RINGBUF_SIZE)%nat.
Proof.
  unfold slot, RINGBUF_SIZE.
  pose proof (Z.mod_pos_bound i 0x1000 ltac:(lia)). lia.
Qed.

Lemma slot_ne i j : 0 < j - i < RINGBUF_SIZE → slot i ≠ slot j.
Proof.
  unfold slot, RINGBUF_SIZE. intros H Heq.
  pose proof (Z.mod_pos_bound i 0x1000 ltac:(lia)).
  pose proof (Z.mod_pos_bound j 0x1000 ltac:(lia)).
  assert (i mod 0x1000 = j mod 0x1000) as E by lia.
  Z.div_mod_to_equations. lia.
Qed.

Lemma length_ring_content r : ring_ok r → Z.of_nat (length (ring_content r)) = count r.
Proof.
  intros [? ? ? ?]. unfold ring_content. rewrite length_fmap, length_seq. lia.
Qed.

Lemma ring_put_spec r x :
  ring_ok r → count r < RINGBUF_SIZE →
  ring_ok (ringbuf_put r x) ∧
  ring_content (ringbuf_put r x) = ring_content r ++ [u8 x].
Proof.
  intros [Hlen Hc Hr Hw] Hlt. unfold ringbuf_put. rewrite mask_slot.
  assert (Hcnt : u32 (count r + 1) = count r + 1)
    by (apply u32_id; unfold RINGBUF_SIZE in *; lia).
  split.
  { split; cbn [buf count read_index write_index].
    - by rewrite length_insert.
    - rewrite Hcnt. lia.
    - done.
    - rewrite Hw, Hcnt. autorewrite with bits. f_equal. lia. }
  unfold ring_content, ring_at. cbn [buf count read_index write_index].
  rewrite Hcnt, Z2Nat.inj_add by lia.
  change (Z.to_nat 1) with 1%nat. rewrite Nat.add_1_r, seq_S, fmap_app. cbn [fmap list_fmap].
  assert (Hs : slot (write_index r) = slot (read_index r + count r))
    by (rewrite Hw; apply slot_u32).
  f_equal.
  - apply list_fmap_ext. intros i k Hk. f_equal.
    apply lookup_seq in Hk as [-> Hk]. rewrite list_lookup_insert_ne; [done|].
    rewrite Hs. intros Heq. symmetry in Heq. revert Heq. apply slot_ne.
    unfold RINGBUF_SIZE in *. lia.
  - do 2 f_equal. rewrite Nat.add_0_l, Z2Nat.id by lia. rewrite <-Hs.
    rewrite list_lookup_insert_eq; [done|]. rewrite Hlen. apply slot_lt.
Qed.

Lemma ring_get_spec r :
  ring_ok r → 0 < count r →
  ring_ok (ringbuf_get r).2 ∧
  ring_content r = (ringbuf_get r).1 :: ring_content (ringbuf_get r).2.
Proof.
  intros [Hlen Hc Hr Hw] Hpos. unfold ringbuf_get. rewrite mask_slot.
  assert (Hcnt : u32 (count r - 1) = count r - 1)
    by (apply u32_id; unfold RINGBUF_SIZE in *; lia).
  split.
  { split; cbn [snd buf count read_index write_index].
    - done.
    - rewrite Hcnt. lia.
    - apply u32_range.
    - rewrite Hw, Hcnt. autorewrite with bits. f_equal. lia. }
  unfold ring_content, ring_at. cbn [fst snd buf count read_index write_index].
  rewrite Hcnt.
  replace (Z.to_nat (count r)) with (S (Z.to_nat (count r - 1))) by lia.
  cbn [seq fmap list_fmap]. f_equal.
  - by rewrite Z.add_0_r.
  - rewrite <-fmap_S_seq, <-list_fmap_compose. apply list_fmap_ext. intros i k _.
    unfold compose. do 2 f_equal.
    rewrite <-(slot_u32 (u32 _ + _)). autorewrite with bits.
    rewrite slot_u32. f_equal. lia.
Qed.

#[export] Instance ring_fifo : BoundedFifo ringbuf_s.
Proof.
  refine {| fifo_ok := ring_ok; fifo_content := ring_content; fifo_count := count;
            fifo_capacity := RINGBUF_SIZE; fifo_put := ringbuf_put;
            fifo_get := ringbuf_get |}.
  - intros q Hq. by rewrite length_ring_content.
  - intros q [? ? ? ?]. lia.
  - intros q x. apply ring_put_spec.
  - intros q. apply ring_get_spec.
Defined.

Lemma ring_zero_ok : ring_ok ring_zero.
Proof.
  split; cbn [buf count read_index write_index ring_zero];
    rewrite ?length_replicate; unfold RINGBUF_SIZE; done || lia.
Qed.

Lemma ring_clear_ok r : ring_ok r → ring_ok (ring_clear r) ∧ ring_content (ring_clear r) = [].
Proof.
  intros [Hlen _ _ _]. split; [|done].
  split; cbn [buf count read_index write_index ring_clear];
    unfold RINGBUF_SIZE in *; done || lia.
Qed.

Lemma ring_run_refines ops : ∀ r q ys q',
  ring_ok r → ring_content r = q → spec_run ops q = Some (ys, q') →
  (ring_run ops r).1 = ys ∧ ring_ok (ring_run ops r).2 ∧
  ring_content (ring_run ops r).2 = q'.
Proof.
  induction ops as [|[x|] ops IH]; intros r q ys q' Hok Hq Hrun;
    cbn [ring_run spec_run] in Hrun |- *.
  - by simplify_eq/=.
  - case_match eqn:E; [|done]. to_prop.
    rewrite <-Hq, (length_ring_content r Hok) in E.
    destruct (ring_put_spec r x Hok E) as [Hok' Hc'].
    apply (IH _ _ _ _ Hok' eq_refl). by rewrite Hc', Hq.
  - destruct q as [|y q0]; [done|].
    destruct (spec_run ops q0) as [[ys0 q1]|] eqn:E; [|done]. simplify_eq.
    assert (0 < count r) as Hpos.
    { rewrite <-(length_ring_content r Hok), Hq. cbn. lia. }
    destruct (ring_get_spec r Hok Hpos) as [Hok' Hc'].
    destruct (ringbuf_get r) as [z r']. cbn [fst snd] in *.
    rewrite Hq in Hc'. simplify_eq.
    destruct (IH _ _ _ _ Hok' eq_refl E) as (H1 & H2 & H3).
    destruct (ring_run ops r') as [zs r'']. cbn in *. by subst.
Qed.

(** ** Properties *)

(** C4: the ring buffer is a bounded first-in first-out queue.  Whatever
    sequence of puts and gets a queue of capacity [RINGBUF_SIZE] allows
    (never a put on a full queue, never a get on an empty one), the ring
    returns the same bytes in the same order and keeps its invariant, for any
    position of its free-running indices, wrap-around at [2 ^ 32] included. *)
Theorem ring_refines_queue (ops : list ring_op) (r : ringbuf_s) (ys q' : list Z) :
  ring_ok r → spec_run ops (ring_content r) = Some (ys, q') →
  (ring_run ops r).1 = ys ∧ ring_ok (ring_run ops r).2 ∧
  ring_content (ring_run ops r).2 = q'.
Proof. intros Hok. by apply ring_run_refines. Qed.

(** A ring whose indices are about to wrap around. *)
Definition ring_at_wrap : ringbuf_s :=
  {| buf := replicate (Z.to_nat RINGBUF_SIZE) 7;
     write_index := 2 ^ 32 - 1; read_index := 2 ^ 32 - 1; count := 0 |}.

Lemma ring_at_wrap_ok : ring_ok ring_at_wrap.
Proof.
  split; cbn [buf count read_index write_index ring_at_wrap];
    rewrite ?length_replicate; unfold RINGBUF_SIZE; done || lia.
Qed.

Lemma ring_refines_queue_witness :
  (ring_run [OPut 0x141; OPut 2; OGet; OPut 3; OGet] ring_at_wrap).1 = [0x41; 2] ∧
  ring_ok (ring_run [OPut 0x141; OPut 2; OGet; OPut 3; OGet] ring_at_wrap).2 ∧
  ring_content (ring_run [OPut 0x141; OPut 2; OGet; OPut 3; OGet] ring_at_wrap).2 = [3].
Proof.
  apply (ring_refines_queue [OPut 0x141; OPut 2; OGet; OPut 3; OGet]
           ring_at_wrap [0x41; 2] [3] ring_at_wrap_ok).
  vm_compute. reflexivity.
Defined.
