(* ===== verification/Irq.v ===== *)
(** * Irq: interrupt lines and their handlers

    Models arch/i386/kernel/irq.c: the mask of the two interrupt controllers
    ([mask_irq], [unmask_irq], [enable_irq], [disable_irq]), the chains of
    handlers ([setup_x86_irq], [request_irq], [free_irq]), the dispatch of an
    interrupt ([do_IRQ], [do_fast_IRQ]) and the probing for an interrupt line
    ([probe_irq_on], [probe_irq_off]); and what the assembly entry points of
    include/asm-i386/irq.h do to the mask around it ([irq_enter], [irq_leave]).
    Built without [__SMP__].

    A handler is a number, 0 for NULL; so is a [dev_id].  A chain of
    [struct irqaction] linked by [next] is a list.  [pic_21] and [pic_A1] are
    the mask registers of the controllers behind ports 0x21 and 0xA1. *)

From stdpp Require Import strings.
From S2P Require Import Prelude.

(** ** Code *)

Definition SA_SHIRQ : Z := 0x04000000.
Definition SA_INTERRUPT : Z := 0x20000000.
Definition SA_SAMPLE_RANDOM : Z := 0x10000000.
Definition NR_IRQS : nat := 16.

Record irqaction := MkAction {
  handler : Z;
  act_flags : Z;
  mask : Z;
  act_name : string;
  dev_id : Z;
}.

(** The interrupt gate of a line. *)
Inductive gate := BadGate | SlowGate | FastGate.

#[global] Instance gate_eq_dec : EqDecision gate.
Proof. solve_decision. Defined.

(** What the dispatch does, in order. *)
Inductive irq_ev :=
| Call (h dev irq : Z)       (** a handler is called *)
| RandInit (irq : Z)         (** [rand_initialize_irq] *)
| RandAdd (irq : Z).         (** [add_interrupt_randomness] *)

Record irq_state := MkIrqs {
  irq_action : list (list irqaction);
  gates : list gate;
  cache_21 : Z;
  cache_A1 : Z;
  pic_21 : Z;
  pic_A1 : Z;
  interrupts : list Z;       (** [kstat.interrupts] *)
  irq_log : list irq_ev;
}.

#[global] Instance eta_irqs : Eta irq_state := λ x,
  MkIrqs (irq_action x) (gates x) (cache_21 x) (cache_A1 x) (pic_21 x) (pic_A1 x)
    (interrupts x) (irq_log x).

Definition chain (x : irq_state) (irq : Z) : list irqaction :=
  default [] (irq_action x !! Z.to_nat irq).

Definition gate_of (x : irq_state) (irq : Z) : gate :=
  default BadGate (gates x !! Z.to_nat irq).

Definition set_chain (irq : Z) (l : list irqaction) (x : irq_state) : irq_state :=
  x <| irq_action := <[Z.to_nat irq := l]> (irq_action x) |>.

Definition set_intr_gate (irq : Z) (g : gate) (x : irq_state) : irq_state :=
  x <| gates := <[Z.to_nat irq := g]> (gates x) |>.

Definition mask_irq (irq_nr : Z) (x : irq_state) : irq_state :=
  let mask := u8 (Z.shiftl 1 (Z.land irq_nr 7)) in
  if irq_nr <? 8 then
    let c := Z.lor (cache_21 x) mask in x <| cache_21 := c |> <| pic_21 := c |>
  else
    let c := Z.lor (cache_A1 x) mask in x <| cache_A1 := c |> <| pic_A1 := c |>.

Definition unmask_irq (irq_nr : Z) (x : irq_state) : irq_state :=
  let mask := u8 (Z.lnot (Z.shiftl 1 (Z.land irq_nr 7))) in
  if irq_nr <? 8 then
    let c := Z.land (cache_21 x) mask in x <| cache_21 := c |> <| pic_21 := c |>
  else
    let c := Z.land (cache_A1 x) mask in x <| cache_A1 := c |> <| pic_A1 := c |>.

(** With interrupts off, which changes nothing else. *)
Definition disable_irq (irq_nr : Z) (x : irq_state) : irq_state := mask_irq irq_nr x.
Definition enable_irq (irq_nr : Z) (x : irq_state) : irq_state := unmask_irq irq_nr x.

(** [while (action)]: call each handler, collect the flags. *)
Fixpoint run_chain (irq : Z) (l : list irqaction) (do_random : Z) (x : irq_state) : Z * irq_state :=
  match l with
  | [] => (do_random, x)
  | a :: l' =>
      run_chain irq l' (Z.lor do_random (act_flags a))
        (x <| irq_log := irq_log x ++ [Call (handler a) (dev_id a) irq] |>)
  end.

Definition count_irq (irq : Z) (x : irq_state) : irq_state :=
  let n := default 0 (interrupts x !! Z.to_nat irq) in
  x <| interrupts := <[Z.to_nat irq := u32 (n + 1)]> (interrupts x) |>.

Definition do_fast_IRQ (irq : Z) (x : irq_state) : irq_state :=
  let action := chain x irq in
  let x := count_irq irq x in
  let '(do_random, x) := run_chain irq action 0 x in
  if has do_random SA_SAMPLE_RANDOM then x <| irq_log := irq_log x ++ [RandAdd irq] |> else x.

(** The assembly stub has masked the line when [do_IRQ] runs. *)
Definition do_IRQ (irq : Z) (x : irq_state) : irq_state :=
  let '(c, intm, mask) :=
    if 8 <=? irq then (cache_A1 x, pic_A1 x, Z.shiftl 1 (irq - 8))
    else (cache_21 x, pic_21 x, Z.shiftl 1 irq) in
  if negb (has c mask) || negb (has intm mask) then x
  else do_fast_IRQ irq x.

Definition setup_x86_irq (irq : Z) (new : irqaction) (x : irq_state) : Z * irq_state :=
  let install (shared : bool) (p : list irqaction) :=
    let x := if has (act_flags new) SA_SAMPLE_RANDOM
             then x <| irq_log := irq_log x ++ [RandInit irq] |> else x in
    let x := set_chain irq (p ++ [new]) x in
    let x := if shared then x
             else unmask_irq irq
               (set_intr_gate irq (if has (act_flags new) SA_INTERRUPT then FastGate
                                   else SlowGate) x) in
    (0, x) in
  match chain x irq with
  | [] => install false []
  | old :: _ =>
      if Z.land (Z.land (act_flags old) (act_flags new)) SA_SHIRQ =? 0 then (- EBUSY, x)
      else if has (Z.lxor (act_flags old) (act_flags new)) SA_INTERRUPT then (- EBUSY, x)
      else install true (chain x irq)
  end.

(** [kmalloc_ok]: whether [kmalloc] finds memory for the [irqaction]. *)
Definition request_irq (irq h irqflags : Z) (devname : string) (dev : Z) (kmalloc_ok : bool)
    (x : irq_state) : Z * irq_state :=
  if 15 <? irq then (- EINVAL, x)
  else if h =? 0 then (- EINVAL, x)
  else if negb kmalloc_ok then (- ENOMEM, x)
  else setup_x86_irq irq
         {| handler := h; act_flags := irqflags; mask := 0; act_name := devname; dev_id := dev |} x.

(** The chain without its first action for [dev]; [None] when there is none. *)
Fixpoint unlink (dev : Z) (l : list irqaction) : option (list irqaction) :=
  match l with
  | [] => None
  | a :: l' => if dev_id a =? dev then Some l' else cons a <$> unlink dev l'
  end.

Definition free_irq (irq dev : Z) (x : irq_state) : irq_state :=
  if 15 <? irq then x
  else
    match unlink dev (chain x irq) with
    | None => x
    | Some l =>
        let x := set_chain irq l x in
        match l with
        | [] => set_intr_gate irq BadGate (mask_irq irq x)
        | _ => x
        end
    end.

(** ** Probing *)

(** [for (i = 15; i > 0; i--)] *)
Fixpoint enable_free (n : nat) (irqs : Z) (x : irq_state) : Z * irq_state :=
  match n with
  | O => (irqs, x)
  | S n' =>
      let i := Z.of_nat n in
      match chain x i with
      | [] => enable_free n' (Z.lor irqs (Z.shiftl 1 i)) (enable_irq i x)
      | _ => enable_free n' irqs x
      end
  end.

Definition irqmask (x : irq_state) : Z := Z.lor (Z.shiftl (cache_A1 x) 8) (cache_21 x).

(** [wait] is what happens during the 100 ms of waiting: lines that interrupt
    without a handler mask themselves. *)
Definition probe_irq_on (wait : irq_state → irq_state) (x : irq_state) : Z * irq_state :=
  let '(irqs, x) := enable_free 15 0 x in
  let x := wait x in
  (Z.land irqs (Z.lnot (irqmask x)), x).

(** [ffz(~irqs)]: the number of the lowest bit that is set. *)
Fixpoint low_bit (n : nat) (i w : Z) : Z :=
  match n with
  | O => i
  | S n' => if Z.testbit w i then i else low_bit n' (i + 1) w
  end.

Definition ffs (w : Z) : Z := low_bit 32 0 w.

Definition probe_irq_off (irqs : Z) (x : irq_state) : Z :=
  let irqs := Z.land irqs (irqmask x) in
  if irqs =? 0 then 0
  else
    let i := ffs irqs in
    if negb (irqs =? Z.land irqs (Z.shiftl 1 i)) then s32 (- i) else i.

(** The state before [init_IRQ]. *)
Definition irqs_init : irq_state :=
  {| irq_action := replicate NR_IRQS []; gates := replicate NR_IRQS BadGate;
     cache_21 := 0xff; cache_A1 := 0xff; pic_21 := 0xff; pic_A1 := 0xff;
     interrupts := replicate NR_IRQS 0; irq_log := [] |}.

(** [no_action] and [math_error_irq]. *)
Definition irq2 : irqaction :=
  {| handler := 1; act_flags := 0; mask := 0; act_name := "cascade"; dev_id := 0 |}.
Definition irq13 : irqaction :=
  {| handler := 2; act_flags := 0; mask := 0; act_name := "math error"; dev_id := 0 |}.

Definition init_IRQ (x : irq_state) : irq_state :=
  let x := foldr (λ i x, set_intr_gate (Z.of_nat i) BadGate x) x (seq 0 NR_IRQS) in
  let x := (setup_x86_irq 2 irq2 x).2 in
  (setup_x86_irq 13 irq13 x).2.

(** ** Invariant *)

Definition line (irq : Z) : Prop := 0 ≤ irq < 16.

(** Whether a line is masked, as the kernel sees it. *)
Definition masked (x : irq_state) (irq : Z) : bool :=
  if irq <? 8 then Z.testbit (cache_21 x) irq else Z.testbit (cache_A1 x) (irq - 8).

Definition fast (a : irqaction) : bool := has (act_flags a) SA_INTERRUPT.
Definition shareable (a : irqaction) : bool := has (act_flags a) SA_SHIRQ.

(** The actions on one line agree on sharing it and on their type. *)
Definition chain_ok (l : list irqaction) : Prop :=
  match l with
  | [] => True
  | a :: l' => (l' = [] ∨ shareable a = true) ∧
               Forall (λ b, shareable b = true ∧ fast b = fast a) l'
  end.

(** The gate that belongs to a chain. *)
Definition gate_for (l : list irqaction) : gate :=
  match l with
  | [] => BadGate
  | a :: _ => if fast a then FastGate else SlowGate
  end.

(** [busy] are the lines that may be masked although they have an action. *)
Record irq_inv_in (busy : list Z) (x : irq_state) : Prop := {
  irq_chains : length (irq_action x) = NR_IRQS;
  irq_gates : length (gates x) = NR_IRQS;
  irq_21 : pic_21 x = cache_21 x;
  irq_A1 : pic_A1 x = cache_A1 x;
  irq_ok irq : line irq → chain_ok (chain x irq);
  irq_gate irq : line irq → gate_of x irq = gate_for (chain x irq);
  irq_live irq : line irq → irq ∉ busy → chain x irq ≠ [] → masked x irq = false;
}.

Arguments irq_chains {busy} x _.
Arguments irq_ok {busy} x _.
Arguments irq_gate {busy} x _.
Arguments irq_live {busy} x _.

Abbreviation irq_inv := (irq_inv_in []).

(** ** Lemmas *)

Lemma has_lxor a b m : one_bit m → has (Z.lxor a b) m = xorb (has a m) (has b m).
Proof. intros (k & Hk & ->). rewrite !has_pow2 by done. apply Z.lxor_spec. Qed.

Lemma has_land a b m : one_bit m → has (Z.land a b) m = has a m && has b m.
Proof. intros (k & Hk & ->). rewrite !has_pow2 by done. apply Z.land_spec. Qed.

Lemma low3 i : 0 ≤ i → Z.land i 7 = i mod 8.
Proof. intros Hi. change 7 with (Z.ones 3). by rewrite Z.land_ones by lia. Qed.

Lemma testbit_set c i j :
  0 ≤ i < 8 → 0 ≤ j < 8 → Z.testbit (Z.lor c (u8 (Z.shiftl 1 i))) j = Z.testbit c j || (i =? j).
Proof.
  intros Hi Hj. rewrite Z.lor_spec. f_equal.
  unfold u8. by rewrite Z.mod_pow2_bits_low, Z.shiftl_1_l, Z.pow2_bits_eqb by lia.
Qed.

Lemma testbit_clear c i j :
  0 ≤ i < 8 → 0 ≤ j < 8 →
  Z.testbit (Z.land c (u8 (Z.lnot (Z.shiftl 1 i)))) j = Z.testbit c j && negb (i =? j).
Proof.
  intros Hi Hj. rewrite Z.land_spec. f_equal.
  unfold u8. by rewrite Z.mod_pow2_bits_low, Z.lnot_spec, Z.shiftl_1_l, Z.pow2_bits_eqb by lia.
Qed.

(** The bit of a line in its controller. *)
Lemma line_bit i : line i → Z.land i 7 = if i <? 8 then i else i - 8.
Proof.
  intros [H1 H2]. rewrite low3 by lia. destruct (Z.ltb_spec i 8); Z.div_mod_to_equations; lia.
Qed.

Lemma masked_mask i j x : line i → line j → masked (mask_irq i x) j = masked x j || (i =? j).
Proof.
  intros Hi Hj. unfold masked, mask_irq. rewrite line_bit by done. unfold line in *.
  destruct (Z.ltb_spec i 8), (Z.ltb_spec j 8); cbn [cache_21 cache_A1 upd];
    rewrite ?testbit_set by lia; rewrite ?(proj2 (Z.eqb_neq i j)), ?orb_false_r by lia; try done.
  f_equal. destruct (Z.eqb_spec i j), (Z.eqb_spec (i - 8) (j - 8)); done || lia.
Qed.

Lemma masked_unmask i j x :
  line i → line j → masked (unmask_irq i x) j = masked x j && negb (i =? j).
Proof.
  intros Hi Hj. unfold masked, unmask_irq. rewrite line_bit by done. unfold line in *.
  destruct (Z.ltb_spec i 8), (Z.ltb_spec j 8); cbn [cache_21 cache_A1 upd];
    rewrite ?testbit_clear by lia; rewrite ?(proj2 (Z.eqb_neq i j)), ?andb_true_r by lia; try done.
  do 2 f_equal. destruct (Z.eqb_spec i j), (Z.eqb_spec (i - 8) (j - 8)); done || lia.
Qed.

Lemma chain_set i j l x :
  length (irq_action x) = NR_IRQS → line i → line j →
  chain (set_chain i l x) j = if i =? j then l else chain x j.
Proof.
  unfold line, NR_IRQS, chain, set_chain. intros Hl Hi Hj. cbn [irq_action upd].
  destruct (Z.eqb_spec i j) as [->|Hne].
  - by rewrite list_lookup_insert_eq by lia.
  - by rewrite list_lookup_insert_ne by lia.
Qed.

Lemma gate_set i j g x :
  length (gates x) = NR_IRQS → line i → line j →
  gate_of (set_intr_gate i g x) j = if i =? j then g else gate_of x j.
Proof.
  unfold line, NR_IRQS, gate_of, set_intr_gate. intros Hl Hi Hj. cbn [gates upd].
  destruct (Z.eqb_spec i j) as [->|Hne].
  - by rewrite list_lookup_insert_eq by lia.
  - by rewrite list_lookup_insert_ne by lia.
Qed.

(** The mask of a line does not touch the chains, and conversely. *)
Lemma chain_mask i j x : chain (mask_irq i x) j = chain x j.
Proof. unfold mask_irq. by destruct (i <? 8). Qed.

Lemma chain_unmask i j x : chain (unmask_irq i x) j = chain x j.
Proof. unfold unmask_irq. by destruct (i <? 8). Qed.

Lemma chain_ok_snoc a l new :
  chain_ok (a :: l) → shareable a = true → shareable new = true → fast a = fast new →
  chain_ok ((a :: l) ++ [new]).
Proof.
  intros [_ Hl] Ha Hn Hf. split; [by right|]. apply Forall_app. split; [done|].
  by constructor.
Qed.

Lemma unlink_ok dev l l' :
  chain_ok l → unlink dev l = Some l' →
  chain_ok l' ∧ (l' ≠ [] → gate_for l' = gate_for l).
Proof.
  destruct l as [|a l]; [done|]. intros [Hsh Hl] Hu. cbn in Hu.
  destruct (dev_id a =? dev).
  - injection Hu as <-. destruct l as [|b l]; [done|].
    apply Forall_cons in Hl as [[Hb Hfb] Hl]. split.
    + split; [by right|]. eapply Forall_impl; [exact Hl|]. cbn. intros c [? ?]. split; congruence.
    + intros _. cbn. by rewrite Hfb.
  - destruct (unlink dev l) as [l''|] eqn:E; [|done]. injection Hu as <-. split; [|done].
    assert (Hsub : ∀ P : irqaction → Prop, Forall P l → Forall P l'').
    { intros P. revert l'' E. clear. induction l as [|b l IH]; intros l'' E HP; [done|].
      apply Forall_cons in HP as [Hb HP]. cbn in E. destruct (dev_id b =? dev); [by simplify_eq|].
      destruct (unlink dev l); [|done]. injection E as <-. constructor; [done|by apply IH]. }
    split; [|by apply Hsub]. destruct Hsh as [->|]; [done|by right].
Qed.

(** A state that differs from a good one in the chain, the gate and the mask of
    one line. *)
Lemma irq_inv_line busy i l x x' :
  irq_inv_in busy x → line i → chain_ok l →
  length (irq_action x') = NR_IRQS → length (gates x') = NR_IRQS →
  pic_21 x' = cache_21 x' → pic_A1 x' = cache_A1 x' →
  (∀ j, line j → chain x' j = if i =? j then l else chain x j) →
  (∀ j, line j → gate_of x' j = if i =? j then gate_for l else gate_of x j) →
  (∀ j, line j → i ≠ j → masked x' j = masked x j) →
  (i ∉ busy → l ≠ [] → masked x' i = false) →
  irq_inv_in busy x'.
Proof.
  intros Hx Hi Hl Hc Hg H21 HA1 Hch Hga Hma Hme. split; try done; intros j Hj.
  - rewrite Hch by done. destruct (i =? j); [done|by apply Hx].
  - rewrite Hch, Hga by done. destruct (i =? j); [done|by apply Hx].
  - rewrite Hch by done. destruct (Z.eqb_spec i j) as [<-|Hne]; [done|].
    rewrite Hma by done. by apply (irq_live x Hx).
Qed.

Lemma length_unmask i x :
  length (irq_action (unmask_irq i x)) = length (irq_action x) ∧
  length (gates (unmask_irq i x)) = length (gates x).
Proof. unfold unmask_irq. by destruct (i <? 8). Qed.

Lemma sync_unmask i x :
  pic_21 x = cache_21 x → pic_A1 x = cache_A1 x →
  pic_21 (unmask_irq i x) = cache_21 (unmask_irq i x) ∧
  pic_A1 (unmask_irq i x) = cache_A1 (unmask_irq i x).
Proof. intros ??. unfold unmask_irq. by destruct (i <? 8). Qed.

Lemma setup_inv busy irq new x : line irq → irq_inv_in busy x → irq_inv_in busy (setup_x86_irq irq new x).2.
Proof.
  intros Hi Hx. unfold setup_x86_irq. pose proof (irq_ok x Hx irq Hi) as Hok.
  set (x1 := if has (act_flags new) SA_SAMPLE_RANDOM then _ else x).
  assert (Hx1 : irq_inv_in busy x1) by (unfold x1; destruct (has _ _); destruct Hx; by constructor).
  assert (Hch : ∀ j, chain x1 j = chain x j) by (intros j; unfold x1; by destruct (has _ _)).
  assert (Hlen : length (irq_action x1) = NR_IRQS) by apply Hx1.
  destruct (chain x irq) as [|old l] eqn:E.
  - cbn [snd app]. set (x2 := set_intr_gate _ _ _).
    destruct (length_unmask irq x2) as [L1 L2]. destruct (sync_unmask irq x2) as [S1 S2].
    { apply Hx1. } { apply Hx1. }
    apply (irq_inv_line busy irq [new] x1); try done.
    + by split; [left|].
    + rewrite L1. cbn. by rewrite length_insert.
    + rewrite L2. cbn. rewrite length_insert. apply Hx1.
    + intros j Hj. rewrite chain_unmask. by apply (chain_set irq j [new] x1).
    + intros j Hj.
      transitivity (gate_of x2 j); [unfold unmask_irq; by destruct (irq <? 8)|].
      unfold x2. rewrite gate_set; [|apply Hx1|done|done]. by destruct (irq =? j).
    + intros j Hj Hne. rewrite masked_unmask by done.
      apply Z.eqb_neq in Hne as ->. apply andb_true_r.
    + intros _ _. rewrite masked_unmask, Z.eqb_refl by done. apply andb_false_r.
  - destruct (Z.land (Z.land _ _) SA_SHIRQ =? 0) eqn:Es; [done|].
    destruct (has (Z.lxor _ _) SA_INTERRUPT) eqn:Ef; [done|]. cbn [snd].
    assert (Hsh : has (Z.land (act_flags old) (act_flags new)) SA_SHIRQ = true)
      by (unfold has; by rewrite Es).
    rewrite has_land in Hsh by one_bit. rewrite has_lxor in Ef by one_bit. to_prop.
    apply (irq_inv_line busy irq ((old :: l) ++ [new]) x1); try done.
    + apply chain_ok_snoc; try done. unfold fast. by apply xorb_eq.
    + cbn. by rewrite length_insert.
    + apply Hx1.
    + apply Hx1.
    + apply Hx1.
    + intros j Hj. by apply chain_set.
    + intros j Hj. change (gate_of _ j) with (gate_of x1 j).
      rewrite (irq_gate x1 Hx1 j Hj), Hch. destruct (Z.eqb_spec irq j) as [<-|]; [by rewrite E|done].
    + intros Hb _. apply (irq_live x1 Hx1 irq Hi); [done|]. by rewrite Hch, E.
Qed.

Lemma free_inv busy irq dev x : 0 ≤ irq → irq_inv_in busy x → irq_inv_in busy (free_irq irq dev x).
Proof.
  intros H0 Hx. unfold free_irq. destruct (Z.ltb_spec 15 irq); [done|].
  assert (Hi : line irq) by (split; lia). pose proof (irq_ok x Hx irq Hi) as Hok.
  pose proof (irq_chains x Hx) as Hlen.
  destruct (unlink dev (chain x irq)) as [l|] eqn:E; [|done].
  destruct (unlink_ok _ _ _ Hok E) as [Hl Hg].
  assert (Hne : chain x irq ≠ []) by (intros En; by rewrite En in E).
  assert (Hset : ∀ j, line j → chain (set_chain irq l x) j = if irq =? j then l else chain x j)
    by (intros; by apply chain_set).
  destruct l as [|b l].
  - apply (irq_inv_line busy irq [] x); try done.
    + cbn. unfold mask_irq. destruct (irq <? 8); cbn; by rewrite length_insert.
    + cbn. rewrite length_insert. unfold mask_irq. destruct (irq <? 8); apply Hx.
    + cbn. unfold mask_irq. destruct (irq <? 8); [done|apply Hx].
    + cbn. unfold mask_irq. destruct (irq <? 8); [apply Hx|done].
    + intros j Hj. rewrite <-Hset by done. apply (chain_mask irq j).
    + intros j Hj. rewrite gate_set; [|unfold mask_irq; destruct (irq <? 8); apply Hx|done|done].
      destruct (irq =? j); [done|]. unfold mask_irq. by destruct (irq <? 8).
    + intros j Hj Hne'. etransitivity; [apply (masked_mask irq j); done|].
      apply Z.eqb_neq in Hne' as ->. apply orb_false_r.
  - apply (irq_inv_line busy irq (b :: l) x); try done; try apply Hx.
    + cbn. by rewrite length_insert.
    + intros j Hj. change (gate_of _ j) with (gate_of x j).
      rewrite (irq_gate x Hx j Hj). destruct (Z.eqb_spec irq j) as [<-|]; [by rewrite Hg|done].
    + intros Hb _. by apply (irq_live x Hx irq Hi).
Qed.

(** ** Requests *)

Lemma setup_spec irq new x :
  line irq → length (irq_action x) = NR_IRQS →
  let r := setup_x86_irq irq new x in
  let ok := match chain x irq with
            | [] => true
            | old :: _ => shareable old && shareable new && Bool.eqb (fast old) (fast new)
            end in
  r.1 = (if ok then 0 else - EBUSY) ∧
  (ok = false → r.2 = x) ∧
  (ok = true → ∀ j, line j →
     chain r.2 j = if irq =? j then chain x irq ++ [new] else chain x j).
Proof.
  intros Hi Hl r ok. unfold r, ok, setup_x86_irq. clear r ok.
  set (x1 := if has (act_flags new) SA_SAMPLE_RANDOM then _ else x).
  assert (Hch : ∀ j, chain x1 j = chain x j) by (intros j; unfold x1; by destruct (has _ _)).
  assert (Hlen : length (irq_action x1) = NR_IRQS) by (unfold x1; by destruct (has _ _)).
  destruct (chain x irq) as [|old l] eqn:E.
  - split; [done|]. split; [done|]. intros _ j Hj. cbn [snd app]. rewrite chain_unmask.
    transitivity (chain (set_chain irq [new] x1) j); [done|]. rewrite chain_set by done.
    by rewrite Hch.
  - unfold shareable, fast. rewrite <-has_land by one_bit.
    assert (has (Z.land (act_flags old) (act_flags new)) SA_SHIRQ =
      negb (Z.land (Z.land (act_flags old) (act_flags new)) SA_SHIRQ =? 0)) as -> by done.
    destruct (Z.land (Z.land _ _) SA_SHIRQ =? 0) eqn:Es; [done|].
    rewrite has_lxor by one_bit. cbn [negb andb].
    destruct (has (act_flags old) SA_INTERRUPT), (has (act_flags new) SA_INTERRUPT);
      cbn [xorb Bool.eqb]; try done;
      (split; [done|]; split; [done|]; intros _ j Hj; cbn [snd];
       rewrite chain_set by done; by rewrite Hch).
Qed.

Lemma unlink_snoc dev l new :
  Forall (λ a, dev_id a ≠ dev) l → dev_id new = dev → unlink dev (l ++ [new]) = Some l.
Proof.
  intros Hl Hn. induction Hl as [|a l Ha _ IH]; cbn.
  - by rewrite (proj2 (Z.eqb_eq _ _) Hn).
  - apply Z.eqb_neq in Ha as ->. by rewrite IH.
Qed.

(** ** Dispatch *)

Lemma run_chain_spec irq l : ∀ r x,
  let '(r', x') := run_chain irq l r x in
  x' = x <| irq_log := irq_log x ++ ((λ a, Call (handler a) (dev_id a) irq) <$> l) |> ∧
  has r' SA_SAMPLE_RANDOM =
    has r SA_SAMPLE_RANDOM || existsb (λ a, has (act_flags a) SA_SAMPLE_RANDOM) l.
Proof.
  induction l as [|a l IH]; intros r x; cbn [run_chain].
  - rewrite app_nil_r, orb_false_r. by destruct x.
  - specialize (IH (Z.lor r (act_flags a))
      (x <| irq_log := irq_log x ++ [Call (handler a) (dev_id a) irq] |>)).
    destruct (run_chain _ _ _ _) as [r' x']. destruct IH as [-> ->]. split.
    + cbn. by rewrite <-app_assoc.
    + cbn [existsb]. by rewrite has_lor, orb_assoc.
Qed.

Lemma sync_mask i x :
  pic_21 x = cache_21 x → pic_A1 x = cache_A1 x →
  pic_21 (mask_irq i x) = cache_21 (mask_irq i x) ∧
  pic_A1 (mask_irq i x) = cache_A1 (mask_irq i x).
Proof. intros ??. unfold mask_irq. by destruct (i <? 8). Qed.

Lemma do_IRQ_guard irq x :
  line irq → pic_21 x = cache_21 x → pic_A1 x = cache_A1 x →
  do_IRQ irq x = if masked x irq then do_fast_IRQ irq x else x.
Proof.
  intros [Hi Hi'] H1 H2. unfold do_IRQ, masked. rewrite H1, H2.
  destruct (Z.leb_spec 8 irq), (Z.ltb_spec irq 8); try lia;
    rewrite Z.shiftl_1_l, orb_diag, has_pow2 by lia; by destruct (Z.testbit _ _).
Qed.

(** ** Probing *)

Lemma enable_free_spec n : ∀ irqs x,
  (n ≤ 15)%nat → 0 ≤ irqs →
  let '(irqs', x') := enable_free n irqs x in
  (∀ j, chain x' j = chain x j) ∧ 0 ≤ irqs' ∧
  ∀ j, 0 ≤ j → Z.testbit irqs' j =
    Z.testbit irqs j || ((0 <? j) && (j <=? Z.of_nat n) && bool_decide (chain x j = [])).
Proof.
  induction n as [|n IH]; intros irqs x Hn Hp.
  { split; [done|]. split; [done|]. intros j Hj.
    replace ((0 <? j) && (j <=? Z.of_nat 0)) with false; [by rewrite orb_false_r|].
    symmetry. apply andb_false_iff. rewrite Z.ltb_ge, Z.leb_gt. lia. }
  cbn [enable_free]. set (i := Z.of_nat (S n)).
  assert (Hstep : ∀ irqs1 x1, 0 ≤ irqs1 → (∀ j, chain x1 j = chain x j) →
    (∀ j, 0 ≤ j → Z.testbit irqs1 j = Z.testbit irqs j || ((j =? i) && bool_decide (chain x j = []))) →
    let '(irqs', x') := enable_free n irqs1 x1 in
    (∀ j, chain x' j = chain x j) ∧ 0 ≤ irqs' ∧
    ∀ j, 0 ≤ j → Z.testbit irqs' j =
      Z.testbit irqs j || ((0 <? j) && (j <=? i) && bool_decide (chain x j = []))).
  { intros irqs1 x1 Hp1 Hc1 Hb1. specialize (IH irqs1 x1 ltac:(lia) Hp1).
    destruct (enable_free n irqs1 x1) as [irqs' x']. destruct IH as (H1 & H2 & H3).
    split; [by intros; rewrite H1|]. split; [done|]. intros j Hj.
    rewrite H3, Hb1, Hc1 by done. rewrite <-orb_assoc. f_equal. unfold i.
    destruct (bool_decide _); rewrite ?andb_false_r, ?andb_true_r; [|done].
    destruct (Z.ltb_spec 0 j), (Z.leb_spec j (Z.of_nat n)), (Z.leb_spec j (Z.of_nat (S n))),
      (Z.eqb_spec j (Z.of_nat (S n))); done || lia. }
  destruct (chain x i) as [|a l] eqn:E.
  - apply Hstep.
    + apply Z.lor_nonneg. split; [done|]. apply Z.shiftl_nonneg. lia.
    + intros j. apply chain_unmask.
    + intros j Hj. rewrite Z.lor_spec, Z.shiftl_1_l, Z.pow2_bits_eqb, Z.eqb_sym by lia. f_equal.
      destruct (Z.eqb_spec j i) as [->|]; [|done]. by rewrite E.
  - apply Hstep; [done|done|]. intros j Hj.
    destruct (Z.eqb_spec j i) as [->|]; [by rewrite E, orb_false_r|by rewrite orb_false_r].
Qed.

Definition caches_ok (x : irq_state) : Prop :=
  0 ≤ cache_21 x < 2 ^ 8 ∧ 0 ≤ cache_A1 x < 2 ^ 8.

Lemma irqmask_bit x j :
  caches_ok x → 0 ≤ j → Z.testbit (irqmask x) j = (j <? 16) && masked x j.
Proof.
  intros [[H1 H1'] [H2 H2']] Hj. unfold irqmask, masked. rewrite Z.lor_spec, Z.shiftl_spec by done.
  rewrite <-(Z.mod_small (cache_21 x) (2 ^ 8)), <-(Z.mod_small (cache_A1 x) (2 ^ 8)) by done.
  destruct (Z.ltb_spec j 8).
  - rewrite (Z.testbit_neg_r _ (j - 8)) by lia. by destruct (Z.ltb_spec j 16); [|lia].
  - rewrite (Z.mod_pow2_bits_high (cache_21 x)) by lia. rewrite orb_false_r.
    destruct (Z.ltb_spec j 16); [done|]. by rewrite Z.mod_pow2_bits_high by lia.
Qed.

Lemma mask_caches_ok i x : line i → caches_ok x → caches_ok (mask_irq i x).
Proof.
  intros Hi [H1 H2]. unfold mask_irq.
  assert (0 ≤ u8 (Z.shiftl 1 (Z.land i 7)) < 2 ^ 8) by apply u8_range.
  destruct (i <? 8); (split; cbn -[u8]; [try apply lor_range; done|try apply lor_range; done]).
Qed.

(** [ffs] finds the lowest bit. *)
Lemma low_bit_spec n : ∀ i w k,
  i ≤ k < i + Z.of_nat n → Z.testbit w k = true → (∀ j, i ≤ j < k → Z.testbit w j = false) →
  low_bit n i w = k.
Proof.
  induction n as [|n IH]; intros i w k Hk Ht Hlow; [lia|]. cbn.
  destruct (decide (i = k)) as [->|Hne]; [by rewrite Ht|].
  rewrite Hlow by lia. apply IH; [lia|done|]. intros j Hj. apply Hlow. lia.
Qed.

Lemma probe_off_one irqs x i :
  0 ≤ i < 32 → Z.land irqs (irqmask x) = 2 ^ i → probe_irq_off irqs x = i.
Proof.
  intros Hi Hc. unfold probe_irq_off. rewrite Hc.
  rewrite (proj2 (Z.eqb_neq _ _)) by (pose proof (Z.pow_pos_nonneg 2 i); lia).
  assert (ffs (2 ^ i) = i) as ->.
  { apply low_bit_spec; [lia| |].
    - by rewrite Z.pow2_bits_eqb, Z.eqb_refl by lia.
    - intros j Hj. rewrite Z.pow2_bits_eqb by lia. apply Z.eqb_neq. lia. }
  by rewrite Z.shiftl_1_l, Z.land_diag, Z.eqb_refl.
Qed.

(** ** Properties *)

(** The lines of the machine, those whose interrupt is being served, innermost
    first, and those that a driver has disabled. *)
Record irq_sys := MkIrqSys {
  irq_io : irq_state;
  in_service : list Z;
  disabled : list Z;
}.

(** What the entry point of the line's gate does up to and with the handlers:
    it masks the line, and unless the gate is the bad one calls [do_IRQ] or
    [do_fast_IRQ].  Line 0 has the same entry point for all gates. *)
Definition irq_enter (irq : Z) (y : irq_sys) : irq_sys :=
  let x := mask_irq irq (irq_io y) in
  match (if irq =? 0 then SlowGate else gate_of (irq_io y) irq) with
  | BadGate => MkIrqSys x (in_service y) (disabled y)
  | SlowGate => MkIrqSys (do_IRQ irq x) (irq :: in_service y) (disabled y)
  | FastGate => MkIrqSys (do_fast_IRQ irq x) (irq :: in_service y) (disabled y)
  end.

(** The rest of the entry point unmasks the line. *)
Definition irq_leave (y : irq_sys) : irq_sys :=
  match in_service y with
  | [] => y
  | irq :: l => MkIrqSys (unmask_irq irq (irq_io y)) l (filter (λ i, i ≠ irq) (disabled y))
  end.

(** What happens to interrupt lines.  Interrupts nest, and what a handler does
    to the lines comes between the beginning and the end of its interrupt. *)
Inductive irq_op :=
| OpRequest (irq h irqflags : Z) (name : string) (dev : Z) (kmalloc_ok : bool)
| OpFree (irq dev : Z)
| OpDisable (irq : Z)
| OpEnable (irq : Z)
| OpEnter (irq : Z)
| OpLeave.

Definition irq_op_ok (o : irq_op) : Prop :=
  match o with
  | OpRequest irq _ _ _ _ _ | OpFree irq _ => 0 ≤ irq
  | OpDisable irq | OpEnable irq | OpEnter irq => line irq
  | OpLeave => True
  end.

Definition irq_do (o : irq_op) (y : irq_sys) : irq_sys :=
  let on f := MkIrqSys (f (irq_io y)) (in_service y) (disabled y) in
  match o with
  | OpRequest irq h f name dev ok => on (λ x, (request_irq irq h f name dev ok x).2)
  | OpFree irq dev => on (free_irq irq dev)
  | OpDisable irq => MkIrqSys (disable_irq irq (irq_io y)) (in_service y) (irq :: disabled y)
  | OpEnable irq =>
      MkIrqSys (enable_irq irq (irq_io y)) (in_service y) (filter (λ i, i ≠ irq) (disabled y))
  | OpEnter irq => irq_enter irq y
  | OpLeave => irq_leave y
  end.

Definition irq_sys_inv (y : irq_sys) : Prop :=
  Forall line (in_service y) ∧ irq_inv_in (in_service y ++ disabled y) (irq_io y).

Lemma do_fast_IRQ_inv busy irq x : irq_inv_in busy x → irq_inv_in busy (do_fast_IRQ irq x).
Proof.
  intros Hx. unfold do_fast_IRQ. pose proof (run_chain_spec irq (chain x irq) 0 (count_irq irq x)) as Hr.
  destruct (run_chain _ _ _ _) as [r x']. destruct Hr as [-> _].
  destruct (has r _); destruct Hx; by constructor.
Qed.

Lemma do_IRQ_inv busy irq x : line irq → irq_inv_in busy x → irq_inv_in busy (do_IRQ irq x).
Proof.
  intros Hi Hx. rewrite do_IRQ_guard by (try done; apply Hx).
  destruct (masked x irq); [by apply do_fast_IRQ_inv|done].
Qed.

(** More lines may be masked. *)
Lemma irq_inv_weaken busy busy' x : irq_inv_in busy x → busy ⊆ busy' → irq_inv_in busy' x.
Proof.
  intros [] Hsub. split; try done. intros i Hi Hb. apply irq_live0; [done|]. intros Hin. by apply Hb, Hsub.
Qed.

(** A line without actions may be masked. *)
Lemma irq_inv_drop busy busy' x :
  irq_inv_in busy x → (∀ i, line i → i ∈ busy → i ∈ busy' ∨ chain x i = []) → irq_inv_in busy' x.
Proof.
  intros [] Hsub. split; try done. intros i Hi Hb Hne. apply irq_live0; [done| |done].
  intros Hin. by destruct (Hsub i Hi Hin).
Qed.

Lemma mask_inv busy irq x : line irq → irq_inv_in busy x → irq_inv_in (irq :: busy) (mask_irq irq x).
Proof.
  intros Hi Hx. apply (irq_inv_weaken _ (irq :: busy)) in Hx; [|set_solver].
  pose proof (irq_ok x Hx irq Hi) as Hok. pose proof (irq_gate x Hx irq Hi) as Hg.
  destruct (sync_mask irq x) as [S1 S2]; [apply Hx|apply Hx|].
  apply (irq_inv_line _ irq (chain x irq) x); try done.
  - unfold mask_irq. destruct (irq <? 8); apply Hx.
  - unfold mask_irq. destruct (irq <? 8); apply Hx.
  - intros j Hj. rewrite chain_mask. by destruct (Z.eqb_spec irq j) as [<-|].
  - intros j Hj. destruct (Z.eqb_spec irq j) as [<-|]; [rewrite <-Hg|]; unfold mask_irq; by destruct (irq <? 8).
  - intros j Hj Hne'. rewrite masked_mask by done. apply Z.eqb_neq in Hne' as ->. apply orb_false_r.
  - set_solver.
Qed.

Lemma unmask_inv busy irq x :
  line irq → irq_inv_in busy x → irq_inv_in (filter (λ i, i ≠ irq) busy) (unmask_irq irq x).
Proof.
  intros Hi Hx. destruct (length_unmask irq x) as [L1 L2].
  destruct (sync_unmask irq x) as [S1 S2]; [apply Hx|apply Hx|].
  split; rewrite ?L1, ?L2; try done; try apply Hx; intros j Hj; rewrite ?chain_unmask; try by apply Hx.
  - rewrite <-(irq_gate x Hx j Hj). unfold unmask_irq. by destruct (irq <? 8).
  - intros Hb Hne. rewrite masked_unmask by done. destruct (Z.eqb_spec irq j) as [|Hij]; [apply andb_false_r|].
    rewrite andb_true_r. apply (irq_live x Hx j Hj); [|done]. intros Hin. apply Hb.
    apply list_elem_of_filter. split; [congruence|done].
Qed.

Lemma irq_do_inv o y : irq_op_ok o → irq_sys_inv y → irq_sys_inv (irq_do o y).
Proof.
  intros Ho [Hs Hx]. destruct y as [x srv dis]. cbn in Hs, Hx.
  destruct o as [irq h f name dev ok|irq dev|irq|irq|irq|]; cbn in *.
  - split; [done|]. cbn. unfold request_irq. destruct (Z.ltb_spec 15 irq); [done|]. destruct (h =? 0); [done|].
    destruct ok; [|done]. apply setup_inv; [by split; [|lia]|done].
  - split; [done|]. by apply free_inv.
  - split; [done|]. eapply irq_inv_weaken; [by apply (mask_inv (srv ++ dis))|set_solver].
  - split; [done|]. eapply irq_inv_weaken; [by apply (unmask_inv (srv ++ dis))|].
    intros i. cbn. rewrite list_elem_of_filter, !elem_of_app, list_elem_of_filter. tauto.
  - assert (Hm := mask_inv _ irq x Ho Hx). unfold irq_enter. cbn [irq_io in_service disabled].
    assert (irq ≠ 0 → gate_of x irq = BadGate → irq_sys_inv (MkIrqSys (mask_irq irq x) srv dis)) as Hbad.
    { intros _ Hg. split; [done|]. eapply irq_inv_drop; [exact Hm|]. cbn. intros i Hi [->|Hin]%elem_of_cons; [right|by left].
      rewrite chain_mask. rewrite (irq_gate x Hx irq Ho) in Hg. destruct (chain x irq) as [|a l]; [done|]. cbn in Hg. by destruct (fast a). }
    assert (irq_sys_inv (MkIrqSys (do_IRQ irq (mask_irq irq x)) (irq :: srv) dis)) as Hslow
      by (split; cbn; [by constructor|by apply do_IRQ_inv]).
    destruct (Z.eqb_spec irq 0) as [->|Hne]; [done|].
    destruct (gate_of x irq); [by apply Hbad|done|split; cbn; [by constructor|by apply do_fast_IRQ_inv]].
  - unfold irq_leave. cbn [in_service irq_io disabled]. destruct srv as [|irq srv]; [done|].
    apply Forall_cons in Hs as [Hi Hs]. split; [done|]. cbn.
    eapply irq_inv_weaken; [by apply (unmask_inv (irq :: srv ++ dis))|].
    intros i. rewrite list_elem_of_filter, elem_of_cons, !elem_of_app, list_elem_of_filter. tauto.
Qed.

Lemma irqs_init_inv : irq_inv irqs_init.
Proof.
  assert (Hc : ∀ j, chain irqs_init j = []).
  { intros j. unfold chain. cbn [irq_action irqs_init].
    destruct (replicate NR_IRQS [] !! Z.to_nat j) eqn:E; [|done]. by apply lookup_replicate in E as [-> _]. }
  split; try done; intros j Hj; rewrite ?Hc; [done| |done].
  unfold gate_of. cbn [gates irqs_init].
  destruct (replicate NR_IRQS BadGate !! Z.to_nat j) eqn:E; [|done]. by apply lookup_replicate in E as [-> _].
Qed.

Lemma init_inv : irq_inv (init_IRQ irqs_init).
Proof.
  unfold init_IRQ. do 2 (apply setup_inv; [by split; lia|]).
  replace (foldr _ irqs_init _) with irqs_init by reflexivity. apply irqs_init_inv.
Qed.

(** [unlink] takes out the first action of a device. *)
Lemma unlink_cases dev l :
  match unlink dev l with
  | Some l' => ∃ l1 a l2, l = l1 ++ a :: l2 ∧ l' = l1 ++ l2 ∧ dev_id a = dev
  | None => Forall (λ a, dev_id a ≠ dev) l
  end.
Proof.
  induction l as [|a l IH]; cbn; [constructor|]. destruct (Z.eqb_spec (dev_id a) dev) as [Ha|Ha].
  - by exists [], a, l.
  - destruct (unlink dev l) as [l'|]; cbn; [|by constructor].
    destruct IH as (l1 & b & l2 & -> & -> & Hb). by exists (a :: l1), b, l2.
Qed.

(** What a driver can rely on when it asks for a line. *)
Lemma request_cases irq h f nm dev ok x :
  irq_inv x → 0 ≤ irq →
  let r := request_irq irq h f nm dev ok x in
  irq_inv r.2 ∧
  (r.1 ≠ 0 ∧ r.2 = x ∨
   r.1 = 0 ∧ line irq ∧ ∀ j, line j → chain r.2 j =
     if irq =? j then chain x irq ++ [MkAction h f 0 nm dev] else chain x j).
Proof.
  intros Hx H0. unfold request_irq. destruct (Z.ltb_spec 15 irq); [split; [done|by left]|].
  destruct (h =? 0); [split; [done|by left]|]. destruct ok; [|split; [done|by left]].
  cbn [negb]. assert (Hi : line irq) by (split; lia). split; [by apply setup_inv|].
  destruct (setup_spec irq (MkAction h f 0 nm dev) x Hi (irq_chains x Hx)) as (H1 & H2 & H3).
  cbn zeta in *. destruct (match chain x irq with [] => true | _ => _ end); [right|left].
  - split; [done|]. split; [done|]. by apply H3.
  - split; [by rewrite H1|by apply H2].
Qed.

(** A line that carries a fast shared handler takes no slow one. *)
Lemma request_slow_busy irq h f f' nm nm' dev dev' ok ok' x :
  irq_inv x → 0 ≤ irq → has f SA_INTERRUPT = true → has f' SA_INTERRUPT = false →
  let r := request_irq irq h f nm dev ok x in
  r.1 = 0 →
  let r' := request_irq irq h f' nm' dev' ok' r.2 in r'.1 ≠ 0 ∧ r'.2 = r.2.
Proof.
  intros Hx H0 Hf Hf'. unfold request_irq. destruct (Z.ltb_spec 15 irq); [done|].
  destruct (h =? 0); [done|]. destruct ok; [|done]. cbn [negb].
  assert (Hi : line irq) by (split; lia). set (new := MkAction h f 0 nm dev).
  set (x1 := (setup_x86_irq irq new x).2). assert (Hx1 : irq_inv x1) by by apply setup_inv.
  destruct (setup_spec irq new x Hi (irq_chains x Hx)) as (H1 & _ & H3). cbn zeta in *.
  intros Hr. destruct ok'; [|done]. cbn [negb].
  set (new' := MkAction h f' 0 nm' dev').
  destruct (setup_spec irq new' x1 Hi (irq_chains x1 Hx1)) as (K1 & K2 & _). cbn zeta in *.
  rewrite Hr in H1. assert (Hne : match chain x1 irq with [] => true
    | old :: _ => shareable old && shareable new' && Bool.eqb (fast old) (fast new') end = false).
  { specialize (H3 ltac:(destruct (match chain x irq with [] => true | _ => _ end); done) irq Hi).
    fold x1 in H3. rewrite Z.eqb_refl in H3. rewrite H3.
    assert (fast new' = false) as -> by done. assert (fast new = true) as Hfn by done.
    destruct (chain x irq) as [|old l]; cbn [app].
    - rewrite Hfn. by rewrite andb_false_r.
    - rewrite Hfn in H1. destruct (fast old); [by rewrite andb_false_r|].
      by rewrite andb_false_r in H1. }
  rewrite Hne in K1. split; [by rewrite K1|by apply K2].
Qed.

Lemma free_cases irq dev x :
  irq_inv x → 0 ≤ irq →
  irq_inv (free_irq irq dev x) ∧
  ∀ j, line j → chain (free_irq irq dev x) j =
    if irq =? j then default (chain x j) (unlink dev (chain x j)) else chain x j.
Proof.
  intros Hx H0. split; [by apply free_inv|]. intros j Hj. unfold free_irq.
  destruct (Z.ltb_spec 15 irq).
  { rewrite (proj2 (Z.eqb_neq _ _)) by (destruct Hj; lia). done. }
  assert (Hi : line irq) by (split; lia). pose proof (irq_chains x Hx) as Hlen.
  destruct (unlink dev (chain x irq)) as [l|] eqn:E.
  - assert (chain (match l with [] => set_intr_gate irq BadGate (mask_irq irq (set_chain irq l x))
      | _ => set_chain irq l x end) j = chain (set_chain irq l x) j) as ->
      by (destruct l; [by rewrite <-(chain_mask irq j (set_chain irq [] x))|done]).
    rewrite chain_set by done. destruct (Z.eqb_spec irq j) as [<-|]; [by rewrite E|done].
  - destruct (Z.eqb_spec irq j) as [<-|]; [by rewrite E|done].
Qed.

(** C12: whatever drivers and the board do with interrupt lines after
    [init_IRQ] - requests with any flags, releases, [disable_irq] and
    [enable_irq], interrupts through the gates of the lines, which nest, and
    whose handlers do any of these before the interrupt ends: the actions on a
    line agree on sharing and on their type, the gate of the line is the one
    for that type (the bad one when no action is left), the controllers hold
    the cached masks, and a line with an action is masked only while an
    interrupt on it is being served or after [disable_irq]. *)
Theorem irq_reachable_inv (ops : list irq_op) :
  Forall irq_op_ok ops →
  let y := foldl (λ y o, irq_do o y) (MkIrqSys (init_IRQ irqs_init) [] []) ops in
  irq_inv_in (in_service y ++ disabled y) (irq_io y).
Proof.
  intros Hops. cbn zeta. assert (Hy : irq_sys_inv (MkIrqSys (init_IRQ irqs_init) [] [])) by (split; [done|exact init_inv]).
  revert Hy. generalize (MkIrqSys (init_IRQ irqs_init) [] []). induction Hops as [|o ops Ho _ IH]; intros y Hy; [apply Hy|].
  cbn. by apply IH, irq_do_inv.
Qed.

(** [request_irq] on a line succeeds exactly when the line is free or both
    sides agreed to share it with the same kind of handler; on success the new
    action is the last of its line and no other line changes, on [-EBUSY]
    nothing changes. *)
Theorem request_irq_spec (irq h f : Z) (name : string) (dev : Z) (x : irq_state) :
  line irq → h ≠ 0 → irq_inv x →
  let new := {| handler := h; act_flags := f; mask := 0; act_name := name; dev_id := dev |} in
  let r := request_irq irq h f name dev true x in
  let ok := match chain x irq with
            | [] => true
            | old :: _ => shareable old && shareable new && Bool.eqb (fast old) (fast new)
            end in
  r.1 = (if ok then 0 else - EBUSY) ∧
  (ok = false → r.2 = x) ∧
  (ok = true → ∀ j, line j → chain r.2 j = if irq =? j then chain x irq ++ [new] else chain x j).
Proof.
  intros Hi Hh Hx new r ok. unfold r, request_irq.
  destruct (Z.ltb_spec 15 irq) as [Hlt|_]; [destruct Hi; lia|].
  apply Z.eqb_neq in Hh as ->. cbn [negb]. by apply setup_spec; [|apply Hx].
Qed.

(** releasing what was requested restores every line: after a successful
    [request_irq] for a device that has no action on the line, [free_irq]
    leaves every chain and every gate as before. *)
Theorem request_free_roundtrip (irq h f : Z) (name : string) (dev : Z) (x : irq_state) :
  line irq → h ≠ 0 → irq_inv x → Forall (λ a, dev_id a ≠ dev) (chain x irq) →
  (request_irq irq h f name dev true x).1 = 0 →
  let x' := free_irq irq dev (request_irq irq h f name dev true x).2 in
  ∀ j, line j → chain x' j = chain x j ∧ gate_of x' j = gate_of x j.
Proof.
  intros Hi Hh Hx Hdev Hr. cbn zeta. intros j Hj. unfold request_irq in *.
  destruct (Z.ltb_spec 15 irq) as [Hlt|_]; [destruct Hi; lia|].
  apply Z.eqb_neq in Hh. rewrite Hh in *. cbn [negb] in *.
  set (new := MkAction _ _ _ _ _) in *. set (x1 := (setup_x86_irq irq new x).2) in *.
  set (x' := free_irq irq dev x1).
  destruct (setup_spec irq new x Hi (irq_chains x Hx)) as (H1 & _ & H3). cbn zeta in *.
  assert (Hx1 : irq_inv x1) by by apply setup_inv.
  assert (Hc1 : ∀ j, line j → chain x1 j = if irq =? j then chain x irq ++ [new] else chain x j).
  { apply H3. rewrite H1 in Hr. by destruct (match chain x irq with [] => true | _ => _ end). }
  assert (Hx' : irq_inv x') by (apply free_inv; [apply Hi|done]).
  assert (Hc : chain x' j = chain x j); [|split; [done|]].
  - unfold x', free_irq. destruct (Z.ltb_spec 15 irq) as [Hlt|_]; [destruct Hi; lia|].
    rewrite (Hc1 irq), Z.eqb_refl, unlink_snoc by done.
    assert (chain (set_chain irq (chain x irq) x1) j = chain x j) as Hset.
    { rewrite chain_set by (try done; apply Hx1).
      destruct (Z.eqb_spec irq j) as [<-|Hne]; [done|]. rewrite Hc1 by done.
      by apply Z.eqb_neq in Hne as ->. }
    destruct (chain x irq); [|done]. rewrite <-Hset. apply (chain_mask irq j).
  - rewrite (irq_gate x' Hx' j Hj), (irq_gate x Hx j Hj). by rewrite Hc.
Qed.

(** an interrupt runs every handler of its line exactly once, in the order
    in which they were requested, and counts once; it feeds the random pool
    when some action asks for it.  This is what [do_IRQ] does after the stub
    has masked the line; on a line that is not masked it does nothing. *)
Theorem do_IRQ_calls_all (irq : Z) (x : irq_state) :
  line irq → irq_inv x →
  let x' := do_IRQ irq (mask_irq irq x) in
  (masked x irq = false → do_IRQ irq x = x) ∧
  irq_log x' = irq_log x ++ ((λ a, Call (handler a) (dev_id a) irq) <$> chain x irq) ++
    (if existsb (λ a, has (act_flags a) SA_SAMPLE_RANDOM) (chain x irq) then [RandAdd irq] else []) ∧
  interrupts x' = <[Z.to_nat irq := u32 (default 0 (interrupts x !! Z.to_nat irq) + 1)]> (interrupts x) ∧
  irq_action x' = irq_action x.
Proof.
  intros Hi Hx x'. split.
  { intros Hm. rewrite do_IRQ_guard by (try done; apply Hx). by rewrite Hm. }
  destruct (sync_mask irq x) as [S1 S2]; [apply Hx|apply Hx|].
  unfold x'. rewrite do_IRQ_guard by done.
  rewrite masked_mask, Z.eqb_refl, orb_true_r by done. unfold do_fast_IRQ. rewrite chain_mask.
  pose proof (run_chain_spec irq (chain x irq) 0 (count_irq irq (mask_irq irq x))) as Hr.
  destruct (run_chain _ _ _ _) as [r x1]. destruct Hr as [-> ->].
  rewrite has_0_l. cbn [orb]. unfold mask_irq.
  destruct (existsb _ _), (irq <? 8); cbn; rewrite ?app_nil_r, <-?app_assoc; done.
Qed.

(** probing finds the line of a device.  If between [probe_irq_on] and
    [probe_irq_off] exactly the free line [i] interrupts (and is masked by its
    stub), and it did not interrupt spuriously before, [probe_irq_off]
    returns [i], whatever lines were masked during the wait. *)
Theorem probe_finds_line (wait : irq_state → irq_state) (i : Z) (x : irq_state) :
  0 < i < 16 → chain x i = [] →
  let '(irqs, x1) := probe_irq_on wait x in
  caches_ok x1 → masked x1 i = false →
  probe_irq_off irqs (mask_irq i x1) = i.
Proof.
  intros Hi Hfree. unfold probe_irq_on.
  pose proof (enable_free_spec 15 0 x ltac:(lia) ltac:(lia)) as He.
  destruct (enable_free 15 0 x) as [irqs x0]. destruct He as (_ & Hpos & Hbits).
  set (x1 := wait x0). intros Hok Hm. assert (line i) by (split; lia).
  apply probe_off_one; [lia|]. apply Z.bits_inj'. intros j Hj.
  rewrite Z.pow2_bits_eqb, !Z.land_spec, Z.lnot_spec, Hbits, Z.bits_0 by lia.
  rewrite !irqmask_bit by (try done; by apply mask_caches_ok). cbn [orb].
  destruct (Z.ltb_spec j 16) as [Hlt|Hge]; cbn [andb].
  - rewrite masked_mask by (try done; split; lia). destruct (Z.eqb_spec i j) as [<-|Hne].
    + rewrite Hm, Hfree. cbn. rewrite !andb_true_r.
      apply andb_true_iff. rewrite Z.ltb_lt, Z.leb_le. lia.
    + rewrite orb_false_r. destruct (masked x1 j); by rewrite ?andb_false_r.
  - rewrite andb_false_r. symmetry. apply Z.eqb_neq. lia.
Qed.

(** ** Instances *)

(** The two requests of [mrp_init] for a line: the first succeeds, the second,
    without [SA_INTERRUPT], does not. *)
Definition irq_sample : irq_state :=
  (request_irq 10 5 (Z.lor SA_INTERRUPT SA_SHIRQ) "MRP" 7 true (init_IRQ irqs_init)).2.

Definition sample_ops : list irq_op :=
  [OpRequest 10 5 0 "slow" 7 true; OpRequest 5 6 SA_INTERRUPT "fast" 8 true; OpEnter 10; OpEnter 5;
   OpLeave; OpDisable 5].

(** The slow line is being served, the fast one was in between. *)
Lemma irq_reachable_inv_witness :
  let y := foldl (λ y o, irq_do o y) (MkIrqSys (init_IRQ irqs_init) [] []) sample_ops in
  in_service y = [10] ∧ disabled y = [5] ∧ irq_log (irq_io y) = [Call 5 7 10; Call 6 8 5] ∧
  irq_inv_in [10; 5] (irq_io y).
Proof.
  cbn zeta. split; [by vm_compute|]. split; [by vm_compute|]. split; [by vm_compute|].
  apply (irq_reachable_inv sample_ops). repeat constructor; done.
Defined.

Lemma irq_sample_inv : irq_inv irq_sample.
Proof. apply setup_inv; [by split; lia|exact init_inv]. Qed.

Lemma request_irq_spec_witness :
  (request_irq 10 5 SA_SHIRQ "MRP" 7 true irq_sample).1 = - EBUSY ∧
  (request_irq 10 5 SA_SHIRQ "MRP" 7 true irq_sample).2 = irq_sample.
Proof.
  destruct (request_irq_spec 10 5 SA_SHIRQ "MRP" 7 irq_sample) as (H1 & H2 & _);
    [by split; lia|done|exact irq_sample_inv|].
  split; [exact H1|]. apply H2. reflexivity.
Defined.

Lemma request_free_roundtrip_witness :
  chain (free_irq 10 7 irq_sample) 10 = [] ∧ gate_of (free_irq 10 7 irq_sample) 10 = BadGate.
Proof.
  apply (request_free_roundtrip 10 5 (Z.lor SA_INTERRUPT SA_SHIRQ) "MRP" 7 (init_IRQ irqs_init));
    [by split; lia|done|exact init_inv|constructor|reflexivity|by split; lia].
Defined.

Lemma do_IRQ_calls_all_witness :
  irq_log (do_IRQ 10 (mask_irq 10 irq_sample)) = [Call 5 7 10].
Proof.
  destruct (do_IRQ_calls_all 10 irq_sample) as (_ & H1 & _); [by split; lia|exact irq_sample_inv|].
  exact H1.
Defined.

Lemma probe_finds_line_witness :
  let '(irqs, x1) := probe_irq_on (mask_irq 3) (init_IRQ irqs_init) in
  probe_irq_off irqs (mask_irq 10 x1) = 10.
Proof.
  pose proof (probe_finds_line (mask_irq 3) 10 (init_IRQ irqs_init) ltac:(lia) eq_refl) as H.
  destruct (probe_irq_on _ _) as [irqs x1] eqn:E. vm_compute in E. injection E as <- <-.
  apply H; by_compute.
Defined.
