(* ===== verification/Chrdev.v ===== *)
(** * Chrdev: the tables of character and block devices

    Models fs/devices.c, built without [CONFIG_KERNELD] as in
    arch/i386/defconfig: [register_chrdev], [unregister_chrdev], their block
    device counterparts, the lookup [get_fops] and the open of a special file.

    A [struct file_operations] pointer is a number, 0 for NULL. *)

From stdpp Require Import strings.
From S2P Require Import Prelude.

(** ** Code *)

Definition MAX_CHRDEV : Z := 128.
Definition MAX_BLKDEV : Z := 128.

Record device_struct := MkDevice {
  name : option string;
  fops : Z;
}.

Definition no_device : device_struct := {| name := None; fops := 0 |}.

Abbreviation devtable := (list device_struct).

Definition device (tb : devtable) (major : Z) : device_struct :=
  default no_device (tb !! Z.to_nat major).

Definition set_device (major : Z) (d : device_struct) (tb : devtable) : devtable :=
  <[Z.to_nat major := d]> tb.

Definition get_fops (major maxdev : Z) (tb : devtable) : Z :=
  if major <? maxdev then fops (device tb major) else 0.

Definition get_chrfops (major : Z) (tb : devtable) : Z := get_fops major MAX_CHRDEV tb.
Definition get_blkfops (major : Z) (tb : devtable) : Z := get_fops major MAX_BLKDEV tb.

(** [for (major = MAX_CHRDEV-1; major > 0; major--)]: the highest free major. *)
Fixpoint find_free (major : nat) (tb : devtable) : option Z :=
  match major with
  | O => None
  | S m' => if fops (device tb (Z.of_nat major)) =? 0 then Some (Z.of_nat major) else find_free m' tb
  end.

Definition register_dev (max major : Z) (nm : string) (f : Z) (tb : devtable) : Z * devtable :=
  let d := {| name := Some nm; fops := f |} in
  if major =? 0 then
    match find_free (Z.to_nat (max - 1)) tb with
    | Some m => (m, set_device m d tb)
    | None => (- EBUSY, tb)
    end
  else if max <=? major then (- EINVAL, tb)
  else if negb (fops (device tb major) =? 0) && negb (fops (device tb major) =? f) then
    (- EBUSY, tb)
  else (0, set_device major d tb).

Definition register_chrdev := register_dev MAX_CHRDEV.
Definition register_blkdev := register_dev MAX_BLKDEV.

(** [None] when [strcmp] follows the NULL name of a slot that is in use. *)
Definition unregister_dev (max major : Z) (nm : string) (tb : devtable) : option (Z * devtable) :=
  if max <=? major then Some (- EINVAL, tb)
  else if fops (device tb major) =? 0 then Some (- EINVAL, tb)
  else
    match name (device tb major) with
    | None => None
    | Some n =>
        if bool_decide (n = nm) then Some (0, set_device major no_device tb)
        else Some (- EINVAL, tb)
    end.

Definition unregister_chrdev := unregister_dev MAX_CHRDEV.
Definition unregister_blkdev := unregister_dev MAX_BLKDEV.

Definition MAJOR (dev : Z) : Z := Z.shiftr dev 8.
Definition MINOR (dev : Z) : Z := Z.land dev 0xff.

(** [opens f] is the [open] of the operations [f], [None] for NULL; the result
    is the file's [f_op] and what open returns. *)
Definition chrdev_open (opens : Z → option (Z → Z)) (i_rdev : Z) (tb : devtable) : Z * Z :=
  let f_op := get_chrfops (MAJOR i_rdev) tb in
  if f_op =? 0 then (f_op, - ENODEV)
  else
    match opens f_op with
    | Some open => (f_op, open (MINOR i_rdev))
    | None => (f_op, 0)
    end.

Definition blkdev_open (opens : Z → option (Z → Z)) (securelevel : Z) (write : bool) (i_rdev : Z)
    (tb : devtable) : option Z * Z :=
  if (0 <? securelevel) && write then (None, - EACCES)
  else
    let f_op := get_blkfops (MAJOR i_rdev) tb in
    if f_op =? 0 then (Some f_op, - ENODEV)
    else
      match opens f_op with
      | Some open => (Some f_op, open (MINOR i_rdev))
      | None => (Some f_op, 0)
      end.

(** ** Invariant *)

Record table_ok (max : Z) (tb : devtable) : Prop := {
  tb_length : Z.of_nat (length tb) = max;
  tb_named m : 0 ≤ m < max → fops (device tb m) ≠ 0 → name (device tb m) ≠ None;
}.

(** ** Lemmas *)

Lemma device_set m m' d tb :
  0 ≤ m < Z.of_nat (length tb) → 0 ≤ m' →
  device (set_device m d tb) m' = if m =? m' then d else device tb m'.
Proof.
  intros Hm Hm'. unfold device, set_device. destruct (Z.eqb_spec m m') as [<-|Hne].
  - by rewrite list_lookup_insert_eq by lia.
  - by rewrite list_lookup_insert_ne by lia.
Qed.

Lemma find_free_Some n tb m :
  find_free n tb = Some m →
  0 < m ≤ Z.of_nat n ∧ fops (device tb m) = 0 ∧
  ∀ k, m < k ≤ Z.of_nat n → fops (device tb k) ≠ 0.
Proof.
  induction n as [|n IH]; cbn [find_free]; [done|].
  destruct (fops (device tb (Z.of_nat (S n))) =? 0) eqn:E; to_prop.
  - intros [= <-]. split; [lia|]. split; [done|]. lia.
  - intros H. destruct (IH H) as (H1 & H2 & H3). split; [lia|]. split; [done|].
    intros k Hk. destruct (decide (k = Z.of_nat (S n))) as [->|]; [done|]. apply H3. lia.
Qed.

Lemma find_free_None n tb :
  find_free n tb = None → ∀ k, 0 < k ≤ Z.of_nat n → fops (device tb k) ≠ 0.
Proof.
  induction n as [|n IH]; cbn [find_free]; intros H k Hk; [lia|].
  destruct (fops (device tb (Z.of_nat (S n))) =? 0) eqn:E; [done|]. to_prop.
  destruct (decide (k = Z.of_nat (S n))) as [->|]; [done|]. apply IH; [done|lia].
Qed.

Lemma set_device_ok max m nm f tb :
  table_ok max tb → 0 ≤ m < max → table_ok max (set_device m {| name := Some nm; fops := f |} tb).
Proof.
  intros [Hl Hn] Hm. split; [unfold set_device; by rewrite length_insert|].
  intros k Hk. rewrite device_set by lia. destruct (m =? k); [done|by apply Hn].
Qed.

Lemma register_ok max major nm f tb :
  0 < max → 0 ≤ major → table_ok max tb → table_ok max (register_dev max major nm f tb).2.
Proof.
  intros Hmax H0 Hok. unfold register_dev. destruct (Z.eqb_spec major 0).
  - destruct (find_free _ tb) as [m|] eqn:E; [|done].
    apply find_free_Some in E as ([??] & _). by apply set_device_ok; [|lia].
  - destruct (Z.leb_spec max major); [done|]. destruct (_ && _); [done|].
    by apply set_device_ok; [|lia].
Qed.

(** What a driver gets that asks for any major number. *)
Lemma register_any max nm f tb r tb' :
  0 < max → register_dev max 0 nm f tb = (r, tb') →
  r ≤ 0 ∧ tb' = tb ∨
  0 < r < max ∧ fops (device tb r) = 0 ∧ tb' = set_device r {| name := Some nm; fops := f |} tb.
Proof.
  intros Hmax. unfold register_dev. cbn [Z.eqb].
  destruct (find_free _ tb) as [m|] eqn:E; intros [= <- <-]; [|by left].
  apply find_free_Some in E as (H1 & H2 & _). right. split; [lia|done].
Qed.

(** Unregistering a device takes its entry away. *)
Lemma unregister_set max m nm f tb :
  table_ok max tb → 0 < m < max → f ≠ 0 →
  unregister_dev max m nm (set_device m {| name := Some nm; fops := f |} tb) =
    Some (0, set_device m no_device tb).
Proof.
  intros Hok Hm Hf. pose proof (tb_length _ _ Hok). unfold unregister_dev.
  rewrite (proj2 (Z.leb_gt max m)) by lia. rewrite !device_set, !Z.eqb_refl by lia. cbn [fops name].
  rewrite (proj2 (Z.eqb_neq f 0)), bool_decide_eq_true_2 by done.
  unfold set_device. by rewrite list_insert_insert_eq.
Qed.

(** ** Properties *)

(** registering with major 0 finds a number for the driver: the highest
    free one from 1 to the table's last, which then leads to the driver's
    operations while every other number keeps its own; it fails with [-EBUSY]
    and changes nothing exactly when all of them are taken. *)
Theorem register_dynamic (max : Z) (nm : string) (f : Z) (tb : devtable) :
  0 < max → table_ok max tb →
  let '(r, tb') := register_dev max 0 nm f tb in
  (0 < r < max ∧ fops (device tb r) = 0 ∧ (∀ k, r < k < max → fops (device tb k) ≠ 0) ∧
   get_fops r max tb' = f ∧ (∀ k, 0 ≤ k → k ≠ r → device tb' k = device tb k)) ∨
  (r = - EBUSY ∧ tb' = tb ∧ ∀ k, 0 < k < max → fops (device tb k) ≠ 0).
Proof.
  intros Hmax Hok. unfold register_dev. cbn [Z.eqb].
  destruct (find_free (Z.to_nat (max - 1)) tb) as [m|] eqn:E.
  - left. apply find_free_Some in E as (H1 & H2 & H3). rewrite Z2Nat.id in * by lia.
    pose proof (tb_length _ _ Hok).
    split; [lia|]. split; [done|]. split; [intros k Hk; apply H3; lia|]. split.
    + unfold get_fops. rewrite (proj2 (Z.ltb_lt _ _)) by lia.
      by rewrite device_set, Z.eqb_refl by lia.
    + intros k Hk Hne. rewrite device_set by lia. by rewrite (proj2 (Z.eqb_neq _ _)) by lia.
  - right. split; [done|]. split; [done|]. intros k Hk. eapply find_free_None; [done|lia].
Qed.

(** a device number belongs to the driver that registered it.  Another
    driver's registration of the number is refused and changes nothing;
    unregistering under a wrong name is refused and changes nothing; under the
    right name it frees the number and no other. *)
Theorem registration_is_exclusive (max major : Z) (nm : string) (f : Z) (tb : devtable) :
  0 < major < max → f ≠ 0 → table_ok max tb → fops (device tb major) = 0 →
  let '(r, tb1) := register_dev max major nm f tb in
  r = 0 ∧ get_fops major max tb1 = f ∧
  (∀ nm' f', f' ≠ f → register_dev max major nm' f' tb1 = (- EBUSY, tb1)) ∧
  (∀ nm', nm' ≠ nm → unregister_dev max major nm' tb1 = Some (- EINVAL, tb1)) ∧
  ∃ tb2, unregister_dev max major nm tb1 = Some (0, tb2) ∧
    get_fops major max tb2 = 0 ∧ ∀ k, 0 ≤ k → k ≠ major → device tb2 k = device tb k.
Proof.
  intros Hm Hf Hok Hfree. pose proof (tb_length _ _ Hok) as Hl. unfold register_dev.
  rewrite (proj2 (Z.eqb_neq major 0)) by lia. rewrite (proj2 (Z.leb_gt max major)) by lia.
  rewrite Hfree. cbn [Z.eqb negb andb]. set (tb1 := set_device major _ tb).
  assert (Hl1 : Z.of_nat (length tb1) = max) by (unfold tb1, set_device; by rewrite length_insert).
  assert (Hd : device tb1 major = {| name := Some nm; fops := f |})
    by (unfold tb1; by rewrite device_set, Z.eqb_refl by lia).
  unfold get_fops, unregister_dev. rewrite (proj2 (Z.leb_gt max major)) by lia.
  rewrite (proj2 (Z.ltb_lt major max)) by lia. rewrite Hd. cbn [name fops].
  rewrite (proj2 (Z.eqb_neq f 0)) by done. cbn [negb andb].
  split; [done|]. split; [done|]. split; [|split].
  - intros nm' f' Hne. by rewrite (proj2 (Z.eqb_neq f f')) by congruence.
  - intros nm' Hne. by rewrite bool_decide_eq_false_2 by congruence.
  - rewrite bool_decide_eq_true_2 by done. eexists. split; [done|].
    rewrite device_set, Z.eqb_refl by lia. split; [done|]. intros k Hk Hne.
    rewrite device_set by lia. rewrite (proj2 (Z.eqb_neq major k)) by done.
    unfold tb1. rewrite device_set by lia. by rewrite (proj2 (Z.eqb_neq major k)) by done.
Qed.

(** ** Instances *)

Definition empty_table : devtable := replicate 128 no_device.

Lemma device_empty k : device empty_table k = no_device.
Proof.
  unfold device, empty_table. destruct (_ !! _) eqn:E; [|done].
  by apply lookup_replicate in E as [-> _].
Qed.

Lemma empty_table_ok : table_ok 128 empty_table.
Proof. split; [done|]. intros m _. by rewrite device_empty. Qed.

Lemma register_dynamic_witness :
  let tb := (register_dev 128 127 "x" 41 empty_table).2 in
  let '(r, tb') := register_dev 128 0 "mrp" 42 tb in
  r = 126 ∧ get_fops r 128 tb' = 42.
Proof.
  intros tb.
  assert (table_ok 128 tb) as Hok by (apply register_ok; [lia|lia|exact empty_table_ok]).
  pose proof (register_dynamic 128 "mrp" 42 tb ltac:(lia) Hok) as H.
  destruct (register_dev 128 0 "mrp" 42 tb) as [r tb'] eqn:E.
  assert (r = 126) as -> by (vm_compute in E; by injection E as <- _).
  destruct H as [(_ & _ & _ & Hf & _)|(Hr & _)]; [split; [reflexivity|exact Hf]|discriminate Hr].
Defined.

Lemma registration_is_exclusive_witness :
  let '(r, tb1) := register_dev 128 10 "misc" 42 empty_table in
  r = 0 ∧ get_fops 10 128 tb1 = 42 ∧
  (∀ nm' f', f' ≠ 42 → register_dev 128 10 nm' f' tb1 = (- EBUSY, tb1)) ∧
  (∀ nm', nm' ≠ "misc"%string → unregister_dev 128 10 nm' tb1 = Some (- EINVAL, tb1)) ∧
  ∃ tb2, unregister_dev 128 10 "misc" tb1 = Some (0, tb2) ∧
    get_fops 10 128 tb2 = 0 ∧ ∀ k, 0 ≤ k → k ≠ 10 → device tb2 k = device empty_table k.
Proof.
  apply (registration_is_exclusive 128 10 "misc" 42 empty_table); [lia|done|exact empty_table_ok|].
  by rewrite device_empty.
Defined.
