(* ===== verification/Resource.v ===== *)
(** * Resource: the list of I/O port regions

    Models kernel/resource.c: the static table [iotable] of which the used
    entries are linked into the list [iolist], ordered by address, and
    [find_gap], [request_region], [release_region], [check_region] and
    [reserve_setup] on it.

    A pointer to an entry is its index in the table; the list head [iolist] is
    [Root].  Addresses are 32-bit [unsigned long]s.  The walk along the list is
    given as many steps as there are entries, which is enough for any list
    without a cycle; [None] says that it was not enough.

    The abstract view is the ordered list of the registered regions. *)

From stdpp Require Import strings.
From S2P Require Import Prelude.

(** ** Code *)

Definition IOTABLE_SIZE : nat := 128.

Record resource_entry_t := MkEntry {
  from : Z;
  num : Z;
  name : string;
  next : option nat;
}.

#[global] Instance eta_entry : Eta resource_entry_t :=
  λ x, MkEntry (from x) (num x) (name x) (next x).

Record ioports := MkPorts {
  iotable : list resource_entry_t;
  iolist_next : option nat;
}.

#[global] Instance eta_ports : Eta ioports := λ x, MkPorts (iotable x) (iolist_next x).

Inductive ptr := Root | Slot (i : nat).

Definition empty_entry : resource_entry_t :=
  {| from := 0; num := 0; name := ""; next := None |}.

Definition entry (x : ioports) (i : nat) : resource_entry_t :=
  default empty_entry (iotable x !! i).

Definition next_of (x : ioports) (p : ptr) : option nat :=
  match p with Root => iolist_next x | Slot i => next (entry x i) end.

Definition set_next (p : ptr) (n : option nat) (x : ioports) : ioports :=
  match p with
  | Root => x <| iolist_next := n |>
  | Slot i => x <| iotable := <[i := (entry x i) <| next := n |>]> (iotable x) |>
  end.

(** The last address of an entry, as [p->from+p->num-1] computes it. *)
Definition last_addr (f n : Z) : Z := u32 (f + n - 1).

(** [for (p = root; ; p = p->next)] *)
Fixpoint gap_loop (fuel : nat) (x : ioports) (f l : Z) (p : ptr) : option (option ptr) :=
  match fuel with
  | O => None
  | S fuel' =>
      if match p with
         | Root => false
         | Slot i => f <=? last_addr (from (entry x i)) (num (entry x i))
         end then Some None
      else
        match next_of x p with
        | None => Some (Some p)
        | Some j => if l <? from (entry x j) then Some (Some p) else gap_loop fuel' x f l (Slot j)
        end
  end.

Definition find_gap (x : ioports) (f n : Z) : option (option ptr) :=
  let l := last_addr f n in
  if l <? f then Some None else gap_loop (S IOTABLE_SIZE) x f l Root.

(** [for (i = 0; i < IOTABLE_SIZE; i++) if (iotable[i].num == 0) break;] *)
Fixpoint free_slot (i : nat) (t : list resource_entry_t) : option nat :=
  match t with
  | [] => None
  | e :: t' => if num e =? 0 then Some i else free_slot (S i) t'
  end.

Definition request_region (f n : Z) (nm : string) (x : ioports) : option ioports :=
  match free_slot 0 (iotable x) with
  | None => Some x
  | Some i =>
      match find_gap x f n with
      | None => None
      | Some None => Some x
      | Some (Some p) =>
          let e := {| from := f; num := n; name := nm; next := next_of x p |} in
          let x := x <| iotable := <[i := e]> (iotable x) |> in
          Some (set_next p (Some i) x)
      end
  end.

(** [for (p = &iolist; ; p = q)] *)
Fixpoint release_loop (fuel : nat) (f n : Z) (p : ptr) (x : ioports) : option ioports :=
  match fuel with
  | O => None
  | S fuel' =>
      match next_of x p with
      | None => Some x
      | Some q =>
          if (from (entry x q) =? f) && (num (entry x q) =? n) then
            let x := x <| iotable := <[q := (entry x q) <| num := 0 |>]> (iotable x) |> in
            Some (set_next p (next (entry x q)) x)
          else release_loop fuel' f n (Slot q) x
      end
  end.

Definition release_region (f n : Z) (x : ioports) : option ioports :=
  release_loop (S IOTABLE_SIZE) f n Root x.

Definition check_region (f n : Z) (x : ioports) : option Z :=
  match find_gap x f n with
  | None => None
  | Some None => Some (- EBUSY)
  | Some (Some _) => Some 0
  end.

(** [for (i = 1; i < ints[0]; i += 2)]; [ints] without its first element. *)
Fixpoint reserve_setup (ints : list Z) (x : ioports) : option ioports :=
  match ints with
  | f :: n :: ints' =>
      match request_region f n "reserved" x with
      | Some x' => reserve_setup ints' x'
      | None => None
      end
  | _ => Some x
  end.

(** ** The abstract view *)

Record region := MkRegion {
  lo : Z;
  len : Z;
  owner : string;
}.

Definition hi (r : region) : Z := lo r + len r - 1.

Definition overlaps (f l : Z) (r : region) : Prop := lo r ≤ l ∧ f ≤ hi r.

#[global] Instance overlaps_dec f l r : Decision (overlaps f l r).
Proof. unfold overlaps. apply _. Defined.

(** Nonempty regions inside the address space, in order and disjoint. *)
Fixpoint sorted_from (a : Z) (rs : list region) : Prop :=
  match rs with
  | [] => True
  | r :: rs' => a ≤ lo r ∧ 0 < len r ∧ hi r < 2 ^ 32 ∧ sorted_from (hi r + 1) rs'
  end.

(** The place of a new region in the list. *)
Fixpoint insert_region (r : region) (rs : list region) : list region :=
  match rs with
  | [] => [r]
  | q :: rs' => if hi r <? lo q then r :: q :: rs' else q :: insert_region r rs'
  end.

Definition spec_request (f n : Z) (nm : string) (rs : list region) : list region :=
  if decide (0 < n ∧ f + n - 1 < 2 ^ 32 ∧ Forall (λ r, ¬ overlaps f (f + n - 1) r) rs)
  then insert_region (MkRegion f n nm) rs else rs.

Fixpoint spec_release (f n : Z) (rs : list region) : list region :=
  match rs with
  | [] => []
  | r :: rs' => if (lo r =? f) && (len r =? n) then rs' else r :: spec_release f n rs'
  end.

(** The registered regions as [get_ioport_list] walks them. *)
Fixpoint regions_from (fuel : nat) (x : ioports) (p : option nat) : list region :=
  match fuel, p with
  | S fuel', Some i =>
      MkRegion (from (entry x i)) (num (entry x i)) (name (entry x i))
        :: regions_from fuel' x (next (entry x i))
  | _, _ => []
  end.

Definition regions (x : ioports) : list region := regions_from IOTABLE_SIZE x (iolist_next x).

(** A run of registrations and releases. *)
Inductive port_op :=
  | Request (f n : Z) (nm : string)
  | Release (f n : Z).

Definition op_ok (o : port_op) : Prop :=
  match o with
  | Request f n _ => 0 ≤ f < 2 ^ 32 ∧ 0 ≤ n < 2 ^ 32
  | Release _ _ => True
  end.

Definition port_do (o : port_op) (x : ioports) : option ioports :=
  match o with
  | Request f n nm => request_region f n nm x
  | Release f n => release_region f n x
  end.

(** An entry of no ports ends, as the code computes it, at the last port. *)
Definition jammed (rs : list region) : bool := existsb (λ r, len r =? 0) rs.

(** A request of no ports at port 0 is taken when nothing is registered, and
    stands in the way of every later one. *)
Definition spec_do (o : port_op) (rs : list region) : list region :=
  match o with
  | Request f n nm =>
      if jammed rs then rs
      else if decide (f = 0 ∧ n = 0 ∧ length rs = 0%nat) then [MkRegion 0 0 nm]
      else if decide (length rs < IOTABLE_SIZE)%nat then spec_request f n nm rs else rs
  | Release f n => spec_release f n rs
  end.

Fixpoint port_run (os : list port_op) (x : ioports) : option ioports :=
  match os with
  | [] => Some x
  | o :: os' => match port_do o x with Some x' => port_run os' x' | None => None end
  end.

Definition boot_ports : ioports :=
  {| iotable := replicate IOTABLE_SIZE empty_entry; iolist_next := None |}.

(** ** The pointer structure *)

(** From pointer value [p], the entries at the slots of [l], with their
    regions, lead to pointer value [q]. *)
Fixpoint lseg (t : list resource_entry_t) (p : option nat) (l : list (nat * region))
    (q : option nat) : Prop :=
  match l with
  | [] => p = q
  | (i, r) :: l' =>
      p = Some i ∧
      ∃ nx, t !! i = Some {| from := lo r; num := len r; name := owner r; next := nx |} ∧
            lseg t nx l' q
  end.

(** The table represents the regions [rs]. *)
Definition represents (x : ioports) (l : list (nat * region)) : Prop :=
  length (iotable x) = IOTABLE_SIZE ∧ NoDup l.*1 ∧ lseg (iotable x) (iolist_next x) l None ∧
  (∀ i e, iotable x !! i = Some e → i ∉ l.*1 → num e = 0) ∧
  sorted_from 0 l.*2.

(** ** Lemmas *)

Lemma lseg_app t l1 l2 : ∀ p q,
  lseg t p (l1 ++ l2) q ↔ ∃ m, lseg t p l1 m ∧ lseg t m l2 q.
Proof.
  induction l1 as [|[i r] l1 IH]; intros p q; cbn.
  - split; [by exists p|]. by intros (m & -> & H).
  - split.
    + intros (-> & nx & Ht & H). apply IH in H as (m & H1 & H2). exists m. eauto.
    + intros (m & (-> & nx & Ht & H1) & H2). split; [done|]. exists nx. split; [done|].
      apply IH. eauto.
Qed.

Lemma lseg_frame t i e l : ∀ p q, i ∉ l.*1 → lseg t p l q → lseg (<[i := e]> t) p l q.
Proof.
  induction l as [|[j r] l IH]; intros p q Hi H; [done|].
  cbn in *. apply not_elem_of_cons in Hi as [Hne Hi].
  destruct H as (-> & nx & Ht & H). split; [done|]. exists nx. split; [|by apply IH].
  by rewrite list_lookup_insert_ne.
Qed.

Lemma sorted_app a rs1 rs2 :
  sorted_from a (rs1 ++ rs2) ↔
  sorted_from a rs1 ∧ sorted_from (match last rs1 with Some r => hi r + 1 | None => a end) rs2.
Proof.
  revert a. induction rs1 as [|r rs1 IH]; intros a; cbn [sorted_from app]; [cbn; tauto|].
  rewrite IH. destruct rs1 as [|r' rs1]; [cbn; tauto|].
  rewrite (last_cons r (r' :: rs1)). destruct (last (r' :: rs1)) eqn:E; [tauto|].
  apply last_None in E. done.
Qed.

Lemma sorted_lo a rs r : sorted_from a rs → r ∈ rs → a ≤ lo r ∧ 0 < len r ∧ hi r < 2 ^ 32.
Proof.
  revert a. induction rs as [|q rs IH]; intros a Hs Hr; [by apply elem_of_nil in Hr|].
  destruct Hs as (H1 & H2 & H3 & H4). apply elem_of_cons in Hr as [->|Hr]; [done|].
  destruct (IH _ H4 Hr) as (? & ? & ?). unfold hi in *. lia.
Qed.

Lemma lseg_at t p l0 i r l2 q :
  lseg t p (l0 ++ (i, r) :: l2) q →
  ∃ nx, t !! i = Some {| from := lo r; num := len r; name := owner r; next := nx |} ∧
    lseg t p l0 (Some i) ∧ lseg t nx l2 q.
Proof. intros (m & H1 & -> & nx & Ht & H2)%lseg_app. exists nx. eauto. Qed.

Lemma entry_at x i e : iotable x !! i = Some e → entry x i = e.
Proof. unfold entry. by intros ->. Qed.

Lemma last_addr_hi a rs r : sorted_from a rs → 0 ≤ a → r ∈ rs → last_addr (lo r) (len r) = hi r.
Proof.
  intros Hs Ha Hr. destruct (sorted_lo _ _ _ Hs Hr) as (H1 & H2 & H3).
  unfold last_addr, hi in *. apply u32_id. lia.
Qed.

Lemma mid_in (l0 l2 : list (nat * region)) i r : r ∈ (l0 ++ (i, r) :: l2).*2.
Proof. rewrite fmap_app. apply elem_of_app. right. cbn. apply elem_of_cons. by left. Qed.

(** The pointer to the last of some entries. *)
Definition ptr_after (l : list (nat * region)) : ptr :=
  match last l with Some (i, _) => Slot i | None => Root end.

Lemma ptr_after_snoc l i r : ptr_after (l ++ [(i, r)]) = Slot i.
Proof. unfold ptr_after. by rewrite last_snoc. Qed.

(** Where a walk over the list ends. *)
Definition gap_result (l : list (nat * region)) (f lst : Z) (res : option (option ptr)) : Prop :=
  (∃ la lb, l = la ++ lb ∧ res = Some (Some (ptr_after la)) ∧
     Forall (λ r, hi r < f) la.*2 ∧ Forall (λ r, lst < lo r) lb.*2) ∨
  (res = Some None ∧ ∃ r, r ∈ l.*2 ∧ overlaps f lst r).

Section Gap.
Context (x : ioports) (l : list (nat * region)) (Hrep : represents x l).
Context (f lst : Z).

Lemma sorted_after l0 i r l2 :
  l = l0 ++ (i, r) :: l2 → sorted_from (hi r + 1) l2.*2.
Proof.
  intros ->. destruct Hrep as (_ & _ & _ & _ & Hs). rewrite fmap_app in Hs.
  apply sorted_app in Hs as [_ Hs]. cbn [fmap list_fmap snd sorted_from] in Hs. apply Hs.
Qed.

(** The entries after one that starts behind the range do so too. *)
Lemma sorted_above a rs : sorted_from a rs → lst < a → Forall (λ r, lst < lo r) rs.
Proof.
  intros Hs Ha. apply Forall_forall. intros r Hr.
  destruct (sorted_lo _ _ _ Hs Hr). lia.
Qed.

Lemma gap_slot l2 : ∀ l0 i r fuel,
  l = l0 ++ (i, r) :: l2 → Forall (λ r, hi r < f) l0.*2 → lo r ≤ lst →
  (length l2 < fuel)%nat → gap_result l f lst (gap_loop fuel x f lst (Slot i)).
Proof.
  induction l2 as [|[j q] l2 IH]; intros l0 i r fuel Hl Hbefore Hlo Hfuel;
    (destruct fuel as [|fuel]; [lia|]); cbn [gap_loop next_of];
    pose proof Hrep as (_ & _ & Hseg & _ & Hs); rewrite Hl in Hseg;
    apply lseg_at in Hseg as (nx & Ht & _ & Hnx); rewrite (entry_at _ _ _ Ht); cbn [from num next];
    rewrite (last_addr_hi 0 l.*2) by (try done; rewrite Hl; apply mid_in);
    (destruct (Z.leb_spec f (hi r)) as [Hov|Hno];
     [right; split; [done|]; exists r; split; [rewrite Hl; apply mid_in|done]|]);
    assert (Hall : Forall (λ r, hi r < f) (l0 ++ [(i, r)]).*2)
      by (rewrite fmap_app; apply Forall_app; split; [done|by apply Forall_singleton]).
  - cbn in Hnx. subst nx. left. exists (l0 ++ [(i, r)]), []. rewrite ptr_after_snoc.
    split; [by rewrite app_nil_r|done].
  - cbn in Hnx. destruct Hnx as (-> & nx' & Ht' & Hnx'). rewrite (entry_at _ _ _ Ht'). cbn [from].
    assert (Hl' : l = (l0 ++ [(i, r)]) ++ (j, q) :: l2) by (by rewrite <-app_assoc).
    destruct (Z.ltb_spec lst (lo q)) as [Hgap|Hno'].
    + left. exists (l0 ++ [(i, r)]), ((j, q) :: l2). rewrite ptr_after_snoc.
      split; [done|]. split; [done|]. split; [done|]. cbn. constructor; [done|].
      apply (sorted_above (hi q + 1)); [by apply (sorted_after _ j q l2 Hl')|].
      assert (0 < len q) by (eapply (sorted_lo 0); [done|rewrite Hl'; apply mid_in]).
      unfold hi. lia.
    + eapply IH; [exact Hl'|done|done|cbn in Hfuel; lia].
Qed.

End Gap.

Lemma gap_root x l f lst fuel :
  represents x l → (length l < fuel)%nat → gap_result l f lst (gap_loop fuel x f lst Root).
Proof.
  intros Hrep Hfuel. destruct fuel as [|fuel]; [lia|]. cbn [gap_loop next_of].
  pose proof Hrep as (_ & _ & Hseg & _ & Hs). destruct l as [|[j q] l2].
  - cbn in Hseg. rewrite Hseg. left. by exists [], [].
  - cbn in Hseg. destruct Hseg as (-> & nx & Ht & Hnx). rewrite (entry_at _ _ _ Ht). cbn [from].
    destruct (Z.ltb_spec lst (lo q)) as [Hgap|Hno].
    + left. exists [], ((j, q) :: l2). split; [done|]. split; [done|]. split; [constructor|].
      cbn [fmap list_fmap snd] in *. destruct Hs as (H1 & H2 & H3 & H4).
      constructor; [done|]. apply (sorted_above lst (hi q + 1)); [done|]. unfold hi. lia.
    + cbn in Hfuel. by eapply (gap_slot _ _ Hrep f lst l2 [] j q); [|constructor|..|lia].
Qed.

(** ** Looking for a gap *)

Lemma lseg_lookup t p l q i r :
  lseg t p l q → (i, r) ∈ l →
  ∃ nx, t !! i = Some {| from := lo r; num := len r; name := owner r; next := nx |}.
Proof.
  intros H (l0 & l2 & ->)%list_elem_of_split. apply lseg_at in H as (nx & Ht & _). by exists nx.
Qed.

Lemma length_used x l : represents x l → (length l ≤ IOTABLE_SIZE)%nat.
Proof.
  intros (Hlen & Hnd & Hseg & _).
  rewrite <-(length_fmap fst l), <-(length_seq IOTABLE_SIZE 0).
  apply submseteq_length, NoDup_submseteq; [done|]. intros i Hi.
  apply list_elem_of_fmap in Hi as ([j r] & -> & Hin).
  destruct (lseg_lookup _ _ _ _ _ _ Hseg Hin) as [nx Ht].
  apply elem_of_seq. apply lookup_lt_Some in Ht. cbn. lia.
Qed.

Lemma find_gap_spec x l f n :
  represents x l →
  if last_addr f n <? f then find_gap x f n = Some None
  else gap_result l f (last_addr f n) (find_gap x f n).
Proof.
  intros Hrep. unfold find_gap. destruct (last_addr f n <? f); [done|].
  apply gap_root; [done|]. pose proof (length_used x l Hrep). lia.
Qed.

(** The range of a request is sound exactly when it is nonempty and ends inside
    the address space, but for the request of 0 ports at port 0. *)
Lemma range_sound f n :
  0 ≤ f < 2 ^ 32 → 0 ≤ n < 2 ^ 32 → 0 < f + n →
  (last_addr f n <? f) = negb (bool_decide (0 < n ∧ f + n - 1 < 2 ^ 32)).
Proof.
  intros Hf Hn Hpos. unfold last_addr, u32.
  destruct (decide (0 < n ∧ f + n - 1 < 2 ^ 32)) as [Hd|Hd].
  - rewrite bool_decide_eq_true_2 by done. apply Z.ltb_ge. rewrite Z.mod_small by lia. lia.
  - rewrite bool_decide_eq_false_2 by done. apply Z.ltb_lt.
    destruct (decide (n = 0)) as [->|]; [rewrite Z.mod_small; lia|].
    assert (2 ^ 32 ≤ f + n - 1 < 2 * 2 ^ 32) by lia.
    rewrite <-(Z.mod_add _ (-1)), Z.mod_small by lia. lia.
Qed.

(** ** Updates *)

Lemma free_slot_spec t : ∀ k i,
  free_slot k t = Some i → ∃ e, (k ≤ i)%nat ∧ t !! (i - k)%nat = Some e ∧ num e = 0.
Proof.
  induction t as [|e t IH]; intros k i; cbn; [done|].
  destruct (num e =? 0) eqn:E; to_prop.
  - intros [= <-]. exists e. by rewrite Nat.sub_diag.
  - intros H. destruct (IH _ _ H) as (e' & Hk & Ht & Hn). exists e'. split; [lia|].
    split; [|done]. replace (i - k)%nat with (S (i - S k)) by lia. done.
Qed.

Lemma lseg_same t t' l : ∀ p q,
  (∀ j, j ∈ l.*1 → t' !! j = t !! j) → lseg t p l q → lseg t' p l q.
Proof.
  induction l as [|[j r] l IH]; intros p q Heq H; [done|].
  destruct H as (-> & nx & Ht & H). split; [done|]. exists nx. split.
  - rewrite Heq; [done|by left].
  - apply IH; [|done]. intros k Hk. apply Heq. by right.
Qed.

(** Storing into the [next] field behind the entries [la] redirects the end of
    their segment and changes nothing outside it. *)
Lemma set_next_seg x la m n :
  NoDup la.*1 → lseg (iotable x) (iolist_next x) la m →
  let x' := set_next (ptr_after la) n x in
  length (iotable x') = length (iotable x) ∧
  lseg (iotable x') (iolist_next x') la n ∧
  (∀ j, j ∉ la.*1 → iotable x' !! j = iotable x !! j).
Proof.
  intros Hnd Hseg. destruct la as [|[j q] la' _] using rev_ind; [done|].
  rewrite ptr_after_snoc. apply lseg_app in Hseg as (m' & Ha & -> & nx & Ht & <-).
  cbn [set_next]. rewrite (entry_at _ _ _ Ht). cbn [iotable iolist_next upd from num name next].
  rewrite fmap_app in Hnd. apply NoDup_app in Hnd as (_ & Hj & _).
  assert (j ∉ la'.*1) by (intros Hin; apply (Hj j Hin); by left).
  assert (j < length (iotable x))%nat by (by eapply lookup_lt_Some).
  split; [by rewrite length_insert|]. split.
  - apply lseg_app. exists (Some j). split; [by apply lseg_frame|]. split; [done|].
    exists n. by rewrite list_lookup_insert_eq.
  - intros k Hk. rewrite fmap_app in Hk. cbn in Hk.
    apply not_elem_of_app in Hk as [_ [Hk _]%not_elem_of_cons].
    by rewrite list_lookup_insert_ne.
Qed.

Lemma next_seg x la m : lseg (iotable x) (iolist_next x) la m → next_of x (ptr_after la) = m.
Proof.
  intros Ha. destruct la as [|[j q] la' _] using rev_ind; [done|]. rewrite ptr_after_snoc.
  apply lseg_app in Ha as (m' & _ & -> & nx & Ht & <-). cbn. by rewrite (entry_at _ _ _ Ht).
Qed.

Lemma sorted_remove a rs1 r rs2 : sorted_from a (rs1 ++ r :: rs2) → sorted_from a (rs1 ++ rs2).
Proof.
  rewrite !sorted_app. intros [H1 (H2 & H3 & H4 & H5)]. split; [done|].
  destruct rs2 as [|q rs]; [done|]. destruct H5 as (? & ? & ? & ?).
  split_and!; [|done|done|done]. unfold hi in *. destruct (last rs1); lia.
Qed.

Lemma used_parts (la lb : list (nat * region)) :
  NoDup (la ++ lb).*1 →
  NoDup la.*1 ∧ NoDup lb.*1 ∧ (∀ j, j ∈ lb.*1 → j ∉ la.*1).
Proof.
  rewrite fmap_app. intros (Ha & Hd & Hb)%NoDup_app. split; [done|]. split; [done|].
  intros j Hj Hj'. by apply (Hd j).
Qed.

(** Linking a fresh entry behind the entries [la]. *)
Lemma link_after x la lb i r :
  represents x (la ++ lb) → i ∉ (la ++ lb).*1 → (i < IOTABLE_SIZE)%nat →
  let e := {| from := lo r; num := len r; name := owner r; next := next_of x (ptr_after la) |} in
  let x' := set_next (ptr_after la) (Some i) (x <| iotable := <[i := e]> (iotable x) |>) in
  length (iotable x') = IOTABLE_SIZE ∧
  lseg (iotable x') (iolist_next x') (la ++ (i, r) :: lb) None ∧
  (∀ j, j ∉ (la ++ (i, r) :: lb).*1 → iotable x' !! j = iotable x !! j).
Proof.
  intros (Hlen & Hnd & Hseg & _ & _) Hi Hlt e.
  rewrite fmap_app, not_elem_of_app in Hi. destruct Hi as [Hia Hib].
  apply used_parts in Hnd as (Hna & _ & Hdisj). apply lseg_app in Hseg as (m & Ha & Hb).
  pose proof (next_seg x la m Ha) as Hm.
  set (x1 := x <| iotable := <[i := e]> (iotable x) |>).
  destruct (set_next_seg x1 la m (Some i) Hna) as (L1 & L2 & L3); [by apply lseg_frame|].
  cbv zeta. split; [rewrite L1; cbn; by rewrite length_insert|]. split.
  - apply lseg_app. exists (Some i). split; [done|]. split; [done|]. exists m.
    rewrite L3 by done. cbn. rewrite list_lookup_insert_eq by lia. split; [by rewrite <-Hm|].
    eapply (lseg_same (iotable x1)); [intros j Hj; apply L3; by apply Hdisj|by apply lseg_frame].
  - intros k Hk. rewrite !fmap_app in Hk. cbn in Hk.
    apply not_elem_of_app in Hk as [Hk1 [Hk2 Hk3]%not_elem_of_cons].
    rewrite L3 by done. cbn. by rewrite list_lookup_insert_ne.
Qed.

(** Unlinking the entry at slot [i]. *)
Lemma unlink_after x la i r lb :
  represents x (la ++ (i, r) :: lb) →
  let x1 := x <| iotable := <[i := (entry x i) <| num := 0 |>]> (iotable x) |> in
  represents (set_next (ptr_after la) (next (entry x1 i)) x1) (la ++ lb).
Proof.
  intros (Hlen & Hnd & Hseg & Hfree & Hs). destruct (used_parts _ _ Hnd) as (Hna & Hnb & Hdisj).
  cbn in Hnb. apply NoDup_cons in Hnb as [Hib Hnb].
  assert (Hia : i ∉ la.*1) by (apply Hdisj; by left).
  apply lseg_at in Hseg as (nx & Ht & Ha & Hb).
  cbv zeta. rewrite (entry_at _ _ _ Ht).
  set (e := {| from := lo r; num := 0; name := owner r; next := nx |}).
  set (x1 := x <| iotable := <[i := e]> (iotable x) |>).
  change (represents (set_next (ptr_after la) (next (entry x1 i)) x1) (la ++ lb)).
  assert (Hlt : (i < length (iotable x))%nat) by (by eapply lookup_lt_Some).
  rewrite (entry_at x1 i e (list_lookup_insert_eq (iotable x) i e Hlt)). cbn [next e].
  destruct (set_next_seg x1 la (Some i) nx Hna) as (L1 & L2 & L3); [by apply lseg_frame|].
  split; [rewrite L1; cbn; by rewrite length_insert|]. split.
  { rewrite fmap_app in *. apply NoDup_app. split; [done|]. split; [|done].
    intros j Hj Hj'. apply (Hdisj j); [by right|done]. }
  split; [apply lseg_app; exists nx; split; [done|]|].
  { eapply (lseg_same (iotable x1)); [|by apply lseg_frame].
    intros j Hj. apply L3, Hdisj. by right. }
  split.
  - intros j e0 Hj Hnot. rewrite fmap_app in Hnot. apply not_elem_of_app in Hnot as [Hj1 Hj2].
    rewrite L3 in Hj by done. cbn in Hj. destruct (decide (i = j)) as [<-|Hne].
    + rewrite list_lookup_insert_eq in Hj by done. by injection Hj as <-.
    + rewrite list_lookup_insert_ne in Hj by done. eapply Hfree; [done|].
      rewrite fmap_app. apply not_elem_of_app. split; [done|]. by apply not_elem_of_cons.
  - rewrite fmap_app in *. by eapply sorted_remove.
Qed.

(** Dropping the first entry with the given range. *)
Lemma release_walk f n x lb : ∀ la fuel,
  represents x (la ++ lb) → (length lb < fuel)%nat →
  ∃ x' l', release_loop fuel f n (ptr_after la) x = Some x' ∧ represents x' l' ∧
    l'.*2 = la.*2 ++ spec_release f n lb.*2.
Proof.
  induction lb as [|[i r] lb IH]; intros la fuel Hrep Hfuel;
    (destruct fuel as [|fuel]; [cbn in Hfuel; lia|]); cbn [release_loop].
  - rewrite app_nil_r in Hrep. pose proof Hrep as (_ & _ & Ha & _).
    rewrite (next_seg x la None Ha). exists x, la. cbn. by rewrite app_nil_r.
  - pose proof Hrep as (_ & _ & Hseg & _). apply lseg_at in Hseg as (nx & Ht & Ha & _).
    rewrite (next_seg x la _ Ha). 
    assert (Hc : (from (entry x i) =? f) && (num (entry x i) =? n) = (lo r =? f) && (len r =? n))
      by (by rewrite (entry_at _ _ _ Ht)).
    cbv beta iota. rewrite Hc.
    cbn [fmap list_fmap snd]. fold (snd <$> lb). cbn [spec_release].
    destruct ((lo r =? f) && (len r =? n)).
    + eexists _, (la ++ lb). split; [reflexivity|]. split; [by apply (unlink_after x la i r lb)|].
      by rewrite fmap_app.
    + destruct (IH (la ++ [(i, r)]) fuel) as (x' & l' & E & Hr & Hl);
        [by rewrite <-app_assoc|cbn in Hfuel; lia|].
      rewrite ptr_after_snoc in E. exists x', l'. split; [done|]. split; [done|].
      rewrite Hl, fmap_app, <-app_assoc. done.
Qed.

Lemma sorted_raise a b rs :
  sorted_from a rs → Forall (λ q, b ≤ lo q) rs → sorted_from b rs.
Proof.
  destruct rs as [|r rs]; [done|]. intros (H1 & H2 & H3 & H4) Hb.
  apply Forall_cons in Hb as [Hb _]. done.
Qed.

Lemma sorted_insert rs1 rs2 r :
  sorted_from 0 (rs1 ++ rs2) → 0 ≤ lo r → 0 < len r → hi r < 2 ^ 32 →
  Forall (λ q, hi q < lo r) rs1 → Forall (λ q, hi r < lo q) rs2 →
  sorted_from 0 (rs1 ++ r :: rs2).
Proof.
  intros [H1 H2]%sorted_app Hlo Hlen Hhi Ha Hb. apply sorted_app. split; [done|]. cbn.
  split_and!; [|done|done|].
  - destruct (last rs1) as [q|] eqn:E; [|done]. apply last_Some_elem_of in E.
    rewrite Forall_forall in Ha. specialize (Ha q E). lia.
  - eapply sorted_raise; [exact H2|]. eapply Forall_impl; [exact Hb|]. cbn. lia.
Qed.

Lemma insert_region_split rs1 rs2 r :
  sorted_from 0 (rs1 ++ rs2) → 0 < len r →
  Forall (λ q, hi q < lo r) rs1 → Forall (λ q, hi r < lo q) rs2 →
  insert_region r (rs1 ++ rs2) = rs1 ++ r :: rs2.
Proof.
  intros Hs Hlen Ha Hb. assert (Hp : Forall (λ q, 0 < len q) rs1).
  { apply Forall_forall. intros q Hq. eapply sorted_lo; [exact Hs|]. apply elem_of_app. by left. }
  clear Hs. induction Ha as [|q rs1 Hq _ IH]; cbn.
  - destruct Hb as [|q rs2 Hq _]; [done|]. cbn. by rewrite (proj2 (Z.ltb_lt _ _) Hq).
  - apply Forall_cons in Hp as [Hlq Hp].
    rewrite (proj2 (Z.ltb_ge _ _)) by (unfold hi in *; lia). by rewrite IH.
Qed.

Lemma free_slot_used x l :
  represents x l →
  match free_slot 0 (iotable x) with
  | Some i => (i ∉ l.*1) ∧ (i < IOTABLE_SIZE)%nat ∧ (length l < IOTABLE_SIZE)%nat
  | None => length l = IOTABLE_SIZE
  end.
Proof.
  intros Hrep. pose proof (length_used x l Hrep) as Hle.
  destruct Hrep as (Hlen & Hnd & Hseg & Hfree & Hs).
  destruct (free_slot 0 (iotable x)) as [i|] eqn:E.
  - apply free_slot_spec in E as (e & _ & Ht & He). rewrite Nat.sub_0_r in Ht.
    assert (i < IOTABLE_SIZE)%nat by (rewrite <-Hlen; by eapply lookup_lt_Some).
    assert (Hi : i ∉ l.*1).
    { intros ([j r] & -> & Hin)%list_elem_of_fmap.
      destruct (lseg_lookup _ _ _ _ _ _ Hseg Hin) as [nx Ht']. cbn in Ht.
      rewrite Ht in Ht'. injection Ht' as ->.
      destruct (sorted_lo 0 l.*2 r Hs) as (_ & Hpos & _); [|cbn in He; lia].
      apply list_elem_of_fmap. by exists (j, r). }
    split; [done|]. split; [done|].
    assert (length (i :: l.*1) ≤ length (seq 0 IOTABLE_SIZE))%nat as Hlt.
    { apply submseteq_length, NoDup_submseteq; [by constructor|]. intros k Hk.
      apply elem_of_seq. apply elem_of_cons in Hk as [->|([j r] & -> & Hin)%list_elem_of_fmap]; [lia|].
      destruct (lseg_lookup _ _ _ _ _ _ Hseg Hin) as [nx Ht']. apply lookup_lt_Some in Ht'. cbn. lia. }
    rewrite length_seq in Hlt. cbn in Hlt. rewrite length_fmap in Hlt. lia.
  - assert (Hall : ∀ e, e ∈ iotable x → num e ≠ 0).
    { clear -E. revert E. generalize 0%nat. induction (iotable x) as [|e t IH]; intros k E e' He'.
      - by apply elem_of_nil in He'.
      - cbn in E. destruct (num e =? 0) eqn:En; [done|]. to_prop.
        apply elem_of_cons in He' as [->|He']; [done|]. by eapply IH. }
    assert (length (seq 0 IOTABLE_SIZE) ≤ length l.*1)%nat as Hge.
    { apply submseteq_length, NoDup_submseteq; [apply NoDup_seq|]. intros k Hk.
      apply elem_of_seq in Hk. destruct (lookup_lt_is_Some_2 (iotable x) k) as [e Ht]; [lia|].
      destruct (decide (k ∈ l.*1)) as [|Hn]; [done|]. exfalso.
      apply (Hall e); [by eapply list_elem_of_lookup_2|by eapply Hfree]. }
    rewrite length_seq, length_fmap in Hge. lia.
Qed.

Lemma no_overlap_split f lst (la lb : list (nat * region)) :
  f ≤ lst → Forall (λ r, hi r < f) la.*2 → Forall (λ r, lst < lo r) lb.*2 →
  Forall (λ r, ¬ overlaps f lst r) (la ++ lb).*2.
Proof.
  intros Hle Ha Hb. rewrite fmap_app. apply Forall_app. split.
  - eapply Forall_impl; [exact Ha|]. unfold overlaps. cbn. lia.
  - eapply Forall_impl; [exact Hb|]. unfold overlaps. cbn. lia.
Qed.

Lemma request_represents x l f n nm :
  represents x l → 0 ≤ f < 2 ^ 32 → 0 ≤ n < 2 ^ 32 → 0 < f + n →
  ∃ x' l', request_region f n nm x = Some x' ∧ represents x' l' ∧
    l'.*2 = if decide (length l < IOTABLE_SIZE)%nat then spec_request f n nm l.*2 else l.*2.
Proof.
  intros Hrep Hf Hn Hpos. pose proof (free_slot_used x l Hrep) as Hfs.
  pose proof (find_gap_spec x l f n Hrep) as Hgap. unfold request_region.
  destruct (free_slot 0 (iotable x)) as [i|].
  2:{ exists x, l. rewrite decide_False by lia. done. }
  destruct Hfs as (Hi & Hlt & Hroom). rewrite decide_True by done. unfold spec_request.
  rewrite range_sound in Hgap by done.
  destruct (decide (0 < n ∧ f + n - 1 < 2 ^ 32)) as [[Hn0 Hfit]|Hbad].
  2:{ rewrite bool_decide_eq_false_2 in Hgap by done. cbn [negb] in Hgap. rewrite Hgap.
      exists x, l. rewrite decide_False by tauto. done. }
  rewrite bool_decide_eq_true_2 in Hgap by done. cbn [negb] in Hgap.
  assert (Hlast : last_addr f n = f + n - 1) by (apply u32_id; lia). rewrite Hlast in Hgap.
  destruct Hgap as [(la & lb & -> & -> & Ha & Hb)|(-> & r & Hr & Hov)].
  - set (r := MkRegion f n nm).
    destruct (link_after x la lb i r Hrep Hi Hlt) as (L1 & L2 & L3).
    eexists _, (la ++ (i, r) :: lb). split; [reflexivity|].
    destruct Hrep as (_ & Hnd & _ & Hfree & Hs).
    rewrite decide_True by (split_and!; [done|done|]; apply no_overlap_split; [lia|done|done]).
    rewrite !fmap_app in *. cbn [fmap list_fmap snd fst].
    split; [|by rewrite insert_region_split].
    split; [done|]. split.
    + rewrite fmap_app. cbn. apply NoDup_app in Hnd as (N1 & N2 & N3).
      apply not_elem_of_app in Hi as [Hi1 Hi2]. apply NoDup_app. split_and!; [done| |by constructor].
      intros k Hk. apply not_elem_of_cons. split; [by intros ->|by apply N2].
    + split; [done|]. split.
      * intros j e Hj Hnot. rewrite fmap_app in Hnot. rewrite L3 in Hj by done.
        eapply Hfree; [exact Hj|]. cbn in Hnot. apply not_elem_of_app in Hnot as [? [_ ?]%not_elem_of_cons].
        by apply not_elem_of_app.
      * rewrite fmap_app. cbn. apply sorted_insert; cbn; try done; unfold hi; cbn; lia.
  - exists x, l. split; [done|]. split; [done|]. rewrite decide_False; [done|].
    intros (_ & _ & Hall). rewrite Forall_forall in Hall. by apply (Hall r Hr).
Qed.

Lemma release_represents x l f n :
  represents x l →
  ∃ x' l', release_region f n x = Some x' ∧ represents x' l' ∧ l'.*2 = spec_release f n l.*2.
Proof.
  intros Hrep. apply (release_walk f n x l [] (S IOTABLE_SIZE) Hrep).
  pose proof (length_used x l Hrep). lia.
Qed.

Lemma boot_represents : represents boot_ports [].
Proof.
  split; [done|]. split; [constructor|]. split; [done|]. split; [|done].
  intros i e He _. apply lookup_replicate in He as [-> _]. done.
Qed.

(** *** The entry of no ports *)

Definition jammed_by (x : ioports) (nm : string) : Prop :=
  ∃ i, length (iotable x) = IOTABLE_SIZE ∧ iolist_next x = Some i ∧
    iotable x !! i = Some {| from := 0; num := 0; name := nm; next := None |} ∧
    Forall (λ e, num e = 0) (iotable x).

Lemma jammed_request x nm0 f n nm :
  jammed_by x nm0 → 0 ≤ f < 2 ^ 32 → request_region f n nm x = Some x.
Proof.
  intros (i & _ & Hn & Hi & _) Hf. unfold request_region.
  destruct (free_slot 0 (iotable x)); [|done].
  assert (find_gap x f n = Some None) as ->; [|done]. unfold find_gap.
  destruct (last_addr f n <? f) eqn:E; [done|]. to_prop.
  change IOTABLE_SIZE with (S (Nat.pred IOTABLE_SIZE)).
  cbn [gap_loop next_of]. rewrite Hn, (entry_at _ _ _ Hi). cbn [from num].
  rewrite (proj2 (Z.ltb_ge (last_addr f n) 0)) by lia.
  change (last_addr 0 0) with (2 ^ 32 - 1). by rewrite (proj2 (Z.leb_le f _)) by lia.
Qed.

Lemma jammed_release x nm0 f n :
  jammed_by x nm0 →
  if (0 =? f) && (0 =? n)
  then ∃ x', release_region f n x = Some x' ∧ represents x' []
  else release_region f n x = Some x.
Proof.
  intros (i & Hl & Hn & Hi & Hz). unfold release_region. cbn [release_loop next_of].
  rewrite Hn, (entry_at _ _ _ Hi). cbn [from num]. destruct ((0 =? f) && (0 =? n)).
  - eexists. split; [reflexivity|].
    assert (Hlt : (i < length (iotable x))%nat) by by eapply lookup_lt_Some.
    unfold entry. cbn [iotable upd from num name next]. rewrite list_lookup_insert_eq by done.
    split; [cbn; by rewrite length_insert|]. split; [constructor|]. split; [done|]. split; [|done].
    intros j e Hj _. cbn in Hj. revert j e Hj. apply Forall_lookup, Forall_insert; done.
  - cbn. by rewrite (entry_at _ _ _ Hi).
Qed.

Lemma jam_request x nm :
  represents x [] → ∃ x', request_region 0 0 nm x = Some x' ∧ jammed_by x' nm.
Proof.
  intros Hrep. pose proof (free_slot_used x [] Hrep) as Hfs. unfold request_region.
  destruct (free_slot 0 (iotable x)) as [i|]; [|done]. destruct Hfs as (_ & Hlt & _).
  destruct Hrep as (Hlen & _ & Hseg & Hfree & _). cbn in Hseg.
  unfold find_gap. change (last_addr 0 0 <? 0) with false. cbn [gap_loop next_of]. rewrite Hseg.
  eexists. split; [reflexivity|]. exists i. cbn. rewrite length_insert, Hseg.
  split; [done|]. split; [done|]. split; [apply list_lookup_insert_eq; lia|].
  apply Forall_insert; [|done]. apply Forall_lookup. intros j e Hj. by eapply Hfree, not_elem_of_nil.
Qed.

Lemma empty_request_refused x l nm :
  represents x l → l ≠ [] → request_region 0 0 nm x = Some x.
Proof.
  intros Hrep Hl. pose proof (find_gap_spec x l 0 0 Hrep) as Hgap. unfold request_region.
  change (last_addr 0 0) with (2 ^ 32 - 1) in Hgap. cbn [Z.ltb] in Hgap.
  destruct (free_slot 0 (iotable x)); [|done].
  destruct Hgap as [(la & lb & -> & _ & Ha & Hb)|(-> & _)]; [|done].
  destruct Hrep as (_ & _ & _ & _ & Hs). exfalso.
  destruct la as [|[j r] la].
  - destruct lb as [|[j r] lb]; [done|]. cbn in Hs, Hb. apply Forall_cons in Hb as [Hb _].
    unfold hi in Hs. lia.
  - cbn in Hs, Ha. apply Forall_cons in Ha as [Ha _]. unfold hi in *. lia.
Qed.

(** The table and the list of what it registers. *)
Definition table_of (x : ioports) (rs : list region) : Prop :=
  (∃ l, represents x l ∧ rs = l.*2) ∨ (∃ nm, jammed_by x nm ∧ rs = [MkRegion 0 0 nm]).

Lemma not_jammed x l : represents x l → jammed l.*2 = false.
Proof.
  intros (_ & _ & _ & _ & Hs). unfold jammed.
  assert (Hp : Forall (λ r, 0 < len r) l.*2)
    by (apply Forall_forall; intros r Hr; by destruct (sorted_lo _ _ _ Hs Hr) as (_ & ? & _)).
  clear Hs. induction Hp as [|r rs Hr _ IH]; [done|]. cbn.
  by rewrite (proj2 (Z.eqb_neq _ _)) by lia.
Qed.

Lemma port_do_table o x rs :
  table_of x rs → op_ok o → ∃ x', port_do o x = Some x' ∧ table_of x' (spec_do o rs).
Proof.
  intros [(l & Hrep & ->)|(nm0 & Hj & ->)] Hok; destruct o as [f n nm|f n]; cbn [port_do spec_do].
  - rewrite (not_jammed x l Hrep). destruct Hok as [Hf Hn]. rewrite length_fmap.
    destruct (decide (f = 0 ∧ n = 0 ∧ length l = 0%nat)) as [(-> & -> & ->%nil_length_inv)|Hno].
    { destruct (jam_request x nm Hrep) as (x' & E & Hj). exists x'. split; [done|]. right. eauto. }
    destruct (decide (0 < f + n)) as [Hpos|Hz].
    + destruct (request_represents x l f n nm Hrep Hf Hn Hpos) as (x' & l' & E & Hr & Hl).
      exists x'. split; [done|]. left. eauto.
    + assert (f = 0 ∧ n = 0) as [-> ->] by lia. exists x.
      rewrite (empty_request_refused x l) by (try done; intros ->; by apply Hno).
      split; [done|]. left. exists l. split; [done|].
      destruct (decide _); [|done]. unfold spec_request. by rewrite decide_False by lia.
  - destruct (release_represents x l f n Hrep) as (x' & l' & E & Hr & Hl). exists x'.
    split; [done|]. left. eauto.
  - destruct Hok as [Hf _]. exists x. rewrite (jammed_request x nm0) by done.
    split; [done|]. right. eauto.
  - pose proof (jammed_release x nm0 f n Hj) as Hr. cbn [spec_release lo len].
    destruct ((0 =? f) && (0 =? n)).
    + destruct Hr as (x' & E & Hrep). exists x'. split; [done|]. left.
      exists []. split; [exact Hrep|reflexivity].
    + exists x. split; [done|]. right. eauto.
Qed.

Lemma regions_from_seg x l : ∀ fuel p,
  lseg (iotable x) p l None → (length l ≤ fuel)%nat → regions_from fuel x p = l.*2.
Proof.
  induction l as [|[i r] l IH]; intros fuel p Hseg Hf.
  - cbn in Hseg. subst p. by destruct fuel.
  - destruct Hseg as (-> & nx & Ht & Hseg). destruct fuel as [|fuel]; [cbn in Hf; lia|].
    cbn. rewrite (entry_at _ _ _ Ht). cbn. rewrite (IH fuel nx Hseg) by (cbn in Hf; lia).
    by destruct r.
Qed.

Lemma regions_represents x l : represents x l → regions x = l.*2.
Proof.
  intros Hrep. apply regions_from_seg; [apply Hrep|by apply (length_used x)].
Qed.

Lemma regions_table x rs : table_of x rs → regions x = rs.
Proof.
  intros [(l & Hr & ->)|(nm & (i & _ & Hn & Hi & _) & ->)]; [by apply regions_represents|].
  unfold regions. rewrite Hn. cbn. by rewrite (entry_at _ _ _ Hi).
Qed.

Lemma port_run_table os : ∀ x rs,
  table_of x rs → Forall op_ok os →
  ∃ x', port_run os x = Some x' ∧ table_of x' (foldl (λ rs o, spec_do o rs) rs os).
Proof.
  induction os as [|o os IH]; intros x rs Hx Hos; cbn; [by exists x|].
  apply Forall_cons in Hos as [Ho Hos].
  destruct (port_do_table o x rs Hx Ho) as (x' & -> & Hx'). by apply IH.
Qed.

(** A region of no ports comes from a request of no ports. *)
Lemma jam_step o rs nm :
  MkRegion 0 0 nm ∈ spec_do o rs → o = Request 0 0 nm ∨ MkRegion 0 0 nm ∈ rs.
Proof.
  assert (Hins : ∀ r l, MkRegion 0 0 nm ∈ insert_region r l → r = MkRegion 0 0 nm ∨ MkRegion 0 0 nm ∈ l).
  { intros r l. induction l as [|q l IH]; cbn; [set_solver|]. destruct (_ <? _); set_solver. }
  assert (Hrel : ∀ f n l, MkRegion 0 0 nm ∈ spec_release f n l → MkRegion 0 0 nm ∈ l).
  { intros f n l. induction l as [|q l IH]; cbn; [done|]. destruct (_ && _); set_solver. }
  destruct o as [f n nm'|f n]; cbn; [|by right; eapply Hrel].
  destruct (jammed rs); [by right|]. destruct (decide _) as [(-> & -> & _)|_].
  { rewrite list_elem_of_singleton. intros [= ->]. by left. }
  destruct (decide _); [|by right]. unfold spec_request.
  destruct (decide _) as [(Hn & _)|_]; [|by right].
  intros [[= -> -> ->]|?]%Hins; [lia|by right].
Qed.

Lemma jam_source os : ∀ rs nm,
  MkRegion 0 0 nm ∈ foldl (λ rs o, spec_do o rs) rs os → Request 0 0 nm ∈ os ∨ MkRegion 0 0 nm ∈ rs.
Proof.
  induction os as [|o os IH]; intros rs nm; cbn; [by right|].
  intros [?|[->|?]%jam_step]%IH; set_solver.
Qed.

(** ** Properties *)

(** C16: from the empty table at boot, every sequence of registrations and
    releases, with any 32-bit arguments, is carried out on the linked table as
    it is on the ordered list of regions: no walk along the list runs forever,
    a request for a free range is inserted in order, one that overlaps a
    registered region, is empty, wraps around or finds no free entry changes
    nothing, a release removes exactly the region with that range, and the
    regions stay ordered, nonempty and disjoint.  The exception is a request of
    no ports at port 0 while nothing is registered: it is taken, and from then
    on every request is refused until exactly that region is released. *)
Theorem ports_refine_list os :
  Forall op_ok os →
  ∃ x, port_run os boot_ports = Some x ∧ regions x = foldl (λ rs o, spec_do o rs) [] os ∧
    (sorted_from 0 (regions x) ∨ ∃ nm, Request 0 0 nm ∈ os ∧ regions x = [MkRegion 0 0 nm]).
Proof.
  intros Hos.
  destruct (port_run_table os boot_ports []) as (x & E & Hx); [|done|].
  { left. by exists []; split; [apply boot_represents|]. }
  exists x. rewrite (regions_table _ _ Hx). split; [done|]. split; [done|].
  destruct Hx as [(l & Hr & ->)|(nm & _ & Hj)]; [left; apply Hr|]. right. exists nm.
  split; [|done]. destruct (jam_source os [] nm) as [?|?]; [rewrite Hj; by left|done|].
  by apply elem_of_nil in H.
Qed.

Lemma ports_refine_list_witness :
  let os := [Request 768 32 "eth0"; Request 96 16 "kbd"; Request 784 4 "clash"; Release 768 32;
             Request 784 4 "late"] in
  ∃ x, port_run os boot_ports = Some x ∧
    regions x = [MkRegion 96 16 "kbd"; MkRegion 784 4 "late"].
Proof.
  intros os. destruct (ports_refine_list os) as (x & E & Hr & _).
  - subst os. repeat (apply Forall_cons_2; [cbn; lia|]). apply Forall_nil_2.
  - exists x. split; [exact E|]. rewrite Hr. reflexivity.
Defined.

(** [check_region] always returns, with 0 exactly when the range is nonempty,
    ends inside the address space and overlaps no registered region, and
    otherwise with [-EBUSY]; when it returns 0 and an entry is free, the
    [request_region] that follows registers the range. *)
Theorem check_region_spec x l f n nm :
  represents x l → 0 ≤ f < 2 ^ 32 → 0 ≤ n < 2 ^ 32 → 0 < f + n →
  let free := 0 < n ∧ f + n - 1 < 2 ^ 32 ∧ Forall (λ r, ¬ overlaps f (f + n - 1) r) (regions x) in
  check_region f n x = Some (if decide free then 0 else - EBUSY) ∧
  (free → (length (regions x) < IOTABLE_SIZE)%nat →
   ∃ x', request_region f n nm x = Some x' ∧ MkRegion f n nm ∈ regions x').
Proof.
  intros Hrep Hf Hn Hpos. rewrite (regions_represents x l Hrep). intros free. split.
  - unfold check_region. pose proof (find_gap_spec x l f n Hrep) as Hgap.
    rewrite range_sound in Hgap by done.
    destruct (decide (0 < n ∧ f + n - 1 < 2 ^ 32)) as [[Hn0 Hfit]|Hbad].
    2:{ rewrite bool_decide_eq_false_2 in Hgap by done. cbn [negb] in Hgap. rewrite Hgap.
        rewrite decide_False; [done|]. unfold free. tauto. }
    rewrite bool_decide_eq_true_2 in Hgap by done. cbn [negb] in Hgap.
    assert (Hlast : last_addr f n = f + n - 1) by (apply u32_id; lia). rewrite Hlast in Hgap.
    destruct Hgap as [(la & lb & Hl & -> & Ha & Hb)|(-> & r & Hr & Hov)].
    + rewrite decide_True; [done|]. split; [done|]. split; [done|]. rewrite Hl.
      by apply no_overlap_split; [lia|..].
    + rewrite decide_False; [done|]. intros (_ & _ & Hall). rewrite Forall_forall in Hall.
      by apply (Hall r Hr).
  - intros Hfree Hroom. rewrite length_fmap in Hroom.
    destruct (request_represents x l f n nm Hrep Hf Hn Hpos) as (x' & l' & E & Hr & Hl).
    exists x'. split; [done|]. rewrite (regions_represents x' l' Hr), Hl.
    rewrite decide_True by done. unfold spec_request. rewrite decide_True by done.
    generalize l.*2. intros rs. induction rs as [|q rs IH]; cbn; [by left|].
    destruct (_ <? _); [by left|by right].
Qed.

Lemma check_region_spec_witness :
  check_region 768 32 boot_ports = Some 0 ∧
  ∃ x', request_region 768 32 "eth0" boot_ports = Some x' ∧ MkRegion 768 32 "eth0" ∈ regions x'.
Proof.
  destruct (check_region_spec boot_ports [] 768 32 "eth0") as [H1 H2];
    [exact boot_represents|lia|lia|lia|].
  split; [vm_compute; reflexivity|]. apply H2.
  - split; [lia|]. split; [lia|]. vm_compute. constructor.
  - vm_compute. lia.
Defined.
