(* ===== verification/Vmalloc.v ===== *)
(** * Vmalloc: kernel virtual memory areas and their page tables

    Models mm/vmalloc.c with the page-table macros of
    include/asm-i386/pgtable.h it uses: the list [vmlist] of areas, first-fit
    [get_vm_area], the walks over the kernel page tables that map and unmap an
    area, [vremap] and [vfree].  The drivers map the register
    windows of the MRP board with [vremap].

    The kernel page tables are one map from the number of a linear page to the
    physical address of the page in its entry; on the i386 the middle level is
    folded away, so that a page directory entry covers 4 MB.  Whether a page
    table can be had for a directory entry is [pte_ok], and whether [kmalloc]
    finds memory for an area is [kmalloc_ok].  [avail] is the stock that
    [free_page] fills. *)

From stdpp Require Import gmap.
From S2P Require Import Prelude.

(** ** Code *)

Definition PAGE_SHIFT : Z := 12.
Definition PAGE_SIZE : Z := 2 ^ 12.
Definition PMD_SIZE : Z := 2 ^ 22.
Definition PGDIR_SHIFT : Z := 22.
Definition PGDIR_SIZE : Z := 2 ^ 22.
Definition TASK_SIZE : Z := 0xC0000000.
Definition VMALLOC_OFFSET : Z := 8 * 1024 * 1024.

(** [x & PAGE_MASK] and [x & ~PAGE_MASK], and the same for the larger units. *)
Definition mask_hi (size x : Z) : Z := clr x (size - 1).
Definition mask_lo (size x : Z) : Z := Z.land x (size - 1).

Definition PAGE_ALIGN (x : Z) : Z := mask_hi PAGE_SIZE (u32 (x + PAGE_SIZE - 1)).
Definition MAP_NR (x : Z) : Z := Z.shiftr x PAGE_SHIFT.
Definition VMALLOC_VMADDR (x : Z) : Z := u32 (TASK_SIZE + x).

Record vm_struct := MkVm {
  vm_addr : Z;
  vm_size : Z;
}.

Record vm_state := MkVms {
  vmlist : list vm_struct;
  pgt : gmap Z Z;
  avail : list Z;
}.

#[global] Instance eta_vms : Eta vm_state := λ x, MkVms (vmlist x) (pgt x) (avail x).

Section Code.
Context (high_memory : Z) (pte_ok : Z → bool).

Definition VMALLOC_START : Z := mask_hi VMALLOC_OFFSET (high_memory + VMALLOC_OFFSET).

(** [free_pages] leaves the pages above [high_memory] alone. *)
Definition free_page (addr : Z) : M vm_state unit :=
  when (MAP_NR addr <? MAP_NR high_memory) (modify (λ s, s <| avail := addr :: avail s |>)).

Definition set_pte (pte v : Z) : M vm_state unit := modify (λ s, s <| pgt := <[pte := v]> (pgt s) |>).
Definition pte_clear (pte : Z) : M vm_state unit := modify (λ s, s <| pgt := delete pte (pgt s) |>).

(** The entry for [address] in the table behind directory entry [dir]. *)
Definition pte_offset (dir address : Z) : Z :=
  1024 * dir + Z.land (Z.shiftr address PAGE_SHIFT) 1023.

(** [end = address + size; if (end > SIZE) end = SIZE;] *)
Definition clip (limit address size : Z) : Z :=
  let e := u32 (address + size) in if limit <? e then limit else e.

(** *** Unmapping *)

Fixpoint free_pte_loop (fuel : nat) (pte address end_ : Z) : M vm_state unit :=
  match fuel with
  | O => halt OutOfFuel
  | S fuel' =>
      if address <? end_ then
        page ← gets (λ s, pgt s !! pte);
        pte_clear pte ;;
        match page with
        | None => mret tt
        | Some v => free_page (mask_hi PAGE_SIZE v)
        end ;;
        free_pte_loop fuel' (pte + 1) (u32 (address + PAGE_SIZE)) end_
      else mret tt
  end.

(** A directory entry without a table has no entries to clear. *)
Definition free_area_pte (dir address size : Z) : M vm_state unit :=
  let pte := pte_offset dir address in
  let address := mask_lo PMD_SIZE address in
  free_pte_loop 1025 pte address (clip PMD_SIZE address size).

Fixpoint free_pmd_loop (fuel : nat) (dir address end_ : Z) : M vm_state unit :=
  match fuel with
  | O => halt OutOfFuel
  | S fuel' =>
      if address <? end_ then
        free_area_pte dir address (u32 (end_ - address)) ;;
        free_pmd_loop fuel' (dir + 1) (mask_hi PMD_SIZE (u32 (address + PMD_SIZE))) end_
      else mret tt
  end.

Definition free_area_pmd (dir address size : Z) : M vm_state unit :=
  let address := mask_lo PGDIR_SIZE address in
  free_pmd_loop 2 dir address (clip PGDIR_SIZE address size).

Fixpoint free_dir_loop (fuel : nat) (dir address end_ : Z) : M vm_state unit :=
  match fuel with
  | O => halt OutOfFuel
  | S fuel' =>
      if address <? end_ then
        free_area_pmd dir address (u32 (end_ - address)) ;;
        free_dir_loop fuel' (dir + 1) (mask_hi PGDIR_SIZE (u32 (address + PGDIR_SIZE))) end_
      else mret tt
  end.

Definition free_area_pages (address size : Z) : M vm_state unit :=
  free_dir_loop 1025 (Z.shiftr address PGDIR_SHIFT) address (u32 (address + size)).

(** *** Mapping given physical pages *)

(** [do ... while (address < end)] *)
Fixpoint remap_pte_loop (fuel : nat) (pte address end_ offset : Z) : M vm_state unit :=
  match fuel with
  | O => halt OutOfFuel
  | S fuel' =>
      set_pte pte offset ;;
      let address := u32 (address + PAGE_SIZE) in
      if address <? end_ then
        remap_pte_loop fuel' (pte + 1) address end_ (u32 (offset + PAGE_SIZE))
      else mret tt
  end.

Definition remap_area_pte (pte address size offset : Z) : M vm_state unit :=
  let address := mask_lo PMD_SIZE address in
  remap_pte_loop 1025 pte address (clip PMD_SIZE address size) offset.

(** [do ... while (address < end)] *)
Fixpoint remap_pmd_loop (fuel : nat) (dir address end_ offset : Z) : M vm_state Z :=
  match fuel with
  | O => halt OutOfFuel
  | S fuel' =>
      if negb (pte_ok dir) then mret (- ENOMEM)
      else
        remap_area_pte (pte_offset dir address) address (u32 (end_ - address))
          (u32 (address + offset)) ;;
        let address := mask_hi PMD_SIZE (u32 (address + PMD_SIZE)) in
        if address <? end_ then remap_pmd_loop fuel' (dir + 1) address end_ offset
        else mret 0
  end.

Definition remap_area_pmd (dir address size offset : Z) : M vm_state Z :=
  let address := mask_lo PGDIR_SIZE address in
  remap_pmd_loop 2 dir address (clip PGDIR_SIZE address size) (u32 (offset - address)).

Fixpoint remap_dir_loop (fuel : nat) (dir address end_ offset : Z) : M vm_state Z :=
  match fuel with
  | O => halt OutOfFuel
  | S fuel' =>
      if address <? end_ then
        r ← remap_area_pmd dir address (u32 (end_ - address)) (u32 (offset + address));
        if negb (r =? 0) then mret (- ENOMEM)
        else remap_dir_loop fuel' (dir + 1) (mask_hi PGDIR_SIZE (u32 (address + PGDIR_SIZE)))
               end_ offset
      else mret 0
  end.

Definition remap_area_pages (address offset size : Z) : M vm_state Z :=
  remap_dir_loop 1025 (Z.shiftr address PGDIR_SHIFT) address (u32 (address + size))
    (u32 (offset - address)).

(** *** Areas *)

(** [for (p = &vmlist; (tmp = *p) ; p = &tmp->next)]: the address found for the
    new area and the list with the area in its place. *)
Fixpoint place_area (size addr : Z) (l : list vm_struct) : Z * list vm_struct :=
  let area := {| vm_addr := addr; vm_size := u32 (size + PAGE_SIZE) |} in
  match l with
  | [] => (addr, [area])
  | tmp :: l' =>
      if u32 (size + addr) <? vm_addr tmp then (addr, area :: l)
      else
        let '(a, r) := place_area size (u32 (vm_size tmp + vm_addr tmp)) l' in
        (a, tmp :: r)
  end.

(** [None] for NULL. *)
Definition get_vm_area (kmalloc_ok : bool) (size : Z) : M vm_state (option Z) := λ s,
  if kmalloc_ok then
    let '(a, l) := place_area size VMALLOC_START (vmlist s) in
    Ret (Some a) (s <| vmlist := l |>)
  else Ret None s.

(** The first area at [addr], and the list without it. *)
Fixpoint take_area (addr : Z) (l : list vm_struct) : option (vm_struct * list vm_struct) :=
  match l with
  | [] => None
  | tmp :: l' =>
      if vm_addr tmp =? addr then Some (tmp, l')
      else match take_area addr l' with
           | Some (a, r) => Some (a, tmp :: r)
           | None => None
           end
  end.

Definition vfree (addr : Z) : M vm_state unit :=
  if addr =? 0 then mret tt
  else if negb (Z.land (PAGE_SIZE - 1) addr =? 0) then mret tt
  else
    l ← gets vmlist;
    match take_area addr l with
    | None => mret tt
    | Some (tmp, r) =>
        modify (λ s, s <| vmlist := r |>) ;;
        free_area_pages (VMALLOC_VMADDR (vm_addr tmp)) (vm_size tmp)
    end.

Definition vremap (kmalloc_ok : bool) (offset size : Z) : M vm_state Z :=
  if MAP_NR offset <? MAP_NR high_memory then mret 0
  else if negb (mask_lo PAGE_SIZE offset =? 0) then mret 0
  else
    let size := PAGE_ALIGN size in
    if (size =? 0) || (u32 (offset + size) <? size) then mret 0
    else
      area ← get_vm_area kmalloc_ok size;
      match area with
      | None => mret 0
      | Some addr =>
          r ← remap_area_pages (VMALLOC_VMADDR addr) offset size;
          if negb (r =? 0) then vfree addr ;; mret 0 else mret addr
      end.

End Code.

(** ** Abstract view *)

(** [n] linear pages from [v] on mapped to the physical pages from [off] on. *)
Fixpoint map_range (v off : Z) (n : nat) (t : gmap Z Z) : gmap Z Z :=
  match n with
  | O => t
  | S n' => map_range (v + 1) (off + PAGE_SIZE) n' (<[v := off]> t)
  end.

Section Drop.
Context (high_memory : Z).

(** What unmapping page [v] does. *)
Definition drop_page (v : Z) (s : vm_state) : vm_state :=
  s <| pgt := delete v (pgt s) |>
    <| avail := match pgt s !! v with
                | Some p => if MAP_NR (mask_hi PAGE_SIZE p) <? MAP_NR high_memory
                            then mask_hi PAGE_SIZE p :: avail s else avail s
                | None => avail s
                end |>.

Fixpoint drop_range (v : Z) (n : nat) (s : vm_state) : vm_state :=
  match n with
  | O => s
  | S n' => drop_range (v + 1) n' (drop_page v s)
  end.

End Drop.

(** Areas in order from address [a] on, each of whole pages with a guard page
    behind them. *)
Fixpoint areas_ok (a : Z) (l : list vm_struct) : Prop :=
  match l with
  | [] => True
  | x :: l' =>
      a ≤ vm_addr x ∧ vm_addr x mod 4096 = 0 ∧ vm_size x mod 4096 = 0 ∧ 4096 < vm_size x ∧
      areas_ok (vm_addr x + vm_size x) l'
  end.

(** Where the last area ends. *)
Fixpoint vm_end (a : Z) (l : list vm_struct) : Z :=
  match l with
  | [] => a
  | x :: l' => vm_end (vm_addr x + vm_size x) l'
  end.

(** The last directory is left alone: the walks over it would wrap around. *)
Definition VM_LIMIT : Z := 2 ^ 30 - 2 ^ 22.

(** The linear page behind an address that [vremap] returns. *)
Definition vm_page (addr : Z) : Z := (TASK_SIZE + addr) / 4096.

Definition in_area (v : Z) (x : vm_struct) : Prop :=
  vm_page (vm_addr x) ≤ v < vm_page (vm_addr x) + vm_size x / 4096 - 1.

Record vm_inv (high_memory : Z) (s : vm_state) : Prop := {
  vm_high : 0 ≤ high_memory;
  vm_sorted : areas_ok (VMALLOC_START high_memory) (vmlist s);
  vm_limit : vm_end (VMALLOC_START high_memory) (vmlist s) ≤ VM_LIMIT;
  vm_owned v p : vm_page (VMALLOC_START high_memory) ≤ v → pgt s !! v = Some p →
    Exists (in_area v) (vmlist s);
}.

(** ** Lemmas: pages and directories *)

Lemma mask_lo_mod k x : 0 ≤ k → mask_lo (2 ^ k) x = x mod 2 ^ k.
Proof.
  intros Hk. unfold mask_lo. replace (2 ^ k - 1) with (Z.ones k) by (rewrite Z.ones_equiv; lia).
  by apply Z.land_ones.
Qed.

Lemma mask_hi_div k x : 0 ≤ k → mask_hi (2 ^ k) x = 2 ^ k * (x / 2 ^ k).
Proof.
  intros Hk. unfold mask_hi, clr.
  replace (2 ^ k - 1) with (Z.ones k) by (rewrite Z.ones_equiv; lia).
  rewrite <-Z.ldiff_land, Z.ldiff_ones_r, Z.shiftl_mul_pow2, Z.shiftr_div_pow2 by done. lia.
Qed.

Lemma page_in_dir v : 0 ≤ v → (4096 * v) mod 2 ^ 22 = 4096 * (v mod 1024).
Proof. intros Hv. change (2 ^ 22) with (4096 * 1024). apply Z.mul_mod_distr_l; lia. Qed.

Lemma next_dir v : 0 ≤ v → mask_hi PGDIR_SIZE (4096 * v + PGDIR_SIZE) = 4096 * (1024 * (v / 1024 + 1)).
Proof.
  intros Hv. unfold PGDIR_SIZE. rewrite mask_hi_div by lia.
  replace (4096 * v + 2 ^ 22) with (4096 * (v + 1024)) by lia.
  change (2 ^ 22) with (4096 * 1024). rewrite Z.div_mul_cancel_l by lia.
  replace (v + 1024) with (v + 1 * 1024) by lia. rewrite Z.div_add by lia. lia.
Qed.

Lemma pte_offset_page v : 0 ≤ v → pte_offset (v / 1024) (4096 * (v mod 1024)) = v.
Proof.
  intros Hv. unfold pte_offset, PAGE_SHIFT. rewrite Z.shiftr_div_pow2 by lia.
  change (2 ^ 12) with 4096. rewrite (Z.mul_comm 4096), Z.div_mul by lia.
  change 1023 with (Z.ones 10). rewrite Z.land_ones by lia. change (2 ^ 10) with 1024.
  rewrite Z.mod_mod by lia. symmetry. apply Z.div_mod. lia.
Qed.

Lemma dir_of_page v : Z.shiftr (4096 * v) PGDIR_SHIFT = v / 1024.
Proof.
  unfold PGDIR_SHIFT. rewrite Z.shiftr_div_pow2 by lia. change (2 ^ 22) with (4096 * 1024).
  apply Z.div_mul_cancel_l; lia.
Qed.

(** Enough steps for every directory. *)
Lemma dirs_left v : 0 ≤ v → 1023 - v / 1024 < Z.of_nat 1025.
Proof.
  intros Hv. pose proof (Z.div_pos v 1024 Hv). change (Z.of_nat 1025) with 1025. lia.
Qed.

(** The pages of a range of [n] pages from [v] that lie in its first directory. *)
Definition in_dir (v n : Z) : Z := Z.min n (1024 - v mod 1024).

Lemma clip_dir v n :
  0 ≤ v → 0 < n → 4096 * (v + n) < 2 ^ 32 →
  clip (2 ^ 22) (4096 * (v mod 1024)) (4096 * n) = 4096 * (v mod 1024 + in_dir v n).
Proof.
  intros Hv Hn Hlim. pose proof (Z.mod_pos_bound v 1024). pose proof (Z.mod_le v 1024).
  unfold clip, in_dir. rewrite u32_id by lia. change (2 ^ 22) with (4096 * 1024).
  destruct (Z.ltb_spec (4096 * 1024) (4096 * (v mod 1024) + 4096 * n)); lia.
Qed.

Lemma clip_in a m :
  0 ≤ a → 0 ≤ m → a + 4096 * m ≤ 2 ^ 22 →
  clip (2 ^ 22) a (4096 * m) = a + 4096 * Z.of_nat (Z.to_nat m).
Proof.
  intros Ha Hm Hlim. unfold clip. rewrite u32_id, Z2Nat.id by lia.
  destruct (Z.ltb_spec (2 ^ 22) (a + 4096 * m)); lia.
Qed.

Lemma map_range_app a b : ∀ v off t,
  map_range v off (a + b) t = map_range (v + Z.of_nat a) (off + PAGE_SIZE * Z.of_nat a) b (map_range v off a t).
Proof.
  induction a as [|a IH]; intros v off t; cbn [map_range Nat.add].
  - by rewrite Z.mul_0_r, !Z.add_0_r.
  - rewrite IH. f_equal; lia.
Qed.

Lemma drop_range_app hm a b : ∀ v s,
  drop_range hm v (a + b) s = drop_range hm (v + Z.of_nat a) b (drop_range hm v a s).
Proof.
  induction a as [|a IH]; intros v s; cbn [drop_range Nat.add].
  - by rewrite Z.add_0_r.
  - rewrite IH. f_equal; lia.
Qed.

(** ** Lemmas: the page-table walks *)

Section Walk.
Context (high_memory : Z) (pte_ok : Z → bool).

Lemma remap_pte_run n : ∀ fuel pte a off s,
  (0 < n ≤ fuel)%nat → 0 ≤ a → a + 4096 * Z.of_nat n < 2 ^ 32 →
  0 ≤ off → off + 4096 * Z.of_nat n < 2 ^ 32 →
  remap_pte_loop fuel pte a (a + 4096 * Z.of_nat n) off s =
    Ret tt (s <| pgt := map_range pte off n (pgt s) |>).
Proof.
  induction n as [|n IH]; intros fuel pte a off s Hn Ha Hlim Ho Holim; [lia|].
  destruct fuel as [|fuel]; [lia|]. cbn [remap_pte_loop]. unfold mbind, M_bind, set_pte, modify.
  change PAGE_SIZE with 4096. rewrite !u32_id by lia.
  destruct (Z.ltb_spec (a + 4096) (a + 4096 * Z.of_nat (S n))) as [H|H].
  - replace (a + 4096 * Z.of_nat (S n)) with (a + 4096 + 4096 * Z.of_nat n) by lia.
    by rewrite IH by lia.
  - by destruct n; [|lia].
Qed.

Lemma remap_pmd_step fuel dir address end_ offset :
  remap_pmd_loop pte_ok (S fuel) dir address end_ offset =
    if negb (pte_ok dir) then mret (- ENOMEM)
    else
      remap_area_pte (pte_offset dir address) address (u32 (end_ - address))
        (u32 (address + offset)) ;;
      if mask_hi PMD_SIZE (u32 (address + PMD_SIZE)) <? end_
      then remap_pmd_loop pte_ok fuel (dir + 1) (mask_hi PMD_SIZE (u32 (address + PMD_SIZE))) end_ offset
      else mret 0.
Proof. done. Qed.

Lemma remap_pmd_run v n off s :
  0 ≤ v → 0 < n → 4096 * (v + n) ≤ 2 ^ 32 - 2 ^ 22 → 0 ≤ off → off + 4096 * n < 2 ^ 32 →
  remap_area_pmd pte_ok (v / 1024) (4096 * v) (4096 * n) off s =
    if pte_ok (v / 1024)
    then Ret 0 (s <| pgt := map_range v off (Z.to_nat (in_dir v n)) (pgt s) |>)
    else Ret (- ENOMEM) s.
Proof.
  intros Hv Hn Hlim Ho Holim. pose proof (Z.mod_pos_bound v 1024 ltac:(lia)) as Hm.
  assert (Hin : 0 < in_dir v n ≤ 1024) by (unfold in_dir; lia).
  assert (in_dir v n ≤ n) by (unfold in_dir; lia).
  assert (v mod 1024 + in_dir v n ≤ 1024) by (unfold in_dir; lia).
  unfold remap_area_pmd, PGDIR_SIZE. rewrite !mask_lo_mod, page_in_dir, clip_dir by lia.
  rewrite remap_pmd_step.
  destruct (pte_ok (v / 1024)); [|done]. cbn [negb].
  autorewrite with bits.
  replace (4096 * (v mod 1024) + (off - 4096 * (v mod 1024))) with off by lia.
  rewrite pte_offset_page by done. rewrite (u32_id off) by lia.
  unfold remap_area_pte, PMD_SIZE. rewrite mask_lo_mod by lia.
  rewrite (Z.mod_small (4096 * (v mod 1024))) by lia.
  replace (4096 * (v mod 1024 + in_dir v n) - 4096 * (v mod 1024)) with (4096 * in_dir v n) by lia.
  rewrite (u32_id (4096 * in_dir v n)) by lia.
  rewrite clip_in by lia.
  unfold mbind at 1, M_bind at 1. rewrite remap_pte_run by lia.
  rewrite u32_id by lia. rewrite mask_hi_div by lia.
  destruct (Z.ltb_spec (2 ^ 22 * ((4096 * (v mod 1024) + 2 ^ 22) / 2 ^ 22))
    (4096 * (v mod 1024 + in_dir v n))) as [Hlt|]; [exfalso|done].
  rewrite <-(Z.mul_1_l (2 ^ 22)), Z.div_add, Z.div_small in Hlt by lia. lia.
Qed.

(** A walk over a range maps a prefix of its pages: all of them when it
    succeeds. *)
Lemma remap_dir_run fuel : ∀ v n off s,
  0 ≤ v → 0 ≤ n → 4096 * (v + n) ≤ 2 ^ 32 - 2 ^ 22 → 0 ≤ off → off + 4096 * n < 2 ^ 32 →
  1023 - v / 1024 < Z.of_nat fuel →
  ∃ r m, remap_dir_loop pte_ok fuel (v / 1024) (4096 * v) (4096 * (v + n)) (u32 (off - 4096 * v)) s =
      Ret r (s <| pgt := map_range v off (Z.to_nat m) (pgt s) |>) ∧
    0 ≤ m ≤ n ∧ (r = 0 ∧ m = n ∨ r = - ENOMEM) ∧ ((∀ d, pte_ok d = true) → r = 0).
Proof.
  induction fuel as [|fuel IH]; intros v n off s Hv Hn Hlim Ho Holim Hfuel.
  { assert (v / 1024 < 1024) by (apply Z.div_lt_upper_bound; lia). lia. }
  cbn [remap_dir_loop]. destruct (Z.ltb_spec (4096 * v) (4096 * (v + n))) as [Hlt|Hge].
  2:{ exists 0, 0. assert (n = 0) as -> by lia. destruct s. split; [done|].
      split; [lia|]. split; [by left|done]. }
  replace (4096 * (v + n) - 4096 * v) with (4096 * n) by lia. autorewrite with bits.
  replace (off - 4096 * v + 4096 * v) with off by lia. rewrite (u32_id off), (u32_id (4096 * n)) by lia.
  unfold mbind, M_bind. rewrite remap_pmd_run by lia.
  destruct (pte_ok (v / 1024)) eqn:Ep.
  2:{ exists (- ENOMEM), 0. destruct s. split; [done|]. split; [lia|]. split; [by right|].
      intros Hall. by rewrite Hall in Ep. }
  cbn [Z.eqb negb]. pose proof (Z.mod_pos_bound v 1024 ltac:(lia)) as Hm.
  pose proof (Z.div_mod v 1024 ltac:(lia)) as Hdm.
  rewrite (u32_id (4096 * v + PGDIR_SIZE)) by (unfold PGDIR_SIZE; lia). rewrite next_dir by done.
  set (w := 1024 * (v / 1024 + 1)). assert (Hw : w / 1024 = v / 1024 + 1)
    by (unfold w; rewrite Z.mul_comm; apply Z.div_mul; lia).
  rewrite <-Hw. set (t := s <| pgt := _ |>).
  destruct (decide (n ≤ 1024 - v mod 1024)) as [Hd|Hd].
  - destruct fuel as [|fuel].
    { assert (v / 1024 < 1023) by (apply Z.div_lt_upper_bound; lia). lia. }
    cbn [remap_dir_loop]. rewrite (proj2 (Z.ltb_ge (4096 * w) (4096 * (v + n)))) by lia.
    exists 0, n. subst t. unfold in_dir. rewrite Z.min_l by lia. split; [done|].
    split; [lia|]. split; [by left|done].
  - destruct (IH w (v + n - w) (off + 4096 * (w - v)) t) as (r & m & E & Hmn & Hr & Hall); try lia.
    replace (w + (v + n - w)) with (v + n) in E by lia.
    replace (off + 4096 * (w - v) - 4096 * w) with (off - 4096 * v) in E by lia.
    exists r, (w - v + m). rewrite E. split; [|split; [lia|]].
    2:{ split; [|done]. destruct Hr as [[-> ->]| ->]; [left; lia|by right]. }
    subst t. cbn. unfold in_dir. rewrite Z.min_r by lia.
    replace (1024 - v mod 1024) with (w - v) by lia.
    rewrite Z2Nat.inj_add, map_range_app, Z2Nat.id by lia.
    replace (v + (w - v)) with w by lia. done.
Qed.

Lemma free_pte_run n : ∀ fuel pte a s,
  (n < fuel)%nat → 0 ≤ a → a + 4096 * Z.of_nat n < 2 ^ 32 →
  free_pte_loop high_memory fuel pte a (a + 4096 * Z.of_nat n) s =
    Ret tt (drop_range high_memory pte n s).
Proof.
  induction n as [|n IH]; intros fuel pte a s Hn Ha Hlim; (destruct fuel as [|fuel]; [lia|]);
    cbn [free_pte_loop].
  { by rewrite (proj2 (Z.ltb_ge _ _)) by lia. }
  rewrite (proj2 (Z.ltb_lt _ _)) by lia. rewrite (u32_id (a + PAGE_SIZE)) by (unfold PAGE_SIZE; lia).
  replace (a + 4096 * Z.of_nat (S n)) with (a + PAGE_SIZE + 4096 * Z.of_nat n)
    by (unfold PAGE_SIZE; lia).
  cbn [drop_range]. unfold mbind, M_bind, gets, pte_clear, modify.
  destruct (pgt s !! pte) as [p|] eqn:E.
  - unfold free_page, when. set (b := _ <? _).
    assert (drop_page high_memory pte s = s <| pgt := delete pte (pgt s) |>
      <| avail := if b then mask_hi PAGE_SIZE p :: avail s else avail s |>) as ->
      by (unfold drop_page; by rewrite E).
    unfold modify, mret, M_ret. destruct b; rewrite IH by (unfold PAGE_SIZE; lia); [done|]. by destruct s.
  - unfold mret, M_ret. rewrite IH by (unfold PAGE_SIZE; lia). unfold drop_page. rewrite E. by destruct s.
Qed.

Lemma free_pmd_step fuel dir address end_ :
  free_pmd_loop high_memory (S fuel) dir address end_ =
    if address <? end_ then
      free_area_pte high_memory dir address (u32 (end_ - address)) ;;
      free_pmd_loop high_memory fuel (dir + 1) (mask_hi PMD_SIZE (u32 (address + PMD_SIZE))) end_
    else mret tt.
Proof. done. Qed.

Lemma free_pmd_run v n s :
  0 ≤ v → 0 < n → 4096 * (v + n) ≤ 2 ^ 32 - 2 ^ 22 →
  free_area_pmd high_memory (v / 1024) (4096 * v) (4096 * n) s =
    Ret tt (drop_range high_memory v (Z.to_nat (in_dir v n)) s).
Proof.
  intros Hv Hn Hlim. pose proof (Z.mod_pos_bound v 1024 ltac:(lia)) as Hm.
  assert (Hin : 0 < in_dir v n ≤ 1024) by (unfold in_dir; lia).
  assert (v mod 1024 + in_dir v n ≤ 1024) by (unfold in_dir; lia).
  unfold free_area_pmd, PGDIR_SIZE. rewrite !mask_lo_mod, page_in_dir, clip_dir by lia.
  rewrite free_pmd_step, (proj2 (Z.ltb_lt _ _)) by lia.
  unfold free_area_pte, PMD_SIZE. rewrite pte_offset_page, mask_lo_mod by lia.
  rewrite (Z.mod_small (4096 * (v mod 1024))) by lia.
  replace (4096 * (v mod 1024 + in_dir v n) - 4096 * (v mod 1024)) with (4096 * in_dir v n) by lia.
  rewrite (u32_id (4096 * in_dir v n)) by lia.
  rewrite clip_in by (rewrite ?Z2Nat.id; lia).
  unfold mbind, M_bind. rewrite free_pte_run by lia.
  rewrite (u32_id (4096 * (v mod 1024) + 2 ^ 22)), mask_hi_div by lia.
  rewrite free_pmd_step, (proj2 (Z.ltb_ge _ _)); [done|].
  rewrite <-(Z.mul_1_l (2 ^ 22)) at 2. rewrite Z.div_add, Z.div_small by lia. lia.
Qed.

Lemma free_dir_run fuel : ∀ v n s,
  0 ≤ v → 0 ≤ n → 4096 * (v + n) ≤ 2 ^ 32 - 2 ^ 22 → 1023 - v / 1024 < Z.of_nat fuel →
  free_dir_loop high_memory fuel (v / 1024) (4096 * v) (4096 * (v + n)) s =
    Ret tt (drop_range high_memory v (Z.to_nat n) s).
Proof.
  induction fuel as [|fuel IH]; intros v n s Hv Hn Hlim Hfuel.
  { assert (v / 1024 < 1024) by (apply Z.div_lt_upper_bound; lia). lia. }
  cbn [free_dir_loop]. destruct (Z.ltb_spec (4096 * v) (4096 * (v + n))) as [Hlt|Hge].
  2:{ assert (n = 0) as -> by lia. done. }
  replace (4096 * (v + n) - 4096 * v) with (4096 * n) by lia. rewrite (u32_id (4096 * n)) by lia.
  unfold mbind, M_bind. rewrite free_pmd_run by lia.
  pose proof (Z.mod_pos_bound v 1024 ltac:(lia)) as Hm.
  pose proof (Z.div_mod v 1024 ltac:(lia)) as Hdm.
  rewrite (u32_id (4096 * v + PGDIR_SIZE)) by (unfold PGDIR_SIZE; lia). rewrite next_dir by done.
  set (w := 1024 * (v / 1024 + 1)). assert (Hw : w / 1024 = v / 1024 + 1)
    by (unfold w; rewrite Z.mul_comm; apply Z.div_mul; lia).
  rewrite <-Hw. set (t := drop_range _ _ _ s).
  destruct (decide (n ≤ 1024 - v mod 1024)) as [Hd|Hd].
  - destruct fuel as [|fuel].
    { assert (v / 1024 < 1023) by (apply Z.div_lt_upper_bound; lia). lia. }
    cbn [free_dir_loop]. rewrite (proj2 (Z.ltb_ge (4096 * w) (4096 * (v + n)))) by lia.
    subst t. unfold in_dir. by rewrite Z.min_l by lia.
  - replace (v + n) with (w + (v + n - w)) by lia. rewrite IH by lia. subst t.
    unfold in_dir. rewrite Z.min_r by lia. replace (1024 - v mod 1024) with (w - v) by lia.
    f_equal. replace (Z.to_nat n) with (Z.to_nat (w - v) + Z.to_nat (v + n - w))%nat by lia.
    rewrite drop_range_app, Z2Nat.id by lia. f_equal. lia.
Qed.

End Walk.

(** ** Lemmas: areas *)

Lemma map_range_lookup n : ∀ v off t w,
  map_range v off n t !! w =
    if decide (v ≤ w < v + Z.of_nat n) then Some (off + 4096 * (w - v)) else t !! w.
Proof.
  induction n as [|n IH]; intros v off t w; cbn [map_range].
  - by rewrite decide_False by lia.
  - rewrite IH. destruct (decide (w = v)) as [->|Hne].
    + rewrite decide_False, lookup_insert_eq, decide_True by lia. f_equal. lia.
    + rewrite lookup_insert_ne by done. unfold PAGE_SIZE.
      destruct (decide (v + 1 ≤ w < v + 1 + Z.of_nat n)).
      * rewrite decide_True by lia. f_equal. lia.
      * by rewrite decide_False by lia.
Qed.

Lemma drop_range_pgt hm n : ∀ v s,
  vmlist (drop_range hm v n s) = vmlist s ∧
  ∀ w, pgt (drop_range hm v n s) !! w =
    if decide (v ≤ w < v + Z.of_nat n) then None else pgt s !! w.
Proof.
  induction n as [|n IH]; intros v s; cbn [drop_range].
  { split; [done|]. intros w. by rewrite decide_False by lia. }
  destruct (IH (v + 1) (drop_page hm v s)) as (H1 & H3). rewrite H1. split; [done|].
  intros w. rewrite H3. cbn. destruct (decide (w = v)) as [->|Hne].
  - rewrite decide_False, lookup_delete_eq, decide_True by lia. done.
  - rewrite lookup_delete_ne by done. apply decide_ext. lia.
Qed.

(** Unmapping pages above [high_memory] frees nothing. *)
Lemma drop_range_io hm n : ∀ v s,
  (∀ w p, v ≤ w < v + Z.of_nat n → pgt s !! w = Some p →
     MAP_NR hm ≤ MAP_NR (mask_hi PAGE_SIZE p)) →
  avail (drop_range hm v n s) = avail s.
Proof.
  induction n as [|n IH]; intros v s Hio; cbn [drop_range]; [done|]. rewrite IH.
  - cbn. destruct (pgt s !! v) as [p|] eqn:E; [|done].
    rewrite (proj2 (Z.ltb_ge _ _)); [done|]. apply (Hio v); [lia|done].
  - intros w p Hw Hp. cbn in Hp. rewrite lookup_delete_ne in Hp by lia.
    apply (Hio w); [lia|done].
Qed.

Lemma areas_end l : ∀ a, areas_ok a l → a ≤ vm_end a l.
Proof.
  induction l as [|x l IH]; intros a; cbn; [lia|]. intros (H1 & _ & _ & H2 & H3).
  specialize (IH _ H3). lia.
Qed.

Lemma areas_in l : ∀ a x, areas_ok a l → x ∈ l →
  a ≤ vm_addr x ∧ vm_addr x mod 4096 = 0 ∧ vm_size x mod 4096 = 0 ∧ 4096 < vm_size x ∧
  vm_addr x + vm_size x ≤ vm_end a l.
Proof.
  induction l as [|y l IH]; intros a x Hok Hx; [by apply elem_of_nil in Hx|].
  destruct Hok as (H1 & H2 & H3 & H4 & H5). apply elem_of_cons in Hx as [->|Hx].
  - split_and!; try done. apply (areas_end _ _ H5).
  - destruct (IH _ _ H5 Hx) as (? & ? & ? & ? & ?). split_and!; try done. lia.
Qed.

Lemma start_aligned hm :
  0 ≤ hm → 2 ^ 23 ≤ VMALLOC_START hm ∧ VMALLOC_START hm mod 4096 = 0.
Proof.
  intros Hh. unfold VMALLOC_START. change VMALLOC_OFFSET with (2 ^ 23).
  rewrite mask_hi_div by lia. pose proof (Z.div_le_lower_bound (hm + 2 ^ 23) (2 ^ 23) 1).
  split; [lia|]. replace (2 ^ 23 * ((hm + 2 ^ 23) / 2 ^ 23))
    with (2048 * ((hm + 2 ^ 23) / 2 ^ 23) * 4096) by lia. apply Z.mod_mul. lia.
Qed.

(** First fit: the new area goes between two neighbours and stays clear of both. *)
Lemma place_area_spec size l : ∀ a,
  0 ≤ a → a mod 4096 = 0 → areas_ok a l → 0 < size → size mod 4096 = 0 →
  vm_end a l + size + 4096 ≤ VM_LIMIT →
  ∃ addr l1 l2, let x := {| vm_addr := addr; vm_size := size + 4096 |} in
    l = l1 ++ l2 ∧ place_area size a l = (addr, l1 ++ x :: l2) ∧
    a ≤ addr ∧ addr mod 4096 = 0 ∧ addr ≤ vm_end a l ∧ areas_ok a (l1 ++ x :: l2) ∧
    vm_end a (l1 ++ x :: l2) ≤ vm_end a l + size + 4096 ∧
    Forall (λ y, vm_addr y + vm_size y ≤ addr) l1 ∧ Forall (λ y, addr + size + 4096 ≤ vm_addr y) l2.
Proof.
  unfold VM_LIMIT. induction l as [|y l IH]; intros a Ha Hal Hok Hs Hsal Hlim.
  all: cbn [place_area]; change PAGE_SIZE with 4096.
  all: assert (Hsz : (size + 4096) mod 4096 = 0)
    by (replace (size + 4096) with (size + 1 * 4096) by lia; by rewrite Z.mod_add).
  - cbn in Hlim. exists a, [], []. rewrite u32_id by lia. cbn.
    split_and!; try done; lia.
  - pose proof (areas_in _ _ y Hok ltac:(by left)) as (H1 & H2 & H3 & H4 & H5).
    cbn [vm_end] in *. rewrite !u32_id by lia. destruct (Z.ltb_spec (size + a) (vm_addr y)) as [Hlt|Hge].
    + assert (Hgap : size + 4096 + a ≤ vm_addr y).
      { apply Z.mod_divide in Hal as [ka ->], Hsal as [ks ->], H2 as [ky Hky]; [lia..|]. lia. }
      exists a, [], (y :: l). cbn. destruct Hok as (_ & Hok).
      split_and!; try done; try lia; [apply Hok|].
      apply Forall_cons. split; [lia|]. apply Forall_forall. intros z Hz.
      destruct (areas_in _ _ z (proj2 (proj2 (proj2 Hok))) Hz). lia.
    + destruct (IH (vm_addr y + vm_size y)) as (addr & l1 & l2 & -> & E & K1 & K2 & K3 & K4 & K5 & K6 & K7);
        try lia; [by rewrite Z.add_mod, H2, H3 by lia|apply Hok|].
      rewrite (Z.add_comm (vm_size y)), E. exists addr, (y :: l1), l2. cbn.
      split_and!; try done; try lia. apply Forall_cons. split; [lia|done].
Qed.

Lemma take_area_mid l1 x l2 :
  Forall (λ y, vm_addr y ≠ vm_addr x) l1 → take_area (vm_addr x) (l1 ++ x :: l2) = Some (x, l1 ++ l2).
Proof.
  induction 1 as [|y l1 Hy _ IH]; cbn; [by rewrite Z.eqb_refl|].
  apply Z.eqb_neq in Hy as ->. by rewrite IH.
Qed.

Lemma vm_page_addr addr : addr mod 4096 = 0 → 4096 * vm_page addr = TASK_SIZE + addr.
Proof.
  intros H. unfold vm_page, TASK_SIZE.
  assert ((0xC0000000 + addr) mod 4096 = 0) by (rewrite Z.add_mod, H; done).
  pose proof (Z.div_mod (0xC0000000 + addr) 4096 ltac:(lia)). lia.
Qed.

Lemma vmaddr_page addr :
  addr mod 4096 = 0 → 0 ≤ addr ≤ VM_LIMIT → VMALLOC_VMADDR addr = 4096 * vm_page addr.
Proof.
  intros H Hr. rewrite vm_page_addr by done. apply u32_id. unfold TASK_SIZE, VM_LIMIT in *. lia.
Qed.

(** No page of a new area is mapped yet. *)
Lemma fresh_pages hm s addr n l1 l2 w :
  vm_inv hm s → vmlist s = l1 ++ l2 → VMALLOC_START hm ≤ addr → addr mod 4096 = 0 → 0 ≤ n →
  Forall (λ y, vm_addr y + vm_size y ≤ addr) l1 →
  Forall (λ y, addr + 4096 * (n + 1) ≤ vm_addr y) l2 →
  vm_page addr ≤ w ≤ vm_page addr + n → pgt s !! w = None.
Proof.
  intros Hinv Hl Hs Ha Hn H1 H2 Hw. destruct (pgt s !! w) as [p|] eqn:E; [exfalso|done].
  pose proof (vm_page_addr addr Ha) as Hp.
  destruct (start_aligned hm (vm_high _ _ Hinv)) as [_ Hsa].
  pose proof (vm_page_addr _ Hsa) as Hps.
  pose proof (vm_owned _ _ Hinv w p ltac:(lia) E) as Hex.
  apply Exists_exists in Hex as (y & Hy & Hin). unfold in_area in Hin.
  destruct (areas_in _ _ y (vm_sorted _ _ Hinv) Hy) as (K1 & K2 & K3 & K4 & _).
  pose proof (vm_page_addr _ K2). pose proof (Z.div_mod (vm_size y) 4096 ltac:(lia)).
  rewrite Hl in Hy. apply elem_of_app in Hy as [Hy|Hy].
  - rewrite Forall_forall in H1. specialize (H1 y Hy). cbn in H1. lia.
  - rewrite Forall_forall in H2. specialize (H2 y Hy). cbn in H2. lia.
Qed.

(** Freeing an area of which some pages have been mapped to device memory takes
    back everything that was done for it. *)
Lemma vfree_undo hm s addr n off m l1 l2 :
  vm_inv hm s → vmlist s = l1 ++ l2 → VMALLOC_START hm ≤ addr → addr mod 4096 = 0 →
  0 < n → addr + 4096 * (n + 1) ≤ VM_LIMIT → 0 ≤ m ≤ n →
  Forall (λ y, vm_addr y + vm_size y ≤ addr) l1 →
  Forall (λ y, addr + 4096 * (n + 1) ≤ vm_addr y) l2 →
  0 ≤ off → off mod 4096 = 0 → MAP_NR hm ≤ MAP_NR off →
  vfree hm addr (s <| vmlist := l1 ++ {| vm_addr := addr; vm_size := 4096 * (n + 1) |} :: l2 |>
                   <| pgt := map_range (vm_page addr) off (Z.to_nat m) (pgt s) |>) = Ret tt s.
Proof.
  intros Hinv Hl Hs Ha Hn Hlim Hm H1 H2 Ho Hoa Hio.
  destruct (start_aligned hm (vm_high _ _ Hinv)) as [Hs0 _].
  unfold vfree. rewrite (proj2 (Z.eqb_neq addr 0)) by lia.
  assert (Z.land (PAGE_SIZE - 1) addr = 0) as ->
    by (rewrite Z.land_comm; change (PAGE_SIZE - 1) with (Z.ones 12); by rewrite Z.land_ones).
  cbn [Z.eqb negb]. unfold mbind, M_bind, gets, modify. cbn [vmlist upd eta_vms].
  set (x := {| vm_addr := addr; vm_size := 4096 * (n + 1) |}).
  assert (take_area addr (l1 ++ x :: l2) = Some (x, l1 ++ l2)) as ->.
  { apply (take_area_mid l1 x l2), Forall_forall. intros y Hy. rewrite Forall_forall in H1.
    specialize (H1 y Hy). cbn in *.
    destruct (areas_in _ _ y (vm_sorted _ _ Hinv)) as (_ & _ & _ & ? & _);
      [rewrite Hl; apply elem_of_app; by left|lia]. }
  pose proof (vm_page_addr addr Ha) as Hp. unfold VM_LIMIT, TASK_SIZE in *.
  unfold free_area_pages. subst x. cbn [vm_addr vm_size upd vmlist pgt avail].
  rewrite vmaddr_page, dir_of_page, u32_id by (try done; unfold VM_LIMIT; lia).
  rewrite <-Z.mul_add_distr_l, free_dir_run by (try apply dirs_left; lia). f_equal.
  set (s1 := MkVms _ _ _).
  destruct (drop_range_pgt hm (Z.to_nat (n + 1)) (vm_page addr) s1) as [D1 D3].
  assert (D2 : avail (drop_range hm (vm_page addr) (Z.to_nat (n + 1)) s1) = avail s1).
  { apply drop_range_io. intros w p Hw. subst s1. cbn. rewrite map_range_lookup.
    destruct (decide _) as [Hd|Hd].
    - intros [= <-]. unfold PAGE_SIZE. rewrite mask_hi_div by lia.
      unfold MAP_NR in *. rewrite !Z.shiftr_div_pow2 in * by (unfold PAGE_SHIFT; lia).
      etrans; [exact Hio|]. apply Z.div_le_mono; [unfold PAGE_SHIFT; lia|].
      pose proof (Z.div_mod off 4096 ltac:(lia)). change (2 ^ 12) with 4096.
      replace (off + 4096 * (w - vm_page addr)) with ((off / 4096 + (w - vm_page addr)) * 4096) by lia.
      rewrite Z.div_mul by lia. lia.
    - rewrite (fresh_pages hm s addr n l1 l2) by (try done; unfold VM_LIMIT; lia). done. }
  destruct s as [vl pg av]. subst s1. cbn in *. subst vl.
  destruct (drop_range hm _ _ _) as [vl' pg' av']. cbn in *. subst. f_equal.
  apply map_eq. intros w. rewrite D3. destruct (decide _) as [Hd|Hd].
  - symmetry. apply (fresh_pages hm (MkVms (l1 ++ l2) pg av) addr n l1 l2); try done; lia.
  - rewrite map_range_lookup. by rewrite decide_False by lia.
Qed.

Lemma take_area_Some addr l x r :
  take_area addr l = Some (x, r) → ∃ l1 l2, l = l1 ++ x :: l2 ∧ r = l1 ++ l2 ∧ vm_addr x = addr.
Proof.
  revert r. induction l as [|y l IH]; intros r; cbn; [done|].
  destruct (Z.eqb_spec (vm_addr y) addr) as [Hy|Hy].
  - intros [= -> ->]. by exists [], r.
  - destruct (take_area addr l) as [[z q]|]; [|done]. intros [= -> <-].
    destruct (IH q eq_refl) as (l1 & l2 & -> & -> & Hx). by exists (y :: l1), l2.
Qed.

Lemma areas_remove l1 x l2 : ∀ a,
  areas_ok a (l1 ++ x :: l2) → areas_ok a (l1 ++ l2) ∧ vm_end a (l1 ++ l2) ≤ vm_end a (l1 ++ x :: l2).
Proof.
  induction l1 as [|y l1 IH]; intros a; cbn.
  - intros (H1 & H2 & H3 & H4 & H5). destruct l2 as [|z l2]; cbn in *; [lia|].
    destruct H5 as (? & ? & ? & ? & ?). split_and!; try done; lia.
  - intros (H1 & H2 & H3 & H4 & H5). destruct (IH _ H5). done.
Qed.

(** [vfree] of any address returns and keeps the invariant. *)
Lemma vfree_keeps hm addr s :
  vm_inv hm s →
  ∃ s', vfree hm addr s = Ret tt s' ∧ vm_inv hm s' ∧
    vm_end (VMALLOC_START hm) (vmlist s') ≤ vm_end (VMALLOC_START hm) (vmlist s).
Proof.
  intros Hinv. unfold vfree. destruct (addr =? 0); [by exists s|].
  destruct (negb _); [by exists s|]. unfold mbind, M_bind, gets, modify.
  destruct (take_area addr (vmlist s)) as [[x r]|] eqn:E; [|by exists s].
  apply take_area_Some in E as (l1 & l2 & Hl & -> & Hx).
  destruct (start_aligned hm (vm_high _ _ Hinv)) as [Hs0 _].
  pose proof (vm_sorted _ _ Hinv) as Hs. pose proof (vm_limit _ _ Hinv) as Hlim.
  destruct (areas_in _ _ x Hs) as (K1 & K2 & K3 & K4 & K5);
    [rewrite Hl; apply elem_of_app; right; by left|].
  rewrite Hl in Hs, Hlim, K5. destruct (areas_remove _ _ _ _ Hs) as [Hr Hend].
  pose proof (vm_page_addr _ K2) as Hp. unfold free_area_pages.
  pose proof (Z.div_mod (vm_size x) 4096 ltac:(lia)) as Hd. rewrite K3, Z.add_0_r in Hd.
  unfold VM_LIMIT, TASK_SIZE in *.
  rewrite vmaddr_page, dir_of_page, Hd, u32_id by (try done; unfold VM_LIMIT; lia).
  rewrite <-Z.mul_add_distr_l, free_dir_run by (try apply dirs_left; lia).
  eexists. split; [reflexivity|]. set (s1 := s <| vmlist := _ |>).
  destruct (drop_range_pgt hm (Z.to_nat (vm_size x / 4096)) (vm_page (vm_addr x)) s1) as [D1 D2].
  rewrite D1. subst s1. cbn in *. split; [|by rewrite Hl]. split.
  - apply Hinv.
  - by rewrite D1.
  - rewrite D1. unfold VM_LIMIT. lia.
  - rewrite D1. intros v p Hv. rewrite D2. destruct (decide _) as [|Hout]; [done|]. intros Hp'.
    pose proof (vm_owned _ _ Hinv v p Hv Hp') as Hex. rewrite Hl in Hex.
    apply Exists_app in Hex as [Hex|Hex]; apply Exists_app; [by left|right].
    apply Exists_cons in Hex as [Hin|Hex]; [|done]. exfalso. unfold in_area in Hin. lia.
Qed.

Lemma page_align_pages size : ∃ n, PAGE_ALIGN size = 4096 * n ∧ 0 ≤ n.
Proof.
  unfold PAGE_ALIGN, PAGE_SIZE. rewrite mask_hi_div by lia.
  eexists. split; [reflexivity|]. pose proof (u32_range (size + 2 ^ 12 - 1)).
  apply Z.div_pos; lia.
Qed.

(** The requests [vremap] does not refuse. *)
Definition remappable (hm offset size : Z) : Prop :=
  MAP_NR hm ≤ MAP_NR offset ∧ offset mod 4096 = 0 ∧ PAGE_ALIGN size ≠ 0 ∧
  offset + PAGE_ALIGN size < 2 ^ 32.

(** A new area as [vremap] leaves it: clear of all others, and mapped. *)
Record mapped_area (hm offset size addr : Z) (s s' : vm_state) : Prop := {
  ma_aligned : addr mod 4096 = 0;
  ma_listed : {| vm_addr := addr; vm_size := PAGE_ALIGN size + 4096 |} ∈ vmlist s';
  ma_disjoint : Forall (λ y, vm_addr y + vm_size y ≤ addr ∨
    addr + PAGE_ALIGN size + 4096 ≤ vm_addr y) (vmlist s);
  ma_mapped w : pgt s' !! w =
    if decide (vm_page addr ≤ w < vm_page addr + PAGE_ALIGN size / 4096)
    then Some (offset + 4096 * (w - vm_page addr)) else pgt s !! w;
  ma_end : vm_end (VMALLOC_START hm) (vmlist s') ≤
    vm_end (VMALLOC_START hm) (vmlist s) + PAGE_ALIGN size + 4096;
  ma_undo : vfree hm addr s' = Ret tt s;
}.

Section Remap.
Context (high_memory : Z) (pte_ok : Z → bool) (kmalloc_ok : bool).

(** What [vremap] may do. *)
Definition remap_outcome (offset size : Z) (s : vm_state) (o : out vm_state Z) : Prop :=
  ∃ addr s', o = Ret addr s' ∧ vm_inv high_memory s' ∧
    (addr = 0 ∧ s' = s ∨ addr ≠ 0 ∧ mapped_area high_memory offset size addr s s') ∧
    (remappable high_memory offset size → kmalloc_ok = true → (∀ d, pte_ok d = true) → addr ≠ 0).

Lemma remap_refused offset size s :
  vm_inv high_memory s → ¬ remappable high_memory offset size ∨ kmalloc_ok = false →
  remap_outcome offset size s (Ret 0 s).
Proof.
  intros Hinv Hrej. exists 0, s. split; [done|]. split; [done|]. split; [by left|].
  intros Hr Hk. exfalso. destruct Hrej; [done|congruence].
Qed.

(** The list and the page tables after a mapping satisfy the invariant again. *)
Lemma mapped_inv s addr n off l1 l2 :
  vm_inv high_memory s → vmlist s = l1 ++ l2 → 0 < n → addr mod 4096 = 0 →
  let l := l1 ++ {| vm_addr := addr; vm_size := 4096 * n + 4096 |} :: l2 in
  areas_ok (VMALLOC_START high_memory) l → vm_end (VMALLOC_START high_memory) l ≤ VM_LIMIT →
  vm_inv high_memory (s <| vmlist := l |>
                        <| pgt := map_range (vm_page addr) off (Z.to_nat n) (pgt s) |>).
Proof.
  intros Hinv Hl Hn Ha l Hok Hend. split; [apply Hinv|done|done|]. cbn.
  intros v p Hv. rewrite map_range_lookup. destruct (decide _) as [Hd|Hd].
  - intros _. apply Exists_app. right. apply Exists_cons. left. unfold in_area. cbn.
    replace (4096 * n + 4096) with ((n + 1) * 4096) by lia. rewrite Z.div_mul by lia. lia.
  - intros Hp. pose proof (vm_owned _ _ Hinv v p Hv Hp) as Hex. rewrite Hl in Hex.
    apply Exists_app in Hex as [Hex|Hex]; apply Exists_app; [by left|right].
    apply Exists_cons. by right.
Qed.

Lemma vremap_mapping offset size n s :
  vm_inv high_memory s → 0 ≤ offset → offset mod 4096 = 0 → MAP_NR high_memory ≤ MAP_NR offset →
  PAGE_ALIGN size = 4096 * n → 0 < n → offset + 4096 * n < 2 ^ 32 → kmalloc_ok = true →
  vm_end (VMALLOC_START high_memory) (vmlist s) + 4096 * n + 4096 ≤ VM_LIMIT →
  remap_outcome offset size s
    ((area ← get_vm_area high_memory kmalloc_ok (4096 * n);
      match area with
      | None => mret 0
      | Some addr =>
          r ← remap_area_pages pte_ok (VMALLOC_VMADDR addr) offset (4096 * n);
          if negb (r =? 0) then vfree high_memory addr ;; mret 0 else mret addr
      end) s).
Proof.
  intros Hinv Ho Hoa Hio Hsz Hn Hfit Hk Hroom.
  destruct (start_aligned _ (vm_high _ _ Hinv)) as [Hs0 Hsa].
  destruct (place_area_spec (4096 * n) (vmlist s) (VMALLOC_START high_memory))
    as (addr & l1 & l2 & Hl & E & H1 & H2 & H3 & H4 & H5 & H6 & H7);
    [lia|done|apply Hinv|lia|rewrite Z.mul_comm; by apply Z.mod_mul|done|].
  unfold get_vm_area, mbind, M_bind. rewrite Hk, E.
  pose proof (vm_page_addr addr H2) as Hp. unfold remap_area_pages.
  rewrite vmaddr_page, dir_of_page by (done || lia).
  rewrite (u32_id (4096 * vm_page addr + 4096 * n)) by (unfold TASK_SIZE, VM_LIMIT in *; lia).
  rewrite <-Z.mul_add_distr_l.
  destruct (remap_dir_run pte_ok 1025 (vm_page addr) n offset
    (s <| vmlist := l1 ++ {| vm_addr := addr; vm_size := 4096 * n + 4096 |} :: l2 |>))
    as (r & m & -> & Hm & Hr & Hall);
    [unfold TASK_SIZE, VM_LIMIT in *; lia..|apply dirs_left; unfold TASK_SIZE in *; lia|].
  assert (Hundo : ∀ k, 0 ≤ k ≤ n → vfree high_memory addr
    (s <| vmlist := l1 ++ {| vm_addr := addr; vm_size := 4096 * n + 4096 |} :: l2 |>
       <| pgt := map_range (vm_page addr) offset (Z.to_nat k) (pgt s) |>) = Ret tt s).
  { intros k Hk'. replace (4096 * n + 4096) with (4096 * (n + 1)) by lia.
    apply vfree_undo; try done; try lia.
    eapply Forall_impl; [exact H7|]. cbn. lia. }
  destruct Hr as [[-> ->]| ->].
  - eexists addr, _. split; [reflexivity|]. split; [apply (mapped_inv s addr n offset l1 l2 Hinv Hl Hn H2 H4); lia|].
    assert (addr ≠ 0) by lia. split; [right; split; [done|]|done]. split; cbn.
    + done.
    + rewrite Hsz. apply elem_of_app. right. by left.
    + rewrite Hsz, Hl. apply Forall_app. split; (eapply Forall_impl; [eassumption|]); cbn; lia.
    + intros w. rewrite map_range_lookup, Hsz, Z2Nat.id by lia.
      by rewrite (Z.mul_comm 4096 n), Z.div_mul by lia.
    + lia.
    + apply (Hundo n). lia.
  - change (negb (- ENOMEM =? 0)) with true. cbv iota. unfold mbind, M_bind.
    pose proof (Hundo m Hm) as Hu.
    match goal with |- context [vfree _ _ ?t] => change (vfree high_memory addr t = Ret tt s) in Hu end.
    rewrite Hu.
    exists 0, s. split; [done|]. split; [done|]. split; [by left|].
    intros _ _ Hall'. by specialize (Hall Hall').
Qed.

Lemma vremap_cases offset size s :
  vm_inv high_memory s → 0 ≤ offset < 2 ^ 32 →
  vm_end (VMALLOC_START high_memory) (vmlist s) + PAGE_ALIGN size + 4096 ≤ VM_LIMIT →
  remap_outcome offset size s (vremap high_memory pte_ok kmalloc_ok offset size s).
Proof.
  intros Hinv Ho Hroom. destruct (page_align_pages size) as (n & Hn & Hn0).
  unfold vremap. destruct (Z.ltb_spec (MAP_NR offset) (MAP_NR high_memory)) as [Hlt|Hge].
  { apply remap_refused; [done|]. left. intros (? & _). lia. }
  unfold PAGE_SIZE at 1. rewrite mask_lo_mod by lia. change (2 ^ 12) with 4096.
  destruct (Z.eqb_spec (offset mod 4096) 0) as [Hoa|Hoa]; cbn [negb].
  2:{ apply remap_refused; [done|]. left. intros (_ & ? & _). lia. }
  destruct (Z.eqb_spec (PAGE_ALIGN size) 0) as [Hz|Hz]; cbn [orb].
  { apply remap_refused; [done|]. left. intros (_ & _ & ? & _). lia. }
  assert (Hov : (u32 (offset + 4096 * n) <? 4096 * n) = negb (bool_decide (offset + 4096 * n < 2 ^ 32))).
  { destruct (start_aligned _ (vm_high _ _ Hinv)) as [Hs0 _].
    pose proof (areas_end _ _ (vm_sorted _ _ Hinv)). unfold VM_LIMIT in *.
    case_bool_decide; [rewrite u32_id by lia; apply Z.ltb_ge; lia|].
    apply Z.ltb_lt. unfold u32. rewrite <-(Z.mod_add _ (-1)), Z.mod_small by lia. lia. }
  rewrite Hn in * |-. cbv zeta. rewrite Hn, Hov. case_bool_decide as Hfit; cbn [negb].
  2:{ apply remap_refused; [done|]. left. intros (_ & _ & _ & ?). lia. }
  destruct (decide (kmalloc_ok = true)) as [Hk|Hk%not_true_is_false].
  - apply vremap_mapping; try done; lia.
  - unfold get_vm_area, mbind, M_bind. rewrite Hk. apply remap_refused; [done|by right].
Qed.

End Remap.

(** ** Properties *)

(** C13: [vremap] always returns.  It either returns NULL and leaves the areas and
    the page tables exactly as they were, also when a page table cannot be had
    in the middle of the mapping, or it returns the page-aligned address of a
    new area that is clear of every other area by a guard page, whose pages and
    no others are mapped, in order, to the physical pages from [offset] on;
    [vfree] of that address restores the state before the call.  It does not
    fail for a request it accepts when memory is available.  All this holds as long
    as the area and its guard page fit behind the last one, below [VM_LIMIT]:
    [get_vm_area] itself does not look for the end of the address space. *)
Theorem vremap_spec (high_memory offset size : Z) (pte_ok : Z → bool) (kmalloc_ok : bool)
    (s : vm_state) :
  vm_inv high_memory s → 0 ≤ offset < 2 ^ 32 →
  vm_end (VMALLOC_START high_memory) (vmlist s) + PAGE_ALIGN size + 4096 ≤ VM_LIMIT →
  ∃ addr s', vremap high_memory pte_ok kmalloc_ok offset size s = Ret addr s' ∧
    vm_inv high_memory s' ∧
    (addr = 0 ∧ s' = s ∨ addr ≠ 0 ∧ mapped_area high_memory offset size addr s s') ∧
    (remappable high_memory offset size → kmalloc_ok = true → (∀ d, pte_ok d = true) → addr ≠ 0).
Proof. apply vremap_cases. Qed.

Definition boot_vm : vm_state := {| vmlist := []; pgt := ∅; avail := [] |}.

Lemma boot_vm_inv : vm_inv 0x1000000 boot_vm.
Proof.
  split; [done|done|by vm_compute|]. intros v p _. cbn. by rewrite lookup_empty.
Qed.

Lemma vremap_spec_witness :
  ∃ s', vremap 0x1000000 (λ _, true) true 0xE0002000 100 boot_vm = Ret 0x1800000 s' ∧
    pgt s' !! 0xC1800 = Some 0xE0002000 ∧ vfree 0x1000000 0x1800000 s' = Ret tt boot_vm.
Proof.
  destruct (vremap_spec 0x1000000 0xE0002000 100 (λ _, true) true boot_vm)
    as (addr & s' & E & _ & H & Hne).
  - exact boot_vm_inv.
  - lia.
  - by vm_compute.
  - assert (addr = 0x1800000) as -> by (vm_compute in E; by injection E).
    destruct H as [[? _]|[_ Hm]]; [done|]. exists s'. split; [done|]. split.
    + rewrite (ma_mapped _ _ _ _ _ _ Hm). by vm_compute.
    + apply (ma_undo _ _ _ _ _ _ Hm).
Defined.
