(* ===== verification/Host.v ===== *)
(** * Host: what the drivers find in the machine

    The services of the kernel and the firmware that the initialisation of the
    MRP drivers calls.  The PCI BIOS is firmware: [bios] is what it answers.
    [Mapper] is what the drivers are promised by [vremap] and [vfree]; the
    model of mm/vmalloc.c keeps that promise ([vmalloc_mapper]). *)

From S2P Require Import Prelude Vmalloc.

(** ** The PCI BIOS *)

Definition PCI_VENDOR_ID_SONY : Z := 0x104d.
Definition PCI_DEVICE_ID_SONY_PS2_MRP : Z := 0x8047.
Definition PCI_BASE_ADDRESS_0 : Z := 0x10.
Definition PCI_BASE_ADDRESS_2 : Z := 0x18.
Definition PCI_BASE_ADDRESS_3 : Z := 0x1c.
Definition PCI_BASE_ADDRESS_4 : Z := 0x20.
Definition PCI_INTERRUPT_LINE : Z := 0x3c.

(** [None] is an error code. *)
Record bios := MkBios {
  pcibios_present : bool;
  pcibios_find_device : Z → Z → Z → option (Z * Z);
  pcibios_read_config_dword : Z → Z → Z → option Z;
  pcibios_read_config_byte : Z → Z → Z → option Z;
}.

(** ** Mapping register windows *)

(** [room n v]: the mappings are in order and there is address space for [n]
    more windows of a page each. *)
Class Mapper (V : Type) := {
  remap : Z → Z → V → out V Z;
  unmap : Z → V → out V unit;
  room : nat → V → Prop;
  room_less n v : room (S n) v → room n v;
  remap_room n off v : room (S n) v → 0 ≤ off < 2 ^ 32 →
    ∃ a v', remap off PAGE_SIZE v = Ret a v' ∧ room n v' ∧ a mod 4096 = 0 ∧ 0 ≤ a < 2 ^ 30;
  unmap_room n a v : room n v → ∃ v', unmap a v = Ret tt v' ∧ room n v';
}.

Section Vm.
Context (high_memory : Z) (pte_ok : Z → bool) (kmem : nat → bool).

(** The areas, and the number of the next allocation. *)
Definition vm_host : Type := vm_state * nat.

Definition vm_remap (off size : Z) (v : vm_host) : out vm_host Z :=
  match vremap high_memory pte_ok (kmem v.2) off size v.1 with
  | Ret a s => Ret a (s, S v.2)
  | Stuck w s => Stuck w (s, S v.2)
  end.

Definition vm_unmap (a : Z) (v : vm_host) : out vm_host unit :=
  match vfree high_memory a v.1 with
  | Ret _ s => Ret tt (s, v.2)
  | Stuck w s => Stuck w (s, v.2)
  end.

Definition vm_room (n : nat) (v : vm_host) : Prop :=
  vm_inv high_memory v.1 ∧
  vm_end (VMALLOC_START high_memory) (vmlist v.1) + 8192 * Z.of_nat n ≤ VM_LIMIT.

Lemma vm_room_less n v : vm_room (S n) v → vm_room n v.
Proof. intros [Hinv Hend]. split; [done|lia]. Qed.

Lemma vm_remap_room n off v :
  vm_room (S n) v → 0 ≤ off < 2 ^ 32 →
  ∃ a v', vm_remap off PAGE_SIZE v = Ret a v' ∧ vm_room n v' ∧ a mod 4096 = 0 ∧ 0 ≤ a < 2 ^ 30.
Proof.
  intros [Hinv Hend] Hoff.
  destruct (vremap_cases high_memory pte_ok (kmem v.2) off PAGE_SIZE v.1 Hinv Hoff)
    as (a & s' & E & Hinv' & Hcase & _); [change (PAGE_ALIGN PAGE_SIZE) with 4096; lia|].
  exists a, (s', S v.2). unfold vm_remap. rewrite E. split; [done|].
  destruct Hcase as [[-> ->]|[Ha [H1 H2 H3 _ H4 _]]].
  - split; [|done]. split; [done|]. cbn. lia.
  - change (PAGE_ALIGN PAGE_SIZE) with 4096 in *.
    destruct (areas_in _ _ _ (vm_sorted _ _ Hinv') H2) as (K1 & _ & _ & _ & K2).
    destruct (start_aligned _ (vm_high _ _ Hinv)) as [K3 _]. cbn in K1, K2. unfold VM_LIMIT in *.
    split; [split; cbn; [done|unfold VM_LIMIT; lia]|]. split; [done|]. lia.
Qed.

Lemma vm_unmap_room n a v :
  vm_room n v → ∃ v', vm_unmap a v = Ret tt v' ∧ vm_room n v'.
Proof.
  intros [Hinv Hend]. destruct (vfree_keeps high_memory a v.1 Hinv) as (s' & E & Hinv' & Hle).
  exists (s', v.2). unfold vm_unmap. rewrite E. split; [done|]. split; cbn; [done|lia].
Qed.

Definition vmalloc_mapper : Mapper vm_host := {|
  remap := vm_remap; unmap := vm_unmap; room := vm_room; room_less := vm_room_less;
  remap_room := vm_remap_room; unmap_room := vm_unmap_room;
|}.

End Vm.

(** ** Instances *)

(** One board, on interrupt line 10. *)
Definition sample_bios : bios := {|
  pcibios_present := true;
  pcibios_find_device _ _ index := if index =? 0 then Some (0, 64) else None;
  pcibios_read_config_dword _ _ where_ := Some (0xE0000000 + 0x10000 * where_);
  pcibios_read_config_byte _ _ _ := Some 10;
|}.

Definition sample_mapper : Mapper vm_host := vmalloc_mapper 0x1000000 (λ _, true) (λ _, true).

Lemma sample_room : room (Mapper:=sample_mapper) 12 (boot_vm, 0%nat).
Proof. split; [exact boot_vm_inv|]. by vm_compute. Qed.
