(* ===== verification/Timer.v ===== *)
(** * Timer: the timing wheel of the scheduler

    Models from kernel/sched.c the kernel timers: the five levels [tv1] to [tv5]
    of the wheel ([tvecs]), [insert_timer], [internal_add_timer], [add_timer],
    [detach_timer], [del_timer], [cascade_timers] and [run_timer_list].

    A [struct timer_list] is known by a number, its address, and a doubly linked
    list of them is a list of numbers.  What a timer's function does is a list
    of operations, which may depend on the time and the timer: it may start
    and stop timers.  The clock may go on while it runs, because interrupts are
    enabled; [run_timer_list] is given the values of [jiffies] that its loop
    condition reads.  [fired] records the calls in order.

    The abstract view of the wheel is a map from the running timers to the
    [timer_jiffies] at which they are due. *)

From stdpp Require Import gmap.
From S2P Require Import Prelude.

(** ** Code *)

Definition TVN_BITS : Z := 6.
Definition TVR_BITS : Z := 8.
Definition TVN_SIZE : Z := Z.shiftl 1 TVN_BITS.
Definition TVR_SIZE : Z := Z.shiftl 1 TVR_BITS.
Definition TVN_MASK : Z := TVN_SIZE - 1.
Definition TVR_MASK : Z := TVR_SIZE - 1.

Record timer_list := MkTimer {
  expires : Z;
  data : Z;
  function : Z;
}.

Record timer_vec := MkTv {
  tv_index : Z;
  tv_vec : list (list nat);
}.

Record wheel := MkWheel {
  tvecs : list timer_vec;
  timer_jiffies : Z;
  timers : gmap nat timer_list;
  tv_self : list nat;            (** timers linked to themselves only *)
  fired : list (Z * nat);        (** [timer_jiffies] and timer of each call *)
}.

#[global] Instance eta_timer : Eta timer_list := λ x, MkTimer (expires x) (data x) (function x).
#[global] Instance eta_tv : Eta timer_vec := λ x, MkTv (tv_index x) (tv_vec x).
#[global] Instance eta_wheel : Eta wheel := λ x,
  MkWheel (tvecs x) (timer_jiffies x) (timers x) (tv_self x) (fired x).

Definition no_timer : timer_list := {| expires := 0; data := 0; function := 0 |}.

Definition timer (w : wheel) (id : nat) : timer_list := default no_timer (timers w !! id).

(** The list at [tvecs[n]->vec[i]]. *)
Definition bucket (w : wheel) (n i : nat) : list nat :=
  match tvecs w !! n with
  | Some tv => default [] (tv_vec tv !! i)
  | None => []
  end.

Definition index_of (w : wheel) (n : nat) : Z :=
  match tvecs w !! n with Some tv => tv_index tv | None => 0 end.

Definition insert_timer (n : nat) (idx : Z) (id : nat) (w : wheel) : wheel :=
  w <| tvecs := alter (λ tv, tv <| tv_vec := alter (cons id) (Z.to_nat idx) (tv_vec tv) |>) n
                  (tvecs w) |>.

Definition internal_add_timer (id : nat) (w : wheel) : wheel :=
  let e := expires (timer w id) in
  let idx := u32 (e - timer_jiffies w) in
  if idx <? TVR_SIZE then
    insert_timer 0 (Z.land e TVR_MASK) id w
  else if idx <? Z.shiftl 1 (TVR_BITS + TVN_BITS) then
    insert_timer 1 (Z.land (Z.shiftr e TVR_BITS) TVN_MASK) id w
  else if idx <? Z.shiftl 1 (TVR_BITS + 2 * TVN_BITS) then
    insert_timer 2 (Z.land (Z.shiftr e (TVR_BITS + TVN_BITS)) TVN_MASK) id w
  else if idx <? Z.shiftl 1 (TVR_BITS + 3 * TVN_BITS) then
    insert_timer 3 (Z.land (Z.shiftr e (TVR_BITS + 2 * TVN_BITS)) TVN_MASK) id w
  else if e <? timer_jiffies w then
    insert_timer 0 (index_of w 0) id w
  else if idx <? 0xffffffff then
    insert_timer 4 (Z.land (Z.shiftr e (TVR_BITS + 3 * TVN_BITS)) TVN_MASK) id w
  else
    w <| tv_self := id :: tv_self w |>.

Definition add_timer (id : nat) (w : wheel) : wheel := internal_add_timer id w.

(** [timer->prev] is not NULL. *)
Definition linked (w : wheel) (id : nat) : bool :=
  existsb (λ tv, existsb (λ b, bool_decide (id ∈ b)) (tv_vec tv)) (tvecs w)
  || bool_decide (id ∈ tv_self w).

Definition drop_id (id : nat) (l : list nat) : list nat := filter (λ x, x ≠ id) l.

Definition detach_timer (id : nat) (w : wheel) : Z * wheel :=
  (Z.b2z (linked w id),
   w <| tvecs := (λ tv, tv <| tv_vec := drop_id id <$> tv_vec tv |>) <$> tvecs w |>
     <| tv_self := drop_id id (tv_self w) |>).

Definition del_timer (id : nat) (w : wheel) : Z * wheel := detach_timer id w.

Definition cascade_timers (n : nat) (w : wheel) : wheel :=
  let i := Z.to_nat (index_of w n) in
  let w := foldl (λ w id, internal_add_timer id w) w (bucket w n i) in
  w <| tvecs := alter (λ tv, tv <| tv_vec := <[i := []]> (tv_vec tv) |>
                              <| tv_index := Z.land (tv_index tv + 1) TVN_MASK |>) n (tvecs w) |>.

(** [do cascade_timers(tvecs[n]); while (tvecs[n]->index == 1 && ++n < NOOF_TVECS)],
    [k] levels being left. *)
Fixpoint cascade_loop (k n : nat) (w : wheel) : wheel :=
  match k with
  | O => w
  | S k' =>
      let w := cascade_timers n w in
      if index_of w n =? 1 then cascade_loop k' (S n) w else w
  end.

(** What a timer's function can do: [del_timer(timer); timer->expires = e;
    add_timer(timer);], where [del_timer] does nothing to a timer that is not
    running, and [del_timer(timer);]. *)
Inductive timer_op :=
| Start (id : nat) (e : Z)
| Stop (id : nat).

Definition set_expires (id : nat) (e : Z) (w : wheel) : wheel :=
  w <| timers := <[id := (timer w id) <| expires := e |>]> (timers w) |>.

Definition timer_do (o : timer_op) (w : wheel) : wheel :=
  match o with
  | Start id e => add_timer id (set_expires id e (del_timer id w).2)
  | Stop id => (del_timer id w).2
  end.

Definition timer_run (os : list timer_op) (w : wheel) : wheel := foldl (λ w o, timer_do o w) w os.

Section Run.
(** The function of each timer, at each time. *)
Context (fn : Z → nat → list timer_op).

(** [while ((timer = tv1.vec[tv1.index]))] *)
Fixpoint fire_loop (fuel : nat) : M wheel unit := λ w,
  match fuel with
  | O => Stuck OutOfFuel w
  | S fuel' =>
      match bucket w 0 (Z.to_nat (index_of w 0)) with
      | [] => Ret tt w
      | id :: _ =>
          let w := (detach_timer id w).2 in
          let w := w <| fired := fired w ++ [(timer_jiffies w, id)] |> in
          fire_loop fuel' (timer_run (fn (timer_jiffies w) id) w)
      end
  end.

(** The body of the loop over [timer_jiffies]. *)
Definition run_tick (fuel : nat) : M wheel unit := λ w,
  let w := if index_of w 0 =? 0 then cascade_loop 4 1 w else w in
  match fire_loop fuel w with
  | Stuck r w => Stuck r w
  | Ret _ w =>
      Ret tt (w <| timer_jiffies := u32 (timer_jiffies w + 1) |>
                <| tvecs := alter (λ tv, tv <| tv_index := Z.land (tv_index tv + 1) TVR_MASK |>) 0%nat
                              (tvecs w) |>)
  end.

(** [while ((long)(jiffies - timer_jiffies) >= 0)], the condition reading the
    values [js] of the clock. *)
Fixpoint run_timer_list (js : list Z) (fuel : nat) : M wheel unit := λ w,
  match js with
  | [] => Stuck OutOfFuel w
  | j :: js' =>
      if 0 <=? s32 (j - timer_jiffies w) then
        match run_tick fuel w with
        | Ret _ w => run_timer_list js' fuel w
        | Stuck r w => Stuck r w
        end
      else Ret tt w
  end.

End Run.

(** The wheel at boot. *)
Definition empty_wheel : wheel := {|
  tvecs := MkTv 0 (replicate 256 []) :: replicate 4 (MkTv 0 (replicate 64 []));
  timer_jiffies := 0; timers := ∅; tv_self := []; fired := [];
|}.

(** ** Specification

    [p] gives the running timers and the time each is due. *)

(** [timer_jiffies] stays under [LIMIT], so that no wrap-around is in reach of
    the lower four levels. *)
Definition LIMIT : Z := 2 ^ 32 - 2 ^ 26.

Definition spec_do (now : Z) (o : timer_op) (p : gmap nat Z) : gmap nat Z :=
  match o with
  | Start id e => <[id := Z.max e now]> p
  | Stop id => delete id p
  end.

Definition spec_run (now : Z) (os : list timer_op) (p : gmap nat Z) : gmap nat Z :=
  foldl (λ p o, spec_do now o p) p os.

(** The timers due at [now] are called one after the other, in any order, until
    none is left. *)
Inductive fires (fn : Z → nat → list timer_op) (now : Z) :
    gmap nat Z → list nat → gmap nat Z → Prop :=
| fires_none p : (∀ id d, p !! id = Some d → now < d) → fires fn now p [] p
| fires_one p id ids p' :
    p !! id = Some now →
    fires fn now (spec_run now (fn now id) (delete id p)) ids p' →
    fires fn now p (id :: ids) p'.

(** Time goes on, one [fires] for each tick, until it is past the clock. *)
Inductive runs (fn : Z → nat → list timer_op) :
    Z → list Z → gmap nat Z → list (Z * nat) → Z → gmap nat Z → Prop :=
| runs_stop now j js p : j < now → runs fn now (j :: js) p [] now p
| runs_tick now j js p ids p1 l now' p2 :
    now ≤ j →
    fires fn now p ids p1 →
    runs fn (now + 1) js p1 l now' p2 →
    runs fn now (j :: js) p ((pair now <$> ids) ++ l) now' p2.

(** ** The invariant of the wheel *)

Definition lv_shift (n : nat) : Z := match n with O => 0 | S k => 8 + 6 * Z.of_nat k end.
Definition lv_size (n : nat) : Z := match n with O => 256 | S _ => 64 end.

(** [c] is the first unit of time of level [n] that has not been cascaded. *)
Definition in_slot (c : Z) (n i : nat) (d : Z) : Prop :=
  c ≤ d / 2 ^ lv_shift n < c + lv_size n ∧ Z.of_nat i = (d / 2 ^ lv_shift n) mod lv_size n.

(** The timers of [fl] are in flight: running, but in no list. *)
Record wheel_ok (cs : nat → Z) (fl : list nat) (w : wheel) (p : gmap nat Z) : Prop := {
  wo_time : 0 ≤ timer_jiffies w < LIMIT;
  wo_self : tv_self w = [];
  wo_levels : length (tvecs w) = 5%nat;
  wo_shape n tv : tvecs w !! n = Some tv →
    length (tv_vec tv) = Z.to_nat (lv_size n) ∧ tv_index tv = cs n mod lv_size n;
  wo_now : cs 0%nat = timer_jiffies w;
  wo_next n : (0 < n < 5)%nat →
    timer_jiffies w ≤ cs n * 2 ^ lv_shift n ∧ cs n ≤ timer_jiffies w / 2 ^ lv_shift n + 1;
  wo_in n i id : id ∈ bucket w n i →
    (id ∉ fl) ∧ (∃ d, p !! id = Some d ∧ in_slot (cs n) n i d ∧ (n ≠ O → expires (timer w id) = d));
  wo_all id d : p !! id = Some d → id ∉ fl → ∃ n i, id ∈ bucket w n i;
  wo_once n i n' i' id : id ∈ bucket w n i → id ∈ bucket w n' i' → n = n';
  wo_nodup n i : NoDup (bucket w n i);
  wo_due id d : p !! id = Some d → timer_jiffies w ≤ d < 2 ^ 32 - 1;
  wo_exp id d : p !! id = Some d →
    d = Z.max (expires (timer w id)) (timer_jiffies w) ∧ 0 ≤ expires (timer w id);
}.

(** ** Lemmas: lists and places *)

Lemma bucket_insert w n i id n' i' tv :
  tvecs w !! n = Some tv → 0 ≤ i < Z.of_nat (length (tv_vec tv)) →
  bucket (insert_timer n i id w) n' i' =
  if decide (n' = n ∧ i' = Z.to_nat i) then id :: bucket w n' i' else bucket w n' i'.
Proof.
  intros Htv Hi. unfold bucket, insert_timer. cbn.
  destruct (decide (n' = n)) as [->|Hn].
  - rewrite list_lookup_alter_eq, Htv. cbn.
    destruct (decide (i' = Z.to_nat i)) as [->|Hi'].
    + rewrite decide_True by done. rewrite list_lookup_alter_eq.
      destruct (lookup_lt_is_Some_2 (tv_vec tv) (Z.to_nat i)) as [b ->]; [lia|done].
    + rewrite decide_False by naive_solver. by rewrite list_lookup_alter_ne.
  - rewrite decide_False by naive_solver. by rewrite list_lookup_alter_ne.
Qed.

Lemma bucket_detach w id n i : bucket (detach_timer id w).2 n i = drop_id id (bucket w n i).
Proof.
  unfold bucket. cbn. rewrite list_lookup_fmap.
  destruct (tvecs w !! n) as [tv|]; [|done]. cbn. rewrite list_lookup_fmap.
  by destruct (tv_vec tv !! i).
Qed.

Lemma elem_of_drop_id x id l : x ∈ drop_id id l ↔ x ≠ id ∧ x ∈ l.
Proof. unfold drop_id. by rewrite list_elem_of_filter. Qed.

Lemma wo_lookup cs fl w p n :
  wheel_ok cs fl w p → (n < 5)%nat →
  ∃ tv, tvecs w !! n = Some tv ∧ Z.of_nat (length (tv_vec tv)) = lv_size n ∧
        tv_index tv = cs n mod lv_size n.
Proof.
  intros H Hn. destruct (lookup_lt_is_Some_2 (tvecs w) n) as [tv Htv].
  { by rewrite (wo_levels _ _ _ _ H). }
  exists tv. destruct (wo_shape _ _ _ _ H _ _ Htv) as [-> ->].
  split; [done|]. split; [|done]. destruct n; cbn; lia.
Qed.

Lemma wo_index cs fl w p n :
  wheel_ok cs fl w p → (n < 5)%nat → index_of w n = cs n mod lv_size n.
Proof.
  intros H Hn. destruct (wo_lookup _ _ _ _ _ H Hn) as (tv & Htv & _ & <-).
  unfold index_of. by rewrite Htv.
Qed.

Lemma land_mask x k : 0 ≤ k → Z.land x (Z.shiftl 1 k - 1) = x mod 2 ^ k.
Proof.
  intros Hk. rewrite <-Z.land_ones by done. by rewrite Z.ones_equiv, Z.shiftl_1_l, Z.sub_1_r.
Qed.

(** Where [internal_add_timer] puts a timer that is due at [d]. *)
Lemma add_place cs fl w p id (e := expires (timer w id)) (d := Z.max e (timer_jiffies w)) :
  wheel_ok cs fl w p → 0 ≤ e < 2 ^ 32 - 1 →
  ∃ n, internal_add_timer id w = insert_timer n ((d / 2 ^ lv_shift n) mod lv_size n) id w ∧
       (n < 5)%nat ∧ d - timer_jiffies w < 2 ^ lv_shift n * lv_size n ∧
       (n ≠ O → 2 ^ lv_shift n ≤ d - timer_jiffies w ∧ e = d).
Proof.
  intros H He. pose proof (wo_time _ _ _ _ H) as HT.
  pose proof (wo_index _ _ _ _ 0 H ltac:(lia)) as H0. rewrite (wo_now _ _ _ _ H) in H0.
  unfold internal_add_timer, LIMIT in *. fold e.
  assert (u32 (e - timer_jiffies w) =
    if e <? timer_jiffies w then e - timer_jiffies w + 2 ^ 32 else e - timer_jiffies w) as ->.
  { unfold u32. destruct (e <? timer_jiffies w) eqn:E; to_prop; [|apply Z.mod_small; lia].
    rewrite <-(Z.mod_add _ 1) by lia. apply Z.mod_small. lia. }
  unfold TVR_MASK, TVN_MASK, TVR_SIZE, TVN_SIZE. rewrite !land_mask, !Z.shiftr_div_pow2 by done.
  change (Z.shiftl 1 TVR_BITS) with 256.
  change (Z.shiftl 1 (TVR_BITS + TVN_BITS)) with (2 ^ 14).
  change (Z.shiftl 1 (TVR_BITS + 2 * TVN_BITS)) with (2 ^ 20).
  change (Z.shiftl 1 (TVR_BITS + 3 * TVN_BITS)) with (2 ^ 26).
  unfold TVR_BITS, TVN_BITS. subst d.
  destruct (e <? timer_jiffies w) eqn:E; to_prop.
  { rewrite !(proj2 (Z.ltb_ge _ _)) by lia. exists O. rewrite Z.max_r by lia.
    rewrite H0. cbn [lv_shift lv_size]. rewrite Z.div_1_r. split; [done|]. lia. }
  rewrite Z.max_l by lia.
  destruct (_ <? 256) eqn:E0; to_prop.
  { exists O. cbn [lv_shift lv_size]. rewrite Z.div_1_r. split; [done|]. lia. }
  destruct (_ <? 2 ^ 14) eqn:E1; to_prop; [exists 1%nat; split; [done|]; cbn; lia|].
  destruct (_ <? 2 ^ 20) eqn:E2; to_prop; [exists 2%nat; split; [done|]; cbn; lia|].
  destruct (_ <? 2 ^ 26) eqn:E3; to_prop; [exists 3%nat; split; [done|]; cbn; lia|].
  rewrite (proj2 (Z.ltb_lt _ 0xffffffff)) by lia. exists 4%nat. split; [done|]. cbn. lia.
Qed.

(** The slot is one of those that have still to come. *)
Lemma place_in_slot cs fl w p n d :
  wheel_ok cs fl w p → (n < 5)%nat → timer_jiffies w ≤ d →
  d - timer_jiffies w < 2 ^ lv_shift n * lv_size n →
  (n ≠ O → 2 ^ lv_shift n ≤ d - timer_jiffies w) →
  in_slot (cs n) n (Z.to_nat ((d / 2 ^ lv_shift n) mod lv_size n)) d.
Proof.
  intros H Hn Hd Hhi Hlo. unfold in_slot.
  assert (0 < lv_size n) by (destruct n; done).
  rewrite Z2Nat.id by (apply Z.mod_pos_bound; done). split; [|done].
  destruct (decide (n = O)) as [->|Hn0].
  { rewrite (wo_now _ _ _ _ H). cbn [lv_shift lv_size] in *. rewrite Z.div_1_r. lia. }
  destruct (wo_next _ _ _ _ H n ltac:(lia)) as [Hc1 Hc2]. specialize (Hlo Hn0).
  assert (0 < 2 ^ lv_shift n) by (apply Z.pow_pos_nonneg; [lia|]; unfold lv_shift; destruct n; lia).
  set (u := 2 ^ lv_shift n) in *. split.
  - etrans; [exact Hc2|]. rewrite <-(Z.div_add _ 1) by lia. apply Z.div_le_mono; lia.
  - apply Z.div_lt_upper_bound; [lia|]. nia.
Qed.

Lemma internal_add_ok cs fl w p id :
  wheel_ok cs (id :: fl) w p → 0 ≤ expires (timer w id) < 2 ^ 32 - 1 → id ∉ fl →
  p !! id = Some (Z.max (expires (timer w id)) (timer_jiffies w)) →
  wheel_ok cs fl (internal_add_timer id w) p.
Proof.
  intros H He Hfl Hp.
  destruct (add_place _ _ _ _ id H He) as (n & -> & Hn & Hhi & Hlo).
  set (d := Z.max _ _) in *. set (i := (d / _) mod _).
  assert (in_slot (cs n) n (Z.to_nat i) d) as Hslot.
  { eapply place_in_slot; [done..|lia|done|naive_solver]. }
  destruct (wo_lookup _ _ _ _ n H Hn) as (tv & Htv & Hlen & Hidx).
  assert (0 ≤ i < lv_size n) as Hi by (apply Z.mod_pos_bound; destruct n; done).
  assert (∀ n' i', id ∉ bucket w n' i') as Hnew.
  { intros n' i' Hin. destruct (wo_in _ _ _ _ H _ _ _ Hin) as [[]%not_elem_of_cons _]. done. }
  pose proof (λ n' i', bucket_insert w n i id n' i' tv Htv ltac:(lia)) as Hb.
  destruct H as [??? Hshape ?? Hin Hall Hone Hnd ? ?]. split; try done.
  - cbn. by rewrite length_alter.
  - intros m tv' Hm. cbn in Hm. destruct (decide (m = n)) as [->|].
    + rewrite list_lookup_alter_eq, Htv in Hm. injection Hm as <-. cbn.
      rewrite length_alter. by apply Hshape.
    + rewrite list_lookup_alter_ne in Hm by done. by apply Hshape.
  - intros n' i' x. rewrite Hb. case_decide as E; intros Hx.
    + destruct E as [-> ->]. apply elem_of_cons in Hx as [->|Hx].
      * split; [done|]. exists d. split; [done|]. split; [done|]. intros; by apply Hlo.
      * destruct (Hin _ _ _ Hx) as [[]%not_elem_of_cons ?]. done.
    + destruct (Hin _ _ _ Hx) as [[]%not_elem_of_cons ?]. done.
  - intros x d' Hx Hxf. destruct (decide (x = id)) as [->|].
    + exists n, (Z.to_nat i). rewrite Hb, decide_True by done. by left.
    + destruct (Hall _ _ Hx) as (n' & i' & ?); [by apply not_elem_of_cons|].
      exists n', i'. rewrite Hb. case_decide; [by right|done].
  - intros n1 i1 n2 i2 x. rewrite !Hb. repeat case_decide; set_solver.
  - intros n' i'. rewrite Hb. case_decide; [|done]. by constructor.
Qed.

Lemma detach_ok cs w p id :
  wheel_ok cs [] w p → wheel_ok cs [] (detach_timer id w).2 (delete id p).
Proof.
  intros [? Hself ? Hshape ?? Hin Hall Hone Hnd Hdue Hexp].
  pose proof (bucket_detach w id) as Hb. split; try done.
  - cbn. by rewrite Hself.
  - cbn. by rewrite length_fmap.
  - intros n tv. cbn. rewrite list_lookup_fmap. intros (tv' & Htv & ->)%fmap_Some.
    cbn. rewrite length_fmap. by apply Hshape.
  - intros n i x. rewrite Hb, elem_of_drop_id. intros [Hx Hin'].
    destruct (Hin _ _ _ Hin') as (? & d & ? & ?). split; [done|].
    exists d. by rewrite lookup_delete_ne.
  - intros x d. rewrite lookup_delete_Some. intros [Hne Hx] Hfl.
    destruct (Hall _ _ Hx Hfl) as (n & i & ?). exists n, i. rewrite Hb, elem_of_drop_id. done.
  - intros n1 i1 n2 i2 x. rewrite !Hb, !elem_of_drop_id. naive_solver.
  - intros n i. rewrite Hb. by apply NoDup_filter.
  - intros x d. rewrite lookup_delete_Some. intros [_ Hx]. by eapply Hdue.
  - intros x d. rewrite lookup_delete_Some. intros [_ Hx]. by apply Hexp.
Qed.

(** A timer is linked when it is running. *)
Lemma linked_bucket w id :
  linked w id = true ↔ (∃ n i, id ∈ bucket w n i) ∨ id ∈ tv_self w.
Proof.
  unfold linked. rewrite orb_true_iff, bool_decide_eq_true, existsb_exists. f_equiv. split.
  - intros (tv & Htv & Hb). apply existsb_exists in Hb as (b & Hb & Hid).
    apply list_elem_of_In, list_elem_of_lookup in Htv as [n Hn].
    apply list_elem_of_In, list_elem_of_lookup in Hb as [i Hi].
    apply bool_decide_eq_true in Hid. exists n, i. unfold bucket. by rewrite Hn, Hi.
  - intros (n & i & Hid). unfold bucket in Hid.
    destruct (tvecs w !! n) as [tv|] eqn:Hn; [|by apply not_elem_of_nil in Hid].
    destruct (tv_vec tv !! i) as [b|] eqn:Hi; [|by apply not_elem_of_nil in Hid].
    exists tv. split; [by eapply list_elem_of_In, list_elem_of_lookup_2|].
    apply existsb_exists. exists b. split; [by eapply list_elem_of_In, list_elem_of_lookup_2|].
    by apply bool_decide_eq_true.
Qed.

Lemma linked_running cs w p id :
  wheel_ok cs [] w p → linked w id = bool_decide (is_Some (p !! id)).
Proof.
  intros H. apply eq_true_iff_eq. rewrite linked_bucket, bool_decide_eq_true, (wo_self _ _ _ _ H).
  split.
  - intros [(n & i & Hin)|[]%not_elem_of_nil].
    destruct (wo_in _ _ _ _ H _ _ _ Hin) as (_ & d & -> & _). by eexists.
  - intros [d Hd]. left. apply (wo_all _ _ _ _ H _ _ Hd). apply not_elem_of_nil.
Qed.

(** ** Lemmas: operations *)

Lemma set_expires_ok cs w p id e :
  wheel_ok cs [] w p → p !! id = None → wheel_ok cs [] (set_expires id e w) p.
Proof.
  intros H Hp. assert (∀ x d, p !! x = Some d → timer (set_expires id e w) x = timer w x) as Ht.
  { intros x d Hx. unfold timer, set_expires. cbn. rewrite lookup_insert_ne; [done|congruence]. }
  destruct H as [? ? ? ? ? ? Hin ? ? ? ? Hexp]. split; try done.
  - intros n i x Hx. destruct (Hin n i x Hx) as (? & d & Hd & ? & He). split; [done|].
    exists d. by rewrite (Ht _ _ Hd).
  - intros x d Hx. rewrite (Ht _ _ Hx). by apply Hexp.
Qed.

Lemma launch_ok cs w p id (d := Z.max (expires (timer w id)) (timer_jiffies w)) :
  wheel_ok cs [] w p → p !! id = None → 0 ≤ expires (timer w id) < 2 ^ 32 - 1 →
  wheel_ok cs [id] w (<[id := d]> p).
Proof.
  intros [HT ? ? ? ? ? Hin Hall ? ? Hdue Hexp] Hp He. split; try done.
  - intros n i x Hx. destruct (Hin n i x Hx) as (_ & d' & Hd & ? & ?).
    assert (x ≠ id) by congruence. split; [set_solver|].
    exists d'. by rewrite lookup_insert_ne.
  - intros x d' Hx Hfl. rewrite lookup_insert_ne in Hx by set_solver.
    eapply Hall; [exact Hx|set_solver].
  - intros x d'. unfold LIMIT in HT. rewrite lookup_insert_Some. intros [[_ <-]|[_ Hx]]; [lia|].
    by eapply Hdue.
  - intros x d'. rewrite lookup_insert_Some. intros [[<- <-]|[_ Hx]]; [lia|]. by apply Hexp.
Qed.

Lemma add_ok cs w p id (d := Z.max (expires (timer w id)) (timer_jiffies w)) :
  wheel_ok cs [] w p → p !! id = None → 0 ≤ expires (timer w id) < 2 ^ 32 - 1 →
  wheel_ok cs [] (add_timer id w) (<[id := d]> p).
Proof.
  intros H Hp He. apply internal_add_ok; [by apply launch_ok|done|set_solver|].
  by rewrite lookup_insert_eq.
Qed.

(** What an operation needs: a time of expiry that an [unsigned long] holds and
    that is not the largest of them. *)
Definition op_fits (o : timer_op) : Prop :=
  match o with Start _ e => 0 ≤ e < 2 ^ 32 - 1 | Stop _ => True end.

Lemma timer_do_ok cs w p o :
  wheel_ok cs [] w p → op_fits o →
  wheel_ok cs [] (timer_do o w) (spec_do (timer_jiffies w) o p).
Proof.
  intros H Ho. destruct o as [id e|id]; cbn [timer_do spec_do op_fits] in *; [|by apply detach_ok].
  set (w1 := set_expires id e (del_timer id w).2).
  assert (expires (timer w1 id) = e) as He.
  { unfold w1, timer, set_expires. cbn. by rewrite lookup_insert_eq. }
  rewrite <-insert_delete_eq.
  pose proof (add_ok cs w1 (delete id p) id) as Ha. rewrite He in Ha.
  apply Ha; [|by rewrite lookup_delete_eq|done].
  apply set_expires_ok; [by apply detach_ok|by rewrite lookup_delete_eq].
Qed.

(** A timer that is taken out and put back is due at the same time. *)
Lemma readd_ok cs w p id :
  wheel_ok cs [] w p → is_Some (p !! id) → wheel_ok cs [] (add_timer id (del_timer id w).2) p.
Proof.
  intros H [d Hd]. destruct (wo_exp _ _ _ _ H _ _ Hd) as [Hmax He].
  pose proof (wo_due _ _ _ _ H _ _ Hd).
  rewrite <-(insert_id p id d), <-insert_delete_eq, Hmax by done.
  apply (add_ok cs (del_timer id w).2 (delete id p) id); [by apply detach_ok|by rewrite lookup_delete_eq|].
  change (timer (del_timer id w).2 id) with (timer w id). lia.
Qed.

Lemma internal_add_fields id w :
  timer_jiffies (internal_add_timer id w) = timer_jiffies w ∧
  timers (internal_add_timer id w) = timers w ∧
  fired (internal_add_timer id w) = fired w.
Proof. unfold internal_add_timer. by repeat case_match. Qed.

Lemma timer_do_time o w : timer_jiffies (timer_do o w) = timer_jiffies w.
Proof.
  destruct o; [|done]. unfold timer_do, add_timer.
  by rewrite (proj1 (internal_add_fields _ _)).
Qed.

Lemma timer_do_fired o w : fired (timer_do o w) = fired w.
Proof.
  destruct o; [|done]. unfold timer_do, add_timer.
  by rewrite (proj2 (proj2 (internal_add_fields _ _))).
Qed.

Lemma timer_run_ok cs os w p :
  wheel_ok cs [] w p → Forall op_fits os →
  wheel_ok cs [] (timer_run os w) (spec_run (timer_jiffies w) os p) ∧
  timer_jiffies (timer_run os w) = timer_jiffies w ∧
  fired (timer_run os w) = fired w.
Proof.
  intros H Hos. revert w p H. induction Hos as [|o os Ho _ IH]; intros w p H; [done|].
  change (timer_run (o :: os) w) with (timer_run os (timer_do o w)).
  destruct (IH _ _ (timer_do_ok _ _ _ _ H Ho)) as (H1 & H2 & H3).
  rewrite timer_do_time in *. by rewrite H2, H3, timer_do_fired.
Qed.

(** ** Lemmas: cascading *)

Lemma adds_ok cs ids : ∀ w p,
  wheel_ok cs ids w p → NoDup ids →
  (∀ id, id ∈ ids → p !! id = Some (expires (timer w id))) →
  wheel_ok cs [] (foldl (λ w id, internal_add_timer id w) w ids) p.
Proof.
  induction ids as [|id ids IH]; intros w p H Hnd Hids; [done|].
  apply NoDup_cons in Hnd as [Hid Hnd]. cbn.
  pose proof (Hids id ltac:(by left)) as Hp.
  pose proof (wo_due _ _ _ _ H _ _ Hp). pose proof (wo_time _ _ _ _ H).
  apply IH; [|done|].
  - apply internal_add_ok; [done|lia|done|]. by rewrite Z.max_l by lia.
  - intros x Hx. unfold timer. destruct (internal_add_fields id w) as (_ & -> & _).
    apply Hids. by right.
Qed.

(** Empty the current list of level [n] and step its index. *)
Definition clear_slot (n i : nat) (w : wheel) : wheel :=
  w <| tvecs := alter (λ tv, tv <| tv_vec := <[i := []]> (tv_vec tv) |>
                              <| tv_index := Z.land (tv_index tv + 1) TVN_MASK |>) n (tvecs w) |>.

Lemma cascade_clear n w (i := Z.to_nat (index_of w n)) :
  cascade_timers n w = clear_slot n i (foldl (λ w id, internal_add_timer id w) w (bucket w n i)).
Proof. done. Qed.

Lemma bucket_clear n i w n' i' :
  bucket (clear_slot n i w) n' i' = if decide (n' = n ∧ i' = i) then [] else bucket w n' i'.
Proof.
  unfold bucket, clear_slot. cbn -[decide]. destruct (decide (n' = n)) as [->|Hn].
  - rewrite list_lookup_alter_eq.
    destruct (tvecs w !! n) as [tv|]; cbn -[decide]; [|by case_decide].
    destruct (decide (i' = i)) as [->|].
    + rewrite decide_True by done. rewrite list_lookup_insert.
      destruct (decide _) as [|Hn]; [done|]. rewrite lookup_ge_None_2; [done|].
      apply Nat.nlt_ge. tauto.
    + rewrite decide_False by naive_solver. by rewrite list_lookup_insert_ne.
  - rewrite decide_False by naive_solver. by rewrite list_lookup_alter_ne.
Qed.

Lemma list_alter_comm {A} (f g : A → A) i j (l : list A) :
  i ≠ j → alter f i (alter g j l) = alter g j (alter f i l).
Proof.
  intros Hne. apply list_eq. intros k.
  destruct (decide (k = i)) as [->|]; [|destruct (decide (k = j)) as [->|]];
    rewrite ?list_lookup_alter_eq, ?list_lookup_alter_ne, ?list_lookup_alter_eq,
      ?list_lookup_alter_ne by done; done.
Qed.

(** A timer that is due within one unit of level [n] goes below that level. *)
Lemma add_clear_comm n i id w :
  (0 < n < 5)%nat → 0 ≤ timer_jiffies w →
  timer_jiffies w ≤ expires (timer w id) < timer_jiffies w + 2 ^ lv_shift n →
  expires (timer w id) < 2 ^ 32 - 1 →
  internal_add_timer id (clear_slot n i w) = clear_slot n i (internal_add_timer id w).
Proof.
  intros Hn HT He Hmax. unfold internal_add_timer.
  change (timer (clear_slot n i w) id) with (timer w id).
  change (timer_jiffies (clear_slot n i w)) with (timer_jiffies w).
  assert (∀ m j, m ≠ n →
    insert_timer m j id (clear_slot n i w) = clear_slot n i (insert_timer m j id w)) as Hcomm.
  { intros m j Hm. unfold insert_timer, clear_slot. cbn. by rewrite list_alter_comm. }
  rewrite (u32_id (_ - _)) by lia. rewrite (proj2 (Z.ltb_ge _ (timer_jiffies w))) by lia.
  unfold TVR_SIZE, TVR_BITS, TVN_BITS. rewrite !Z.shiftl_1_l.
  destruct n as [|[|[|[|[|]]]]]; [lia| | | | |lia]; cbn [lv_shift Z.of_nat] in He;
    repeat (case_match; to_prop; [apply Hcomm; lia|]); cbn in *; lia.
Qed.

Lemma adds_clear_comm n i ids : ∀ w,
  (0 < n < 5)%nat → 0 ≤ timer_jiffies w →
  (∀ id, id ∈ ids →
    timer_jiffies w ≤ expires (timer w id) < timer_jiffies w + 2 ^ lv_shift n ∧
    expires (timer w id) < 2 ^ 32 - 1) →
  foldl (λ w id, internal_add_timer id w) (clear_slot n i w) ids =
  clear_slot n i (foldl (λ w id, internal_add_timer id w) w ids).
Proof.
  induction ids as [|id ids IH]; intros w Hn HT Hids; [done|]. cbn.
  destruct (Hids id ltac:(by left)). rewrite add_clear_comm by done.
  destruct (internal_add_fields id w) as (Ht & Hts & _).
  apply IH; [done|by rewrite Ht|]. intros x Hx. unfold timer. rewrite Ht, Hts.
  apply Hids. by right.
Qed.

Definition step_cs (cs : nat → Z) (n : nat) : nat → Z :=
  λ m, if decide (m = n) then cs n + 1 else cs m.

Lemma step_cs_eq cs n : step_cs cs n n = cs n + 1.
Proof. unfold step_cs. by rewrite decide_True. Qed.

Lemma step_cs_ne cs n m : m ≠ n → step_cs cs n m = cs m.
Proof. intros. unfold step_cs. by rewrite decide_False. Qed.

Lemma lv_unit_pos n : 0 < 2 ^ lv_shift n.
Proof. apply Z.pow_pos_nonneg; [lia|]. destruct n; cbn; lia. Qed.

(** The current list of level [n] holds the timers of the coming unit. *)
Lemma slot_now c n d : in_slot c n (Z.to_nat (c mod lv_size n)) d ↔ c = d / 2 ^ lv_shift n.
Proof.
  assert (0 < lv_size n) by (destruct n; done). unfold in_slot.
  rewrite Z2Nat.id by (apply Z.mod_pos_bound; done).
  split; [|intros <-; split; [lia|done]]. intros [Hr Hm].
  assert ((d / 2 ^ lv_shift n - c) mod lv_size n = 0) as H0.
  { rewrite Zminus_mod, <-Hm, Z.sub_diag. apply Z.mod_0_l. lia. }
  rewrite Z.mod_small in H0; lia.
Qed.

Lemma clear_ok cs n w p (i := Z.to_nat (cs n mod lv_size n)) :
  wheel_ok cs [] w p → (0 < n < 5)%nat → timer_jiffies w = cs n * 2 ^ lv_shift n →
  wheel_ok (step_cs cs n) (bucket w n i) (clear_slot n i w) p.
Proof.
  intros H Hn HTn. pose proof (lv_unit_pos n) as Hu.
  assert (lv_size n = 64) as Hsz by (destruct n; [lia|done]).
  destruct H as [?? Hlen Hshape ? Hnext Hin Hall Hone Hnd ? ?]. split; try done.
  - cbn. by rewrite length_alter.
  - intros m tv Hm. cbn in Hm. destruct (decide (m = n)) as [->|].
    + rewrite list_lookup_alter_eq in Hm. apply fmap_Some in Hm as (tv' & Htv & ->).
      destruct (Hshape _ _ Htv) as [Hl Hi]. cbn. rewrite length_insert, step_cs_eq.
      split; [done|]. rewrite Hi. unfold TVN_MASK, TVN_SIZE. rewrite land_mask by done.
      change (2 ^ TVN_BITS) with 64. rewrite Hsz. apply Z.add_mod_idemp_l. lia.
    + rewrite list_lookup_alter_ne in Hm by done. rewrite step_cs_ne by done. by apply Hshape.
  - by rewrite step_cs_ne by lia.
  - intros m Hm. destruct (decide (m = n)) as [->|]; [|rewrite step_cs_ne by done; by apply Hnext].
    rewrite step_cs_eq. cbn. rewrite HTn, Z.div_mul by lia. lia.
  - intros m j x. rewrite bucket_clear. case_decide as E; [by intros []%not_elem_of_nil|].
    intros Hx. destruct (Hin _ _ _ Hx) as (_ & d & Hd & Hs & He).
    assert (¬ (m = n ∧ cs n = d / 2 ^ lv_shift n)) as Hne.
    { intros [-> Hc]. apply E. split; [done|]. subst i. destruct Hs as [_ Hj].
      by rewrite Hc, <-Hj, Nat2Z.id. }
    split.
    + intros Hx'. pose proof (Hone _ _ _ _ _ Hx Hx') as ->.
      destruct (Hin _ _ _ Hx') as (_ & d' & Hd' & Hs' & _). simplify_eq.
      apply slot_now in Hs'. by apply Hne.
    + exists d. split; [done|]. split; [|done]. unfold step_cs.
      destruct (decide (m = n)) as [->|]; [|done]. destruct Hs. split; [|done].
      assert (cs n ≠ d / 2 ^ lv_shift n) by naive_solver. lia.
  - intros x d Hx Hfl. destruct (Hall _ _ Hx) as (m & j & Hm); [set_solver|].
    exists m, j. rewrite bucket_clear. case_decide as E; [|done]. by destruct E as [-> ->].
  - intros n1 i1 n2 i2 x. rewrite !bucket_clear.
    repeat case_decide; try (by intros []%not_elem_of_nil); try (by intros _ []%not_elem_of_nil).
    apply Hone.
  - intros m j. rewrite bucket_clear. case_decide; [constructor|done].
Qed.

Lemma cascade_ok cs n w p :
  wheel_ok cs [] w p → (0 < n < 5)%nat → timer_jiffies w = cs n * 2 ^ lv_shift n →
  wheel_ok (step_cs cs n) [] (cascade_timers n w) p.
Proof.
  intros H Hn HTn. rewrite cascade_clear. pose proof (lv_unit_pos n) as Hu.
  rewrite (wo_index _ _ _ _ n H) by lia. set (i := Z.to_nat _).
  assert (∀ id, id ∈ bucket w n i →
    p !! id = Some (expires (timer w id)) ∧ cs n = expires (timer w id) / 2 ^ lv_shift n) as Hids.
  { intros id Hid. destruct (wo_in _ _ _ _ H _ _ _ Hid) as (_ & d & Hd & Hs & He).
    rewrite He by lia. split; [done|]. by apply slot_now in Hs. }
  rewrite <-adds_clear_comm.
  - apply adds_ok; [by apply clear_ok|by eapply wo_nodup|]. intros id Hid. by apply Hids.
  - done.
  - apply (wo_time _ _ _ _ H).
  - intros id Hid. destruct (Hids _ Hid) as [Hp Hc].
    pose proof (wo_due _ _ _ _ H _ _ Hp). rewrite HTn, Hc at 1 2.
    pose proof (Z.mul_div_le (expires (timer w id)) _ Hu).
    pose proof (Z.mul_succ_div_gt (expires (timer w id)) _ Hu). lia.
Qed.

Lemma adds_fields ids : ∀ w (w' := foldl (λ w id, internal_add_timer id w) w ids),
  timer_jiffies w' = timer_jiffies w ∧ fired w' = fired w.
Proof.
  induction ids as [|id ids IH]; intros w; [done|]. cbn.
  destruct (internal_add_fields id w) as (<- & _ & <-). apply IH.
Qed.

Lemma cascade_fields n w :
  timer_jiffies (cascade_timers n w) = timer_jiffies w ∧ fired (cascade_timers n w) = fired w.
Proof. rewrite cascade_clear. cbn. apply adds_fields. Qed.

(** The units of the levels from [n] on that begin at this tick have not been
    cascaded; those of the levels below [n] have. *)
Definition cascaded (n : nat) (now : Z) (cs : nat → Z) : Prop :=
  ∀ m, (0 < m < 5)%nat →
    if decide (m < n)%nat then cs m = now / 2 ^ lv_shift m + 1
    else cs m * 2 ^ lv_shift m < now + 2 ^ lv_shift m.

Lemma cascade_loop_ok k n cs w p :
  wheel_ok cs [] w p → (0 < n)%nat → (n + k = 5)%nat →
  cascaded n (timer_jiffies w) cs → timer_jiffies w mod 2 ^ lv_shift n = 0 →
  ∃ cs', wheel_ok cs' [] (cascade_loop k n w) p ∧ cascaded 5 (timer_jiffies w) cs' ∧
    timer_jiffies (cascade_loop k n w) = timer_jiffies w ∧ fired (cascade_loop k n w) = fired w.
Proof.
  revert n cs w. induction k as [|k IH]; intros n cs w H Hn Hk Hc HT; cbn.
  { exists cs. replace n with 5%nat in * by lia. done. }
  assert (timer_jiffies w = cs n * 2 ^ lv_shift n) as HTn.
  { pose proof (Hc n ltac:(lia)) as Hcn. rewrite decide_False in Hcn by lia.
    destruct (wo_next _ _ _ _ H n ltac:(lia)) as [? _]. pose proof (lv_unit_pos n).
    apply Z.mod_divide in HT as [q Hq]; [|lia]. revert H0 H1 Hcn Hq. clear.
    generalize (2 ^ lv_shift n). intros u ??? Hq. rewrite Hq in *. f_equal.
    cut (q ≤ cs n ∧ cs n < q + 1); [lia|]. split; nia. }
  assert (0 < n < 5)%nat as Hn5 by lia.
  pose proof (cascade_ok _ _ _ _ H Hn5 HTn) as H1.
  destruct (cascade_fields n w) as [Ht Hf].
  rewrite (wo_index _ _ _ _ n H1), step_cs_eq by lia.
  assert (cascaded (S n) (timer_jiffies w) (step_cs cs n)) as Hc1.
  { intros m Hm. pose proof (Hc m Hm) as Hcm. destruct (decide (m = n)) as [->|].
    - rewrite decide_True, step_cs_eq, HTn, Z.div_mul by (lia || (pose proof (lv_unit_pos n); lia)).
      done.
    - rewrite step_cs_ne by done. repeat case_decide; first [done|lia]. }
  destruct (_ =? 1) eqn:E; to_prop.
  - rewrite <-Ht in Hc1. destruct (IH (S n) _ _ H1) as (cs' & ? & ? & ? & ?); [lia|lia|done| |].
    + rewrite Ht, HTn. destruct n as [|n]; [lia|].
      replace (2 ^ lv_shift (S (S n))) with (64 * 2 ^ lv_shift (S n)); last first.
      { cbn. change 64 with (2 ^ 6). rewrite <-Z.pow_add_r by lia. f_equal. lia. }
      rewrite Z.mul_mod_distr_r by (pose proof (lv_unit_pos (S n)); lia).
      cbn [lv_size] in E.
      assert (cs (S n) mod 64 = 0) as -> by (Z.to_euclidean_division_equations; lia). done.
    + exists cs'. by rewrite <-Ht, <-Hf.
  - exists (step_cs cs n). split; [done|]. split; [|done].
    intros m Hm. rewrite decide_True by lia. pose proof (Hc1 m Hm) as Hcm.
    destruct (decide (m < S n)%nat) as [|Hlt]; [done|]. rewrite step_cs_ne in * by lia.
    destruct (wo_next _ _ _ _ H m Hm) as [Hle _]. revert Hcm Hle E HTn Hn Hm Hlt. clear.
    destruct n as [|[|[|[|]]]]; [lia| | | |lia]; destruct m as [|[|[|[|[|]]]]]; try lia;
      cbn [lv_shift lv_size]; intros; Z.to_euclidean_division_equations; lia.
Qed.

(** ** Lemmas: ticks *)

Definition wheel_inv (w : wheel) (p : gmap nat Z) : Prop :=
  ∃ cs, wheel_ok cs [] w p ∧ cascaded 1 (timer_jiffies w) cs.

Definition due (now : Z) (p : gmap nat Z) : gset nat := dom (filter (λ kv, kv.2 = now) p).

Lemma elem_of_due now p id : id ∈ due now p ↔ p !! id = Some now.
Proof.
  unfold due. rewrite elem_of_dom. split.
  - intros [d [Hd Hn]%map_lookup_filter_Some]. cbn in Hn. by subst.
  - intros Hd. exists now. by apply map_lookup_filter_Some.
Qed.

(** Functions that use the timers below [N] and start none that is due at once. *)
Definition op_later (N : nat) (now : Z) (o : timer_op) : Prop :=
  match o with Start id e => now < e < 2 ^ 32 - 1 ∧ (id < N)%nat | Stop _ => True end.

Definition below (N : nat) (p : gmap nat Z) : Prop := ∀ id, is_Some (p !! id) → (id < N)%nat.

Lemma below_delete N id p : below N p → below N (delete id p).
Proof. intros H x [d [_ Hx]%lookup_delete_Some]. apply H. by eexists. Qed.

Lemma spec_run_later N now os p :
  Forall (op_later N now) os → below N p →
  due now (spec_run now os p) ⊆ due now p ∧ below N (spec_run now os p).
Proof.
  intros Hos. revert p. induction Hos as [|o os Ho _ IH]; intros p Hp; [done|].
  cbn. destruct (IH (spec_do now o p)) as [Hsub ?].
  - destruct o as [id e|id]; [|by apply below_delete]. intros x Hx.
    destruct (decide (x = id)) as [->|]; [apply Ho|]. cbn in Hx.
    rewrite lookup_insert_ne in Hx by done. by apply Hp.
  - split; [|done]. etrans; [exact Hsub|]. intros x. rewrite !elem_of_due.
    destruct o as [id e|id]; cbn in *; [|by intros [_ ?]%lookup_delete_Some].
    rewrite lookup_insert_Some. intros [[_ He]|[_ ?]]; [|done]. lia.
Qed.

Lemma due_below N now p : below N p → (size (due now p) ≤ N)%nat.
Proof.
  intros Hp. etrans; [apply (subseteq_size _ (set_seq 0 N))|by rewrite size_set_seq].
  intros id. rewrite elem_of_due, elem_of_set_seq. intros Hd. split; [lia|].
  apply Hp. by eexists.
Qed.

Lemma due_delete_lt now p id :
  p !! id = Some now → (size (due now (delete id p)) < size (due now p))%nat.
Proof.
  intros Hid. apply subset_size. apply elem_of_due in Hid. split.
  - intros x. rewrite !elem_of_due. by intros [_ ?]%lookup_delete_Some.
  - intros Hsub. specialize (Hsub _ Hid). rewrite elem_of_due in Hsub.
    by rewrite lookup_delete_eq in Hsub.
Qed.

Lemma fires_all fn now p ids p' :
  fires fn now p ids p' → ∀ id d, p' !! id = Some d → now < d.
Proof. by induction 1. Qed.

Section Ticks.
Context (fn : Z → nat → list timer_op) (N : nat).
Hypothesis fn_later : ∀ now id, Forall (op_later N now) (fn now id).

Lemma fn_fits now id : 0 ≤ now → Forall op_fits (fn now id).
Proof.
  intros. eapply Forall_impl; [apply fn_later|]. intros [] Ho; cbn in *; [lia|done].
Qed.

(** The timers at the front of the wheel are those that are due. *)
Lemma front_due cs w p (b := bucket w 0 (Z.to_nat (index_of w 0))) :
  wheel_ok cs [] w p → cascaded 5 (timer_jiffies w) cs →
  ∀ id, id ∈ b ↔ p !! id = Some (timer_jiffies w).
Proof.
  intros H Hc id. subst b. rewrite (wo_index _ _ _ _ 0 H) by lia. split.
  - intros Hid. destruct (wo_in _ _ _ _ H _ _ _ Hid) as (_ & d & -> & Hs & _).
    apply slot_now in Hs. rewrite Z.div_1_r in Hs. by rewrite <-Hs, (wo_now _ _ _ _ H).
  - intros Hp. destruct (wo_all _ _ _ _ H _ _ Hp) as (n & i & Hin); [set_solver|].
    destruct (wo_in _ _ _ _ H _ _ _ Hin) as (_ & d & Hd & Hs & _). simplify_eq.
    destruct (decide (n = O)) as [->|Hn].
    + destruct Hs as [_ Hi]. rewrite (wo_now _ _ _ _ H). rewrite Z.div_1_r in Hi.
      by rewrite <-Hi, Nat2Z.id.
    + destruct (decide (n < 5)%nat).
      * pose proof (Hc n ltac:(lia)) as Hcn. rewrite decide_True in Hcn by done.
        destruct Hs as [Hs _]. lia.
      * unfold bucket in Hin. rewrite lookup_ge_None_2 in Hin; [by apply not_elem_of_nil in Hin|].
        rewrite (wo_levels _ _ _ _ H). lia.
Qed.

Lemma fire_loop_ok cs fuel : ∀ w p,
  wheel_ok cs [] w p → cascaded 5 (timer_jiffies w) cs → below N p →
  (size (due (timer_jiffies w) p) < fuel)%nat →
  ∃ w' ids p', fire_loop fn fuel w = Ret tt w' ∧
    fires fn (timer_jiffies w) p ids p' ∧ wheel_ok cs [] w' p' ∧ below N p' ∧
    timer_jiffies w' = timer_jiffies w ∧
    fired w' = fired w ++ (pair (timer_jiffies w) <$> ids).
Proof.
  induction fuel as [|fuel IH]; intros w p H Hc Hp Hfuel; [lia|]. cbn [fire_loop].
  pose proof (front_due _ _ _ H Hc) as Hfront.
  destruct (bucket w 0 _) as [|id rest].
  - exists w, [], p. rewrite app_nil_r. split; [done|]. split; [|done].
    constructor. intros id d Hd. pose proof (wo_due _ _ _ _ H _ _ Hd).
    destruct (decide (d = timer_jiffies w)) as [->|]; [|lia].
    apply Hfront in Hd. by apply not_elem_of_nil in Hd.
  - assert (p !! id = Some (timer_jiffies w)) as Hid by (apply Hfront; by left).
    set (w1 := (detach_timer id w).2 <| fired := _ |>).
    assert (wheel_ok cs [] w1 (delete id p)) as H1 by (destruct (detach_ok _ _ _ id H); done).
    pose proof (wo_time _ _ _ _ H) as HT.
    destruct (timer_run_ok _ (fn (timer_jiffies w) id) _ _ H1) as (H2 & Ht & Hf).
    { apply fn_fits. lia. }
    destruct (spec_run_later _ _ _ _ (fn_later (timer_jiffies w) id) (below_delete _ id _ Hp))
      as [Hdue Hb].
    apply subseteq_size in Hdue.
    pose proof (due_delete_lt _ _ _ Hid).
    change (timer_jiffies w1) with (timer_jiffies w) in *.
    destruct (IH _ _ H2) as (w' & ids & p' & E & Hfires & ? & ? & ? & Hfd);
      [by rewrite Ht|done|rewrite Ht; lia|].
    rewrite Ht in *. exists w', (id :: ids), p'. split; [exact E|].
    split; [by econstructor|]. split; [done|]. split; [done|]. split; [done|].
    rewrite Hfd, Hf. cbn. by rewrite <-app_assoc.
Qed.

(** [++timer_jiffies; tv1.index = (tv1.index + 1) & TVR_MASK;] *)
Definition advance (w : wheel) : wheel :=
  w <| timer_jiffies := u32 (timer_jiffies w + 1) |>
    <| tvecs := alter (λ tv, tv <| tv_index := Z.land (tv_index tv + 1) TVR_MASK |>) 0%nat
                  (tvecs w) |>.

Lemma bucket_advance w n i : bucket (advance w) n i = bucket w n i.
Proof.
  unfold bucket, advance. cbn. destruct n; [|by rewrite list_lookup_alter_ne].
  rewrite list_lookup_alter_eq. by destruct (tvecs w !! 0%nat).
Qed.

Lemma advance_ok cs w p :
  wheel_ok cs [] w p → cascaded 5 (timer_jiffies w) cs → timer_jiffies w + 1 < LIMIT →
  (∀ id d, p !! id = Some d → timer_jiffies w < d) →
  wheel_inv (advance w) p ∧ timer_jiffies (advance w) = timer_jiffies w + 1.
Proof.
  intros [HT ? Hlen Hshape Hnow Hnext Hin Hall Hone Hnd Hdue Hexp] Hc HL Hp.
  assert (timer_jiffies (advance w) = timer_jiffies w + 1) as Ht.
  { cbn. apply u32_id. unfold LIMIT in *. lia. }
  split; [|done]. exists (step_cs cs 0). rewrite Ht. split; [split|].
  - rewrite Ht. lia.
  - done.
  - cbn. by rewrite length_alter.
  - intros n tv Hn. cbn in Hn. destruct n as [|n];
      [|rewrite list_lookup_alter_ne in Hn by done; by apply Hshape].
    rewrite list_lookup_alter_eq in Hn. apply fmap_Some in Hn as (tv' & Htv & ->).
    destruct (Hshape _ _ Htv) as [Hl Hi]. rewrite step_cs_eq. split; [done|]. cbn. rewrite Hi.
    unfold TVR_MASK, TVR_SIZE. rewrite land_mask by done. by apply (Z.add_mod_idemp_l _ _ 256).
  - rewrite Ht, step_cs_eq. lia.
  - intros n Hn. rewrite Ht, step_cs_ne by lia. pose proof (Hc n Hn) as Hcn.
    rewrite decide_True in Hcn by lia. rewrite Hcn. pose proof (lv_unit_pos n) as Hu.
    pose proof (Z.mul_succ_div_gt (timer_jiffies w) _ Hu).
    pose proof (Z.div_le_mono (timer_jiffies w) (timer_jiffies w + 1) _ Hu). lia.
  - intros n i id. rewrite bucket_advance. intros Hid.
    destruct (Hin _ _ _ Hid) as (? & d & Hd & [Hs Hi] & ?). split; [done|]. exists d.
    split; [done|]. split; [|done]. split; [|done]. pose proof (Hp _ _ Hd) as Hlt.
    destruct n; [|done]. rewrite step_cs_eq. cbn in *. rewrite Z.div_1_r in *. lia.
  - intros id d Hd Hfl. destruct (Hall _ _ Hd Hfl) as (n & i & ?).
    exists n, i. by rewrite bucket_advance.
  - intros n1 i1 n2 i2 id. rewrite !bucket_advance. apply Hone.
  - intros n i. by rewrite bucket_advance.
  - intros id d Hd. rewrite Ht. pose proof (Hp _ _ Hd). pose proof (Hdue _ _ Hd). lia.
  - intros id d Hd. rewrite Ht. pose proof (Hp _ _ Hd). pose proof (Hexp _ _ Hd) as [??].
    change (timer (advance w) id) with (timer w id). lia.
  - intros m Hm. rewrite decide_False, step_cs_ne by lia. pose proof (Hc m Hm) as Hcm.
    rewrite decide_True in Hcm by lia. rewrite Hcm.
    pose proof (Z.mul_div_le (timer_jiffies w) _ (lv_unit_pos m)). lia.
Qed.

Lemma cascade_tick_ok w p (w1 := if index_of w 0 =? 0 then cascade_loop 4 1 w else w) :
  wheel_inv w p →
  ∃ cs, wheel_ok cs [] w1 p ∧ cascaded 5 (timer_jiffies w1) cs ∧
    timer_jiffies w1 = timer_jiffies w ∧ fired w1 = fired w.
Proof.
  intros (cs & H & Hc). subst w1.
  pose proof (wo_index _ _ _ _ 0 H ltac:(lia)) as Hi. rewrite (wo_now _ _ _ _ H) in Hi.
  cbn [lv_size] in Hi. rewrite Hi. destruct (_ =? 0) eqn:E; to_prop.
  - destruct (cascade_loop_ok 4 1 cs w p H) as (cs' & ? & ? & Ht & ?); [lia|lia|done|done|].
    exists cs'. by rewrite Ht.
  - exists cs. split; [done|]. split; [|done].
    intros m Hm. rewrite decide_True by lia. pose proof (Hc m Hm) as Hcm.
    rewrite decide_False in Hcm by lia. destruct (wo_next _ _ _ _ H m Hm) as [Hle _].
    revert Hcm Hle E Hm. clear.
    destruct m as [|[|[|[|[|]]]]]; try lia; cbn [lv_shift]; intros;
      Z.to_euclidean_division_equations; lia.
Qed.

Lemma run_tick_ok fuel w p :
  wheel_inv w p → below N p → (N < fuel)%nat → timer_jiffies w + 1 < LIMIT →
  ∃ w' ids p', run_tick fn fuel w = Ret tt w' ∧
    fires fn (timer_jiffies w) p ids p' ∧ wheel_inv w' p' ∧ below N p' ∧
    timer_jiffies w' = timer_jiffies w + 1 ∧
    fired w' = fired w ++ (pair (timer_jiffies w) <$> ids).
Proof.
  intros H Hb Hfuel HL. unfold run_tick.
  destruct (cascade_tick_ok _ _ H) as (cs & H1 & Hc & Ht & Hf).
  set (w1 := if index_of w 0 =? 0 then cascade_loop 4 1 w else w) in *.
  destruct (fire_loop_ok cs fuel w1 p H1 Hc Hb) as (w2 & ids & p' & -> & Hfires & H2 & Hb2 & Ht2 & Hf2).
  { pose proof (due_below N (timer_jiffies w1) p Hb). lia. }
  rewrite Ht, Hf in *. rewrite <-Ht2 in Hc.
  destruct (advance_ok cs w2 p' H2 Hc) as [H3 Ht3].
  { by rewrite Ht2. }
  { intros id d. rewrite Ht2. by eapply fires_all. }
  rewrite Ht2 in Ht3. by exists (advance w2), ids, p'.
Qed.

Lemma run_list_ok fuel hi : ∀ js w p,
  wheel_inv w p → below N p → (N < fuel)%nat → hi < LIMIT →
  hi - timer_jiffies w < Z.of_nat (length js) → timer_jiffies w ≤ hi →
  Forall (λ j, hi - 2 ^ 31 ≤ j < hi ∧ j < timer_jiffies w + 2 ^ 31) js →
  ∃ w' l now' p', run_timer_list fn js fuel w = Ret tt w' ∧
    runs fn (timer_jiffies w) js p l now' p' ∧ wheel_inv w' p' ∧
    timer_jiffies w' = now' ∧ fired w' = fired w ++ l.
Proof.
  induction js as [|j js IH]; intros w p H Hb Hfuel HL Hlen HT Hjs; [cbn in Hlen; lia|].
  apply Forall_cons in Hjs as [Hj Hjs]. cbn [run_timer_list length] in *.
  rewrite s32_id by lia. destruct (0 <=? _) eqn:E; to_prop; last first.
  { exists w, [], (timer_jiffies w), p. rewrite app_nil_r. split; [done|].
    split; [constructor; lia|done]. }
  destruct (run_tick_ok fuel w p H Hb Hfuel) as (w1 & ids & p1 & -> & Hfires & H1 & Hb1 & Ht1 & Hf1);
    [lia|].
  destruct (IH w1 p1 H1 Hb1 Hfuel HL) as (w' & l & now' & p' & E' & Hruns & ? & ? & Hf');
    [lia|lia| |].
  { eapply Forall_impl; [exact Hjs|]. cbn. lia. }
  exists w', ((pair (timer_jiffies w) <$> ids) ++ l), now', p'. split; [done|].
  rewrite Ht1 in Hruns. split; [econstructor; [lia|done..]|]. split; [done|]. split; [done|].
  by rewrite Hf', Hf1, app_assoc.
Qed.

End Ticks.

Lemma bucket_empty n i : bucket empty_wheel n i = [].
Proof.
  assert (∀ k, default [] (replicate k ([] : list nat) !! i) = []) as Hr.
  { intros k. destruct (_ !! i) eqn:E; [by apply lookup_replicate in E as [-> _]|done]. }
  unfold bucket. do 5 (destruct n as [|n]; [apply Hr|]). done.
Qed.

Lemma empty_wheel_inv : wheel_inv empty_wheel ∅.
Proof.
  exists (λ _, 0). split; [split|]; try done.
  - intros n tv Hn. do 5 (destruct n as [|n]; [by injection Hn as <-|]). done.
  - intros n i id. rewrite bucket_empty. by intros ?%not_elem_of_nil.
  - intros n1 i1 n2 i2 id. rewrite bucket_empty. by intros ?%not_elem_of_nil.
  - intros n i. rewrite bucket_empty. constructor.
  - intros m Hm. rewrite decide_False by lia. pose proof (lv_unit_pos m). cbn. lia.
Qed.

(** ** What the clients of the timers are promised *)

Lemma inv_do w p o :
  wheel_inv w p → op_fits o → wheel_inv (timer_do o w) (spec_do (timer_jiffies w) o p).
Proof.
  intros (cs & H & Hc) Ho. exists cs. split; [by apply timer_do_ok|]. by rewrite timer_do_time.
Qed.

(** Starting a timer that is not running. *)
Lemma inv_start w p id e :
  wheel_inv w p → p !! id = None → 0 ≤ e < 2 ^ 32 - 1 →
  wheel_inv (add_timer id (set_expires id e w)) (<[id := Z.max e (timer_jiffies w)]> p).
Proof.
  intros (cs & H & Hc) Hp He. exists cs. split; last first.
  { unfold add_timer. by rewrite (proj1 (internal_add_fields _ _)). }
  set (w1 := set_expires id e w).
  assert (expires (timer w1 id) = e) as Ee.
  { unfold w1, timer, set_expires. cbn. by rewrite lookup_insert_eq. }
  pose proof (add_ok cs w1 p id) as Ha. rewrite Ee in Ha. apply Ha; [|done|done].
  by apply set_expires_ok.
Qed.

Lemma inv_stop w p id : wheel_inv w p → wheel_inv (del_timer id w).2 (delete id p).
Proof. intros (cs & H & Hc). exists cs. split; [by apply detach_ok|done]. Qed.

Lemma inv_readd w p id :
  wheel_inv w p → is_Some (p !! id) → wheel_inv (add_timer id (del_timer id w).2) p.
Proof.
  intros (cs & H & Hc) Hid. exists cs. split; [by apply readd_ok|].
  unfold add_timer. by rewrite (proj1 (internal_add_fields _ _)).
Qed.

Lemma inv_linked w p id : wheel_inv w p → linked w id = bool_decide (is_Some (p !! id)).
Proof. intros (cs & H & _). by eapply linked_running. Qed.

Lemma inv_time w p : wheel_inv w p → 0 ≤ timer_jiffies w < LIMIT.
Proof. intros (cs & H & _). apply (wo_time _ _ _ _ H). Qed.

Lemma inv_del w p id :
  wheel_inv w p → is_Some (p !! id) →
  del_timer id w = (1, (del_timer id w).2) ∧ timer (del_timer id w).2 id = timer w id.
Proof.
  intros Hw Hid. split; [|done]. unfold del_timer, detach_timer.
  by rewrite (inv_linked _ _ _ Hw), bool_decide_eq_true_2.
Qed.

Lemma timer_start w id e : timer (timer_do (Start id e) w) id = (timer w id) <| expires := e |>.
Proof.
  unfold timer_do, add_timer, timer at 1. rewrite (proj1 (proj2 (internal_add_fields _ _))).
  unfold set_expires. cbn. by rewrite lookup_insert_eq.
Qed.

(** The functions of all timers start none that is due at once. *)
Definition fn_later (N : nat) (fn : Z → nat → list timer_op) : Prop :=
  ∀ now id, Forall (op_later N now) (fn now id).

(** C3: [run_timer_list] on the hierarchical wheel does what a plain table of
    due times would do: it returns, whatever the clock reads as it goes on; at
    each tick it has called exactly the timers that were due then, each once, in
    some order, with the timers that the functions started and stopped taken into
    account; the wheel it leaves represents the table that is left, at the first
    tick past the clock.  This is under three conditions: the clock stays below
    some [hi], at most 2^31 behind it and less than 2^31 ahead of the wheel; [hi] is
    below [LIMIT], 2^32 - 2^26, so that no due time wraps around; and the functions
    of the timers start none that is due at once, which would be called in the same
    tick. *)
Theorem wheel_refines_table N fn fuel hi js w p :
  wheel_inv w p → below N p → fn_later N fn → (N < fuel)%nat →
  timer_jiffies w ≤ hi < LIMIT → hi - timer_jiffies w < Z.of_nat (length js) →
  Forall (λ j, hi - 2 ^ 31 ≤ j < hi ∧ j < timer_jiffies w + 2 ^ 31) js →
  ∃ w' l now' p', run_timer_list fn js fuel w = Ret tt w' ∧
    runs fn (timer_jiffies w) js p l now' p' ∧ wheel_inv w' p' ∧
    timer_jiffies w' = now' ∧ fired w' = fired w ++ l.
Proof. intros Hw Hb Hfn Hfuel [??] Hlen Hjs. by apply (run_list_ok fn N Hfn fuel hi). Qed.

(** Timer 0 expires at 3 and starts itself again 5 ticks later; timer 1 expires
    at 300, past the first cascade. *)
Definition example_fn : Z → nat → list timer_op :=
  λ now id, match id with
            | O => if now <? 2 ^ 31 then [Start 0 (now + 5)] else []
            | _ => []
            end.

Definition example_wheel : wheel := timer_run [Start 0 3; Start 1 300] empty_wheel.

Lemma wheel_refines_table_witness :
  let js := replicate 310 305 in
  (∃ w' l now' p', run_timer_list example_fn js 3 example_wheel = Ret tt w' ∧
    runs example_fn 0 js (spec_run 0 [Start 0 3; Start 1 300] ∅) l now' p' ∧ wheel_inv w' p' ∧
    timer_jiffies w' = now' ∧ fired w' = l) ∧
  match run_timer_list example_fn js 3 example_wheel with
  | Ret _ w' => last (fired w') = Some (303, 0%nat) ∧ fired w' !! 60%nat = Some (300, 1%nat)
  | Stuck _ _ => False
  end.
Proof.
  cbv zeta. split; [|by vm_compute].
  apply (wheel_refines_table 2 example_fn 3 306 (replicate 310 305) example_wheel).
  - destruct empty_wheel_inv as (cs & H & Hc).
    destruct (timer_run_ok cs [Start 0 3; Start 1 300] _ _ H) as (H1 & Ht & _);
      [repeat constructor; cbn; lia|].
    exists cs. split; [done|]. unfold example_wheel. by rewrite Ht.
  - intros id [d Hd]. cbn in Hd. repeat (apply lookup_insert_Some in Hd as [[<- _]|[_ Hd]]; [lia|]).
    done.
  - intros now id. unfold example_fn. destruct id; [|constructor].
    destruct (now <? 2 ^ 31) eqn:E; to_prop; repeat constructor; cbn; lia.
  - lia.
  - by_compute.
  - rewrite length_replicate. by_compute.
  - by_compute.
Defined.
