(* ===== verification/Itimer.v ===== *)
(** * Itimer: the interval timers of a process

    Models kernel/itimer.c: the conversions between a [struct timeval] and
    jiffies, [_getitimer], [_setitimer], the system calls on them, and
    [it_real_fn], the function of the timer that raises SIGALRM.

    [jiffies] is the clock the calls read.  [verify_area] is what it answers for
    the caller's pointer, 0 when the memory can be accessed. *)

From stdpp Require Import gmap.
From S2P Require Import Prelude Timer.

(** ** Code *)

Definition HZ : Z := 100.
Definition ULONG_MAX : Z := 2 ^ 32 - 1.
Definition ITIMER_REAL : Z := 0.
Definition ITIMER_VIRTUAL : Z := 1.
Definition ITIMER_PROF : Z := 2.

Record timeval := MkTimeval { tv_sec : Z; tv_usec : Z }.
Record itimerval := MkItimerval { it_interval : timeval; it_value : timeval }.

Record task := MkTask {
  it_real_value : Z; it_prof_value : Z; it_virt_value : Z;
  it_real_incr : Z; it_prof_incr : Z; it_virt_incr : Z;
  real_timer : nat;
  sigalrms : nat;          (** how often SIGALRM was sent *)
}.

Record itstate := MkIt { current : task; wheel_of : wheel; clock : Z }.

#[global] Instance eta_task : Eta task := λ x,
  MkTask (it_real_value x) (it_prof_value x) (it_virt_value x)
    (it_real_incr x) (it_prof_incr x) (it_virt_incr x) (real_timer x) (sigalrms x).
#[global] Instance eta_itstate : Eta itstate := λ x, MkIt (current x) (wheel_of x) (clock x).

Definition tvtojiffies (value : timeval) : Z :=
  let sec := u32 (tv_sec value) in
  let usec := u32 (tv_usec value) in
  if ULONG_MAX / HZ <? sec then ULONG_MAX
  else
    let usec := u32 (usec + (1000000 / HZ - 1)) in
    let usec := usec / (1000000 / HZ) in
    u32 (HZ * sec + usec).

Definition jiffiestotv (j : Z) : timeval :=
  {| tv_usec := (j mod HZ) * (1000000 / HZ); tv_sec := j / HZ |}.

Definition _getitimer (which : Z) (s : itstate) : (Z + itimerval) * itstate :=
  let t := current s in
  let done val interval s :=
    (inr {| it_value := jiffiestotv val; it_interval := jiffiestotv interval |}, s) in
  if which =? ITIMER_REAL then
    let interval := it_real_incr t in
    let '(ret, w) := del_timer (real_timer t) (wheel_of s) in
    if negb (ret =? 0) then
      let now := clock s in
      let val := expires (timer w (real_timer t)) in
      let s := s <| wheel_of := add_timer (real_timer t) w |> in
      let val := if val <=? now then u32 (now + 1) else val in
      done (u32 (val - now)) interval s
    else done 0 interval (s <| wheel_of := w |>)
  else if which =? ITIMER_VIRTUAL then done (it_virt_value t) (it_virt_incr t) s
  else if which =? ITIMER_PROF then done (it_prof_value t) (it_prof_incr t) s
  else (inl (- EINVAL), s).

(** The result, and what was stored in the caller's buffer. *)
Definition sys_getitimer (null : bool) (verify_area : Z) (which : Z) (s : itstate) :
    Z * option itimerval * itstate :=
  if null then (- EFAULT, None, s)
  else
    match _getitimer which s with
    | (inl error, s) => (error, None, s)
    | (inr get_buffer, s) =>
        if negb (verify_area =? 0) then (verify_area, None, s) else (0, Some get_buffer, s)
    end.

Definition it_real_fn (s : itstate) : itstate :=
  let s := s <| current := (current s) <| sigalrms := S (sigalrms (current s)) |> |> in
  let interval := it_real_incr (current s) in
  if negb (interval =? 0) then
    let timeout := u32 (clock s + interval) in
    let timeout := if timeout <? interval then ULONG_MAX else timeout in
    let id := real_timer (current s) in
    s <| wheel_of := add_timer id (set_expires id timeout (wheel_of s)) |>
  else s.

(** [want] is that [ovalue] is not NULL; the second result is what it then
    holds. *)
Definition _setitimer (which : Z) (value : itimerval) (want : bool) (s : itstate) :
    Z * option itimerval * itstate :=
  let i := tvtojiffies (it_interval value) in
  let j := tvtojiffies (it_value value) in
  let set old s :=
    let t := current s in
    if which =? ITIMER_REAL then
      let w := (del_timer (real_timer t) (wheel_of s)).2 in
      let s := s <| wheel_of := w |>
                 <| current := t <| it_real_value := j |> <| it_real_incr := i |> |> in
      if j =? 0 then (0, old, s)
      else
        let i := u32 (j + clock s) in
        let i := if i <? j then ULONG_MAX else i in
        (0, old, s <| wheel_of := add_timer (real_timer t) (set_expires (real_timer t) i w) |>)
    else
      let j := if j =? 0 then j else u32 (j + 1) in
      if which =? ITIMER_VIRTUAL then
        (0, old, s <| current := t <| it_virt_value := j |> <| it_virt_incr := i |> |>)
      else if which =? ITIMER_PROF then
        (0, old, s <| current := t <| it_prof_value := j |> <| it_prof_incr := i |> |>)
      else (- EINVAL, old, s) in
  if want then
    match _getitimer which s with
    | (inl k, s) => (k, None, s)
    | (inr old, s) => set (Some old) s
    end
  else set None s.

Definition zero_itimerval : itimerval :=
  {| it_interval := MkTimeval 0 0; it_value := MkTimeval 0 0 |}.

(** [value] is [None] for NULL. *)
Definition sys_setitimer (value : option itimerval) (want : bool) (verify_read verify_write : Z)
    (which : Z) (s : itstate) : Z * option itimerval * itstate :=
  if bool_decide (is_Some value) && negb (verify_read =? 0) then (verify_read, None, s)
  else if want && negb (verify_write =? 0) then (verify_write, None, s)
  else
    let '(error, old, s) := _setitimer which (default zero_itimerval value) want s in
    if negb (error =? 0) || negb want then (error, None, s) else (error, old, s).

(** ** Theorems *)

(** between jiffies and [struct timeval] nothing is lost: every number of
    jiffies that is handed to a process comes back as the same number. *)
Theorem jiffies_roundtrip j : 0 ≤ j < 2 ^ 32 → tvtojiffies (jiffiestotv j) = j.
Proof.
  intros Hj. unfold tvtojiffies, jiffiestotv, ULONG_MAX, HZ. cbn [tv_sec tv_usec].
  change (1000000 / 100) with 10000.
  assert (0 ≤ j mod 100 < 100 ∧ 0 ≤ j / 100 ≤ 42949672) as [??]
    by (Z.to_euclidean_division_equations; lia).
  rewrite (u32_id (j / 100)), (u32_id (_ * _)), (u32_id (_ + (10000 - 1))) by lia.
  rewrite (proj2 (Z.ltb_ge _ _)) by (change ((2 ^ 32 - 1) / 100) with 42949672; lia).
  replace (_ / 10000) with (j mod 100) by (Z.to_euclidean_division_equations; lia).
  rewrite u32_id; Z.to_euclidean_division_equations; lia.
Qed.

Lemma jiffies_roundtrip_witness :
  tvtojiffies (jiffiestotv 4294967295) = 4294967295 ∧
  jiffiestotv 4294967295 = MkTimeval 42949672 950000.
Proof. split; [by apply (jiffies_roundtrip 4294967295)|done]. Defined.

(** a time is rounded up to the next tick, unless the number of ticks does
    not fit an [unsigned long]: then the conversion of up to 42949672 seconds,
    which the test for overflow lets pass, wraps around to less than 5
    ticks. *)
Theorem tvtojiffies_rounds_up sec usec (us := sec * 1000000 + usec)
    (j := tvtojiffies (MkTimeval sec usec)) :
  0 ≤ sec ≤ ULONG_MAX / HZ → 0 ≤ usec < 1000000 →
  if decide (us ≤ ULONG_MAX * 10000) then (j - 1) * 10000 < us ≤ j * 10000
  else 0 ≤ j < 5.
Proof.
  intros Hs Hu. subst us j. unfold tvtojiffies, ULONG_MAX, HZ in *. cbn [tv_sec tv_usec].
  change (1000000 / 100) with 10000. change ((2 ^ 32 - 1) / 100) with 42949672 in *.
  rewrite (u32_id sec), (u32_id usec), (u32_id (_ + (10000 - 1))) by lia.
  rewrite (proj2 (Z.ltb_ge _ _)) by lia.
  set (k := (usec + (10000 - 1)) / 10000).
  assert (k * 10000 < usec + 10000 ∧ usec ≤ k * 10000) as [??]
    by (subst k; Z.to_euclidean_division_equations; lia).
  case_decide; [rewrite u32_id by lia; lia|].
  unfold u32. replace (100 * sec + k) with (100 * sec + k - 2 ^ 32 + 1 * 2 ^ 32) by lia.
  rewrite Z.mod_add by lia. rewrite Z.mod_small by lia. lia.
Qed.

Lemma tvtojiffies_rounds_up_witness :
  (tvtojiffies (MkTimeval 1 10001) = 102) ∧
  0 ≤ tvtojiffies (MkTimeval 42949672 960001) < 5.
Proof.
  split; [done|].
  apply (tvtojiffies_rounds_up 42949672 960001); by_compute.
Defined.

(** [setitimer] of a real timer whose time does not overflow starts the
    timer at exactly that many ticks from now and touches no other one; read
    back at once it gives the time and the interval it was set to, rounded to
    ticks, and reading leaves all timers as they are. *)
Theorem setitimer_arms v s p (j := tvtojiffies (it_value v)) (id := real_timer (current s)) :
  wheel_inv (wheel_of s) p → 0 ≤ clock s → 0 < j → j + clock s < ULONG_MAX →
  ∃ s1 s2, _setitimer ITIMER_REAL v false s = (0, None, s1) ∧
    let p1 := <[id := Z.max (j + clock s) (timer_jiffies (wheel_of s))]> p in
    wheel_inv (wheel_of s1) p1 ∧
    _getitimer ITIMER_REAL s1 =
      (inr {| it_value := jiffiestotv j;
              it_interval := jiffiestotv (tvtojiffies (it_interval v)) |}, s2) ∧
    wheel_inv (wheel_of s2) p1.
Proof.
  intros Hw Hclk Hj Hmax. unfold ULONG_MAX in *.
  set (s1 := s <| wheel_of := timer_do (Start id (j + clock s)) (wheel_of s) |>
               <| current := (current s) <| it_real_value := j |>
                               <| it_real_incr := tvtojiffies (it_interval v) |> |>).
  assert (_setitimer ITIMER_REAL v false s = (0, None, s1)) as E.
  { unfold _setitimer. fold j. cbn -[tvtojiffies add_timer del_timer set_expires].
    rewrite (proj2 (Z.eqb_neq j 0)), u32_id by lia. by rewrite (proj2 (Z.ltb_ge _ j)) by lia. }
  pose proof (inv_do _ _ (Start id (j + clock s)) Hw) as Hw1.
  cbn [op_fits spec_do] in Hw1. specialize (Hw1 ltac:(lia)).
  exists s1, (s1 <| wheel_of := add_timer id (del_timer id (wheel_of s1)).2 |>).
  split; [done|]. cbv zeta. split; [done|]. split.
  - destruct (inv_del _ _ id Hw1) as [Ed Et]; [by rewrite lookup_insert_eq|].
    unfold _getitimer. cbn [Z.eqb ITIMER_REAL]. change (real_timer (current s1)) with id.
    change (wheel_of s1) with (timer_do (Start id (j + clock s)) (wheel_of s)).
    rewrite Ed, Et, timer_start. cbn -[tvtojiffies add_timer del_timer timer_do jiffiestotv].
    rewrite (proj2 (Z.leb_gt _ _)) by lia. by rewrite Z.add_simpl_r, u32_id by lia.
  - apply inv_readd; [done|]. by rewrite lookup_insert_eq.
Qed.

Definition example_it : itstate :=
  {| current := {| it_real_value := 0; it_prof_value := 0; it_virt_value := 0;
                   it_real_incr := 0; it_prof_incr := 0; it_virt_incr := 0;
                   real_timer := 7; sigalrms := 0 |};
     wheel_of := empty_wheel; clock := 0 |}.

Lemma setitimer_arms_witness :
  ∃ s1 s2,
    _setitimer ITIMER_REAL (MkItimerval (MkTimeval 0 250000) (MkTimeval 2 1)) false example_it
      = (0, None, s1) ∧
    wheel_inv (wheel_of s1) (<[7%nat := 201]> ∅) ∧
    _getitimer ITIMER_REAL s1 =
      (inr (MkItimerval (MkTimeval 0 250000) (MkTimeval 2 10000)), s2) ∧
    wheel_inv (wheel_of s2) (<[7%nat := 201]> ∅).
Proof.
  exact (setitimer_arms (MkItimerval (MkTimeval 0 250000) (MkTimeval 2 1)) example_it ∅
           empty_wheel_inv ltac:(by_compute) ltac:(by_compute) ltac:(by_compute)).
Defined.
