(* ===== verification/Vsprintf.v ===== *)
(** * Vsprintf: formatting and reading numbers

    Models lib/vsprintf.c with the character classes of lib/ctype.c:
    [simple_strtoul], [skip_atoi], [number], [vsprintf] and [sprintf].

    A C string is the list of its characters before the terminating NUL, each
    as a number from 0 to 255; [char] is signed, which matters where a character
    indexes the table [_ctype].  Output is the list of the characters stored.
    The arguments of a call are a list; taking one that is missing or of another
    type is undefined behaviour, [None]. *)

From Stdlib Require Import Ascii String.
From S2P Require Import Prelude.

(** ** Code: character classes *)

Definition ch (a : ascii) : Z := Z.of_N (N_of_ascii a).
Definition chars (s : string) : list Z := ch <$> list_ascii_of_string s.

Definition _U : Z := 0x01.
Definition _L : Z := 0x02.
Definition _D : Z := 0x04.
Definition _C : Z := 0x08.
Definition _P : Z := 0x10.
Definition _S : Z := 0x20.
Definition _X : Z := 0x40.
Definition _SP : Z := 0x80.

Definition _ctype : list Z :=
  [0x00] ++
  [_C; _C; _C; _C; _C; _C; _C; _C] ++
  [_C; Z.lor _C _S; Z.lor _C _S; Z.lor _C _S; Z.lor _C _S; Z.lor _C _S; _C; _C] ++
  [_C; _C; _C; _C; _C; _C; _C; _C] ++
  [_C; _C; _C; _C; _C; _C; _C; _C] ++
  [Z.lor _S _SP; _P; _P; _P; _P; _P; _P; _P] ++
  [_P; _P; _P; _P; _P; _P; _P; _P] ++
  [_D; _D; _D; _D; _D; _D; _D; _D] ++
  [_D; _D; _P; _P; _P; _P; _P; _P] ++
  [_P; Z.lor _U _X; Z.lor _U _X; Z.lor _U _X; Z.lor _U _X; Z.lor _U _X; Z.lor _U _X; _U] ++
  [_U; _U; _U; _U; _U; _U; _U; _U] ++
  [_U; _U; _U; _U; _U; _U; _U; _U] ++
  [_U; _U; _U; _P; _P; _P; _P; _P] ++
  [_P; Z.lor _L _X; Z.lor _L _X; Z.lor _L _X; Z.lor _L _X; Z.lor _L _X; Z.lor _L _X; _L] ++
  [_L; _L; _L; _L; _L; _L; _L; _L] ++
  [_L; _L; _L; _L; _L; _L; _L; _L] ++
  [_L; _L; _L; _P; _P; _P; _P; _C] ++
  replicate 16 0 ++
  replicate 16 0 ++
  [Z.lor _S _SP] ++ replicate 15 _P ++
  replicate 16 _P ++
  replicate 16 _U ++
  replicate 7 _U ++ [_P] ++ replicate 7 _U ++ [_L] ++
  replicate 16 _L ++
  replicate 7 _L ++ [_P] ++ replicate 8 _L.

(** A character of a string as a [char]. *)
Definition schar (c : Z) : Z := if c <? 128 then c else c - 256.

(** [(_ctype+1)[c] & m] *)
Definition is_class (m c : Z) : option bool :=
  if c + 1 <? 0 then None else
  (λ f, has f m) <$> _ctype !! Z.to_nat (c + 1).

Definition isdigit (c : Z) : option bool := is_class _D c.
Definition islower (c : Z) : option bool := is_class _L c.
Definition isxdigit (c : Z) : option bool := is_class (Z.lor _D _X) c.

Definition toupper (c : Z) : option Z :=
  l ← islower c;
  Some (if (l : bool) then c - (ch "a" - ch "A") else c).

(** [*cp], 0 at the end. *)
Definition peek (s : list Z) : Z := schar (hd 0 s).

(** ** Code: reading numbers *)

(** The value of the digit [c]. *)
Definition xdigit_value (c : Z) : option Z :=
  d ← isdigit c;
  if (d : bool) then Some (u32 (c - ch "0"))
  else
    l ← islower c;
    c' ← (if (l : bool) then toupper c else Some c);
    Some (u32 (c' - ch "A" + 10)).

(** The loop over the digits: the value and what follows them. *)
Fixpoint strtoul_loop (base result : Z) (cp : list Z) : option (Z * list Z) :=
  x ← isxdigit (peek cp);
  if negb x then Some (result, cp)
  else
    value ← xdigit_value (peek cp);
    if value <? base then
      match cp with
      | _ :: cp' => strtoul_loop base (u32 (result * base + value)) cp'
      | [] => None
      end
    else Some (result, cp).

Definition simple_strtoul (cp : list Z) (base : Z) : option (Z * list Z) :=
  if base =? 0 then
    if peek cp =? ch "0" then
      let cp := tail cp in
      if peek cp =? ch "x" then
        x ← isxdigit (peek (tail cp));
        if (x : bool) then strtoul_loop 16 0 (tail cp) else strtoul_loop 8 0 cp
      else strtoul_loop 8 0 cp
    else strtoul_loop 10 0 cp
  else strtoul_loop base 0 cp.

Definition is_digit (c : Z) : bool := (ch "0" <=? c) && (c <=? ch "9").

Fixpoint skip_atoi_from (i : Z) (s : list Z) : Z * list Z :=
  match s with
  | c :: s' => if is_digit (schar c) then skip_atoi_from (s32 (i * 10 + schar c - ch "0")) s' else (i, s)
  | [] => (i, s)
  end.

Definition skip_atoi (s : list Z) : Z * list Z := skip_atoi_from 0 s.

(** ** Code: writing numbers *)

Definition ZEROPAD : Z := 1.
Definition SIGN : Z := 2.
Definition PLUS : Z := 4.
Definition SPACE : Z := 8.
Definition LEFT : Z := 16.
Definition SPECIAL : Z := 32.
Definition LARGE : Z := 64.

Definition small_digits : list Z := chars "0123456789abcdefghijklmnopqrstuvwxyz".
Definition large_digits : list Z := chars "0123456789ABCDEFGHIJKLMNOPQRSTUVWXYZ".

(** [while (num != 0) tmp[i++] = digits[do_div(num,base)]], for numbers of at
    most [fuel] digits. *)
Fixpoint do_digits (fuel : nat) (digits : list Z) (base num : Z) : list Z :=
  match fuel with
  | O => []
  | S fuel' =>
      if num =? 0 then []
      else nth (Z.to_nat (num mod base)) digits 0 :: do_digits fuel' digits base (num / base)
  end.

(** [while (size-- > 0) *str++ = c]: the characters, and [size] afterwards. *)
Definition pad (c size : Z) : list Z * Z :=
  (replicate (Z.to_nat size) c, if 0 <? size then -1 else size - 1).

(** [None] for the null pointer. *)
Definition number (num base size precision type : Z) : option (list Z) :=
  let digits := if has type LARGE then large_digits else small_digits in
  let type := if has type LEFT then clr type ZEROPAD else type in
  if (base <? 2) || (36 <? base) then None
  else
    let c := if has type ZEROPAD then ch "0" else ch " " in
    let '(sign, num, size) :=
      if has type SIGN then
        if num <? 0 then ([ch "-"], s32 (- num), size - 1)
        else if has type PLUS then ([ch "+"], num, size - 1)
        else if has type SPACE then ([ch " "], num, size - 1)
        else ([], num, size)
      else ([], num, size) in
    let size :=
      if has type SPECIAL then
        if base =? 16 then size - 2 else if base =? 8 then size - 1 else size
      else size in
    let tmp := if num =? 0 then [ch "0"] else do_digits 32 digits base (u32 num) in
    let i := Z.of_nat (length tmp) in
    let precision := if precision <? i then i else precision in
    let size := size - precision in
    let '(p1, size) := if has type (ZEROPAD + LEFT) then ([], size) else pad (ch " ") size in
    let prefix :=
      if has type SPECIAL then
        if base =? 8 then [ch "0"]
        else if base =? 16 then [ch "0"; nth 33 digits 0]
        else []
      else [] in
    let '(p2, size) := if has type LEFT then ([], size) else pad c size in
    let zeros := replicate (Z.to_nat (precision - i)) (ch "0") in
    let '(p3, _) := pad (ch " ") size in
    Some (p1 ++ sign ++ prefix ++ p2 ++ zeros ++ reverse tmp ++ p3).

(** ** Code: vsprintf *)

Inductive arg :=
| AInt (v : Z)                     (** an integer, a [char] included *)
| AStr (s : option (list Z))       (** a string, or NULL *)
| AOut (p : nat).                  (** a pointer to store a count at *)

(** What has been written, and the counts stored by [%n]. *)
Record vs := MkVs { buf : list Z; counts : list (nat * Z) }.

Definition put (l : list Z) (v : vs) : vs := {| buf := buf v ++ l; counts := counts v |}.

Definition va_int (args : list arg) : option (Z * list arg) :=
  match args with AInt v :: args' => Some (v, args') | _ => None end.
Definition va_str (args : list arg) : option (option (list Z) * list arg) :=
  match args with AStr s :: args' => Some (s, args') | _ => None end.
Definition va_out (args : list arg) : option (nat * list arg) :=
  match args with AOut p :: args' => Some (p, args') | _ => None end.

(** [fmt] from the first flag on: the flags, and what follows them. *)
Fixpoint parse_flags (flags : Z) (fmt : list Z) : Z * list Z :=
  match fmt with
  | c :: fmt' =>
      if c =? ch "-" then parse_flags (Z.lor flags LEFT) fmt'
      else if c =? ch "+" then parse_flags (Z.lor flags PLUS) fmt'
      else if c =? ch " " then parse_flags (Z.lor flags SPACE) fmt'
      else if c =? ch "#" then parse_flags (Z.lor flags SPECIAL) fmt'
      else if c =? ch "0" then parse_flags (Z.lor flags ZEROPAD) fmt'
      else (flags, fmt)
  | [] => (flags, [])
  end.

Definition parse_width (flags : Z) (fmt : list Z) (args : list arg) :
    option (Z * Z * list Z * list arg) :=
  if is_digit (peek fmt) then
    let '(field_width, fmt) := skip_atoi fmt in Some (flags, field_width, fmt, args)
  else if peek fmt =? ch "*" then
    '(field_width, args) ← va_int args;
    let field_width := s32 field_width in
    if field_width <? 0 then Some (Z.lor flags LEFT, s32 (- field_width), tail fmt, args)
    else Some (flags, field_width, tail fmt, args)
  else Some (flags, -1, fmt, args).

Definition parse_precision (fmt : list Z) (args : list arg) : option (Z * list Z * list arg) :=
  if peek fmt =? ch "." then
    let fmt := tail fmt in
    '(precision, fmt, args) ←
      (if is_digit (peek fmt) then
         let '(precision, fmt) := skip_atoi fmt in Some (precision, fmt, args)
       else if peek fmt =? ch "*" then
         '(precision, args) ← va_int args; Some (s32 precision, tail fmt, args)
       else Some (-1, fmt, args));
    Some (if precision <? 0 then 0 else precision, fmt, args)
  else Some (-1, fmt, args).

Definition parse_qualifier (fmt : list Z) : Z * list Z :=
  if (peek fmt =? ch "h") || (peek fmt =? ch "l") || (peek fmt =? ch "L")
  then (peek fmt, tail fmt) else (-1, fmt).

(** [while (--field_width > 0) *str++ = ' '] *)
Definition pad_pre (field_width : Z) : list Z * Z :=
  (replicate (Z.to_nat (field_width - 1)) (ch " "),
   if 0 <? field_width - 1 then 0 else field_width - 1).

(** [while (len < field_width--) *str++ = ' '] *)
Definition pad_post (len field_width : Z) : list Z * Z :=
  (replicate (Z.to_nat (field_width - len)) (ch " "),
   if len <? field_width then len - 1 else field_width - 1).

Definition put_char (flags field_width v : Z) : list Z :=
  let '(p1, field_width) := if has flags LEFT then ([], field_width) else pad_pre field_width in
  p1 ++ [u8 v] ++ (pad_pre field_width).1.

Definition strnlen (s : list Z) (count : Z) : Z := Z.min (Z.of_nat (length s)) (u32 count).

Definition put_string (flags field_width precision : Z) (s : option (list Z)) : list Z :=
  let s := default (chars "<NULL>") s in
  let len := strnlen s precision in
  let '(p1, field_width) := if has flags LEFT then ([], field_width) else pad_post len field_width in
  p1 ++ take (Z.to_nat len) s ++ (pad_post len field_width).1.

(** The integer argument, as the [long] that [number] is given. *)
Definition int_arg (flags qualifier : Z) (v : Z) : Z :=
  if qualifier =? ch "l" then s32 v
  else if qualifier =? ch "h" then
    if has flags SIGN then (v + 2 ^ 15) mod 2 ^ 16 - 2 ^ 15 else u16 v
  else s32 v.

Definition put_int (flags field_width precision qualifier base : Z) (args : list arg) (v : vs) :
    option (vs * list arg) :=
  '(n, args) ← va_int args;
  str ← number (int_arg flags qualifier n) base field_width precision flags;
  Some (put str v, args).

(** One directive, from the character after the [%] on. *)
Definition directive (fmt : list Z) (args : list arg) (v : vs) : option (list Z * list arg * vs) :=
  let '(flags, fmt) := parse_flags 0 fmt in
  '(flags, field_width, fmt, args) ← parse_width flags fmt args;
  '(precision, fmt, args) ← parse_precision fmt args;
  let '(qualifier, fmt) := parse_qualifier fmt in
  let c := peek fmt in
  let rest := tail fmt in
  let int flags base :=
    '(v, args) ← put_int flags field_width precision qualifier base args v;
    Some (rest, args, v) in
  if c =? ch "c" then
    '(n, args) ← va_int args;
    Some (rest, args, put (put_char flags field_width n) v)
  else if c =? ch "s" then
    '(s, args) ← va_str args;
    Some (rest, args, put (put_string flags field_width precision s) v)
  else if c =? ch "p" then
    let '(field_width, flags) :=
      if field_width =? -1 then (8, Z.lor flags ZEROPAD) else (field_width, flags) in
    '(n, args) ← va_int args;
    str ← number (s32 n) 16 field_width precision flags;
    Some (rest, args, put str v)
  else if c =? ch "n" then
    '(p, args) ← va_out args;
    Some (rest, args, {| buf := buf v; counts := counts v ++ [(p, Z.of_nat (length (buf v)))] |})
  else if c =? ch "o" then int flags 8
  else if c =? ch "X" then int (Z.lor flags LARGE) 16
  else if c =? ch "x" then int flags 16
  else if (c =? ch "d") || (c =? ch "i") then int (Z.lor flags SIGN) 10
  else if c =? ch "u" then int flags 10
  else
    let v := if c =? ch "%" then v else put [ch "%"] v in
    let v := match fmt with c :: _ => put [c] v | [] => v end in
    Some (rest, args, v).

(** The loop over the format, with one unit of fuel for each character. *)
Fixpoint vsprintf_loop (fuel : nat) (fmt : list Z) (args : list arg) (v : vs) : option vs :=
  match fmt, fuel with
  | [], _ => Some v
  | _ :: _, O => None
  | c :: fmt', S fuel' =>
      if c =? ch "%" then
        '(fmt, args, v) ← directive fmt' args v;
        vsprintf_loop fuel' fmt args v
      else vsprintf_loop fuel' fmt' args (put [c] v)
  end.

(** The result is the length of the string, as [str-buf]. *)
Definition vsprintf (fmt : list Z) (args : list arg) : option (Z * vs) :=
  v ← vsprintf_loop (length fmt) fmt args (MkVs [] []);
  Some (Z.of_nat (length (buf v)), v).

Definition sprintf (fmt : string) (args : list arg) : option (Z * list Z) :=
  '(n, v) ← vsprintf (chars fmt) args;
  Some (n, buf v).

(** ** Lemmas: digits *)

(** [c] is the digit [v], in either case. *)
Definition digit_char (v c : Z) : Prop :=
  isxdigit (schar c) = Some true ∧ xdigit_value (schar c) = Some v.

Lemma digits_char (digits : list Z) v :
  digits = small_digits ∨ digits = large_digits → 0 ≤ v < 16 →
  digit_char v (nth (Z.to_nat v) digits 0).
Proof.
  intros Hd Hv. rewrite <-(Z2Nat.id v) at 1 by lia.
  assert (Z.to_nat v < 16)%nat as Hn by lia. revert Hn. generalize (Z.to_nat v). clear Hv. intros n Hn.
  destruct Hd as [->| ->]; do 16 (destruct n as [|n]; [by vm_compute|]); lia.
Qed.

(** The value of a list of digits, the first one being the highest. *)
Fixpoint digits_value (base acc : Z) (vs : list Z) : Z :=
  match vs with
  | [] => acc
  | v :: vs' => digits_value base (u32 (acc * base + v)) vs'
  end.

Lemma digits_value_snoc base acc vs v :
  digits_value base acc (vs ++ [v]) = u32 (digits_value base acc vs * base + v).
Proof. revert acc. induction vs as [|w vs IH]; intros acc; cbn; [done|apply IH]. Qed.

Lemma strtoul_digits base acc cs vs rest :
  Forall2 digit_char vs cs → Forall (λ v, v < base) vs →
  isxdigit (peek rest) = Some false →
  strtoul_loop base acc (cs ++ rest) = Some (digits_value base acc vs, rest).
Proof.
  intros Hcs Hvs Hrest. revert acc. induction Hcs as [|v c vs cs [Hx Hv] _ IH]; intros acc.
  - cbn [app digits_value]. destruct rest; cbn [strtoul_loop]; by rewrite Hrest.
  - apply Forall_cons in Hvs as [Hlt Hvs]. cbn [app strtoul_loop digits_value].
    unfold peek. cbn [hd]. rewrite Hx. cbn. rewrite Hv. cbn.
    rewrite (proj2 (Z.ltb_lt _ _)) by done. by apply IH.
Qed.

(** The values of the digits of [num], the lowest first. *)
Fixpoint digits_of (fuel : nat) (base num : Z) : list Z :=
  match fuel with
  | O => []
  | S fuel' => if num =? 0 then [] else num mod base :: digits_of fuel' base (num / base)
  end.

Lemma do_digits_chars fuel digits base num :
  digits = small_digits ∨ digits = large_digits → 2 ≤ base ≤ 16 →
  Forall2 digit_char (digits_of fuel base num) (do_digits fuel digits base num) ∧
  Forall (λ v, v < base) (digits_of fuel base num).
Proof.
  intros Hd Hb. revert num. induction fuel as [|fuel IH]; intros num; cbn; [by split|].
  destruct (num =? 0); [by split|]. destruct (IH (num / base)) as [??].
  pose proof (Z.mod_pos_bound num base ltac:(lia)).
  split; constructor; try done; [by apply digits_char; [|lia]|lia].
Qed.

Lemma digits_of_value fuel base num :
  2 ≤ base → 0 ≤ num < 2 ^ 32 → num < base ^ Z.of_nat fuel →
  digits_value base 0 (reverse (digits_of fuel base num)) = num.
Proof.
  intros Hb. revert num. induction fuel as [|fuel IH]; intros num Hn Hf; [cbn in *; lia|].
  cbn [digits_of]. destruct (num =? 0) eqn:E; to_prop; [by subst|].
  rewrite reverse_cons, digits_value_snoc, IH.
  - rewrite u32_id; pose proof (Z.div_mod num base ltac:(lia)); lia.
  - split; [apply Z.div_pos; lia|]. pose proof (Z.div_lt num base ltac:(lia) ltac:(lia)). lia.
  - apply Z.div_lt_upper_bound; [lia|]. rewrite Nat2Z.inj_succ, Z.pow_succ_r in Hf by lia. lia.
Qed.

Lemma pow_digits base : 2 ≤ base → 2 ^ 32 ≤ base ^ Z.of_nat 32.
Proof. intros Hb. apply Z.pow_le_mono_l. lia. Qed.

(** The digits that [number] writes. *)
Definition number_digits (digits : list Z) (base num : Z) : list Z :=
  reverse (if num =? 0 then [ch "0"] else do_digits 32 digits base (u32 num)).

Lemma number_digits_parse digits base n rest :
  digits = small_digits ∨ digits = large_digits → 2 ≤ base ≤ 16 → 0 ≤ n < 2 ^ 32 →
  isxdigit (peek rest) = Some false →
  strtoul_loop base 0 (number_digits digits base (s32 n) ++ rest) = Some (n, rest).
Proof.
  intros Hd Hb Hn Hrest. unfold number_digits.
  assert (u32 (s32 n) = n) as Hu by (by rewrite u32_s32, u32_id).
  destruct (s32 n =? 0) eqn:E; to_prop.
  - rewrite E in Hu. change (u32 0) with 0 in Hu. subst n.
    rewrite (strtoul_digits _ _ _ [0]); [done| |repeat constructor; lia|done].
    repeat constructor.
  - rewrite Hu. destruct (do_digits_chars 32 digits base n Hd Hb) as [H1 H2].
    rewrite (strtoul_digits _ _ _ (reverse (digits_of 32 base n))).
    + rewrite digits_of_value; [done|lia|done|]. pose proof (pow_digits base). lia.
    + by apply Forall2_reverse.
    + by apply Forall_reverse.
    + done.
Qed.

Lemma to_nat_nonpos z : z ≤ 0 → Z.to_nat z = 0%nat.
Proof. lia. Qed.

(** Without a sign and a width, [number] writes the prefix and the digits. *)
Lemma number_plain num base type (digits := if has type LARGE then large_digits else small_digits) :
  2 ≤ base ≤ 16 → type ∈ [0; LARGE; SPECIAL] →
  number num base (-1) (-1) type =
  Some ((if has type SPECIAL then
           if base =? 8 then [ch "0"] else if base =? 16 then [ch "0"; nth 33 digits 0] else []
         else []) ++ number_digits digits base num).
Proof.
  intros Hb Ht. unfold number. fold digits.
  rewrite (proj2 (Z.ltb_ge base 2)), (proj2 (Z.ltb_ge 36 base)) by lia. cbn [orb].
  assert (has type LEFT = false ∧ has type SIGN = false ∧ has type ZEROPAD = false ∧
          has type (ZEROPAD + LEFT) = false) as (Hl & Hs & Hz & Hzl).
  { repeat (apply elem_of_cons in Ht as [->|Ht]; [by vm_compute|]). by apply elem_of_nil in Ht. }
  rewrite Hl, Hs, Hz, Hzl. cbv zeta. rewrite Hl.
  set (tmp := if num =? 0 then _ else _). set (i := Z.of_nat (length tmp)).
  assert (0 ≤ i) by lia. rewrite (proj2 (Z.ltb_lt _ i)) by lia. unfold pad.
  set (size := if has type SPECIAL then _ else _).
  assert (size ≤ -1) by (subst size; repeat case_match; lia).
  rewrite (proj2 (Z.ltb_ge 0 (size - i))), (proj2 (Z.ltb_ge 0 (size - i - 1))) by lia.
  rewrite !(to_nat_nonpos (_ - _)) by lia. cbn [replicate app] in *. by rewrite app_nil_r.
Qed.

Lemma vsprintf_pct fuel fmt args v :
  vsprintf_loop (S fuel) (ch "%" :: fmt) args v =
  ('(fmt, args, v) ← directive fmt args v; vsprintf_loop fuel fmt args v).
Proof. done. Qed.

(** The string a conversion without sign and width gives. *)
Definition plain_string (base type n : Z) : list Z :=
  let digits := if has type LARGE then large_digits else small_digits in
  (if has type SPECIAL then
     if base =? 8 then [ch "0"] else if base =? 16 then [ch "0"; nth 33 digits 0] else []
   else []) ++ number_digits digits base (s32 n).

Lemma sprintf_plain fmt d n type base :
  chars fmt = ch "%" :: d →
  (∀ v, directive d [AInt n] v = (s ← number (s32 n) base (-1) (-1) type; Some ([], [], put s v))) →
  2 ≤ base ≤ 16 → type ∈ [0; LARGE; SPECIAL] →
  let s := plain_string base type n in sprintf fmt [AInt n] = Some (Z.of_nat (length s), s).
Proof.
  intros Hf Hd Hb Ht s. unfold sprintf, vsprintf. rewrite Hf. cbn [length].
  rewrite vsprintf_pct, Hd, number_plain by done. cbn -[plain_string number_digits].
  by destruct (length d).
Qed.

(** A number has a first digit, which is not the [x] of a prefix. *)
Lemma number_digits_head digits base n rest :
  digits = small_digits ∨ digits = large_digits → 2 ≤ base ≤ 16 → 0 ≤ n < 2 ^ 32 →
  let c := peek (number_digits digits base (s32 n) ++ rest) in
  isxdigit c = Some true ∧ (c =? ch "x") = false.
Proof.
  intros Hd Hb Hn c.
  assert (isxdigit c = Some true) as Hx; last first.
  { split; [done|]. apply Z.eqb_neq. intros E. by rewrite E in Hx. }
  subst c. unfold number_digits. destruct (s32 n =? 0) eqn:E; to_prop; [done|].
  destruct (do_digits_chars 32 digits base (u32 (s32 n)) Hd Hb) as [H _].
  apply Forall2_reverse in H. destruct (reverse (do_digits _ _ _ _)) as [|c cs] eqn:Er.
  - exfalso. apply (f_equal reverse) in Er. rewrite reverse_involutive, u32_s32, u32_id in Er by done.
    cbn in Er. destruct (n =? 0) eqn:En; [|done]. apply Z.eqb_eq in En. by subst.
  - apply Forall2_cons_inv_r in H as (v & vs & [Hx _] & _). exact Hx.
Qed.

Lemma strtoul_hex_prefix s :
  isxdigit (peek s) = Some true →
  simple_strtoul (ch "0" :: ch "x" :: s) 0 = strtoul_loop 16 0 s.
Proof. intros Hx. unfold simple_strtoul. cbn [tail]. by rewrite Hx. Qed.

Lemma strtoul_octal_prefix s :
  (peek s =? ch "x") = false → simple_strtoul (ch "0" :: s) 0 = strtoul_loop 8 0 s.
Proof. intros Hx. unfold simple_strtoul. cbn [tail]. by rewrite Hx. Qed.

Lemma has_lor_r f a b : has f (Z.lor a b) = has f a || has f b.
Proof. unfold has. rewrite !(Z.land_comm f). fold (has (Z.lor a b) f). by rewrite has_lor. Qed.

(** The three places where [number] pads fill one field. *)
Lemma pads_total (zl left : bool) c size :
  (left = true → zl = true) →
  let '(p1, s1) := if zl then ([], size) else pad (ch " ") size in
  let '(p2, s2) := if left then ([], s1) else pad c s1 in
  (length p1 + length p2 + length (pad (ch " ") s2).1)%nat = Z.to_nat size.
Proof.
  intros Hz. destruct zl, left; cbn; rewrite ?length_replicate; try (specialize (Hz eq_refl); done);
    destruct (0 <? size) eqn:E; to_prop; cbn; rewrite ?length_replicate; try lia.
  case_match; lia.
Qed.

Lemma number_digits_length digits digits' base num :
  length (number_digits digits base num) = length (number_digits digits' base num).
Proof.
  unfold number_digits. rewrite !length_reverse. destruct (num =? 0); [done|].
  generalize (u32 num). generalize 32%nat. intros fuel.
  induction fuel as [|fuel IH]; intros n; cbn; [done|].
  destruct (n =? 0); [done|]. cbn. f_equal. apply IH.
Qed.

(** ** Lemmas: the loop over the format *)

Lemma tail_shrinks (l : list Z) : (length (tail l) ≤ length l)%nat.
Proof. destruct l; cbn; lia. Qed.

Lemma parse_flags_shrinks fmt : ∀ flags, (length (parse_flags flags fmt).2 ≤ length fmt)%nat.
Proof.
  induction fmt as [|c fmt IH]; intros flags; cbn; [done|].
  repeat (case_match; [etrans; [apply IH|lia]|]). done.
Qed.

Lemma skip_atoi_shrinks fmt : ∀ i, (length (skip_atoi_from i fmt).2 ≤ length fmt)%nat.
Proof.
  induction fmt as [|c fmt IH]; intros i; cbn; [done|].
  case_match; [etrans; [apply IH|lia]|done].
Qed.

Lemma parse_width_shrinks flags fmt args flags' w fmt' args' :
  parse_width flags fmt args = Some (flags', w, fmt', args') → (length fmt' ≤ length fmt)%nat.
Proof.
  unfold parse_width. pose proof (tail_shrinks fmt). pose proof (skip_atoi_shrinks fmt 0) as Hs.
  unfold skip_atoi. destruct (skip_atoi_from 0 fmt). cbn in Hs.
  case_match; [intros [= _ _ <- _]; lia|].
  case_match; [|intros [= _ _ <- _]; lia].
  destruct (va_int args) as [[??]|]; [|done]. cbn. case_match; intros [= _ _ <- _]; lia.
Qed.

Lemma parse_precision_shrinks fmt args p fmt' args' :
  parse_precision fmt args = Some (p, fmt', args') → (length fmt' ≤ length fmt)%nat.
Proof.
  unfold parse_precision. pose proof (tail_shrinks fmt). pose proof (tail_shrinks (tail fmt)).
  pose proof (skip_atoi_shrinks (tail fmt) 0) as Hs.
  unfold skip_atoi. destruct (skip_atoi_from 0 (tail fmt)). cbn in Hs.
  case_match; [|intros [= _ <- _]; lia].
  case_match; [intros [= _ <- _]; lia|].
  case_match; [|intros [= _ <- _]; lia].
  destruct (va_int args) as [[??]|]; [|done]. intros [= _ <- _]. lia.
Qed.

Lemma directive_shrinks fmt args v fmt' args' v' :
  directive fmt args v = Some (fmt', args', v') → (length fmt' ≤ length fmt)%nat.
Proof.
  unfold directive. pose proof (parse_flags_shrinks fmt 0) as H1.
  destruct (parse_flags 0 fmt) as [flags f1]. cbn [snd] in H1.
  intros ([[[flags' w] f2] a2] & E2 & H)%bind_Some. apply parse_width_shrinks in E2.
  apply bind_Some in H as ([[p f3] a3] & E3 & H). apply parse_precision_shrinks in E3.
  unfold parse_qualifier in H. destruct (if _ || _ || _ then _ else _) as [q f4] eqn:E4.
  assert (length f4 ≤ length f3)%nat.
  { pose proof (tail_shrinks f3). destruct (_ || _ || _); by injection E4 as <- <-. }
  pose proof (tail_shrinks f4).
  repeat match type of H with
  | (if ?b then _ else _) = _ => destruct b
  | (match ?x with (_, _) => _ end) = _ => destruct x
  | _ ≫= _ = Some _ => apply bind_Some in H as (? & ? & H)
  end; injection H as <- _ _; lia.
Qed.

(** The fuel of [vsprintf] is enough: more of it changes nothing. *)
Lemma vsprintf_fuel k : ∀ fmt args v,
  (length fmt ≤ k)%nat → vsprintf_loop k fmt args v = vsprintf_loop (length fmt) fmt args v.
Proof.
  induction k as [k IH] using lt_wf_ind. intros fmt args v Hk.
  destruct fmt as [|c fmt]; [by destruct k|]. destruct k as [|k]; cbn in Hk; [lia|].
  cbn [length vsprintf_loop]. destruct (c =? ch "%"); [|apply IH; lia].
  destruct (directive fmt args v) as [[[f a] w]|] eqn:E; [|done]. cbn.
  apply directive_shrinks in E. rewrite (IH k), <-(IH (length fmt)); [done|lia..].
Qed.

(** ** Lemmas: the field *)

(** Whether a sign is written, and the number after it. *)
Definition signed (num type : Z) : bool :=
  has type SIGN && ((num <? 0) || has type PLUS || has type SPACE).

Definition magnitude (num type : Z) : Z :=
  if has type SIGN && (num <? 0) then s32 (- num) else num.

Lemma number_sign num size type :
  ∃ sign size',
    (if has type SIGN then
       if num <? 0 then ([ch "-"], s32 (- num), size - 1)
       else if has type PLUS then ([ch "+"], num, size - 1)
       else if has type SPACE then ([ch " "], num, size - 1)
       else ([], num, size)
     else ([], num, size)) = (sign, magnitude num type, size') ∧
    Z.of_nat (length sign) = Z.b2z (signed num type) ∧ size' = size - Z.b2z (signed num type).
Proof.
  unfold signed, magnitude.
  destruct (has type SIGN); cbn [andb]; [|exists [], size; cbn; split; [done|lia]].
  destruct (num <? 0), (has type PLUS), (has type SPACE); cbn;
    do 2 eexists; (split; [done|]); cbn; lia.
Qed.

(** Taking ZEROPAD back touches no other flag. *)
Lemma number_flags type (type' := if has type LEFT then clr type ZEROPAD else type) :
  has type' SIGN = has type SIGN ∧ has type' PLUS = has type PLUS ∧
  has type' SPACE = has type SPACE ∧ has type' SPECIAL = has type SPECIAL ∧
  (has type' LEFT = true → has type' (ZEROPAD + LEFT) = true).
Proof.
  subst type'. split_and!; try (by case_match; [flag_simpl|]).
  change (ZEROPAD + LEFT) with (Z.lor ZEROPAD LEFT). rewrite has_lor_r. intros ->.
  by destruct (has _ ZEROPAD).
Qed.

(** ** Theorems *)

(** C36: what the unsigned conversions of [sprintf] write, [simple_strtoul] reads
    back: [%u], [%o], [%x] and [%X] in their base, [%#x] and [%#o] also when
    the base is left to the prefix; it stops at what follows the number. *)
Theorem print_parse_roundtrip n rest fmt base :
  0 ≤ n < 2 ^ 32 → isxdigit (peek rest) = Some false →
  (fmt, base) ∈ [("%u", 10); ("%o", 8); ("%x", 16); ("%X", 16); ("%#x", 0); ("%#o", 0)]%string →
  ∃ s, sprintf fmt [AInt n] = Some (Z.of_nat (length s), s) ∧
    simple_strtoul (s ++ rest) base = Some (n, rest).
Proof.
  intros Hn Hrest Hf.
  repeat (apply elem_of_cons in Hf as [[= -> ->]|Hf]); [..|by apply elem_of_nil in Hf];
    eexists.
  - split; [by apply (sprintf_plain _ [ch "u"] n 0 10); [done|done|lia|left]|].
    apply number_digits_parse; [by left|lia|done|done].
  - split; [by apply (sprintf_plain _ [ch "o"] n 0 8); [done|done|lia|left]|].
    apply number_digits_parse; [by left|lia|done|done].
  - split; [by apply (sprintf_plain _ [ch "x"] n 0 16); [done|done|lia|left]|].
    apply number_digits_parse; [by left|lia|done|done].
  - split; [by apply (sprintf_plain _ [ch "X"] n LARGE 16); [done|done|lia|right; left]|].
    apply number_digits_parse; [by right|lia|done|done].
  - split; [apply (sprintf_plain _ [ch "#"; ch "x"] n SPECIAL 16); [done|done|lia|set_solver]|].
    destruct (number_digits_head small_digits 16 n rest) as [Hx _]; [by left|lia|done|].
    etransitivity; [by apply strtoul_hex_prefix|].
    apply number_digits_parse; [by left|lia|done|done].
  - split; [apply (sprintf_plain _ [ch "#"; ch "o"] n SPECIAL 8); [done|done|lia|set_solver]|].
    destruct (number_digits_head small_digits 8 n rest) as [_ Hx]; [by left|lia|done|].
    etransitivity; [by apply strtoul_octal_prefix|].
    apply number_digits_parse; [by left|lia|done|done].
Qed.

Lemma print_parse_roundtrip_witness :
  ∃ s, sprintf "%#x" [AInt 0xdeadbeef] = Some (Z.of_nat (length s), s) ∧
    simple_strtoul (s ++ chars ", next") 0 = Some (0xdeadbeef, chars ", next").
Proof. apply print_parse_roundtrip; [by_compute|by_compute|do 4 right; left]. Defined.

(** [number] fills its field exactly: it writes the sign, the prefix and the
    digits, these filled up with zeros to the precision, and pads them to the
    width of the field, which a longer number exceeds. *)
Theorem number_fills_field num base size precision type :
  2 ≤ base ≤ 36 →
  let prefix := if has type SPECIAL then
                  if base =? 16 then 2 else if base =? 8 then 1 else 0 else 0 in
  let digits := Z.of_nat (length (number_digits small_digits base (magnitude num type))) in
  ∃ s, number num base size precision type = Some s ∧
    Z.of_nat (length s) = Z.max size (Z.b2z (signed num type) + prefix + Z.max precision digits).
Proof.
  intros Hb prefix k. unfold number.
  rewrite (proj2 (Z.ltb_ge base 2)), (proj2 (Z.ltb_ge 36 base)) by lia. cbn [orb].
  set (digits := if has type LARGE then _ else _).
  set (type' := if has type LEFT then clr type ZEROPAD else type).
  pose proof (number_flags type) as Hfl. cbv zeta in Hfl. fold type' in Hfl.
  destruct Hfl as (-> & -> & -> & -> & Hleft).
  destruct (number_sign num size type) as (sign & size' & -> & Hsign & ->).
  set (tmp := if magnitude num type =? 0 then _ else _).
  assert (Z.of_nat (length tmp) = k) as Hk.
  { subst k tmp. rewrite (number_digits_length _ digits). unfold number_digits.
    by rewrite length_reverse. }
  rewrite Hk. set (c := if has type' ZEROPAD then _ else _).
  pose proof (pads_total (has type' (ZEROPAD + LEFT)) (has type' LEFT) c) as Hp.
  set (size2 := if has type SPECIAL then _ else _).
  assert (size2 = size - Z.b2z (signed num type) - prefix) as ->
    by (subst size2 prefix; repeat case_match; lia).
  set (prec := if precision <? k then k else precision).
  assert (prec = Z.max precision k) as ->
    by (subst prec; destruct (precision <? k) eqn:Ek; to_prop; lia).
  specialize (Hp (size - Z.b2z (signed num type) - prefix - Z.max precision k) Hleft).
  set (pre := if has type SPECIAL then _ else []).
  assert (Z.of_nat (length pre) = prefix) as Hpre.
  { subst pre prefix. destruct (has type SPECIAL); [|done].
    destruct (base =? 8) eqn:E8, (base =? 16) eqn:E16; to_prop; cbn; lia. }
  destruct (if has type' (ZEROPAD + LEFT) then _ else _) as [p1 s1].
  destruct (if has type' LEFT then _ else _) as [p2 s2].
  destruct (pad (ch " ") s2) as [p3 s3]. cbn in Hp. eexists. split; [done|].
  rewrite !length_app, length_reverse, length_replicate. lia.
Qed.

Lemma number_fills_field_witness :
  ∃ s, number (-42) 10 6 4 SIGN = Some s ∧ Z.of_nat (length s) = 6 ∧ s = chars " -0042".
Proof.
  destruct (number_fills_field (-42) 10 6 4 SIGN ltac:(lia)) as (s & E & L).
  exists s. split; [done|]. split; [exact L|]. vm_compute in E. by injection E as <-.
Defined.
