(* ===== verification/Dma.v ===== *)
(** * Dma: the allocator of DMA channels

    Models kernel/dma.c: [request_dma], [free_dma] and [get_dma_list], the text
    of /proc/dma.  [xchg] is one step.  The abstract view is a map from the
    channels that are taken to the names of their owners. *)

From stdpp Require Import gmap.
From Stdlib Require Import String.
From S2P Require Import Prelude Vsprintf.

(** ** Code *)

Definition MAX_DMA_CHANNELS : Z := 8.

Record dma_chan := MkChan {
  lock : Z;
  device_id : option (list Z);   (** [None] for NULL *)
}.

#[global] Instance eta_chan : Eta dma_chan := λ x, MkChan (lock x) (device_id x).

Abbreviation dma_table := (list dma_chan).

Definition no_chan : dma_chan := {| lock := 0; device_id := None |}.

Definition dma_chan_busy : dma_table :=
  [no_chan; no_chan; no_chan; no_chan; {| lock := 1; device_id := Some (chars "cascade") |};
   no_chan; no_chan; no_chan].

Definition chan (tb : dma_table) (n : Z) : dma_chan := default no_chan (tb !! Z.to_nat n).

Definition set_chan (n : Z) (c : dma_chan) (tb : dma_table) : dma_table := <[Z.to_nat n := c]> tb.

(** [xchg(&dma_chan_busy[n].lock, v)]: the old value, and the table. *)
Definition xchg_lock (n v : Z) (tb : dma_table) : Z * dma_table :=
  (lock (chan tb n), set_chan n ((chan tb n) <| lock := v |>) tb).

Definition request_dma (dmanr : Z) (id : list Z) (tb : dma_table) : Z * dma_table :=
  if MAX_DMA_CHANNELS <=? dmanr then (- EINVAL, tb)
  else
    let '(old, tb) := xchg_lock dmanr 1 tb in
    if negb (old =? 0) then (- EBUSY, tb)
    else (0, set_chan dmanr ((chan tb dmanr) <| device_id := Some id |>) tb).

(** What [printk] is given to print, one integer being its argument. *)
Definition printk_int (fmt : string) (v : Z) : list Z :=
  match vsprintf (chars fmt ++ [10]) [AInt v] with Some (_, l) => Vsprintf.buf l | None => [] end.

(** The first result is what is printed. *)
Definition free_dma (dmanr : Z) (tb : dma_table) : list Z * dma_table :=
  if MAX_DMA_CHANNELS <=? dmanr then (printk_int "Trying to free DMA%d" dmanr, tb)
  else
    let '(old, tb) := xchg_lock dmanr 0 tb in
    if old =? 0 then (printk_int "Trying to free free DMA%d" dmanr, tb) else ([], tb).

(** [for (i = 0 ; i < MAX_DMA_CHANNELS ; i++)] over the channels left; [buf] is
    the text so far. *)
Fixpoint dma_list_from (i : Z) (tb : dma_table) (buf : list Z) : option (list Z) :=
  match tb with
  | [] => Some buf
  | c :: tb' =>
      if negb (lock c =? 0) then
        '(_, line) ← vsprintf (chars "%2d: %s" ++ [10]) [AInt i; AStr (device_id c)];
        dma_list_from (i + 1) tb' (buf ++ Vsprintf.buf line)
      else dma_list_from (i + 1) tb' buf
  end.

Definition get_dma_list (tb : dma_table) : option (Z * list Z) :=
  buf ← dma_list_from 0 tb [];
  Some (Z.of_nat (length buf), buf).

(** ** Specification *)

Inductive dma_op := Request (n : Z) (id : list Z) | Free (n : Z).

Definition dma_do (o : dma_op) (tb : dma_table) : Z * dma_table :=
  match o with
  | Request n id => request_dma n id tb
  | Free n => (0, (free_dma n tb).2)
  end.

Definition spec_dma (o : dma_op) (m : gmap Z (list Z)) : Z * gmap Z (list Z) :=
  match o with
  | Request n id =>
      if MAX_DMA_CHANNELS <=? n then (- EINVAL, m)
      else if decide (is_Some (m !! n)) then (- EBUSY, m)
      else (0, <[n := id]> m)
  | Free n => (0, if MAX_DMA_CHANNELS <=? n then m else delete n m)
  end.

(** The results of a sequence of calls, and the state they leave. *)
Fixpoint run_ops {A} (f : dma_op → A → Z * A) (os : list dma_op) (a : A) : list Z * A :=
  match os with
  | [] => ([], a)
  | o :: os' =>
      let '(r, a) := f o a in
      let '(rs, a) := run_ops f os' a in (r :: rs, a)
  end.

Definition dma_inv (tb : dma_table) (m : gmap Z (list Z)) : Prop :=
  length tb = 8%nat ∧
  (∀ n id, m !! n = Some id → 0 ≤ n < 8) ∧
  (∀ n, 0 ≤ n < 8 →
    (lock (chan tb n) = 0 ∧ m !! n = None) ∨
    (lock (chan tb n) = 1 ∧ ∃ id, device_id (chan tb n) = Some id ∧ m !! n = Some id)).

(** ** Lemmas *)

Lemma chan_set tb n n' c :
  length tb = 8%nat → 0 ≤ n < 8 → 0 ≤ n' < 8 →
  chan (set_chan n c tb) n' = if decide (n' = n) then c else chan tb n'.
Proof.
  intros Hl Hn Hn'. unfold chan, set_chan. case_decide as E.
  - subst. rewrite list_lookup_insert_eq; [done|lia].
  - rewrite list_lookup_insert_ne; [done|lia].
Qed.

Lemma set_chan_set n c c' tb : set_chan n c (set_chan n c' tb) = set_chan n c tb.
Proof. apply list_insert_insert_eq. Qed.

Lemma chan_set_eq tb n c : length tb = 8%nat → 0 ≤ n < 8 → chan (set_chan n c tb) n = c.
Proof. intros. rewrite chan_set by done. by case_decide. Qed.

Lemma dma_inv_set tb m n c mo :
  dma_inv tb m → 0 ≤ n < 8 →
  (lock c = 0 ∧ mo = None ∨ lock c = 1 ∧ device_id c = mo ∧ is_Some mo) →
  dma_inv (set_chan n c tb) (partial_alter (λ _, mo) n m).
Proof.
  intros (Hl & Hd & Hc) Hn Hcase. split; [by unfold set_chan; rewrite length_insert|]. split.
  - intros n' id Hn'. destruct (decide (n' = n)) as [->|]; [done|].
    rewrite lookup_partial_alter_ne in Hn' by done. by eapply Hd.
  - intros n' Hr. rewrite chan_set by done. case_decide as E.
    + subst. rewrite lookup_partial_alter_eq.
      destruct Hcase as [[??]|(? & ? & [id ->])]; [by left|right]. naive_solver.
    + rewrite lookup_partial_alter_ne by done. by apply Hc.
Qed.

Lemma dma_inv_same tb m n v :
  dma_inv tb m → 0 ≤ n < 8 → lock (chan tb n) = v →
  dma_inv (set_chan n ((chan tb n) <| lock := v |>) tb) m.
Proof.
  intros H Hn <-. replace (set_chan _ _ tb) with tb; [done|].
  unfold set_chan, chan. symmetry. apply list_insert_id.
  destruct H as [Hl _]. destruct (lookup_lt_is_Some_2 tb (Z.to_nat n)) as [c Hc]; [lia|].
  rewrite Hc. cbn. by destruct c.
Qed.

Lemma dma_do_refines o tb m :
  dma_inv tb m → (match o with Request n _ | Free n => 0 ≤ n end) →
  (dma_do o tb).1 = (spec_dma o m).1 ∧ dma_inv (dma_do o tb).2 (spec_dma o m).2.
Proof.
  intros H Hn. pose proof H as (Hl & Hd & Hc).
  destruct o as [n id|n]; cbn [dma_do spec_dma]; unfold request_dma, free_dma, MAX_DMA_CHANNELS in *.
  - destruct (8 <=? n) eqn:E; to_prop; [done|]. unfold xchg_lock.
    destruct (Hc n ltac:(lia)) as [[Hk Hm]|(Hk & id' & Hi & Hm)]; rewrite Hk, Hm; cbn [negb Z.eqb].
    + rewrite decide_False by (by intros []). rewrite set_chan_set, chan_set_eq by (done || lia).
      split; [done|]. apply (dma_inv_set tb m n _ (Some id)); [done|lia|]. right. cbn. naive_solver.
    + rewrite decide_True by done. split; [done|]. apply dma_inv_same; [done|lia|done].
  - destruct (8 <=? n) eqn:E; to_prop; [done|]. unfold xchg_lock.
    split; [done|]. destruct (_ =? 0); cbn [snd];
      apply (dma_inv_set tb m n _ None); (done || lia || by left).
Qed.

Lemma dma_boot_inv : dma_inv dma_chan_busy {[4 := chars "cascade"]}.
Proof.
  split; [done|]. split.
  - intros n id [<- _]%lookup_singleton_Some. lia.
  - intros n Hn. assert (n ∈ seqZ 0 8) as Hin by (apply elem_of_seqZ; lia).
    clear Hn. revert n Hin. apply Forall_forall.
    change (seqZ 0 8) with [0; 1; 2; 3; 4; 5; 6; 7].
    repeat apply Forall_cons_2; try apply Forall_nil_2; (by left) || (right; by eauto).
Qed.

(** ** Theorems *)

(** for every sequence of calls since boot, [request_dma] and [free_dma]
    answer as a map from channels to owners would, which starts with channel 4
    taken for cascading: a request gets a channel if and only if it exists and
    nobody has it, and a refused request leaves the owner alone. *)
Theorem dma_refines_map os :
  Forall (λ o, match o with Request n _ | Free n => 0 ≤ n end) os →
  let '(rs, tb) := run_ops dma_do os dma_chan_busy in
  let '(rs', m) := run_ops spec_dma os {[4 := chars "cascade"]} in
  rs = rs' ∧ dma_inv tb m.
Proof.
  intros Hos. generalize dma_boot_inv.
  generalize dma_chan_busy, ({[4 := chars "cascade"]} : gmap Z (list Z)).
  induction Hos as [|o os Ho _ IH]; intros tb m Hinv; cbn; [done|].
  destruct (dma_do_refines o tb m Hinv Ho) as [Hr Hi].
  destruct (dma_do o tb) as [r tb'], (spec_dma o m) as [r' m']. cbn in *. subst r'.
  specialize (IH tb' m' Hi). destruct (run_ops dma_do os tb'), (run_ops spec_dma os m').
  by destruct IH as [-> ?].
Qed.

Lemma dma_refines_map_witness :
  let os := [Request 1 (chars "sb"); Request 1 (chars "fd"); Free 1; Request 1 (chars "fd")] in
  (let '(rs, tb) := run_ops dma_do os dma_chan_busy in
   let '(rs', m) := run_ops spec_dma os {[4 := chars "cascade"]} in
   rs = rs' ∧ dma_inv tb m) ∧
  (run_ops dma_do os dma_chan_busy).1 = [0; -16; 0; 0] ∧
  get_dma_list (run_ops dma_do os dma_chan_busy).2 =
    Some (19, chars " 1: fd" ++ [10] ++ chars " 4: cascade" ++ [10]).
Proof.
  cbv zeta. split; [|by vm_compute].
  apply (dma_refines_map [Request 1 (chars "sb"); Request 1 (chars "fd"); Free 1; Request 1 (chars "fd")]).
  repeat constructor; lia.
Defined.
