(* ===== verification/Cred.v ===== *)
(** * Cred: identities, groups, limits and names

    Models from kernel/sys.c the system calls on the identity of a process
    ([setreuid], [setuid], [setfsuid] and the same for groups, the supplementary
    groups), on its resource limits and its file mode mask, and on the names of
    the host; [suser] of include/linux/sched.h decides who is privileged.

    [cred] is the part of [struct task_struct] these calls use.  [va n] is what
    [verify_area] answers for [n] bytes at the caller's pointer. *)

From S2P Require Import Prelude.

(** ** Code: identities *)

Record rlimit := MkRlimit { rlim_cur : Z; rlim_max : Z }.

Record cred := MkCred {
  uid : Z; euid : Z; suid : Z; fsuid : Z;
  gid : Z; egid : Z; sgid : Z; fsgid : Z;
  groups : list Z;
  superpriv : bool;          (** PF_SUPERPRIV *)
  dumpable : Z;
  rlim : list rlimit;
  umask : Z;
}.

#[global] Instance eta_cred : Eta cred := λ x,
  MkCred (uid x) (euid x) (suid x) (fsuid x) (gid x) (egid x) (sgid x) (fsgid x)
    (groups x) (superpriv x) (dumpable x) (rlim x) (umask x).

(** [(uid_t) -1] *)
Definition NO_ID : Z := 0xffff.

Definition suser (c : cred) : bool * cred :=
  if euid c =? 0 then (true, c <| superpriv := true |>) else (false, c).

(** [b || suser()] *)
Definition or_suser (b : bool) (c : cred) : bool * cred := if b then (true, c) else suser c.

Definition sys_setregid (rgid egid_ : Z) (c : cred) : Z * cred :=
  let old_rgid := gid c in
  let old_egid := egid c in
  let '(ok, c) :=
    if rgid =? NO_ID then (true, c)
    else
      let '(p, c) := or_suser ((old_rgid =? rgid) || (egid c =? rgid)) c in
      if p then (true, c <| gid := rgid |>) else (false, c) in
  if negb ok then (- EPERM, c) else
  let '(ok, c) :=
    if egid_ =? NO_ID then (true, c)
    else
      let '(p, c) := or_suser ((old_rgid =? egid_) || (egid c =? egid_) || (sgid c =? egid_)) c in
      if p then (true, c <| egid := egid_ |> <| fsgid := egid_ |>)
      else (false, c <| gid := old_rgid |>) in
  if negb ok then (- EPERM, c) else
  let c := if negb (rgid =? NO_ID) || (negb (egid_ =? NO_ID) && negb (egid_ =? old_rgid))
           then c <| sgid := egid c |> else c in
  let c := c <| fsgid := egid c |> in
  (0, if negb (egid c =? old_egid) then c <| dumpable := 0 |> else c).

Definition sys_setgid (g : Z) (c : cred) : Z * cred :=
  let old_egid := egid c in
  let '(p, c) := suser c in
  let '(ok, c) :=
    if p then (true, c <| gid := g |> <| egid := g |> <| sgid := g |> <| fsgid := g |>)
    else if (g =? gid c) || (g =? sgid c) then (true, c <| egid := g |> <| fsgid := g |>)
    else (false, c) in
  if negb ok then (- EPERM, c)
  else (0, if negb (egid c =? old_egid) then c <| dumpable := 0 |> else c).

Definition sys_setreuid (ruid euid_ : Z) (c : cred) : Z * cred :=
  let old_ruid := uid c in
  let old_euid := euid c in
  let '(ok, c) :=
    if ruid =? NO_ID then (true, c)
    else
      let '(p, c) := or_suser ((old_ruid =? ruid) || (euid c =? ruid)) c in
      if p then (true, c <| uid := ruid |>) else (false, c) in
  if negb ok then (- EPERM, c) else
  let '(ok, c) :=
    if euid_ =? NO_ID then (true, c)
    else
      let '(p, c) := or_suser ((old_ruid =? euid_) || (euid c =? euid_) || (suid c =? euid_)) c in
      if p then (true, c <| euid := euid_ |> <| fsuid := euid_ |>)
      else (false, c <| uid := old_ruid |>) in
  if negb ok then (- EPERM, c) else
  let c := if negb (ruid =? NO_ID) || (negb (euid_ =? NO_ID) && negb (euid_ =? old_ruid))
           then c <| suid := euid c |> else c in
  let c := c <| fsuid := euid c |> in
  (0, if negb (euid c =? old_euid) then c <| dumpable := 0 |> else c).

Definition sys_setuid (u : Z) (c : cred) : Z * cred :=
  let old_euid := euid c in
  let '(p, c) := suser c in
  let '(ok, c) :=
    if p then (true, c <| uid := u |> <| euid := u |> <| suid := u |> <| fsuid := u |>)
    else if (u =? uid c) || (u =? suid c) then (true, c <| euid := u |> <| fsuid := u |>)
    else (false, c) in
  if negb ok then (- EPERM, c)
  else (0, if negb (euid c =? old_euid) then c <| dumpable := 0 |> else c).

Definition sys_setfsuid (u : Z) (c : cred) : Z * cred :=
  let old_fsuid := fsuid c in
  let '(p, c) := or_suser ((u =? uid c) || (u =? euid c) || (u =? suid c) || (u =? fsuid c)) c in
  let c := if p then c <| fsuid := u |> else c in
  (old_fsuid, if negb (fsuid c =? old_fsuid) then c <| dumpable := 0 |> else c).

Definition sys_setfsgid (g : Z) (c : cred) : Z * cred :=
  let old_fsgid := fsgid c in
  let '(p, c) := or_suser ((g =? gid c) || (g =? egid c) || (g =? sgid c) || (g =? fsgid c)) c in
  let c := if p then c <| fsgid := g |> else c in
  (old_fsgid, if negb (fsgid c =? old_fsgid) then c <| dumpable := 0 |> else c).

(** ** Code: supplementary groups *)

Definition NGROUPS : Z := 32.
Definition NOGROUP : Z := -1.

(** The groups in front of the first NOGROUP. *)
Fixpoint live_groups (l : list Z) : list Z :=
  match l with
  | [] => []
  | g :: l' => if g =? NOGROUP then [] else g :: live_groups l'
  end.

(** The result and what is stored at the caller's pointer. *)
Definition sys_getgroups (va : Z → Z) (gidsetsize : Z) (c : cred) : Z * list Z :=
  if negb (Z.land gidsetsize (Z.lnot 0x3FFFFFFF) =? 0) then (- EINVAL, [])
  else
    let l := live_groups (groups c) in
    let i := Z.of_nat (length l) in
    if gidsetsize =? 0 then (i, [])
    else
      let error := va (2 * gidsetsize) in
      if negb (error =? 0) then (error, [])
      else if gidsetsize <? i then (- EINVAL, [])
      else (i, (λ g, g mod 2 ^ 16) <$> l).

(** [user] is the list at the caller's pointer. *)
Definition sys_setgroups (va : Z → Z) (gidsetsize : Z) (user : nat → Z) (c : cred) : Z * cred :=
  let '(p, c) := suser c in
  if negb p then (- EPERM, c)
  else if NGROUPS <? gidsetsize then (- EINVAL, c)
  else
    let i := va (u32 (2 * gidsetsize)) in
    if negb (i =? 0) then (i, c)
    else
      let new := user <$> seq 0 (Z.to_nat gidsetsize) in
      let gs := new ++ drop (Z.to_nat gidsetsize) (groups c) in
      let i := Z.to_nat gidsetsize in
      (0, c <| groups := if Z.of_nat i <? NGROUPS then <[i := NOGROUP]> gs else gs |>).

Definition in_group_p (grp : Z) (c : cred) : bool :=
  (grp =? fsgid c) || existsb (λ g, g =? grp) (live_groups (groups c)).

(** ** Code: limits and the mask *)

Definition RLIM_NLIMITS : Z := 10.
Definition RLIMIT_NOFILE : Z := 7.
Definition NR_OPEN : Z := 256.
Definition S_IRWXUGO : Z := 0x1ff.

Definition limit (c : cred) (resource : Z) : rlimit :=
  default (MkRlimit 0 0) (rlim c !! Z.to_nat resource).

Definition sys_getrlimit (va : Z → Z) (resource : Z) (c : cred) : Z * option rlimit :=
  if RLIM_NLIMITS <=? resource then (- EINVAL, None)
  else
    let error := va 8 in
    if negb (error =? 0) then (error, None) else (0, Some (limit c resource)).

Definition sys_setrlimit (va : Z → Z) (resource : Z) (new : rlimit) (c : cred) : Z * cred :=
  if RLIM_NLIMITS <=? resource then (- EINVAL, c)
  else
    let err := va 8 in
    if negb (err =? 0) then (err, c)
    else if (rlim_cur new <? 0) || (rlim_max new <? 0) then (- EINVAL, c)
    else
      let old := limit c resource in
      let more := (rlim_max old <? rlim_cur new) || (rlim_max old <? rlim_max new) in
      let '(p, c) := if more then suser c else (true, c) in
      if negb p then (- EPERM, c)
      else if (resource =? RLIMIT_NOFILE) &&
              ((NR_OPEN <? rlim_cur new) || (NR_OPEN <? rlim_max new)) then (- EPERM, c)
      else (0, c <| rlim := <[Z.to_nat resource := new]> (rlim c) |>).

Definition sys_umask (mask : Z) (c : cred) : Z * cred :=
  (umask c, c <| umask := Z.land mask S_IRWXUGO |>).

(** ** Specification: sequences of calls *)

Inductive id_call :=
| SetReUid (r e : Z) | SetUid (u : Z) | SetFsUid (u : Z)
| SetReGid (r e : Z) | SetGid (g : Z) | SetFsGid (g : Z)
| SetGroups (va : Z → Z) (n : Z) (user : nat → Z)
| SetRlimit (va : Z → Z) (resource : Z) (new : rlimit)
| Umask (mask : Z).

Definition id_do (k : id_call) (c : cred) : Z * cred :=
  match k with
  | SetReUid r e => sys_setreuid r e c
  | SetUid u => sys_setuid u c
  | SetFsUid u => sys_setfsuid u c
  | SetReGid r e => sys_setregid r e c
  | SetGid g => sys_setgid g c
  | SetFsGid g => sys_setfsgid g c
  | SetGroups va n user => sys_setgroups va n user c
  | SetRlimit va resource new => sys_setrlimit va resource new c
  | Umask mask => sys_umask mask c
  end.

Definition id_run (ks : list id_call) (c : cred) : cred := foldl (λ c k, (id_do k c).2) c ks.

(** What an unprivileged process keeps to: its identities come from those it had,
    its groups stay, its hard limits only fall. *)
Record confined (c0 c : cred) : Prop := {
  cf_uid : uid c ∈ [uid c0; euid c0; suid c0];
  cf_euid : euid c ∈ [uid c0; euid c0; suid c0];
  cf_suid : suid c ∈ [uid c0; euid c0; suid c0];
  cf_fsuid : fsuid c ∈ [uid c0; euid c0; suid c0; fsuid c0];
  cf_gid : gid c ∈ [gid c0; egid c0; sgid c0];
  cf_egid : egid c ∈ [gid c0; egid c0; sgid c0];
  cf_sgid : sgid c ∈ [gid c0; egid c0; sgid c0];
  cf_fsgid : fsgid c ∈ [gid c0; egid c0; sgid c0; fsgid c0];
  cf_groups : groups c = groups c0;
  cf_superpriv : superpriv c = superpriv c0;
  cf_rlim r : 0 ≤ r → rlim_max (limit c r) ≤ rlim_max (limit c0 r);
}.

(** ** Lemmas *)

Lemma confined_refl c : confined c c.
Proof. split; try done; repeat first [left; done | right]. Qed.

Lemma suser_no c : euid c ≠ 0 → suser c = (false, c).
Proof. intros He. unfold suser. by rewrite (proj2 (Z.eqb_neq _ _)). Qed.

Lemma or_suser_no b c : euid c ≠ 0 → or_suser b c = (b, c).
Proof. intros He. unfold or_suser. destruct b; [done|]. by apply suser_no. Qed.

Lemma confined_euid c0 c : confined c0 c → 0 ∉ [uid c0; euid c0; suid c0] → euid c ≠ 0.
Proof. intros H H0 E. apply H0. rewrite <-E. apply H. Qed.

Lemma in3 (x a b c : Z) : x ∈ [a; b; c] ↔ x = a ∨ x = b ∨ x = c.
Proof. rewrite !elem_of_cons, elem_of_nil. lia. Qed.

Lemma in4 (x a b c d : Z) : x ∈ [a; b; c; d] ↔ x = a ∨ x = b ∨ x = c ∨ x = d.
Proof. rewrite !elem_of_cons, elem_of_nil. lia. Qed.

Lemma in3_trans (x a b c : Z) (l : list Z) : x ∈ [a; b; c] → a ∈ l → b ∈ l → c ∈ l → x ∈ l.
Proof. rewrite in3. by intros [->|[->| ->]]. Qed.

Lemma in4_trans (x a b c d : Z) (l : list Z) : x ∈ [a; b; c; d] → a ∈ l → b ∈ l → c ∈ l → d ∈ l → x ∈ l.
Proof. rewrite in4. by intros [->|[->|[->| ->]]]. Qed.

Lemma in3_in4 (x a b c d : Z) : x ∈ [a; b; c] → x ∈ [a; b; c; d].
Proof. rewrite in3, in4. tauto. Qed.

Lemma confined_trans c0 c1 c2 : confined c0 c1 → confined c1 c2 → confined c0 c2.
Proof.
  intros [] []. split; try congruence.
  - by eapply in3_trans.
  - by eapply in3_trans.
  - by eapply in3_trans.
  - eapply in4_trans; eauto using in3_in4.
  - by eapply in3_trans.
  - by eapply in3_trans.
  - by eapply in3_trans.
  - eapply in4_trans; eauto using in3_in4.
  - intros r Hr. etrans; eauto.
Qed.

(** Decide [confined] after a case analysis on the tests of a call. *)
Ltac confine :=
  repeat match goal with
  | |- context [or_suser ?b ?x] => rewrite (or_suser_no b x) by done
  | |- context [suser ?x] => rewrite (suser_no x) by done
  | |- context [if ?b then _ else _] =>
      lazymatch b with context [if _ then _ else _] => fail | _ => destruct b eqn:? end;
      cbn [negb andb orb fst snd]
  end;
  cbn in *; repeat match goal with
  | H : _ = false |- _ => clear H
  | H : negb _ = true |- _ => clear H
  | H : context [(_ || _)%bool = true] |- _ => rewrite orb_true_iff in H
  | H : context [(_ =? _) = true] |- _ => rewrite Z.eqb_eq in H
  end;
  split; cbn; rewrite ?in3, ?in4; try done; lia.

Lemma setreuid_confined c r e : euid c ≠ 0 → confined c (sys_setreuid r e c).2.
Proof. intros He. unfold sys_setreuid. confine. Qed.

Lemma setregid_confined c r e : euid c ≠ 0 → confined c (sys_setregid r e c).2.
Proof. intros He. unfold sys_setregid. confine. Qed.

Lemma setuid_confined c u : euid c ≠ 0 → confined c (sys_setuid u c).2.
Proof. intros He. unfold sys_setuid. confine. Qed.

Lemma setgid_confined c g : euid c ≠ 0 → confined c (sys_setgid g c).2.
Proof. intros He. unfold sys_setgid. confine. Qed.

Lemma setfsuid_confined c u : euid c ≠ 0 → confined c (sys_setfsuid u c).2.
Proof. intros He. unfold sys_setfsuid. confine. Qed.

Lemma setfsgid_confined c g : euid c ≠ 0 → confined c (sys_setfsgid g c).2.
Proof. intros He. unfold sys_setfsgid. confine. Qed.

Lemma setgroups_confined va n user c : euid c ≠ 0 → confined c (sys_setgroups va n user c).2.
Proof. intros He. unfold sys_setgroups. rewrite suser_no by done. apply confined_refl. Qed.

Lemma setrlimit_confined va r new c : euid c ≠ 0 → 0 ≤ r → confined c (sys_setrlimit va r new c).2.
Proof.
  intros He Hr. unfold sys_setrlimit. destruct (RLIM_NLIMITS <=? r); [apply confined_refl|].
  destruct (negb (va 8 =? 0)); [apply confined_refl|].
  destruct ((rlim_cur new <? 0) || _); [apply confined_refl|]. rewrite suser_no by done.
  destruct ((_ <? rlim_cur new) || _) eqn:Em; cbn [negb]; [apply confined_refl|].
  destruct (_ && _); [apply confined_refl|]. apply orb_false_iff in Em as [_ Em]. to_prop.
  pose proof (confined_refl c) as []. split; try done. intros r' Hr'. unfold limit in *. cbn.
  destruct (decide (r' = r)) as [->|].
  - destruct (decide (Z.to_nat r < length (rlim c))%nat).
    + by rewrite list_lookup_insert_eq.
    + rewrite list_insert_ge by lia. lia.
  - by rewrite list_lookup_insert_ne by lia.
Qed.

(** A call with arguments of the right type. *)
Definition call_ok (k : id_call) : Prop :=
  match k with SetRlimit _ r _ => 0 ≤ r | _ => True end.

Lemma id_do_confined k c : euid c ≠ 0 → call_ok k → confined c (id_do k c).2.
Proof.
  intros He Hk. destruct k; cbn [id_do].
  - by apply setreuid_confined.
  - by apply setuid_confined.
  - by apply setfsuid_confined.
  - by apply setregid_confined.
  - by apply setgid_confined.
  - by apply setfsgid_confined.
  - by apply setgroups_confined.
  - by apply setrlimit_confined.
  - pose proof (confined_refl c) as []. by split.
Qed.

Lemma id_run_confined ks : ∀ c,
  0 ∉ [uid c; euid c; suid c] → Forall call_ok ks → confined c (id_run ks c).
Proof.
  induction ks as [|k ks IH]; intros c H0 Hks; [apply confined_refl|].
  apply Forall_cons in Hks as [Hk Hks].
  assert (euid c ≠ 0) as He by (intros E; apply H0; rewrite in3; lia).
  pose proof (id_do_confined k c He Hk) as H1.
  eapply confined_trans; [exact H1|]. apply IH; [|done].
  intros Hin. apply H0. destruct H1. by eapply in3_trans.
Qed.

Lemma live_groups_app l rest :
  Forall (λ g, 0 ≤ g) l → live_groups (l ++ NOGROUP :: rest) = l.
Proof.
  induction 1 as [|g l Hg _ IH]; cbn; [done|].
  rewrite (proj2 (Z.eqb_neq _ _)) by (unfold NOGROUP; lia). by rewrite IH.
Qed.

Lemma live_groups_all l : Forall (λ g, 0 ≤ g) l → live_groups l = l.
Proof.
  induction 1 as [|g l Hg _ IH]; cbn; [done|].
  rewrite (proj2 (Z.eqb_neq _ _)) by (unfold NOGROUP; lia). by rewrite IH.
Qed.

(** What [setgroups] stores in front of the first NOGROUP. *)
Lemma setgroups_live va l c :
  euid c = 0 → length (groups c) = 32%nat → (length l ≤ 32)%nat → Forall (λ g, 0 ≤ g) l →
  va (u32 (2 * Z.of_nat (length l))) = 0 →
  ∃ c', sys_setgroups va (Z.of_nat (length l)) (λ i, nth i l 0) c = (0, c') ∧
    live_groups (groups c') = l ∧ fsgid c' = fsgid c.
Proof.
  intros He Hg Hl Hpos Hva. unfold sys_setgroups, suser. rewrite He. change (0 =? 0) with true.
  cbv iota beta. cbn [negb]. unfold NGROUPS. rewrite (proj2 (Z.ltb_ge 32 _)), Hva by lia.
  cbn [Z.eqb negb]. rewrite Nat2Z.id.
  replace ((λ i, nth i l 0) <$> seq 0 (length l)) with l; last first.
  { apply list_eq. intros i. rewrite list_lookup_fmap.
    destruct (decide (i < length l)%nat) as [Hi|].
    - rewrite lookup_seq_lt by done. cbn. destruct (lookup_lt_is_Some_2 l i Hi) as [x Hx].
      by rewrite Hx, (nth_lookup_Some _ _ _ _ Hx).
    - rewrite lookup_ge_None_2, lookup_seq_ge by lia. done. }
  eexists. split; [reflexivity|]. split; [|done]. cbn [groups upd].
  destruct (_ <? 32) eqn:E; to_prop.
  - rewrite insert_app_r_alt, Nat.sub_diag by lia.
    destruct (drop (length l) (groups c)) as [|g rest] eqn:Ed.
    { apply (f_equal length) in Ed. rewrite length_drop in Ed. cbn in Ed. lia. }
    by apply live_groups_app.
  - rewrite drop_ge, app_nil_r by lia. by apply live_groups_all.
Qed.

(** ** Theorems *)

(** C31: a process without root among its real, effective and saved identity
    cannot get any privilege by these calls, however often and in whatever
    order it makes them: its identities stay among those it had, its
    supplementary groups stay, its hard limits never rise, and it is never
    recorded as having used root's power. *)
Theorem no_privilege_gained c ks :
  0 ∉ [uid c; euid c; suid c] → Forall call_ok ks → confined c (id_run ks c).
Proof. apply id_run_confined. Qed.

Definition sample_cred : cred := {|
  uid := 500; euid := 501; suid := 501; fsuid := 501; gid := 100; egid := 100; sgid := 100; fsgid := 100;
  groups := [10; NOGROUP] ++ replicate 30 0; superpriv := false; dumpable := 1;
  rlim := replicate 10 (MkRlimit 100 200); umask := 18;
|}.

Lemma no_privilege_gained_witness :
  let c' := id_run [SetUid 0; SetReUid 501 500; SetReUid 0 NO_ID; SetUid 501; SetGid 0;
                    SetRlimit (λ _, 0) 7 (MkRlimit 100 150)] sample_cred in
  confined sample_cred c' ∧ euid c' = 501 ∧ rlim_max (limit c' 7) = 150.
Proof.
  cbv zeta. split; [|by vm_compute]. apply no_privilege_gained; [|repeat constructor; cbn; lia].
  rewrite in3. cbn. lia.
Defined.

(** [setuid] of root is final: afterwards all four identities are the new
    one, and if that is not root no sequence of calls changes any of them. *)
Theorem setuid_is_final c u ks :
  euid c = 0 → u ≠ 0 → Forall call_ok ks →
  (sys_setuid u c).1 = 0 ∧
  let c' := id_run ks (sys_setuid u c).2 in
  uid c' = u ∧ euid c' = u ∧ suid c' = u ∧ fsuid c' = u.
Proof.
  intros He Hu Hks.
  assert (∃ c1, sys_setuid u c = (0, c1) ∧ uid c1 = u ∧ euid c1 = u ∧ suid c1 = u ∧ fsuid c1 = u)
    as (c1 & -> & H1 & H2 & H3 & H4).
  { unfold sys_setuid, suser. rewrite He. change (0 =? 0) with true. cbv iota beta zeta.
    cbn [negb]. destruct (negb _); eexists; (split; [reflexivity|]); done. }
  split; [done|]. cbv zeta. cbn [snd].
  destruct (id_run_confined ks c1) as [U E S F]; [rewrite H1, H2, H3, in3; lia|done|].
  rewrite H1, H2, H3 in U, E, S. rewrite H1, H2, H3, H4, in4 in F.
  rewrite in3 in U, E, S. clear -U E S F. lia.
Qed.

Definition root_cred : cred :=
  sample_cred <| uid := 0 |> <| euid := 0 |> <| suid := 0 |> <| fsuid := 0 |>.

Lemma setuid_is_final_witness :
  let c' := id_run [SetReUid 0 0; SetUid 0; SetFsUid 0] (sys_setuid 500 root_cred).2 in
  uid c' = 500 ∧ euid c' = 500 ∧ suid c' = 500 ∧ fsuid c' = 500.
Proof.
  apply (setuid_is_final root_cred 500 [SetReUid 0 0; SetUid 0; SetFsUid 0]); [done|done|].
  repeat constructor.
Defined.

(** The soft limit may end up above the hard one: only the old hard limit is
    looked at. *)
Lemma setrlimit_above_max va r new c :
  0 ≤ r < 7 → length (rlim c) = 10%nat → va 8 = 0 → 0 ≤ rlim_max new < rlim_cur new →
  rlim_cur new ≤ rlim_max (limit c r) →
  (sys_setrlimit va r new c).1 = 0 ∧
  let l := limit (sys_setrlimit va r new c).2 r in rlim_max l < rlim_cur l.
Proof.
  intros Hr Hl Hva Hn Ho. unfold sys_setrlimit, RLIM_NLIMITS, RLIMIT_NOFILE.
  rewrite (proj2 (Z.leb_gt _ _)), Hva by lia. cbn [negb Z.eqb].
  rewrite !(proj2 (Z.ltb_ge _ 0)), !(proj2 (Z.ltb_ge (rlim_max (limit c r)) _)) by lia.
  cbn [orb negb]. rewrite (proj2 (Z.eqb_neq _ 7)) by lia. cbn [andb fst snd]. split; [done|].
  unfold limit. cbn. rewrite list_lookup_insert_eq by lia. cbn. lia.
Qed.

(** the groups that root sets are the groups that [getgroups] reports and
    that [in_group_p] grants access by. *)
Theorem groups_roundtrip va l n c :
  euid c = 0 → length (groups c) = 32%nat → (length l ≤ 32)%nat →
  Forall (λ g, 0 ≤ g < 2 ^ 16) l → (∀ k, va k = 0) → 0 < n < 2 ^ 30 → Z.of_nat (length l) ≤ n →
  let '(r, c') := sys_setgroups va (Z.of_nat (length l)) (λ i, nth i l 0) c in
  r = 0 ∧ sys_getgroups va n c' = (Z.of_nat (length l), l) ∧
  ∀ g, in_group_p g c' = true ↔ g = fsgid c ∨ g ∈ l.
Proof.
  intros He Hg Hl Hr Hva Hn Hle.
  destruct (setgroups_live va l c) as (c' & -> & Hlive & Hfs); [done|done|done| |done|].
  { eapply Forall_impl; [exact Hr|]. cbn. lia. }
  split; [done|]. unfold sys_getgroups, in_group_p. rewrite Hlive, Hfs. split.
  - assert (Z.land n (Z.lnot 0x3FFFFFFF) = 0) as ->.
    { change 0x3FFFFFFF with (Z.ones 30). rewrite <-Z.ldiff_land, Z.ldiff_ones_r by lia.
      rewrite Z.shiftr_div_pow2, Z.div_small by lia. done. }
    cbn [Z.eqb negb]. rewrite (proj2 (Z.eqb_neq n 0)), Hva by lia. cbn [Z.eqb negb].
    rewrite (proj2 (Z.ltb_ge n _)) by lia. f_equal. rewrite <-(list_fmap_id l) at 2.
    apply list_fmap_ext. intros i g Hi. apply Z.mod_small.
    rewrite Forall_lookup in Hr. by eapply Hr.
  - intros g. rewrite orb_true_iff, Z.eqb_eq, existsb_exists. f_equiv.
    setoid_rewrite Z.eqb_eq. setoid_rewrite <-list_elem_of_In. naive_solver.
Qed.

Lemma groups_roundtrip_witness :
  let '(r, c') := sys_setgroups (λ _, 0) 3 (λ i, nth i [10; 20; 65535] 0) root_cred in
  r = 0 ∧ sys_getgroups (λ _, 0) 8 c' = (3, [10; 20; 65535]) ∧
  ∀ g, in_group_p g c' = true ↔ g = 100 ∨ g ∈ [10; 20; 65535].
Proof. apply (groups_roundtrip (λ _, 0) [10; 20; 65535] 8 root_cred); by_compute || done. Defined.
