(* ===== verification/Procs.v ===== *)
(** * Procs: process identifiers, groups, sessions and priorities

    Models from kernel/sys.c [setpriority], [getpriority], [setpgid], [getpgid],
    [getpgrp], [getsid] and [setsid], and from kernel/fork.c [get_pid].

    The task list is the list that [for_each_task] walks: all tasks but the idle
    task, the oldest first.  A task is known by its pid; [CLONE_PID], which
    would make two tasks share one, is not used.  The calls are made by a task
    [cur] of the list. *)

From stdpp Require Import relations.
From S2P Require Import Prelude.

(** ** Code *)

Definition ESRCH : Z := 3.
Definition DEF_PRIORITY : Z := 20.
Definition PRIO_PROCESS : Z := 0.
Definition PRIO_PGRP : Z := 1.
Definition PRIO_USER : Z := 2.

Record task := MkTask {
  pid : Z; pgrp : Z; session : Z;
  leader : bool; did_exec : bool;
  p_pptr : Z; p_opptr : Z;           (** the pids of the parents *)
  t_uid : Z; t_euid : Z;
  priority : Z;
}.

#[global] Instance eta_ptask : Eta task := λ x,
  MkTask (pid x) (pgrp x) (session x) (leader x) (did_exec x) (p_pptr x) (p_opptr x)
    (t_uid x) (t_euid x) (priority x).

Definition is_suser (cur : task) : bool := t_euid cur =? 0.

Definition proc_sel (cur p : task) (which who : Z) : bool :=
  if negb (pid p =? 0) then
    if which =? PRIO_PROCESS then
      if (who =? 0) && (pid p =? pid cur) then true else pid p =? who
    else if which =? PRIO_PGRP then
      let who := if who =? 0 then pgrp cur else who in pgrp p =? who
    else if which =? PRIO_USER then
      let who := if who =? 0 then t_uid cur else who in t_uid p =? who
    else false
  else false.

(** The time slice for a nice value. *)
Definition nice_priority (niceval : Z) : Z :=
  let priority := if niceval <? 0 then u32 (- niceval) else u32 niceval in
  let priority := if 20 <? priority then 20 else priority in
  let priority := (priority * DEF_PRIORITY + 10) / 20 + DEF_PRIORITY in
  if 0 <=? niceval then
    let priority := 2 * DEF_PRIORITY - priority in
    if priority =? 0 then 1 else priority
  else priority.

(** The body of the loop of [sys_setpriority]. *)
Definition set_one (cur : task) (which who prio error : Z) (p : task) : Z * task :=
  if negb (proc_sel cur p which who) then (error, p)
  else if negb (t_uid p =? t_euid cur) && negb (t_uid p =? t_uid cur) && negb (is_suser cur)
  then (EPERM, p)
  else
    let error := if error =? ESRCH then 0 else error in
    if (priority p <? prio) && negb (is_suser cur) then (EACCES, p)
    else (error, p <| priority := prio |>).

Fixpoint set_all (cur : task) (which who prio error : Z) (ts : list task) : Z * list task :=
  match ts with
  | [] => (error, [])
  | p :: ts' =>
      let '(error, p) := set_one cur which who prio error p in
      let '(error, ts') := set_all cur which who prio error ts' in
      (error, p :: ts')
  end.

Definition sys_setpriority (cur : task) (which who niceval : Z) (ts : list task) : Z * list task :=
  if (2 <? which) || (which <? 0) then (- EINVAL, ts)
  else
    let '(error, ts) := set_all cur which who (nice_priority niceval) ESRCH ts in
    (- error, ts).

Definition sys_getpriority (cur : task) (which who : Z) (ts : list task) : Z :=
  if (2 <? which) || (which <? 0) then - EINVAL
  else
    let max_prio :=
      foldl (λ m p, if negb (proc_sel cur p which who) then m
                    else if m <? priority p then priority p else m) (- ESRCH) ts in
    if 0 <? max_prio then (max_prio * 20 + DEF_PRIORITY / 2) / DEF_PRIORITY else max_prio.

Definition find_task (n : Z) (ts : list task) : option task := find (λ p, pid p =? n) ts.

(** Change the first task with pid [n]. *)
Fixpoint set_task (n : Z) (f : task → task) (ts : list task) : list task :=
  match ts with
  | [] => []
  | p :: ts' => if pid p =? n then f p :: ts' else p :: set_task n f ts'
  end.

Definition sys_setpgid (cur : task) (n pgid : Z) (ts : list task) : Z * list task :=
  let n := if n =? 0 then pid cur else n in
  let pgid := if pgid =? 0 then n else pgid in
  if pgid <? 0 then (- EINVAL, ts)
  else
    match find_task n ts with
    | None => (- ESRCH, ts)
    | Some p =>
        let check :=
          if (p_pptr p =? pid cur) || (p_opptr p =? pid cur) then
            if negb (session p =? session cur) then Some (- EPERM)
            else if did_exec p then Some (- EACCES) else None
          else if negb (pid p =? pid cur) then Some (- ESRCH) else None in
        match check with
        | Some e => (e, ts)
        | None =>
            if leader p then (- EPERM, ts)
            else if negb (pgid =? n) &&
                    negb (existsb (λ t, (pgrp t =? pgid) && (session t =? session cur)) ts)
            then (- EPERM, ts)
            else (0, set_task n (λ p, p <| pgrp := pgid |>) ts)
        end
    end.

Definition sys_getpgid (cur : task) (n : Z) (ts : list task) : Z :=
  if n =? 0 then pgrp cur
  else match find_task n ts with Some p => pgrp p | None => - ESRCH end.

Definition sys_getpgrp (cur : task) : Z := pgrp cur.

Definition sys_getsid (cur : task) (n : Z) (ts : list task) : Z :=
  if n =? 0 then session cur
  else match find_task n ts with Some p => session p | None => - ESRCH end.

(** The controlling terminal is given up as well. *)
Definition sys_setsid (cur : task) (ts : list task) : Z * list task :=
  if existsb (λ p, pgrp p =? pid cur) ts then (- EPERM, ts)
  else
    (pid cur, set_task (pid cur)
       (λ p, p <| leader := true |> <| session := pid cur |> <| pgrp := pid cur |>) ts).

(** [if ((++last_pid) & 0xffff8000) last_pid=1;] *)
Definition next_pid (last_pid : Z) : Z :=
  let p := u32 (last_pid + 1) in
  if negb (Z.land p 0xffff8000 =? 0) then 1 else p.

Definition pid_taken (n : Z) (ts : list task) : bool :=
  existsb (λ p, (pid p =? n) || (pgrp p =? n) || (session p =? n)) ts.

(** The loop through [repeat]; the result is also the new [last_pid]. *)
Fixpoint get_pid (fuel : nat) (last_pid : Z) (ts : list task) : option Z :=
  match fuel with
  | O => None
  | S fuel' =>
      let n := next_pid last_pid in
      if pid_taken n ts then get_pid fuel' n ts else Some n
  end.

(** ** Specification: what happens to the task list *)

(** The new task of a fork: a copy of its parent that has done no [exec] and
    leads no session. *)
Definition child_of (cur : task) (n : Z) : task :=
  cur <| pid := n |> <| leader := false |> <| did_exec := false |>
      <| p_pptr := pid cur |> <| p_opptr := pid cur |>.

(** A thread that the first process starts and that makes itself a daemon, as
    [bdflush] and [kswapd] do before anything else. *)
Definition daemon_of (cur : task) (n : Z) : task :=
  (child_of cur n) <| session := 1 |> <| pgrp := 1 |>.

Record procs := MkProcs { tasks : list task; last_pid : Z }.

Inductive procs_step : procs → procs → Prop :=
| step_setpgid ts l cur n pgid :
    cur ∈ ts → procs_step (MkProcs ts l) (MkProcs (sys_setpgid cur n pgid ts).2 l)
| step_setsid ts l cur :
    cur ∈ ts → procs_step (MkProcs ts l) (MkProcs (sys_setsid cur ts).2 l)
| step_setpriority ts l cur which who nice :
    cur ∈ ts → procs_step (MkProcs ts l) (MkProcs (sys_setpriority cur which who nice ts).2 l)
| step_fork ts l cur fuel n :
    cur ∈ ts → get_pid fuel l ts = Some n →
    procs_step (MkProcs ts l) (MkProcs (ts ++ [child_of cur n]) n)
| step_daemon ts l cur fuel n :
    cur ∈ ts → get_pid fuel l ts = Some n →
    procs_step (MkProcs ts l) (MkProcs (ts ++ [daemon_of cur n]) n)
| step_exit ts l n :
    procs_step (MkProcs ts l) (MkProcs (filter (λ p, pid p ≠ n) ts) l)
| step_reparent ts l n pp op :
    procs_step (MkProcs ts l) (MkProcs (set_task n (λ p, p <| p_pptr := pp |> <| p_opptr := op |>) ts) l)
| step_exec ts l n :
    procs_step (MkProcs ts l) (MkProcs (set_task n (λ p, p <| did_exec := true |>) ts) l).

(** A process group lies within one session, also when it is named after a task
    that has left it, unless it is group 1, which the daemons join; a session
    leader leads its group too. *)
Record procs_inv (ts : list task) : Prop := {
  pi_pids : NoDup (pid <$> ts);
  pi_group p q : p ∈ ts → q ∈ ts → pgrp p ≠ 1 → pgrp p = pgrp q → session p = session q;
  pi_named p q : p ∈ ts → q ∈ ts → pgrp p ≠ 1 → pgrp p = pid q → session p = session q;
  pi_leader p : p ∈ ts → leader p = true → session p = pid p ∧ pgrp p = pid p;
}.

(** ** Lemmas *)

Lemma find_task_Some n ts p : find_task n ts = Some p → p ∈ ts ∧ pid p = n.
Proof.
  unfold find_task. intros [Hin Hp]%find_some. apply list_elem_of_In in Hin. by apply Z.eqb_eq in Hp.
Qed.

(** The tasks after one of them was changed. *)
Lemma set_task_elem n f ts q :
  NoDup (pid <$> ts) → q ∈ set_task n f ts →
  (q ∈ ts ∧ pid q ≠ n) ∨ ∃ p, p ∈ ts ∧ pid p = n ∧ q = f p.
Proof.
  induction ts as [|p ts IH]; cbn; [by intros _ ?%elem_of_nil|].
  rewrite NoDup_cons. intros [Hp Hnd]. destruct (pid p =? n) eqn:E; to_prop.
  - rewrite elem_of_cons. intros [->|Hq]; [right; exists p; split; [left|]; done|].
    left. split; [by right|]. intros Eq. apply Hp. rewrite E, <-Eq. by apply list_elem_of_fmap_2.
  - rewrite elem_of_cons. intros [->|Hq]; [left; split; [by left|done]|].
    destruct (IH Hnd Hq) as [[??]|(p' & ? & ? & ?)]; [left; split; [by right|done]|].
    right. exists p'. split; [by right|done].
Qed.

Lemma set_task_pids n f ts : (∀ p, pid (f p) = pid p) → pid <$> set_task n f ts = pid <$> ts.
Proof.
  intros Hf. induction ts as [|p ts IH]; cbn; [done|].
  destruct (pid p =? n); cbn; [by rewrite Hf|by rewrite IH].
Qed.

Lemma pid_unique ts p q : NoDup (pid <$> ts) → p ∈ ts → q ∈ ts → pid p = pid q → p = q.
Proof.
  intros Hnd [i Hi]%list_elem_of_lookup [j Hj]%list_elem_of_lookup E.
  assert (i = j) as <-; [|by simplify_eq].
  eapply NoDup_lookup; [exact Hnd| |]; rewrite list_lookup_fmap; [by rewrite Hi|rewrite Hj; cbn; by rewrite E].
Qed.

(** One task changes: the groups of the others see the new one in its session. *)
Lemma inv_update ts n f :
  procs_inv ts → (∀ p, pid (f p) = pid p) →
  (∀ p, p ∈ ts → pid p = n →
    (∀ q, q ∈ ts → pid q ≠ n →
      (pgrp q ≠ 1 → pgrp (f p) = pgrp q → session (f p) = session q) ∧
      (pgrp (f p) ≠ 1 → pgrp (f p) = pid q → session (f p) = session q) ∧
      (n ≠ 1 → pgrp q = n → session q = session (f p))) ∧
    (leader (f p) = true → session (f p) = n ∧ pgrp (f p) = n)) →
  procs_inv (set_task n f ts).
Proof.
  intros [Hnd Hgr Hnm Hld] Hf Hnew. pose proof (λ q, set_task_elem n f ts q Hnd) as He.
  assert (∀ p p', p ∈ ts → p' ∈ ts → pid p = n → pid p' = n → p = p') as Huniq.
  { intros p p' ? ? Ep Ep'. eapply pid_unique; [done..|]. congruence. }
  split.
  - by rewrite set_task_pids.
  - intros p q [[Hp Np]|(p0 & Hp & Ep & ->)]%He [[Hq Nq]|(q0 & Hq & Eq & ->)]%He H1 E; try done.
    + by apply Hgr.
    + destruct (Hnew q0 Hq Eq) as [Hn _]. destruct (Hn p Hp Np) as (A & _ & _). symmetry. by apply A.
    + destruct (Hnew p0 Hp Ep) as [Hn _]. destruct (Hn q Hq Nq) as (A & _ & _). apply A; congruence.
    + by rewrite (Huniq p0 q0).
  - intros p q [[Hp Np]|(p0 & Hp & Ep & ->)]%He [[Hq Nq]|(q0 & Hq & Eq & ->)]%He H1 E; try done.
    + by apply Hnm.
    + destruct (Hnew q0 Hq Eq) as [Hn _]. destruct (Hn p Hp Np) as (_ & _ & A). rewrite Hf, Eq in E.
      apply A; congruence.
    + destruct (Hnew p0 Hp Ep) as [Hn _]. destruct (Hn q Hq Nq) as (_ & A & _). by apply A.
    + by rewrite (Huniq p0 q0).
  - intros p [[Hp Np]|(p0 & Hp & Ep & ->)]%He Hl; [by apply Hld|].
    rewrite Hf, Ep. by apply (Hnew p0 Hp Ep).
Qed.

Lemma inv_setpgid ts cur n pgid :
  procs_inv ts → cur ∈ ts → procs_inv (sys_setpgid cur n pgid ts).2.
Proof.
  intros Hinv Hcur. unfold sys_setpgid.
  set (n' := if n =? 0 then pid cur else n). set (g := if pgid =? 0 then n' else pgid).
  destruct (g <? 0); [done|]. destruct (find_task n' ts) as [p|] eqn:Ep; [|done].
  apply find_task_Some in Ep as [Hp Ep].
  destruct (if _ || _ then _ else _) as [e|] eqn:Ec; [done|].
  destruct (leader p) eqn:El; [done|]. destruct (_ && _) eqn:Eg; [done|]. cbn [snd].
  pose proof Hinv as [Hnd Hgr Hnm Hld].
  assert (session p = session cur) as Hs.
  { destruct (_ || _).
    - destruct (session p =? session cur) eqn:E; [by apply Z.eqb_eq in E|done].
    - destruct (pid p =? pid cur) eqn:E; [|done]. to_prop. by rewrite (pid_unique ts p cur). }
  apply inv_update; [done|done|]. intros p' Hp' Ep'.
  assert (p' = p) as -> by (eapply pid_unique; [done..|congruence]). cbn.
  assert (g = n' ∨ ∃ t, t ∈ ts ∧ pgrp t = g ∧ session t = session cur) as Hg.
  { destruct (g =? n') eqn:E; to_prop; [by left|right]. cbn in Eg. apply negb_false_iff in Eg.
    apply existsb_exists in Eg as (t & Ht & Et). apply list_elem_of_In in Ht. to_prop. by exists t. }
  split; [|by rewrite El]. intros q Hq Nq. split; [|split].
  - intros H1 E. destruct Hg as [Hg|(t & Ht & Et & Es)].
    + symmetry. apply Hnm; [done|done|done|]. congruence.
    + rewrite Hs, <-Es. apply Hgr; congruence.
  - intros H1 E. destruct Hg as [Hg|(t & Ht & Et & Es)]; [congruence|].
    rewrite Hs, <-Es. apply Hnm; congruence.
  - intros H1 E. apply Hnm; congruence.
Qed.

Lemma inv_setsid ts cur : procs_inv ts → cur ∈ ts → procs_inv (sys_setsid cur ts).2.
Proof.
  intros Hinv Hcur. unfold sys_setsid. destruct (existsb _ ts) eqn:E; [done|]. cbn [snd].
  assert (∀ q, q ∈ ts → pgrp q ≠ pid cur) as Hno.
  { intros q Hq Eq. assert (existsb (λ p, pgrp p =? pid cur) ts = true) as E'; [|congruence].
    apply existsb_exists. exists q. split; [by apply list_elem_of_In|]. by apply Z.eqb_eq. }
  apply inv_update; [done|done|]. intros p Hp Ep. cbn. split; [|done].
  intros q Hq Nq. pose proof (Hno q Hq). split_and!; intros; congruence.
Qed.

(** A change that leaves all group data of the tasks. *)
Lemma inv_keep ts n f :
  procs_inv ts →
  (∀ p, pid (f p) = pid p ∧ pgrp (f p) = pgrp p ∧ session (f p) = session p ∧ leader (f p) = leader p) →
  procs_inv (set_task n f ts).
Proof.
  intros Hinv Hf. apply inv_update; [done|apply Hf|]. intros p Hp Ep.
  destruct (Hf p) as (F1 & F2 & F3 & F4). rewrite F2, F3, F4. destruct Hinv as [Hnd Hgr Hnm Hld].
  split; [|rewrite <-Ep; by apply Hld].
  intros q Hq Nq. split_and!; intros; [apply Hgr; congruence|by apply Hnm|apply Hnm; congruence].
Qed.

(** The invariant only looks at these. *)
Definition ids (p : task) : Z * Z * Z * bool := (pid p, pgrp p, session p, leader p).

Lemma inv_ids ts ts' : ids <$> ts' = ids <$> ts → procs_inv ts → procs_inv ts'.
Proof.
  intros E [Hnd Hgr Hnm Hld].
  assert (∀ p', p' ∈ ts' → ∃ p, p ∈ ts ∧ ids p' = ids p) as Hsub.
  { intros p' Hp'. assert (ids p' ∈ ids <$> ts) as H by (rewrite <-E; by apply list_elem_of_fmap_2).
    apply list_elem_of_fmap in H as (p & ? & ?). by exists p. }
  split.
  - assert (∀ l : list task, pid <$> l = (λ x, x.1.1.1) <$> (ids <$> l)) as Hp.
    { intros l. rewrite <-list_fmap_compose. done. }
    by rewrite Hp, E, <-Hp.
  - intros p' q' (p & Hp & [= _ E2 E3 _])%Hsub (q & Hq & [= _ F2 F3 _])%Hsub H1 H.
    rewrite E3, F3. apply Hgr; congruence.
  - intros p' q' (p & Hp & [= _ E2 E3 _])%Hsub (q & Hq & [= F1 _ F3 _])%Hsub H1 H.
    rewrite E3, F3. apply Hnm; congruence.
  - intros p' (p & Hp & [= E1 E2 E3 E4])%Hsub. rewrite E1, E2, E3, E4. by apply Hld.
Qed.

Lemma set_all_ids cur which who prio ts : ∀ error,
  ids <$> (set_all cur which who prio error ts).2 = ids <$> ts.
Proof.
  induction ts as [|p ts IH]; intros error; [done|]. cbn.
  assert (∃ e x, set_one cur which who prio error p = (e, x) ∧ ids x = ids p) as (e & x & -> & Hx).
  { unfold set_one. repeat case_match; by do 2 eexists. }
  specialize (IH e). destruct (set_all cur which who prio e ts). cbn in *. by rewrite Hx, IH.
Qed.

Lemma inv_setpriority ts cur which who nice :
  procs_inv ts → procs_inv (sys_setpriority cur which who nice ts).2.
Proof.
  unfold sys_setpriority. destruct (_ || _); [done|].
  pose proof (set_all_ids cur which who (nice_priority nice) ts ESRCH) as Hi.
  destruct (set_all _ _ _ _ _ _). cbn in *. by apply inv_ids.
Qed.

Lemma get_pid_free fuel : ∀ last ts n, get_pid fuel last ts = Some n → pid_taken n ts = false.
Proof.
  induction fuel as [|fuel IH]; intros last ts n; cbn; [done|].
  destruct (pid_taken (next_pid last) ts) eqn:E; [apply IH|by intros [= <-]].
Qed.

Lemma pid_taken_false n ts :
  pid_taken n ts = false → ∀ p, p ∈ ts → pid p ≠ n ∧ pgrp p ≠ n ∧ session p ≠ n.
Proof.
  intros H p Hp. apply list_elem_of_In in Hp.
  assert ((pid p =? n) || (pgrp p =? n) || (session p =? n) = false) as E.
  { destruct (_ || _ || _) eqn:E; [|done]. rewrite <-H. symmetry. apply existsb_exists. by exists p. }
  to_prop. done.
Qed.

(** A new task with an unused pid. *)
Lemma inv_new ts t :
  procs_inv ts → pid_taken (pid t) ts = false → leader t = false →
  (pgrp t ≠ 1 → ∃ cur, cur ∈ ts ∧ pgrp t = pgrp cur ∧ session t = session cur) →
  procs_inv (ts ++ [t]).
Proof.
  intros [Hnd Hgr Hnm Hld] Hfree Hl Hcur. pose proof (pid_taken_false _ ts Hfree) as Hn.
  assert (∀ p, p ∈ ts ++ [t] → p ∈ ts ∨ p = t) as Hin.
  { intros p. rewrite elem_of_app, list_elem_of_singleton. done. }
  split.
  - rewrite fmap_app. apply NoDup_app. split; [done|]. split; [|apply NoDup_singleton].
    intros x (p & -> & Hp)%list_elem_of_fmap. cbn. rewrite list_elem_of_singleton.
    by apply Hn.
  - intros p q [Hp| ->]%Hin [Hq| ->]%Hin H1 E; [by apply Hgr| | |done].
    + destruct Hcur as (cur & Hc & Eg & ->); [congruence|]. apply Hgr; congruence.
    + destruct Hcur as (cur & Hc & Eg & ->); [done|]. apply Hgr; congruence.
  - intros p q [Hp| ->]%Hin [Hq| ->]%Hin H1 E; [by apply Hnm| | |done].
    + by destruct (Hn p Hp) as (_ & ? & _).
    + destruct Hcur as (cur & Hc & Eg & ->); [done|]. apply Hnm; congruence.
  - intros p [Hp| ->]%Hin; [by apply Hld|congruence].
Qed.

Lemma inv_exit ts n : procs_inv ts → procs_inv (filter (λ p, pid p ≠ n) ts).
Proof.
  intros [Hnd Hgr Hnm Hld].
  split; [|intros p q [_ ?]%list_elem_of_filter [_ ?]%list_elem_of_filter; by apply Hgr
          |intros p q [_ ?]%list_elem_of_filter [_ ?]%list_elem_of_filter; by apply Hnm
          |intros p [_ ?]%list_elem_of_filter; by apply Hld].
  eapply sublist_NoDup; [exact Hnd|]. apply fmap_sublist, sublist_filter.
Qed.

Lemma inv_step x y : procs_step x y → procs_inv (tasks x) → procs_inv (tasks y).
Proof.
  destruct 1; cbn; intros Hinv.
  - by apply inv_setpgid.
  - by apply inv_setsid.
  - by apply inv_setpriority.
  - apply inv_new; [done|by eapply get_pid_free|done|]. intros _. by exists cur.
  - apply inv_new; [done|by eapply get_pid_free|done|done].
  - by apply inv_exit.
  - by apply inv_keep.
  - by apply inv_keep.
Qed.

(** The [k]-th pid that is tried. *)
Lemma next_pid_eq p : 0 ≤ p < 32768 → next_pid p = p mod 32767 + 1.
Proof.
  intros Hp. unfold next_pid. rewrite u32_id by lia.
  destruct (decide (p = 32767)) as [->|]; [done|].
  assert (Z.land (p + 1) 0xffff8000 = 0) as ->.
  { change 0xffff8000 with (Z.shiftl (Z.ones 17) 15). apply Z.bits_inj'. intros i Hi.
    rewrite Z.land_spec, Z.bits_0, Z.shiftl_spec by lia. destruct (decide (i < 15)).
    - by rewrite (Z.testbit_neg_r _ (i - 15)), andb_false_r by lia.
    - rewrite (Z.bits_above_log2 (p + 1) i); [done|lia|].
      destruct (decide (p + 1 = 1)) as [->|]; [cbn; lia|].
      apply Z.log2_lt_pow2; [lia|]. apply Z.lt_le_trans with (2 ^ 15); [lia|].
      apply Z.pow_le_mono_r; lia. }
  cbn. rewrite Z.mod_small; lia.
Qed.

Definition nth_pid (last : Z) (k : nat) : Z := (last + Z.of_nat k) mod 32767 + 1.

Lemma nth_pid_range last k : 0 < nth_pid last k < 32768.
Proof. unfold nth_pid. pose proof (Z.mod_pos_bound (last + Z.of_nat k) 32767). lia. Qed.

Lemma nth_pid_next last k : next_pid (nth_pid last k) = nth_pid last (S k).
Proof.
  pose proof (nth_pid_range last k). rewrite next_pid_eq by lia. unfold nth_pid.
  rewrite Z.add_mod_idemp_l by lia. do 2 f_equal. lia.
Qed.

Lemma nth_pids_distinct last k n :
  Z.of_nat n ≤ 32767 → NoDup (nth_pid last <$> seq k n).
Proof.
  intros Hn. apply NoDup_fmap_2_strong; [|apply NoDup_seq].
  intros i j Hi%elem_of_seq Hj%elem_of_seq E. unfold nth_pid in E.
  Z.to_euclidean_division_equations. lia.
Qed.

Lemma get_pid_tries fuel last ts : ∀ cur k,
  next_pid cur = nth_pid last k →
  (∃ n, get_pid fuel cur ts = Some n ∧ 0 < n < 32768) ∨
  Forall (λ j, pid_taken (nth_pid last j) ts = true) (seq k fuel).
Proof.
  induction fuel as [|fuel IH]; intros cur k Hk; cbn; [right; constructor|]. rewrite Hk.
  destruct (pid_taken (nth_pid last k) ts) eqn:E; last first.
  { left. eexists. split; [done|]. apply nth_pid_range. }
  destruct (IH (nth_pid last k) (S k) (nth_pid_next _ _)) as [?|?]; [by left|right].
  by constructor.
Qed.

(** The pids a list of tasks takes. *)
Definition taken_pids (ts : list task) : list Z := ts ≫= λ p, [pid p; pgrp p; session p].

Lemma pid_taken_in n ts : pid_taken n ts = true → n ∈ taken_pids ts.
Proof.
  intros H. apply existsb_exists in H as (p & Hp & E). apply list_elem_of_In in Hp.
  apply list_elem_of_bind. exists p. split; [|done]. rewrite !orb_true_iff, !Z.eqb_eq in E.
  rewrite !elem_of_cons. naive_solver.
Qed.

Lemma taken_pids_length ts : length (taken_pids ts) = (3 * length ts)%nat.
Proof. unfold taken_pids. induction ts as [|p ts IH]; [done|]. cbn in *. lia. Qed.

Lemma set_one_safe cur which who prio error p :
  let p' := (set_one cur which who prio error p).2 in
  p' = p ∨ p' = p <| priority := prio |> ∧
    (t_euid cur ≠ 0 → prio ≤ priority p ∧ (t_uid p = t_uid cur ∨ t_uid p = t_euid cur)).
Proof.
  unfold set_one, is_suser. destruct (negb (proc_sel _ _ _ _)); [by left|].
  destruct (t_euid cur =? 0) eqn:Es; to_prop; cbn [negb].
  - rewrite !andb_false_r. by right.
  - rewrite !andb_true_r. destruct (_ && _) eqn:Eu; [by left|].
    destruct (priority p <? prio) eqn:Ep; [by left|]. to_prop. right. split; [done|]. intros _.
    split; [done|]. apply andb_false_iff in Eu as [Eu|Eu]; to_prop; [by right|by left].
Qed.

(** ** Theorems *)

Definition boot_procs : procs := {|
  tasks := [{| pid := 1; pgrp := 0; session := 0; leader := false; did_exec := false;
               p_pptr := 0; p_opptr := 0; t_uid := 0; t_euid := 0; priority := DEF_PRIORITY |}];
  last_pid := 1;
|}.


(** Group 1 does span two sessions: the first process, which is in session 0,
    can make itself a group while a daemon is in group 1 and session 1. *)
Lemma group_one_spans :
  ∃ x p q, rtc procs_step boot_procs x ∧ p ∈ tasks x ∧ q ∈ tasks x ∧ pgrp p = 1 ∧ pgrp q = 1 ∧
    session p ≠ session q.
Proof.
  set (i := MkTask 1 0 0 false false 0 0 0 0 20). set (ts := [i; daemon_of i 2]).
  exists (MkProcs (sys_setpgid i 0 0 ts).2 2), (i <| pgrp := 1 |>), (daemon_of i 2).
  split; [|split; [by left|split; [right; by left|done]]].
  apply (rtc_l _ _ (MkProcs ts 2)); [apply (step_daemon [i] 1 i 3 2); [by left|done]|].
  apply rtc_once, (step_setpgid ts 2 i). by left.
Qed.

Definition first_task : task := MkTask 1 0 0 false false 0 0 0 0 20.




(** a call of [setpriority] gives every task either its old time slice or the
    one of the nice value, which lies between 1 and 40; without privilege it
    raises none, and changes no task of another user. *)
Theorem setpriority_safe cur which who nice ts :
  - 2 ^ 31 ≤ nice < 2 ^ 31 →
  1 ≤ nice_priority nice ≤ 40 ∧
  Forall2 (λ p p', p' = p ∨ p' = p <| priority := nice_priority nice |> ∧
      (t_euid cur ≠ 0 → nice_priority nice ≤ priority p ∧
        (t_uid p = t_uid cur ∨ t_uid p = t_euid cur)))
    ts (sys_setpriority cur which who nice ts).2.
Proof.
  intros Hn. split.
  - unfold nice_priority, DEF_PRIORITY. destruct (0 <=? nice) eqn:E; to_prop.
    + rewrite (proj2 (Z.ltb_ge nice 0)), u32_id by lia.
      destruct (20 <? nice) eqn:E1; to_prop; [done|].
      replace ((nice * 20 + 10) / 20) with nice by (Z.to_euclidean_division_equations; lia).
      case_match; to_prop; lia.
    + rewrite (proj2 (Z.ltb_lt nice 0)), u32_id by lia.
      destruct (20 <? - nice) eqn:E1; to_prop; [done|]. Z.to_euclidean_division_equations; lia.
  - unfold sys_setpriority.
    destruct (_ || _); cbn [snd].
    { apply Forall2_same_length_lookup_2; [done|]. intros i p p' Hp Hp'. left. by simplify_eq. }
    generalize ESRCH. induction ts as [|p ts IH]; intros error; cbn; [constructor|].
    pose proof (set_one_safe cur which who (nice_priority nice) error p) as H1.
    destruct (set_one _ _ _ _ _ _) as [e p']. specialize (IH e).
    destruct (set_all _ _ _ _ e ts) as [e' ts']. cbn in *. by constructor.
Qed.

Lemma setpriority_safe_witness :
  let cur := MkTask 7 7 7 true true 1 1 500 500 20 in
  1 ≤ nice_priority (-5) ≤ 40 ∧
  Forall2 (λ p p', p' = p ∨ p' = p <| priority := nice_priority (-5) |> ∧
      (500 ≠ 0 → nice_priority (-5) ≤ priority p ∧ (t_uid p = 500 ∨ t_uid p = 500)))
    [cur] (sys_setpriority cur 0 0 (-5) [cur]).2.
Proof. apply (setpriority_safe (MkTask 7 7 7 true true 1 1 500 500 20)). lia. Defined.
