(* ===== verification/Pipe.v ===== *)
(** * Pipe: pipes and FIFOs

    Models fs/pipe.c with include/linux/pipe_fs_i.h: reading, writing, select
    and ioctl on a pipe, opening and releasing its ends.

    A pipe is a page used as a ring from [start], [len] bytes long.  A process
    that has to wait sleeps: [naps] says what the others do to the pipe during
    each sleep and whether a signal is pending after it; a process whose naps
    are used up is still asleep.  Copying to and from the caller's memory is
    done with the pipe locked, so that nobody else comes in between.  The SIGPIPE
    sent with EPIPE, the inode's times and the wake-ups are left out; [do_pipe]
    and its inode and descriptors are not modelled. *)

From S2P Require Import Prelude.

(** ** Code *)

Definition PIPE_BUF : Z := 4096.
Definition EPIPE : Z := 32.
Definition ESPIPE : Z := 29.
Definition EBADF : Z := 9.
Definition ERESTARTSYS : Z := 512.
Definition FIONREAD : Z := 0x541B.
Definition FMODE_READ : Z := 1.
Definition FMODE_WRITE : Z := 2.

Inductive sel_type := SEL_IN | SEL_OUT | SEL_EX.

Record pipe := MkPipe {
  base : list Z;
  start : Z; len : Z; plock : Z;
  readers : Z; writers : Z;
}.

#[global] Instance eta_pipe : Eta pipe := λ x,
  MkPipe (base x) (start x) (len x) (plock x) (readers x) (writers x).

Definition PIPE_EMPTY (p : pipe) : bool := len p =? 0.
Definition PIPE_FULL (p : pipe) : bool := len p =? PIPE_BUF.
Definition PIPE_FREE (p : pipe) : Z := PIPE_BUF - len p.
Definition PIPE_END (p : pipe) : Z := Z.land (start p + len p) (PIPE_BUF - 1).
Definition PIPE_MAX_RCHUNK (p : pipe) : Z := PIPE_BUF - start p.
Definition PIPE_MAX_WCHUNK (p : pipe) : Z := PIPE_BUF - PIPE_END p.

Record nap := MkNap { nap_env : pipe → pipe; nap_signal : bool }.

(** How a wait for the pipe ends: the call returns, goes on, or sleeps. *)
Inductive waited :=
| Give (r : Z) (p : pipe)
| Go (signal : bool) (naps : list nap) (p : pipe)
| Sleeping (p : pipe).

(** The loop that waits until the pipe has data and is not locked. *)
Fixpoint read_wait (signal : bool) (naps : list nap) (p : pipe) : waited :=
  if PIPE_EMPTY p || negb (plock p =? 0) then
    if PIPE_EMPTY p && (writers p =? 0) then Give 0 p
    else if signal then Give (- ERESTARTSYS) p
    else
      match naps with
      | [] => Sleeping p
      | n :: naps' => read_wait (nap_signal n) naps' (nap_env n p)
      end
  else Go signal naps p.

(** The loop that copies out, in at most two pieces. *)
Fixpoint read_loop (fuel : nat) (count : Z) (p : pipe) : out pipe (list Z) :=
  match fuel with
  | O => Stuck OutOfFuel p
  | S fuel' =>
      let size := len p in
      if (0 <? count) && negb (size =? 0) then
        let chars := PIPE_MAX_RCHUNK p in
        let chars := if count <? chars then count else chars in
        let chars := if size <? chars then size else chars in
        let data := take (Z.to_nat chars) (drop (Z.to_nat (start p)) (base p)) in
        let p := p <| start := Z.land (start p + chars) (PIPE_BUF - 1) |> <| len := len p - chars |> in
        match read_loop fuel' (count - chars) p with
        | Ret rest p => Ret (data ++ rest) p
        | Stuck w p => Stuck w p
        end
      else Ret [] p
  end.

(** What is copied to the caller goes with the result. *)
Definition pipe_read (nonblock signal : bool) (naps : list nap) (count : Z) : M pipe (Z * list Z) := λ p,
  let wait :=
    if nonblock then
      if negb (plock p =? 0) then Give (- EAGAIN) p
      else if PIPE_EMPTY p then
        if negb (writers p =? 0) then Give (- EAGAIN) p else Give 0 p
      else Go signal naps p
    else read_wait signal naps p in
  match wait with
  | Give r p => Ret (r, []) p
  | Sleeping p => Stuck Asleep p
  | Go _ _ p =>
      let p := p <| plock := plock p + 1 |> in
      match read_loop 3 count p with
      | Stuck w p => Stuck w p
      | Ret data p =>
          let p := p <| plock := plock p - 1 |> in
          let read := Z.of_nat (length data) in
          if negb (read =? 0) then Ret (read, data) p
          else if negb (writers p =? 0) then Ret (- EAGAIN, []) p
          else Ret (0, []) p
      end
  end.

(** The loop that waits until the pipe has [free] bytes left and is not locked. *)
Fixpoint write_wait (nonblock signal : bool) (naps : list nap) (free written : Z) (p : pipe) : waited :=
  let or_err e := if negb (written =? 0) then written else - e in
  if (PIPE_FREE p <? free) || negb (plock p =? 0) then
    if readers p =? 0 then Give (or_err EPIPE) p
    else if signal then Give (or_err ERESTARTSYS) p
    else if nonblock then Give (or_err EAGAIN) p
    else
      match naps with
      | [] => Sleeping p
      | n :: naps' => write_wait nonblock (nap_signal n) naps' free written (nap_env n p)
      end
  else Go signal naps p.

(** The loop that copies in: the number of bytes copied. *)
Fixpoint write_loop (fuel : nat) (buf : list Z) (p : pipe) : out pipe Z :=
  match fuel with
  | O => Stuck OutOfFuel p
  | S fuel' =>
      let count := Z.of_nat (length buf) in
      let free := PIPE_FREE p in
      if (0 <? count) && negb (free =? 0) then
        let chars := PIPE_MAX_WCHUNK p in
        let chars := if count <? chars then count else chars in
        let chars := if free <? chars then free else chars in
        let e := Z.to_nat (PIPE_END p) in
        let c := Z.to_nat chars in
        let p := p <| base := take e (base p) ++ take c buf ++ drop (e + c) (base p) |>
                   <| len := len p + chars |> in
        match write_loop fuel' (drop c buf) p with
        | Ret n p => Ret (chars + n) p
        | Stuck w p => Stuck w p
        end
      else Ret 0 p
  end.

(** [while (count>0)]: one round for each time the pipe can be written to. *)
Fixpoint write_rounds (fuel : nat) (nonblock : bool) (signal : bool) (naps : list nap)
    (free written : Z) (buf : list Z) (p : pipe) : out pipe Z :=
  match fuel with
  | O => Stuck OutOfFuel p
  | S fuel' =>
      if 0 <? Z.of_nat (length buf) then
        match write_wait nonblock signal naps free written p with
        | Give r p => Ret r p
        | Sleeping p => Stuck Asleep p
        | Go signal naps p =>
            let p := p <| plock := plock p + 1 |> in
            match write_loop 3 buf p with
            | Stuck w p => Stuck w p
            | Ret n p =>
                let p := p <| plock := plock p - 1 |> in
                write_rounds fuel' nonblock signal naps 1 (written + n) (drop (Z.to_nat n) buf) p
            end
        end
      else Ret written p
  end.

(** Each round writes at least a byte. *)
Definition pipe_write (nonblock signal : bool) (naps : list nap) (buf : list Z) : M pipe Z := λ p,
  if readers p =? 0 then Ret (- EPIPE) p
  else
    let count := Z.of_nat (length buf) in
    let free := if count <=? PIPE_BUF then count else 1 in
    write_rounds (S (length buf)) nonblock signal naps free 0 buf p.

Definition pipe_lseek : Z := - ESPIPE.
Definition bad_pipe_r : Z := - EBADF.
Definition bad_pipe_w : Z := - EBADF.

(** The result and the number stored for the caller. *)
Definition pipe_ioctl (va : Z → Z) (cmd : Z) (p : pipe) : Z * option Z :=
  if cmd =? FIONREAD then
    let error := va 4 in
    if error =? 0 then (error, Some (len p)) else (error, None)
  else (- EINVAL, None).

Definition pipe_select (s : sel_type) (p : pipe) : bool :=
  match s with
  | SEL_IN => negb (PIPE_EMPTY p) || (writers p =? 0)
  | SEL_OUT => PIPE_EMPTY p || (readers p =? 0)
  | SEL_EX => (readers p =? 0) || (writers p =? 0)
  end.

(** The second result says that the file becomes an ordinary reading one. *)
Definition connect_read (nonblock signal : bool) (naps : list nap) (count : Z) (p : pipe) :
    out pipe (Z * list Z) * bool :=
  if PIPE_EMPTY p && (writers p =? 0) then (Ret (0, []) p, false)
  else (pipe_read nonblock signal naps count p, true).

Definition connect_select (s : sel_type) (p : pipe) : bool * bool :=
  match s with
  | SEL_IN => if negb (PIPE_EMPTY p) then (true, true) else (false, negb (writers p =? 0))
  | SEL_OUT => (negb (PIPE_FULL p), false)
  | SEL_EX => ((readers p =? 0) || (writers p =? 0), false)
  end.

Definition pipe_read_release (p : pipe) : pipe := p <| readers := readers p - 1 |>.
Definition pipe_write_release (p : pipe) : pipe := p <| writers := writers p - 1 |>.

Definition pipe_rdwr_release (mode : Z) (p : pipe) : pipe :=
  let p := if has mode FMODE_READ then p <| readers := readers p - 1 |> else p in
  if has mode FMODE_WRITE then p <| writers := writers p - 1 |> else p.

Definition pipe_read_open (p : pipe) : Z * pipe := (0, p <| readers := readers p + 1 |>).
Definition pipe_write_open (p : pipe) : Z * pipe := (0, p <| writers := writers p + 1 |>).

Definition pipe_rdwr_open (mode : Z) (p : pipe) : Z * pipe :=
  let p := if has mode FMODE_READ then p <| readers := readers p + 1 |> else p in
  (0, if has mode FMODE_WRITE then p <| writers := writers p + 1 |> else p).

(** ** Specification: a pipe is a bounded queue of bytes *)

(** The [i]-th byte from the start. *)
Definition cell (p : pipe) (i : nat) : Z :=
  nth (Z.to_nat ((start p + Z.of_nat i) mod PIPE_BUF)) (base p) 0.

Definition content (p : pipe) : list Z := cell p <$> seq 0 (Z.to_nat (len p)).

Record pipe_ok (p : pipe) : Prop := {
  po_base : Z.of_nat (length (base p)) = PIPE_BUF;
  po_start : 0 ≤ start p < PIPE_BUF;
  po_len : 0 ≤ len p ≤ PIPE_BUF;
}.

(** What the naps of a sleeping process make of the pipe, up to some nap. *)
Inductive after : list nap → pipe → pipe → Prop :=
| after_now naps p : after naps p p
| after_nap n naps p q : after naps (nap_env n p) q → after (n :: naps) p q.

Definition nap_ok (n : nap) : Prop := ∀ p, pipe_ok p → pipe_ok (nap_env n p).

(** The queue a pipe stands for, and the operations of processes that do not
    wait, on the pipe and on the queue. *)
Record queue := MkQueue { qbytes : list Z; qreaders : Z; qwriters : Z }.

#[global] Instance eta_queue : Eta queue := λ x, MkQueue (qbytes x) (qreaders x) (qwriters x).

Definition abs (p : pipe) : queue := MkQueue (content p) (readers p) (writers p).

Inductive op :=
| OWrite (buf : list Z)
| ORead (count : Z)
| OAvail
| OSelect (s : sel_type)
| OOpen (mode : Z)
| ORelease (mode : Z).

Definition op_ok (o : op) : Prop := match o with ORead count => 0 ≤ count | _ => True end.

Definition do_op (o : op) : M pipe (Z * list Z) := λ p,
  match o with
  | OWrite buf =>
      match pipe_write true false [] buf p with Ret r p => Ret (r, []) p | Stuck w p => Stuck w p end
  | ORead count => pipe_read true false [] count p
  | OAvail => let '(r, n) := pipe_ioctl (λ _, 0) FIONREAD p in Ret (r, option_list n) p
  | OSelect s => Ret (Z.b2z (pipe_select s p), []) p
  | OOpen mode => let '(r, p) := pipe_rdwr_open mode p in Ret (r, []) p
  | ORelease mode => Ret (0, []) (pipe_rdwr_release mode p)
  end.

Definition q_op (o : op) (q : queue) : Z * list Z * queue :=
  let n := Z.of_nat (length (qbytes q)) in
  match o with
  | OWrite buf =>
      let count := Z.of_nat (length buf) in
      if qreaders q =? 0 then (- EPIPE, [], q)
      else if count <=? PIPE_BUF - n then (count, [], q <| qbytes := qbytes q ++ buf |>)
      else if (count <=? PIPE_BUF) || (n =? PIPE_BUF) then (- EAGAIN, [], q)
      else (PIPE_BUF - n, [], q <| qbytes := qbytes q ++ take (Z.to_nat (PIPE_BUF - n)) buf |>)
  | ORead count =>
      match take (Z.to_nat count) (qbytes q) with
      | [] => (if qwriters q =? 0 then 0 else - EAGAIN, [], q)
      | data => (Z.of_nat (length data), data, q <| qbytes := drop (Z.to_nat count) (qbytes q) |>)
      end
  | OAvail => (0, [n], q)
  | OSelect SEL_IN => (Z.b2z ((0 <? n) || (qwriters q =? 0)), [], q)
  | OSelect SEL_OUT => (Z.b2z ((n =? 0) || (qreaders q =? 0)), [], q)
  | OSelect SEL_EX => (Z.b2z ((qreaders q =? 0) || (qwriters q =? 0)), [], q)
  | OOpen mode =>
      (0, [], q <| qreaders := qreaders q + Z.b2z (has mode FMODE_READ) |>
                <| qwriters := qwriters q + Z.b2z (has mode FMODE_WRITE) |>)
  | ORelease mode =>
      (0, [], q <| qreaders := qreaders q - Z.b2z (has mode FMODE_READ) |>
                <| qwriters := qwriters q - Z.b2z (has mode FMODE_WRITE) |>)
  end.

Fixpoint do_ops (os : list op) (p : pipe) : out pipe (list (Z * list Z)) :=
  match os with
  | [] => Ret [] p
  | o :: os =>
      match do_op o p with
      | Stuck w p => Stuck w p
      | Ret r p => match do_ops os p with Ret rs p => Ret (r :: rs) p | Stuck w p => Stuck w p end
      end
  end.

Fixpoint q_ops (os : list op) (q : queue) : list (Z * list Z) * queue :=
  match os with
  | [] => ([], q)
  | o :: os => let '(r, q) := q_op o q in let '(rs, q) := q_ops os q in (r :: rs, q)
  end.

(** ** Lemmas *)

Lemma mask_mod x : Z.land x (PIPE_BUF - 1) = x mod PIPE_BUF.
Proof. change (PIPE_BUF - 1) with (Z.ones 12). by rewrite Z.land_ones. Qed.

Lemma length_content p : length (content p) = Z.to_nat (len p).
Proof. unfold content. by rewrite length_fmap, length_seq. Qed.

Lemma lookup_content p i :
  content p !! i = if decide (i < Z.to_nat (len p))%nat then Some (cell p i) else None.
Proof.
  unfold content. rewrite list_lookup_fmap. case_decide.
  - by rewrite lookup_seq_lt.
  - by rewrite lookup_seq_ge by lia.
Qed.

(** One piece is copied out. *)
Lemma read_chunk p c :
  pipe_ok p → 0 ≤ c → c ≤ len p → c ≤ PIPE_BUF - start p →
  let p' := p <| start := Z.land (start p + c) (PIPE_BUF - 1) |> <| len := len p - c |> in
  take (Z.to_nat c) (drop (Z.to_nat (start p)) (base p)) = take (Z.to_nat c) (content p) ∧
  content p' = drop (Z.to_nat c) (content p) ∧ pipe_ok p'.
Proof.
  intros [Hb Hs Hl] H0 Hc1 Hc2 p'. split; [|split].
  - apply list_eq. intros i. destruct (decide (i < Z.to_nat c)%nat); last first.
    { rewrite !lookup_take_ge by lia. done. }
    rewrite !lookup_take_lt, lookup_drop, lookup_content by lia. rewrite decide_True by lia.
    unfold cell. rewrite Z.mod_small by lia.
    destruct (lookup_lt_is_Some_2 (base p) (Z.to_nat (start p) + i)) as [x Hx]; [lia|].
    rewrite Hx. f_equal. symmetry. apply nth_lookup_Some. rewrite <-Hx. f_equal. lia.
  - apply list_eq. intros i. rewrite lookup_drop, !lookup_content. cbn [len start base upd p'].
    destruct (decide (i < Z.to_nat (len p - c))%nat).
    + rewrite decide_True by lia. f_equal. unfold cell. cbn [len start base upd p'].
      rewrite mask_mod, Z.add_mod_idemp_l by done.
      by replace (start p + Z.of_nat (Z.to_nat c + i)) with (start p + c + Z.of_nat i) by lia.
    + by rewrite decide_False by lia.
  - subst p'. split; cbn; [done| |lia]. rewrite mask_mod. by apply Z.mod_pos_bound.
Qed.

(** Storing [data] at [e] of a list changes nothing outside. *)
Lemma nth_splice_ne (l data : list Z) e k :
  (e + length data ≤ length l)%nat → (k < e ∨ e + length data ≤ k)%nat →
  nth k (take e l ++ data ++ drop (e + length data) l) 0 = nth k l 0.
Proof.
  intros Hl Hk. destruct (decide (k < e)%nat).
  - rewrite app_nth1 by (rewrite length_take; lia). rewrite !nth_lookup, lookup_take_lt by done. done.
  - rewrite app_nth2 by (rewrite length_take; lia). rewrite length_take_le by lia.
    rewrite app_nth2 by lia. rewrite !nth_lookup, lookup_drop. do 2 f_equal. lia.
Qed.

Lemma nth_splice_eq (l data : list Z) e j :
  (e ≤ length l)%nat → (j < length data)%nat →
  nth (e + j) (take e l ++ data ++ drop (e + length data) l) 0 = nth j data 0.
Proof.
  intros Hl Hj. rewrite app_nth2 by (rewrite length_take; lia). rewrite length_take_le by lia.
  rewrite app_nth1 by lia. f_equal. lia.
Qed.

(** The part of the ring behind the content does not meet it. *)
Lemma splice_outside s n c i (e := (s + n) mod 4096) :
  0 ≤ s < 4096 → 0 ≤ i < n → n + c ≤ 4096 → c ≤ 4096 - e → 0 ≤ c →
  (s + i) mod 4096 < e ∨ e + c ≤ (s + i) mod 4096.
Proof. subst e. intros. Z.to_euclidean_division_equations. lia. Qed.

Lemma ring_index s n c i (e := (s + n) mod PIPE_BUF) :
  0 ≤ s < PIPE_BUF → 0 ≤ n ≤ i → i < n + c → c ≤ PIPE_BUF - e → (s + i) mod PIPE_BUF = e + (i - n).
Proof. subst e. unfold PIPE_BUF. intros. Z.to_euclidean_division_equations. lia. Qed.

(** One piece is copied in. *)
Lemma write_chunk p data (c := Z.of_nat (length data)) (e := Z.to_nat (PIPE_END p)) :
  pipe_ok p → c ≤ PIPE_FREE p → c ≤ PIPE_MAX_WCHUNK p →
  let p' := p <| base := take e (base p) ++ data ++ drop (e + length data) (base p) |>
              <| len := len p + c |> in
  content p' = content p ++ data ∧ pipe_ok p'.
Proof.
  intros [Hb Hs Hl] Hc1 Hc2 p'. unfold PIPE_FREE, PIPE_MAX_WCHUNK, PIPE_END in *. subst e c.
  rewrite mask_mod in *. set (e := (start p + len p) mod PIPE_BUF) in *.
  assert (0 ≤ e < PIPE_BUF) as He by (by apply Z.mod_pos_bound). split.
  - apply list_eq. intros i. rewrite lookup_content. cbn [len start base upd p'].
    destruct (decide (i < length (content p))%nat) as [Hi|Hi]; rewrite length_content in Hi.
    + rewrite lookup_app_l, lookup_content by (by rewrite length_content).
      rewrite !decide_True by lia. f_equal. unfold cell. cbn [len start base upd p']. rewrite !mask_mod. fold e.
      apply nth_splice_ne; [lia|].
      pose proof (splice_outside (start p) (len p) (Z.of_nat (length data)) (Z.of_nat i)) as Ho.
      pose proof (Z.mod_pos_bound (start p + Z.of_nat i) 4096).
      unfold PIPE_BUF in *. subst e. lia.
    + rewrite lookup_app_r, length_content by (rewrite length_content; lia).
      case_decide; [|symmetry; apply lookup_ge_None; lia].
      destruct (lookup_lt_is_Some_2 data (i - Z.to_nat (len p))) as [x Hx]; [lia|]. rewrite Hx.
      f_equal. rewrite <-(nth_lookup_Some _ _ 0 _ Hx). unfold cell. cbn [len start base upd p']. rewrite !mask_mod. fold e.
      rewrite <-(nth_splice_eq (base p) data (Z.to_nat e)) by lia. f_equal.
      rewrite (ring_index (start p) (len p) (Z.of_nat (length data)) (Z.of_nat i)) by (unfold PIPE_BUF in *; lia).
      fold e. lia.
  - subst p'. split; cbn; [|done|lia].
    rewrite !mask_mod, !length_app, length_take, length_drop. fold e. lia.
Qed.

(** The two pipes differ in their content only. *)
Definition same_ends (p p' : pipe) : Prop :=
  plock p' = plock p ∧ readers p' = readers p ∧ writers p' = writers p.

Lemma same_ends_trans p q r : same_ends p q → same_ends q r → same_ends p r.
Proof. unfold same_ends. intuition congruence. Qed.

(** The number of bytes of the next piece, out and in. *)
Definition rchunk (count : Z) (p : pipe) : Z :=
  Z.min (len p) (Z.min count (PIPE_MAX_RCHUNK p)).
Definition wchunk (count : Z) (p : pipe) : Z :=
  Z.min (PIPE_FREE p) (Z.min count (PIPE_MAX_WCHUNK p)).

Lemma read_loop_stop fuel count p :
  pipe_ok p → Z.min count (len p) ≤ 0 → read_loop (S fuel) count p = Ret [] p.
Proof.
  intros [_ _ Hl] Hc. cbn [read_loop].
  destruct (0 <? count) eqn:E1, (len p =? 0) eqn:E2; to_prop; cbn [andb negb]; done || lia.
Qed.

Lemma read_loop_step fuel count p (c := rchunk count p) :
  pipe_ok p → 0 < count → len p ≠ 0 →
  ∃ p', read_loop (S fuel) count p =
      (match read_loop fuel (count - c) p' with
       | Ret rest q => Ret (take (Z.to_nat c) (content p) ++ rest) q
       | Stuck w q => Stuck w q
       end) ∧
    pipe_ok p' ∧ content p' = drop (Z.to_nat c) (content p) ∧ same_ends p p' ∧
    start p' = (start p + c) mod PIPE_BUF ∧ len p' = len p - c.
Proof.
  intros Hp Hc Hn. pose proof Hp as [Hb Hs Hl]. cbn [read_loop].
  rewrite (proj2 (Z.ltb_lt 0 count)), (proj2 (Z.eqb_neq _ 0)) by done. cbn [andb negb].
  set (x := if count <? PIPE_MAX_RCHUNK p then count else PIPE_MAX_RCHUNK p).
  assert ((if len p <? x then len p else x) = c) as ->.
  { subst x c. unfold rchunk. repeat case_match; to_prop; lia. }
  destruct (read_chunk p c) as (H1 & H2 & H3); [done|..]; try (subst c; unfold rchunk, PIPE_MAX_RCHUNK; lia).
  eexists. split; [rewrite H1; reflexivity|]. split; [exact H3|]. split; [exact H2|].
  split; [done|]. split; [cbn; apply mask_mod|done].
Qed.

Lemma read_loop_one fuel count p :
  pipe_ok p → 0 ≤ count → Z.min count (len p) ≤ PIPE_MAX_RCHUNK p →
  ∃ p', read_loop (S (S fuel)) count p = Ret (take (Z.to_nat count) (content p)) p' ∧
    pipe_ok p' ∧ content p' = drop (Z.to_nat count) (content p) ∧ same_ends p p'.
Proof.
  intros Hp Hc Hm. pose proof Hp as [Hb Hs Hl]. pose proof (length_content p) as HL.
  destruct (decide (Z.min count (len p) ≤ 0)) as [H0|H0].
  { exists p. rewrite read_loop_stop by done.
    destruct (decide (count = 0)) as [->|]; [by rewrite take_0, drop_0|].
    rewrite (nil_length_inv (content p)) by lia. by rewrite take_nil, drop_nil. }
  destruct (read_loop_step (S fuel) count p) as (p1 & -> & Hp1 & Hc1 & Hs1 & _ & Hl1); [done|lia..|].
  set (c := rchunk count p) in *.
  assert (c = Z.min count (len p)) as Ec by (subst c; unfold rchunk; lia).
  rewrite read_loop_stop by (done || lia). exists p1. rewrite app_nil_r, Hc1, Ec.
  split_and!; [f_equal|done| |done].
  - destruct (decide (count ≤ len p)); [do 2 f_equal; lia|]. rewrite !take_ge by lia. done.
  - destruct (decide (count ≤ len p)); [do 2 f_equal; lia|]. rewrite !drop_ge by lia. done.
Qed.

(** The loop takes as much as there is, up to [count]. *)
Lemma read_loop_spec count p :
  pipe_ok p → 0 ≤ count →
  ∃ p', read_loop 3 count p = Ret (take (Z.to_nat count) (content p)) p' ∧
    pipe_ok p' ∧ content p' = drop (Z.to_nat count) (content p) ∧ same_ends p p'.
Proof.
  intros Hp Hc. destruct (decide (Z.min count (len p) ≤ PIPE_MAX_RCHUNK p)).
  { by apply read_loop_one. }
  pose proof Hp as [Hb Hs Hl]. unfold PIPE_MAX_RCHUNK in *.
  destruct (read_loop_step 2 count p) as (p1 & -> & Hp1 & Hc1 & Hs1 & Hst & Hl1); [done|lia..|].
  set (c := rchunk count p) in *.
  assert (c = PIPE_BUF - start p) as Ec by (subst c; unfold rchunk, PIPE_MAX_RCHUNK; lia).
  assert (start p1 = 0) as Hst0.
  { rewrite Hst, Ec. replace (start p + (PIPE_BUF - start p)) with PIPE_BUF by lia. done. }
  destruct (read_loop_one 0 (count - c) p1) as (p2 & -> & Hp2 & Hc2 & Hs2); [done|lia| |].
  { unfold PIPE_MAX_RCHUNK. lia. }
  exists p2. rewrite Hc2, Hc1, drop_drop. split_and!; [f_equal|done|f_equal; lia|].
  - replace (Z.to_nat count) with (Z.to_nat c + Z.to_nat (count - c))%nat by lia.
    by rewrite <-take_take_drop.
  - by eapply same_ends_trans.
Qed.

Lemma write_loop_stop fuel buf p :
  pipe_ok p → buf = [] ∨ PIPE_FREE p = 0 → write_loop (S fuel) buf p = Ret 0 p.
Proof.
  intros [_ _ Hl] [->|Hc]; [done|]. cbn [write_loop]. rewrite Hc. by rewrite andb_false_r.
Qed.

Lemma write_loop_step fuel buf p (c := wchunk (Z.of_nat (length buf)) p) :
  pipe_ok p → buf ≠ [] → PIPE_FREE p ≠ 0 →
  ∃ p', write_loop (S fuel) buf p =
      (match write_loop fuel (drop (Z.to_nat c) buf) p' with
       | Ret n q => Ret (c + n) q
       | Stuck w q => Stuck w q
       end) ∧
    pipe_ok p' ∧ content p' = content p ++ take (Z.to_nat c) buf ∧ same_ends p p' ∧
    start p' = start p ∧ len p' = len p + c.
Proof.
  intros Hp Hb Hn. pose proof Hp as [_ Hs Hl]. cbn [write_loop].
  assert (0 < Z.of_nat (length buf)) as Hc by (destruct buf; [done|cbn; lia]).
  rewrite (proj2 (Z.ltb_lt 0 _)), (proj2 (Z.eqb_neq _ 0)) by done. cbn [andb negb].
  set (x := if _ <? PIPE_MAX_WCHUNK p then _ else PIPE_MAX_WCHUNK p).
  assert ((if PIPE_FREE p <? x then PIPE_FREE p else x) = c) as ->.
  { subst x c. unfold wchunk. repeat case_match; to_prop; lia. }
  assert (0 ≤ c ≤ Z.of_nat (length buf)) as Hcb.
  { subst c. unfold wchunk, PIPE_FREE, PIPE_MAX_WCHUNK, PIPE_END in *. rewrite mask_mod.
    pose proof (Z.mod_pos_bound (start p + len p) PIPE_BUF). unfold PIPE_BUF in *. lia. }
  assert (length (take (Z.to_nat c) buf) = Z.to_nat c) as Ht by (apply length_take_le; lia).
  destruct (write_chunk p (take (Z.to_nat c) buf)) as (H1 & H2); [done|..].
  1,2: rewrite Ht; subst c; unfold wchunk in *; lia.
  rewrite Ht, Z2Nat.id in H1, H2 by lia.
  eexists. split; [reflexivity|]. split; [exact H2|]. split; [exact H1|]. done.
Qed.

Lemma write_loop_one fuel buf p (n := Z.min (Z.of_nat (length buf)) (PIPE_FREE p)) :
  pipe_ok p → n ≤ PIPE_MAX_WCHUNK p →
  ∃ p', write_loop (S (S fuel)) buf p = Ret n p' ∧
    pipe_ok p' ∧ content p' = content p ++ take (Z.to_nat n) buf ∧ same_ends p p'.
Proof.
  intros Hp Hm. pose proof Hp as [Hb Hs Hl].
  destruct (decide (n = 0)) as [H0|H0].
  { exists p. rewrite H0, take_0, app_nil_r, write_loop_stop; [done..|]. subst n.
    destruct buf; cbn in *; [by left|right; lia]. }
  destruct (write_loop_step (S fuel) buf p) as (p1 & -> & Hp1 & Hc1 & Hs1 & _ & Hl1); [done|..].
  { intros ->. apply H0. subst n. unfold PIPE_FREE, PIPE_BUF in *. cbn. lia. }
  { intros E. apply H0. subst n. lia. }
  set (c := wchunk _ p) in *. assert (c = n) as Ec by (subst c n; unfold wchunk; lia).
  rewrite Ec in *. rewrite write_loop_stop; [|done|].
  { exists p1. rewrite Z.add_0_r. done. }
  unfold PIPE_FREE in *. destruct (decide (n = Z.of_nat (length buf))); [left|right; lia].
  apply drop_ge. lia.
Qed.

(** The loop stores as much as there is room for. *)
Lemma write_loop_spec buf p (n := Z.min (Z.of_nat (length buf)) (PIPE_FREE p)) :
  pipe_ok p →
  ∃ p', write_loop 3 buf p = Ret n p' ∧
    pipe_ok p' ∧ content p' = content p ++ take (Z.to_nat n) buf ∧ same_ends p p'.
Proof.
  intros Hp. destruct (decide (n ≤ PIPE_MAX_WCHUNK p)) as [|Hn]; [by apply write_loop_one|].
  pose proof Hp as [Hb Hs Hl].
  assert (0 ≤ PIPE_END p < PIPE_BUF) as He.
  { unfold PIPE_END. rewrite mask_mod. by apply Z.mod_pos_bound. }
  unfold PIPE_MAX_WCHUNK in Hn.
  destruct (write_loop_step 2 buf p) as (p1 & -> & Hp1 & Hc1 & Hs1 & Hst & Hl1); [done|..].
  { intros ->. unfold PIPE_FREE, PIPE_BUF in *. cbn in n. lia. }
  { intros E. lia. }
  set (c := wchunk _ p) in *.
  assert (c = PIPE_BUF - PIPE_END p) as Ec by (subst c; unfold wchunk, PIPE_MAX_WCHUNK; lia).
  assert (PIPE_END p1 = 0) as He1.
  { unfold PIPE_END in *. rewrite mask_mod in *. rewrite Hst, Hl1, Ec. unfold PIPE_BUF.
    clear. Z.to_euclidean_division_equations. lia. }
  destruct (write_loop_one 0 (drop (Z.to_nat c) buf) p1) as (p2 & -> & Hp2 & Hc2 & Hs2); [done|..].
  { unfold PIPE_MAX_WCHUNK, PIPE_FREE in *. rewrite He1, length_drop. unfold PIPE_BUF in *. lia. }
  unfold PIPE_FREE in *. rewrite length_drop in *.
  assert (Z.min (Z.of_nat (length buf - Z.to_nat c)) (PIPE_BUF - len p1) = n - c) as En by lia.
  rewrite En in *. exists p2.
  split_and!; [f_equal; lia|done| |by eapply same_ends_trans].
  rewrite Hc2, Hc1, <-app_assoc. f_equal.
  replace (Z.to_nat n) with (Z.to_nat c + Z.to_nat (n - c))%nat by lia.
  by rewrite <-take_take_drop.
Qed.

Lemma write_wait_spec nonblock signal naps free written p :
  pipe_ok p → Forall nap_ok naps →
  match write_wait nonblock signal naps free written p with
  | Give r q => after naps p q ∧ pipe_ok q ∧
      ∃ e, e ∈ [EPIPE; ERESTARTSYS; EAGAIN] ∧ r = if written =? 0 then - e else written
  | Go _ naps' q => after naps p q ∧ pipe_ok q ∧ Forall nap_ok naps' ∧ free ≤ PIPE_FREE q ∧ plock q = 0
  | Sleeping q => after naps p q ∧ pipe_ok q
  end.
Proof.
  intros Hp Hn. revert signal p Hp. induction Hn as [|n naps Hn1 Hn IH]; intros signal p Hp; cbn [write_wait].
  all: destruct (_ || _) eqn:E; [|apply orb_false_iff in E as [E1 E2]; to_prop;
    split_and!; [apply after_now|done|done||by constructor|lia|done]].
  all: assert (∀ e, (if negb (written =? 0) then written else - e) = if written =? 0 then - e else written)
    as He by (intros; by destruct (written =? 0)).
  all: destruct (readers p =? 0); [split_and!; [apply after_now|done|exists EPIPE; split; [set_solver|done]]|].
  all: destruct signal; [split_and!; [apply after_now|done|exists ERESTARTSYS; split; [set_solver|done]]|].
  all: destruct nonblock; [split_and!; [apply after_now|done|exists EAGAIN; split; [set_solver|done]]|].
  - split; [apply after_now|done].
  - specialize (IH (nap_signal n) (nap_env n p) (Hn1 _ Hp)).
    destruct (write_wait _ _ _ _ _ _); destruct IH as [H1 H2]; split; try done; by constructor.
Qed.

Lemma pipe_ok_lock p n : pipe_ok p → pipe_ok (p <| plock := n |>).
Proof. by intros [? ? ?]. Qed.

(** A round stores what fits, with the pipe locked meanwhile. *)
Lemma round_spec buf q (n := Z.min (Z.of_nat (length buf)) (PIPE_FREE q)) :
  pipe_ok q →
  ∃ p', (match write_loop 3 buf (q <| plock := plock q + 1 |>) with
         | Ret n p => Ret n (p <| plock := plock p - 1 |>)
         | Stuck w p => Stuck w p
         end) = Ret n p' ∧
    pipe_ok p' ∧ content p' = content q ++ take (Z.to_nat n) buf ∧ same_ends q p'.
Proof.
  intros Hq. destruct (write_loop_spec buf (q <| plock := plock q + 1 |>)) as (p' & H1 & H2 & H3 & H4 & H5).
  { by apply pipe_ok_lock. }
  rewrite H1. eexists. split; [reflexivity|]. split; [by apply pipe_ok_lock|]. split; [exact H3|].
  split; [|exact H5]. cbn in *. lia.
Qed.

Lemma write_rounds_step fuel nonblock signal naps free written buf p :
  buf ≠ [] →
  write_rounds (S fuel) nonblock signal naps free written buf p =
    match write_wait nonblock signal naps free written p with
    | Give r p => Ret r p
    | Sleeping p => Stuck Asleep p
    | Go signal naps q =>
        match (match write_loop 3 buf (q <| plock := plock q + 1 |>) with
               | Ret n p => Ret n (p <| plock := plock p - 1 |>)
               | Stuck w p => Stuck w p
               end) with
        | Ret n p => write_rounds fuel nonblock signal naps 1 (written + n) (drop (Z.to_nat n) buf) p
        | Stuck w p => Stuck w p
        end
    end.
Proof.
  intros Hb. cbn [write_rounds]. destruct buf; [done|]. cbn [length Z.of_nat Z.ltb Z.compare].
  destruct (write_wait _ _ _ _ _ _) as [| |]; [done| |done]. by destruct (write_loop _ _ _).
Qed.

Lemma write_rounds_nil fuel nonblock signal naps free written p :
  write_rounds (S fuel) nonblock signal naps free written [] p = Ret written p.
Proof. done. Qed.

(** Each round stores a byte, so there are no more rounds than bytes. *)
Lemma write_rounds_spec fuel nonblock signal naps free written buf p :
  pipe_ok p → Forall nap_ok naps → 1 ≤ free → 0 ≤ written → (length buf < fuel)%nat →
  match write_rounds fuel nonblock signal naps free written buf p with
  | Ret r p' => pipe_ok p' ∧ (written ≤ r ≤ written + Z.of_nat (length buf) ∨
      written = 0 ∧ ∃ e, e ∈ [EPIPE; ERESTARTSYS; EAGAIN] ∧ r = - e)
  | Stuck w p' => w = Asleep ∧ pipe_ok p'
  end.
Proof.
  revert signal naps free written buf p.
  induction fuel as [|fuel IH]; intros signal naps free written buf p Hp Hn Hf Hw Hl; [lia|].
  destruct (decide (buf = [])) as [->|Hb]; [rewrite write_rounds_nil; split; [done|left; cbn; lia]|].
  rewrite write_rounds_step by done.
  pose proof (write_wait_spec nonblock signal naps free written p Hp Hn) as Hwait.
  destruct (write_wait _ _ _ _ _ _) as [r q|sg naps' q|q].
  - destruct Hwait as (_ & Hq & e & He & ->). split; [done|].
    destruct (written =? 0) eqn:E; to_prop; [right; eauto|left; lia].
  - destruct Hwait as (_ & Hq & Hn' & Hfree & _).
    destruct (round_spec buf q Hq) as (p' & -> & Hp' & _).
    set (n := Z.min _ _). assert (1 ≤ n ≤ Z.of_nat (length buf)) as Hn1.
    { subst n. destruct buf; [done|]. cbn [length] in *. lia. }
    specialize (IH sg naps' 1 (written + n) (drop (Z.to_nat n) buf) p').
    rewrite length_drop in IH. specialize (IH Hp' Hn' ltac:(lia) ltac:(lia) ltac:(lia)).
    destruct (write_rounds _ _ _ _ _ _ _ _); [|done].
    destruct IH as [? [?|[? _]]]; (split; [done|left; lia]).
  - by destruct Hwait.
Qed.

(** A write that does not wait does to the pipe what it does to the queue. *)
Lemma write_refines buf p :
  pipe_ok p → plock p = 0 →
  ∃ r d p', do_op (OWrite buf) p = Ret (r, d) p' ∧ q_op (OWrite buf) (abs p) = (r, d, abs p') ∧
    pipe_ok p' ∧ plock p' = 0.
Proof.
  intros Hp Hk. pose proof Hp as [_ _ Hl]. cbn [do_op q_op abs qbytes qreaders].
  rewrite length_content, Z2Nat.id by lia. unfold pipe_write.
  destruct (readers p =? 0) eqn:Hrd; [by eexists _, _, p|].
  destruct (decide (buf = [])) as [->|Hb].
  { cbn [length]. change (Z.of_nat 0) with 0. rewrite (proj2 (Z.leb_le 0 (PIPE_BUF - len p))) by lia.
    eexists _, _, p. rewrite app_nil_r. done. }
  rewrite write_rounds_step by done. cbn [write_wait]. rewrite Hk, orb_false_r. unfold PIPE_FREE.
  set (n := Z.of_nat (length buf)). assert (1 ≤ n) as Hn1 by (subst n; destruct buf; [done|cbn; lia]).
  destruct (round_spec buf p Hp) as (p' & Hr & Hp' & Hc & Hs). unfold PIPE_FREE in *. fold n in Hr, Hc.
  assert (abs p' = (abs p) <| qbytes := content p' |>) as Ha.
  { destruct Hs as (_ & H1 & H2). unfold abs. cbn. by rewrite H1, H2. }
  assert (plock p' = 0) as Hk' by (destruct Hs; congruence).
  assert ((PIPE_BUF - len p <? (if n <=? PIPE_BUF then n else 1)) =
    negb (n <=? PIPE_BUF - len p) && ((n <=? PIPE_BUF) || (len p =? PIPE_BUF))) as ->.
  { destruct (n <=? PIPE_BUF) eqn:E1; cbn [orb]; [by rewrite andb_true_r, Z.leb_antisym, negb_involutive|].
    apply eq_true_iff_eq. to_prop.
    rewrite andb_true_iff, negb_true_iff, Z.ltb_lt, Z.leb_gt, Z.eqb_eq. lia. }
  destruct (n <=? PIPE_BUF - len p) eqn:E1; cbn [negb andb]; to_prop.
  { rewrite Hr, Z.min_l in * by lia. subst n. rewrite Nat2Z.id in *. rewrite drop_all, firstn_all in *.
    destruct (length buf) eqn:E; [destruct buf; done|]. rewrite write_rounds_nil.
    eexists _, _, p'. split; [done|]. by rewrite Ha, Hc. }
  destruct ((n <=? PIPE_BUF) || (len p =? PIPE_BUF)) eqn:E2; [rewrite (proj2 (Z.eqb_neq _ _) Hrd); by eexists _, _, p|].
  apply orb_false_iff in E2 as [E2 E3]. to_prop. rewrite Hr, Z.min_r in * by lia.
  destruct (length buf) as [|m] eqn:E; [lia|].
  assert (drop (Z.to_nat (PIPE_BUF - len p)) buf ≠ []) as Hd.
  { intros H%(f_equal length). rewrite length_drop in H. cbn in H. lia. }
  rewrite write_rounds_step by done. cbn [write_wait].
  assert (PIPE_FREE p' = 0) as ->.
  { pose proof (length_content p') as HL. pose proof Hp' as [_ _ ?].
    rewrite Hc, length_app, length_content, length_take in HL. unfold PIPE_FREE. lia. }
  rewrite orb_true_l, (proj1 (proj2 Hs)), (proj2 (Z.eqb_neq _ _) Hrd), Z.add_0_l.
  rewrite (proj2 (Z.eqb_neq (PIPE_BUF - len p) 0)) by lia.
  eexists _, _, p'. split; [done|]. by rewrite Ha, Hc.
Qed.

(** So does a read. *)
Lemma read_refines count p :
  pipe_ok p → plock p = 0 → 0 ≤ count →
  ∃ r d p', do_op (ORead count) p = Ret (r, d) p' ∧ q_op (ORead count) (abs p) = (r, d, abs p') ∧
    pipe_ok p' ∧ plock p' = 0.
Proof.
  intros Hp Hk Hc. cbn [do_op q_op abs qbytes qwriters]. unfold pipe_read, PIPE_EMPTY. rewrite Hk.
  cbn [Z.eqb negb]. pose proof (length_content p) as HL. destruct (len p =? 0) eqn:E; to_prop.
  { rewrite (nil_length_inv (content p)) by lia. rewrite take_nil.
    destruct (writers p =? 0); by eexists _, _, p. }
  destruct (read_loop_spec count (p <| plock := plock p + 1 |>)) as (p1 & H1 & Hp1 & Hc1 & Hs); [by apply pipe_ok_lock|done|].
  rewrite H1. clear H1. destruct Hs as (Hs1 & Hs2 & Hs3). change (content (p <| plock := plock p + 1 |>)) with (content p) in *.
  cbn [plock readers writers upd] in Hs1, Hs2, Hs3.
  set (p2 := p1 <| plock := plock p1 - 1 |>).
  assert (abs p2 = (abs p) <| qbytes := drop (Z.to_nat count) (content p) |>) as Ha.
  { unfold abs. change (content p2) with (content p1). cbn. by rewrite Hc1, Hs2, Hs3. }
  assert (plock p2 = 0) as Hk2 by (cbn; lia).
  assert (pipe_ok p2) as Hp2 by (by apply pipe_ok_lock).
  change (writers p2) with (writers p1). rewrite Hs3.
  destruct (take (Z.to_nat count) (content p)) as [|x data] eqn:Ed; cbn [length].
  - assert (drop (Z.to_nat count) (content p) = content p) as Hd.
    { rewrite <-(take_drop (Z.to_nat count) (content p)) at 2. by rewrite Ed. }
    rewrite Hd in Ha. destruct (writers p =? 0); eexists _, _, p2; (split; [reflexivity|]); by rewrite Ha.
  - eexists _, _, p2. split; [reflexivity|]. by rewrite Ha.
Qed.

Lemma op_refines o p :
  op_ok o → pipe_ok p → plock p = 0 →
  ∃ r d p', do_op o p = Ret (r, d) p' ∧ q_op o (abs p) = (r, d, abs p') ∧ pipe_ok p' ∧ plock p' = 0.
Proof.
  intros Ho Hp Hk. pose proof (length_content p) as HL. pose proof Hp as [Hb Hst Hl].
  destruct o as [buf|count| |s|mode|mode].
  - by apply write_refines.
  - by apply read_refines.
  - eexists _, _, p. split; [reflexivity|]. cbn [q_op abs qbytes]. rewrite HL, Z2Nat.id by lia. done.
  - eexists _, _, p. split; [reflexivity|]. split; [|done]. cbn [q_op abs qbytes]. rewrite HL, Z2Nat.id by lia.
    destruct s; cbn [pipe_select qwriters qreaders]; [|done..]. unfold PIPE_EMPTY.
    do 4 f_equal. apply eq_true_iff_eq. rewrite negb_true_iff, Z.ltb_lt, Z.eqb_neq. lia.
  - cbn [do_op q_op]. unfold pipe_rdwr_open. eexists _, _, _. split; [reflexivity|]. unfold abs.
    destruct (has mode FMODE_READ), (has mode FMODE_WRITE); cbn [Z.b2z]; rewrite ?Z.add_0_r; by destruct p.
  - cbn [do_op q_op]. unfold pipe_rdwr_release. eexists _, _, _. split; [reflexivity|]. unfold abs.
    destruct (has mode FMODE_READ), (has mode FMODE_WRITE); cbn [Z.b2z]; rewrite ?Z.sub_0_r; by destruct p.
Qed.

(** ** Theorems *)

(** C15: Whatever the other processes do while it waits, a write of any size ends
    or is still asleep, and one of at most PIPE_BUF bytes is atomic: it stores
    all of its bytes behind one another, in a pipe that had room for them and
    was not locked, and returns their number; or it stores none and returns an
    error. *)
Theorem pipe_write_atomic nonblock signal naps buf p :
  pipe_ok p → Forall nap_ok naps →
  match pipe_write nonblock signal naps buf p with
  | Ret r p' => pipe_ok p' ∧ r ≤ Z.of_nat (length buf)
  | Stuck w p' => w = Asleep ∧ pipe_ok p'
  end ∧
  (buf ≠ [] → Z.of_nat (length buf) ≤ PIPE_BUF →
   ∃ q, after naps p q ∧ pipe_ok q ∧
    match pipe_write nonblock signal naps buf p with
    | Ret r p' =>
        (r = Z.of_nat (length buf) ∧ plock q = 0 ∧ content p' = content q ++ buf ∧ same_ends q p') ∨
        (r ∈ [- EPIPE; - ERESTARTSYS; - EAGAIN] ∧ p' = q)
    | Stuck w p' => w = Asleep ∧ p' = q
    end).
Proof.
  intros Hp Hn. unfold pipe_write. destruct (readers p =? 0).
  { split; [split; [done|unfold EPIPE; lia]|]. intros. exists p. split; [apply after_now|].
    split; [done|]. right. split; [set_solver|done]. }
  set (free := if Z.of_nat (length buf) <=? PIPE_BUF then Z.of_nat (length buf) else 1). split.
  { destruct (decide (buf = [])) as [->|Hb]; [done|].
    assert (1 ≤ free) as Hf by (subst free; destruct buf; [done|]; case_match; cbn; lia).
    pose proof (write_rounds_spec (S (length buf)) nonblock signal naps free 0 buf p
      Hp Hn Hf ltac:(lia) ltac:(lia)) as H.
    destruct (write_rounds _ _ _ _ _ _ _ _); [|done].
    destruct H as [? [?|(_ & e & He & ->)]]; (split; [done|]); [lia|].
    unfold EPIPE, ERESTARTSYS, EAGAIN in He. rewrite !elem_of_cons, elem_of_nil in He. lia. }
  intros Hb Hlen. subst free. rewrite (proj2 (Z.leb_le _ _) Hlen), write_rounds_step by done.
  pose proof (write_wait_spec nonblock signal naps (Z.of_nat (length buf)) 0 p Hp Hn) as Hwait.
  destruct (write_wait _ _ _ _ _ _) as [r q|sg naps' q|q].
  - destruct Hwait as (Ha & Hq & e & He & ->). exists q. split; [done|]. split; [done|]. right.
    split; [|done]. cbn. set_solver.
  - destruct Hwait as (Ha & Hq & Hn' & Hfree & Hlock). exists q. split; [done|]. split; [done|].
    destruct (round_spec buf q Hq) as (p' & -> & Hp' & Hc & Hs).
    rewrite Z.min_l in * by lia. rewrite Nat2Z.id in *. rewrite drop_all, firstn_all in *.
    destruct (length buf) eqn:E; [destruct buf; done|]. rewrite write_rounds_nil. left. done.
  - destruct Hwait. by exists q.
Qed.

(** C14: A pipe is a bounded queue of bytes with counts of readers and writers:
    under any sequence of writes, reads, inquiries, opens and releases by
    processes that do not wait, every operation returns what it returns on the
    queue, and no byte is lost, repeated or put out of order. *)
Theorem pipe_refines_queue os p :
  pipe_ok p → plock p = 0 → Forall op_ok os →
  ∃ rs p', do_ops os p = Ret rs p' ∧ q_ops os (abs p) = (rs, abs p') ∧ pipe_ok p' ∧ plock p' = 0.
Proof.
  intros Hp Hk Ho. revert p Hp Hk. induction Ho as [|o os Ho _ IH]; intros p Hp Hk.
  { by exists [], p. }
  destruct (op_refines o p Ho Hp Hk) as (r & d & p1 & H1 & H2 & Hp1 & Hk1).
  destruct (IH p1 Hp1 Hk1) as (rs & p2 & H3 & H4 & Hp2 & Hk2).
  exists ((r, d) :: rs), p2. cbn [do_ops q_ops]. by rewrite H1, H2, H3, H4.
Qed.

(** ** Witnesses *)

(** A pipe whose only byte is near the end of the page. *)
Definition sample_pipe : pipe := MkPipe (replicate 4096 7) 4094 1 0 1 1.

Lemma sample_pipe_ok : pipe_ok sample_pipe.
Proof. by split. Qed.

(** The pipe is locked when the writer comes, and has been emptied and unlocked
    when it wakes up. *)
Lemma pipe_write_atomic_witness :
  let naps := [MkNap (λ p, p <| plock := 0 |> <| len := 0 |>) false] in
  let p := sample_pipe <| plock := 1 |> in
  ∃ q, after naps p q ∧ pipe_ok q ∧
    match pipe_write false false naps [1; 2; 3; 4] p with
    | Ret r p' =>
        (r = 4 ∧ plock q = 0 ∧ content p' = content q ++ [1; 2; 3; 4] ∧ same_ends q p') ∨
        (r ∈ [- EPIPE; - ERESTARTSYS; - EAGAIN] ∧ p' = q)
    | Stuck w p' => w = Asleep ∧ p' = q
    end.
Proof.
  intros naps p. apply (pipe_write_atomic false false naps [1; 2; 3; 4] p); [by split| |done|done].
  constructor; [|constructor]. intros p' [? ? ?]. by split.
Defined.

Lemma pipe_refines_queue_witness :
  let os := [OWrite [1; 2; 3]; ORead 2; OAvail; OOpen 2; ORelease 1; OWrite [5]; ORead 9; ORead 1] in
  ∃ rs p', do_ops os sample_pipe = Ret rs p' ∧ q_ops os (abs sample_pipe) = (rs, abs p') ∧
    rs = [(3, []); (2, [7; 1]); (0, [2]); (0, []); (0, []); (- EPIPE, []); (2, [2; 3]); (- EAGAIN, [])].
Proof.
  intros os. destruct (pipe_refines_queue os sample_pipe) as (rs & p' & H1 & H2 & _).
  - apply sample_pipe_ok.
  - done.
  - repeat constructor; done.
  - exists rs, p'. split_and!; [exact H1|exact H2|]. apply (f_equal fst) in H2. vm_compute in H2. by rewrite <-H2.
Defined.
