(* ===== verification/PageAlloc.v ===== *)
(** * PageAlloc: the page allocator

    Models the buddy system of mm/page_alloc.c, [free_area_init], and the part
    of arch/i386/mm/init.c that hands the memory over to it at boot.

    The queues of free blocks are doubly linked through the entries of
    [mem_map], with the queue heads in [free_area] at their ends: the model
    keeps the pointers, with the entry of page [n] at [n] and the head of the
    queue of order [o] at [memory_head o].  The bitmaps are integers of
    [area_bits] bits.  [try_to_free_page] is arbitrary: [tries] says what it
    makes of memory each time it succeeds.  The swap cache and the waiters for
    buffers, which [free_pages] tells, are not modelled. *)

From stdpp Require Import gmap.
From S2P Require Import Prelude.

(** ** Code *)

Definition NR_MEM_LISTS : nat := 6.
Definition PG_DMA : Z := 7.
Definition PG_reserved : Z := 31.
Definition PAGE_SHIFT : Z := 12.
Definition GFP_BUFFER : Z := 0.
Definition GFP_ATOMIC : Z := 1.
Definition GFP_NFS : Z := 5.
Definition GFP_IO : Z := 6.

Record page := MkPage { pg_flags : Z; pg_count : Z; pg_age : Z }.

Record free_area_struct := MkArea { area_map : Z; area_bits : Z }.

Record mm := MkMm {
  pnext : gmap Z Z; pprev : gmap Z Z;
  free_area : list free_area_struct;
  mem_map : list page;
  nr_free_pages : Z; min_free_pages : Z;
  high_memory : Z;
  page_initial_age : Z;
  intr_count : Z; gfp_count : Z;
}.

#[global] Instance eta_page : Eta page := λ x, MkPage (pg_flags x) (pg_count x) (pg_age x).
#[global] Instance eta_area : Eta free_area_struct := λ x, MkArea (area_map x) (area_bits x).
#[global] Instance eta_mm : Eta mm := λ x,
  MkMm (pnext x) (pprev x) (free_area x) (mem_map x) (nr_free_pages x) (min_free_pages x)
    (high_memory x) (page_initial_age x) (intr_count x) (gfp_count x).

Definition memory_head (order : nat) : Z := - 1 - Z.of_nat order.

(** Pointers that were never set are null. *)
Definition ld (f : mm → gmap Z Z) (p : Z) : M mm Z := λ s,
  match f s !! p with
  | Some q => Ret q s
  | None => Stuck NullDeref s
  end.
Definition set_next (p q : Z) : M mm unit := modify (λ s, s <| pnext := <[p := q]> (pnext s) |>).
Definition set_prev (p q : Z) : M mm unit := modify (λ s, s <| pprev := <[p := q]> (pprev s) |>).

Definition page_of (n : Z) : M mm page := λ s,
  match mem_map s !! Z.to_nat n with
  | Some p => Ret p s
  | None => Stuck OutOfBounds s
  end.
Definition set_page (n : Z) (f : page → page) : M mm unit :=
  modify (λ s, s <| mem_map := alter f (Z.to_nat n) (mem_map s) |>).

(** [change_bit]: flips the bit and returns what it was. *)
Definition change_bit (nr : Z) (order : nat) : M mm bool := λ s,
  match free_area s !! order with
  | Some a =>
      if (0 <=? nr) && (nr <? area_bits a) then
        Ret (Z.testbit (area_map a) nr)
          (s <| free_area := <[order := a <| area_map := Z.lxor (area_map a) (2 ^ nr) |>]> (free_area s) |>)
      else Stuck OutOfBounds s
  | None => Stuck OutOfBounds s
  end.

Definition init_mem_queue (order : nat) : M mm unit :=
  set_next (memory_head order) (memory_head order) ;;
  set_prev (memory_head order) (memory_head order).

Definition add_mem_queue (order : nat) (entry : Z) : M mm unit :=
  let head := memory_head order in
  next ← ld pnext head;
  set_prev entry head ;;
  set_next entry next ;;
  set_prev next entry ;;
  set_next head entry.

Definition remove_mem_queue (entry : Z) : M mm unit :=
  next ← ld pnext entry;
  prev ← ld pprev entry;
  set_prev next prev ;;
  set_next prev next.

(** [while (mask + (1 << (NR_MEM_LISTS-1)))], and the [add_mem_queue] after it. *)
Fixpoint free_loop (fuel : nat) (area : nat) (index mask map_nr : Z) : M mm unit :=
  match fuel with
  | O => halt OutOfFuel
  | S fuel' =>
      if u32 (mask + Z.shiftl 1 (Z.of_nat NR_MEM_LISTS - 1)) =? 0 then add_mem_queue area map_nr
      else
        old ← change_bit index area;
        if negb old then add_mem_queue area map_nr
        else
          remove_mem_queue (Z.lxor map_nr (u32 (- mask))) ;;
          let mask := u32 (Z.shiftl mask 1) in
          free_loop fuel' (S area) (Z.shiftr index 1) mask (Z.land map_nr mask)
  end.

Definition free_pages_ok (map_nr : Z) (order : nat) : M mm unit :=
  let index := Z.shiftr map_nr (1 + Z.of_nat order) in
  let mask := u32 (Z.shiftl (2 ^ 32 - 1) (Z.of_nat order)) in
  let map_nr := Z.land map_nr mask in
  modify (λ s, s <| nr_free_pages := s32 (nr_free_pages s - mask) |>) ;;
  free_loop NR_MEM_LISTS order index mask map_nr.

(** [!PageReserved(page) && atomic_dec_and_test(&page->count)] *)
Definition last_reference (map_nr : Z) : M mm bool :=
  map ← page_of map_nr;
  if Z.testbit (pg_flags map) PG_reserved then mret false
  else
    set_page map_nr (λ p, p <| pg_count := s32 (pg_count p - 1) |>) ;;
    mret (s32 (pg_count map - 1) =? 0).

Definition __free_page (map_nr : Z) : M mm unit :=
  b ← last_reference map_nr;
  when b (free_pages_ok map_nr 0).

Definition free_pages (addr : Z) (order : nat) : M mm unit :=
  let map_nr := Z.shiftr addr PAGE_SHIFT in
  high ← gets high_memory;
  when (map_nr <? Z.shiftr high PAGE_SHIFT) (
    b ← last_reference map_nr;
    when b (free_pages_ok map_nr order)).

(** EXPAND: the lower halves go back to the queues. *)
Fixpoint expand_loop (high_low : nat) (low : nat) (size index : Z) : M mm Z :=
  match high_low with
  | O => mret index
  | S k =>
      let high := (low + k)%nat in
      let size := Z.shiftr size 1 in
      add_mem_queue high index ;;
      change_bit (Z.shiftr index (1 + Z.of_nat high)) high ;;
      expand_loop k low size (index + size)
  end.

Definition expand (index : Z) (low high : nat) : M mm Z :=
  index ← expand_loop (high - low) low (Z.shiftl 1 (Z.of_nat high)) index;
  age ← gets page_initial_age;
  page_of index ;;
  set_page index (λ p, p <| pg_count := 1 |> <| pg_age := age |>) ;;
  mret index.

(** The walk along a queue: the first entry that can be used and the one
    before it. *)
Fixpoint rm_walk (fuel : nat) (dma : bool) (head prev : Z) : M mm (option (Z * Z)) :=
  match fuel with
  | O => halt OutOfFuel
  | S fuel' =>
      ret ← ld pnext prev;
      if ret =? head then mret None
      else
        p ← page_of ret;
        if negb dma || Z.testbit (pg_flags p) PG_DMA then mret (Some (prev, ret))
        else rm_walk fuel' dma head ret
  end.

(** RMQUEUE, from [new_order] on. *)
Fixpoint rmqueue (fuel : nat) (order new_order : nat) (dma : bool) : M mm (option Z) :=
  match fuel with
  | O => halt OutOfFuel
  | S fuel' =>
      len ← gets (λ s, length (mem_map s));
      found ← rm_walk (S len) dma (memory_head new_order) (memory_head new_order);
      match found with
      | Some (prev, ret) =>
          let map_nr := ret in
          next ← ld pnext ret;
          set_next prev next ;;
          set_prev next prev ;;
          change_bit (Z.shiftr map_nr (1 + Z.of_nat new_order)) new_order ;;
          modify (λ s, s <| nr_free_pages := s32 (nr_free_pages s - Z.shiftl 1 (Z.of_nat order)) |>) ;;
          map_nr ← expand map_nr order new_order;
          mret (Some map_nr)
      | None =>
          if (S new_order <? NR_MEM_LISTS)%nat then rmqueue fuel' order (S new_order) dma
          else mret None
      end
  end.

Definition ADDRESS (x : Z) : Z := u32 (Z.shiftl x PAGE_SHIFT).

(** From [repeat] on. *)
Fixpoint gfp_loop (tries : list (mm → mm)) (priority reserved_pages : Z) (order : nat) (dma : bool) :
    M mm Z :=
  free ← gets nr_free_pages;
  if (priority =? GFP_ATOMIC) || (reserved_pages <? free) then
    r ← rmqueue NR_MEM_LISTS order order dma;
    mret (match r with Some map_nr => ADDRESS map_nr | None => 0 end)
  else if priority =? GFP_BUFFER then mret 0
  else
    match tries with
    | [] => mret 0
    | t :: tries' => modify t ;; gfp_loop tries' priority reserved_pages order dma
    end.

(** The priority the request is made with: after some warnings a request from
    an interrupt keeps its own. *)
Definition gfp_priority (priority : Z) : M mm Z :=
  intr ← gets intr_count;
  if negb (intr =? 0) && negb (priority =? GFP_ATOMIC) then
    modify (λ s, s <| gfp_count := s32 (gfp_count s + 1) |>) ;;
    count ← gets gfp_count;
    mret (if count <? 5 then GFP_ATOMIC else priority)
  else mret priority.

Definition reserve (priority min_free : Z) : Z :=
  let reserved_pages := if negb (priority =? GFP_NFS) then min_free else 5 in
  if ((priority =? GFP_BUFFER) || (priority =? GFP_IO)) && (48 <=? reserved_pages)
  then reserved_pages - (12 + Z.shiftr reserved_pages 3) else reserved_pages.

Definition __get_free_pages (tries : list (mm → mm)) (priority : Z) (order : nat) (dma : bool) :
    M mm Z :=
  if (NR_MEM_LISTS <=? order)%nat then mret 0
  else
    priority ← gfp_priority priority;
    min_free ← gets min_free_pages;
    gfp_loop tries priority (reserve priority min_free) order dma.

(** *** Initialisation *)

Definition LONG_ALIGN (x : Z) : Z := Z.land (u32 (x + 4 - 1)) (u32 (Z.lnot (4 - 1))).
Definition sizeof_page : Z := 52.

(** The loop over the queues: the bitmaps lie behind one another. *)
Fixpoint init_areas (orders : list nat) (start_mem end_mem mask : Z) : M mm Z :=
  match orders with
  | [] => mret start_mem
  | i :: orders' =>
      init_mem_queue i ;;
      let mask := u32 (mask + mask) in
      let end_mem := Z.land (u32 (end_mem + u32 (Z.lnot mask))) mask in
      let bitmap_size := Z.shiftr end_mem (PAGE_SHIFT + Z.of_nat i) in
      let bitmap_size := Z.shiftr (u32 (bitmap_size + 7)) 3 in
      let bitmap_size := LONG_ALIGN bitmap_size in
      modify (λ s, s <| free_area := <[i := MkArea 0 (8 * bitmap_size)]> (free_area s) |>) ;;
      init_areas orders' (u32 (start_mem + bitmap_size)) end_mem mask
  end.

Definition free_area_init (init_swap_cache : Z → Z → Z) (start_mem end_mem : Z) : M mm Z :=
  let i := Z.shiftr end_mem (PAGE_SHIFT + 7) in
  let i := if i <? 24 then 24 else i in
  let i := i + 24 in
  modify (λ s, s <| min_free_pages := i |>) ;;
  let start_mem := init_swap_cache start_mem end_mem in
  let n := Z.shiftr end_mem PAGE_SHIFT in
  modify (λ s, s <| mem_map := replicate (Z.to_nat n) (MkPage (2 ^ PG_DMA + 2 ^ PG_reserved) 0 0) |>
                 <| pnext := ∅ |> <| pprev := ∅ |>
                 <| free_area := replicate NR_MEM_LISTS (MkArea 0 0) |>) ;;
  let start_mem := LONG_ALIGN (start_mem + n * sizeof_page) in
  init_areas (seq 0 NR_MEM_LISTS) start_mem end_mem (u32 (Z.lnot (2 ^ PAGE_SHIFT - 1))).

Definition clear_flag (bit : Z) (p : page) : page := p <| pg_flags := clr (pg_flags p) (2 ^ bit) |>.

(** [while (start < end) { clear_bit(PG_reserved, ...); start += PAGE_SIZE; }] on
    page numbers. *)
Fixpoint clear_reserved (fuel : nat) (start end_ : Z) : M mm unit :=
  match fuel with
  | O => halt OutOfFuel
  | S fuel' =>
      if start <? end_ then
        page_of start ;;
        set_page start (clear_flag PG_reserved) ;;
        clear_reserved fuel' (start + 1) end_
      else mret tt
  end.

(** [for (tmp = 0 ; tmp < high_memory ; tmp += PAGE_SIZE)] on page numbers. *)
Fixpoint release_all (fuel : nat) (n high : Z) : M mm unit :=
  match fuel with
  | O => halt OutOfFuel
  | S fuel' =>
      if n <? high then
        page_of n ;;
        when (2 ^ 12 <=? n) (set_page n (clear_flag PG_DMA)) ;;
        p ← page_of n;
        when (negb (Z.testbit (pg_flags p) PG_reserved)) (
          set_page n (λ p, p <| pg_count := 1 |>) ;;
          free_pages (ADDRESS n) 0) ;;
        release_all fuel' (n + 1) high
      else mret tt
  end.

(** Without an initial ramdisk. *)
Definition mem_init (start_mem end_mem : Z) : M mm unit :=
  let end_mem := Z.land end_mem (u32 (Z.lnot (2 ^ PAGE_SHIFT - 1))) in
  modify (λ s, s <| high_memory := end_mem |>) ;;
  let high := Z.shiftr end_mem PAGE_SHIFT in
  let start := Z.shiftr (u32 (start_mem + 2 ^ PAGE_SHIFT - 1)) PAGE_SHIFT in
  clear_reserved (S 0x9f) 1 0x9f ;;
  clear_reserved (S (Z.to_nat high)) start high ;;
  release_all (S (Z.to_nat high)) 0 high.
