(* ===== verification/PageAllocFacts.v ===== *)
(** * PageAllocFacts: the buddy system keeps its promises

    The queues of [PageAlloc] hold disjoint, aligned, maximal blocks, which the
    bitmaps agree with.  Allocation takes a block out of them that was free and
    fails only if there is none; freeing puts it back; after boot exactly the
    pages that are not reserved are free. *)

From stdpp Require Import gmap.
From S2P Require Import Prelude PageAlloc.

(** ** Specification *)

(** The pointers from [a] along [l] to [b], and back. *)
Fixpoint linked (nx pv : gmap Z Z) (a : Z) (l : list Z) (b : Z) : Prop :=
  match l with
  | [] => nx !! a = Some b ∧ pv !! b = Some a
  | x :: l' => nx !! a = Some x ∧ pv !! x = Some a ∧ linked nx pv x l' b
  end.

(** The queues hold the lists [qs]. *)
Record queues_ok (nx pv : gmap Z Z) (qs : nat → list Z) : Prop := {
  qo_link : ∀ o, (o < 6)%nat → linked nx pv (memory_head o) (qs o) (memory_head o);
  qo_nodup : ∀ o, (o < 6)%nat → NoDup (qs o);
  qo_pos : ∀ o n, (o < 6)%nat → n ∈ qs o → 0 ≤ n;
  qo_disj : ∀ o o' n, (o < 6)%nat → (o' < 6)%nat → n ∈ qs o → n ∈ qs o' → o = o';
}.

Definition qset (qs : nat → list Z) (o : nat) (l : list Z) : nat → list Z :=
  λ o', if decide (o' = o) then l else qs o'.

(** ** Linked queues *)

Lemma linked_frame nx pv nx' pv' a l b :
  (∀ k, k ∈ a :: l → nx' !! k = nx !! k) → (∀ k, k ∈ l ++ [b] → pv' !! k = pv !! k) →
  linked nx pv a l b → linked nx' pv' a l b.
Proof.
  revert a. induction l as [|x l IH]; intros a Hn Hp; cbn [linked].
  - rewrite Hn, Hp by set_solver. done.
  - rewrite Hn, Hp by set_solver. intros (H1 & H2 & H3). split_and!; [done..|].
    apply IH; [| |done]; intros k Hk; [apply Hn|apply Hp]; set_solver.
Qed.

Lemma linked_app nx pv a l1 x l2 b :
  linked nx pv a (l1 ++ x :: l2) b ↔ linked nx pv a l1 x ∧ linked nx pv x l2 b.
Proof.
  revert a. induction l1 as [|y l1 IH]; intros a; cbn [linked app]; [tauto|].
  rewrite IH. tauto.
Qed.

Lemma linked_add nx pv h l e :
  linked nx pv h l h → e ∉ h :: l → NoDup (h :: l) →
  ∃ next, nx !! h = Some next ∧ next ∈ l ++ [h] ∧
    linked (<[h := e]> (<[e := next]> nx)) (<[next := e]> (<[e := h]> pv)) h (e :: l) h.
Proof.
  intros Hl He Hnd. destruct l as [|x l]; cbn [linked] in *.
  - destruct Hl as [H1 H2]. exists h. split; [done|]. split; [set_solver|].
    assert (e ≠ h) by set_solver. by simplify_map_eq.
  - destruct Hl as (H1 & H2 & H3). exists x. split; [done|]. split; [set_solver|].
    assert (e ≠ h ∧ e ≠ x ∧ h ≠ x) as (? & ? & ?) by (inversion_clear Hnd; set_solver).
    simplify_map_eq. split_and!; [done..|].
    eapply linked_frame; [| |exact H3]; intros k Hk.
    + assert (k ≠ e ∧ k ≠ h) as [? ?] by (inversion_clear Hnd; set_solver). by simplify_map_eq.
    + assert (k ≠ e ∧ k ≠ x) as [? ?].
      { inversion_clear Hnd as [|? ? Hh Hnd']. inversion_clear Hnd'. set_solver. }
      by simplify_map_eq.
Qed.

(** The end of a list can be moved to another entry. *)
Lemma linked_retarget nx pv a l b c :
  linked nx pv a l b → NoDup (a :: l) → c ∉ l →
  ∃ z, pv !! b = Some z ∧ z ∈ a :: l ∧ linked (<[z := c]> nx) (<[c := z]> pv) a l c.
Proof.
  revert a. induction l as [|x l IH]; intros a Hl Hnd Hc; cbn [linked] in Hl.
  - destruct Hl as [H1 H2]. exists a. split; [done|]. split; [set_solver|].
    cbn. by simplify_map_eq.
  - destruct Hl as (H1 & H2 & H3). inversion_clear Hnd as [|? ? Ha Hnd'].
    destruct (IH x) as (z & Hz1 & Hz2 & Hz3); [done|done|set_solver|].
    exists z. split; [done|]. split; [set_solver|]. cbn [linked].
    assert (z ≠ a ∧ c ≠ x) as [? ?] by set_solver. by simplify_map_eq.
Qed.

Lemma linked_remove nx pv h l1 e l2 :
  linked nx pv h (l1 ++ e :: l2) h → NoDup (h :: l1 ++ e :: l2) →
  ∃ next prev, nx !! e = Some next ∧ pv !! e = Some prev ∧ next ∈ l2 ++ [h] ∧ prev ∈ h :: l1 ∧
    linked (<[prev := next]> nx) (<[next := prev]> pv) h (l1 ++ l2) h.
Proof.
  intros [H1 H2]%linked_app Hnd.
  assert (NoDup (h :: l1) ∧ NoDup (h :: l2) ∧ (∀ x, x ∈ l1 → x ∉ l2) ∧ e ∉ l2) as (Hn1 & Hn2 & Hd & He).
  { rewrite NoDup_cons, NoDup_app, NoDup_cons in Hnd. rewrite !NoDup_cons. set_solver. }
  destruct l2 as [|x l2]; cbn [linked] in H2.
  - destruct H2 as [H2 H3]. destruct (linked_retarget _ _ _ _ _ h H1) as (z & Hz1 & Hz2 & Hz3); [done| |].
    { by inversion Hn1. }
    exists h, z. rewrite app_nil_r. set_solver.
  - destruct H2 as (H2 & H3 & H4).
    destruct (linked_retarget _ _ _ _ _ x H1) as (z & Hz1 & Hz2 & Hz3); [done|set_solver|].
    exists x, z. split_and!; [done|done|set_solver|done|]. apply linked_app. split; [done|].
    eapply linked_frame; [| |exact H4]; intros k Hk.
    + assert (k ≠ z) by (rewrite NoDup_cons in Hn2; set_solver). by simplify_map_eq.
    + assert (k ≠ x) by (rewrite !NoDup_cons in Hn2; set_solver). by simplify_map_eq.
Qed.

Lemma qset_eq qs o l : qset qs o l o = l.
Proof. unfold qset. by rewrite decide_True. Qed.

Lemma qset_ne qs o o' l : o' ≠ o → qset qs o l o' = qs o'.
Proof. intros. unfold qset. by rewrite decide_False. Qed.

(** The nodes of the queues are apart. *)
Lemma head_nodup nx pv qs o : queues_ok nx pv qs → (o < 6)%nat → NoDup (memory_head o :: qs o).
Proof.
  intros Hq Ho. constructor; [|by eapply qo_nodup].
  intros Hin. pose proof (qo_pos _ _ _ Hq _ _ Ho Hin). unfold memory_head in *. lia.
Qed.

Lemma other_queue nx pv qs o o' k :
  queues_ok nx pv qs → (o < 6)%nat → (o' < 6)%nat → o' ≠ o →
  k ∈ memory_head o :: qs o → k ∉ memory_head o' :: qs o'.
Proof.
  intros Hq Ho Ho' Hne Hk Hk'. rewrite !elem_of_cons in *. unfold memory_head in *.
  destruct Hk as [->|Hk], Hk' as [Hk'|Hk'].
  - lia.
  - pose proof (qo_pos _ _ _ Hq _ _ Ho' Hk'). lia.
  - pose proof (qo_pos _ _ _ Hq _ _ Ho Hk). lia.
  - by destruct Hne; eapply qo_disj.
Qed.

(** Changing the pointers of one queue leaves the others. *)
Lemma queues_change nx pv nx' pv' qs o l :
  queues_ok nx pv qs → (o < 6)%nat →
  (∀ k, k ∉ memory_head o :: qs o → k ∉ l → nx' !! k = nx !! k ∧ pv' !! k = pv !! k) →
  linked nx' pv' (memory_head o) l (memory_head o) → NoDup l → (∀ n, n ∈ l → 0 ≤ n) →
  (∀ o' n, (o' < 6)%nat → o' ≠ o → n ∈ l → n ∉ qs o') →
  queues_ok nx' pv' (qset qs o l).
Proof.
  intros Hq Ho Hk Hl Hnd Hpos Hdisj. split.
  - intros o' Ho'. destruct (decide (o' = o)) as [->|Hne]; [by rewrite qset_eq|].
    rewrite qset_ne by done.
    assert (∀ k, k ∈ memory_head o' :: qs o' → nx' !! k = nx !! k ∧ pv' !! k = pv !! k) as Hsame.
    { intros k Hk'. apply Hk.
      - intros Hin. by eapply (other_queue nx pv qs o o' k).
      - rewrite elem_of_cons in Hk'. destruct Hk' as [->|Hk']; [|by intros ?; eapply Hdisj].
        intros Hin%Hpos. unfold memory_head in *. lia. }
    eapply linked_frame; [| |by eapply qo_link]; intros k Hin; apply Hsame; set_solver.
  - intros o' Ho'. destruct (decide (o' = o)) as [->|Hne]; [by rewrite qset_eq|].
    rewrite qset_ne by done. by eapply qo_nodup.
  - intros o' n Ho'. destruct (decide (o' = o)) as [->|Hne]; [by rewrite qset_eq; apply Hpos|].
    rewrite qset_ne by done. by eapply qo_pos.
  - intros o1 o2 n Ho1 Ho2 H1 H2.
    destruct (decide (o1 = o)) as [->|Hne1], (decide (o2 = o)) as [->|Hne2];
      rewrite ?qset_eq, ?(qset_ne qs o o1), ?(qset_ne qs o o2) in * by done; [done|..].
    + by destruct (Hdisj o2 n).
    + by destruct (Hdisj o1 n).
    + by eapply qo_disj.
Qed.

Definition with_links (s : mm) (nx pv : gmap Z Z) : mm := s <| pnext := nx |> <| pprev := pv |>.

Lemma add_spec s qs o e :
  queues_ok (pnext s) (pprev s) qs → (o < 6)%nat → 0 ≤ e → (∀ o', (o' < 6)%nat → e ∉ qs o') →
  ∃ nx pv, add_mem_queue o e s = Ret tt (with_links s nx pv) ∧ queues_ok nx pv (qset qs o (e :: qs o)).
Proof.
  intros Hq Ho He Hn.
  destruct (linked_add _ _ _ _ e (qo_link _ _ _ Hq o Ho)) as (next & H1 & H2 & H3).
  { rewrite elem_of_cons. intros [->|?]; [unfold memory_head in *; lia|by eapply Hn]. }
  { by eapply head_nodup. }
  exists (<[memory_head o := e]> (<[e := next]> (pnext s))), (<[next := e]> (<[e := memory_head o]> (pprev s))).
  split; [unfold add_mem_queue, ld, mbind, M_bind; by rewrite H1|].
  apply (queues_change (pnext s) (pprev s)); try done.
  - intros k Hk1 Hk2. assert (k ≠ e ∧ k ≠ memory_head o ∧ k ≠ next) as (? & ? & ?) by set_solver.
    by rewrite !lookup_insert_ne by congruence.
  - constructor; [by apply Hn|by eapply qo_nodup].
  - intros n [->|Hin]%elem_of_cons; [done|by eapply qo_pos].
  - intros o' n Ho' Hne [->|Hin]%elem_of_cons; [by apply Hn|]. intros Hin'.
    by destruct Hne; eapply qo_disj.
Qed.

Definition qdel (qs : nat → list Z) (o : nat) (e : Z) : nat → list Z :=
  qset qs o (filter (λ x, x ≠ e) (qs o)).

Lemma filter_ne_split (l1 l2 : list Z) e :
  NoDup (l1 ++ e :: l2) → filter (λ x, x ≠ e) (l1 ++ e :: l2) = l1 ++ l2.
Proof.
  intros Hnd. rewrite NoDup_app, NoDup_cons in Hnd.
  rewrite filter_app, filter_cons_False by auto.
  f_equal; apply list_filter_all, Forall_forall; intros x ? ->; set_solver.
Qed.

Lemma elem_of_qdel qs o o' e n : n ∈ qdel qs o e o' ↔ n ∈ qs o' ∧ ¬ (o' = o ∧ n = e).
Proof.
  unfold qdel. destruct (decide (o' = o)) as [->|Hne].
  - rewrite qset_eq, list_elem_of_filter. naive_solver.
  - rewrite qset_ne by done. naive_solver.
Qed.

Lemma remove_links s qs o e :
  queues_ok (pnext s) (pprev s) qs → (o < 6)%nat → e ∈ qs o →
  ∃ next prev, pnext s !! e = Some next ∧ pprev s !! e = Some prev ∧
    queues_ok (<[prev := next]> (pnext s)) (<[next := prev]> (pprev s)) (qdel qs o e).
Proof.
  intros Hq Ho Hin. apply list_elem_of_split in Hin as (l1 & l2 & E).
  pose proof (qo_link _ _ _ Hq o Ho) as Hl. pose proof (head_nodup _ _ _ _ Hq Ho) as Hnd. rewrite E in Hl, Hnd.
  destruct (linked_remove _ _ _ _ _ _ Hl Hnd) as (next & prev & H1 & H2 & H3 & H4 & H5).
  exists next, prev. split; [done|]. split; [done|].
  assert (NoDup (l1 ++ e :: l2)) as Hnd' by (by inversion Hnd).
  unfold qdel. rewrite E, filter_ne_split by done.
  apply (queues_change (pnext s) (pprev s)); try done.
  - intros k Hk1 Hk2. rewrite E in Hk1.
    assert (k ≠ prev ∧ k ≠ next) as (? & ?) by set_solver.
    by rewrite !lookup_insert_ne by congruence.
  - rewrite NoDup_app, NoDup_cons in Hnd'. apply NoDup_app. set_solver.
  - intros n Hn. apply (qo_pos _ _ _ Hq o); [done|]. rewrite E. set_solver.
  - intros o' n Ho' Hne Hn Hin'. destruct Hne. eapply (qo_disj _ _ _ Hq o' o n); try done. rewrite E. set_solver.
Qed.

Lemma remove_spec s qs o e :
  queues_ok (pnext s) (pprev s) qs → (o < 6)%nat → e ∈ qs o →
  ∃ nx pv, remove_mem_queue e s = Ret tt (with_links s nx pv) ∧ queues_ok nx pv (qdel qs o e).
Proof.
  intros Hq Ho Hin. destruct (remove_links s qs o e Hq Ho Hin) as (next & prev & H1 & H2 & H3).
  eexists _, _. split; [|exact H3].
  unfold remove_mem_queue, ld, mbind, M_bind. rewrite H1, H2. reflexivity.
Qed.

(** ** Blocks *)

Definition size (o : nat) : Z := 2 ^ Z.of_nat o.
Definition pair_of (o : nat) (n : Z) : Z := n / size (S o).
Definition in_block (o : nat) (n p : Z) : Prop := n ≤ p < n + size o.

(** The queues hold aligned disjoint blocks of the [N] pages, none of which
    contains page 0, and never both blocks of a pair that could be one. *)
Record blocks (N : Z) (qs : nat → list Z) : Prop := {
  bl_block : ∀ o n, (o < 6)%nat → n ∈ qs o → 0 < n ∧ n mod size o = 0 ∧ n + size o ≤ N;
  bl_disj : ∀ o o' n n' p, (o < 6)%nat → (o' < 6)%nat → n ∈ qs o → n' ∈ qs o' →
    in_block o n p → in_block o' n' p → o = o' ∧ n = n';
  bl_pair : ∀ o n n', (o < 5)%nat → n ∈ qs o → n' ∈ qs o → pair_of o n = pair_of o n' → n = n';
}.

Definition free_in (qs : nat → list Z) (p : Z) : Prop := ∃ o n, (o < 6)%nat ∧ n ∈ qs o ∧ in_block o n p.

Definition total (qs : nat → list Z) : Z :=
  foldr (λ o t, Z.of_nat (length (qs o)) * size o + t) 0 (seq 0 6).

Definition bit (s : mm) (o : nat) (i : Z) : bool :=
  match free_area s !! o with Some a => Z.testbit (area_map a) i | None => false end.

(** The bit of a pair says whether one of the two is free. *)
Definition bits_ok (s : mm) (qs : nat → list Z) : Prop :=
  ∀ o i, (o < 5)%nat → 0 ≤ i → bit s o i = true ↔ ∃ n, n ∈ qs o ∧ pair_of o n = i.

Definition npages (s : mm) : Z := Z.of_nat (length (mem_map s)).

(** The bitmaps are long enough. *)
Definition areas_ok (s : mm) : Prop :=
  length (free_area s) = 6%nat ∧
  ∀ o a, free_area s !! o = Some a → npages s ≤ area_bits a * size (S o).

Record shape (s : mm) (qs : nat → list Z) : Prop := {
  sh_queues : queues_ok (pnext s) (pprev s) qs;
  sh_blocks : blocks (npages s) qs;
  sh_bits : bits_ok s qs;
  sh_areas : areas_ok s;
  sh_small : npages s ≤ 2 ^ 20;
}.

Lemma size_pos o : 0 < size o.
Proof. unfold size. lia. Qed.

Lemma size_S o : size (S o) = 2 * size o.
Proof. unfold size. rewrite Nat2Z.inj_succ, Z.pow_succ_r by lia. done. Qed.

(** Two different blocks of a pair are the halves of one block. *)
Lemma pair_halves o n m :
  n mod size o = 0 → m mod size o = 0 → pair_of o n = pair_of o m → n ≠ m →
  let b := pair_of o n * size (S o) in
  (n = b ∧ m = b + size o) ∨ (n = b + size o ∧ m = b).
Proof.
  unfold pair_of. rewrite size_S. pose proof (size_pos o) as Hz. set (z := size o) in *. clearbody z.
  intros Hn Hm Hp Hne.
  assert (n = z * (n / z) ∧ m = z * (m / z)) as [En Em].
  { split; [rewrite (Z.div_mod n z) at 1 by lia|rewrite (Z.div_mod m z) at 1 by lia]; lia. }
  rewrite En, Em in Hp |- *. rewrite (Z.mul_comm z), (Z.mul_comm z (m / z)) in *.
  rewrite !(Z.mul_comm 2 z), !(Z.mul_comm _ z), !Zdiv_mult_cancel_l in * by lia.
  set (a := n / z) in *. set (c := m / z) in *. assert (a ≠ c) by (intros ->; lia).
  assert (a = 2 * (a / 2) ∧ c = 2 * (a / 2) + 1 ∨ a = 2 * (a / 2) + 1 ∧ c = 2 * (a / 2)) as Hc.
  { Z.to_euclidean_division_equations. lia. }
  nia.
Qed.

Lemma total_qset qs o l :
  (o < 6)%nat → total (qset qs o l) = total qs + (Z.of_nat (length l) - Z.of_nat (length (qs o))) * size o.
Proof.
  intros Ho. unfold total. cbn [foldr seq].
  do 6 (destruct o as [|o]; [rewrite qset_eq, !qset_ne by lia; lia|]). lia.
Qed.

(** Taking a block out. *)
Lemma blocks_take N qs o n :
  blocks N qs → (o < 6)%nat → n ∈ qs o → NoDup (qs o) →
  blocks N (qdel qs o n) ∧
  (∀ p, free_in (qdel qs o n) p ↔ free_in qs p ∧ ¬ in_block o n p) ∧
  total (qdel qs o n) = total qs - size o.
Proof.
  intros Hb Ho Hn Hnd. split_and!.
  - split.
    + intros o' n' Ho' [Hin _]%elem_of_qdel. by eapply bl_block.
    + intros o1 o2 n1 n2 p H1 H2 [Hin1 _]%elem_of_qdel [Hin2 _]%elem_of_qdel. by eapply bl_disj.
    + intros o' n1 n2 H1 [Hin1 _]%elem_of_qdel [Hin2 _]%elem_of_qdel. by eapply bl_pair.
  - intros p. split.
    + intros (o' & n' & Ho' & [Hin Hne]%elem_of_qdel & Hp). split; [by exists o', n'|].
      intros Hp'. apply Hne. by eapply bl_disj.
    + intros [(o' & n' & Ho' & Hin & Hp) Hnot]. exists o', n'. split; [done|]. split; [|done].
      apply elem_of_qdel. split; [done|]. by intros [-> ->].
  - unfold qdel. rewrite total_qset by done.
    apply list_elem_of_split in Hn as (l1 & l2 & E). rewrite E in *.
    rewrite filter_ne_split by done. rewrite !length_app. cbn [length]. lia.
Qed.

(** Putting a block in. *)
Lemma blocks_put N qs o n :
  blocks N qs → (o < 6)%nat → 0 < n → n mod size o = 0 → n + size o ≤ N →
  (∀ p, in_block o n p → ¬ free_in qs p) →
  ((o < 5)%nat → ∀ n', n' ∈ qs o → pair_of o n' ≠ pair_of o n) →
  let qs' := qset qs o (n :: qs o) in
  blocks N qs' ∧ (∀ p, free_in qs' p ↔ free_in qs p ∨ in_block o n p) ∧ total qs' = total qs + size o.
Proof.
  intros Hb Ho Hpos Hal Hle Hfree Hpair qs'.
  assert (∀ o' n', n' ∈ qs' o' ↔ n' ∈ qs o' ∨ (o' = o ∧ n' = n)) as Hin.
  { intros o' n'. subst qs'. destruct (decide (o' = o)) as [->|Hne].
    - rewrite qset_eq, elem_of_cons. naive_solver.
    - rewrite qset_ne by done. naive_solver. }
  assert (∀ o' n' p, (o' < 6)%nat → n' ∈ qs o' → in_block o' n' p → in_block o n p → False) as Hout.
  { intros o' n' p ? ? ? Hp. apply (Hfree p Hp). by exists o', n'. }
  split_and!.
  - split.
    + intros o' n' Ho' [Hn'|[-> ->]]%Hin; [by eapply bl_block|done].
    + intros o1 o2 n1 n2 p H1 H2 [?|[-> ->]]%Hin [?|[-> ->]]%Hin Hp1 Hp2; [by eapply bl_disj|exfalso..|done].
      * by eapply (Hout o1 n1 p).
      * by eapply (Hout o2 n2 p).
    + intros o' n1 n2 H1 [?|[E1 ->]]%Hin [?|[E2 ->]]%Hin Hp; [by eapply bl_pair|subst o'..|done].
      * by destruct (Hpair H1 n1).
      * by destruct (Hpair H1 n2).
  - intros p. unfold free_in. setoid_rewrite Hin. split; [naive_solver|].
    intros [(o' & n' & ? & ? & ?)|?]; eauto 10.
  - subst qs'. rewrite total_qset by done. cbn [length]. lia.
Qed.

(** ** Bits *)

Definition with_area (s : mm) (o : nat) (a : free_area_struct) : mm :=
  s <| free_area := <[o := a]> (free_area s) |>.

Lemma flip_spec s o i :
  areas_ok s → (o < 6)%nat → 0 ≤ i → i * size (S o) < npages s →
  ∃ s', change_bit i o s = Ret (bit s o i) s' ∧ areas_ok s' ∧
    (∃ fa, s' = s <| free_area := fa |>) ∧
    ∀ o' j, 0 ≤ j → bit s' o' j = xorb (bit s o' j) (bool_decide (o' = o ∧ j = i)).
Proof.
  intros [Hlen Hbits] Ho Hi Hn.
  destruct (lookup_lt_is_Some_2 (free_area s) o) as [a Ha]; [lia|].
  pose proof (Hbits _ _ Ha) as Hb. pose proof (size_pos (S o)).
  assert (i < area_bits a) as Hlt by nia.
  unfold change_bit. rewrite Ha. rewrite (proj2 (Z.leb_le _ _) Hi), (proj2 (Z.ltb_lt _ _) Hlt). cbn [andb].
  eexists. split; [unfold bit; by rewrite Ha|]. split; [|split].
  - split; [cbn; by rewrite length_insert|]. intros o' a'. cbn. intros Ha'.
    destruct (decide (o' = o)) as [->|Hne].
    + rewrite list_lookup_insert_eq in Ha' by lia. injection Ha' as <-. done.
    + rewrite list_lookup_insert_ne in Ha' by done. by apply Hbits.
  - by eexists.
  - intros o' j Hj. unfold bit. cbn. destruct (decide (o' = o)) as [->|Hne].
    + rewrite list_lookup_insert_eq by lia. cbn. rewrite Ha, Z.lxor_spec. f_equal.
      rewrite Z.pow2_bits_eqb by done. destruct (decide (j = i)) as [->|].
      * rewrite Z.eqb_refl. by rewrite bool_decide_true.
      * rewrite bool_decide_false by naive_solver. apply Z.eqb_neq. done.
    + rewrite list_lookup_insert_ne by done. rewrite bool_decide_false by naive_solver.
      by rewrite xorb_false_r.
Qed.

(** [s'] is [s] with the bit of [n]'s pair flipped. *)
Definition flipped (s s' : mm) (o : nat) (n : Z) : Prop :=
  ∀ o' j, 0 ≤ j → bit s' o' j = xorb (bit s o' j) (bool_decide (o' = o ∧ j = pair_of o n)).

Lemma bits_take N s s' qs o n :
  bits_ok s qs → blocks N qs → n ∈ qs o → 0 ≤ pair_of o n → flipped s s' o n → bits_ok s' (qdel qs o n).
Proof.
  intros Hbits Hb Hn Hp Hf o' i Ho' Hi. rewrite Hf by done.
  setoid_rewrite elem_of_qdel.
  destruct (decide (o' = o ∧ i = pair_of o n)) as [[-> ->]|Hne].
  - rewrite bool_decide_true by done.
    rewrite (proj2 (Hbits o _ Ho' Hp)) by (by exists n). split; [done|].
    intros (m & [Hm Hnot] & E). destruct Hnot. split; [done|]. by eapply bl_pair.
  - rewrite bool_decide_false, xorb_false_r, (Hbits o' i Ho' Hi) by done. split.
    + intros (m & Hm & E). exists m. split; [|done]. split; [done|]. intros [-> ->]. naive_solver.
    + intros (m & [Hm _] & E). by exists m.
Qed.

Lemma bits_put s s' qs o n :
  bits_ok s qs → (o < 5)%nat → (∀ n', n' ∈ qs o → pair_of o n' ≠ pair_of o n) →
  0 ≤ pair_of o n → flipped s s' o n → bits_ok s' (qset qs o (n :: qs o)).
Proof.
  intros Hbits Ho Hno Hp Hf o' i Ho' Hi. rewrite Hf by done.
  destruct (decide (o' = o)) as [->|Hne].
  - rewrite qset_eq. destruct (decide (i = pair_of o n)) as [->|Hne].
    + rewrite bool_decide_true by done. destruct (bit s o (pair_of o n)) eqn:E.
      * apply Hbits in E as (m & Hm & E); [|done..]. by destruct (Hno m).
      * split; [|done]. intros _. exists n. set_solver.
    + rewrite bool_decide_false, xorb_false_r, (Hbits o i Ho' Hi) by naive_solver.
      setoid_rewrite elem_of_cons. naive_solver.
  - rewrite qset_ne by done. rewrite bool_decide_false, xorb_false_r by naive_solver. by apply Hbits.
Qed.

(** The queue of the largest blocks has no bits. *)
Lemma bits_top s s' qs l :
  bits_ok s qs → (∀ o j, (o < 5)%nat → 0 ≤ j → bit s' o j = bit s o j) → bits_ok s' (qset qs 5 l).
Proof.
  intros Hbits Hs o i Ho Hi. rewrite Hs, qset_ne by (done || lia). by apply Hbits.
Qed.

(** Only pointers and bitmaps differ. *)
Definition rest (s s' : mm) : Prop :=
  ∃ nx pv fa, s' = s <| pnext := nx |> <| pprev := pv |> <| free_area := fa |>.

Lemma rest_trans s1 s2 s3 : rest s1 s2 → rest s2 s3 → rest s1 s3.
Proof. intros (? & ? & ? & ->) (? & ? & ? & ->). by eexists _, _, _. Qed.

Lemma mask_next o : (o < 6)%nat → u32 (Z.shiftl (2 ^ 32 - size o) 1) = 2 ^ 32 - size (S o).
Proof. intros. do 6 (destruct o as [|o]; [done|]). lia. Qed.

Lemma mask_end o :
  (o < 6)%nat → (u32 (2 ^ 32 - size o + Z.shiftl 1 (Z.of_nat NR_MEM_LISTS - 1)) =? 0) = bool_decide (o = 5%nat).
Proof. intros. do 6 (destruct o as [|o]; [done|]). lia. Qed.

Lemma mask_bit o : (o < 6)%nat → u32 (- (2 ^ 32 - size o)) = size o.
Proof. intros. do 6 (destruct o as [|o]; [done|]). lia. Qed.

Lemma land_align n o : (o ≤ 32)%nat → 0 ≤ n < 2 ^ 32 → Z.land n (2 ^ 32 - size o) = n / size o * size o.
Proof.
  intros Ho Hn. unfold size. set (k := Z.of_nat o).
  replace (2 ^ 32 - 2 ^ k) with (Z.shiftl (Z.ones (32 - k)) k); last first.
  { rewrite Z.shiftl_mul_pow2, Z.ones_equiv by lia. rewrite Z.mul_comm, Z.mul_pred_r, <-Z.pow_add_r by lia.
    do 2 f_equal. lia. }
  rewrite <-Z.shiftr_div_pow2, <-(Z.shiftl_mul_pow2 _ k) by lia.
  apply Z.bits_inj'. intros j Hj. rewrite Z.land_spec, !Z.shiftl_spec by done.
  destruct (decide (j < k)); [rewrite !(Z.testbit_neg_r _ (j - k)) by lia; apply andb_false_r|].
  rewrite Z.shiftr_spec by lia. replace (j - k + k) with j by lia.
  destruct (decide (j < 32)).
  - rewrite Z.ones_spec_low by lia. apply andb_true_r.
  - rewrite <-(Z.mod_small n (2 ^ 32)) by done. by rewrite Z.mod_pow2_bits_high by lia.
Qed.

Lemma buddy_lxor o b : Z.lxor (b * size (S o)) (size o) = b * size (S o) + size o.
Proof.
  symmetry. apply Z.add_nocarry_lxor.
  apply Z.eqb_eq. apply negb_false_iff. change (has (b * size (S o)) (size o) = false).
  unfold size at 2. rewrite has_pow2 by lia. rewrite size_S. unfold size.
  replace (b * (2 * 2 ^ Z.of_nat o)) with (b * 2 * 2 ^ Z.of_nat o) by lia.
  rewrite Z.mul_pow2_bits by lia. rewrite Z.sub_diag, Z.bit0_odd, Z.odd_mul. apply andb_false_r.
Qed.

(** ** Operations on blocks *)

Lemma pair_in_range s o n : 0 < n → n + size o ≤ npages s → 0 ≤ pair_of o n ∧ pair_of o n * size (S o) < npages s.
Proof.
  intros Hn Hle. unfold pair_of. pose proof (size_pos o). pose proof (size_pos (S o)).
  split; [apply Z.div_pos; lia|]. pose proof (Z.mul_div_le n (size (S o))). lia.
Qed.

(** What it takes for a block to be put in. *)
Definition can_put (s : mm) (qs : nat → list Z) (o : nat) (n : Z) : Prop :=
  0 < n ∧ n mod size o = 0 ∧ n + size o ≤ npages s ∧ (∀ p, in_block o n p → ¬ free_in qs p).

Lemma can_put_new s qs o n o' : can_put s qs o n → (o' < 6)%nat → n ∉ qs o'.
Proof.
  intros (Hpos & _ & _ & Hf) Ho' Hin. apply (Hf n).
  - unfold in_block. pose proof (size_pos o). lia.
  - exists o', n. split; [done|]. split; [done|]. unfold in_block. pose proof (size_pos o'). lia.
Qed.

Definition put (qs : nat → list Z) (o : nat) (n : Z) : nat → list Z := qset qs o (n :: qs o).

Definition has_pair (qs : nat → list Z) (o : nat) (n : Z) : Prop :=
  ∃ n', n' ∈ qs o ∧ pair_of o n' = pair_of o n.

Lemma flip_add s qs o n :
  shape s qs → (o < 5)%nat → can_put s qs o n → ¬ has_pair qs o n →
  ∃ s1 s2, change_bit (pair_of o n) o s = Ret false s1 ∧ add_mem_queue o n s1 = Ret tt s2 ∧
    shape s2 (put qs o n) ∧ rest s s2.
Proof.
  intros Hs Ho Hput Hno. pose proof Hput as (Hpos & Hal & Hle & Hf).
  destruct (pair_in_range s o n Hpos Hle) as [Hp1 Hp2].
  destruct (flip_spec s o _ (sh_areas _ _ Hs) ltac:(lia) Hp1 Hp2) as (s1 & E1 & Ha1 & (fa & ->) & Hflip).
  assert (bit s o (pair_of o n) = false) as Hbit.
  { apply not_true_iff_false. rewrite (sh_bits _ _ Hs o) by done. done. }
  rewrite Hbit in E1.
  destruct (add_spec (s <| free_area := fa |>) qs o n) as (nx & pv & E2 & Hq); [apply Hs|lia|lia| |].
  { intros. by eapply can_put_new. }
  eexists _, _. split; [exact E1|]. split; [exact E2|]. split; [|by eexists _, _, _].
  split; [exact Hq| | |exact Ha1|apply Hs].
  - apply blocks_put; try done; [apply Hs|lia|]. intros _ n' Hn' E. apply Hno. by exists n'.
  - apply (bits_put s); try done; [apply Hs|]. intros n' Hn' E. apply Hno. by exists n'.
Qed.

Lemma add_flip s qs o n :
  shape s qs → (o < 5)%nat → can_put s qs o n → ¬ has_pair qs o n →
  ∃ s1 s2 b, add_mem_queue o n s = Ret tt s1 ∧ change_bit (pair_of o n) o s1 = Ret b s2 ∧
    shape s2 (put qs o n) ∧ rest s s2.
Proof.
  intros Hs Ho Hput Hno. pose proof Hput as (Hpos & Hal & Hle & Hf).
  destruct (pair_in_range s o n Hpos Hle) as [Hp1 Hp2].
  destruct (add_spec s qs o n) as (nx & pv & E1 & Hq); [apply Hs|lia|lia| |].
  { intros. by eapply can_put_new. }
  destruct (flip_spec (with_links s nx pv) o _ (sh_areas _ _ Hs) ltac:(lia) Hp1 Hp2)
    as (s2 & E2 & Ha2 & (fa & ->) & Hflip).
  eexists _, _, _. split; [exact E1|]. split; [exact E2|]. split; [|by eexists _, _, _].
  split; [exact Hq| | |exact Ha2|apply Hs].
  - apply blocks_put; try done; [apply Hs|lia|]. intros _ n' Hn' E. apply Hno. by exists n'.
  - apply (bits_put s); try done; [apply Hs|]. intros n' Hn' E. apply Hno. by exists n'.
Qed.

Lemma flip_remove s qs o n m :
  shape s qs → (o < 5)%nat → m ∈ qs o → pair_of o m = pair_of o n →
  ∃ s1 s2, change_bit (pair_of o n) o s = Ret true s1 ∧ remove_mem_queue m s1 = Ret tt s2 ∧
    shape s2 (qdel qs o m) ∧ rest s s2.
Proof.
  intros Hs Ho Hm <-. destruct (bl_block _ _ (sh_blocks _ _ Hs) o m ltac:(lia) Hm) as (Hpos & Hal & Hle).
  destruct (pair_in_range s o m Hpos Hle) as [Hp1 Hp2].
  destruct (flip_spec s o _ (sh_areas _ _ Hs) ltac:(lia) Hp1 Hp2) as (s1 & E1 & Ha1 & (fa & ->) & Hflip).
  assert (bit s o (pair_of o m) = true) as Hbit.
  { apply (sh_bits _ _ Hs o); [done..|]. by exists m. }
  rewrite Hbit in E1.
  destruct (remove_spec (s <| free_area := fa |>) qs o m) as (nx & pv & E2 & Hq); [apply Hs|lia|done|].
  eexists _, _. split; [exact E1|]. split; [exact E2|]. split; [|by eexists _, _, _].
  split; [exact Hq| | |exact Ha1|apply Hs].
  - apply blocks_take; [apply Hs|lia|done|]. apply (qo_nodup _ _ _ (sh_queues _ _ Hs)). lia.
  - by eapply (bits_take (npages s) s); [apply Hs|apply Hs|..].
Qed.

(** The largest blocks are put in without a bit. *)
Lemma add_top s qs n :
  shape s qs → can_put s qs 5 n →
  ∃ s', add_mem_queue 5 n s = Ret tt s' ∧ shape s' (put qs 5 n) ∧ rest s s'.
Proof.
  intros Hs Hput. pose proof Hput as (Hpos & Hal & Hle & Hf).
  destruct (add_spec s qs 5 n) as (nx & pv & E1 & Hq); [apply Hs|lia|lia| |].
  { intros. by eapply can_put_new. }
  eexists. split; [exact E1|]. split; [|exists nx, pv, (free_area s); by destruct s].
  split; [exact Hq| | |apply Hs|apply Hs].
  - apply blocks_put; try done; [apply Hs|lia|]. lia.
  - apply (bits_top s); [apply Hs|done].
Qed.

(** The block that a block and its buddy make up. *)
Lemma merge_ok s qs o n m :
  shape s qs → (o < 5)%nat → can_put s qs o n → m ∈ qs o → pair_of o m = pair_of o n →
  let b := pair_of o n * size (S o) in
  Z.lxor n (size o) = m ∧ n / size (S o) * size (S o) = b ∧
  can_put s (qdel qs o m) (S o) b ∧
  ∀ p, in_block (S o) b p ↔ in_block o n p ∨ in_block o m p.
Proof.
  intros Hs Ho Hput Hm Hp b. pose proof Hput as (Hpos & Hal & Hle & Hf).
  destruct (bl_block _ _ (sh_blocks _ _ Hs) o m ltac:(lia) Hm) as (Hpos' & Hal' & Hle').
  assert (n ≠ m) as Hne.
  { intros ->. eapply (can_put_new s qs o m o); [done|lia|done]. }
  pose proof (size_pos o). pose proof (size_S o) as HS.
  assert ((n = b ∧ m = b + size o) ∨ (n = b + size o ∧ m = b)) as Hh by (by apply pair_halves).
  assert (∀ p, in_block (S o) b p ↔ in_block o n p ∨ in_block o m p) as Hin by (unfold in_block; lia).
  split_and!; [|done| |done].
  - pose proof (buddy_lxor o (pair_of o n)) as Hx. fold b in Hx.
    destruct Hh as [[E1 E2]|[E1 E2]]; rewrite E1, E2; [done|].
    by rewrite <-Hx, Z.lxor_assoc, Z.lxor_nilpotent, Z.lxor_0_r.
  - split_and!; [lia|apply Z.mod_mul; lia|lia|].
    intros p Hpb. destruct (blocks_take (npages s) qs o m) as (_ & Hfree & _);
      [apply Hs|lia|done|apply (qo_nodup _ _ _ (sh_queues _ _ Hs)); lia|].
    rewrite Hfree. apply Hin in Hpb as [Hpn|Hpm]; [|tauto]. intros [Hfp _]. by apply (Hf p).
Qed.

Lemma total_put s qs o n :
  shape s qs → (o < 6)%nat → total (put qs o n) = total qs + size o.
Proof. intros Hs Ho. unfold put. rewrite total_qset by done. cbn [length]. lia. Qed.

Lemma free_put s qs o n p :
  shape s qs → (o < 6)%nat → free_in (put qs o n) p ↔ free_in qs p ∨ in_block o n p.
Proof.
  intros Hs Ho. unfold free_in, put. split.
  - intros (o' & n' & Ho' & Hin & Hp). destruct (decide (o' = o)) as [->|Hne].
    + rewrite qset_eq, elem_of_cons in Hin. destruct Hin as [->|Hin]; [by right|left; by exists o, n'].
    + rewrite qset_ne in Hin by done. left. by exists o', n'.
  - intros [(o' & n' & Ho' & Hin & Hp)|Hp]; [exists o', n'|exists o, n; rewrite qset_eq; set_solver].
    split; [done|]. split; [|done]. destruct (decide (o' = o)) as [->|Hne].
    + rewrite qset_eq. set_solver.
    + by rewrite qset_ne.
Qed.

#[global] Instance has_pair_dec qs o n : Decision (has_pair qs o n).
Proof.
  destruct (decide (Exists (λ n', pair_of o n' = pair_of o n) (qs o))) as [H|H].
  - left. by apply Exists_exists in H.
  - right. intros (n' & ? & ?). apply H, Exists_exists. by exists n'.
Defined.

Definition freed (s : mm) (qs : nat → list Z) (o : nat) (n : Z) (s' : mm) (qs' : nat → list Z) : Prop :=
  shape s' qs' ∧ (∀ p, free_in qs' p ↔ free_in qs p ∨ in_block o n p) ∧
  total qs' = total qs + size o ∧ rest s s'.

Lemma free_loop_spec k fuel o s qs n :
  (o + k = 5)%nat → (k < fuel)%nat → shape s qs → can_put s qs o n →
  ∃ s' qs', free_loop fuel o (pair_of o n) (2 ^ 32 - size o) n s = Ret tt s' ∧ freed s qs o n s' qs'.
Proof.
  revert fuel o s qs n. induction k as [|k IH]; intros fuel o s qs n Hk Hfuel Hs Hput.
  all: destruct fuel as [|fuel]; [lia|]; cbn [free_loop]; rewrite mask_end by lia.
  - assert (o = 5%nat) as -> by lia. rewrite bool_decide_true by done.
    destruct (add_top s qs n Hs Hput) as (s' & E & Hs' & Hr). exists s', (put qs 5 n). split; [done|].
    split_and!; [done|intros p; eapply free_put|eapply total_put|done]; (exact Hs || lia).
  - rewrite bool_decide_false by lia.
    destruct (decide (has_pair qs o n)) as [(m & Hm & Hp)|Hno].
    + destruct (flip_remove s qs o n m Hs ltac:(lia) Hm Hp) as (s1 & s2 & E1 & E2 & Hs2 & Hr2).
      destruct (merge_ok s qs o n m Hs ltac:(lia) Hput Hm Hp) as (Ex & El & Hput' & Hin).
      destruct (blocks_take (npages s) qs o m) as (_ & Hfree & Htot);
        [apply Hs|lia|done|apply (qo_nodup _ _ _ (sh_queues _ _ Hs)); lia|].
      set (b := pair_of o n * size (S o)) in *.
      assert (can_put s2 (qdel qs o m) (S o) b) as Hput2 by (by destruct Hr2 as (? & ? & ? & ->)).
      destruct (IH fuel (S o) s2 (qdel qs o m) b) as (s' & qs' & E & Hs' & Hf' & Ht' & Hr'); [lia|lia|done..|].
      assert (0 ≤ n < 2 ^ 32) as Hn by (pose proof (size_pos o); destruct Hs, Hput; lia).
      exists s', qs'. split.
      * unfold mbind, M_bind at 1. rewrite E1. cbn [negb]. rewrite mask_bit, Ex by lia.
        unfold M_bind. rewrite E2, mask_next, land_align, El by (done || lia).
        rewrite Z.shiftr_div_pow2 by lia.
        replace (pair_of o n `div` 2 ^ 1) with (pair_of (S o) b); [done|].
        subst b. unfold pair_of at 1. rewrite (size_S (S o)), (Z.mul_comm 2), (Z.mul_comm _ (size (S o))).
        pose proof (size_pos (S o)). by rewrite Zdiv_mult_cancel_l by lia.
      * split_and!; [done| | |by eapply rest_trans].
        -- intros p. rewrite Hf', Hfree, Hin. destruct (decide (in_block o m p)); [|tauto].
           split; [|tauto]. intros _. left. exists o, m. split; [lia|done].
        -- rewrite Ht', Htot, size_S. lia.
    + destruct (flip_add s qs o n Hs ltac:(lia) Hput Hno) as (s1 & s2 & E1 & E2 & Hs2 & Hr2).
      exists s2, (put qs o n). split.
      * unfold mbind, M_bind. rewrite E1. cbn [negb]. done.
      * split_and!; [done|intros p; eapply free_put|eapply total_put|done]; (exact Hs || lia).
Qed.

(** ** Counting *)

Definition pages_in (qs : nat → list Z) (o : nat) : list Z := qs o ≫= λ n, seqZ n (size o).
Definition free_pages_of (qs : nat → list Z) : list Z := seq 0 6 ≫= pages_in qs.

Lemma elem_of_pages_in qs o p : p ∈ pages_in qs o ↔ ∃ n, n ∈ qs o ∧ in_block o n p.
Proof.
  unfold pages_in. rewrite list_elem_of_bind. unfold in_block. setoid_rewrite elem_of_seqZ. naive_solver.
Qed.

Lemma elem_of_free_pages qs p : p ∈ free_pages_of qs ↔ free_in qs p.
Proof.
  unfold free_pages_of, free_in. rewrite list_elem_of_bind.
  setoid_rewrite elem_of_pages_in. setoid_rewrite elem_of_seq. split.
  - intros (o & (n & ? & ?) & ?). exists o, n. split; [lia|done].
  - intros (o & n & ? & ? & ?). exists o. split; [eauto|lia].
Qed.

Lemma length_free_pages qs : Z.of_nat (length (free_pages_of qs)) = total qs.
Proof.
  assert (∀ o, Z.of_nat (length (pages_in qs o)) = Z.of_nat (length (qs o)) * size o) as H.
  { intros o. unfold pages_in. induction (qs o) as [|n l IH]; [done|].
    rewrite bind_cons, length_app, length_seqZ. cbn [length]. pose proof (size_pos o). lia. }
  unfold free_pages_of, total. induction (seq 0 6) as [|o l IH]; [done|].
  rewrite bind_cons, length_app. cbn [foldr]. rewrite <-IH, <-H. lia.
Qed.

Lemma free_pages_NoDup N qs :
  blocks N qs → (∀ o, (o < 6)%nat → NoDup (qs o)) → NoDup (free_pages_of qs).
Proof.
  intros Hb Hnd. apply NoDup_bind.
  - intros o o' p Ho Ho' (n & Hn & Hp)%elem_of_pages_in (n' & Hn' & Hp')%elem_of_pages_in.
    apply elem_of_seq in Ho, Ho'. by eapply (bl_disj N qs Hb o o' n n' p); try lia.
  - intros o Ho%elem_of_seq. apply NoDup_bind; [|intros; apply NoDup_seqZ|apply Hnd; lia].
    intros n n' p Hn Hn' Hp%elem_of_seqZ Hp'%elem_of_seqZ.
    by eapply (bl_disj N qs Hb o o n n' p); try lia.
  - apply NoDup_seq.
Qed.

(** No more pages are free than there are. *)
Lemma total_bound s qs : shape s qs → 0 ≤ total qs ≤ npages s.
Proof.
  intros Hs. rewrite <-length_free_pages. split; [lia|].
  assert (free_pages_of qs ⊆+ seqZ 0 (npages s)) as Hsub.
  { apply NoDup_submseteq.
    - eapply free_pages_NoDup; [apply Hs|]. intros. by eapply (qo_nodup _ _ _ (sh_queues _ _ Hs)).
    - intros p (o & n & Ho & Hn & Hp)%elem_of_free_pages.
      destruct (bl_block _ _ (sh_blocks _ _ Hs) o n Ho Hn). unfold in_block in Hp. apply elem_of_seqZ. lia. }
  apply submseteq_length in Hsub. rewrite length_seqZ in Hsub. unfold npages in *. lia.
Qed.

(** The same pages are as many. *)
Lemma total_free s s' qs qs' :
  shape s qs → shape s' qs' → (∀ p, free_in qs p ↔ free_in qs' p) → total qs = total qs'.
Proof.
  intros Hs Hs' Hf. rewrite <-!length_free_pages. f_equal. apply Permutation_length, NoDup_Permutation.
  - eapply free_pages_NoDup; [apply Hs|]. intros. by eapply (qo_nodup _ _ _ (sh_queues _ _ Hs)).
  - eapply free_pages_NoDup; [apply Hs'|]. intros. by eapply (qo_nodup _ _ _ (sh_queues _ _ Hs')).
  - intros p. by rewrite !elem_of_free_pages.
Qed.

(** ** Freeing *)

Record mm_inv (s : mm) (qs : nat → list Z) : Prop := {
  mi_shape : shape s qs;
  mi_count : nr_free_pages s = total qs;
}.

(** Everything but the allocator's own data. *)
Definition outer (s : mm) : list page * Z * Z * Z := (mem_map s, min_free_pages s, high_memory s, page_initial_age s).

Lemma shape_count s qs n : shape s qs → shape (s <| nr_free_pages := n |>) qs.
Proof. by intros [? ? ? ? ?]. Qed.

Lemma free_pages_ok_spec s qs o n :
  mm_inv s qs → (o < 6)%nat → can_put s qs o n →
  ∃ s' qs', free_pages_ok n o s = Ret tt s' ∧ mm_inv s' qs' ∧ outer s' = outer s ∧
    intr_count s' = intr_count s ∧
    ∀ p, free_in qs' p ↔ free_in qs p ∨ in_block o n p.
Proof.
  intros [Hs Hc] Ho Hput. pose proof Hput as (Hpos & Hal & Hle & Hf). pose proof (size_pos o) as Hsz.
  assert (0 ≤ n < 2 ^ 32) as Hn by (destruct Hs; lia).
  unfold free_pages_ok.
  assert (u32 (Z.shiftl (2 ^ 32 - 1) (Z.of_nat o)) = 2 ^ 32 - size o) as ->.
  { clear -Ho. do 6 (destruct o as [|o]; [done|]). lia. }
  rewrite land_align by lia. apply Z.div_exact in Hal; [|lia].
  rewrite (Z.mul_comm _ (size o)), <-Hal.
  rewrite Z.shiftr_div_pow2 by lia.
  replace (2 ^ (1 + Z.of_nat o)) with (size (S o)) by (unfold size; f_equal; lia).
  fold (pair_of o n). unfold mbind, M_bind, modify.
  set (s1 := s <| nr_free_pages := _ |>).
  destruct (free_loop_spec (5 - o) NR_MEM_LISTS o s1 qs n) as (s' & qs' & E & Hs' & Hf' & Ht' & Hr'); [lia|unfold NR_MEM_LISTS; lia|by apply shape_count|done|].
  exists s', qs'. split; [exact E|]. destruct Hr' as (nx & pv & fa & ->).
  split; [|split; [done|split; [done|exact Hf']]]. split; [done|].
  change (s32 (nr_free_pages s - (2 ^ 32 - size o)) = total qs').
  rewrite Hc, Ht'. pose proof (total_bound s qs Hs). pose proof (total_bound _ qs' Hs') as Hb'.
  change (npages _) with (npages s) in Hb'. rewrite Ht' in Hb'. destruct Hs as [_ _ _ _ Hsm].
  unfold s32. replace (total qs - (2 ^ 32 - size o) + 2 ^ 31) with (total qs + size o + 2 ^ 31 + (-1) * 2 ^ 32) by lia.
  rewrite Z.mod_add, Z.mod_small by lia. lia.
Qed.

(** ** Allocating *)

Lemma rest_npages s s' : rest s s' → npages s' = npages s.
Proof. by intros (? & ? & ? & ->). Qed.

(** The lower half of a block that is not free has no free buddy. *)
Lemma lower_half s qs h n :
  shape s qs → (h < 5)%nat → can_put s qs (S h) n → can_put s qs h n ∧ ¬ has_pair qs h n.
Proof.
  intros Hs Hh (Hpos & Hal & Hle & Hf). pose proof (size_pos h). pose proof (size_S h) as HS.
  apply Z.div_exact in Hal; [|lia]. split.
  - split_and!; [done| |lia|].
    + rewrite Hal, HS, <-Z.mul_assoc, (Z.mul_comm 2), <-Z.mul_assoc. rewrite Z.mul_comm. apply Z.mod_mul. lia.
    + intros p Hp. apply Hf. unfold in_block in *. lia.
  - intros (m & Hm & Hp). destruct (bl_block _ _ (sh_blocks _ _ Hs) h m ltac:(lia) Hm) as (? & _ & _).
    unfold pair_of in Hp. pose proof (Z.mod_pos_bound m (size (S h))) as Hb.
    pose proof (Z.div_mod m (size (S h))) as Hd. rewrite Hp, <-Hal in Hd.
    apply (Hf m); [unfold in_block; lia|]. exists h, m. split; [lia|]. split; [done|]. unfold in_block. lia.
Qed.

Lemma upper_half s qs h n :
  shape s qs → (h < 5)%nat → can_put s qs (S h) n → can_put s (put qs h n) h (n + size h).
Proof.
  intros Hs Hh Hput. destruct (lower_half s qs h n Hs Hh Hput) as [(_ & Hal & _) _].
  destruct Hput as (Hpos & _ & Hle & Hf). pose proof (size_pos h). pose proof (size_S h) as HS.
  split_and!; [lia| |lia|].
  - rewrite Z.add_mod, Hal, Z.mod_same, Z.mod_0_l by lia. done.
  - intros p Hp. rewrite (free_put s) by (done || lia). intros [Hp'|Hp'].
    + apply (Hf p); [unfold in_block in *; lia|done].
    + unfold in_block in *. lia.
Qed.

Lemma expand_loop_spec k low s qs n :
  (low + k < 6)%nat → shape s qs → can_put s qs (low + k) n →
  ∃ n' s' qs', expand_loop k low (size (low + k)) n s = Ret n' s' ∧ shape s' qs' ∧ rest s s' ∧
    can_put s' qs' low n' ∧ in_block (low + k) n n' ∧
    (∀ p, free_in qs' p ∨ in_block low n' p ↔ free_in qs p ∨ in_block (low + k) n p) ∧
    total qs' + size low = total qs + size (low + k).
Proof.
  revert s qs n. induction k as [|k IH]; intros s qs n Hk Hs Hput.
  { exists n, s, qs. rewrite Nat.add_0_r in *. pose proof (size_pos low). split_and!; try done.
    - exists (pnext s), (pprev s), (free_area s). by destruct s.
    - unfold in_block. lia. }
  cbn [expand_loop]. rewrite <-plus_n_Sm in *. set (h := (low + k)%nat) in *.
  pose proof (size_S h) as HS. pose proof (size_pos h).
  assert (Z.shiftr (size (S h)) 1 = size h) as ->.
  { rewrite Z.shiftr_div_pow2, HS, Z.mul_comm by lia. apply Z.div_mul. lia. }
  destruct (lower_half s qs h n Hs ltac:(lia) Hput) as [Hlow Hno].
  pose proof (upper_half s qs h n Hs ltac:(lia) Hput) as Hup.
  destruct (add_flip s qs h n Hs ltac:(lia) Hlow Hno) as (s1 & s2 & b & E1 & E2 & Hs2 & Hr2).
  assert (can_put s2 (put qs h n) h (n + size h)) as Hup2 by (unfold can_put; by rewrite (rest_npages s s2)).
  destruct (IH s2 (put qs h n) (n + size h)) as (n' & s' & qs' & E & Hs' & Hr' & Hput' & Hin & Hf & Ht);
    [lia|done|done|].
  exists n', s', qs'. split.
  { unfold mbind, M_bind. rewrite E1. rewrite Z.shiftr_div_pow2 by lia.
    replace (2 ^ (1 + Z.of_nat h)) with (size (S h)) by (unfold size; f_equal; lia).
    fold (pair_of h n). rewrite E2. exact E. }
  split_and!; [done|by eapply rest_trans|done|unfold in_block in *; lia| |].
  - intros p. rewrite Hf, (free_put s) by (done || lia). unfold in_block. rewrite HS. split; [|].
    + intros [[?|?]|?]; [by left|right; lia..].
    + intros [?|?]; [by left; left|]. destruct (decide (p < n + size h)); [left; right; lia|right; lia].
  - rewrite Ht, (total_put s), HS by (done || lia). lia.
Qed.

(** A page that a request, for DMA or not, can use. *)
Definition suitable (dma : bool) (s : mm) (n : Z) : Prop :=
  dma = true → ∃ p, mem_map s !! Z.to_nat n = Some p ∧ Z.testbit (pg_flags p) PG_DMA = true.

Lemma rm_walk_spec fuel dma h prev l s :
  linked (pnext s) (pprev s) prev l h → h ∉ l → (∀ n, n ∈ l → 0 ≤ n < npages s) → (length l < fuel)%nat →
  (rm_walk fuel dma h prev s = Ret None s ∧ ∀ n, n ∈ l → ¬ suitable dma s n) ∨
  (∃ pv n, rm_walk fuel dma h prev s = Ret (Some (pv, n)) s ∧ n ∈ l ∧ pprev s !! n = Some pv ∧ suitable dma s n).
Proof.
  revert fuel prev. induction l as [|x l IH]; intros fuel prev Hl Hh Hr Hfuel;
    (destruct fuel as [|fuel]; [cbn in Hfuel; lia|]); cbn [rm_walk linked] in *.
  - destruct Hl as [H1 _]. left. split; [|set_solver].
    unfold mbind, M_bind, ld. rewrite H1, Z.eqb_refl. done.
  - destruct Hl as (H1 & H2 & H3). destruct (Hr x ltac:(set_solver)) as [Hx1 Hx2].
    destruct (lookup_lt_is_Some_2 (mem_map s) (Z.to_nat x)) as [p Hp]; [unfold npages in *; lia|].
    assert (x ≠ h) as Hne by set_solver.
    unfold mbind, M_bind, ld, page_of. rewrite H1, (proj2 (Z.eqb_neq _ _) Hne), Hp.
    destruct (negb dma || Z.testbit (pg_flags p) PG_DMA) eqn:E.
    + right. exists prev, x. split_and!; [done|set_solver|done|]. intros ->. by exists p.
    + apply orb_false_iff in E as [E1 E2]. apply negb_false_iff in E1. subst dma.
      destruct (IH fuel x) as [[E Hno]|(pv & n & E & Hn & Hpv & Hsu)]; [done|set_solver|set_solver|cbn in Hfuel; lia|..].
      * left. split; [done|]. intros n [->|Hn]%elem_of_cons; [|by apply Hno].
        intros (p' & Hp' & Hdma); [done|]. simplify_eq. congruence.
      * right. exists pv, n. split_and!; [done|set_solver|done|done].
Qed.

Lemma queue_length s qs o : shape s qs → (o < 6)%nat → (length (qs o) ≤ length (mem_map s))%nat.
Proof.
  intros Hs Ho. assert (qs o ⊆+ seqZ 0 (npages s)) as Hsub.
  { apply NoDup_submseteq; [by eapply (qo_nodup _ _ _ (sh_queues _ _ Hs))|].
    intros n Hn. destruct (bl_block _ _ (sh_blocks _ _ Hs) o n Ho Hn). pose proof (size_pos o).
    apply elem_of_seqZ. lia. }
  apply submseteq_length in Hsub. rewrite length_seqZ in Hsub. unfold npages in *. lia.
Qed.

(** The block of order [order] at [n] is taken out of the free ones, from a
    block that begins with a page for the request. *)
Definition allocated (dma : bool) (s : mm) (qs : nat → list Z) (order : nat) (n : Z) (s' : mm)
    (qs' : nat → list Z) : Prop :=
  can_put s' qs' order n ∧
  (∀ p, free_in qs p ↔ free_in qs' p ∨ in_block order n p) ∧
  (∃ o b, (o < 6)%nat ∧ b ∈ qs o ∧ in_block o b n ∧ suitable dma s b) ∧
  outer s' = outer (s <| mem_map :=
    alter (λ p, p <| pg_count := 1 |> <| pg_age := page_initial_age s |>) (Z.to_nat n) (mem_map s) |>) ∧
  intr_count s' = intr_count s.

Lemma shape_mem s qs mp :
  length mp = length (mem_map s) → shape s qs → shape (s <| mem_map := mp |>) qs.
Proof.
  intros Hl. assert (npages (s <| mem_map := mp |>) = npages s) as Hn by (unfold npages; cbn; by rewrite Hl).
  intros [Hq Hb Hbi Ha Hsm]. split; [done|by rewrite Hn|done| |by rewrite Hn].
  split; [apply Ha|]. intros o a. rewrite Hn. apply Ha.
Qed.

Lemma shape_pages s qs f n : shape s qs → shape (s <| mem_map := alter f n (mem_map s) |>) qs.
Proof. apply shape_mem. apply length_alter. Qed.

(** Taking a block off its queue in RMQUEUE. *)
Lemma take_block s qs o n pv :
  shape s qs → (o < 6)%nat → n ∈ qs o → pprev s !! n = Some pv →
  ∃ next b s', pnext s !! n = Some next ∧
    change_bit (pair_of o n) o (with_links s (<[pv := next]> (pnext s)) (<[next := pv]> (pprev s))) = Ret b s' ∧
    shape s' (qdel qs o n) ∧ rest s s'.
Proof.
  intros Hs Ho Hn Hpv.
  destruct (remove_links s qs o n (sh_queues _ _ Hs) Ho Hn) as (next & pv' & H1 & H2 & Hq). simplify_eq.
  destruct (bl_block _ _ (sh_blocks _ _ Hs) o n Ho Hn) as (Hpos & _ & Hle).
  destruct (pair_in_range s o n Hpos Hle) as [Hp1 Hp2].
  destruct (flip_spec (with_links s (<[pv := next]> (pnext s)) (<[next := pv]> (pprev s))) o _
    (sh_areas _ _ Hs) Ho Hp1 Hp2) as (s2 & E2 & Ha2 & (fa & ->) & Hflip).
  eexists _, _, _. split; [exact H1|]. split; [exact E2|]. split; [|by eexists _, _, _].
  split; [exact Hq| | |exact Ha2|apply Hs].
  - apply blocks_take; [apply Hs|done|done|]. by apply (qo_nodup _ _ _ (sh_queues _ _ Hs)).
  - by eapply (bits_take (npages s) s); [apply Hs|apply Hs|..].
Qed.

Lemma expand_spec order new s qs n :
  (order ≤ new)%nat → (new < 6)%nat → shape s qs → can_put s qs new n →
  ∃ n' s' qs' nx pv fa, expand n order new s = Ret n' s' ∧ shape s' qs' ∧ can_put s' qs' order n' ∧
    s' = s <| pnext := nx |> <| pprev := pv |> <| free_area := fa |>
           <| mem_map := alter (λ p, p <| pg_count := 1 |> <| pg_age := page_initial_age s |>)
                           (Z.to_nat n') (mem_map s) |> ∧
    in_block new n n' ∧
    (∀ p, free_in qs' p ∨ in_block order n' p ↔ free_in qs p ∨ in_block new n p) ∧
    total qs' + size order = total qs + size new.
Proof.
  intros Hle Hnew Hs Hput. replace new with (order + (new - order))%nat in Hput by lia.
  destruct (expand_loop_spec (new - order) order s qs n) as (n' & s' & qs' & E & Hs' & (nx & pv & fa & ->) & Hput' & Hin & Hf & Ht);
    [lia|done|done|].
  replace (order + (new - order))%nat with new in * by lia.
  assert (size new = Z.shiftl 1 (Z.of_nat new)) as Hsz by (by rewrite Z.shiftl_1_l). rewrite Hsz in E.
  destruct (lookup_lt_is_Some_2 (mem_map s) (Z.to_nat n')) as [p Hp].
  { destruct Hput' as (Hpos & _ & Hle' & _). pose proof (size_pos order). unfold npages in Hle'. cbn in Hle'. lia. }
  exists n'. eexists _, qs', nx, pv, fa. split; [|split; [|split; [|split; [reflexivity|done]]]].
  - unfold expand, mbind, M_bind. rewrite E. unfold page_of, gets. cbn [mem_map upd]. rewrite Hp. reflexivity.
  - apply (shape_pages _ _ _ _ Hs').
  - destruct Hput' as (? & ? & Hle' & ?). split_and!; try done.
    unfold npages in *. cbn in *. by rewrite length_alter.
Qed.

Lemma take_can_put s s' qs o n :
  shape s qs → (o < 6)%nat → n ∈ qs o → npages s' = npages s → can_put s' (qdel qs o n) o n.
Proof.
  intros Hs Ho Hn HN. destruct (bl_block _ _ (sh_blocks _ _ Hs) o n Ho Hn) as (? & ? & ?).
  destruct (blocks_take (npages s) qs o n) as (_ & Hf & _);
    [apply Hs|done|done|by apply (qo_nodup _ _ _ (sh_queues _ _ Hs))|].
  split_and!; [done|done|by rewrite HN|]. intros p Hp. rewrite Hf. tauto.
Qed.

Lemma rmqueue_none fuel order new dma s :
  rm_walk (S (length (mem_map s))) dma (memory_head new) (memory_head new) s = Ret None s →
  rmqueue (S fuel) order new dma s =
    if (S new <? NR_MEM_LISTS)%nat then rmqueue fuel order (S new) dma s else Ret None s.
Proof. intros E. cbn [rmqueue]. unfold mbind, M_bind, gets. rewrite E. by destruct (_ <? _)%nat. Qed.

Lemma rmqueue_some fuel order new dma s pv n next s1 b :
  rm_walk (S (length (mem_map s))) dma (memory_head new) (memory_head new) s = Ret (Some (pv, n)) s →
  pnext s !! n = Some next →
  change_bit (pair_of new n) new (with_links s (<[pv := next]> (pnext s)) (<[next := pv]> (pprev s))) = Ret b s1 →
  rmqueue (S fuel) order new dma s =
    match expand n order new (s1 <| nr_free_pages := s32 (nr_free_pages s1 - size order) |>) with
    | Ret n' s' => Ret (Some n') s'
    | Stuck w s' => Stuck w s'
    end.
Proof.
  intros E H1 E1. cbn [rmqueue]. unfold mbind, M_bind, gets. rewrite E. unfold ld. rewrite H1.
  unfold set_next, set_prev, modify. rewrite Z.shiftr_div_pow2 by lia.
  replace (2 ^ (1 + Z.of_nat new)) with (size (S new)) by (unfold size; f_equal; lia).
  fold (pair_of new n). set (t := with_links _ _ _) in E1.
  change (change_bit (pair_of new n) new _) with (change_bit (pair_of new n) new t).
  rewrite E1, Z.shiftl_1_l. fold (size order).
  by destruct (expand _ _ _ _).
Qed.

Lemma rmqueue_spec fuel order new dma s qs :
  mm_inv s qs → (order ≤ new)%nat → (new < 6)%nat → (6 ≤ new + fuel)%nat →
  (rmqueue fuel order new dma s = Ret None s ∧
     ∀ o n, (new ≤ o < 6)%nat → n ∈ qs o → ¬ suitable dma s n) ∨
  (∃ n s' qs', rmqueue fuel order new dma s = Ret (Some n) s' ∧ mm_inv s' qs' ∧
     allocated dma s qs order n s' qs').
Proof.
  intros [Hs Hc] Hle. revert fuel Hle. induction (6 - new)%nat as [|k IH] eqn:Ek in new |- *; intros fuel Hle Hnew Hfuel; [lia|].
  destruct fuel as [|fuel]; [lia|].
  destruct (rm_walk_spec (S (length (mem_map s))) dma (memory_head new) (memory_head new) (qs new) s)
    as [[E Hno]|(pv & n & E & Hn & Hpv & Hsu)].
  { by eapply (qo_link _ _ _ (sh_queues _ _ Hs)). }
  { pose proof (head_nodup _ _ _ _ (sh_queues _ _ Hs) Hnew) as Hnd. by inversion Hnd. }
  { intros n Hn. destruct (bl_block _ _ (sh_blocks _ _ Hs) new n Hnew Hn). pose proof (size_pos new). lia. }
  { pose proof (queue_length s qs new Hs Hnew). lia. }
  - rewrite (rmqueue_none _ _ _ _ _ E). destruct (S new <? NR_MEM_LISTS)%nat eqn:El.
    + apply Nat.ltb_lt in El. unfold NR_MEM_LISTS in El.
      destruct (IH (S new) ltac:(lia) fuel) as [[E2 Hno2]|Hfound]; [lia..| |by right].
      left. split; [done|]. intros o m Ho Hm. destruct (decide (o = new)) as [->|]; [by apply Hno|].
      apply (Hno2 o); [lia|done].
    + apply Nat.ltb_ge in El. unfold NR_MEM_LISTS in El. left. split; [done|].
      intros o m Ho Hm. assert (o = new) as -> by lia. by apply Hno.
  - right. destruct (take_block s qs new n pv Hs Hnew Hn Hpv) as (next & b & s1 & H1 & E1 & Hs1 & Hr1).
    rewrite (rmqueue_some _ _ _ _ _ _ _ _ _ _ E H1 E1).
    set (s2 := s1 <| nr_free_pages := s32 (nr_free_pages s1 - size order) |>).
    destruct (blocks_take (npages s) qs new n) as (_ & Hf & Ht);
      [apply Hs|done|done|by apply (qo_nodup _ _ _ (sh_queues _ _ Hs))|].
    destruct (expand_spec order new s2 (qdel qs new n) n) as (n' & s' & qs' & nx & pv' & fa & E2 & Hs' & Hput & Es & Hin & Hf' & Ht');
      [done|done|by apply shape_count| |].
    { apply (take_can_put s); try done. apply (rest_npages _ _ Hr1). }
    exists n', s', qs'. split; [by rewrite E2|split].
    + split; [done|]. rewrite Es. change (s32 (nr_free_pages s1 - size order) = total qs').
      pose proof (total_bound _ _ Hs). pose proof (total_bound _ _ Hs') as Hb.
      assert (npages s' ≤ 2 ^ 20) as Hsm by apply Hs'. pose proof (sh_small _ _ Hs).
      destruct Hr1 as (? & ? & ? & ->). change (nr_free_pages _) with (nr_free_pages s).
      rewrite Hc, s32_id; lia.
    + split_and!; [done| | | |].
      * intros p. rewrite Hf', Hf. destruct (decide (in_block new n p)); [|tauto].
        split; [tauto|]. intros _. by exists new, n.
      * by exists new, n.
      * rewrite Es. by destruct Hr1 as (? & ? & ? & ->).
      * rewrite Es. by destruct Hr1 as (? & ? & ? & ->).
Qed.

(** ** Maximal blocks *)

Lemma aligned_le k a b : a mod size k = 0 → b mod size k = 0 → a < b + size k → a ≤ b.
Proof.
  intros Ha Hb Hlt. pose proof (size_pos k). apply Z.div_exact in Ha; [|lia]. apply Z.div_exact in Hb; [|lia].
  rewrite Ha, Hb in Hlt |- *. assert (a / size k < b / size k + 1) by nia. nia.
Qed.

Lemma aligned_weaken k o n : (k ≤ o)%nat → n mod size o = 0 → n mod size k = 0.
Proof.
  intros Hk Hn. pose proof (size_pos k). pose proof (size_pos o). apply Z.div_exact in Hn; [|lia].
  assert (size o = size (o - k) * size k) as E.
  { unfold size. rewrite <-Z.pow_add_r by lia. f_equal. lia. }
  rewrite Hn, E, (Z.mul_comm (size (o - k))), <-Z.mul_assoc, Z.mul_comm. apply Z.mod_mul. lia.
Qed.

(** An aligned block that is free page by page lies in one free block. *)
Lemma free_block_inside N qs k b :
  blocks N qs → (k < 6)%nat → b mod size k = 0 → (∀ p, in_block k b p → free_in qs p) →
  ∃ o n, (k ≤ o < 6)%nat ∧ n ∈ qs o ∧ in_block o n b.
Proof.
  intros Hb. revert b. induction k as [|k IH]; intros b Hk Hal Hf.
  { destruct (Hf b) as (o & n & Ho & Hn & Hp); [unfold in_block, size; cbn; lia|]. exists o, n. split; [lia|done]. }
  pose proof (size_S k) as HS. pose proof (size_pos k).
  assert (b mod size k = 0) as Hal1 by (eapply (aligned_weaken k (S k)); [lia|done]).
  assert ((b + size k) mod size k = 0) as Hal2 by (rewrite Z.add_mod, Hal1, Z.mod_same, Z.mod_0_l by lia; done).
  destruct (IH b) as (o1 & n1 & Ho1 & Hn1 & Hp1); [lia|done|intros p Hp; apply Hf; unfold in_block in *; lia|].
  destruct (IH (b + size k)) as (o2 & n2 & Ho2 & Hn2 & Hp2);
    [lia|done|intros p Hp; apply Hf; unfold in_block in *; lia|].
  destruct (decide (o1 = k)) as [->|]; [|exists o1, n1; split; [lia|done]].
  destruct (bl_block _ _ Hb k n1 ltac:(lia) Hn1) as (_ & Hala1 & _).
  destruct (bl_block _ _ Hb o2 n2 ltac:(lia) Hn2) as (_ & Hala2 & _).
  unfold in_block in *. destruct (decide (o2 = k)) as [->|].
  - assert (n1 = b) as -> by (pose proof (aligned_le k b n1 Hal1 Hala1); lia).
    assert (n2 = b + size k) as -> by (pose proof (aligned_le k (b + size k) n2 Hal2 Hala2); lia).
    exfalso. enough (b = b + size k) by lia. eapply (bl_pair _ _ Hb k); [lia|done..|].
    unfold pair_of. apply Z.div_exact in Hal; [|lia]. rewrite Hal, (Z.mul_comm (size (S k))).
    rewrite Z.div_mul, Z.div_add_l, (Z.div_small (size k)) by lia. lia.
  - exists o2, n2. split; [lia|]. split; [done|]. split; [|lia].
    apply (aligned_le (S k)); [|done|lia]. by eapply (aligned_weaken (S k) o2); [lia|].
Qed.

(** So the free pages determine the queues, up to order. *)
Lemma blocks_unique N N' qs qs' :
  blocks N qs → blocks N' qs' → (∀ p, free_in qs p ↔ free_in qs' p) →
  ∀ o n, (o < 6)%nat → n ∈ qs o → n ∈ qs' o.
Proof.
  intros Hb Hb' Hf o n Ho Hn. destruct (bl_block _ _ Hb o n Ho Hn) as (_ & Hal & _).
  destruct (free_block_inside N' qs' o n Hb' Ho Hal) as (o' & n' & Ho' & Hn' & Hp').
  { intros p Hp. apply Hf. by exists o, n. }
  destruct (bl_block _ _ Hb' o' n' ltac:(lia) Hn') as (_ & Hal' & _).
  destruct (free_block_inside N qs o' n' Hb ltac:(lia) Hal') as (o2 & n2 & Ho2 & Hn2 & Hp2).
  { intros p Hp. apply Hf. exists o', n'. split; [lia|done]. }
  destruct (bl_block _ _ Hb o2 n2 ltac:(lia) Hn2) as (_ & Hal2 & _).
  assert (size o' ≤ size o2) as Hsz by (apply Z.pow_le_mono_r; lia).
  assert (n' + size o' ≤ n2 + size o2) as Hend.
  { pose proof (aligned_weaken o' o2 n2 ltac:(lia) Hal2) as Hw. unfold in_block in *.
    assert ((n2 + size o2 - size o') mod size o' = 0) as Hw2.
    { pose proof (size_pos o'). assert (size o2 mod size o' = 0) as Hd.
      { apply (aligned_weaken o' o2); [lia|]. apply Z.mod_same. pose proof (size_pos o2). lia. }
      rewrite Zminus_mod, Z.mod_same, Z.add_mod, Hw, Hd by lia. cbn [Z.add Z.sub Z.opp]. by rewrite !Z.mod_0_l by lia. }
    pose proof (aligned_le o' n' (n2 + size o2 - size o') Hal' Hw2). lia. }
  destruct (bl_disj _ _ Hb o o2 n n2 n) as [<- <-]; [lia|lia|done|done| |unfold in_block in *; lia|].
  { unfold in_block. pose proof (size_pos o). lia. }
  assert (o' = o) as -> by lia.
  replace n with n'; [done|]. unfold in_block in *. pose proof (aligned_le o n n' Hal Hal'). lia.
Qed.
