(* ===== verification/PageAllocSys.v ===== *)
(** * PageAllocSys: the page allocator as its users see it

    Requests and releases in any order: who gets which pages, when a request
    fails, and what is left when everything was given back; and the state that
    boot leaves. *)

From stdpp Require Import gmap relations.
From S2P Require Import Prelude PageAlloc PageAllocFacts.

(** ** Specification *)

(** What successful calls of [try_to_free_page] make of memory. *)
Inductive tried : list (mm → mm) → mm → mm → Prop :=
| tried_none ts s : tried ts s s
| tried_one t ts s s' : tried ts (t s) s' → tried (t :: ts) s s'.

Definition try_ok (t : mm → mm) : Prop := ∀ s qs, mm_inv s qs → ∃ qs', mm_inv (t s) qs'.

Definition usable (s : mm) (n : Z) : Prop :=
  ∃ p, mem_map s !! Z.to_nat n = Some p ∧ Z.testbit (pg_flags p) PG_reserved = false.

(** Memory and the blocks that were given out, by their first pages. *)
Record heap := MkHeap { h_mm : mm; owned : gmap Z nat }.

Inductive heap_step : heap → heap → Prop :=
| step_get s own priority order dma r s' :
    __get_free_pages [] priority order dma s = Ret r s' → r ≠ 0 →
    heap_step (MkHeap s own) (MkHeap s' (<[Z.shiftr r PAGE_SHIFT := order]> own))
| step_fail s own priority order dma s' :
    __get_free_pages [] priority order dma s = Ret 0 s' → heap_step (MkHeap s own) (MkHeap s' own)
| step_free s own n order s' :
    own !! n = Some order → free_pages (ADDRESS n) order s = Ret tt s' →
    heap_step (MkHeap s own) (MkHeap s' (delete n own))
| step_intr s own i : heap_step (MkHeap s own) (MkHeap (s <| intr_count := i |>) own).

(** The pages of [F] are shared out between the queues and the owners. *)
Record heap_inv (F : Z → Prop) (h : heap) (qs : nat → list Z) : Prop := {
  hi_mm : mm_inv (h_mm h) qs;
  hi_high : Z.shiftr (high_memory (h_mm h)) PAGE_SHIFT = npages (h_mm h);
  hi_usable : ∀ p, F p → usable (h_mm h) p;
  hi_owned : ∀ n o, owned h !! n = Some o →
    (o < 6)%nat ∧ can_put (h_mm h) qs o n ∧ (pg_count <$> mem_map (h_mm h) !! Z.to_nat n) = Some 1;
  hi_apart : ∀ n o n' o' p, owned h !! n = Some o → owned h !! n' = Some o' →
    in_block o n p → in_block o' n' p → n = n';
  hi_pages : ∀ p, F p ↔ free_in qs p ∨ ∃ n o, owned h !! n = Some o ∧ in_block o n p;
}.

(** ** Lemmas *)

Lemma inv_gfp_count s qs c : mm_inv s qs → mm_inv (s <| gfp_count := c |>) qs.
Proof. intros [[? ? ? ? ?] ?]. by split. Qed.

Lemma inv_intr_count s qs i : mm_inv s qs → mm_inv (s <| intr_count := i |>) qs.
Proof. intros [[? ? ? ? ?] ?]. by split. Qed.

Lemma address_id s qs order n :
  mm_inv s qs → can_put s qs order n → ADDRESS n = n * 2 ^ 12 ∧ Z.shiftr (ADDRESS n) PAGE_SHIFT = n.
Proof.
  intros [Hs _] (Hpos & _ & Hle & _). pose proof (sh_small _ _ Hs). pose proof (size_pos order).
  unfold ADDRESS, PAGE_SHIFT. rewrite Z.shiftl_mul_pow2, u32_id by lia. split; [done|].
  rewrite Z.shiftr_div_pow2 by lia. apply Z.div_mul. lia.
Qed.

Lemma gfp_loop_spec tries priority reserved order dma s qs :
  mm_inv s qs → Forall try_ok tries → (order < 6)%nat →
  ∃ r s' s0 qs0, gfp_loop tries priority reserved order dma s = Ret r s' ∧
    tried tries s s0 ∧ mm_inv s0 qs0 ∧ (tries = [] → qs0 = qs) ∧
    ((r = 0 ∧ s' = s0) ∨
     (∃ n qs', r = n * 2 ^ 12 ∧ 0 < n ∧ mm_inv s' qs' ∧ allocated dma s0 qs0 order n s' qs')).
Proof.
  intros Hs Ht Ho. revert s qs Hs. induction Ht as [|t tries Ht1 Ht IH]; intros s qs Hs.
  all: cbn [gfp_loop]; unfold mbind, M_bind, gets.
  all: destruct ((priority =? GFP_ATOMIC) || (reserved <? nr_free_pages s)).
  1,3: destruct (rmqueue_spec NR_MEM_LISTS order order dma s qs Hs) as [[E Hno]|(n & s' & qs' & E & Hs' & Ha)];
    [lia..|unfold NR_MEM_LISTS; lia| |];
    [exists 0, s, s, qs; rewrite E; split_and!; [done|apply tried_none|done|done|by left]
    |exists (ADDRESS n), s', s, qs; rewrite E; split_and!; [done|apply tried_none|done|done|right];
     exists n, qs'; destruct (address_id s' qs' order n Hs' (proj1 Ha)) as [-> _];
     split_and!; [done|apply Ha|done|done]].
  all: destruct (priority =? GFP_BUFFER);
    [exists 0, s, s, qs; split_and!; [done|apply tried_none|done|done|by left]|].
  - exists 0, s, s, qs. split_and!; [done|apply tried_none|done|done|by left].
  - destruct (Ht1 s qs Hs) as [qs1 Hs1].
    destruct (IH (t s) qs1 Hs1) as (r & s' & s0 & qs0 & E & Htr & H0 & _ & Hres).
    exists r, s', s0, qs0. split_and!; [done|by constructor|done|done|done].
Qed.

Lemma get_free_pages_loop tries priority order dma s :
  (order < 6)%nat → ∃ c pr, __get_free_pages tries priority order dma s =
    gfp_loop tries pr (reserve pr (min_free_pages s)) order dma (s <| gfp_count := c |>) ∧
    (priority = GFP_ATOMIC → pr = GFP_ATOMIC).
Proof.
  intros Ho. unfold __get_free_pages. rewrite (proj2 (Nat.leb_gt _ _)) by (unfold NR_MEM_LISTS; lia).
  unfold gfp_priority, mbind, M_bind, gets. destruct (negb (intr_count s =? 0) && _) eqn:E.
  - unfold modify. eexists _, _. split; [reflexivity|]. intros ->. by rewrite Z.eqb_refl, andb_false_r in E.
  - exists (gfp_count s), priority. split; [by destruct s|done].
Qed.

Lemma allocated_usable s s' qs qs' dma order n p :
  allocated dma s qs order n s' qs' → usable s p → usable s' p.
Proof.
  intros (_ & _ & _ & Ho & _) (q & Hq & Hr). unfold outer in Ho. injection Ho as Hm _ _ _.
  unfold usable. rewrite Hm. cbn [mem_map upd].
  destruct (decide (Z.to_nat p = Z.to_nat n)) as [E|Hne].
  - rewrite <-E, list_lookup_alter_eq, Hq. eexists. split; [reflexivity|done].
  - rewrite list_lookup_alter_ne by done. by exists q.
Qed.

(** Allocation keeps the sharing out. *)
Lemma get_keeps F s own qs dma order n s' qs' :
  heap_inv F (MkHeap s own) qs → (order < 6)%nat → mm_inv s' qs' →
  allocated dma s qs order n s' qs' → heap_inv F (MkHeap s' (<[n := order]> own)) qs'.
Proof.
  intros Hi Ho Hs' Ha. pose proof Ha as (Hput & Hf & _ & Hout & _). pose proof Hi as [Hs Hh Hu Hown Hap Hpg].
  cbn [h_mm owned] in *. unfold outer in Hout. injection Hout as Hm _ Hhigh _. cbn [mem_map high_memory upd] in *.
  assert (npages s' = npages s) as HN by (unfold npages; rewrite Hm; by rewrite length_alter).
  assert (∀ m o p, own !! m = Some o → in_block o m p → in_block order n p → False) as Hnew.
  { intros m o p Hm' Hp Hp'. destruct (Hown m o Hm') as (_ & (_ & _ & _ & Hnf) & _).
    apply (Hnf p Hp). apply Hf. by right. }
  assert (∀ m o, own !! m = Some o → m ≠ n) as Hne.
  { intros m o Hm' ->. eapply (Hnew n o n Hm'); unfold in_block; [pose proof (size_pos o)|pose proof (size_pos order)]; lia. }
  assert (own !! n = None) as Hn.
  { destruct (own !! n) as [o|] eqn:E; [|done]. by destruct (Hne n o E). }
  split; cbn [h_mm owned].
  - done.
  - by rewrite Hhigh, Hh, HN.
  - intros p Hp. by eapply allocated_usable; [|apply Hu].
  - intros m o Hmo. apply lookup_insert_Some in Hmo as [[-> ->]|[Hne' Hmo]].
    + split; [done|]. split; [done|]. rewrite Hm, list_lookup_alter_eq.
      destruct Hput as (Hpos & _ & Hle & _). pose proof (size_pos o).
      destruct (lookup_lt_is_Some_2 (mem_map s) (Z.to_nat m)) as [q ->]; [unfold npages in *; lia|done].
    + destruct (Hown m o Hmo) as (Ho' & (Hpos & Hal & Hle & Hnf) & Hc). split; [done|]. split.
      * split_and!; [done|done|by rewrite HN|]. intros p Hp Hfp. apply (Hnf p Hp), Hf. by left.
      * rewrite Hm, list_lookup_alter_ne; [done|]. destruct Hput as (Hpos' & _). lia.
  - intros m o m' o' p H1 H2 Hp1 Hp2.
    apply lookup_insert_Some in H1 as [[<- <-]|[? H1]], H2 as [[<- <-]|[? H2]]; [done|exfalso..|by eapply Hap].
    + by eapply (Hnew m' o' p).
    + by eapply (Hnew m o p).
  - intros p. rewrite Hpg, Hf. split.
    + intros [[?|?]|(m & o & Hmo & Hp)]; [by left|right; exists n, order|right; exists m, o].
      * by rewrite lookup_insert_eq.
      * split; [|done]. rewrite lookup_insert_ne; [done|]. apply not_eq_sym. by eapply Hne.
    + intros [?|(m & o & Hmo & Hp)]; [by left; left|].
      apply lookup_insert_Some in Hmo as [[<- <-]|[? Hmo]]; [by left; right|right; by exists m, o].
Qed.

Lemma last_reference_yes s n p :
  mem_map s !! Z.to_nat n = Some p → Z.testbit (pg_flags p) PG_reserved = false → pg_count p = 1 →
  last_reference n s =
    Ret true (s <| mem_map := alter (λ p, p <| pg_count := s32 (pg_count p - 1) |>) (Z.to_nat n) (mem_map s) |>).
Proof.
  intros Hp Hr Hc. unfold last_reference, mbind, M_bind, page_of. rewrite Hp, Hr. unfold set_page, modify.
  by rewrite Hc.
Qed.

Lemma inv_pages s qs f n : mm_inv s qs → mm_inv (s <| mem_map := alter f n (mem_map s) |>) qs.
Proof. intros [Hs Hc]. split; [by apply shape_pages|done]. Qed.

Lemma usable_alter s f n p :
  (∀ q, pg_flags (f q) = pg_flags q) → usable s p → usable (s <| mem_map := alter f n (mem_map s) |>) p.
Proof.
  intros Hf (q & Hq & Hr). unfold usable. cbn [mem_map upd]. destruct (decide (Z.to_nat p = n)) as [<-|Hne].
  - rewrite list_lookup_alter_eq, Hq. eexists. split; [reflexivity|by rewrite Hf].
  - rewrite list_lookup_alter_ne by done. by exists q.
Qed.

(** Giving back the last reference to a block that is not free. *)
Lemma free_pages_spec s qs o n :
  mm_inv s qs → (o < 6)%nat → can_put s qs o n → Z.shiftr (high_memory s) PAGE_SHIFT = npages s →
  usable s n → (pg_count <$> mem_map s !! Z.to_nat n) = Some 1 →
  ∃ s' qs', free_pages (ADDRESS n) o s = Ret tt s' ∧ mm_inv s' qs' ∧
    outer s' = outer (s <| mem_map :=
      alter (λ p, p <| pg_count := s32 (pg_count p - 1) |>) (Z.to_nat n) (mem_map s) |>) ∧
    ∀ p, free_in qs' p ↔ free_in qs p ∨ in_block o n p.
Proof.
  intros Hs Ho Hput Hh (q & Hq & Hr) Hc. destruct (address_id s qs o n Hs Hput) as [_ Ea].
  rewrite Hq in Hc. injection Hc as Hc. pose proof Hput as (Hpos & Hal & Hle & Hnf).
  unfold free_pages. rewrite Ea. unfold mbind, M_bind, gets. rewrite Hh.
  rewrite (proj2 (Z.ltb_lt n (npages s))) by (pose proof (size_pos o); lia). cbn [when].
  rewrite (last_reference_yes s n q Hq Hr Hc). cbn [when].
  set (s1 := s <| mem_map := _ |>).
  destruct (free_pages_ok_spec s1 qs o n) as (s' & qs' & E & Hs' & Hout & _ & Hf); [by apply inv_pages|done| |].
  { split_and!; try done. subst s1. unfold npages. cbn. by rewrite length_alter. }
  exists s', qs'. done.
Qed.

Lemma free_keeps F s own qs n o :
  heap_inv F (MkHeap s own) qs → own !! n = Some o →
  ∃ s' qs', free_pages (ADDRESS n) o s = Ret tt s' ∧ heap_inv F (MkHeap s' (delete n own)) qs'.
Proof.
  intros Hi Hn. pose proof Hi as [Hs Hh Hu Hown Hap Hpg]. cbn [h_mm owned] in *.
  destruct (Hown n o Hn) as (Ho & Hput & Hc).
  assert (in_block o n n) as Hin by (unfold in_block; pose proof (size_pos o); lia).
  assert (usable s n) as Hun by (apply Hu, Hpg; right; by exists n, o).
  destruct (free_pages_spec s qs o n Hs Ho Hput Hh Hun Hc) as (s' & qs' & E & Hs' & Hout & Hf).
  exists s', qs'. split; [done|]. unfold outer in Hout. injection Hout as Hm _ Hhigh _.
  cbn [mem_map high_memory upd] in *.
  assert (npages s' = npages s) as HN by (unfold npages; rewrite Hm; by rewrite length_alter).
  split; cbn [h_mm owned].
  - done.
  - by rewrite Hhigh, Hh, HN.
  - intros p Hp. unfold usable. rewrite Hm. by apply (usable_alter s); [|apply Hu].
  - intros m o' Hmo. apply lookup_delete_Some in Hmo as [Hne Hmo].
    destruct (Hown m o' Hmo) as (Ho' & (Hpos & Hal & Hle & Hnf) & Hc'). split; [done|]. split.
    + split_and!; [done|done|by rewrite HN|]. intros p Hp Hfp. apply Hf in Hfp as [Hfp|Hp']; [by apply (Hnf p Hp)|].
      by apply Hne, (Hap n o m o' p).
    + rewrite Hm, list_lookup_alter_ne; [done|]. destruct Hput as (Hpos' & _). lia.
  - intros m1 o1 m2 o2 p [_ H1]%lookup_delete_Some [_ H2]%lookup_delete_Some. by eapply Hap.
  - intros p. rewrite Hpg, Hf. split.
    + intros [?|(m & o' & Hmo & Hp)]; [by left; left|]. destruct (decide (m = n)) as [->|Hne].
      * left. right. by simplify_eq.
      * right. exists m, o'. by rewrite lookup_delete_ne.
    + intros [[?|?]|(m & o' & [_ Hmo]%lookup_delete_Some & Hp)]; [by left|right; by exists n, o|right; by exists m, o'].
Qed.

Lemma heap_inv_mm F s s' own qs :
  heap_inv F (MkHeap s own) qs → mm_inv s' qs → outer s' = outer s → heap_inv F (MkHeap s' own) qs.
Proof.
  intros [Hs Hh Hu Hown Hap Hpg] Hs' Hout. cbn [h_mm owned] in *.
  unfold outer in Hout. injection Hout as Hm _ Hhigh _.
  assert (npages s' = npages s) as HN by (unfold npages; by rewrite Hm).
  split; cbn [h_mm owned]; try done.
  - by rewrite Hhigh, Hh, HN.
  - intros p Hp. unfold usable. rewrite Hm. by apply Hu.
  - intros n o Hn. rewrite Hm. unfold can_put. rewrite HN. by apply Hown.
Qed.

Lemma allocated_new F s own qs dma order n s' qs' :
  heap_inv F (MkHeap s own) qs → allocated dma s qs order n s' qs' → own !! n = None.
Proof.
  intros Hi (_ & Hf & _). destruct (own !! n) as [o|] eqn:E; [|done]. destruct (hi_owned _ _ _ Hi n o E) as (_ & (_ & _ & _ & Hnf) & _).
  destruct (Hnf n); [unfold in_block; pose proof (size_pos o); lia|]. apply Hf. right. unfold in_block. pose proof (size_pos order). lia.
Qed.

(** What a request that does not wait does. *)
(** A try to free a page may give pages of others to the queues, and leaves the
    blocks that were given out alone. *)
Definition try_keeps (t : mm → mm) : Prop :=
  ∀ F s own qs, heap_inv F (MkHeap s own) qs → ∃ F' qs', heap_inv F' (MkHeap (t s) own) qs'.

(** A request for pages has got none, or a new block. *)
Definition page_got (F : Z → Prop) (own : gmap Z nat) (order : nat) (r : Z) (s' : mm) (qs' : nat → list Z) : Prop :=
  (r = 0 ∧ heap_inv F (MkHeap s' own) qs') ∨
  (∃ n, r = n * 2 ^ 12 ∧ 0 < n ∧ own !! n = None ∧ heap_inv F (MkHeap s' (<[n := order]> own)) qs').

Lemma loop_page F s own qs pr reserved order dma :
  heap_inv F (MkHeap s own) qs → (order < 6)%nat →
  ∃ r s' qs', gfp_loop [] pr reserved order dma s = Ret r s' ∧ page_got F own order r s' qs'.
Proof.
  intros Hi Ho. destruct (gfp_loop_spec [] pr reserved order dma s qs) as (r & s' & s0 & qs0 & E & Ht & Hs0 & Eq & Hres);
    [apply Hi|done|done|].
  assert (s0 = s) as -> by (by inversion Ht). rewrite Eq in * by done. exists r, s'.
  destruct Hres as [[-> ->]|(n & qs' & -> & Hn & Hs' & Ha)].
  - exists qs. split; [done|by left].
  - exists qs'. split; [done|right]. exists n. split_and!; try done; [by eapply allocated_new|by eapply get_keeps].
Qed.

Lemma loop_tries tries pr reserved order dma : Forall try_keeps tries → (order < 6)%nat → ∀ F s own qs,
  heap_inv F (MkHeap s own) qs →
  ∃ r s' F' qs', gfp_loop tries pr reserved order dma s = Ret r s' ∧ (tries = [] → F' = F) ∧ page_got F' own order r s' qs'.
Proof.
  intros Ht Ho. induction Ht as [|t tries Ht1 Ht IH]; intros F s own qs Hi;
    destruct (loop_page F s own qs pr reserved order dma Hi Ho) as (r & s' & qs' & E & Hr); [by exists r, s', F, qs'|].
  revert E. cbn [gfp_loop]. unfold mbind, M_bind, gets. destruct (_ || _); [intros E; by exists r, s', F, qs'|].
  destruct (pr =? GFP_BUFFER); [intros E; by exists r, s', F, qs'|]. intros _. unfold modify.
  destruct (Ht1 F s own qs Hi) as (F1 & qs1 & Hi1). destruct (IH F1 (t s) own qs1 Hi1) as (r1 & s1 & F2 & qs2 & E1 & _ & Hr1).
  by exists r1, s1, F2, qs2.
Qed.

Lemma get_page_tries tries F s own qs priority order dma :
  Forall try_keeps tries → heap_inv F (MkHeap s own) qs →
  ∃ r s' F' qs', __get_free_pages tries priority order dma s = Ret r s' ∧ (tries = [] → F' = F) ∧ page_got F' own order r s' qs'.
Proof.
  intros Ht Hi. destruct (decide (order < 6)%nat) as [Ho|Ho]; last first.
  { exists 0, s, F, qs. unfold __get_free_pages. rewrite (proj2 (Nat.leb_le _ _)) by (unfold NR_MEM_LISTS; lia).
    split_and!; [done|done|by left]. }
  destruct (get_free_pages_loop tries priority order dma s Ho) as (c & pr & -> & _).
  apply (loop_tries tries pr _ order dma Ht Ho F _ own qs). by eapply heap_inv_mm; [|apply inv_gfp_count, Hi|].
Qed.

Lemma get_page F s own qs priority order dma :
  heap_inv F (MkHeap s own) qs →
  ∃ r s' qs', __get_free_pages [] priority order dma s = Ret r s' ∧ page_got F own order r s' qs'.
Proof.
  intros Hi. destruct (get_page_tries [] F s own qs priority order dma) as (r & s' & F' & qs' & E & EF & Hr); [constructor|done|].
  rewrite EF in Hr by done. by exists r, s', qs'.
Qed.

Lemma get_now F s own qs priority order dma :
  heap_inv F (MkHeap s own) qs →
  ∃ r s' qs', __get_free_pages [] priority order dma s = Ret r s' ∧
    ((r = 0 ∧ heap_inv F (MkHeap s' own) qs') ∨
     (r ≠ 0 ∧ heap_inv F (MkHeap s' (<[Z.shiftr r PAGE_SHIFT := order]> own)) qs')).
Proof.
  intros Hi. destruct (get_page F s own qs priority order dma Hi) as (r & s' & qs' & E & Hr). exists r, s', qs'. split; [done|].
  destruct Hr as [?|(n & -> & Hn & _ & Hi')]; [by left|right]. split; [lia|].
  unfold PAGE_SHIFT. by rewrite Z.shiftr_div_pow2, Z.div_mul by lia.
Qed.

Lemma step_keeps F h h' qs :
  heap_inv F h qs → heap_step h h' → ∃ qs', heap_inv F h' qs'.
Proof.
  intros Hi Hst. destruct Hst as [s own priority order dma r s' E Hr|s own priority order dma s' E|s own n o s' Hn E|s own i].
  - destruct (get_now F s own qs priority order dma Hi) as (r' & s2 & qs' & E' & Hres). rewrite E in E'. injection E' as <- <-.
    destruct Hres as [[Hr' _]|[_ Hi']]; [done|].
    by exists qs'.
  - destruct (get_now F s own qs priority order dma Hi) as (r' & s2 & qs' & E' & Hres). rewrite E in E'. injection E' as <- <-.
    destruct Hres as [[_ Hi']|[Hr' _]]; [|done].
    by exists qs'.
  - destruct (free_keeps F s own qs n o Hi Hn) as (s2 & qs' & E' & Hi'). rewrite E in E'. injection E' as <-. by exists qs'.
  - exists qs. eapply heap_inv_mm; [done|apply inv_intr_count, Hi|done].
Qed.

Lemma steps_keep F h h' qs :
  heap_inv F h qs → rtc heap_step h h' → ∃ qs', heap_inv F h' qs'.
Proof.
  intros Hi Hst. revert qs Hi. induction Hst as [|h h1 h2 H1 _ IH]; intros qs Hi; [by exists qs|].
  destruct (step_keeps F h h1 qs Hi H1) as [qs1 Hi1]. by eapply IH.
Qed.

(** *** Boot *)

Lemma LONG_ALIGN_ge x : 0 ≤ x < 2 ^ 31 → x ≤ LONG_ALIGN x.
Proof.
  intros Hx. unfold LONG_ALIGN. rewrite u32_id by lia.
  change (u32 (Z.lnot (4 - 1))) with (2 ^ 32 - size 2). rewrite land_align by lia.
  change (size 2) with 4. Z.to_euclidean_division_equations. lia.
Qed.

(** One round of [init_areas] rounds the end up to the next multiple of the
    pairs' size, and the bitmap has a bit for each pair up to there. *)
Lemma init_area_bits i N e (k := (13 + i)%nat) (e' := Z.land (u32 (e + u32 (Z.lnot (2 ^ 32 - size k)))) (2 ^ 32 - size k)) :
  (i < 6)%nat → 0 ≤ N → N * 2 ^ 12 ≤ e → e ≤ 2 ^ 31 →
  N * 2 ^ 12 ≤ e' ≤ 2 ^ 31 ∧
  N ≤ 8 * LONG_ALIGN (Z.shiftr (u32 (Z.shiftr e' (PAGE_SHIFT + Z.of_nat i) + 7)) 3) * size (S i).
Proof.
  intros Hi HN He Hle. pose proof (size_pos k) as Hk.
  assert (Z.of_nat k = 13 + Z.of_nat i) as Hkz by (unfold k; lia). clearbody k.
  assert (size k = 2 ^ 12 * size (S i)) as Ek by (unfold size; rewrite <-Z.pow_add_r by lia; f_equal; lia).
  assert (∃ c, 2 ^ 31 = c * size k ∧ size k ≤ 2 ^ 18) as (c & Hc & Hk18).
  { exists (2 ^ (31 - Z.of_nat k)). unfold size. split; [rewrite <-Z.pow_add_r by lia; f_equal; lia|].
    apply Z.pow_le_mono_r; lia. }
  assert (u32 (Z.lnot (2 ^ 32 - size k)) = size k - 1) as Em.
  { unfold Z.lnot, u32. replace (Z.pred (- (2 ^ 32 - size k))) with (size k - 1 + (-1) * 2 ^ 32) by lia.
    rewrite Z.mod_add by lia. apply Z.mod_small. lia. }
  assert (e' = (e + size k - 1) / size k * size k) as Ee.
  { subst e'. rewrite Em, u32_id, land_align by lia. do 2 f_equal. lia. }
  clearbody e'. assert (e ≤ e' ≤ 2 ^ 31) as He'.
  { rewrite Ee, Hc. split; [|apply Z.mul_le_mono_nonneg_r; [lia|apply Z.lt_succ_r, Z.div_lt_upper_bound; lia]].
    pose proof (Z.div_mod (e + size k - 1) (size k)). pose proof (Z.mod_pos_bound (e + size k - 1) (size k)). lia. }
  split; [lia|].
  assert (Z.shiftr e' (PAGE_SHIFT + Z.of_nat i) * size i * 2 ^ 12 = e') as Es.
  { rewrite Z.shiftr_div_pow2 by (unfold PAGE_SHIFT; lia). unfold PAGE_SHIFT. rewrite Z.pow_add_r by lia. fold (size i).
    rewrite Ee, Ek, size_S. replace (2 ^ 12 * (2 * size i)) with (2 * (2 ^ 12 * size i)) by lia.
    rewrite Z.mul_assoc. pose proof (size_pos i). rewrite Z.div_mul by lia. lia. }
  set (b := Z.shiftr e' (PAGE_SHIFT + Z.of_nat i)) in *. pose proof (size_pos i). pose proof (size_S i).
  assert (0 ≤ b < 2 ^ 20) as Hb by nia. rewrite u32_id by lia. rewrite Z.shiftr_div_pow2 by lia.
  pose proof (LONG_ALIGN_ge ((b + 7) / 2 ^ 3)) as Hl.
  assert (b ≤ 8 * ((b + 7) / 2 ^ 3) ∧ 0 ≤ (b + 7) / 2 ^ 3 < 2 ^ 31) as [Hb8 Hb31] by (Z.to_euclidean_division_equations; lia).
  specialize (Hl Hb31). nia.
Qed.

(** The first [i] queues are empty and their bitmaps clear and long enough. *)
Definition areas_init (N : Z) (i : nat) (s : mm) : Prop :=
  length (free_area s) = 6%nat ∧
  ∀ o, (o < i)%nat →
    pnext s !! memory_head o = Some (memory_head o) ∧ pprev s !! memory_head o = Some (memory_head o) ∧
    ∃ b, free_area s !! o = Some (MkArea 0 b) ∧ N ≤ b * size (S o).

Lemma init_areas_spec k i start e N s :
  (i + k = 6)%nat → 0 ≤ N → N * 2 ^ 12 ≤ e → e ≤ 2 ^ 31 → areas_init N i s →
  ∃ r s', init_areas (seq i k) start e (2 ^ 32 - size (12 + i)) s = Ret r s' ∧ areas_init N 6 s' ∧ rest s s'.
Proof.
  revert i start e s. induction k as [|k IH]; intros i start e s Hk HN He Hle Hi.
  { assert (i = 6%nat) as -> by lia. exists start, s. split; [done|]. split; [done|].
    exists (pnext s), (pprev s), (free_area s). by destruct s. }
  cbn [seq init_areas]. unfold init_mem_queue, set_next, set_prev, modify, mbind, M_bind.
  assert (u32 (2 ^ 32 - size (12 + i) + (2 ^ 32 - size (12 + i))) = 2 ^ 32 - size (13 + i)) as ->.
  { clear -Hk. do 6 (destruct i as [|i]; [done|]). lia. }
  destruct (init_area_bits i N e ltac:(lia) HN He Hle) as [He' Hb].
  set (e' := Z.land _ _) in *. set (b := LONG_ALIGN _) in *.
  set (s1 := upd free_area _ _).
  destruct (IH (S i) (u32 (start + b)) e' s1) as (r & s' & E & Hi' & Hr'); [lia|lia|lia|lia| |].
  - destruct Hi as [Hl Hi]. split; [cbn; by rewrite length_insert|].
    intros o Ho. cbn [s1 pnext pprev free_area upd]. destruct (decide (o = i)) as [->|Hne].
    + rewrite !lookup_insert_eq, list_lookup_insert_eq by lia. split_and!; [done..|]. exists (8 * b). done.
    + assert (memory_head o ≠ memory_head i) by (unfold memory_head; lia).
      rewrite !lookup_insert_ne, list_lookup_insert_ne by done. apply Hi. lia.
  - exists r, s'. replace (12 + S i)%nat with (13 + i)%nat in E by lia. split; [exact E|]. split; [done|].
    destruct Hr' as (nx & pv & fa & ->). by exists nx, pv, fa.
Qed.

(** No page is free, and the allocator knows it. *)
Lemma free_area_init_inv N s :
  areas_init N 6 s → npages s = N → N ≤ 2 ^ 20 → nr_free_pages s = 0 → mm_inv s (λ _, []).
Proof.
  intros [Hl Hi] HN Hsm Hnr. split; [split|done].
  - split; [|intros; constructor|intros; set_solver..].
    intros o Ho. destruct (Hi o Ho) as (? & ? & _). by split.
  - split; intros; set_solver.
  - intros o i Ho _. destruct (Hi o ltac:(lia)) as (_ & _ & b & Ha & _). unfold bit. rewrite Ha. cbn.
    rewrite Z.bits_0. split; [done|]. intros (n & Hn & _). set_solver.
  - split; [done|]. intros o a Ha. pose proof (lookup_lt_Some _ _ _ Ha) as Ho. rewrite Hl in Ho.
    destruct (Hi o Ho) as (_ & _ & b & Ha' & Hb). rewrite HN. by simplify_eq.
  - lia.
Qed.

Lemma free_area_init_spec swap start_mem end_mem s :
  0 ≤ end_mem ≤ 2 ^ 31 → nr_free_pages s = 0 →
  ∃ r s', free_area_init swap start_mem end_mem s = Ret r s' ∧ mm_inv s' (λ _, []) ∧
    mem_map s' = replicate (Z.to_nat (Z.shiftr end_mem PAGE_SHIFT)) (MkPage (2 ^ PG_DMA + 2 ^ PG_reserved) 0 0).
Proof.
  intros He Hnr. unfold free_area_init, modify, mbind, M_bind. set (n := Z.shiftr end_mem PAGE_SHIFT).
  assert (0 ≤ n ≤ 2 ^ 20 ∧ n * 2 ^ 12 ≤ end_mem) as [Hn Hn2].
  { subst n. unfold PAGE_SHIFT. rewrite Z.shiftr_div_pow2 by lia. Z.to_euclidean_division_equations. lia. }
  set (s1 := upd free_area _ _).
  destruct (init_areas_spec 6 0 (LONG_ALIGN (swap start_mem end_mem + n * sizeof_page)) end_mem n s1)
    as (r & s' & E & Hi & (nx & pv & fa & ->)); [done|lia|lia|lia| |].
  { split; [done|]. lia. }
  exists r. eexists. split; [exact E|]. split; [|done]. apply (free_area_init_inv n); [done| |lia|done].
  unfold npages. cbn -[Z.to_nat]. rewrite length_replicate. lia.
Qed.

Lemma inv_mem s qs mp :
  length mp = length (mem_map s) → mm_inv s qs → mm_inv (s <| mem_map := mp |>) qs.
Proof. intros Hl [Hs Hc]. split; [by apply shape_mem|done]. Qed.

Lemma clear_reserved_spec fuel a b s :
  0 ≤ a → b ≤ npages s → b - a < Z.of_nat fuel → (0 < fuel)%nat →
  ∃ mp, clear_reserved fuel a b s = Ret tt (s <| mem_map := mp |>) ∧ length mp = length (mem_map s) ∧
    ∀ i, mp !! i = (if decide (a ≤ Z.of_nat i < b) then clear_flag PG_reserved else id) <$> mem_map s !! i.
Proof.
  revert a s. induction fuel as [|fuel IH]; intros a s Ha Hb Hf H0; [lia|]. cbn [clear_reserved].
  destruct (a <? b) eqn:E; to_prop; last first.
  { exists (mem_map s). split; [by destruct s|]. split; [done|]. intros i. rewrite decide_False by lia.
    by destruct (mem_map s !! i). }
  destruct (lookup_lt_is_Some_2 (mem_map s) (Z.to_nat a)) as [p Hp]; [unfold npages in *; lia|].
  unfold mbind, M_bind, page_of, set_page, modify. rewrite Hp.
  set (s1 := s <| mem_map := alter (clear_flag PG_reserved) (Z.to_nat a) (mem_map s) |>).
  assert (npages s1 = npages s) as HN by (unfold npages; cbn; by rewrite length_alter).
  destruct (IH (a + 1) s1) as (mp & E1 & Hl & Hmp); [lia..|].
  exists mp. split; [exact E1|]. split; [rewrite Hl; cbn; by rewrite length_alter|].
  intros i. rewrite Hmp. subst s1. cbn [mem_map upd]. destruct (decide (i = Z.to_nat a)) as [->|Hne].
  - rewrite list_lookup_alter_eq, decide_False, decide_True by lia. by destruct (mem_map s !! _).
  - rewrite list_lookup_alter_ne by done. destruct (decide (a ≤ Z.of_nat i < b)).
    + by rewrite decide_True by lia.
    + by rewrite decide_False by lia.
Qed.

Lemma clear_flag_reserved p : Z.testbit (pg_flags (clear_flag PG_reserved p)) PG_reserved = false.
Proof. unfold clear_flag, clr. cbn [pg_flags upd]. rewrite Z.land_spec, Z.lnot_spec by done. by rewrite andb_false_r. Qed.

Lemma clear_flag_dma p : Z.testbit (pg_flags (clear_flag PG_DMA p)) PG_reserved = Z.testbit (pg_flags p) PG_reserved.
Proof. unfold clear_flag, clr. cbn [pg_flags upd]. rewrite Z.land_spec, Z.lnot_spec by done. by rewrite andb_true_r. Qed.

(** [release_all] has come to page [n]: the usable pages before it are free. *)
Record released (n : Z) (s : mm) (qs : nat → list Z) : Prop := {
  re_inv : mm_inv s qs;
  re_high : Z.shiftr (high_memory s) PAGE_SHIFT = npages s;
  re_zero : ¬ usable s 0;
  re_free : ∀ p, free_in qs p ↔ 0 ≤ p < n ∧ usable s p;
}.

Definition same_usable (s s' : mm) : Prop := ∀ p, usable s' p ↔ usable s p.

Lemma alter_usable s f n :
  (∀ q, Z.testbit (pg_flags (f q)) PG_reserved = Z.testbit (pg_flags q) PG_reserved) →
  same_usable s (s <| mem_map := alter f n (mem_map s) |>).
Proof.
  intros Hf p. unfold usable. cbn [mem_map upd]. destruct (decide (Z.to_nat p = n)) as [<-|Hne].
  - rewrite list_lookup_alter_eq. destruct (mem_map s !! Z.to_nat p) as [q|]; [|naive_solver].
    split; intros (q' & [= <-] & Hr); eexists; (split; [reflexivity|]); by rewrite ?Hf in *.
  - by rewrite list_lookup_alter_ne.
Qed.

Lemma released_alter n s qs f k :
  (∀ q, Z.testbit (pg_flags (f q)) PG_reserved = Z.testbit (pg_flags q) PG_reserved) →
  released n s qs → released n (s <| mem_map := alter f k (mem_map s) |>) qs.
Proof.
  intros Hf [Hi Hh Hz Hfr]. pose proof (alter_usable s f k Hf) as Hu. split.
  - by apply inv_pages.
  - unfold npages in *. cbn. by rewrite length_alter.
  - by rewrite (Hu 0).
  - intros p. by rewrite (Hu p).
Qed.

Lemma released_next n s qs : released n s qs → 0 ≤ n → ¬ usable s n → released (n + 1) s qs.
Proof.
  intros [Hi Hh Hz Hfr] Hn Hu. split; try done. intros p. rewrite Hfr.
  destruct (decide (p = n)) as [->|]; [|split; intros [? ?]; (split; [lia|done])]. naive_solver lia.
Qed.

Lemma released_free n s qs :
  released n s qs → 0 ≤ n < npages s → usable s n → (pg_count <$> mem_map s !! Z.to_nat n) = Some 1 →
  ∃ s' qs', free_pages (ADDRESS n) 0 s = Ret tt s' ∧ released (n + 1) s' qs' ∧ same_usable s s' ∧
    npages s' = npages s.
Proof.
  intros [Hi Hh Hz Hfr] Hn Hu Hc. assert (n ≠ 0) by (by intros ->).
  destruct (free_pages_spec s qs 0 n) as (s' & qs' & E & Hi' & Hout & Hf); try done; [lia| |].
  { split_and!; [lia|apply Z.mod_1_r|change (size 0) with 1; lia|].
    intros p Hp [Hlt _]%Hfr. unfold in_block in Hp. lia. }
  exists s', qs'. split; [done|]. unfold outer in Hout. injection Hout as Hm _ Hhigh _.
  cbn [mem_map high_memory upd] in *.
  assert (same_usable s s') as Hsu.
  { intros p. unfold usable. rewrite Hm. by apply alter_usable. }
  assert (npages s' = npages s) as HN by (unfold npages; rewrite Hm; by rewrite length_alter).
  split; [|done]. split; [done|by rewrite Hhigh, HN|by rewrite (Hsu 0)|].
  intros p. rewrite Hf, Hfr, (Hsu p). unfold in_block. change (size 0) with 1.
  destruct (decide (p = n)) as [->|]; [|split; [intros [[? ?]|?]|intros [? ?]]; try lia; try (left; split; [lia|done]); split; [lia|done]].
  split; [intros _; split; [lia|done]|intros _; right; lia].
Qed.

Lemma npages_alter s f k : npages (s <| mem_map := alter f k (mem_map s) |>) = npages s.
Proof. unfold npages. cbn. by rewrite length_alter. Qed.

Lemma usable_spec s n p :
  mem_map s !! Z.to_nat n = Some p → usable s n ↔ Z.testbit (pg_flags p) PG_reserved = false.
Proof. intros Hp. unfold usable. rewrite Hp. naive_solver. Qed.

Lemma release_all_spec fuel n s qs :
  released n s qs → 0 ≤ n ≤ npages s → npages s - n < Z.of_nat fuel →
  ∃ s' qs', release_all fuel n (npages s) s = Ret tt s' ∧ released (npages s) s' qs' ∧ same_usable s s' ∧
    npages s' = npages s.
Proof.
  revert n s qs. induction fuel as [|fuel IH]; intros n s qs Hr Hn Hf; [lia|]. cbn [release_all].
  destruct (n <? npages s) eqn:E; to_prop; last first.
  { assert (n = npages s) as -> by lia. by exists s, qs. }
  unfold mbind, M_bind.
  destruct (lookup_lt_is_Some_2 (mem_map s) (Z.to_nat n)) as [p Hp]; [unfold npages in *; lia|].
  unfold page_of at 1. rewrite Hp.
  set (s1 := if 2 ^ 12 <=? n then s <| mem_map := alter (clear_flag PG_DMA) (Z.to_nat n) (mem_map s) |> else s).
  assert (when (2 ^ 12 <=? n) (set_page n (clear_flag PG_DMA)) s = Ret tt s1) as ->.
  { subst s1. by destruct (2 ^ 12 <=? n). }
  assert (released n s1 qs ∧ same_usable s s1 ∧ npages s1 = npages s) as (Hr1 & Hu1 & HN1).
  { subst s1. destruct (2 ^ 12 <=? n); [|done]. split_and!.
    - apply released_alter; [apply clear_flag_dma|done].
    - apply alter_usable, clear_flag_dma.
    - apply npages_alter. }
  clearbody s1. destruct (lookup_lt_is_Some_2 (mem_map s1) (Z.to_nat n)) as [p1 Hp1]; [unfold npages in *; lia|].
  unfold page_of at 1. rewrite Hp1.
  assert (∃ s2 qs2, when (negb (Z.testbit (pg_flags p1) PG_reserved))
      (set_page n (λ p, p <| pg_count := 1 |>) ≫= λ _, free_pages (ADDRESS n) 0) s1 = Ret tt s2 ∧
    released (n + 1) s2 qs2 ∧ same_usable s1 s2 ∧ npages s2 = npages s1) as (s2 & qs2 & E2 & Hr2 & Hu2 & HN2).
  { destruct (Z.testbit (pg_flags p1) PG_reserved) eqn:Er; cbn [negb when].
    - exists s1, qs. split; [done|]. split; [|done]. apply released_next; [done|lia|].
      rewrite (usable_spec s1 n p1 Hp1). congruence.
    - set (s2 := s1 <| mem_map := alter (λ p, p <| pg_count := 1 |>) (Z.to_nat n) (mem_map s1) |>).
      destruct (released_free n s2 qs) as (s3 & qs3 & E3 & Hr3 & Hu3 & HN3).
      + by apply released_alter.
      + unfold s2. rewrite npages_alter. lia.
      + apply (alter_usable s1); [done|]. by apply (usable_spec s1 n p1).
      + cbn [s2 mem_map upd]. by rewrite list_lookup_alter_eq, Hp1.
      + exists s3, qs3. split; [exact E3|]. split; [done|]. split.
        * intros q. rewrite (Hu3 q). by apply (alter_usable s1).
        * rewrite HN3. apply npages_alter. }
  change (when _ _ s1) with (when (negb (Z.testbit (pg_flags p1) PG_reserved))
      (set_page n (λ p, p <| pg_count := 1 |>) ≫= λ _, free_pages (ADDRESS n) 0) s1).
  rewrite E2. replace (npages s) with (npages s2) by lia.
  destruct (IH (n + 1) s2 qs2 Hr2) as (s' & qs' & E' & Hr' & Hu' & HN'); [lia|lia|].
  exists s', qs'. split; [done|]. split; [done|]. split; [|done].
  intros q. by rewrite (Hu' q), (Hu2 q), (Hu1 q).
Qed.

(** Boot frees the pages of [F]. *)
Lemma boot_heap swap start_mem end_mem first s
    (N := Z.shiftr end_mem PAGE_SHIFT)
    (F := λ p, 1 ≤ p < 0x9f ∨ Z.shiftr (first + 0xfff) PAGE_SHIFT ≤ p < N) :
  0 ≤ end_mem ≤ 2 ^ 31 → 0x9f ≤ N → 0 < first < 2 ^ 31 → nr_free_pages s = 0 →
  ∃ r s1 s2 qs, free_area_init swap start_mem end_mem s = Ret r s1 ∧
    mem_init first end_mem s1 = Ret tt s2 ∧ heap_inv F (MkHeap s2 ∅) qs.
Proof.
  intros He HN Hfirst Hnr.
  destruct (free_area_init_spec swap start_mem end_mem s He Hnr) as (r & s1 & E1 & Hi1 & Hm1).
  fold N in Hm1. assert (npages s1 = N) as HN1 by (unfold npages; rewrite Hm1, length_replicate; lia).
  exists r, s1. unfold mem_init, modify, mbind, M_bind.
  assert (Z.shiftr (Z.land end_mem (u32 (Z.lnot (2 ^ PAGE_SHIFT - 1)))) PAGE_SHIFT = N) as HNs.
  { change (u32 (Z.lnot (2 ^ PAGE_SHIFT - 1))) with (2 ^ 32 - size 12). rewrite land_align by lia.
    subst N. unfold PAGE_SHIFT. rewrite !Z.shiftr_div_pow2 by lia. by rewrite Z.div_mul by done. }
  rewrite HNs. change (2 ^ PAGE_SHIFT) with 0x1000.
  replace (u32 (first + 0x1000 - 1)) with (first + 0xfff) by (rewrite u32_id by lia; lia).
  set (start := Z.shiftr (first + 0xfff) PAGE_SHIFT) in *.
  assert (1 ≤ start) as Hstart.
  { subst start. unfold PAGE_SHIFT. rewrite Z.shiftr_div_pow2 by lia. apply Z.div_le_lower_bound; lia. }
  set (s2 := s1 <| high_memory := _ |>).
  destruct (clear_reserved_spec (S 0x9f) 1 0x9f s2) as (mp1 & -> & Hl1 & Hmp1); [lia|unfold npages in *; cbn in *; lia|lia|lia|].
  set (s3 := s2 <| mem_map := mp1 |>).
  assert (npages s3 = N) as HN3 by (unfold npages in *; cbn in *; by rewrite Hl1).
  destruct (clear_reserved_spec (S (Z.to_nat N)) start N s3) as (mp2 & -> & Hl2 & Hmp2); [lia|lia|lia|lia|].
  set (s4 := s3 <| mem_map := mp2 |>).
  assert (npages s4 = N) as HN4 by (unfold npages in *; cbn in *; by rewrite Hl2).
  assert (∀ p, 0 ≤ p → usable s4 p ↔ F p) as HF.
  { intros p Hp. unfold usable, F. cbn [s4 mem_map upd]. rewrite Hmp2. cbn [s3 mem_map upd]. rewrite Hmp1.
    cbn [s2 mem_map upd]. rewrite Hm1, Z2Nat.id by done.
    destruct (decide (p < N)); last first.
    { rewrite (lookup_ge_None_2 (replicate _ _)) by (rewrite length_replicate; lia).
      split; [intros (? & [=] & _)|lia]. }
    rewrite lookup_replicate_2 by lia. cbn [fmap option_fmap option_map].
    destruct (decide (start ≤ p < N)), (decide (1 ≤ p < 0x9f)); split; try lia.
    1,2,3: intros _; eexists; (split; [reflexivity|]); apply clear_flag_reserved.
    intros (? & [= <-] & [=]). }
  destruct (release_all_spec (S (Z.to_nat N)) 0 s4 (λ _, [])) as (s5 & qs & E5 & [Hi5 Hh5 Hz5 Hf5] & Hu5 & HN5).
  { split.
    - apply inv_mem; [done|]. apply inv_mem; [done|]. destruct Hi1 as [[? ? ? ? ?] ?]. by split.
    - by rewrite HN4.
    - rewrite HF by lia. unfold F. lia.
    - intros p. split; [intros (? & ? & _ & Hin & _); set_solver|lia]. }
  { lia. }
  { lia. }
  rewrite HN4 in *. exists s5, qs. split; [done|]. split; [exact E5|]. split; cbn [h_mm owned]; try done.
  - intros p Hp. apply Hu5, HF; [unfold F in Hp; lia|done].
  - intros p. rewrite Hf5, (Hu5 p). split.
    + intros Hp. left. split; [unfold F in Hp; lia|]. apply HF; [unfold F in Hp; lia|done].
    + intros [[Hp Hu]|(? & ? & [=] & _)]. apply HF; [lia|done].
Qed.

Lemma boot_count F s qs start N :
  heap_inv F (MkHeap s ∅) qs → (∀ p, F p ↔ 1 ≤ p < 0x9f ∨ start ≤ p < N) → 0x9f ≤ start ≤ N →
  nr_free_pages s = 0x9e + (N - start).
Proof.
  intros Hi HF Hst. destruct (hi_mm _ _ _ Hi) as [Hs Ec]. cbn [h_mm] in *.
  rewrite Ec, <-length_free_pages.
  rewrite (Permutation_length (l' := seqZ 1 0x9e ++ seqZ start (N - start))).
  { rewrite length_app, !length_seqZ. lia. }
  apply NoDup_Permutation.
  - eapply free_pages_NoDup; [apply Hs|]. intros. by eapply (qo_nodup _ _ _ (sh_queues _ _ Hs)).
  - apply NoDup_app. split_and!; [apply NoDup_seqZ| |apply NoDup_seqZ].
    intros p. rewrite !elem_of_seqZ. lia.
  - intros p. rewrite elem_of_free_pages, elem_of_app, !elem_of_seqZ.
    pose proof (hi_pages _ _ _ Hi p) as Hp. rewrite HF in Hp. cbn [owned] in Hp.
    setoid_rewrite lookup_empty in Hp. split.
    + intros Hf. destruct (proj2 Hp (or_introl Hf)); lia.
    + intros H. destruct (proj1 Hp) as [|(? & ? & [=] & _)]; [lia|done].
Qed.

(** ** Theorems *)

(** C6: Whoever asks for pages and gives them back, in whatever order and from
    wherever: each request and each release returns; the blocks given out never
    overlap, and no page of theirs is in the queues; every page that the
    allocator manages is either in the queues or in exactly one block; and once
    everything was given back the queues hold the blocks they held at first. *)
Theorem heap_reachable F s0 qs0 h :
  heap_inv F (MkHeap s0 ∅) qs0 → rtc heap_step (MkHeap s0 ∅) h →
  ∃ qs, heap_inv F h qs ∧
    (∀ priority order dma, ∃ r s', __get_free_pages [] priority order dma (h_mm h) = Ret r s') ∧
    (∀ n o, owned h !! n = Some o → ∃ s', free_pages (ADDRESS n) o (h_mm h) = Ret tt s') ∧
    (owned h = ∅ → nr_free_pages (h_mm h) = nr_free_pages s0 ∧
       ∀ o n, (o < 6)%nat → n ∈ qs o ↔ n ∈ qs0 o).
Proof.
  intros H0 Hst. destruct (steps_keep F _ h qs0 H0 Hst) as [qs Hi]. exists qs. destruct h as [s own].
  split; [done|]. split_and!.
  - intros priority order dma. destruct (get_now F s own qs priority order dma Hi) as (r & s' & _ & E & _). by exists r, s'.
  - intros n o Hn. destruct (free_keeps F s own qs n o Hi Hn) as (s' & _ & E & _). by exists s'.
  - cbn [owned h_mm]. intros ->.
    assert (∀ p, free_in qs p ↔ free_in qs0 p) as Hf.
    { intros p. pose proof (hi_pages _ _ _ H0 p) as E0. pose proof (hi_pages _ _ _ Hi p) as E1.
      cbn [owned] in *. setoid_rewrite lookup_empty in E0. setoid_rewrite lookup_empty in E1. naive_solver. }
    split; [|].
    + destruct (hi_mm _ _ _ Hi) as [Hs Ec], (hi_mm _ _ _ H0) as [Hs0 Ec0]. cbn [h_mm] in *.
      rewrite Ec, Ec0. by eapply total_free.
    + intros o n Ho. split; eapply blocks_unique; try done; try apply (mi_shape _ _ (hi_mm _ _ _ Hi)); try apply (mi_shape _ _ (hi_mm _ _ _ H0)).
Qed.

(** C20: A request that must not wait, for a block of any size, succeeds exactly
    if some aligned block of that size is free, page by page, however the
    allocations and releases before have cut memory up; it then gets a block
    that was free, which it takes out of the free pages, and changes no other
    page. *)
Theorem atomic_get_complete order s qs :
  mm_inv s qs → (order < 6)%nat →
  ∃ r s', __get_free_pages [] GFP_ATOMIC order false s = Ret r s' ∧
    (r ≠ 0 ↔ ∃ b, b mod size order = 0 ∧ ∀ p, in_block order b p → free_in qs p) ∧
    (r ≠ 0 → ∃ n qs', r = n * 2 ^ 12 ∧ mm_inv s' qs' ∧ allocated false s qs order n s' qs').
Proof.
  intros Hs Ho. destruct (get_free_pages_loop [] GFP_ATOMIC order false s Ho) as (c & pr & -> & Hpr).
  rewrite Hpr by done. cbn [gfp_loop]. unfold mbind, M_bind, gets. cbn [Z.eqb GFP_ATOMIC Pos.eqb orb].
  destruct (rmqueue_spec NR_MEM_LISTS order order false (s <| gfp_count := c |>) qs)
    as [[E Hno]|(n & s' & qs' & E & Hs' & Ha)]; [by apply inv_gfp_count|lia|lia|unfold NR_MEM_LISTS; lia|..];
    rewrite E.
  - eexists 0, _. split; [reflexivity|]. split; [|done]. split; [done|]. intros (b & Hal & Hf). exfalso.
    destruct (free_block_inside (npages s) qs order b) as (o & n & Hon & Hn & _); [apply Hs|done..|].
    by apply (Hno o n).
  - destruct (address_id s' qs' order n Hs' (proj1 Ha)) as [Ea _]. pose proof Ha as ((Hpos & Hal & _ & _) & Hf & _).
    exists (ADDRESS n), s'. split; [done|]. rewrite Ea. split.
    + split; [|lia]. intros _. exists n. split; [done|]. intros p Hp. apply Hf. by right.
    + intros _. by exists n, qs'.
Qed.

(** C21: boot hands over exactly the usable memory: after [free_area_init] and
    [mem_init] the queues hold, in maximal blocks, the pages from 1 up to 0x9e
    and those behind the kernel's data, and no others, nothing is given out,
    and [nr_free_pages] is their number. *)
Theorem boot_frees_memory swap start_mem end_mem first s
    (N := Z.shiftr end_mem PAGE_SHIFT) (start := Z.shiftr (first + 0xfff) PAGE_SHIFT) :
  0 ≤ end_mem ≤ 2 ^ 31 → 0x9f ≤ start ≤ N → 0 < first < 2 ^ 31 → nr_free_pages s = 0 →
  ∃ r s1 s2 qs, free_area_init swap start_mem end_mem s = Ret r s1 ∧
    mem_init first end_mem s1 = Ret tt s2 ∧
    heap_inv (λ p, 1 ≤ p < 0x9f ∨ start ≤ p < N) (MkHeap s2 ∅) qs ∧
    nr_free_pages s2 = 0x9e + (N - start).
Proof.
  intros He HN Hfirst Hnr.
  destruct (boot_heap swap start_mem end_mem first s He ltac:(fold N; lia) Hfirst Hnr) as (r & s1 & s2 & qs & E1 & E2 & Hi).
  exists r, s1, s2, qs. split_and!; [done..|]. by eapply boot_count.
Qed.

(** ** Witnesses *)

Definition no_mm : mm := MkMm ∅ ∅ [] [] 0 20 0 3 0 0.

(** Four megabytes, of which the kernel takes the part from 1 MB to 1.5 MB. *)
Lemma boot_frees_memory_witness :
  ∃ r s1 s2 qs, free_area_init (λ m _, m) 0x100000 0x400000 no_mm = Ret r s1 ∧
    mem_init 0x180000 0x400000 s1 = Ret tt s2 ∧
    heap_inv (λ p, 1 ≤ p < 0x9f ∨ 0x180 ≤ p < 0x400) (MkHeap s2 ∅) qs ∧ nr_free_pages s2 = 798.
Proof. apply (boot_frees_memory (λ m _, m) 0x100000 0x400000 0x180000 no_mm); done. Defined.

Lemma sample_heap : ∃ F s qs, heap_inv F (MkHeap s ∅) qs ∧ nr_free_pages s = 798.
Proof.
  destruct (boot_heap (λ m _, m) 0x100000 0x400000 0x180000 no_mm) as (r & s1 & s2 & qs & _ & _ & Hi); [done..|].
  eexists _, s2, qs. split; [exact Hi|]. by rewrite (boot_count _ s2 qs 0x180 0x400 Hi).
Qed.

Lemma atomic_get_complete_witness :
  ∃ s qs, mm_inv s qs ∧ nr_free_pages s = 798 ∧
    ∃ r s', __get_free_pages [] GFP_ATOMIC 3 false s = Ret r s' ∧
      (r ≠ 0 ↔ ∃ b, b mod size 3 = 0 ∧ ∀ p, in_block 3 b p → free_in qs p).
Proof.
  destruct sample_heap as (F & s & qs & Hi & Hn). exists s, qs. split; [apply Hi|]. split; [done|].
  destruct (atomic_get_complete 3 s qs) as (r & s' & E & Hr & _); [apply Hi|lia|]. by exists r, s'.
Defined.

Lemma heap_reachable_witness :
  ∃ F s0 qs0 h r, heap_inv F (MkHeap s0 ∅) qs0 ∧ rtc heap_step (MkHeap s0 ∅) h ∧
    __get_free_pages [] GFP_ATOMIC 2 false s0 = Ret r (h_mm h) ∧ ∃ qs, heap_inv F h qs.
Proof.
  destruct sample_heap as (F & s & qs & Hi & Hn).
  destruct (get_now F s ∅ qs GFP_ATOMIC 2 false Hi) as (r & s' & _ & E & _).
  assert (∃ own, rtc heap_step (MkHeap s ∅) (MkHeap s' own)) as [own Hst].
  { destruct (decide (r = 0)) as [->|Hr]; eexists; apply rtc_once; [by eapply step_fail|by eapply step_get]. }
  exists F, s, qs, (MkHeap s' own), r. split_and!; [done..|].
  destruct (heap_reachable F s qs _ Hi Hst) as (qs' & Hi' & _). by exists qs'.
Defined.
