(* ===== verification/Kmalloc.v ===== *)
(** * Kmalloc: small pieces of memory

    Models mm/kmalloc.c for pages of 4096 bytes.

    The descriptors at the front of areas and the headers in front of blocks
    are kept by their addresses, as the words that the code stores there; the
    word that holds either the length of a block or the next free block is
    [bh_vp].  Memory that was given back to the page allocator holds nothing
    any more.  Pages come from a [PageSource].

    [kmalloc] is in three parts, between which others may run: up to the request
    for pages, the request, and the use of the new area. *)

From stdpp Require Import gmap.
From S2P Require Import Prelude PageAlloc.

(** ** Code *)

Definition MF_USED : Z := 0xffaa0055.
Definition MF_DMA : Z := 0xff00aa55.
Definition MF_FREE : Z := 0x0055ffaa.
Definition GFP_DMA : Z := 0x80.
Definition GFP_LEVEL_MASK : Z := 0xf.
Definition MAX_CACHE_ORDER : nat := 3.
Definition sizeof_block_header : Z := 8.
Definition sizeof_page_descriptor : Z := 16.

Record block_header := MkHdr { bh_flags : Z; bh_vp : Z }.

Record page_descriptor := MkDesc { d_next : Z; d_firstfree : Z; d_order : Z; d_nfree : Z }.

Record size_descriptor := MkSize {
  sz_firstfree : Z; sz_dmafree : Z; nblocks : Z;
  nmallocs : Z; nfrees : Z; nbytesmalloced : Z; sz_npages : Z;
  gfporder : nat;
}.

Definition blocksize : list Z :=
  [32; 64; 128; 252; 508; 1020; 2040; 4096 - 16; 8192 - 16; 16384 - 16; 32768 - 16; 65536 - 16; 131072 - 16; 0].

Definition init_size (n : Z) (order : nat) : size_descriptor := MkSize 0 0 n 0 0 0 0 order.

Definition sizes_init : list size_descriptor :=
  [init_size 127 0; init_size 63 0; init_size 31 0; init_size 16 0; init_size 8 0; init_size 4 0; init_size 2 0;
   init_size 1 0; init_size 1 1; init_size 1 2; init_size 1 3; init_size 1 4; init_size 1 5; init_size 0 0].

(** Where pages come from: [__get_free_pages], [free_pages] and [intr_count]. *)
Class PageSource (P : Type) := {
  ps_get : Z → nat → bool → M P Z;
  ps_free : Z → nat → M P unit;
  ps_intr : P → Z;
}.

Record ks (P : Type) := MkKs {
  pages : P;
  descs : gmap Z page_descriptor;
  hdrs : gmap Z block_header;
  sizes : list size_descriptor;
  kmalloc_cache : list Z;
  k_count : Z;
}.
Arguments MkKs {P} _ _ _ _ _ _.
Arguments pages {P} _.
Arguments descs {P} _.
Arguments hdrs {P} _.
Arguments sizes {P} _.
Arguments kmalloc_cache {P} _.
Arguments k_count {P} _.

#[global] Instance eta_block_header : Eta block_header := λ x, MkHdr (bh_flags x) (bh_vp x).
#[global] Instance eta_page_descriptor : Eta page_descriptor := λ x, MkDesc (d_next x) (d_firstfree x) (d_order x) (d_nfree x).
#[global] Instance eta_size_descriptor : Eta size_descriptor := λ x,
  MkSize (sz_firstfree x) (sz_dmafree x) (nblocks x) (nmallocs x) (nfrees x) (nbytesmalloced x) (sz_npages x) (gfporder x).
#[global] Instance eta_ks {P} : Eta (ks P) := λ x,
  MkKs (pages x) (descs x) (hdrs x) (sizes x) (kmalloc_cache x) (k_count x).

(** A request that found no page in its bucket. *)
Record request := MkReq { rq_size : Z; rq_order : nat; rq_dma : bool; rq_priority : Z }.

Definition block_type (dma : bool) : Z := if dma then MF_DMA else MF_USED.

(** The loop that finds the bucket; [None] is a block that is too large. *)
Fixpoint find_order (bs : list Z) (realsize : Z) (order : nat) : option nat :=
  match bs with
  | [] => None
  | ordersize :: bs' =>
      if realsize <=? ordersize then Some order
      else if ordersize =? 0 then None
      else find_order bs' realsize (S order)
  end.

(** The check of the tables; [None] is the panic. *)
Fixpoint check_sizes (bs : list Z) (sz : list size_descriptor) : option unit :=
  match bs, sz with
  | b :: bs', d :: sz' =>
      if b =? 0 then Some tt
      else if Z.shiftl 4096 (Z.of_nat (gfporder d)) <? nblocks d * b + sizeof_page_descriptor then None
      else check_sizes bs' sz'
  | _, _ => None
  end.

Definition kmalloc_init (start_mem end_mem : Z) : option Z :=
  match check_sizes blocksize sizes_init with Some _ => Some start_mem | None => None end.

Section kmalloc.
Context {P : Type} `{PageSource P}.
Implicit Types (s : ks P).

Definition ks_init (p : P) : ks P := MkKs p ∅ ∅ sizes_init [0; 0; 0] 0.

Definition on_pages {A} (m : M P A) : M (ks P) A := λ s,
  match m (pages s) with
  | Ret a p => Ret a (s <| pages := p |>)
  | Stuck e p => Stuck e (s <| pages := p |>)
  end.

Definition ld_desc (a : Z) : M (ks P) page_descriptor := λ s,
  match descs s !! a with Some d => Ret d s | None => Stuck NullDeref s end.
Definition st_desc (a : Z) (f : page_descriptor → page_descriptor) : M (ks P) unit :=
  modify (λ s, s <| descs := <[a := f (default (MkDesc 0 0 0 0) (descs s !! a))]> (descs s) |>).
Definition ld_hdr (a : Z) : M (ks P) block_header := λ s,
  match hdrs s !! a with Some h => Ret h s | None => Stuck NullDeref s end.
Definition st_hdr (a : Z) (h : block_header) : M (ks P) unit :=
  modify (λ s, s <| hdrs := <[a := h]> (hdrs s) |>).
Definition ld_size (o : nat) : M (ks P) size_descriptor := λ s,
  match sizes s !! o with Some d => Ret d s | None => Stuck OutOfBounds s end.
Definition st_size (o : nat) (f : size_descriptor → size_descriptor) : M (ks P) unit :=
  modify (λ s, s <| sizes := alter f o (sizes s) |>).

(** [*pg] *)
Definition head (dma : bool) (b : size_descriptor) : Z := if dma then sz_dmafree b else sz_firstfree b.
Definition set_head (dma : bool) (a : Z) (b : size_descriptor) : size_descriptor :=
  if dma then b <| sz_dmafree := a |> else b <| sz_firstfree := a |>.

(** [xchg(kmalloc_cache+order, page)] *)
Definition xchg_cache (order : nat) (page : Z) : M (ks P) Z := λ s,
  match kmalloc_cache s !! order with
  | Some old => Ret old (s <| kmalloc_cache := <[order := page]> (kmalloc_cache s) |>)
  | None => Stuck OutOfBounds s
  end.

(** What the area held is lost. *)
Definition forget (page : Z) (order : nat) : M (ks P) unit :=
  modify (λ s, s <| descs := delete page (descs s) |>
                 <| hdrs := filter (λ x, ¬ (page ≤ x.1 < page + Z.shiftl 4096 (Z.of_nat order))) (hdrs s) |>).

Definition get_kmalloc_pages (priority : Z) (order : nat) (dma : bool) : M (ks P) Z := on_pages (ps_get priority order dma).

Definition release (page : Z) (order : nat) : M (ks P) unit := forget page order ;; on_pages (ps_free page order).

Definition free_kmalloc_pages (page : Z) (order : nat) (dma : bool) : M (ks P) unit :=
  if negb dma && (order <? MAX_CACHE_ORDER)%nat then
    page ← xchg_cache order page;
    if page =? 0 then mret tt else release page order
  else release page order.

(** *** kmalloc *)

Definition k_priority (priority : Z) : M (ks P) Z :=
  intr ← gets (λ s, ps_intr (pages s));
  if negb (intr =? 0) && negb (priority =? GFP_ATOMIC) then
    modify (λ s, s <| k_count := s32 (k_count s + 1) |>) ;;
    count ← gets k_count;
    mret (if count <? 5 then GFP_ATOMIC else priority)
  else mret priority.

(** From [found_it] on. *)
Definition found_it (k : request) (page p : Z) : M (ks P) Z :=
  h ← ld_hdr p;
  st_desc page (λ d, d <| d_firstfree := bh_vp h |> <| d_nfree := d_nfree d - 1 |>) ;;
  d ← ld_desc page;
  when (d_nfree d =? 0) (st_size (rq_order k) (set_head (rq_dma k) (d_next d))) ;;
  st_size (rq_order k) (λ b, b <| nmallocs := s32 (nmallocs b + 1) |> <| nbytesmalloced := s32 (nbytesmalloced b + rq_size k) |>) ;;
  st_hdr p (MkHdr (block_type (rq_dma k)) (rq_size k)) ;;
  mret (p + sizeof_block_header).

(** The result, or what has to be asked for. *)
Definition kmalloc_start (size priority : Z) : M (ks P) (Z + request) :=
  match find_order blocksize (u32 (size + sizeof_block_header)) 0 with
  | None => mret (inl 0)
  | Some order =>
      let dma := has priority GFP_DMA in
      priority ← k_priority (Z.land priority GFP_LEVEL_MASK);
      let k := MkReq size order dma priority in
      b ← ld_size order;
      let page := head dma b in
      if page =? 0 then mret (inr k)
      else
        d ← ld_desc page;
        let p := d_firstfree d in
        h ← ld_hdr p;
        if negb (bh_flags h =? MF_FREE) then mret (inl 0)
        else r ← found_it k page p; mret (inl r)
  end.

(** The new area, from the page allocator or the cache; 0 if there is none. *)
Definition kmalloc_area (k : request) : M (ks P) Z :=
  b ← ld_size (rq_order k);
  page ← get_kmalloc_pages (rq_priority k) (gfporder b) (rq_dma k);
  if negb (page =? 0) then mret page
  else if negb (rq_dma k) && (rq_order k <? MAX_CACHE_ORDER)%nat then xchg_cache (rq_order k) page
  else mret 0.

Fixpoint init_blocks (i : nat) (p sz : Z) : M (ks P) unit :=
  match i with
  | O => st_hdr p (MkHdr MF_FREE 0)
  | S i' => st_hdr p (MkHdr MF_FREE (p + sz)) ;; init_blocks i' (p + sz) sz
  end.

(** The area is cut into blocks and put into its bucket. *)
Definition kmalloc_carve (k : request) (page : Z) : M (ks P) Z :=
  let sz := nth (rq_order k) blocksize 0 in
  st_size (rq_order k) (λ b, b <| sz_npages := s32 (sz_npages b + 1) |>) ;;
  b ← ld_size (rq_order k);
  st_desc page (λ d, d <| d_order := Z.of_nat (rq_order k) |> <| d_nfree := nblocks b |>) ;;
  let p := page + sizeof_page_descriptor in
  init_blocks (Z.to_nat (nblocks b - 1)) p sz ;;
  st_desc page (λ d, d <| d_next := head (rq_dma k) b |>) ;;
  st_size (rq_order k) (set_head (rq_dma k) page) ;;
  found_it k page p.

Definition kmalloc (size priority : Z) : M (ks P) Z :=
  r ← kmalloc_start size priority;
  match r with
  | inl r => mret r
  | inr k => page ← kmalloc_area k; if page =? 0 then mret 0 else kmalloc_carve k page
  end.

(** *** kfree *)

(** A place that holds the address of an area: the head of a list, or [next]. *)
Inductive place := Head | Next (a : Z).

Definition ld_place (o : nat) (dma : bool) (pg : place) : M (ks P) Z :=
  match pg with
  | Head => b ← ld_size o; mret (head dma b)
  | Next a => d ← ld_desc a; mret (d_next d)
  end.
Definition st_place (o : nat) (dma : bool) (pg : place) (v : Z) : M (ks P) unit :=
  match pg with
  | Head => st_size o (set_head dma v)
  | Next a => st_desc a (λ d, d <| d_next := v |>)
  end.

(** Whether the area was found and taken off the list. *)
Fixpoint unlink_area (fuel : nat) (o : nat) (dma : bool) (pg : place) (page : Z) : M (ks P) bool :=
  match fuel with
  | O => halt OutOfFuel
  | S fuel' =>
      tmp ← ld_place o dma pg;
      if tmp =? 0 then mret false
      else if tmp =? page then d ← ld_desc page; st_place o dma pg (d_next d) ;; mret true
      else unlink_area fuel' o dma (Next tmp) page
  end.

(** From [free_page] on. *)
Definition free_area_of (o : nat) (dma : bool) (page : Z) : M (ks P) unit :=
  st_size o (λ b, b <| sz_npages := s32 (sz_npages b - 1) |>) ;;
  b ← ld_size o;
  free_kmalloc_pages page (gfporder b) dma.

(** The block goes back to its area. *)
Definition kfree_block (o : nat) (dma : bool) (page ptr : Z) : M (ks P) unit :=
  h ← ld_hdr ptr;
  st_size o (λ b, b <| nfrees := s32 (nfrees b + 1) |> <| nbytesmalloced := s32 (nbytesmalloced b - bh_vp h) |>) ;;
  d ← ld_desc page;
  st_hdr ptr (MkHdr MF_FREE (d_firstfree d)) ;;
  st_desc page (λ d, d <| d_firstfree := ptr |> <| d_nfree := d_nfree d + 1 |>) ;;
  b ← ld_size o;
  if (d_nfree d =? 0) && (nblocks b =? 1) then free_area_of o dma page
  else
    when (d_nfree d =? 0) (
      st_desc page (λ d, d <| d_next := head dma b |>) ;;
      st_size o (set_head dma page)) ;;
    d ← ld_desc page;
    when (d_nfree d =? nblocks b) (
      n ← gets (λ s, Datatypes.length (map_to_list (descs s)));
      found ← unlink_area (S n) o dma Head page;
      when (found : bool) (free_area_of o dma page)).

Definition kfree (ptr : Z) : M (ks P) unit :=
  if ptr =? 0 then mret tt
  else
    let page := Z.land ptr (2 ^ 32 - 4096) in
    let ptr := ptr - sizeof_block_header in
    d ← ld_desc page;
    if negb (Z.land (d_next d) 0xfff =? 0) || (14 <=? u32 (d_order d)) then mret tt
    else
      h ← ld_hdr ptr;
      let dma := bh_flags h =? MF_DMA in
      when dma (st_hdr ptr (h <| bh_flags := MF_USED |>)) ;;
      if negb (dma || (bh_flags h =? MF_USED)) then mret tt
      else
        kfree_block (Z.to_nat (d_order d)) dma page ptr.

End kmalloc.
