(* ===== verification/KmallocFacts.v ===== *)
(** * KmallocFacts: how kmalloc keeps its memory

    What [kmalloc] relies on from the page allocator, as a class of laws; the
    invariant of its areas, free lists and cache; and what each part of
    [kmalloc] and [kfree] does to it. *)

From stdpp Require Import gmap.
From S2P Require Import Prelude PageAlloc PageAllocFacts Kmalloc.

(** ** Specification *)

(** [holds p W]: the pages of the blocks [W], by first page and order, have been
    given out and not given back. *)
Class PageLaws (P : Type) `{PageSource P} := {
  holds : P → gmap Z nat → Prop;
  holds_get p W priority order dma : holds p W → (order < 6)%nat →
    ∃ r p', ps_get priority order dma p = Ret r p' ∧
      (r = 0 ∧ holds p' W ∨ ∃ n, r = n * 4096 ∧ W !! n = None ∧ holds p' (<[n := order]> W));
  holds_free p W n order : holds p W → W !! n = Some order →
    ∃ p', ps_free (n * 4096) order p = Ret tt p' ∧ holds p' (delete n W);
  holds_less p W n order order' : holds p W → W !! n = Some order → (order' ≤ order)%nat → holds p (<[n := order']> W);
  holds_range p W n order : holds p W → W !! n = Some order → 0 < n ∧ n + size order ≤ 2 ^ 20;
  holds_apart p W n order n' order' x : holds p W → W !! n = Some order → W !! n' = Some order' →
    in_block order n x → in_block order' n' x → n = n';
}.

Definition pa (n : Z) : Z := n * 4096.

(** The tables: the size and number of blocks of a bucket and its pages. *)
Definition bsize (o : nat) : Z := nth o blocksize 0.
Definition bucket0 (o : nat) : size_descriptor := nth o sizes_init (init_size 0 0).
Definition nb (o : nat) : nat := Z.to_nat (nblocks (bucket0 o)).
Definition gfp (o : nat) : nat := gfporder (bucket0 o).

Definition blocks_of (n : Z) (o : nat) : list Z := (λ i, pa n + 16 + Z.of_nat i * bsize o) <$> seq 0 (nb o).

(** What an area is used for: cut into the blocks of a bucket, of which [fl] are
    free, kept in the cache, or about to be cut. *)
Inductive role := Bucket (o : nat) (dma : bool) (fl : list Z) | Cached | Private.

(** Free blocks from [first] on. *)
Fixpoint chain (H : gmap Z block_header) (first : Z) (fl : list Z) : Prop :=
  match fl with
  | [] => first = 0
  | p :: fl' => first = p ∧ ∃ nx, H !! p = Some (MkHdr MF_FREE nx) ∧ chain H nx fl'
  end.

(** Areas from [first] on, linked by [next]. *)
Fixpoint alist (D : gmap Z page_descriptor) (first : Z) (l : list Z) : Prop :=
  match l with
  | [] => first = 0
  | n :: l' => first = pa n ∧ ∃ d, D !! pa n = Some d ∧ alist D (d_next d) l'
  end.

Record area_ok (D : gmap Z page_descriptor) (H : gmap Z block_header) (n : Z) (o : nat) (dma : bool) (fl : list Z) : Prop := {
  ao_desc : ∃ d, D !! pa n = Some d ∧ d_order d = Z.of_nat o ∧ d_nfree d = Z.of_nat (length fl) ∧
    0 ≤ d_next d ∧ d_next d mod 4096 = 0 ∧ chain H (d_firstfree d) fl;
  ao_nodup : NoDup fl;
  ao_free : fl ⊆ blocks_of n o;
  ao_used p : p ∈ blocks_of n o → p ∉ fl →
    ∃ len, H !! p = Some (MkHdr (block_type dma) len) ∧ 0 ≤ len ∧ len + 8 ≤ bsize o;
}.

(** [busy] is an area all of whose blocks may be free. *)
Record kinv {P} `{PageLaws P} (busy : option Z) (s : ks P) (G : gmap Z (nat * role)) (L : nat → bool → list Z) : Prop := {
  ki_own : holds (pages s) (fst <$> G);
  ki_sizes o : (λ b, (nblocks b, gfporder b)) <$> sizes s !! o = (λ b, (nblocks b, gfporder b)) <$> sizes_init !! o;
  ki_area n g o dma fl : G !! n = Some (g, Bucket o dma fl) →
    (o < 13)%nat ∧ (gfp o ≤ g)%nat ∧ area_ok (descs s) (hdrs s) n o dma fl ∧ (busy ≠ Some n → (length fl < nb o)%nat);
  ki_list o dma : (o < 13)%nat → ∃ b, sizes s !! o = Some b ∧ alist (descs s) (head dma b) (L o dma);
  ki_nodup o dma : NoDup (L o dma);
  ki_listed o dma n : n ∈ L o dma → ∃ g fl, G !! n = Some (g, Bucket o dma fl) ∧ fl ≠ [];
  ki_avail n g o dma fl : G !! n = Some (g, Bucket o dma fl) → fl ≠ [] → busy ≠ Some n → n ∈ L o dma;
  ki_len : length (kmalloc_cache s) = 3%nat;
  ki_slot i a : kmalloc_cache s !! i = Some a → a = 0 ∨ ∃ n, a = pa n ∧ G !! n = Some (i, Cached);
  ki_cached n g : G !! n = Some (g, Cached) → kmalloc_cache s !! g = Some (pa n);
}.

(** ** Lemmas: the tables *)

Ltac each_bucket o :=
  do 13 (destruct o as [|o]; [first [vm_compute; repeat split; (discriminate || lia) | by vm_compute]|]); lia.

Lemma layout o : (o < 13)%nat →
  32 ≤ bsize o ∧ (1 ≤ nb o)%nat ∧ 16 + Z.of_nat (nb o) * bsize o ≤ 4096 * size (gfp o) ∧
  16 + (Z.of_nat (nb o) - 1) * bsize o + 8 < 4096 ∧ (gfp o < 6)%nat.
Proof. intros Ho. each_bucket o. Qed.

Lemma bucket0_lookup o : (o < 13)%nat → sizes_init !! o = Some (bucket0 o).
Proof. intros Ho. each_bucket o. Qed.

Lemma bsize_nth o : (o < 13)%nat → blocksize !! o = Some (bsize o).
Proof. intros Ho. each_bucket o. Qed.

Lemma nb_Z o : Z.of_nat (nb o) = nblocks (bucket0 o).
Proof. unfold nb. rewrite Z2Nat.id; [done|]. unfold bucket0. do 15 (destruct o as [|o]; [done|]). done. Qed.

Lemma find_order_spec bs r i : ∀ o, find_order bs r i = Some o → ∃ b, bs !! (o - i)%nat = Some b ∧ r ≤ b ∧ (i ≤ o)%nat.
Proof.
  revert i. induction bs as [|b bs IH]; intros i o; [done|]. cbn. destruct (r <=? b) eqn:E; to_prop.
  - intros [= <-]. exists b. rewrite Nat.sub_diag. done.
  - destruct (b =? 0); [done|]. intros Ho. destruct (IH _ _ Ho) as (b' & Hb & Hr & Hi). exists b'. split_and!; [|done|lia].
    replace (o - i)%nat with (S (o - S i)) by lia. done.
Qed.

(** ** Lemmas: blocks *)

Lemma elem_of_blocks n o p : p ∈ blocks_of n o ↔ ∃ i, (i < nb o)%nat ∧ p = pa n + 16 + Z.of_nat i * bsize o.
Proof.
  unfold blocks_of. rewrite list_elem_of_fmap. setoid_rewrite elem_of_seq. split; intros (i & ? & ?); exists i; (split; [|]; (done || lia)).
Qed.

Lemma block_range n o p : (o < 13)%nat → p ∈ blocks_of n o → pa n + 16 ≤ p ∧ p + 8 < pa n + 4096 ∧ p + bsize o ≤ pa n + 4096 * size (gfp o).
Proof.
  intros Ho (i & Hi & ->)%elem_of_blocks. destruct (layout o Ho) as (H1 & H2 & H3 & H4 & _). nia.
Qed.

Lemma block_page n o p : (o < 13)%nat → p ∈ blocks_of n o → p / 4096 = n ∧ (p + 8) / 4096 = n.
Proof.
  intros Ho Hp. pose proof (block_range n o p Ho Hp) as (H1 & H2 & _). unfold pa in *. split; symmetry.
  - apply (Z.div_unique _ _ _ (p - n * 4096)); lia.
  - apply (Z.div_unique _ _ _ (p + 8 - n * 4096)); lia.
Qed.

Lemma blocks_apart o p q n : p ∈ blocks_of n o → q ∈ blocks_of n o → p ≠ q → (o < 13)%nat → p + bsize o ≤ q ∨ q + bsize o ≤ p.
Proof.
  intros (i & Hi & ->)%elem_of_blocks (j & Hj & ->)%elem_of_blocks Hne Ho. destruct (layout o Ho) as (H1 & _).
  assert (i ≠ j) by congruence. nia.
Qed.

Lemma blocks_NoDup n o : (o < 13)%nat → NoDup (blocks_of n o).
Proof.
  intros Ho. apply NoDup_fmap_2_strong; [|apply NoDup_seq]. intros i j _ _ E. destruct (layout o Ho) as (H1 & _). nia.
Qed.

Lemma blocks_length n o : length (blocks_of n o) = nb o.
Proof. unfold blocks_of. by rewrite length_fmap, length_seq. Qed.

(** ** Lemmas: lists in memory *)

Lemma chain_ext H H' first fl : (∀ p, p ∈ fl → H' !! p = H !! p) → chain H first fl → chain H' first fl.
Proof.
  revert first. induction fl as [|p fl IH]; intros first Hp; [done|]. cbn. intros (-> & nx & E & Hc). split; [done|]. exists nx.
  rewrite Hp by set_solver. split; [done|]. apply IH; [|done]. set_solver.
Qed.

Lemma alist_ext D D' first l :
  (∀ n, n ∈ l → d_next <$> D' !! pa n = d_next <$> D !! pa n) → alist D first l → alist D' first l.
Proof.
  revert first. induction l as [|n l IH]; intros first Hp; [done|]. cbn. intros (-> & d & E & Hc). split; [done|].
  pose proof (Hp n ltac:(set_solver)) as E'. rewrite E in E'. destruct (D' !! pa n) as [d'|]; [|done]. injection E' as E'.
  exists d'. split; [done|]. rewrite E'. apply IH; [|done]. set_solver.
Qed.

Lemma area_ok_ext D D' H H' n o dma fl :
  D' !! pa n = D !! pa n → (∀ p, p ∈ blocks_of n o → H' !! p = H !! p) → area_ok D H n o dma fl → area_ok D' H' n o dma fl.
Proof.
  intros ED EH [(d & Ed & Ho & Hn & Hx & Hx' & Hc) Hd Hf Hu]. split; try done.
  - exists d. rewrite ED. split_and!; try done. eapply chain_ext; [|done]. intros p Hp. apply EH. by apply Hf.
  - intros p Hp Hp'. rewrite EH by done. by apply Hu.
Qed.

(** ** Lemmas: changing one area *)

Definition lset (L : nat → bool → list Z) (o : nat) (dma : bool) (l : list Z) : nat → bool → list Z :=
  λ o' dma', if decide (o' = o ∧ dma' = dma) then l else L o' dma'.

Lemma lset_eq L o dma l : lset L o dma l o dma = l.
Proof. unfold lset. by rewrite decide_True. Qed.

(** The buckets, but for the head of one list, which is now [v], and the counters. *)
Definition heads_to (z z' : list size_descriptor) (o : nat) (dma : bool) (v : Z) : Prop :=
  ∀ o', match z !! o', z' !! o' with
        | Some b, Some b' => nblocks b' = nblocks b ∧ gfporder b' = gfporder b ∧
            ∀ dma', head dma' b' = if decide (o' = o ∧ dma' = dma) then v else head dma' b
        | None, None => True
        | _, _ => False
        end.

Lemma heads_alter z o dma v f :
  (∀ b, z !! o = Some b → nblocks (f b) = nblocks b ∧ gfporder (f b) = gfporder b ∧ head dma (f b) = v ∧
     head (negb dma) (f b) = head (negb dma) b) →
  heads_to z (alter f o z) o dma v.
Proof.
  intros Hf o'. destruct (decide (o' = o)) as [->|Hne].
  - rewrite list_lookup_alter_eq. destruct (z !! o) as [b|]; [|done]. cbn. destruct (Hf b eq_refl) as (? & ? & H1 & H2). split_and!; try done.
    intros dma'. destruct (decide _) as [[_ ->]|Hn]; [done|]. assert (dma' = negb dma) as ->; [|done]. destruct dma, dma'; naive_solver.
  - rewrite list_lookup_alter_ne by done. destruct (z !! o') as [b|]; [|done]. split_and!; try done. intros dma'. rewrite decide_False by naive_solver. done.
Qed.

Lemma heads_refl z o dma b : z !! o = Some b → heads_to z z o dma (head dma b).
Proof.
  intros E o'. destruct (z !! o') as [b'|] eqn:E'; [|done]. split_and!; try done. intros dma'. destruct (decide _) as [[-> ->]|]; [congruence|done].
Qed.

(** Counters do not matter. *)
Lemma heads_count z z1 o dma v f i :
  heads_to z z1 o dma v → (∀ b, nblocks (f b) = nblocks b ∧ gfporder (f b) = gfporder b ∧ ∀ dma', head dma' (f b) = head dma' b) →
  heads_to z (alter f i z1) o dma v.
Proof.
  intros H Hf o'. specialize (H o'). destruct (decide (o' = i)) as [->|Hne]; [|by rewrite list_lookup_alter_ne].
  rewrite list_lookup_alter_eq. destruct (z !! i), (z1 !! i) as [b1|]; try done. cbn. destruct (Hf b1) as (-> & -> & Hh). destruct H as (? & ? & H').
  split_and!; try done. intros dma'. by rewrite Hh, H'.
Qed.

Lemma heads_set z o dma v : heads_to z (alter (set_head dma v) o z) o dma v.
Proof. apply heads_alter. intros b _. by destruct dma. Qed.

Lemma heads_at z z' o dma v b : heads_to z z' o dma v → z !! o = Some b →
  ∃ b', z' !! o = Some b' ∧ nblocks b' = nblocks b ∧ gfporder b' = gfporder b ∧ head dma b' = v.
Proof.
  intros H E. specialize (H o). rewrite E in H. destruct (z' !! o) as [b'|]; [|done]. destruct H as (? & ? & Hh). exists b'. split_and!; try done.
  rewrite Hh. by rewrite decide_True.
Qed.

Lemma heads_static z z' o dma v o' : heads_to z z' o dma v →
  (λ b, (nblocks b, gfporder b)) <$> z' !! o' = (λ b, (nblocks b, gfporder b)) <$> z !! o'.
Proof. intros H. specialize (H o'). destruct (z !! o'), (z' !! o'); try done. cbn. by destruct H as (-> & -> & _). Qed.

Lemma own_same (G : gmap Z (nat * role)) n g r r' : G !! n = Some (g, r) → fst <$> <[n := (g, r')]> G = fst <$> G.
Proof. intros E. rewrite fmap_insert. apply insert_id. by rewrite lookup_fmap, E. Qed.

Lemma pa_inj n m : pa n = pa m → n = m.
Proof. unfold pa. lia. Qed.

Section laws.
Context {P : Type} {PS : PageSource P} {PL : PageLaws P}.
Implicit Types (s : ks P).

Lemma kinv_bucket b b' s s' G L n g r o dma fl v l :
  kinv b s G L → G !! n = Some (g, r) → r = Private ∨ (∃ fl0, r = Bucket o dma fl0) →
  b = None ∨ b = Some n → b' = None ∨ b' = Some n → (o < 13)%nat → (gfp o ≤ g)%nat →
  pages s' = pages s → kmalloc_cache s' = kmalloc_cache s → heads_to (sizes s) (sizes s') o dma v →
  (∀ a, a ≠ pa n → descs s' !! a = descs s !! a) → (∀ p, p / 4096 ≠ n → hdrs s' !! p = hdrs s !! p) →
  area_ok (descs s') (hdrs s') n o dma fl → (b' = None → (length fl < nb o)%nat) →
  alist (descs s') v l → NoDup l → (∀ m, m ≠ n → m ∈ l ↔ m ∈ L o dma) → (n ∈ l → fl ≠ []) → (fl ≠ [] → b' = None → n ∈ l) →
  kinv b' s' (<[n := (g, Bucket o dma fl)]> G) (lset L o dma l).
Proof.
  intros [I1 I2 I3 I4 I5 I6 I7 I8 I9 I10] Hn Hr Hb Hb' Ho Hg Ep Ec Hz Hd Hh Hok Hlen Hal Hnd Hm Hnl Hnl'.
  assert (∀ o' dma', n ∈ L o' dma' → o' = o ∧ dma' = dma) as Hlist.
  { intros o' dma' Hin. destruct (I6 _ _ _ Hin) as (g' & fl' & E & _). destruct Hr as [->|[fl0 ->]]; rewrite Hn in E; [done|]. by injection E. }
  split.
  - rewrite Ep, (own_same G n g r) by done. done.
  - intros o'. rewrite (heads_static _ _ _ _ _ o' Hz). apply I2.
  - intros m g' o' dma' fl' E. destruct (decide (m = n)) as [->|Hne].
    + rewrite lookup_insert_eq in E. injection E as <- <- <- <-. split_and!; try done. intros Hbn. apply Hlen. destruct Hb'; [done|congruence].
    + rewrite lookup_insert_ne in E by done. destruct (I3 _ _ _ _ _ E) as (Ho' & Hg' & Hok' & Hl'). split_and!; try done.
      * eapply area_ok_ext; [| |exact Hok'].
        -- apply Hd. intros ?%pa_inj. done.
        -- intros p Hp. apply Hh. by destruct (block_page m o' p Ho' Hp) as [-> _].
      * intros _. apply Hl'. destruct Hb as [->| ->]; congruence.
  - intros o' dma' Ho'. destruct (I4 o' dma' Ho') as (b0 & Eb & Ha). specialize (Hz o'). rewrite Eb in Hz.
    destruct (sizes s' !! o') as [b1|]; [|done]. destruct Hz as (_ & _ & Hhd). exists b1. split; [done|]. rewrite Hhd. unfold lset.
    destruct (decide _) as [|Hno]; [done|]. eapply alist_ext; [|exact Ha]. intros m Hmin. rewrite Hd; [done|]. intros ->%pa_inj.
    by apply Hno, Hlist.
  - intros o' dma'. unfold lset. by destruct (decide _).
  - intros o' dma' m Hin. unfold lset in Hin. destruct (decide (m = n)) as [->|Hne].
    + rewrite lookup_insert_eq. destruct (decide _) as [[-> ->]|Hno]; [eexists _, _; split; [done|by apply Hnl]|]. by destruct (Hno (Hlist _ _ Hin)).
    + rewrite lookup_insert_ne by done. destruct (decide _) as [[-> ->]|]; [apply I6; by apply Hm|by apply I6].
  - intros m g' o' dma' fl' E Hne' Hb'm. destruct (decide (m = n)) as [->|Hne].
    + rewrite lookup_insert_eq in E. injection E as <- <- <- <-. rewrite lset_eq. apply Hnl'; [done|]. destruct Hb'; [done|congruence].
    + rewrite lookup_insert_ne in E by done. assert (m ∈ L o' dma') as Hin by (apply (I7 _ _ _ _ _ E); [done|destruct Hb as [->| ->]; congruence]).
      unfold lset. destruct (decide _) as [[-> ->]|]; [by apply Hm|done].
  - by rewrite Ec.
  - intros i a Ea. rewrite Ec in Ea. destruct (I9 i a Ea) as [->|(m & -> & Em)]; [by left|right]. exists m. split; [done|].
    rewrite lookup_insert_ne; [done|]. intros ->. destruct Hr as [->|[fl0 ->]]; congruence.
  - intros m g' E. rewrite Ec. apply I10. destruct (decide (m = n)) as [->|Hne]; [by rewrite lookup_insert_eq in E|]. by rewrite lookup_insert_ne in E.
Qed.

Lemma kinv_size b s G L o dma : kinv b s G L → (o < 13)%nat →
  ∃ z, sizes s !! o = Some z ∧ nblocks z = Z.of_nat (nb o) ∧ gfporder z = gfp o ∧ alist (descs s) (head dma z) (L o dma).
Proof.
  intros Hi Ho. destruct (ki_list _ _ _ _ Hi o dma Ho) as (z & E & Ha). pose proof (ki_sizes _ _ _ _ Hi o) as Hs.
  rewrite E, (bucket0_lookup o Ho) in Hs. cbn in Hs. injection Hs as H1 H2. exists z. rewrite nb_Z. done.
Qed.

(** ** Lemmas: taking a block *)

(** The number that says what a request needs. *)
Definition req_ok (k : request) : Prop := (rq_order k < 13)%nat ∧ 0 ≤ rq_size k ∧ rq_size k + 8 ≤ bsize (rq_order k).

Lemma chain_first H p fl first : chain H first (p :: fl) → first = p ∧ ∃ nx, H !! p = Some (MkHdr MF_FREE nx) ∧ chain H nx fl.
Proof. done. Qed.

(** The area after its first free block has been taken. *)
Lemma area_take D H n o dma p fl len d nx :
  area_ok D H n o dma (p :: fl) → (o < 13)%nat → 0 ≤ len → len + 8 ≤ bsize o → D !! pa n = Some d →
  H !! p = Some (MkHdr MF_FREE nx) →
  area_ok (<[pa n := d <| d_firstfree := nx |> <| d_nfree := d_nfree d - 1 |>]> D) (<[p := MkHdr (block_type dma) len]> H) n o dma fl.
Proof.
  intros [(d' & Ed & Hor & Hn & Hx & Hx' & Hc) Hnd Hf Hu] Ho Hl Hl' Ed' Ep. rewrite Ed' in Ed. injection Ed as <-.
  apply NoDup_cons in Hnd as [Hp Hnd]. destruct Hc as (_ & nx' & Ep' & Hc). rewrite Ep in Ep'. injection Ep' as <-.
  assert (p ∈ blocks_of n o) as Hpb by (apply Hf; set_solver). split.
  - eexists. rewrite lookup_insert_eq. split; [done|]. cbn. split_and!; try done; [cbn in Hn; lia|].
    eapply chain_ext; [|exact Hc]. intros q Hq. rewrite lookup_insert_ne; [done|]. intros ->. done.
  - done.
  - intros q Hq. apply Hf. set_solver.
  - intros q Hq Hq'. destruct (decide (q = p)) as [->|Hne]; [exists len; by rewrite lookup_insert_eq|].
    rewrite lookup_insert_ne by done. apply Hu; set_solver.
Qed.

Definition count_malloc (len : Z) (b : size_descriptor) : size_descriptor :=
  b <| nmallocs := s32 (nmallocs b + 1) |> <| nbytesmalloced := s32 (nbytesmalloced b + len) |>.

Lemma found_it_run s k page p d h :
  descs s !! page = Some d → hdrs s !! p = Some h →
  found_it k page p s = Ret (p + 8) (MkKs (pages s)
    (<[page := d <| d_firstfree := bh_vp h |> <| d_nfree := d_nfree d - 1 |>]> (descs s))
    (<[p := MkHdr (block_type (rq_dma k)) (rq_size k)]> (hdrs s))
    (alter (count_malloc (rq_size k)) (rq_order k)
       (if d_nfree d - 1 =? 0 then alter (set_head (rq_dma k) (d_next d)) (rq_order k) (sizes s) else sizes s))
    (kmalloc_cache s) (k_count s)).
Proof.
  intros Ed Eh. unfold found_it, mbind, M_bind, ld_hdr, st_desc, ld_desc, st_size, st_hdr, modify. rewrite Eh. cbn [descs upd]. rewrite Ed.
  change (default (MkDesc 0 0 0 0) (Some d)) with d. rewrite lookup_insert_eq. cbn [d_nfree d_next upd]. by destruct (d_nfree d - 1 =? 0).
Qed.

Lemma found_it_spec b s G L k n g p fl l :
  kinv b s G L → b = None ∨ b = Some n → G !! n = Some (g, Bucket (rq_order k) (rq_dma k) (p :: fl)) →
  L (rq_order k) (rq_dma k) = n :: l → req_ok k →
  ∃ s', found_it k (pa n) p s = Ret (p + 8) s' ∧
    kinv None s' (<[n := (g, Bucket (rq_order k) (rq_dma k) fl)]> G)
      (lset L (rq_order k) (rq_dma k) (if decide (fl = []) then l else n :: l)) ∧
    hdrs s' = <[p := MkHdr (block_type (rq_dma k)) (rq_size k)]> (hdrs s).
Proof.
  destruct k as [sz o dma pr]. cbn [rq_order rq_dma rq_size]. intros Hi Hb Hn HL (Ho & Hs0 & Hs). cbn in Ho, Hs0, Hs.
  destruct (ki_area _ _ _ _ Hi _ _ _ _ _ Hn) as (_ & Hg & Hok & Hlen). pose proof (ao_desc _ _ _ _ _ _ Hok) as (d & Ed & _ & Hnf & _ & _ & Hc).
  destruct Hc as (_ & nx & Ep & _). destruct (kinv_size b s G L o dma Hi Ho) as (z & Ez & _ & _ & Ha). rewrite HL in Ha.
  destruct Ha as (Eh & d' & Ed' & Ha). rewrite Ed in Ed'. injection Ed' as <-.
  pose proof (area_take _ _ _ _ _ _ _ sz d nx Hok Ho Hs0 Hs Ed Ep) as Hok'.
  rewrite (found_it_run s _ _ _ _ _ Ed Ep). cbn [rq_order rq_dma rq_size bh_vp]. eexists. split; [reflexivity|]. split; [|done].
  assert (d_nfree d - 1 =? 0 = bool_decide (fl = [])) as ->.
  { rewrite Hnf. destruct fl; [done|]. rewrite bool_decide_eq_false_2 by done. apply Z.eqb_neq. cbn. lia. }
  pose proof (ki_nodup _ _ _ _ Hi o dma) as Hnd. rewrite HL in Hnd. apply NoDup_cons in Hnd as [Hnl Hnd].
  assert (length (p :: fl) ≤ nb o)%nat as Hle.
  { rewrite <-(blocks_length n o). apply submseteq_length, NoDup_submseteq; [apply Hok|apply Hok]. }
  assert (alist (<[pa n := d <| d_firstfree := nx |> <| d_nfree := d_nfree d - 1 |>]> (descs s)) (d_next d) l) as Ha'.
  { eapply alist_ext; [|exact Ha]. intros m Hm. rewrite lookup_insert_ne; [done|]. intros ->%pa_inj. done. }
  assert (p / 4096 = n) as Hpn by (apply (block_page n o p Ho), (ao_free _ _ _ _ _ _ Hok); set_solver).
  eapply (kinv_bucket b None s _ G L n g _ o dma fl (if decide (fl = []) then d_next d else pa n) _ Hi Hn); cbn [pages descs hdrs sizes kmalloc_cache]; try done.
  - by right; eexists.
  - by left.
  - apply heads_count; [|done]. destruct (decide (fl = [])); [rewrite bool_decide_eq_true_2 by done; apply heads_set|].
    rewrite bool_decide_eq_false_2 by done. rewrite <-Eh. by apply heads_refl.
  - intros a Hne. by rewrite lookup_insert_ne.
  - intros q Hq. rewrite lookup_insert_ne; [done|]. intros ->. done.
  - destruct (decide (fl = [])); [done|]. split; [done|]. eexists. rewrite lookup_insert_eq. split; [done|]. exact Ha'.
  - destruct (decide (fl = [])); [done|]. by apply NoDup_cons.
  - intros m Hne. rewrite HL. destruct (decide (fl = [])); set_solver.
  - destruct (decide (fl = [])); done.
  - intros Hfl _. rewrite decide_False by done. set_solver.
Qed.

(** The areas that are cut into blocks stay as they are. *)
Lemma kinv_other b s s' G G' L :
  kinv b s G L → holds (pages s') (fst <$> G') → sizes s' = sizes s →
  (∀ n g o dma fl, G' !! n = Some (g, Bucket o dma fl) ↔ G !! n = Some (g, Bucket o dma fl)) →
  (∀ n g o dma fl, G !! n = Some (g, Bucket o dma fl) →
     descs s' !! pa n = descs s !! pa n ∧ ∀ p, p / 4096 = n → hdrs s' !! p = hdrs s !! p) →
  length (kmalloc_cache s') = 3%nat →
  (∀ i a, kmalloc_cache s' !! i = Some a → a = 0 ∨ ∃ n, a = pa n ∧ G' !! n = Some (i, Cached)) →
  (∀ n g, G' !! n = Some (g, Cached) → kmalloc_cache s' !! g = Some (pa n)) →
  kinv b s' G' L.
Proof.
  intros [I1 I2 I3 I4 I5 I6 I7 I8 I9 I10] Hown Hz HG Hmem Hl Hs Hc. split; try done.
  - intros o. by rewrite Hz.
  - intros n g o dma fl E%HG. destruct (I3 _ _ _ _ _ E) as (Ho & Hg & Hok & Hlen). split_and!; try done.
    destruct (Hmem _ _ _ _ _ E) as [Hd Hh]. eapply area_ok_ext; [exact Hd| |exact Hok]. intros p Hp. apply Hh. by destruct (block_page n o p Ho Hp).
  - intros o dma Ho. destruct (I4 o dma Ho) as (z & Ez & Ha). exists z. rewrite Hz. split; [done|]. eapply alist_ext; [|exact Ha].
    intros n Hn. destruct (I6 _ _ _ Hn) as (g & fl & E & _). by destruct (Hmem _ _ _ _ _ E) as [-> _].
  - intros o dma n Hn. destruct (I6 _ _ _ Hn) as (g & fl & E & ?). exists g, fl. by rewrite HG.
  - intros n g o dma fl E%HG. by apply (I7 _ _ _ _ _ E).
Qed.

Lemma kinv_count b s G L c : kinv b s G L → kinv b (s <| k_count := c |>) G L.
Proof. intros Hi. eapply kinv_other; try done; apply Hi. Qed.

(** A block was taken from an area. *)
Definition took (s s' : ks P) (G G' : gmap Z (nat * role)) (q len : Z) : Prop :=
  ∃ n g o dma p fl, G !! n = Some (g, Bucket o dma (p :: fl)) ∧ G' = <[n := (g, Bucket o dma fl)]> G ∧ q = p + 8 ∧
    hdrs s' = <[p := MkHdr (block_type dma) len]> (hdrs s).

Lemma k_priority_run pr s : ∃ pr' c, k_priority pr s = Ret pr' (s <| k_count := c |>).
Proof.
  unfold k_priority, mbind, M_bind, gets, modify. destruct (_ && _); [by eexists _, _|]. exists pr, (k_count s). by destruct s.
Qed.

Lemma find_order_ok size o :
  0 ≤ size → size + 8 < 2 ^ 32 → find_order blocksize (u32 (size + sizeof_block_header)) 0 = Some o →
  (o < 13)%nat ∧ size + 8 ≤ bsize o.
Proof.
  intros H0 Hs E. unfold sizeof_block_header in E. rewrite u32_id in E by lia. destruct (find_order_spec _ _ _ _ E) as (b & Eb & Hb & _).
  rewrite Nat.sub_0_r in Eb. destruct (decide (o < 13)%nat) as [Ho|Ho]; [rewrite (bsize_nth o Ho) in Eb; by injection Eb as ->|].
  destruct (decide (o = 13)%nat) as [->|Hne]; [injection Eb as <-; lia|]. apply lookup_lt_Some in Eb. cbn in Eb. lia.
Qed.

Lemma start_spec size priority s G L :
  kinv None s G L → 0 ≤ size → size + 8 < 2 ^ 32 →
  ∃ r s', kmalloc_start size priority s = Ret r s' ∧
    match r with
    | inl q => q = 0 ∧ s' = s ∧ find_order blocksize (u32 (size + sizeof_block_header)) 0 = None ∨
        ∃ G' L', kinv None s' G' L' ∧ took s s' G G' q size
    | inr k => req_ok k ∧ rq_size k = size ∧ kinv None s' G L ∧ hdrs s' = hdrs s ∧ pages s' = pages s
    end.
Proof.
  intros Hi H0 Hs. unfold kmalloc_start. destruct (find_order _ _ _) as [o|] eqn:Eo; [|eexists (inl 0), s; split; [done|by left]].
  destruct (find_order_ok size o H0 Hs Eo) as [Ho Hsz]. set (dma := has priority GFP_DMA). unfold mbind at 1, M_bind at 1.
  destruct (k_priority_run (Z.land priority GFP_LEVEL_MASK) s) as (pr & c & ->). apply (kinv_count _ _ _ _ c) in Hi. set (s1 := s <| k_count := c |>) in *.
  destruct (kinv_size None s1 G L o dma Hi Ho) as (z & Ez & _ & _ & Ha). unfold mbind at 1, M_bind at 1, ld_size. rewrite Ez.
  set (k := MkReq size o dma pr). assert (req_ok k) as Hk by done. destruct (L o dma) as [|n l] eqn:EL.
  - cbn in Ha. rewrite Ha. eexists (inr k), s1. done.
  - destruct Ha as (-> & d & Ed & Ha). destruct (ki_listed _ _ _ _ Hi o dma n) as (g & fl & En & Hfl); [rewrite EL; set_solver|].
    destruct (ki_area _ _ _ _ Hi _ _ _ _ _ En) as (_ & _ & Hok & _). destruct (ao_desc _ _ _ _ _ _ Hok) as (d' & Ed' & _ & _ & _ & _ & Hc).
    rewrite Ed in Ed'. injection Ed' as <-. destruct fl as [|p fl]; [done|]. destruct Hc as (Ep & nx & Hp & _).
    assert (fst <$> G !! n = Some g) as Eg by (by rewrite En). pose proof (holds_range _ _ n g (ki_own _ _ _ _ Hi)) as Hr. rewrite lookup_fmap in Hr.
    destruct (Hr Eg) as [Hpos _]. rewrite (proj2 (Z.eqb_neq (pa n) 0)) by (unfold pa; lia).
    unfold mbind, M_bind, ld_desc, ld_hdr. rewrite Ed, Ep, Hp. cbn [bh_flags]. rewrite Z.eqb_refl. cbn [negb].
    destruct (found_it_spec None s1 G L k n g p fl l Hi) as (s' & -> & Hi' & Hh); [by left|done..|].
    eexists (inl _), s'. split; [reflexivity|]. right. eexists _, _. split; [exact Hi'|]. exists n, g, o, dma, p, fl. done.
Qed.

(** ** Lemmas: getting an area *)

Lemma kinv_pos b s G L n g r : kinv b s G L → G !! n = Some (g, r) → 0 < n ∧ n + size g ≤ 2 ^ 20.
Proof. intros Hi E. apply (holds_range _ _ n g (ki_own _ _ _ _ Hi)). by rewrite lookup_fmap, E. Qed.

Lemma bucket_insert_other (G : gmap Z (nat * role)) n x y :
  (G !! n = None ∨ G !! n = Some x) → (∀ g o dma fl, x ≠ (g, Bucket o dma fl)) → (∀ g o dma fl, y ≠ (g, Bucket o dma fl)) →
  ∀ m g o dma fl, <[n := y]> G !! m = Some (g, Bucket o dma fl) ↔ G !! m = Some (g, Bucket o dma fl).
Proof.
  intros Hn Hx Hy m g o dma fl. destruct (decide (m = n)) as [->|Hne]; [|by rewrite lookup_insert_ne]. rewrite lookup_insert_eq.
  destruct Hn as [-> | ->]; naive_solver.
Qed.

Lemma kinv_new s G L n g p' :
  kinv None s G L → G !! n = None → holds p' (<[n := g]> (fst <$> G)) → kinv None (s <| pages := p' |>) (<[n := (g, Private)]> G) L.
Proof.
  intros Hi En Hp'. eapply (kinv_other None _ _ _ _ _ Hi); try done; cbn [pages kmalloc_cache upd].
  - by rewrite fmap_insert.
  - apply (bucket_insert_other _ _ (g, Private)); [by left|done..].
  - apply Hi.
  - intros i a Ea. destruct (ki_slot _ _ _ _ Hi _ _ Ea) as [->|(m & -> & Em)]; [by left|right].
    exists m. split; [done|]. rewrite lookup_insert_ne; [done|]. intros ->. congruence.
  - intros m g' E. destruct (decide (m = n)) as [->|Hne]; [by rewrite lookup_insert_eq in E|]. rewrite lookup_insert_ne in E by done. by apply Hi.
Qed.

(** A place in the cache is emptied. *)
Lemma kinv_uncache s G L i n :
  kinv None s G L → kmalloc_cache s !! i = Some (pa n) → G !! n = Some (i, Cached) →
  kinv None (s <| kmalloc_cache := <[i := 0]> (kmalloc_cache s) |>) (<[n := (i, Private)]> G) L.
Proof.
  intros Hi Ei En. pose proof (lookup_lt_Some _ _ _ Ei) as Hlt. eapply (kinv_other None _ _ _ _ _ Hi); try done; cbn [pages kmalloc_cache upd].
  - rewrite (own_same G n _ _ _ En). apply Hi.
  - apply (bucket_insert_other _ _ (i, Cached)); [by right|done..].
  - rewrite length_insert. apply Hi.
  - intros j a Ea. destruct (decide (j = i)) as [->|Hne]; [rewrite list_lookup_insert_eq in Ea by done; injection Ea as <-; by left|].
    rewrite list_lookup_insert_ne in Ea by done. destruct (ki_slot _ _ _ _ Hi _ _ Ea) as [->|(m & -> & Em)]; [by left|right].
    exists m. split; [done|]. rewrite lookup_insert_ne; [done|]. intros ->. congruence.
  - intros m g E. destruct (decide (m = n)) as [->|Hne]; [by rewrite lookup_insert_eq in E|]. rewrite lookup_insert_ne in E by done.
    pose proof (ki_cached _ _ _ _ Hi _ _ E) as Em. rewrite list_lookup_insert_ne; [done|]. intros <-. rewrite Ei in Em. by injection Em as ?%pa_inj.
Qed.

Lemma area_spec k s G L :
  kinv None s G L → req_ok k →
  ∃ r s', kmalloc_area k s = Ret r s' ∧ hdrs s' = hdrs s ∧
    (r = 0 ∧ kinv None s' G L ∨
     ∃ n g, r = pa n ∧ (gfp (rq_order k) ≤ g)%nat ∧ (G !! n = None ∨ G !! n = Some (g, Cached)) ∧ kinv None s' (<[n := (g, Private)]> G) L).
Proof.
  intros Hi (Ho & _). unfold kmalloc_area. destruct (kinv_size None s G L (rq_order k) (rq_dma k) Hi Ho) as (z & Ez & _ & Eg & _).
  unfold mbind, M_bind, ld_size. rewrite Ez, Eg. destruct (layout _ Ho) as (_ & _ & _ & _ & Hgfp). unfold get_kmalloc_pages, on_pages.
  destruct (holds_get _ _ (rq_priority k) (gfp (rq_order k)) (rq_dma k) (ki_own _ _ _ _ Hi) Hgfp) as (r & p' & -> & Hr).
  destruct Hr as [[-> Hp']|(n & -> & Hn & Hp')].
  - assert (kinv None (s <| pages := p' |>) G L) as Hi' by (eapply kinv_other; try done; apply Hi). set (s1 := s <| pages := p' |>) in *.
    cbn [negb Z.eqb]. destruct (negb (rq_dma k) && (rq_order k <? MAX_CACHE_ORDER)%nat) eqn:Ec; [|eexists 0, s1; split_and!; [done..|by left]].
    apply andb_prop in Ec as [_ Ec]. apply Nat.ltb_lt in Ec. unfold MAX_CACHE_ORDER in Ec. unfold xchg_cache.
    destruct (lookup_lt_is_Some_2 (kmalloc_cache s1) (rq_order k)) as [old Eold]; [rewrite (ki_len _ _ _ _ Hi'); lia|]. rewrite Eold.
    eexists old, _. split; [reflexivity|]. split; [done|]. destruct (ki_slot _ _ _ _ Hi' _ _ Eold) as [->|(n & -> & En)].
    + left. split; [done|]. eapply (kinv_other None _ _ _ _ _ Hi'); try done; cbn [pages kmalloc_cache upd]; rewrite ?(list_insert_id _ _ _ Eold); apply Hi'.
    + right. exists n, (rq_order k). split; [done|]. split; [destruct (rq_order k) as [|[|[|o]]]; cbn in *; lia|]. split; [by right|].
      by apply kinv_uncache.
  - rewrite lookup_fmap in Hn. destruct (G !! n) as [|] eqn:En; [done|]. pose proof (kinv_new s G L n _ p' Hi En Hp') as Hi'.
    destruct (kinv_pos None _ _ _ n _ _ Hi' (lookup_insert_eq _ _ _)) as [Hpos _].
    rewrite (proj2 (Z.eqb_neq (n * 4096) 0)) by lia. cbn [negb]. eexists _, _. split; [reflexivity|]. split; [done|]. right.
    exists n, (gfp (rq_order k)). split_and!; [done..|by left|done].
Qed.

(** ** Lemmas: cutting an area *)

Fixpoint row (i : nat) (p sz : Z) : list Z := match i with O => [] | S i' => p :: row i' (p + sz) sz end.

Lemma row_seq i p sz : row i p sz = (λ j, p + Z.of_nat j * sz) <$> seq 0 i.
Proof.
  revert p. induction i as [|i IH]; intros p; [done|]. cbn. f_equal; [lia|]. rewrite IH, <-fmap_S_seq, <-list_fmap_compose.
  apply list_fmap_ext. intros _ j _. cbn. lia.
Qed.

Lemma blocks_row n o : blocks_of n o = row (nb o) (pa n + 16) (bsize o).
Proof. by rewrite row_seq. Qed.

Lemma row_ge i p sz q : 0 < sz → q ∈ row i p sz → p ≤ q.
Proof. rewrite row_seq, list_elem_of_fmap. intros Hsz (j & -> & _). nia. Qed.

Lemma init_blocks_spec i : ∀ p sz s, 0 < sz →
  ∃ H, init_blocks i p sz s = Ret tt (s <| hdrs := H |>) ∧ chain H p (row (S i) p sz) ∧
    ∀ q, q ∉ row (S i) p sz → H !! q = hdrs s !! q.
Proof.
  induction i as [|i IH]; intros p sz s Hsz.
  - exists (<[p := MkHdr MF_FREE 0]> (hdrs s)). split; [done|]. split.
    + cbn. split; [done|]. exists 0. by rewrite lookup_insert_eq.
    + intros q Hq. rewrite lookup_insert_ne; [done|]. intros ->. apply Hq. cbn. set_solver.
  - cbn [init_blocks]. unfold mbind, M_bind, st_hdr, modify.
    destruct (IH (p + sz) sz (s <| hdrs := <[p := MkHdr MF_FREE (p + sz)]> (hdrs s) |>) Hsz) as (H & E & Hc & Hq). rewrite E.
    assert (p ∉ row (S i) (p + sz) sz) as Hp by (intros Hin; apply row_ge in Hin; lia).
    exists H. split; [done|]. split.
    + change (row (S (S i)) p sz) with (p :: row (S i) (p + sz) sz). split; [done|]. exists (p + sz). split; [|done].
      rewrite Hq by done. cbn. by rewrite lookup_insert_eq.
    + intros q Hn. change (row (S (S i)) p sz) with (p :: row (S i) (p + sz) sz) in Hn. rewrite Hq by set_solver. cbn.
      rewrite lookup_insert_ne; [done|]. set_solver.
Qed.

Lemma found_it_first s k page p d h :
  descs s !! page = Some d → hdrs s !! p = Some h →
  found_it k page p s = found_it k page p (s <| descs := <[page := d <| d_firstfree := p |>]> (descs s) |>).
Proof.
  intros Ed Eh. set (s1 := s <| descs := _ |>). assert (descs s1 !! page = Some (d <| d_firstfree := p |>)) as Ed1 by apply lookup_insert_eq.
  rewrite (found_it_run s k page p d h Ed Eh), (found_it_run s1 k page p _ h Ed1 Eh). cbn. by rewrite insert_insert_eq.
Qed.

Definition count_area (c : Z) (b : size_descriptor) : size_descriptor := b <| sz_npages := s32 (sz_npages b + c) |>.

Lemma carve_run k s n z :
  (rq_order k < 13)%nat → sizes s !! rq_order k = Some z → nblocks z = Z.of_nat (nb (rq_order k)) →
  ∃ H, kmalloc_carve k (pa n) s = found_it k (pa n) (pa n + 16) (MkKs (pages s)
      (<[pa n := MkDesc (head (rq_dma k) z) (pa n + 16) (Z.of_nat (rq_order k)) (Z.of_nat (nb (rq_order k)))]> (descs s)) H
      (alter (set_head (rq_dma k) (pa n)) (rq_order k) (alter (count_area 1) (rq_order k) (sizes s))) (kmalloc_cache s) (k_count s)) ∧
    chain H (pa n + 16) (blocks_of n (rq_order k)) ∧ ∀ q, q ∉ blocks_of n (rq_order k) → H !! q = hdrs s !! q.
Proof.
  destruct k as [len o dma pr]. cbn [rq_order rq_dma]. intros Ho Ez Enb. destruct (layout o Ho) as (Hbs & Hnb & _).
  unfold kmalloc_carve, mbind, M_bind, st_size, ld_size, modify. cbn [sizes upd rq_order rq_dma].
  rewrite list_lookup_alter_eq, Ez. cbn [fmap option_fmap option_map nblocks]. fold (bsize o). rewrite Enb.
  replace (Z.to_nat (Z.of_nat (nb o) - 1)) with (Nat.pred (nb o)) by lia. unfold st_desc at 1, modify.
  match goal with |- context [init_blocks _ _ _ ?x] => set (s0 := x) end.
  destruct (init_blocks_spec (Nat.pred (nb o)) (pa n + sizeof_page_descriptor) (bsize o) s0 ltac:(lia)) as (H & -> & Hc & Hq).
  replace (S (Nat.pred (nb o))) with (nb o) in * by lia. unfold sizeof_page_descriptor in *. rewrite <-blocks_row in *.
  exists H. split; [|done]. unfold st_desc, modify. assert (∃ h, H !! (pa n + 16) = Some h) as [h Eh].
  { rewrite blocks_row in Hc. replace (nb o) with (S (Nat.pred (nb o))) in Hc by lia. destruct Hc as (_ & nx & E & _). by eexists. }
  erewrite found_it_first; [|apply lookup_insert_eq|exact Eh]. f_equal. cbn. rewrite lookup_insert_eq, !insert_insert_eq. cbn. by destruct dma.
Qed.

(** The new area with all its blocks free, at the front of its list. *)
Lemma carve_setup k s G L n g :
  kinv None s G L → req_ok k → G !! n = Some (g, Private) → (gfp (rq_order k) ≤ g)%nat →
  ∃ s1, kmalloc_carve k (pa n) s = found_it k (pa n) (pa n + 16) s1 ∧
    kinv (Some n) s1 (<[n := (g, Bucket (rq_order k) (rq_dma k) (blocks_of n (rq_order k)))]> G)
      (lset L (rq_order k) (rq_dma k) (n :: L (rq_order k) (rq_dma k))) ∧
    ∀ p, p / 4096 ≠ n → hdrs s1 !! p = hdrs s !! p.
Proof.
  intros Hi (Ho & _) En Hg. set (o := rq_order k) in *. set (dma := rq_dma k). destruct (layout o Ho) as (Hbs & Hnb & _).
  destruct (kinv_size None s G L o dma Hi Ho) as (z & Ez & Enb & _ & Ha).
  destruct (carve_run k s n z Ho Ez Enb) as (H & -> & Hc & Hq). fold o dma in Hc, Hq |- *.
  assert (∀ p, p / 4096 ≠ n → H !! p = hdrs s !! p) as Hh.
  { intros p Hp. rewrite Hq; [done|]. intros Hin. by apply (block_page n o p Ho) in Hin as [? _]. }
  eexists. split; [reflexivity|]. split; [|exact Hh].
  assert (n ∉ L o dma) as HnL. { intros Hin. destruct (ki_listed _ _ _ _ Hi _ _ _ Hin) as (? & ? & E & _). congruence. }
  assert (0 ≤ head dma z ∧ head dma z mod 4096 = 0) as [Hh0 Hh1].
  { destruct (L o dma) as [|m l] eqn:EL; [cbn in Ha; by rewrite Ha|]. destruct Ha as (-> & _). destruct (ki_listed _ _ _ _ Hi o dma m) as (? & ? & E & _);
      [rewrite EL; set_solver|]. pose proof (kinv_pos _ _ _ _ _ _ _ Hi E). unfold pa. rewrite Z.mod_mul by lia. lia. }
  eapply (kinv_bucket None (Some n) s _ G L n g Private o dma (blocks_of n o) (pa n)); try done; cbn [pages kmalloc_cache sizes descs hdrs].
  - by left.
  - by left.
  - by right.
  - intros o'. pose proof (heads_set (alter (count_area 1) o (sizes s)) o dma (pa n) o') as Hz. destruct (decide (o' = o)) as [->|Hne].
    + rewrite !list_lookup_alter_eq, Ez in *. cbn in Hz |- *. done.
    + rewrite !list_lookup_alter_ne in * by done. done.
  - intros a Ha'. by rewrite lookup_insert_ne.
  - split; [|by apply blocks_NoDup|done|done]. eexists. rewrite lookup_insert_eq. split; [done|]. cbn. by rewrite blocks_length.
  - split; [done|]. eexists. rewrite lookup_insert_eq. split; [done|]. cbn. eapply alist_ext; [|exact Ha]. intros m Hm.
    rewrite lookup_insert_ne; [done|]. intros ->%pa_inj. done.
  - apply NoDup_cons. split; [done|apply Hi].
  - set_solver.
  - intros _. rewrite blocks_row. destruct (nb o); [lia|done].
Qed.

(** ** Lemmas: blocks in use *)

(** The block whose data start at [q] is in use, with [len] bytes asked for. *)
Definition is_live (s : ks P) (G : gmap Z (nat * role)) (q len : Z) : Prop :=
  ∃ n g o dma fl, G !! n = Some (g, Bucket o dma fl) ∧ q - 8 ∈ blocks_of n o ∧ q - 8 ∉ fl ∧
    hdrs s !! (q - 8) = Some (MkHdr (block_type dma) len).

Definition same_live (s s' : ks P) (G G' : gmap Z (nat * role)) : Prop := ∀ q l, is_live s' G' q l ↔ is_live s G q l.

Definition gains (s s' : ks P) (G G' : gmap Z (nat * role)) (q len : Z) : Prop :=
  q ≠ 0 ∧ (∀ l, ¬ is_live s G q l) ∧ ∀ q' l, is_live s' G' q' l ↔ (q' = q ∧ l = len) ∨ is_live s G q' l.

Definition loses (s s' : ks P) (G G' : gmap Z (nat * role)) (q : Z) : Prop :=
  ∀ q' l, is_live s' G' q' l ↔ q' ≠ q ∧ is_live s G q' l.

Lemma live_page b s G L q l : kinv b s G L → is_live s G q l → ∃ n g o dma fl, G !! n = Some (g, Bucket o dma fl) ∧
  (q - 8) / 4096 = n ∧ (o < 13)%nat ∧ q - 8 ∈ blocks_of n o ∧ q - 8 ∉ fl ∧ hdrs s !! (q - 8) = Some (MkHdr (block_type dma) l).
Proof.
  intros Hi (n & g & o & dma & fl & E & Hb & Hf & Hh). destruct (ki_area _ _ _ _ Hi _ _ _ _ _ E) as (Ho & _).
  exists n, g, o, dma, fl. split_and!; try done. by destruct (block_page n o (q - 8) Ho Hb).
Qed.

Lemma took_gains b s s' G L n g o dma p fl len :
  kinv b s G L → G !! n = Some (g, Bucket o dma (p :: fl)) → hdrs s' = <[p := MkHdr (block_type dma) len]> (hdrs s) →
  gains s s' G (<[n := (g, Bucket o dma fl)]> G) (p + 8) len.
Proof.
  intros Hi En Hh. destruct (ki_area _ _ _ _ Hi _ _ _ _ _ En) as (Ho & _ & Hok & _). pose proof (ao_nodup _ _ _ _ _ _ Hok) as Hnd.
  apply NoDup_cons in Hnd as [Hp Hnd]. assert (p ∈ blocks_of n o) as Hpb by (apply (ao_free _ _ _ _ _ _ Hok); set_solver).
  destruct (block_page n o p Ho Hpb) as [Hpn _]. pose proof (kinv_pos _ _ _ _ _ _ _ Hi En) as [Hpos _].
  split; [pose proof (block_range n o p Ho Hpb); unfold pa in *; lia|]. split.
  - intros l Hl. destruct (live_page _ _ _ _ _ _ Hi Hl) as (m & g' & o' & dma' & fl' & Em & Hm & _ & _ & Hf & _).
    replace (p + 8 - 8) with p in * by lia. rewrite Hpn in Hm. subst m. rewrite En in Em. injection Em as <- <- <- <-. set_solver.
  - intros q l. split.
    + intros (m & g' & o' & dma' & fl' & Em & Hb & Hf & Hq). rewrite Hh in Hq. destruct (decide (q - 8 = p)) as [E|E].
      * left. destruct (decide (m = n)) as [->|Hne].
        -- rewrite lookup_insert_eq in Em. injection Em as <- <- <- <-. rewrite E, lookup_insert_eq in Hq. injection Hq as <-. split; lia.
        -- rewrite lookup_insert_ne in Em by done. destruct (ki_area _ _ _ _ Hi _ _ _ _ _ Em) as (Ho' & _).
           destruct (block_page m o' _ Ho' Hb) as [Hm _]. rewrite E in Hm. congruence.
      * right. rewrite lookup_insert_ne in Hq by done. destruct (decide (m = n)) as [->|Hne].
        -- rewrite lookup_insert_eq in Em. injection Em as <- <- <- <-. exists n, g, o, dma, (p :: fl). split_and!; try done. set_solver.
        -- rewrite lookup_insert_ne in Em by done. by exists m, g', o', dma', fl'.
    + intros [[-> ->]|(m & g' & o' & dma' & fl' & Em & Hb & Hf & Hq)].
      * exists n, g, o, dma, fl. replace (p + 8 - 8) with p by lia. rewrite Hh, !lookup_insert_eq. done.
      * assert (q - 8 ≠ p) as Hne.
        { intros E. rewrite E in *. destruct (ki_area _ _ _ _ Hi _ _ _ _ _ Em) as (Ho' & _). destruct (block_page m o' _ Ho' Hb) as [Hm _].
          rewrite Hpn in Hm. subst m. rewrite En in Em. injection Em as <- <- <- <-. set_solver. }
        destruct (decide (m = n)) as [->|Hmn].
        -- rewrite En in Em. injection Em as <- <- <- <-. exists n, g, o, dma, fl. rewrite Hh, lookup_insert_eq, lookup_insert_ne by done.
           split_and!; try done. set_solver.
        -- exists m, g', o', dma', fl'. rewrite Hh, !lookup_insert_ne by done. done.
Qed.

(** Areas change that hold no block in use, before and after. *)
Lemma live_same b s s' G L n y :
  kinv b s G L → (∀ g o dma fl, G !! n = Some (g, Bucket o dma fl) → blocks_of n o ⊆ fl) →
  (∀ g o dma fl, y = Some (g, Bucket o dma fl) → blocks_of n o ⊆ fl) → (∀ p, p / 4096 ≠ n → hdrs s' !! p = hdrs s !! p) →
  same_live s s' G (partial_alter (λ _, y) n G).
Proof.
  intros Hi Hn Hy Hh q l. split; intros (m & g & o & dma & fl & Em & Hb & Hf & Hq).
  - destruct (decide (m = n)) as [->|Hne]; [rewrite lookup_partial_alter_eq in Em; exfalso; by apply Hf, (Hy _ _ _ _ Em)|].
    rewrite lookup_partial_alter_ne in Em by done. destruct (ki_area _ _ _ _ Hi _ _ _ _ _ Em) as (Ho & _).
    destruct (block_page m o _ Ho Hb) as [Hm _]. rewrite Hh in Hq by congruence. by exists m, g, o, dma, fl.
  - destruct (decide (m = n)) as [->|Hne]; [exfalso; by apply Hf, (Hn _ _ _ _ Em)|].
    destruct (ki_area _ _ _ _ Hi _ _ _ _ _ Em) as (Ho & _). destruct (block_page m o _ Ho Hb) as [Hm _].
    exists m, g, o, dma, fl. rewrite lookup_partial_alter_ne, Hh by congruence. done.
Qed.

Lemma carve_spec k s G L n g :
  kinv None s G L → req_ok k → G !! n = Some (g, Private) → (gfp (rq_order k) ≤ g)%nat →
  ∃ q s' G' L', kmalloc_carve k (pa n) s = Ret q s' ∧ kinv None s' G' L' ∧ gains s s' G G' q (rq_size k) ∧
    ∃ o dma fl, G' = <[n := (g, Bucket o dma fl)]> G.
Proof.
  intros Hi Hk En Hg. destruct (carve_setup k s G L n g Hi Hk En Hg) as (s1 & -> & Hi1 & Hh1). pose proof Hk as (Ho & _).
  set (o := rq_order k) in *. set (dma := rq_dma k) in *. destruct (layout o Ho) as (_ & Hnb & _).
  assert (∃ fl, blocks_of n o = (pa n + 16) :: fl) as [fl Efl].
  { rewrite blocks_row. destruct (nb o) as [|i]; [lia|]. by eexists. }
  set (G1 := <[n := (g, Bucket o dma (blocks_of n o))]> G) in *. assert (G1 !! n = Some (g, Bucket o dma ((pa n + 16) :: fl))) as En1.
  { unfold G1. rewrite Efl. apply lookup_insert_eq. }
  destruct (found_it_spec (Some n) s1 G1 (lset L o dma (n :: L o dma)) k n g (pa n + 16) fl (L o dma) Hi1 (or_intror eq_refl) En1)
    as (s' & -> & Hi' & Hh'); [apply lset_eq|done|].
  eexists _, s', _, _. split; [reflexivity|]. split; [exact Hi'|]. split.
  - destruct (took_gains (Some n) s1 s' G1 _ n g o dma (pa n + 16) fl (rq_size k) Hi1 En1 Hh') as (Hq0 & Hno & Hg').
    assert (same_live s s1 G G1) as Hs1.
    { apply (live_same None s s1 G L n (Some (g, Bucket o dma (blocks_of n o))) Hi); [by intros; congruence| |done].
      intros ? ? ? ? [= <- <- <- <-]. done. }
    split; [done|]. split; [intros l Hl; apply (Hno l); by apply Hs1|]. intros q l. rewrite <-(Hs1 q l). apply Hg'.
  - exists o, dma, fl. unfold G1. by rewrite insert_insert_eq.
Qed.

(** ** Lemmas: giving back an area *)

(** An area all of whose blocks are free and which is not on its list is cut up no
    more. *)
Lemma kinv_private s G L n g o dma fl g' :
  kinv (Some n) s G L → G !! n = Some (g, Bucket o dma fl) → n ∉ L o dma → (g' ≤ g)%nat →
  kinv None s (<[n := (g', Private)]> G) L.
Proof.
  intros [I1 I2 I3 I4 I5 I6 I7 I8 I9 I10] En HnL Hg. assert (∀ o' dma', n ∉ L o' dma') as HnL'.
  { intros o' dma' Hin. destruct (I6 _ _ _ Hin) as (? & ? & E & _). rewrite En in E. injection E as <- <- <- <-. done. }
  split; try done.
  - rewrite fmap_insert. cbn. eapply holds_less; [exact I1| |exact Hg]. by rewrite lookup_fmap, En.
  - intros m gm om dm fm E. destruct (decide (m = n)) as [->|Hne]; [by rewrite lookup_insert_eq in E|]. rewrite lookup_insert_ne in E by done.
    destruct (I3 _ _ _ _ _ E) as (? & ? & ? & Hl). split_and!; try done. intros _. apply Hl. congruence.
  - intros om dm m Hm. destruct (decide (m = n)) as [->|Hne]; [by destruct (HnL' om dm)|]. rewrite lookup_insert_ne by done. by apply I6.
  - intros m gm om dm fm E Hf _. destruct (decide (m = n)) as [->|Hne]; [by rewrite lookup_insert_eq in E|]. rewrite lookup_insert_ne in E by done.
    apply (I7 _ _ _ _ _ E Hf). congruence.
  - intros i a Ea. destruct (I9 i a Ea) as [->|(m & -> & Em)]; [by left|right]. exists m. split; [done|]. rewrite lookup_insert_ne; [done|]. intros ->. congruence.
  - intros m gm E. destruct (decide (m = n)) as [->|Hne]; [by rewrite lookup_insert_eq in E|]. rewrite lookup_insert_ne in E by done. by apply I10.
Qed.

(** The pages of other areas are elsewhere. *)
Lemma area_elsewhere b s G L n g r m gm rm p :
  kinv b s G L → G !! n = Some (g, r) → G !! m = Some (gm, rm) → m ≠ n → p / 4096 = m → ¬ (pa n ≤ p < pa n + Z.shiftl 4096 (Z.of_nat g)).
Proof.
  intros Hi En Em Hne Hp Hr. apply Hne. eapply (holds_apart _ _ m gm n g m (ki_own _ _ _ _ Hi)); [by rewrite lookup_fmap, Em|by rewrite lookup_fmap, En|..].
  - unfold in_block. pose proof (size_pos gm). lia.
  - unfold in_block, pa in *. rewrite Z.shiftl_mul_pow2 in Hr by lia. fold (size g) in Hr.
    pose proof (Z.div_mod p 4096). pose proof (Z.mod_pos_bound p 4096). lia.
Qed.

Lemma release_area_spec s G L n g :
  kinv None s G L → G !! n = Some (g, Private) →
  ∃ s', release (pa n) g s = Ret tt s' ∧ kinv None s' (delete n G) L ∧ same_live s s' G (delete n G).
Proof.
  intros Hi En. unfold release, mbind, M_bind, forget, modify, on_pages. cbn [pages upd].
  destruct (holds_free (pages s) (fst <$> G) n g) as (p' & E & Hp'); [apply Hi|by rewrite lookup_fmap, En|]. change (ps_free (pa n)) with (ps_free (n * 4096)). rewrite E.
  eexists. split; [reflexivity|]. assert (∀ m gm rm p, G !! m = Some (gm, rm) → m ≠ n → p / 4096 = m →
    filter (λ x : Z * block_header, ¬ (pa n ≤ x.1 < pa n + Z.shiftl 4096 (Z.of_nat g))) (hdrs s) !! p = hdrs s !! p) as Hf.
  { intros m gm rm p Em Hne Hp. destruct (hdrs s !! p) as [h|] eqn:Eh.
    - apply map_lookup_filter_Some. split; [done|]. by eapply area_elsewhere.
    - apply map_lookup_filter_None. by left. }
  assert (∀ m gm om dm fm, delete n G !! m = Some (gm, Bucket om dm fm) ↔ G !! m = Some (gm, Bucket om dm fm)) as HG.
  { intros m gm om dm fm. rewrite lookup_delete_Some. split; [by intros [_ ?]|]. intros Em. split; [|done]. intros ->. congruence. }
  split.
  - eapply (kinv_other None _ _ _ _ _ Hi); try done; cbn [pages kmalloc_cache descs hdrs upd].
    + by rewrite fmap_delete.
    + intros m gm om dm fm Em. assert (m ≠ n) as Hne by (intros ->; congruence). split; [rewrite lookup_delete_ne; [done|]; intros ?%pa_inj; done|].
      intros p Hp. by eapply Hf.
    + apply Hi.
    + intros i a Ea. destruct (ki_slot _ _ _ _ Hi _ _ Ea) as [->|(m & -> & Em)]; [by left|right]. exists m. split; [done|].
      rewrite lookup_delete_ne; [done|]. intros ->. congruence.
    + intros m gm [_ Em]%lookup_delete_Some. by apply Hi.
  - intros q l. split; intros (m & gm & om & dm & fm & Em & Hb & Hf' & Hq).
    + apply HG in Em. destruct (ki_area _ _ _ _ Hi _ _ _ _ _ Em) as (Ho & _). destruct (block_page m om _ Ho Hb) as [Hm _].
      cbn [hdrs upd] in Hq. rewrite (Hf m gm (Bucket om dm fm)) in Hq by (done || congruence). by exists m, gm, om, dm, fm.
    + destruct (ki_area _ _ _ _ Hi _ _ _ _ _ Em) as (Ho & _). destruct (block_page m om _ Ho Hb) as [Hm _].
      exists m, gm, om, dm, fm. rewrite HG. split_and!; try done. cbn [hdrs upd]. rewrite (Hf m gm (Bucket om dm fm)) by (done || congruence). done.
Qed.

(** An area goes to an empty place in the cache. *)
Lemma kinv_cache s G L i n :
  kinv None s G L → kmalloc_cache s !! i = Some 0 → G !! n = Some (i, Private) →
  kinv None (s <| kmalloc_cache := <[i := pa n]> (kmalloc_cache s) |>) (<[n := (i, Cached)]> G) L.
Proof.
  intros Hi Ei En. pose proof (lookup_lt_Some _ _ _ Ei) as Hlt. eapply (kinv_other None _ _ _ _ _ Hi); try done; cbn [pages kmalloc_cache upd].
  - rewrite (own_same G n _ _ _ En). apply Hi.
  - apply (bucket_insert_other _ _ (i, Private)); [by right|done..].
  - rewrite length_insert. apply Hi.
  - intros j a Ea. destruct (decide (j = i)) as [->|Hne].
    + rewrite list_lookup_insert_eq in Ea by done. injection Ea as <-. right. exists n. by rewrite lookup_insert_eq.
    + rewrite list_lookup_insert_ne in Ea by done. destruct (ki_slot _ _ _ _ Hi _ _ Ea) as [->|(m & -> & Em)]; [by left|right].
      exists m. split; [done|]. rewrite lookup_insert_ne; [done|]. intros ->. congruence.
  - intros m g E. destruct (decide (m = n)) as [->|Hne].
    + rewrite lookup_insert_eq in E. injection E as <-. by rewrite list_lookup_insert_eq.
    + rewrite lookup_insert_ne in E by done. pose proof (ki_cached _ _ _ _ Hi _ _ E) as Em. rewrite list_lookup_insert_ne; [done|].
      intros <-. rewrite Ei in Em. injection Em as Em. pose proof (kinv_pos _ _ _ _ _ _ _ Hi E). unfold pa in Em. lia.
Qed.

(** The areas about to be cut, but for [n]. *)
Definition same_private (G G' : gmap Z (nat * role)) (n : Z) : Prop :=
  ∀ m g, G' !! m = Some (g, Private) ↔ m ≠ n ∧ G !! m = Some (g, Private).

Lemma same_live_trans s1 s2 s3 G1 G2 G3 : same_live s1 s2 G1 G2 → same_live s2 s3 G2 G3 → same_live s1 s3 G1 G3.
Proof. intros H1 H2 q l. by rewrite <-(H1 q l), (H2 q l). Qed.

(** Roles other than [Bucket] do not matter to blocks in use. *)
Lemma live_role s s' G G' :
  hdrs s' = hdrs s → (∀ n g o dma fl, G' !! n = Some (g, Bucket o dma fl) ↔ G !! n = Some (g, Bucket o dma fl)) → same_live s s' G G'.
Proof. intros Hh HG q l. unfold is_live. rewrite Hh. by setoid_rewrite HG. Qed.

Lemma free_kmalloc_spec s G L n i dma :
  kinv None s G L → G !! n = Some (i, Private) →
  ∃ s' G', free_kmalloc_pages (pa n) i dma s = Ret tt s' ∧ kinv None s' G' L ∧ same_live s s' G G' ∧ same_private G G' n.
Proof.
  intros Hi En. unfold free_kmalloc_pages. destruct (negb dma && (i <? MAX_CACHE_ORDER)%nat) eqn:Ec; last first.
  { destruct (release_area_spec s G L n i Hi En) as (s' & -> & Hi' & Hl). eexists s', _. split; [done|]. split; [exact Hi'|]. split; [done|].
    intros m g. rewrite lookup_delete_Some. naive_solver. }
  apply andb_prop in Ec as [_ Ec]. apply Nat.ltb_lt in Ec. unfold MAX_CACHE_ORDER in Ec. unfold mbind, M_bind, xchg_cache.
  destruct (lookup_lt_is_Some_2 (kmalloc_cache s) i) as [old Eold]; [rewrite (ki_len _ _ _ _ Hi); lia|]. rewrite Eold.
  destruct (ki_slot _ _ _ _ Hi _ _ Eold) as [->|(m & -> & Em)].
  - eexists _, _. split; [reflexivity|]. split; [by apply kinv_cache|]. split.
    + apply live_role; [done|]. apply (bucket_insert_other _ _ (i, Private)); [by right|done..].
    + intros m g. destruct (decide (m = n)) as [->|Hne]; [rewrite lookup_insert_eq; naive_solver|rewrite lookup_insert_ne by done; naive_solver].
  - assert (m ≠ n) as Hne by (intros ->; congruence). pose proof (kinv_pos _ _ _ _ _ _ _ Hi Em) as [Hpos _].
    rewrite (proj2 (Z.eqb_neq (pa m) 0)) by (unfold pa; lia). pose proof (kinv_uncache s G L i m Hi Eold Em) as Hi1.
    pose proof (kinv_cache _ _ L i n Hi1) as Hi2. cbn [kmalloc_cache upd] in Hi2.
    rewrite list_lookup_insert_eq, lookup_insert_ne, list_insert_insert_eq in Hi2 by (done || by eapply lookup_lt_Some). specialize (Hi2 eq_refl En).
    set (G2 := <[n := (i, Cached)]> (<[m := (i, Private)]> G)) in *.
    assert (G2 !! m = Some (i, Private)) as Em2 by (unfold G2; by rewrite lookup_insert_ne, lookup_insert_eq by done).
    destruct (release_area_spec _ G2 L m i Hi2 Em2) as (s' & E & Hi' & Hl). cbn in E |- *. rewrite E. eexists s', _. split; [done|]. split; [exact Hi'|]. split.
    + eapply same_live_trans; [|exact Hl]. apply live_role; [done|]. intros x g o d fl. unfold G2.
      rewrite (bucket_insert_other _ n (i, Private)); [|rewrite lookup_insert_ne by done; by right|done..].
      rewrite (bucket_insert_other _ m (i, Cached)); [done|by right|done..].
    + intros x g. rewrite lookup_delete_Some. unfold G2. destruct (decide (x = n)) as [->|Hxn]; [rewrite lookup_insert_eq; naive_solver|].
      rewrite lookup_insert_ne by done. destruct (decide (x = m)) as [->|Hxm]; [naive_solver congruence|]. rewrite lookup_insert_ne by done. naive_solver.
Qed.

(** ** Lemmas: taking an area off its list *)

Lemma unlink_run o dma n l2 d l1 : ∀ fuel pg x s,
  ld_place o dma pg s = Ret x s → alist (descs s) x (l1 ++ n :: l2) → (∀ m, m ∈ l1 → m ≠ n ∧ 0 < m) → 0 < n →
  (length l1 < fuel)%nat → descs s !! pa n = Some d →
  unlink_area fuel o dma pg (pa n) s =
    (st_place o dma (match last l1 with None => pg | Some m => Next (pa m) end) (d_next d) ;; mret true) s.
Proof.
  induction l1 as [|m l1 IH]; intros fuel pg x s Ex Ha Hm Hn Hf Ed; (destruct fuel as [|fuel]; [cbn in Hf; lia|]); cbn [unlink_area].
  - destruct Ha as (-> & _). unfold mbind at 1, M_bind at 1. rewrite Ex, (proj2 (Z.eqb_neq (pa n) 0)), Z.eqb_refl by (unfold pa; lia).
    unfold mbind at 1, M_bind at 1, ld_desc. by rewrite Ed.
  - destruct Ha as (-> & dm & Em & Ha). destruct (Hm m ltac:(set_solver)) as [Hmn Hm0].
    unfold mbind at 1, M_bind at 1. rewrite Ex, (proj2 (Z.eqb_neq (pa m) 0)), (proj2 (Z.eqb_neq (pa m) (pa n))) by (unfold pa; lia).
    rewrite (IH fuel (Next (pa m)) (d_next dm) s); [|by unfold ld_place, mbind, M_bind, ld_desc; rewrite Em|done|set_solver|done|cbn in Hf; lia|done].
    destruct l1 as [|m' l1]; [done|]. rewrite last_cons_cons. destruct (last (m' :: l1)) eqn:E; [done|]. by apply last_None in E.
Qed.

Lemma alist_skip D n l2 d m dm l1 : ∀ x,
  alist D x (l1 ++ m :: n :: l2) → NoDup (l1 ++ m :: n :: l2) → D !! pa n = Some d → D !! pa m = Some dm →
  alist (<[pa m := dm <| d_next := d_next d |>]> D) x (l1 ++ m :: l2).
Proof.
  induction l1 as [|y l1 IH]; intros x Ha Hnd Ed Edm; cbn [app] in *; apply NoDup_cons in Hnd as [Hx Hnd].
  - destruct Ha as (-> & dm' & _ & _ & d' & Ed' & Ha). rewrite Ed in Ed'. injection Ed' as <-. split; [done|]. eexists. rewrite lookup_insert_eq.
    split; [done|]. eapply alist_ext; [|exact Ha]. intros z Hz. rewrite lookup_insert_ne; [done|]. intros ->%pa_inj. set_solver.
  - destruct Ha as (-> & dy & Ey & Ha). split; [done|]. exists dy. rewrite lookup_insert_ne; [split; [done|by apply IH]|]. intros ->%pa_inj. set_solver.
Qed.

Lemma alist_prev D x l1 m n l2 : alist D x (l1 ++ m :: n :: l2) → ∃ dm, D !! pa m = Some dm ∧ d_next dm = pa n.
Proof. revert x. induction l1 as [|y l1 IH]; intros x; cbn; [intros (_ & d & E & Hn & _); by exists d|]. intros (_ & d & E & Ha). by eapply IH. Qed.

(** Only links of one list change. *)
Lemma kinv_relink b s s' G L o dma v l :
  kinv b s G L → pages s' = pages s → hdrs s' = hdrs s → kmalloc_cache s' = kmalloc_cache s → heads_to (sizes s) (sizes s') o dma v →
  (∀ a, descs s' !! a = descs s !! a ∨
     ∃ m d x, a = pa m ∧ m ∈ L o dma ∧ descs s !! a = Some d ∧ descs s' !! a = Some (d <| d_next := x |>) ∧ 0 ≤ x ∧ x mod 4096 = 0) →
  alist (descs s') v l → NoDup l → (∀ m, m ∈ l → m ∈ L o dma) → (∀ m, m ∈ L o dma → b ≠ Some m → m ∈ l) →
  kinv b s' G (lset L o dma l).
Proof.
  intros [I1 I2 I3 I4 I5 I6 I7 I8 I9 I10] Ep Eh Ec Hz Hd Hal Hnd Hsub Hsup. split.
  - by rewrite Ep.
  - intros o'. by rewrite (heads_static _ _ _ _ _ o' Hz).
  - intros n g o' dma' fl E. destruct (I3 _ _ _ _ _ E) as (Ho & Hg & Hok & Hl). split_and!; try done. rewrite Eh.
    destruct (Hd (pa n)) as [Ed|(m & d & x & _ & _ & Ed & Ed' & Hx0 & Hx)]; [by eapply area_ok_ext|].
    destruct Hok as [(d' & Ed'' & Hor & Hnf & _ & _ & Hc) ? ? ?]. rewrite Ed in Ed''. injection Ed'' as <-. split; try done.
    eexists. split; [exact Ed'|]. done.
  - intros o' dma' Ho'. destruct (I4 o' dma' Ho') as (b0 & Eb & Ha). specialize (Hz o'). rewrite Eb in Hz.
    destruct (sizes s' !! o') as [b1|]; [|done]. destruct Hz as (_ & _ & Hhd). exists b1. split; [done|]. rewrite Hhd. unfold lset.
    destruct (decide _) as [|Hno]; [done|]. eapply alist_ext; [|exact Ha]. intros m Hm.
    destruct (Hd (pa m)) as [->|(m' & d & x & <-%pa_inj & Hm' & _)]; [done|]. destruct Hno.
    destruct (I6 _ _ _ Hm) as (? & ? & E1 & _). destruct (I6 _ _ _ Hm') as (? & ? & E2 & _). rewrite E1 in E2. by injection E2.
  - intros o' dma'. unfold lset. by destruct (decide _).
  - intros o' dma' m. unfold lset. destruct (decide _) as [[-> ->]|]; [intros Hm%Hsub; by apply I6|apply I6].
  - intros n g o' dma' fl E Hf Hb. pose proof (I7 _ _ _ _ _ E Hf Hb) as Hin. unfold lset. destruct (decide _) as [[-> ->]|]; [by apply Hsup|done].
  - by rewrite Ec.
  - rewrite Ec. apply I9.
  - rewrite Ec. apply I10.
Qed.

Lemma list_fits b s G L o dma : kinv b s G L → (o < 13)%nat → (length (L o dma) ≤ length (map_to_list (descs s)))%nat.
Proof.
  intros Hi Ho. rewrite <-(length_fmap pa), <-(length_fmap fst (map_to_list (descs s))). apply submseteq_length, NoDup_submseteq.
  - apply NoDup_fmap_2; [|apply Hi]. intros x y. apply pa_inj.
  - intros a (n & -> & Hn)%list_elem_of_fmap. destruct (ki_listed _ _ _ _ Hi _ _ _ Hn) as (g & fl & E & _).
    destruct (ki_area _ _ _ _ Hi _ _ _ _ _ E) as (_ & _ & Hok & _). destruct (ao_desc _ _ _ _ _ _ Hok) as (d & Ed & _).
    apply list_elem_of_fmap. exists (pa n, d). split; [done|]. by apply elem_of_map_to_list.
Qed.

Lemma unlink_area_spec s G L n g o dma fl :
  kinv (Some n) s G L → G !! n = Some (g, Bucket o dma fl) → n ∈ L o dma →
  ∃ s' l, unlink_area (S (length (map_to_list (descs s)))) o dma Head (pa n) s = Ret true s' ∧
    kinv (Some n) s' G (lset L o dma l) ∧ n ∉ l ∧ hdrs s' = hdrs s.
Proof.
  intros Hi En Hin. destruct (ki_area _ _ _ _ Hi _ _ _ _ _ En) as (Ho & _ & Hok & _). destruct (ao_desc _ _ _ _ _ _ Hok) as (d & Ed & _ & _ & Hx0 & Hx & _).
  destruct (list_elem_of_split _ _ Hin) as (l1 & l2 & EL). pose proof (ki_nodup _ _ _ _ Hi o dma) as Hnd. rewrite EL in Hnd.
  destruct (kinv_size _ _ _ _ o dma Hi Ho) as (z & Ez & _ & _ & Ha). rewrite EL in Ha.
  assert (∀ m, m ∈ L o dma → 0 < m) as Hpos.
  { intros m Hm. destruct (ki_listed _ _ _ _ Hi _ _ _ Hm) as (? & ? & E & _). apply (kinv_pos _ _ _ _ _ _ _ Hi E). }
  assert (n ∉ l1 ++ l2 ∧ NoDup (l1 ++ l2)) as [Hnl Hnd'].
  { rewrite <-Permutation_middle in Hnd. by apply NoDup_cons in Hnd. }
  pose proof (list_fits _ _ _ _ o dma Hi Ho) as Hlen. rewrite EL, length_app in Hlen. cbn in Hlen.
  rewrite (unlink_run o dma n l2 d l1 _ Head (head dma z) s); [|by unfold ld_place, mbind, M_bind, ld_size; rewrite Ez|done| |apply Hpos; rewrite EL; set_solver|lia|done].
  2:{ intros m Hm. split; [intros ->; set_solver|]. apply Hpos. rewrite EL. set_solver. }
  assert (∀ m, m ∈ l1 ++ l2 → m ∈ L o dma) as Hsub by (intros m; rewrite EL; set_solver).
  assert (∀ m, m ∈ L o dma → Some n ≠ Some m → m ∈ l1 ++ l2) as Hsup by (intros m; rewrite EL; set_solver).
  destruct (last l1) as [m|] eqn:El.
  - apply last_Some in El as [l0 ->]. rewrite <-app_assoc in Ha, Hnd. cbn [app] in Ha, Hnd. destruct (alist_prev _ _ _ _ _ _ Ha) as (dm & Edm & _).
    unfold mbind, M_bind, st_place, st_desc, modify. eexists _, ((l0 ++ [m]) ++ l2). split; [reflexivity|]. split; [|done].
    eapply (kinv_relink _ _ _ _ _ o dma (head dma z)); try done; cbn [descs upd]; [by apply heads_refl| |].
    + intros a. destruct (decide (a = pa m)) as [->|Hne]; [right|left; by rewrite lookup_insert_ne]. exists m, dm, (d_next d).
      rewrite lookup_insert_eq, Edm. split_and!; try done. rewrite EL. set_solver.
    + rewrite <-app_assoc, Edm. cbn [app]. by eapply alist_skip.
  - apply last_None in El as ->. cbn [app] in *. destruct Ha as (_ & d' & Ed' & Ha). rewrite Ed in Ed'. injection Ed' as <-.
    unfold mbind, M_bind, st_place, st_size, modify. eexists _, l2. split; [reflexivity|]. split; [|done].
    eapply (kinv_relink _ _ _ _ _ o dma (d_next d)); try done; [apply heads_set|by left].
Qed.

(** ** Lemmas: giving back a block *)

Lemma kinv_counts b s G L o f :
  kinv b s G L → (∀ z, nblocks (f z) = nblocks z ∧ gfporder (f z) = gfporder z ∧ ∀ dma, head dma (f z) = head dma z) →
  kinv b (s <| sizes := alter f o (sizes s) |>) G L.
Proof.
  intros [I1 I2 I3 I4 I5 I6 I7 I8 I9 I10] Hf. split; try done; cbn [sizes upd descs].
  - intros o'. rewrite <-I2. destruct (decide (o' = o)) as [->|Hne]; [|by rewrite list_lookup_alter_ne]. rewrite list_lookup_alter_eq.
    destruct (sizes s !! o) as [z|]; [|done]. cbn. by destruct (Hf z) as (-> & -> & _).
  - intros o' dma Ho. destruct (I4 o' dma Ho) as (z & Ez & Ha). destruct (decide (o' = o)) as [->|Hne]; [|exists z; by rewrite list_lookup_alter_ne].
    exists (f z). rewrite list_lookup_alter_eq, Ez. split; [done|]. by destruct (Hf z) as (_ & _ & ->).
Qed.

Lemma free_area_spec s G L n g o dma fl :
  kinv (Some n) s G L → G !! n = Some (g, Bucket o dma fl) → n ∉ L o dma → blocks_of n o ⊆ fl →
  ∃ s' G', free_area_of o dma (pa n) s = Ret tt s' ∧ kinv None s' G' L ∧ same_live s s' G G' ∧ same_private G G' n.
Proof.
  intros Hi En HnL Hall. destruct (ki_area _ _ _ _ Hi _ _ _ _ _ En) as (Ho & Hg & _).
  unfold free_area_of. unfold mbind at 1, M_bind at 1, st_size, modify. set (s1 := s <| sizes := _ |>).
  assert (kinv (Some n) s1 G L) as Hi1 by (by apply kinv_counts).
  destruct (kinv_size _ _ _ _ o dma Hi1 Ho) as (z & Ez & _ & Eg & _). unfold mbind at 1, M_bind at 1, ld_size. rewrite Ez, Eg.
  pose proof (kinv_private s1 G L n g o dma fl (gfp o) Hi1 En HnL Hg) as Hi2. set (G2 := <[n := (gfp o, Private)]> G) in *.
  destruct (free_kmalloc_spec s1 G2 L n (gfp o) dma Hi2 (lookup_insert_eq _ _ _)) as (s' & G' & -> & Hi' & Hl & Hp).
  exists s', G'. split_and!; try done.
  - eapply same_live_trans; [|exact Hl]. apply (live_same (Some n) s s1 G L n (Some (gfp o, Private)) Hi); [|done..].
    intros ? ? ? ? E. rewrite En in E. by injection E as <- <- <- <-.
  - intros m gm. rewrite (Hp m gm). unfold G2. split; intros [Hne E]; (split; [done|]); [by rewrite lookup_insert_ne in E|by rewrite lookup_insert_ne].
Qed.

(** The area after a block has come back. *)
Lemma area_give D H n o dma p fl d x :
  area_ok D H n o dma fl → p ∈ blocks_of n o → p ∉ fl → D !! pa n = Some d → 0 ≤ x → x mod 4096 = 0 →
  area_ok (<[pa n := MkDesc x p (d_order d) (d_nfree d + 1)]> D) (<[p := MkHdr MF_FREE (d_firstfree d)]> H) n o dma (p :: fl).
Proof.
  intros [(d' & Ed & Hor & Hn & Hx & Hx' & Hc) Hnd Hf Hu] Hp Hpf Ed' H0 H1. rewrite Ed' in Ed. injection Ed as <-. split.
  - eexists. rewrite lookup_insert_eq. split; [done|]. cbn [d_order d_nfree d_next d_firstfree length]. split_and!; try done; [lia|].
    split; [done|]. exists (d_firstfree d). rewrite lookup_insert_eq. split; [done|]. eapply chain_ext; [|exact Hc]. intros q Hq.
    rewrite lookup_insert_ne; [done|]. intros ->. done.
  - by apply NoDup_cons.
  - set_solver.
  - intros q Hq Hq'. rewrite lookup_insert_ne by set_solver. apply Hu; set_solver.
Qed.

Lemma give_loses b s s' G L n g o dma p fl len x :
  kinv b s G L → G !! n = Some (g, Bucket o dma fl) → p ∈ blocks_of n o → p ∉ fl → hdrs s !! p = Some (MkHdr (block_type dma) len) →
  hdrs s' = <[p := MkHdr MF_FREE x]> (hdrs s) → loses s s' G (<[n := (g, Bucket o dma (p :: fl))]> G) (p + 8).
Proof.
  intros Hi En Hp Hpf Eh Hh. destruct (ki_area _ _ _ _ Hi _ _ _ _ _ En) as (Ho & _). destruct (block_page n o p Ho Hp) as [Hpn _].
  intros q l. split.
  - intros (m & gm & om & dm & fm & Em & Hb & Hf & Hq). rewrite Hh in Hq. destruct (decide (m = n)) as [->|Hne].
    + rewrite lookup_insert_eq in Em. injection Em as <- <- <- <-. assert (q - 8 ≠ p) as Hqp by set_solver. split; [lia|].
      rewrite lookup_insert_ne in Hq by done. exists n, g, o, dma, fl. split_and!; try done. set_solver.
    + rewrite lookup_insert_ne in Em by done. destruct (ki_area _ _ _ _ Hi _ _ _ _ _ Em) as (Ho' & _).
      destruct (block_page m om _ Ho' Hb) as [Hm _]. assert (q - 8 ≠ p) as Hqp by congruence. split; [lia|].
      rewrite lookup_insert_ne in Hq by done. by exists m, gm, om, dm, fm.
  - intros [Hqp (m & gm & om & dm & fm & Em & Hb & Hf & Hq)]. assert (q - 8 ≠ p) as Hqp' by lia. destruct (decide (m = n)) as [->|Hne].
    + rewrite En in Em. injection Em as <- <- <- <-. exists n, g, o, dma, (p :: fl). rewrite lookup_insert_eq, Hh, lookup_insert_ne by done.
      split_and!; try done. set_solver.
    + exists m, gm, om, dm, fm. rewrite lookup_insert_ne, Hh, lookup_insert_ne by done. done.
Qed.

(** An area with blocks in use and a place on its list, if it needs one, is at rest. *)
Lemma kinv_idle s G L n g o dma fl :
  kinv (Some n) s G L → G !! n = Some (g, Bucket o dma fl) → (length fl < nb o)%nat → n ∈ L o dma → kinv None s G L.
Proof.
  intros [I1 I2 I3 I4 I5 I6 I7 I8 I9 I10] En Hlen Hin. split; try done.
  - intros m gm om dm fm E. destruct (I3 _ _ _ _ _ E) as (? & ? & ? & Hl). split_and!; try done. intros _. destruct (decide (m = n)) as [->|Hne].
    + rewrite En in E. by injection E as <- <- <- <-.
    + apply Hl. congruence.
  - intros m gm om dm fm E Hf _. destruct (decide (m = n)) as [->|Hne]; [rewrite En in E; by injection E as <- <- <- <-|].
    apply (I7 _ _ _ _ _ E Hf). congruence.
Qed.

Definition count_free (len : Z) (b : size_descriptor) : size_descriptor :=
  b <| nfrees := s32 (nfrees b + 1) |> <| nbytesmalloced := s32 (nbytesmalloced b - len) |>.

(** The state after the block has come back, with [next] and the list's head. *)
Definition given (s : ks P) (o : nat) (a p x len : Z) (d : page_descriptor) (f : size_descriptor → size_descriptor) : ks P :=
  MkKs (pages s) (<[a := MkDesc x p (d_order d) (d_nfree d + 1)]> (descs s)) (<[p := MkHdr MF_FREE (d_firstfree d)]> (hdrs s))
    (alter f o (alter (count_free len) o (sizes s))) (kmalloc_cache s) (k_count s).

(** The end of [kfree], with the area on its list. *)
Definition kfree_end (o : nat) (dma : bool) (page nblocks : Z) : M (ks P) unit :=
  d ← ld_desc page;
  when (d_nfree d =? nblocks) (
    n ← gets (λ s, Datatypes.length (map_to_list (descs s)));
    found ← unlink_area (S n) o dma Head page;
    when (found : bool) (free_area_of o dma page)).

Lemma kfree_block_run o dma a p s d z t len :
  descs s !! a = Some d → hdrs s !! p = Some (MkHdr t len) → sizes s !! o = Some z →
  kfree_block o dma a p s =
    if d_nfree d =? 0 then
      if nblocks z =? 1 then free_area_of o dma a (given s o a p (d_next d) len d (λ b, b))
      else kfree_end o dma a (nblocks z) (given s o a p (head dma z) len d (set_head dma a))
    else kfree_end o dma a (nblocks z) (given s o a p (d_next d) len d (λ b, b)).
Proof.
  intros Ed Eh Ez. unfold kfree_block. unfold mbind at 1, M_bind at 1, ld_hdr. rewrite Eh.
  unfold mbind at 1, M_bind at 1, st_size, modify. unfold mbind at 1, M_bind at 1, ld_desc. cbn [descs upd]. rewrite Ed.
  unfold mbind at 1, M_bind at 1, st_hdr, modify. unfold mbind at 1, M_bind at 1, st_desc, modify. cbn [descs upd]. rewrite Ed.
  unfold mbind at 1, M_bind at 1, ld_size. cbn [sizes upd]. rewrite list_lookup_alter_eq, Ez. cbn [fmap option_fmap option_map nblocks].
  assert (∀ l : list size_descriptor, alter (λ b, b) o l = l) as Eid.
  { intros l. apply list_eq. intros i. destruct (decide (i = o)) as [->|?]; [rewrite list_lookup_alter_eq; by destruct (l !! o)|by rewrite list_lookup_alter_ne]. }
  unfold given. rewrite !Eid. destruct (d_nfree d =? 0); cbn [andb]; [destruct (nblocks z =? 1)|]; [by destruct d|..].
  - cbn [when]. unfold mbind at 1, M_bind at 1. unfold mbind at 1, M_bind at 1, modify. cbn [descs upd]. rewrite lookup_insert_eq, insert_insert_eq.
    unfold kfree_end. cbn. by destruct dma, d.
  - cbn [when]. unfold mbind at 1, M_bind at 1. unfold kfree_end. by destruct d.
Qed.

Lemma heads_counts z o dma b len : z !! o = Some b → heads_to z (alter (count_free len) o z) o dma (head dma b).
Proof. intros E. apply heads_count; [by apply heads_refl|done]. Qed.

Lemma given_same s G L n g o dma p fl d z len :
  kinv None s G L → G !! n = Some (g, Bucket o dma fl) → p ∈ blocks_of n o → p ∉ fl → descs s !! pa n = Some d → sizes s !! o = Some z →
  kinv (Some n) (given s o (pa n) p (d_next d) len d (λ b, b)) (<[n := (g, Bucket o dma (p :: fl))]> G) (lset L o dma (L o dma)).
Proof.
  intros Hi En Hp Hpf Ed Ez. destruct (ki_area _ _ _ _ Hi _ _ _ _ _ En) as (Ho & Hg & Hok & _).
  destruct (ao_desc _ _ _ _ _ _ Hok) as (d' & Ed' & _ & _ & H0 & H1 & _). rewrite Ed in Ed'. injection Ed' as <-.
  destruct (kinv_size _ _ _ _ o dma Hi Ho) as (z' & Ez' & _ & _ & Ha). rewrite Ez in Ez'. injection Ez' as <-.
  destruct (block_page n o p Ho Hp) as [Hpn _].
  eapply (kinv_bucket None (Some n) s _ G L n g _ o dma (p :: fl) (head dma z)); try done; cbn [pages kmalloc_cache descs hdrs sizes given].
  - right. by eexists.
  - by left.
  - by right.
  - apply heads_count; [by apply heads_counts|done].
  - intros a Hne. by rewrite lookup_insert_ne.
  - intros q Hq. rewrite lookup_insert_ne; [done|]. intros ->. done.
  - by apply area_give.
  - eapply alist_ext; [|exact Ha]. intros m Hm. destruct (decide (m = n)) as [->|Hne]; [by rewrite lookup_insert_eq, Ed|].
    rewrite lookup_insert_ne; [done|]. intros ?%pa_inj. done.
  - apply Hi.
Qed.

Lemma given_front s G L n g o dma p d z len :
  kinv None s G L → G !! n = Some (g, Bucket o dma []) → p ∈ blocks_of n o → descs s !! pa n = Some d → sizes s !! o = Some z →
  kinv (Some n) (given s o (pa n) p (head dma z) len d (set_head dma (pa n))) (<[n := (g, Bucket o dma [p])]> G) (lset L o dma (n :: L o dma)).
Proof.
  intros Hi En Hp Ed Ez. destruct (ki_area _ _ _ _ Hi _ _ _ _ _ En) as (Ho & Hg & Hok & _).
  destruct (kinv_size _ _ _ _ o dma Hi Ho) as (z' & Ez' & _ & _ & Ha). rewrite Ez in Ez'. injection Ez' as <-.
  destruct (block_page n o p Ho Hp) as [Hpn _]. assert (n ∉ L o dma) as HnL.
  { intros Hin. destruct (ki_listed _ _ _ _ Hi _ _ _ Hin) as (? & ? & E & ?). rewrite En in E. by injection E as <- <-. }
  assert (0 ≤ head dma z ∧ head dma z mod 4096 = 0) as [Hh0 Hh1].
  { destruct (L o dma) as [|m l] eqn:EL; [cbn in Ha; by rewrite Ha|]. destruct Ha as (-> & _). destruct (ki_listed _ _ _ _ Hi o dma m) as (? & ? & E & _);
      [rewrite EL; set_solver|]. pose proof (kinv_pos _ _ _ _ _ _ _ Hi E). unfold pa. rewrite Z.mod_mul by lia. lia. }
  eapply (kinv_bucket None (Some n) s _ G L n g _ o dma [p] (pa n)); try done; cbn [pages kmalloc_cache descs hdrs sizes given].
  - right. by eexists.
  - by left.
  - by right.
  - intros o'. pose proof (heads_set (alter (count_free len) o (sizes s)) o dma (pa n) o') as Hz. destruct (decide (o' = o)) as [->|Hne].
    + rewrite !list_lookup_alter_eq, Ez in *. done.
    + rewrite !list_lookup_alter_ne in * by done. done.
  - intros a Hne. by rewrite lookup_insert_ne.
  - intros q Hq. rewrite lookup_insert_ne; [done|]. intros ->. done.
  - apply area_give; try done. apply not_elem_of_nil.
  - split; [done|]. eexists. rewrite lookup_insert_eq. split; [done|]. cbn. eapply alist_ext; [|exact Ha]. intros m Hm.
    rewrite lookup_insert_ne; [done|]. intros ->%pa_inj. done.
  - apply NoDup_cons. split; [done|apply Hi].
  - set_solver.
Qed.

Lemma loses_same s s1 s2 G G1 G2 q : loses s s1 G G1 q → same_live s1 s2 G1 G2 → loses s s2 G G2 q.
Proof. intros H1 H2 q' l. by rewrite (H2 q' l), (H1 q' l). Qed.

Lemma all_free n o fl : (o < 13)%nat → NoDup fl → fl ⊆ blocks_of n o → length fl = nb o → blocks_of n o ⊆ fl.
Proof.
  intros Ho Hnd Hsub Hlen p Hp. assert (fl ⊆+ blocks_of n o) as Hs by (by apply NoDup_submseteq).
  apply submseteq_length_Permutation in Hs; [|rewrite blocks_length; lia]. by rewrite Hs.
Qed.

(** The end of [kfree] on an area that is on its list. *)
Lemma kfree_end_spec s G L n g o dma fl :
  kinv (Some n) s G L → G !! n = Some (g, Bucket o dma fl) → n ∈ L o dma → (length fl ≤ nb o)%nat →
  ∃ s' G' L', kfree_end o dma (pa n) (Z.of_nat (nb o)) s = Ret tt s' ∧ kinv None s' G' L' ∧ same_live s s' G G' ∧ same_private G G' n.
Proof.
  intros Hi En Hin Hle. destruct (ki_area _ _ _ _ Hi _ _ _ _ _ En) as (Ho & _ & Hok & _). destruct (ao_desc _ _ _ _ _ _ Hok) as (d & Ed & _ & Hnf & _).
  unfold kfree_end. unfold mbind at 1, M_bind at 1, ld_desc. rewrite Ed, Hnf.
  destruct (Z.eqb_spec (Z.of_nat (length fl)) (Z.of_nat (nb o))) as [E|E]; cbn [when].
  - unfold mbind at 1, M_bind at 1, gets. destruct (unlink_area_spec s G L n g o dma fl Hi En Hin) as (s1 & l & E1 & Hi1 & Hnl & Hh1).
    unfold mbind at 1, M_bind at 1. rewrite E1. cbn [when].
    destruct (free_area_spec s1 G (lset L o dma l) n g o dma fl Hi1 En) as (s' & G' & -> & Hi' & Hl & Hp).
    + by rewrite lset_eq.
    + apply all_free; [done|apply Hok|apply Hok|lia].
    + exists s', G', (lset L o dma l). split_and!; try done. eapply same_live_trans; [|exact Hl]. by apply live_role.
  - exists s, G, L. split_and!; try done; [eapply kinv_idle; [done..|lia|done]|].
    intros m gm. split; [|by intros [_ ?]]. intros Em. split; [|done]. intros ->. congruence.
Qed.

Lemma kfree_block_spec s G L n g o dma p fl len :
  kinv None s G L → G !! n = Some (g, Bucket o dma fl) → p ∈ blocks_of n o → p ∉ fl → hdrs s !! p = Some (MkHdr (block_type dma) len) →
  ∃ s' G' L', kfree_block o dma (pa n) p s = Ret tt s' ∧ kinv None s' G' L' ∧ loses s s' G G' (p + 8) ∧ same_private G G' n.
Proof.
  intros Hi En Hp Hpf Eh. destruct (ki_area _ _ _ _ Hi _ _ _ _ _ En) as (Ho & Hg & Hok & Hlen). specialize (Hlen ltac:(done)).
  destruct (ao_desc _ _ _ _ _ _ Hok) as (d & Ed & _ & Hnf & _). destruct (kinv_size _ _ _ _ o dma Hi Ho) as (z & Ez & Enb & _ & _).
  rewrite (kfree_block_run o dma (pa n) p s d z _ _ Ed Eh Ez), Enb, Hnf. set (G1 := <[n := (g, Bucket o dma (p :: fl))]> G).
  assert (∀ x f, loses s (given s o (pa n) p x len d f) G G1 (p + 8)) as Hlose by (intros x f; by eapply give_loses).
  assert (∀ G', same_private G1 G' n → same_private G G' n) as Hpr.
  { intros G' H m gm. rewrite (H m gm). unfold G1. split; intros [Hne E]; (split; [done|]); [by rewrite lookup_insert_ne in E|by rewrite lookup_insert_ne]. }
  pose proof (given_same s G L n g o dma p fl d z len Hi En Hp Hpf Ed Ez) as Hi1. fold G1 in Hi1.
  assert (G1 !! n = Some (g, Bucket o dma (p :: fl))) as En1 by apply lookup_insert_eq.
  destruct (decide (fl = [])) as [->|Hfl].
  - change (Z.of_nat (length []) =? 0) with true. cbv iota. assert (n ∉ L o dma) as HnL.
    { intros Hin. destruct (ki_listed _ _ _ _ Hi _ _ _ Hin) as (? & ? & E & ?). rewrite En in E. by injection E as <- <-. }
    destruct (Z.eqb_spec (Z.of_nat (nb o)) 1) as [E1|E1].
    + destruct (free_area_spec _ _ _ n g o dma [p] Hi1 En1) as (s' & G' & -> & Hi' & Hl & Hp'); [by rewrite lset_eq| |].
      * destruct (ki_area _ _ _ _ Hi1 _ _ _ _ _ En1) as (_ & _ & Hok1 & _). apply all_free; [done|apply Hok1|apply Hok1|cbn; lia].
      * exists s', G', (lset L o dma (L o dma)). split_and!; try done; [by eapply loses_same|by apply Hpr].
    + pose proof (given_front s G L n g o dma p d z len Hi En Hp Ed Ez) as Hi2. fold G1 in Hi2.
      destruct (kfree_end_spec _ _ _ n g o dma [p] Hi2 En1) as (s' & G' & L' & -> & Hi' & Hl & Hp'); [rewrite lset_eq; set_solver|cbn; lia|].
      exists s', G', L'. split_and!; try done; [by eapply loses_same|by apply Hpr].
  - rewrite (proj2 (Z.eqb_neq _ 0)) by (destruct fl; [done|cbn; lia]). cbv iota.
    destruct (kfree_end_spec _ _ _ n g o dma (p :: fl) Hi1 En1) as (s' & G' & L' & -> & Hi' & Hl & Hp').
    + rewrite lset_eq. by apply (ki_avail _ _ _ _ Hi _ _ _ _ _ En).
    + cbn. lia.
    + exists s', G', L'. split_and!; try done; [by eapply loses_same|by apply Hpr].
Qed.

(** The flags of the header do not matter any more. *)
Lemma kfree_block_flags o dma a p s d z t t' len :
  descs s !! a = Some d → hdrs s !! p = Some (MkHdr t len) → sizes s !! o = Some z →
  kfree_block o dma a p (s <| hdrs := <[p := MkHdr t' len]> (hdrs s) |>) = kfree_block o dma a p s.
Proof.
  intros Ed Eh Ez. set (s1 := s <| hdrs := _ |>). assert (hdrs s1 !! p = Some (MkHdr t' len)) as Eh1 by apply lookup_insert_eq.
  rewrite (kfree_block_run o dma a p s d z t len Ed Eh Ez), (kfree_block_run o dma a p s1 d z t' len Ed Eh1 Ez).
  unfold given, s1. cbn [pages descs hdrs sizes kmalloc_cache k_count upd]. by rewrite insert_insert_eq.
Qed.

Lemma page_of_block n g o q b s G L dma fl :
  kinv b s G L → G !! n = Some (g, Bucket o dma fl) → q - 8 ∈ blocks_of n o → Z.land q (2 ^ 32 - 4096) = pa n ∧ q ≠ 0.
Proof.
  intros Hi En Hq. destruct (ki_area _ _ _ _ Hi _ _ _ _ _ En) as (Ho & _). destruct (block_page n o _ Ho Hq) as [_ Hn].
  replace (q - 8 + 8) with q in Hn by lia. pose proof (block_range n o _ Ho Hq) as (H1 & H2 & _). pose proof (kinv_pos _ _ _ _ _ _ _ Hi En) as [Hpos Hhi].
  pose proof (size_pos g). unfold pa in *. split; [|lia].
  pose proof (land_align q 12 ltac:(lia) ltac:(lia)) as E. change (size 12) with 4096 in E. by rewrite E, Hn.
Qed.

Lemma kfree_spec s G L q len :
  kinv None s G L → is_live s G q len →
  ∃ s' G' L', kfree q s = Ret tt s' ∧ kinv None s' G' L' ∧ loses s s' G G' q ∧
    ∀ m g, G' !! m = Some (g, Private) ↔ G !! m = Some (g, Private).
Proof.
  intros Hi (n & g & o & dma & fl & En & Hb & Hf & Hh). destruct (ki_area _ _ _ _ Hi _ _ _ _ _ En) as (Ho & _ & Hok & _).
  destruct (ao_desc _ _ _ _ _ _ Hok) as (d & Ed & Hor & _ & Hx0 & Hx & _). destruct (kinv_size _ _ _ _ o dma Hi Ho) as (z & Ez & _).
  destruct (page_of_block n g o q _ _ _ _ _ _ Hi En Hb) as [Ea Hq0]. unfold kfree, sizeof_block_header. rewrite (proj2 (Z.eqb_neq _ _) Hq0), Ea.
  unfold mbind at 1, M_bind at 1, ld_desc. rewrite Ed, Hor. change 0xfff with (Z.ones 12). rewrite Z.land_ones by lia. change (2 ^ 12) with 4096. rewrite Hx.
  rewrite u32_id by lia. rewrite (proj2 (Z.leb_gt 14 _)) by lia. cbn [negb Z.eqb orb]. unfold mbind at 1, M_bind at 1, ld_hdr. rewrite Hh. cbn [bh_flags].
  destruct (kfree_block_spec s G L n g o dma (q - 8) fl len Hi En Hb Hf Hh) as (s' & G' & L' & E & Hi' & Hl & Hp).
  exists s', G', L'. split_and!; try done.
  - rewrite Nat2Z.id. unfold mbind, M_bind. destruct dma; cbn -[kfree_block Z.sub]; [|exact E].
    unfold st_hdr, modify. rewrite <-E. by eapply kfree_block_flags.
  - replace q with (q - 8 + 8) by lia. done.
  - intros m gm. rewrite (Hp m gm). split; [by intros [_ ?]|]. intros Em. split; [|done]. intros ->. congruence.
Qed.

End laws.
