(* ===== verification/KmallocSys.v ===== *)
(** * KmallocSys: kmalloc in use

    [kmalloc] and [kfree] in any order, also interrupted by each other while
    pages are asked for; and [kmalloc] on the page allocator of [PageAlloc]. *)

From stdpp Require Import gmap relations.
From S2P Require Import Prelude PageAlloc PageAllocFacts PageAllocSys Kmalloc KmallocFacts.

(** ** Specification *)

(** The allocator, the requests that wait for an area or have just got one, and
    the blocks in use with the sizes asked for. *)
Record ksys (P : Type) := MkSys { k_st : ks P; k_pend : gmap Z (request * option Z); k_live : gmap Z Z }.
Arguments MkSys {P} _ _ _.
Arguments k_st {P} _.
Arguments k_pend {P} _.
Arguments k_live {P} _.

Inductive k_step {P} `{PageSource P} : ksys P → ksys P → Prop :=
  | k_found size priority s pend live q s' :
      0 ≤ size → size + 8 < 2 ^ 32 → kmalloc_start size priority s = Ret (inl q) s' →
      k_step (MkSys s pend live) (MkSys s' pend (if decide (q = 0) then live else <[q := size]> live))
  | k_ask t size priority s pend live k s' :
      pend !! t = None → 0 ≤ size → size + 8 < 2 ^ 32 → kmalloc_start size priority s = Ret (inr k) s' →
      k_step (MkSys s pend live) (MkSys s' (<[t := (k, None)]> pend) live)
  | k_area t k s pend live a s' :
      pend !! t = Some (k, None) → kmalloc_area k s = Ret a s' →
      k_step (MkSys s pend live) (MkSys s' (if decide (a = 0) then delete t pend else <[t := (k, Some a)]> pend) live)
  | k_cut t k a s pend live q s' :
      pend !! t = Some (k, Some a) → kmalloc_carve k a s = Ret q s' →
      k_step (MkSys s pend live) (MkSys s' (delete t pend) (<[q := rq_size k]> live))
  | k_free q len s pend live s' :
      live !! q = Some len → kfree q s = Ret tt s' → k_step (MkSys s pend live) (MkSys s' pend (delete q live)).

(** ** The page allocator as a source of pages *)

(** What [try_to_free_page] does in a request for pages that begins in a state, as
    often as it succeeds. *)
Class Reclaim := { tries : mm → list (mm → mm); tries_ok s : Forall try_keeps (tries s) }.

#[global] Instance mm_source `{Reclaim} : PageSource mm := {
  ps_get priority order dma s := __get_free_pages (tries s) priority order dma s;
  ps_free := free_pages;
  ps_intr := intr_count;
}.

Lemma size_mono o o' : (o' ≤ o)%nat → size o' ≤ size o.
Proof. intros H. unfold size. apply Z.pow_le_mono_r; lia. Qed.

Lemma size_divide o o' n : (o' ≤ o)%nat → n mod size o = 0 → n mod size o' = 0.
Proof.
  intros Hle Hn. apply Z.mod_divide; [pose proof (size_pos o'); lia|]. apply Z.mod_divide in Hn; [|pose proof (size_pos o); lia].
  etrans; [|exact Hn]. exists (2 ^ Z.of_nat (o - o')). unfold size. rewrite <-Z.pow_add_r by lia. f_equal. lia.
Qed.

(** The end of a block is forgotten. *)
Lemma heap_less F s own qs n o o' :
  heap_inv F (MkHeap s own) qs → own !! n = Some o → (o' ≤ o)%nat →
  heap_inv (λ p, F p ∧ (in_block o n p → in_block o' n p)) (MkHeap s (<[n := o']> own)) qs.
Proof.
  intros [Hs Hh Hu Hown Hap Hpg] En Hle. cbn [h_mm owned] in *. pose proof (size_mono o o' Hle) as Hsz.
  assert (∀ p, in_block o' n p → in_block o n p) as Hin by (unfold in_block; intros; lia).
  assert (∀ m om p, <[n := o']> own !! m = Some om → in_block om m p → ∃ om', own !! m = Some om' ∧ in_block om' m p) as Hold.
  { intros m om p Em Hp. apply lookup_insert_Some in Em as [[-> ->]|[_ Em]]; [exists o; split; [done|by apply Hin]|by exists om]. }
  split; cbn [h_mm owned]; try done.
  - intros p [Hp _]. by apply Hu.
  - intros m om Em. apply lookup_insert_Some in Em as [[<- <-]|[_ Em]]; [|by apply Hown].
    destruct (Hown n o En) as (Ho & (H1 & H2 & H3 & H4) & H5). split; [lia|]. split; [|done]. split_and!; [done|by eapply size_divide|lia|].
    intros p Hp. apply H4. by apply Hin.
  - intros m om m' om' p E1 E2 H1 H2. destruct (Hold _ _ _ E1 H1) as (o1 & E1' & H1'). destruct (Hold _ _ _ E2 H2) as (o2 & E2' & H2').
    by apply (Hap m o1 m' o2 p).
  - intros p. rewrite Hpg. split.
    + intros [[Hf|(m & om & Em & Hp)] Hb]; [by left|]. right. destruct (decide (m = n)) as [->|Hne].
      * rewrite En in Em. injection Em as <-. exists n, o'. rewrite lookup_insert_eq. split; [done|by apply Hb].
      * exists m, om. by rewrite lookup_insert_ne.
    + intros [Hf|(m & om & Em & Hp)].
      * split; [by left|]. intros Hb. destruct (Hown n o En) as (_ & (_ & _ & _ & Hnf) & _). by destruct (Hnf p Hb).
      * destruct (Hold _ _ _ Em Hp) as (om' & Em' & Hp'). split; [right; by exists m, om'|]. intros Hb.
        assert (m = n) as -> by (by apply (Hap m om' n o p)). rewrite lookup_insert_eq in Em. by injection Em as <-.
Qed.

Definition mm_holds (s : mm) (W : gmap Z nat) : Prop := ∃ F qs, heap_inv F (MkHeap s W) qs.

#[global] Instance mm_laws `{Reclaim} : PageLaws mm.
Proof.
  refine {| holds := mm_holds |}; unfold mm_holds.
  - intros s W priority order dma (F & qs & Hi) _. destruct (get_page_tries (tries s) F s W qs priority order dma (tries_ok s) Hi) as (r & s' & F' & qs' & E & _ & Hr).
    exists r, s'. split; [done|]. destruct Hr as [[-> Hi']|(n & -> & Hn & Hw & Hi')]; [left; split; [done|by exists F', qs']|].
    right. exists n. split_and!; try done. by exists F', qs'.
  - intros s W n order (F & qs & Hi) Hn. destruct (free_keeps F s W qs n order Hi Hn) as (s' & qs' & E & Hi').
    destruct (hi_owned _ _ _ Hi n order Hn) as (_ & Hput & _). destruct (address_id s qs order n (hi_mm _ _ _ Hi) Hput) as [Ea _].
    exists s'. split; [|by exists F, qs']. cbn. change 4096 with (2 ^ 12). by rewrite <-Ea.
  - intros s W n order order' (F & qs & Hi) Hn Hle. eexists _, qs. by eapply heap_less.
  - intros s W n order (F & qs & Hi) Hn. destruct (hi_owned _ _ _ Hi n order Hn) as (_ & (Hpos & _ & Hle & _) & _).
    pose proof (sh_small _ _ (mi_shape _ _ (hi_mm _ _ _ Hi))). cbn in *. lia.
  - intros s W n order n' order' x (F & qs & Hi) Hn Hn'. by apply (hi_apart _ _ _ Hi).
Defined.

(** ** Lemmas: the invariant in use *)

Section laws.
Context {P : Type} {PS : PageSource P} {PL : PageLaws P}.
Implicit Types (s : ks P).

(** An area that has been got but not cut belongs to one request. *)
Record pend_ok (G : gmap Z (nat * role)) (pend : gmap Z (request * option Z)) : Prop := {
  po_req t k a : pend !! t = Some (k, a) → req_ok k;
  po_area t k a : pend !! t = Some (k, Some a) → ∃ n g, a = pa n ∧ G !! n = Some (g, Private) ∧ (gfp (rq_order k) ≤ g)%nat;
  po_one t t' k k' a : pend !! t = Some (k, Some a) → pend !! t' = Some (k', Some a) → t = t';
  po_all n g : G !! n = Some (g, Private) → ∃ t k, pend !! t = Some (k, Some (pa n));
}.

Definition sys_ok (y : ksys P) : Prop :=
  ∃ G L, kinv None (k_st y) G L ∧ (∀ q l, k_live y !! q = Some l ↔ is_live (k_st y) G q l) ∧ pend_ok G (k_pend y).

Lemma init_ok p : holds p ∅ → sys_ok (MkSys (ks_init p) ∅ ∅).
Proof.
  intros Hp. exists ∅, (λ _ _, []). split_and!.
  - split; try done.
    + intros o dma Ho. exists (bucket0 o). split; [by apply bucket0_lookup|]. unfold bucket0. do 13 (destruct o as [|o]; [by destruct dma|]). lia.
    + intros o dma. constructor.
    + intros o dma n Hn. by apply elem_of_nil in Hn.
    + intros i a Ha. left. destruct i as [|[|[|i]]]; naive_solver.
  - intros q l. cbn. split; [done|]. by intros (n & g & o & dma & fl & E & _).
  - split; done.
Qed.

Lemma private_same G G' pend : pend_ok G pend → (∀ m g, G' !! m = Some (g, Private) ↔ G !! m = Some (g, Private)) → pend_ok G' pend.
Proof.
  intros [H1 H2 H3 H4] HG. split; try done.
  - intros t k a E. destruct (H2 t k a E) as (n & g & ? & ? & ?). exists n, g. by rewrite HG.
  - intros n g E. apply (H4 n g). by apply HG.
Qed.

Lemma bucket_private (G : gmap Z (nat * role)) n g o dma fl fl' :
  G !! n = Some (g, Bucket o dma fl) →
  ∀ m g', <[n := (g, Bucket o dma fl')]> G !! m = Some (g', Private) ↔ G !! m = Some (g', Private).
Proof. intros E m g'. destruct (decide (m = n)) as [->|Hne]; [rewrite lookup_insert_eq, E; naive_solver|by rewrite lookup_insert_ne]. Qed.

Lemma live_insert (live : gmap Z Z) s s' G G' q len :
  (∀ q l, live !! q = Some l ↔ is_live s G q l) → gains s s' G G' q len → ∀ q' l, <[q := len]> live !! q' = Some l ↔ is_live s' G' q' l.
Proof.
  intros Hl (_ & Hno & Hg) q' l. rewrite (Hg q' l), <-(Hl q' l), lookup_insert_Some. split; [naive_solver|].
  intros [[-> ->]|E]; [by left|]. right. split; [|done]. intros ->. apply (Hno l). by apply Hl.
Qed.

Lemma found_ok size priority s pend live q s' :
  sys_ok (MkSys s pend live) → 0 ≤ size → size + 8 < 2 ^ 32 → kmalloc_start size priority s = Ret (inl q) s' →
  sys_ok (MkSys s' pend (if decide (q = 0) then live else <[q := size]> live)).
Proof.
  intros (G & L & Hi & Hl & Hp) H0 Hs E. cbn [k_st k_live k_pend] in *. destruct (start_spec size priority s G L Hi H0 Hs) as (r & s1 & E1 & Hr).
  rewrite E in E1. injection E1 as <- <-. destruct Hr as [(-> & -> & _)|(G' & L' & Hi' & n & g & o & dma & p & fl & En & -> & -> & Hh)].
  - rewrite decide_True by done. by exists G, L.
  - pose proof (took_gains None s s' G L n g o dma p fl size Hi En Hh) as Hg. rewrite decide_False by apply Hg.
    eexists _, L'. split; [exact Hi'|]. split; [by eapply live_insert|]. eapply private_same; [exact Hp|]. by eapply bucket_private.
Qed.

Lemma ask_ok t size priority s pend live k s' :
  sys_ok (MkSys s pend live) → pend !! t = None → 0 ≤ size → size + 8 < 2 ^ 32 → kmalloc_start size priority s = Ret (inr k) s' →
  sys_ok (MkSys s' (<[t := (k, None)]> pend) live).
Proof.
  intros (G & L & Hi & Hl & [P1 P2 P3 P4]) Ht H0 Hs E. cbn [k_st k_live k_pend] in *. destruct (start_spec size priority s G L Hi H0 Hs) as (r & s1 & E1 & Hr).
  rewrite E in E1. injection E1 as <- <-. destruct Hr as (Hk & _ & Hi' & Hh & _). exists G, L. split; [done|]. split.
  - intros q l. rewrite Hl. symmetry. by apply live_role.
  - cbn [k_pend]. split.
    + intros t' k' a [[-> [= <- <-]]|[_ E']]%lookup_insert_Some; [done|by eapply P1].
    + intros t' k' a [[_ ?]|[_ E']]%lookup_insert_Some; [done|by eapply P2].
    + intros t1 t2 k1 k2 a [[_ ?]|[_ E1]]%lookup_insert_Some [[_ ?]|[_ E2]]%lookup_insert_Some; [done..|by eapply P3].
    + intros n g En. destruct (P4 n g En) as (t' & k' & E'). exists t', k'. rewrite lookup_insert_ne; [done|]. intros ->. congruence.
Qed.

Lemma area_step_ok t k s pend live a s' :
  sys_ok (MkSys s pend live) → pend !! t = Some (k, None) → kmalloc_area k s = Ret a s' →
  sys_ok (MkSys s' (if decide (a = 0) then delete t pend else <[t := (k, Some a)]> pend) live).
Proof.
  intros (G & L & Hi & Hl & [P1 P2 P3 P4]) Ht E. cbn [k_st k_live k_pend] in *. destruct (area_spec k s G L Hi (P1 _ _ _ Ht)) as (r & s1 & E1 & Hh & Hr).
  rewrite E in E1. injection E1 as <- <-. destruct Hr as [[-> Hi']|(n & g & -> & Hg & Hn & Hi')].
  - rewrite decide_True by done. exists G, L. split; [done|]. split; [intros q l; rewrite Hl; symmetry; by apply live_role|]. cbn [k_pend]. split.
    + intros t' k' a' [_ E']%lookup_delete_Some. by eapply P1.
    + intros t' k' a' [_ E']%lookup_delete_Some. by eapply P2.
    + intros t1 t2 k1 k2 a' [_ E1]%lookup_delete_Some [_ E2]%lookup_delete_Some. by eapply P3.
    + intros n g En. destruct (P4 n g En) as (t' & k' & E'). exists t', k'. rewrite lookup_delete_ne; [done|]. intros ->. congruence.
  - set (G' := <[n := (g, Private)]> G) in *. destruct (kinv_pos _ _ _ _ n g Private Hi' (lookup_insert_eq _ _ _)) as [Hpos _].
    rewrite decide_False by (unfold pa; lia). exists G', L. split; [done|]. split.
    { intros q l. rewrite Hl. symmetry. apply live_role; [done|]. apply (bucket_insert_other _ _ (g, Cached)); done. }
    assert (∀ t' k', pend !! t' ≠ Some (k', Some (pa n))) as Hnew.
    { intros t' k' E'. destruct (P2 _ _ _ E') as (m & g' & ->%pa_inj & Em & _). destruct Hn; congruence. }
    cbn [k_pend]. split.
    + intros t' k' a' [[-> [= <- <-]]|[_ E']]%lookup_insert_Some; [by eapply P1|by eapply P1].
    + intros t' k' a' [[-> [= <- <-]]|[_ E']]%lookup_insert_Some; [exists n, g; unfold G'; by rewrite lookup_insert_eq|].
      destruct (P2 _ _ _ E') as (m & g' & -> & Em & ?). exists m, g'. unfold G'. rewrite lookup_insert_ne; [done|]. intros ->. by destruct (Hnew t' k').
    + intros t1 t2 k1 k2 a' [[<- [= <- <-]]|[_ E1]]%lookup_insert_Some [[<- ?]|[_ E2]]%lookup_insert_Some; [done| | |by eapply P3].
      * by destruct (Hnew t2 k2).
      * simplify_eq. by destruct (Hnew t1 k1).
    + intros m gm Em. destruct (decide (m = n)) as [->|Hne]; [exists t, k; by rewrite lookup_insert_eq|]. unfold G' in Em. rewrite lookup_insert_ne in Em by done.
      destruct (P4 _ _ Em) as (t' & k' & E'). exists t', k'. rewrite lookup_insert_ne; [done|]. intros ->. congruence.
Qed.

Lemma cut_ok t k a s pend live :
  sys_ok (MkSys s pend live) → pend !! t = Some (k, Some a) →
  ∃ q s', kmalloc_carve k a s = Ret q s' ∧ sys_ok (MkSys s' (delete t pend) (<[q := rq_size k]> live)).
Proof.
  intros (G & L & Hi & Hl & [P1 P2 P3 P4]) Ht. cbn [k_st k_live k_pend] in *. destruct (P2 _ _ _ Ht) as (n & g & -> & En & Hg).
  destruct (carve_spec k s G L n g Hi (P1 _ _ _ Ht) En Hg) as (q & s' & G' & L' & E & Hi' & Hgn & o & dma & fl & ->). exists q, s'. split; [done|].
  eexists _, L'. split; [exact Hi'|]. split; [by eapply live_insert|]. cbn [k_pend]. split.
  - intros t' k' a' [_ E']%lookup_delete_Some. by eapply P1.
  - intros t' k' a' [Hne E']%lookup_delete_Some. destruct (P2 _ _ _ E') as (m & g' & -> & Em & ?). exists m, g'. rewrite lookup_insert_ne; [done|].
    intros ->. by apply Hne, (P3 _ _ _ _ _ Ht E').
  - intros t1 t2 k1 k2 a' [_ E1]%lookup_delete_Some [_ E2]%lookup_delete_Some. by eapply P3.
  - intros m gm Em. destruct (decide (m = n)) as [->|Hne]; [by rewrite lookup_insert_eq in Em|]. rewrite lookup_insert_ne in Em by done.
    destruct (P4 _ _ Em) as (t' & k' & E'). exists t', k'. rewrite lookup_delete_ne; [done|]. intros <-. rewrite Ht in E'. injection E' as _ ?%pa_inj. done.
Qed.

Lemma free_ok q len s pend live :
  sys_ok (MkSys s pend live) → live !! q = Some len → ∃ s', kfree q s = Ret tt s' ∧ sys_ok (MkSys s' pend (delete q live)).
Proof.
  intros (G & L & Hi & Hl & Hp) Hq. cbn [k_st k_live k_pend] in *. apply Hl in Hq.
  destruct (kfree_spec s G L q len Hi Hq) as (s' & G' & L' & E & Hi' & Hlo & Hpr). exists s'. split; [done|]. exists G', L'. split; [done|]. split.
  - intros q' l. cbn [k_live k_st]. rewrite (Hlo q' l), lookup_delete_Some, (Hl q' l). naive_solver.
  - by eapply private_same.
Qed.

Lemma k_step_ok y y' : k_step y y' → sys_ok y → sys_ok y'.
Proof.
  intros [size pr s pend live q s' H0 Hs E|t size pr s pend live k s' Ht H0 Hs E|t k s pend live a s' Ht E|t k a s pend live q s' Ht E|q len s pend live s' Hq E] Hy.
  - by eapply found_ok.
  - by eapply ask_ok.
  - by eapply area_step_ok.
  - destruct (cut_ok t k a s pend live Hy Ht) as (q' & s1 & E1 & ?). rewrite E in E1. by injection E1 as <- <-.
  - destruct (free_ok q len s pend live Hy Hq) as (s1 & E1 & ?). rewrite E in E1. by injection E1 as <-.
Qed.

Lemma k_reach_ok p y : holds p ∅ → rtc k_step (MkSys (ks_init p) ∅ ∅) y → sys_ok y.
Proof. intros Hp H. pose proof (init_ok p Hp) as H0. revert H0. induction H; [done|]. intros. by eauto using k_step_ok. Qed.

(** Blocks in use lie apart, with their headers. *)
Lemma live_apart b s G L q1 l1 q2 l2 :
  kinv b s G L → is_live s G q1 l1 → is_live s G q2 l2 → q1 ≠ q2 → q1 + l1 ≤ q2 - 8 ∨ q2 + l2 ≤ q1 - 8.
Proof.
  intros Hi H1 H2 Hne. destruct (live_page _ _ _ _ _ _ Hi H1) as (n1 & g1 & o1 & d1 & f1 & E1 & P1 & O1 & B1 & F1 & Q1).
  destruct (live_page _ _ _ _ _ _ Hi H2) as (n2 & g2 & o2 & d2 & f2 & E2 & P2 & O2 & B2 & F2 & Q2).
  destruct (ki_area _ _ _ _ Hi _ _ _ _ _ E1) as (_ & G1 & K1 & _). destruct (ki_area _ _ _ _ Hi _ _ _ _ _ E2) as (_ & G2 & K2 & _).
  destruct (ao_used _ _ _ _ _ _ K1 _ B1 F1) as (l1' & Q1' & _ & S1). rewrite Q1 in Q1'. injection Q1' as <-.
  destruct (ao_used _ _ _ _ _ _ K2 _ B2 F2) as (l2' & Q2' & _ & S2). rewrite Q2 in Q2'. injection Q2' as <-.
  destruct (decide (n1 = n2)) as [->|Hn].
  - rewrite E1 in E2. injection E2 as <- <- <- <-. destruct (blocks_apart o1 (q1 - 8) (q2 - 8) n2 B1 B2 ltac:(lia) O1); lia.
  - pose proof (block_range n1 o1 _ O1 B1) as (R1 & _ & T1). pose proof (block_range n2 o2 _ O2 B2) as (R2 & _ & T2).
    pose proof (size_mono g1 (gfp o1) G1). pose proof (size_mono g2 (gfp o2) G2). pose proof (size_pos g1). pose proof (size_pos g2).
    assert (n1 + size g1 ≤ n2 ∨ n2 + size g2 ≤ n1) as [Hd|Hd]; [|unfold pa in *; lia..].
    destruct (decide (n1 + size g1 ≤ n2)) as [|H12]; [by left|]. destruct (decide (n2 + size g2 ≤ n1)) as [|H21]; [by right|]. exfalso. apply Hn.
    apply (holds_apart _ _ n1 g1 n2 g2 (Z.max n1 n2) (ki_own _ _ _ _ Hi)); [by rewrite lookup_fmap, E1|by rewrite lookup_fmap, E2|unfold in_block; lia..].
Qed.

Lemma live_inside b s G L q l :
  kinv b s G L → is_live s G q l → ∃ n g, (fst <$> G) !! n = Some g ∧ pa n ≤ q - 8 ∧ 0 ≤ l ∧ q + l ≤ pa (n + size g).
Proof.
  intros Hi H1. destruct (live_page _ _ _ _ _ _ Hi H1) as (n1 & g1 & o1 & d1 & f1 & E1 & P1 & O1 & B1 & F1 & Q1).
  destruct (ki_area _ _ _ _ Hi _ _ _ _ _ E1) as (_ & G1 & K1 & _). destruct (ao_used _ _ _ _ _ _ K1 _ B1 F1) as (l1' & Q1' & S0 & S1).
  rewrite Q1 in Q1'. injection Q1' as <-. pose proof (block_range n1 o1 _ O1 B1) as (R1 & _ & T1). pose proof (size_mono g1 (gfp o1) G1).
  exists n1, g1. rewrite lookup_fmap, E1. split; [done|]. unfold pa in *. lia.
Qed.

Lemma area_none k s s' :
  kmalloc_area k s = Ret 0 s' → ∃ priority order dma p', ps_get priority order dma (pages s) = Ret 0 p'.
Proof.
  unfold kmalloc_area, mbind, M_bind, ld_size, get_kmalloc_pages, on_pages. destruct (sizes s !! rq_order k) as [z|]; [|done].
  destruct (ps_get _ _ _ _) as [r p'|] eqn:E; [|done]. destruct (r =? 0) eqn:E0; to_prop; [intros _; rewrite E0 in E; by eexists _, _, _, _|].
  cbn [negb]. by intros [= ->].
Qed.

(** A call that is not interrupted, as steps. *)
Lemma kmalloc_steps p sz priority q s :
  holds p ∅ → 0 ≤ sz → sz + 8 < 2 ^ 32 → kmalloc sz priority (ks_init p) = Ret q s → q ≠ 0 →
  rtc k_step (MkSys (ks_init p) ∅ ∅) (MkSys s ∅ {[q := sz]}).
Proof.
  intros Hp H0 Hs E Hq. destruct (init_ok p Hp) as (G & L & Hi & _). cbn [k_st] in Hi. unfold kmalloc, mbind, M_bind in E.
  destruct (start_spec sz priority _ G L Hi H0 Hs) as (r & s1 & E1 & Hr). rewrite E1 in E. destruct r as [q'|k].
  - injection E as <- <-. pose proof (k_found sz priority _ ∅ ∅ q' s1 H0 Hs E1) as Hst. rewrite decide_False in Hst by done. by apply rtc_once.
  - destruct Hr as (_ & Ek & _). destruct (kmalloc_area k s1) as [a s2|] eqn:E2; [|done]. destruct (a =? 0) eqn:E0; to_prop; [by injection E as <- _|].
    eapply rtc_l; [by eapply (k_ask 0)|]. eapply rtc_l; [eapply (k_area 0); [apply lookup_insert_eq|exact E2]|]. rewrite decide_False by done.
    rewrite <-Ek. apply rtc_once. pose proof (k_cut 0 k a s2 (<[0 := (k, Some a)]> (<[0 := (k, None)]> ∅)) ∅ q s (lookup_insert_eq _ _ _) E) as Hst.
    by rewrite insert_insert_eq, delete_insert_id in Hst.
Qed.

(** ** Theorems *)

(** C7: Whatever is allocated and freed, in whatever order, and however requests that wait
    for pages are overtaken by others, blocks in use lie inside pages that the
    page allocator has given out and not got back, apart from each other with
    their headers, and all calls return. *)
Theorem kmalloc_safe p y :
  holds p ∅ → rtc k_step (MkSys (ks_init p) ∅ ∅) y →
  (∃ W, holds (pages (k_st y)) W ∧ ∀ q len, k_live y !! q = Some len →
     ∃ n g, W !! n = Some g ∧ pa n ≤ q - 8 ∧ 0 ≤ len ∧ q + len ≤ pa (n + size g)) ∧
  (∀ q1 len1 q2 len2, k_live y !! q1 = Some len1 → k_live y !! q2 = Some len2 → q1 ≠ q2 →
     q1 + len1 ≤ q2 - 8 ∨ q2 + len2 ≤ q1 - 8) ∧
  (∀ size priority, 0 ≤ size → size + 8 < 2 ^ 32 → ∃ r s', kmalloc_start size priority (k_st y) = Ret r s') ∧
  (∀ t k, k_pend y !! t = Some (k, None) → ∃ a s', kmalloc_area k (k_st y) = Ret a s') ∧
  (∀ t k a, k_pend y !! t = Some (k, Some a) → ∃ q s', kmalloc_carve k a (k_st y) = Ret q s') ∧
  (∀ q len, k_live y !! q = Some len → ∃ s', kfree q (k_st y) = Ret tt s').
Proof.
  intros Hp Hy. pose proof (k_reach_ok p y Hp Hy) as Hok. destruct y as [s pend live]. pose proof Hok as (G & L & Hi & Hl & Hpd).
  cbn [k_st k_live k_pend] in *. split_and!.
  - exists (fst <$> G). split; [apply Hi|]. intros q len Hq%Hl. by eapply live_inside.
  - intros q1 l1 q2 l2 H1%Hl H2%Hl. by eapply live_apart.
  - intros size priority H0 Hs. destruct (start_spec size priority s G L Hi H0 Hs) as (r & s' & E & _). eauto.
  - intros t k Ht. destruct (area_spec k s G L Hi (po_req _ _ Hpd _ _ _ Ht)) as (a & s' & E & _). eauto.
  - intros t k a Ht. destruct (cut_ok t k a s pend live Hok Ht) as (q & s' & E & _). eauto.
  - intros q len Hq. destruct (free_ok q len s pend live Hok Hq) as (s' & E & _). eauto.
Qed.

(** [kmalloc] returns the address of a block that lies apart from all blocks in use,
    or fails: because the request is larger than any block, or because the page
    allocator has no pages to give. *)
Theorem kmalloc_spec p y sz priority :
  holds p ∅ → rtc k_step (MkSys (ks_init p) ∅ ∅) y → 0 ≤ sz → sz + 8 < 2 ^ 32 →
  ∃ r s', kmalloc sz priority (k_st y) = Ret r s' ∧
    (r ≠ 0 → ∀ q len, k_live y !! q = Some len → r + sz ≤ q - 8 ∨ q + len ≤ r - 8) ∧
    (r = 0 → find_order blocksize (u32 (sz + sizeof_block_header)) 0 = None ∨
       ∃ pr order dma p', ps_get pr order dma (pages (k_st y)) = Ret 0 p').
Proof.
  intros Hp Hy H0 Hs. pose proof (k_reach_ok p y Hp Hy) as Hok. destruct y as [s pend live]. destruct Hok as (G & L & Hi & Hl & Hpd).
  cbn [k_st k_live k_pend] in *. assert (∀ s' G' L' r, kinv None s' G' L' → gains s s' G G' r sz →
    ∀ q len, live !! q = Some len → r + sz ≤ q - 8 ∨ q + len ≤ r - 8) as Hnew.
  { intros s' G' L' r Hi' (_ & Hno & Hg) q len Hq%Hl. apply (live_apart None s' G' L' r sz q len Hi'); [apply Hg; by left|apply Hg; by right|].
    intros ->. by apply (Hno len). }
  unfold kmalloc, mbind, M_bind. destruct (start_spec sz priority s G L Hi H0 Hs) as (r & s1 & -> & Hr). destruct r as [q|k].
  - exists q, s1. split; [done|]. destruct Hr as [(-> & _ & Hno)|(G' & L' & Hi' & n & g & o & dma & x & fl & En & -> & -> & Hh)]; [split; [done|by left]|].
    pose proof (took_gains None s s1 G L n g o dma x fl sz Hi En Hh) as Hg. split; [intros _; by eapply Hnew|]. by destruct Hg.
  - destruct Hr as (Hk & Ek & Hi1 & Hh1 & Hp1). destruct (area_spec k s1 G L Hi1 Hk) as (a & s2 & Ea & Hh2 & Ha). rewrite Ea.
    destruct Ha as [[-> Hi2]|(n & g & -> & Hg & Hn & Hi2)].
    + exists 0, s2. split; [done|]. split; [done|]. intros _. right. rewrite <-Hp1. by eapply area_none.
    + destruct (kinv_pos _ _ _ _ n g Private Hi2 (lookup_insert_eq _ _ _)) as [Hpos _]. rewrite (proj2 (Z.eqb_neq (pa n) 0)) by (unfold pa; lia).
      destruct (carve_spec k s2 _ L n g Hi2 Hk (lookup_insert_eq _ _ _) Hg) as (q & s3 & G3 & L3 & -> & Hi3 & Hg3 & _).
      assert (same_live s s2 G (<[n := (g, Private)]> G)) as Hsame.
      { apply live_role; [congruence|]. apply (bucket_insert_other _ _ (g, Cached)); done. }
      exists q, s3. split; [done|]. destruct Hg3 as (Hq0 & Hno & Hg3). split; [|done]. intros _. apply (Hnew s3 G3 L3 q Hi3). split; [done|].
      split; [intros l Hl'; apply (Hno l); by apply Hsame|]. intros q' l. rewrite (Hg3 q' l), Ek. by rewrite (Hsame q' l).
Qed.

(** Once everything has been freed [kmalloc] keeps no pages but the areas in its cache, at
    most one of each order. *)
Theorem kfree_gives_back p y :
  holds p ∅ → rtc k_step (MkSys (ks_init p) ∅ ∅) y → k_live y = ∅ → k_pend y = ∅ →
  ∃ W, holds (pages (k_st y)) W ∧ ∀ n g, W !! n = Some g → (g < 3)%nat ∧ kmalloc_cache (k_st y) !! g = Some (pa n).
Proof.
  intros Hp Hy El Ep. destruct (k_reach_ok p y Hp Hy) as (G & L & Hi & Hl & Hpd). exists (fst <$> G). split; [apply Hi|]. intros n g E.
  rewrite lookup_fmap in E. destruct (G !! n) as [[g' r]|] eqn:En; [|done]. injection E as <-. destruct r as [o dma fl| |].
  - destruct (ki_area _ _ _ _ Hi _ _ _ _ _ En) as (Ho & _ & Hok & Hlen). specialize (Hlen ltac:(done)). exfalso.
    destruct (decide (blocks_of n o ⊆ fl)) as [Hsub|Hns].
    + pose proof (submseteq_length _ _ (NoDup_submseteq _ _ (blocks_NoDup n o Ho) Hsub)) as Hle. rewrite blocks_length in Hle. lia.
    + apply Hns. intros x Hx. destruct (decide (x ∈ fl)) as [|Hxf]; [done|]. exfalso. destruct (ao_used _ _ _ _ _ _ Hok x Hx Hxf) as (len & Hh & _).
      assert (is_live (k_st y) G (x + 8) len) as Hlive by (exists n, g', o, dma, fl; by replace (x + 8 - 8) with x by lia).
      apply Hl in Hlive. by rewrite El, lookup_empty in Hlive.
  - pose proof (ki_cached _ _ _ _ Hi _ _ En) as Hc. split; [|done]. apply lookup_lt_Some in Hc. by rewrite (ki_len _ _ _ _ Hi) in Hc.
  - destruct (po_all _ _ Hpd _ _ En) as (t & k & Et). by rewrite Ep, lookup_empty in Et.
Qed.

End laws.


(** The size of a request wraps around with that of the header: the largest requests
    get the smallest blocks. *)
Theorem huge_request_gets_small_block sz :
  2 ^ 32 - 8 ≤ sz < 2 ^ 32 → find_order blocksize (u32 (sz + sizeof_block_header)) 0 = Some 0%nat.
Proof.
  intros Hs. unfold u32, sizeof_block_header. replace (sz + 8) with (sz + 8 - 2 ^ 32 + 1 * 2 ^ 32) by lia. rewrite Z.mod_add, Z.mod_small by lia.
  cbn [find_order blocksize]. by rewrite (proj2 (Z.leb_le _ 32)) by lia.
Qed.

(** ** Witnesses *)

(** Nothing can be freed. *)
#[local] Instance no_reclaim : Reclaim.
Proof. refine {| tries := λ _, [] |}. intros s. constructor. Defined.

(** Four megabytes, of which the kernel takes the part from 1 MB to 1.5 MB. *)
Definition booted : mm :=
  match free_area_init (λ m _, m) 0x100000 0x400000 no_mm with
  | Ret _ s | Stuck _ s => match mem_init 0x180000 0x400000 s with Ret _ s | Stuck _ s => s end
  end.

Lemma booted_heap : ∃ F qs, heap_inv F (MkHeap booted ∅) qs.
Proof.
  destruct (boot_heap (λ m _, m) 0x100000 0x400000 0x180000 no_mm) as (r & s1 & s2 & qs & E1 & E2 & Hi); [done..|].
  unfold booted. rewrite E1, E2. by eexists _, qs.
Qed.

Lemma booted_run : match kmalloc 100 3 (ks_init booted) with Ret q _ => negb (q =? 0) | _ => false end = true.
Proof. vm_compute. reflexivity. Qed.

Lemma booted_kmalloc : ∃ y q, rtc k_step (MkSys (ks_init booted) ∅ ∅) y ∧ k_live y = {[ q := 100 ]} ∧ k_pend y = ∅.
Proof.
  destruct booted_heap as (F & qs & Hi). assert (holds booted ∅) as Hp by (by exists F, qs). clear Hi. pose proof booted_run as Hr. revert Hp Hr.
  generalize booted. intros p Hp Hr. destruct (kmalloc 100 3 (ks_init p)) as [q s|] eqn:E; [|done]. exists (MkSys s ∅ {[q := 100]}), q.
  split; [|done]. apply (kmalloc_steps p 100 3); [done|lia|lia|done|]. apply negb_true_iff, Z.eqb_neq in Hr. done.
Qed.

Lemma kmalloc_safe_witness :
  ∃ y q W n g, k_live y = {[ q := 100 ]} ∧ holds (pages (k_st y)) W ∧ W !! n = Some g ∧ pa n ≤ q - 8 ∧ q + 100 ≤ pa (n + size g).
Proof.
  destruct booted_heap as (F & qs & Hi). destruct booted_kmalloc as (y & q & Hy & El & _).
  destruct (kmalloc_safe booted y) as ((W & HW & Hin) & _); [by exists F, qs|done|].
  destruct (Hin q 100) as (n & g & ? & ? & ? & ?); [by rewrite El, lookup_singleton_eq|]. by exists y, q, W, n, g.
Defined.

Lemma kmalloc_spec_witness :
  ∃ y q r s', k_live y = {[ q := 100 ]} ∧ kmalloc 3000 3 (k_st y) = Ret r s' ∧ (r ≠ 0 → r + 3000 ≤ q - 8 ∨ q + 100 ≤ r - 8).
Proof.
  destruct booted_heap as (F & qs & Hi). destruct booted_kmalloc as (y & q & Hy & El & _).
  destruct (kmalloc_spec booted y 3000 3) as (r & s' & E & Hr & _); [by exists F, qs|done|lia|lia|].
  exists y, q, r, s'. split_and!; try done. intros Hr0. apply Hr; [done|]. by rewrite El, lookup_singleton_eq.
Defined.

Lemma kfree_gives_back_witness :
  ∃ y q, k_live y = {[ q := 100 ]} ∧ ∃ s' W, kfree q (k_st y) = Ret tt s' ∧ holds (pages s') W ∧
    ∀ n g, W !! n = Some g → (g < 3)%nat ∧ kmalloc_cache s' !! g = Some (pa n).
Proof.
  destruct booted_heap as (F & qs & Hi). destruct booted_kmalloc as (y & q & Hy & El & Ep). exists y, q. split; [done|].
  assert (holds booted ∅) as Hp by (by exists F, qs). pose proof (k_reach_ok booted y Hp Hy) as Hok. destruct y as [s pend live].
  cbn [k_live k_pend k_st] in *. destruct (free_ok q 100 s pend live Hok) as (s' & E & _); [by rewrite El, lookup_singleton_eq|].
  destruct (kfree_gives_back booted (MkSys s' pend (delete q live))) as (W & HW & Hc); [done| |by rewrite El, delete_singleton_eq|done|].
  - eapply rtc_r; [exact Hy|]. eapply k_free; [|exact E]. by rewrite El, lookup_singleton_eq.
  - by exists s', W.
Defined.


(** ** A page allocator that gives what it is told to *)

(** What it gives, the orders it was asked for, and what it got back. *)
Record script := MkScript { sc_give : list Z; sc_got : list (Z * nat); sc_back : list (Z * nat) }.

#[global] Instance script_source : PageSource script := {
  ps_get _ order _ := λ p, match sc_give p with
    | [] => Ret 0 p
    | a :: l => Ret a (MkScript l ((a, order) :: sc_got p) (sc_back p))
    end;
  ps_free a order := λ p, Ret tt (MkScript (sc_give p) (sc_got p) ((a, order) :: sc_back p));
  ps_intr _ := 0;
}.

(** An area of two pages that a freed block of 5000 bytes left in the cache is used for
    blocks of 64 bytes when memory is short, because the cache is looked up by
    bucket; it then goes back as a single page, and the other one is lost. *)
Theorem cached_area_loses_page :
  ∃ s, (p ← kmalloc 5000 3; kfree p ;; p ← kmalloc 40 3; kfree p ;; p ← kmalloc 40 3; kfree p) (ks_init (MkScript [0x10000; 0; 0x20000] [] [])) = Ret tt s ∧
    sc_got (pages s) = [(0x20000, 0%nat); (0, 0%nat); (0x10000, 1%nat)] ∧ sc_back (pages s) = [(0x10000, 0%nat)] ∧
    kmalloc_cache s = [0x20000; 0; 0].
Proof. eexists. split; [vm_compute; reflexivity|]. done. Qed.
