(* ===== verification/Locks.v ===== *)
(** * Locks: file locks

    Models fs/locks.c: POSIX record locks and flock locks on one inode, with
    the search for deadlocks over all of them.

    A lock is a record in [store] at its address; [i_flock] is the inode's list
    and [file_lock_table] the list of all locks, as lists of addresses, and a
    position [before] in the first is the number of locks in front of it.  The
    caller's own lock, which is on its stack, is at address 0 while a call
    runs.  The ring of processes blocked on a lock is the list [fl_waiters] of
    their locks' addresses and owners.  A process that waits sleeps: [naps]
    says what others do meanwhile, and whether a signal is pending after. *)

From stdpp Require Import gmap.
From S2P Require Import Prelude.

(** ** Code *)

Definition OFFSET_MAX : Z := 0x7fffffff.
Definition F_RDLCK : Z := 0.
Definition F_WRLCK : Z := 1.
Definition F_UNLCK : Z := 2.
Definition F_EXLCK : Z := 4.
Definition F_SHLCK : Z := 8.
Definition LOCK_SH : Z := 1.
Definition LOCK_EX : Z := 2.
Definition LOCK_NB : Z := 4.
Definition LOCK_UN : Z := 8.
Definition F_SETLKW : Z := 7.
Definition FL_POSIX : Z := 1.
Definition FL_FLOCK : Z := 2.
Definition FL_BROKEN : Z := 4.
Definition FL_ACCESS : Z := 8.
Definition EDEADLK : Z := 35.
Definition ENOLCK : Z := 37.
Definition ERESTARTSYS : Z := 512.
Definition EBADF : Z := 9.
Definition S_ISGID : Z := 0x400.
Definition S_IXGRP : Z := 8.
Definition MS_MANDLOCK : Z := 64.
Definition O_NONBLOCK : Z := 0x800.
Definition FLOCK_VERIFY_WRITE : Z := 2.

Record file_lock := MkLock {
  fl_owner : Z; fl_file : Z; fl_flags : Z; fl_type : Z;
  fl_start : Z; fl_end : Z;
  fl_waiters : list (Z * Z);
}.

#[global] Instance eta_file_lock : Eta file_lock := λ x,
  MkLock (fl_owner x) (fl_file x) (fl_flags x) (fl_type x) (fl_start x) (fl_end x) (fl_waiters x).

Record lks := MkLks {
  store : gmap Z file_lock;
  i_flock : list Z;
  file_lock_table : list Z;
}.

#[global] Instance eta_lks : Eta lks := λ x, MkLks (store x) (i_flock x) (file_lock_table x).

(** The open file, with what the code reads of its inode. *)
Record file := MkFile {
  f_id : Z; f_mode : Z; f_pos : Z; f_flags : Z; f_count : Z;
  i_size : Z; i_flags : Z; i_mode : Z; i_mmap_shared : bool;
}.

(** [struct flock] of a caller. *)
Record flock := MkFlock { l_type : Z; l_whence : Z; l_start : Z; l_len : Z; l_pid : Z }.

#[global] Instance eta_flock : Eta flock := λ x,
  MkFlock (l_type x) (l_whence x) (l_start x) (l_len x) (l_pid x).

Record lnap := MkLNap { lnap_env : lks → lks; lnap_signal : bool }.

Definition ldl (p : Z) : M lks file_lock := λ s,
  match store s !! p with
  | Some l => Ret l s
  | None => Stuck NullDeref s
  end.
Definition stl (p : Z) (f : file_lock → file_lock) : M lks unit :=
  modify (λ s, s <| store := alter f p (store s) |>).

Definition locks_overlap (fl1 fl2 : file_lock) : bool :=
  (fl_start fl2 <=? fl_end fl1) && (fl_start fl1 <=? fl_end fl2).

Definition locks_conflict (caller_fl sys_fl : file_lock) : bool :=
  if negb (locks_overlap caller_fl sys_fl) then false
  else if fl_type caller_fl =? F_RDLCK then fl_type sys_fl =? F_WRLCK
  else fl_type caller_fl =? F_WRLCK.

Definition posix_locks_conflict (caller_fl sys_fl : file_lock) : bool :=
  if fl_owner caller_fl =? fl_owner sys_fl then false else locks_conflict caller_fl sys_fl.

Definition flock_locks_conflict (caller_fl sys_fl : file_lock) : bool :=
  if fl_file caller_fl =? fl_file sys_fl then false else locks_conflict caller_fl sys_fl.

(** *** Blocked processes *)

Definition locks_insert_block (blocker waiter : Z) : M lks unit :=
  w ← ldl waiter;
  stl blocker (λ l, l <| fl_waiters := fl_waiters l ++ [(waiter, fl_owner w)] |>).

(** Nothing happens if the blocker has dropped the waiter before. *)
Definition locks_delete_block (blocker waiter : Z) : M lks unit :=
  stl blocker (λ l, l <| fl_waiters := filter (λ w, w.1 ≠ waiter) (fl_waiters l) |>).

(** With [wait] the blocked processes run until they have left the queue. *)
Fixpoint locks_wake_up_wait (naps : list lnap) (blocker : Z) : M lks (list lnap) :=
  l ← ldl blocker;
  match fl_waiters l, naps with
  | [], _ => mret naps
  | _, [] => halt Asleep
  | _, n :: naps' => modify (lnap_env n) ;; locks_wake_up_wait naps' blocker
  end.

Definition locks_wake_up_blocks (blocker : Z) : M lks unit :=
  stl blocker (λ l, l <| fl_waiters := [] |>).

(** *** The lists *)

Definition locks_init_lock (new fl : Z) : M lks unit :=
  l ← ldl fl;
  modify (λ s, s <| store := <[new := l <| fl_waiters := [] |>]> (store s) |>).

Definition insert_at {A} (n : nat) (x : A) (l : list A) : list A := take n l ++ x :: drop n l.

Definition locks_insert_lock (before : nat) (fl : Z) : M lks unit :=
  modify (λ s, s <| file_lock_table := fl :: file_lock_table s |>
                 <| i_flock := insert_at before fl (i_flock s) |>).

Definition unlink_lock (before : nat) (thisfl : Z) : M lks unit :=
  modify (λ s, s <| i_flock := delete before (i_flock s) |>
                 <| file_lock_table := filter (λ p, p ≠ thisfl) (file_lock_table s) |>).

Definition locks_free_lock (fl : Z) : M lks unit := modify (λ s, s <| store := delete fl (store s) |>).

Definition at_position (before : nat) : M lks (option Z) := gets (λ s, i_flock s !! before).

Definition locks_delete_lock (before : nat) : M lks unit :=
  this ← at_position before;
  match this with
  | None => halt NullDeref
  | Some thisfl =>
      unlink_lock before thisfl ;;
      locks_wake_up_blocks thisfl ;;
      locks_free_lock thisfl
  end.

Definition locks_delete_lock_wait (naps : list lnap) (before : nat) : M lks (list lnap) :=
  this ← at_position before;
  match this with
  | None => halt NullDeref
  | Some thisfl =>
      unlink_lock before thisfl ;;
      naps ← locks_wake_up_wait naps thisfl;
      locks_free_lock thisfl ;;
      mret naps
  end.

(** *** Deadlocks *)

(** The owner of the first lock that [task] is blocked on. *)
Fixpoint blocked_on (task : Z) (ls : list file_lock) : option Z :=
  match ls with
  | [] => None
  | fl :: ls' =>
      if fl_owner fl =? 0 then blocked_on task ls'
      else if existsb (λ w, w.2 =? task) (fl_waiters fl) then Some (fl_owner fl)
      else blocked_on task ls'
  end.

(** [None] when the search does not end. *)
Fixpoint posix_locks_deadlock (fuel : nat) (ls : list file_lock) (my_task blocked_task : Z) : option bool :=
  match fuel with
  | O => None
  | S fuel' =>
      if my_task =? blocked_task then Some true
      else
        match blocked_on blocked_task ls with
        | None => Some false
        | Some o => if o =? my_task then Some true else posix_locks_deadlock fuel' ls my_task o
        end
  end.

Definition all_locks (s : lks) : list file_lock := omap (λ p, store s !! p) (file_lock_table s).

Definition deadlock (my_task blocked_task : Z) : M lks bool := λ s,
  match posix_locks_deadlock (2 + length (file_lock_table s)) (all_locks s) my_task blocked_task with
  | Some b => Ret b s
  | None => Stuck BusyLoop s
  end.

(** *** Checking the arguments *)

Definition posix_make_lock (current : Z) (filp : file) (l : flock) : option file_lock :=
  let type :=
    if (l_type l =? F_RDLCK) || (l_type l =? F_WRLCK) || (l_type l =? F_UNLCK) then Some (l_type l, FL_POSIX)
    else if l_type l =? F_SHLCK then Some (F_RDLCK, Z.lor FL_POSIX FL_BROKEN)
    else if l_type l =? F_EXLCK then Some (F_WRLCK, Z.lor FL_POSIX FL_BROKEN)
    else None in
  let whence :=
    if l_whence l =? 0 then Some 0
    else if l_whence l =? 1 then Some (f_pos filp)
    else if l_whence l =? 2 then Some (i_size filp)
    else None in
  match type, whence with
  | Some (t, flags), Some start =>
      let start := s32 (start + l_start l) in
      if (start <? 0) || (l_len l <? 0) then None
      else
        let e := s32 (start + l_len l - 1) in
        let e := if (l_len l =? 0) || (e <? 0) then OFFSET_MAX else e in
        Some (MkLock current (f_id filp) flags t start e [])
  | _, _ => None
  end.

Definition flock_make_lock (filp : file) (cmd : Z) : option file_lock :=
  let op := clr cmd LOCK_NB in
  let make t := Some (MkLock 0 (f_id filp) FL_FLOCK t 0 OFFSET_MAX []) in
  if op =? LOCK_SH then make F_RDLCK
  else if op =? LOCK_EX then make F_WRLCK
  else if op =? LOCK_UN then make F_UNLCK
  else None.

(** *** POSIX locks *)

Definition head_has (flag : Z) : M lks bool :=
  h ← at_position 0;
  match h with
  | None => mret false
  | Some p => l ← ldl p; mret (has (fl_flags l) flag)
  end.

(** The first lock of the inode that [c] conflicts with. *)
Fixpoint first_conflict (conflict : file_lock → file_lock → bool) (c : file_lock) (ps : list Z) :
    M lks (option Z) :=
  match ps with
  | [] => mret None
  | p :: ps' =>
      fl ← ldl p;
      if conflict c fl then mret (Some p) else first_conflict conflict c ps'
  end.

(** From [repeat] on: 0 when there is no conflict left, or the error. *)
Fixpoint posix_block (naps : list lnap) (signal wait : bool) (caller : Z) : M lks Z :=
  busy ← head_has FL_FLOCK;
  if (busy : bool) then mret (- EBUSY)
  else
    c ← ldl caller;
    ps ← gets i_flock;
    found ← first_conflict posix_locks_conflict c ps;
    match found with
    | None => mret 0
    | Some p =>
        if negb wait then mret (- EAGAIN)
        else
          fl ← ldl p;
          dead ← deadlock (fl_owner c) (fl_owner fl);
          if (dead : bool) then mret (- EDEADLK)
          else if signal then mret (- ERESTARTSYS)
          else
            locks_insert_block p caller ;;
            match naps with
            | [] => halt Asleep
            | n :: naps' =>
                modify (lnap_env n) ;;
                locks_delete_block p caller ;;
                posix_block naps' (lnap_signal n) wait caller
            end
    end.

(** Skip the locks owned by other processes. *)
Fixpoint skip_others (fuel : nat) (owner : Z) (before : nat) : M lks nat :=
  match fuel with
  | O => halt OutOfFuel
  | S fuel' =>
      this ← at_position before;
      match this with
      | None => mret before
      | Some p =>
          fl ← ldl p;
          if fl_owner fl =? owner then mret before else skip_others fuel' owner (S before)
      end
  end.

(** The variables of the loop over the owner's locks. *)
Record scan_vars := MkScan {
  sc_before : nat; sc_caller : Z; sc_added : bool; sc_left : option Z; sc_right : option Z;
}.

Fixpoint posix_scan (fuel : nat) (v : scan_vars) : M lks scan_vars :=
  match fuel with
  | O => halt OutOfFuel
  | S fuel' =>
      let '(MkScan before caller added lft rgt) := v in
      let next caller added lft := posix_scan fuel' (MkScan (S before) caller added lft rgt) in
      let delete lft added := locks_delete_lock before ;; posix_scan fuel' (MkScan before caller added lft rgt) in
      this ← at_position before;
      match this with
      | None => mret v
      | Some p =>
          fl ← ldl p;
          c ← ldl caller;
          if negb (fl_owner c =? fl_owner fl) then mret v
          else if fl_type c =? fl_type fl then
            if fl_end fl <? s32 (fl_start c - 1) then next caller added lft
            else if s32 (fl_end c + 1) <? fl_start fl then mret v
            else
              (if fl_start c <? fl_start fl then stl p (λ l, l <| fl_start := fl_start c |>)
               else stl caller (λ l, l <| fl_start := fl_start fl |>)) ;;
              (if fl_end fl <? fl_end c then stl p (λ l, l <| fl_end := fl_end c |>)
               else stl caller (λ l, l <| fl_end := fl_end fl |>)) ;;
              if added then delete lft added else next p true lft
          else
            if fl_end fl <? fl_start c then next caller added lft
            else if fl_end c <? fl_start fl then mret v
            else
              let added := added || (fl_type c =? F_UNLCK) in
              let lft := if fl_start fl <? fl_start c then Some p else lft in
              if fl_end c <? fl_end fl then mret (MkScan before caller added lft (Some p))
              else if fl_start c <=? fl_start fl then
                if added then delete lft added
                else
                  locks_wake_up_blocks p ;;
                  stl p (λ l, l <| fl_start := fl_start c |> <| fl_end := fl_end c |> <| fl_type := fl_type c |>) ;;
                  next p true lft
              else next caller added lft
      end
  end.

(** What the request leaves of the lock that goes on after it. *)
Definition trim_right (new_fl2 : Z) (before : nat) (caller : Z) (lft rgt : option Z) : M lks (option Z) :=
  match rgt with
  | None => mret lft
  | Some r =>
      lft ← (if bool_decide (lft = rgt) then
               locks_init_lock new_fl2 r ;;
               locks_insert_lock before new_fl2 ;;
               mret (Some new_fl2)
             else mret lft);
      c ← ldl caller;
      stl r (λ l, l <| fl_start := s32 (fl_end c + 1) |>) ;;
      locks_wake_up_blocks r ;;
      mret lft
  end.

(** And of the one that begins in front of it. *)
Definition trim_left (caller : Z) (lft : option Z) : M lks unit :=
  match lft with
  | None => mret tt
  | Some l =>
      c ← ldl caller;
      stl l (λ x, x <| fl_end := s32 (fl_start c - 1) |>) ;;
      locks_wake_up_blocks l
  end.

(** What follows the loop. *)
Definition posix_finish (new_fl new_fl2 : Z) (v : scan_vars) : M lks Z :=
  let '(MkScan before caller added lft rgt) := v in
  c ← ldl caller;
  if negb added && (fl_type c =? F_UNLCK) then mret 0
  else
    when (negb added) (locks_init_lock new_fl caller ;; locks_insert_lock before new_fl) ;;
    lft ← trim_right new_fl2 before caller lft rgt;
    trim_left caller lft ;;
    mret 0.

(** [new_fl] and [new_fl2] are what [kmalloc] returned. *)
Definition posix_lock_file (new_fl new_fl2 : option Z) (naps : list lnap) (signal wait : bool) (caller : Z) : M lks Z :=
  match new_fl, new_fl2 with
  | Some n1, Some n2 =>
      c ← ldl caller;
      error ← (if negb (fl_type c =? F_UNLCK) then posix_block naps signal wait caller else mret 0);
      if negb (error =? 0) then mret error
      else
        busy ← head_has FL_FLOCK;
        if (busy : bool) then mret (- EBUSY)
        else
          len ← gets (λ s, length (i_flock s));
          before ← skip_others (S len) (fl_owner c) 0;
          v ← posix_scan (S len) (MkScan before caller false None None);
          posix_finish n1 n2 v
  | _, _ => mret (- ENOLCK)
  end.

Definition mandatory (filp : file) : bool :=
  has (i_flags filp) MS_MANDLOCK && (Z.land (i_mode filp) (Z.lor S_ISGID S_IXGRP) =? S_ISGID).

(** The lock on the caller's stack lives as long as the call. *)
Definition with_caller {A} (l : file_lock) (m : M lks A) : M lks A :=
  modify (λ s, s <| store := <[0 := l]> (store s) |>) ;;
  r ← m;
  modify (λ s, s <| store := delete 0 (store s) |>) ;;
  mret r.

(** [filp] is the file of the descriptor, [area] what [verify_area] says. *)
Definition fcntl_setlk (current : Z) (filp : option file) (area cmd : Z) (l : flock)
    (new_fl new_fl2 : option Z) (naps : list lnap) (signal : bool) : M lks Z :=
  match filp with
  | None => mret (- EBADF)
  | Some filp =>
      if negb (area =? 0) then mret area
      else if mandatory filp && i_mmap_shared filp then mret (- EAGAIN)
      else
        match posix_make_lock current filp l with
        | None => mret (- EINVAL)
        | Some c =>
            let allowed :=
              if l_type l =? F_RDLCK then has (f_mode filp) 1
              else if l_type l =? F_WRLCK then has (f_mode filp) 2
              else if l_type l =? F_UNLCK then true
              else has (f_mode filp) 3 in
            if negb allowed then mret (- EBADF)
            else with_caller c (posix_lock_file new_fl new_fl2 naps signal (cmd =? F_SETLKW) 0)
        end
  end.

(** The loop of [fcntl_getlk]: it ends at a lock that is not a POSIX lock. *)
Fixpoint getlk_loop (pid_of : Z → Z) (c : file_lock) (l : flock) (ps : list Z) : M lks flock :=
  match ps with
  | [] => mret l
  | p :: ps' =>
      fl ← ldl p;
      if negb (has (fl_flags fl) FL_POSIX) then mret l
      else if posix_locks_conflict c fl then
        mret (MkFlock (fl_type fl) 0 (fl_start fl)
                (if fl_end fl =? OFFSET_MAX then 0 else s32 (fl_end fl - fl_start fl + 1))
                (pid_of (fl_owner fl)))
      else getlk_loop pid_of c l ps'
  end.

Definition fcntl_getlk (pid_of : Z → Z) (current : Z) (filp : option file) (area : Z) (l : flock) :
    M lks (Z * option flock) :=
  match filp with
  | None => mret (- EBADF, None)
  | Some filp =>
      if negb (area =? 0) then mret (area, None)
      else if negb ((l_type l =? F_RDLCK) || (l_type l =? F_WRLCK)) then mret (- EINVAL, None)
      else
        match posix_make_lock current filp l with
        | None => mret (- EINVAL, None)
        | Some c =>
            ps ← gets i_flock;
            r ← getlk_loop pid_of c (l <| l_type := F_UNLCK |>) ps;
            mret (0, Some r)
        end
  end.

(** *** Closing a file *)

(** [posix_remove_locks] and [flock_remove_locks] differ in the locks they take. *)
Fixpoint remove_locks (fuel : nat) (mine : file_lock → bool) (before : nat) : M lks unit :=
  match fuel with
  | O => halt OutOfFuel
  | S fuel' =>
      this ← at_position before;
      match this with
      | None => mret tt
      | Some p =>
          fl ← ldl p;
          if mine fl then locks_delete_lock before ;; remove_locks fuel' mine before
          else remove_locks fuel' mine (S before)
      end
  end.

Definition posix_remove_locks (task : Z) : M lks unit :=
  len ← gets (λ s, length (i_flock s));
  remove_locks (S len) (λ fl, fl_owner fl =? task) 0.

Definition flock_remove_locks (filp : file) : M lks unit :=
  len ← gets (λ s, length (i_flock s));
  remove_locks (S len) (λ fl, (fl_file fl =? f_id filp) && (f_count filp =? 1)) 0.

Definition locks_remove_locks (task : Z) (filp : file) : M lks unit :=
  h ← at_position 0;
  match h with
  | None => mret tt
  | Some p =>
      fl ← ldl p;
      if has (fl_flags fl) FL_POSIX then posix_remove_locks task else flock_remove_locks filp
  end.

(** *** flock locks *)

(** The position of the lock of the caller's file. *)
Fixpoint find_file (file : Z) (before : nat) (ps : list Z) : M lks (option (nat * file_lock)) :=
  match ps with
  | [] => mret None
  | p :: ps' =>
      fl ← ldl p;
      if fl_file fl =? file then mret (Some (before, fl)) else find_file file (S before) ps'
  end.

(** From [search] on, up to [repeat]: [inl] with the result, or the naps left. *)
Fixpoint flock_search (fuel : nat) (naps : list lnap) (unlock : bool) (c : file_lock) :
    M lks (Z + list lnap) :=
  match fuel with
  | O => halt OutOfFuel
  | S fuel' =>
      busy ← head_has FL_POSIX;
      if (busy : bool) then mret (inl (- EBUSY))
      else
        ps ← gets i_flock;
        found ← find_file (fl_file c) 0 ps;
        match found with
        | Some (before, fl) =>
            if fl_type c =? fl_type fl then mret (inl 0)
            else if unlock then locks_delete_lock before ;; mret (inl 0)
            else naps ← locks_delete_lock_wait naps before; flock_search fuel' naps unlock c
        | None => mret (if unlock then inl 0 else inr naps)
        end
  end.

(** From [repeat] on. *)
Fixpoint flock_block (naps : list lnap) (signal wait : bool) (new_fl : Z) : M lks Z :=
  if signal then mret (- ERESTARTSYS)
  else
    busy ← head_has FL_POSIX;
    if (busy : bool) then mret (- EBUSY)
    else
      c ← ldl new_fl;
      ps ← gets i_flock;
      found ← first_conflict flock_locks_conflict c ps;
      match found with
      | None => mret 0
      | Some p =>
          if negb wait then mret (- EAGAIN)
          else
            locks_insert_block p new_fl ;;
            match naps with
            | [] => halt Asleep
            | n :: naps' =>
                modify (lnap_env n) ;;
                locks_delete_block p new_fl ;;
                flock_block naps' (lnap_signal n) wait new_fl
            end
      end.

Definition flock_lock_file (new_fl : option Z) (naps : list lnap) (signal wait : bool) (c : file_lock) : M lks Z :=
  let unlock := fl_type c =? F_UNLCK in
  match new_fl with
  | None =>
      if negb unlock then mret (- ENOLCK)
      else
        r ← flock_search (S (S (length naps))) naps unlock c;
        mret (match r with inl e => e | inr _ => 0 end)
  | Some n =>
      when (negb unlock) (modify (λ s, s <| store := <[n := c]> (store s) |>)) ;;
      r ← flock_search (S (S (length naps))) naps unlock c;
      match r with
      | inl e => when (negb unlock) (locks_free_lock n) ;; mret e
      | inr naps =>
          error ← flock_block naps signal wait n;
          (if error =? 0 then locks_insert_lock 0 n else locks_free_lock n) ;;
          mret error
      end
  end.

Definition sys_flock (filp : option file) (cmd : Z) (new_fl : option Z) (naps : list lnap) (signal : bool) : M lks Z :=
  match filp with
  | None => mret (- EBADF)
  | Some filp =>
      match flock_make_lock filp cmd with
      | None => mret (- EINVAL)
      | Some c =>
          if negb (fl_type c =? F_UNLCK) && negb (has (f_mode filp) 3) then mret (- EBADF)
          else flock_lock_file new_fl naps signal (negb (has cmd (Z.lor LOCK_UN LOCK_NB))) c
      end
  end.

(** *** Mandatory locks *)

Fixpoint others_lock (current : Z) (ps : list Z) : M lks Z :=
  match ps with
  | [] => mret 0
  | p :: ps' =>
      fl ← ldl p;
      if negb (fl_owner fl =? current) then mret (- EAGAIN) else others_lock current ps'
  end.

Definition locks_mandatory_locked (current : Z) : M lks Z :=
  posix ← head_has FL_POSIX;
  if negb posix then mret 0 else (ps ← gets i_flock; others_lock current ps).

Definition locks_verify_locked (current : Z) (filp : file) : M lks Z :=
  if mandatory filp then locks_mandatory_locked current else mret 0.

(** From [repeat] on; [keeps] says after each nap whether the file is still one
    with mandatory locks. *)
Fixpoint mandatory_wait (naps : list (lnap * bool)) (nonblock signal : bool) (current : Z) : M lks Z :=
  posix ← head_has FL_POSIX;
  if negb posix then mret 0
  else
    t ← ldl 0;
    ps ← gets i_flock;
    found ← first_conflict (λ c fl, posix_locks_conflict fl c) t ps;
    match found with
    | None => mret 0
    | Some p =>
        if nonblock then mret (- EAGAIN)
        else if signal then mret (- ERESTARTSYS)
        else
          fl ← ldl p;
          dead ← deadlock current (fl_owner fl);
          if (dead : bool) then mret (- EDEADLK)
          else
            locks_insert_block p 0 ;;
            match naps with
            | [] => halt Asleep
            | (n, keeps) :: naps' =>
                modify (lnap_env n) ;;
                locks_delete_block p 0 ;;
                if lnap_signal n then mret (- ERESTARTSYS)
                else if negb keeps then mret 0
                else mandatory_wait naps' nonblock (lnap_signal n) current
            end
    end.

Definition locks_mandatory_area (naps : list (lnap * bool)) (signal : bool) (current read_write : Z)
    (filp : file) (offset count : Z) : M lks Z :=
  let tfl := MkLock current (f_id filp) (Z.lor FL_POSIX FL_ACCESS)
    (if read_write =? FLOCK_VERIFY_WRITE then F_WRLCK else F_RDLCK)
    (s32 offset) (s32 (offset + count - 1)) [] in
  with_caller tfl (mandatory_wait naps (has (f_flags filp) O_NONBLOCK) signal current).

Definition locks_verify_area (naps : list (lnap * bool)) (signal : bool) (current read_write : Z)
    (filp : file) (offset count : Z) : M lks Z :=
  if mandatory filp then locks_mandatory_area naps signal current read_write filp offset count
  else mret 0.
