(* ===== verification/LocksFacts.v ===== *)
(** * LocksFacts: what the record locks of a file mean

    Each process holds a lock, shared or exclusive, on some bytes of the file.
    [posix_lock_file] keeps them as a sorted list of disjoint ranges, and sets
    the bytes of the request without changing any others. *)

From stdpp Require Import gmap sorting relations.
From S2P Require Import Prelude Locks.

(** ** Specification *)

Definition cover (l : file_lock) (b : Z) : Prop := fl_start l ≤ b ≤ fl_end l.

(** One of the locks is on byte [b], of type [t]. *)
Definition holds (ls : list file_lock) (t b : Z) : Prop := ∃ l, l ∈ ls ∧ cover l b ∧ fl_type l = t.

Definition range_ok (l : file_lock) : Prop := 0 ≤ fl_start l ≤ fl_end l ∧ fl_end l ≤ OFFSET_MAX.

Definition posix_flags (flags : Z) : Prop := has flags FL_FLOCK = false ∧ has flags FL_POSIX = true.

Definition before_lock (a b : file_lock) : Prop := fl_end a < fl_start b.

(** The locks of one process: in order and disjoint. *)
Record own_ok (o : Z) (ls : list file_lock) : Prop := {
  oo_sorted : StronglySorted before_lock ls;
  oo_range : Forall range_ok ls;
  oo_owner : Forall (λ l, fl_owner l = o) ls;
  oo_posix : Forall (λ l, posix_flags (fl_flags l) ∧ fl_type l ∈ [F_RDLCK; F_WRLCK]) ls;
}.

Definition below (x : Z) (ls : list file_lock) : Prop := Forall (λ l, fl_end l < x) ls.
Definition above (x : Z) (ls : list file_lock) : Prop := Forall (λ l, x < fl_start l) ls.

(** The locks at the addresses [ps] are [ls]. *)
Definition seg (st : gmap Z file_lock) (ps : list Z) (ls : list file_lock) : Prop :=
  Forall2 (λ p l, st !! p = Some l) ps ls.

(** ** Lemmas: lists of locks *)

Lemma holds_app l1 l2 t b : holds (l1 ++ l2) t b ↔ holds l1 t b ∨ holds l2 t b.
Proof. unfold holds. setoid_rewrite elem_of_app. naive_solver. Qed.

Lemma holds_cons l ls t b : holds (l :: ls) t b ↔ (cover l b ∧ fl_type l = t) ∨ holds ls t b.
Proof. unfold holds. setoid_rewrite elem_of_cons. naive_solver. Qed.

Lemma holds_nil t b : ¬ holds [] t b.
Proof. intros (l & Hl & _). set_solver. Qed.

Lemma below_app x l1 l2 : below x (l1 ++ l2) ↔ below x l1 ∧ below x l2.
Proof. apply Forall_app. Qed.

Lemma seg_app st ps1 ps2 ls1 ls2 : seg st ps1 ls1 → seg st ps2 ls2 → seg st (ps1 ++ ps2) (ls1 ++ ls2).
Proof. apply Forall2_app. Qed.

Lemma seg_length st ps ls : seg st ps ls → length ps = length ls.
Proof. apply Forall2_length. Qed.

Lemma seg_frame st st' ps ls :
  (∀ p, p ∈ ps → st' !! p = st !! p) → seg st ps ls → seg st' ps ls.
Proof.
  intros H Hs. induction Hs as [|p l ps ls Hp Hs IH]; constructor.
  - rewrite H by set_solver. done.
  - apply IH. set_solver.
Qed.

(** Facts of a sorted list split in two. *)
Lemma own_ok_cons o f ls : own_ok o (f :: ls) → range_ok f ∧ fl_owner f = o ∧ above (fl_end f) ls ∧ own_ok o ls ∧ fl_type f ∈ [F_RDLCK; F_WRLCK].
Proof.
  intros [Hs Hr Ho Hp]. apply StronglySorted_inv in Hs as [Hs1 Hs2]. rewrite Forall_cons in *.
  split_and!; try naive_solver. split; naive_solver.
Qed.

Lemma own_ok_app o l1 l2 :
  own_ok o (l1 ++ l2) ↔ own_ok o l1 ∧ own_ok o l2 ∧ ∀ a b, a ∈ l1 → b ∈ l2 → fl_end a < fl_start b.
Proof.
  split.
  - intros [Hs Hr Ho Hp]. apply StronglySorted_app in Hs as (H1 & H2 & H3). rewrite Forall_app in *.
    split_and!; try naive_solver; split; naive_solver.
  - intros ([Hs Hr Ho Hp] & [Hs' Hr' Ho' Hp'] & H). split; try (apply Forall_app; done).
    apply StronglySorted_app. done.
Qed.

(** ** One step of the loop *)

Lemma scan_end fuel v s :
  i_flock s !! sc_before v = None → posix_scan (S fuel) v s = Ret v s.
Proof. destruct v as [before caller added lft rgt]. cbn. intros H. unfold mbind, M_bind, at_position, gets. by rewrite H. Qed.

Lemma scan_other fuel v s p fl c :
  i_flock s !! sc_before v = Some p → store s !! p = Some fl → store s !! sc_caller v = Some c →
  fl_owner c ≠ fl_owner fl → posix_scan (S fuel) v s = Ret v s.
Proof.
  destruct v as [before caller added lft rgt]. cbn. intros H1 H2 H3 Hne.
  unfold mbind, M_bind, at_position, gets, ldl. rewrite H1, H2, H3.
  by rewrite (proj2 (Z.eqb_neq _ _) Hne).
Qed.

Definition with_store (s : lks) (st : gmap Z file_lock) : lks := s <| store := st |>.

(** Deleting the lock at a position. *)
Definition deleted (s : lks) (before : nat) (p : Z) : lks :=
  s <| i_flock := delete before (i_flock s) |>
    <| file_lock_table := filter (λ q, q ≠ p) (file_lock_table s) |>
    <| store := delete p (store s) |>.

Lemma delete_altered (st : gmap Z file_lock) f p : delete p (alter f p st) = delete p st.
Proof.
  apply map_eq. intros q. destruct (decide (q = p)) as [->|Hne]; [by rewrite !lookup_delete_eq|].
  by rewrite !lookup_delete_ne, lookup_alter_ne by done.
Qed.

Lemma delete_spec s before p :
  i_flock s !! before = Some p → locks_delete_lock before s = Ret tt (deleted s before p).
Proof.
  intros H. unfold locks_delete_lock, mbind, M_bind, at_position, gets. rewrite H.
  unfold unlink_lock, locks_wake_up_blocks, locks_free_lock, stl, modify. unfold deleted. cbn.
  by rewrite delete_altered.
Qed.

(** The same type, and adjacent or overlapping: one lock is made of the two. *)
Lemma scan_merge fuel before caller added lft rgt s p fl c :
  i_flock s !! before = Some p → store s !! p = Some fl → store s !! caller = Some c → p ≠ caller →
  fl_owner c = fl_owner fl → fl_type c = fl_type fl →
  s32 (fl_start c - 1) ≤ fl_end fl → fl_start fl ≤ s32 (fl_end c + 1) →
  let lo := Z.min (fl_start c) (fl_start fl) in
  let hi := Z.max (fl_end c) (fl_end fl) in
  ∃ st, (∀ q, q ≠ p → q ≠ caller → st !! q = store s !! q) ∧
    st !! p = Some (fl <| fl_start := lo |> <| fl_end := hi |>) ∧
    st !! caller = Some (c <| fl_start := lo |> <| fl_end := hi |>) ∧
    posix_scan (S fuel) (MkScan before caller added lft rgt) s =
      if added then posix_scan fuel (MkScan before caller added lft rgt) (deleted (with_store s st) before p)
      else posix_scan fuel (MkScan (S before) p true lft rgt) (with_store s st).
Proof.
  intros H1 H2 H3 Hne Ho Ht Hlo Hhi lo hi.
  cbn [posix_scan]. unfold mbind, M_bind, at_position, gets, ldl. rewrite H1, H2, H3.
  rewrite (proj2 (Z.eqb_eq _ _) Ho), (proj2 (Z.eqb_eq _ _) Ht). cbn [negb].
  rewrite (proj2 (Z.ltb_ge (fl_end fl) _)) by lia. rewrite (proj2 (Z.ltb_ge (s32 _) _)) by lia.
  set (st1 := if fl_start c <? fl_start fl then alter (λ l, l <| fl_start := fl_start c |>) p (store s)
              else alter (λ l, l <| fl_start := fl_start fl |>) caller (store s)).
  set (st2 := if fl_end fl <? fl_end c then alter (λ l, l <| fl_end := fl_end c |>) p st1
              else alter (λ l, l <| fl_end := fl_end fl |>) caller st1).
  exists st2. split_and!.
  - intros q Hq1 Hq2. subst st1 st2. by destruct (fl_start c <? _), (fl_end fl <? _); rewrite !lookup_alter_ne by done.
  - subst st1 st2 lo hi. destruct (fl_start c <? _) eqn:E1, (fl_end fl <? _) eqn:E2; to_prop;
      rewrite ?lookup_alter_eq, ?lookup_alter_ne, ?lookup_alter_eq, H2 by done; cbn [fmap option_fmap option_map];
      f_equal; destruct fl; cbn in *; f_equal; lia.
  - subst st1 st2 lo hi. destruct (fl_start c <? _) eqn:E1, (fl_end fl <? _) eqn:E2; to_prop;
      rewrite ?lookup_alter_eq, ?lookup_alter_ne, ?lookup_alter_eq, H3 by done; cbn [fmap option_fmap option_map];
      f_equal; destruct c; cbn in *; f_equal; lia.
  - assert (∀ b : bool, ∀ f g : lks → lks, (if b then modify f else modify g) s = Ret tt (if b then f s else g s)) as Hif
      by (by intros []).
    unfold stl. rewrite Hif.
    assert (∀ s1, (if fl_end fl <? fl_end c then modify (λ s, s <| store := alter (λ l, l <| fl_end := fl_end c |>) p (store s) |>)
      else modify (λ s, s <| store := alter (λ l, l <| fl_end := fl_end fl |>) caller (store s) |>)) s1 =
      Ret tt (if fl_end fl <? fl_end c then s1 <| store := alter (λ l, l <| fl_end := fl_end c |>) p (store s1) |>
              else s1 <| store := alter (λ l, l <| fl_end := fl_end fl |>) caller (store s1) |>)) as Hif2
      by (intros; by destruct (fl_end fl <? _)).
    rewrite Hif2.
    assert (∀ x : lks, x = with_store s st2 → (if added
       then (locks_delete_lock before ;; posix_scan fuel (MkScan before caller added lft rgt)) x
       else posix_scan fuel (MkScan (S before) p true lft rgt) x) =
       if added then posix_scan fuel (MkScan before caller added lft rgt) (deleted (with_store s st2) before p)
       else posix_scan fuel (MkScan (S before) p true lft rgt) (with_store s st2)) as Hend.
    { intros x ->. destruct added; [|done]. unfold mbind, M_bind. by rewrite (delete_spec _ _ p). }
    unfold mbind, M_bind in Hend. destruct added; apply Hend; subst st1 st2;
      by destruct (fl_start c <? _), (fl_end fl <? _).
Qed.

Section steps.
Context (fuel before : nat) (caller : Z) (added : bool) (lft rgt : option Z) (s : lks) (p : Z) (fl c : file_lock).
Context (H1 : i_flock s !! before = Some p) (H2 : store s !! p = Some fl) (H3 : store s !! caller = Some c).
Context (Ho : fl_owner c = fl_owner fl).

Let v := MkScan before caller added lft rgt.

Ltac start_step :=
  subst v; cbn [posix_scan]; unfold mbind, M_bind, at_position, gets, ldl; rewrite H1, H2, H3,
    (proj2 (Z.eqb_eq _ _) Ho); cbn [negb].

Lemma scan_skip :
  (fl_type c = fl_type fl ∧ fl_end fl < s32 (fl_start c - 1)) ∨ (fl_type c ≠ fl_type fl ∧ fl_end fl < fl_start c) →
  posix_scan (S fuel) v s = posix_scan fuel (MkScan (S before) caller added lft rgt) s.
Proof.
  intros Hc. start_step. destruct Hc as [[Ht He]|[Ht He]].
  - by rewrite (proj2 (Z.eqb_eq _ _) Ht), (proj2 (Z.ltb_lt _ _) He).
  - by rewrite (proj2 (Z.eqb_neq _ _) Ht), (proj2 (Z.ltb_lt _ _) He).
Qed.

Lemma scan_stop :
  (fl_type c = fl_type fl ∧ s32 (fl_start c - 1) ≤ fl_end fl ∧ s32 (fl_end c + 1) < fl_start fl) ∨
  (fl_type c ≠ fl_type fl ∧ fl_start c ≤ fl_end fl ∧ fl_end c < fl_start fl) →
  posix_scan (S fuel) v s = Ret v s.
Proof.
  intros Hc. start_step. destruct Hc as [(Ht & He & Hs)|(Ht & He & Hs)].
  - by rewrite (proj2 (Z.eqb_eq _ _) Ht), (proj2 (Z.ltb_ge _ _) He), (proj2 (Z.ltb_lt _ _) Hs).
  - by rewrite (proj2 (Z.eqb_neq _ _) Ht), (proj2 (Z.ltb_ge _ _) He), (proj2 (Z.ltb_lt _ _) Hs).
Qed.

Context (Ht : fl_type c ≠ fl_type fl) (He : fl_start c ≤ fl_end fl) (Hs : fl_start fl ≤ fl_end c).

Let added' : bool := added || (fl_type c =? F_UNLCK).
Let lft' : option Z := if fl_start fl <? fl_start c then Some p else lft.

Ltac start_overlap :=
  start_step; rewrite (proj2 (Z.eqb_neq _ _) Ht), (proj2 (Z.ltb_ge _ _) He), (proj2 (Z.ltb_ge _ _) Hs); fold added' lft'.

Lemma scan_right :
  fl_end c < fl_end fl → posix_scan (S fuel) v s = Ret (MkScan before caller added' lft' (Some p)) s.
Proof. intros Hr. start_overlap. by rewrite (proj2 (Z.ltb_lt _ _) Hr). Qed.

Lemma scan_left :
  fl_end fl ≤ fl_end c → fl_start fl < fl_start c →
  posix_scan (S fuel) v s = posix_scan fuel (MkScan (S before) caller added' (Some p) rgt) s.
Proof.
  intros Hr Hl. start_overlap. rewrite (proj2 (Z.ltb_ge _ _) Hr), (proj2 (Z.leb_gt _ _) Hl).
  subst lft'. by rewrite (proj2 (Z.ltb_lt _ _) Hl).
Qed.

Lemma scan_delete :
  fl_end fl ≤ fl_end c → fl_start c ≤ fl_start fl → added' = true →
  posix_scan (S fuel) v s = posix_scan fuel (MkScan before caller true lft rgt) (deleted s before p).
Proof.
  intros Hr Hl Ha. start_overlap. rewrite (proj2 (Z.ltb_ge _ _) Hr), (proj2 (Z.leb_le _ _) Hl).
  rewrite Ha. subst lft'. rewrite (proj2 (Z.ltb_ge _ _) Hl), (delete_spec s before p H1). done.
Qed.

Lemma scan_replace :
  fl_end fl ≤ fl_end c → fl_start c ≤ fl_start fl → added' = false →
  posix_scan (S fuel) v s = posix_scan fuel (MkScan (S before) p true lft rgt)
    (with_store s (<[p := fl <| fl_waiters := [] |> <| fl_start := fl_start c |> <| fl_end := fl_end c |>
                          <| fl_type := fl_type c |>]> (store s))).
Proof.
  intros Hr Hl Ha. start_overlap. rewrite (proj2 (Z.ltb_ge _ _) Hr), (proj2 (Z.leb_le _ _) Hl).
  rewrite Ha. subst lft'. rewrite (proj2 (Z.ltb_ge _ _) Hl).
  unfold locks_wake_up_blocks, stl, modify. f_equal. unfold with_store. cbn. f_equal.
  apply map_eq. intros q. destruct (decide (q = p)) as [->|Hne].
  - by rewrite !lookup_alter_eq, H2, lookup_insert_eq.
  - by rewrite !lookup_alter_ne, lookup_insert_ne by done.
Qed.
End steps.

(** ** The loop once the new lock is in the list *)

(** The loop ends at the locks of other processes. *)
Definition other_head (st : gmap Z file_lock) (o : Z) (Q : list Z) : Prop :=
  match Q with [] => True | q :: _ => ∃ l, st !! q = Some l ∧ fl_owner l ≠ o end.

Lemma other_head_frame st st' o Q :
  (∀ q, q ∈ Q → st' !! q = st !! q) → other_head st o Q → other_head st' o Q.
Proof. destruct Q as [|q Q]; [done|]. intros H (l & Hl & Ho). exists l. by rewrite H by set_solver. Qed.

Lemma scan_at_other fuel A Q v s c o :
  i_flock s = A ++ Q → sc_before v = length A → store s !! sc_caller v = Some c → fl_owner c = o →
  other_head (store s) o Q → posix_scan (S fuel) v s = Ret v s.
Proof.
  intros Hl Hb Hc Ho HQ. destruct Q as [|q Q].
  - apply scan_end. rewrite Hl, Hb, app_nil_r. apply lookup_ge_None_2. lia.
  - destruct HQ as (l & Hq & Hne). eapply scan_other; [|exact Hq|exact Hc|congruence].
    rewrite Hl, Hb. by apply list_lookup_middle.
Qed.

Definition right_ok (rgt : option Z) (lo hi t : Z) (c : file_lock) (ids : list Z) (T : list file_lock) : Prop :=
  match rgt with
  | None => above (fl_end c) T
  | Some rp => ∃ ids1 r T1, ids = rp :: ids1 ∧ T = r :: T1 ∧ fl_start r ≤ fl_end c < fl_end r ∧
      fl_end c = hi ∧ fl_type r ≠ t ∧ fl_start c < fl_start r ∧ lo ≤ fl_start r
  end.

Record caller_in (o lo hi t : Z) (c : file_lock) (T : list file_lock) : Prop := {
  ci_owner : fl_owner c = o;
  ci_type : fl_type c = t;
  ci_posix : posix_flags (fl_flags c);
  ci_range : range_ok c;
  ci_lo : fl_start c ≤ lo;
  ci_hi : hi ≤ fl_end c;
  ci_end : fl_end c = hi ∨ above (fl_end c) T;
  ci_rest : Forall (λ l, lo ≤ fl_start l ∧ fl_start c < fl_start l) T;
}.

(** What the loop leaves of the rest of the list. *)
Definition scan_B_post (s : lks) (A Q : list Z) (cid o lo hi t : Z) (c : file_lock) (ids : list Z)
    (T : list file_lock) (rgt : option Z) (s' : lks) : Prop :=
  ∃ c' ids' T', i_flock s' = A ++ ids' ++ Q ∧ store s' !! cid = Some c' ∧ seg (store s') ids' T' ∧
    own_ok o T' ∧ caller_in o lo hi t c' T' ∧ fl_start c' = fl_start c ∧
    (∀ q, q ∉ cid :: ids → store s' !! q = store s !! q) ∧ sublist ids' ids ∧
    (∀ b t', ¬ (lo ≤ b ≤ hi) → holds (c :: T) t' b ↔ holds (c' :: T') t' b) ∧
    right_ok rgt lo hi t c' ids' T'.

Lemma caller_in_tail o lo hi t c f T : caller_in o lo hi t c (f :: T) → caller_in o lo hi t c T.
Proof.
  intros [? ? ? ? ? ? He Hr]. apply Forall_cons in Hr as [_ Hr]. split; try done.
  destruct He as [?|He]; [by left|right]. by apply Forall_cons in He as [_ ?].
Qed.

(** A request that ends at the largest offset meets no lock of its type: the end
    plus one would wrap. *)
Definition joinable (lo hi t : Z) (ls : list file_lock) : Prop :=
  hi < OFFSET_MAX ∨ Forall (λ l, fl_type l = t → fl_end l < lo - 1) ls.

Lemma joinable_tail lo hi t f ls : joinable lo hi t (f :: ls) → joinable lo hi t ls.
Proof. intros [?|[_ ?]%Forall_cons]; [by left|by right]. Qed.

Lemma no_wrap o lo hi t c f T :
  caller_in o lo hi t c (f :: T) → own_ok o (f :: T) → hi < OFFSET_MAX →
  s32 (fl_end c + 1) = fl_end c + 1 ∧ s32 (fl_start c - 1) = fl_start c - 1.
Proof.
  intros [_ _ _ [Hr1 Hr2] _ _ He _] Hok Hhi. apply own_ok_cons in Hok as ([Hf1 Hf2] & _ & _ & _).
  assert (fl_end c < OFFSET_MAX).
  { destruct He as [?|He]; [lia|]. apply Forall_cons in He as [He _]. lia. }
  unfold OFFSET_MAX in *. rewrite !s32_id by lia. done.
Qed.

Lemma seg_cons_inv st p ids f T :
  seg st (p :: ids) (f :: T) → st !! p = Some f ∧ seg st ids T.
Proof. by intros [? ?]%Forall2_cons. Qed.

Lemma deleted_list s A p B : i_flock s = A ++ p :: B → i_flock (deleted s (length A) p) = A ++ B.
Proof. intros E. unfold deleted. cbn. rewrite E. apply delete_middle. Qed.

(** The lock that two adjacent or overlapping ones of the same type make. *)
Lemma merge_holds c f T c1 :
  fl_type c = fl_type f → fl_type c1 = fl_type c → range_ok c → range_ok f →
  fl_start c1 = Z.min (fl_start c) (fl_start f) → fl_end c1 = Z.max (fl_end c) (fl_end f) →
  fl_start f ≤ fl_end c + 1 → fl_start c - 1 ≤ fl_end f →
  ∀ b t', holds (c :: f :: T) t' b ↔ holds (c1 :: T) t' b.
Proof.
  intros E1 E2 [Hc _] [Hf _] Es Ee H1 H2 b t'. rewrite !holds_cons. unfold cover. rewrite E2, <-E1, Es, Ee.
  destruct (decide (fl_type c = t')); [|tauto]. split; [intros [[? _]|[[? _]|?]]|intros [[? _]|?]]; try tauto; try lia.
Qed.

Lemma caller_in_merge o lo hi t c f T :
  caller_in o lo hi t c T → range_ok f → above (fl_end f) T →
  caller_in o lo hi t (c <| fl_start := fl_start c |> <| fl_end := Z.max (fl_end c) (fl_end f) |>) T.
Proof.
  intros [? ? ? [? ?] ? ? He ?] [? ?] Hab. split; try done; cbn; [unfold range_ok; cbn; lia|lia|].
  destruct (decide (fl_end c ≤ fl_end f)).
  - right. by rewrite Z.max_r by done.
  - by rewrite Z.max_l by lia.
Qed.

Record scan_B_pre (s : lks) (A Q : list Z) (cid o lo hi t : Z) (c : file_lock) (ids : list Z)
    (T : list file_lock) : Prop := {
  bp_list : i_flock s = A ++ ids ++ Q;
  bp_nodup : NoDup (cid :: ids);
  bp_apart : ∀ q, q ∈ Q → q ∉ cid :: ids;
  bp_other : other_head (store s) o Q;
  bp_caller : store s !! cid = Some c;
  bp_seg : seg (store s) ids T;
  bp_ok : own_ok o T;
  bp_in : caller_in o lo hi t c T;
}.

(** The next lock is deleted, with the caller's extended by it or not. *)
Lemma scan_B_next s s1 A Q cid o lo hi t c c1 p ids f T :
  scan_B_pre s A Q cid o lo hi t c (p :: ids) (f :: T) →
  i_flock s1 = A ++ ids ++ Q → (∀ q, q ≠ p → q ≠ cid → store s1 !! q = store s !! q) →
  store s1 !! cid = Some c1 → caller_in o lo hi t c1 T →
  scan_B_pre s1 A Q cid o lo hi t c1 ids T.
Proof.
  intros [Hl Hnd HQ Hoth Hc Hseg Hok Hci] Hl1 Hs1 Hc1 Hci1.
  apply seg_cons_inv in Hseg as [Hp Hseg]. apply own_ok_cons in Hok as (_ & _ & _ & Hok & _).
  assert (p ≠ cid ∧ p ∉ ids ∧ cid ∉ ids ∧ NoDup ids) as (Hpc & Hpi & Hci' & Hndi).
  { rewrite !NoDup_cons in Hnd. set_solver. }
  split; try done.
  - by constructor.
  - intros q Hq. specialize (HQ q Hq). set_solver.
  - eapply other_head_frame; [|done]. intros q Hq. specialize (HQ q Hq). apply Hs1; set_solver.
  - eapply seg_frame; [|done]. intros q Hq. apply Hs1; set_solver.
Qed.

Lemma scan_B_join s s1 s' A Q cid o lo hi t c c1 p ids f T rgt :
  (∀ q, q ≠ p → q ≠ cid → store s1 !! q = store s !! q) → fl_start c1 = fl_start c →
  (∀ b t', ¬ (lo ≤ b ≤ hi) → holds (c :: f :: T) t' b ↔ holds (c1 :: T) t' b) →
  scan_B_post s1 A Q cid o lo hi t c1 ids T rgt s' →
  scan_B_post s A Q cid o lo hi t c (p :: ids) (f :: T) rgt s'.
Proof.
  intros Hs1 Hst Hh (c' & ids' & T' & H1 & H2 & H3 & H4 & H5 & H6 & H7 & H8 & H9 & H10).
  exists c', ids', T'. split_and!; try done.
  - by rewrite H6.
  - intros q Hq. rewrite H7, Hs1 by set_solver. done.
  - by apply sublist_cons.
  - intros b t' Hb. by rewrite Hh, H9.
Qed.

Lemma scan_B_stay s A Q cid o lo hi t c ids T rgt :
  scan_B_pre s A Q cid o lo hi t c ids T → right_ok rgt lo hi t c ids T →
  scan_B_post s A Q cid o lo hi t c ids T rgt s.
Proof. intros [] Hr. by exists c, ids, T. Qed.

Lemma scan_B T ids fuel c s A Q cid lft o lo hi t :
  scan_B_pre s A Q cid o lo hi t c ids T → (length ids < fuel)%nat → t ≠ F_UNLCK → joinable lo hi t T →
  ∃ rgt s', posix_scan fuel (MkScan (length A) cid true lft None) s =
      Ret (MkScan (length A) cid true lft rgt) s' ∧ scan_B_post s A Q cid o lo hi t c ids T rgt s'.
Proof.
  intros Hpre Hfuel Ht Hj. revert ids fuel c s Hpre Hfuel Hj.
  induction T as [|f T IH]; intros ids fuel c s Hpre Hfuel Hj; pose proof Hpre as [Hl _ _ Hoth Hc Hseg Hok Hci].
  { assert (ids = []) as -> by (apply nil_length_inv; by rewrite (seg_length _ _ _ Hseg)).
    destruct fuel as [|fuel]; [lia|]. exists None, s. split; [|by apply scan_B_stay; [|constructor]].
    eapply (scan_at_other fuel A Q _ s c o); try done. apply Hci. }
  destruct ids as [|p ids]; [by apply seg_length in Hseg|].
  apply seg_cons_inv in Hseg as [Hp Hseg]. destruct fuel as [|fuel]; [lia|]. cbn [length] in Hfuel.
  pose proof (joinable_tail _ _ _ _ _ Hj) as HjT.
  pose proof (own_ok_cons _ _ _ Hok) as ([Hrf1 Hrf2] & Hof & Habove & _ & _).
  pose proof (ci_rest _ _ _ _ _ _ Hci) as [[Hlo Hsf] Hrest]%Forall_cons.
  pose proof (caller_in_tail _ _ _ _ _ _ _ Hci) as HciT.
  assert (i_flock s !! length A = Some p) as Hat by (rewrite Hl; by apply list_lookup_middle).
  assert (p ≠ cid) as Hpc by (pose proof (bp_nodup _ _ _ _ _ _ _ _ _ _ _ Hpre) as Hnd; inversion_clear Hnd; set_solver).
  assert (fl_owner c = fl_owner f) as Hoo by (by rewrite Hof, (ci_owner _ _ _ _ _ _ Hci)).
  assert (∀ x, x < fl_start f → above x (f :: T)) as Hab.
  { intros x Hx. constructor; [done|]. eapply Forall_impl; [exact Habove|]. cbn. lia. }
  destruct (decide (fl_type c = fl_type f)) as [Etf|Etf].
  - assert (hi < OFFSET_MAX) as Hhi.
    { destruct Hj as [?|[Hj _]%Forall_cons]; [done|]. specialize (Hj ltac:(by rewrite <-Etf, (ci_type _ _ _ _ _ _ Hci))). lia. }
    pose proof (no_wrap _ _ _ _ _ _ _ Hci Hok Hhi) as [Hw1 Hw2].
    destruct (decide (fl_end c + 1 < fl_start f)) as [Hgap|Hgap].
    { exists None, s. split; [|apply scan_B_stay; [done|apply Hab; lia]].
      eapply (scan_stop _ _ _ _ _ _ _ p f c); try done. left. split_and!; [done|lia..]. }
    destruct (scan_merge fuel (length A) cid true lft None s p f c) as (st & Hst & Hstp & Hstc & E);
      [done..|lia|lia|].
    rewrite Z.min_l in * by lia. set (c1 := c <| fl_start := _ |> <| fl_end := _ |>) in *.
    set (s1 := deleted (with_store s st) (length A) p) in *.
    assert (∀ q, q ≠ p → q ≠ cid → store s1 !! q = store s !! q) as Hs1.
    { intros q Hq1 Hq2. cbn. rewrite lookup_delete_ne by done. by apply Hst. }
    destruct (IH ids fuel c1 s1) as (rgt & s' & E' & Hpost); [|lia|done|].
    { apply (scan_B_next s s1 _ _ _ _ _ _ _ c c1 p ids f T Hpre); [by apply (deleted_list (with_store s st) A p)|done|cbn; by rewrite lookup_delete_ne|].
      by apply caller_in_merge. }
    exists rgt, s'. split; [by rewrite E|].
    apply (scan_B_join s s1 s' A Q cid o lo hi t c c1 p ids f T); [exact Hs1|done| |exact Hpost].
    intros b t' _. apply merge_holds; try done; cbn; try lia; apply Hci.
  - destruct (decide (fl_end c < fl_start f)) as [Hgap|Hgap].
    { exists None, s. split; [|apply scan_B_stay; [done|by apply Hab]].
      eapply (scan_stop _ _ _ _ _ _ _ p f c); try done. right. split_and!; [done|lia..]. }
    assert (fl_end c = hi) as Ehi.
    { destruct (ci_end _ _ _ _ _ _ Hci) as [?|He]; [done|]. apply Forall_cons in He as [? _]. lia. }
    destruct (decide (fl_end c < fl_end f)) as [Hr|Hr].
    { exists (Some p), s. rewrite (scan_right fuel (length A) cid true lft None s p f c) by (done || lia).
      rewrite (proj2 (Z.ltb_ge (fl_start f) _)) by lia. split; [done|]. apply scan_B_stay; [done|].
      exists ids, f, T. split_and!; try done; try lia. by rewrite <-(ci_type _ _ _ _ _ _ Hci). }
    rewrite (scan_delete fuel (length A) cid true lft None s p f c) by (done || lia).
    set (s1 := deleted s (length A) p).
    assert (∀ q, q ≠ p → q ≠ cid → store s1 !! q = store s !! q) as Hs1
      by (intros q Hq _; cbn; by rewrite lookup_delete_ne).
    destruct (IH ids fuel c s1) as (rgt & s' & E' & Hpost); [|lia|done|].
    { apply (scan_B_next s s1 _ _ _ _ _ _ _ c c p ids f T Hpre); [by apply deleted_list|done|cbn; by rewrite lookup_delete_ne|done]. }
    exists rgt, s'. split; [done|]. eapply scan_B_join; [exact Hs1|done| |exact Hpost].
    intros b t' Hb. rewrite !holds_cons. unfold cover. split; [|tauto]. intros [?|[[? _]|?]]; try tauto. lia.
Qed.

(** ** The loop from the beginning *)

Definition left_ok (lft rgt : option Z) (lo hi : Z) (c : file_lock) (ids : list Z) (D : list file_lock) : Prop :=
  match lft with
  | None => below (fl_start c) D
  | Some lp =>
      if decide (lft = rgt) then below (fl_start c) D
      else ∃ ids1 D1 l, ids = ids1 ++ [lp] ∧ D = D1 ++ [l] ∧ below (fl_start c) D1 ∧
        fl_start l < fl_start c ≤ fl_end l ∧ fl_end l ≤ hi ∧ fl_start c = lo
  end.

Definition right_ok' (lft rgt : option Z) (lo hi t : Z) (c : file_lock) (ids : list Z) (T : list file_lock) : Prop :=
  match rgt with
  | None => above (fl_end c) T
  | Some rp => ∃ ids1 r T1, ids = rp :: ids1 ∧ T = r :: T1 ∧ fl_start r ≤ fl_end c < fl_end r ∧
      fl_end c = hi ∧ fl_type r ≠ t ∧
      if decide (lft = rgt) then fl_start r < fl_start c ∧ fl_start c = lo
      else fl_start c ≤ fl_start r ∧ lo ≤ fl_start r
  end.

(** The request: what it asks for and what the code can rely on. *)
Record request (o lo hi t : Z) (c0 : file_lock) : Prop := {
  rq_owner : fl_owner c0 = o;
  rq_type : fl_type c0 = t;
  rq_start : fl_start c0 = lo;
  rq_end : fl_end c0 = hi;
  rq_range : range_ok c0;
  rq_posix : posix_flags (fl_flags c0);
  rq_types : t ∈ [F_RDLCK; F_WRLCK; F_UNLCK];
}.

(** The caller's lock after the loop, in the list or still on the stack. *)
Definition caller_after (o lo hi t : Z) (c0 : file_lock) (v : scan_vars) (inl : bool) (c : file_lock) : Prop :=
  if inl then
    sc_added v = true ∧ t ≠ F_UNLCK ∧ fl_owner c = o ∧ fl_type c = t ∧ posix_flags (fl_flags c) ∧
    range_ok c ∧ fl_start c ≤ lo ∧ hi ≤ fl_end c ∧ (sc_left v = sc_right v → sc_right v = None)
  else
    sc_caller v = 0 ∧ c = c0 ∧ (t ≠ F_UNLCK → sc_added v = false) ∧
    (sc_added v = false → t = F_UNLCK → sc_left v = None ∧ sc_right v = None).

Definition one (inl : bool) {A} (x : A) : list A := if inl then [x] else [].

Definition scan_post (s : lks) (P Q : list Z) (o lo hi t : Z) (c0 : file_lock) (ids0 : list Z)
    (S : list file_lock) (v : scan_vars) (s' : lks) : Prop :=
  ∃ inl idD D c idT T,
    i_flock s' = P ++ idD ++ one inl (sc_caller v) ++ idT ++ Q ∧
    sc_before v = length (P ++ idD ++ one inl (sc_caller v)) ∧
    seg (store s') idD D ∧ seg (store s') idT T ∧ store s' !! sc_caller v = Some c ∧
    own_ok o D ∧ own_ok o T ∧ caller_after o lo hi t c0 v inl c ∧
    left_ok (sc_left v) (sc_right v) lo hi c idD D ∧
    right_ok' (sc_left v) (sc_right v) lo hi t c idT T ∧
    (∀ b t', ¬ (lo ≤ b ≤ hi) → holds S t' b ↔ holds (D ++ one inl c ++ T) t' b) ∧
    sublist (idD ++ one inl (sc_caller v) ++ idT) ids0 ∧
    (∀ q, q ≠ 0 → q ∉ ids0 → store s' !! q = store s !! q) ∧
    (inl = false → ∀ a b, a ∈ D → b ∈ T → fl_end a < fl_start b).

Record scan_A_pre (s : lks) (P Q : list Z) (o lo hi t : Z) (c0 : file_lock) (added : bool) (lft : option Z)
    (idD idT : list Z) (D T : list file_lock) : Prop := {
  ap_list : i_flock s = P ++ idD ++ idT ++ Q;
  ap_nodup : NoDup (0 :: idD ++ idT);
  ap_apart : ∀ q, q ∈ Q → q ∉ 0 :: idD ++ idT;
  ap_other : other_head (store s) o Q;
  ap_caller : store s !! 0 = Some c0;
  ap_D : seg (store s) idD D;
  ap_T : seg (store s) idT T;
  ap_ok : own_ok o (D ++ T);
  ap_left : left_ok lft None lo hi c0 idD D;
  ap_added : if added then t = F_UNLCK else lft ≠ None → t ≠ F_UNLCK;
  ap_join : t ≠ F_UNLCK → joinable lo hi t T;
}.

(** The lock in the list takes the request over. *)
Lemma enter_B s s1 P Q o lo hi t c0 added lft idD p ids D f T c1 fuel :
  scan_A_pre s P Q o lo hi t c0 added lft idD (p :: ids) D (f :: T) → request o lo hi t c0 →
  t ≠ F_UNLCK → (length ids < fuel)%nat →
  i_flock s1 = i_flock s → (∀ q, q ≠ p → q ≠ 0 → store s1 !! q = store s !! q) → store s1 !! p = Some c1 →
  caller_in o lo hi t c1 T → (lft = None → below (fl_start c1) D) → (lft ≠ None → fl_start c1 = lo) →
  (∀ b t', ¬ (lo ≤ b ≤ hi) → (cover f b ∧ fl_type f = t') ↔ (cover c1 b ∧ fl_type c1 = t')) →
  ∃ v s', posix_scan fuel (MkScan (S (length (P ++ idD))) p true lft None) s1 = Ret v s' ∧
    scan_post s P Q o lo hi t c0 (idD ++ p :: ids) (D ++ f :: T) v s'.
Proof.
  intros [Hl Hnd HQ Hoth Hc0 HD HT Hok Hleft _ Hj] Hrq Ht Hfuel Hl1 Hs1 Hp1 Hci Hbel Hlo Hout.
  apply own_ok_app in Hok as (HokD & Hokf & Hlt). apply own_ok_cons in Hokf as (_ & _ & _ & HokT & _).
  apply seg_cons_inv in HT as [Hp HT].
  assert (p ∉ idD ∧ p ∉ ids ∧ p ≠ 0 ∧ 0 ∉ idD ∧ 0 ∉ ids ∧ NoDup ids ∧ ∀ q, q ∈ idD → q ∉ ids)
    as (Hn1 & Hn2 & Hn3 & Hn4 & Hn5 & Hn6 & Hn7).
  { rewrite NoDup_cons, NoDup_app, NoDup_cons in Hnd. set_solver. }
  destruct (scan_B T ids fuel c1 s1 (P ++ idD ++ [p]) Q p lft o lo hi t) as (rgt & s' & E & Hpost).
  { split; try done.
    - rewrite Hl1, Hl, <-!app_assoc. done.
    - by constructor.
    - intros q Hq. specialize (HQ q Hq). set_solver.
    - eapply other_head_frame; [|done]. intros q Hq. specialize (HQ q Hq). apply Hs1; set_solver.
    - eapply seg_frame; [|done]. intros q Hq. apply Hs1; set_solver. }
  { done. }
  { done. }
  { by eapply joinable_tail, Hj. }
  replace (length (P ++ idD ++ [p])) with (S (length (P ++ idD))) in E by (rewrite !length_app; cbn; lia).
  destruct Hpost as (c' & ids' & T' & H1 & H2 & H3 & H4 & H5 & H6 & H7 & H8 & H9 & H10).
  assert (lft ≠ rgt ∨ rgt = None) as Hne.
  { destruct rgt as [rp|]; [left|by right]. intros ->. destruct H10 as (ids1 & r & T1 & -> & _).
    cbn [left_ok] in Hleft. rewrite decide_False in Hleft by done. destruct Hleft as (? & ? & ? & -> & _).
    apply sublist_cons_l in H8 as (k1 & k2 & -> & _). set_solver. }
  eexists _, s'. split; [exact E|]. exists true, idD, D, c', ids', T'. cbn [one sc_caller sc_before sc_left sc_right].
  rewrite !app_assoc in H1. rewrite !app_assoc. split_and!; try done.
  - rewrite !length_app. cbn. lia.
  - eapply seg_frame; [|exact HD]. intros q Hq. rewrite H7, Hs1 by set_solver. done.
  - destruct H5 as [? ? ? ? ? ? ? ?]. cbn. split_and!; try done. naive_solver.
  - pose proof (rq_start _ _ _ _ _ Hrq) as Elo. unfold left_ok in Hleft |- *. rewrite H6. destruct lft as [lp|]; [|by apply Hbel].
    rewrite decide_False in Hleft by done. rewrite decide_False by naive_solver. rewrite Hlo by done. by rewrite Elo in Hleft.
  - destruct rgt as [rp|]; [|exact H10]. destruct H10 as (ids1 & r & T1 & ? & ? & ? & ? & ? & ? & ?).
    exists ids1, r, T1. rewrite decide_False by naive_solver. split_and!; try done; lia.
  - intros b t' Hb. rewrite <-!app_assoc, !holds_app, holds_cons, Hout by done. cbn.
    pose proof (H9 b t' Hb) as H9'. rewrite (holds_cons c1), (holds_cons c') in H9'. rewrite holds_cons.
    clear -H9'. pose proof (holds_nil t' b). tauto.
  - rewrite <-app_assoc. apply sublist_app; [done|]. by apply sublist_skip.
  - intros q Hq1 Hq2. rewrite H7, Hs1 by set_solver. done.
Qed.

(** The loop ends with the request still on the stack. *)
Lemma stay_A s P Q o lo hi t c0 added lft rgt before added' lft' idD idT D T :
  scan_A_pre s P Q o lo hi t c0 added lft idD idT D T → before = length (P ++ idD) →
  (t ≠ F_UNLCK → added' = false) → (added' = false → t = F_UNLCK → lft' = None ∧ rgt = None) →
  left_ok lft' rgt lo hi c0 idD D → right_ok' lft' rgt lo hi t c0 idT T →
  scan_post s P Q o lo hi t c0 (idD ++ idT) (D ++ T) (MkScan before 0 added' lft' rgt) s.
Proof.
  intros [] -> Ha1 Ha2 Hlft Hrgt. pose proof ap_ok0 as (HokD & HokT & Hlt)%own_ok_app.
  exists false, idD, D, c0, idT, T. cbn. rewrite app_nil_r. by split_and!.
Qed.

(** The next lock stays in the list, in front of the request. *)
Lemma next_A s P Q o lo hi t c0 added lft (added' : bool) lft' idD p ids D f T :
  scan_A_pre s P Q o lo hi t c0 added lft idD (p :: ids) D (f :: T) →
  left_ok lft' None lo hi c0 (idD ++ [p]) (D ++ [f]) →
  (if added' then t = F_UNLCK else lft' ≠ None → t ≠ F_UNLCK) →
  scan_A_pre s P Q o lo hi t c0 added' lft' (idD ++ [p]) ids (D ++ [f]) T.
Proof.
  intros [] Hlft Ha. pose proof ap_T0 as [Hp HT]%seg_cons_inv.
  split; rewrite <-?app_assoc; try done.
  - apply seg_app; [done|]. by constructor.
  - intros Hun. by eapply joinable_tail, ap_join0.
Qed.

(** The next lock is deleted. *)
Lemma delete_A s P Q o lo hi t c0 added lft idD p ids D f T :
  scan_A_pre s P Q o lo hi t c0 added lft idD (p :: ids) D (f :: T) → t = F_UNLCK →
  scan_A_pre (deleted s (length (P ++ idD)) p) P Q o lo hi t c0 true lft idD ids D T.
Proof.
  intros [Hl Hnd HQ Hoth Hc0 HD HT Hok Hleft _ Hj] Ht. apply seg_cons_inv in HT as [Hp HT].
  apply own_ok_app in Hok as (HokD & Hokf & Hlt). apply own_ok_cons in Hokf as (_ & _ & _ & HokT & _).
  assert (p ∉ idD ∧ p ∉ ids ∧ p ≠ 0 ∧ NoDup (0 :: idD ++ ids)) as (Hn1 & Hn2 & Hn3 & Hn4).
  { rewrite NoDup_cons, NoDup_app, NoDup_cons in Hnd. rewrite NoDup_cons, NoDup_app. set_solver. }
  split; try done.
  - rewrite (app_assoc P). apply deleted_list. by rewrite Hl, <-app_assoc.
  - intros q Hq. specialize (HQ q Hq). set_solver.
  - eapply other_head_frame; [|done]. intros q Hq. specialize (HQ q Hq). cbn. apply lookup_delete_ne. set_solver.
  - cbn. by rewrite lookup_delete_ne.
  - eapply seg_frame; [|done]. intros q Hq. cbn. apply lookup_delete_ne. set_solver.
  - eapply seg_frame; [|done]. intros q Hq. cbn. apply lookup_delete_ne. set_solver.
  - apply own_ok_app. split_and!; try done. intros a b Ha Hb. apply Hlt; set_solver.
Qed.

Lemma scan_post_delete s s1 P Q o lo hi t c0 idD p ids D f T v s' :
  lo ≤ fl_start f → fl_end f ≤ hi → (∀ q, q ≠ p → store s1 !! q = store s !! q) →
  scan_post s1 P Q o lo hi t c0 (idD ++ ids) (D ++ T) v s' →
  scan_post s P Q o lo hi t c0 (idD ++ p :: ids) (D ++ f :: T) v s'.
Proof.
  intros Hlo Hhi Hs1 (inl & idD' & D' & c & idT' & T' & H1 & H2 & H3 & H4 & H5 & H6 & H7 & H8 & H9 & H10 & H11 & H12 & H13 & H14).
  exists inl, idD', D', c, idT', T'. split_and!; try done.
  - intros b t' Hb. rewrite <-H11, !holds_app, holds_cons by done. unfold cover.
    split; [|tauto]. intros [?|[[? ?]|?]]; [tauto|lia|tauto].
  - etrans; [exact H12|]. apply sublist_app; [done|]. by apply sublist_cons.
  - intros q Hq1 Hq2. rewrite H13, Hs1 by set_solver. done.
Qed.

Lemma length_snoc' (P idD : list Z) p : length (P ++ idD ++ [p]) = S (length (P ++ idD)).
Proof. rewrite !length_app. cbn. lia. Qed.

(** A lock that ends before the request: nothing overlaps it yet. *)
Lemma left_ok_skip lft lo hi c0 idD p D f T o :
  left_ok lft None lo hi c0 idD D → own_ok o (D ++ f :: T) → fl_start c0 = lo → fl_end f < lo →
  lft = None ∧ left_ok None None lo hi c0 (idD ++ [p]) (D ++ [f]).
Proof.
  intros Hleft Hok Elo Hf. apply own_ok_app in Hok as (_ & Hokf & Hlt).
  apply own_ok_cons in Hokf as ([Hr1 Hr2] & _). destruct lft as [lp|]; cbn [left_ok] in *.
  - rewrite decide_False in Hleft by done. destruct Hleft as (? & D1 & l & _ & -> & _ & ? & _).
    pose proof (Hlt l f ltac:(set_solver) ltac:(set_solver)). lia.
  - split; [done|]. apply below_app. split; [done|]. repeat constructor. lia.
Qed.

Lemma merge_caller_in o lo hi t c0 f T c1 :
  request o lo hi t c0 → own_ok o (f :: T) → fl_type f = t → lo - 1 ≤ fl_end f → fl_start f ≤ hi + 1 →
  c1 = f <| fl_start := Z.min lo (fl_start f) |> <| fl_end := Z.max hi (fl_end f) |> →
  caller_in o lo hi t c1 T ∧
  ∀ b t', ¬ (lo ≤ b ≤ hi) → (cover f b ∧ fl_type f = t') ↔ (cover c1 b ∧ fl_type c1 = t').
Proof.
  intros [Ho Ht Es Ee [Hr1 Hr2] _ _] Hok Htf H1 H2 ->. pose proof (oo_posix _ _ Hok) as [[Hpx _] _]%Forall_cons.
  apply own_ok_cons in Hok as ([Hf1 Hf2] & Hof & Hab & HokT & _). split.
  - split; try done; cbn; try lia.
    + unfold range_ok. cbn. lia.
    + destruct (decide (hi ≤ fl_end f)); [right|left; lia]. by rewrite Z.max_r by done.
    + eapply Forall_impl; [exact Hab|]. cbn. lia.
  - intros b t' Hb. unfold cover. cbn. split; intros [? ?]; split; try done; lia.
Qed.

Lemma replace_caller_in o lo hi t c0 f T c1 :
  request o lo hi t c0 → own_ok o (f :: T) → lo ≤ fl_start f → fl_end f ≤ hi →
  c1 = f <| fl_waiters := [] |> <| fl_start := lo |> <| fl_end := hi |> <| fl_type := t |> →
  caller_in o lo hi t c1 T ∧
  ∀ b t', ¬ (lo ≤ b ≤ hi) → (cover f b ∧ fl_type f = t') ↔ (cover c1 b ∧ fl_type c1 = t').
Proof.
  intros [Ho Ht Es Ee [Hr1 Hr2] _ _] Hok H1 H2 ->. pose proof (oo_posix _ _ Hok) as [[Hpx _] _]%Forall_cons.
  apply own_ok_cons in Hok as ([Hf1 Hf2] & Hof & Hab & HokT & _). split.
  - split; try done; cbn; try lia.
    + unfold range_ok. cbn. lia.
    + eapply Forall_impl; [exact Hab|]. cbn. lia.
  - intros b t' Hb. unfold cover. cbn. split; intros [? ?]; lia.
Qed.

(** One step: the next lock is passed or deleted, or the loop is decided. *)
Definition step_A (s : lks) (P Q : list Z) (o lo hi t : Z) (c0 : file_lock) (lft : option Z) (fuel : nat)
    (idD : list Z) (p : Z) (ids : list Z) (D : list file_lock) (f : file_lock) (T : list file_lock)
    (m : out lks scan_vars) : Prop :=
  (∃ added' lft', scan_A_pre s P Q o lo hi t c0 added' lft' (idD ++ [p]) ids (D ++ [f]) T ∧
     m = posix_scan fuel (MkScan (length (P ++ idD ++ [p])) 0 added' lft' None) s) ∨
  (t = F_UNLCK ∧ lo ≤ fl_start f ∧ fl_end f ≤ hi ∧
     m = posix_scan fuel (MkScan (length (P ++ idD)) 0 true lft None) (deleted s (length (P ++ idD)) p)) ∨
  ∃ v' s', m = Ret v' s' ∧ scan_post s P Q o lo hi t c0 (idD ++ p :: ids) (D ++ f :: T) v' s'.

(** The step at a lock of the request's type. *)
Lemma scan_A_same s P Q o lo hi t c0 added lft idD p ids D f T fuel :
  scan_A_pre s P Q o lo hi t c0 added lft idD (p :: ids) D (f :: T) → request o lo hi t c0 →
  (length ids < fuel)%nat → fl_type f = t →
  step_A s P Q o lo hi t c0 lft fuel idD p ids D f T
    (posix_scan (S fuel) (MkScan (length (P ++ idD)) 0 added lft None) s).
Proof.
  intros Hpre Hrq Hfuel Htf. pose proof Hpre as [Hl Hnd HQ Hoth Hc0 HD HT Hok Hleft Ha Hj].
  pose proof Hrq as [Ho Ht Es Ee [Hr1 Hr2] _ _]. apply seg_cons_inv in HT as [Hp HT].
  pose proof Hok as (_ & Hokf & Hlt)%own_ok_app.
  pose proof (own_ok_cons _ _ _ Hokf) as ([Hf1 Hf2] & Hof & Hab & _ & Hty).
  assert (t ≠ F_UNLCK) as Hun by (rewrite Htf in Hty; intros ->; unfold F_UNLCK, F_RDLCK, F_WRLCK in Hty; set_solver).
  assert (added = false) as -> by (by destruct added).
  assert (i_flock s !! length (P ++ idD) = Some p) as Hat by (rewrite Hl, app_assoc; by apply list_lookup_middle).
  assert (s32 (fl_start c0 - 1) = lo - 1) as Hw1 by (unfold OFFSET_MAX in *; rewrite !s32_id by lia; lia).
  assert (fl_owner c0 = fl_owner f) as Hoo by congruence.
  destruct (decide (fl_end f < lo - 1)) as [Hskip|Hskip].
  { left. destruct (left_ok_skip lft lo hi c0 idD p D f T o) as [-> Hleft']; [done..|lia|].
    exists false, None. split; [by eapply next_A|]. rewrite length_snoc'.
    eapply (scan_skip _ _ _ _ _ _ _ p f c0); try done. left. split; [congruence|lia]. }
  assert (s32 (fl_end c0 + 1) = hi + 1) as Hw2.
  { destruct (Hj Hun) as [?|[Hj' _]%Forall_cons]; [|by specialize (Hj' Htf)].
    unfold OFFSET_MAX in *. rewrite !s32_id by lia. lia. }
  right; right. destruct (decide (hi + 1 < fl_start f)) as [Hstop|Hstop].
  { eexists _, s. split; [eapply (scan_stop _ _ _ _ _ _ _ p f c0); try done; left; split_and!; [congruence|lia..]|].
    eapply stay_A; try done. constructor; [lia|]. eapply Forall_impl; [exact Hab|]. cbn. lia. }
  destruct (scan_merge fuel (length (P ++ idD)) 0 false lft None s p f c0) as (st & Hst & Hstp & Hstc & E);
    [try done; try congruence; try lia..|].
  { inversion_clear Hnd. set_solver. }
  rewrite E. rewrite Es, Ee in Hstp.
  destruct (merge_caller_in o lo hi t c0 f T (f <| fl_start := Z.min lo (fl_start f) |> <| fl_end := Z.max hi (fl_end f) |>) Hrq Hokf Htf)
    as [Hci Hout]; [lia|lia|done|].
  eapply enter_B; try done.
  - intros ->. cbn [left_ok] in Hleft. apply Forall_forall. intros d Hd. cbn.
    pose proof (proj1 (Forall_forall _ _) Hleft d Hd). pose proof (Hlt d f Hd ltac:(set_solver)). cbn in *. lia.
  - intros Hne. destruct lft as [lp|]; [|done]. cbn [left_ok] in Hleft. rewrite decide_False in Hleft by done.
    destruct Hleft as (? & D1 & l & _ & -> & _ & ? & _). pose proof (Hlt l f ltac:(set_solver) ltac:(set_solver)). cbn. lia.
Qed.

(** The loop ends at a lock that goes on after the request. *)
Lemma stay_right s P Q o lo hi t c0 added lft added' idD p ids D f T :
  scan_A_pre s P Q o lo hi t c0 added lft idD (p :: ids) D (f :: T) → request o lo hi t c0 →
  fl_type f ≠ t → fl_start f ≤ hi → hi < fl_end f → (lft ≠ None → lo ≤ fl_start f) →
  (t ≠ F_UNLCK → added' = false) → (t = F_UNLCK → added' = true) →
  scan_post s P Q o lo hi t c0 (idD ++ p :: ids) (D ++ f :: T)
    (MkScan (length (P ++ idD)) 0 added' (if fl_start f <? lo then Some p else lft) (Some p)) s.
Proof.
  intros Hpre Hrq Htf Hs Hright Hlft Ha1 Ha2. pose proof Hpre as [_ Hnd _ _ _ _ _ _ Hleft _ _].
  pose proof Hrq as [_ _ Es Ee _ _ _].
  assert (∀ lp, lft = Some lp → lp ≠ p) as Hlp.
  { intros lp -> ->. cbn [left_ok] in Hleft. rewrite decide_False in Hleft by done.
    destruct Hleft as (? & ? & ? & -> & _). rewrite NoDup_cons, NoDup_app in Hnd. set_solver. }
  eapply stay_A; try done.
  - intros E Hun. by rewrite Ha2 in E.
  - destruct (fl_start f <? lo) eqn:El; to_prop.
    + cbn [left_ok]. rewrite decide_True by done. destruct lft as [lp|]; [specialize (Hlft ltac:(done)); lia|done].
    + destruct lft as [lp|]; [|done]. cbn [left_ok] in Hleft |- *. rewrite decide_False in Hleft by done.
      rewrite decide_False by (injection 1 as E; by apply (Hlp lp)). done.
  - exists ids, f, T. rewrite Es, Ee. split_and!; try done; try lia. destruct (fl_start f <? lo) eqn:El; to_prop.
    + by rewrite decide_True.
    + rewrite decide_False; [lia|]. intros E. by apply (Hlp p E).
Qed.

(** The step at a lock of another type. *)
Lemma scan_A_diff s P Q o lo hi t c0 added lft idD p ids D f T fuel :
  scan_A_pre s P Q o lo hi t c0 added lft idD (p :: ids) D (f :: T) → request o lo hi t c0 →
  (length ids < fuel)%nat → fl_type f ≠ t →
  step_A s P Q o lo hi t c0 lft fuel idD p ids D f T
    (posix_scan (S fuel) (MkScan (length (P ++ idD)) 0 added lft None) s).
Proof.
  intros Hpre Hrq Hfuel Htf. pose proof Hpre as [Hl Hnd HQ Hoth Hc0 HD HT Hok Hleft Ha Hj].
  pose proof Hrq as [Ho Ht Es Ee [Hr1 Hr2] _ _]. apply seg_cons_inv in HT as [Hp HT].
  pose proof Hok as (_ & Hokf & Hlt)%own_ok_app.
  pose proof (own_ok_cons _ _ _ Hokf) as ([Hf1 Hf2] & Hof & Hab & _ & _).
  assert (i_flock s !! length (P ++ idD) = Some p) as Hat by (rewrite Hl, app_assoc; by apply list_lookup_middle).
  assert (fl_owner c0 = fl_owner f) as Hoo by congruence.
  assert (fl_type c0 ≠ fl_type f) as Htne by congruence.
  assert (lft ≠ None → lo ≤ fl_start f) as Hlft.
  { intros Hne. destruct lft as [lp|]; [|done]. cbn [left_ok] in Hleft. rewrite decide_False in Hleft by done.
    destruct Hleft as (? & D1 & l & _ & -> & _ & ? & _). pose proof (Hlt l f ltac:(set_solver) ltac:(set_solver)). lia. }
  destruct (decide (fl_end f < lo)) as [Hskip|Hskip].
  { left. destruct (left_ok_skip lft lo hi c0 idD p D f T o) as [-> Hleft']; [done..|].
    exists added, None. split; [by eapply next_A|]. rewrite length_snoc'.
    eapply (scan_skip _ _ _ _ _ _ _ p f c0); try done. right. split; [done|lia]. }
  destruct (decide (hi < fl_start f)) as [Hstop|Hstop].
  { right; right. eexists _, s.
    split; [eapply (scan_stop _ _ _ _ _ _ _ p f c0); try done; right; split_and!; [done|lia..]|].
    eapply stay_A; try done.
    - intros Hun. by destruct added.
    - intros -> Hun. split; [|done]. destruct lft; [|done]. by destruct (Ha ltac:(done)).
    - constructor; [lia|]. eapply Forall_impl; [exact Hab|]. cbn. lia. }
  set (added' := added || (fl_type c0 =? F_UNLCK)).
  assert (t ≠ F_UNLCK → added' = false) as Ha1.
  { intros Hun. subst added'. rewrite Ht, (proj2 (Z.eqb_neq _ _) Hun). by destruct added. }
  assert (t = F_UNLCK → added' = true) as Ha2.
  { intros ->. subst added'. rewrite Ht. apply orb_true_r. }
  destruct (decide (hi < fl_end f)) as [Hright|Hright].
  { right; right. eexists _, s. split; [eapply (scan_right _ _ _ _ _ _ _ p f c0); try done; lia|].
    rewrite Es. eapply stay_right; try done; lia. }
  destruct (decide (fl_start f < lo)) as [Hl'|Hl'].
  { left. exists added', (Some p). split.
    - eapply next_A; [done| |by destruct (decide (t = F_UNLCK)) as [?|?]; [rewrite Ha2|rewrite Ha1]].
      cbn [left_ok]. rewrite decide_False by done. exists idD, D, f. rewrite Es. split_and!; try done; try lia.
      destruct lft as [lp|]; [exfalso; specialize (Hlft ltac:(done)); lia|]. cbn [left_ok] in Hleft. by rewrite Es in Hleft.
    - rewrite length_snoc'. eapply (scan_left _ _ _ _ _ _ _ p f c0); try done; lia. }
  destruct (decide (t = F_UNLCK)) as [->|Hun].
  { right; left. split_and!; try lia. eapply (scan_delete _ _ _ _ _ _ _ p f c0); try done; try lia. }
  right; right. rewrite (scan_replace _ _ _ _ _ _ _ p f c0); try done; try lia; [|by apply Ha1].
  rewrite Es, Ee, Ht. set (c1 := f <| fl_waiters := _ |> <| fl_start := _ |> <| fl_end := _ |> <| fl_type := _ |>).
  destruct (replace_caller_in o lo hi t c0 f T c1 Hrq Hokf) as [Hci Hout]; [lia|lia|done|].
  eapply enter_B; try done.
  - intros q Hq1 Hq2. cbn. by apply lookup_insert_ne.
  - cbn. by rewrite lookup_insert_eq.
  - intros ->. subst c1. cbn. cbn [left_ok] in Hleft. by rewrite Es in Hleft.
Qed.

Lemma scan_A T idT fuel s P Q o lo hi t c0 added lft idD D :
  scan_A_pre s P Q o lo hi t c0 added lft idD idT D T → request o lo hi t c0 → (length idT < fuel)%nat →
  ∃ v s', posix_scan fuel (MkScan (length (P ++ idD)) 0 added lft None) s = Ret v s' ∧
    scan_post s P Q o lo hi t c0 (idD ++ idT) (D ++ T) v s'.
Proof.
  intros Hpre Hrq Hfuel. revert idT fuel s added lft idD D Hpre Hfuel.
  induction T as [|f T IH]; intros idT fuel s added lft idD D Hpre Hfuel; pose proof Hpre as [Hl _ _ Hoth Hc HD HT _ Hleft Ha _].
  { assert (idT = []) as -> by (apply nil_length_inv; by rewrite (seg_length _ _ _ HT)).
    destruct fuel as [|fuel]; [lia|]. eexists _, s. split.
    - eapply (scan_at_other fuel (P ++ idD) Q _ s c0 o); try done; [by rewrite Hl, <-app_assoc|apply Hrq].
    - eapply stay_A; try done; [by intros; destruct added| |constructor].
      intros -> Hun. split; [|done]. destruct lft; [|done]. by destruct (Ha ltac:(done)). }
  destruct idT as [|p ids]; [by apply seg_length in HT|]. destruct fuel as [|fuel]; [lia|]. cbn [length] in Hfuel.
  assert (step_A s P Q o lo hi t c0 lft fuel idD p ids D f T
    (posix_scan (S fuel) (MkScan (length (P ++ idD)) 0 added lft None) s)) as [(a' & l' & Hpre' & ->)|[(Hun & H1 & H2 & ->)|Hdone]].
  { destruct (decide (fl_type f = t)); [eapply scan_A_same|eapply scan_A_diff]; try done; lia. }
  - destruct (IH ids fuel s a' l' (idD ++ [p]) (D ++ [f]) Hpre') as (v & s' & E & Hpost); [lia|].
    rewrite <-!app_assoc in Hpost. by exists v, s'.
  - destruct (IH ids fuel _ true lft idD D (delete_A _ _ _ _ _ _ _ _ _ _ _ _ _ _ _ _ Hpre Hun)) as (v & s' & E & Hpost); [lia|].
    exists v, s'. split; [done|]. eapply scan_post_delete; [done|done| |exact Hpost]. intros q Hq. cbn. by apply lookup_delete_ne.
  - exact Hdone.
Qed.

(** ** After the loop *)

(** The owner's part of the inode's list, between [P] and [Q]. *)
Record view (s : lks) (P Q ids : list Z) (ls : list file_lock) : Prop := {
  vw_list : i_flock s = P ++ ids ++ Q;
  vw_seg : seg (store s) ids ls;
  vw_nodup : NoDup (0 :: ids);
}.

Lemma seg_split st a b A B :
  length a = length A → seg st (a ++ b) (A ++ B) → seg st a A ∧ seg st b B.
Proof. intros Hl Hs. by apply Forall2_app_inv in Hs. Qed.

Lemma view_insert s P Q a b A B n x l :
  view s P Q (a ++ b) (A ++ B) → length a = length A → store s !! x = Some l → n ∉ 0 :: a ++ b →
  ∃ s', (locks_init_lock n x ;; locks_insert_lock (length (P ++ a)) n) s = Ret tt s' ∧
    view s' P Q (a ++ n :: b) (A ++ l <| fl_waiters := [] |> :: B) ∧
    (∀ q, q ≠ n → store s' !! q = store s !! q).
Proof.
  intros [Hl Hseg Hnd] Hlen Hx Hn. apply seg_split in Hseg as [H1 H2]; [|done].
  unfold locks_init_lock, locks_insert_lock, ldl, modify, mbind, M_bind. rewrite Hx.
  eexists. split; [reflexivity|]. split; [split; cbn|].
  - unfold insert_at. replace (i_flock s) with ((P ++ a) ++ b ++ Q) by (by rewrite Hl, <-!app_assoc).
    by rewrite take_app_length, drop_app_length, <-!app_assoc.
  - apply seg_app; [|constructor; [by rewrite lookup_insert_eq|]];
      (eapply seg_frame; [|done]); intros q Hq; apply lookup_insert_ne; set_solver.
  - rewrite NoDup_cons, NoDup_app in *. rewrite NoDup_cons. set_solver.
  - intros q Hq. cbn. by apply lookup_insert_ne.
Qed.

Lemma view_trim s P Q a p b A l B g :
  view s P Q (a ++ p :: b) (A ++ l :: B) → length a = length A →
  ∃ s', (stl p g ;; locks_wake_up_blocks p) s = Ret tt s' ∧
    view s' P Q (a ++ p :: b) (A ++ (g l) <| fl_waiters := [] |> :: B) ∧
    (∀ q, q ≠ p → store s' !! q = store s !! q).
Proof.
  intros [Hl Hseg Hnd] Hlen. apply seg_split in Hseg as [H1 [H2 H3]%seg_cons_inv]; [|done].
  unfold locks_wake_up_blocks, stl, modify, mbind, M_bind. eexists. split; [reflexivity|].
  assert (p ∉ a ∧ p ∉ b) as [Hpa Hpb] by (rewrite NoDup_cons, NoDup_app, NoDup_cons in Hnd; set_solver).
  split; [split; [done|cbn|done]|].
  - apply seg_app; [|constructor; [by rewrite !lookup_alter_eq, H2|]];
      (eapply seg_frame; [|done]); intros q Hq; rewrite !lookup_alter_ne by set_solver; done.
  - intros q Hq. cbn. by rewrite !lookup_alter_ne.
Qed.

(** What is left of the locks on the two sides of [lo, hi], for a request that
    became the lock [c]. *)
Record sides (o lo hi : Z) (c : file_lock) (D T LD RT : list file_lock) : Prop := {
  sd_left : own_ok o LD;
  sd_right : own_ok o RT;
  sd_below : below (fl_start c) LD;
  sd_above : above (fl_end c) RT;
  sd_holds : ∀ b t', ¬ (lo ≤ b ≤ hi) → holds (D ++ T) t' b ↔ holds (LD ++ RT) t' b;
}.

Definition trimL (x : Z) (l : file_lock) : file_lock := l <| fl_end := x |> <| fl_waiters := [] |>.
Definition trimR (x : Z) (l : file_lock) : file_lock := l <| fl_start := x |> <| fl_waiters := [] |>.

(** What [trim_left] makes of the locks in front. *)
Definition cut_left (lft : option Z) (c : file_lock) (ids : list Z) (D LD : list file_lock) : Prop :=
  match lft with
  | None => LD = D
  | Some lp => ∃ ids1 D1 l, ids = ids1 ++ [lp] ∧ D = D1 ++ [l] ∧ LD = D1 ++ [trimL (fl_start c - 1) l]
  end.

Lemma own_ok_one o l : range_ok l → fl_owner l = o → posix_flags (fl_flags l) → fl_type l ∈ [F_RDLCK; F_WRLCK] → own_ok o [l].
Proof. intros. split; [by repeat constructor|by apply Forall_singleton..]. Qed.

Lemma own_ok_head o l l' T :
  own_ok o (l :: T) → fl_owner l' = fl_owner l → fl_flags l' = fl_flags l → fl_type l' = fl_type l →
  fl_end l' = fl_end l → fl_start l ≤ fl_start l' ≤ fl_end l' → own_ok o (l' :: T).
Proof.
  intros [Hs Hr Ho Hp] E1 E2 E3 E4 Hst. apply Forall_cons in Hr as [[? ?] ?], Ho as [? ?], Hp as [? ?].
  apply StronglySorted_inv in Hs as [? Ha]. split; constructor; try done; try congruence.
  - unfold before_lock in *. by rewrite E4.
  - unfold range_ok. rewrite E4 in *. lia.
Qed.

Lemma own_ok_last o l l' D :
  own_ok o (D ++ [l]) → fl_owner l' = fl_owner l → fl_flags l' = fl_flags l → fl_type l' = fl_type l →
  fl_start l' = fl_start l → fl_start l ≤ fl_end l' ≤ fl_end l → own_ok o (D ++ [l']).
Proof.
  intros (H1 & H2 & H3)%own_ok_app E1 E2 E3 E4 He.
  pose proof (oo_posix _ _ H2) as [[? ?] _]%Forall_cons.
  apply own_ok_cons in H2 as ([? ?] & Ho & _). apply own_ok_app. split_and!; [done| |].
  - apply own_ok_one; [unfold range_ok; lia|congruence..|]. by rewrite E3.
  - intros a b Ha ->%list_elem_of_singleton. rewrite E4. apply H3; set_solver.
Qed.

Definition cut_right (rgt : option Z) (c : file_lock) (T : list file_lock) : list file_lock :=
  match rgt, T with
  | Some _, r :: T1 => trimR (fl_end c + 1) r :: T1
  | _, _ => T
  end.

Lemma left_part lft o lo hi c idD D :
  left_ok lft None lo hi c idD D → own_ok o D →
  ∃ LD, cut_left lft c idD D LD ∧ own_ok o LD ∧ below (fl_start c) LD ∧
    (∀ b t', ¬ (lo ≤ b ≤ hi) → holds D t' b ↔ holds LD t' b).
Proof.
  intros Hleft Hok. destruct lft as [lp|]; cbn [left_ok] in Hleft; [|by exists D].
  rewrite decide_False in Hleft by done. destruct Hleft as (ids1 & D1 & l & -> & -> & Hb & Hl & Hhi & Elo).
  exists (D1 ++ [trimL (fl_start c - 1) l]). split_and!.
  - by exists ids1, D1, l.
  - eapply own_ok_last; [done..|cbn; lia].
  - apply below_app. split; [done|]. apply Forall_singleton. cbn. lia.
  - intros b t' Hb'. rewrite !holds_app, !holds_cons. unfold cover. cbn. pose proof (holds_nil t' b).
    split; (intros [?|[[? ?]|?]]; [tauto| |tauto]); right; left; split; try done; lia.
Qed.

Lemma right_part lft rgt o lo hi t c idT T :
  right_ok' lft rgt lo hi t c idT T → (lft = rgt → rgt = None) → own_ok o T →
  own_ok o (cut_right rgt c T) ∧ above (fl_end c) (cut_right rgt c T) ∧
  (∀ b t', ¬ (lo ≤ b ≤ hi) → holds T t' b ↔ holds (cut_right rgt c T) t' b).
Proof.
  intros Hright Hne Hok. destruct rgt as [rp|]; [|done].
  destruct Hright as (ids1 & r & T1 & -> & -> & Hr & Ehi & _ & Hd). cbn [cut_right].
  rewrite decide_False in Hd by naive_solver. pose proof (own_ok_cons _ _ _ Hok) as (_ & _ & Hab & _). split_and!.
  - eapply own_ok_head; [done..|cbn; lia].
  - constructor; [cbn; lia|]. eapply Forall_impl; [exact Hab|]. cbn. lia.
  - intros b t' Hb. rewrite !holds_cons. unfold cover. cbn.
    split; (intros [[? ?]|?]; [left; split; [lia|done]|tauto]).
Qed.

(** The request lies inside one lock, which it splits. *)
Lemma split_part o lo hi c D r T :
  own_ok o D → own_ok o (r :: T) → (∀ a, a ∈ D → fl_end a < fl_start r) →
  fl_start r < fl_start c → fl_start c ≤ fl_end c → fl_end c < fl_end r → fl_start c = lo → fl_end c = hi →
  sides o lo hi c D (r :: T) (D ++ [trimL (fl_start c - 1) r]) (trimR (fl_end c + 1) r :: T).
Proof.
  intros HD Hr Hlt H1 H2 H3 Elo Ehi. pose proof (own_ok_cons _ _ _ Hr) as ([? ?] & ? & Hab & _ & ?). split.
  - eapply (own_ok_last o r); try done; [|cbn; lia].
    pose proof (oo_posix _ _ Hr) as [[? ?] _]%Forall_cons. apply own_ok_app. split_and!; [done|by apply own_ok_one|].
    intros a b Ha ->%list_elem_of_singleton. by apply Hlt.
  - eapply own_ok_head; [done..|cbn; lia].
  - apply below_app. split; [|apply Forall_singleton; cbn; lia].
    apply Forall_forall. intros a Ha. specialize (Hlt a Ha). lia.
  - constructor; [cbn; lia|]. eapply Forall_impl; [exact Hab|]. cbn. lia.
  - intros b t' Hb. rewrite !holds_app, !holds_cons. unfold cover. cbn. pose proof (holds_nil t' b).
    split; [|intros [[?|[[? ?]|?]]|[[? ?]|?]]; try tauto; right; left; split; try done; lia].
    intros [?|[[? ?]|?]]; [tauto| |tauto]. destruct (decide (b < lo)); [left; right; left|right; left]; split; try done; lia.
Qed.

Lemma sides_apart o lo hi t lft rgt c idD idT D T LD :
  own_ok o D → own_ok o T → (lft = rgt → rgt = None) →
  right_ok' lft rgt lo hi t c idT T → own_ok o LD → below (fl_start c) LD →
  (∀ b t', ¬ (lo ≤ b ≤ hi) → holds D t' b ↔ holds LD t' b) →
  cut_left lft c idD D LD → sides o lo hi c D T LD (cut_right rgt c T).
Proof.
  intros HD HT Hne Hr H1 H2 H3 Hcut. destruct (right_part lft rgt o lo hi t c idT T Hr Hne HT) as (H4 & H5 & H6).
  split; try done. intros b t' Hb. rewrite !holds_app, H3, H6 by done. done.
Qed.

(** The lock of the request in the list, if it is one that sets a lock. *)
Definition own_part (o lo hi t : Z) (c : file_lock) (X : list file_lock) : Prop :=
  (X = [] ∧ t = F_UNLCK ∧ fl_start c = lo ∧ fl_end c = hi) ∨
  ∃ x, X = [x] ∧ t ∈ [F_RDLCK; F_WRLCK] ∧ fl_start x = fl_start c ∧ fl_end x = fl_end c ∧ fl_owner x = o ∧ fl_type x = t ∧
    posix_flags (fl_flags x).

Lemma below_holds x ls t b : below x ls → x ≤ b → ¬ holds ls t b.
Proof. intros Hb Hx (l & Hl & [_ Hc] & _). pose proof (proj1 (Forall_forall _ _) Hb l Hl). cbn in *. lia. Qed.

Lemma above_holds x ls t b : above x ls → b ≤ x → ¬ holds ls t b.
Proof. intros Hb Hx (l & Hl & [Hc _] & _). pose proof (proj1 (Forall_forall _ _) Hb l Hl). cbn in *. lia. Qed.

Lemma unlck_ne t : t ∈ [F_RDLCK; F_WRLCK] → t ≠ F_UNLCK.
Proof. unfold F_RDLCK, F_WRLCK, F_UNLCK. set_solver. Qed.

Lemma final_own_ok o lo hi t c D T LD RT X :
  sides o lo hi c D T LD RT → own_part o lo hi t c X → range_ok c → own_ok o (LD ++ X ++ RT).
Proof.
  intros [HL HR Hb Ha _] HX Hc. unfold below, above in *. rewrite Forall_forall in Hb, Ha.
  assert (own_ok o X) as HokX.
  { destruct HX as [[-> _]|(x & -> & Ht & Es & Ee & Ho & Et & Hf)]; [split; constructor|].
    apply own_ok_one; [|done|done|congruence]. unfold range_ok. by rewrite Es, Ee. }
  assert (∀ x, x ∈ X → fl_start x = fl_start c ∧ fl_end x = fl_end c) as HXr.
  { destruct HX as [[-> _]|(x & -> & Ht & Es & Ee & Ho & Et & Hf)]; set_solver. }
  destruct Hc as [Hc _]. rewrite !own_ok_app. split_and!; try done.
  - intros x r Hx Hr. destruct (HXr x Hx) as [_ ->]. by apply Ha.
  - intros l r Hl [Hr|Hr]%elem_of_app.
    + destruct (HXr r Hr) as [-> _]. by apply Hb.
    + pose proof (Hb l Hl). pose proof (Ha r Hr). cbn in *. lia.
Qed.

Lemma final_holds o lo hi t c D T LD RT X inl :
  sides o lo hi c D T LD RT → own_part o lo hi t c X → fl_start c ≤ lo → hi ≤ fl_end c →
  (if inl : bool then X = [c] else fl_start c = lo ∧ fl_end c = hi) → ∀ b t',
  holds (LD ++ X ++ RT) t' b ↔
    if decide (lo ≤ b ≤ hi) then t' = t ∧ t ≠ F_UNLCK else holds (D ++ one inl c ++ T) t' b.
Proof.
  intros [HL HR Hb Ha Hh] HX Hs He Hinl b t'. destruct (decide _) as [Hin|Hout].
  - rewrite !holds_app. pose proof (below_holds _ _ t' b Hb ltac:(lia)). pose proof (above_holds _ _ t' b Ha ltac:(lia)).
    pose proof (holds_nil t' b). destruct HX as [(-> & Ht & _)|(x & -> & Ht%unlck_ne & Es & Ee & _ & Et & _)]; [naive_solver|].
    rewrite holds_cons. unfold cover. rewrite Es, Ee, Et. split; [naive_solver|]. intros [-> _]. right; left; left. split; [lia|done].
  - specialize (Hh b t' Hout). rewrite !holds_app in *. destruct inl; cbn [one].
    { subst X. tauto. }
    assert (¬ holds X t' b); [|pose proof (holds_nil t' b); tauto].
    destruct HX as [(-> & _)|(x & -> & _ & Es & Ee & _)]; [apply holds_nil|]. rewrite holds_cons. unfold cover.
    pose proof (holds_nil t' b). intros [[? _]|?]; [lia|done].
Qed.

Lemma trim_left_spec s P Q idD idR D R LD lft c caller c' :
  view s P Q (idD ++ idR) (D ++ R) → length idD = length D → cut_left lft c idD D LD →
  store s !! caller = Some c' → fl_start c' = fl_start c → 0 ≤ fl_start c ≤ OFFSET_MAX →
  ∃ s', trim_left caller lft s = Ret tt s' ∧ view s' P Q (idD ++ idR) (LD ++ R) ∧
    (∀ q, q ∉ idD → store s' !! q = store s !! q).
Proof.
  intros Hv Hlen Hcut Hc Es Hr. destruct lft as [lp|]; cbn [cut_left] in Hcut; [|subst LD; by exists s].
  destruct Hcut as (ids1 & D1 & l & -> & -> & ->). rewrite !length_app in Hlen. cbn in Hlen.
  rewrite <-!app_assoc in Hv. cbn in Hv.
  destruct (view_trim _ _ _ _ _ _ _ _ _ (λ x, x <| fl_end := s32 (fl_start c' - 1) |>) Hv ltac:(lia)) as (s' & E & Hv' & Hf).
  exists s'. split_and!.
  - cbn [trim_left]. unfold mbind at 1, M_bind at 1, ldl. rewrite Hc. exact E.
  - rewrite <-!app_assoc. cbn. rewrite Es, s32_id in Hv' by (unfold OFFSET_MAX in Hr; lia). exact Hv'.
  - intros q Hq. apply Hf. set_solver.
Qed.

(** The outcome of [trim_right]: the locks behind are cut, and [trim_left] is
    left to cut those in front. *)
Definition right_post (s : lks) (P Q xs idD idT : list Z) (n2 caller o lo hi : Z) (c : file_lock)
    (X D T RT : list file_lock) (m : out lks (option Z)) : Prop :=
  ∃ lft' s' idD' D' LD, m = Ret lft' s' ∧ view s' P Q (idD' ++ xs ++ idT) (D' ++ X ++ RT) ∧
    length idD' = length D' ∧ cut_left lft' c idD' D' LD ∧ sides o lo hi c D T LD RT ∧
    store s' !! caller = Some c ∧ idD' ⊆ n2 :: idD ∧ (∀ q, q ∉ n2 :: idT → store s' !! q = store s !! q).

Lemma trim_right_some n2 before caller lft r s c :
  store s !! caller = Some c → lft ≠ Some r →
  trim_right n2 before caller lft (Some r) s =
    ((stl r (λ l, l <| fl_start := s32 (fl_end c + 1) |>) ;; locks_wake_up_blocks r) ;; mret lft) s.
Proof.
  intros Hc Hne. cbn [trim_right]. rewrite bool_decide_eq_false_2 by done.
  unfold mbind, M_bind, mret, M_ret, ldl. by rewrite Hc.
Qed.

Lemma trim_right_apart s P Q xs idD idT n2 before caller lft rgt o lo hi t c X D T :
  view s P Q (idD ++ xs ++ idT) (D ++ X ++ T) → length idD = length D → length xs = length X →
  store s !! caller = Some c → caller ∉ idT → range_ok c → own_ok o D → own_ok o T →
  (lft = rgt → rgt = None) → left_ok lft rgt lo hi c idD D → right_ok' lft rgt lo hi t c idT T →
  right_post s P Q xs idD idT n2 caller o lo hi c X D T (cut_right rgt c T)
    (trim_right n2 before caller lft rgt s).
Proof.
  intros Hv Hl1 Hl2 Hc Hct [Hr1 Hr2] HD HT Hne Hleft Hright.
  assert (left_ok lft None lo hi c idD D) as Hleft'.
  { destruct lft as [lp|]; [|done]. cbn [left_ok] in *. rewrite decide_False in Hleft by naive_solver. by rewrite decide_False. }
  destruct (left_part lft o lo hi c idD D Hleft' HD) as (LD & Hcut & H1 & H2 & H3).
  assert (sides o lo hi c D T LD (cut_right rgt c T)) as Hsd by (by eapply sides_apart).
  destruct rgt as [r|]; [|by exists lft, s, idD, D, LD; split_and!; try done; set_solver].
  pose proof Hright as (ids1 & f & T1 & -> & -> & Hf & _). cbn [cut_right] in *.
  rewrite (trim_right_some _ _ _ _ _ _ c) by naive_solver. rewrite !app_assoc in Hv.
  destruct (view_trim _ _ _ _ _ _ _ _ _ (λ x, x <| fl_start := s32 (fl_end c + 1) |>) Hv) as (s' & E & Hv' & Hfr).
  { rewrite !length_app. lia. }
  exists lft, s', idD, D, LD. unfold mbind at 1, M_bind at 1. rewrite E. split_and!; try done.
  - rewrite !app_assoc. pose proof (own_ok_cons _ _ _ HT) as ([_ ?] & _).
    unfold trimR. rewrite s32_id in Hv' by (unfold OFFSET_MAX in *; lia). exact Hv'.
  - rewrite Hfr by set_solver. done.
  - set_solver.
  - intros q Hq. apply Hfr. set_solver.
Qed.

Lemma trim_right_split s P Q xs idD idT n2 caller r o lo hi t c X D T :
  view s P Q (idD ++ xs ++ idT) (D ++ X ++ T) → length idD = length D → length xs = length X →
  store s !! caller = Some c → caller ∉ n2 :: idT → n2 ∉ 0 :: idD ++ xs ++ idT → range_ok c → own_ok o D → own_ok o T →
  (∀ a b, a ∈ D → b ∈ T → fl_end a < fl_start b) → right_ok' (Some r) (Some r) lo hi t c idT T →
  right_post s P Q xs idD idT n2 caller o lo hi c X D T (cut_right (Some r) c T)
    (trim_right n2 (length (P ++ idD)) caller (Some r) (Some r) s).
Proof.
  intros Hv Hl1 Hl2 Hc Hct Hn2 [Hr1 Hr2] HD HT Hlt (ids1 & f & T1 & -> & -> & Hf & Ehi & _ & Hd).
  rewrite decide_True in Hd by done. cbn [cut_right].
  assert (store s !! r = Some f) as Hr.
  { pose proof (vw_seg _ _ _ _ _ Hv) as Hseg. rewrite !app_assoc in Hseg.
    apply seg_split in Hseg as [_ [? _]%seg_cons_inv]; [done|rewrite !length_app; lia]. }
  destruct (view_insert _ _ _ _ _ _ _ n2 r f Hv Hl1 Hr Hn2) as (s1 & E1 & Hv1 & Hfr1).
  set (f' := f <| fl_waiters := [] |>) in *.
  replace (idD ++ n2 :: xs ++ r :: ids1) with (((idD ++ [n2]) ++ xs) ++ r :: ids1) in Hv1 by (by rewrite <-!app_assoc).
  replace (D ++ f' :: X ++ f :: T1) with (((D ++ [f']) ++ X) ++ f :: T1) in Hv1 by (by rewrite <-!app_assoc).
  destruct (view_trim _ _ _ _ _ _ _ _ _ (λ x, x <| fl_start := s32 (fl_end c + 1) |>) Hv1) as (s' & E & Hv' & Hfr).
  { rewrite !length_app. cbn. lia. }
  assert (store s1 !! caller = Some c) as Hc1 by (rewrite Hfr1 by set_solver; done).
  pose proof (own_ok_cons _ _ _ HT) as ([_ ?] & _).
  eexists (Some n2), s', (idD ++ [n2]), (D ++ [f']), (D ++ [trimL (fl_start c - 1) f]). split_and!.
  - cbn [trim_right]. rewrite bool_decide_eq_true_2 by done. revert E1 E.
    unfold mbind, M_bind, mret, M_ret, ldl. destruct (locks_init_lock n2 r s) as [[] sa|]; [|done]. intros -> E. rewrite Hc1.
    revert E. destruct (stl r _ s1) as [[] sb|]; [|done]. by intros ->.
  - unfold trimR. rewrite s32_id in Hv' by (unfold OFFSET_MAX in *; lia). rewrite !app_assoc. exact Hv'.
  - rewrite !length_app. cbn. lia.
  - by exists idD, D, f'.
  - apply split_part; try done; try lia. intros a Ha. apply Hlt; set_solver.
  - rewrite Hfr by set_solver. done.
  - set_solver.
  - intros q Hq. rewrite Hfr, Hfr1 by set_solver. done.
Qed.

(** The list with the lock of the request in it. *)
Lemma finish_insert s P Q o lo hi t c0 v inl idD D c idT T n1 :
  view s P Q (idD ++ one inl (sc_caller v) ++ idT) (D ++ one inl c ++ T) → length idD = length D →
  sc_before v = length (P ++ idD ++ one inl (sc_caller v)) → store s !! sc_caller v = Some c →
  caller_after o lo hi t c0 v inl c → request o lo hi t c0 →
  ¬ (sc_added v = false ∧ t = F_UNLCK) → n1 ∉ 0 :: idD ++ one inl (sc_caller v) ++ idT →
  ∃ s1 xs X, when (negb (sc_added v)) (locks_init_lock n1 (sc_caller v) ;; locks_insert_lock (sc_before v) n1) s = Ret tt s1 ∧
    view s1 P Q (idD ++ xs ++ idT) (D ++ X ++ T) ∧ length xs = length X ∧ own_part o lo hi t c X ∧
    (if inl then X = [c] else fl_start c = lo ∧ fl_end c = hi) ∧ xs ⊆ n1 :: one inl (sc_caller v) ∧
    (∀ q, q ≠ n1 → store s1 !! q = store s !! q).
Proof.
  intros Hv Hlen Hb Hc Hca [Ho Ht Es Ee Hr Hpx Hty] Hna Hn1.
  assert (t ≠ F_UNLCK → t ∈ [F_RDLCK; F_WRLCK]) as Hty' by set_solver.
  destruct inl; cbn [one caller_after] in *.
  - destruct Hca as (-> & Hun & ? & ? & ? & ? & ? & ? & ?). exists s, [sc_caller v], [c]. split_and!; try done.
    + right. exists c. by split_and!; try apply Hty'.
    + set_solver.
  - destruct Hca as (E0 & -> & Ha & _). cbn in *. rewrite app_nil_r in Hb. destruct (sc_added v) eqn:Ead.
    + exists s, [], []. split_and!; try done; [left; split_and!; try done|set_solver].
      destruct (decide (t = F_UNLCK)) as [?|Hun]; [done|]. by specialize (Ha Hun).
    + rewrite Hb. destruct (view_insert _ _ _ _ _ _ _ n1 _ _ Hv Hlen Hc Hn1) as (s1 & E1 & Hv1 & Hf1).
      exists s1, [n1], [c0 <| fl_waiters := [] |>]. split_and!; try done.
      right. eexists. by split_and!; try apply Hty'; try naive_solver.
Qed.

(** The caller's lock covers the request. *)
Lemma caller_range o lo hi t c0 v inl c :
  caller_after o lo hi t c0 v inl c → request o lo hi t c0 →
  range_ok c ∧ fl_start c ≤ lo ∧ hi ≤ fl_end c ∧ (fl_type c = t).
Proof. destruct inl; intros Hca [Ho Ht Es Ee Hr _ _]; cbn in Hca; [naive_solver|]. destruct Hca as (_ & -> & _). split_and!; try done; lia. Qed.

(** Nothing to unlock. *)
Lemma finish_nothing s P Q o lo hi t c0 v idD D idT T n1 n2 :
  view s P Q (idD ++ idT) (D ++ T) → own_ok o D → own_ok o T → (∀ a b, a ∈ D → b ∈ T → fl_end a < fl_start b) →
  request o lo hi t c0 → store s !! sc_caller v = Some c0 → sc_added v = false → t = F_UNLCK →
  below (fl_start c0) D → above (fl_end c0) T →
  posix_finish n1 n2 v s = Ret 0 s ∧ own_ok o (D ++ T) ∧
  (∀ b t', holds (D ++ T) t' b ↔ if decide (lo ≤ b ≤ hi) then t' = t ∧ t ≠ F_UNLCK else holds (D ++ T) t' b).
Proof.
  intros Hv HD HT Hlt [Ho Ht Es Ee Hr _ _] Hc Ha Hun Hb Hab. split_and!.
  - destruct v as [before caller added lft rgt]. cbn in *. unfold mbind, M_bind, ldl. rewrite Hc, Ha, Ht, Hun. done.
  - by apply own_ok_app.
  - apply (final_holds o lo hi t c0 D T D T [] false); try done; try lia.
    left. split_and!; congruence.
Qed.

(** Cutting the locks on both sides. *)
Lemma finish_trim s P Q o lo hi t v c xs idD idT X D T n2 :
  view s P Q (idD ++ xs ++ idT) (D ++ X ++ T) → length idD = length D → length xs = length X →
  store s !! sc_caller v = Some c → sc_caller v ∉ n2 :: idT → n2 ∉ 0 :: idD ++ xs ++ idT → range_ok c →
  own_ok o D → own_ok o T → left_ok (sc_left v) (sc_right v) lo hi c idD D →
  right_ok' (sc_left v) (sc_right v) lo hi t c idT T →
  (sc_left v = sc_right v → sc_right v = None) ∨
    (sc_before v = length (P ++ idD) ∧ ∀ a b, a ∈ D → b ∈ T → fl_end a < fl_start b) →
  ∃ s' idD' LD RT, (lft ← trim_right n2 (sc_before v) (sc_caller v) (sc_left v) (sc_right v);
      trim_left (sc_caller v) lft ;; mret 0) s = Ret 0 s' ∧
    view s' P Q (idD' ++ xs ++ idT) (LD ++ X ++ RT) ∧ sides o lo hi c D T LD RT ∧ idD' ⊆ n2 :: idD ∧
    (∀ q, q ∉ n2 :: idD ++ idT → store s' !! q = store s !! q).
Proof.
  intros Hv Hl1 Hl2 Hc Hct Hn2 Hr HD HT Hleft Hright Hsplit.
  assert (right_post s P Q xs idD idT n2 (sc_caller v) o lo hi c X D T (cut_right (sc_right v) c T)
    (trim_right n2 (sc_before v) (sc_caller v) (sc_left v) (sc_right v) s))
    as (lft' & s1 & idD' & D' & LD & E & Hv' & Hl' & Hcut & Hsd & Hc' & Hsub & Hf).
  { destruct (decide (sc_left v = sc_right v → sc_right v = None)) as [Hne|Heq].
    - eapply trim_right_apart; try done. set_solver.
    - destruct Hsplit as [?|[-> Hlt]]; [done|]. destruct (sc_right v) as [r|] eqn:Er; [|destruct Heq; done].
      destruct (decide (sc_left v = Some r)) as [El|]; [|destruct Heq; done]. rewrite El in *. by eapply trim_right_split. }
  destruct (trim_left_spec s1 P Q idD' (xs ++ idT) D' (X ++ cut_right (sc_right v) c T) LD lft' c (sc_caller v) c)
    as (s2 & E2 & Hv2 & Hf2); try done; [unfold range_ok in Hr; lia|].
  eexists s2, idD', LD, _. split_and!; try done.
  - unfold mbind, M_bind. by rewrite E, E2.
  - intros q Hq. rewrite Hf2, Hf by set_solver. done.
Qed.

Lemma finish_spec s0 P Q o lo hi t c0 ids0 S v s n1 n2 :
  scan_post s0 P Q o lo hi t c0 ids0 S v s → request o lo hi t c0 → NoDup (0 :: ids0) →
  n1 ≠ n2 → n1 ∉ 0 :: ids0 → n2 ∉ 0 :: ids0 →
  ∃ s' ids' ls', posix_finish n1 n2 v s = Ret 0 s' ∧ view s' P Q ids' ls' ∧ own_ok o ls' ∧
    (∀ b t', holds ls' t' b ↔ if decide (lo ≤ b ≤ hi) then t' = t ∧ t ≠ F_UNLCK else holds S t' b) ∧
    ids' ⊆ n1 :: n2 :: ids0 ∧ (∀ q, q ≠ 0 → q ∉ n1 :: n2 :: ids0 → store s' !! q = store s0 !! q).
Proof.
  intros (inl & idD & D & c & idT & T & H1 & H2 & H3 & H4 & H5 & H6 & H7 & H8 & H9 & H10 & H11 & H12 & H13 & H14) Hrq Hnd Hn Hn1 Hn2.
  assert (NoDup (0 :: idD ++ one inl (sc_caller v) ++ idT)) as Hnd'.
  { eapply sublist_NoDup; [exact Hnd|]. by apply sublist_skip. }
  assert (∀ q, q ∈ idD ++ one inl (sc_caller v) ++ idT → q ∈ ids0) as Hsub.
  { intros q Hq. by eapply elem_of_sublist. }
  assert (view s P Q (idD ++ one inl (sc_caller v) ++ idT) (D ++ one inl c ++ T)) as Hv.
  { split; [|by repeat apply seg_app; [| |]; destruct inl; repeat constructor|done]. by rewrite H1, <-!app_assoc. }
  pose proof (caller_range _ _ _ _ _ _ _ _ H8 Hrq) as (Hrc & Hcl & Hch & Htc).
  assert (sc_caller v ∈ 0 :: ids0 ∧ sc_caller v ∉ idT) as [Hcal Hct].
  { clear -H8 Hnd' Hsub. rewrite NoDup_cons, !NoDup_app in Hnd'. destruct inl; cbn in *; [set_solver|].
    destruct H8 as (-> & _). set_solver. }
  destruct (decide (sc_added v = false ∧ t = F_UNLCK)) as [[Ha Hun]|Hna].
  - destruct inl; cbn in H8; [naive_solver|]. destruct H8 as (E0 & -> & _ & H8). destruct (H8 Ha Hun) as [El Er].
    rewrite El, Er in *. cbn in *.
    destruct (finish_nothing s P Q o lo hi t c0 v idD D idT T n1 n2) as (E & Hok & Hh); try done; [by apply H14|].
    exists s, (idD ++ idT), (D ++ T). split_and!; try done; [|clear -Hsub; set_solver|intros; apply H13; set_solver].
    intros b t'. rewrite Hh. destruct (decide _); [done|]. by rewrite H11.
  - destruct (finish_insert s P Q o lo hi t c0 v inl idD D c idT T n1) as (s1 & xs & X & E1 & Hv1 & Hlx & HX & Hinl & Hxs & Hf1);
      try done; [by eapply seg_length|clear -Hsub Hn1; set_solver|].
    destruct (finish_trim s1 P Q o lo hi t v c xs idD idT X D T n2) as (s2 & idD' & LD & RT & E2 & Hv2 & Hsd & Hsub2 & Hf2); try done.
    { by eapply seg_length. }
    { rewrite Hf1 by (clear -Hcal Hn1; set_solver). done. }
    { clear -Hcal Hct Hn2. set_solver. }
    { clear -Hsub Hxs Hn2 Hn. set_solver. }
    { destruct inl; [left|right]; cbn in H8; [naive_solver|]. rewrite H2. cbn. rewrite app_nil_r. split; [done|by apply H14]. }
    exists s2, (idD' ++ xs ++ idT), (LD ++ X ++ RT). split_and!; try done.
    + rewrite <-E2. destruct v as [before caller added lft rgt]. cbn in *. unfold mbind, M_bind, ldl in E1 |- *. rewrite H5.
      replace (negb added && (fl_type c =? F_UNLCK)) with false; [by rewrite E1|].
      rewrite Htc. symmetry. apply not_true_iff_false. intros Hb. to_prop. apply Hna. by destruct added.
    + by eapply final_own_ok.
    + intros b t'. rewrite (final_holds o lo hi t c D T LD RT X inl) by done. destruct (decide _); [done|]. by rewrite H11.
    + clear -Hsub Hsub2 Hxs. set_solver.
    + intros q Hq1 Hq2. rewrite Hf2, Hf1, H13 by (clear -Hq1 Hq2 Hsub; set_solver). done.
Qed.
