(* ===== verification/LocksSys.v ===== *)
(** * LocksSys: the record locks of a file, process by process

    The table of locks is what a process sees of a file: for each process and
    each byte, the lock it holds there.  [fcntl_setlk] and [locks_remove_locks]
    implement operations on that table.  The inode's list is kept as one run
    of locks for each process. *)

From stdpp Require Import gmap sorting relations.
From S2P Require Import Prelude Locks LocksFacts.

(** ** Specification *)

(** Process [o] has a lock of type [t] on byte [b]. *)
Definition held (s : lks) (o t b : Z) : Prop :=
  ∃ p l, p ∈ i_flock s ∧ store s !! p = Some l ∧ fl_owner l = o ∧ cover l b ∧ fl_type l = t.

(** The locks of one process in the list. *)
Record group := Grp { g_owner : Z; g_ids : list Z; g_locks : list file_lock }.

Definition group_ok (st : gmap Z file_lock) (g : group) : Prop :=
  seg st (g_ids g) (g_locks g) ∧ own_ok (g_owner g) (g_locks g).

Record lk_wf (s : lks) (gs : list group) : Prop := {
  lw_list : i_flock s = mjoin (g_ids <$> gs);
  lw_groups : Forall (group_ok (store s)) gs;
  lw_owners : NoDup (g_owner <$> gs);
  lw_nodup : NoDup (0 :: i_flock s);
}.

(** No process has a lock on a byte that another has a write lock on. *)
Definition exclusive (s : lks) : Prop :=
  ∀ o1 o2 t b, o1 ≠ o2 → held s o1 F_WRLCK b → ¬ held s o2 t b.

Definition lk_inv (s : lks) : Prop := (∃ gs, lk_wf s gs) ∧ exclusive s ∧ store s !! 0 = None.

(** Another process has a lock on the bytes that the request cannot share. *)
Definition conflicting (s : lks) (o lo hi t : Z) : Prop :=
  t ≠ F_UNLCK ∧ ∃ o' t' b, o' ≠ o ∧ lo ≤ b ≤ hi ∧ held s o' t' b ∧ (t = F_WRLCK ∨ t' = F_WRLCK).

(** The bytes of the request are set for its owner, and no others. *)
Definition sets (s s' : lks) (o lo hi t : Z) : Prop :=
  ∀ o' t' b, held s' o' t' b ↔
    if decide (o' = o ∧ lo ≤ b ≤ hi) then t' = t ∧ t ≠ F_UNLCK else held s o' t' b.

(** The end of the request plus one does not wrap, or is not looked at. *)
Definition in_reach (s : lks) (o lo hi t : Z) : Prop :=
  t ≠ F_UNLCK → hi < OFFSET_MAX ∨ ∀ b, lo - 1 ≤ b → ¬ held s o t b.

(** An address that [kmalloc] may return. *)
Definition fresh (s : lks) (n : Z) : Prop := n ≠ 0 ∧ store s !! n = None.

(** *** Waiting *)

(** Process [x] waits for a lock of [y]. *)
Definition waits (s : lks) (x y : Z) : Prop := blocked_on x (all_locks s) = Some y.

Definition acyclic (R : Z → Z → Prop) : Prop := ∀ x, ¬ tc R x x.

(** *** The table of locks *)

(** [filp] is the file of the descriptor, if it has one, [area] what
    [verify_area] returns, and [m1] and [m2] say whether the two calls of
    [kmalloc] succeed.  [kmalloc] may sleep, but nothing of the locks has been
    read before, so that what others do meanwhile is as if done before the call. *)
Inductive lop :=
  | SetLk (current : Z) (filp : option file) (area : Z) (l : flock) (m1 m2 : bool)
  | Close (task : Z) (filp : file).

Definition F_SETLK : Z := 6.

(** [n1] and [n2] are the addresses [kmalloc] returns where it succeeds. *)
Definition run_lop (n1 n2 : Z) (op : lop) : M lks Z :=
  match op with
  | SetLk current filp area l m1 m2 =>
      fcntl_setlk current filp area F_SETLK l (if m1 then Some n1 else None) (if m2 then Some n2 else None) [] false
  | Close task filp => locks_remove_locks task filp ;; mret 0
  end.

Definition lks_init : lks := MkLks ∅ [] [].

Definition table := Z → Z → option Z.

(** The file is open in the mode that the lock needs. *)
Definition may_lock (filp : file) (type : Z) : Prop :=
  type = F_UNLCK ∨ (type = F_RDLCK ∧ has (f_mode filp) 1 = true) ∨ (type = F_WRLCK ∧ has (f_mode filp) 2 = true) ∨
  (type ∈ [F_SHLCK; F_EXLCK] ∧ has (f_mode filp) 3 = true).

Definition tab_conflict (T : table) (o lo hi t : Z) : Prop :=
  t ≠ F_UNLCK ∧ ∃ o' t' b, o' ≠ o ∧ lo ≤ b ≤ hi ∧ T o' b = Some t' ∧ (t = F_WRLCK ∨ t' = F_WRLCK).

Definition tab_set (T : table) (o lo hi t : Z) : table := λ o' b,
  if decide (o' = o ∧ lo ≤ b ≤ hi) then (if decide (t = F_UNLCK) then None else Some t) else T o' b.

Definition mapped (filp : file) : bool := mandatory filp && i_mmap_shared filp.

Inductive tab_step (T : table) : lop → Z → table → Prop :=
  | ts_descriptor o area l m1 m2 : tab_step T (SetLk o None area l m1 m2) (- EBADF) T
  | ts_area o filp area l m1 m2 : area ≠ 0 → tab_step T (SetLk o (Some filp) area l m1 m2) area T
  | ts_mapped o filp l m1 m2 : mapped filp = true → tab_step T (SetLk o (Some filp) 0 l m1 m2) (- EAGAIN) T
  | ts_invalid o filp l m1 m2 :
      mapped filp = false → posix_make_lock o filp l = None → tab_step T (SetLk o (Some filp) 0 l m1 m2) (- EINVAL) T
  | ts_mode o filp l c m1 m2 :
      mapped filp = false → posix_make_lock o filp l = Some c → ¬ may_lock filp (l_type l) →
      tab_step T (SetLk o (Some filp) 0 l m1 m2) (- EBADF) T
  | ts_nomem o filp l c m1 m2 :
      mapped filp = false → posix_make_lock o filp l = Some c → may_lock filp (l_type l) → m1 && m2 = false →
      tab_step T (SetLk o (Some filp) 0 l m1 m2) (- ENOLCK) T
  | ts_conflict o filp l c :
      mapped filp = false → posix_make_lock o filp l = Some c → may_lock filp (l_type l) →
      tab_conflict T o (fl_start c) (fl_end c) (fl_type c) →
      tab_step T (SetLk o (Some filp) 0 l true true) (- EAGAIN) T
  | ts_set o filp l c :
      mapped filp = false → posix_make_lock o filp l = Some c → may_lock filp (l_type l) →
      ¬ tab_conflict T o (fl_start c) (fl_end c) (fl_type c) →
      tab_step T (SetLk o (Some filp) 0 l true true) 0 (tab_set T o (fl_start c) (fl_end c) (fl_type c))
  | ts_close task filp : tab_step T (Close task filp) 0 (λ o b, if decide (o = task) then None else T o b).

Inductive tab_run : table → list (lop * Z) → table → Prop :=
  | tr_nil T : tab_run T [] T
  | tr_cons T op r T1 tr T2 : tab_step T op r T1 → tab_run T1 tr T2 → tab_run T ((op, r) :: tr) T2.

(** The length is a machine integer, and the end plus one does not matter where
    it wraps: a lock to the end of the file is asked for only where the process
    has none of that type from the byte in front of it on. *)
Definition op_ok (s : lks) (op : lop) : Prop :=
  match op with
  | SetLk o filp _ l _ _ => l_len l ≤ OFFSET_MAX ∧
      ∀ f c, filp = Some f → posix_make_lock o f l = Some c → in_reach s o (fl_start c) (fl_end c) (fl_type c)
  | Close _ _ => True
  end.

Inductive lk_run : lks → list (lop * Z) → lks → Prop :=
  | lr_nil s : lk_run s [] s
  | lr_cons s n1 n2 op r s1 tr s2 :
      fresh s n1 → fresh s n2 → n1 ≠ n2 → op_ok s op → run_lop n1 n2 op s = Ret r s1 → lk_run s1 tr s2 →
      lk_run s ((op, r) :: tr) s2.

(** The table says who holds what. *)
Definition tab (s : lks) (T : table) : Prop := ∀ o t b, held s o t b ↔ T o b = Some t.

Definition tab_excl (T : table) : Prop :=
  ∀ o1 o2 b, o1 ≠ o2 → T o1 b = Some F_WRLCK → T o2 b = None.

(** ** Lemmas: the groups *)

Lemma group_member s gs p :
  lk_wf s gs → p ∈ i_flock s →
  ∃ g l, g ∈ gs ∧ p ∈ g_ids g ∧ l ∈ g_locks g ∧ store s !! p = Some l ∧ group_ok (store s) g ∧ fl_owner l = g_owner g.
Proof.
  intros [Hl Hg _ _] Hp. rewrite Hl in Hp. apply list_elem_of_join in Hp as (ids & Hp & Hids).
  apply list_elem_of_fmap in Hids as (g & -> & Hgs). pose proof (proj1 (Forall_forall _ _) Hg g Hgs) as [Hs Hok].
  apply list_elem_of_lookup in Hp as [i Hi]. destruct (Forall2_lookup_l _ _ _ _ _ Hs Hi) as (l & Hli & Hp).
  assert (l ∈ g_locks g) as Hlg by (by eapply list_elem_of_lookup_2).
  exists g, l. split_and!; try done; [by eapply list_elem_of_lookup_2|].
  by apply (proj1 (Forall_forall _ _) (oo_owner _ _ Hok)).
Qed.

Lemma held_group s gs g t b :
  lk_wf s gs → g ∈ gs → held s (g_owner g) t b ↔ holds (g_locks g) t b.
Proof.
  intros Hwf Hg. pose proof Hwf as [Hl Hgs Hnd _]. pose proof (proj1 (Forall_forall _ _) Hgs g Hg) as [Hs Hok]. split.
  - intros (p & l & Hp & Hpl & Ho & Hc & Ht). destruct (group_member s gs p Hwf Hp) as (g' & l' & Hg' & _ & Hl' & Hpl' & _ & Ho').
    rewrite Hpl in Hpl'. injection Hpl' as <-. assert (g' = g) as ->; [|by exists l].
    apply list_elem_of_lookup in Hg as [i Hi], Hg' as [j Hj].
    assert (i = j) as ->; [|congruence]. eapply (NoDup_lookup _ i j (g_owner g) Hnd); rewrite list_lookup_fmap.
    + by rewrite Hi.
    + rewrite Hj. cbn. congruence.
  - intros (l & Hlg & Hc & Ht). apply list_elem_of_lookup in Hlg as [i Hi].
    destruct (Forall2_lookup_r _ _ _ _ _ Hs Hi) as (p & Hpi & Hp). exists p, l. split_and!; try done.
    + rewrite Hl. apply list_elem_of_join. exists (g_ids g). split; [by eapply list_elem_of_lookup_2|].
      apply list_elem_of_fmap. by exists g.
    + apply (proj1 (Forall_forall _ _) (oo_owner _ _ Hok)). by eapply list_elem_of_lookup_2.
Qed.

(** The owner's group, at the end of the list if it has no locks. *)
Lemma owner_group s gs o :
  lk_wf s gs → ∃ G1 ids ls G2, lk_wf s (G1 ++ Grp o ids ls :: G2) ∧ (ids = [] → G2 = []).
Proof.
  intros [Hl Hg Hnd Hnd']. destruct (decide (o ∈ g_owner <$> gs)) as [Hin|Hout].
  - apply list_elem_of_fmap in Hin as ([o' ids ls] & Ho & Hin). cbn in Ho. subst o'.
    apply list_elem_of_split in Hin as (G1 & G2 & ->). destruct (decide (ids = [])) as [->|Hne].
    + exists (G1 ++ G2), [], ls, []. split; [|done].
      assert ((G1 ++ G2) ++ [Grp o [] ls] ≡ₚ G1 ++ Grp o [] ls :: G2) as Hp by (rewrite <-app_assoc; solve_Permutation).
      split; try done.
      * rewrite Hl, !fmap_app, !join_app. cbn. by rewrite app_nil_r.
      * by rewrite Hp.
      * by rewrite Hp.
    + by exists G1, ids, ls, G2.
  - exists gs, [], [], []. split; [|done]. split; try done.
    + rewrite fmap_app, join_app. cbn. by rewrite app_nil_r.
    + apply Forall_app. split; [done|]. apply Forall_singleton. split; [constructor|]. split; constructor.
    + rewrite fmap_app. apply NoDup_app. split_and!; [done|set_solver|by apply NoDup_singleton].
Qed.

Section group.
Context (s : lks) (G1 G2 : list group) (o : Z) (ids : list Z) (ls : list file_lock).
Context (Hwf : lk_wf s (G1 ++ Grp o ids ls :: G2)).

Let P : list Z := mjoin (g_ids <$> G1).
Let Q : list Z := mjoin (g_ids <$> G2).

Lemma grp_list : i_flock s = P ++ ids ++ Q.
Proof. rewrite (lw_list _ _ Hwf), fmap_app, fmap_cons, join_app. done. Qed.

Lemma grp_self : seg (store s) ids ls ∧ own_ok o ls.
Proof. pose proof (lw_groups _ _ Hwf) as Hg. apply Forall_app in Hg as [_ [Hg _]%Forall_cons]. exact Hg. Qed.

Lemma grp_others p : p ∈ P ++ Q → ∃ l, store s !! p = Some l ∧ fl_owner l ≠ o.
Proof.
  intros Hp. pose proof (lw_owners _ _ Hwf) as Hnd. pose proof (lw_groups _ _ Hwf) as Hg.
  assert (∃ g, g ∈ G1 ++ G2 ∧ p ∈ g_ids g) as (g & HG & Hpg).
  { subst P Q. rewrite <-join_app, <-fmap_app in Hp. apply list_elem_of_join in Hp as (x & Hx & Hin).
    apply list_elem_of_fmap in Hin as (g & -> & ?). by exists g. }
  assert (g_owner g ≠ o) as Hne.
  { rewrite fmap_app, fmap_cons, NoDup_app, NoDup_cons in Hnd. intros <-. cbn in Hnd. 
    apply elem_of_app in HG as [HG|HG]; apply (list_elem_of_fmap_2 g_owner) in HG; set_solver. }
  assert (group_ok (store s) g) as [Hs Hok].
  { apply (proj1 (Forall_forall _ _) Hg). set_solver. }
  apply list_elem_of_lookup in Hpg as [i Hi]. destruct (Forall2_lookup_l _ _ _ _ _ Hs Hi) as (l & Hli & Hpl).
  exists l. split; [done|]. pose proof (proj1 (Forall_forall _ _) (oo_owner _ _ Hok) l ltac:(by eapply list_elem_of_lookup_2)).
  cbn in *. congruence.
Qed.

(** Another list for the owner, the others' unchanged. *)
Lemma grp_update s' ids' ls' :
  view s' P Q ids' ls' → own_ok o ls' → (∀ q, q ∈ P ++ Q → store s' !! q = store s !! q) →
  (∀ q, q ∈ ids' → q ∉ P ++ Q) → lk_wf s' (G1 ++ Grp o ids' ls' :: G2).
Proof.
  intros [Hl Hs Hnd] Hok Hf Hfresh. pose proof Hwf as [_ Hg Hno Hnd'].
  apply Forall_app in Hg as [Hg1 [_ Hg2]%Forall_cons].
  assert (∀ G, (∀ q, q ∈ mjoin (g_ids <$> G) → q ∈ P ++ Q) → Forall (group_ok (store s)) G → Forall (group_ok (store s')) G) as HG.
  { intros G HG HGok. apply Forall_forall. intros g Hgin. pose proof (proj1 (Forall_forall _ _) HGok g Hgin) as [Hsg Hokg].
    split; [|done]. eapply seg_frame; [|exact Hsg]. intros q Hq. apply Hf, HG. apply list_elem_of_join. exists (g_ids g).
    split; [done|]. by apply list_elem_of_fmap_2. }
  split.
  - by rewrite Hl, fmap_app, fmap_cons, join_app.
  - apply Forall_app. split; [apply HG; [set_solver|done]|]. constructor; [by split|]. apply HG; [set_solver|done].
  - rewrite fmap_app, fmap_cons in *. done.
  - rewrite grp_list in Hnd'. rewrite Hl. clear -Hnd Hnd' Hfresh. rewrite NoDup_cons, !NoDup_app in *. set_solver.
Qed.
End group.

(** ** Lemmas: finding the conflict and the owner's locks *)

Lemma first_conflict_spec conf c ps s :
  (∀ p, p ∈ ps → is_Some (store s !! p)) →
  ∃ r, first_conflict conf c ps s = Ret r s ∧
    match r with
    | Some p => ∃ l, p ∈ ps ∧ store s !! p = Some l ∧ conf c l = true
    | None => ∀ p l, p ∈ ps → store s !! p = Some l → conf c l = false
    end.
Proof.
  induction ps as [|p ps IH]; intros Hps.
  { exists None. split; [done|]. set_solver. }
  destruct (Hps p ltac:(set_solver)) as [l Hl]. cbn [first_conflict]. unfold mbind, M_bind, ldl. rewrite Hl.
  destruct (conf c l) eqn:Ec.
  - exists (Some p). split; [done|]. exists l. set_solver.
  - destruct IH as (r & E & Hr); [set_solver|]. exists r. split; [done|]. destruct r as [p'|]; [set_solver|].
    intros p' l' [->|Hp]%elem_of_cons Hl'; [congruence|by eapply Hr].
Qed.

Lemma locks_overlap_spec c l :
  range_ok c → range_ok l → locks_overlap c l = true ↔ ∃ b, cover c b ∧ cover l b.
Proof.
  intros [? ?] [? ?]. unfold locks_overlap, cover. split.
  - intros Hb. to_prop. exists (Z.max (fl_start c) (fl_start l)). lia.
  - intros (b & ? & ?). apply andb_true_intro. split; apply Z.leb_le; lia.
Qed.

Lemma posix_conflict_spec c l :
  range_ok c → range_ok l → fl_type c ∈ [F_RDLCK; F_WRLCK] → fl_type l ∈ [F_RDLCK; F_WRLCK] →
  posix_locks_conflict c l = true ↔
    fl_owner l ≠ fl_owner c ∧ (∃ b, cover c b ∧ cover l b) ∧ (fl_type c = F_WRLCK ∨ fl_type l = F_WRLCK).
Proof.
  intros Hc Hl Htc Htl. rewrite <-locks_overlap_spec by done. unfold posix_locks_conflict, locks_conflict.
  destruct (fl_owner c =? fl_owner l) eqn:Eo; to_prop; [naive_solver congruence|].
  destruct (locks_overlap c l); cbn [negb]; [|naive_solver].
  assert (fl_type c = F_RDLCK ∨ fl_type c = F_WRLCK) as [->| ->] by set_solver; cbn; rewrite ?Z.eqb_eq; naive_solver.
Qed.

Lemma wf_lookup s gs p : lk_wf s gs → p ∈ i_flock s → ∃ l, store s !! p = Some l ∧ range_ok l ∧
  posix_flags (fl_flags l) ∧ fl_type l ∈ [F_RDLCK; F_WRLCK].
Proof.
  intros Hwf Hp. destruct (group_member s gs p Hwf Hp) as (g & l & _ & _ & Hl & Hpl & [_ Hok] & _). exists l. split; [done|].
  pose proof (proj1 (Forall_forall _ _) (oo_range _ _ Hok) l Hl). pose proof (proj1 (Forall_forall _ _) (oo_posix _ _ Hok) l Hl).
  naive_solver.
Qed.

(** The heads of the lists agree on being of one kind. *)
Lemma head_posix s gs : lk_wf s gs → head_has FL_FLOCK s = Ret false s.
Proof.
  intros Hwf. unfold head_has, mbind, M_bind, at_position, gets, ldl. destruct (i_flock s) as [|p ps] eqn:E; [done|]. cbn.
  destruct (wf_lookup s gs p Hwf ltac:(rewrite E; set_solver)) as (l & Hl & _ & [Hf _] & _). by rewrite Hl, Hf.
Qed.

Lemma conflict_spec s gs c :
  lk_wf s gs → range_ok c → fl_type c ∈ [F_RDLCK; F_WRLCK] →
  (∃ p l, p ∈ i_flock s ∧ store s !! p = Some l ∧ posix_locks_conflict c l = true) ↔
  conflicting s (fl_owner c) (fl_start c) (fl_end c) (fl_type c).
Proof.
  intros Hwf Hc Ht. split.
  - intros (p & l & Hp & Hpl & Hcf). destruct (wf_lookup s gs p Hwf Hp) as (l' & Hl' & Hr & _ & Htl). rewrite Hpl in Hl'. injection Hl' as <-.
    apply posix_conflict_spec in Hcf as (Ho & (b & Hb & Hb') & Hw); [|done..]. split; [by apply unlck_ne|].
    exists (fl_owner l), (fl_type l), b. split_and!; try done; [apply Hb..|]. exists p, l. done.
  - intros (_ & o' & t' & b & Ho & Hb & (p & l & Hp & Hpl & <- & Hcov & <-) & Hw).
    destruct (wf_lookup s gs p Hwf Hp) as (l' & Hl' & Hr & _ & Htl). rewrite Hpl in Hl'. injection Hl' as <-.
    exists p, l. split_and!; try done. apply posix_conflict_spec; try done. split_and!; try done. by exists b.
Qed.

(** Without [F_SETLKW] a conflict is an error. *)
Lemma posix_block_spec s gs c naps signal :
  lk_wf s gs → store s !! 0 = Some c → range_ok c → fl_type c ∈ [F_RDLCK; F_WRLCK] →
  ∃ r, posix_block naps signal false 0 s = Ret r s ∧
    ((conflicting s (fl_owner c) (fl_start c) (fl_end c) (fl_type c) ∧ r = - EAGAIN) ∨
     (¬ conflicting s (fl_owner c) (fl_start c) (fl_end c) (fl_type c) ∧ r = 0)).
Proof.
  intros Hwf Hc Hr Ht. pose proof (conflict_spec s gs c Hwf Hr Ht) as Hiff.
  destruct (first_conflict_spec posix_locks_conflict c (i_flock s) s) as (f & E & Hf).
  { intros p Hp. destruct (wf_lookup s gs p Hwf Hp) as (l & -> & _). done. }
  assert (posix_block naps signal false 0 s = Ret (match f with Some _ => - EAGAIN | None => 0 end) s) as ->.
  { destruct naps; cbn [posix_block]; unfold mbind, M_bind; rewrite (head_posix s gs Hwf); unfold ldl, gets; rewrite Hc, E; by destruct f. }
  destruct f as [p|]; (eexists; split; [reflexivity|]); [left|right]; (split; [|done]).
  - apply Hiff. destruct Hf as (l & ? & ? & ?). by exists p, l.
  - rewrite <-Hiff. intros (p & l & Hp & Hl & Hcf). rewrite (Hf p l) in Hcf by done. done.
Qed.

Lemma skip_spec fuel s A P R o :
  i_flock s = A ++ P ++ R → (∀ p, p ∈ P → ∃ l, store s !! p = Some l ∧ fl_owner l ≠ o) →
  match R with [] => True | p :: _ => ∃ l, store s !! p = Some l ∧ fl_owner l = o end →
  (length P < fuel)%nat → skip_others fuel o (length A) s = Ret (length (A ++ P)) s.
Proof.
  intros Hl HP HR. revert A fuel Hl. induction P as [|p P IH]; intros A fuel Hl Hfuel; destruct fuel as [|fuel]; try lia;
    cbn [skip_others]; unfold mbind, M_bind, at_position, gets, ldl; cbn in Hl, Hfuel.
  - rewrite Hl, app_nil_r. destruct R as [|p R].
    + rewrite lookup_ge_None_2; [done|]. rewrite app_nil_r. lia.
    + destruct HR as (l & Hp & Ho). rewrite list_lookup_middle by done. rewrite Hp, (proj2 (Z.eqb_eq _ _) Ho). done.
  - assert (i_flock s !! length A = Some p) as -> by (rewrite Hl; by apply list_lookup_middle). destruct (HP p ltac:(set_solver)) as (l & Hp & Ho).
    rewrite Hp, (proj2 (Z.eqb_neq _ _) Ho). replace (S (length A)) with (length (A ++ [p])) by (rewrite length_app; cbn; lia).
    rewrite IH; [by rewrite <-app_assoc|set_solver|by rewrite <-app_assoc|lia].
Qed.

(** ** Setting a lock *)

Lemma wf_frame s s' gs :
  lk_wf s gs → i_flock s' = i_flock s → (∀ p, p ∈ i_flock s → store s' !! p = store s !! p) → lk_wf s' gs.
Proof.
  intros [Hl Hg Ho Hnd] El Es. split; try congruence. apply Forall_forall. intros g Hgin.
  pose proof (proj1 (Forall_forall _ _) Hg g Hgin) as [Hsg Hokg]. split; [|done]. eapply seg_frame; [|exact Hsg].
  intros q Hq. apply Es. rewrite Hl. apply list_elem_of_join. exists (g_ids g). split; [done|]. by apply list_elem_of_fmap_2.
Qed.

Lemma held_frame s s' o t b :
  i_flock s' = i_flock s → (∀ p, p ∈ i_flock s → store s' !! p = store s !! p) → held s' o t b ↔ held s o t b.
Proof.
  intros El Es. unfold held. rewrite El. split; intros (p & l & Hp & Hl & ?); exists p, l; (split; [done|]);
    (split; [|done]); rewrite Es in * by done; done.
Qed.

(** Who holds what after a change of the owner's locks. *)
Lemma held_update s s' G1 G2 o ids ls ids' ls' t b o' :
  lk_wf s (G1 ++ Grp o ids ls :: G2) → lk_wf s' (G1 ++ Grp o ids' ls' :: G2) →
  held s' o' t b ↔ if decide (o' = o) then holds ls' t b else held s o' t b.
Proof.
  intros H H'. destruct (decide (o' = o)) as [->|Hne].
  { apply (held_group s' _ (Grp o ids' ls') t b H'). set_solver. }
  destruct (decide (o' ∈ g_owner <$> G1 ++ G2)) as [(g & -> & Hg)%list_elem_of_fmap|Hno].
  - rewrite (held_group s' _ g t b H'), (held_group s _ g t b H) by set_solver. done.
  - assert (∀ s1 i1 l1, lk_wf s1 (G1 ++ Grp o i1 l1 :: G2) → ¬ held s1 o' t b) as Hnone.
    { intros s1 i1 l1 Hwf (p & l & Hp & Hpl & Ho & _). destruct (group_member s1 _ p Hwf Hp) as (g & l2 & Hg & _ & _ & Hl2 & _ & Ho2).
      rewrite Hpl in Hl2. injection Hl2 as <-. apply elem_of_app in Hg as [Hg|[->|Hg]%elem_of_cons]; [|cbn in *; congruence|];
        apply Hno; rewrite <-Ho, Ho2; apply list_elem_of_fmap_2; set_solver. }
    split; intros Hh; [by destruct (Hnone s' ids' ls')|by destruct (Hnone s ids ls)].
Qed.

Lemma exclusive_sets s s' o lo hi t :
  exclusive s → sets s s' o lo hi t → ¬ conflicting s o lo hi t → exclusive s'.
Proof.
  intros Hex Hset Hno o1 o2 t' b Hne H1 H2. apply Hset in H1, H2.
  destruct (decide (o1 = o ∧ _)) as [[-> Hb]|Hn1], (decide (o2 = o ∧ _)) as [[-> Hb']|Hn2]; [done| | |by eapply Hex].
  - destruct H1 as [<- Hun]. apply Hno. split; [done|]. exists o2, t', b. split_and!; try done; [lia..|by left].
  - destruct H2 as [-> Hun]. apply Hno. split; [done|]. exists o1, F_WRLCK, b. split_and!; try done; [lia..|by right].
Qed.

(** The part of [posix_lock_file] after the search for conflicts. *)
Lemma lock_rest s gs c n1 n2 o lo hi t :
  lk_wf s gs → store s !! 0 = Some c → request o lo hi t c → in_reach s o lo hi t → fresh s n1 → fresh s n2 → n1 ≠ n2 →
  ∃ s' gs', (len ← gets (λ s, length (i_flock s));
      before ← skip_others (S len) o 0;
      v ← posix_scan (S len) (MkScan before 0 false None None);
      posix_finish n1 n2 v) s = Ret 0 s' ∧ lk_wf s' gs' ∧ sets s s' o lo hi t.
Proof.
  intros Hwf Hc Hrq Hreach [Hn1 Hf1] [Hn2 Hf2] Hn.
  destruct (owner_group s gs o Hwf) as (G1 & ids & ls & G2 & Hwf' & Hend).
  pose proof (grp_list _ _ _ _ _ _ Hwf') as Hl. pose proof (grp_self _ _ _ _ _ _ Hwf') as [Hseg Hok].
  pose proof (grp_others _ _ _ _ _ _ Hwf') as Hoth.
  set (P := mjoin (g_ids <$> G1)) in *. set (Q := mjoin (g_ids <$> G2)) in *.
  pose proof (lw_nodup _ _ Hwf') as Hnd. rewrite Hl in Hnd.
  assert (NoDup (0 :: ids) ∧ (∀ q, q ∈ P ++ Q → q ∉ 0 :: ids)) as [Hnd' Hapart].
  { clear -Hnd. rewrite NoDup_cons, !NoDup_app in Hnd. rewrite NoDup_cons. set_solver. }
  assert (∀ n, store s !! n = None → n ∉ P ++ ids ++ Q) as Hfresh.
  { intros n Hnn Hin. rewrite <-Hl in Hin. destruct (wf_lookup s gs n Hwf Hin) as (l & Hl' & _). congruence. }
  destruct (scan_A ls ids (S (length (i_flock s))) s P Q o lo hi t c false None [] []) as (v & s1 & E1 & Hpost).
  { split; try done.
    - intros q Hq. apply Hapart. set_solver.
    - destruct Q as [|q Q'] eqn:EQ; [done|]. apply Hoth. set_solver.
    - constructor.
    - constructor.
    - intros Hun. destruct (Hreach Hun) as [?|Hno]; [by left|right]. apply Forall_forall. intros l Hlin Htl.
      destruct (decide (fl_end l < lo - 1)) as [|Hge]; [done|]. exfalso. apply (Hno (fl_end l) ltac:(lia)).
      apply (held_group s _ (Grp o ids ls) t (fl_end l) Hwf'); [set_solver|]. exists l. split_and!; try done.
      pose proof (proj1 (Forall_forall _ _) (oo_range _ _ Hok) l Hlin) as [? ?]. unfold cover. lia. }
  { done. }
  { rewrite Hl, !length_app. lia. }
  destruct (finish_spec s P Q o lo hi t c ids ls v s1 n1 n2) as (s2 & ids' & ls' & E2 & Hv & Hok' & Hh & Hsub & Hfr); try done.
  { pose proof (Hfresh n1 Hf1). clear -H Hn1. set_solver. }
  { pose proof (Hfresh n2 Hf2). clear -H Hn2. set_solver. }
  assert (lk_wf s2 (G1 ++ Grp o ids' ls' :: G2)) as Hwf2.
  { pose proof (Hfresh n1 Hf1). pose proof (Hfresh n2 Hf2). eapply grp_update; [done|exact Hv|done| |].
    - intros q Hq. pose proof (Hapart q Hq). apply Hfr; clear -Hq H H0 H1; set_solver.
    - intros q Hq Hq'. pose proof (Hapart q Hq'). clear -Hq Hq' Hsub H H0 H1. set_solver. }
  eexists s2, _. split_and!; [|exact Hwf2|].
  - unfold mbind, M_bind, gets. rewrite (skip_spec _ s [] P (ids ++ Q) o); [|done|intros p Hp; apply Hoth; set_solver| |rewrite Hl, !length_app; lia].
    + cbn [app]. cbn [app length] in E1. rewrite app_nil_r in E1. rewrite E1, E2. done.
    + destruct ids as [|p ids1]; [by subst Q; rewrite Hend by done|].
      destruct ls as [|l ls1]; [by apply seg_length in Hseg|]. apply seg_cons_inv in Hseg as [Hp _]. exists l.
      split; [done|]. by apply own_ok_cons in Hok as (_ & ? & _).
  - intros o' t' b. rewrite (held_update s s2 G1 G2 o ids ls ids' ls' t' b o') by done.
    destruct (decide (o' = o)) as [->|Hne]; [|by rewrite decide_False by naive_solver].
    rewrite Hh. destruct (decide (lo ≤ b ≤ hi)); [by rewrite decide_True|]. rewrite decide_False by naive_solver.
    symmetry. apply (held_group s _ (Grp o ids ls) t' b Hwf'). set_solver.
Qed.

Lemma block_part s gs c naps signal o lo hi t :
  lk_wf s gs → store s !! 0 = Some c → request o lo hi t c →
  ∃ r, (if negb (fl_type c =? F_UNLCK) then posix_block naps signal false 0 else mret 0) s = Ret r s ∧
    ((conflicting s o lo hi t ∧ r = - EAGAIN) ∨ (¬ conflicting s o lo hi t ∧ r = 0)).
Proof.
  intros Hwf Hc [Ho Ht Es Ee Hr _ Hty]. rewrite Ht. destruct (t =? F_UNLCK) eqn:Eu; to_prop; cbn [negb].
  { exists 0. split; [done|]. right. split; [|done]. by intros [? _]. }
  rewrite <-Ho, <-Ht, <-Es, <-Ee. apply (posix_block_spec s gs c); try done. set_solver.
Qed.

(** A call that asks for [c]. *)
Lemma setlk_spec s c n1 n2 naps signal o lo hi t :
  lk_inv s → request o lo hi t c → in_reach s o lo hi t → fresh s n1 → fresh s n2 → n1 ≠ n2 →
  ∃ r s', with_caller c (posix_lock_file (Some n1) (Some n2) naps signal false 0) s = Ret r s' ∧ lk_inv s' ∧
    ((conflicting s o lo hi t ∧ r = - EAGAIN ∧ s' = s) ∨ (¬ conflicting s o lo hi t ∧ r = 0 ∧ sets s s' o lo hi t)).
Proof.
  intros ([gs Hwf] & Hex & H0) Hrq Hreach [Hn1 Hf1] [Hn2 Hf2] Hn.
  set (s1 := s <| store := <[0 := c]> (store s) |>).
  assert (0 ∉ i_flock s) as Hni by (pose proof (lw_nodup _ _ Hwf); by apply NoDup_cons in H as [? _]).
  assert (∀ p, p ≠ 0 → store s1 !! p = store s !! p) as Hst by (intros; cbn; by apply lookup_insert_ne).
  assert (∀ p, p ∈ i_flock s → store s1 !! p = store s !! p) as Hst' by (intros; apply Hst; set_solver).
  assert (∀ o t b, held s1 o t b ↔ held s o t b) as Hheld by (intros; by apply held_frame).
  assert (conflicting s1 o lo hi t ↔ conflicting s o lo hi t) as Hcf by (unfold conflicting; by setoid_rewrite Hheld).
  assert (lk_wf s1 gs) as Hwf1 by (by eapply wf_frame).
  assert (store s1 !! 0 = Some c) as Hc1 by (cbn; by rewrite lookup_insert_eq).
  destruct (lock_rest s1 gs c n1 n2 o lo hi t) as (s2 & gs2 & E2 & Hwf2 & Hset2); try done.
  { intros Hun. setoid_rewrite Hheld. by apply Hreach. }
  { split; [done|]. by rewrite Hst. }
  { split; [done|]. by rewrite Hst. }
  destruct (block_part s1 gs c naps signal o lo hi t Hwf1) as (r & Eb & Hb); [done|done|].
  assert (with_caller c (posix_lock_file (Some n1) (Some n2) naps signal false 0) s =
    if r =? 0 then Ret 0 (s2 <| store := delete 0 (store s2) |>) else Ret r (s1 <| store := delete 0 (store s1) |>)) as E.
  { unfold with_caller, posix_lock_file. unfold mbind, M_bind in Eb, E2 |- *. unfold modify. fold s1. unfold ldl at 1.
    rewrite Hc1, Eb. destruct (r =? 0); cbn [negb]; [|done].
    by rewrite (head_posix s1 gs Hwf1), (rq_owner _ _ _ _ _ Hrq), E2. }
  destruct Hb as [[Hc ->]|[Hc ->]]; [change (- EAGAIN =? 0) with false in E|change (0 =? 0) with true in E]; cbv iota in E.
  - exists (- EAGAIN), s. rewrite E. split_and!; [|by split_and!; [exists gs| |]|left; by rewrite <-Hcf].
    f_equal. subst s1. destruct s. cbn in *. f_equal. by rewrite delete_insert_id.
  - set (s3 := s2 <| store := delete 0 (store s2) |>) in *. exists 0, s3. split; [done|].
    assert (∀ p, p ∈ i_flock s2 → store s3 !! p = store s2 !! p) as Hst3.
    { intros p Hp. cbn. apply lookup_delete_ne. pose proof (lw_nodup _ _ Hwf2) as Hnd. apply NoDup_cons in Hnd as [Hnd _]. set_solver. }
    assert (sets s s3 o lo hi t) as Hset.
    { intros o' t' b. rewrite (held_frame s2 s3 o' t' b), (Hset2 o' t' b) by done. destruct (decide _); [done|apply Hheld]. }
    split; [|right; by rewrite <-Hcf]. split_and!; [|by eapply exclusive_sets; [exact Hex|exact Hset|by rewrite <-Hcf]|].
    + exists gs2. by eapply wf_frame.
    + cbn. by rewrite lookup_delete_eq.
Qed.

(** ** Closing the file *)

Definition kept (mine : file_lock → bool) (s : lks) (p : Z) : bool :=
  match store s !! p with Some l => negb (mine l) | None => true end.

Lemma list_filter_ext {A} (P1 P2 : A → Prop) `{∀ x, Decision (P1 x)} `{∀ x, Decision (P2 x)} (l : list A) :
  (∀ x, x ∈ l → P1 x ↔ P2 x) → filter P1 l = filter P2 l.
Proof.
  induction l as [|x l IH]; intros Hx; [done|]. rewrite !filter_cons, IH by set_solver.
  destruct (decide (P1 x)), (decide (P2 x)); set_solver.
Qed.

Lemma remove_locks_spec mine fuel s A B :
  i_flock s = A ++ B → NoDup B → (∀ p, p ∈ B → is_Some (store s !! p)) → (length B < fuel)%nat →
  ∃ s', remove_locks fuel mine (length A) s = Ret tt s' ∧ i_flock s' = A ++ filter (λ p, kept mine s p = true) B ∧
    (∀ q, q ∉ B ∨ kept mine s q = true → store s' !! q = store s !! q).
Proof.
  revert fuel s A. induction B as [|p B IH]; intros fuel s A Hl Hnd Hsome Hfuel; (destruct fuel as [|fuel]; [lia|]);
    cbn [remove_locks]; unfold mbind, M_bind, at_position, gets, ldl.
  { rewrite lookup_ge_None_2 by (rewrite Hl, app_nil_r; lia). by exists s. }
  assert (i_flock s !! length A = Some p) as Hat by (rewrite Hl; by apply list_lookup_middle). rewrite Hat.
  apply NoDup_cons in Hnd as [Hp Hnd]. destruct (Hsome p ltac:(set_solver)) as [l Hpl]. rewrite Hpl.
  assert (kept mine s p = negb (mine l)) as Hk by (unfold kept; by rewrite Hpl).
  cbn [length] in Hfuel. destruct (mine l) eqn:Em.
  - rewrite (delete_spec s (length A) p Hat). set (s1 := deleted s (length A) p).
    assert (∀ q, q ≠ p → store s1 !! q = store s !! q) as Hs1 by (intros; cbn; by apply lookup_delete_ne).
    destruct (IH fuel s1 A) as (s' & E & El & Hf); [by apply deleted_list|done| |lia|].
    { intros q Hq. rewrite Hs1 by set_solver. apply Hsome. set_solver. }
    exists s'. split_and!; [done| |].
    + rewrite El, filter_cons, decide_False by (by rewrite Hk). f_equal. apply list_filter_ext. intros q Hq.
      unfold kept. by rewrite Hs1 by set_solver.
    + intros q Hq. destruct (decide (q = p)) as [->|Hne]; [rewrite Hk in Hq; set_solver|].
      rewrite Hf; [by apply Hs1|]. unfold kept in *. rewrite Hs1 by done. set_solver.
  - replace (S (length A)) with (length (A ++ [p])) by (rewrite length_app; cbn; lia).
    destruct (IH fuel s (A ++ [p])) as (s' & E & El & Hf); [by rewrite Hl, <-app_assoc|done|set_solver|lia|].
    exists s'. split_and!; [done| |].
    + rewrite El, filter_cons, decide_True by (by rewrite Hk). by rewrite <-app_assoc.
    + intros q Hq. apply Hf. destruct (decide (q = p)) as [->|]; [right; by rewrite Hk|]. set_solver.
Qed.

Lemma close_spec s task filp :
  lk_inv s → ∃ s', locks_remove_locks task filp s = Ret tt s' ∧ lk_inv s' ∧
    (∀ o t b, held s' o t b ↔ o ≠ task ∧ held s o t b).
Proof.
  intros ([gs Hwf] & Hex & H0). unfold locks_remove_locks, mbind, M_bind, at_position, gets, ldl.
  destruct (i_flock s !! 0%nat) as [p|] eqn:Eh.
  2:{ exists s. split_and!; [done|by split_and!; [exists gs| |]|]. intros o t b. split; [|by intros [_ ?]].
      intros (p & l & Hp & _). destruct (i_flock s); [set_solver|done]. }
  destruct (wf_lookup s gs p Hwf) as (l & Hl & _ & [_ Hpx] & _); [by eapply list_elem_of_lookup_2|]. rewrite Hl, Hpx.
  destruct (owner_group s gs task Hwf) as (G1 & ids & ls & G2 & Hwf' & _).
  pose proof (grp_list _ _ _ _ _ _ Hwf') as El. pose proof (grp_self _ _ _ _ _ _ Hwf') as [Hseg Hok].
  pose proof (grp_others _ _ _ _ _ _ Hwf') as Hoth. set (P := mjoin (g_ids <$> G1)) in *. set (Q := mjoin (g_ids <$> G2)) in *.
  pose proof (lw_nodup _ _ Hwf) as [Hn0 Hnd]%NoDup_cons.
  set (mine := λ fl, fl_owner fl =? task).
  destruct (remove_locks_spec mine (S (length (i_flock s))) s [] (i_flock s)) as (s' & E & El' & Hf); [done|done| |lia|].
  { intros q Hq. destruct (wf_lookup s gs q Hwf Hq) as (l' & -> & _). done. }
  assert (∀ q, q ∈ P ++ Q → kept mine s q = true) as Hkeep.
  { intros q Hq. destruct (Hoth q Hq) as (l' & Hl' & Hne). unfold kept. rewrite Hl'. subst mine. cbn. by rewrite (proj2 (Z.eqb_neq _ _) Hne). }
  assert (i_flock s' = P ++ Q) as EPQ.
  { rewrite El', El. cbn [app]. rewrite !filter_app, (list_filter_all _ P), (list_filter_none _ ids), (list_filter_all _ Q); [done|..];
      apply Forall_forall; intros q Hq.
    - apply Hkeep. set_solver.
    - apply list_elem_of_lookup in Hq as [i Hi]. destruct (Forall2_lookup_l _ _ _ _ _ Hseg Hi) as (l' & Hi' & Hq).
      unfold kept. rewrite Hq. subst mine. cbn.
      rewrite (proj1 (Forall_forall _ _) (oo_owner _ _ Hok) l') by (by eapply list_elem_of_lookup_2). by rewrite Z.eqb_refl.
    - apply Hkeep. set_solver. }
  assert (lk_wf s' (G1 ++ Grp task [] [] :: G2)) as Hwf2.
  { eapply grp_update; [exact Hwf'|split; [done|constructor|]|split; constructor| |set_solver].
    - apply NoDup_singleton.
    - intros q Hq. apply Hf. right. by apply Hkeep. }
  assert (∀ o t b, held s' o t b ↔ o ≠ task ∧ held s o t b) as Hh.
  { intros o t b. rewrite (held_update s s' G1 G2 task ids ls [] [] t b o) by done. destruct (decide (o = task)); [|naive_solver].
    pose proof (holds_nil t b). naive_solver. }
  exists s'. split_and!; [exact E| |exact Hh]. split_and!; [by eexists| |].
  - intros o1 o2 t b Hne [_ H1]%Hh [_ H2]%Hh. by eapply Hex.
  - rewrite Hf; [done|by left].
Qed.

(** ** The table *)

Lemma make_lock_request o filp l c :
  posix_make_lock o filp l = Some c → l_len l ≤ OFFSET_MAX → request o (fl_start c) (fl_end c) (fl_type c) c.
Proof.
  intros E Hlen. unfold posix_make_lock in E.
  set (type := if (_ || _) then _ else _) in E. set (whence := if l_whence l =? 0 then _ else _) in E.
  assert (∀ t flags, type = Some (t, flags) → t ∈ [F_RDLCK; F_WRLCK; F_UNLCK] ∧ posix_flags flags) as Htype.
  { intros t flags Et. subst type. destruct (l_type l =? F_RDLCK) eqn:E1, (l_type l =? F_WRLCK) eqn:E2, (l_type l =? F_UNLCK) eqn:E3;
      to_prop; cbn in Et; repeat (destruct (_ =? _) in Et); simplify_eq; (split; [set_solver|by split]). }
  destruct type as [[t flags]|], whence as [start|]; try done. destruct (Htype t flags eq_refl) as [Ht Hf].
  set (st := s32 (start + l_start l)) in *. pose proof (s32_range (start + l_start l)) as Hst. fold st in Hst.
  destruct ((st <? 0) || (l_len l <? 0)) eqn:Eneg; [done|]. to_prop. injection E as <-. split; cbn; try done.
  unfold range_ok. cbn. pose proof (s32_range (st + l_len l - 1)) as He. unfold OFFSET_MAX in *.
  destruct (l_len l =? 0) eqn:El; cbn [orb]; to_prop; [lia|].
  destruct (s32 (st + l_len l - 1) <? 0) eqn:Ee; to_prop; [lia|].
  destruct (decide (st + l_len l - 1 < 2 ^ 31)) as [Hlt|Hge]; [rewrite s32_id in * by lia; lia|].
  exfalso. revert Ee. unfold s32, u32. Z.to_euclidean_division_equations. lia.
Qed.

Lemma make_lock_type o filp l c :
  posix_make_lock o filp l = Some c → l_type l = F_RDLCK ∨ l_type l = F_WRLCK → fl_type c = l_type l.
Proof.
  intros E Ht. unfold posix_make_lock in E.
  assert ((l_type l =? F_RDLCK) || (l_type l =? F_WRLCK) || (l_type l =? F_UNLCK) = true) as Hb
    by (rewrite !orb_true_iff, !Z.eqb_eq; tauto).
  rewrite Hb in E. destruct (if l_whence l =? 0 then _ else _); [|done]. destruct (_ || _) in E; [done|]. by injection E as <-.
Qed.

Lemma allowed_spec o filp l c :
  posix_make_lock o filp l = Some c →
  (if l_type l =? F_RDLCK then has (f_mode filp) 1
   else if l_type l =? F_WRLCK then has (f_mode filp) 2
   else if l_type l =? F_UNLCK then true else has (f_mode filp) 3) = true ↔ may_lock filp (l_type l).
Proof.
  intros E. unfold may_lock. rewrite !elem_of_cons, elem_of_nil.
  assert (l_type l = F_RDLCK ∨ l_type l = F_WRLCK ∨ l_type l = F_UNLCK ∨ l_type l = F_SHLCK ∨ l_type l = F_EXLCK) as Ht.
  { unfold posix_make_lock in E. destruct ((l_type l =? F_RDLCK) || (l_type l =? F_WRLCK) || (l_type l =? F_UNLCK)) eqn:E1.
    - rewrite !orb_true_iff, !Z.eqb_eq in E1. tauto.
    - destruct (l_type l =? F_SHLCK) eqn:E2; to_prop; [tauto|]. destruct (l_type l =? F_EXLCK) eqn:E3; to_prop; [tauto|done]. }
  destruct Ht as [->|[->|[->|[->| ->]]]]; cbn; intuition discriminate.
Qed.

Lemma tab_conflict_spec s T o lo hi t : tab s T → conflicting s o lo hi t ↔ tab_conflict T o lo hi t.
Proof. unfold tab. intros Htab. unfold conflicting, tab_conflict. by setoid_rewrite Htab. Qed.

Lemma tab_sets s s' T o lo hi t : tab s T → sets s s' o lo hi t → tab s' (tab_set T o lo hi t).
Proof.
  intros Htab Hset o' t' b. rewrite (Hset o' t' b). unfold tab_set. destruct (decide (o' = o ∧ _)); [|apply Htab].
  destruct (decide (t = F_UNLCK)); naive_solver.
Qed.

(** Without memory the call ends before it looks at the locks. *)
Lemma nomem_spec s c new_fl new_fl2 naps signal :
  lk_inv s → new_fl = None ∨ new_fl2 = None →
  with_caller c (posix_lock_file new_fl new_fl2 naps signal false 0) s = Ret (- ENOLCK) s.
Proof.
  intros (_ & _ & H0) Hnone. unfold with_caller, posix_lock_file, mbind, M_bind, modify.
  assert (s <| store := <[0 := c]> (store s) |> <| store := delete 0 (<[0 := c]> (store s)) |> = s) as Hs.
  { destruct s. cbn in *. f_equal. by rewrite delete_insert_id. }
  destruct new_fl, new_fl2; [by destruct Hnone|..]; cbn; by rewrite Hs at 1.
Qed.

Lemma lop_step s T n1 n2 op :
  lk_inv s → tab s T → fresh s n1 → fresh s n2 → n1 ≠ n2 → op_ok s op →
  ∃ r s' T', run_lop n1 n2 op s = Ret r s' ∧ lk_inv s' ∧ tab_step T op r T' ∧ tab s' T'.
Proof.
  intros Hinv Htab Hf1 Hf2 Hn Hop. destruct op as [o filp area l m1 m2|task filp]; cbn [run_lop op_ok] in *.
  - destruct Hop as [Hlen Hreach]. unfold fcntl_setlk.
    destruct filp as [filp|]; [|by exists (- EBADF), s, T; split_and!; try done; constructor].
    destruct (area =? 0) eqn:Ea; to_prop; [subst area|by exists area, s, T; split_and!; try done; constructor]. cbn [negb].
    fold (mapped filp). destruct (mapped filp) eqn:Em; [by exists (- EAGAIN), s, T; split_and!; try done; constructor|].
    destruct (posix_make_lock o filp l) as [c|] eqn:Ec; [|by exists (- EINVAL), s, T; split_and!; try done; constructor].
    pose proof (allowed_spec o filp l c Ec) as Hal. destruct (if l_type l =? F_RDLCK then _ else _); cbn [negb].
    2:{ exists (- EBADF), s, T. split_and!; try done. eapply ts_mode; try done. by rewrite <-Hal. }
    change (F_SETLK =? F_SETLKW) with false.
    destruct (m1 && m2) eqn:Emem.
    2:{ exists (- ENOLCK), s, T. split_and!; try done; [|eapply ts_nomem; try done; naive_solver].
        rewrite <-(nomem_spec s c (if m1 then Some n1 else None) (if m2 then Some n2 else None) [] false Hinv); [done|].
        by destruct m1, m2; try done; [right|left..]. }
    apply andb_true_iff in Emem as [-> ->].
    destruct (setlk_spec s c n1 n2 [] false o (fl_start c) (fl_end c) (fl_type c)) as (r & s' & E & Hinv' & Hres); try done.
    { by eapply make_lock_request. }
    { by apply (Hreach filp). }
    pose proof (tab_conflict_spec s T o (fl_start c) (fl_end c) (fl_type c) Htab) as Hcf.
    destruct Hres as [(Hc & -> & ->)|(Hc & -> & Hset)].
    + exists (- EAGAIN), s, T. split_and!; try done. eapply ts_conflict; try done; naive_solver.
    + exists 0, s'. eexists. split_and!; [done|done|eapply ts_set; try done; naive_solver|by apply (tab_sets s)].
  - destruct (close_spec s task filp Hinv) as (s' & E & Hinv' & Hh). exists 0, s'. eexists. split_and!; [|done|constructor|].
    + unfold mbind, M_bind. by rewrite E.
    + intros o t b. rewrite Hh, (Htab o t b). destruct (decide (o = task)); naive_solver.
Qed.

Lemma lks_init_inv : lk_inv lks_init.
Proof.
  split_and!; [|by intros ? ? ? ? ? (p & l & ?%elem_of_nil & _)|done]. exists []. split; try constructor; [set_solver|constructor].
Qed.

Lemma lk_run_sim s tr s' T :
  lk_run s tr s' → lk_inv s → tab s T → ∃ T', tab_run T tr T' ∧ tab s' T' ∧ lk_inv s'.
Proof.
  intros Hrun. revert T. induction Hrun as [s|s n1 n2 op r s1 tr s2 Hf1 Hf2 Hn Hop E _ IH]; intros T Hinv Htab.
  { exists T. split_and!; try done. constructor. }
  destruct (lop_step s T n1 n2 op) as (r' & s1' & T1 & E' & Hinv1 & Hst & Htab1); try done.
  rewrite E in E'. injection E' as <- <-. destruct (IH T1 Hinv1 Htab1) as (T2 & Hr & ? & ?). exists T2. split_and!; try done.
  by econstructor.
Qed.

(** ** Asking for a lock *)

Lemma getlk_loop_spec pid_of c l ps s :
  (∀ p, p ∈ ps → ∃ fl, store s !! p = Some fl ∧ posix_flags (fl_flags fl)) →
  ∃ r, getlk_loop pid_of c l ps s = Ret r s ∧
    ((r = l ∧ ∀ p fl, p ∈ ps → store s !! p = Some fl → posix_locks_conflict c fl = false) ∨
     ∃ p fl, p ∈ ps ∧ store s !! p = Some fl ∧ posix_locks_conflict c fl = true ∧
       r = MkFlock (fl_type fl) 0 (fl_start fl) (if fl_end fl =? OFFSET_MAX then 0 else s32 (fl_end fl - fl_start fl + 1))
             (pid_of (fl_owner fl))).
Proof.
  induction ps as [|p ps IH]; intros Hps.
  { exists l. split; [done|]. left. split; [done|]. set_solver. }
  destruct (Hps p ltac:(set_solver)) as (fl & Hp & _ & Hpx). cbn [getlk_loop]. unfold mbind, M_bind, ldl. rewrite Hp, Hpx. cbn [negb].
  destruct (posix_locks_conflict c fl) eqn:Ec.
  { eexists. split; [reflexivity|]. right. exists p, fl. set_solver. }
  destruct IH as (r & E & Hr); [set_solver|]. exists r. split; [done|].
  destruct Hr as [[-> Hr]|(p' & fl' & ? & ?)]; [left; split; [done|]|right; exists p', fl'; set_solver].
  intros p' fl' [->|Hp']%elem_of_cons Hfl; [congruence|by eapply Hr].
Qed.

(** The answer denotes the bytes of the lock that it was made from. *)
Lemma getlk_answer_range o filp fl pid :
  range_ok fl → fl_type fl ∈ [F_RDLCK; F_WRLCK] →
  ∃ c, posix_make_lock o filp (MkFlock (fl_type fl) 0 (fl_start fl)
      (if fl_end fl =? OFFSET_MAX then 0 else s32 (fl_end fl - fl_start fl + 1)) pid) = Some c ∧
    fl_type c = fl_type fl ∧ fl_start c = fl_start fl ∧ fl_end c = fl_end fl.
Proof.
  intros [Hr1 Hr2] Ht. unfold posix_make_lock. cbn [l_type l_whence l_start l_len].
  assert ((fl_type fl =? F_RDLCK) || (fl_type fl =? F_WRLCK) || (fl_type fl =? F_UNLCK) = true) as ->.
  { rewrite !orb_true_iff, !Z.eqb_eq. set_solver. }
  change (0 =? 0) with true. cbv iota beta zeta. rewrite Z.add_0_l, (s32_id (fl_start fl)) by (unfold OFFSET_MAX in *; lia).
  destruct (fl_end fl =? OFFSET_MAX) eqn:Ee; to_prop.
  - rewrite (proj2 (Z.ltb_ge (fl_start fl) 0)) by lia. cbn. eexists. split; [reflexivity|]. cbn. split_and!; congruence.
  - rewrite (s32_id (fl_end fl - fl_start fl + 1)) by (unfold OFFSET_MAX in *; lia).
    rewrite (proj2 (Z.ltb_ge (fl_start fl) 0)), (proj2 (Z.ltb_ge (fl_end fl - fl_start fl + 1) 0)) by lia. cbn [orb].
    replace (fl_start fl + (fl_end fl - fl_start fl + 1) - 1) with (fl_end fl) by lia.
    rewrite (s32_id (fl_end fl)), (proj2 (Z.eqb_neq (_ - _ + 1) 0)), (proj2 (Z.ltb_ge (fl_end fl) 0)) by (unfold OFFSET_MAX in *; lia).
    eexists. split; [reflexivity|]. done.
Qed.

(** ** Waiting for a lock *)

Lemma blocked_on_owner x ls y : blocked_on x ls = Some y → y ∈ fl_owner <$> ls.
Proof. induction ls as [|l ls IH]; cbn; [done|]. repeat (destruct (_ : bool)); set_solver. Qed.

Lemma blocked_from R (me x y : Z) : (∀ z, R x z → z = y) → R x y → x ≠ me → rtc R x me ↔ rtc R y me.
Proof.
  intros Hfun Hxy Hne. split; [|by econstructor]. intros Hr. inversion Hr as [|? z ? Hz]; subst; [done|]. by rewrite <-(Hfun z Hz).
Qed.

Lemma deadlock_search ls me : acyclic (λ x y, blocked_on x ls = Some y) →
  ∀ fuel x seen, NoDup seen → seen ⊆ fl_owner <$> ls → (∀ z, z ∈ seen → rtc (λ x y, blocked_on x ls = Some y) z x) →
  (length ls < fuel + length seen)%nat →
  ∃ r, posix_locks_deadlock fuel ls me x = Some r ∧ (r = true ↔ rtc (λ x y, blocked_on x ls = Some y) x me).
Proof.
  intros Hac. set (R := λ x y, _) in *. induction fuel as [|fuel IH]; intros x seen Hnd Hsub Hseen Hlen.
  { exfalso. pose proof (NoDup_submseteq seen (fl_owner <$> ls) Hnd Hsub) as Hl%submseteq_length.
    rewrite length_fmap in Hl. lia. }
  cbn [posix_locks_deadlock]. destruct (me =? x) eqn:Eme; to_prop; [subst; by exists true|].
  destruct (blocked_on x ls) as [y|] eqn:Ey.
  - assert (rtc R x me ↔ rtc R y me) as Hiff.
    { apply blocked_from; [|done|congruence]. intros z Hz. unfold R in Hz. congruence. }
    destruct (y =? me) eqn:Eym; to_prop; [subst; exists true; split; [done|]; by rewrite Hiff|].
    destruct (IH y (y :: seen)) as (r & E & Hr); [| | | |by exists r; rewrite Hiff].
    + constructor; [|done]. intros Hy. apply (Hac y). eapply tc_rtc_l; [by apply Hseen|by apply tc_once].
    + intros z [->|Hz]%elem_of_cons; [by eapply blocked_on_owner|by apply Hsub].
    + intros z [->|Hz]%elem_of_cons; [done|]. eapply rtc_r; [by apply Hseen|done].
    + cbn. lia.
  - exists false. split; [done|]. split; [done|]. intros Hr. inversion Hr as [|? z ? Hz]; subst; [done|]. unfold R in Hz. congruence.
Qed.
Lemma all_locks_length s : (length (all_locks s) ≤ length (file_lock_table s))%nat.
Proof.
  unfold all_locks. induction (file_lock_table s) as [|p ps IH]; [done|]. cbn. destruct (store s !! p); cbn; lia.
Qed.

(** One more process waits. *)
Lemma acyclic_add (R R' : Z → Z → Prop) me o :
  acyclic R → ¬ rtc R o me → (∀ x y, R' x y → R x y ∨ (x = me ∧ y = o)) → acyclic R'.
Proof.
  intros Hac Hno HR.
  assert (∀ a b, tc R' a b → tc R a b ∨ (rtc R a me ∧ rtc R o b)) as Htc.
  { induction 1 as [a b Hab|a x b Hax _ IH].
    - apply HR in Hab as [?|[-> ->]]; [left; by apply tc_once|by right].
    - apply HR in Hax as [Hax|[-> ->]].
      + destruct IH as [?|[? ?]]; [left; by eapply tc_l|right; split; [by eapply rtc_l|done]].
      + destruct IH as [?|[? ?]]; [right; split; [done|by apply tc_rtc]|done]. }
  intros z [Hz|[H1 H2]]%Htc; [by eapply Hac|]. apply Hno. by etrans.
Qed.

Definition add_waiter (w me : Z) (l : file_lock) : file_lock := l <| fl_waiters := fl_waiters l ++ [(w, me)] |>.

Lemma existsb_waiter (ws : list (Z * Z)) w me x :
  existsb (λ w, w.2 =? x) (ws ++ [(w, me)]) = existsb (λ w, w.2 =? x) ws || (me =? x).
Proof. rewrite existsb_app. cbn. by rewrite orb_false_r. Qed.

Lemma blocked_insert_other (st : gmap Z file_lock) p w me x ps :
  x ≠ me → blocked_on x (omap (λ q, alter (add_waiter w me) p st !! q) ps) = blocked_on x (omap (λ q, st !! q) ps).
Proof.
  intros Hne. induction ps as [|q ps IH]; [done|]. cbn. destruct (decide (q = p)) as [->|Hq].
  - rewrite lookup_alter_eq. destruct (st !! p) as [l|]; [|done]. cbn. rewrite IH, existsb_waiter.
    by rewrite (proj2 (Z.eqb_neq me x)), orb_false_r by done.
  - rewrite lookup_alter_ne by done. destruct (st !! q); [|done]. cbn. by rewrite IH.
Qed.

Lemma blocked_insert_self (st : gmap Z file_lock) p w me ps l :
  blocked_on me (omap (λ q, st !! q) ps) = None → p ∈ ps → st !! p = Some l → fl_owner l ≠ 0 →
  blocked_on me (omap (λ q, alter (add_waiter w me) p st !! q) ps) = Some (fl_owner l).
Proof.
  intros Hnone Hp Hl Ho. induction ps as [|q ps IH]; [set_solver|]. cbn in *. destruct (decide (q = p)) as [->|Hq].
  - rewrite lookup_alter_eq, Hl. cbn. rewrite (proj2 (Z.eqb_neq _ _) Ho), existsb_waiter, Z.eqb_refl, orb_true_r. done.
  - rewrite lookup_alter_ne by done. destruct (st !! q) as [l'|]; cbn in *; [|apply IH; set_solver].
    destruct (fl_owner l' =? 0); [apply IH; set_solver|]. destruct (existsb _ _); [done|]. apply IH; set_solver.
Qed.

(** ** Locks to the end of the file *)

Lemma run_set o f l c n1 n2 s :
  mapped f = false → posix_make_lock o f l = Some c → may_lock f (l_type l) →
  run_lop n1 n2 (SetLk o (Some f) 0 l true true) s = with_caller c (posix_lock_file (Some n1) (Some n2) [] false false 0) s.
Proof.
  intros Hm Ec Hml. cbn [run_lop]. unfold fcntl_setlk. fold (mapped f). rewrite Hm, Ec.
  apply (allowed_spec o f l c Ec) in Hml. by rewrite Hml.
Qed.

Lemma make_lock_at o f t a len :
  t ∈ [F_RDLCK; F_WRLCK; F_UNLCK] → 0 ≤ a ≤ OFFSET_MAX → 0 ≤ len → a + len - 1 < OFFSET_MAX →
  posix_make_lock o f (MkFlock t 0 a len 0) =
    Some (MkLock o (f_id f) FL_POSIX t a (if len =? 0 then OFFSET_MAX else a + len - 1) []).
Proof.
  intros Ht Ha Hlen Hb. unfold posix_make_lock. cbn [l_type l_whence l_start l_len]. change (0 =? 0) with true.
  assert ((t =? F_RDLCK) || (t =? F_WRLCK) || (t =? F_UNLCK) = true) as ->
    by (rewrite !orb_true_iff, !Z.eqb_eq; set_solver).
  unfold OFFSET_MAX in *. cbv iota beta zeta. rewrite Z.add_0_l, (s32_id a) by lia.
  rewrite (proj2 (Z.ltb_ge a 0)), (proj2 (Z.ltb_ge len 0)) by lia. cbn [orb].
  destruct (len =? 0) eqn:El; to_prop; [done|]. rewrite (s32_id (a + len - 1)) by lia. by rewrite (proj2 (Z.ltb_ge (a + len - 1) 0)) by lia.
Qed.

(** All locks on the file are those of process [o]. *)
Definition all_own (s : lks) (o : Z) : Prop :=
  ∀ p, p ∈ i_flock s → ∃ l, store s !! p = Some l ∧ fl_owner l = o ∧ posix_flags (fl_flags l).

Lemma first_conflict_own c ps s :
  (∀ p, p ∈ ps → ∃ l, store s !! p = Some l ∧ fl_owner l = fl_owner c) →
  first_conflict posix_locks_conflict c ps s = Ret None s.
Proof.
  induction ps as [|p ps IH]; intros Hps; [done|]. destruct (Hps p ltac:(set_solver)) as (l & Hl & Ho).
  cbn [first_conflict]. unfold mbind, M_bind, ldl, posix_locks_conflict. rewrite Hl, Ho, Z.eqb_refl. apply IH. set_solver.
Qed.

Lemma head_own s o : all_own s o → head_has FL_FLOCK s = Ret false s.
Proof.
  intros Hown. unfold head_has, mbind, M_bind, at_position, gets, ldl. destruct (i_flock s) as [|p ps] eqn:E; [done|]. cbn.
  destruct (Hown p) as (l & Hl & _ & [Hf _]); [rewrite E; set_solver|]. by rewrite Hl, Hf.
Qed.

Definition on_stack (c : file_lock) (s : lks) : lks := s <| store := <[0 := c]> (store s) |>.

(** With no locks of others a call comes to the loop over the caller's own. *)
Lemma lock_own s c n1 n2 v r s' :
  all_own s (fl_owner c) → store s !! 0 = None →
  posix_scan (S (length (i_flock s))) (MkScan 0 0 false None None) (on_stack c s) = Ret v (on_stack c s) →
  posix_finish n1 n2 v (on_stack c s) = Ret r s' →
  with_caller c (posix_lock_file (Some n1) (Some n2) [] false false 0) s = Ret r (s' <| store := delete 0 (store s') |>).
Proof.
  intros Hown H0 Hscan Hfin. set (s1 := on_stack c s) in *.
  assert (store s1 !! 0 = Some c) as Hc by (cbn; by rewrite lookup_insert_eq).
  assert (all_own s1 (fl_owner c)) as Hown1.
  { intros p Hp. destruct (Hown p Hp) as (l & Hl & ?). exists l. split; [|done]. cbn. rewrite lookup_insert_ne; [done|congruence]. }
  pose proof (head_own s1 _ Hown1) as Hh.
  assert (posix_block [] false false 0 s1 = Ret 0 s1) as Hb.
  { unfold posix_block. rewrite (bind_Ret _ _ _ _ _ Hh). unfold mbind, M_bind, ldl, gets. rewrite Hc, first_conflict_own; [done|].
    intros p Hp. destruct (Hown1 p Hp) as (l & ? & ? & _). by exists l. }
  assert (skip_others (S (length (i_flock s))) (fl_owner c) 0 s1 = Ret 0%nat s1) as Hs.
  { apply (skip_spec _ s1 [] [] (i_flock s1)); [done|set_solver| |cbn; lia].
    destruct (i_flock s1) as [|p ps] eqn:E; [done|]. destruct (Hown1 p) as (l & ? & ? & _); [rewrite E; set_solver|]. by exists l. }
  unfold with_caller. rewrite (bind_Ret _ _ _ tt s1), (bind_Ret _ _ _ r s'); [reflexivity| |reflexivity].
  unfold posix_lock_file. rewrite (bind_Ret _ _ _ c s1) by (unfold ldl; by rewrite Hc).
  rewrite (bind_Ret _ _ _ 0 s1) by (by destruct (fl_type c =? F_UNLCK)). cbn [negb Z.eqb].
  rewrite (bind_Ret _ _ _ _ _ Hh). cbv iota. rewrite (bind_Ret _ _ _ (length (i_flock s)) s1) by reflexivity.
  by rewrite (bind_Ret _ _ _ _ _ Hs), (bind_Ret _ _ _ _ _ Hscan).
Qed.

Lemma finish_new s c n1 n2 before :
  fl_type c ≠ F_UNLCK →
  posix_finish n1 n2 (MkScan before 0 false None None) (on_stack c s) =
    Ret 0 (MkLks (<[n1 := c <| fl_waiters := [] |>]> (<[0 := c]> (store s))) (insert_at before n1 (i_flock s)) (n1 :: file_lock_table s)).
Proof.
  intros Hu. unfold posix_finish, when. assert (ldl 0 (on_stack c s) = Ret c (on_stack c s)) as Hc.
  { unfold ldl. cbn. by rewrite lookup_insert_eq. }
  rewrite (bind_Ret _ _ _ _ _ Hc), (proj2 (Z.eqb_neq _ _) Hu). cbn [negb andb]. cbv iota.
  unfold locks_init_lock. by rewrite !bind_assoc, (bind_Ret _ _ _ _ _ Hc).
Qed.

(** The first lock of the file. *)
Lemma lock_alone s c n1 n2 :
  i_flock s = [] → store s !! 0 = None → n1 ≠ 0 → fl_type c ≠ F_UNLCK → fl_waiters c = [] →
  ∃ s', with_caller c (posix_lock_file (Some n1) (Some n2) [] false false 0) s = Ret 0 s' ∧
    i_flock s' = [n1] ∧ store s' = <[n1 := c]> (store s).
Proof.
  intros Hl H0 Hn Hu Hw. eexists. split.
  { eapply lock_own; [intros p; rewrite Hl; set_solver|done|apply scan_end; cbn; by rewrite Hl|].
    by apply finish_new. }
  cbn. rewrite Hl. split; [done|]. rewrite delete_insert_ne, delete_insert_id by done. destruct c. cbn in *. by rewrite Hw.
Qed.

(** One that reaches the end of the file, while there is one of its type. *)
Lemma lock_to_end s c l p n1 n2 :
  i_flock s = [p] → store s !! p = Some l → store s !! 0 = None → n1 ≠ 0 → fl_waiters c = [] →
  fl_owner l = fl_owner c → posix_flags (fl_flags l) → fl_type c = fl_type l → fl_type c ≠ F_UNLCK →
  fl_end c = OFFSET_MAX → 0 ≤ fl_start c ≤ fl_end l + 1 → 0 ≤ fl_start l → fl_end l < OFFSET_MAX →
  ∃ s', with_caller c (posix_lock_file (Some n1) (Some n2) [] false false 0) s = Ret 0 s' ∧
    i_flock s' = [n1; p] ∧ store s' = <[n1 := c]> (store s).
Proof.
  intros Hl Hp H0 Hn Hw Ho Hpf Ht Hu He Hs Hs' He'. assert (p ≠ 0) as Hp0 by congruence. eexists. split.
  { eapply lock_own; [intros q; rewrite Hl; intros ->%list_elem_of_singleton; by exists l|done| |].
    - eapply (scan_stop _ _ _ _ _ _ _ p l c); [cbn; by rewrite Hl|cbn; by rewrite lookup_insert_ne|cbn; by rewrite lookup_insert_eq|done|].
      left. split_and!; [done|rewrite s32_id; unfold OFFSET_MAX in *; lia|]. rewrite He. change (s32 (OFFSET_MAX + 1)) with (- 2 ^ 31). lia.
    - by apply finish_new. }
  cbn. rewrite Hl. split; [done|]. rewrite delete_insert_ne, delete_insert_id by done. destruct c. cbn in *. by rewrite Hw.
Qed.

Lemma bind_run {S A B} (m : M S A) (k : A → M S B) s a s1 r : m s = Ret a s1 → k a s1 = r → (m ≫= k) s = r.
Proof. intros E <-. by apply bind_Ret. Qed.

(** What clearing does to the lock it ends at changes no other. *)
Lemma finish_split s c l q p n1 n2 lft :
  store s !! 0 = Some c → store s !! q = Some l → q ≠ 0 → p ≠ q → n2 ≠ p → n2 ≠ 0 → lft = None ∨ lft = Some q →
  ∃ s', posix_finish n1 n2 (MkScan 0 0 true lft (Some q)) s = Ret 0 s' ∧
    (p ∈ i_flock s → p ∈ i_flock s') ∧ store s' !! p = store s !! p.
Proof.
  intros Hc Hq Hq0 Hp Hn Hn0 Hlft. unfold posix_finish. rewrite (bind_Ret _ _ _ c s) by (unfold ldl; by rewrite Hc).
  cbn [negb andb when]. rewrite (bind_Ret _ _ _ tt s) by reflexivity. unfold trim_right.
  destruct Hlft as [->| ->].
  - rewrite bool_decide_false, !bind_assoc by done. rewrite (bind_Ret _ _ _ None s) by reflexivity.
    rewrite !bind_assoc, (bind_Ret _ _ _ c s) by (unfold ldl; by rewrite Hc). eexists. split; [reflexivity|]. cbn.
    by rewrite !lookup_alter_ne by done.
  - rewrite bool_decide_true, !bind_assoc by done. unfold locks_init_lock, locks_insert_lock.
    eexists. split; [repeat first [rewrite bind_assoc|eapply bind_run; [first [reflexivity|unfold ldl; by rewrite Hq]|cbv beta]]|].
    + eapply bind_run; [unfold ldl; cbn; rewrite lookup_insert_ne, Hc by done; reflexivity|cbv beta].
      repeat first [rewrite bind_assoc|eapply bind_run; [reflexivity|cbv beta]].
      unfold trim_left. rewrite bind_assoc. eapply bind_run; [unfold ldl; cbn; rewrite !lookup_alter_ne, lookup_insert_ne, Hc by done; reflexivity|reflexivity].
    + cbn. rewrite !lookup_alter_ne, lookup_insert_ne by done. split; [set_solver|done].
Qed.


(** Clearing meets the lock to the end first, and goes no further. *)
Lemma unlock_inside s c l l' p q n1 n2 :
  i_flock s = [q; p] → store s !! p = Some l → store s !! q = Some l' → store s !! 0 = None →
  p ≠ q → n2 ≠ p → n2 ≠ q → n2 ≠ 0 → fl_owner l = fl_owner c → fl_owner l' = fl_owner c →
  posix_flags (fl_flags l) → posix_flags (fl_flags l') → fl_type c = F_UNLCK → fl_type l' ≠ F_UNLCK →
  fl_end l' = OFFSET_MAX → fl_end c < OFFSET_MAX → fl_start c ≤ fl_end c →
  ∃ s', with_caller c (posix_lock_file (Some n1) (Some n2) [] false false 0) s = Ret 0 s' ∧
    p ∈ i_flock s' ∧ store s' !! p = Some l.
Proof.
  intros Hl Hp Hq H0 Hpq Hnp Hnq Hn0 Ho Ho' Hpf Hpf' Hc Hu He Hec Hse.
  assert (p ≠ 0) as Hp0 by congruence. assert (q ≠ 0) as Hq0 by congruence.
  assert (all_own s (fl_owner c)) as Hown.
  { intros x. rewrite Hl. intros [->| ->%list_elem_of_singleton]%elem_of_cons; [by exists l'|by exists l]. }
  assert (store (on_stack c s) !! 0 = Some c) as Hst0 by (cbn; by rewrite lookup_insert_eq).
  assert (∀ x, x ≠ 0 → store (on_stack c s) !! x = store s !! x) as Hst by (intros; cbn; by rewrite lookup_insert_ne).
  destruct (decide (fl_end c < fl_start l')) as [Hlt|Hge].
  { eexists. split; [eapply lock_own; [done..| |]|].
    - eapply (scan_stop _ _ _ _ _ _ _ q l' c); [cbn; by rewrite Hl|by rewrite Hst|done..|]. right. split_and!; [congruence|lia|done].
    - unfold posix_finish, mbind, M_bind, ldl. rewrite Hst0, Hc. reflexivity.
    - cbn. rewrite Hl, lookup_delete_ne, lookup_insert_ne by done. split; [set_solver|done]. }
  destruct (finish_split (on_stack c s) c l' q p n1 n2 (if fl_start l' <? fl_start c then Some q else None)) as (s' & E & Hin & Hs');
    try done; [by rewrite Hst|by destruct (_ <? _); [right|left]|].
  eexists. split; [eapply lock_own; [done..| |exact E]|].
  - rewrite (scan_right _ _ _ _ _ _ _ q l' c); [by rewrite Hc|cbn; by rewrite Hl|by rewrite Hst|done..|congruence|lia|lia|lia].
  - cbn. rewrite lookup_delete_ne, Hs', Hst by done. split; [|done]. apply Hin. cbn. rewrite Hl. set_solver.
Qed.

(** *** A sample run *)

Definition sample_file : file := MkFile 1 3 0 0 1 100 0 0 false.

Definition set_lock (o : Z) (l : flock) : lop := SetLk o (Some sample_file) 0 l true true.

Definition sample_trace : list (lop * Z) := [
  (set_lock 9 (MkFlock F_RDLCK 0 100 0 0), 0);
  (set_lock 7 (MkFlock F_WRLCK 0 0 10 0), 0);
  (set_lock 8 (MkFlock F_RDLCK 0 5 2 0), - EAGAIN);
  (SetLk 7 (Some sample_file) 0 (MkFlock F_UNLCK 0 3 5 0) true false, - ENOLCK);
  (set_lock 7 (MkFlock F_UNLCK 0 3 5 0), 0);
  (set_lock 8 (MkFlock F_RDLCK 0 5 2 0), 0);
  (set_lock 8 (MkFlock F_RDLCK 0 7 (-1) 0), - EINVAL);
  (SetLk 8 None 0 (MkFlock F_RDLCK 0 5 2 0) true true, - EBADF);
  (SetLk 8 (Some sample_file) (- EFAULT) (MkFlock F_RDLCK 0 5 2 0) true true, - EFAULT);
  (Close 7 sample_file, 0)].

Ltac run_step a b :=
  eapply (lr_cons _ a b); [by split|by split|done| |vm_compute; reflexivity|];
  [first [exact I|split; [done|]; intros f c Hf Hc; first [discriminate Hf|injection Hf as <-; first [discriminate Hc|injection Hc as <-; by left]]]|].

Lemma sample_run : ∃ s, lk_run lks_init sample_trace s.
Proof.
  eexists. eapply (lr_cons _ 10 11); [by split|by split|done| |vm_compute; reflexivity|].
  { split; [done|]. intros f c Hf Hc. injection Hf as <-. injection Hc as <-. intros _. right.
    intros b _ (p & l & Hp & _). by apply elem_of_nil in Hp. }
  run_step 12 13. run_step 14 15. run_step 16 17. run_step 16 17. run_step 18 19. run_step 20 21. run_step 20 21.
  run_step 20 21. run_step 22 23. constructor.
Qed.

(** ** Theorems *)


(** [fcntl_getlk] answers [F_UNLCK] when [fcntl_setlk] would not find a
    conflict, and otherwise a lock of another process that is one: the answer
    denotes exactly the bytes of that lock. *)
Theorem getlk_reports tr s pid_of o filp l c :
  lk_run lks_init tr s → posix_make_lock o filp l = Some c → l_len l ≤ OFFSET_MAX →
  l_type l = F_RDLCK ∨ l_type l = F_WRLCK →
  ∃ r, fcntl_getlk pid_of o (Some filp) 0 l s = Ret (0, Some r) s ∧
    if decide (l_type r = F_UNLCK) then ¬ conflicting s o (fl_start c) (fl_end c) (fl_type c)
    else conflicting s o (fl_start c) (fl_end c) (fl_type c) ∧
      ∃ p fl c', p ∈ i_flock s ∧ store s !! p = Some fl ∧ posix_locks_conflict c fl = true ∧
        l_pid r = pid_of (fl_owner fl) ∧ posix_make_lock (fl_owner fl) filp r = Some c' ∧
        fl_type c' = fl_type fl ∧ fl_start c' = fl_start fl ∧ fl_end c' = fl_end fl.
Proof.
  intros Hrun Ec Hlen Hty. destruct (lk_run_sim _ _ _ (λ _ _, None) Hrun lks_init_inv) as (T & _ & _ & [gs Hwf] & _).
  { intros o' t b. split; [|done]. by intros (p & fl & ?%elem_of_nil & _). }
  pose proof (make_lock_request o filp l c Ec Hlen) as [Ho _ _ _ Hr _ Htc].
  assert (fl_type c ∈ [F_RDLCK; F_WRLCK]) as Htc'.
  { rewrite (make_lock_type o filp l c Ec Hty), !elem_of_cons. tauto. }
  pose proof (conflict_spec s gs c Hwf Hr Htc') as Hiff. rewrite Ho in Hiff.
  destruct (getlk_loop_spec pid_of c (l <| l_type := F_UNLCK |>) (i_flock s) s) as (r & E & Hres).
  { intros p Hp. destruct (wf_lookup s gs p Hwf Hp) as (fl & Hfl & _ & Hpx & _). by exists fl. }
  exists r. split.
  { unfold fcntl_getlk. change (negb (0 =? 0)) with false. cbv iota. rewrite Ec.
    assert ((l_type l =? F_RDLCK) || (l_type l =? F_WRLCK) = true) as -> by (rewrite orb_true_iff, !Z.eqb_eq; done). cbn [negb].
    unfold mbind, M_bind, gets. by rewrite E. }
  destruct Hres as [[-> Hno]|(p & fl & Hp & Hfl & Hcf & ->)].
  - rewrite decide_True by done. rewrite <-Hiff. intros (p & fl & Hp & Hfl & Hcf). by rewrite (Hno p fl) in Hcf.
  - destruct (wf_lookup s gs p Hwf Hp) as (fl' & Hfl' & Hrf & _ & Htf). rewrite Hfl in Hfl'. injection Hfl' as <-.
    rewrite decide_False by (by apply unlck_ne). split; [apply Hiff; by exists p, fl|].
    destruct (getlk_answer_range (fl_owner fl) filp fl (pid_of (fl_owner fl)) Hrf Htf) as (c' & E' & ?).
    exists p, fl, c'. done.
Qed.

(** C22: as long as no processes wait for each other in a circle, the search for
    deadlocks ends, and finds one exactly when the holder of the lock waits,
    through others, for the caller; when it finds none, the caller waits and
    still no processes wait in a circle. *)
Theorem waits_stay_acyclic s p l c :
  p ∈ file_lock_table s → store s !! p = Some l → fl_owner l ≠ 0 → store s !! 0 = Some c →
  blocked_on (fl_owner c) (all_locks s) = None → acyclic (waits s) →
  ∃ r, deadlock (fl_owner c) (fl_owner l) s = Ret r s ∧ (r = true ↔ rtc (waits s) (fl_owner l) (fl_owner c)) ∧
    (r = false → ∃ s', locks_insert_block p 0 s = Ret tt s' ∧ acyclic (waits s') ∧ waits s' (fl_owner c) (fl_owner l)).
Proof.
  intros Hp Hl Ho Hc Hnone Hac. set (me := fl_owner c) in *.
  destruct (deadlock_search (all_locks s) me Hac (2 + length (file_lock_table s)) (fl_owner l) []) as (r & E & Hr).
  { constructor. }
  { set_solver. }
  { set_solver. }
  { pose proof (all_locks_length s). cbn. lia. }
  exists r. split; [unfold deadlock; by rewrite E|]. split; [done|]. intros ->.
  eexists. split; [unfold locks_insert_block, mbind, M_bind, ldl, stl, modify; rewrite Hc; reflexivity|].
  fold me. change (λ l0, l0 <| fl_waiters := fl_waiters l0 ++ [(0, me)] |>) with (add_waiter 0 me).
  assert (blocked_on me (omap (λ q, alter (add_waiter 0 me) p (store s) !! q) (file_lock_table s)) = Some (fl_owner l)) as Hself
    by (by apply blocked_insert_self).
  split; [|exact Hself]. apply (acyclic_add (waits s) _ me (fl_owner l) Hac).
  - intros Hrtc. by apply Hr in Hrtc.
  - intros x y Hxy. unfold waits, all_locks in *. cbn in Hxy. destruct (decide (x = me)) as [->|Hne].
    + right. split; [done|]. congruence.
    + left. by rewrite blocked_insert_other in Hxy.
Qed.

(** C38: a lock that reaches the end of the file is not joined with one of the
    same type that it meets, because the end plus one wraps: on a file without
    locks, after a lock on the bytes from [a] to [b] and one of the same type
    from any byte up to [b + 1] on to the end, clearing the bytes from [a] to [b]
    returns 0 and the process still has its lock on every one of them. *)
Theorem eof_lock_survives_unlock s o f t a b lo n1 n2 n3 n4 n5 n6 :
  i_flock s = [] → store s !! 0 = None → Forall (fresh s) [n1; n2; n3; n4; n5; n6] → NoDup [n1; n2; n3; n4; n5; n6] →
  mapped f = false → t = F_RDLCK ∨ t = F_WRLCK → may_lock f t → 0 ≤ a ≤ b → b < OFFSET_MAX → 0 ≤ lo ≤ b + 1 →
  ∃ s1 s2 s3,
    run_lop n1 n2 (SetLk o (Some f) 0 (MkFlock t 0 a (b - a + 1) 0) true true) s = Ret 0 s1 ∧
    run_lop n3 n4 (SetLk o (Some f) 0 (MkFlock t 0 lo 0 0) true true) s1 = Ret 0 s2 ∧
    run_lop n5 n6 (SetLk o (Some f) 0 (MkFlock F_UNLCK 0 a (b - a + 1) 0) true true) s2 = Ret 0 s3 ∧
    ∀ x, a ≤ x ≤ b → held s3 o t x.
Proof.
  intros Hl H0 Hf Hnd Hm Ht Hml Hab Hb Hlo. rewrite !Forall_cons in Hf. rewrite !NoDup_cons, !not_elem_of_cons in Hnd.
  destruct Hf as ([Hz1 F1] & _ & [Hz3 F3] & _ & _ & [Hz6 F6] & _).
  destruct Hnd as ((_ & N13 & _ & _ & N16 & _) & _ & (_ & _ & N36 & _) & _).
  assert (t ∈ [F_RDLCK; F_WRLCK; F_UNLCK] ∧ t ≠ F_UNLCK) as [Hin Hu] by (destruct Ht as [->| ->]; set_solver).
  set (c1 := MkLock o (f_id f) FL_POSIX t a b []). set (c2 := MkLock o (f_id f) FL_POSIX t lo OFFSET_MAX []).
  assert (∀ t, t ∈ [F_RDLCK; F_WRLCK; F_UNLCK] →
    posix_make_lock o f (MkFlock t 0 a (b - a + 1) 0) = Some (MkLock o (f_id f) FL_POSIX t a b [])) as Hmk.
  { intros t' Ht'. rewrite make_lock_at by (try done; unfold OFFSET_MAX in *; lia).
    rewrite (proj2 (Z.eqb_neq _ _)) by lia. do 2 f_equal. lia. }
  destruct (lock_alone s c1 n1 n2) as (s1 & E1 & L1 & S1); try done.
  destruct (lock_to_end s1 c2 c1 n1 n3 n4) as (s2 & E2 & L2 & S2); try done; [by rewrite S1, lookup_insert_eq|by rewrite S1, lookup_insert_ne|cbn; lia..|].
  destruct (unlock_inside s2 (MkLock o (f_id f) FL_POSIX F_UNLCK a b []) c1 c2 n1 n3 n5 n6) as (s3 & E3 & L3 & S3); try done.
  { by rewrite S2, S1, lookup_insert_ne, lookup_insert_eq. }
  { by rewrite S2, lookup_insert_eq. }
  { by rewrite S2, S1, !lookup_insert_ne. }
  { cbn. lia. }
  exists s1, s2, s3. split_and!.
  - by rewrite (run_set o f _ c1) by (try done; by apply Hmk).
  - rewrite (run_set o f _ c2); [done|done| |done]. rewrite make_lock_at by (try done; unfold OFFSET_MAX in *; lia). done.
  - rewrite (run_set o f _ (MkLock o (f_id f) FL_POSIX F_UNLCK a b [])); [done|done|apply Hmk; set_solver|by left].
  - intros x Hx. exists n1, c1. split_and!; try done; unfold cover; cbn; lia.
Qed.

(** ** Witnesses *)


Lemma getlk_reports_witness :
  ∃ s r, lk_run lks_init [(set_lock 7 (MkFlock F_WRLCK 0 0 10 0), 0)] s ∧
    fcntl_getlk (λ o, o) 8 (Some sample_file) 0 (MkFlock F_RDLCK 0 5 2 0) s = Ret (0, Some r) s ∧
    l_type r = F_WRLCK ∧ l_pid r = 7 ∧ conflicting s 8 5 6 F_RDLCK.
Proof.
  assert (∃ s, lk_run lks_init [(set_lock 7 (MkFlock F_WRLCK 0 0 10 0), 0)] s ∧
    fcntl_getlk (λ o, o) 8 (Some sample_file) 0 (MkFlock F_RDLCK 0 5 2 0) s = Ret (0, Some (MkFlock F_WRLCK 0 0 10 7)) s)
    as (s & Hs & Hg).
  { eexists. split; [run_step 12 13; constructor|vm_compute; reflexivity]. }
  destruct (getlk_reports _ s (λ o, o) 8 sample_file (MkFlock F_RDLCK 0 5 2 0) (MkLock 8 1 1 0 5 6 []) Hs)
    as (r & E & Hr); [reflexivity|done|by left|].
  rewrite Hg in E. injection E as <-. exists s, (MkFlock F_WRLCK 0 0 10 7).
  rewrite decide_False in Hr by done. destruct Hr as [Hr _]. done.
Defined.

Lemma waits_stay_acyclic_witness :
  let s := MkLks {[ 0 := MkLock 8 1 1 1 0 9 []; 1 := MkLock 7 1 1 1 0 9 [(5, 9)] ]} [1] [1] in
  ∃ s', deadlock 8 7 s = Ret false s ∧ locks_insert_block 1 0 s = Ret tt s' ∧ acyclic (waits s') ∧ waits s' 8 7.
Proof.
  intros s. assert (deadlock 8 7 s = Ret false s) as Hd by reflexivity.
  assert (∀ x y, waits s x y → x = 9 ∧ y = 7) as Hw.
  { intros x y. unfold waits. change (all_locks s) with [MkLock 7 1 1 1 0 9 [(5, 9)]]. cbn -[Z.eqb].
    change (7 =? 0) with false. destruct (9 =? x) eqn:E; to_prop; cbn; naive_solver. }
  destruct (waits_stay_acyclic s 1 (MkLock 7 1 1 1 0 9 [(5, 9)]) (MkLock 8 1 1 1 0 9 [])) as (r & E & _ & Hr);
    [cbn; set_solver|reflexivity|done|reflexivity|reflexivity| |].
  { intros x Hx. assert (∀ a b, tc (waits s) a b → a = 9 ∧ b = 7) as Ht; [|by apply Ht in Hx as [-> ?]].
    induction 1 as [a b Hab|a b z Hab _ IH]; [by apply Hw|]. apply Hw in Hab. naive_solver. }
  cbn [fl_owner] in E, Hr. rewrite Hd in E. injection E as <-. destruct (Hr eq_refl) as (s' & ? & ? & ?). by exists s'.
Defined.

Lemma eof_lock_survives_unlock_witness :
  ∃ s1 s2 s3,
    run_lop 10 11 (set_lock 7 (MkFlock F_RDLCK 0 10 11 0)) lks_init = Ret 0 s1 ∧
    run_lop 12 13 (set_lock 7 (MkFlock F_RDLCK 0 0 0 0)) s1 = Ret 0 s2 ∧
    run_lop 14 15 (set_lock 7 (MkFlock F_UNLCK 0 10 11 0)) s2 = Ret 0 s3 ∧ held s3 7 F_RDLCK 15.
Proof.
  destruct (eof_lock_survives_unlock lks_init 7 sample_file F_RDLCK 10 20 0 10 11 12 13 14 15) as (s1 & s2 & s3 & ? & ? & ? & Hh);
    [done|done|repeat constructor; done|by_compute|done|by left|right; by left|lia|done|lia|].
  exists s1, s2, s3. split_and!; [done..|]. apply Hh. lia.
Defined.
