(* ===== verification/Sem.v ===== *)
(** * Sem: System V semaphores

    Models ipc/sem.c and [ipcperms] of ipc/util.c: the table of semaphore sets,
    [semget], [semop], [semctl], and the undoing of operations at exit.

    The structures that are linked by pointers are kept in stores: an undo
    structure is at its address in [undos], and the [struct sem_queue] on the
    stack of a process that sleeps is in [queues] under the task's number, which
    also stands for [current->semsleeping].  A list of them is a list of
    addresses; [q_linked] says that [q->prev] is not null.

    [semop] is in two parts, up to the sleep and after it.  The caller is a
    [caller]: its task, credentials, pid and the time; [verify_area] is what the
    caller's memory answers, and the memory is resident, so that copying does
    not sleep.  The accounting flag that [suser] sets is not tracked. *)

From stdpp Require Import gmap.
From S2P Require Import Prelude Cred.

(** ** Code *)

Definition s16 (x : Z) : Z := (x + 2 ^ 15) mod 2 ^ 16 - 2 ^ 15.

Definition E2BIG : Z := 7.
Definition EEXIST : Z := 17.
Definition EFBIG : Z := 27.
Definition ENOENT : Z := 2.
Definition ENOSPC : Z := 28.
Definition ERANGE : Z := 34.
Definition EIDRM : Z := 43.

Definition SEM_UNDO : Z := 0x1000.
Definition IPC_CREAT : Z := 0x200.
Definition IPC_EXCL : Z := 0x400.
Definition IPC_NOWAIT : Z := 0x800.
Definition IPC_PRIVATE : Z := 0.
Definition IPC_RMID : Z := 0.
Definition IPC_SET : Z := 1.
Definition IPC_STAT : Z := 2.
Definition IPC_INFO : Z := 3.
Definition GETPID : Z := 11.
Definition GETVAL : Z := 12.
Definition GETALL : Z := 13.
Definition GETNCNT : Z := 14.
Definition GETZCNT : Z := 15.
Definition SETVAL : Z := 16.
Definition SETALL : Z := 17.
Definition SEM_STAT : Z := 18.
Definition SEM_INFO : Z := 19.
Definition SEMMNI : Z := 128.
Definition SEMMSL : Z := 32.
Definition SEMMNS : Z := SEMMNI * SEMMSL.
Definition SEMOPM : Z := 32.
Definition SEMVMX : Z := 32767.
Definition S_IRUGO : Z := 0x124.
Definition S_IWUGO : Z := 0x92.

Record ipc_perm := MkPerm {
  p_key : Z; p_uid : Z; p_gid : Z; p_cuid : Z; p_cgid : Z; p_mode : Z; p_seq : Z;
}.

#[global] Instance eta_ipc_perm : Eta ipc_perm := λ x,
  MkPerm (p_key x) (p_uid x) (p_gid x) (p_cuid x) (p_cgid x) (p_mode x) (p_seq x).

Record sem := MkSem { semval : Z; sempid : Z }.

#[global] Instance eta_sem : Eta sem := λ x, MkSem (semval x) (sempid x).

Record sembuf := MkBuf { sem_num : Z; sem_op : Z; sem_flg : Z }.

Record semid_ds := MkSet {
  sem_perm : ipc_perm; sem_otime : Z; sem_ctime : Z;
  sem_base : list sem; sem_pending : list Z; undo : list Z; sem_nsems : Z;
}.

#[global] Instance eta_semid_ds : Eta semid_ds := λ x,
  MkSet (sem_perm x) (sem_otime x) (sem_ctime x) (sem_base x) (sem_pending x) (undo x) (sem_nsems x).

Record sem_queue := MkQueue {
  q_linked : bool; q_undo : option Z; q_pid : Z; q_status : Z; q_sma : nat; q_sops : list sembuf;
}.

#[global] Instance eta_sem_queue : Eta sem_queue := λ x,
  MkQueue (q_linked x) (q_undo x) (q_pid x) (q_status x) (q_sma x) (q_sops x).

Record sem_undo := MkUndo { un_semid : Z; semadj : list Z }.

#[global] Instance eta_sem_undo : Eta sem_undo := λ x, MkUndo (un_semid x) (semadj x).

(** An entry of [semary]: [IPC_UNUSED], [IPC_NOID] or a set. *)
Inductive slot := Unused | NoId | Used (sma : semid_ds).

Record ss := MkSS {
  semary : list slot;
  used_sems : Z; used_semids : Z; max_semid : nat; sem_seq : Z;
  queues : gmap Z sem_queue;
  undos : gmap Z sem_undo;
  semundo : gmap Z (list Z);
}.

#[global] Instance eta_ss : Eta ss := λ x,
  MkSS (semary x) (used_sems x) (used_semids x) (max_semid x) (sem_seq x) (queues x) (undos x) (semundo x).

Record caller := MkCaller { c_task : Z; c_cred : cred; c_pid : Z; c_now : Z }.

Definition sem_init : ss := MkSS (replicate (Z.to_nat SEMMNI) Unused) 0 0 0 0 ∅ ∅ ∅.

Definition ipcperms (c : caller) (ipcp : ipc_perm) (flag : Z) : bool :=
  let flag := s16 flag in
  if fst (suser (c_cred c)) then false
  else
    let requested_mode := Z.lor (Z.lor (Z.shiftr flag 6) (Z.shiftr flag 3)) flag in
    let granted_mode :=
      if (euid (c_cred c) =? p_cuid ipcp) || (euid (c_cred c) =? p_uid ipcp) then Z.shiftr (p_mode ipcp) 6
      else if in_group_p (p_cgid ipcp) (c_cred c) || in_group_p (p_gid ipcp) (c_cred c) then Z.shiftr (p_mode ipcp) 3
      else p_mode ipcp in
    has (Z.land requested_mode (Z.lnot granted_mode)) 7.

(** *** Access to the stores *)

Definition ld_sma (id : nat) : M ss semid_ds := λ s,
  match semary s !! id with
  | Some (Used sma) => Ret sma s
  | _ => Stuck NullDeref s
  end.
Definition st_sma (id : nat) (f : semid_ds → semid_ds) : M ss unit :=
  sma ← ld_sma id;
  modify (λ s, s <| semary := <[id := Used (f sma)]> (semary s) |>).

Definition ld_queue (q : Z) : M ss sem_queue := λ s,
  match queues s !! q with Some x => Ret x s | None => Stuck NullDeref s end.
Definition st_queue (q : Z) (f : sem_queue → sem_queue) : M ss unit :=
  modify (λ s, s <| queues := alter f q (queues s) |>).
Definition ld_undo (u : Z) : M ss sem_undo := λ s,
  match undos s !! u with Some x => Ret x s | None => Stuck NullDeref s end.
Definition st_undo (u : Z) (f : sem_undo → sem_undo) : M ss unit :=
  modify (λ s, s <| undos := alter f u (undos s) |>).

(** *** Creating a set *)

(** [while (sma == IPC_NOID) sleep]: [naps] is what others do during each sleep. *)
Fixpoint wait_id (naps : list (ss → ss)) (id : nat) : M ss (list (ss → ss)) :=
  sl ← gets (λ s, semary s !! id);
  match sl, naps with
  | Some NoId, [] => halt Asleep
  | Some NoId, n :: naps' => modify n ;; wait_id naps' id
  | _, _ => mret naps
  end.

Fixpoint findkey_from (fuel : nat) (naps : list (ss → ss)) (key : Z) (id : nat) : M ss (option nat) :=
  match fuel with
  | O => halt OutOfFuel
  | S fuel' =>
      max ← gets max_semid;
      if (max <? id)%nat then mret None
      else
        naps ← wait_id naps id;
        sl ← gets (λ s, semary s !! id);
        match sl with
        | Some (Used sma) => if key =? p_key (sem_perm sma) then mret (Some id) else findkey_from fuel' naps key (S id)
        | Some _ => findkey_from fuel' naps key (S id)
        | None => halt OutOfBounds
        end
  end.

Definition findkey (naps : list (ss → ss)) (key : Z) : M ss (option nat) :=
  findkey_from (S (Z.to_nat SEMMNI)) naps key 0.

Fixpoint first_unused (sl : list slot) : option nat :=
  match sl with
  | [] => None
  | Unused :: _ => Some O
  | _ :: sl' => S <$> first_unused sl'
  end.

Definition set_slot (id : nat) (sl : slot) : M ss unit := modify (λ s, s <| semary := <[id := sl]> (semary s) |>).

Definition ident (seq : Z) (id : nat) : Z := seq * SEMMNI + Z.of_nat id.

(** [kmalloc] may sleep, [knap] is what others do meanwhile, and may fail. *)
Definition newary (c : caller) (knap : ss → ss) (kmalloc : bool) (key nsems semflg : Z) : M ss Z :=
  if nsems =? 0 then mret (- EINVAL)
  else
    used ← gets used_sems;
    if SEMMNS <? used + nsems then mret (- ENOSPC)
    else
      free ← gets (λ s, first_unused (semary s));
      match free with
      | None => mret (- ENOSPC)
      | Some id =>
          set_slot id NoId ;;
          modify (λ s, s <| used_sems := used_sems s + nsems |>) ;;
          modify knap ;;
          if negb kmalloc then
            set_slot id Unused ;;
            modify (λ s, s <| used_sems := used_sems s - nsems |>) ;;
            mret (- ENOMEM)
          else
            seq ← gets sem_seq;
            let e := euid (c_cred c) in
            let g := egid (c_cred c) in
            let sma := MkSet (MkPerm key e g e g (Z.land semflg S_IRWXUGO) seq) 0 (c_now c)
              (replicate (Z.to_nat nsems) (MkSem 0 0)) [] [] nsems in
            modify (λ s, s <| max_semid := Nat.max id (max_semid s) |>
                           <| used_semids := used_semids s + 1 |>) ;;
            set_slot id (Used sma) ;;
            mret (ident seq id)
      end.

Definition sys_semget (c : caller) (naps : list (ss → ss)) (knap : ss → ss) (kmalloc : bool)
    (key nsems semflg : Z) : M ss Z :=
  if (nsems <? 0) || (SEMMSL <? nsems) then mret (- EINVAL)
  else if key =? IPC_PRIVATE then newary c knap kmalloc key nsems semflg
  else
    found ← findkey naps key;
    match found with
    | None =>
        if negb (has semflg IPC_CREAT) then mret (- ENOENT) else newary c knap kmalloc key nsems semflg
    | Some id =>
        if has semflg IPC_CREAT && has semflg IPC_EXCL then mret (- EEXIST)
        else
          sma ← ld_sma id;
          if sem_nsems sma <? nsems then mret (- EINVAL)
          else if ipcperms c (sem_perm sma) semflg then mret (- EACCES)
          else mret (ident (p_seq (sem_perm sma)) id)
    end.

(** *** Operations on a set *)

Definition insert_into_queue (id : nat) (q : Z) : M ss unit :=
  st_sma id (λ sma, sma <| sem_pending := sem_pending sma ++ [q] |>) ;;
  st_queue q (λ x, x <| q_linked := true |>).

Definition remove_from_queue (id : nat) (q : Z) : M ss unit :=
  st_sma id (λ sma, sma <| sem_pending := filter (λ p, p ≠ q) (sem_pending sma) |>) ;;
  st_queue q (λ x, x <| q_linked := false |>).

(** On the array [sma->sem_base]. *)
Definition ld_sem (n : Z) : M (list sem) sem := λ b,
  match b !! Z.to_nat n with Some x => Ret x b | None => Stuck OutOfBounds b end.
Definition add_sem (n d : Z) : M (list sem) unit :=
  modify (λ b, alter (λ x, x <| semval := s16 (semval x + d) |>) (Z.to_nat n) b).

(** The first loop: the result and the number of operations to take back. *)
Fixpoint try_loop (sops : list sembuf) (i : nat) : M (list sem) (Z * nat) :=
  match sops with
  | [] => mret (0, i)
  | sop :: sops' =>
      curr ← ld_sem (sem_num sop);
      if SEMVMX <? sem_op sop + semval curr then mret (- ERANGE, i)
      else if (sem_op sop =? 0) && negb (semval curr =? 0) then
        mret (if has (sem_flg sop) IPC_NOWAIT then - EAGAIN else 1, i)
      else
        add_sem (sem_num sop) (sem_op sop) ;;
        curr ← ld_sem (sem_num sop);
        if semval curr <? 0 then mret (if has (sem_flg sop) IPC_NOWAIT then - EAGAIN else 1, S i)
        else try_loop sops' (S i)
  end.

Definition try_semop (sops : list sembuf) : M (list sem) Z :=
  '(result, i) ← try_loop sops 0;
  for_each (reverse (take i sops)) (λ sop, add_sem (sem_num sop) (- sem_op sop)) ;;
  mret result.

(** [do_semop] on the array and the adjustments of [un], if there is one. *)
Record sem_work := MkWork { w_base : list sem; w_adj : option (list Z) }.

#[global] Instance eta_sem_work : Eta sem_work := λ x, MkWork (w_base x) (w_adj x).

Definition on_base {A} (m : M (list sem) A) : M sem_work A := λ w,
  match m (w_base w) with
  | Ret a b => Ret a (w <| w_base := b |>)
  | Stuck e b => Stuck e (w <| w_base := b |>)
  end.

Definition sub_adj (n d : Z) : M sem_work unit := λ w,
  match w_adj w with
  | None => Stuck NullDeref w
  | Some adj =>
      match adj !! Z.to_nat n with
      | None => Stuck OutOfBounds w
      | Some x => Ret tt (w <| w_adj := Some (<[Z.to_nat n := s16 (x - d)]> adj) |>)
      end
  end.

Definition set_pid (n pid : Z) : M sem_work unit :=
  modify (λ w, w <| w_base := alter (λ x, x <| sempid := s16 pid |>) (Z.to_nat n) (w_base w) |>).

(** A [break] leaves the loop. *)
Fixpoint do_loop (sops : list sembuf) (pid : Z) : M sem_work unit :=
  match sops with
  | [] => mret tt
  | sop :: sops' =>
      curr ← on_base (ld_sem (sem_num sop));
      if SEMVMX <? sem_op sop + semval curr then mret tt
      else if sem_op sop =? 0 then
        if negb (semval curr =? 0) then mret tt
        else set_pid (sem_num sop) pid ;; do_loop sops' pid
      else
        on_base (add_sem (sem_num sop) (sem_op sop)) ;;
        curr ← on_base (ld_sem (sem_num sop));
        if semval curr <? 0 then mret tt
        else
          when (has (sem_flg sop) SEM_UNDO) (sub_adj (sem_num sop) (sem_op sop)) ;;
          set_pid (sem_num sop) pid ;;
          do_loop sops' pid
  end.

(** The array of set [id]. *)
Definition in_set {A} (id : nat) (m : M (list sem) A) : M ss A := λ s,
  match semary s !! id with
  | Some (Used sma) =>
      match m (sem_base sma) with
      | Ret a b => Ret a (s <| semary := <[id := Used (sma <| sem_base := b |>)]> (semary s) |>)
      | Stuck e b => Stuck e (s <| semary := <[id := Used (sma <| sem_base := b |>)]> (semary s) |>)
      end
  | _ => Stuck NullDeref s
  end.

Definition adj_of (un : option Z) (s : ss) : option (list Z) :=
  match un with Some u => semadj <$> undos s !! u | None => None end.

Definition do_semop (now : Z) (id : nat) (sops : list sembuf) (un : option Z) (pid : Z) : M ss Z :=
  sma ← ld_sma id;
  adj ← gets (adj_of un);
  match do_loop sops pid (MkWork (sem_base sma) adj) with
  | Stuck e _ => halt e
  | Ret _ w =>
      st_sma id (λ sma, sma <| sem_base := w_base w |> <| sem_otime := now |>) ;;
      match un, w_adj w with
      | Some u, Some a => st_undo u (λ x, x <| semadj := a |>)
      | _, _ => mret tt
      end ;;
      mret 0
  end.

(** One pass over the queue: whether a process was woken up. *)
Fixpoint update_pass (now : Z) (id : nat) (ps : list Z) (wokeup : bool) : M ss bool :=
  match ps with
  | [] => mret wokeup
  | p :: ps' =>
      q ← ld_queue p;
      error ← in_set id (try_semop (q_sops q));
      if 0 <? error then update_pass now id ps' wokeup
      else
        error ← (if error =? 0 then do_semop now id (q_sops q) (q_undo q) (q_pid q) else mret error);
        st_queue p (λ x, x <| q_status := error |>) ;;
        remove_from_queue id p ;;
        update_pass now id ps' true
  end.

Fixpoint update_loop (fuel : nat) (now : Z) (id : nat) : M ss unit :=
  match fuel with
  | O => halt OutOfFuel
  | S fuel' =>
      sma ← ld_sma id;
      wokeup ← update_pass now id (sem_pending sma) false;
      if (wokeup : bool) then update_loop fuel' now id else mret tt
  end.

(** Each pass but the last removes a process from the queue. *)
Definition update_queue (now : Z) (id : nat) : M ss unit :=
  sma ← ld_sma id;
  update_loop (S (length (sem_pending sma))) now id.

Definition count_ops (test : Z → bool) (semnum : Z) (sops : list sembuf) : Z :=
  Z.of_nat (length (filter (λ b, (sem_num b =? semnum) && test (sem_op b) && negb (has (sem_flg b) IPC_NOWAIT) = true) sops)).

(** [count_semncnt] and [count_semzcnt] differ in the operations they count. *)
Fixpoint count_queue (test : Z → bool) (semnum : Z) (ps : list Z) (n : Z) : M ss Z :=
  match ps with
  | [] => mret n
  | p :: ps' => q ← ld_queue p; count_queue test semnum ps' (n + count_ops test semnum (q_sops q))
  end.

Definition count_semncnt (sma : semid_ds) (semnum : Z) : M ss Z :=
  count_queue (λ op, op <? 0) semnum (sem_pending sma) 0.

Definition count_semzcnt (sma : semid_ds) (semnum : Z) : M ss Z :=
  count_queue (λ op, op =? 0) semnum (sem_pending sma) 0.

(** *** Removing a set *)

(** [while (max_semid && (semary[--max_semid] == IPC_UNUSED));] *)
Fixpoint lower (sl : list slot) (max : nat) : nat :=
  match max with
  | O => O
  | S m => match sl !! m with Some Unused => lower sl m | _ => m end
  end.

Definition freeary (id : nat) : M ss unit :=
  sma ← ld_sma id;
  modify (λ s, s <| sem_seq := u16 ((sem_seq s + 1) mod (2 ^ 31 / SEMMNI)) |>
                 <| used_sems := used_sems s - sem_nsems sma |>
                 <| max_semid := if (id =? max_semid s)%nat then lower (semary s) (max_semid s) else max_semid s |>) ;;
  set_slot id Unused ;;
  modify (λ s, s <| used_semids := used_semids s - 1 |>) ;;
  for_each (undo sma) (λ u, st_undo u (λ x, x <| un_semid := -1 |>)) ;;
  for_each (sem_pending sma) (λ q, st_queue q (λ x, x <| q_status := - EIDRM |> <| q_linked := false |>)).

(** *** semctl *)

(** What [union semun] points to: what [verify_area] says, the value, the array,
    and the owner, group and mode of an [IPC_SET]. *)
Record semun := MkArg { va : Z; a_val : Z; a_array : nat → Z; a_uid : Z; a_gid : Z; a_mode : Z }.

(** What is copied to the caller; of [struct seminfo] the fields that are not
    constants. *)
Inductive reply :=
  | NoReply
  | InfoReply (semusz semaem : Z)
  | StatReply (perm : ipc_perm) (otime ctime nsems : Z)
  | ArrayReply (l : list Z).

Definition SEMUSZ : Z := 20.
Definition SEMAEM : Z := 16383.

Definition stat_of (sma : semid_ds) : reply :=
  StatReply (sem_perm sma) (sem_otime sma) (sem_ctime sma) (sem_nsems sma).

Definition slot_of (semid : Z) : nat := Z.to_nat (semid mod SEMMNI).
Definition seq_of (semid : Z) : Z := semid / SEMMNI.

(** [un->semadj[i] = 0] for the undo structures of the set. *)
Definition clear_adj (sma : semid_ds) (i : Z) : M ss unit :=
  for_each (undo sma) (λ u, st_undo u (λ x, x <| semadj := <[Z.to_nat i := 0]> (semadj x) |>)).

Definition may_control (c : caller) (p : ipc_perm) : bool :=
  fst (suser (c_cred c)) || (euid (c_cred c) =? p_cuid p) || (euid (c_cred c) =? p_uid p).

Definition ctl_info (cmd : Z) (arg : semun) : M ss (Z * reply) :=
  s ← gets (λ s, s);
  if negb (va arg =? 0) then mret (va arg, NoReply)
  else
    mret (Z.of_nat (max_semid s),
      if cmd =? SEM_INFO then InfoReply (used_semids s) (used_sems s) else InfoReply SEMUSZ SEMAEM).

Definition ctl_stat (c : caller) (semid : Z) (arg : semun) : M ss (Z * reply) :=
  if negb (va arg =? 0) then mret (va arg, NoReply)
  else
    s ← gets (λ s, s);
    if Z.of_nat (max_semid s) <? semid then mret (- EINVAL, NoReply)
    else
      match semary s !! Z.to_nat semid with
      | Some (Used sma) =>
          if ipcperms c (sem_perm sma) S_IRUGO then mret (- EACCES, NoReply)
          else mret (ident (p_seq (sem_perm sma)) (Z.to_nat semid), stat_of sma)
      | Some _ => mret (- EINVAL, NoReply)
      | None => halt OutOfBounds
      end.

(** The first [switch] on a set: the answer, or 0 to go on. *)
Definition ctl_get (c : caller) (sma : semid_ds) (semnum cmd : Z) (arg : semun) : M ss (option Z) :=
  if ipcperms c (sem_perm sma) S_IRUGO then mret (Some (- EACCES))
  else if cmd =? GETALL then mret (if negb (va arg =? 0) then Some (va arg) else None)
  else if cmd =? GETNCNT then n ← count_semncnt sma semnum; mret (Some n)
  else if cmd =? GETZCNT then n ← count_semzcnt sma semnum; mret (Some n)
  else
    match sem_base sma !! Z.to_nat semnum with
    | None => halt OutOfBounds
    | Some curr => mret (Some (if cmd =? GETVAL then semval curr else sempid curr))
    end.

Definition sem_io (n : Z) (arg : semun) : list Z := (λ i, u16 (a_array arg i)) <$> seq 0 (Z.to_nat n).

Definition one_sem (cmd : Z) : bool :=
  (cmd =? GETVAL) || (cmd =? GETPID) || (cmd =? GETNCNT) || (cmd =? GETZCNT) || (cmd =? SETVAL).

(** The [switch] before the set is looked up again: the answer, if there is one
    already. *)
Definition ctl_check (c : caller) (id : nat) (sma : semid_ds) (semnum cmd : Z) (arg : semun) : M ss (option Z) :=
  if (cmd =? GETVAL) || (cmd =? GETPID) || (cmd =? GETNCNT) || (cmd =? GETZCNT) || (cmd =? GETALL) then
    ctl_get c sma semnum cmd arg
  else if cmd =? SETVAL then
    mret (if (SEMVMX <? a_val arg) || (a_val arg <? 0) then Some (- ERANGE) else None)
  else if cmd =? IPC_RMID then
    if may_control c (sem_perm sma) then freeary id ;; mret (Some 0) else mret (Some (- EPERM))
  else if cmd =? SETALL then
    if negb (va arg =? 0) then mret (Some (va arg))
    else mret (if existsb (λ v, SEMVMX <? v) (sem_io (sem_nsems sma) arg) then Some (- ERANGE) else None)
  else if (cmd =? IPC_STAT) || (cmd =? IPC_SET) then mret (if negb (va arg =? 0) then Some (va arg) else None)
  else mret None.

Definition ctl_setval (c : caller) (id : nat) (sma : semid_ds) (semnum : Z) (arg : semun) : M ss Z :=
  if ipcperms c (sem_perm sma) S_IWUGO then mret (- EACCES)
  else
    clear_adj sma semnum ;;
    st_sma id (λ x, x <| sem_base := alter (λ y, y <| semval := a_val arg |>) (Z.to_nat semnum) (sem_base x) |>
                      <| sem_ctime := c_now c |>) ;;
    update_queue (c_now c) id ;;
    mret 0.

Definition ctl_setall (c : caller) (id : nat) (sma : semid_ds) (arg : semun) : M ss Z :=
  if ipcperms c (sem_perm sma) S_IWUGO then mret (- EACCES)
  else
    st_sma id (λ x, x <| sem_base := zip_with (λ y v, y <| semval := v |>) (sem_base x) (sem_io (sem_nsems sma) arg) |>) ;;
    for_each (seqZ 0 (sem_nsems sma)) (clear_adj sma) ;;
    st_sma id (λ x, x <| sem_ctime := c_now c |>) ;;
    update_queue (c_now c) id ;;
    mret 0.

Definition ctl_set (c : caller) (id : nat) (sma : semid_ds) (arg : semun) : M ss Z :=
  if may_control c (sem_perm sma) then
    st_sma id (λ x, x <| sem_perm := (sem_perm x) <| p_uid := a_uid arg |> <| p_gid := a_gid arg |>
                          <| p_mode := Z.lor (clr (p_mode (sem_perm x)) S_IRWXUGO) (Z.land (a_mode arg) S_IRWXUGO) |> |>
                      <| sem_ctime := c_now c |>) ;;
    mret 0
  else mret (- EPERM).

Definition ctl_do (c : caller) (id : nat) (sma : semid_ds) (semnum cmd : Z) (arg : semun) : M ss (Z * reply) :=
  if cmd =? GETALL then
    mret (if ipcperms c (sem_perm sma) S_IRUGO then (- EACCES, NoReply) else (0, ArrayReply (semval <$> sem_base sma)))
  else if cmd =? SETVAL then r ← ctl_setval c id sma semnum arg; mret (r, NoReply)
  else if cmd =? IPC_SET then r ← ctl_set c id sma arg; mret (r, NoReply)
  else if cmd =? IPC_STAT then
    mret (if ipcperms c (sem_perm sma) S_IRUGO then (- EACCES, NoReply) else (0, stat_of sma))
  else if cmd =? SETALL then r ← ctl_setall c id sma arg; mret (r, NoReply)
  else mret (- EINVAL, NoReply).

Definition sys_semctl (c : caller) (semid semnum cmd : Z) (arg : semun) : M ss (Z * reply) :=
  if (semid <? 0) || (semnum <? 0) || (cmd <? 0) then mret (- EINVAL, NoReply)
  else if (cmd =? IPC_INFO) || (cmd =? SEM_INFO) then ctl_info cmd arg
  else if cmd =? SEM_STAT then ctl_stat c semid arg
  else
    let id := slot_of semid in
    sl ← gets (λ s, semary s !! id);
    match sl with
    | Some (Used sma) =>
        if negb (p_seq (sem_perm sma) =? seq_of semid) then mret (- EIDRM, NoReply)
        else if one_sem cmd && (sem_nsems sma <=? semnum) then mret (- EINVAL, NoReply)
        else
          r ← ctl_check c id sma semnum cmd arg;
          match r with
          | Some r => mret (r, NoReply)
          | None => ctl_do c id sma semnum cmd arg
          end
    | Some _ => mret (- EINVAL, NoReply)
    | None => halt OutOfBounds
    end.

(** *** semop *)

(** The undo structure of the caller for this set, made if there is none;
    [kmalloc] is the address of the new one. *)
Fixpoint find_undo (semid : Z) (us : list Z) : M ss (option Z) :=
  match us with
  | [] => mret None
  | u :: us' => x ← ld_undo u; if un_semid x =? semid then mret (Some u) else find_undo semid us'
  end.

Definition undos_of (task : Z) (s : ss) : list Z := default [] (semundo s !! task).

Definition get_undo (c : caller) (kmalloc : option Z) (id : nat) (semid : Z) : M ss (option Z) :=
  us ← gets (undos_of (c_task c));
  found ← find_undo semid us;
  match found, kmalloc with
  | Some u, _ => mret (Some u)
  | None, None => mret None
  | None, Some n =>
      sma ← ld_sma id;
      modify (λ s, s <| undos := <[n := MkUndo semid (replicate (Z.to_nat (sem_nsems sma)) 0)]> (undos s) |>
                     <| semundo := <[c_task c := n :: us]> (semundo s) |>) ;;
      st_sma id (λ x, x <| undo := n :: undo x |>) ;;
      mret (Some n)
  end.

Definition wants_undo (sop : sembuf) : bool := has (sem_flg sop) SEM_UNDO.

(** Up to the sleep: the result, or [None] if the caller sleeps now.  [va] is
    [- EFAULT] also for a null pointer. *)
Definition semop_enter (c : caller) (va : Z) (kmalloc : option Z) (semid : Z) (sops : list sembuf) : M ss (option Z) :=
  let nsops := Z.of_nat (length sops) in
  if (nsops <? 1) || (semid <? 0) then mret (Some (- EINVAL))
  else if SEMOPM <? nsops then mret (Some (- E2BIG))
  else if negb (va =? 0) then mret (Some va)
  else
    let id := slot_of semid in
    sl ← gets (λ s, semary s !! id);
    match sl with
    | Some (Used sma) =>
        if negb (p_seq (sem_perm sma) =? seq_of semid) then mret (Some (- EIDRM))
        else if existsb (λ sop, sem_nsems sma <=? sem_num sop) sops then mret (Some (- EFBIG))
        else if ipcperms c (sem_perm sma) (if existsb (λ sop, negb (sem_op sop =? 0)) sops then S_IWUGO else S_IRUGO) then
          mret (Some (- EACCES))
        else
          error ← in_set id (try_semop sops);
          if error <? 0 then mret (Some error)
          else
            let undos := existsb wants_undo sops in
            un ← (if undos then get_undo c kmalloc id semid else mret None);
            if undos && bool_decide (un = None) then mret (Some (- ENOMEM))
            else if error =? 0 then
              error ← do_semop (c_now c) id sops un (c_pid c);
              update_queue (c_now c) id ;;
              mret (Some error)
            else
              modify (λ s, s <| queues := <[c_task c := MkQueue false un (c_pid c) 0 id sops]> (queues s) |>) ;;
              insert_into_queue id (c_task c) ;;
              mret None
    | Some _ => mret (Some (- EINVAL))
    | None => halt OutOfBounds
    end.

(** After the sleep. *)
Definition semop_resume (task : Z) : M ss Z :=
  q ← ld_queue task;
  when (q_linked q) (remove_from_queue (q_sma q) task) ;;
  modify (λ s, s <| queues := delete task (queues s) |>) ;;
  mret (if q_linked q then - EINTR else q_status q).

Definition sys_semop (nap : ss → ss) (c : caller) (va : Z) (kmalloc : option Z) (semid : Z) (sops : list sembuf) : M ss Z :=
  r ← semop_enter c va kmalloc semid sops;
  match r with
  | Some r => mret r
  | None => modify nap ;; semop_resume (c_task c)
  end.

(** *** Exit *)

Fixpoint adjust (n : nat) (i : nat) (pid : Z) (adj : list Z) : M (list sem) unit :=
  match n with
  | O => mret tt
  | S n' =>
      curr ← ld_sem (Z.of_nat i);
      match adj !! i with
      | None => halt OutOfBounds
      | Some a =>
          let v := s16 (semval curr + a) in
          modify (λ b, <[i := MkSem (if v <? 0 then 0 else v) (s16 pid)]> b) ;;
          adjust n' (S i) pid adj
      end
  end.

Definition free_undo (u : Z) : M ss unit := modify (λ s, s <| undos := delete u (undos s) |>).

Fixpoint exit_loop (c : caller) (us : list Z) : M ss unit :=
  match us with
  | [] => mret tt
  | u :: us' =>
      let continue := free_undo u ;; exit_loop c us' in
      x ← ld_undo u;
      if un_semid x =? -1 then continue
      else
        let id := slot_of (un_semid x) in
        sl ← gets (λ s, semary s !! id);
        match sl with
        | Some (Used sma) =>
            if negb (p_seq (sem_perm sma) =? seq_of (un_semid x)) then continue
            else if negb (bool_decide (u ∈ undo sma)) then mret tt
            else
              st_sma id (λ y, y <| undo := filter (λ v, v ≠ u) (undo y) |>) ;;
              in_set id (adjust (Z.to_nat (sem_nsems sma)) 0 (c_pid c) (semadj x)) ;;
              st_sma id (λ y, y <| sem_otime := c_now c |>) ;;
              update_queue (c_now c) id ;;
              continue
        | Some _ => continue
        | None => halt OutOfBounds
        end
  end.

Definition sem_exit (c : caller) : M ss unit :=
  sleeping ← gets (λ s, queues s !! c_task c);
  match sleeping with
  | None => mret tt
  | Some q =>
      when (q_linked q) (remove_from_queue (q_sma q) (c_task c)) ;;
      modify (λ s, s <| queues := delete (c_task c) (queues s) |>)
  end ;;
  us ← gets (undos_of (c_task c));
  exit_loop c us ;;
  modify (λ s, s <| semundo := delete (c_task c) (semundo s) |>).
