(* ===== verification/SemFacts.v ===== *)
(** * SemFacts: what the operations on semaphores do

    [ops_run] says what a sequence of operations means on the values of a set:
    all of them take effect, or the caller waits, or it gets an error.  The code
    decides it by performing the operations and taking them back
    ([try_semop]), and performs them in a second run ([do_semop]). *)

From stdpp Require Import gmap.
From S2P Require Import Prelude Cred Sem.

(** ** Specification *)

Inductive verdict := Go (l : list Z) | Block | Refuse (e : Z).

#[global] Instance verdict_eq_dec : EqDecision verdict.
Proof. solve_decision. Defined.

Definition or_wait (sop : sembuf) : verdict := if has (sem_flg sop) IPC_NOWAIT then Refuse (- EAGAIN) else Block.

(** The operations on the values [l], one after the other. *)
Fixpoint ops_run (sops : list sembuf) (l : list Z) : verdict :=
  match sops with
  | [] => Go l
  | sop :: sops' =>
      let n := Z.to_nat (sem_num sop) in
      let v := default 0 (l !! n) in
      if decide (SEMVMX < v + sem_op sop) then Refuse (- ERANGE)
      else if decide (v + sem_op sop < 0 ∨ (sem_op sop = 0 ∧ v ≠ 0)) then or_wait sop
      else ops_run sops' (<[n := v + sem_op sop]> l)
  end.

Definition code (v : verdict) : Z := match v with Go _ => 0 | Block => 1 | Refuse e => e end.

Definition val_ok (v : Z) : Prop := 0 ≤ v ≤ SEMVMX.

Definition op_fits (nsems : nat) (sop : sembuf) : Prop :=
  0 ≤ sem_num sop < Z.of_nat nsems ∧ - 2 ^ 15 ≤ sem_op sop < 2 ^ 15.

Definition vals (b : list sem) : list Z := semval <$> b.

(** What the operations with [SEM_UNDO] take off the adjustments. *)
Fixpoint adj_run (sops : list sembuf) (adj : list Z) : list Z :=
  match sops with
  | [] => adj
  | sop :: sops' =>
      let n := Z.to_nat (sem_num sop) in
      adj_run sops' (if wants_undo sop && negb (sem_op sop =? 0) then <[n := s16 (default 0 (adj !! n) - sem_op sop)]> adj else adj)
  end.

(** ** Lemmas *)

Lemma s16_id x : - 2 ^ 15 ≤ x < 2 ^ 15 → s16 x = x.
Proof. intros H. unfold s16. rewrite Z.mod_small; lia. Qed.

Lemma s16_range x : - 2 ^ 15 ≤ s16 x < 2 ^ 15.
Proof. unfold s16. pose proof (Z.mod_pos_bound (x + 2 ^ 15) (2 ^ 16) ltac:(lia)). lia. Qed.

Lemma vals_lookup b n x : b !! n = Some x → vals b !! n = Some (semval x).
Proof. intros E. unfold vals. by rewrite list_lookup_fmap, E. Qed.

Lemma vals_ok_lookup b n x : Forall val_ok (vals b) → b !! n = Some x → val_ok (semval x).
Proof. intros H E. eapply Forall_lookup_1; [done|]. by apply vals_lookup. Qed.

Lemma base_lookup nsems (b : list sem) sop :
  length b = nsems → op_fits nsems sop → ∃ x, b !! Z.to_nat (sem_num sop) = Some x.
Proof. intros Hl [Hn _]. apply lookup_lt_is_Some. lia. Qed.

Lemma alter_vals (b : list sem) n x d :
  b !! n = Some x → - 2 ^ 15 ≤ semval x + d < 2 ^ 15 →
  vals (alter (λ x, x <| semval := s16 (semval x + d) |>) n b) = <[n := semval x + d]> (vals b).
Proof.
  intros E Hr. unfold vals. apply list_eq. intros i. rewrite list_lookup_fmap. destruct (decide (i = n)) as [->|Hne].
  - rewrite list_lookup_alter_eq, E, list_lookup_insert_eq by (rewrite length_fmap; by eapply lookup_lt_Some).
    cbn. by rewrite s16_id.
  - by rewrite list_lookup_alter_ne, list_lookup_insert_ne, list_lookup_fmap by done.
Qed.

(** Adding and taking off again. *)
Lemma add_sub (b : list sem) n x d :
  b !! n = Some x → - 2 ^ 15 ≤ semval x + d < 2 ^ 15 → - 2 ^ 15 ≤ semval x < 2 ^ 15 →
  alter (λ x, x <| semval := s16 (semval x + - d) |>) n (alter (λ x, x <| semval := s16 (semval x + d) |>) n b) = b.
Proof.
  intros E Hr Hr'. apply list_eq. intros i. destruct (decide (i = n)) as [->|Hne].
  - rewrite !list_lookup_alter_eq, E. destruct x as [v p]. cbn in *. do 2 f_equal. rewrite (s16_id (v + d)), s16_id; lia.
  - by rewrite !list_lookup_alter_ne by done.
Qed.

Lemma for_each_snoc {S B} (l : list B) x (f : B → M S unit) s s' :
  for_each l f s = Ret tt s' → for_each (l ++ [x]) f s = f x s'.
Proof.
  revert s. induction l as [|y l IH]; intros s E; cbn in *; unfold mbind, M_bind, mret, M_ret in *.
  - injection E as <-. destruct (f x s) as [[] ?|]; done.
  - destruct (f y s) as [[] s1|]; [|done]. by apply IH.
Qed.

(** The first loop, and the second one that takes its additions back. *)
Lemma try_loop_spec nsems sops : ∀ i b,
  length b = nsems → Forall val_ok (vals b) → Forall (op_fits nsems) sops →
  ∃ k b', try_loop sops i b = Ret (code (ops_run sops (vals b)), (i + k)%nat) b' ∧ (k ≤ length sops)%nat ∧
    for_each (reverse (take k sops)) (λ sop, add_sem (sem_num sop) (- sem_op sop)) b' = Ret tt b.
Proof.
  induction sops as [|sop sops IH]; intros i b Hl Hv Hops.
  { exists 0%nat, b. rewrite Nat.add_0_r. done. }
  apply Forall_cons in Hops as [Hop Hops]. destruct (base_lookup nsems b sop Hl Hop) as [x Ex].
  pose proof (vals_ok_lookup b _ x Hv Ex) as Hx. destruct Hop as [Hn Hd]. unfold val_ok, SEMVMX in Hx.
  cbn [try_loop ops_run]. unfold mbind, M_bind, ld_sem. rewrite Ex, (vals_lookup b _ x Ex). change (default 0 (Some (semval x))) with (semval x).
  set (n := Z.to_nat (sem_num sop)) in *. set (d := sem_op sop) in *. rewrite (Z.add_comm d).
  assert (∀ r : Z, ∃ k b', Ret (r, i) b = Ret (r, (i + k)%nat) b' ∧ (k ≤ S (length sops))%nat ∧
    for_each (reverse (take k (sop :: sops))) (λ sop, add_sem (sem_num sop) (- sem_op sop)) b' = Ret tt b) as Hstay.
  { intros r. exists 0%nat, b. rewrite Nat.add_0_r. split_and!; [done|lia|done]. }
  destruct (SEMVMX <? semval x + d) eqn:E1; to_prop.
  { rewrite decide_True by done. apply Hstay. }
  rewrite (decide_False (P := SEMVMX < _)) by lia. unfold SEMVMX in E1.
  destruct ((d =? 0) && negb (semval x =? 0)) eqn:E2; to_prop.
  { rewrite decide_True by lia. replace (code (or_wait sop)) with (if has (sem_flg sop) IPC_NOWAIT then - EAGAIN else 1).
    - apply Hstay.
    - unfold or_wait. by destruct (has _ _). }
  apply andb_false_iff in E2. rewrite !negb_false_iff, Z.eqb_neq, Z.eqb_eq in E2.
  unfold add_sem at 1, modify. fold n d. set (b1 := alter _ n b).
  assert (b1 !! n = Some (MkSem (semval x + d) (sempid x))) as E3.
  { subst b1. rewrite list_lookup_alter_eq, Ex. cbn. by rewrite s16_id by lia. }
  assert (∀ k b', for_each (reverse (take k sops)) (λ sop, add_sem (sem_num sop) (- sem_op sop)) b' = Ret tt b1 →
    for_each (reverse (take (S k) (sop :: sops))) (λ sop, add_sem (sem_num sop) (- sem_op sop)) b' = Ret tt b) as Hundo.
  { intros k b' E. cbn [take]. rewrite reverse_cons, (for_each_snoc _ _ _ b' b1 E). unfold add_sem, modify. f_equal.
    apply (add_sub b n x d); [done|lia..]. }
  rewrite E3. cbn [semval]. destruct (semval x + d <? 0) eqn:E4; to_prop.
  - rewrite decide_True by lia. exists 1%nat, b1. split_and!; [|cbn; lia|by apply (Hundo 0%nat)].
    rewrite Nat.add_1_r. unfold or_wait. by destruct (has _ _).
  - rewrite decide_False by lia.
    assert (vals b1 = <[n := semval x + d]> (vals b)) as Ev by (apply alter_vals; [done|lia]).
    destruct (IH (S i) b1) as (k & b' & E & Hk & Hb).
    + subst b1. by rewrite length_alter.
    + rewrite Ev. apply Forall_insert; [done|]. unfold val_ok, SEMVMX. lia.
    + done.
    + exists (S k), b'. rewrite Ev in E. rewrite E. split_and!; [|cbn; lia|by apply Hundo]. by rewrite Nat.add_succ_r.
Qed.

Lemma try_semop_spec nsems sops b :
  length b = nsems → Forall val_ok (vals b) → Forall (op_fits nsems) sops →
  try_semop sops b = Ret (code (ops_run sops (vals b))) b.
Proof.
  intros Hl Hv Ho. destruct (try_loop_spec nsems sops 0 b Hl Hv Ho) as (k & b' & E & _ & Hb).
  unfold try_semop, mbind, M_bind. rewrite E, Nat.add_0_l. cbv beta iota. by rewrite Hb.
Qed.

Lemma ops_run_refuse sops l e : ops_run sops l = Refuse e → e < 0.
Proof.
  revert l. induction sops as [|sop sops IH]; intros l; [done|]. cbn. unfold or_wait.
  repeat case_decide; [by intros [= <-]| |apply IH]. destruct (has _ _); [by intros [= <-]|done].
Qed.

Lemma ops_run_vals sops l l' : Forall val_ok l → ops_run sops l = Go l' → Forall val_ok l' ∧ length l' = length l.
Proof.
  revert l. induction sops as [|sop sops IH]; intros l Hl; cbn; [by intros [= <-]|]. unfold or_wait.
  repeat case_decide; [done|by destruct (has _ _)|]. intros E. apply IH in E as [? E]; [|apply Forall_insert; [done|unfold val_ok; lia]].
  by rewrite length_insert in E.
Qed.

Lemma adj_run_length sops adj : length (adj_run sops adj) = length adj.
Proof. revert adj. induction sops as [|sop sops IH]; intros adj; [done|]. cbn. rewrite IH. case_match; by rewrite ?length_insert. Qed.

Lemma pid_vals (b : list sem) n pid : vals (alter (λ x, x <| sempid := s16 pid |>) n b) = vals b.
Proof.
  unfold vals. apply list_eq. intros i. rewrite !list_lookup_fmap. destruct (decide (i = n)) as [->|Hne].
  - rewrite list_lookup_alter_eq. by destruct (b !! n).
  - by rewrite list_lookup_alter_ne.
Qed.

(** The adjustments that the operations need are there. *)
Definition adj_for (nsems : nat) (sops : list sembuf) (adj : option (list Z)) : Prop :=
  match adj with
  | Some a => length a = nsems
  | None => existsb wants_undo sops = false
  end.

Lemma adj_for_tail nsems sop sops adj : adj_for nsems (sop :: sops) adj → adj_for nsems sops adj.
Proof. destruct adj; cbn; [done|]. intros H. by apply orb_false_iff in H as [_ ?]. Qed.

Lemma sub_adj_spec nsems sop sops b adj :
  op_fits nsems sop → adj_for nsems (sop :: sops) adj → sem_op sop ≠ 0 →
  when (has (sem_flg sop) SEM_UNDO) (sub_adj (sem_num sop) (sem_op sop)) (MkWork b adj) =
    Ret tt (MkWork b (adj_run [sop] <$> adj)).
Proof.
  intros [Hn _] Ha Hd. cbn [adj_run]. unfold wants_undo. rewrite (proj2 (Z.eqb_neq _ _) Hd). cbn [negb].
  destruct adj as [a|]; cbn in Ha.
  - destruct (has (sem_flg sop) SEM_UNDO); [|done]. cbn. unfold sub_adj. cbn.
    destruct (lookup_lt_is_Some_2 a (Z.to_nat (sem_num sop))) as [x Ex]; [lia|]. by rewrite Ex.
  - apply orb_false_iff in Ha as [Ha _]. unfold wants_undo in Ha. by rewrite Ha.
Qed.

Lemma on_base_ld n b adj x :
  b !! Z.to_nat n = Some x → on_base (ld_sem n) (MkWork b adj) = Ret x (MkWork b adj).
Proof. intros E. unfold on_base, ld_sem. cbn [w_base]. by rewrite E. Qed.

Lemma on_base_add n d b adj :
  on_base (add_sem n d) (MkWork b adj) =
    Ret tt (MkWork (alter (λ x, x <| semval := s16 (semval x + d) |>) (Z.to_nat n) b) adj).
Proof. done. Qed.

Lemma set_pid_run n pid b adj :
  set_pid n pid (MkWork b adj) = Ret tt (MkWork (alter (λ x, x <| sempid := s16 pid |>) (Z.to_nat n) b) adj).
Proof. done. Qed.

Lemma do_loop_spec nsems sops pid : ∀ b adj l,
  length b = nsems → Forall val_ok (vals b) → Forall (op_fits nsems) sops → adj_for nsems sops adj →
  ops_run sops (vals b) = Go l →
  ∃ b', do_loop sops pid (MkWork b adj) = Ret tt (MkWork b' (adj_run sops <$> adj)) ∧ vals b' = l ∧ length b' = nsems.
Proof.
  induction sops as [|sop sops IH]; intros b adj l Hl Hv Hops Ha E; cbn [ops_run] in E.
  { injection E as <-. exists b. split; [|done]. by destruct adj. }
  apply Forall_cons in Hops as [Hop Hops]. destruct (base_lookup nsems b sop Hl Hop) as [x Ex].
  pose proof (vals_ok_lookup b _ x Hv Ex) as Hx. unfold val_ok, SEMVMX in Hx.
  rewrite (vals_lookup b _ x Ex) in E. change (default 0 (Some (semval x))) with (semval x) in E.
  destruct (decide (SEMVMX < semval x + sem_op sop)) as [|E1]; [done|].
  destruct (decide (semval x + sem_op sop < 0 ∨ _)) as [|E2]; [unfold or_wait in E; by destruct (has _ _)|].
  assert (- 2 ^ 15 ≤ semval x + sem_op sop < 2 ^ 15) as Hr by (unfold SEMVMX in E1; lia).
  cbn [do_loop]. unfold mbind, M_bind. rewrite (on_base_ld _ b adj x Ex).
  rewrite (proj2 (Z.ltb_ge SEMVMX (sem_op sop + semval x))) by lia.
  set (n := Z.to_nat (sem_num sop)) in *.
  assert (Forall val_ok (<[n := semval x + sem_op sop]> (vals b))) as Hv1.
  { apply Forall_insert; [done|]. unfold val_ok. lia. }
  destruct (sem_op sop =? 0) eqn:E0; to_prop.
  - rewrite (proj2 (Z.eqb_eq (semval x) 0)) by lia. cbn [negb]. rewrite set_pid_run. fold n.
    destruct (IH (alter (λ x, x <| sempid := s16 pid |>) n b) adj l) as (b' & E' & ?); try done.
    + by rewrite length_alter.
    + by rewrite pid_vals.
    + by eapply adj_for_tail.
    + rewrite pid_vals. rewrite list_insert_id in E; [done|]. rewrite (vals_lookup b _ x Ex). f_equal. lia.
    + exists b'. split; [|done]. rewrite E'. cbn [adj_run]. by rewrite E0, andb_false_r.
  - rewrite on_base_add. fold n. set (b1 := alter (λ x, x <| semval := s16 (semval x + sem_op sop) |>) n b).
    assert (b1 !! n = Some (MkSem (semval x + sem_op sop) (sempid x))) as E3.
    { subst b1. rewrite list_lookup_alter_eq, Ex. cbn. by rewrite s16_id by lia. }
    assert (vals b1 = <[n := semval x + sem_op sop]> (vals b)) as Ev by (by apply alter_vals).
    rewrite (on_base_ld _ b1 adj _ E3). cbn [semval]. rewrite (proj2 (Z.ltb_ge _ 0)) by lia.
    rewrite (sub_adj_spec nsems sop sops b1 adj Hop Ha E0), set_pid_run. fold n.
    destruct (IH (alter (λ x, x <| sempid := s16 pid |>) n b1) (adj_run [sop] <$> adj) l) as (b' & E' & ?); try done.
    + subst b1. by rewrite !length_alter.
    + by rewrite pid_vals, Ev.
    + apply adj_for_tail in Ha. destruct adj as [a|]; [|done]. unfold adj_for. cbn [fmap option_fmap option_map].
      by rewrite (adj_run_length [sop]).
    + by rewrite pid_vals, Ev.
    + exists b'. split; [|done]. rewrite E'. by destruct adj.
Qed.
