(* ===== verification/SemSys.v ===== *)
(** * SemSys: semaphores in use

    The invariant of the tables of semaphore sets, waiting processes and undo
    structures, under any sequence of system calls, wake-ups and exits. *)

From stdpp Require Import gmap relations.
From S2P Require Import Prelude Cred Sem SemFacts.

(** ** Specification *)

Definition used_at (s : ss) (id : nat) (sma : semid_ds) : Prop := semary s !! id = Some (Used sma).

Definition nsems_of (sma : semid_ds) : nat := length (sem_base sma).

(** A process that waits for the set has left its operations, and an undo
    structure if they need one. *)
Definition queue_ok (id : nat) (sma : semid_ds) (q : sem_queue) : Prop :=
  q_linked q = true ∧ q_sma q = id ∧ Forall (op_fits (nsems_of sma)) (q_sops q) ∧
  match q_undo q with Some u => u ∈ undo sma | None => existsb wants_undo (q_sops q) = false end.

Definition undo_ok (id : nat) (sma : semid_ds) (x : sem_undo) : Prop :=
  un_semid x = ident (p_seq (sem_perm sma)) id ∧ length (semadj x) = nsems_of sma.

Record set_ok (s : ss) (id : nat) (sma : semid_ds) : Prop := {
  so_nsems : sem_nsems sma = Z.of_nat (nsems_of sma) ∧ 1 ≤ sem_nsems sma ≤ SEMMSL;
  so_vals : Forall val_ok (vals (sem_base sma));
  so_max : (id ≤ max_semid s)%nat;
  so_seq : 0 ≤ p_seq (sem_perm sma) < 2 ^ 16;
  so_pending : NoDup (sem_pending sma);
  so_queue p : p ∈ sem_pending sma → ∃ q, queues s !! p = Some q ∧ queue_ok id sma q;
  so_nodup : NoDup (undo sma);
  so_undo u : u ∈ undo sma → ∃ x, undos s !! u = Some x ∧ undo_ok id sma x;
}.

(** No process waits for operations that could go through. *)
Definition quiet (s : ss) (sma : semid_ds) : Prop :=
  ∀ p q, p ∈ sem_pending sma → queues s !! p = Some q → ops_run (q_sops q) (vals (sem_base sma)) = Block.

Definition sems_in (sl : slot) : Z := match sl with Used sma => sem_nsems sma | _ => 0 end.
Definition sets_in (sl : slot) : Z := match sl with Used _ => 1 | _ => 0 end.

(** An undo structure of a process belongs to the set that it names. *)
Definition undo_home (s : ss) (u : Z) : Prop :=
  ∃ x, undos s !! u = Some x ∧
    (un_semid x ≠ -1 → ∃ sma, used_at s (slot_of (un_semid x)) sma ∧
       p_seq (sem_perm sma) = seq_of (un_semid x) ∧ u ∈ undo sma).

(** The sets in the making, whose slots hold [IPC_NOID] while [kmalloc] sleeps:
    the slots, and the semaphores counted for them already.  [one_key] says
    that no two processes make sets at the same time, so that keys are
    unique. *)
Class making := Making {
  hidden : list nat;
  reserved : Z;
  one_key : bool;
}.

Section Making.
Context {M : making}.

(** [busy] is a set whose queue is being looked through, [own t] are the undo
    structures of task [t]. *)
Record sem_inv (busy : option nat) (own : Z → list Z) (s : ss) : Prop := {
  si_len : length (semary s) = Z.to_nat SEMMNI;
  si_noid id : semary s !! id = Some NoId ↔ id ∈ hidden;
  si_set id sma : used_at s id sma → set_ok s id sma;
  si_quiet id sma : used_at s id sma → busy ≠ Some id → quiet s sma;
  si_linked p q : queues s !! p = Some q → q_linked q = true →
    ∃ sma, used_at s (q_sma q) sma ∧ p ∈ sem_pending sma;
  si_own t u : u ∈ own t → undo_home s u;
  si_own_nodup t : NoDup (own t);
  si_own_one t1 t2 u : u ∈ own t1 → u ∈ own t2 → t1 = t2;
  si_qundo t q u : queues s !! t = Some q → q_linked q = true → q_undo q = Some u → u ∈ own t;
  si_keys id1 id2 sma1 sma2 : one_key = true → used_at s id1 sma1 → used_at s id2 sma2 →
    p_key (sem_perm sma1) = p_key (sem_perm sma2) → p_key (sem_perm sma1) ≠ IPC_PRIVATE → id1 = id2;
  si_sems : used_sems s = sumZ sems_in (semary s) + reserved;
  si_sets : used_semids s = sumZ sets_in (semary s);
  si_vars : 0 ≤ sem_seq s < 2 ^ 16 ∧ (max_semid s < Z.to_nat SEMMNI)%nat;
}.

(** In between system calls. *)
Definition sems_ok (s : ss) : Prop := sem_inv None (λ t, undos_of t s) s.

(** The processes that a change of the values [l] wakes up, in the order in
    which their operations take effect, each with its result. *)
Inductive serves (Q : gmap Z sem_queue) : list Z → list Z → list (Z * Z) → list Z → list Z → Prop :=
  | sv_nil l ps : serves Q l ps [] l ps
  | sv_go l ps p q l1 res l' ps' :
      p ∈ ps → Q !! p = Some q → ops_run (q_sops q) l = Go l1 →
      serves Q l1 (filter (λ x, x ≠ p) ps) res l' ps' → serves Q l ps ((p, 0) :: res) l' ps'
  | sv_refuse l ps p q e res l' ps' :
      p ∈ ps → Q !! p = Some q → ops_run (q_sops q) l = Refuse e →
      serves Q l (filter (λ x, x ≠ p) ps) res l' ps' → serves Q l ps ((p, e) :: res) l' ps'.

(** ** Lemmas *)

Definition same_undos (s s' : ss) : Prop :=
  ∀ u, match undos s !! u, undos s' !! u with
       | None, None => True
       | Some x, Some y => un_semid x = un_semid y ∧ length (semadj x) = length (semadj y)
       | _, _ => False
       end.

Definition woken (q : sem_queue) (r : Z) : sem_queue := q <| q_status := r |> <| q_linked := false |>.

(** A change within set [id] that at most wakes up processes waiting for it. *)
Record frame (id : nat) (sma sma' : semid_ds) (s s' : ss) : Prop := {
  fr_used : used_at s id sma;
  fr_ary : semary s' = <[id := Used sma']> (semary s);
  fr_vars : max_semid s' = max_semid s ∧ used_sems s' = used_sems s ∧ used_semids s' = used_semids s ∧
    sem_seq s' = sem_seq s ∧ semundo s' = semundo s;
  fr_perm : p_key (sem_perm sma') = p_key (sem_perm sma) ∧ p_seq (sem_perm sma') = p_seq (sem_perm sma);
  fr_nsems : sem_nsems sma' = sem_nsems sma ∧ nsems_of sma' = nsems_of sma;
  fr_undo : undo sma' = undo sma;
  fr_vals : Forall val_ok (vals (sem_base sma'));
  fr_pend : sublist (sem_pending sma') (sem_pending sma);
  fr_undos : same_undos s s';
  fr_queues p : if decide (p ∈ sem_pending sma ∧ p ∉ sem_pending sma')
    then ∃ q r, queues s !! p = Some q ∧ queues s' !! p = Some (woken q r)
    else queues s' !! p = queues s !! p;
}.

Lemma same_undos_refl s : same_undos s s.
Proof. intros u. by destruct (undos s !! u). Qed.

Lemma same_undos_trans s1 s2 s3 : same_undos s1 s2 → same_undos s2 s3 → same_undos s1 s3.
Proof.
  intros H1 H2 u. specialize (H1 u). specialize (H2 u). destruct (undos s1 !! u), (undos s2 !! u), (undos s3 !! u); try done.
  destruct H1, H2. split; congruence.
Qed.

Lemma same_undos_lookup s s' u x :
  same_undos s s' → undos s !! u = Some x → ∃ y, undos s' !! u = Some y ∧ un_semid y = un_semid x ∧ length (semadj y) = length (semadj x).
Proof. intros H E. specialize (H u). rewrite E in H. destruct (undos s' !! u) as [y|]; [|done]. exists y. naive_solver. Qed.

Lemma frame_used id sma sma' s s' : frame id sma sma' s s' → used_at s' id sma'.
Proof.
  intros H. unfold used_at. rewrite (fr_ary _ _ _ _ _ H), list_lookup_insert_eq; [done|].
  pose proof (fr_used _ _ _ _ _ H). by eapply lookup_lt_Some.
Qed.

Lemma frame_other id sma sma' s s' id1 sma1 :
  frame id sma sma' s s' → used_at s' id1 sma1 → id1 ≠ id → used_at s id1 sma1.
Proof. intros H Hu Hne. unfold used_at in *. by rewrite (fr_ary _ _ _ _ _ H), list_lookup_insert_ne in Hu. Qed.

Lemma frame_other_fwd id sma sma' s s' id1 sma1 :
  frame id sma sma' s s' → used_at s id1 sma1 → id1 ≠ id → used_at s' id1 sma1.
Proof. intros H Hu Hne. unfold used_at in *. by rewrite (fr_ary _ _ _ _ _ H), list_lookup_insert_ne. Qed.

Lemma frame_refl id sma s : used_at s id sma → set_ok s id sma → frame id sma sma s s.
Proof.
  intros Hu Hok. split; try done.
  - by rewrite list_insert_id.
  - apply Hok.
  - apply same_undos_refl.
  - intros p. rewrite decide_False; [done|naive_solver].
Qed.

Lemma frame_trans id sma1 sma2 sma3 s1 s2 s3 :
  frame id sma1 sma2 s1 s2 → frame id sma2 sma3 s2 s3 → frame id sma1 sma3 s1 s3.
Proof.
  intros [U1 A1 V1 P1 N1 D1 L1 S1 W1 Q1] [U2 A2 V2 P2 N2 D2 L2 S2 W2 Q2]. split; try done.
  - by rewrite A2, A1, list_insert_insert_eq.
  - naive_solver congruence.
  - naive_solver congruence.
  - naive_solver congruence.
  - congruence.
  - by etrans.
  - by eapply same_undos_trans.
  - intros p. specialize (Q1 p). specialize (Q2 p).
    assert (p ∈ sem_pending sma3 → p ∈ sem_pending sma2) as H32 by (intros; by eapply elem_of_sublist).
    assert (p ∈ sem_pending sma2 → p ∈ sem_pending sma1) as H21 by (intros; by eapply elem_of_sublist).
    destruct (decide (p ∈ sem_pending sma2)) as [Hin|Hout].
    + rewrite decide_False in Q1 by naive_solver. rewrite <-Q1. destruct (decide (p ∈ sem_pending sma3)).
      * rewrite decide_False in Q2 by naive_solver. by rewrite decide_False by naive_solver.
      * rewrite decide_True in Q2 by naive_solver. by rewrite decide_True by naive_solver.
    + rewrite (decide_False (P := p ∈ sem_pending sma2 ∧ _)) in Q2 by naive_solver. rewrite Q2.
      destruct (decide (p ∈ sem_pending sma1)).
      * rewrite decide_True in Q1 by naive_solver. by rewrite decide_True by naive_solver.
      * rewrite decide_False in Q1 by naive_solver. by rewrite decide_False by naive_solver.
Qed.

(** Waiting processes are in one queue. *)
Lemma pending_one {o} b s id1 id2 sma1 sma2 p :
  sem_inv b o s → used_at s id1 sma1 → used_at s id2 sma2 → p ∈ sem_pending sma1 → p ∈ sem_pending sma2 → id1 = id2.
Proof.
  intros Hi H1 H2 P1 P2. destruct (so_queue _ _ _ (si_set _ _ _ Hi _ _ H1) p P1) as (q & Eq & _ & <- & _).
  destruct (so_queue _ _ _ (si_set _ _ _ Hi _ _ H2) p P2) as (q' & Eq' & _ & <- & _). congruence.
Qed.

Lemma frame_queue id sma sma' s s' p :
  frame id sma sma' s s' → p ∉ sem_pending sma ∨ p ∈ sem_pending sma' → queues s' !! p = queues s !! p.
Proof. intros H Hp. pose proof (fr_queues _ _ _ _ _ H p) as Q. by rewrite decide_False in Q by tauto. Qed.

Lemma frame_linked id sma sma' s s' p q :
  frame id sma sma' s s' → queues s' !! p = Some q → q_linked q = true →
  queues s !! p = Some q ∧ (p ∈ sem_pending sma → p ∈ sem_pending sma').
Proof.
  intros H Eq Hq. pose proof (fr_queues _ _ _ _ _ H p) as Q. destruct (decide _) as [|Hn].
  - destruct Q as (q1 & r & _ & E). rewrite Eq in E. injection E as ->. done.
  - rewrite Eq in Q. split; [done|]. intros Hp. destruct (decide (p ∈ sem_pending sma')); [done|]. by destruct Hn.
Qed.

Lemma undo_home_frame id sma sma' s s' u : frame id sma sma' s s' → undo_home s u → undo_home s' u.
Proof.
  intros H (x & Ex & Hx). destruct (same_undos_lookup s s' u x) as (y & Ey & E1 & _); [apply H|done|].
  exists y. split; [done|]. rewrite E1. intros Hne. destruct (Hx Hne) as (sma1 & Hu & Hs & Hin).
  destruct (decide (slot_of (un_semid x) = id)) as [E|E].
  - rewrite E in Hu |- *. pose proof (fr_used _ _ _ _ _ H) as Hu'. unfold used_at in *. rewrite Hu in Hu'. injection Hu' as ->.
    exists sma'. pose proof (fr_perm _ _ _ _ _ H) as [_ ->]. rewrite (fr_undo _ _ _ _ _ H). split_and!; try done. by eapply frame_used.
  - exists sma1. split_and!; try done. by eapply frame_other_fwd.
Qed.

Lemma frame_set_ok {o} b id sma sma' s s' id1 sma1 :
  sem_inv b o s → frame id sma sma' s s' → used_at s' id1 sma1 → set_ok s' id1 sma1.
Proof.
  intros Hi H Hu1. pose proof H as [Hu _ (Hmax & _) [_ Hseq] [Hn Hn'] Hundo Hvals Hpend Hsame _].
  destruct (decide (id1 = id)) as [->|Hne].
  - assert (sma1 = sma') as -> by (pose proof (frame_used _ _ _ _ _ H) as E; unfold used_at in *; congruence).
    destruct (si_set _ _ _ Hi _ _ Hu) as [[O1 O1'] O2 O3 O4 O5 O6 O7 O8]. split.
    + rewrite Hn, Hn'. done.
    + done.
    + by rewrite Hmax.
    + by rewrite Hseq.
    + eapply sublist_NoDup; [exact O5|done].
    + intros p Hp. rewrite (frame_queue _ _ _ _ _ p H) by by right. destruct (O6 p) as (q & Eq & Q1 & Q2 & Q3 & Q4); [by eapply elem_of_sublist|].
      exists q. split; [done|]. unfold queue_ok. by rewrite Hn', Hundo.
    + by rewrite Hundo.
    + rewrite Hundo. intros u Hin. destruct (O8 u Hin) as (x & Ex & X1 & X2). destruct (same_undos_lookup s s' u x) as (y & Ey & Y1 & Y2); try done.
      exists y. split; [done|]. unfold undo_ok. rewrite Y1, Y2, Hseq, Hn'. done.
  - pose proof (frame_other _ _ _ _ _ _ _ H Hu1 Hne) as Hu1'. destruct (si_set _ _ _ Hi _ _ Hu1') as [O1 O2 O3 O4 O5 O6 O7 O8].
    split; try done; [by rewrite Hmax| |].
    + intros p Hp. destruct (O6 p Hp) as (q & Eq & Hq). exists q. split; [|done].
      rewrite (frame_queue _ _ _ _ _ p H); [done|]. left. intros Hp'. apply Hne. by eapply pending_one.
    + intros u Hin. destruct (O8 u Hin) as (x & Ex & X1 & X2). destruct (same_undos_lookup s s' u x) as (y & Ey & Y1 & Y2); try done.
      exists y. split; [done|]. unfold undo_ok. by rewrite Y1, Y2.
Qed.

Lemma frame_perm_old {o} b id sma sma' s s' id1 sma1 :
  sem_inv b o s → frame id sma sma' s s' → used_at s' id1 sma1 → ∃ sma2, used_at s id1 sma2 ∧ p_key (sem_perm sma1) = p_key (sem_perm sma2).
Proof.
  intros Hi H Hu1. destruct (decide (id1 = id)) as [->|Hne].
  - exists sma. split; [apply H|]. pose proof (frame_used _ _ _ _ _ H) as E. unfold used_at in *. rewrite E in Hu1. injection Hu1 as <-. apply H.
  - exists sma1. split; [|done]. by eapply frame_other.
Qed.

Lemma noid_insert (l : list slot) id sl sl' i :
  l !! id = Some sl → sl ≠ NoId → sl' ≠ NoId → <[id := sl']> l !! i = Some NoId ↔ l !! i = Some NoId.
Proof.
  intros E Hs Hs'. destruct (decide (i = id)) as [->|Hne]; [|by rewrite list_lookup_insert_ne].
  rewrite E, list_lookup_insert_eq by (by eapply lookup_lt_Some). naive_solver.
Qed.

Lemma inv_frame {o} b id sma sma' s s' :
  sem_inv b o s → frame id sma sma' s s' → b = Some id ∨ quiet s' sma' → sem_inv b o s'.
Proof.
  intros Hi H Hq. pose proof H as [Hu Hary (Hmax & Hsems & Hids & Hseq & Hown) _ [Hn _] _ _ _ _ _].
  split.
  - rewrite Hary, length_insert. apply Hi.
  - rewrite Hary. intros i. rewrite (noid_insert (semary s) id (Used sma)) by done. apply Hi.
  - intros id1 sma1. by eapply frame_set_ok.
  - intros id1 sma1 Hu1 Hb. destruct (decide (id1 = id)) as [->|Hne].
    + assert (sma1 = sma') as -> by (pose proof (frame_used _ _ _ _ _ H) as E; unfold used_at in *; congruence). destruct Hq; [congruence|done].
    + pose proof (frame_other _ _ _ _ _ _ _ H Hu1 Hne) as Hu1'. intros p q Hp Eq. apply (si_quiet _ _ _ Hi _ _ Hu1' Hb p q Hp).
      rewrite (frame_queue _ _ _ _ _ p H) in Eq; [done|]. left. intros Hp'. apply Hne. by eapply pending_one.
  - intros p q Eq Hl. destruct (frame_linked _ _ _ _ _ p q H Eq Hl) as [Eq' Hp]. destruct (si_linked _ _ _ Hi p q Eq' Hl) as (sma1 & Hu1 & Hp1).
    destruct (decide (q_sma q = id)) as [E|E]; [|exists sma1; split; [by eapply frame_other_fwd|done]].
    rewrite E in *. assert (sma1 = sma) as -> by (unfold used_at in *; congruence). exists sma'. split; [by eapply frame_used|by apply Hp].
  - intros t u Hin. eapply undo_home_frame; [done|]. by eapply si_own.
  - intros t. by eapply si_own_nodup.
  - intros t1 t2 u. by apply (si_own_one _ _ _ Hi).
  - intros t q u Eq Hl Hqu. destruct (frame_linked _ _ _ _ _ t q H Eq Hl) as [Eq' _]. by eapply si_qundo.
  - intros id1 id2 sma1 sma2 Hone H1 H2 Hk Hnk. destruct (frame_perm_old _ _ _ _ _ _ _ _ Hi H H1) as (a1 & A1 & K1).
    destruct (frame_perm_old _ _ _ _ _ _ _ _ Hi H H2) as (a2 & A2 & K2). eapply (si_keys _ _ _ Hi); try done; congruence.
  - rewrite Hsems, Hary, (sumZ_insert _ _ _ _ _ Hu), (si_sems _ _ _ Hi). cbn. lia.
  - rewrite Hids, Hary, (sumZ_insert _ _ _ _ _ Hu), (si_sets _ _ _ Hi). cbn. lia.
  - rewrite Hseq, Hmax. apply Hi.
Qed.

(** ** Looking through the queue *)

Lemma semary_id s id sma : used_at s id sma → s <| semary := <[id := Used sma]> (semary s) |> = s.
Proof. intros E. destruct s. unfold used_at in E. cbn in *. by rewrite list_insert_id. Qed.

Lemma in_set_try s id sma sops :
  used_at s id sma → set_ok s id sma → Forall (op_fits (nsems_of sma)) sops →
  in_set id (try_semop sops) s = Ret (code (ops_run sops (vals (sem_base sma)))) s.
Proof.
  intros Hu Hok Hops. unfold in_set. rewrite Hu, (try_semop_spec (nsems_of sma)) by (try done; apply Hok). f_equal.
  replace (sma <| sem_base := sem_base sma |>) with sma by (by destruct sma). by apply semary_id.
Qed.

Lemma st_sma_run s id sma f :
  used_at s id sma → st_sma id f s = Ret tt (s <| semary := <[id := Used (f sma)]> (semary s) |>).
Proof. intros Hu. unfold st_sma, ld_sma, mbind, M_bind. by rewrite Hu. Qed.

Lemma ld_sma_run s id sma : used_at s id sma → ld_sma id s = Ret sma s.
Proof. intros Hu. unfold ld_sma. by rewrite Hu. Qed.

Lemma used_insert s id sma sma' :
  used_at s id sma → used_at (s <| semary := <[id := Used sma']> (semary s) |>) id sma'.
Proof. intros Hu. unfold used_at. cbn. apply list_lookup_insert_eq. by eapply lookup_lt_Some. Qed.

(** What [do_semop] does to the undo structure. *)
Definition undone (un : option Z) (sops : list sembuf) (m : gmap Z sem_undo) : gmap Z sem_undo :=
  match un with Some u => alter (λ x, x <| semadj := adj_run sops (semadj x) |>) u m | None => m end.

Lemma undone_same un sops s s' : undos s' = undone un sops (undos s) → same_undos s s'.
Proof.
  intros E u. rewrite E. destruct un as [v|]; cbn; [|by destruct (undos s !! u)]. destruct (decide (u = v)) as [->|Hne].
  - rewrite lookup_alter_eq. destruct (undos s !! v); [|done]. cbn. by rewrite adj_run_length.
  - rewrite lookup_alter_ne by done. by destruct (undos s !! u).
Qed.

Lemma do_semop_spec s id sma now sops un pid l :
  used_at s id sma → set_ok s id sma → Forall (op_fits (nsems_of sma)) sops →
  match un with Some u => u ∈ undo sma | None => existsb wants_undo sops = false end →
  ops_run sops (vals (sem_base sma)) = Go l →
  ∃ s' sma', do_semop now id sops un pid s = Ret 0 s' ∧ frame id sma sma' s s' ∧ vals (sem_base sma') = l ∧
    sem_pending sma' = sem_pending sma ∧ queues s' = queues s ∧ undos s' = undone un sops (undos s).
Proof.
  intros Hu Hok Hops Hun El. set (adj := adj_of un s).
  assert (adj_for (nsems_of sma) sops adj) as Hadj.
  { subst adj. destruct un as [u|]; [|done]. destruct (so_undo _ _ _ Hok u Hun) as (x & Ex & _ & Hx). cbn. by rewrite Ex. }
  destruct (do_loop_spec (nsems_of sma) sops pid (sem_base sma) adj l) as (b' & E & Hv & Hlen); [done|apply Hok|done..|].
  pose proof (ops_run_vals _ _ _ (so_vals _ _ _ Hok) El) as [Hval _].
  set (sma' := sma <| sem_base := b' |> <| sem_otime := now |>).
  set (s1 := s <| semary := <[id := Used sma']> (semary s) |>).
  assert (do_semop now id sops un pid s = Ret 0 (s1 <| undos := undone un sops (undos s) |>)) as Edo.
  { unfold do_semop, mbind, M_bind. rewrite (ld_sma_run s id sma Hu). unfold gets.
    fold adj. rewrite E, (st_sma_run s id sma _ Hu).
    subst adj. destruct un as [u|]; [|done]. destruct (so_undo _ _ _ Hok u Hun) as (x & Ex & _). cbn. rewrite Ex. cbn.
    unfold st_undo, modify, mret, M_ret. do 2 f_equal. apply alter_ext. intros y Ey. cbn in Ey. rewrite Ex in Ey. by injection Ey as <-. }
  eexists _, sma'. split; [exact Edo|]. split_and!; try done. split; try done.
  - change (Forall val_ok (vals b')). by rewrite Hv.
  - by eapply undone_same.
  - intros p. rewrite decide_False; [done|]. naive_solver.
Qed.

Lemma remove_run s id sma p q e :
  used_at s id sma → set_ok s id sma → queues s !! p = Some q → p ∈ sem_pending sma →
  let sma' := sma <| sem_pending := filter (λ x, x ≠ p) (sem_pending sma) |> in
  ∃ s', (st_queue p (λ x, x <| q_status := e |>) ;; remove_from_queue id p) s = Ret tt s' ∧
    frame id sma sma' s s' ∧ queues s' = <[p := woken q e]> (queues s) ∧ undos s' = undos s.
Proof.
  intros Hu Hok Eq Hp sma'. unfold mbind, M_bind, st_queue at 1, modify, remove_from_queue, mbind, M_bind.
  rewrite (st_sma_run _ id sma) by done. unfold st_queue, modify. eexists. split; [reflexivity|].
  match goal with |- frame _ _ _ _ ?x ∧ _ => set (s' := x) end.
  assert (queues s' = <[p := woken q e]> (queues s)) as Eqs.
  { apply map_eq. intros i. cbn. destruct (decide (i = p)) as [->|Hne].
    - by rewrite !lookup_alter_eq, Eq, lookup_insert_eq.
    - by rewrite !lookup_alter_ne, lookup_insert_ne by done. }
  split; [|done]. split; try done.
  - apply Hok.
  - apply sublist_filter.
  - by apply (undone_same None []).
  - intros p'. change (sem_pending sma') with (filter (λ x, x ≠ p) (sem_pending sma)). rewrite Eqs. destruct (decide (p' = p)) as [->|Hne].
    + rewrite decide_True; [|split; [done|]; rewrite list_elem_of_filter; naive_solver]. exists q, e. by rewrite lookup_insert_eq.
    + rewrite decide_False; [by rewrite lookup_insert_ne|]. rewrite list_elem_of_filter. naive_solver.
Qed.

Lemma verdict_cases v : (∃ l, v = Go l) ∨ v = Block ∨ ∃ e, v = Refuse e.
Proof. destruct v; naive_solver. Qed.

Lemma set_ok_frame {o} b id sma sma' s s' : sem_inv b o s → frame id sma sma' s s' → set_ok s' id sma'.
Proof. intros Hi H. eapply frame_set_ok; [done..|]. by eapply frame_used. Qed.

(** The results that the woken processes find. *)
Definition told (res : list (Z * Z)) (s s' : ss) : Prop :=
  ∀ p r, (p, r) ∈ res → ∃ q, queues s !! p = Some q ∧ queues s' !! p = Some (woken q r).

(** One process is served. *)
Lemma serve_one {o} s id sma now p q :
  sem_inv (Some id) o s → used_at s id sma → p ∈ sem_pending sma → queues s !! p = Some q →
  ops_run (q_sops q) (vals (sem_base sma)) ≠ Block →
  ∃ s' sma' e l1, (error ← in_set id (try_semop (q_sops q));
      error ← (if error =? 0 then do_semop now id (q_sops q) (q_undo q) (q_pid q) else mret error);
      st_queue p (λ x, x <| q_status := error |>) ;; remove_from_queue id p) s = Ret tt s' ∧
    code (ops_run (q_sops q) (vals (sem_base sma))) ≤ 0 ∧
    frame id sma sma' s s' ∧ queues s' = <[p := woken q e]> (queues s) ∧
    sem_pending sma' = filter (λ x, x ≠ p) (sem_pending sma) ∧ vals (sem_base sma') = l1 ∧
    ((ops_run (q_sops q) (vals (sem_base sma)) = Go l1 ∧ e = 0) ∨
     (ops_run (q_sops q) (vals (sem_base sma)) = Refuse e ∧ l1 = vals (sem_base sma))).
Proof.
  intros Hi Hu Hp Eq Hnb. pose proof (si_set _ _ _ Hi _ _ Hu) as Hok.
  destruct (so_queue _ _ _ Hok p Hp) as (q' & Eq' & _ & _ & Hops & Hun). rewrite Eq in Eq'. injection Eq' as <-.
  unfold mbind at 1, M_bind at 1. rewrite (in_set_try s id sma) by done.
  destruct (verdict_cases (ops_run (q_sops q) (vals (sem_base sma)))) as [[l El]|[|[e Ee]]]; [|done|].
  - rewrite El. cbn [code]. change (0 =? 0) with true. cbv iota.
    destruct (do_semop_spec s id sma now (q_sops q) (q_undo q) (q_pid q) l) as (s1 & sma1 & E1 & F1 & Hv1 & Hp1 & Hq1 & _); try done.
    unfold mbind at 1, M_bind at 1. rewrite E1.
    destruct (remove_run s1 id sma1 p q 0) as (s2 & E2 & F2 & Hq2 & _);
      [by eapply frame_used|by eapply set_ok_frame|by rewrite Hq1|by rewrite Hp1|].
    eexists s2, _, 0, l. rewrite E2. split_and!; [done..|by eapply frame_trans|by rewrite Hq2, Hq1|cbn; by rewrite Hp1|done|by left].
  - rewrite Ee. cbn [code]. pose proof (ops_run_refuse _ _ _ Ee) as Hneg. rewrite (proj2 (Z.eqb_neq e 0)) by lia.
    destruct (remove_run s id sma p q e) as (s2 & E2 & F2 & Hq2 & _); try done.
    eexists s2, _, e, _. unfold mbind at 1, M_bind at 1. unfold mret, M_ret. rewrite E2. split_and!; [done|lia|done..|by right].
Qed.

Lemma update_pass_step now id p ps wk s q r :
  queues s !! p = Some q → in_set id (try_semop (q_sops q)) s = Ret r s →
  update_pass now id (p :: ps) wk s =
    if 0 <? r then update_pass now id ps wk s
    else ((error ← in_set id (try_semop (q_sops q));
      error ← (if error =? 0 then do_semop now id (q_sops q) (q_undo q) (q_pid q) else mret error);
      st_queue p (λ x, x <| q_status := error |>) ;; remove_from_queue id p) ;; update_pass now id ps true) s.
Proof.
  intros Eq Et. cbn [update_pass]. unfold mbind, M_bind, ld_queue. rewrite Eq, Et. destruct (0 <? r); [done|].
  by repeat (case_match; simplify_eq).
Qed.

Lemma serves_frame Q Q' l ps res l' ps' :
  serves Q l ps res l' ps' → (∀ p, p ∈ ps → Q' !! p = Q !! p) → serves Q' l ps res l' ps'.
Proof.
  induction 1 as [|l ps p q l1 res l' ps' Hp Eq El _ IH|l ps p q e res l' ps' Hp Eq El _ IH]; intros HQ.
  - constructor.
  - econstructor; [done|by rewrite HQ|done|]. apply IH. intros x [_ Hx]%list_elem_of_filter. by apply HQ.
  - eapply sv_refuse; [done|by rewrite HQ|done|]. apply IH. intros x [_ Hx]%list_elem_of_filter. by apply HQ.
Qed.

Lemma serves_in Q l ps res l' ps' p r : serves Q l ps res l' ps' → (p, r) ∈ res → p ∈ ps.
Proof.
  induction 1 as [|l ps p' q l1 res l' ps' Hp Eq El _ IH|l ps p' q e res l' ps' Hp Eq El _ IH].
  - by intros ?%elem_of_nil.
  - intros [[= -> ->]|Hin]%elem_of_cons; [done|]. by apply IH, list_elem_of_filter in Hin as [_ ?].
  - intros [[= -> ->]|Hin]%elem_of_cons; [done|]. by apply IH, list_elem_of_filter in Hin as [_ ?].
Qed.

Lemma serves_trans Q l ps res l1 ps1 res1 l2 ps2 :
  serves Q l ps res l1 ps1 → serves Q l1 ps1 res1 l2 ps2 → serves Q l ps (res ++ res1) l2 ps2.
Proof. intros H1 H2. induction H1; [done|cbn; eapply sv_go; eauto|cbn; eapply sv_refuse; eauto]. Qed.

(** What a run through the queue does. *)
Record served (id : nat) (sma sma' : semid_ds) (s s' : ss) (res : list (Z * Z)) : Prop := {
  sd_frame : frame id sma sma' s s';
  sd_serves : serves (queues s) (vals (sem_base sma)) (sem_pending sma) res (vals (sem_base sma')) (sem_pending sma');
  sd_told : told res s s';
  sd_less : res ≠ [] → (length (sem_pending sma') < length (sem_pending sma))%nat;
  sd_none : res = [] → s' = s ∧ sma' = sma;
}.

Lemma served_nil {o} id sma s b : sem_inv b o s → used_at s id sma → served id sma sma s s [].
Proof. intros Hi Hu. split; try done; [|constructor|by intros p r ?%elem_of_nil]. apply frame_refl; [done|]. by eapply si_set. Qed.

Lemma pend_le id sma sma' s s' : frame id sma sma' s s' → (length (sem_pending sma') ≤ length (sem_pending sma))%nat.
Proof. intros H. apply sublist_length, H. Qed.

Lemma served_trans {o} b id sma1 sma2 sma3 s1 s2 s3 res res' :
  sem_inv b o s1 → served id sma1 sma2 s1 s2 res → served id sma2 sma3 s2 s3 res' → served id sma1 sma3 s1 s3 (res ++ res').
Proof.
  intros Hi [F1 V1 T1 L1 N1] [F2 V2 T2 L2 N2].
  assert (∀ p, p ∈ sem_pending sma2 → queues s1 !! p = queues s2 !! p) as Hq by (intros p Hp; symmetry; eapply frame_queue; [done|by right]).
  split.
  - by eapply frame_trans.
  - eapply serves_trans; [done|]. by eapply serves_frame.
  - intros p r [Hin|Hin]%elem_of_app.
    + destruct (T1 p r Hin) as (q & Eq & Eq'). exists q. split; [done|]. rewrite <-Eq'. eapply frame_queue; [done|]. left. intros Hp.
      destruct (so_queue _ _ _ (set_ok_frame _ _ _ _ _ _ Hi F1) p Hp) as (q' & E & Hl & _). rewrite Eq' in E. injection E as <-. done.
    + destruct (T2 p r Hin) as (q & Eq & Eq'). exists q. split; [|done]. rewrite Hq; [done|]. by eapply serves_in.
  - intros Hne. pose proof (pend_le _ _ _ _ _ F1). pose proof (pend_le _ _ _ _ _ F2). destruct res as [|x res].
    + specialize (L2 Hne). lia.
    + specialize (L1 ltac:(done)). lia.
  - intros [-> ->]%app_nil. destruct (N1 eq_refl) as [-> ->]. by destruct (N2 eq_refl) as [-> ->].
Qed.

Lemma serve_one_served s s' id sma sma' p q e l1 :
  used_at s id sma → p ∈ sem_pending sma → queues s !! p = Some q →
  frame id sma sma' s s' → queues s' = <[p := woken q e]> (queues s) →
  sem_pending sma' = filter (λ x, x ≠ p) (sem_pending sma) → vals (sem_base sma') = l1 →
  (ops_run (q_sops q) (vals (sem_base sma)) = Go l1 ∧ e = 0) ∨
     (ops_run (q_sops q) (vals (sem_base sma)) = Refuse e ∧ l1 = vals (sem_base sma)) →
  served id sma sma' s s' [(p, e)].
Proof.
  intros Hu Hp Eq F Hq Hpd Hv Hc. split; try done.
  - rewrite Hpd, Hv. destruct Hc as [[El ->]|[Ee ->]]; [eapply sv_go; try done; constructor|eapply sv_refuse; try done; constructor].
  - intros p' r [= -> ->]%list_elem_of_singleton. exists q. split; [done|]. by rewrite Hq, lookup_insert_eq.
  - intros _. rewrite Hpd. apply (length_filter_lt _ _ p); [done|]. naive_solver.
Qed.

Lemma update_pass_spec {o} now id ps : ∀ s sma wk,
  sem_inv (Some id) o s → used_at s id sma → NoDup ps → ps ⊆ sem_pending sma →
  ∃ s' sma' res, update_pass now id ps wk s = Ret (wk || negb (bool_decide (res = []))) s' ∧
    served id sma sma' s s' res ∧
    (res = [] → ∀ p q, p ∈ ps → queues s !! p = Some q → ops_run (q_sops q) (vals (sem_base sma)) = Block).
Proof.
  induction ps as [|p ps IH]; intros s sma wk Hi Hu Hnd Hsub.
  { exists s, sma, []. rewrite bool_decide_eq_true_2, orb_false_r by done. split_and!; [done|by eapply served_nil|].
    intros _ p q ?%elem_of_nil. done. }
  apply NoDup_cons in Hnd as [Hn Hnd]. assert (p ∈ sem_pending sma) as Hp by set_solver.
  pose proof (si_set _ _ _ Hi _ _ Hu) as Hok. destruct (so_queue _ _ _ Hok p Hp) as (q & Eq & _ & _ & Hops & Hun).
  rewrite (update_pass_step now id p ps wk s q _ Eq (in_set_try s id sma _ Hu Hok Hops)).
  destruct (decide (ops_run (q_sops q) (vals (sem_base sma)) = Block)) as [Hb|Hnb].
  - rewrite Hb. change (0 <? code Block) with true. cbv iota.
    destruct (IH s sma wk) as (s' & sma' & res & E & Hs & Hnone); try done; [set_solver|].
    exists s', sma', res. split_and!; [done..|]. intros Hr p' q' [->|Hin]%elem_of_cons Eq'; [congruence|by eapply Hnone].
  - destruct (serve_one s id sma now p q Hi Hu Hp Eq Hnb) as (s1 & sma1 & e & l1 & E1 & Hle & F1 & Hq1 & Hp1 & Hv1 & Hc).
    rewrite (proj2 (Z.ltb_ge 0 _)) by lia. unfold mbind at 1, M_bind at 1. rewrite E1.
    pose proof (serve_one_served s s1 id sma sma1 p q e l1 Hu Hp Eq F1 Hq1 Hp1 Hv1 Hc) as S1.
    destruct (IH s1 sma1 true) as (s' & sma' & res & E & Hs & _).
    + eapply inv_frame; [done..|by left].
    + by eapply frame_used.
    + done.
    + rewrite Hp1. intros x Hx. apply list_elem_of_filter. split; [set_solver|]. apply Hsub. set_solver.
    + exists s', sma', ((p, e) :: res). rewrite E. split_and!; [|by eapply (served_trans _ _ _ _ _ _ _ _ [(p, e)])|done].
      cbn. by rewrite orb_true_r.
Qed.

Lemma inv_quiet {o} s id sma : sem_inv (Some id) o s → used_at s id sma → quiet s sma → sem_inv None o s.
Proof.
  intros [] Hu Hq. split; try done. intros id1 sma1 Hu1 _. destruct (decide (id1 = id)) as [->|Hne]; [|apply (si_quiet0 id1); congruence].
  unfold used_at in *. rewrite Hu in Hu1. by injection Hu1 as <-.
Qed.

Lemma inv_busy {o} s id : sem_inv None o s → sem_inv (Some id) o s.
Proof. intros []. split; try done. intros id1 sma1 Hu1 _. by eapply si_quiet0. Qed.

Lemma update_loop_spec {o} now id fuel : ∀ s sma,
  sem_inv (Some id) o s → used_at s id sma → (length (sem_pending sma) < fuel)%nat →
  ∃ s' sma' res, update_loop fuel now id s = Ret tt s' ∧ served id sma sma' s s' res ∧ quiet s' sma'.
Proof.
  induction fuel as [|fuel IH]; intros s sma Hi Hu Hf; [lia|]. cbn [update_loop]. unfold mbind, M_bind.
  rewrite (ld_sma_run s id sma Hu). pose proof (si_set _ _ _ Hi _ _ Hu) as Hok.
  destruct (update_pass_spec (o := o) now id (sem_pending sma) s sma false) as (s1 & sma1 & res & E & Hs & Hnone); try done; [apply Hok|].
  rewrite E. cbn [orb]. destruct (decide (res = [])) as [->|Hne].
  - rewrite bool_decide_eq_true_2 by done. cbn [negb]. pose proof (sd_none _ _ _ _ _ _ Hs eq_refl) as [-> ->].
    exists s, sma, []. split_and!; try done. intros p q Hp Eq. by apply (Hnone eq_refl p).
  - rewrite bool_decide_eq_false_2 by done. cbn [negb]. pose proof (sd_less _ _ _ _ _ _ Hs Hne). pose proof (sd_frame _ _ _ _ _ _ Hs) as F.
    destruct (IH s1 sma1) as (s2 & sma2 & res2 & E2 & Hs2 & Hq); [eapply inv_frame; [done..|by left]|by eapply frame_used|lia|].
    exists s2, sma2, (res ++ res2). split_and!; try done. by eapply served_trans.
Qed.

Lemma update_queue_spec {o} now id s sma :
  sem_inv (Some id) o s → used_at s id sma →
  ∃ s' sma' res, update_queue now id s = Ret tt s' ∧ served id sma sma' s s' res ∧ sem_inv None o s'.
Proof.
  intros Hi Hu. unfold update_queue, mbind, M_bind. rewrite (ld_sma_run s id sma Hu).
  destruct (update_loop_spec now id (S (length (sem_pending sma))) s sma Hi Hu ltac:(lia)) as (s' & sma' & res & E & Hs & Hq).
  exists s', sma', res. split_and!; try done. pose proof (sd_frame _ _ _ _ _ _ Hs) as F.
  eapply inv_quiet; [eapply inv_frame; [exact Hi|exact F|by left]|by eapply frame_used|done].
Qed.

(** ** semop *)

Lemma slot_of_range s semid : length (semary s) = Z.to_nat SEMMNI → (slot_of semid < length (semary s))%nat.
Proof. intros ->. unfold slot_of. pose proof (Z.mod_pos_bound semid SEMMNI ltac:(done)). lia. Qed.

Lemma ident_slot seq id : (id < Z.to_nat SEMMNI)%nat → slot_of (ident seq id) = id.
Proof.
  intros H. unfold slot_of, ident. rewrite Z.add_comm, Z_mod_plus_full, Z.mod_small; [lia|]. unfold SEMMNI in *. lia.
Qed.

Lemma ident_seq seq id : (id < Z.to_nat SEMMNI)%nat → seq_of (ident seq id) = seq.
Proof. intros H. unfold seq_of, ident. rewrite Z.add_comm, Z_div_plus_full by done. rewrite Z.div_small; [lia|]. unfold SEMMNI in *. lia. Qed.

Lemma semid_ident semid : ident (seq_of semid) (slot_of semid) = semid.
Proof.
  unfold ident, seq_of, slot_of. pose proof (Z.mod_pos_bound semid SEMMNI ltac:(done)). rewrite Z2Nat.id by lia.
  rewrite (Z.div_mod semid SEMMNI) at 3 by done. lia.
Qed.

(** A process gets an undo structure for a set. *)
Definition with_undo (s : ss) (t n : Z) (id : nat) (sma : semid_ds) : ss :=
  s <| undos := <[n := MkUndo (ident (p_seq (sem_perm sma)) id) (replicate (nsems_of sma) 0)]> (undos s) |>
    <| semundo := <[t := n :: undos_of t s]> (semundo s) |>
    <| semary := <[id := Used (sma <| undo := n :: undo sma |>)]> (semary s) |>.

Definition own_more (o : Z → list Z) (t n : Z) : Z → list Z := λ t', if decide (t' = t) then n :: o t else o t'.

Lemma inv_ext b o o' s : (∀ t, o t = o' t) → sem_inv b o s → sem_inv b o' s.
Proof.
  intros E []. split; try done; setoid_rewrite <-E; done.
Qed.

Lemma undo_used {o} b s u :
  sem_inv b o s → undos s !! u = None → (∀ t, u ∉ o t) ∧ ∀ id sma, used_at s id sma → u ∉ undo sma.
Proof.
  intros Hi Hn. split.
  - intros t Hin. destruct (si_own _ _ _ Hi t u Hin) as (x & E & _). congruence.
  - intros id sma Hu Hin. destruct (so_undo _ _ _ (si_set _ _ _ Hi _ _ Hu) u Hin) as (x & E & _). congruence.
Qed.

Lemma used_set s s' id sma sma' :
  semary s' = <[id := Used sma']> (semary s) → used_at s id sma → used_at s' id sma'.
Proof. intros E Hu. unfold used_at. rewrite E. apply list_lookup_insert_eq. by eapply lookup_lt_Some. Qed.

Lemma used_insert_inv s s' id x sma' id1 sma1 :
  semary s' = <[id := Used sma']> (semary s) → semary s !! id = Some x → used_at s' id1 sma1 →
  (id1 = id ∧ sma1 = sma') ∨ (id1 ≠ id ∧ used_at s id1 sma1).
Proof.
  intros E Hu H1. unfold used_at in *. rewrite E in H1. destruct (decide (id1 = id)) as [->|Hne].
  - rewrite list_lookup_insert_eq in H1 by (by eapply lookup_lt_Some). injection H1 as <-. by left.
  - rewrite list_lookup_insert_ne in H1 by done. by right.
Qed.

Lemma used_insert_fwd s s' id sma sma' id1 sma1 :
  semary s' = <[id := Used sma']> (semary s) → used_at s id sma → used_at s id1 sma1 →
  ∃ sma2, used_at s' id1 sma2 ∧ (id1 = id → sma1 = sma ∧ sma2 = sma') ∧ (id1 ≠ id → sma2 = sma1).
Proof.
  intros E Hu H1. unfold used_at in *. rewrite E. destruct (decide (id1 = id)) as [->|Hne].
  - exists sma'. rewrite list_lookup_insert_eq by (by eapply lookup_lt_Some). naive_solver congruence.
  - exists sma1. by rewrite list_lookup_insert_ne.
Qed.

(** A set keeps its key and its size. *)
Section same_set.
Context {o : Z → list Z} (b : option nat) (s s' : ss) (id : nat) (sma sma' : semid_ds).
Context (Hi : sem_inv b o s) (Hu : used_at s id sma) (Ea : semary s' = <[id := Used sma']> (semary s)).

Lemma keys_keep id1 id2 sma1 sma2 :
  p_key (sem_perm sma') = p_key (sem_perm sma) → one_key = true → used_at s' id1 sma1 → used_at s' id2 sma2 →
  p_key (sem_perm sma1) = p_key (sem_perm sma2) → p_key (sem_perm sma1) ≠ IPC_PRIVATE → id1 = id2.
Proof.
  intros Hk Hone H1 H2 E Hne. pose proof (used_insert_inv s s' id _ sma' id1 sma1 Ea Hu H1) as U1.
  pose proof (used_insert_inv s s' id _ sma' id2 sma2 Ea Hu H2) as U2. pose proof (λ i1 i2 a1 a2, si_keys _ _ _ Hi i1 i2 a1 a2 Hone) as K.
  destruct U1 as [[-> ->]|[Hne1 U1]], U2 as [[-> ->]|[Hne2 U2]]; [done|..].
  - apply (K id id2 sma sma2); congruence.
  - apply (K id1 id sma1 sma); congruence.
  - by apply (K id1 id2 sma1 sma2).
Qed.

Lemma sums_keep : sem_nsems sma' = sem_nsems sma → used_sems s' = used_sems s → used_semids s' = used_semids s →
  used_sems s' = sumZ sems_in (semary s') + reserved ∧ used_semids s' = sumZ sets_in (semary s').
Proof.
  intros Hn -> ->. rewrite Ea, !(sumZ_insert _ _ _ _ _ Hu), (si_sems _ _ _ Hi), (si_sets _ _ _ Hi). cbn [sems_in sets_in]. lia.
Qed.

Lemma base_keep : length (semary s') = Z.to_nat SEMMNI ∧ ∀ i, semary s' !! i = Some NoId ↔ i ∈ hidden.
Proof.
  rewrite Ea, length_insert. split; [apply Hi|]. intros i. rewrite (noid_insert _ id (Used sma)) by done. apply Hi.
Qed.
End same_set.

Lemma with_undo_inv {o} b s t n id sma :
  sem_inv b o s → used_at s id sma → undos s !! n = None → sem_inv b (own_more o t n) (with_undo s t n id sma).
Proof.
  intros Hi Hu Hn. set (s' := with_undo s t n id sma). set (sma' := sma <| undo := n :: undo sma |>).
  destruct (undo_used b s n Hi Hn) as [Hn1 Hn2]. pose proof Hi as [I1 I2 I3 I4 I5 I6 I7 I8 I9 I10 I11 I12 I13].
  assert (semary s' = <[id := Used sma']> (semary s)) as Ea by done.
  assert (∀ u x, undos s !! u = Some x → undos s' !! u = Some x) as Hun.
  { intros u x E. cbn. rewrite lookup_insert_ne; [done|]. congruence. }
  assert ((id < Z.to_nat SEMMNI)%nat) as Hid by (rewrite <-I1; by eapply lookup_lt_Some).
  split; try done.
  - by eapply (base_keep (o := o) _ s s').
  - by eapply (base_keep (o := o) _ s s').
  - intros id1 sma1 H1. destruct (used_insert_inv s s' id _ sma' id1 sma1 Ea Hu H1) as [[-> ->]|[Hne H1']].
    + destruct (I3 _ _ Hu) as [O1 O2 O3 O4 O5 O6 O7 O8]. split; try done.
      * intros p Hp. destruct (O6 p Hp) as (q & Eq & Q1 & Q2 & Q3 & Q4). exists q. split; [done|]. split_and!; try done.
        destruct (q_undo q); [|done]. cbn. set_solver.
      * constructor; [|done]. by eapply Hn2.
      * cbn. intros u [->|Hin]%elem_of_cons.
        -- eexists. rewrite lookup_insert_eq. split; [done|]. split; [done|]. cbn. apply length_replicate.
        -- destruct (O8 u Hin) as (x & Ex & Hx). exists x. split; [by apply Hun|done].
    + destruct (I3 _ _ H1') as [O1 O2 O3 O4 O5 O6 O7 O8]. split; try done.
      intros u Hin. destruct (O8 u Hin) as (x & Ex & Hx). exists x. split; [by apply Hun|done].
  - intros id1 sma1 H1 Hb. destruct (used_insert_inv s s' id _ sma' id1 sma1 Ea Hu H1) as [[-> ->]|[Hne H1']]; [|by eapply I4].
    intros p q Hp Eq. by apply (I4 _ _ Hu Hb p q).
  - intros p q Eq Hl. destruct (I5 p q Eq Hl) as (sma1 & H1 & Hp). destruct (used_insert_fwd s s' id sma sma' _ sma1 Ea Hu H1) as (sma2 & H2 & Ha & Hb).
    exists sma2. split; [done|]. destruct (decide (q_sma q = id)) as [E|E]; [destruct (Ha E) as [-> ->]; done|by rewrite Hb].
  - intros t' u Hin. unfold own_more in Hin. assert (u = n ∨ u ∈ o t') as [->|Hold] by (destruct (decide _) as [->|]; set_solver).
    + eexists. cbn [undos s' with_undo]. split; [cbn; by rewrite lookup_insert_eq|]. intros _. cbn [un_semid]. rewrite ident_slot, ident_seq by done.
      exists sma'. split_and!; [|done|cbn; set_solver]. by eapply (used_insert s id sma sma').
    + destruct (I6 t' u Hold) as (x & Ex & Hx). exists x. split; [by apply Hun|]. intros Hne. destruct (Hx Hne) as (sma1 & H1 & Hs1 & Hin1).
      destruct (used_insert_fwd s s' id sma sma' _ sma1 Ea Hu H1) as (sma2 & H2 & Ha & Hb). exists sma2. split; [done|].
      destruct (decide (slot_of (un_semid x) = id)) as [E|E]; [destruct (Ha E) as [-> ->]; cbn; set_solver|by rewrite Hb].
  - intros t'. unfold own_more. destruct (decide _); [|apply I7]. constructor; [apply Hn1|apply I7].
  - intros t1 t2 u. unfold own_more. specialize (I8 t1 t2 u). pose proof (Hn1 t1). pose proof (Hn1 t2).
    destruct (decide (t1 = t)), (decide (t2 = t)); subst; rewrite ?elem_of_cons; naive_solver.
  - intros t' q u Eq Hl Hq. unfold own_more. pose proof (I9 t' q u Eq Hl Hq). destruct (decide _); subst; set_solver.
  - intros id1 id2 sma1 sma2 H1 H2. by eapply (keys_keep (o := o) b s s' id sma sma').
  - by apply (sums_keep (o := o) b s s' id sma sma').
  - by apply (sums_keep (o := o) b s s' id sma sma').
Qed.

Lemma find_undo_spec semid us s :
  (∀ u, u ∈ us → is_Some (undos s !! u)) →
  ∃ r, find_undo semid us s = Ret r s ∧
    match r with Some u => u ∈ us ∧ ∃ x, undos s !! u = Some x ∧ un_semid x = semid | None => True end.
Proof.
  induction us as [|u us IH]; intros Hus; [by exists None|]. destruct (Hus u ltac:(set_solver)) as [x Ex].
  cbn [find_undo]. unfold mbind, M_bind, ld_undo. rewrite Ex. destruct (un_semid x =? semid) eqn:E; to_prop.
  - exists (Some u). split; [done|]. split; [set_solver|]. by exists x.
  - destruct IH as (r & Er & Hr); [set_solver|]. exists r. split; [done|]. destruct r; [|done]. set_solver.
Qed.

Lemma get_undo_spec c km id semid s sma :
  sems_ok s → used_at s id sma → semid = ident (p_seq (sem_perm sma)) id → (∀ n, km = Some n → undos s !! n = None) →
  (∃ u, get_undo c km id semid s = Ret (Some u) s ∧ u ∈ undo sma ∧ u ∈ undos_of (c_task c) s) ∨
  (km = None ∧ get_undo c km id semid s = Ret None s) ∨
  (∃ n, km = Some n ∧ get_undo c km id semid s = Ret (Some n) (with_undo s (c_task c) n id sma)).
Proof.
  intros Hi Hu -> Hkm. pose proof (si_set _ _ _ Hi _ _ Hu) as Hok.
  assert ((id < Z.to_nat SEMMNI)%nat) as Hid by (rewrite <-(si_len _ _ _ Hi); by eapply lookup_lt_Some).
  destruct (find_undo_spec (ident (p_seq (sem_perm sma)) id) (undos_of (c_task c) s) s) as (r & E & Hr).
  { intros u Hin. destruct (si_own _ _ _ Hi _ u Hin) as (x & -> & _). done. }
  unfold get_undo, mbind, M_bind, gets. rewrite E. destruct r as [u|].
  - left. exists u. destruct Hr as [Hin (x & Ex & Hx)]. split_and!; try done. destruct (si_own _ _ _ Hi _ u Hin) as (x' & Ex' & Hx').
    rewrite Ex in Ex'. injection Ex' as <-. rewrite Hx in Hx'. pose proof (so_seq _ _ _ Hok).
    destruct Hx' as (sma1 & H1 & _ & Hin1); [unfold ident, SEMMNI; lia|]. rewrite ident_slot in H1 by done. unfold used_at in *.
    rewrite Hu in H1. by injection H1 as <-.
  - right. destruct km as [n|]; [right|by left]. exists n. split; [done|]. rewrite (ld_sma_run s id sma Hu). unfold modify.
    rewrite (st_sma_run _ id sma) by done. unfold with_undo. destruct (so_nsems _ _ _ Hok) as [-> _]. by rewrite Nat2Z.id.
Qed.

(** The caller goes to sleep. *)
Definition put_to_sleep (s : ss) (t : Z) (id : nat) (sma : semid_ds) (q : sem_queue) : ss :=
  s <| queues := <[t := q]> (queues s) |>
    <| semary := <[id := Used (sma <| sem_pending := sem_pending sma ++ [t] |>)]> (semary s) |>.

Lemma not_pending {o} b s t id sma : sem_inv b o s → queues s !! t = None → used_at s id sma → t ∉ sem_pending sma.
Proof. intros Hi Hn Hu Hin. destruct (so_queue _ _ _ (si_set _ _ _ Hi _ _ Hu) t Hin) as (q & E & _). congruence. Qed.

Lemma sleep_inv {o} s t id sma q :
  sem_inv None o s → used_at s id sma → queues s !! t = None → queue_ok id sma q →
  ops_run (q_sops q) (vals (sem_base sma)) = Block → (∀ u, q_undo q = Some u → u ∈ o t) →
  sem_inv None o (put_to_sleep s t id sma q).
Proof.
  intros Hi Hu Hn Hq Hb Hqu. set (s' := put_to_sleep s t id sma q). set (sma' := sma <| sem_pending := sem_pending sma ++ [t] |>).
  pose proof (λ id sma, not_pending None s t id sma Hi Hn) as Hnp. pose proof Hi as [I1 I2 I3 I4 I5 I6 I7 I8 I9 I10 I11 I12 I13].
  assert (semary s' = <[id := Used sma']> (semary s)) as Ea by done.
  assert (∀ p, p ≠ t → queues s' !! p = queues s !! p) as Hqs by (intros; cbn; by apply lookup_insert_ne).
  assert (queues s' !! t = Some q) as Hqt by (cbn; by rewrite lookup_insert_eq).
  split; try done.
  - by eapply (base_keep (o := o) _ s s').
  - by eapply (base_keep (o := o) _ s s').
  - intros id1 sma1 H1. destruct (used_insert_inv s s' id _ sma' id1 sma1 Ea Hu H1) as [[-> ->]|[Hne H1']].
    + destruct (I3 _ _ Hu) as [O1 O2 O3 O4 O5 O6 O7 O8]. split; try done.
      * change (sem_pending sma') with (sem_pending sma ++ [t]). apply NoDup_app. split_and!; [done| |by apply NoDup_singleton].
        intros x Hx ->%list_elem_of_singleton. by apply (Hnp id sma).
      * intros p [Hp| ->%list_elem_of_singleton]%elem_of_app; [|by exists q].
        rewrite Hqs by (intros ->; by apply (Hnp id sma)). by apply O6.
    + destruct (I3 _ _ H1') as [O1 O2 O3 O4 O5 O6 O7 O8]. split; try done.
      intros p Hp. rewrite Hqs by (intros ->; by apply (Hnp id1 sma1)). by apply O6.
  - intros id1 sma1 H1 _. destruct (used_insert_inv s s' id _ sma' id1 sma1 Ea Hu H1) as [[-> ->]|[Hne H1']]; intros p q' Hp Eq.
    + destruct (decide (p = t)) as [->|Hpt]; [rewrite Hqt in Eq; by injection Eq as <-|]. rewrite Hqs in Eq by done.
      apply (I4 _ _ Hu ltac:(done) p q'); [|done]. change (sem_pending sma') with (sem_pending sma ++ [t]) in Hp. set_solver.
    + rewrite Hqs in Eq by (intros ->; by apply (Hnp id1 sma1)). by apply (I4 _ _ H1' ltac:(done) p q').
  - intros p q' Eq Hl. destruct (decide (p = t)) as [->|Hpt].
    + rewrite Hqt in Eq. injection Eq as <-. destruct Hq as (_ & -> & _). exists sma'. split; [by eapply (used_insert s id sma)|].
      change (sem_pending sma') with (sem_pending sma ++ [t]). set_solver.
    + rewrite Hqs in Eq by done. destruct (I5 p q' Eq Hl) as (sma1 & H1 & Hp).
      destruct (used_insert_fwd s s' id sma sma' _ sma1 Ea Hu H1) as (sma2 & H2 & Ha & Hb'). exists sma2. split; [done|].
      destruct (decide (q_sma q' = id)) as [E|E]; [|by rewrite Hb']. destruct (Ha E) as [-> ->].
      change (sem_pending sma') with (sem_pending sma ++ [t]). set_solver.
  - intros t' u Hin. destruct (I6 t' u Hin) as (x & Ex & Hx). exists x. split; [done|]. intros Hne. destruct (Hx Hne) as (sma1 & H1 & Hs1 & Hin1).
    destruct (used_insert_fwd s s' id sma sma' _ sma1 Ea Hu H1) as (sma2 & H2 & Ha & Hb'). exists sma2. split; [done|].
    destruct (decide (slot_of (un_semid x) = id)) as [E|E]; [destruct (Ha E) as [-> ->]; done|by rewrite Hb'].
  - intros t' q' u Eq Hl Hq'. destruct (decide (t' = t)) as [->|Hpt]; [rewrite Hqt in Eq; injection Eq as <-; by apply Hqu|].
    rewrite Hqs in Eq by done. by apply (I9 t' q' u).
  - intros id1 id2 sma1 sma2 H1 H2. by eapply (keys_keep (o := o) None s s' id sma sma').
  - by apply (sums_keep (o := o) None s s' id sma sma').
  - by apply (sums_keep (o := o) None s s' id sma sma').
Qed.

(** The caller may perform the operations on the set. *)
Record admitted (c : caller) (s : ss) (semid : Z) (sops : list sembuf) (sma : semid_ds) : Prop := {
  ad_count : 1 ≤ Z.of_nat (length sops) ≤ SEMOPM;
  ad_semid : 0 ≤ semid;
  ad_used : used_at s (slot_of semid) sma;
  ad_seq : p_seq (sem_perm sma) = seq_of semid;
  ad_nums : Forall (λ sop, sem_num sop < sem_nsems sma) sops;
  ad_perms : ipcperms c (sem_perm sma) (if existsb (λ sop, negb (sem_op sop =? 0)) sops then S_IWUGO else S_IRUGO) = false;
}.

(** The operations as they were copied from the caller. *)
Definition typed (sops : list sembuf) : Prop :=
  Forall (λ sop, 0 ≤ sem_num sop < 2 ^ 16 ∧ - 2 ^ 15 ≤ sem_op sop < 2 ^ 15) sops.

(** What [semop] does, by what its operations mean on the values of the set. *)
Definition semop_outcome (t : Z) (s s' : ss) (id : nat) (sma : semid_ds) (sops : list sembuf) (r : option Z) : Prop :=
  match ops_run sops (vals (sem_base sma)) with
  | Refuse e => r = Some e ∧ s' = s
  | Block => r = None ∧ ∃ sma' q, used_at s' id sma' ∧ vals (sem_base sma') = vals (sem_base sma) ∧
      sem_pending sma' = sem_pending sma ++ [t] ∧ queues s' = <[t := q]> (queues s) ∧ q_sops q = sops ∧ q_linked q = true
  | Go l => r = Some 0 ∧ ∃ sma' res, used_at s' id sma' ∧
      serves (queues s) l (sem_pending sma) res (vals (sem_base sma')) (sem_pending sma') ∧ told res s s'
  end.

Lemma nums_existsb sma sops :
  existsb (λ sop, sem_nsems sma <=? sem_num sop) sops = false ↔ Forall (λ sop, sem_num sop < sem_nsems sma) sops.
Proof.
  induction sops as [|sop sops IH]; [done|]. cbn [existsb]. rewrite Forall_cons, orb_false_iff, Z.leb_gt. by rewrite IH.
Qed.

Lemma admitted_or {o} b c km s semid sops :
  sem_inv b o s →
  (∃ sma, admitted c s semid sops sma) ∨
  (¬ ∃ sma, admitted c s semid sops sma) ∧ ∃ e, e < 0 ∧ semop_enter c 0 km semid sops s = Ret (Some e) s.
Proof.
  intros Hi. unfold semop_enter. change (negb (0 =? 0)) with false. cbv iota.
  destruct ((Z.of_nat (length sops) <? 1) || (semid <? 0)) eqn:E1.
  { right. split; [|by exists (- EINVAL)]. intros [sma [? ? _ _ _ _]]. to_prop. lia. }
  destruct (SEMOPM <? Z.of_nat (length sops)) eqn:E2; to_prop.
  { right. split; [|by exists (- E2BIG)]. intros [sma [? _ _ _ _ _]]. lia. }
  unfold mbind, M_bind, gets. destruct (lookup_lt_is_Some_2 _ _ (slot_of_range s semid (si_len _ _ _ Hi))) as [sl Esl]. rewrite Esl.
  assert (∀ sma', admitted c s semid sops sma' → sl = Used sma') as Hsl.
  { intros sma' [_ _ Hu _ _ _]. unfold used_at in Hu. congruence. }
  destruct sl as [| |sma]; [right; split; [by intros [sma ?%Hsl]|by exists (- EINVAL)]..|].
  destruct (p_seq (sem_perm sma) =? seq_of semid) eqn:E3; cbn [negb]; to_prop.
  2:{ right. split; [|by exists (- EIDRM)]. intros [sma' Had]. pose proof (Hsl _ Had) as [= <-]. by destruct Had. }
  destruct (existsb (λ sop, sem_nsems sma <=? sem_num sop) sops) eqn:E4.
  { right. split; [|by exists (- EFBIG)]. intros [sma' Had]. pose proof (Hsl _ Had) as [= <-]. destruct Had as [_ _ _ _ Hn _].
    apply nums_existsb in Hn. congruence. }
  destruct (ipcperms _ _ _) eqn:E5.
  { right. split; [|by exists (- EACCES)]. intros [sma' Had]. pose proof (Hsl _ Had) as [= <-]. destruct Had. congruence. }
  left. exists sma. split; try done; [lia..|by apply nums_existsb].
Qed.

Lemma semop_enter_run c km s semid sops sma :
  admitted c s semid sops sma → semop_enter c 0 km semid sops s =
    (error ← in_set (slot_of semid) (try_semop sops);
     if error <? 0 then mret (Some error)
     else
       un ← (if existsb wants_undo sops then get_undo c km (slot_of semid) semid else mret None);
       if existsb wants_undo sops && bool_decide (un = None) then mret (Some (- ENOMEM))
       else if error =? 0 then
         error ← do_semop (c_now c) (slot_of semid) sops un (c_pid c);
         update_queue (c_now c) (slot_of semid) ;;
         mret (Some error)
       else
         modify (λ s, s <| queues := <[c_task c := MkQueue false un (c_pid c) 0 (slot_of semid) sops]> (queues s) |>) ;;
         insert_into_queue (slot_of semid) (c_task c) ;;
         mret None) s.
Proof.
  intros [Hc Hs Hu Hseq Hn Hp]. unfold semop_enter. change (negb (0 =? 0)) with false. cbv iota.
  rewrite (proj2 (Z.ltb_ge _ 1)), (proj2 (Z.ltb_ge semid 0)), (proj2 (Z.ltb_ge SEMOPM _)) by lia. cbn [orb].
  unfold mbind at 1, M_bind at 1, gets. rewrite Hu, (proj2 (Z.eqb_eq _ _) Hseq). cbn [negb].
  by rewrite (proj2 (nums_existsb sma sops) Hn), Hp.
Qed.

(** The undo structure that the operations need, if any. *)
Lemma with_undo_ok s t n id sma :
  sems_ok s → used_at s id sma → undos s !! n = None → sems_ok (with_undo s t n id sma).
Proof.
  intros Hi Hu Hn. eapply inv_ext; [|by eapply with_undo_inv]. intros t'. unfold own_more, undos_of. cbn.
  destruct (decide (t' = t)) as [->|Hne]; [by rewrite lookup_insert_eq|by rewrite lookup_insert_ne].
Qed.

Lemma frame_ok id sma sma' s s' : sem_inv None (λ t, undos_of t s) s' → frame id sma sma' s s' → sems_ok s'.
Proof. intros Hi H. eapply inv_ext; [|exact Hi]. intros t. unfold undos_of. by destruct (fr_vars _ _ _ _ _ H) as (_ & _ & _ & _ & ->). Qed.

Lemma choose_undo c km id semid s sma sops :
  sems_ok s → used_at s id sma → semid = ident (p_seq (sem_perm sma)) id → (∀ n, km = Some n → undos s !! n = None) →
  (∃ un s1 sma1, (if existsb wants_undo sops then get_undo c km id semid else mret None) s = Ret un s1 ∧
     sems_ok s1 ∧ used_at s1 id sma1 ∧ sem_base sma1 = sem_base sma ∧ sem_pending sma1 = sem_pending sma ∧ queues s1 = queues s ∧
     existsb wants_undo sops && bool_decide (un = None) = false ∧
     match un with Some u => u ∈ undo sma1 ∧ u ∈ undos_of (c_task c) s1 | None => existsb wants_undo sops = false end) ∨
  (existsb wants_undo sops = true ∧ km = None ∧
   (if existsb wants_undo sops then get_undo c km id semid else mret None) s = Ret None s).
Proof.
  intros Hi Hu Hs Hkm. destruct (existsb wants_undo sops) eqn:Ew.
  2:{ left. by exists None, s, sma. }
  destruct (get_undo_spec c km id semid s sma Hi Hu Hs Hkm) as [(u & E & H1 & H2)|[[-> E]|(n & -> & E)]].
  - left. by exists (Some u), s, sma.
  - by right.
  - left. eexists (Some n), _, _. split; [exact E|]. split; [apply with_undo_ok; try done; by apply Hkm|].
    split; [eapply used_set; [reflexivity|exact Hu]|]. split_and!; try done; [cbn; set_solver|].
    unfold undos_of. cbn. rewrite lookup_insert_eq. cbn. set_solver.
Qed.

Lemma typed_fits sops sma s id :
  typed sops → set_ok s id sma → Forall (λ sop, sem_num sop < sem_nsems sma) sops → Forall (op_fits (nsems_of sma)) sops.
Proof.
  intros Ht Hok Hn. destruct (so_nsems _ _ _ Hok) as [E _]. apply Forall_forall. intros sop Hin. unfold op_fits. rewrite <-E.
  pose proof (proj1 (Forall_forall _ _) Ht sop Hin). pose proof (proj1 (Forall_forall _ _) Hn sop Hin). cbn in *. lia.
Qed.

Lemma semop_enter_spec c km s semid sops sma :
  sems_ok s → queues s !! c_task c = None → (∀ n, km = Some n → undos s !! n = None) → typed sops →
  admitted c s semid sops sma →
  ∃ r s', semop_enter c 0 km semid sops s = Ret r s' ∧ sems_ok s' ∧
    (semop_outcome (c_task c) s s' (slot_of semid) sma sops r ∨
     (existsb wants_undo sops = true ∧ km = None ∧ r = Some (- ENOMEM) ∧ s' = s)).
Proof.
  intros Hi Hnq Hkm Ht Had. rewrite (semop_enter_run _ _ _ _ _ _ Had). pose proof Had as [_ _ Hu Hseq Hn _]. set (id := slot_of semid) in *.
  pose proof (si_set _ _ _ Hi _ _ Hu) as Hok. pose proof (typed_fits _ _ _ _ Ht Hok Hn) as Hops.
  unfold mbind at 1, M_bind at 1. rewrite (in_set_try s id sma) by done. unfold semop_outcome.
  assert (semid = ident (p_seq (sem_perm sma)) id) as Hid by (rewrite Hseq; symmetry; apply semid_ident).
  destruct (ops_run sops (vals (sem_base sma))) as [l| |e] eqn:Erun; cbn [code].
  3:{ rewrite (proj2 (Z.ltb_lt e 0)) by (by eapply ops_run_refuse). exists (Some e), s. split_and!; try done. by left. }
  all: change (0 <? 0) with false; change (1 <? 0) with false; cbv iota; unfold mbind at 1, M_bind at 1;
    destruct (choose_undo c km id semid s sma sops Hi Hu Hid Hkm) as [(un & s1 & sma1 & -> & Hi1 & Hu1 & Eb & Ep & Eq & -> & Hun)|(Ew & Ek & ->)];
    [|rewrite Ew; exists (Some (- ENOMEM)), s; split_and!; try done; by right].
  - change (0 =? 0) with true. cbv iota. pose proof (si_set _ _ _ Hi1 _ _ Hu1) as Hok1.
    destruct (do_semop_spec s1 id sma1 (c_now c) sops un (c_pid c) l) as (s2 & sma2 & E2 & F2 & Hv2 & Hp2 & Hq2 & _); try done.
    { unfold nsems_of in *. by rewrite Eb. }
    { destruct un; naive_solver. }
    { by rewrite Eb. }
    unfold mbind, M_bind. rewrite E2.
    destruct (update_queue_spec (o := λ t, undos_of t s1) (c_now c) id s2 sma2) as (s3 & sma3 & res & E3 & Hs3 & Hi3).
    { eapply inv_frame; [by apply inv_busy|done|by left]. }
    { by eapply frame_used. }
    rewrite E3. exists (Some 0), s3. split_and!; [done|by eapply frame_ok; [exact Hi3|eapply frame_trans; [done|apply Hs3]]|]. left. split; [done|]. exists sma3, res.
    split; [eapply frame_used, Hs3|]. rewrite <-Eq, <-Hq2, <-Ep, <-Hp2, <-Hv2. split; [apply Hs3|]. intros p r Hin. rewrite <-Eq, <-Hq2. by apply Hs3.
  - change (1 =? 0) with false. cbv iota. unfold mbind, M_bind, modify, insert_into_queue, mbind, M_bind.
    rewrite (st_sma_run _ id sma1) by done. set (q := MkQueue true un (c_pid c) 0 id sops).
    assert (sems_ok (put_to_sleep s1 (c_task c) id sma1 q)) as Hi2.
    { eapply sleep_inv; try done; [by rewrite Eq| |cbn; by rewrite Eb|].
      - split_and!; try done; cbn; [unfold nsems_of; by rewrite Eb|]. destruct un; naive_solver.
      - cbn. intros u ->. naive_solver. }
    exists None. eexists. split; [reflexivity|]. unfold st_queue, modify.
    match goal with |- sems_ok ?x ∧ _ => replace x with (put_to_sleep s1 (c_task c) id sma1 q) end.
    2:{ unfold put_to_sleep. cbn. f_equal. apply map_eq. intros i. destruct (decide (i = c_task c)) as [->|Hne].
        - by rewrite lookup_alter_eq, !lookup_insert_eq.
        - by rewrite lookup_alter_ne, !lookup_insert_ne by done. }
    split; [done|]. left. split; [done|]. eexists _, q. split; [eapply used_set; [reflexivity|exact Hu1]|].
    cbn [sem_base sem_pending]. split_and!; [cbn; by rewrite Eb|cbn; by rewrite Ep|cbn; by rewrite Eq|done..].
Qed.

(** ** Waking up *)

Lemma drop_queue {o} b s t q :
  sem_inv b o s → queues s !! t = Some q → q_linked q = false → sem_inv b o (s <| queues := delete t (queues s) |>).
Proof.
  intros Hi Eq Hl. assert (∀ id sma, used_at s id sma → t ∉ sem_pending sma) as Hnp.
  { intros id sma Hu Hin. destruct (so_queue _ _ _ (si_set _ _ _ Hi _ _ Hu) t Hin) as (q' & Eq' & Hl' & _). congruence. }
  pose proof Hi as [I1 I2 I3 I4 I5 I6 I7 I8 I9 I10 I11 I12 I13]. split; try done.
  - intros id sma Hu. destruct (I3 id sma Hu) as [O1 O2 O3 O4 O5 O6 O7 O8]. split; try done.
    intros p Hp. cbn. rewrite lookup_delete_ne by (intros ->; by apply (Hnp id sma)). by apply O6.
  - intros id sma Hu Hb p q' Hp. cbn. rewrite lookup_delete_ne by (intros ->; by apply (Hnp id sma)). by apply (I4 id sma).
  - intros p q' E. cbn in E. apply lookup_delete_Some in E as [_ E]. by apply I5.
  - intros t' q' u E. cbn in E. apply lookup_delete_Some in E as [_ E]. by apply I9.
Qed.

Lemma remove_only {o} b s id sma p q :
  sem_inv b o s → used_at s id sma → queues s !! p = Some q → p ∈ sem_pending sma →
  let sma' := sma <| sem_pending := filter (λ x, x ≠ p) (sem_pending sma) |> in
  ∃ s', remove_from_queue id p s = Ret tt s' ∧ frame id sma sma' s s' ∧ sem_inv b o s' ∧
    queues s' = <[p := q <| q_linked := false |>]> (queues s) ∧ undos s' = undos s.
Proof.
  intros Hi Hu Eq Hp sma'. pose proof (si_set _ _ _ Hi _ _ Hu) as Hok.
  destruct (remove_run s id sma p q (q_status q) Hu Hok Eq Hp) as (s' & E & F & Hq & Hd). fold sma' in F.
  assert (woken q (q_status q) = q <| q_linked := false |>) as Ew by (by destruct q). rewrite Ew in Hq.
  exists s'. split.
  { rewrite <-E. unfold mbind at 1, M_bind at 1, st_queue at 1, modify. f_equal. destruct s. cbn in *. f_equal.
    symmetry. apply map_eq. intros i. destruct (decide (i = p)) as [->|Hne]; [|by rewrite lookup_alter_ne].
    rewrite lookup_alter_eq, Eq. by destruct q. }
  split_and!; try done. eapply inv_frame; [done..|]. destruct (decide (b = Some id)) as [->|Hb]; [by left|right].
  intros p' q' Hp' Eq'. change (sem_pending sma') with (filter (λ x, x ≠ p) (sem_pending sma)) in Hp'.
  apply list_elem_of_filter in Hp' as [Hne Hp']. rewrite Hq, lookup_insert_ne in Eq' by done. by apply (si_quiet _ _ _ Hi _ _ Hu Hb p' q').
Qed.

(** All sets have the values they had, and the processes left still wait. *)
Definition same_vals (s s' : ss) : Prop :=
  ∀ id, (vals ∘ sem_base) <$> (match semary s !! id with Some (Used x) => Some x | _ => None end) =
        (vals ∘ sem_base) <$> (match semary s' !! id with Some (Used x) => Some x | _ => None end).

Lemma unlink_spec {o} b s t q :
  sem_inv b o s → queues s !! t = Some q →
  ∃ s', (when (q_linked q) (remove_from_queue (q_sma q) t) ;; modify (λ s, s <| queues := delete t (queues s) |>)) s = Ret tt s' ∧
    sem_inv b o s' ∧ queues s' = delete t (queues s) ∧ semundo s' = semundo s ∧ undos s' = undos s ∧ same_vals s s'.
Proof.
  intros Hi Eq. unfold mbind, M_bind. destruct (q_linked q) eqn:El; cbn [when].
  - destruct (si_linked _ _ _ Hi t q Eq El) as (sma & Hu & Hp).
    destruct (remove_only b s (q_sma q) sma t q Hi Hu Eq Hp) as (s1 & -> & F & Hi1 & Hq1 & Hd1).
    eexists. split; [reflexivity|]. assert (queues s1 !! t = Some (q <| q_linked := false |>)) as E1 by (by rewrite Hq1, lookup_insert_eq).
    split_and!; [by eapply drop_queue|cbn; by rewrite Hq1, delete_insert_eq|cbn; by destruct (fr_vars _ _ _ _ _ F) as (_ & _ & _ & _ & ->)|done|].
    intros i. cbn. rewrite (fr_ary _ _ _ _ _ F). destruct (decide (i = q_sma q)) as [->|Hne].
    + rewrite list_lookup_insert_eq by (by eapply lookup_lt_Some). by rewrite Hu.
    + by rewrite list_lookup_insert_ne.
  - eexists. split; [reflexivity|]. split_and!; try done. by eapply drop_queue.
Qed.

Lemma resume_spec s t q :
  sems_ok s → queues s !! t = Some q →
  ∃ s', semop_resume t s = Ret (if q_linked q then - EINTR else q_status q) s' ∧ sems_ok s' ∧
    queues s' = delete t (queues s) ∧ same_vals s s'.
Proof.
  intros Hi Eq. destruct (unlink_spec None s t q Hi Eq) as (s' & E & Hi' & Hq & Ho & _ & Hv). exists s'. split_and!; try done.
  - unfold semop_resume. revert E. unfold mbind, M_bind, ld_queue. rewrite Eq. destruct (when _ _ s) as [[] s1|]; [|done].
    by intros [= <-].
  - eapply inv_ext; [|exact Hi']. intros t'. unfold undos_of. by rewrite Ho.
Qed.

(** ** Exit *)

(** What an adjustment makes of a value. *)
Definition adjusted (v a : Z) : Z := if s16 (v + a) <? 0 then 0 else s16 (v + a).

Lemma adjusted_ok v a : val_ok (adjusted v a).
Proof. unfold adjusted, val_ok, SEMVMX. pose proof (s16_range (v + a)). destruct (_ <? 0) eqn:E; to_prop; lia. Qed.

Lemma adjust_spec pid adj n : ∀ i b,
  (i + n)%nat = length b → length adj = length b →
  ∃ b', adjust n i pid adj b = Ret tt b' ∧ length b' = length b ∧
    ∀ j, vals b' !! j = if decide (j < i)%nat then vals b !! j else zip_with adjusted (vals b) adj !! j.
Proof.
  induction n as [|n IH]; intros i b Hl Ha.
  { exists b. split_and!; try done. intros j. destruct (decide (j < i)%nat) as [|Hj]; [done|].
    rewrite !lookup_ge_None_2; [done|..]; unfold vals; rewrite ?length_zip_with, ?length_fmap; lia. }
  destruct (lookup_lt_is_Some_2 b i) as [x Ex]; [lia|]. destruct (lookup_lt_is_Some_2 adj i) as [a Ea]; [lia|].
  cbn [adjust]. unfold mbind, M_bind, ld_sem. rewrite Nat2Z.id, Ex, Ea. unfold modify. fold (adjusted (semval x) a).
  set (b1 := <[i := MkSem (adjusted (semval x) a) (s16 pid)]> b).
  assert (length b1 = length b) as Hb1 by apply length_insert.
  assert (vals b1 = <[i := adjusted (semval x) a]> (vals b)) as Ev by (unfold vals, b1; by rewrite list_fmap_insert).
  destruct (IH (S i) b1) as (b' & E & Hlen & Hj); [lia|lia|]. exists b'. split; [exact E|]. split; [lia|].
  intros j. rewrite Hj, Ev. destruct (decide (j < S i)%nat) as [H1|H1], (decide (j < i)%nat) as [H2|H2]; try lia.
  - rewrite list_lookup_insert_ne by lia. done.
  - assert (j = i) as -> by lia. rewrite list_lookup_insert_eq by (unfold vals; rewrite length_fmap; lia).
    rewrite lookup_zip_with, (vals_lookup b i x Ex), Ea. done.
  - rewrite !lookup_zip_with, list_lookup_insert_ne by lia. done.
Qed.

Lemma adjust_all pid adj b :
  length adj = length b →
  ∃ b', adjust (length b) 0 pid adj b = Ret tt b' ∧ length b' = length b ∧ vals b' = zip_with adjusted (vals b) adj ∧ Forall val_ok (vals b').
Proof.
  intros Ha. destruct (adjust_spec pid adj (length b) 0 b) as (b' & E & Hl & Hj); [lia|done|].
  assert (vals b' = zip_with adjusted (vals b) adj) as Ev by (apply list_eq; intros j; by rewrite Hj).
  exists b'. split_and!; try done. rewrite Ev. apply Forall_lookup. intros j y Hy. rewrite lookup_zip_with in Hy.
  destruct (vals b !! j), (adj !! j); cbn in Hy; try done. injection Hy as <-. apply adjusted_ok.
Qed.

Definition own_set (o : Z → list Z) (t : Z) (us : list Z) : Z → list Z := λ t', if decide (t' = t) then us else o t'.

(** A process that does not wait gives up an undo structure. *)
Lemma own_drop {o} b s t u us :
  sem_inv b o s → o t = u :: us → queues s !! t = None →
  sem_inv b (own_set o t us) s ∧ ∀ t', u ∉ own_set o t us t'.
Proof.
  intros [I1 I2 I3 I4 I5 I6 I7 I8 I9 I10 I11 I12 I13] Eo Hq. pose proof (I7 t) as Hnd. rewrite Eo in Hnd. apply NoDup_cons in Hnd as [Hn Hnd].
  assert (∀ t' v, v ∈ own_set o t us t' → v ∈ o t') as Hsub.
  { intros t' v. unfold own_set. destruct (decide _) as [->|]; [rewrite Eo|]; set_solver. }
  split.
  - split; try done.
    + intros t' v Hin. by eapply I6, Hsub.
    + intros t'. unfold own_set. by destruct (decide _).
    + intros t1 t2 v H1 H2. eapply I8; by apply Hsub.
    + intros t' q v Eq Hl Hv. unfold own_set. destruct (decide _) as [->|]; [congruence|by eapply I9].
  - intros t'. unfold own_set. destruct (decide _) as [->|Hne]; [done|]. intros Hin. apply Hne. eapply I8; [exact Hin|]. rewrite Eo. set_solver.
Qed.

(** An undo structure that no process has leaves its set. *)
Lemma detach_inv {o} b s id sma u :
  sem_inv b o s → used_at s id sma → (∀ t, u ∉ o t) →
  sem_inv b o (s <| semary := <[id := Used (sma <| undo := filter (λ v, v ≠ u) (undo sma) |>)]> (semary s) |>).
Proof.
  intros Hi Hu Hno. set (sma' := sma <| undo := _ |>). set (s' := s <| semary := _ |>).
  assert (semary s' = <[id := Used sma']> (semary s)) as Ea by done. pose proof Hi as [I1 I2 I3 I4 I5 I6 I7 I8 I9 I10 I11 I12 I13].
  split; try done.
  - by eapply (base_keep (o := o) _ s s').
  - by eapply (base_keep (o := o) _ s s').
  - intros id1 sma1 H1. destruct (used_insert_inv s s' id _ sma' id1 sma1 Ea Hu H1) as [[-> ->]|[Hne H1']].
    + destruct (I3 _ _ Hu) as [O1 O2 O3 O4 O5 O6 O7 O8]. split; try done.
      * intros p Hp. destruct (O6 p Hp) as (q & Eq & Q1 & Q2 & Q3 & Q4). exists q. split; [done|]. split_and!; try done.
        destruct (q_undo q) as [v|] eqn:Ev; [|done]. apply list_elem_of_filter. split; [|done]. intros ->. by apply (Hno p), (I9 p q).
      * by apply NoDup_filter.
      * intros v [_ Hin]%list_elem_of_filter. by apply O8.
    + destruct (I3 _ _ H1') as [O1 O2 O3 O4 O5 O6 O7 O8]. by split.
  - intros id1 sma1 H1 Hb. destruct (used_insert_inv s s' id _ sma' id1 sma1 Ea Hu H1) as [[-> ->]|[Hne H1']]; [by apply (I4 _ _ Hu Hb)|by eapply I4].
  - intros p q Eq Hl. destruct (I5 p q Eq Hl) as (sma1 & H1 & Hp). destruct (used_insert_fwd s s' id sma sma' _ sma1 Ea Hu H1) as (sma2 & H2 & Ha & Hb).
    exists sma2. split; [done|]. destruct (decide (q_sma q = id)) as [E|E]; [destruct (Ha E) as [-> ->]; done|by rewrite Hb].
  - intros t v Hin. destruct (I6 t v Hin) as (x & Ex & Hx). exists x. split; [done|]. intros Hne. destruct (Hx Hne) as (sma1 & H1 & Hs1 & Hin1).
    destruct (used_insert_fwd s s' id sma sma' _ sma1 Ea Hu H1) as (sma2 & H2 & Ha & Hb). exists sma2. split; [done|].
    destruct (decide (slot_of (un_semid x) = id)) as [E|E]; [|by rewrite Hb]. destruct (Ha E) as [-> ->]. split; [done|].
    apply list_elem_of_filter. split; [|done]. intros ->. by apply (Hno t).
  - intros id1 id2 sma1 sma2 H1 H2. by eapply (keys_keep (o := o) b s s' id sma sma').
  - by apply (sums_keep (o := o) b s s' id sma sma').
  - by apply (sums_keep (o := o) b s s' id sma sma').
Qed.

Lemma undo_free_inv {o} b s u :
  sem_inv b o s → (∀ t, u ∉ o t) → (∀ id sma, used_at s id sma → u ∉ undo sma) →
  sem_inv b o (s <| undos := delete u (undos s) |>).
Proof.
  intros [I1 I2 I3 I4 I5 I6 I7 I8 I9 I10 I11 I12 I13] Hno Hnu. split; try done.
  - intros id sma Hu. destruct (I3 _ _ Hu) as [O1 O2 O3 O4 O5 O6 O7 O8]. split; try done.
    intros v Hin. destruct (O8 v Hin) as (x & Ex & Hx). exists x. split; [|done]. cbn. rewrite lookup_delete_ne; [done|].
    intros ->. by apply (Hnu id sma Hu).
  - intros t v Hin. destruct (I6 t v Hin) as (x & Ex & Hx). exists x. split; [|done]. cbn. rewrite lookup_delete_ne; [done|].
    intros ->. by apply (Hno t).
Qed.

(** An undo structure is listed by the set it names only. *)
Lemma undo_set {o} b s u x id sma :
  sem_inv b o s → undos s !! u = Some x → used_at s id sma → u ∈ undo sma → un_semid x ≠ -1 ∧ slot_of (un_semid x) = id.
Proof.
  intros Hi Ex Hu Hin. pose proof (si_set _ _ _ Hi _ _ Hu) as Hok. destruct (so_undo _ _ _ Hok u Hin) as (x' & Ex' & E & _).
  rewrite Ex in Ex'. injection Ex' as <-. rewrite E. pose proof (so_seq _ _ _ Hok). split; [unfold ident, SEMMNI; lia|].
  apply ident_slot. rewrite <-(si_len _ _ _ Hi). by eapply lookup_lt_Some.
Qed.

(** The adjustments of one undo structure. *)
Lemma exit_adjust {o} c s id sma u x :
  sem_inv None o s → used_at s id sma → (∀ t, u ∉ o t) → u ∈ undo sma → undos s !! u = Some x →
  ∃ s' sma' res, (st_sma id (λ y, y <| undo := filter (λ v, v ≠ u) (undo y) |>) ;;
      in_set id (adjust (Z.to_nat (sem_nsems sma)) 0 (c_pid c) (semadj x)) ;;
      st_sma id (λ y, y <| sem_otime := c_now c |>) ;;
      update_queue (c_now c) id ;; free_undo u) s = Ret tt s' ∧ sem_inv None o s' ∧
    used_at s' id sma' ∧ semundo s' = semundo s ∧ (∀ p, queues s !! p = None → queues s' !! p = None) ∧
    serves (queues s) (zip_with adjusted (vals (sem_base sma)) (semadj x)) (sem_pending sma) res (vals (sem_base sma')) (sem_pending sma').
Proof.
  intros Hi Hu Hno Hin Ex. pose proof (si_set _ _ _ Hi _ _ Hu) as Hok. destruct (so_nsems _ _ _ Hok) as [En _].
  destruct (so_undo _ _ _ Hok u Hin) as (x' & Ex' & _ & Hlen). rewrite Ex in Ex'. injection Ex' as <-.
  unfold mbind, M_bind. rewrite (st_sma_run s id sma _ Hu). set (sma1 := sma <| undo := filter _ _ |>). set (s1 := s <| semary := _ |>).
  assert (sem_inv None o s1) as Hi1 by (by apply detach_inv).
  assert (used_at s1 id sma1) as Hu1 by (by eapply used_set).
  destruct (adjust_all (c_pid c) (semadj x) (sem_base sma)) as (b' & Eb & Hb & Ev & Hvok); [done|].
  unfold in_set. rewrite Hu1. change (sem_base sma1) with (sem_base sma). rewrite En, Nat2Z.id. unfold nsems_of. rewrite Eb.
  set (sma2 := sma1 <| sem_base := b' |>). set (s2 := s1 <| semary := <[id := Used sma2]> (semary s1) |>).
  assert (used_at s2 id sma2) as Hu2 by (by eapply used_set).
  rewrite (st_sma_run s2 id sma2 _ Hu2). set (sma3 := sma2 <| sem_otime := c_now c |>). set (s3 := s2 <| semary := _ |>).
  assert (used_at s3 id sma3) as Hu3 by (by eapply used_set).
  assert (frame id sma1 sma3 s1 s3) as F3.
  { split; try done.
    - cbn. by rewrite list_insert_insert_eq.
    - by apply (undone_same None []).
    - intros p. rewrite decide_False; [done|naive_solver]. }
  destruct (update_queue_spec (o := o) (c_now c) id s3 sma3) as (s4 & sma4 & res & E4 & Hs4 & Hi4); [|done|].
  { eapply inv_frame; [by apply inv_busy|exact F3|by left]. }
  rewrite E4. pose proof (frame_trans _ _ _ _ _ _ _ F3 (sd_frame _ _ _ _ _ _ Hs4)) as F4.
  eexists _, sma4, res. split; [reflexivity|]. split_and!.
  - apply undo_free_inv; [done..|]. intros id1 sma5 H5 Hin5.
    destruct (decide (id1 = id)) as [->|Hne].
    + assert (sma5 = sma4) as -> by (pose proof (frame_used _ _ _ _ _ F4) as E; unfold used_at in *; congruence).
      rewrite (fr_undo _ _ _ _ _ F4) in Hin5. change (undo sma1) with (filter (λ v, v ≠ u) (undo sma)) in Hin5.
      apply list_elem_of_filter in Hin5 as [? _]. done.
    + apply (frame_other _ _ _ _ _ _ _ F4) in H5; [|done]. assert (used_at s id1 sma5) as H5' by (unfold used_at in *; cbn in H5; by rewrite list_lookup_insert_ne in H5).
      destruct (undo_set None s u x id sma Hi Ex Hu Hin) as [_ E1]. destruct (undo_set None s u x id1 sma5 Hi Ex H5' Hin5) as [_ E2]. congruence.
  - exact (frame_used _ _ _ _ _ F4).
  - cbn. by destruct (fr_vars _ _ _ _ _ F4) as (_ & _ & _ & _ & ->).
  - intros p Hp. cbn. pose proof (fr_queues _ _ _ _ _ F4 p) as Q. destruct (decide _); [|by rewrite Q].
    destruct Q as (q & r & E & _). cbn in E. congruence.
  - pose proof (sd_serves _ _ _ _ _ _ Hs4) as V. change (serves (queues s) (vals b') (sem_pending sma) res (vals (sem_base sma4)) (sem_pending sma4)) in V.
    by rewrite Ev in V.
Qed.

Lemma exit_step c u us s x :
  undos s !! u = Some x →
  exit_loop c (u :: us) s =
    if un_semid x =? -1 then (free_undo u ;; exit_loop c us) s
    else
      match semary s !! slot_of (un_semid x) with
      | Some (Used sma) =>
          if negb (p_seq (sem_perm sma) =? seq_of (un_semid x)) then (free_undo u ;; exit_loop c us) s
          else if negb (bool_decide (u ∈ undo sma)) then Ret tt s
          else ((st_sma (slot_of (un_semid x)) (λ y, y <| undo := filter (λ v, v ≠ u) (undo y) |>) ;;
              in_set (slot_of (un_semid x)) (adjust (Z.to_nat (sem_nsems sma)) 0 (c_pid c) (semadj x)) ;;
              st_sma (slot_of (un_semid x)) (λ y, y <| sem_otime := c_now c |>) ;;
              update_queue (c_now c) (slot_of (un_semid x)) ;; free_undo u) ;; exit_loop c us) s
      | Some _ => (free_undo u ;; exit_loop c us) s
      | None => Stuck OutOfBounds s
      end.
Proof.
  intros Ex. cbn [exit_loop]. unfold mbind, M_bind, ld_undo, gets. rewrite Ex. destruct (un_semid x =? -1); [done|].
  destruct (semary s !! _) as [[| |sma]|]; try done. destruct (negb (_ =? _)); [done|]. destruct (negb _); [done|].
  by repeat (case_match; simplify_eq).
Qed.

Lemma exit_loop_spec c us : ∀ o s,
  sem_inv None o s → o (c_task c) = us → queues s !! c_task c = None →
  ∃ s', exit_loop c us s = Ret tt s' ∧ sem_inv None (own_set o (c_task c) []) s' ∧ semundo s' = semundo s ∧ queues s' !! c_task c = None.
Proof.
  induction us as [|u us IH]; intros o s Hi Eo Hq.
  { exists s. split_and!; try done. eapply inv_ext; [|exact Hi]. intros t. unfold own_set. by destruct (decide _) as [->|]. }
  destruct (si_own _ _ _ Hi (c_task c) u) as (x & Ex & Hx); [rewrite Eo; set_solver|].
  destruct (own_drop None s (c_task c) u us Hi Eo Hq) as [Hi' Hno]. set (o' := own_set o (c_task c) us) in *.
  assert (o' (c_task c) = us) as Eo' by (unfold o', own_set; by rewrite decide_True).
  assert (∀ s', sem_inv None (own_set o' (c_task c) []) s' → sem_inv None (own_set o (c_task c) []) s') as Hend.
  { intros s'. apply inv_ext. intros t. unfold o', own_set. by destruct (decide _). }
  rewrite (exit_step c u us s x Ex). destruct (un_semid x =? -1) eqn:E1; to_prop.
  - destruct (IH o' (s <| undos := delete u (undos s) |>)) as (s' & E' & Hi2 & ? & ?); [|done..|].
    + apply undo_free_inv; [done..|]. intros id sma Hu Hin. destruct (undo_set None s u x id sma Hi Ex Hu Hin) as [? _]. done.
    + exists s'. split_and!; try done. by apply Hend.
  - destruct (Hx E1) as (sma & Hu & Hs & Hin). rewrite Hu, (proj2 (Z.eqb_eq _ _) Hs), bool_decide_eq_true_2 by done. cbn [negb].
    destruct (exit_adjust c s _ sma u x Hi' Hu Hno Hin Ex) as (s1 & sma1 & res & E & Hi1 & _ & Ho1 & Hq1 & _).
    unfold mbind at 1, M_bind at 1. rewrite E. destruct (IH o' s1) as (s' & E' & Hi2 & H3 & H4); [done..|by apply Hq1|].
    exists s'. split_and!; try done; [by apply Hend|congruence].
Qed.

Lemma exit_spec c s : sems_ok s → ∃ s', sem_exit c s = Ret tt s' ∧ sems_ok s' ∧ queues s' !! c_task c = None ∧ undos_of (c_task c) s' = [].
Proof.
  intros Hi.
  assert (∃ s1, (match queues s !! c_task c with
      | None => mret tt
      | Some q => when (q_linked q) (remove_from_queue (q_sma q) (c_task c)) ;; modify (λ s, s <| queues := delete (c_task c) (queues s) |>)
      end) s = Ret tt s1 ∧ sem_inv None (λ t, undos_of t s) s1 ∧ semundo s1 = semundo s ∧ queues s1 !! c_task c = None) as (s1 & E1 & Hi1 & Ho1 & Hq1).
  { destruct (queues s !! c_task c) as [q|] eqn:Eq; [|by exists s].
    destruct (unlink_spec None s (c_task c) q Hi Eq) as (s1 & E & Hi1 & Hq & Ho & _). exists s1. split_and!; try done. by rewrite Hq, lookup_delete_eq. }
  destruct (exit_loop_spec c (undos_of (c_task c) s) (λ t, undos_of t s) s1 Hi1 eq_refl Hq1) as (s2 & E2 & Hi2 & Ho2 & Hq2).
  exists (s2 <| semundo := delete (c_task c) (semundo s2) |>). split_and!.
  - unfold sem_exit. unfold mbind at 1, M_bind at 1, gets at 1. unfold mbind at 1, M_bind at 1. rewrite E1.
    unfold mbind, M_bind, gets. replace (undos_of (c_task c) s1) with (undos_of (c_task c) s) by (unfold undos_of; by rewrite Ho1). by rewrite E2.
  - assert (∀ t, own_set (λ t, undos_of t s) (c_task c) [] t = default [] (delete (c_task c) (semundo s2) !! t)) as Eo.
    { intros t. unfold own_set, undos_of. rewrite Ho2, Ho1. destruct (decide _) as [->|]; [by rewrite lookup_delete_eq|by rewrite lookup_delete_ne]. }
    pose proof (inv_ext _ _ _ _ Eo Hi2) as H. destruct H. split; try done.
    intros id sma Hu. destruct (si_set0 id sma Hu). by split.
  - done.
  - unfold undos_of. cbn. by rewrite lookup_delete_eq.
Qed.

End Making.
