(* ===== verification/SemCalls.v ===== *)
(** * SemCalls: the system calls on semaphores

    [semget], [semctl] and the removal of a set keep the invariant of [SemSys];
    then the theorems: the invariant of all reachable states, what [semop] does
    on every branch, and that an exit takes back what was done with
    [SEM_UNDO]. *)

From stdpp Require Import gmap relations.
From S2P Require Import Prelude Cred Sem SemFacts SemSys.

(** ** Specification *)

(** A call from the outside, or a process that slept and runs again.  While
    [semget] sleeps, in [findkey] for a set in the making ([naps]) or in
    [kmalloc] ([knap]), the rest of the system makes any number of [env]
    steps. *)
Inductive sem_step (env : ss → ss → Prop) : ss → ss → Prop :=
  | st_get c naps knap kmalloc key nsems semflg r s s' :
      Forall (λ nap, ∀ s, rtc env s (nap s)) naps → (∀ s, rtc env s (knap s)) →
      sys_semget c naps knap kmalloc key nsems semflg s = Ret r s' → sem_step env s s'
  | st_op c va kmalloc semid sops r s s' :
      queues s !! c_task c = None → (∀ n, kmalloc = Some n → undos s !! n = None) → typed sops →
      semop_enter c va kmalloc semid sops s = Ret r s' → sem_step env s s'
  | st_wake t r s s' : is_Some (queues s !! t) → semop_resume t s = Ret r s' → sem_step env s s'
  | st_ctl c semid semnum cmd arg r s s' : sys_semctl c semid semnum cmd arg s = Ret r s' → sem_step env s s'
  | st_exit c s s' : sem_exit c s = Ret tt s' → sem_step env s s'.

(** Sleeps filled with such steps, [k] deep; at depth 0 nothing happens during
    a sleep. *)
Fixpoint sem_step_at (k : nat) : ss → ss → Prop :=
  match k with
  | O => sem_step (λ _ _, False)
  | S k' => sem_step (sem_step_at k')
  end.

(** [sleepy] says that others run while a set is being made. *)
Definition sem_steps (sleepy : bool) (s s' : ss) : Prop :=
  ∃ k, sem_step_at (if sleepy then k else O) s s'.

(** No set is in the making. *)
Definition at_rest (one : bool) : making := Making [] 0 one.

(** One more is. *)
Definition hide (M : making) (id : nat) (n : Z) : making :=
  Making (id :: hidden) (reserved + n) one_key.

(** ** Lemmas: removing a set *)

Section Making.
Context {M : making}.

Definition alter_all {A} (f : A → A) (l : list Z) (m : gmap Z A) : gmap Z A := foldl (λ m u, alter f u m) m l.

Lemma lookup_alter_all {A} (f : A → A) l (m : gmap Z A) u :
  (∀ x, f (f x) = f x) → alter_all f l m !! u = if decide (u ∈ l) then f <$> m !! u else m !! u.
Proof.
  intros Hf. revert m. induction l as [|v l IH]; intros m; [done|].
  change (alter_all f (v :: l) m) with (alter_all f l (alter f v m)). rewrite IH. destruct (decide (u = v)) as [->|Hne].
  - rewrite lookup_alter_eq, (decide_True (P := v ∈ v :: l)) by set_solver. destruct (decide (v ∈ l)); [|done].
    destruct (m !! v); cbn; [by rewrite Hf|done].
  - rewrite lookup_alter_ne by done. destruct (decide (u ∈ l)) as [|Hn].
    + rewrite decide_True by set_solver. done.
    + rewrite decide_False by set_solver. done.
Qed.

Lemma each_undo f l s :
  for_each l (λ u, st_undo u f) s = Ret tt (s <| undos := alter_all f l (undos s) |>).
Proof.
  revert s. induction l as [|u l IH]; intros s; [by destruct s|]. cbn [for_each]. unfold mbind at 1, M_bind at 1, st_undo at 1, modify.
  rewrite IH. done.
Qed.

Lemma each_queue f l s :
  for_each l (λ u, st_queue u f) s = Ret tt (s <| queues := alter_all f l (queues s) |>).
Proof.
  revert s. induction l as [|u l IH]; intros s; [by destruct s|]. cbn [for_each]. unfold mbind at 1, M_bind at 1, st_queue at 1, modify.
  rewrite IH. done.
Qed.

Lemma lower_ge sl max i x :
  (i < max)%nat → sl !! i = Some x → x ≠ Unused → (i ≤ lower sl max)%nat.
Proof.
  induction max as [|m IH]; intros Hi Ex Hx; [lia|]. cbn. destruct (decide (i = m)) as [->|Hne].
  - rewrite Ex. by destruct x.
  - destruct (sl !! m) as [[]|]; try lia. apply IH; [lia|done..].
Qed.

Lemma lower_le sl max : (lower sl max ≤ max)%nat.
Proof. induction max as [|m IH]; cbn; [done|]. destruct (sl !! m) as [[]|]; lia. Qed.

Definition removed (s : ss) (id : nat) (sma : semid_ds) : ss :=
  s <| sem_seq := u16 ((sem_seq s + 1) mod (2 ^ 31 / SEMMNI)) |>
    <| used_sems := used_sems s - sem_nsems sma |>
    <| max_semid := if (id =? max_semid s)%nat then lower (semary s) (max_semid s) else max_semid s |>
    <| semary := <[id := Unused]> (semary s) |>
    <| used_semids := used_semids s - 1 |>
    <| undos := alter_all (λ x, x <| un_semid := -1 |>) (undo sma) (undos s) |>
    <| queues := alter_all (λ x, x <| q_status := - EIDRM |> <| q_linked := false |>) (sem_pending sma) (queues s) |>.

Lemma freeary_run s id sma : used_at s id sma → freeary id s = Ret tt (removed s id sma).
Proof.
  intros Hu. unfold freeary. unfold mbind at 1, M_bind at 1. rewrite (ld_sma_run s id sma Hu). unfold mbind, M_bind, modify, set_slot, modify.
  rewrite each_undo, each_queue. done.
Qed.

Lemma used_other s s' id sma id1 sma1 :
  semary s' = <[id := Unused]> (semary s) → used_at s id sma → used_at s' id1 sma1 ↔ id1 ≠ id ∧ used_at s id1 sma1.
Proof.
  intros Ea Hu. unfold used_at in *. rewrite Ea. destruct (decide (id1 = id)) as [->|Hne].
  - rewrite list_lookup_insert_eq by (by eapply lookup_lt_Some). naive_solver.
  - rewrite list_lookup_insert_ne by done. naive_solver.
Qed.

Lemma removed_ok s id sma : sems_ok s → used_at s id sma → sems_ok (removed s id sma).
Proof.
  intros Hi Hu. set (s' := removed s id sma). pose proof Hi as [I1 I2 I3 I4 I5 I6 I7 I8 I9 I10 I11 I12 I13].
  assert (semary s' = <[id := Unused]> (semary s)) as Ea by done. pose proof (I3 _ _ Hu) as Hok.
  assert (∀ id1 sma1, used_at s' id1 sma1 → id1 ≠ id ∧ used_at s id1 sma1) as Hold by (intros ? ? H; by apply (used_other s s' id sma) in H).
  assert (∀ p, p ∉ sem_pending sma → queues s' !! p = queues s !! p) as Hq.
  { intros p Hp. cbn. rewrite lookup_alter_all by done. by rewrite decide_False. }
  assert (∀ u, u ∉ undo sma → undos s' !! u = undos s !! u) as Hun.
  { intros u Hp. cbn. rewrite lookup_alter_all by done. by rewrite decide_False. }
  assert (∀ p q, queues s' !! p = Some q → q_linked q = true → p ∉ sem_pending sma ∧ queues s !! p = Some q) as Hlk.
  { intros p q Eq Hl. destruct (decide (p ∈ sem_pending sma)) as [Hp|Hp]; [|by rewrite Hq in Eq].
    cbn in Eq. rewrite lookup_alter_all, decide_True in Eq by done. destruct (queues s !! p); [|done]. cbn in Eq. by injection Eq as <-. }
  split.
  - rewrite Ea, length_insert. done.
  - intros i. rewrite Ea, (noid_insert _ id (Used sma)) by done. apply I2.
  - intros id1 sma1 H1. destruct (Hold _ _ H1) as [Hne H1']. destruct (I3 _ _ H1') as [O1 O2 O3 O4 O5 O6 O7 O8]. split; try done.
    + cbn. destruct (Nat.eqb_spec id (max_semid s)) as [E|E]; [|done]. eapply lower_ge; [|exact H1'|done]. lia.
    + intros p Hp. rewrite Hq; [by apply O6|]. intros Hp'. apply Hne. by eapply pending_one.
    + intros u Hin. rewrite Hun; [by apply O8|]. intros Hin'. destruct (O8 u Hin) as (x & Ex & _).
      destruct (undo_set None s u x id1 sma1 Hi Ex H1' Hin) as [_ E1]. destruct (undo_set None s u x id sma Hi Ex Hu Hin') as [_ E2]. congruence.
  - intros id1 sma1 H1 _ p q Hp Eq. destruct (Hold _ _ H1) as [Hne H1']. rewrite Hq in Eq; [by apply (I4 _ _ H1' ltac:(done) p q)|].
    intros Hp'. apply Hne. by eapply pending_one.
  - intros p q Eq Hl. destruct (Hlk p q Eq Hl) as [Hp Eq']. destruct (I5 p q Eq' Hl) as (sma1 & H1 & Hp1). exists sma1. split; [|done].
    apply (used_other s s' id sma); [done..|]. split; [|done]. intros E. rewrite E in H1. unfold used_at in *. congruence.
  - intros t u Hin. destruct (I6 t u Hin) as (x & Ex & Hx). destruct (decide (u ∈ undo sma)) as [Hu'|Hu'].
    + exists (x <| un_semid := -1 |>). cbn [undos]. split; [|done]. cbn. by rewrite lookup_alter_all, decide_True, Ex.
    + exists x. split; [by rewrite Hun|]. intros Hne. destruct (Hx Hne) as (sma1 & H1 & Hs1 & Hin1). exists sma1. split; [|done].
      apply (used_other s s' id sma); [done..|]. split; [|done]. intros E. rewrite E in H1. unfold used_at in *. congruence.
  - exact I7.
  - exact I8.
  - intros t q u Eq Hl Hqu. destruct (Hlk t q Eq Hl) as [_ Eq']. by apply (I9 t q u).
  - intros id1 id2 sma1 sma2 Hone H1 H2. apply (I10 id1 id2 sma1 sma2); [done|by apply Hold in H1 as [_ ?]|by apply Hold in H2 as [_ ?]].
  - rewrite Ea, (sumZ_insert _ _ _ _ _ Hu). cbn. rewrite I11. lia.
  - rewrite Ea, (sumZ_insert _ _ _ _ _ Hu), <-I12. cbn. lia.
  - split; [apply u16_range|]. cbn. destruct (id =? max_semid s)%nat; [|apply I13].
    eapply Nat.le_lt_trans; [apply lower_le|apply I13].
Qed.

(** ** Lemmas: semctl *)

(** After a change of the values the queue is looked through. *)
Lemma refresh s s1 id sma sma1 now :
  sems_ok s → frame id sma sma1 s s1 → ∃ s', update_queue now id s1 = Ret tt s' ∧ sems_ok s'.
Proof.
  intros Hi F. destruct (update_queue_spec (o := λ t, undos_of t s) now id s1 sma1) as (s' & sma' & res & E & Hs & Hi').
  - eapply inv_frame; [by apply inv_busy|exact F|by left].
  - by eapply frame_used.
  - exists s'. split; [done|]. eapply frame_ok; [exact Hi'|]. eapply frame_trans; [exact F|apply Hs].
Qed.

Lemma clear_same s i sma :
  ∃ U, clear_adj sma i s = Ret tt (s <| undos := U |>) ∧ same_undos s (s <| undos := U |>).
Proof.
  eexists. split; [apply each_undo|]. intros u. cbn. rewrite lookup_alter_all by (intros x; cbn; by rewrite list_insert_insert_eq).
  destruct (decide _), (undos s !! u); cbn; by rewrite ?length_insert.
Qed.

Lemma clear_all_same l : ∀ s sma,
  ∃ U, for_each l (clear_adj sma) s = Ret tt (s <| undos := U |>) ∧ same_undos s (s <| undos := U |>).
Proof.
  induction l as [|i l IH]; intros s sma.
  { exists (undos s). destruct s. split; [done|]. apply same_undos_refl. }
  destruct (clear_same s i sma) as (U & E & HU). destruct (IH (s <| undos := U |>) sma) as (U' & E' & HU').
  exists U'. cbn [for_each]. unfold mbind at 1, M_bind at 1. rewrite E, E'. split; [done|]. by eapply same_undos_trans.
Qed.

(** A change of the values, the times or the permissions of a set, and of the
    adjustments kept for it. *)
Lemma set_frame s id sma sma' U :
  used_at s id sma → sem_pending sma' = sem_pending sma → undo sma' = undo sma → sem_nsems sma' = sem_nsems sma →
  nsems_of sma' = nsems_of sma → Forall val_ok (vals (sem_base sma')) →
  p_key (sem_perm sma') = p_key (sem_perm sma) ∧ p_seq (sem_perm sma') = p_seq (sem_perm sma) →
  same_undos s (s <| undos := U |>) →
  frame id sma sma' s (s <| undos := U |> <| semary := <[id := Used sma']> (semary s) |>).
Proof.
  intros Hu Hp Hun Hn Hn' Hv Hk HU. split; try done. { by rewrite Hp. } intros p. rewrite decide_False; [done|]. rewrite Hp. tauto.
Qed.

Lemma alter_semval_ok (b : list sem) n v :
  Forall val_ok (vals b) → val_ok v → Forall val_ok (vals (alter (λ y, y <| semval := v |>) n b)).
Proof.
  intros Hb Hv. apply Forall_lookup. intros i x. unfold vals. rewrite list_lookup_fmap. destruct (decide (i = n)) as [->|Hne].
  - rewrite list_lookup_alter_eq. destruct (b !! n); [|done]. by intros [= <-].
  - rewrite list_lookup_alter_ne by done. rewrite <-list_lookup_fmap. by apply Forall_lookup_1.
Qed.

Lemma setval_ok c s id sma semnum arg :
  sems_ok s → used_at s id sma → val_ok (a_val arg) → ∃ r s', ctl_setval c id sma semnum arg s = Ret r s' ∧ sems_ok s'.
Proof.
  intros Hi Hu Hv. unfold ctl_setval. destruct (ipcperms _ _ _); [by eexists _, s|]. destruct (clear_same s semnum sma) as (U & E & HU).
  pose proof (si_set _ _ _ Hi _ _ Hu) as Hok. unfold mbind at 1, M_bind at 1. rewrite E. unfold mbind at 1, M_bind at 1.
  erewrite st_sma_run by exact Hu. eassert (frame id sma _ s _) as F.
  { eapply (set_frame s id sma (sma <| sem_base := alter (λ y, y <| semval := a_val arg |>) (Z.to_nat semnum) (sem_base sma) |>
      <| sem_ctime := c_now c |>) U); try done; [apply length_alter|]. apply alter_semval_ok; [apply Hok|done]. }
  destruct (refresh _ _ _ _ _ (c_now c) Hi F) as (s' & E' & Hi'). unfold mbind at 1, M_bind at 1. cbn in E' |- *. rewrite E'. by eexists _, s'.
Qed.

Lemma zip_semval (b : list sem) l :
  length l = length b → vals (zip_with (λ y v, y <| semval := v |>) b l) = l.
Proof. revert l. induction b as [|x b IH]; intros [|v l] E; try done. cbn. f_equal. apply IH. cbn in E. lia. Qed.

Lemma setall_ok c s id sma arg :
  sems_ok s → used_at s id sma → existsb (λ v, SEMVMX <? v) (sem_io (sem_nsems sma) arg) = false →
  ∃ r s', ctl_setall c id sma arg s = Ret r s' ∧ sems_ok s'.
Proof.
  intros Hi Hu Hv. unfold ctl_setall. destruct (ipcperms _ _ _); [by eexists _, s|].
  pose proof (si_set _ _ _ Hi _ _ Hu) as Hok. destruct (so_nsems _ _ _ Hok) as [Hn _]. unfold nsems_of in Hn. unfold mbind at 1, M_bind at 1.
  set (l := sem_io (sem_nsems sma) arg) in *. assert (length l = length (sem_base sma)) as Hl.
  { unfold l, sem_io. rewrite length_fmap, length_seq. lia. }
  rewrite (st_sma_run s id sma _ Hu). unfold mbind at 1, M_bind at 1.
  match goal with |- context [for_each _ _ ?s1] => destruct (clear_all_same (seqZ 0 (sem_nsems sma)) s1 sma) as (U & -> & HU); set (s2 := s1) in * end.
  unfold mbind at 1, M_bind at 1.
  erewrite st_sma_run by (eapply (used_set s); [reflexivity|exact Hu]).
  set (sma' := sma <| sem_base := zip_with (λ y v, y <| semval := v |>) (sem_base sma) l |> <| sem_ctime := c_now c |>).
  assert (frame id sma sma' s (s <| undos := U |> <| semary := <[id := Used sma']> (semary s) |>)) as F.
  { apply set_frame; try done; [unfold nsems_of; cbn [sem_base]; change (sem_base sma') with (zip_with (λ y v, y <| semval := v |>) (sem_base sma) l); rewrite length_zip_with; lia|]. change (sem_base sma') with (zip_with (λ y v, y <| semval := v |>) (sem_base sma) l).
    rewrite zip_semval by done. apply Forall_forall. intros v Hin. split.
    - unfold l, sem_io in Hin. apply list_elem_of_fmap in Hin as (i & -> & _). apply u16_range.
    - destruct (decide (v ≤ SEMVMX)); [done|]. exfalso.
      assert (existsb (λ v, SEMVMX <? v) l = true) as E; [|congruence]. apply existsb_exists. exists v. split; [by apply list_elem_of_In|]. apply Z.ltb_lt. lia. }
  destruct (refresh _ _ _ _ _ (c_now c) Hi F) as (s' & E' & Hi').
  unfold mbind at 1, M_bind at 1. unfold s2. cbn in E' |- *. rewrite list_insert_insert_eq. rewrite E'. by eexists _, s'.
Qed.

Lemma ctl_set_ok c s id sma arg :
  sems_ok s → used_at s id sma → ∃ r s', ctl_set c id sma arg s = Ret r s' ∧ sems_ok s'.
Proof.
  intros Hi Hu. unfold ctl_set. destruct (may_control _ _); [|by eexists _, s]. unfold mbind at 1, M_bind at 1. rewrite (st_sma_run s id sma _ Hu).
  pose proof (si_set _ _ _ Hi _ _ Hu) as Hok. match goal with |- context [Used ?x] => set (sma' := x) end. eexists _, _. split; [reflexivity|].
  assert (frame id sma sma' s (s <| semary := <[id := Used sma']> (semary s) |>)) as F.
  { pose proof (same_undos_refl s) as HU. pose proof (set_frame s id sma sma' (undos s) Hu eq_refl eq_refl eq_refl eq_refl) as F.
    destruct s. apply F; [apply Hok|by split|done]. }
  eapply frame_ok; [|exact F]. eapply inv_frame; [exact Hi|exact F|]. right. intros p q Hp Eq. by apply (si_quiet _ _ _ Hi _ _ Hu ltac:(done) p q).
Qed.

Lemma count_queue_ok test semnum s ps : ∀ n,
  (∀ p, p ∈ ps → is_Some (queues s !! p)) → ∃ r, count_queue test semnum ps n s = Ret r s.
Proof.
  induction ps as [|p ps IH]; intros n Hps; [by exists n|]. destruct (Hps p ltac:(set_solver)) as [q Eq].
  cbn [count_queue]. unfold mbind, M_bind, ld_queue. rewrite Eq. apply IH. set_solver.
Qed.

Lemma ctl_get_ok c s id sma semnum cmd arg :
  sems_ok s → used_at s id sma → 0 ≤ semnum → (cmd = GETALL ∨ semnum < sem_nsems sma) →
  ∃ r, ctl_get c sma semnum cmd arg s = Ret r s.
Proof.
  intros Hi Hu H0 Hn. pose proof (si_set _ _ _ Hi _ _ Hu) as Hok. unfold ctl_get.
  assert (∀ p, p ∈ sem_pending sma → is_Some (queues s !! p)) as Hp.
  { intros p Hp. destruct (so_queue _ _ _ Hok p Hp) as (q & -> & _). by eexists. }
  destruct (ipcperms _ _ _); [by eexists|]. destruct (cmd =? GETALL) eqn:E1; [by eexists|].
  unfold mbind, M_bind, count_semncnt, count_semzcnt.
  destruct (cmd =? GETNCNT); [destruct (count_queue_ok (λ op, op <? 0) semnum s (sem_pending sma) 0 Hp) as [r ->]; by eexists|].
  destruct (cmd =? GETZCNT); [destruct (count_queue_ok (λ op, op =? 0) semnum s (sem_pending sma) 0 Hp) as [r ->]; by eexists|].
  to_prop. destruct Hn as [|Hn]; [done|]. destruct (so_nsems _ _ _ Hok) as [En _]. unfold nsems_of in En.
  destruct (lookup_lt_is_Some_2 (sem_base sma) (Z.to_nat semnum)) as [x ->]; [lia|]. by eexists.
Qed.

(** The first switch returns or leaves the state as it is. *)
Lemma ctl_check_ok c s id sma semnum cmd arg :
  sems_ok s → used_at s id sma → 0 ≤ semnum → one_sem cmd && (sem_nsems sma <=? semnum) = false →
  ∃ r s', ctl_check c id sma semnum cmd arg s = Ret r s' ∧ sems_ok s' ∧
    (r = None → s' = s ∧ (cmd = SETVAL → val_ok (a_val arg)) ∧
       (cmd = SETALL → existsb (λ v, SEMVMX <? v) (sem_io (sem_nsems sma) arg) = false)).
Proof.
  intros Hi Hu H0 Hone. unfold ctl_check. destruct (_ || (cmd =? GETALL)) eqn:E0.
  { destruct (ctl_get_ok c s id sma semnum cmd arg) as [r ->]; try done.
    - unfold one_sem in Hone. destruct (cmd =? GETALL) eqn:E; [left; by apply Z.eqb_eq|right]. rewrite orb_false_r in E0. rewrite E0 in Hone.
      cbn in Hone. by apply Z.leb_gt in Hone.
    - exists r, s. split_and!; [done..|]. intros _. split_and!; [done|by intros ->..]. }
  destruct (cmd =? SETVAL) eqn:E1; to_prop.
  { eexists _, s. split_and!; [reflexivity|done|]. intros Hr. split_and!; [done| |by intros ->]. intros _. 
    destruct ((SEMVMX <? a_val arg) || (a_val arg <? 0)) eqn:Eo; [done|]. to_prop. split; lia. }
  destruct (cmd =? IPC_RMID) eqn:E2; to_prop.
  { destruct (may_control _ _); [|by eexists _, s]. unfold mbind, M_bind. rewrite (freeary_run s id sma Hu). eexists _, _.
    split_and!; [reflexivity|by apply removed_ok|done]. }
  destruct (cmd =? SETALL) eqn:E3; to_prop.
  { destruct (negb _); [by eexists _, s|]. destruct (existsb _ _) eqn:Ee; by eexists _, s. }
  destruct (_ || _); by eexists _, s.
Qed.

Lemma ctl_do_ok c s id sma semnum cmd arg :
  sems_ok s → used_at s id sma → (cmd = SETVAL → val_ok (a_val arg)) →
  (cmd = SETALL → existsb (λ v, SEMVMX <? v) (sem_io (sem_nsems sma) arg) = false) →
  ∃ r s', ctl_do c id sma semnum cmd arg s = Ret r s' ∧ sems_ok s'.
Proof.
  intros Hi Hu Hv Ha. unfold ctl_do. destruct (cmd =? GETALL); [by eexists _, s|]. unfold mbind, M_bind.
  destruct (cmd =? SETVAL) eqn:E1; to_prop.
  { destruct (setval_ok c s id sma semnum arg Hi Hu (Hv E1)) as (r & s' & -> & ?). by eexists _, s'. }
  destruct (cmd =? IPC_SET) eqn:E2; to_prop.
  { destruct (ctl_set_ok c s id sma arg Hi Hu) as (r & s' & -> & ?). by eexists _, s'. }
  destruct (cmd =? IPC_STAT); [by eexists _, s|]. destruct (cmd =? SETALL) eqn:E3; to_prop; [|by eexists _, s].
  destruct (setall_ok c s id sma arg Hi Hu (Ha E3)) as (r & s' & -> & ?). by eexists _, s'.
Qed.

Lemma semctl_ok c semid semnum cmd arg s :
  sems_ok s → ∃ r s', sys_semctl c semid semnum cmd arg s = Ret r s' ∧ sems_ok s'.
Proof.
  intros Hi. unfold sys_semctl. destruct (_ || _) eqn:E0; [by eexists _, s|]. to_prop.
  destruct (_ || _); [unfold ctl_info, mbind, M_bind, gets; destruct (negb _); by eexists _, s|].
  destruct (cmd =? SEM_STAT).
  { unfold ctl_stat, mbind, M_bind, gets. destruct (negb _); [by eexists _, s|]. destruct (_ <? _) eqn:E1; [by eexists _, s|]. to_prop.
    destruct (si_vars _ _ _ Hi) as [_ Hm]. destruct (lookup_lt_is_Some_2 (semary s) (Z.to_nat semid)) as [[] ->]; [rewrite (si_len _ _ _ Hi); lia|..];
      [by eexists _, s..|]. destruct (ipcperms _ _ _); by eexists _, s. }
  unfold mbind, M_bind, gets. destruct (lookup_lt_is_Some_2 _ _ (slot_of_range s semid (si_len _ _ _ Hi))) as [sl Esl]. rewrite Esl.
  destruct sl as [| |sma]; [by eexists _, s..|]. destruct (negb _); [by eexists _, s|].
  destruct (one_sem cmd && _) eqn:E1; [by eexists _, s|].
  destruct (ctl_check_ok c s (slot_of semid) sma semnum cmd arg) as (r & s' & -> & Hi' & Hr); [done..|lia|done|].
  destruct r as [r|]; [by eexists _, s'|]. destruct (Hr eq_refl) as (-> & Hv & Ha). by apply ctl_do_ok.
Qed.

(** ** Lemmas: semget *)

Lemma first_unused_spec sl id : first_unused sl = Some id → sl !! id = Some Unused.
Proof.
  revert id. induction sl as [|x sl IH]; intros id; [done|]. destruct x; cbn; [by intros [= <-]|..];
    destruct (first_unused sl); intros [= <-]; by apply IH.
Qed.

Definition new_set (c : caller) (key nsems semflg seq : Z) : semid_ds :=
  MkSet (MkPerm key (euid (c_cred c)) (egid (c_cred c)) (euid (c_cred c)) (egid (c_cred c)) (Z.land semflg S_IRWXUGO) seq)
    0 (c_now c) (replicate (Z.to_nat nsems) (MkSem 0 0)) [] [] nsems.

Definition created (s : ss) (id : nat) (sma : semid_ds) : ss :=
  s <| used_sems := used_sems s + sem_nsems sma |> <| max_semid := Nat.max id (max_semid s) |>
    <| used_semids := used_semids s + 1 |> <| semary := <[id := Used sma]> (semary s) |>.

Lemma newary_run c kmalloc key nsems semflg s :
  (∃ e, e < 0 ∧ newary c (λ s, s) kmalloc key nsems semflg s = Ret e s) ∨
  ∃ id, nsems ≠ 0 ∧ semary s !! id = Some Unused ∧ kmalloc = true ∧
    newary c (λ s, s) kmalloc key nsems semflg s =
      Ret (ident (sem_seq s) id) (created s id (new_set c key nsems semflg (sem_seq s))).
Proof.
  unfold newary, set_slot, mbind, M_bind, gets, modify. destruct (nsems =? 0) eqn:E0; [left; by exists (- EINVAL)|].
  destruct (SEMMNS <? _); [left; by exists (- ENOSPC)|]. destruct (first_unused (semary s)) as [id|] eqn:E1; [|left; by exists (- ENOSPC)].
  apply first_unused_spec in E1. to_prop. destruct kmalloc; cbn [negb]; [right|left].
  - exists id. split_and!; try done. destruct s. cbn in *. by rewrite list_insert_insert_eq.
  - exists (- ENOMEM). split; [done|]. destruct s. cbn in *. unfold mret, M_ret. do 2 f_equal; [|lia]. rewrite list_insert_insert_eq. by apply list_insert_id.
Qed.

(** A slot without a set. *)
Definition vacant (sl : slot) : Prop := sl = Unused ∨ sl = NoId.

Lemma used_fresh s s' id sl sma id1 sma1 :
  semary s' = <[id := Used sma]> (semary s) → semary s !! id = Some sl → vacant sl → used_at s id1 sma1 → id1 ≠ id ∧ used_at s' id1 sma1.
Proof.
  intros Ea Hf Hv H1. unfold used_at in *. destruct (decide (id1 = id)) as [->|Hne]; [destruct Hv; congruence|]. by rewrite Ea, list_lookup_insert_ne.
Qed.

Lemma used_vacant s s' id sl sl' id1 sma1 :
  semary s' = <[id := sl']> (semary s) → semary s !! id = Some sl → vacant sl → vacant sl' → used_at s' id1 sma1 ↔ used_at s id1 sma1.
Proof.
  intros Ea Hf Hv Hv'. unfold used_at. rewrite Ea. destruct (decide (id1 = id)) as [->|Hne]; [|by rewrite list_lookup_insert_ne].
  rewrite Hf, list_lookup_insert_eq by (by eapply lookup_lt_Some). destruct Hv as [-> | ->], Hv' as [-> | ->]; naive_solver.
Qed.

End Making.

(** Marking a slot, or giving it up. *)
Lemma marked_ok (M M' : making) s id sl sl' n :
  sems_ok (M := M) s → semary s !! id = Some sl → vacant sl → vacant sl' → one_key (making := M') = one_key (making := M) →
  reserved (making := M') = reserved (making := M) + n →
  (∀ i, <[id := sl']> (semary s) !! i = Some NoId ↔ i ∈ hidden (making := M')) →
  sems_ok (M := M') (s <| semary := <[id := sl']> (semary s) |> <| used_sems := used_sems s + n |>).
Proof.
  intros [I1 I2 I3 I4 I5 I6 I7 I8 I9 I10 I11 I12 I13] Hs Hv Hv' Ho Hr Hh. set (s' := s <| semary := _ |> <| used_sems := _ |>).
  assert (∀ i sma, used_at s' i sma ↔ used_at s i sma) as Hu by (intros; by eapply (used_vacant s s' id)).
  assert (sems_in sl' = sems_in sl ∧ sets_in sl' = sets_in sl) as [H1 H2] by (by destruct Hv as [-> | ->], Hv' as [-> | ->]).
  split; try done.
  - cbn. by rewrite length_insert.
  - intros i sma Hi%Hu. destruct (I3 i sma Hi). by split.
  - intros i sma Hi%Hu. by apply I4.
  - intros p q Eq Hl. destruct (I5 p q Eq Hl) as (sma & Hi & ?). exists sma. by rewrite Hu.
  - intros t u Hin. destruct (I6 t u Hin) as (x & Ex & Hx). exists x. split; [done|]. intros Hne. destruct (Hx Hne) as (sma & ?). exists sma. by rewrite Hu.
  - intros i1 i2 a1 a2. rewrite !Hu, Ho. apply I10.
  - cbn [s' semary used_sems upd]. rewrite (sumZ_insert _ _ _ _ _ Hs), I11, Hr, H1. lia.
  - cbn [s' semary used_semids upd]. rewrite (sumZ_insert _ _ _ _ _ Hs), I12, H2. lia.
Qed.

(** Putting a new set into a marked slot. *)
Lemma filled_ok (M : making) s id sma :
  sems_ok (M := hide M id (sem_nsems sma)) s → id ∉ hidden (making := M) →
  sem_nsems sma = Z.of_nat (nsems_of sma) ∧ 1 ≤ sem_nsems sma ≤ SEMMSL →
  Forall val_ok (vals (sem_base sma)) → sem_pending sma = [] → undo sma = [] → 0 ≤ p_seq (sem_perm sma) < 2 ^ 16 →
  (one_key = true → p_key (sem_perm sma) = IPC_PRIVATE ∨ ∀ id1 sma1, used_at s id1 sma1 → p_key (sem_perm sma1) ≠ p_key (sem_perm sma)) →
  sems_ok (s <| max_semid := Nat.max id (max_semid s) |> <| used_semids := used_semids s + 1 |>
             <| semary := <[id := Used sma]> (semary s) |>).
Proof.
  intros Hi Hnh Hn Hv Hp Hun Hs Hk. set (s' := s <| max_semid := _ |> <| used_semids := _ |> <| semary := _ |>).
  pose proof Hi as [I1 I2 I3 I4 I5 I6 I7 I8 I9 I10 I11 I12 I13]. cbn [hide hidden reserved one_key] in I2, I10, I11.
  assert (semary s !! id = Some NoId) as Hf by (apply I2; by left).
  assert (semary s' = <[id := Used sma]> (semary s)) as Ea by done.
  pose proof (λ id1 sma1, used_insert_inv s s' id NoId sma id1 sma1 Ea Hf) as Hold.
  pose proof (λ id1 sma1, used_fresh s s' id NoId sma id1 sma1 Ea Hf (or_intror eq_refl)) as Hnew.
  split; try done.
  - by rewrite Ea, length_insert.
  - intros i. rewrite Ea. destruct (decide (i = id)) as [->|Hne].
    + rewrite list_lookup_insert_eq by (by eapply lookup_lt_Some). naive_solver.
    + rewrite list_lookup_insert_ne, I2, elem_of_cons by done. naive_solver.
  - intros id1 sma1 H1. destruct (Hold _ _ H1) as [[-> ->]|[Hne H1']].
    + split; try done; [cbn; lia|rewrite Hp; constructor|rewrite Hp; by intros ? ?%elem_of_nil|rewrite Hun; constructor|rewrite Hun; by intros ? ?%elem_of_nil].
    + destruct (I3 _ _ H1') as [O1 O2 O3 O4 O5 O6 O7 O8]. split; try done. cbn. lia.
  - intros id1 sma1 H1 _ p q Hin Eq. destruct (Hold _ _ H1) as [[-> ->]|[Hne H1']]; [by rewrite Hp in Hin; apply elem_of_nil in Hin|].
    by apply (I4 _ _ H1' ltac:(done) p q).
  - intros p q Eq Hl. destruct (I5 p q Eq Hl) as (sma1 & H1 & Hin). exists sma1. split; [by apply Hnew|done].
  - intros t u Hin. destruct (I6 t u Hin) as (x & Ex & Hx). exists x. split; [done|]. intros Hne. destruct (Hx Hne) as (sma1 & H1 & ?).
    exists sma1. split; [by apply Hnew|done].
  - intros id1 id2 sma1 sma2 Hone H1 H2 Ek Hnp. specialize (Hk Hone).
    destruct (Hold _ _ H1) as [[-> ->]|[Hne1 H1']], (Hold _ _ H2) as [[-> ->]|[Hne2 H2']]; [done|..].
    + destruct Hk as [|Hk]; [done|]. by destruct (Hk _ _ H2').
    + destruct Hk as [|Hk]; [congruence|]. by destruct (Hk _ _ H1').
    + by apply (I10 id1 id2 sma1 sma2).
  - rewrite Ea, (sumZ_insert _ _ _ _ _ Hf). cbn. rewrite I11. lia.
  - rewrite Ea, (sumZ_insert _ _ _ _ _ Hf), <-I12. cbn. lia.
  - split; [apply I13|]. apply lookup_lt_Some in Hf. rewrite I1 in Hf. destruct I13.
    change (max_semid s') with (Nat.max id (max_semid s)). lia.
Qed.

(** What happens while a process sleeps keeps the invariant. *)
Definition keeps (M : making) (f : ss → ss) : Prop := ∀ s, sems_ok (M := M) s → sems_ok (M := M) (f s).

Section Making.
Context {M : making}.

Lemma newary_ok c knap kmalloc key nsems semflg s :
  sems_ok s → 0 ≤ nsems ≤ SEMMSL → (∀ id, keeps (hide M id nsems) knap) →
  (one_key = true → (∀ s, knap s = s) ∧ (key = IPC_PRIVATE ∨ ∀ i sma, used_at s i sma → p_key (sem_perm sma) ≠ key)) →
  ∃ r s', newary c knap kmalloc key nsems semflg s = Ret r s' ∧ sems_ok s'.
Proof.
  intros Hi Hn Hk Hone. unfold newary, set_slot, mbind, M_bind, gets, modify.
  destruct (nsems =? 0) eqn:E0; [by eexists _, s|]. destruct (SEMMNS <? _); [by eexists _, s|].
  destruct (first_unused (semary s)) as [id|] eqn:E1; [|by eexists _, s]. apply first_unused_spec in E1. to_prop.
  assert (id ∉ hidden) as Hnh by (rewrite <-(si_noid _ _ _ Hi id); congruence).
  pose proof (λ i, list_lookup_insert (semary s) id i NoId) as Hins.
  set (s1 := s <| semary := <[id := NoId]> (semary s) |> <| used_sems := used_sems s + nsems |>).
  assert (sems_ok (M := hide M id nsems) s1) as Hi1.
  { eapply (marked_ok M); try done; [by left|by right|]. intros i. cbn [hide hidden]. rewrite elem_of_cons, <-(si_noid _ _ _ Hi i).
    destruct (decide (i = id)) as [->|Hne]; [rewrite list_lookup_insert_eq by (by eapply lookup_lt_Some); naive_solver|].
    rewrite list_lookup_insert_ne by done. naive_solver. }
  pose proof (Hk id s1 Hi1) as Hi2. set (s2 := knap s1) in *.
  assert (semary s2 !! id = Some NoId) as Hno by (apply (si_noid _ _ _ Hi2); by left).
  change (knap (s <| semary := _ |> <| used_sems := _ |>)) with s2. destruct kmalloc; cbn [negb].
  - destruct (si_vars _ _ _ Hi2) as [Hs _]. eexists _, _. split; [reflexivity|].
    apply (filled_ok M s2 id (new_set c key nsems semflg (sem_seq s2))); try done; unfold new_set, nsems_of; cbn [sem_nsems sem_base sem_perm p_key].
    + rewrite length_replicate, Z2Nat.id by lia. lia.
    + unfold vals. rewrite fmap_replicate. apply Forall_replicate. done.
    + intros Ho. destruct (Hone Ho) as [Hid [|Hkey]]; [by left|right]. intros i sma Hu. apply (Hkey i).
      unfold s2 in Hu. rewrite Hid in Hu. by apply (used_vacant s s1 id Unused NoId); [..|left|right|].
  - eexists _, _. split; [reflexivity|]. replace (used_sems _ - nsems) with (used_sems s2 + - nsems) by (cbn; lia).
    eapply (marked_ok (hide M id nsems) M); try done; [by right|by left|cbn; lia|]. intros i.
    pose proof (si_noid _ _ _ Hi2 i) as Hx. cbn [hide hidden] in Hx. rewrite elem_of_cons in Hx.
    destruct (decide (i = id)) as [->|Hne]; [rewrite list_lookup_insert_eq by (by eapply lookup_lt_Some); naive_solver|].
    rewrite list_lookup_insert_ne by done. naive_solver.
Qed.

Lemma wait_id_spec naps id : ∀ s,
  sems_ok s → Forall (keeps M) naps →
  (∃ naps' s', wait_id naps id s = Ret naps' s' ∧ sems_ok s' ∧ Forall (keeps M) naps' ∧ semary s' !! id ≠ Some NoId ∧ (hidden = [] → s' = s)) ∨
  (∃ s', wait_id naps id s = Stuck Asleep s' ∧ hidden ≠ []).
Proof.
  assert (∀ s, sems_ok s → semary s !! id = Some NoId → hidden ≠ []) as Hhid.
  { intros s Hi E%(si_noid _ _ _ Hi). intros Hn. rewrite Hn in E. by apply elem_of_nil in E. }
  assert (∀ s, semary s !! id = Some NoId ∨ semary s !! id ≠ Some NoId) as Hdec.
  { intros s. destruct (semary s !! id) as [[]|]; [by right|by left|by right|by right]. }
  assert (∀ naps s, semary s !! id ≠ Some NoId → wait_id naps id s = Ret naps s) as Hret.
  { intros ns s E. destruct ns; cbn [wait_id]; unfold mbind, M_bind, gets; by destruct (semary s !! id) as [[]|]. }
  induction naps as [|n naps IH]; intros s Hi Hn; (destruct (Hdec s) as [E|E]; [|left; eexists _, s; by rewrite Hret]);
    cbn [wait_id]; unfold mbind, M_bind, gets, modify; rewrite !E.
  - right. exists s. split; [done|]. by apply (Hhid s).
  - apply Forall_cons in Hn as [Hn Hns]. pose proof (Hhid s Hi E) as Hne. destruct (IH (n s) (Hn s Hi) Hns) as [(naps' & s' & ? & ? & ? & ? & _)|?]; [left|by right].
    exists naps', s'. split_and!; try done.
Qed.

Lemma findkey_from_spec key fuel : ∀ naps id s,
  sems_ok s → Forall (keeps M) naps → (Z.to_nat SEMMNI - id < fuel)%nat →
  (∃ r s', findkey_from fuel naps key id s = Ret r s' ∧ sems_ok s' ∧ (hidden = [] → s' = s) ∧
    match r with
    | Some i => ∃ sma, used_at s' i sma ∧ p_key (sem_perm sma) = key
    | None => hidden = [] → ∀ i sma, (id ≤ i)%nat → used_at s i sma → p_key (sem_perm sma) ≠ key
    end) ∨
  (∃ s', findkey_from fuel naps key id s = Stuck Asleep s' ∧ hidden ≠ []).
Proof.
  induction fuel as [|fuel IH]; intros naps id s Hi Hn Hf; [lia|]. cbn [findkey_from]. unfold mbind, M_bind, gets.
  destruct (Nat.ltb_spec (max_semid s) id) as [Em|Em].
  { left. exists None, s. split_and!; try done. intros _ i sma Hle Hu. pose proof (so_max _ _ _ (si_set _ _ _ Hi _ _ Hu)). lia. }
  destruct (si_vars _ _ _ Hi) as [_ Hm].
  destruct (wait_id_spec naps id s Hi Hn) as [(naps' & s1 & -> & Hi1 & Hn1 & Hno & Hs1)|(s1 & -> & Hh)]; [|right; by exists s1].
  destruct (lookup_lt_is_Some_2 (semary s1) id) as [sl Esl]; [rewrite (si_len _ _ _ Hi1); lia|]. rewrite !Esl.
  assert (∀ P, (∀ i sma, (S id ≤ i)%nat → used_at s1 i sma → P sma) → (∀ sma, sl = Used sma → P sma) → hidden = [] →
    ∀ i sma, (id ≤ i)%nat → used_at s i sma → P sma) as Hnext.
  { intros P Hr Hs Hh i sma Hle Hu. rewrite (Hs1 Hh) in *. destruct (decide (i = id)) as [->|]; [|apply (Hr i); [lia|done]].
    apply Hs. unfold used_at in Hu. congruence. }
  destruct (IH naps' (S id) s1 Hi1 Hn1 ltac:(lia)) as [(r & s2 & E & Hi2 & Hs2 & Hr)|(s2 & E & Hh)].
  2:{ destruct sl as [| |sma]; [right; by exists s2|done|]. destruct (key =? p_key (sem_perm sma)) eqn:Ek; to_prop; [|right; by exists s2].
      left. exists (Some id), s1. split_and!; try done. by exists sma. }
  destruct sl as [| |sma]; [|done|].
  - left. exists r, s2. split_and!; [done..|intros Hh; by rewrite Hs2, Hs1|]. destruct r; [done|]. intros Hh. apply (Hnext (λ sma, p_key (sem_perm sma) ≠ key)); [|done|done]. by apply Hr.
  - destruct (key =? p_key (sem_perm sma)) eqn:Ek; to_prop; left; [exists (Some id), s1; split_and!; [done..|by exists sma]|].
    exists r, s2. split_and!; [done..|intros Hh; by rewrite Hs2, Hs1|]. destruct r; [done|]. intros Hh. apply (Hnext (λ sma, p_key (sem_perm sma) ≠ key)); [by apply Hr| |done].
    intros ? [= <-]. congruence.
Qed.

Lemma findkey_ok key naps s :
  sems_ok s → Forall (keeps M) naps →
  (∃ r s', findkey naps key s = Ret r s' ∧ sems_ok s' ∧ (hidden = [] → s' = s) ∧
    match r with
    | Some i => ∃ sma, used_at s' i sma ∧ p_key (sem_perm sma) = key
    | None => hidden = [] → ∀ i sma, used_at s i sma → p_key (sem_perm sma) ≠ key
    end) ∨
  (∃ s', findkey naps key s = Stuck Asleep s' ∧ hidden ≠ []).
Proof.
  intros Hi Hn. destruct (findkey_from_spec key (S (Z.to_nat SEMMNI)) naps 0 s Hi Hn ltac:(lia)) as [(r & s' & E & Hi' & Hs' & Hr)|?]; [left|by right].
  exists r, s'. split_and!; try done. destruct r; [done|]. intros Hh i sma. apply (Hr Hh i sma). lia.
Qed.

(** ** Lemmas: taking back *)

Lemma s16_add v a : s16 (v + s16 a) = s16 (v + a).
Proof.
  unfold s16. replace (v + ((a + 2 ^ 15) mod 2 ^ 16 - 2 ^ 15) + 2 ^ 15) with (v + (a + 2 ^ 15) mod 2 ^ 16) by lia.
  rewrite Zplus_mod_idemp_r. f_equal. f_equal. lia.
Qed.

(** What the operations add, the adjustments take back, as short integers. *)
Lemma undo_run sops : ∀ l adj l',
  length adj = length l → Forall (op_fits (length l)) sops → Forall (λ sop, wants_undo sop = true) sops →
  ops_run sops l = Go l' →
  zip_with (λ v a, s16 (v + a)) l' (adj_run sops adj) = zip_with (λ v a, s16 (v + a)) l adj.
Proof.
  induction sops as [|sop sops IH]; intros l adj l' Hl Hf Hw; [by intros [= <-]|]. apply Forall_cons in Hf as [[Hn _] Hf].
  apply Forall_cons in Hw as [Hw Hws]. cbn [ops_run adj_run]. rewrite Hw. cbn [andb]. set (n := Z.to_nat (sem_num sop)).
  destruct (lookup_lt_is_Some_2 l n) as [v Ev]; [lia|]. destruct (lookup_lt_is_Some_2 adj n) as [a Ea]; [lia|]. rewrite Ev, Ea.
  change (default 0 (Some v)) with v. change (default 0 (Some a)) with a. unfold or_wait.
  destruct (decide _); [done|]. destruct (decide _); [by destruct (has _ _)|]. intros E.
  assert (zip_with (λ v a, s16 (v + a)) (<[n := v + sem_op sop]> l) (<[n := s16 (a - sem_op sop)]> adj) = zip_with (λ v a, s16 (v + a)) l adj) as Ez.
  { rewrite <-(insert_zip_with _ l adj n), s16_add. replace (v + sem_op sop + (a - sem_op sop)) with (v + a) by lia.
    apply list_insert_id. by rewrite lookup_zip_with, Ev, Ea. }
  assert (∀ adj1, length adj1 = length adj → zip_with (λ v a, s16 (v + a)) l' (adj_run sops adj1) =
      zip_with (λ v a, s16 (v + a)) (<[n := v + sem_op sop]> l) adj1) as Hstep.
  { intros adj1 H1. apply IH; rewrite ?length_insert; try done. lia. }
  rewrite Hstep by (destruct (negb _); by rewrite ?length_insert). destruct (sem_op sop =? 0) eqn:E0; cbn [negb]; [|done].
  to_prop. rewrite E0 in *. rewrite Z.add_0_r, list_insert_id by done. done.
Qed.

Lemma undo_zero sops l l' :
  Forall val_ok l → Forall (op_fits (length l)) sops → Forall (λ sop, wants_undo sop = true) sops → ops_run sops l = Go l' →
  zip_with adjusted l' (adj_run sops (replicate (length l) 0)) = l.
Proof.
  intros Hv Hf Hw E. pose proof (undo_run sops l (replicate (length l) 0) l' ltac:(by rewrite length_replicate) Hf Hw E) as H.
  destruct (ops_run_vals _ _ _ Hv E) as [_ Hl]. set (adj := adj_run sops _) in *.
  apply list_eq. intros i. assert (zip_with (λ v a, s16 (v + a)) l' adj !! i = zip_with (λ v a, s16 (v + a)) l (replicate (length l) 0) !! i) as Hi by (by rewrite H).
  rewrite (lookup_zip_with _ l'), (lookup_zip_with _ l) in Hi. rewrite lookup_zip_with.
  assert (length adj = length l) as Ha by (unfold adj; rewrite adj_run_length; apply length_replicate).
  destruct (decide (i < length l)%nat) as [Hlt|Hge].
  - destruct (lookup_lt_is_Some_2 l i) as [v Ev]; [done|]. destruct (lookup_lt_is_Some_2 l' i) as [v' Ev']; [lia|].
    destruct (lookup_lt_is_Some_2 adj i) as [a Ea]; [lia|]. rewrite Ev, Ev', Ea, lookup_replicate_2 in Hi by done. rewrite Ev, Ev', Ea. cbn in Hi |- *.
    injection Hi as Hi. pose proof (proj1 (Forall_lookup _ _) Hv i v Ev) as [? ?]. unfold SEMVMX in *. rewrite Z.add_0_r, (s16_id v) in Hi by lia.
    unfold adjusted. rewrite Hi. destruct (v <? 0) eqn:E0; [to_prop; lia|done].
  - rewrite !(proj2 (lookup_ge_None _ i)) by lia. done.
Qed.

Lemma serves_idle Q l res l' ps' : serves Q l [] res l' ps' → res = [] ∧ l' = l ∧ ps' = [].
Proof. intros H. inversion H; subst; [done|by set_solver..]. Qed.

(** A process that has done nothing else with semaphores than operations with
    [SEM_UNDO] on one set, for which nobody waits: its undo structure, if it has
    one yet, holds the adjustments [adj]. *)
Record tracked (c : caller) (semid : Z) (s : ss) (sma : semid_ds) (adj : list Z) : Prop := {
  tk_ok : sems_ok s;
  tk_used : used_at s (slot_of semid) sma;
  tk_idle : sem_pending sma = [];
  tk_awake : queues s !! c_task c = None;
  tk_undo : (undos_of (c_task c) s = [] ∧ adj = replicate (nsems_of sma) 0) ∨
    ∃ n, undos_of (c_task c) s = [n] ∧ n ∈ undo sma ∧ p_seq (sem_perm sma) = seq_of semid ∧ undos s !! n = Some (MkUndo semid adj);
}.

(** The undo structure, made now or found. *)
Lemma get_tracked c km semid s sma adj :
  tracked c semid s sma adj → (∀ n, km = Some n → undos s !! n = None) → p_seq (sem_perm sma) = seq_of semid →
  (km = None ∧ get_undo c km (slot_of semid) semid s = Ret None s) ∨
  ∃ n s1 sma1, get_undo c km (slot_of semid) semid s = Ret (Some n) s1 ∧ tracked c semid s1 sma1 adj ∧ n ∈ undo sma1 ∧
    undos_of (c_task c) s1 = [n] ∧ undos s1 !! n = Some (MkUndo semid adj) ∧ sem_base sma1 = sem_base sma ∧ p_seq (sem_perm sma1) = seq_of semid.
Proof.
  intros Htk Hkm Hseq. pose proof Htk as [Hi Hu Hp Hq [[Ho ->]|(n & Ho & Hin & _ & Ex)]].
  - assert (semid = ident (p_seq (sem_perm sma)) (slot_of semid)) as Hid by (rewrite Hseq; symmetry; apply semid_ident).
    destruct (get_undo_spec c km _ semid s sma Hi Hu Hid Hkm) as [(u & _ & _ & Hin)|[?|(n & -> & ->)]]; [|by left|right].
    { rewrite Ho in Hin. by apply elem_of_nil in Hin. }
    set (sma1 := sma <| undo := n :: undo sma |>). set (s1 := with_undo s (c_task c) n (slot_of semid) sma).
    assert (used_at s1 (slot_of semid) sma1) as Hu1 by (by eapply used_set).
    assert (undos_of (c_task c) s1 = [n]) as Ho1.
    { unfold undos_of at 1. change (semundo s1) with (<[c_task c := n :: undos_of (c_task c) s]> (semundo s)). by rewrite lookup_insert_eq, Ho. }
    assert (undos s1 !! n = Some (MkUndo semid (replicate (nsems_of sma) 0))) as Ex.
    { cbn. rewrite lookup_insert_eq. by rewrite <-Hid. }
    assert (n ∈ undo sma1) as Hin by (cbn; set_solver).
    exists n, s1, sma1. split_and!; try done. split; try done; [apply with_undo_ok; [done|done|by apply Hkm]|]. right. by exists n.
  - right. exists n, s, sma. split_and!; try done. unfold get_undo, mbind, M_bind, gets. rewrite Ho. cbn [find_undo].
    unfold mbind, M_bind, ld_undo. rewrite Ex. cbn [un_semid]. by rewrite Z.eqb_refl.
Qed.

(** Another call of that process that returns 0. *)
Lemma semop_tracked c km s semid sops sma adj s' :
  tracked c semid s sma adj → (∀ n, km = Some n → undos s !! n = None) → typed sops → Forall (λ sop, wants_undo sop = true) sops →
  semop_enter c 0 km semid sops s = Ret (Some 0) s' →
  ∃ sma', tracked c semid s' sma' (adj_run sops adj) ∧ Forall (op_fits (nsems_of sma)) sops ∧
    ops_run sops (vals (sem_base sma)) = Go (vals (sem_base sma')).
Proof.
  intros Htk Hkm Ht Hw E. pose proof Htk as [Hi Hu0 Hp Hq _].
  destruct (admitted_or None c km s semid sops Hi) as [[sma' Had]|(_ & e & He & E')]; [|rewrite E in E'; injection E' as <-; lia].
  assert (sma' = sma) as -> by (pose proof (ad_used _ _ _ _ _ Had); unfold used_at in *; congruence).
  assert (existsb wants_undo sops = true) as Hex.
  { pose proof (ad_count _ _ _ _ _ Had). destruct sops as [|sop sops]; [cbn in *; lia|]. apply Forall_cons in Hw as [Hw _]. cbn. by rewrite Hw. }
  assert (∃ l, ops_run sops (vals (sem_base sma)) = Go l) as [l Erun].
  { destruct (semop_enter_spec c km s semid sops sma Hi Hq Hkm Ht Had) as (r & s2 & E' & _ & Ho). rewrite E in E'. injection E' as <- <-.
    destruct Ho as [Ho|(_ & _ & ? & _)]; [|done]. unfold semop_outcome in Ho.
    destruct (ops_run sops (vals (sem_base sma))) as [l| |e] eqn:Er; [by exists l|by destruct Ho|].
    apply ops_run_refuse in Er. destruct Ho as [[= <-] _]. lia. }
  rewrite (semop_enter_run _ _ _ _ _ _ Had), Hex in E. pose proof Had as [_ _ _ Hseq Hnum _].
  pose proof (si_set _ _ _ Hi _ _ Hu0) as Hok0.
  pose proof (typed_fits _ _ _ _ Ht Hok0 Hnum) as Hops. set (id := slot_of semid) in *.
  unfold mbind at 1, M_bind at 1 in E. rewrite (in_set_try s id sma) in E by done.
  rewrite Erun in E. cbn [code] in E. change (0 <? 0) with false in E. cbv iota in E. unfold mbind at 1, M_bind at 1 in E.
  destruct (get_tracked c km semid s sma adj Htk Hkm Hseq) as [(_ & Eg)|(n & s1 & sma1 & Eg & Htk1 & Hin1 & Ho1 & Ex1 & Eb & Hs1)];
    change (slot_of semid) with id in Eg; rewrite Eg in E; cbn [andb] in E;
    [rewrite bool_decide_eq_true_2 in E by done; discriminate|rewrite bool_decide_eq_false_2 in E by done].
  change (0 =? 0) with true in E. cbv iota in E. pose proof Htk1 as [Hi1 Hu1 Hp1 Hq1 _]. pose proof (si_set _ _ _ Hi1 _ _ Hu1) as Hok1.
  destruct (do_semop_spec s1 id sma1 (c_now c) sops (Some n) (c_pid c) l) as (s2 & sma2 & E2 & F2 & Hv2 & Hp2 & Hq2 & Hun2); try done.
  { unfold nsems_of in *. by rewrite Eb. }
  { by rewrite Eb. }
  unfold mbind at 1, M_bind at 1 in E. rewrite E2 in E.
  destruct (update_queue_spec (o := λ t, undos_of t s1) (c_now c) id s2 sma2) as (s3 & sma3 & res & E3 & Hs3 & Hi3).
  { eapply inv_frame; [by apply inv_busy|exact F2|by left]. }
  { by eapply frame_used. }
  pose proof (sd_serves _ _ _ _ _ _ Hs3) as Hsv. rewrite Hp2, Hp1 in Hsv.
  apply serves_idle in Hsv as (-> & Hv3 & Hp3). destruct (sd_none _ _ _ _ _ _ Hs3 eq_refl) as [-> ->].
  unfold mbind at 1, M_bind at 1 in E. rewrite E3 in E. injection E as <-. destruct (fr_vars _ _ _ _ _ F2) as (_ & _ & _ & _ & Ho).
  exists sma2. rewrite Hv2. split; [|done]. split.
  - by eapply frame_ok.
  - by eapply frame_used.
  - congruence.
  - congruence.
  - right. exists n. split_and!.
    + unfold undos_of. rewrite Ho. exact Ho1.
    + by rewrite (fr_undo _ _ _ _ _ F2).
    + destruct (fr_perm _ _ _ _ _ F2) as [_ ->]. done.
    + rewrite Hun2. cbn. by rewrite lookup_alter_eq, Ex1.
Qed.

(** One call after the other of one process on one set, each of which returns
    0: what [kmalloc] gives it, and the operations. *)
Fixpoint own_calls (c : caller) (semid : Z) (calls : list (option Z * list sembuf)) (s s' : ss) : Prop :=
  match calls with
  | [] => s' = s
  | (km, sops) :: calls' =>
      ∃ s1, (∀ n, km = Some n → undos s !! n = None) ∧ semop_enter c 0 km semid sops s = Ret (Some 0) s1 ∧
        own_calls c semid calls' s1 s'
  end.

Lemma ops_run_app sops1 sops2 l : ops_run (sops1 ++ sops2) l =
  match ops_run sops1 l with Go l' => ops_run sops2 l' | Block => Block | Refuse e => Refuse e end.
Proof.
  revert l. induction sops1 as [|sop sops1 IH]; intros l; [done|]. cbn [ops_run app]. unfold or_wait.
  destruct (decide _); [done|]. destruct (decide _); [by destruct (has _ _)|]. apply IH.
Qed.

Lemma adj_run_app sops1 sops2 adj : adj_run (sops1 ++ sops2) adj = adj_run sops2 (adj_run sops1 adj).
Proof. revert adj. induction sops1 as [|sop sops1 IH]; intros adj; [done|]. cbn [adj_run app]. case_match; apply IH. Qed.

Lemma own_calls_tracked c semid calls : ∀ s sma adj s',
  tracked c semid s sma adj → Forall (λ x, typed x.2 ∧ Forall (λ sop, wants_undo sop = true) x.2) calls → own_calls c semid calls s s' →
  ∃ sma', tracked c semid s' sma' (adj_run (concat calls.*2) adj) ∧ Forall (op_fits (nsems_of sma)) (concat calls.*2) ∧
    ops_run (concat calls.*2) (vals (sem_base sma)) = Go (vals (sem_base sma')).
Proof.
  induction calls as [|[km sops] calls IH]; intros s sma adj s' Htk Hc; cbn [own_calls].
  { intros ->. exists sma. split_and!; try done. }
  apply Forall_cons in Hc as [[Ht Hw] Hc]. intros (s1 & Hkm & E & Hcalls).
  destruct (semop_tracked c km s semid sops sma adj s1 Htk Hkm Ht Hw E) as (sma1 & Htk1 & Hf1 & Er1).
  destruct (IH s1 sma1 _ s' Htk1 Hc Hcalls) as (sma' & Htk' & Hf' & Er'). exists sma'. cbn [concat fmap list_fmap snd].
  rewrite adj_run_app, ops_run_app, Er1. split_and!; try done. apply Forall_app. split; [done|].
  destruct (ops_run_vals _ _ _ (so_vals _ _ _ (si_set _ _ _ (tk_ok _ _ _ _ _ Htk) _ _ (tk_used _ _ _ _ _ Htk))) Er1) as [_ Hl].
  unfold vals in Hl. rewrite !length_fmap in Hl. unfold nsems_of in *. by rewrite <-Hl.
Qed.

(** The exit of a process that has one undo structure, for a set for which nobody
    waits. *)
Lemma exit_one c n s id sma x :
  sems_ok s → queues s !! c_task c = None → undos_of (c_task c) s = [n] → undos s !! n = Some x →
  slot_of (un_semid x) = id → used_at s id sma → p_seq (sem_perm sma) = seq_of (un_semid x) → n ∈ undo sma → sem_pending sma = [] →
  ∃ s' sma', sem_exit c s = Ret tt s' ∧ used_at s' id sma' ∧ vals (sem_base sma') = zip_with adjusted (vals (sem_base sma)) (semadj x).
Proof.
  intros Hi Hq Ho Ex <- Hu Hs Hin Hp. unfold sem_exit. unfold mbind at 1, M_bind at 1, gets at 1. rewrite Hq.
  unfold mbind, M_bind, mret, M_ret, gets. rewrite Ho, (exit_step c n [] s x Ex). destruct (undo_set None s n x _ sma Hi Ex Hu Hin) as [Hne _].
  rewrite (proj2 (Z.eqb_neq _ _) Hne), Hu, (proj2 (Z.eqb_eq _ _) Hs), bool_decide_eq_true_2 by done. cbn [negb].
  destruct (own_drop None s (c_task c) n [] Hi Ho Hq) as [Hi' Hno].
  destruct (exit_adjust c s _ sma n x Hi' Hu Hno Hin Ex) as (s1 & sma1 & res & E & _ & Hu1 & _ & _ & Hsv). rewrite Hp in Hsv.
  apply serves_idle in Hsv as (_ & Hv & _). unfold mbind at 1, M_bind at 1. rewrite E. eexists _, sma1. split; [reflexivity|]. split; [exact Hu1|done].
Qed.

(** ** Lemmas: reachable states *)

Lemma exit_tracked c semid s sma adj :
  tracked c semid s sma adj →
  ∃ s' sma', sem_exit c s = Ret tt s' ∧ used_at s' (slot_of semid) sma' ∧
    vals (sem_base sma') = zip_with adjusted (vals (sem_base sma)) adj.
Proof.
  intros [Hi Hu Hp Hq [[Ho ->]|(n & Ho & Hin & Hs & Ex)]]; [|by eapply (exit_one c n s (slot_of semid) sma (MkUndo semid adj))].
  exists (s <| semundo := delete (c_task c) (semundo s) |>), sma. split_and!; [|done|].
  - unfold sem_exit. unfold mbind at 1, M_bind at 1, gets at 1. rewrite Hq. unfold mbind, M_bind, mret, M_ret, gets. by rewrite Ho.
  - pose proof (so_vals _ _ _ (si_set _ _ _ Hi _ _ Hu)) as Hv. unfold nsems_of.
    assert (length (vals (sem_base sma)) = length (sem_base sma)) as <- by apply length_fmap.
    induction Hv as [|v l Hv _ IH]; [done|]. cbn. f_equal; [|exact IH]. unfold adjusted, val_ok, SEMVMX in *.
    rewrite Z.add_0_r, s16_id by lia. by rewrite (proj2 (Z.ltb_ge v 0)) by lia.
Qed.

Lemma semget_ok c naps knap kmalloc key nsems semflg s :
  sems_ok s → Forall (keeps M) naps → (∀ id, keeps (hide M id nsems) knap) →
  (one_key = true → hidden = [] ∧ ∀ s, knap s = s) →
  (∃ r s', sys_semget c naps knap kmalloc key nsems semflg s = Ret r s' ∧ sems_ok s') ∨
  (∃ s', sys_semget c naps knap kmalloc key nsems semflg s = Stuck Asleep s' ∧ hidden ≠ []).
Proof.
  intros Hi Hn Hk Ho. unfold sys_semget. destruct (_ || _) eqn:E0; [left; by eexists _, s|]. to_prop.
  destruct (key =? IPC_PRIVATE) eqn:Ep; to_prop.
  { left. apply newary_ok; [done|lia|done|]. intros Hone. split; [by apply Ho|by left]. }
  unfold mbind at 1 3, M_bind at 1 3. destruct (findkey_ok key naps s Hi Hn) as [(found & s1 & -> & Hi1 & Hs1 & Hfound)|(s1 & -> & Hh)]; [|right; by exists s1].
  left. destruct found as [id|].
  - destruct (_ && _); [by eexists _, s1|]. destruct Hfound as (sma & Hu & _). unfold mbind, M_bind. rewrite (ld_sma_run s1 id sma Hu).
    destruct (sem_nsems sma <? nsems); [by eexists _, s1|]. destruct (ipcperms _ _ _); by eexists _, s1.
  - destruct (negb _); [by eexists _, s1|]. apply newary_ok; [done|lia|done|]. intros Hone. destruct (Ho Hone) as [Hh Hid]. split; [done|].
    right. intros i sma. rewrite (Hs1 Hh). by apply Hfound.
Qed.

End Making.

Lemma sem_init_ok one : sems_ok (M := at_rest one) sem_init.
Proof.
  assert (∀ id sma, ¬ used_at sem_init id sma) as Hn.
  { intros id sma H. unfold used_at in H. apply lookup_replicate_1 in H as [? _]. done. }
  split; try done; try (intros; exfalso; by eapply Hn).
  - intros i. split; [by intros [? _]%lookup_replicate_1|by intros ?%elem_of_nil].
  - intros t u Hin. by apply elem_of_nil in Hin.
  - intros t. constructor.
  - intros t1 t2 u Hin. by apply elem_of_nil in Hin.
  - cbn. unfold SEMMNI. lia.
Qed.

(** [semget] fails, finds the set with the key, or makes one. *)
Definition semget_outcome (c : caller) (key nsems semflg r : Z) (s s' : ss) : Prop :=
  r < 0 ∧ s' = s ∨
  0 ≤ r ∧ ∃ sma, used_at s' (slot_of r) sma ∧ p_seq (sem_perm sma) = seq_of r ∧ p_key (sem_perm sma) = key ∧
    nsems ≤ sem_nsems sma ∧
    (s' = s ∧ key ≠ IPC_PRIVATE ∧ ipcperms c (sem_perm sma) semflg = false ∨
     semary s !! slot_of r = Some Unused ∧ s' = created s (slot_of r) sma ∧ sma = new_set c key nsems semflg (seq_of r)).

Lemma new_outcome one c kmalloc key nsems semflg s :
  sems_ok (M := at_rest one) s → semget_outcome c key nsems semflg
    (match newary c (λ s, s) kmalloc key nsems semflg s with Ret r _ => r | _ => 0 end) s
    (match newary c (λ s, s) kmalloc key nsems semflg s with Ret _ s' | Stuck _ s' => s' end).
Proof.
  intros Hi. destruct (newary_run c kmalloc key nsems semflg s) as [(e & He & ->)|(id & Hne & Hf & _ & ->)]; [by left|].
  assert (id < Z.to_nat SEMMNI)%nat as Hid by (rewrite <-(si_len _ _ _ Hi); by eapply lookup_lt_Some).
  destruct (si_vars _ _ _ Hi) as [Hs _]. right. rewrite ident_slot, ident_seq by done. split; [unfold ident, SEMMNI; lia|].
  exists (new_set c key nsems semflg (sem_seq s)). split_and!; try done.
  - unfold used_at. cbn. apply list_lookup_insert_eq. by eapply lookup_lt_Some.
  - by right.
Qed.

(** [semget] when nothing else happens. *)
Lemma semget_at_once one c kmalloc key nsems semflg s :
  sems_ok (M := at_rest one) s → ∃ r s', sys_semget c [] (λ s, s) kmalloc key nsems semflg s = Ret r s' ∧
    sems_ok (M := at_rest one) s' ∧ semget_outcome c key nsems semflg r s s'.
Proof.
  intros Hi. destruct (semget_ok (M := at_rest one) c [] (λ s, s) kmalloc key nsems semflg s) as [(r & s' & E & Hi')|(s' & _ & Hh)];
    [done|constructor|by intros ? ?|done| |done].
  exists r, s'. split; [done|]. split; [done|]. revert E. unfold sys_semget.
  assert (∀ e, e < 0 → Ret e s = Ret r s' → semget_outcome c key nsems semflg r s s') as Herr by (intros e He [= <- <-]; by left).
  pose proof (new_outcome one c kmalloc key nsems semflg s Hi) as Hnew.
  assert (newary c (λ s, s) kmalloc key nsems semflg s = Ret r s' → semget_outcome c key nsems semflg r s s') as Hnew' by (by intros E; rewrite E in Hnew).
  destruct (_ || _) eqn:E0; [by apply Herr|]. to_prop. destruct (key =? IPC_PRIVATE) eqn:Ep; to_prop; [done|].
  unfold mbind at 1, M_bind at 1. destruct (findkey_ok (M := at_rest one) key [] s Hi) as [(found & s1 & -> & _ & Hs1 & Hfound)|(s1 & -> & _)]; [done| |done].
  rewrite (Hs1 eq_refl) in *. destruct found as [id|]; [|destruct (negb _); [by apply Herr|done]].
  destruct (_ && _); [by apply Herr|]. destruct Hfound as (sma & Hu & Hk). unfold mbind, M_bind. rewrite (ld_sma_run s id sma Hu).
  destruct (sem_nsems sma <? nsems) eqn:En; [by apply Herr|]. destruct (ipcperms _ _ _) eqn:Ei; [by apply Herr|]. to_prop. intros [= <- <-].
  pose proof (si_set _ _ _ Hi _ _ Hu) as Hok. pose proof (so_seq _ _ _ Hok). right.
  split; [unfold ident, SEMMNI; lia|]. assert (id < Z.to_nat SEMMNI)%nat as Hid by (rewrite <-(si_len _ _ _ Hi); by eapply lookup_lt_Some).
  rewrite ident_slot, ident_seq by done. exists sma. split_and!; try done. by left.
Qed.

Lemma enter_ok (M : making) c va km semid sops s :
  sems_ok s → queues s !! c_task c = None → (∀ n, km = Some n → undos s !! n = None) → typed sops →
  ∃ r s', semop_enter c va km semid sops s = Ret r s' ∧ sems_ok s'.
Proof.
  intros Hi Hq Hkm Ht. destruct (decide (va = 0)) as [->|Hva].
  - destruct (admitted_or None c km s semid sops Hi) as [[sma Had]|(_ & e & _ & ->)]; [|by eexists _, s].
    destruct (semop_enter_spec c km s semid sops sma Hi Hq Hkm Ht Had) as (r & s' & ? & ? & _). by exists r, s'.
  - unfold semop_enter. apply Z.eqb_neq in Hva. rewrite Hva. cbn [negb]. do 2 (case_match; [by eexists _, s|]). by eexists _, s.
Qed.

(** What the environment of a sleep must keep, a step keeps. *)
Definition env_ok (one : bool) (env : ss → ss → Prop) : Prop :=
  ∀ M s s', one_key (making := M) = one → env s s' → sems_ok (M := M) s → sems_ok (M := M) s'.

Lemma env_keeps one env M f :
  env_ok one env → one_key (making := M) = one → (∀ s, rtc env s (f s)) → keeps M f.
Proof.
  intros He Ho Hf s. specialize (Hf s). revert Hf. generalize (f s). induction 1 as [|x y z Hxy _ IH]; [done|]. intros Hx.
  apply IH. by eapply He.
Qed.

Lemma sem_step_ok env (M : making) s s' :
  env_ok one_key env → (one_key = true → hidden = [] ∧ ∀ x y, ¬ env x y) →
  sem_step env s s' → sems_ok s → sems_ok s'.
Proof.
  intros He Ho [c naps knap km key n flg r s1 s2 Hn Hk E|c va km semid sops r s1 s2 Hq Hkm Ht E|t r s1 s2 [q Hq] E|c semid semnum cmd arg r s1 s2 E|c s1 s2 E] Hi.
  - destruct (semget_ok c naps knap km key n flg s1 Hi) as [(r' & s3 & E' & ?)|(s3 & E' & _)]; try congruence.
    + eapply Forall_impl; [exact Hn|]. intros f Hf. by eapply env_keeps.
    + intros id. by eapply env_keeps.
    + intros Hone. destruct (Ho Hone) as [Hh Hno]. split; [done|]. intros x. by destruct (Hk x) as [|? ? ? Hxy _]; [|destruct (Hno _ _ Hxy)].
  - destruct (enter_ok M c va km semid sops s1 Hi Hq Hkm Ht) as (r' & s3 & E' & ?). congruence.
  - destruct (resume_spec s1 t q Hi Hq) as (s3 & E' & ? & _). congruence.
  - destruct (semctl_ok c semid semnum cmd arg s1 Hi) as (r' & s3 & E' & ?). congruence.
  - destruct (exit_spec c s1 Hi) as (s3 & E' & ? & _). congruence.
Qed.

Lemma step_at_ok k : env_ok false (sem_step_at k).
Proof.
  induction k as [|k IH]; intros M s s' Ho; cbn; apply sem_step_ok; rewrite ?Ho; try done; by intros ? ? ? ?.
Qed.

Lemma steps_ok sleepy s s' :
  sem_steps sleepy s s' → sems_ok (M := at_rest (negb sleepy)) s → sems_ok (M := at_rest (negb sleepy)) s'.
Proof.
  intros [k Hk]. destruct sleepy; [by apply (step_at_ok k)|]. intros Hs.
  eapply (sem_step_ok _ (at_rest true)); [..|exact Hk|exact Hs]; [by intros ? ? ? ?|]. intros _. split; [done|]. by intros ? ? [].
Qed.

Lemma reach_ok sleepy s : rtc (sem_steps sleepy) sem_init s → sems_ok (M := at_rest (negb sleepy)) s.
Proof.
  intros H. pose proof (sem_init_ok (negb sleepy)) as H0. revert H0. induction H; [done|]. intros. eauto using steps_ok.
Qed.

(** Forgetting that keys are unique. *)
Lemma sems_ok_forget one s : sems_ok (M := at_rest one) s → sems_ok (M := at_rest false) s.
Proof. intros [I1 I2 I3 I4 I5 I6 I7 I8 I9 I10 I11 I12 I13]. by split. Qed.

(** [findkey] where no set is in the making among those it looks at. *)
Lemma findkey_plain key s fuel : ∀ id,
  (max_semid s < Z.to_nat SEMMNI)%nat → (∀ i, (i ≤ max_semid s)%nat → ∃ sl, semary s !! i = Some sl ∧ sl ≠ NoId) →
  (Z.to_nat SEMMNI - id < fuel)%nat →
  ∃ r, findkey_from fuel [] key id s = Ret r s ∧
    match r with
    | Some i => (i ≤ max_semid s)%nat ∧ ∃ sma, used_at s i sma ∧ p_key (sem_perm sma) = key
    | None => ∀ i sma, (id ≤ i ≤ max_semid s)%nat → used_at s i sma → p_key (sem_perm sma) ≠ key
    end.
Proof.
  induction fuel as [|fuel IH]; intros id Hm Hs Hf; [lia|]. cbn [findkey_from]. unfold mbind, M_bind, gets.
  destruct (Nat.ltb_spec (max_semid s) id) as [Em|Em]; [exists None; split; [done|]; lia|].
  destruct (Hs id Em) as (sl & Esl & Hno).
  assert (wait_id [] id s = Ret [] s) as ->. { cbn. unfold mbind, M_bind, gets. rewrite Esl. by destruct sl. }
  rewrite Esl. destruct (IH (S id) Hm Hs ltac:(lia)) as (r & E & Hr). destruct sl as [| |sma]; [|done|].
  - exists r. split; [done|]. destruct r; [done|]. intros i sma Hle Hu. destruct (decide (i = id)) as [->|]; [unfold used_at in Hu; congruence|].
    apply (Hr i sma); [lia|done].
  - destruct (key =? p_key (sem_perm sma)) eqn:Ek; to_prop; [exists (Some id); split_and!; [done..|by exists sma]|].
    exists r. split; [done|]. destruct r; [done|]. intros i sma1 Hle Hu. destruct (decide (i = id)) as [->|]; [unfold used_at in Hu; congruence|].
    apply (Hr i sma1); [lia|done].
Qed.

(** Slots above the highest id are free. *)
Lemma above_free s i : sems_ok (M := at_rest true) s → (max_semid s < i < Z.to_nat SEMMNI)%nat → semary s !! i = Some Unused.
Proof.
  intros Hi Hr. destruct (lookup_lt_is_Some_2 (semary s) i) as [sl E]; [rewrite (si_len _ _ _ Hi); lia|]. rewrite E. f_equal.
  destruct sl as [| |sma]; [done|..].
  - apply (si_noid _ _ _ Hi) in E. by apply elem_of_nil in E.
  - pose proof (so_max _ _ _ (si_set _ _ _ Hi _ _ E)). lia.
Qed.

Lemma first_unused_at sl k :
  (∀ i, (i < k)%nat → ∃ x, sl !! i = Some x ∧ x ≠ Unused) → sl !! k = Some Unused → first_unused sl = Some k.
Proof.
  revert k. induction sl as [|x sl IH]; intros k Hk E; [done|]. destruct k as [|k]; [by injection E as ->|].
  destruct (Hk 0%nat ltac:(lia)) as (y & [= <-] & Hy). assert (first_unused sl = Some k) as Er.
  { apply IH; [|done]. intros i Hi. apply (Hk (S i)). lia. }
  cbn. rewrite Er. by destruct x.
Qed.

(** [newary] with room, while [knap] happens. *)
Lemma newary_creates c knap key nsems semflg s id :
  nsems ≠ 0 → used_sems s + nsems ≤ SEMMNS → first_unused (semary s) = Some id →
  newary c knap true key nsems semflg s =
    (let s1 := knap (s <| semary := <[id := NoId]> (semary s) |> <| used_sems := used_sems s + nsems |>) in
     Ret (ident (sem_seq s1) id)
       (s1 <| max_semid := Nat.max id (max_semid s1) |> <| used_semids := used_semids s1 + 1 |>
           <| semary := <[id := Used (new_set c key nsems semflg (sem_seq s1))]> (semary s1) |>)).
Proof.
  intros Hn Hs Hf. unfold newary, set_slot, mbind, M_bind, gets, modify. apply Z.eqb_neq in Hn. rewrite Hn, (proj2 (Z.ltb_ge _ _)), Hf by done. done.
Qed.

Lemma semget_creates c knap key nsems semflg s :
  1 ≤ nsems ≤ SEMMSL → key ≠ IPC_PRIVATE → has semflg IPC_CREAT = true →
  (max_semid s < Z.to_nat SEMMNI)%nat → (∀ i, (i ≤ max_semid s)%nat → ∃ sma, used_at s i sma ∧ p_key (sem_perm sma) ≠ key) →
  sys_semget c [] knap true key nsems semflg s = newary c knap true key nsems semflg s.
Proof.
  intros Hn Hk Hc Hm Hall. unfold sys_semget. rewrite (proj2 (Z.ltb_ge nsems 0)), (proj2 (Z.ltb_ge SEMMSL nsems)), (proj2 (Z.eqb_neq _ _) Hk) by lia.
  cbn [orb]. unfold mbind, M_bind. destruct (findkey_plain key s (S (Z.to_nat SEMMNI)) 0) as (r & E & Hr); [done| |lia|].
  { intros i Hi. destruct (Hall i Hi) as (sma & Hu & _). by eexists. }
  unfold findkey. rewrite E. destruct r as [i|]; [|by rewrite Hc]. destruct Hr as (Hi & sma & Hu & Ek).
  destruct (Hall i Hi) as (sma' & Hu' & Hne). unfold used_at in *. congruence.
Qed.

Lemma semget_returns one c naps knap km key n flg s :
  sems_ok (M := at_rest one) s → Forall (λ nap, ∀ s, rtc (sem_steps true) s (nap s)) naps → (∀ s, rtc (sem_steps true) s (knap s)) →
  ∃ r s', sys_semget c naps knap km key n flg s = Ret r s'.
Proof.
  intros Hi%sems_ok_forget Hn Hk.
  assert (env_ok false (sem_steps true)) as He by (intros M' s1 s2 Ho' [k Hs]; by apply (step_at_ok k)).
  destruct (semget_ok (M := at_rest false) c naps knap km key n flg s) as [(r & s' & E & _)|(s' & _ & Hh)]; [done|..|by eauto|done].
  - eapply Forall_impl; [exact Hn|]. intros f Hf. by eapply env_keeps.
  - intros id. by eapply env_keeps.
  - done.
Qed.

(** ** Theorems *)

(** C9: Whatever processes do with semaphores - create sets, operate on them, sleep, wake up by
    themselves or be woken up, control and remove sets, exit - the tables stay
    consistent: all values are between 0 and [SEMVMX], no process sleeps for
    operations that could go through, every waiting process is queued in its set
    and every undo structure listed in its own, and the counters are right.
    This holds also if others make any of these calls while [semget] sleeps in
    [kmalloc] with its slot marked [IPC_NOID], or waits for such a slot, to any
    depth.  If nothing else runs during these sleeps, at most one set has a
    key.  Every call returns. *)
Theorem sem_reachable sleepy s :
  rtc (sem_steps sleepy) sem_init s →
  sems_ok (M := at_rest (negb sleepy)) s ∧
  (∀ c naps knap kmalloc key nsems semflg,
     Forall (λ nap, ∀ s, rtc (sem_steps true) s (nap s)) naps → (∀ s, rtc (sem_steps true) s (knap s)) →
     ∃ r s', sys_semget c naps knap kmalloc key nsems semflg s = Ret r s') ∧
  (∀ c va kmalloc semid sops, queues s !! c_task c = None → (∀ n, kmalloc = Some n → undos s !! n = None) → typed sops →
     ∃ r s', semop_enter c va kmalloc semid sops s = Ret r s') ∧
  (∀ t, is_Some (queues s !! t) → ∃ r s', semop_resume t s = Ret r s') ∧
  (∀ c semid semnum cmd arg, ∃ r s', sys_semctl c semid semnum cmd arg s = Ret r s') ∧
  (∀ c, ∃ s', sem_exit c s = Ret tt s').
Proof.
  intros Hi%reach_ok. split_and!; [done|..].
  - intros c naps knap km key n flg Hn Hk. by eapply semget_returns.
  - intros c va km semid sops Hq Hkm Ht. destruct (enter_ok _ c va km semid sops s Hi Hq Hkm Ht) as (r & s' & E & _). eauto.
  - intros t [q Hq]. destruct (resume_spec s t q Hi Hq) as (s' & E & _). eauto.
  - intros c semid semnum cmd arg. destruct (semctl_ok c semid semnum cmd arg s Hi) as (r & s' & E & _). eauto.
  - intros c. destruct (exit_spec c s Hi) as (s' & E & _). eauto.
Qed.

(** C23: [semop] is atomic: it is refused with an error and changes nothing, or the
    operations take effect all together, in which case it returns 0 and waiting
    processes whose operations can go through then follow one by one, or the
    caller sleeps in the queue of the set and no value has changed.  Which of
    these happens is what the operations mean on the values one after the
    other; [- ENOMEM] needs a failed allocation.  When the call is over, no
    process waits in any set for operations that could go through or that must
    fail: all that could follow have followed. *)
Theorem semop_atomic sleepy c kmalloc semid sops s :
  rtc (sem_steps sleepy) sem_init s → queues s !! c_task c = None → (∀ n, kmalloc = Some n → undos s !! n = None) → typed sops →
  ∃ r s', semop_enter c 0 kmalloc semid sops s = Ret r s' ∧
    ((∃ e, r = Some e ∧ e < 0 ∧ s' = s ∧ ¬ ∃ sma, admitted c s semid sops sma) ∨
     ∃ sma, admitted c s semid sops sma ∧
       (semop_outcome (c_task c) s s' (slot_of semid) sma sops r ∨
        existsb wants_undo sops = true ∧ kmalloc = None ∧ r = Some (- ENOMEM) ∧ s' = s)) ∧
    (∀ id sma p q, used_at s' id sma → p ∈ sem_pending sma → queues s' !! p = Some q →
       ops_run (q_sops q) (vals (sem_base sma)) = Block).
Proof.
  intros Hi%reach_ok Hq Hkm Ht.
  assert (∀ s', sems_ok (M := at_rest (negb sleepy)) s' → ∀ id sma p q, used_at s' id sma → p ∈ sem_pending sma → queues s' !! p = Some q →
    ops_run (q_sops q) (vals (sem_base sma)) = Block) as Hquiet.
  { intros s' Hi' id sma p q Hu. by apply (si_quiet _ _ _ Hi' id sma Hu). }
  destruct (admitted_or None c kmalloc s semid sops Hi) as [[sma Had]|(Hno & e & He & E)].
  - destruct (semop_enter_spec c kmalloc s semid sops sma Hi Hq Hkm Ht Had) as (r & s' & E & Hi' & Ho).
    exists r, s'. split; [done|]. split; [|by apply Hquiet]. right. by exists sma.
  - exists (Some e), s. split; [done|]. split; [|by apply Hquiet]. left. by exists e.
Qed.

(** The trial of operations in [try_semop] and its roll-back leave the array as
    it was and give the verdict of the operations applied one after the other;
    [do_semop], which repeats the tests, then applies exactly these operations, and
    takes those with [SEM_UNDO] off the adjustments. *)
Theorem trial_and_run_agree sops pid b adj :
  Forall val_ok (vals b) → Forall (op_fits (length b)) sops → adj_for (length b) sops adj →
  try_semop sops b = Ret (code (ops_run sops (vals b))) b ∧
  (try_semop sops b = Ret 0 b ↔ ∃ l, ops_run sops (vals b) = Go l ∧
     ∃ b', do_loop sops pid (MkWork b adj) = Ret tt (MkWork b' (adj_run sops <$> adj)) ∧ vals b' = l).
Proof.
  intros Hv Hf Ha. rewrite (try_semop_spec (length b)) by done. split; [done|]. split.
  - intros [= E]. destruct (ops_run sops (vals b)) as [l| |e] eqn:Er; cbn in E; [|done|apply ops_run_refuse in Er; lia]. exists l. split; [done|].
    destruct (do_loop_spec (length b) sops pid b adj l) as (b' & E' & Hv' & _); [done..|]. by exists b'.
  - intros (l & -> & _). done.
Qed.


(** A set made or found with a key is found again with it, by anyone. *)
Theorem semget_roundtrip c1 c2 kmalloc kmalloc' key nsems semflg r s s' :
  rtc (sem_steps false) sem_init s → key ≠ IPC_PRIVATE → sys_semget c1 [] (λ s, s) kmalloc key nsems semflg s = Ret r s' → 0 ≤ r →
  sys_semget c2 [] (λ s, s) kmalloc' key 0 0 s' = Ret r s'.
Proof.
  intros Hi%reach_ok Hk E Hr. destruct (semget_at_once _ c1 kmalloc key nsems semflg s Hi) as (r' & s1 & E' & Hi' & Ho). rewrite E in E'.
  injection E' as <- <-. destruct Ho as [[? _]|(_ & sma & Hu & Hs & Ek & _)]; [lia|].
  unfold sys_semget. cbn [Z.ltb]. rewrite (proj2 (Z.eqb_neq _ _) Hk). change ((0 <? 0) || (SEMMSL <? 0)) with false. cbv iota.
  unfold mbind at 1, M_bind at 1. destruct (findkey_ok key [] s' Hi') as [(found & s2 & -> & _ & Es2 & Hf)|(s2 & _ & Hh)]; [constructor| |done].
  rewrite (Es2 eq_refl) in *. destruct found as [id|]; [|by destruct (Hf eq_refl _ _ Hu)].
  destruct Hf as (sma' & Hu' & Ek'). assert (id = slot_of r) as -> by (eapply (si_keys _ _ _ Hi'); [done..|congruence|congruence]).
  assert (sma' = sma) as -> by (unfold used_at in *; congruence). change (has 0 IPC_CREAT) with false. cbn [andb].
  unfold mbind, M_bind. rewrite (ld_sma_run s' _ sma Hu). destruct (so_nsems _ _ _ (si_set _ _ _ Hi' _ _ Hu)) as [_ Hn].
  rewrite (proj2 (Z.ltb_ge _ _)) by lia. replace (ipcperms c2 (sem_perm sma) 0) with false.
  - rewrite Hs, semid_ident. done.
  - unfold ipcperms. by destruct (fst _).
Qed.

(** Two processes can each make a set with the same key: while one of them sleeps
    in [newary] for memory, its slot lies above [max_semid], where [findkey] does
    not look. *)
Theorem semget_same_key_twice c1 c2 key nsems semflg s :
  rtc (sem_steps false) sem_init s → 1 ≤ nsems ≤ SEMMSL → key ≠ IPC_PRIVATE → has semflg IPC_CREAT = true →
  (∀ i, (i ≤ max_semid s)%nat → ∃ sma, used_at s i sma ∧ p_key (sem_perm sma) ≠ key) →
  used_sems s + 2 * nsems ≤ SEMMNS → (S (S (max_semid s)) < Z.to_nat SEMMNI)%nat →
  let other := λ s, match sys_semget c2 [] (λ s, s) true key nsems semflg s with Ret _ s' | Stuck _ s' => s' end in
  ∃ r s' id1 id2 sma1 sma2, sys_semget c1 [] other true key nsems semflg s = Ret r s' ∧ 0 ≤ r ∧
    used_at s' id1 sma1 ∧ used_at s' id2 sma2 ∧ id1 ≠ id2 ∧ p_key (sem_perm sma1) = key ∧ p_key (sem_perm sma2) = key.
Proof.
  intros Hi%reach_ok Hn Hk Hc Hall Hroom Hm other. set (m := max_semid s) in *.
  assert (first_unused (semary s) = Some (S m)) as Hf1.
  { apply first_unused_at; [|apply above_free; [done|unfold m in *; lia]]. intros i Hlt. destruct (Hall i ltac:(lia)) as (sma & Hu & _). by exists (Used sma). }
  rewrite semget_creates by (done || unfold m in *; lia). rewrite (newary_creates _ _ _ _ _ _ (S m)) by (done || lia). cbv zeta.
  set (s1 := s <| semary := _ |> <| used_sems := _ |>).
  assert (∀ i, i ≠ S m → semary s1 !! i = semary s !! i) as Hs1 by (intros i Hne; by apply list_lookup_insert_ne).
  assert (semary s1 !! S m = Some NoId) as Hno.
  { apply list_lookup_insert_eq. rewrite (si_len _ _ _ Hi). lia. }
  assert (first_unused (semary s1) = Some (S (S m))) as Hf2.
  { apply first_unused_at; [|rewrite Hs1 by lia; apply above_free; [done|unfold m in *; lia]]. intros i Hlt.
    destruct (decide (i = S m)) as [->|Hne]; [by exists NoId|]. rewrite Hs1 by done. destruct (Hall i ltac:(lia)) as (sma & Hu & _). by exists (Used sma). }
  assert (∃ s2, other s1 = s2 ∧ sem_seq s2 = sem_seq s ∧ semary s2 = <[S (S m) := Used (new_set c2 key nsems semflg (sem_seq s))]> (<[S (S m) := NoId]> (semary s1)))
    as (s2 & -> & Hq2 & Ha2).
  { unfold other. rewrite semget_creates; try done.
    - rewrite (newary_creates _ _ _ _ _ _ (S (S m))); [by eexists|lia|cbn; lia|done].
    - cbn. unfold m in *. lia.
    - intros i Hle. change (max_semid s1) with m in Hle. destruct (Hall i Hle) as (sma & Hu & Hne). exists sma. split; [|done].
      unfold used_at. by rewrite Hs1 by lia. }
  eexists _, _, (S m), (S (S m)), (new_set c1 key nsems semflg (sem_seq s)), (new_set c2 key nsems semflg (sem_seq s)). split; [reflexivity|]. rewrite Hq2. assert (length (semary s) = Z.to_nat SEMMNI) as Hlen by apply Hi.
  assert (length (semary s1) = Z.to_nat SEMMNI) as Hlen1 by (cbn; by rewrite length_insert).
  split_and!; [pose proof (si_vars _ _ _ Hi); unfold ident, SEMMNI; lia|..|lia|done|done].
  - unfold used_at. cbn [semary]. change (<[S m := Used (new_set c1 key nsems semflg (sem_seq s))]> (semary s2) !! S m = Some (Used (new_set c1 key nsems semflg (sem_seq s)))).
    rewrite Ha2. apply list_lookup_insert_eq. rewrite !length_insert, Hlen1. lia.
  - unfold used_at. change (<[S m := Used (new_set c1 key nsems semflg (sem_seq s))]> (semary s2) !! S (S m) = Some (Used (new_set c2 key nsems semflg (sem_seq s)))).
    rewrite Ha2, list_lookup_insert_ne, list_lookup_insert_eq; [reflexivity|rewrite length_insert, Hlen1; lia|lia].
Qed.

(** ** Examples *)

Definition sample_user : cred := MkCred 1000 1000 1000 1000 100 100 100 100 [] false 1 [] 18.
Definition sample_caller (t : Z) : caller := MkCaller t sample_user (100 + t) 0.

(** Two semaphores under key 7. *)
Definition sample_sems : semid_ds := new_set (sample_caller 1) 7 2 (512 + 438) 0.
Definition sample_set : ss := created sem_init 0 sample_sems.

Lemma sample_reach sleepy : rtc (sem_steps sleepy) sem_init sample_set.
Proof.
  apply rtc_once. exists 0%nat. replace (if sleepy then 0%nat else 0%nat) with 0%nat by (by destruct sleepy). cbn [sem_step_at].
  apply (st_get _ (sample_caller 1) [] (λ s, s) true 7 2 (512 + 438) 0); [constructor|constructor|vm_compute; reflexivity].
Qed.

Lemma sample_admitted : admitted (sample_caller 2) sample_set 0 [MkBuf 1 (-1) 0] sample_sems.
Proof. split; try done; repeat constructor; done. Qed.

Lemma sem_reachable_witness :
  ∃ s, rtc (sem_steps true) sem_init s ∧ sems_ok (M := at_rest false) s ∧ is_Some (queues s !! 2) ∧ ∃ r s', semop_resume 2 s = Ret r s'.
Proof.
  assert (∃ s, semop_enter (sample_caller 2) 0 None 0 [MkBuf 1 (-1) 0] sample_set = Ret None s ∧ is_Some (queues s !! 2)) as (s & E & Hq).
  { eexists. split; [vm_compute; reflexivity|vm_compute; by eexists]. }
  assert (rtc (sem_steps true) sem_init s) as Hr.
  { eapply rtc_r; [apply sample_reach|]. exists 0%nat. eapply st_op; [reflexivity|done| |exact E]. by repeat constructor. }
  destruct (sem_reachable true s Hr) as (Hi & _ & _ & Hw & _). exists s. split_and!; try done. by apply Hw.
Defined.

Lemma semop_atomic_witness :
  ∃ s' sma', semop_enter (sample_caller 2) 0 None 0 [MkBuf 1 (-1) 0] sample_set = Ret None s' ∧
    used_at s' 0 sma' ∧ vals (sem_base sma') = [0; 0] ∧ sem_pending sma' = [2].
Proof.
  destruct (semop_atomic true (sample_caller 2) None 0 [MkBuf 1 (-1) 0] sample_set) as (r & s' & E & H & _);
    [apply sample_reach|reflexivity|done|by repeat constructor|].
  destruct H as [(e & _ & _ & _ & Hno)|(sma & Had & H)]; [by destruct Hno; exists sample_sems; apply sample_admitted|].
  destruct Had as [_ _ Hu _ _ _]. change (used_at sample_set 0 sma) in Hu. injection Hu as <-. destruct H as [H|[? _]]; [|done].
  destruct H as (-> & sma' & q & Hu' & Hv & Hp & _). exists s', sma'. done.
Defined.

Lemma trial_and_run_agree_witness :
  let b := [MkSem 5 0; MkSem 0 0] in
  ∃ b', do_loop [MkBuf 0 (-3) 4096; MkBuf 1 3 0] 9 (MkWork b (Some [0; 0])) = Ret tt (MkWork b' (Some [3; 0])) ∧ vals b' = [2; 3].
Proof.
  intros b. destruct (trial_and_run_agree [MkBuf 0 (-3) 4096; MkBuf 1 3 0] 9 b (Some [0; 0])) as [_ [H _]].
  - repeat constructor; done.
  - repeat constructor; done.
  - done.
  - destruct H as (l & Hl & b' & E & Hv); [reflexivity|]. vm_compute in Hl. injection Hl as <-. by exists b'.
Defined.


Lemma semget_roundtrip_witness :
  sys_semget (sample_caller 9) [] (λ s, s) false 7 0 0 sample_set = Ret 0 sample_set.
Proof.
  apply (semget_roundtrip (sample_caller 1) (sample_caller 9) true false 7 2 (512 + 438) 0 sem_init); [constructor|done| |done].
  vm_compute. reflexivity.
Defined.

Lemma semget_same_key_twice_witness :
  let other := λ s, match sys_semget (sample_caller 2) [] (λ s, s) true 8 1 (512 + 438) s with Ret _ s' | Stuck _ s' => s' end in
  ∃ r s' id1 id2 sma1 sma2, sys_semget (sample_caller 1) [] other true 8 1 (512 + 438) sample_set = Ret r s' ∧ 0 ≤ r ∧
    used_at s' id1 sma1 ∧ used_at s' id2 sma2 ∧ id1 ≠ id2 ∧ p_key (sem_perm sma1) = 8 ∧ p_key (sem_perm sma2) = 8.
Proof.
  apply (semget_same_key_twice (sample_caller 1) (sample_caller 2) 8 1 (512 + 438) sample_set); try done.
  - apply sample_reach.
  - intros i Hi. change (max_semid sample_set) with 0%nat in Hi. assert (i = 0%nat) as -> by lia. by exists sample_sems.
  - cbn. unfold SEMMNI. lia.
Defined.
