(* ===== verification/Msg.v ===== *)
(** * Msg: System V message queues

    Models ipc/msg.c as the default configuration builds it, without
    CONFIG_KERNELD: [kerneld_send] is empty then, so that no call comes from the
    kernel, with IPC_KERNELD set, and the timer [kd_timeout] is never started;
    the queue that a kerneld process can make for itself is modelled.

    Queues and messages are kept by their addresses; a table entry holds the
    address of its queue, and a process that sleeps remembers it.  [msgsnd] and
    [msgrcv] are in two parts, up to the first look at the queue and from
    [slept] or the head of the loop on, which happens again after each sleep;
    [None] means that the process sleeps.  [freeque] is in two parts too: before
    and after it has waited for all sleepers to leave.  [kmalloc] is the address
    it returns.  The caller's memory is resident. *)

From stdpp Require Import gmap.
From S2P Require Import Prelude Cred Sem.

(** ** Code *)

Definition ENOMSG : Z := 42.

Definition MSG_NOERROR : Z := 0x1000.
Definition MSG_EXCEPT : Z := 0x2000.
Definition OLDIPC_KERNELD : Z := 0x4000.
Definition IPC_KERNELD : Z := 0xc000.
Definition MSG_STAT : Z := 11.
Definition MSG_INFO : Z := 12.
Definition MSGMNI : Z := 128.
Definition MSGMAX : Z := 4056.
Definition MSGMNB : Z := 16384.
Definition MSGPOOL : Z := MSGMNI * MSGMNB / 1024.
Definition MSGTQL : Z := MSGMNB.
Definition MSGMAP : Z := MSGMNB.
Definition MSG_FLUSH_TIME : Z := 10.
Definition MAX_KERNELDS : nat := 20.
Definition S_IRWXU : Z := 0x1c0.

Record msg := MkMsg { msg_next : Z; msg_type : Z; msg_text : list Z; m_stime : Z; msg_ts : Z }.

Record msqid_ds := MkMsq {
  msg_perm : ipc_perm; msg_first : Z; msg_last : Z;
  msg_stime : Z; msg_rtime : Z; msg_ctime : Z;
  msg_cbytes : Z; msg_qnum : Z; msg_qbytes : Z; msg_lspid : Z; msg_lrpid : Z;
}.

(** An entry of [msgque]. *)
Inductive mslot := MUnused | MNoId | MUsed (a : Z).

Record ms := MkMs {
  msgque : list mslot;
  msgbytes : Z; msghdrs : Z; msg_seq : Z; used_queues : Z; max_msqid : nat;
  kerneld_msqid : Z; kerneld_arr : list Z; n_kernelds : Z;
  mqs : gmap Z msqid_ds;
  msgs : gmap Z msg;
}.

#[global] Instance eta_msg : Eta msg := λ x, MkMsg (msg_next x) (msg_type x) (msg_text x) (m_stime x) (msg_ts x).
#[global] Instance eta_msqid_ds : Eta msqid_ds := λ x,
  MkMsq (msg_perm x) (msg_first x) (msg_last x) (msg_stime x) (msg_rtime x) (msg_ctime x)
    (msg_cbytes x) (msg_qnum x) (msg_qbytes x) (msg_lspid x) (msg_lrpid x).
#[global] Instance eta_ms : Eta ms := λ x,
  MkMs (msgque x) (msgbytes x) (msghdrs x) (msg_seq x) (used_queues x) (max_msqid x)
    (kerneld_msqid x) (kerneld_arr x) (n_kernelds x) (mqs x) (msgs x).

Definition msg_init : ms :=
  MkMs (replicate (Z.to_nat MSGMNI) MUnused) 0 0 0 0 0 (-1) (replicate MAX_KERNELDS 0) 0 ∅ ∅.

Definition ld_msq (a : Z) : M ms msqid_ds := λ s,
  match mqs s !! a with Some q => Ret q s | None => Stuck NullDeref s end.
Definition st_msq (a : Z) (f : msqid_ds → msqid_ds) : M ms unit := modify (λ s, s <| mqs := alter f a (mqs s) |>).
Definition ld_msg (m : Z) : M ms msg := λ s,
  match msgs s !! m with Some x => Ret x s | None => Stuck NullDeref s end.
Definition st_msg (m : Z) (f : msg → msg) : M ms unit := modify (λ s, s <| msgs := alter f m (msgs s) |>).
Definition free_msg (m : Z) : M ms unit := modify (λ s, s <| msgs := delete m (msgs s) |>).

Definition m_ident (seq : Z) (id : nat) : Z := seq * MSGMNI + Z.of_nat id.
Definition m_slot (msqid : Z) : nat := Z.to_nat (msqid mod MSGMNI).
Definition m_seq (msqid : Z) : Z := msqid / MSGMNI.

(** *** Sending *)

Fixpoint flush_loop (fuel : nat) (now a : Z) : M ms unit :=
  match fuel with
  | O => halt OutOfFuel
  | S fuel' =>
      q ← ld_msq a;
      if msg_first q =? 0 then mret tt
      else
        m ← ld_msg (msg_first q);
        if MSG_FLUSH_TIME <? now - m_stime m then
          modify (λ s, s <| msgbytes := msgbytes s - msg_ts m |> <| msghdrs := msghdrs s - 1 |>) ;;
          st_msq a (λ q, q <| msg_cbytes := u16 (msg_cbytes q - msg_ts m) |> <| msg_qnum := u16 (msg_qnum q - 1) |>
                           <| msg_first := msg_next m |>) ;;
          free_msg (msg_first q) ;;
          flush_loop fuel' now a
        else mret tt
  end.

Definition flush_msg (now a : Z) : M ms unit :=
  n ← gets (λ s, Datatypes.length (map_to_list (msgs s)));
  flush_loop (S n) now a ;;
  q ← ld_msq a;
  when (msg_qnum q =? 0) (st_msq a (λ q, q <| msg_first := 0 |> <| msg_last := 0 |>)).

(** A sender: what it sends and how, whether a signal is pending, and
    [intr_count]. *)
Record sender := MkSender {
  s_caller : caller; s_msqid : Z; s_type : Z; s_text : list Z; s_size : Z; s_flg : Z; s_signal : bool; s_intr : bool;
}.

(** The message joins the queue. *)
Definition enqueue (x : sender) (a m : Z) : M ms unit :=
  modify (λ s, s <| msgs := <[m := MkMsg 0 (s_type x) (take (Z.to_nat (s_size x)) (s_text x)) (c_now (s_caller x)) (s_size x)]> (msgs s) |>) ;;
  q ← ld_msq a;
  (if msg_first q =? 0 then st_msq a (λ q, q <| msg_first := m |> <| msg_last := m |>)
   else st_msg (msg_last q) (λ y, y <| msg_next := m |>) ;; st_msq a (λ q, q <| msg_last := m |>)) ;;
  st_msq a (λ q, q <| msg_cbytes := u16 (msg_cbytes q + s_size x) |>) ;;
  modify (λ s, s <| msgbytes := msgbytes s + s_size x |> <| msghdrs := msghdrs s + 1 |>) ;;
  st_msq a (λ q, q <| msg_qnum := u16 (msg_qnum q + 1) |> <| msg_lspid := u16 (c_pid (s_caller x)) |> <| msg_stime := c_now (s_caller x) |>).

(** From the second look at the free space on. *)
Definition send_room (x : sender) (kmalloc a : Z) : M ms (option Z) :=
  q ← ld_msq a;
  if msg_qbytes q <? s_size x + msg_cbytes q then
    mret (if has (s_flg x) IPC_NOWAIT then Some (- EAGAIN)
          else if s_signal x then Some (- EINTR)
          else if s_intr x then Some (- EINTR)
          else None)
  else if kmalloc =? 0 then mret (Some (- ENOMEM))
  else
    sl ← gets (λ s, msgque s !! m_slot (s_msqid x));
    match sl with
    | Some (MUsed _) =>
        if negb (p_seq (msg_perm q) =? m_seq (s_msqid x)) then mret (Some (- EIDRM))
        else enqueue x a kmalloc ;; mret (Some 0)
    | _ => mret (Some (- EIDRM))
    end.

(** From [slept] on. *)
Definition send_slept (x : sender) (kmalloc a : Z) : M ms (option Z) :=
  q ← ld_msq a;
  if negb (p_seq (msg_perm q) =? m_seq (s_msqid x)) then mret (Some (- EIDRM))
  else if ipcperms (s_caller x) (msg_perm q) S_IWUGO then mret (Some (- EACCES))
  else
    kd ← gets kerneld_msqid;
    when ((msg_qbytes q <? s_size x + msg_cbytes q) && (negb (kd =? -1) && (kd =? s_msqid x)))
      (flush_msg (c_now (s_caller x)) a) ;;
    send_room x kmalloc a.

(** [va] is what [verify_area] says, [- EFAULT] also for a null pointer. *)
Definition sys_msgsnd (x : sender) (va kmalloc : Z) : M ms (option Z) :=
  if (MSGMAX <? s_size x) || (s32 (s_size x) <? 0) || (s_msqid x <? 0) then mret (Some (- EINVAL))
  else if negb (va =? 0) then mret (Some va)
  else if s_type x <? 1 then mret (Some (- EINVAL))
  else
    sl ← gets (λ s, msgque s !! m_slot (s_msqid x));
    match sl with
    | Some (MUsed a) => send_slept x kmalloc a
    | Some _ => mret (Some (- EINVAL))
    | None => halt OutOfBounds
    end.

(** *** Receiving *)

Record receiver := MkReceiver { r_caller : caller; r_msqid : Z; r_size : Z; r_type : Z; r_flg : Z; r_signal : bool }.

(** The first message from [m] on that passes the test; 0 if there is none. *)
Fixpoint find_msg (fuel : nat) (test : Z → bool) (m : Z) : M ms Z :=
  match fuel with
  | O => halt OutOfFuel
  | S fuel' =>
      if m =? 0 then mret 0
      else x ← ld_msg m; if test (msg_type x) then mret m else find_msg fuel' test (msg_next x)
  end.

(** The first of the messages with the least type. *)
Fixpoint least_msg (fuel : nat) (leastp tmsg : Z) : M ms Z :=
  match fuel with
  | O => halt OutOfFuel
  | S fuel' =>
      if tmsg =? 0 then mret leastp
      else
        t ← ld_msg tmsg;
        l ← ld_msg leastp;
        least_msg fuel' (if msg_type t <? msg_type l then tmsg else leastp) (msg_next t)
  end.

Definition select_msg (q : msqid_ds) (msgtyp flg : Z) : M ms Z :=
  n ← gets (λ s, Datatypes.length (map_to_list (msgs s)));
  if msgtyp =? 0 then mret (msg_first q)
  else if 0 <? msgtyp then
    find_msg (S n) (λ t, if has flg MSG_EXCEPT then negb (t =? msgtyp) else t =? msgtyp) (msg_first q)
  else
    leastp ← least_msg (S n) (msg_first q) (msg_first q);
    if leastp =? 0 then mret 0
    else x ← ld_msg leastp; mret (if msg_type x <=? s32 (- msgtyp) then leastp else 0).

(** The message whose successor is [nmsg]. *)
Fixpoint before_msg (fuel : nat) (nmsg tmsg : Z) : M ms Z :=
  match fuel with
  | O => halt OutOfFuel
  | S fuel' =>
      if tmsg =? 0 then mret 0
      else x ← ld_msg tmsg; if msg_next x =? nmsg then mret tmsg else before_msg fuel' nmsg (msg_next x)
  end.

(** The message is taken off the list. *)
Definition unlink_msg (a nmsg : Z) : M ms unit :=
  q ← ld_msq a;
  m ← ld_msg nmsg;
  if nmsg =? msg_first q then st_msq a (λ q, q <| msg_first := msg_next m |>)
  else
    n ← gets (λ s, Datatypes.length (map_to_list (msgs s)));
    tmsg ← before_msg (S n) nmsg (msg_first q);
    ld_msg tmsg ;;
    st_msg tmsg (λ y, y <| msg_next := msg_next m |>) ;;
    when (nmsg =? msg_last q) (st_msq a (λ q, q <| msg_last := tmsg |>)).

(** The message leaves the queue. *)
Definition dequeue (x : receiver) (a nmsg : Z) : M ms unit :=
  m ← ld_msg nmsg;
  unlink_msg a nmsg ;;
  st_msq a (λ q, q <| msg_qnum := u16 (msg_qnum q - 1) |>) ;;
  q ← ld_msq a;
  when (msg_qnum q =? 0) (st_msq a (λ q, q <| msg_last := 0 |> <| msg_first := 0 |>)) ;;
  st_msq a (λ q, q <| msg_rtime := c_now (r_caller x) |> <| msg_lrpid := u16 (c_pid (r_caller x)) |>) ;;
  modify (λ s, s <| msgbytes := msgbytes s - msg_ts m |> <| msghdrs := msghdrs s - 1 |>) ;;
  st_msq a (λ q, q <| msg_cbytes := u16 (msg_cbytes q - msg_ts m) |>) ;;
  free_msg nmsg.

(** What the caller gets: the result and the message's type and text. *)
Definition received : Type := Z * option (Z * list Z).

(** From the head of the loop on. *)
Definition recv_slept (x : receiver) (a : Z) : M ms (option received) :=
  q ← ld_msq a;
  if negb (p_seq (msg_perm q) =? m_seq (r_msqid x)) then mret (Some (- EIDRM, None))
  else if ipcperms (r_caller x) (msg_perm q) S_IRUGO then mret (Some (- EACCES, None))
  else
    nmsg ← select_msg q (r_type x) (r_flg x);
    if negb (nmsg =? 0) then
      m ← ld_msg nmsg;
      if (r_size x <? msg_ts m) && negb (has (r_flg x) MSG_NOERROR) then mret (Some (- E2BIG, None))
      else
        let msgsz := if msg_ts m <? r_size x then msg_ts m else r_size x in
        dequeue x a nmsg ;;
        mret (Some (msgsz, Some (msg_type m, take (Z.to_nat msgsz) (msg_text m))))
    else
      mret (if has (r_flg x) IPC_NOWAIT then Some (- ENOMSG, None)
            else if r_signal x then Some (- EINTR, None)
            else None).

Definition sys_msgrcv (x : receiver) (va : Z) : M ms (option received) :=
  if (r_msqid x <? 0) || (s32 (r_size x) <? 0) then mret (Some (- EINVAL, None))
  else if negb (va =? 0) then mret (Some (va, None))
  else
    sl ← gets (λ s, msgque s !! m_slot (r_msqid x));
    match sl with
    | Some (MUsed a) => recv_slept x a
    | Some _ => mret (Some (- EINVAL, None))
    | None => halt OutOfBounds
    end.

(** *** Creating a queue *)

Definition set_mslot (id : nat) (sl : mslot) : M ms unit := modify (λ s, s <| msgque := <[id := sl]> (msgque s) |>).

Fixpoint m_wait_id (naps : list (ms → ms)) (id : nat) : M ms (list (ms → ms)) :=
  sl ← gets (λ s, msgque s !! id);
  match sl, naps with
  | Some MNoId, [] => halt Asleep
  | Some MNoId, n :: naps' => modify n ;; m_wait_id naps' id
  | _, _ => mret naps
  end.

Fixpoint m_findkey_from (fuel : nat) (naps : list (ms → ms)) (key : Z) (id : nat) : M ms (option nat) :=
  match fuel with
  | O => halt OutOfFuel
  | S fuel' =>
      max ← gets max_msqid;
      if (max <? id)%nat then mret None
      else
        naps ← m_wait_id naps id;
        sl ← gets (λ s, msgque s !! id);
        match sl with
        | Some (MUsed a) => q ← ld_msq a; if key =? p_key (msg_perm q) then mret (Some id) else m_findkey_from fuel' naps key (S id)
        | Some _ => m_findkey_from fuel' naps key (S id)
        | None => halt OutOfBounds
        end
  end.

Definition m_findkey (naps : list (ms → ms)) (key : Z) : M ms (option nat) :=
  m_findkey_from (S (Z.to_nat MSGMNI)) naps key 0.

Fixpoint m_first_unused (sl : list mslot) : option nat :=
  match sl with
  | [] => None
  | MUnused :: _ => Some O
  | _ :: sl' => S <$> m_first_unused sl'
  end.

(** [knap] is what others do while [kmalloc] sleeps. *)
Definition newque (c : caller) (knap : ms → ms) (kmalloc key msgflg : Z) : M ms Z :=
  free ← gets (λ s, m_first_unused (msgque s));
  match free with
  | None => mret (- ENOSPC)
  | Some id =>
      set_mslot id MNoId ;;
      modify knap ;;
      if kmalloc =? 0 then set_mslot id MUnused ;; mret (- ENOMEM)
      else
        seq ← gets msg_seq;
        let e := euid (c_cred c) in
        let g := egid (c_cred c) in
        modify (λ s, s <| mqs := <[kmalloc := MkMsq (MkPerm key e g e g (Z.land msgflg S_IRWXUGO) seq) 0 0 0 0 (c_now c) 0 0 MSGMNB 0 0]> (mqs s) |>
                       <| max_msqid := Nat.max id (max_msqid s) |>) ;;
        set_mslot id (MUsed kmalloc) ;;
        modify (λ s, s <| used_queues := used_queues s + 1 |>) ;;
        mret (m_ident seq id)
  end.

(** The first free place among the kerneld processes. *)
Fixpoint add_kerneld (pid : Z) (i : nat) (arr : list Z) : M ms Z :=
  match arr with
  | [] => mret (- ENOSPC)
  | p :: arr' =>
      if p =? 0 then
        modify (λ s, s <| kerneld_arr := <[i := pid]> (kerneld_arr s) |> <| n_kernelds := n_kernelds s + 1 |>) ;;
        gets kerneld_msqid
      else add_kerneld pid (S i) arr'
  end.

Definition msgget_kerneld (c : caller) (knap : ms → ms) (kmalloc msgflg : Z) : M ms Z :=
  if negb (fst (suser (c_cred c))) then mret (- EPERM)
  else if Z.land msgflg IPC_KERNELD =? OLDIPC_KERNELD then mret (- EPERM)
  else
    kd ← gets kerneld_msqid;
    when (kd =? -1) (r ← newque c knap kmalloc IPC_PRIVATE (Z.land msgflg S_IRWXU); modify (λ s, s <| kerneld_msqid := r |>)) ;;
    r ← gets kerneld_msqid;
    if (kd =? -1) && (r <? 0) then mret (- ENOSPC)
    else arr ← gets kerneld_arr; add_kerneld (c_pid c) 0 arr.

Definition sys_msgget (c : caller) (naps : list (ms → ms)) (knap : ms → ms) (kmalloc key msgflg : Z) : M ms Z :=
  if has msgflg IPC_KERNELD then msgget_kerneld c knap kmalloc msgflg
  else if key =? IPC_PRIVATE then newque c knap kmalloc key msgflg
  else
    found ← m_findkey naps key;
    match found with
    | None => if negb (has msgflg IPC_CREAT) then mret (- ENOENT) else newque c knap kmalloc key msgflg
    | Some id =>
        if has msgflg IPC_CREAT && has msgflg IPC_EXCL then mret (- EEXIST)
        else
          sl ← gets (λ s, msgque s !! id);
          match sl with
          | Some (MUsed a) =>
              q ← ld_msq a;
              if ipcperms c (msg_perm q) msgflg then mret (- EACCES) else mret (m_ident (p_seq (msg_perm q)) id)
          | _ => mret (- EIDRM)
          end
    end.

(** *** Removing and controlling *)

(** [while (max_msqid && (msgque[--max_msqid] == IPC_UNUSED));] *)
Fixpoint m_lower (sl : list mslot) (max : nat) : nat :=
  match max with
  | O => O
  | S m => match sl !! m with Some MUnused => m_lower sl m | _ => m end
  end.

(** Up to the wait for those who sleep on the queue, which is returned. *)
Definition freeque_start (id : nat) (a : Z) : M ms Z :=
  q ← ld_msq a;
  st_msq a (λ q, q <| msg_perm := (msg_perm q) <| p_seq := u16 (p_seq (msg_perm q) + 1) |> |>) ;;
  modify (λ s, s <| msg_seq := u16 ((msg_seq s + 1) mod (2 ^ 31 / MSGMNI)) |>
                 <| msgbytes := msgbytes s - msg_cbytes q |>
                 <| max_msqid := if (id =? max_msqid s)%nat then m_lower (msgque s) (max_msqid s) else max_msqid s |>) ;;
  set_mslot id MUnused ;;
  modify (λ s, s <| used_queues := used_queues s - 1 |>) ;;
  mret a.

Fixpoint free_msgs (fuel : nat) (m : Z) : M ms unit :=
  match fuel with
  | O => halt OutOfFuel
  | S fuel' =>
      if m =? 0 then mret tt
      else
        x ← ld_msg m;
        modify (λ s, s <| msghdrs := msghdrs s - 1 |>) ;;
        free_msg m ;;
        free_msgs fuel' (msg_next x)
  end.

Definition freeque_end (a : Z) : M ms unit :=
  q ← ld_msq a;
  n ← gets (λ s, Datatypes.length (map_to_list (msgs s)));
  free_msgs (S n) (msg_first q) ;;
  modify (λ s, s <| mqs := delete a (mqs s) |>).

(** What [buf] points to: what [verify_area] says ([- EFAULT] also for a null
    pointer), and the limit, owner, group and mode of an [IPC_SET]. *)
Record msqbuf := MkBufArg { b_va : Z; b_qbytes : Z; b_uid : Z; b_gid : Z; b_mode : Z }.

(** What is copied to the caller; of [struct msginfo] the fields that vary. *)
Inductive mreply :=
  | MNone
  | MInfo (msgpool msgmap msgtql : Z)
  | MStat (q : msqid_ds)
  | MRemove (a : Z).

Definition m_control (c : caller) (p : ipc_perm) : bool :=
  fst (suser (c_cred c)) || (euid (c_cred c) =? p_cuid p) || (euid (c_cred c) =? p_uid p).

Definition mctl_info (cmd : Z) (buf : msqbuf) : M ms (Z * mreply) :=
  s ← gets (λ s, s);
  if negb (b_va buf =? 0) then mret (b_va buf, MNone)
  else
    mret (Z.of_nat (max_msqid s),
      if cmd =? MSG_INFO then MInfo (used_queues s) (msghdrs s) (msgbytes s) else MInfo MSGPOOL MSGMAP MSGTQL).

Definition mctl_stat (c : caller) (msqid : Z) (buf : msqbuf) : M ms (Z * mreply) :=
  if negb (b_va buf =? 0) then mret (b_va buf, MNone)
  else
    s ← gets (λ s, s);
    if Z.of_nat (max_msqid s) <? msqid then mret (- EINVAL, MNone)
    else
      match msgque s !! Z.to_nat msqid with
      | Some (MUsed a) =>
          q ← ld_msq a;
          if ipcperms c (msg_perm q) S_IRUGO then mret (- EACCES, MNone)
          else mret (m_ident (p_seq (msg_perm q)) (Z.to_nat msqid), MStat q)
      | Some _ => mret (- EINVAL, MNone)
      | None => halt OutOfBounds
      end.

Definition mctl_set (c : caller) (a : Z) (q : msqid_ds) (buf : msqbuf) : M ms Z :=
  if negb (m_control c (msg_perm q)) then mret (- EPERM)
  else if (MSGMNB <? b_qbytes buf) && negb (fst (suser (c_cred c))) then mret (- EPERM)
  else
    st_msq a (λ q, q <| msg_qbytes := b_qbytes buf |>
      <| msg_perm := (msg_perm q) <| p_uid := b_uid buf |> <| p_gid := b_gid buf |>
           <| p_mode := Z.lor (clr (p_mode (msg_perm q)) S_IRWXUGO) (Z.land S_IRWXUGO (b_mode buf)) |> |>
      <| msg_ctime := c_now c |>) ;;
    mret 0.

(** A removal answers with the queue whose sleepers are waited for. *)
Definition sys_msgctl (c : caller) (msqid cmd : Z) (buf : msqbuf) : M ms (Z * mreply) :=
  if (msqid <? 0) || (cmd <? 0) then mret (- EINVAL, MNone)
  else if (cmd =? IPC_INFO) || (cmd =? MSG_INFO) then mctl_info cmd buf
  else if cmd =? MSG_STAT then mctl_stat c msqid buf
  else if ((cmd =? IPC_SET) || (cmd =? IPC_STAT)) && negb (b_va buf =? 0) then mret (b_va buf, MNone)
  else
    let id := m_slot msqid in
    sl ← gets (λ s, msgque s !! id);
    match sl with
    | Some (MUsed a) =>
        q ← ld_msq a;
        if negb (p_seq (msg_perm q) =? m_seq msqid) then mret (- EIDRM, MNone)
        else if cmd =? IPC_STAT then
          mret (if ipcperms c (msg_perm q) S_IRUGO then (- EACCES, MNone) else (0, MStat q))
        else if cmd =? IPC_SET then r ← mctl_set c a q buf; mret (r, MNone)
        else if cmd =? IPC_RMID then
          if negb (m_control c (msg_perm q)) then mret (- EPERM, MNone)
          else
            kd ← gets kerneld_msqid;
            when ((0 <=? kd) && (msqid =? kd)) (modify (λ s, s <| kerneld_msqid := -1 |>)) ;;
            r ← freeque_start id a;
            mret (0, MRemove r)
        else mret (- EINVAL, MNone)
    | Some _ => mret (- EINVAL, MNone)
    | None => halt OutOfBounds
    end.

(** The place of a kerneld process that exits; the queue goes with the last one. *)
Fixpoint find_kerneld (pid : Z) (arr : list Z) : option nat :=
  match arr with
  | [] => None
  | p :: arr' => if p =? pid then Some O else S <$> find_kerneld pid arr'
  end.

Definition kerneld_exit (c : caller) : M ms (option Z) :=
  kd ← gets kerneld_msqid;
  if kd =? -1 then mret None
  else
    arr ← gets kerneld_arr;
    match find_kerneld (c_pid c) arr with
    | None => mret None
    | Some i =>
        modify (λ s, s <| kerneld_arr := <[i := 0]> (kerneld_arr s) |> <| n_kernelds := n_kernelds s - 1 |>) ;;
        n ← gets n_kernelds;
        if n =? 0 then
          r ← sys_msgctl c kd IPC_RMID (MkBufArg (- EFAULT) 0 0 0 0);
          mret (match snd r with MRemove a => Some a | _ => None end)
        else mret None
    end.
