(* ===== verification/MsgFacts.v ===== *)
(** * MsgFacts: what sending and receiving do to a queue

    A queue is a list of messages linked by their addresses.  Sending appends to
    the list, receiving removes the message that [picks] describes, and the flush
    of the kerneld queue removes old messages from its front; the counters of the
    queue and of the system follow ([qstep]). *)

From stdpp Require Import gmap.
From S2P Require Import Prelude Cred Sem Msg.

(** ** Specification *)

(** The messages [l] with their addresses, linked from [m] up to [z]. *)
Fixpoint seg (H : gmap Z msg) (m : Z) (l : list (Z * msg)) (z : Z) : Prop :=
  match l with
  | [] => m = z
  | (b, x) :: l' => m = b ∧ b ≠ 0 ∧ H !! b = Some x ∧ seg H (msg_next x) l' z
  end.

Definition bytes (l : list (Z * msg)) : Z := sumZ (λ p, msg_ts p.2) l.

Definition content (p : Z * msg) : Z * list Z := (msg_type p.2, msg_text p.2).

Definition msg_ok (p : Z * msg) : Prop :=
  1 ≤ msg_type p.2 ∧ 0 ≤ msg_ts p.2 ≤ MSGMAX ∧ Z.of_nat (length (msg_text p.2)) = msg_ts p.2.

Record q_ok (H : gmap Z msg) (q : msqid_ds) (l : list (Z * msg)) : Prop := {
  qk_seg : seg H (msg_first q) l 0;
  qk_last p : last l = Some p → msg_last q = p.1;
  qk_nodup : NoDup l.*1;
  qk_num : msg_qnum q = Z.of_nat (length l) ∧ msg_qnum q < 2 ^ 16;
  qk_bytes : msg_cbytes q = bytes l ∧ msg_cbytes q < 2 ^ 16;
  qk_limit : 0 ≤ msg_qbytes q < 2 ^ 16;
  qk_msgs : Forall msg_ok l;
}.

(** Only queue [a] and its messages change. *)
Record qstep (a : Z) (q : msqid_ds) (l : list (Z * msg)) (q' : msqid_ds) (l' : list (Z * msg)) (s s' : ms) : Prop := {
  qs_mqs : mqs s' = <[a := q']> (mqs s);
  qs_rest : msgque s' = msgque s ∧ msg_seq s' = msg_seq s ∧ used_queues s' = used_queues s ∧ max_msqid s' = max_msqid s ∧
    kerneld_msqid s' = kerneld_msqid s ∧ kerneld_arr s' = kerneld_arr s ∧ n_kernelds s' = n_kernelds s;
  qs_perm : msg_perm q' = msg_perm q ∧ msg_qbytes q' = msg_qbytes q;
  qs_hdrs : msghdrs s' = msghdrs s + Z.of_nat (length l') - Z.of_nat (length l);
  qs_bytes : msgbytes s' = msgbytes s + bytes l' - bytes l;
  qs_size : Z.of_nat (size (msgs s')) = Z.of_nat (size (msgs s)) + Z.of_nat (length l') - Z.of_nat (length l);
  qs_other m : m ∉ l.*1 → m ∉ l'.*1 → msgs s' !! m = msgs s !! m;
  qs_gone m : m ∈ l.*1 → m ∉ l'.*1 → msgs s' !! m = None;
  qs_new m : m ∈ l'.*1 → m ∉ l.*1 → msgs s !! m = None;
  qs_ok : q_ok (msgs s') q' l';
}.

(** Does a receiver take a message of type [t]?  A negative [typ] is negated as
    a [long]: the least one stays as it is and bounds all types from below
    0. *)
Definition wants (typ flg t : Z) : Prop :=
  if decide (typ = 0) then True
  else if decide (0 < typ) then (if has flg MSG_EXCEPT then t ≠ typ else t = typ)
  else t ≤ s32 (- typ).

(** Message [i] of the queue is the one to receive: the first that the receiver
    takes, or the first with the least type if that is asked for. *)
Definition picks (typ flg : Z) (l : list (Z * list Z)) (i : nat) : Prop :=
  ∃ x, l !! i = Some x ∧ wants typ flg x.1 ∧
    ∀ j y, l !! j = Some y → wants typ flg y.1 →
      if decide (typ < 0) then x.1 < y.1 ∨ x.1 = y.1 ∧ (i ≤ j)%nat else (i ≤ j)%nat.

(** ** Lemmas: linked messages *)

Lemma mseg_frame H H' l : ∀ m z, (∀ b, b ∈ l.*1 → H' !! b = H !! b) → seg H m l z → seg H' m l z.
Proof.
  induction l as [|[b x] l IH]; intros m z Hf; [done|]. cbn. intros (-> & Hb & E & Hs).
  split_and!; [done|done| |].
  - rewrite Hf; [done|]. cbn. set_solver.
  - apply IH; [|done]. intros b' Hb'. apply Hf. cbn. set_solver.
Qed.

Lemma mseg_app H l1 l2 : ∀ m z, seg H m (l1 ++ l2) z ↔ ∃ y, seg H m l1 y ∧ seg H y l2 z.
Proof.
  induction l1 as [|[b x] l1 IH]; intros m z; cbn.
  - naive_solver.
  - setoid_rewrite IH. naive_solver.
Qed.

Lemma seg_lookup H l m z p : seg H m l z → p ∈ l → H !! p.1 = Some p.2 ∧ p.1 ≠ 0.
Proof.
  revert m. induction l as [|[b x] l IH]; intros m Hs Hp; [by apply elem_of_nil in Hp|].
  destruct Hs as (-> & Hb & E & Hs). apply elem_of_cons in Hp as [->|Hp]; [done|]. by eapply IH.
Qed.

Lemma seg_unique H l : ∀ m l', seg H m l 0 → seg H m l' 0 → l = l'.
Proof.
  induction l as [|[b x] l IH]; intros m [|[b' x'] l'] Hs Hs'; cbn in *; [done|naive_solver..|].
  destruct Hs as (-> & Hb & E & Hs), Hs' as (-> & _ & E' & Hs'). assert (x' = x) as -> by congruence. f_equal. by eapply IH.
Qed.

Lemma seg_size H m l z : NoDup l.*1 → seg H m l z → (length l ≤ size H)%nat.
Proof.
  intros Hn Hs. rewrite <-(length_fmap fst l), <-size_dom, <-(size_list_to_set (C := gset Z)) by done.
  apply subseteq_size. intros b Hb. apply elem_of_list_to_set, list_elem_of_fmap in Hb as (p & -> & Hp).
  apply elem_of_dom. exists p.2. by eapply seg_lookup.
Qed.

Lemma seg_nil H m l : seg H m l 0 → m = 0 ↔ l = [].
Proof. destruct l as [|[b x] l]; cbn; naive_solver. Qed.

Lemma bytes_cons p l : bytes (p :: l) = msg_ts p.2 + bytes l.
Proof. reflexivity. Qed.

Lemma bytes_app l1 l2 : bytes (l1 ++ l2) = bytes l1 + bytes l2.
Proof. apply sumZ_app. Qed.

Lemma bytes_nonneg l : Forall msg_ok l → 0 ≤ bytes l.
Proof. induction 1 as [|p l Hp _ IH]; [done|]. rewrite bytes_cons. unfold msg_ok in *. lia. Qed.

Lemma fuel_enough H m l z : NoDup l.*1 → seg H m l z → (length l < S (length (map_to_list H)))%nat.
Proof. intros Hn Hs. pose proof (seg_size H m l z Hn Hs). rewrite length_map_to_list. lia. Qed.

(** ** Lemmas: steps of one queue *)

Lemma qstep_refl a q l s : mqs s !! a = Some q → q_ok (msgs s) q l → qstep a q l q l s s.
Proof. intros E Hok. split; try done; try lia. by rewrite insert_id. Qed.

Lemma qstep_trans a q1 l1 q2 l2 q3 l3 s1 s2 s3 :
  qstep a q1 l1 q2 l2 s1 s2 → qstep a q2 l2 q3 l3 s2 s3 → qstep a q1 l1 q3 l3 s1 s3.
Proof.
  intros [A1 B1 C1 D1 E1 F1 G1 I1 J1 K1] [A2 B2 C2 D2 E2 F2 G2 I2 J2 K2]. split; try done; try lia.
  - by rewrite A2, A1, insert_insert_eq.
  - naive_solver congruence.
  - naive_solver congruence.
  - intros m H1 H3. destruct (decide (m ∈ l2.*1)) as [H2|H2].
    + by rewrite I2, J1.
    + by rewrite G2, G1.
  - intros m H1 H3. destruct (decide (m ∈ l2.*1)) as [H2|H2]; [by apply I2|]. rewrite G2 by done. by apply I1.
  - intros m H3 H1. destruct (decide (m ∈ l2.*1)) as [H2|H2]; [by apply J1|]. rewrite <-G1 by done. by apply J2.
Qed.

Lemma ld_msq_run s a q : mqs s !! a = Some q → ld_msq a s = Ret q s.
Proof. intros E. unfold ld_msq. by rewrite E. Qed.

Lemma ld_msg_run s m x : msgs s !! m = Some x → ld_msg m s = Ret x s.
Proof. intros E. unfold ld_msg. by rewrite E. Qed.

Lemma st_msq_run s a q f : mqs s !! a = Some q → st_msq a f s = Ret tt (s <| mqs := <[a := f q]> (mqs s) |>).
Proof. intros E. unfold st_msq, modify. by rewrite (alter_alt_Some _ _ _ _ E). Qed.

Lemma size_alter (f : msg → msg) b (H : gmap Z msg) : size (alter f b H) = size H.
Proof. by rewrite <-!size_dom, dom_alter. Qed.

(** ** Lemmas: sending *)

Lemma qok_counts H q l : q_ok H q l → (0 < msg_qnum q ↔ l ≠ []) ∧ 0 ≤ msg_qnum q ∧ 0 ≤ msg_cbytes q.
Proof.
  intros Hok. destruct (qk_num _ _ _ Hok) as [En _], (qk_bytes _ _ _ Hok) as [Eb _].
  pose proof (bytes_nonneg _ (qk_msgs _ _ _ Hok)). split_and!; [|lia|lia]. destruct l; cbn in *; split; try done; lia.
Qed.

Definition new_msg (x : sender) : msg :=
  MkMsg 0 (s_type x) (take (Z.to_nat (s_size x)) (s_text x)) (c_now (s_caller x)) (s_size x).

(** The fields of the queue that sending changes but for the links. *)
Definition sent (x : sender) (q : msqid_ds) : msqid_ds :=
  q <| msg_cbytes := u16 (msg_cbytes q + s_size x) |> <| msg_qnum := u16 (msg_qnum q + 1) |>
    <| msg_lspid := u16 (c_pid (s_caller x)) |> <| msg_stime := c_now (s_caller x) |>.

Lemma enqueue_run x a m q s :
  mqs s !! a = Some q →
  enqueue x a m s = Ret tt (s <| mqs := <[a := sent x (if msg_first q =? 0 then q <| msg_first := m |> <| msg_last := m |> else q <| msg_last := m |>)]> (mqs s) |>
    <| msgs := (if msg_first q =? 0 then id else alter (λ y, y <| msg_next := m |>) (msg_last q)) (<[m := new_msg x]> (msgs s)) |>
    <| msgbytes := msgbytes s + s_size x |> <| msghdrs := msghdrs s + 1 |>).
Proof.
  intros E. unfold enqueue, mbind, M_bind, modify. fold (new_msg x). rewrite (ld_msq_run _ a q) by done.
  destruct (msg_first q =? 0) eqn:Ef.
  - rewrite (st_msq_run _ a q) by done. erewrite st_msq_run by (cbn; apply lookup_insert_eq).
    erewrite st_msq_run by (cbn; apply lookup_insert_eq). cbn. by rewrite !insert_insert_eq.
  - unfold st_msg, modify. rewrite (st_msq_run _ a q) by done. erewrite st_msq_run by (cbn; apply lookup_insert_eq).
    erewrite st_msq_run by (cbn; apply lookup_insert_eq). cbn. by rewrite !insert_insert_eq.
Qed.

Lemma q_ok_sent H x q q1 l l' m :
  q_ok (msgs H) q l → msg_qbytes q1 = msg_qbytes q → msg_cbytes q1 = msg_cbytes q → msg_qnum q1 = msg_qnum q → msg_last q1 = m →
  s_size x + msg_cbytes q ≤ msg_qbytes q → 0 ≤ s_size x → Z.of_nat (length l) + 1 < 2 ^ 16 →
  length l' = S (length l) → bytes l' = bytes l + s_size x → last l' = Some (m, new_msg x) → NoDup l'.*1 → Forall msg_ok l' →
  ∀ H', seg H' (msg_first q1) l' 0 → q_ok H' (sent x q1) l'.
Proof.
  intros Hok E1 E2 E3 E4 Hroom Hs Hlen El Eb Elast Hn Hm H' Hseg.
  destruct (qk_num _ _ _ Hok) as [En _], (qk_bytes _ _ _ Hok) as [Eb' _], (qk_limit _ _ _ Hok) as [Hl1 Hl2], (qok_counts _ _ _ Hok) as (_ & Hq & Hc).
  split; cbn; try done; rewrite ?E1, ?E2, ?E3.
  - intros p Ep. rewrite Elast in Ep. injection Ep as <-. done.
  - rewrite u16_id; lia.
  - rewrite u16_id; lia.
  - lia.
Qed.

Definition relink (m : Z) (y : msg) : msg := y <| msg_next := m |>.

(** A message is linked behind the last one. *)
Lemma seg_append H f l0 b y m z :
  seg H f (l0 ++ [(b, y)]) 0 → NoDup (l0 ++ [(b, y)]).*1 → m ∉ (l0 ++ [(b, y)]).*1 → m ≠ 0 → msg_next z = 0 →
  seg (alter (relink m) b (<[m := z]> H)) f ((l0 ++ [(b, relink m y)]) ++ [(m, z)]) 0.
Proof.
  rewrite fmap_app. cbn. intros Hs Hn Hm Hm0 Hz. apply mseg_app in Hs as (b' & Hs0 & Hs1). destruct Hs1 as (-> & Hb & Eb & Hy).
  apply NoDup_app in Hn as (_ & Hd & _). assert (m ≠ b) as Hne by set_solver.
  rewrite mseg_app. exists m. split; [rewrite mseg_app; exists b; split|].
  - eapply mseg_frame; [|done]. intros c Hc. rewrite lookup_alter_ne, lookup_insert_ne; [done|set_solver|]. intros ->. apply (Hd _ Hc). set_solver.
  - cbn. split_and!; [done|done| |done]. by rewrite lookup_alter_eq, lookup_insert_ne, Eb.
  - cbn. split_and!; [done|done| |done]. by rewrite lookup_alter_ne, lookup_insert_eq.
Qed.

Lemma qok_fresh H q l m : q_ok H q l → H !! m = None → m ∉ l.*1.
Proof.
  intros Hok Hm (p & -> & Hp)%list_elem_of_fmap. destruct (seg_lookup _ _ _ _ _ (qk_seg _ _ _ Hok) Hp) as [Hp' _]. congruence.
Qed.

Lemma enqueue_spec x a m q l s :
  mqs s !! a = Some q → q_ok (msgs s) q l → msgs s !! m = None → m ≠ 0 →
  1 ≤ s_type x → 0 ≤ s_size x ≤ MSGMAX → s_size x ≤ Z.of_nat (length (s_text x)) →
  s_size x + msg_cbytes q ≤ msg_qbytes q → Z.of_nat (length l) + 1 < 2 ^ 16 →
  ∃ q' l' s', enqueue x a m s = Ret tt s' ∧ qstep a q l q' l' s s' ∧
    content <$> l' = (content <$> l) ++ [(s_type x, take (Z.to_nat (s_size x)) (s_text x))].
Proof.
  intros E Hok Hm Hm0 Ht Hs Htx Hroom Hlen. rewrite (enqueue_run x a m q s E). pose proof (qk_seg _ _ _ Hok) as Hseg.
  assert (msg_ok (m, new_msg x)) as Hnew.
  { unfold msg_ok, new_msg. cbn. split_and!; [done|lia|lia|]. rewrite length_take. lia. }
  pose proof (qok_fresh _ _ _ _ Hok Hm) as Hml. destruct l as [|p l0 _] using rev_ind.
  - cbn in Hseg. rewrite Hseg, Z.eqb_refl. eexists _, [(m, new_msg x)], _. split; [done|]. split; [|done]. split; cbn; try done; try lia.
    + rewrite map_size_insert_None by done. lia.
    + intros b _ Hb. rewrite lookup_insert_ne by set_solver. done.
    + intros b Hb%elem_of_nil. done.
    + intros b Hb _. assert (b = m) as -> by set_solver. done.
    + eapply (q_ok_sent _ x q _ [] [(m, new_msg x)]); try done; cbn; try lia; [apply NoDup_singleton|by constructor|].
      split_and!; [done|done|by rewrite lookup_insert_eq|done].
  - destruct p as [b y]. set (l := l0 ++ [(b, y)]) in *. pose proof (qk_msgs _ _ _ Hok) as [Hall0 [Hy _]%Forall_cons]%Forall_app.
    rewrite (proj2 (Z.eqb_neq _ _)) by (rewrite (seg_nil _ _ _ Hseg); unfold l; intros [_ [=]]%app_eq_nil).
    rewrite (qk_last _ _ _ Hok (b, y)) by apply last_snoc. cbn [fst]. fold (relink m). set (l' := (l0 ++ [(b, relink m y)]) ++ [(m, new_msg x)]).
    assert (length l' = S (length l)) as El by (unfold l, l'; rewrite !length_app; cbn; lia).
    assert (bytes l' = bytes l + s_size x) as Ebt by (unfold l, l'; rewrite !bytes_app; cbn; lia).
    assert (l'.*1 = l.*1 ++ [m]) as Ead by (unfold l, l'; by rewrite !fmap_app).
    eexists _, l', _. split; [done|]. split; [|unfold l, l'; by rewrite !fmap_app]. split; cbn; try done; try lia.
    + rewrite size_alter, map_size_insert_None by done. lia.
    + intros c H1. rewrite Ead. intros H2. rewrite lookup_alter_ne, lookup_insert_ne; [done|set_solver|]. intros ->. apply H1. unfold l. rewrite fmap_app. set_solver.
    + intros c Hc. rewrite Ead, elem_of_app. tauto.
    + intros c. rewrite Ead, elem_of_app, list_elem_of_singleton. intros [?| ->] H2; done.
    + eapply (q_ok_sent _ x q _ l l' m); try done; try lia.
      * apply last_snoc.
      * rewrite Ead. apply NoDup_app. split_and!; [apply Hok| |apply NoDup_singleton].
        intros c Hc ->%list_elem_of_singleton. done.
      * unfold l'. by rewrite !Forall_app, !Forall_singleton.
      * apply seg_append; try done. apply Hok.
Qed.

(** ** Lemmas: choosing a message *)

Lemma find_msg_spec test s l : ∀ fuel m,
  seg (msgs s) m l 0 → (length l < fuel)%nat →
  (find_msg fuel test m s = Ret 0 s ∧ (∀ p, p ∈ l → test (msg_type p.2) = false)) ∨
  ∃ i p, find_msg fuel test m s = Ret p.1 s ∧ l !! i = Some p ∧ test (msg_type p.2) = true ∧
    ∀ j p', l !! j = Some p' → test (msg_type p'.2) = true → (i ≤ j)%nat.
Proof.
  induction l as [|[b x] l IH]; intros [|fuel] m Hs Hf; cbn in Hf; try lia.
  - left. cbn in Hs. subst m. split; [done|]. intros p Hp%elem_of_nil. done.
  - destruct Hs as (-> & Hb & E & Hs). cbn [find_msg]. rewrite (proj2 (Z.eqb_neq _ _) Hb). unfold mbind, M_bind. rewrite (ld_msg_run s b x E).
    destruct (test (msg_type x)) eqn:Et.
    + right. exists 0%nat, (b, x). split_and!; [done..|]. intros. lia.
    + destruct (IH fuel (msg_next x)) as [[E1 Hn]|(i & p & E1 & Ei & Hp & Hmin)]; [done|lia|left|right].
      * split; [done|]. intros p [->|Hp]%elem_of_cons; [done|]. by apply Hn.
      * exists (S i), p. split_and!; [done..|]. intros [|j] p' Ep Ht; [|apply le_n_S; by eapply Hmin]. cbn in Ep. injection Ep as <-. cbn in Ht. congruence.
Qed.

Lemma least_msg_spec s l : ∀ fuel m b y,
  seg (msgs s) m l 0 → msgs s !! b = Some y → (length l < fuel)%nat →
  (least_msg fuel b m s = Ret b s ∧ ∀ p, p ∈ l → msg_type y ≤ msg_type p.2) ∨
  ∃ i p, least_msg fuel b m s = Ret p.1 s ∧ l !! i = Some p ∧ msg_type p.2 < msg_type y ∧
    ∀ j p', l !! j = Some p' → msg_type p.2 < msg_type p'.2 ∨ msg_type p.2 = msg_type p'.2 ∧ (i ≤ j)%nat.
Proof.
  induction l as [|[c x] l IH]; intros [|fuel] m b y Hs Ey Hf; cbn in Hf; try lia.
  - left. cbn in Hs. subst m. split; [done|]. intros p Hp%elem_of_nil. done.
  - destruct Hs as (-> & Hc & E & Hs). cbn [least_msg]. rewrite (proj2 (Z.eqb_neq _ _) Hc). unfold mbind, M_bind.
    rewrite (ld_msg_run s c x E), (ld_msg_run s b y Ey). destruct (msg_type x <? msg_type y) eqn:Et; to_prop.
    + right. destruct (IH fuel (msg_next x) c x) as [[E1 Hn]|(i & p & E1 & Ei & Hp & Hmin)]; [done..|lia| |].
      * exists 0%nat, (c, x). split_and!; [done..|]. intros [|j] p' Ep; cbn in *; [injection Ep as <-; right; done|].
        apply list_elem_of_lookup_2, Hn in Ep. lia.
      * exists (S i), p. split_and!; [done..|lia|]. intros [|j] p' Ep; cbn in *; [injection Ep as <-; left; done|]. destruct (Hmin _ _ Ep); lia.
    + destruct (IH fuel (msg_next x) b y) as [[E1 Hn]|(i & p & E1 & Ei & Hp & Hmin)]; [done..|lia|left|right].
      * split; [done|]. intros p [->|Hp]%elem_of_cons; [done|]. by apply Hn.
      * exists (S i), p. split_and!; [done..|]. intros [|j] p' Ep; cbn in *; [injection Ep as <-; cbn; lia|]. destruct (Hmin _ _ Ep); lia.
Qed.

Lemma content_lookup (l : list (Z * msg)) (i : nat) x : (content <$> l) !! i = Some x ↔ ∃ p, l !! i = Some p ∧ x = content p.
Proof. rewrite list_lookup_fmap. destruct (l !! i); cbn; naive_solver. Qed.

Lemma wants_pos typ flg t : 0 < typ → wants typ flg t ↔ if has flg MSG_EXCEPT then t ≠ typ else t = typ.
Proof. intros H. unfold wants. by rewrite decide_False, decide_True by lia. Qed.

Lemma wants_neg typ flg t : typ < 0 → wants typ flg t ↔ t ≤ s32 (- typ).
Proof. intros H. unfold wants. by rewrite !decide_False by lia. Qed.

(** The list's message that [select_msg] chooses. *)
Lemma select_spec q typ flg l s :
  q_ok (msgs s) q l →
  (select_msg q typ flg s = Ret 0 s ∧ ∀ p, p ∈ l → ¬ wants typ flg (msg_type p.2)) ∨
  ∃ i p, select_msg q typ flg s = Ret p.1 s ∧ l !! i = Some p ∧ picks typ flg (content <$> l) i.
Proof.
  intros Hok. pose proof (qk_seg _ _ _ Hok) as Hs. pose proof (fuel_enough _ _ _ _ (qk_nodup _ _ _ Hok) Hs) as Hf.
  unfold select_msg, mbind, M_bind, gets. set (n := S _) in *. destruct (typ =? 0) eqn:E0; to_prop.
  { subst typ. destruct l as [|[b x] l]; cbn in Hs.
    - left. rewrite Hs. split; [done|]. intros p Hp%elem_of_nil. done.
    - right. exists 0%nat, (b, x). destruct Hs as [-> _]. split_and!; [done..|]. exists (content (b, x)). split_and!; [done..|].
      intros. rewrite decide_False; lia. }
  destruct (0 <? typ) eqn:E1; to_prop.
  - set (test := λ t, _).
    assert (∀ t, test t = true ↔ wants typ flg t) as Htest.
    { intros t. rewrite wants_pos by done. unfold test. destruct (has flg MSG_EXCEPT); [rewrite negb_true_iff; apply Z.eqb_neq|apply Z.eqb_eq]. }
    destruct (find_msg_spec test s l n (msg_first q) Hs Hf) as [[E Hn]|(i & p & E & Ei & Hp & Hmin)]; [left|right].
    + split; [done|]. intros p Hp%Hn Hw%Htest. congruence.
    + exists i, p. split_and!; [done..|]. exists (content p). split_and!; [rewrite list_lookup_fmap, Ei; done|by apply Htest|].
      intros j y (p' & Ej & ->)%content_lookup Hw%Htest. rewrite decide_False by lia. by eapply Hmin.
  - destruct l as [|[b x] l].
    { left. cbn in Hs. rewrite Hs. split; [done|]. intros p Hp%elem_of_nil. done. }
    pose proof Hs as (Eb & Hb & Ex & _).
    assert (∃ i p, least_msg n (msg_first q) (msg_first q) s = Ret p.1 s ∧ ((b, x) :: l) !! i = Some p ∧
      ∀ j p', ((b, x) :: l) !! j = Some p' → msg_type p.2 < msg_type p'.2 ∨ msg_type p.2 = msg_type p'.2 ∧ (i ≤ j)%nat) as (i & p & E & Ei & Hmin).
    { destruct (least_msg_spec s _ n (msg_first q) b x Hs Ex Hf) as [[E Hn]|(i & p & E & Ei & _ & Hmin)]; rewrite Eb in *; [|eauto].
      exists 0%nat, (b, x). split_and!; [done..|]. intros j p' Ej. pose proof (Hn p' (list_elem_of_lookup_2 _ _ _ Ej)). cbn. lia. }
    rewrite E. destruct (seg_lookup _ _ _ _ p Hs (list_elem_of_lookup_2 _ _ _ Ei)) as [Ep Hp]. rewrite (proj2 (Z.eqb_neq _ _) Hp), (ld_msg_run _ _ _ Ep).
    destruct (msg_type p.2 <=? s32 (- typ)) eqn:El; to_prop; [right|left].
    + exists i, p. split_and!; [done..|]. exists (content p). split_and!; [rewrite list_lookup_fmap, Ei; done|apply wants_neg; [lia|done]|].
      intros j y (p' & Ej & ->)%content_lookup _. rewrite decide_True by lia. by apply Hmin.
    + split; [done|]. intros p' (j & Ej)%list_elem_of_lookup. rewrite wants_neg by lia. destruct (Hmin _ _ Ej); lia.
Qed.

(** ** Lemmas: receiving *)

Lemma before_msg_spec s n : ∀ l0 fuel m b w,
  seg (msgs s) m (l0 ++ [(b, w)]) n → NoDup ((l0 ++ [(b, w)]).*1 ++ [n]) → (length l0 < fuel)%nat → before_msg fuel n m s = Ret b s.
Proof.
  induction l0 as [|[c v] l0 IH]; intros [|fuel] m b w Hs Hn Hf; cbn in Hf; try lia; destruct Hs as (-> & Hc & E & Hs); cbn [before_msg];
    rewrite (proj2 (Z.eqb_neq _ _) Hc); unfold mbind, M_bind; rewrite (ld_msg_run _ _ _ E).
  - cbn in Hs. by rewrite Hs, Z.eqb_refl.
  - apply NoDup_cons in Hn as [_ Hn]. rewrite (proj2 (Z.eqb_neq _ _)); [apply (IH _ _ _ w); [done..|lia]|]. intros En. apply NoDup_app in Hn as (_ & Hd & _).
    apply (Hd n); [|set_solver]. destruct l0 as [|[d u] l0]; destruct Hs as [Hs _]; cbn; set_solver.
Qed.

(** The links once message [(n, y)] between [l1] and [l2] is off the list. *)
Definition bypass (n : Z) (y : msg) (l1 : list (Z * msg)) (s : ms) : gmap Z msg :=
  match last l1 with Some p => alter (relink (msg_next y)) p.1 (msgs s) | None => msgs s end.

Definition bypassed (n : Z) (y : msg) (l1 : list (Z * msg)) (q : msqid_ds) : msqid_ds :=
  match last l1 with
  | Some p => if n =? msg_last q then q <| msg_last := p.1 |> else q
  | None => q <| msg_first := msg_next y |>
  end.

Lemma unlink_msg_run a n y q l1 l2 s :
  mqs s !! a = Some q → q_ok (msgs s) q (l1 ++ (n, y) :: l2) →
  unlink_msg a n s = Ret tt (s <| mqs := <[a := bypassed n y l1 q]> (mqs s) |> <| msgs := bypass n y l1 s |>).
Proof.
  intros E Hok. pose proof (qk_seg _ _ _ Hok) as Hs. pose proof (qk_nodup _ _ _ Hok) as Hn. unfold unlink_msg, mbind, M_bind.
  destruct (seg_lookup _ _ _ _ (n, y) Hs) as [Ey _]; [set_solver|]. rewrite (ld_msq_run _ _ _ E), (ld_msg_run s n y Ey).
  pose proof (fuel_enough _ _ _ _ Hn Hs) as Hf. rewrite length_app in Hf. cbn [length] in Hf. unfold gets.
  apply mseg_app in Hs as (n' & Hs1 & Hs2). destruct Hs2 as (-> & Hn0 & _ & Hs2). unfold bypassed, bypass. destruct l1 as [|[b w] l0 _] using rev_ind.
  - cbn in Hs1. rewrite Hs1, Z.eqb_refl, (st_msq_run _ a q) by done. by destruct s.
  - rewrite fmap_app in Hn. cbn in Hn. rewrite (cons_middle n), (app_assoc _ [n]) in Hn. apply NoDup_app in Hn as (Hn & _ & _).
    rewrite last_snoc. cbn [fst]. rewrite (proj2 (Z.eqb_neq n (msg_first q))).
    + rewrite (before_msg_spec s n l0 _ (msg_first q) b w) by (done || rewrite length_app in Hf; cbn [length] in Hf; lia).
      destruct (seg_lookup _ _ _ _ (b, w) Hs1) as [Ew _]; [set_solver|]. rewrite (ld_msg_run s b w Ew). unfold st_msg, modify, when.
      destruct (n =? msg_last q) eqn:El.
      * rewrite (st_msq_run _ a q) by done. done.
      * unfold mret, M_ret. by rewrite insert_id by done; destruct s.
    + intros En. apply NoDup_app in Hn as (_ & Hd & _). apply (Hd n); [|set_solver].
      destruct l0 as [|[d u] l0]; destruct Hs1 as [Hs1 _]; cbn; set_solver.
Qed.

Definition taken (x : receiver) (y : msg) (q : msqid_ds) : msqid_ds :=
  let n := u16 (msg_qnum q - 1) in
  (if n =? 0 then q <| msg_qnum := n |> <| msg_last := 0 |> <| msg_first := 0 |> else q <| msg_qnum := n |>)
    <| msg_rtime := c_now (r_caller x) |> <| msg_lrpid := u16 (c_pid (r_caller x)) |> <| msg_cbytes := u16 (msg_cbytes q - msg_ts y) |>.

Lemma qnum_set (q : msqid_ds) v : msg_qnum (q <| msg_qnum := v |>) = v.
Proof. done. Qed.

Lemma dequeue_run x a n y q l1 l2 s :
  mqs s !! a = Some q → q_ok (msgs s) q (l1 ++ (n, y) :: l2) →
  dequeue x a n s = Ret tt (s <| mqs := <[a := taken x y (bypassed n y l1 q)]> (mqs s) |> <| msgs := delete n (bypass n y l1 s) |>
    <| msgbytes := msgbytes s - msg_ts y |> <| msghdrs := msghdrs s - 1 |>).
Proof.
  intros E Hok. destruct (seg_lookup _ _ _ _ (n, y) (qk_seg _ _ _ Hok)) as [Ey _]; [set_solver|].
  unfold dequeue, mbind, M_bind. rewrite (ld_msg_run s n y Ey), (unlink_msg_run a n y q l1 l2 s E Hok). set (q0 := bypassed n y l1 q).
  set (k := u16 (msg_qnum q0 - 1)). rewrite (st_msq_run _ a q0) by (cbn; apply lookup_insert_eq). fold k.
  rewrite (ld_msq_run _ a (q0 <| msg_qnum := k |>)) by (cbn; apply lookup_insert_eq). rewrite qnum_set.
  unfold taken. fold k. destruct (k =? 0); unfold when.
  - erewrite st_msq_run by (cbn; apply lookup_insert_eq). erewrite st_msq_run by (cbn; apply lookup_insert_eq). unfold modify.
    erewrite st_msq_run by (cbn; apply lookup_insert_eq). unfold free_msg, modify. cbn. by rewrite !insert_insert_eq.
  - unfold mret, M_ret. erewrite st_msq_run by (cbn; apply lookup_insert_eq). unfold modify.
    erewrite st_msq_run by (cbn; apply lookup_insert_eq). unfold free_msg, modify. cbn. by rewrite !insert_insert_eq.
Qed.

Lemma q_ok_taken H H' x y q q0 l l' :
  q_ok H q l → msg_qbytes q0 = msg_qbytes q → msg_cbytes q0 = msg_cbytes q → msg_qnum q0 = msg_qnum q →
  length l = S (length l') → bytes l = bytes l' + msg_ts y → 0 ≤ msg_ts y → NoDup l'.*1 → Forall msg_ok l' →
  seg H' (msg_first q0) l' 0 → (∀ p, last l' = Some p → msg_last q0 = p.1) → q_ok H' (taken x y q0) l'.
Proof.
  intros Hok E1 E2 E3 El Eb Hy Hn Hm Hseg Hlast. pose proof (bytes_nonneg l' Hm) as Hb.
  destruct (qk_num _ _ _ Hok) as [En En'], (qk_bytes _ _ _ Hok) as [Eb' Eb''], (qk_limit _ _ _ Hok) as [Hl1 Hl2].
  assert (u16 (msg_qnum q0 - 1) = Z.of_nat (length l')) as Eq by (rewrite u16_id; lia).
  assert (u16 (msg_cbytes q0 - msg_ts y) = bytes l') as Ec by (rewrite u16_id; lia).
  unfold taken. rewrite Eq, Ec. destruct (Z.of_nat (length l') =? 0) eqn:E0; to_prop.
  - destruct l' as [|p l']; [|cbn in *; lia]. split; cbn; try done; try lia.
  - split; cbn; try done; lia.
Qed.

(** The messages of the list without [(n, y)], the one before it linked to the
    one behind it. *)
Definition without (y : msg) (l1 l2 : list (Z * msg)) : list (Z * msg) :=
  match last l1 with
  | Some p => (take (pred (length l1)) l1 ++ [(p.1, relink (msg_next y) p.2)]) ++ l2
  | None => l2
  end.

Lemma without_nil y l2 : without y [] l2 = l2.
Proof. done. Qed.

Lemma without_snoc y l0 p l2 : without y (l0 ++ [p]) l2 = (l0 ++ [(p.1, relink (msg_next y) p.2)]) ++ l2.
Proof. unfold without. rewrite last_snoc, length_app, Nat.add_1_r. cbn [pred]. by rewrite take_app_length. Qed.

Lemma without_facts y l1 l2 :
  (without y l1 l2).*1 = (l1 ++ l2).*1 ∧ content <$> without y l1 l2 = content <$> (l1 ++ l2) ∧
  bytes (without y l1 l2) = bytes (l1 ++ l2) ∧ (Forall msg_ok (l1 ++ l2) → Forall msg_ok (without y l1 l2)).
Proof.
  destruct l1 as [|p l0 _] using rev_ind; [done|]. rewrite without_snoc, !fmap_app, !bytes_app. split_and!; [done..|]. by rewrite !Forall_app, !Forall_singleton.
Qed.

Lemma without_seg s n y l1 l2 q :
  q_ok (msgs s) q (l1 ++ (n, y) :: l2) → seg (delete n (bypass n y l1 s)) (msg_first (bypassed n y l1 q)) (without y l1 l2) 0.
Proof.
  intros Hok. pose proof (qk_seg _ _ _ Hok) as Hs. pose proof (qk_nodup _ _ _ Hok) as Hn. rewrite fmap_app in Hn. cbn in Hn.
  apply mseg_app in Hs as (n' & Hs1 & Hs2). destruct Hs2 as (-> & Hn0 & Ey & Hs2). apply NoDup_app in Hn as (Hn1 & Hd & [Hd2 _]%NoDup_cons).
  unfold bypassed, bypass. destruct l1 as [|[b w] l0 _] using rev_ind.
  - rewrite without_nil. cbn. eapply mseg_frame; [|done]. intros c Hc. rewrite lookup_delete_ne; [done|]. by intros ->.
  - rewrite last_snoc, without_snoc. cbn [fst snd]. rewrite fmap_app in Hn1, Hd. apply NoDup_app in Hn1 as (_ & Hd1 & _).
    assert (n ≠ b) as Hnb by (intros ->; apply (Hd b); set_solver). apply mseg_app in Hs1 as (b' & Hs0 & Hs1). destruct Hs1 as (-> & Hb & Ew & Hs1).
    rewrite mseg_app. exists (msg_next y). split; [rewrite mseg_app; exists b; split|].
    + replace (msg_first _) with (msg_first q) by (by destruct (n =? _)). eapply mseg_frame; [|done]. intros c Hc.
      rewrite lookup_delete_ne, lookup_alter_ne; [done|intros ->; apply (Hd1 c); set_solver|intros ->; apply (Hd c); set_solver].
    + cbn. split_and!; [done|done| |done]. by rewrite lookup_delete_ne, lookup_alter_eq, Ew.
    + eapply mseg_frame; [|done]. intros c Hc. rewrite lookup_delete_ne, lookup_alter_ne; [done|intros ->; apply (Hd c); set_solver|by intros ->].
Qed.

Lemma last_fst (l : list (Z * msg)) b : fst <$> last l = Some b ↔ last l.*1 = Some b.
Proof. by rewrite fmap_last. Qed.

Lemma without_last s n y l1 l2 q p :
  q_ok (msgs s) q (l1 ++ (n, y) :: l2) → last (without y l1 l2) = Some p → msg_last (bypassed n y l1 q) = p.1.
Proof.
  intros Hok Hp. pose proof (qk_nodup _ _ _ Hok) as Hn. rewrite fmap_app in Hn. cbn in Hn. apply NoDup_app in Hn as (_ & Hd & [Hd2 _]%NoDup_cons).
  assert (last (without y l1 l2).*1 = Some p.1) as Hp' by (by rewrite fmap_last, Hp). destruct (without_facts y l1 l2) as (E1 & _). rewrite E1, fmap_app in Hp'.
  destruct l2 as [|p2 l2 _] using rev_ind.
  - rewrite app_nil_r in Hp'. assert (msg_last q = n) as Hl by (apply (qk_last _ _ _ Hok (n, y)), last_snoc).
    unfold bypassed. rewrite Hl, Z.eqb_refl. destruct (last l1) as [p1|] eqn:E; rewrite fmap_last, E in Hp'; [|done]. cbn in *. congruence.
  - assert (msg_last q = p2.1) as Hl by (apply (qk_last _ _ _ Hok p2); by rewrite app_comm_cons, app_assoc, last_snoc).
    rewrite fmap_app, app_assoc in Hp'. cbn in Hp'. rewrite last_snoc in Hp'. injection Hp' as <-. unfold bypassed. rewrite Hl.
    destruct (last l1) as [p1|]; [|done]. rewrite (proj2 (Z.eqb_neq _ _)); [done|]. intros ->. apply Hd2. rewrite fmap_app. set_solver.
Qed.

Lemma bypass_lookup n y l1 s c : c ∉ l1.*1 → bypass n y l1 s !! c = msgs s !! c.
Proof.
  intros Hc. unfold bypass. destruct (last l1) as [p|] eqn:El; [|done]. rewrite lookup_alter_ne; [done|]. intros <-. apply Hc.
  apply list_elem_of_fmap. exists p. split; [done|]. rewrite last_lookup in El. by eapply list_elem_of_lookup_2.
Qed.

Lemma bypass_size n y l1 s : size (bypass n y l1 s) = size (msgs s).
Proof. unfold bypass. destruct (last l1); [apply size_alter|done]. Qed.

Lemma bypassed_same n y l1 q :
  msg_qbytes (bypassed n y l1 q) = msg_qbytes q ∧ msg_cbytes (bypassed n y l1 q) = msg_cbytes q ∧
  msg_qnum (bypassed n y l1 q) = msg_qnum q ∧ msg_perm (bypassed n y l1 q) = msg_perm q.
Proof. unfold bypassed. destruct (last l1); [by destruct (n =? _)|done]. Qed.

Lemma taken_same x y q : msg_qbytes (taken x y q) = msg_qbytes q ∧ msg_perm (taken x y q) = msg_perm q.
Proof. unfold taken. by destruct (_ =? 0). Qed.

Lemma dequeue_spec x a n y q l1 l2 s :
  mqs s !! a = Some q → q_ok (msgs s) q (l1 ++ (n, y) :: l2) →
  ∃ q' l' s', dequeue x a n s = Ret tt s' ∧ qstep a q (l1 ++ (n, y) :: l2) q' l' s s' ∧ content <$> l' = content <$> (l1 ++ l2).
Proof.
  intros E Hok. rewrite (dequeue_run x a n y q l1 l2 s E Hok). destruct (without_facts y l1 l2) as (E1 & E2 & E3 & Hm).
  pose proof (qk_nodup _ _ _ Hok) as Hn. pose proof (qk_msgs _ _ _ Hok) as Hall.
  assert (Permutation (l1 ++ (n, y) :: l2) ((n, y) :: l1 ++ l2)) as Hp by (symmetry; apply Permutation_middle).
  assert (length (without y l1 l2) = length (l1 ++ l2)) as El by (by rewrite <-(length_fmap fst), E1, length_fmap).
  assert (length (l1 ++ (n, y) :: l2) = S (length (without y l1 l2))) as El' by (rewrite El; apply (Permutation_length Hp)).
  assert (bytes (l1 ++ (n, y) :: l2) = bytes (without y l1 l2) + msg_ts y) as Eb by (rewrite E3, !bytes_app, bytes_cons; cbn [snd]; lia).
  rewrite (fmap_Permutation fst _ _ Hp) in Hn. rewrite Hp in Hall. cbn in Hn. apply NoDup_cons in Hn as [Hnn Hn]. apply Forall_cons in Hall as [[_ Hy] Hall].
  destruct (seg_lookup _ _ _ _ (n, y) (qk_seg _ _ _ Hok)) as [Ey _]; [set_solver|]. cbn in Ey.
  pose proof (bypass_size n y l1 s) as Esz. pose proof (bypass_lookup n y l1 s) as Hby.
  assert (∀ c, c ∈ (l1 ++ (n, y) :: l2).*1 ↔ c = n ∨ c ∈ (l1 ++ l2).*1) as Hin.
  { intros c. rewrite (fmap_Permutation fst _ _ Hp). cbn. set_solver. }
  destruct (bypassed_same n y l1 q) as (Q1 & Q2 & Q3 & Q4).
  eexists _, (without y l1 l2), _. split; [done|]. split; [|done]. split; cbn [mqs msgs msgbytes msghdrs upd]; try done; try lia.
  - destruct (taken_same x y (bypassed n y l1 q)) as [-> ->]. by rewrite Q1, Q4.
  - rewrite map_size_delete_Some, Esz; [|rewrite Hby, Ey; [done|]].
    + assert (size (msgs s) ≠ 0)%nat by (eapply map_size_ne_0_lookup_2; by exists y). lia.
    + intros Hc. apply Hnn. rewrite fmap_app. set_solver.
  - intros c. rewrite Hin, E1. intros Hc1 Hc2. rewrite lookup_delete_ne by naive_solver. apply Hby. rewrite fmap_app in Hc2. set_solver.
  - intros c. rewrite Hin, E1. intros [->|Hc] Hc'; [apply lookup_delete_eq|done].
  - intros c. rewrite Hin, E1. naive_solver.
  - eapply (q_ok_taken _ _ x y q); try done; try lia.
    + cbn in Hy. lia.
    + by rewrite E1.
    + by apply Hm.
    + by apply without_seg.
    + intros p. by apply (without_last s n y l1 l2).
Qed.

(** ** Lemmas: old messages *)

(** The state without the first message [(b, x)] of queue [a]. *)
Definition popped (a b : Z) (x : msg) (q : msqid_ds) (s : ms) : ms :=
  s <| msgbytes := msgbytes s - msg_ts x |> <| msghdrs := msghdrs s - 1 |>
    <| mqs := <[a := q <| msg_cbytes := u16 (msg_cbytes q - msg_ts x) |> <| msg_qnum := u16 (msg_qnum q - 1) |> <| msg_first := msg_next x |>]> (mqs s) |>
    <| msgs := delete b (msgs s) |>.

Lemma pop_step a b x q l s :
  mqs s !! a = Some q → q_ok (msgs s) q ((b, x) :: l) →
  ∃ q', mqs (popped a b x q s) !! a = Some q' ∧ msg_first q' = msg_next x ∧ qstep a q ((b, x) :: l) q' l s (popped a b x q s).
Proof.
  intros E [Hs Hlast Hn [Eq Eq'] [Ec Ec'] Hl Hm]. destruct Hs as (Ef & Hb & Ex & Hs). apply NoDup_cons in Hn as [Hbl Hn]. apply Forall_cons in Hm as [[_ Hx] Hm].
  rewrite bytes_cons in Ec. cbn [fst snd length] in *. pose proof (bytes_nonneg l Hm). unfold popped.
  eexists. split; [cbn [mqs upd]; apply lookup_insert_eq|]. split; [done|]. split; cbn [mqs msgs msgbytes msghdrs upd]; try done; try (rewrite bytes_cons; cbn [snd]); try (cbn; lia).
  - rewrite map_size_delete_Some by done. assert (size (msgs s) ≠ 0)%nat by (eapply map_size_ne_0_lookup_2; by exists x). cbn [length]. lia.
  - intros c Hc1 Hc2. rewrite lookup_delete_ne; [done|]. intros ->. apply Hc1. cbn. set_solver.
  - intros c [->|Hc]%elem_of_cons Hc'; [apply lookup_delete_eq|done].
  - intros c Hc1 Hc2. cbn in Hc2. set_solver.
  - split; cbn; try done.
    + eapply mseg_frame; [|done]. intros c Hc. rewrite lookup_delete_ne; [done|]. by intros ->.
    + intros p Hp. apply Hlast. destruct l; [done|]. by rewrite last_cons_cons.
    + rewrite u16_id; lia.
    + rewrite u16_id; lia.
Qed.

Lemma flush_loop_spec now a l : ∀ fuel q s,
  mqs s !! a = Some q → q_ok (msgs s) q l → (length l < fuel)%nat →
  ∃ q' k s', flush_loop fuel now a s = Ret tt s' ∧ mqs s' !! a = Some q' ∧ qstep a q l q' (drop k l) s s'.
Proof.
  induction l as [|[b x] l IH]; intros [|fuel] q s E Hok Hf; cbn in Hf; try lia; cbn [flush_loop]; unfold mbind, M_bind; rewrite (ld_msq_run _ _ _ E).
  - pose proof (qk_seg _ _ _ Hok) as Hs. cbn in Hs. rewrite Hs. exists q, 0%nat, s. split_and!; [done..|]. by apply qstep_refl.
  - pose proof (qk_seg _ _ _ Hok) as (Ef & Hb & Ex & _). rewrite Ef, (proj2 (Z.eqb_neq _ _) Hb), (ld_msg_run _ _ _ Ex).
    destruct (MSG_FLUSH_TIME <? now - m_stime x).
    + destruct (pop_step a b x q l s E Hok) as (q1 & E1 & _ & Hst). destruct (IH fuel q1 _ E1 (qs_ok _ _ _ _ _ _ _ Hst)) as (q' & k & s' & Er & E' & Hst'); [lia|].
      exists q', (S k), s'. split_and!; [|done|by eapply qstep_trans]. rewrite <-Er. unfold modify. rewrite (st_msq_run _ a q) by done. done.
    + exists q, 0%nat, s. split_and!; [done..|]. by apply qstep_refl.
Qed.

Lemma flush_msg_spec now a q l s :
  mqs s !! a = Some q → q_ok (msgs s) q l →
  ∃ q' k s', flush_msg now a s = Ret tt s' ∧ mqs s' !! a = Some q' ∧ qstep a q l q' (drop k l) s s'.
Proof.
  intros E Hok. pose proof (fuel_enough _ _ _ _ (qk_nodup _ _ _ Hok) (qk_seg _ _ _ Hok)) as Hf.
  destruct (flush_loop_spec now a l _ q s E Hok Hf) as (q1 & k & s1 & Er & E1 & Hst). unfold flush_msg, mbind, M_bind, gets. rewrite Er, (ld_msq_run _ _ _ E1).
  pose proof (qs_ok _ _ _ _ _ _ _ Hst) as Hok1. unfold when. destruct (msg_qnum q1 =? 0) eqn:E0; to_prop; [|by exists q1, k, s1].
  rewrite (st_msq_run _ _ _ _ E1). eexists _, k, _. split_and!; [done|cbn [mqs upd]; apply lookup_insert_eq|]. eapply qstep_trans; [done|].
  destruct Hok1 as [_ _ _ [Eq _] Hc Hl _]. destruct (drop k l); [|cbn in Eq; lia].
  split; try done; cbn; try lia. split; cbn; try done; [apply NoDup_nil_2|lia].
Qed.

(** ** Lemmas: the calls on one queue *)

(** What a sender may ask for once its arguments are checked. *)
Definition may_send (x : sender) : Prop :=
  1 ≤ s_type x ∧ 0 ≤ s_size x ≤ MSGMAX ∧ s_size x ≤ Z.of_nat (length (s_text x)).

Definition load (l : list (Z * list Z)) : Z := sumZ (λ p, Z.of_nat (length p.2)) l.

(** What a call of [msgsnd] does to a queue that holds [l] and may hold [limit]
    bytes; the result [None] means that the sender waits. *)
Inductive send_outcome (x : sender) (kmalloc limit : Z) (l : list (Z * list Z)) : option Z → list (Z * list Z) → Prop :=
  | so_sent : s_size x + load l ≤ limit → kmalloc ≠ 0 →
      send_outcome x kmalloc limit l (Some 0) (l ++ [(s_type x, take (Z.to_nat (s_size x)) (s_text x))])
  | so_nomem : s_size x + load l ≤ limit → kmalloc = 0 → send_outcome x kmalloc limit l (Some (- ENOMEM)) l
  | so_nowait : limit < s_size x + load l → has (s_flg x) IPC_NOWAIT = true → send_outcome x kmalloc limit l (Some (- EAGAIN)) l
  | so_signal : limit < s_size x + load l → has (s_flg x) IPC_NOWAIT = false → s_signal x || s_intr x = true →
      send_outcome x kmalloc limit l (Some (- EINTR)) l
  | so_wait : limit < s_size x + load l → has (s_flg x) IPC_NOWAIT = false → s_signal x || s_intr x = false →
      send_outcome x kmalloc limit l None l.

(** The same for [msgrcv]. *)
Inductive recv_outcome (x : receiver) (l : list (Z * list Z)) : option received → list (Z * list Z) → Prop :=
  | ro_taken i t txt : picks (r_type x) (r_flg x) l i → l !! i = Some (t, txt) →
      Z.of_nat (length txt) ≤ r_size x ∨ has (r_flg x) MSG_NOERROR = true →
      recv_outcome x l (Some (Z.min (Z.of_nat (length txt)) (r_size x), Some (t, take (Z.to_nat (r_size x)) txt))) (delete i l)
  | ro_big i t txt : picks (r_type x) (r_flg x) l i → l !! i = Some (t, txt) →
      r_size x < Z.of_nat (length txt) → has (r_flg x) MSG_NOERROR = false → recv_outcome x l (Some (- E2BIG, None)) l
  | ro_nowait : (∀ i, ¬ picks (r_type x) (r_flg x) l i) → has (r_flg x) IPC_NOWAIT = true →
      recv_outcome x l (Some (- ENOMSG, None)) l
  | ro_signal : (∀ i, ¬ picks (r_type x) (r_flg x) l i) → has (r_flg x) IPC_NOWAIT = false → r_signal x = true →
      recv_outcome x l (Some (- EINTR, None)) l
  | ro_wait : (∀ i, ¬ picks (r_type x) (r_flg x) l i) → has (r_flg x) IPC_NOWAIT = false → r_signal x = false →
      recv_outcome x l None l.

Lemma load_content l : Forall msg_ok l → load (content <$> l) = bytes l.
Proof.
  induction 1 as [|p l (_ & _ & Hp) _ IH]; [done|]. rewrite bytes_cons, <-IH. unfold load. cbn. by rewrite Hp.
Qed.

Lemma send_room_spec x kmalloc a q l s :
  mqs s !! a = Some q → q_ok (msgs s) q l → may_send x → (kmalloc ≠ 0 → msgs s !! kmalloc = None) →
  Z.of_nat (length l) + 1 < 2 ^ 16 → msgque s !! m_slot (s_msqid x) = Some (MUsed a) → p_seq (msg_perm q) = m_seq (s_msqid x) →
  ∃ r q' l' s', send_room x kmalloc a s = Ret r s' ∧ qstep a q l q' l' s s' ∧
    send_outcome x kmalloc (msg_qbytes q) (content <$> l) r (content <$> l').
Proof.
  intros E Hok (Ht & Hs & Htx) Hkm Hlen Hsl Hseq. unfold send_room, mbind, M_bind, gets. rewrite (ld_msq_run _ _ _ E).
  pose proof (load_content l (qk_msgs _ _ _ Hok)) as Hl. rewrite <-(proj1 (qk_bytes _ _ _ Hok)) in Hl.
  destruct (msg_qbytes q <? s_size x + msg_cbytes q) eqn:Ef; to_prop.
  - eexists _, q, l, s. split; [done|]. split; [by apply qstep_refl|]. destruct (has (s_flg x) IPC_NOWAIT) eqn:En; [constructor; [lia|done]|].
    destruct (s_signal x) eqn:E1; [|destruct (s_intr x) eqn:E2]; constructor; try done; try lia; by rewrite E1, ?E2.
  - destruct (kmalloc =? 0) eqn:Ek; to_prop.
    + eexists _, q, l, s. split; [done|]. split; [by apply qstep_refl|]. constructor; [lia|done].
    + rewrite Hsl, Hseq, Z.eqb_refl. cbn [negb]. destruct (enqueue_spec x a kmalloc q l s) as (q' & l' & s' & Er & Hst & Hc); try done; [by apply Hkm|].
      rewrite Er. exists (Some 0), q', l', s'. split; [done|]. split; [done|]. rewrite Hc. constructor; [lia|done].
Qed.

Lemma recv_slept_spec x a q l s :
  mqs s !! a = Some q → q_ok (msgs s) q l → 0 ≤ r_size x → p_seq (msg_perm q) = m_seq (r_msqid x) →
  ipcperms (r_caller x) (msg_perm q) S_IRUGO = false →
  ∃ r q' l' s', recv_slept x a s = Ret r s' ∧ qstep a q l q' l' s s' ∧ recv_outcome x (content <$> l) r (content <$> l').
Proof.
  intros E Hok Hsz Hseq Hp. unfold recv_slept, mbind, M_bind. rewrite (ld_msq_run _ _ _ E), Hseq, Z.eqb_refl, Hp. cbn [negb].
  destruct (select_spec q (r_type x) (r_flg x) l s Hok) as [[Er Hno]|(i & [n y] & Er & Ei & Hpick)]; rewrite Er.
  - assert (∀ i, ¬ picks (r_type x) (r_flg x) (content <$> l) i) as Hn.
    { intros i (z & Hz & Hw & _). apply content_lookup in Hz as (p & Hi & ->). by apply (Hno p (list_elem_of_lookup_2 _ _ _ Hi)). }
    cbn. eexists _, q, l, s. split; [done|]. split; [by apply qstep_refl|].
    destruct (has (r_flg x) IPC_NOWAIT) eqn:En; [by constructor|]. destruct (r_signal x) eqn:Es; by constructor.
  - pose proof (list_elem_of_lookup_2 _ _ _ Ei) as Hin. destruct (seg_lookup _ _ _ _ _ (qk_seg _ _ _ Hok) Hin) as [Ey Hn]. cbn [fst snd] in *.
    rewrite (proj2 (Z.eqb_neq _ _) Hn). cbn [negb]. rewrite (ld_msg_run _ _ _ Ey). pose proof (qk_msgs _ _ _ Hok) as Hall. rewrite Forall_forall in Hall.
    destruct (Hall _ Hin) as (_ & Hts & Hlen). cbn [snd] in *. assert ((content <$> l) !! i = Some (msg_type y, msg_text y)) as Hc by (by rewrite list_lookup_fmap, Ei).
    destruct ((r_size x <? msg_ts y) && negb (has (r_flg x) MSG_NOERROR)) eqn:Eb.
    + to_prop. eexists _, q, l, s. split; [done|]. split; [by apply qstep_refl|]. eapply ro_big; [done..|lia|done].
    + apply andb_false_iff in Eb. rewrite Z.ltb_ge, negb_false_iff in Eb. pose proof (take_drop_middle l i _ Ei) as El.
      rewrite <-El in Hok. destruct (dequeue_spec x a n y q _ _ s E Hok) as (q' & l' & s' & Ed & Hst & Hcl). rewrite Ed, El in *.
      eexists _, q', l', s'. split; [done|]. split; [done|]. rewrite Hcl, fmap_app, fmap_take, fmap_drop, <-delete_take_drop.
      replace (if msg_ts y <? r_size x then msg_ts y else r_size x) with (Z.min (Z.of_nat (length (msg_text y))) (r_size x)).
      * replace (take (Z.to_nat (Z.min _ _)) (msg_text y)) with (take (Z.to_nat (r_size x)) (msg_text y)); [eapply ro_taken; [done..|]; destruct Eb; [left; lia|by right]|].
        destruct (Z.min_spec (Z.of_nat (length (msg_text y))) (r_size x)) as [[Hlt ->]|[Hge ->]]; [|done]. rewrite Nat2Z.id, !take_ge by lia. done.
      * destruct (Z.ltb_spec (msg_ts y) (r_size x)); lia.
Qed.
