(* ===== verification/MsgSys.v ===== *)
(** * MsgSys: message queues in use

    The invariant of the table of queues and of the messages, under any sequence
    of system calls, sleeps, wake-ups and removals. *)

From stdpp Require Import gmap relations.
From S2P Require Import Prelude Cred Sem Msg MsgFacts.

(** ** Specification *)

Definition queue_at (s : ms) (id : nat) (a : Z) : Prop := msgque s !! id = Some (MUsed a).

Definition bytes_at (s : ms) (sl : mslot) : Z :=
  match sl with MUsed a => match mqs s !! a with Some q => msg_cbytes q | None => 0 end | _ => 0 end.

Definition queues_in (sl : mslot) : Z := match sl with MUsed _ => 1 | _ => 0 end.

(** [C a] are the messages of the queue at address [a]. *)
Record msg_inv (C : Z → list (Z * msg)) (s : ms) : Prop := {
  mi_len : length (msgque s) = Z.to_nat MSGMNI;
  mi_noid : MNoId ∉ msgque s;
  mi_used id a : queue_at s id a → is_Some (mqs s !! a) ∧ (id ≤ max_msqid s)%nat;
  mi_one id1 id2 a : queue_at s id1 a → queue_at s id2 a → id1 = id2;
  mi_queue a q : mqs s !! a = Some q → q_ok (msgs s) q (C a) ∧ 0 ≤ p_seq (msg_perm q) < 2 ^ 16 ∧ a ≠ 0;
  mi_apart a1 a2 m : is_Some (mqs s !! a1) → is_Some (mqs s !! a2) → m ∈ (C a1).*1 → m ∈ (C a2).*1 → a1 = a2;
  mi_all m : is_Some (msgs s !! m) → ∃ a, is_Some (mqs s !! a) ∧ m ∈ (C a).*1;
  mi_keys id1 id2 a1 a2 q1 q2 : queue_at s id1 a1 → queue_at s id2 a2 → mqs s !! a1 = Some q1 → mqs s !! a2 = Some q2 →
    p_key (msg_perm q1) = p_key (msg_perm q2) → p_key (msg_perm q1) ≠ IPC_PRIVATE → id1 = id2;
  mi_hdrs : msghdrs s = Z.of_nat (size (msgs s));
  mi_bytes : msgbytes s = sumZ (bytes_at s) (msgque s);
  mi_queues : used_queues s = sumZ queues_in (msgque s);
  mi_vars : 0 ≤ msg_seq s < 2 ^ 16 ∧ (max_msqid s < Z.to_nat MSGMNI)%nat;
}.

(** A process asleep in [msgsnd] or [msgrcv] on the queue at an address. *)
Inductive sleeper := Sending (x : sender) (a : Z) | Receiving (x : receiver) (a : Z).

Definition sl_addr (w : sleeper) : Z := match w with Sending _ a | Receiving _ a => a end.
Definition sl_msqid (w : sleeper) : Z := match w with Sending x _ => s_msqid x | Receiving x _ => r_msqid x end.
Definition sl_ok (w : sleeper) : Prop := match w with Sending x _ => may_send x | Receiving x _ => 0 ≤ r_size x end.

(** [dying]: the queues that [freeque] has taken off the table while processes
    slept on them. *)
Record msys := MkMsys { st : ms; asleep : gmap Z sleeper; dying : gset Z }.

Definition msys_init : msys := MkMsys msg_init ∅ ∅.

(** Between two sleeps only the time, the signals and [intr_count] change. *)
Definition again_s (x : sender) (c : caller) (signal intr : bool) : sender :=
  MkSender c (s_msqid x) (s_type x) (s_text x) (s_size x) (s_flg x) signal intr.
Definition again_r (x : receiver) (c : caller) (signal : bool) : receiver :=
  MkReceiver c (r_msqid x) (r_size x) (r_type x) (r_flg x) signal.

(** The sender's memory holds the text. *)
Definition readable (x : sender) : Prop := 0 ≤ s_size x ≤ Z.of_nat (length (s_text x)).

(** No queue is one message short of wrapping its counter. *)
Definition roomy (s : ms) : Prop := ∀ a q, mqs s !! a = Some q → msg_qnum q < 2 ^ 16 - 1.

Definition fresh_msg (s : ms) (kmalloc : Z) : Prop := kmalloc ≠ 0 → msgs s !! kmalloc = None.
Definition fresh_msq (s : ms) (kmalloc : Z) : Prop := kmalloc ≠ 0 → mqs s !! kmalloc = None.

Definition settle {A} (r : option A) (t : Z) (w : sleeper) (m : gmap Z sleeper) : gmap Z sleeper :=
  match r with Some _ => delete t m | None => <[t := w]> m end.

Definition removed (p : mreply) : gset Z := match p with MRemove a => {[ a ]} | _ => ∅ end.

Inductive msg_step : msys → msys → Prop :=
  | mst_get c kmalloc key msgflg r s s' A D :
      fresh_msq s kmalloc → sys_msgget c [] (λ s, s) kmalloc key msgflg s = Ret r s' →
      msg_step (MkMsys s A D) (MkMsys s' A D)
  | mst_snd x va kmalloc a r s s' A D :
      A !! c_task (s_caller x) = None → readable x → fresh_msg s kmalloc → roomy s →
      sys_msgsnd x va kmalloc s = Ret r s' → (r = None → queue_at s (m_slot (s_msqid x)) a) →
      msg_step (MkMsys s A D) (MkMsys s' (settle r (c_task (s_caller x)) (Sending x a) A) D)
  | mst_snd_wake t x c signal intr kmalloc a r s s' A D :
      A !! t = Some (Sending x a) → fresh_msg s kmalloc → roomy s →
      send_slept (again_s x c signal intr) kmalloc a s = Ret r s' →
      msg_step (MkMsys s A D) (MkMsys s' (settle r t (Sending x a) A) D)
  | mst_rcv x va a r s s' A D :
      A !! c_task (r_caller x) = None → 0 ≤ r_size x →
      sys_msgrcv x va s = Ret r s' → (r = None → queue_at s (m_slot (r_msqid x)) a) →
      msg_step (MkMsys s A D) (MkMsys s' (settle r (c_task (r_caller x)) (Receiving x a) A) D)
  | mst_rcv_wake t x c signal a r s s' A D :
      A !! t = Some (Receiving x a) → recv_slept (again_r x c signal) a s = Ret r s' →
      msg_step (MkMsys s A D) (MkMsys s' (settle r t (Receiving x a) A) D)
  | mst_ctl c msqid cmd buf r p s s' A D :
      0 ≤ b_qbytes buf < 2 ^ 16 → sys_msgctl c msqid cmd buf s = Ret (r, p) s' →
      msg_step (MkMsys s A D) (MkMsys s' A (removed p ∪ D))
  | mst_exit c p s s' A D :
      kerneld_exit c s = Ret p s' →
      msg_step (MkMsys s A D) (MkMsys s' A (match p with Some a => {[ a ]} | None => ∅ end ∪ D))
  | mst_free a s s' A D :
      a ∈ D → (∀ t w, A !! t = Some w → sl_addr w ≠ a) → freeque_end a s = Ret tt s' →
      msg_step (MkMsys s A D) (MkMsys s' A (D ∖ {[ a ]})).

(** A sleeper's queue is the one that it names, or about to go and different by
    its sequence number. *)
Definition home (s : ms) (D : gset Z) (w : sleeper) : Prop :=
  ∃ q, mqs s !! sl_addr w = Some q ∧ sl_ok w ∧
    (queue_at s (m_slot (sl_msqid w)) (sl_addr w) ∧ p_seq (msg_perm q) = m_seq (sl_msqid w) ∨ sl_addr w ∈ D ∧ p_seq (msg_perm q) ≠ m_seq (sl_msqid w)).

Record sys_inv (C : Z → list (Z * msg)) (y : msys) : Prop := {
  sy_inv : msg_inv C (st y);
  sy_home t w : asleep y !! t = Some w → home (st y) (dying y) w;
  sy_dying a : a ∈ dying y → is_Some (mqs (st y) !! a) ∧ ∀ id, ¬ queue_at (st y) id a;
  sy_kept a : is_Some (mqs (st y) !! a) → a ∈ dying y ∨ ∃ id, queue_at (st y) id a;
}.

(** What a process sees of the queue [msqid]: the types and texts of the messages
    in their order. *)
Definition mailbox (s : ms) (msqid : Z) (q : msqid_ds) (l : list (Z * list Z)) : Prop :=
  ∃ a L, queue_at s (m_slot msqid) a ∧ mqs s !! a = Some q ∧ p_seq (msg_perm q) = m_seq msqid ∧
    seg (msgs s) (msg_first q) L 0 ∧ l = content <$> L.

(** ** Lemmas: one queue changes *)

Definition put (C : Z → list (Z * msg)) (a : Z) (l : list (Z * msg)) : Z → list (Z * msg) :=
  λ b, if decide (b = a) then l else C b.

Lemma put_eq C a l : put C a l a = l.
Proof. unfold put. by rewrite decide_True. Qed.

Lemma put_ne C a b l : b ≠ a → put C a l b = C b.
Proof. intros H. unfold put. by rewrite decide_False. Qed.

Lemma qstep_queue_at a q l q' l' s s' id b : qstep a q l q' l' s s' → queue_at s' id b ↔ queue_at s id b.
Proof. intros H. unfold queue_at. by rewrite (proj1 (qs_rest _ _ _ _ _ _ _ H)). Qed.

Lemma qstep_dom a q l q' l' s s' b : qstep a q l q' l' s s' → mqs s !! a = Some q → is_Some (mqs s' !! b) ↔ is_Some (mqs s !! b).
Proof.
  intros H E. rewrite (qs_mqs _ _ _ _ _ _ _ H). destruct (decide (b = a)) as [->|Hne]; [rewrite lookup_insert_eq, E|by rewrite lookup_insert_ne]. naive_solver.
Qed.

(** The other queues keep their messages. *)
Lemma qstep_others C a q q' l' s s' b q1 :
  msg_inv C s → mqs s !! a = Some q → qstep a q (C a) q' l' s s' → b ≠ a → mqs s !! b = Some q1 →
  (∀ m, m ∈ (C b).*1 → msgs s' !! m = msgs s !! m) ∧ (∀ m, m ∈ (C b).*1 → m ∉ l'.*1) ∧ q_ok (msgs s') q1 (C b).
Proof.
  intros Hi E Hq Hne E1. destruct (mi_queue _ _ Hi _ _ E1) as [Hok _].
  assert (∀ m, m ∈ (C b).*1 → m ∉ (C a).*1) as Hd by (intros m H1 H2; apply Hne; eapply (mi_apart _ _ Hi); eauto).
  assert (∀ m, m ∈ (C b).*1 → m ∉ l'.*1) as Hd'.
  { intros m H1 H2. pose proof (qs_new _ _ _ _ _ _ _ Hq _ H2 (Hd _ H1)) as Hn. by apply (qok_fresh _ _ _ _ Hok Hn). }
  assert (∀ m, m ∈ (C b).*1 → msgs s' !! m = msgs s !! m) as Hf by (intros m H1; apply (qs_other _ _ _ _ _ _ _ Hq); auto).
  split_and!; [done..|]. destruct Hok. split; try done. by eapply mseg_frame.
Qed.

Lemma bytes_qstep C a id q q' l' s s' :
  msg_inv C s → queue_at s id a → mqs s !! a = Some q → qstep a q (C a) q' l' s s' →
  sumZ (bytes_at s') (msgque s') = sumZ (bytes_at s) (msgque s) + bytes l' - bytes (C a).
Proof.
  intros Hi Hu E Hq. rewrite (proj1 (qs_rest _ _ _ _ _ _ _ Hq)). unfold queue_at in Hu.
  rewrite <-(proj1 (qk_bytes _ _ _ (qs_ok _ _ _ _ _ _ _ Hq))), <-(proj1 (qk_bytes _ _ _ (proj1 (mi_queue _ _ Hi _ _ E)))).
  rewrite <-(list_insert_id (msgque s) id (MUsed a)) at 1 by done. rewrite (sumZ_insert _ _ _ _ _ Hu).
  assert (∀ sl, sl ∈ msgque s → bytes_at s' sl = bytes_at s sl ∨ sl = MUsed a) as Hsl.
  { intros [| |b] _; [by left..|]. destruct (decide (b = a)) as [->|Hne]; [by right|left]. cbn. by rewrite (qs_mqs _ _ _ _ _ _ _ Hq), lookup_insert_ne. }
  cut (sumZ (bytes_at s') (<[id := MUnused]> (msgque s)) = sumZ (bytes_at s) (<[id := MUnused]> (msgque s))).
  { rewrite !(sumZ_insert _ _ _ _ _ Hu). cbn. rewrite (qs_mqs _ _ _ _ _ _ _ Hq), lookup_insert_eq, E. lia. }
  apply sumZ_ext. intros sl [j Hj]%list_elem_of_lookup. destruct (decide (j = id)) as [->|Hne].
  - rewrite list_lookup_insert_eq in Hj by (by eapply lookup_lt_Some). injection Hj as <-. done.
  - rewrite list_lookup_insert_ne in Hj by done. destruct (Hsl sl) as [?| ->]; [by apply (list_elem_of_lookup_2 _ j)|done|]. destruct Hne. by eapply (mi_one _ _ Hi).
Qed.

Lemma inv_qstep C a id q q' l' s s' :
  msg_inv C s → queue_at s id a → mqs s !! a = Some q → qstep a q (C a) q' l' s s' → msg_inv (put C a l') s'.
Proof.
  intros Hi Hu E Hq. pose proof (bytes_qstep C a id q q' l' s s' Hi Hu E Hq) as Hb. assert (∀ b, is_Some (mqs s' !! b) ↔ is_Some (mqs s !! b)) as Hdom by (intros; by eapply qstep_dom).
  destruct (qs_rest _ _ _ _ _ _ _ Hq) as (Rq & Rs & Ru & Rm & _), (qs_perm _ _ _ _ _ _ _ Hq) as [Rp _]. pose proof (qstep_others C a q q' l' s s') as Hoth.
  assert (∀ b q1, mqs s' !! b = Some q1 → ∃ q0, mqs s !! b = Some q0 ∧ msg_perm q1 = msg_perm q0 ∧ (b ≠ a → q0 = q1)) as Hback.
  { intros b q1. rewrite (qs_mqs _ _ _ _ _ _ _ Hq). destruct (decide (b = a)) as [->|Hne]; [rewrite lookup_insert_eq|rewrite lookup_insert_ne by done].
    - intros [= <-]. by exists q.
    - intros. by exists q1. }
  split; unfold queue_at in *; rewrite ?Rq, ?Rs, ?Ru, ?Rm; try apply Hi.
  - intros id1 b H1. rewrite Hdom. by apply (mi_used _ _ Hi).
  - intros b q1 Hb1. destruct (Hback b q1 Hb1) as (q0 & E0 & -> & Hsame). split; [|apply (mi_queue _ _ Hi _ _ E0)].
    destruct (decide (b = a)) as [->|Hne]; [rewrite put_eq|rewrite put_ne by done; rewrite <-(Hsame Hne); by apply Hoth].
    rewrite (qs_mqs _ _ _ _ _ _ _ Hq), lookup_insert_eq in Hb1. injection Hb1 as <-. apply Hq.
  - intros a1 a2 m [q1 H1]%Hdom [q2 H2]%Hdom. destruct (decide (a1 = a)) as [->|N1], (decide (a2 = a)) as [->|N2]; rewrite ?put_eq, ?put_ne by done; intros M1 M2; [done|..].
    + by destruct (Hoth a2 q2 Hi E Hq N2 H2) as (_ & Hd & _), (Hd m M2).
    + by destruct (Hoth a1 q1 Hi E Hq N1 H1) as (_ & Hd & _), (Hd m M1).
    + eapply (mi_apart _ _ Hi); by eauto.
  - intros m Hm. setoid_rewrite Hdom. destruct (decide (m ∈ l'.*1)) as [Hin|Hout]; [exists a; rewrite put_eq; eauto|].
    destruct (decide (m ∈ (C a).*1)) as [Hin'|Hout']; [rewrite (qs_gone _ _ _ _ _ _ _ Hq) in Hm by done; by destruct Hm|].
    rewrite (qs_other _ _ _ _ _ _ _ Hq) in Hm by done. destruct (mi_all _ _ Hi m Hm) as (b & Hb1 & Hb2). exists b. rewrite put_ne by naive_solver. done.
  - intros id1 id2 a1 a2 q1 q2 H1 H2 E1 E2. destruct (Hback _ _ E1) as (p1 & F1 & -> & _), (Hback _ _ E2) as (p2 & F2 & -> & _). by eapply (mi_keys _ _ Hi).
  - rewrite (qs_hdrs _ _ _ _ _ _ _ Hq), (mi_hdrs _ _ Hi). pose proof (qs_size _ _ _ _ _ _ _ Hq). lia.
  - rewrite <-Rq, Hb, <-(mi_bytes _ _ Hi). apply Hq.
Qed.

(** ** Lemmas: sending and receiving *)

(** The caller may send to the queue that it names. *)
Definition can_send (x : sender) (q : msqid_ds) : Prop :=
  p_seq (msg_perm q) = m_seq (s_msqid x) ∧ ipcperms (s_caller x) (msg_perm q) S_IWUGO = false.

Definition can_recv (x : receiver) (q : msqid_ds) : Prop :=
  p_seq (msg_perm q) = m_seq (r_msqid x) ∧ ipcperms (r_caller x) (msg_perm q) S_IRUGO = false.

Lemma roomy_len C s a q : msg_inv C s → roomy s → mqs s !! a = Some q → Z.of_nat (length (C a)) + 1 < 2 ^ 16.
Proof. intros Hi Hr E. destruct (mi_queue _ _ Hi _ _ E) as [Hok _]. pose proof (qk_num _ _ _ Hok). specialize (Hr _ _ E). lia. Qed.

Lemma flush_if C x a q s (b : bool) :
  msg_inv C s → mqs s !! a = Some q →
  ∃ q1 k s1, when b (flush_msg (c_now (s_caller x)) a) s = Ret tt s1 ∧ mqs s1 !! a = Some q1 ∧ qstep a q (C a) q1 (drop k (C a)) s s1 ∧ (b = false → k = 0%nat).
Proof.
  intros Hi E. pose proof (proj1 (mi_queue _ _ Hi _ _ E)) as Hok. destruct b; cbn [when].
  - destruct (flush_msg_spec (c_now (s_caller x)) a q (C a) s E Hok) as (q1 & k & s1 & Er & E1 & Hst). by exists q1, k, s1.
  - exists q, 0%nat, s. split_and!; [done..| |done]. by apply qstep_refl.
Qed.

Lemma send_slept_spec C x kmalloc a q s :
  msg_inv C s → mqs s !! a = Some q → may_send x → fresh_msg s kmalloc → roomy s → (can_send x q → queue_at s (m_slot (s_msqid x)) a) →
  ∃ r s', send_slept x kmalloc a s = Ret r s' ∧
    ((¬ can_send x q ∧ s' = s ∧ (r = Some (- EIDRM) ∨ r = Some (- EACCES))) ∨
     (can_send x q ∧ ∃ k q' l', qstep a q (C a) q' l' s s' ∧ send_outcome x kmalloc (msg_qbytes q) (content <$> drop k (C a)) r (content <$> l') ∧
       (kerneld_msqid s ≠ s_msqid x → k = 0%nat))).
Proof.
  intros Hi E Hm Hkm Hroom Hat. unfold send_slept, mbind at 1, M_bind at 1. rewrite (ld_msq_run _ _ _ E). unfold can_send in *.
  destruct (p_seq (msg_perm q) =? m_seq (s_msqid x)) eqn:Es; to_prop; cbn [negb].
  2: { eexists _, s. split; [done|]. left. split; [by intros [? _]|]. split; [done|by left]. }
  destruct (ipcperms _ _ _) eqn:Ep.
  { eexists _, s. split; [done|]. left. split; [by intros [_ ?]|]. split; [done|by right]. }
  unfold mbind, M_bind, gets. set (b := _ && _).
  destruct (flush_if C x a q s b Hi E) as (q1 & k & s1 & -> & E1 & Hst & Hk). pose proof (mi_queue _ _ Hi _ _ E) as [Hok _].
  destruct (qs_perm _ _ _ _ _ _ _ Hst) as [Ep1 El1], (qs_rest _ _ _ _ _ _ _ Hst) as (Eq1 & _).
  destruct (send_room_spec x kmalloc a q1 (drop k (C a)) s1) as (r & q' & l' & s' & Er & Hst' & Ho); try done.
  - apply Hst.
  - intros H0. rewrite (qs_other _ _ _ _ _ _ _ Hst); [by apply Hkm|by apply (qok_fresh _ _ _ _ Hok), Hkm|].
    rewrite fmap_drop. intros Hin. apply (qok_fresh _ _ _ _ Hok (Hkm H0)). rewrite <-(take_drop k). apply elem_of_app. by right.
  - pose proof (roomy_len C s a q Hi Hroom E). rewrite length_drop. lia.
  - rewrite Eq1. by apply Hat.
  - by rewrite Ep1.
  - exists r, s'. split; [done|]. right. split; [done|]. exists k, q', l'. rewrite El1 in Ho. split_and!; [by eapply qstep_trans|done|].
    intros Hne. apply Hk. unfold b. rewrite (proj2 (Z.eqb_neq _ _) Hne), !andb_false_r. done.
Qed.

Lemma recv_spec C x a q s :
  msg_inv C s → mqs s !! a = Some q → 0 ≤ r_size x →
  ∃ r s', recv_slept x a s = Ret r s' ∧
    ((¬ can_recv x q ∧ s' = s ∧ (r = Some (- EIDRM, None) ∨ r = Some (- EACCES, None))) ∨
     (can_recv x q ∧ ∃ q' l', qstep a q (C a) q' l' s s' ∧ recv_outcome x (content <$> C a) r (content <$> l'))).
Proof.
  intros Hi E Hsz. unfold can_recv. destruct (decide (p_seq (msg_perm q) = m_seq (r_msqid x))) as [Es|Es].
  - destruct (ipcperms (r_caller x) (msg_perm q) S_IRUGO) eqn:Ep.
    + exists (Some (- EACCES, None)), s. split.
      * unfold recv_slept, mbind, M_bind. by rewrite (ld_msq_run _ _ _ E), Es, Z.eqb_refl, Ep.
      * left. split; [by intros [_ ?]|]. split; [done|by right].
    + destruct (recv_slept_spec x a q (C a) s) as (r & q' & l' & s' & Er & Hst & Ho); try done; [apply (mi_queue _ _ Hi _ _ E)|].
      exists r, s'. split; [done|]. right. split; [done|]. by exists q', l'.
  - exists (Some (- EIDRM, None)), s. split.
    + unfold recv_slept, mbind, M_bind. by rewrite (ld_msq_run _ _ _ E), (proj2 (Z.eqb_neq _ _) Es).
    + left. split; [by intros [? _]|]. split; [done|by left].
Qed.
