(* ===== verification/MsgCalls.v ===== *)
(** * MsgCalls: the calls on message queues

    Every system call and every wake-up returns and keeps the invariant; sending
    and receiving act on the queue as on a mailbox; and what happens when the
    counter of messages wraps around. *)

From stdpp Require Import gmap relations.
From S2P Require Import Prelude Cred Sem Msg MsgFacts MsgSys.

(** ** Lemmas: creating a queue *)

Lemma m_first_unused_spec sl : match m_first_unused sl with Some id => sl !! id = Some MUnused | None => True end.
Proof. induction sl as [|[] sl IH]; try done; cbn; by destruct (m_first_unused sl). Qed.

Definition new_msq (c : caller) (key msgflg seq : Z) : msqid_ds :=
  MkMsq (MkPerm key (euid (c_cred c)) (egid (c_cred c)) (euid (c_cred c)) (egid (c_cred c)) (Z.land msgflg S_IRWXUGO) seq)
    0 0 0 0 (c_now c) 0 0 MSGMNB 0 0.

Definition queued (s : ms) (id : nat) (a : Z) (q : msqid_ds) : ms :=
  s <| msgque := <[id := MUsed a]> (msgque s) |> <| mqs := <[a := q]> (mqs s) |>
    <| max_msqid := Nat.max id (max_msqid s) |> <| used_queues := used_queues s + 1 |>.

Lemma newque_run c kmalloc key msgflg s :
  (∃ e, e < -1 ∧ newque c (λ s, s) kmalloc key msgflg s = Ret e s) ∨
  ∃ id, msgque s !! id = Some MUnused ∧ kmalloc ≠ 0 ∧
    newque c (λ s, s) kmalloc key msgflg s = Ret (m_ident (msg_seq s) id) (queued s id kmalloc (new_msq c key msgflg (msg_seq s))).
Proof.
  unfold newque, set_mslot, mbind, M_bind, gets, modify. pose proof (m_first_unused_spec (msgque s)) as Hf.
  destruct (m_first_unused (msgque s)) as [id|]; [|left; by exists (- ENOSPC)]. destruct (kmalloc =? 0) eqn:E; to_prop.
  - left. exists (- ENOMEM). split; [done|]. cbn. rewrite list_insert_insert_eq, list_insert_id by done. by destruct s.
  - right. exists id. split_and!; [done..|]. unfold queued. cbn. by rewrite list_insert_insert_eq.
Qed.

Lemma queue_at_insert s s' id sl id1 a :
  msgque s' = <[id := sl]> (msgque s) → (id < length (msgque s))%nat → queue_at s' id1 a ↔ (id1 = id ∧ sl = MUsed a ∨ id1 ≠ id ∧ queue_at s id1 a).
Proof.
  intros Ea Hl. unfold queue_at. rewrite Ea. destruct (decide (id1 = id)) as [->|Hne].
  - rewrite list_lookup_insert_eq by done. naive_solver.
  - rewrite list_lookup_insert_ne by done. naive_solver.
Qed.

Lemma queued_ok C s id a c key msgflg :
  msg_inv C s → msgque s !! id = Some MUnused → a ≠ 0 → mqs s !! a = None →
  (key = IPC_PRIVATE ∨ ∀ i b q, queue_at s i b → mqs s !! b = Some q → p_key (msg_perm q) ≠ key) →
  msg_inv (put C a []) (queued s id a (new_msq c key msgflg (msg_seq s))).
Proof.
  intros Hi Hf Ha Hfr Hk. set (q := new_msq _ _ _ _). set (s' := queued s id a q). pose proof (lookup_lt_Some _ _ _ Hf) as Hlt.
  assert (∀ id1 b, queue_at s' id1 b ↔ (id1 = id ∧ MUsed a = MUsed b ∨ id1 ≠ id ∧ queue_at s id1 b)) as Hat by (intros; by apply queue_at_insert). pose proof Hi as [I1 I2 I3 I4 I5 I6 I7 I8 I9 I10 I11 [I12 I13]].
  assert (∀ i, ¬ queue_at s i a) as Hno by (intros i H; apply I3 in H as [[? H] _]; congruence).
  assert (∀ b, is_Some (mqs s' !! b) → b = a ∨ b ≠ a ∧ is_Some (mqs s !! b)) as Hm.
  { intros b. cbn. destruct (decide (b = a)) as [->|Hne]; [by left|]. rewrite lookup_insert_ne by done. by right. }
  split; try done.
  - cbn. by rewrite length_insert.
  - cbn. intros [j Hj]%list_elem_of_lookup. destruct (decide (j = id)) as [->|Hne]; [by rewrite list_lookup_insert_eq in Hj by done|].
    rewrite list_lookup_insert_ne in Hj by done. apply I2. by eapply list_elem_of_lookup_2.
  - intros id1 b [[-> [= <-]]|[Hne H1]]%Hat; cbn; [split; [rewrite lookup_insert_eq; eauto|lia]|].
    destruct (I3 _ _ H1) as [Hs Hle]. split; [|lia]. rewrite lookup_insert_ne; [done|]. intros <-. by apply (Hno id1).
  - intros id1 id2 b [[-> [= <-]]|[N1 H1]]%Hat [[-> Hb]|[N2 H2]]%Hat; try done; [by destruct (Hno id2)|injection Hb as <-; by destruct (Hno id1)|by eapply I4].
  - cbn. intros b q1. destruct (decide (b = a)) as [->|Hne].
    + rewrite lookup_insert_eq, put_eq. intros [= <-]. split; [|done]. split; cbn; try done; try (apply NoDup_nil_2); lia.
    + rewrite lookup_insert_ne, put_ne by done. apply I5.
  - intros a1 a2 m [->|[N1 H1]]%Hm [->|[N2 H2]]%Hm; rewrite ?put_eq, ?put_ne by done; try done; [set_solver..|]. by apply I6.
  - intros m Hs. destruct (I7 m Hs) as (b & [q1 Hb] & Hin). exists b. assert (b ≠ a) as Hne by congruence. cbn. rewrite lookup_insert_ne, put_ne by done. eauto.
  - intros id1 id2 a1 a2 q1 q2 [[-> [= <-]]|[N1 H1]]%Hat [[-> Hb]|[N2 H2]]%Hat; try done; try (injection Hb as <-); cbn.
    + assert (a2 ≠ a) by (intros ->; by destruct (Hno id2)). rewrite lookup_insert_eq, lookup_insert_ne by done. intros [= <-] E2 Ek Hnp.
      destruct Hk as [|Hk]; [done|]. by destruct (Hk _ _ _ H2 E2).
    + assert (a1 ≠ a) by (intros ->; by destruct (Hno id1)). rewrite lookup_insert_eq, lookup_insert_ne by done. intros E1 [= <-] Ek Hnp. cbn in Ek.
      destruct Hk as [|Hk]; [congruence|]. by destruct (Hk _ _ _ H1 E1).
    + rewrite !lookup_insert_ne by (intros ->; naive_solver). by apply I8.
  - cbn [msgbytes msgque queued upd]. change (msgbytes s') with (msgbytes s). change (msgque s') with (<[id := MUsed a]> (msgque s)).
    rewrite (sumZ_insert _ _ _ _ _ Hf), I10. rewrite (sumZ_ext (bytes_at s') (bytes_at s)); [cbn; rewrite lookup_insert_eq; cbn; lia|].
    intros [| |b] Hb; try done. cbn. rewrite lookup_insert_ne; [done|]. intros <-. apply list_elem_of_lookup in Hb as [j Hj]. by apply (Hno j).
  - change (used_queues s') with (used_queues s + 1). change (msgque s') with (<[id := MUsed a]> (msgque s)). rewrite (sumZ_insert _ _ _ _ _ Hf), I11. cbn. lia.
  - split; [done|]. change (max_msqid s') with (Nat.max id (max_msqid s)). rewrite <-I1. lia.
Qed.

(** Fields that the invariant does not depend on. *)
Definition same_tables (s s' : ms) : Prop :=
  msgque s' = msgque s ∧ msgbytes s' = msgbytes s ∧ msghdrs s' = msghdrs s ∧ msg_seq s' = msg_seq s ∧
  used_queues s' = used_queues s ∧ max_msqid s' = max_msqid s ∧ mqs s' = mqs s ∧ msgs s' = msgs s.

Lemma same_tables_inv C s s' : same_tables s s' → msg_inv C s → msg_inv C s'.
Proof.
  destruct s, s'. unfold same_tables. cbn. intros (-> & -> & -> & -> & -> & -> & -> & ->) [I1 I2 I3 I4 I5 I6 I7 I8 I9 I10 I11 I12]. by split.
Qed.

Lemma same_tables_sys C s s' A D : same_tables s s' → sys_inv C (MkMsys s A D) → sys_inv C (MkMsys s' A D).
Proof.
  intros Hs [I1 I2 I3 I4]. cbn in *. pose proof (same_tables_inv C s s' Hs I1). destruct Hs as (E1 & _ & _ & _ & _ & _ & E7 & _).
  split; cbn; unfold home, queue_at in *; rewrite ?E1, ?E7; done.
Qed.

Lemma queued_sys C s A D id a c key msgflg :
  sys_inv C (MkMsys s A D) → msgque s !! id = Some MUnused → a ≠ 0 → mqs s !! a = None →
  (key = IPC_PRIVATE ∨ ∀ i b q, queue_at s i b → mqs s !! b = Some q → p_key (msg_perm q) ≠ key) →
  sys_inv (put C a []) (MkMsys (queued s id a (new_msq c key msgflg (msg_seq s))) A D).
Proof.
  intros [I1 I2 I3 I4] Hf Ha Hfr Hk. cbn in *. set (s' := queued _ _ _ _).
  assert (∀ id1 b, queue_at s' id1 b ↔ (id1 = id ∧ MUsed a = MUsed b ∨ id1 ≠ id ∧ queue_at s id1 b)) as Hat by (intros; apply queue_at_insert; [done|by eapply lookup_lt_Some]).
  assert (∀ b, b ≠ a → mqs s' !! b = mqs s !! b) as Hm by (intros; by apply lookup_insert_ne).
  split; cbn [st asleep dying].
  - by apply queued_ok.
  - intros t w Hw. destruct (I2 t w Hw) as (q & Eq & Hok & Hh). exists q. rewrite Hm by congruence. split_and!; [done..|]. rewrite Hat.
    destruct Hh as [[Hh Hs]|Hh]; [|by right]. left. split; [|done]. right. split; [|done]. intros Heq. unfold queue_at in Hh. congruence.
  - intros b Hb. destruct (I3 b Hb) as [Hs Hno]. assert (b ≠ a) by (intros ->; rewrite Hfr in Hs; by destruct Hs). rewrite Hm by done. split; [done|].
    intros i [[_ [= <-]]|[_ Hi]]%Hat; [done|]. by apply (Hno i).
  - intros b. destruct (decide (b = a)) as [->|Hne]; [intros _; right; exists id; apply Hat; by left|]. rewrite Hm by done. intros Hb.
    destruct (I4 b Hb) as [?|[i Hi]]; [by left|]. right. exists i. apply Hat. right. split; [|done]. intros ->. unfold queue_at in Hi. congruence.
Qed.

Lemma newque_sys C c kmalloc key msgflg s A D :
  sys_inv C (MkMsys s A D) → fresh_msq s kmalloc →
  (key = IPC_PRIVATE ∨ ∀ i b q, queue_at s i b → mqs s !! b = Some q → p_key (msg_perm q) ≠ key) →
  ∃ r s' C', newque c (λ s, s) kmalloc key msgflg s = Ret r s' ∧ sys_inv C' (MkMsys s' A D).
Proof.
  intros Hi Hfr Hk. destruct (newque_run c kmalloc key msgflg s) as [(e & He & E)|(id & Hf & Hk0 & E)]; rewrite E.
  - by exists e, s, C.
  - eexists _, _, _. split; [done|]. apply queued_sys; try done. by apply Hfr.
Qed.

Lemma slot_cases C s i : msg_inv C s → (i < Z.to_nat MSGMNI)%nat →
  msgque s !! i = Some MUnused ∨ ∃ a q, queue_at s i a ∧ mqs s !! a = Some q.
Proof.
  intros Hi Hlt. destruct (lookup_lt_is_Some_2 (msgque s) i) as [sl E]; [by rewrite (mi_len _ _ Hi)|]. destruct sl as [| |a]; [by left| |].
  - destruct (mi_noid _ _ Hi). by eapply list_elem_of_lookup_2.
  - right. destruct (mi_used _ _ Hi i a E) as [[q Eq] _]. by exists a, q.
Qed.

Lemma m_slot_lt msqid : (m_slot msqid < Z.to_nat MSGMNI)%nat.
Proof. unfold m_slot. pose proof (Z.mod_pos_bound msqid MSGMNI ltac:(done)). unfold MSGMNI in *. lia. Qed.

Lemma m_findkey_from_spec C key s fuel : ∀ id,
  msg_inv C s → (Z.to_nat MSGMNI - id < fuel)%nat →
  ∃ r, m_findkey_from fuel [] key id s = Ret r s ∧
    match r with
    | Some i => ∃ a q, queue_at s i a ∧ mqs s !! a = Some q ∧ p_key (msg_perm q) = key
    | None => ∀ i a q, (id ≤ i)%nat → queue_at s i a → mqs s !! a = Some q → p_key (msg_perm q) ≠ key
    end.
Proof.
  induction fuel as [|fuel IH]; intros id Hi Hf; [lia|]. cbn [m_findkey_from]. unfold mbind, M_bind, gets.
  destruct (Nat.ltb_spec (max_msqid s) id) as [Em|Em].
  { exists None. split; [done|]. intros i a q Hle Hu. apply (mi_used _ _ Hi) in Hu as [_ Hu]. lia. }
  destruct (mi_vars _ _ Hi) as [_ Hmax]. destruct (IH (S id) Hi ltac:(lia)) as (r & E & Hr).
  destruct (slot_cases C s id Hi ltac:(lia)) as [Es|(a & q & Hu & Eq)].
  - assert (m_wait_id [] id s = Ret [] s) as ->. { cbn. unfold mbind, M_bind, gets. by rewrite Es. }
    rewrite Es. exists r. split; [done|]. destruct r; [done|]. intros i a q Hle Hu. destruct (decide (i = id)) as [->|]; [unfold queue_at in Hu; congruence|].
    apply (Hr i a q); [lia|done].
  - assert (m_wait_id [] id s = Ret [] s) as ->. { cbn. unfold mbind, M_bind, gets. by rewrite Hu. }
    rewrite Hu, (ld_msq_run _ _ _ Eq). destruct (key =? p_key (msg_perm q)) eqn:Ek; to_prop; [exists (Some id); split; [done|]; by exists a, q|].
    exists r. split; [done|]. destruct r; [done|]. intros i b q1 Hle Hu1 E1. destruct (decide (i = id)) as [->|]; [|apply (Hr i b q1); [lia|done..]].
    unfold queue_at in *. assert (b = a) as -> by congruence. congruence.
Qed.

Lemma add_kerneld_ok pid arr : ∀ i s, ∃ r s', add_kerneld pid i arr s = Ret r s' ∧ same_tables s s'.
Proof.
  induction arr as [|p arr IH]; intros i s; cbn; [by eexists _, s|]. destruct (p =? 0); [|apply IH]. unfold mbind, M_bind, modify, gets. by eexists _, _.
Qed.

Lemma msgget_ok C c kmalloc key msgflg s A D :
  sys_inv C (MkMsys s A D) → fresh_msq s kmalloc →
  ∃ r s' C', sys_msgget c [] (λ s, s) kmalloc key msgflg s = Ret r s' ∧ sys_inv C' (MkMsys s' A D).
Proof.
  intros Hi Hfr. unfold sys_msgget. destruct (has msgflg IPC_KERNELD).
  - unfold msgget_kerneld. destruct (fst (suser (c_cred c))); cbn [negb]; [|by exists (- EPERM), s, C].
    destruct (_ =? OLDIPC_KERNELD); [by exists (- EPERM), s, C|]. unfold mbind at 1, M_bind at 1, gets at 1. destruct (kerneld_msqid s =? -1) eqn:Ek; cbn [when andb].
    + destruct (newque_sys C c kmalloc IPC_PRIVATE (Z.land msgflg S_IRWXU) s A D) as (r & s1 & C1 & E & Hi1); [done..|by left|].
      unfold mbind, M_bind. rewrite E. unfold modify, gets. set (s2 := s1 <| kerneld_msqid := r |>). apply (same_tables_sys C1 s1 s2) in Hi1; [|done].
      destruct (kerneld_msqid s2 <? 0); [by eexists _, s2, C1|].
      destruct (add_kerneld_ok (c_pid c) (kerneld_arr s2) 0 s2) as (r' & s' & -> & Hs). exists r', s', C1. split; [done|]. by eapply same_tables_sys.
    + unfold mbind, M_bind, mret, M_ret, gets.
      destruct (add_kerneld_ok (c_pid c) (kerneld_arr s) 0 s) as (r' & s' & -> & Hs). exists r', s', C. split; [done|]. by eapply same_tables_sys.
  - destruct (key =? IPC_PRIVATE) eqn:Ek; to_prop; [apply (newque_sys C); [done..|by left]|].
    destruct (m_findkey_from_spec C key s (S (Z.to_nat MSGMNI)) 0 (sy_inv _ _ Hi) ltac:(lia)) as (r & E & Hr). unfold m_findkey, mbind at 1, M_bind at 1. rewrite E.
    destruct r as [id|].
    + destruct Hr as (a & q & Hu & Eq & _). destruct (_ && _); [by eexists _, s, C|]. unfold mbind, M_bind, gets. rewrite Hu, (ld_msq_run _ _ _ Eq).
      destruct (ipcperms _ _ _); by eexists _, s, C.
    + destruct (negb _); [by eexists _, s, C|]. apply (newque_sys C); [done..|]. right. intros i b q. apply Hr. lia.
Qed.

(** ** Lemmas: changing and removing a queue *)

Definition with_msq (s : ms) (a : Z) (q : msqid_ds) : ms := s <| mqs := <[a := q]> (mqs s) |>.

Lemma with_msq_inv C s a q q' :
  msg_inv C s → mqs s !! a = Some q → q_ok (msgs s) q' (C a) → 0 ≤ p_seq (msg_perm q') < 2 ^ 16 →
  p_key (msg_perm q') = p_key (msg_perm q) → msg_inv C (with_msq s a q').
Proof.
  intros [I1 I2 I3 I4 I5 I6 I7 I8 I9 I10 I11 I12] E Hok Hs Hk. destruct (I5 _ _ E) as (Hok0 & _ & Ha). unfold with_msq.
  assert (∀ b, is_Some (<[a := q']> (mqs s) !! b) ↔ is_Some (mqs s !! b)) as Hd.
  { intros b. destruct (decide (b = a)) as [->|Hne]; [rewrite lookup_insert_eq, E; naive_solver|by rewrite lookup_insert_ne]. }
  assert (∀ b q1, <[a := q']> (mqs s) !! b = Some q1 → ∃ q0, mqs s !! b = Some q0 ∧ p_key (msg_perm q1) = p_key (msg_perm q0)) as Hb.
  { intros b q1. destruct (decide (b = a)) as [->|Hne]; [rewrite lookup_insert_eq|rewrite lookup_insert_ne by done].
    - intros [= <-]. by exists q.
    - intros. by exists q1. }
  split; unfold queue_at in *; cbn; try done.
  - intros id b H. rewrite Hd. by apply I3.
  - intros b q1. destruct (decide (b = a)) as [->|Hne]; [rewrite lookup_insert_eq|rewrite lookup_insert_ne by done; apply I5]. by intros [= <-].
  - intros a1 a2 m. rewrite !Hd. apply I6.
  - intros m. setoid_rewrite Hd. apply I7.
  - intros id1 id2 a1 a2 q1 q2 H1 H2 E1 E2. destruct (Hb _ _ E1) as (p1 & F1 & ->), (Hb _ _ E2) as (p2 & F2 & ->). by eapply I8.
  - rewrite I10. apply sumZ_ext. intros [| |b] _; try done. cbn. destruct (decide (b = a)) as [->|Hne]; [|by rewrite lookup_insert_ne].
    rewrite lookup_insert_eq, E, (proj1 (qk_bytes _ _ _ Hok)), (proj1 (qk_bytes _ _ _ Hok0)). done.
Qed.

Lemma m_lower_ge sl max i a : (i < max)%nat → sl !! i = Some (MUsed a) → (i ≤ m_lower sl max)%nat.
Proof.
  induction max as [|m IH]; intros Hi Ex; [lia|]. cbn. destruct (decide (i = m)) as [->|Hne].
  - by rewrite Ex.
  - destruct (sl !! m) as [[]|]; try lia. apply IH; [lia|done].
Qed.

Lemma m_lower_le sl max : (m_lower sl max ≤ max)%nat.
Proof. induction max as [|m IH]; cbn; [done|]. destruct (sl !! m) as [[]|]; lia. Qed.

(** The table without queue [a] at [id]. *)
Definition off_table (s : ms) (id : nat) (q : msqid_ds) : ms :=
  s <| msg_seq := u16 ((msg_seq s + 1) mod (2 ^ 31 / MSGMNI)) |> <| msgbytes := msgbytes s - msg_cbytes q |>
    <| max_msqid := if (id =? max_msqid s)%nat then m_lower (msgque s) (max_msqid s) else max_msqid s |>
    <| msgque := <[id := MUnused]> (msgque s) |> <| used_queues := used_queues s - 1 |>.

Lemma off_table_inv C s id a q :
  msg_inv C s → queue_at s id a → mqs s !! a = Some q → msg_inv C (off_table s id q).
Proof.
  intros Hi Hu E. pose proof Hi as [I1 I2 I3 I4 I5 I6 I7 I8 I9 I10 I11 [I12 I13]]. pose proof (lookup_lt_Some _ _ _ Hu) as Hlt. set (s' := off_table s id q).
  assert (∀ id1 b, queue_at s' id1 b ↔ id1 ≠ id ∧ queue_at s id1 b) as Hat.
  { intros id1 b. rewrite (queue_at_insert s s' id MUnused) by done. naive_solver. }
  assert (max_msqid s' = if (id =? max_msqid s)%nat then m_lower (msgque s) (max_msqid s) else max_msqid s) as Hmax by done.
  split; try done.
  - cbn. by rewrite length_insert.
  - cbn. intros [j Hj]%list_elem_of_lookup. destruct (decide (j = id)) as [->|Hne]; [by rewrite list_lookup_insert_eq in Hj by done|].
    rewrite list_lookup_insert_ne in Hj by done. apply I2. by eapply list_elem_of_lookup_2.
  - intros id1 b [Hne H1]%Hat. destruct (I3 _ _ H1) as [Hs Hle]. split; [done|]. rewrite Hmax.
    destruct (Nat.eqb_spec id (max_msqid s)) as [->|]; [|done]. apply (m_lower_ge _ _ _ b); [lia|done].
  - intros id1 id2 b [_ H1]%Hat [_ H2]%Hat. by eapply I4.
  - intros id1 id2 a1 a2 q1 q2 [_ H1]%Hat [_ H2]%Hat. by eapply I8.
  - change (msgbytes s') with (msgbytes s - msg_cbytes q). change (sumZ _ _) with (sumZ (bytes_at s) (<[id := MUnused]> (msgque s))).
    rewrite (sumZ_insert _ _ _ _ _ Hu), I10. cbn. rewrite E. lia.
  - change (used_queues s') with (used_queues s - 1). change (msgque s') with (<[id := MUnused]> (msgque s)). rewrite (sumZ_insert _ _ _ _ _ Hu), I11. cbn. lia.
  - split; [apply u16_range|]. rewrite Hmax. destruct (id =? max_msqid s)%nat; [|done]. pose proof (m_lower_le (msgque s) (max_msqid s)). lia.
Qed.

Definition reseq (q : msqid_ds) : msqid_ds := q <| msg_perm := (msg_perm q) <| p_seq := u16 (p_seq (msg_perm q) + 1) |> |>.

Lemma freeque_start_run s id a q :
  mqs s !! a = Some q → freeque_start id a s = Ret a (off_table (with_msq s a (reseq q)) id q).
Proof. intros E. unfold freeque_start, mbind, M_bind. by rewrite (ld_msq_run _ _ _ E), (st_msq_run _ _ _ _ E). Qed.

Lemma q_ok_perm H q q' l :
  q_ok H q l → msg_first q' = msg_first q → msg_last q' = msg_last q → msg_qnum q' = msg_qnum q → msg_cbytes q' = msg_cbytes q →
  0 ≤ msg_qbytes q' < 2 ^ 16 → q_ok H q' l.
Proof. intros [Q1 Q2 Q3 Q4 Q5 Q6 Q7] E1 E2 E3 E4 Hl. split; rewrite ?E1, ?E2, ?E3, ?E4; done. Qed.

Lemma freeque_start_sys C s A D id a q :
  sys_inv C (MkMsys s A D) → queue_at s id a → mqs s !! a = Some q →
  ∃ s', freeque_start id a s = Ret a s' ∧ sys_inv C (MkMsys s' A ({[ a ]} ∪ D)).
Proof.
  intros [I1 I2 I3 I4] Hu E. cbn in *. rewrite (freeque_start_run s id a q E). eexists. split; [done|]. set (s' := off_table _ _ _).
  destruct (mi_queue _ _ I1 _ _ E) as (Hok & Hseq & _). assert (p_seq (msg_perm (reseq q)) ≠ p_seq (msg_perm q)) as Hne.
  { cbn. unfold u16. destruct (decide (p_seq (msg_perm q) + 1 = 2 ^ 16)) as [Heq|]; [rewrite Heq, Z_mod_same_full; lia|]. rewrite Z.mod_small; lia. }
  assert (∀ id1 b, queue_at s' id1 b ↔ id1 ≠ id ∧ queue_at s id1 b) as Hat.
  { intros id1 b. rewrite (queue_at_insert s s' id MUnused); [naive_solver|done|by eapply lookup_lt_Some]. }
  assert (mqs s' !! a = Some (reseq q)) as Ea by apply lookup_insert_eq. assert (∀ b, b ≠ a → mqs s' !! b = mqs s !! b) as Hm by (intros; by apply lookup_insert_ne).
  split; cbn [st asleep dying].
  - subst s'. replace (off_table _ _ _) with (off_table (with_msq s a (reseq q)) id (reseq q)) by done.
    eapply off_table_inv; [|done|apply lookup_insert_eq]. eapply with_msq_inv; [done..| | |done]; [|cbn; apply u16_range]. eapply q_ok_perm; [done..|apply Hok].
  - intros t w Hw. destruct (I2 t w Hw) as (q1 & Eq & Hw' & Hh). unfold home. destruct (decide (sl_addr w = a)) as [Ew|Nw].
    + rewrite Ew in *. exists (reseq q). split_and!; [done..|]. right. split; [set_solver|]. destruct Hh as [[_ Hh]|[Hh _]]; [congruence|]. by destruct (proj2 (I3 _ Hh) id).
    + exists q1. rewrite Hm by done. split_and!; [done..|]. destruct Hh as [[Hh Hs]|[Hh Hs]]; [left|right; set_solver]. split; [|done]. apply Hat.
      split; [|done]. intros Heq. rewrite Heq in Hh. unfold queue_at in *. congruence.
  - intros b [->%elem_of_singleton|Hb]%elem_of_union.
    + rewrite Ea. split; [eauto|]. intros i [Hi1 Hi2]%Hat. apply Hi1. by eapply (mi_one _ _ I1).
    + destruct (I3 b Hb) as [Hs Hno]. rewrite Hm by (intros ->; by destruct (Hno id)). split; [done|]. intros i [_ Hi]%Hat. by apply (Hno i).
  - intros b Hb. destruct (decide (b = a)) as [->|Hba]; [left; set_solver|]. rewrite Hm in Hb by done. destruct (I4 b Hb) as [Hd|[i Hi]]; [left; set_solver|].
    right. exists i. apply Hat. split; [|done]. intros ->. unfold queue_at in *. congruence.
Qed.

Lemma with_msq_sys C s A D a q q' :
  sys_inv C (MkMsys s A D) → mqs s !! a = Some q → q_ok (msgs s) q' (C a) →
  p_seq (msg_perm q') = p_seq (msg_perm q) → p_key (msg_perm q') = p_key (msg_perm q) → sys_inv C (MkMsys (with_msq s a q') A D).
Proof.
  intros [I1 I2 I3 I4] E Hok Hs Hk. cbn in *. assert (∀ b, is_Some (mqs (with_msq s a q') !! b) ↔ is_Some (mqs s !! b)) as Hd.
  { intros b. cbn. destruct (decide (b = a)) as [->|Hne]; [rewrite lookup_insert_eq, E; naive_solver|by rewrite lookup_insert_ne]. }
  split; cbn [st asleep dying].
  - eapply with_msq_inv; try done. rewrite Hs. by apply (mi_queue _ _ I1) in E as (_ & ? & _).
  - intros t w Hw. destruct (I2 t w Hw) as (q1 & Eq & Hw' & Hh). unfold home. destruct (decide (sl_addr w = a)) as [Ew|Nw].
    + rewrite Ew in *. exists q'. split; [apply lookup_insert_eq|]. assert (q1 = q) as -> by congruence. by rewrite Hs.
    + exists q1. split; [|done]. cbn. by rewrite lookup_insert_ne.
  - intros b Hb. rewrite Hd. by apply I3.
  - intros b. rewrite Hd. by apply I4.
Qed.

Lemma mctl_set_ok C c a q buf s A D :
  sys_inv C (MkMsys s A D) → mqs s !! a = Some q → 0 ≤ b_qbytes buf < 2 ^ 16 →
  ∃ r s', mctl_set c a q buf s = Ret r s' ∧ sys_inv C (MkMsys s' A D).
Proof.
  intros Hi E Hb. unfold mctl_set. destruct (negb _); [by eexists _, s|]. destruct (_ && _); [by eexists _, s|].
  unfold mbind, M_bind. rewrite (st_msq_run _ _ _ _ E). eexists _, _. split; [done|]. eapply with_msq_sys; [done..| |done|done].
  destruct (mi_queue _ _ (sy_inv _ _ Hi) _ _ E) as (Hok & _). by eapply q_ok_perm.
Qed.

Lemma msgctl_ok C c msqid cmd buf s A D :
  sys_inv C (MkMsys s A D) → 0 ≤ b_qbytes buf < 2 ^ 16 →
  ∃ r p s', sys_msgctl c msqid cmd buf s = Ret (r, p) s' ∧ sys_inv C (MkMsys s' A (removed p ∪ D)).
Proof.
  intros Hi Hb. unfold sys_msgctl. assert (∀ (r : Z) p, removed p = ∅ → ∃ (r' : Z) p' s', Ret (r, p) s = Ret (r', p') s' ∧ sys_inv C (MkMsys s' A (removed p' ∪ D))) as Hstay.
  { intros r p Hp. exists r, p, s. split; [done|]. by rewrite Hp, union_empty_l_L. }
  destruct ((msqid <? 0) || (cmd <? 0)) eqn:E0; [by apply Hstay|]. apply orb_false_iff in E0 as [E0 _]. to_prop.
  destruct ((cmd =? IPC_INFO) || (cmd =? MSG_INFO)).
  { unfold mctl_info, mbind, M_bind, gets. destruct (negb _); apply Hstay; [done|]. by destruct (cmd =? MSG_INFO). }
  destruct (cmd =? MSG_STAT).
  { unfold mctl_stat, mbind, M_bind, gets. destruct (negb _); [by apply Hstay|]. destruct (Z.of_nat (max_msqid s) <? msqid) eqn:Em; [by apply Hstay|]. to_prop.
    destruct (mi_vars _ _ (sy_inv _ _ Hi)) as [_ Hmax]. cbn in Hmax. destruct (slot_cases C s (Z.to_nat msqid)) as [->|(a & q & Hu & Eq)]; [apply Hi|lia|by apply Hstay|].
    rewrite Hu, (ld_msq_run _ _ _ Eq). destruct (ipcperms _ _ _); by apply Hstay. }
  destruct (_ && _); [by apply Hstay|]. unfold mbind at 1, M_bind at 1, gets.
  destruct (slot_cases C s (m_slot msqid)) as [->|(a & q & Hu & Eq)]; [apply Hi|apply m_slot_lt|by apply Hstay|]. unfold mbind, M_bind. rewrite Hu, (ld_msq_run _ _ _ Eq).
  destruct (negb (_ =? m_seq _)); [by apply Hstay|]. destruct (cmd =? IPC_STAT); [destruct (ipcperms _ _ _); by apply Hstay|].
  destruct (cmd =? IPC_SET).
  { destruct (mctl_set_ok C c a q buf s A D Hi Eq Hb) as (r & s' & -> & Hi'). exists r, MNone, s'. split; [done|]. cbn [removed]. by rewrite union_empty_l_L. }
  destruct (cmd =? IPC_RMID); [|by apply Hstay]. destruct (negb _); [by apply Hstay|].
  set (b := _ && _). set (s1 := if b then s <| kerneld_msqid := -1 |> else s).
  replace (when b _ s) with (Ret tt s1) by (unfold s1; by destruct b).
  assert (same_tables s s1) as Hsame by (unfold s1; by destruct b). apply (same_tables_sys C s s1) in Hi; [|done].
  destruct (freeque_start_sys C s1 A D (m_slot msqid) a q Hi) as (s' & -> & Hi').
  - unfold s1. by destruct b.
  - unfold s1. by destruct b.
  - by exists 0, (MRemove a), s'.
Qed.

Lemma kerneld_exit_ok C c s A D :
  sys_inv C (MkMsys s A D) →
  ∃ p s', kerneld_exit c s = Ret p s' ∧ sys_inv C (MkMsys s' A (match p with Some a => {[ a ]} | None => ∅ end ∪ D)).
Proof.
  intros Hi. assert (∀ s1, same_tables s s1 → ∃ (p : option Z) s', Ret None s1 = Ret p s' ∧ sys_inv C (MkMsys s' A (match p with Some a => {[ a ]} | None => ∅ end ∪ D))) as Hstay.
  { intros s1 H1. exists None, s1. split; [done|]. rewrite union_empty_l_L. by eapply same_tables_sys. }
  unfold kerneld_exit, mbind at 1, M_bind at 1, gets at 1. destruct (_ =? _); [by apply Hstay|]. unfold mbind at 1, M_bind at 1, gets at 1.
  destruct (find_kerneld _ _) as [i|]; [|by apply Hstay]. unfold mbind at 1, M_bind at 1, modify. set (s1 := _ <| n_kernelds := _ |>).
  unfold mbind at 1, M_bind at 1, gets. destruct (_ =? 0); [|by apply Hstay].
  assert (sys_inv C (MkMsys s1 A D)) as Hi1 by (by apply (same_tables_sys C s)).
  destruct (msgctl_ok C c (kerneld_msqid s) IPC_RMID (MkBufArg (- EFAULT) 0 0 0 0) s1 A D Hi1) as (r & p & s' & E & Hi'); [done|].
  unfold mbind, M_bind. rewrite E. eexists _, s'. split; [done|]. cbn [snd]. by destruct p.
Qed.

(** ** Lemmas: the end of a queue *)

Lemma free_msgs_spec l : ∀ fuel m s,
  seg (msgs s) m l 0 → NoDup l.*1 → (length l < fuel)%nat →
  ∃ H, free_msgs fuel m s = Ret tt (s <| msghdrs := msghdrs s - Z.of_nat (length l) |> <| msgs := H |>) ∧
    (∀ b, H !! b = if decide (b ∈ l.*1) then None else msgs s !! b) ∧ Z.of_nat (size H) = Z.of_nat (size (msgs s)) - Z.of_nat (length l).
Proof.
  induction l as [|[b x] l IH]; intros [|fuel] m s Hs Hn Hf; cbn in Hf; try lia; cbn [free_msgs].
  - cbn in Hs. subst m. exists (msgs s). split_and!; [|intros b; rewrite decide_False; [done|apply not_elem_of_nil]|cbn; lia].
    cbn. rewrite Z.sub_0_r. by destruct s.
  - destruct Hs as (-> & Hb & E & Hs). rewrite (proj2 (Z.eqb_neq _ _) Hb). unfold mbind, M_bind. rewrite (ld_msg_run _ _ _ E). unfold modify, free_msg, modify.
    set (s1 := _ <| msgs := _ |>). apply NoDup_cons in Hn as [Hbl Hn].
    destruct (IH fuel (msg_next x) s1) as (H & Er & Hl & Hz); [|done|lia|].
    { eapply mseg_frame; [|done]. intros c Hc. cbn. rewrite lookup_delete_ne; [done|]. by intros ->. }
    exists H. split_and!.
    + rewrite Er. unfold s1. cbn. do 2 f_equal. lia.
    + intros c. rewrite Hl. cbn. destruct (decide (c = b)) as [->|Hne].
      * rewrite (decide_True (P := b ∈ b :: _)) by set_solver. rewrite lookup_delete_eq. by destruct (decide _).
      * rewrite lookup_delete_ne by done. destruct (decide (c ∈ l.*1)); [rewrite decide_True by set_solver|rewrite decide_False by set_solver]; done.
    + rewrite Hz. cbn. rewrite map_size_delete_Some by done. assert (size (msgs s) ≠ 0)%nat by (eapply map_size_ne_0_lookup_2; by exists x). lia.
Qed.

Lemma freeque_end_ok C s A D a :
  sys_inv C (MkMsys s A D) → a ∈ D → (∀ t w, A !! t = Some w → sl_addr w ≠ a) →
  ∃ s', freeque_end a s = Ret tt s' ∧ sys_inv C (MkMsys s' A (D ∖ {[ a ]})).
Proof.
  intros [I1 I2 I3 I4] Ha Hw. cbn in *. destruct (I3 a Ha) as [[q E] Hno]. destruct (mi_queue _ _ I1 _ _ E) as (Hok & _).
  pose proof (fuel_enough _ _ _ _ (qk_nodup _ _ _ Hok) (qk_seg _ _ _ Hok)) as Hf.
  destruct (free_msgs_spec (C a) _ _ s (qk_seg _ _ _ Hok) (qk_nodup _ _ _ Hok) Hf) as (H & Er & Hl & Hz).
  unfold freeque_end, mbind, M_bind. rewrite (ld_msq_run _ _ _ E). unfold gets. rewrite Er. unfold modify. eexists. split; [done|].
  set (s' := _ <| mqs := _ |>). assert (mqs s' = delete a (mqs s)) as Em by done. assert (msgque s' = msgque s) as Eq by done.
  assert (∀ b, is_Some (mqs s' !! b) ↔ b ≠ a ∧ is_Some (mqs s !! b)) as Hd.
  { intros b. rewrite Em. destruct (decide (b = a)) as [->|Hne]; [rewrite lookup_delete_eq; naive_solver|rewrite lookup_delete_ne by done; naive_solver]. }
  assert (∀ b, b ≠ a → mqs s' !! b = mqs s !! b) as Hm by (intros; rewrite Em; by apply lookup_delete_ne).
  destruct I1 as [J1 J2 J3 J4 J5 J6 J7 J8 J9 J10 J11 J12]. split; cbn [st asleep dying]; unfold home, queue_at; rewrite ?Eq.
  - split; unfold queue_at in *; rewrite ?Eq; try done.
    + intros id b Hb. rewrite Hd. split; [|by eapply J3]. split; [|by eapply J3]. intros ->. by apply (Hno id).
    + intros b q1 Hb. assert (is_Some (mqs s' !! b)) as [Hba [q0 Eb]]%Hd by eauto. rewrite Hm in Hb by done. destruct (J5 _ _ Hb) as (Hokb & Hr). split; [|done].
      destruct Hokb. split; try done. eapply mseg_frame; [|done]. intros m Hin. change (msgs s') with H. rewrite Hl, decide_False; [done|].
      intros Hin'. apply Hba. eapply J6; eauto.
    + intros a1 a2 m [_ H1]%Hd [_ H2]%Hd. by apply J6.
    + intros m. change (msgs s') with H. rewrite Hl. destruct (decide _) as [|Hn]; [by intros []|]. intros Hm'. destruct (J7 m Hm') as (b & Hb & Hin). exists b.
      rewrite Hd. split; [|done]. split; [|done]. naive_solver.
    + intros id1 id2 a1 a2 q1 q2 H1 H2. rewrite !Hm by (intros ->; naive_solver). by apply J8.
    + change (msgs s') with H. change (msghdrs s') with (msghdrs s - Z.of_nat (length (C a))). lia.
    + change (msgbytes s') with (msgbytes s). rewrite J10. apply sumZ_ext. intros [| |b] Hb; try done. cbn. rewrite Hm; [done|].
      intros ->. apply list_elem_of_lookup in Hb as [j Hj]. by apply (Hno j).
  - intros t w Ht. destruct (I2 t w Ht) as (q1 & Eq1 & Hwo & Hh). pose proof (Hw t w Ht). exists q1. rewrite Hm by done. split_and!; [done..|]. unfold queue_at in Hh. set_solver.
  - intros b [Hb Hn]%elem_of_difference. rewrite Hd. destruct (I3 b Hb). set_solver.
  - intros b [Hn Hb]%Hd. destruct (I4 b Hb); [left; set_solver|by right].
Qed.

(** ** Lemmas: sending and receiving in the system *)

Lemma qstep_sys C s s' A D id a q q' l' :
  sys_inv C (MkMsys s A D) → queue_at s id a → mqs s !! a = Some q → qstep a q (C a) q' l' s s' → sys_inv (put C a l') (MkMsys s' A D).
Proof.
  intros [I1 I2 I3 I4] Hu E Hq. cbn in *. pose proof (λ i b, qstep_queue_at _ _ _ _ _ _ _ i b Hq) as Hat. pose proof (λ b, qstep_dom _ _ _ _ _ _ _ b Hq E) as Hd.
  split; cbn [st asleep dying].
  - by eapply inv_qstep.
  - intros t w Hw. destruct (I2 t w Hw) as (q1 & Eq & Hw' & Hh). unfold home. setoid_rewrite Hat. rewrite (qs_mqs _ _ _ _ _ _ _ Hq).
    destruct (decide (sl_addr w = a)) as [Ew|Nw]; [|exists q1; by rewrite lookup_insert_ne].
    rewrite Ew in *. assert (q1 = q) as -> by congruence. exists q'. rewrite lookup_insert_eq, (proj1 (qs_perm _ _ _ _ _ _ _ Hq)). done.
  - intros b Hb. rewrite Hd. setoid_rewrite Hat. by apply I3.
  - intros b. rewrite Hd. setoid_rewrite Hat. by apply I4.
Qed.

Lemma settle_sys {B} C s A D (r : option B) t w :
  sys_inv C (MkMsys s A D) → (r = None → home s D w) → sys_inv C (MkMsys s (settle r t w A) D).
Proof.
  intros [I1 I2 I3 I4] Hw. cbn in *. split; cbn [st asleep dying]; try done. intros t1 w1. destruct r; cbn.
  - intros [_ H]%lookup_delete_Some. by apply (I2 t1).
  - intros [[_ <-]|[_ H]]%lookup_insert_Some; [by apply Hw|]. by apply (I2 t1).
Qed.

Lemma send_sys C x kmalloc a q s A D t w :
  sys_inv C (MkMsys s A D) → mqs s !! a = Some q → may_send x → fresh_msg s kmalloc → roomy s →
  (can_send x q → queue_at s (m_slot (s_msqid x)) a) → sl_addr w = a → sl_msqid w = s_msqid x → sl_ok w →
  ∃ r s' C', send_slept x kmalloc a s = Ret r s' ∧ sys_inv C' (MkMsys s' (settle r t w A) D).
Proof.
  intros Hi E Hm Hf Hr Hat Ew Em Hw. destruct (send_slept_spec C x kmalloc a q s (sy_inv _ _ Hi) E Hm Hf Hr Hat) as (r & s' & Er & [(_ & -> & Hres)|(Hc & k & q' & l' & Hst & Ho & _)]).
  - exists r, s, C. split; [done|]. apply settle_sys; [done|]. intros ->. by destruct Hres.
  - exists r, s', (put C a l'). split; [done|]. apply settle_sys; [by eapply qstep_sys; eauto|]. intros _. exists q'. rewrite Ew, Em.
    rewrite (qs_mqs _ _ _ _ _ _ _ Hst), lookup_insert_eq. split_and!; [done..|]. left. rewrite (proj1 (qs_perm _ _ _ _ _ _ _ Hst)).
    split; [|apply Hc]. by apply (qstep_queue_at _ _ _ _ _ _ _ _ _ Hst), Hat.
Qed.

Lemma recv_sys C x a q s A D t w :
  sys_inv C (MkMsys s A D) → mqs s !! a = Some q → 0 ≤ r_size x →
  (can_recv x q → queue_at s (m_slot (r_msqid x)) a) → sl_addr w = a → sl_msqid w = r_msqid x → sl_ok w →
  ∃ r s' C', recv_slept x a s = Ret r s' ∧ sys_inv C' (MkMsys s' (settle r t w A) D).
Proof.
  intros Hi E Hsz Hat Ew Em Hw. destruct (recv_spec C x a q s (sy_inv _ _ Hi) E Hsz) as (r & s' & Er & [(_ & -> & Hres)|(Hc & q' & l' & Hst & Ho)]).
  - exists r, s, C. split; [done|]. apply settle_sys; [done|]. intros ->. by destruct Hres.
  - exists r, s', (put C a l'). split; [done|]. apply settle_sys; [by eapply qstep_sys; eauto|]. intros _. exists q'. rewrite Ew, Em.
    rewrite (qs_mqs _ _ _ _ _ _ _ Hst), lookup_insert_eq. split_and!; [done..|]. left. rewrite (proj1 (qs_perm _ _ _ _ _ _ _ Hst)).
    split; [|apply Hc]. by apply (qstep_queue_at _ _ _ _ _ _ _ _ _ Hst), Hat.
Qed.

(** The checks before the queue is looked at. *)
Lemma msgsnd_enter x va kmalloc s :
  (∃ e, e ≠ 0 ∧ sys_msgsnd x va kmalloc s = Ret (Some e) s) ∨
  (readable x → may_send x) ∧ va = 0 ∧ (0 ≤ s_msqid x) ∧ sys_msgsnd x va kmalloc s =
    match msgque s !! m_slot (s_msqid x) with
    | Some (MUsed a) => send_slept x kmalloc a s
    | Some _ => Ret (Some (- EINVAL)) s
    | None => Stuck OutOfBounds s
    end.
Proof.
  unfold sys_msgsnd. destruct (_ || (s_msqid x <? 0)) eqn:E; [left; by exists (- EINVAL)|]. to_prop. destruct (va =? 0) eqn:Ev; to_prop; cbn [negb]; [|left; by exists va].
  destruct (s_type x <? 1) eqn:Et; to_prop; [left; by exists (- EINVAL)|]. right. split_and!; [|done|lia|].
  - unfold readable, may_send. intros ?. lia.
  - unfold mbind, M_bind, gets. destruct (msgque s !! _) as [[]|]; done.
Qed.

Lemma msgsnd_ok C x va kmalloc s A D :
  sys_inv C (MkMsys s A D) → readable x → fresh_msg s kmalloc → roomy s →
  ∃ r s', sys_msgsnd x va kmalloc s = Ret r s' ∧ (r = None → ∃ a, queue_at s (m_slot (s_msqid x)) a) ∧
    ∀ t a, (r = None → queue_at s (m_slot (s_msqid x)) a) → ∃ C', sys_inv C' (MkMsys s' (settle r t (Sending x a) A) D).
Proof.
  intros Hi Hrd Hf Hr. destruct (msgsnd_enter x va kmalloc s) as [(e & _ & E)|(Hm & _ & _ & E)]; rewrite E.
  { exists (Some e), s. split_and!; [done..|]. intros t a _. exists C. by apply settle_sys. }
  destruct (slot_cases C s (m_slot (s_msqid x)) (sy_inv _ _ Hi) (m_slot_lt _)) as [Es|(a & q & Hu & Eq)].
  { rewrite Es. exists (Some (- EINVAL)), s. split_and!; [done..|]. intros t a _. exists C. by apply settle_sys. }
  rewrite Hu. destruct (send_sys C x kmalloc a q s A D 0 (Sending x a)) as (r & s' & _ & Er & _); try done; [by apply Hm|cbn; by apply Hm|].
  exists r, s'. split_and!; [done|intros _; by exists a|]. intros t b Hb.
  destruct (send_sys C x kmalloc a q s A D t (Sending x a)) as (r1 & s1 & C1 & Er1 & Hi1); try done; [by apply Hm|cbn; by apply Hm|].
  rewrite Er in Er1. injection Er1 as <- <-. exists C1. destruct r; [done|]. specialize (Hb eq_refl). unfold queue_at in *. assert (b = a) as -> by congruence. done.
Qed.

Lemma msgrcv_enter x va s :
  0 ≤ r_size x →
  (∃ e, sys_msgrcv x va s = Ret (Some (e, None)) s) ∨
  va = 0 ∧ 0 ≤ r_msqid x ∧ sys_msgrcv x va s =
    match msgque s !! m_slot (r_msqid x) with
    | Some (MUsed a) => recv_slept x a s
    | Some _ => Ret (Some (- EINVAL, None)) s
    | None => Stuck OutOfBounds s
    end.
Proof.
  intros Hsz. unfold sys_msgrcv. destruct (_ || _) eqn:E; [left; by exists (- EINVAL)|]. to_prop. destruct (va =? 0) eqn:Ev; to_prop; cbn [negb]; [|left; by exists va].
  right. split_and!; [done|lia|]. unfold mbind, M_bind, gets. destruct (msgque s !! _) as [[]|]; done.
Qed.

Lemma msgrcv_ok C x va s A D :
  sys_inv C (MkMsys s A D) → 0 ≤ r_size x →
  ∃ r s', sys_msgrcv x va s = Ret r s' ∧ (r = None → ∃ a, queue_at s (m_slot (r_msqid x)) a) ∧
    ∀ t a, (r = None → queue_at s (m_slot (r_msqid x)) a) → ∃ C', sys_inv C' (MkMsys s' (settle r t (Receiving x a) A) D).
Proof.
  intros Hi Hsz. destruct (msgrcv_enter x va s Hsz) as [(e & E)|(_ & _ & E)]; rewrite E.
  { exists (Some (e, None)), s. split_and!; [done..|]. intros t a _. exists C. by apply settle_sys. }
  destruct (slot_cases C s (m_slot (r_msqid x)) (sy_inv _ _ Hi) (m_slot_lt _)) as [Es|(a & q & Hu & Eq)].
  { rewrite Es. exists (Some (- EINVAL, None)), s. split_and!; [done..|]. intros t a _. exists C. by apply settle_sys. }
  rewrite Hu. destruct (recv_sys C x a q s A D 0 (Receiving x a)) as (r & s' & _ & Er & _); try done.
  exists r, s'. split_and!; [done|intros _; by exists a|]. intros t b Hb.
  destruct (recv_sys C x a q s A D t (Receiving x a)) as (r1 & s1 & C1 & Er1 & Hi1); try done.
  rewrite Er in Er1. injection Er1 as <- <-. exists C1. destruct r; [done|]. specialize (Hb eq_refl). unfold queue_at in *. assert (b = a) as -> by congruence. done.
Qed.

Lemma snd_wake_ok C t x c signal intr kmalloc a s A D :
  sys_inv C (MkMsys s A D) → A !! t = Some (Sending x a) → fresh_msg s kmalloc → roomy s →
  ∃ r s' C', send_slept (again_s x c signal intr) kmalloc a s = Ret r s' ∧ sys_inv C' (MkMsys s' (settle r t (Sending x a) A) D).
Proof.
  intros Hi Hw Hf Hr. destruct (sy_home _ _ Hi t _ Hw) as (q & Eq & Hok & Hh). cbn in *.
  eapply send_sys; try done. intros [Hs _]. destruct Hh as [[? _]|[_ Hh]]; [done|]. by destruct Hh.
Qed.

Lemma rcv_wake_ok C t x c signal a s A D :
  sys_inv C (MkMsys s A D) → A !! t = Some (Receiving x a) →
  ∃ r s' C', recv_slept (again_r x c signal) a s = Ret r s' ∧ sys_inv C' (MkMsys s' (settle r t (Receiving x a) A) D).
Proof.
  intros Hi Hw. destruct (sy_home _ _ Hi t _ Hw) as (q & Eq & Hok & Hh). cbn in *.
  eapply recv_sys; try done. intros [Hs _]. destruct Hh as [[? _]|[_ Hh]]; [done|]. by destruct Hh.
Qed.

Lemma msys_init_ok : sys_inv (λ _, []) msys_init.
Proof.
  assert (∀ i a, ¬ queue_at msg_init i a) as Hno.
  { intros i a H. unfold queue_at in H. cbn [msgque msg_init] in H. by apply lookup_replicate in H as [? _]. }
  split; cbn [st asleep dying msys_init]; try done.
  - split; try done; try (intros; by destruct (Hno _ _ ltac:(eassumption))).
    + cbn. intros H. apply elem_of_replicate in H as [? _]. done.
    + intros a1 a2 m _ _ H. by apply elem_of_nil in H.
    + intros m [x H]. done.
    + split; [done|]. unfold MSGMNI. cbn [max_msqid msg_init]. lia.
  - intros a [q H]. done.
Qed.

Lemma step_ok C y y' : sys_inv C y → msg_step y y' → ∃ C', sys_inv C' y'.
Proof.
  intros Hi Hs. destruct Hs as [c km key flg r s s' A D Hf E|x va km a r s s' A D Hn Hrd Hf Hr E Ha|t x c sg it km a r s s' A D Hw Hf Hr E|x va a r s s' A D Hn Hsz E Ha|
    t x c sg a r s s' A D Hw E|c id cmd buf r p s s' A D Hb E|c p s s' A D E|a s s' A D Ha Hw E].
  - destruct (msgget_ok C c km key flg s A D Hi Hf) as (r1 & s1 & C1 & E1 & Hi1). rewrite E in E1. injection E1 as <- <-. by exists C1.
  - destruct (msgsnd_ok C x va km s A D Hi Hrd Hf Hr) as (r1 & s1 & E1 & _ & Hi1). rewrite E in E1. injection E1 as <- <-. by apply Hi1.
  - destruct (snd_wake_ok C t x c sg it km a s A D Hi Hw Hf Hr) as (r1 & s1 & C1 & E1 & Hi1). rewrite E in E1. injection E1 as <- <-. by exists C1.
  - destruct (msgrcv_ok C x va s A D Hi Hsz) as (r1 & s1 & E1 & _ & Hi1). rewrite E in E1. injection E1 as <- <-. by apply Hi1.
  - destruct (rcv_wake_ok C t x c sg a s A D Hi Hw) as (r1 & s1 & C1 & E1 & Hi1). rewrite E in E1. injection E1 as <- <-. by exists C1.
  - destruct (msgctl_ok C c id cmd buf s A D Hi Hb) as (r1 & p1 & s1 & E1 & Hi1). rewrite E in E1. injection E1 as <- <- <-. by exists C.
  - destruct (kerneld_exit_ok C c s A D Hi) as (p1 & s1 & E1 & Hi1). rewrite E in E1. injection E1 as <- <-. by exists C.
  - destruct (freeque_end_ok C s A D a Hi Ha Hw) as (s1 & E1 & Hi1). rewrite E in E1. injection E1 as <-. by exists C.
Qed.

Lemma reach_msys y : rtc msg_step msys_init y → ∃ C, sys_inv C y.
Proof.
  intros H. apply rtc_ind_r with (P := λ y, ∃ C, sys_inv C y) (z := y) in H; [done|by exists (λ _, []); apply msys_init_ok|].
  intros y1 y2 _ Hst [C Hi]. by eapply step_ok.
Qed.

(** ** Lemmas: mailboxes *)

Lemma mailbox_at C s msqid q l :
  msg_inv C s → mailbox s msqid q l →
  ∃ a, queue_at s (m_slot msqid) a ∧ mqs s !! a = Some q ∧ p_seq (msg_perm q) = m_seq msqid ∧ l = content <$> C a.
Proof.
  intros Hi (a & L & Hu & Eq & Hs & Hseg & ->). exists a. split_and!; try done. f_equal.
  destruct (mi_queue _ _ Hi _ _ Eq) as [Hok _]. eapply seg_unique; [done|apply Hok].
Qed.

Lemma at_mailbox C s msqid a q :
  msg_inv C s → queue_at s (m_slot msqid) a → mqs s !! a = Some q → p_seq (msg_perm q) = m_seq msqid → mailbox s msqid q (content <$> C a).
Proof. intros Hi Hu Eq Hs. destruct (mi_queue _ _ Hi _ _ Eq) as [Hok _]. exists a, (C a). split_and!; try done. apply Hok. Qed.

Lemma msqid_eq i j : m_slot i = m_slot j → m_seq i = m_seq j → i = j.
Proof.
  unfold m_slot, m_seq. intros H1 H2. pose proof (Z.mod_pos_bound i MSGMNI ltac:(done)). pose proof (Z.mod_pos_bound j MSGMNI ltac:(done)).
  rewrite (Z.div_mod i MSGMNI), (Z.div_mod j MSGMNI) by done. lia.
Qed.

(** The queue [msqid] now holds [l'], the others are as before. *)
Definition only_mailbox (s s' : ms) (msqid : Z) (q : msqid_ds) (l' : list (Z * list Z)) : Prop :=
  (∃ q', mailbox s' msqid q' l' ∧ msg_perm q' = msg_perm q ∧ msg_qbytes q' = msg_qbytes q) ∧
  ∀ id q1 l1, id ≠ msqid → mailbox s id q1 l1 → mailbox s' id q1 l1.

Lemma qstep_mailbox C s s' msqid a q q' l' :
  msg_inv C s → queue_at s (m_slot msqid) a → mqs s !! a = Some q → p_seq (msg_perm q) = m_seq msqid → qstep a q (C a) q' l' s s' →
  only_mailbox s s' msqid q (content <$> l').
Proof.
  intros Hi Hu E Hs Hq. pose proof (inv_qstep C a _ q q' l' s s' Hi Hu E Hq) as Hi'. destruct (qs_perm _ _ _ _ _ _ _ Hq) as [Ep Eb]. split.
  - exists q'. split_and!; [|done..]. rewrite <-(put_eq C a l'). apply (at_mailbox (put C a l')); [done|by apply (qstep_queue_at _ _ _ _ _ _ _ _ _ Hq)| |by rewrite Ep].
    rewrite (qs_mqs _ _ _ _ _ _ _ Hq). apply lookup_insert_eq.
  - intros id q1 l1 Hne (b & Hb & E1 & Hs1 & ->)%(mailbox_at C); [|done]. assert (b ≠ a) as Hba.
    { intros ->. apply Hne. apply msqid_eq; [by eapply (mi_one _ _ Hi)|congruence]. }
    rewrite <-(put_ne C a b l') by done. apply (at_mailbox (put C a l')); [done|by apply (qstep_queue_at _ _ _ _ _ _ _ _ _ Hq)| |done].
    by rewrite (qs_mqs _ _ _ _ _ _ _ Hq), lookup_insert_ne.
Qed.

(** The arguments of [msgsnd] and [msgrcv] pass the checks. *)
Definition snd_args (x : sender) : Prop := 0 ≤ s_msqid x ∧ 1 ≤ s_type x ∧ s_size x ≤ MSGMAX ∧ readable x.
Definition rcv_args (x : receiver) : Prop := 0 ≤ r_msqid x ∧ 0 ≤ r_size x < 2 ^ 31.

Lemma msgsnd_args x kmalloc s a :
  snd_args x → queue_at s (m_slot (s_msqid x)) a → may_send x ∧ sys_msgsnd x 0 kmalloc s = send_slept x kmalloc a s.
Proof.
  intros (H1 & H2 & H3 & H4 & H5) Hu. split; [by unfold may_send|]. unfold MSGMAX in *. unfold sys_msgsnd, MSGMAX. rewrite s32_id by lia.
  rewrite !(proj2 (Z.ltb_ge _ _)) by lia. unfold mbind, M_bind, gets. cbn [orb negb Z.eqb]. by rewrite Hu.
Qed.

Lemma msgrcv_args x s a :
  rcv_args x → queue_at s (m_slot (r_msqid x)) a → sys_msgrcv x 0 s = recv_slept x a s.
Proof.
  intros (H1 & H2) Hu. unfold sys_msgrcv. rewrite s32_id by lia. rewrite !(proj2 (Z.ltb_ge _ _)) by lia. unfold mbind, M_bind, gets. cbn [orb negb Z.eqb]. by rewrite Hu.
Qed.

Lemma msgsnd_mailbox C x kmalloc s q l :
  msg_inv C s → snd_args x → fresh_msg s kmalloc → roomy s → mailbox s (s_msqid x) q l →
  ipcperms (s_caller x) (msg_perm q) S_IWUGO = false → kerneld_msqid s ≠ s_msqid x →
  ∃ r s' l' C', sys_msgsnd x 0 kmalloc s = Ret r s' ∧ msg_inv C' s' ∧ send_outcome x kmalloc (msg_qbytes q) l r l' ∧ only_mailbox s s' (s_msqid x) q l'.
Proof.
  intros Hi Ha Hf Hr Hm Hp Hk. destruct (mailbox_at C s _ q l Hi Hm) as (a & Hu & E & Hs & ->). destruct (msgsnd_args x kmalloc s a Ha Hu) as [Hms ->].
  destruct (send_slept_spec C x kmalloc a q s Hi E Hms Hf Hr) as (r & s' & Er & [(Hno & _)|(_ & k & q' & l' & Hst & Ho & Hk0)]); [done|by destruct Hno|].
  rewrite (Hk0 Hk) in Ho. exists r, s', (content <$> l'), (put C a l'). split_and!; [done|by eapply inv_qstep|done|by eapply qstep_mailbox].
Qed.

Lemma msgrcv_mailbox C x s q l :
  msg_inv C s → rcv_args x → mailbox s (r_msqid x) q l → ipcperms (r_caller x) (msg_perm q) S_IRUGO = false →
  ∃ r s' l' C', sys_msgrcv x 0 s = Ret r s' ∧ msg_inv C' s' ∧ recv_outcome x l r l' ∧ only_mailbox s s' (r_msqid x) q l'.
Proof.
  intros Hi Ha Hm Hp. destruct (mailbox_at C s _ q l Hi Hm) as (a & Hu & E & Hs & ->). rewrite (msgrcv_args x s a Ha Hu). destruct Ha as (_ & Ha & _).
  destruct (recv_spec C x a q s Hi E Ha) as (r & s' & Er & [(Hno & _)|(_ & q' & l' & Hst & Ho)]); [by destruct Hno|].
  exists r, s', (content <$> l'), (put C a l'). split_and!; [done|by eapply inv_qstep|done|by eapply qstep_mailbox].
Qed.

Lemma picks_unique typ flg l i j : picks typ flg l i → picks typ flg l j → i = j.
Proof.
  intros (x & Ex & Wx & Hx) (y & Ey & Wy & Hy). specialize (Hx j y Ey Wy). specialize (Hy i x Ex Wx). destruct (decide (typ < 0)); lia.
Qed.

(** ** Lemmas: empty messages *)

(** Send from each of the blocks [ms] of memory. *)
Fixpoint send_many (x : sender) (ms : list Z) : M Msg.ms (list (option Z)) :=
  match ms with
  | [] => mret []
  | m :: ms' => r ← sys_msgsnd x 0 m; rs ← send_many x ms'; mret (r :: rs)
  end.

(** Queue [a] holds the empty messages [l], as many as there may be. *)
Record piled (x : sender) (s : ms) (a : Z) (q : msqid_ds) (l : list (Z * msg)) : Prop := {
  pl_at : queue_at s (m_slot (s_msqid x)) a;
  pl_msq : mqs s !! a = Some q;
  pl_send : can_send x q;
  pl_bytes : 0 ≤ msg_qbytes q ∧ msg_cbytes q = 0;
  pl_num : msg_qnum q = u16 (Z.of_nat (length l));
  pl_seg : seg (msgs s) (msg_first q) l 0;
  pl_nodup : NoDup l.*1;
  pl_last p : last l = Some p → msg_last q = p.1;
  pl_empty : Forall (λ p, content p = (s_type x, []) ∧ msg_ts p.2 = 0) l;
}.

Lemma u16_succ n : u16 (u16 n + 1) = u16 (n + 1).
Proof. unfold u16. apply Zplus_mod_idemp_l. Qed.

Lemma piled_sent x s a q l m :
  piled x s a q l → s_size x = 0 → m ≠ 0 → msgs s !! m = None →
  ∃ s' q' l', enqueue x a m s = Ret tt s' ∧ piled x s' a q' l' ∧ msg_perm q' = msg_perm q ∧ length l' = S (length l) ∧
    (∀ b, b ≠ m → msgs s !! b = None → msgs s' !! b = None) ∧ msghdrs s' = msghdrs s + 1 ∧ kerneld_msqid s' = kerneld_msqid s.
Proof.
  intros [Hu E Hc [Hb Hcb] Hn Hseg Hnd Hl Hem] Hz Hm0 Hm. rewrite (enqueue_run x a m q s E).
  assert (msg_ts (new_msg x) = 0) as Hts by done. assert (content (m, new_msg x) = (s_type x, [])) as Hct by (unfold content, new_msg; cbn; by rewrite Hz).
  assert (m ∉ l.*1) as Hml. { intros (p & -> & Hp)%list_elem_of_fmap. destruct (seg_lookup _ _ _ _ _ Hseg Hp). congruence. }
  assert (∀ n, length l = n → u16 (msg_qnum q + 1) = u16 (Z.of_nat (S n))) as Hn'.
  { intros n <-. rewrite Hn, u16_succ. f_equal. lia. }
  destruct l as [|[b y] l0 _] using rev_ind.
  - cbn in Hseg. rewrite Hseg, Z.eqb_refl. eexists _, (sent x (q <| msg_first := m |> <| msg_last := m |>)), [(m, new_msg x)]. split; [done|]. split; [|split_and!; try done].
    + split; try done; [apply lookup_insert_eq|by cbn; rewrite Hcb, Hz|by apply Hn'| |apply NoDup_singleton|by intros p [= <-]|by apply Forall_singleton].
      cbn. split_and!; [done|done|apply lookup_insert_eq|done].
    + intros c Hne Hc'. cbn. by rewrite lookup_insert_ne.
  - rewrite (proj2 (Z.eqb_neq _ _)) by (rewrite (seg_nil _ _ _ Hseg); intros [_ [=]]%app_eq_nil). rewrite (Hl (b, y)) by apply last_snoc. cbn [fst]. fold (relink m).
    assert (length ((l0 ++ [(b, relink m y)]) ++ [(m, new_msg x)]) = S (length (l0 ++ [(b, y)]))) as El by (rewrite !length_app; cbn; lia).
    eexists _, (sent x (q <| msg_last := m |>)), ((l0 ++ [(b, relink m y)]) ++ [(m, new_msg x)]). split; [done|]. split; [|split_and!; try done].
    + apply Forall_app in Hem as [Hem0 [Hy _]%Forall_cons]. split; try done.
      * apply lookup_insert_eq.
      * by cbn; rewrite Hcb, Hz.
      * rewrite El. by apply Hn'.
      * by apply seg_append.
      * rewrite !fmap_app in *. apply NoDup_app. split_and!; [done| |apply NoDup_singleton]. cbn. intros c Hc' ->%list_elem_of_singleton. done.
      * intros p. rewrite last_snoc. by intros [= <-].
      * by rewrite !Forall_app, !Forall_singleton.
    + intros c Hne Hc'. cbn. destruct (decide (c = b)) as [->|Hcb']; [|by rewrite lookup_alter_ne, lookup_insert_ne].
      by rewrite lookup_alter_eq, lookup_insert_ne, Hc'.
Qed.

Lemma send_many_piled x ms : ∀ s a q l,
  piled x s a q l → snd_args x → s_size x = 0 → NoDup ms → Forall (λ m, m ≠ 0 ∧ msgs s !! m = None) ms →
  ∃ s' q' l', send_many x ms s = Ret (replicate (length ms) (Some 0)) s' ∧ piled x s' a q' l' ∧ msg_perm q' = msg_perm q ∧
    length l' = (length l + length ms)%nat ∧ msghdrs s' = msghdrs s + Z.of_nat (length ms).
Proof.
  induction ms as [|m ms IH]; intros s a q l Hp Ha Hz Hnd Hfr.
  { exists s, q, l. split_and!; try done; cbn; lia. }
  apply NoDup_cons in Hnd as [Hm Hnd]. apply Forall_cons in Hfr as [[Hm0 Hmf] Hfr].
  destruct (piled_sent x s a q l m Hp Hz Hm0 Hmf) as (s1 & q1 & l1 & E1 & Hp1 & Hq1 & Hl1 & Hf1 & Hh1 & _).
  assert (sys_msgsnd x 0 m s = Ret (Some 0) s1) as E.
  { destruct (msgsnd_args x m s a Ha (pl_at _ _ _ _ _ Hp)) as [_ ->]. destruct (pl_bytes _ _ _ _ _ Hp) as [Hb Hcb], (pl_send _ _ _ _ _ Hp) as [Hs Hpm].
    unfold send_slept, send_room, mbind, M_bind, gets. rewrite (ld_msq_run _ _ _ (pl_msq _ _ _ _ _ Hp)), Hs, Z.eqb_refl, Hpm, Hz, Hcb.
    rewrite (proj2 (Z.ltb_ge _ _)) by lia. cbn [negb andb when]. unfold mret, M_ret. rewrite (ld_msq_run _ _ _ (pl_msq _ _ _ _ _ Hp)), Hcb, (proj2 (Z.ltb_ge _ _)) by lia.
    rewrite (proj2 (Z.eqb_neq _ _) Hm0), (pl_at _ _ _ _ _ Hp), Hs, Z.eqb_refl. cbn [negb]. by rewrite E1. }
  destruct (IH s1 a q1 l1) as (s' & q' & l' & E' & Hp' & Hq' & Hl' & Hh'); try done.
  { rewrite Forall_forall in *. intros m' Hin. destruct (Hfr m' Hin) as [Hn0 Hn1]. split; [done|]. apply Hf1; [|done]. by intros ->. }
  exists s', q', l'. cbn [send_many]. unfold mbind, M_bind. rewrite E, E'. split_and!; [done|done|congruence|cbn; lia|cbn [length]; lia].
Qed.

(** One message taken when the counter says that it is the last one. *)
Lemma piled_wrapped x y s a q b m l :
  piled x s a q ((b, m) :: l) → u16 (Z.of_nat (length ((b, m) :: l))) = 1 →
  r_msqid y = s_msqid x → r_type y = 0 → rcv_args y → has (r_flg y) IPC_NOWAIT = true → ipcperms (r_caller y) (msg_perm q) S_IRUGO = false →
  ∃ s', sys_msgrcv y 0 s = Ret (Some (0, Some (s_type x, []))) s' ∧ sys_msgrcv y 0 s' = Ret (Some (- ENOMSG, None)) s' ∧ msghdrs s' = msghdrs s - 1.
Proof.
  intros Hp Hw Hid Ht Ha Hnw Hpm. destruct Hp as [Hu E [Hs _] _ Hn Hseg _ _ Hem]. rewrite Hw in Hn. destruct Hseg as (Ef & Hb & Em & _).
  apply Forall_cons in Hem as [[Hc Hts] _]. injection Hc as Hty Htx. cbn in Hts. rewrite <-Hid in *.
  assert (u16 (msg_qnum q - 1) = 0) as Hq0 by (by rewrite Hn). destruct Ha as (Ha0 & Ha1). pose proof (msgrcv_args y s a (conj Ha0 Ha1) Hu) as ->.
  unfold recv_slept, select_msg, mbind, M_bind, gets. rewrite (ld_msq_run _ _ _ E), Hs, Z.eqb_refl, Hpm, Ht. cbn [negb Z.eqb]. unfold mret at 1, M_ret at 1.
  rewrite Ef, (proj2 (Z.eqb_neq _ _) Hb). cbn [negb]. rewrite (ld_msg_run _ _ _ Em), Hts. rewrite (proj2 (Z.ltb_ge (r_size y) 0)) by lia. cbn [andb].
  unfold dequeue, unlink_msg, mbind, M_bind. rewrite (ld_msg_run _ _ _ Em), (ld_msq_run _ _ _ E), (ld_msg_run _ _ _ Em), Ef, Z.eqb_refl. cbv iota. rewrite (st_msq_run _ _ _ _ E).
  rewrite (st_msq_run _ a (q <| msg_first := msg_next m |>)) by (cbn; apply lookup_insert_eq). change (msg_qnum (q <| msg_first := _ |>)) with (msg_qnum q). rewrite Hq0.
  rewrite (ld_msq_run _ a (q <| msg_first := msg_next m |> <| msg_qnum := 0 |>)) by (cbn; apply lookup_insert_eq). rewrite qnum_set, Z.eqb_refl. cbn [when].
  erewrite st_msq_run by (cbn; apply lookup_insert_eq). erewrite st_msq_run by (cbn; apply lookup_insert_eq). unfold modify at 1.
  erewrite st_msq_run by (cbn; apply lookup_insert_eq). unfold free_msg, modify, mret, M_ret. eexists. split_and!.
  - f_equal. rewrite Hty, Htx, take_nil. destruct (Z.ltb_spec 0 (r_size y)); [done|]. by replace (r_size y) with 0 by lia.
  - set (s' := _ <| msgs := _ |>). pose proof (msgrcv_args y s' a (conj Ha0 Ha1) Hu) as ->.
    unfold recv_slept, select_msg, mbind, M_bind, gets. erewrite ld_msq_run by (cbn; apply lookup_insert_eq).
    cbn [msg_perm msg_first upd]. rewrite Hs, Z.eqb_refl, Hpm, Ht, Hnw. done.
  - done.
Qed.

(** ** Theorems *)

(** C10: Whatever processes do with message queues - create, send, receive, sleep
    and be woken up, control and remove queues, exit as a kerneld - the tables stay
    consistent: every queue is a list of messages that ends, no message is in two
    queues or in none, the counters of messages and bytes of every queue and of the
    system are right, no queue exceeds 65535 bytes, a key belongs to at most one
    queue, and a process only sleeps on a queue that exists.  Every call returns.
    (As long as no queue holds 65535 messages.) *)
Theorem msg_reachable y :
  rtc msg_step msys_init y →
  (∃ C, sys_inv C y) ∧
  (∀ c kmalloc key msgflg, fresh_msq (st y) kmalloc → ∃ r s', sys_msgget c [] (λ s, s) kmalloc key msgflg (st y) = Ret r s') ∧
  (∀ x va kmalloc, readable x → fresh_msg (st y) kmalloc → roomy (st y) → ∃ r s', sys_msgsnd x va kmalloc (st y) = Ret r s') ∧
  (∀ x va, 0 ≤ r_size x → ∃ r s', sys_msgrcv x va (st y) = Ret r s') ∧
  (∀ t x a c signal intr kmalloc, asleep y !! t = Some (Sending x a) → fresh_msg (st y) kmalloc → roomy (st y) →
     ∃ r s', send_slept (again_s x c signal intr) kmalloc a (st y) = Ret r s') ∧
  (∀ t x a c signal, asleep y !! t = Some (Receiving x a) → ∃ r s', recv_slept (again_r x c signal) a (st y) = Ret r s') ∧
  (∀ c msqid cmd buf, 0 ≤ b_qbytes buf < 2 ^ 16 → ∃ r s', sys_msgctl c msqid cmd buf (st y) = Ret r s') ∧
  (∀ c, ∃ r s', kerneld_exit c (st y) = Ret r s') ∧
  (∀ a, a ∈ dying y → (∀ t w, asleep y !! t = Some w → sl_addr w ≠ a) → ∃ s', freeque_end a (st y) = Ret tt s').
Proof.
  intros [C Hi]%reach_msys. destruct y as [s A D]. cbn [st asleep dying]. split_and!; [by exists C|..].
  - intros c km key flg Hf. destruct (msgget_ok C c km key flg s A D Hi Hf) as (r & s' & _ & E & _). eauto.
  - intros x va km Hrd Hf Hr. destruct (msgsnd_ok C x va km s A D Hi Hrd Hf Hr) as (r & s' & E & _). eauto.
  - intros x va Hsz. destruct (msgrcv_ok C x va s A D Hi Hsz) as (r & s' & E & _). eauto.
  - intros t x a c sg it km Hw Hf Hr. destruct (snd_wake_ok C t x c sg it km a s A D Hi Hw Hf Hr) as (r & s' & _ & E & _). eauto.
  - intros t x a c sg Hw. destruct (rcv_wake_ok C t x c sg a s A D Hi Hw) as (r & s' & _ & E & _). eauto.
  - intros c id cmd buf Hb. destruct (msgctl_ok C c id cmd buf s A D Hi Hb) as (r & p & s' & E & _). eauto.
  - intros c. destruct (kerneld_exit_ok C c s A D Hi) as (p & s' & E & _). eauto.
  - intros a Ha Hw. destruct (freeque_end_ok C s A D a Hi Ha Hw) as (s' & E & _). eauto.
Qed.

(** C25: To those who use it, [msgsnd] is an operation on a mailbox: if there is room
    for the text the message is appended, else the sender waits or gets EAGAIN or
    EINTR, and the other mailboxes stay as they are. *)
Theorem msgsnd_appends y x kmalloc q l :
  rtc msg_step msys_init y → snd_args x → fresh_msg (st y) kmalloc → roomy (st y) → mailbox (st y) (s_msqid x) q l →
  ipcperms (s_caller x) (msg_perm q) S_IWUGO = false → kerneld_msqid (st y) ≠ s_msqid x →
  ∃ r s' l', sys_msgsnd x 0 kmalloc (st y) = Ret r s' ∧
    send_outcome x kmalloc (msg_qbytes q) l r l' ∧ only_mailbox (st y) s' (s_msqid x) q l'.
Proof.
  intros [C Hi]%reach_msys Ha Hf Hr Hm Hp Hk.
  destruct (msgsnd_mailbox C x kmalloc (st y) q l (sy_inv _ _ Hi) Ha Hf Hr Hm Hp Hk) as (r & s' & l' & _ & E & _ & Ho & Hs). by exists r, s', l'.
Qed.


(** What is sent is received: a message sent to a mailbox that has none of its
    type, and asked for by that type, comes back with its text, and the mailbox
    then is as before. *)
Theorem msg_roundtrip y x z kmalloc q l :
  rtc msg_step msys_init y → snd_args x → fresh_msg (st y) kmalloc → kmalloc ≠ 0 → roomy (st y) → mailbox (st y) (s_msqid x) q l →
  ipcperms (s_caller x) (msg_perm q) S_IWUGO = false → kerneld_msqid (st y) ≠ s_msqid x → s_size x + load l ≤ msg_qbytes q →
  rcv_args z → r_msqid z = s_msqid x → r_type z = s_type x → has (r_flg z) MSG_EXCEPT = false → s_size x ≤ r_size z →
  ipcperms (r_caller z) (msg_perm q) S_IRUGO = false → (∀ p, p ∈ l → p.1 ≠ s_type x) →
  ∃ s1 s2, sys_msgsnd x 0 kmalloc (st y) = Ret (Some 0) s1 ∧
    sys_msgrcv z 0 s1 = Ret (Some (s_size x, Some (s_type x, take (Z.to_nat (s_size x)) (s_text x)))) s2 ∧
    only_mailbox (st y) s2 (s_msqid x) q l.
Proof.
  intros [C Hi]%reach_msys Ha Hf Hk0 Hr Hm Hp Hk Hroom Hz Hid Hty Hex Hsz Hpz Hno. pose proof Ha as (_ & Hty1 & _ & Hs0 & Hs1).
  destruct (msgsnd_mailbox C x kmalloc (st y) q l (sy_inv _ _ Hi) Ha Hf Hr Hm Hp Hk) as (r & s1 & l1 & C1 & E1 & Hi1 & Ho1 & [(q1 & Hm1 & Hq1 & Hb1) Ho]).
  destruct Ho1 as [_ _| | | |]; try (done || lia). set (txt := take _ (s_text x)) in *.
  assert (Z.of_nat (length txt) = s_size x) as Htxt by (unfold txt; rewrite length_take; lia).
  rewrite <-Hid, <-Hq1 in *. destruct (msgrcv_mailbox C1 z s1 q1 _ Hi1 Hz Hm1 Hpz) as (r & s2 & l2 & C2 & E2 & _ & Ho2 & [(q2 & Hm2 & Hq2 & Hb2) Hoo]).
  assert (picks (r_type z) (r_flg z) (l ++ [(s_type x, txt)]) (length l)) as Hpick.
  { exists (s_type x, txt). rewrite Hty. split_and!; [by apply list_lookup_middle|apply wants_pos; [lia|by rewrite Hex]|].
    intros j p Hj Hw. rewrite decide_False by lia. apply wants_pos in Hw; [|lia]. rewrite Hex in Hw. destruct (decide (j < length l)%nat) as [Hlt|]; [|lia].
    rewrite lookup_app_l in Hj by done. by destruct (Hno p (list_elem_of_lookup_2 _ _ _ Hj)). }
  assert ((l ++ [(s_type x, txt)]) !! length l = Some (s_type x, txt)) as Hlast by (by apply list_lookup_middle).
  exists s1, s2. split; [done|]. destruct Ho2 as [i t tx Hpi Hi2 _|i t tx Hpi Hi2 Hbig _|Hnone|Hnone|Hnone]; try by destruct (Hnone (length l)).
  - assert (i = length l) as -> by (by eapply picks_unique). rewrite Hlast in Hi2. injection Hi2 as <- <-. rewrite E2. split.
    + rewrite Htxt, Z.min_l, (take_ge txt) by lia. done.
    + rewrite delete_middle, app_nil_r in Hm2. split; [exists q2; split_and!; congruence|]. intros id q0 l0 Hne H0. apply Hoo; [done|]. by apply Ho.
  - assert (i = length l) as -> by (by eapply picks_unique). rewrite Hlast in Hi2. injection Hi2 as <- <-. lia.
Qed.

(** A process that sleeps on a queue which another one removes gets EIDRM when it
    is woken up, whatever it was doing and whatever has become of the identifier;
    nothing is changed. *)
Theorem removed_queue_wakes y t w :
  rtc msg_step msys_init y → asleep y !! t = Some w → sl_addr w ∈ dying y →
  match w with
  | Sending x a => ∀ c signal intr kmalloc, send_slept (again_s x c signal intr) kmalloc a (st y) = Ret (Some (- EIDRM)) (st y)
  | Receiving x a => ∀ c signal, recv_slept (again_r x c signal) a (st y) = Ret (Some (- EIDRM, None)) (st y)
  end.
Proof.
  intros [C Hi]%reach_msys Hw Hd. destruct (sy_home _ _ Hi t w Hw) as (q & Eq & _ & [[Hu _]|[_ Hs]]).
  { by destruct (proj2 (sy_dying _ _ Hi _ Hd) (m_slot (sl_msqid w))). }
  destruct w as [x a|x a]; cbn in *; intros.
  - unfold send_slept, mbind, M_bind. cbn [s_msqid again_s]. by rewrite (ld_msq_run _ _ _ Eq), (proj2 (Z.eqb_neq _ _) Hs).
  - unfold recv_slept, mbind, M_bind. cbn [r_msqid again_r]. by rewrite (ld_msq_run _ _ _ Eq), (proj2 (Z.eqb_neq _ _) Hs).
Qed.

(** C40: The counter of messages in a queue has 16 bits, and empty messages fill no
    queue: after 65537 of them have been sent, each with success, the receiver of
    the first one finds the queue empty, and 65536 messages stay counted in the
    system but in no queue. *)
Theorem empty_messages_lost y x z ms q :
  rtc msg_step msys_init y → snd_args x → s_size x = 0 → mailbox (st y) (s_msqid x) q [] →
  ipcperms (s_caller x) (msg_perm q) S_IWUGO = false → ipcperms (r_caller z) (msg_perm q) S_IRUGO = false →
  rcv_args z → r_msqid z = s_msqid x → r_type z = 0 → has (r_flg z) IPC_NOWAIT = true →
  NoDup ms → Forall (λ m, m ≠ 0 ∧ msgs (st y) !! m = None) ms → Z.of_nat (length ms) = 2 ^ 16 + 1 →
  ∃ s1 s2, send_many x ms (st y) = Ret (replicate (length ms) (Some 0)) s1 ∧
    sys_msgrcv z 0 s1 = Ret (Some (0, Some (s_type x, []))) s2 ∧ sys_msgrcv z 0 s2 = Ret (Some (- ENOMSG, None)) s2 ∧
    msghdrs s2 = msghdrs (st y) + 2 ^ 16.
Proof.
  intros [C Hi]%reach_msys Ha Hz Hm Hp Hpz Haz Hid Hty Hnw Hnd Hfr Hlen. destruct (mailbox_at C _ _ q [] (sy_inv _ _ Hi) Hm) as (a & Hu & E & Hs & HC).
  destruct (mi_queue _ _ (sy_inv _ _ Hi) _ _ E) as (Hok & _). symmetry in HC. apply fmap_nil_inv in HC. rewrite HC in Hok. destruct Hok as [Hseg Hlast _ [Hn _] [Hb _] Hl _].
  destruct (send_many_piled x ms (st y) a q []) as (s1 & q1 & l1 & E1 & Hp1 & Hq1 & Hl1 & Hh1); try done.
  { split; try done; [split; [apply Hl|done]|apply NoDup_nil_2]. }
  destruct l1 as [|[b m] l1]; [cbn in Hl1; lia|]. rewrite <-Hq1 in Hpz.
  destruct (piled_wrapped x z s1 a q1 b m l1) as (s2 & E2 & E3 & Hh2); try done.
  { rewrite Hl1. cbn [length Nat.add]. rewrite Hlen. done. }
  exists s1, s2. split_and!; [done..|]. lia.
Qed.

(** ** Witnesses *)

Definition msg_user : cred := MkCred 1000 1000 1000 1000 100 100 100 100 [] false 1 [] 18.
Definition msg_caller (t : Z) : caller := MkCaller t msg_user (100 + t) 0.

(** A queue under key 7. *)
Definition sample_mq : ms := queued msg_init 0 4096 (new_msq (msg_caller 1) 7 (512 + 438) 0).
Definition sample_msys : msys := MkMsys sample_mq ∅ ∅.

Definition sample_snd : sender := MkSender (msg_caller 1) 0 5 [104; 105] 2 0 false false.
Definition sample_rcv : receiver := MkReceiver (msg_caller 2) 0 80 5 0 false.

(** A receiver sleeps, then the queue is removed. *)
Definition sample_gone : msys :=
  MkMsys (match sys_msgctl (msg_caller 1) 0 IPC_RMID (MkBufArg 0 0 0 0 0) sample_mq with Ret _ s | Stuck _ s => s end)
    {[ 2 := Receiving sample_rcv 4096 ]} {[ 4096 ]}.

Lemma sample_msys_reach : rtc msg_step msys_init sample_msys.
Proof. apply rtc_once, (mst_get (msg_caller 1) 4096 7 (512 + 438) 0); [done|]. vm_compute. reflexivity. Qed.

Lemma sample_gone_reach : rtc msg_step msys_init sample_gone.
Proof.
  eapply rtc_r; [eapply rtc_r; [apply sample_msys_reach|]|].
  - apply (mst_rcv sample_rcv 0 4096 None); [done..|vm_compute; reflexivity|done].
  - apply (mst_ctl (msg_caller 1) 0 IPC_RMID (MkBufArg 0 0 0 0 0) 0 (MRemove 4096)); [done|]. vm_compute. reflexivity.
Qed.

Lemma sample_mailbox : mailbox sample_mq 0 (new_msq (msg_caller 1) 7 (512 + 438) 0) [].
Proof. exists 4096, []. done. Qed.

Lemma sample_roomy : roomy sample_mq.
Proof. intros a q H. cbn in H. rewrite insert_empty in H. apply lookup_singleton_Some in H as [_ <-]. done. Qed.

Lemma lost_blocks :
  NoDup (seqZ 1 (2 ^ 16 + 1)) ∧ Forall (λ m, m ≠ 0 ∧ msgs sample_mq !! m = None) (seqZ 1 (2 ^ 16 + 1)) ∧ Z.of_nat (length (seqZ 1 (2 ^ 16 + 1))) = 2 ^ 16 + 1.
Proof.
  split_and!; [apply NoDup_seqZ| |rewrite length_seqZ; apply Z2Nat.id; lia]. apply Forall_forall. intros m Hm%elem_of_seqZ. split; [lia|done].
Qed.

Lemma msg_reachable_witness : ∃ r s', sys_msgsnd sample_snd 0 8192 sample_mq = Ret r s'.
Proof.
  destruct (msg_reachable sample_msys sample_msys_reach) as (_ & _ & H & _). apply (H sample_snd 0 8192); [split; done|done|apply sample_roomy].
Defined.

Lemma msgsnd_appends_witness :
  ∃ r s' l', sys_msgsnd sample_snd 0 8192 sample_mq = Ret r s' ∧ send_outcome sample_snd 8192 MSGMNB [] r l' ∧
    only_mailbox sample_mq s' 0 (new_msq (msg_caller 1) 7 (512 + 438) 0) l'.
Proof.
  apply (msgsnd_appends sample_msys sample_snd 8192 (new_msq (msg_caller 1) 7 (512 + 438) 0) []);
    [apply sample_msys_reach|by vm_compute|done|apply sample_roomy|apply sample_mailbox|by vm_compute|done].
Defined.


Lemma msg_roundtrip_witness :
  ∃ s1 s2, sys_msgsnd sample_snd 0 8192 sample_mq = Ret (Some 0) s1 ∧ sys_msgrcv sample_rcv 0 s1 = Ret (Some (2, Some (5, [104; 105]))) s2 ∧
    only_mailbox sample_mq s2 0 (new_msq (msg_caller 1) 7 (512 + 438) 0) [].
Proof.
  apply (msg_roundtrip sample_msys sample_snd sample_rcv 8192 (new_msq (msg_caller 1) 7 (512 + 438) 0) []);
    [apply sample_msys_reach|by vm_compute|done|done|apply sample_roomy|apply sample_mailbox|by vm_compute|done|by vm_compute|by vm_compute|done|done|by vm_compute|by vm_compute|by vm_compute|].
  intros p Hp%elem_of_nil. done.
Defined.

Lemma removed_queue_wakes_witness :
  recv_slept (again_r sample_rcv (msg_caller 2) false) 4096 (st sample_gone) = Ret (Some (- EIDRM, None)) (st sample_gone).
Proof.
  exact (removed_queue_wakes sample_gone 2 (Receiving sample_rcv 4096) sample_gone_reach eq_refl ltac:(set_solver) (msg_caller 2) false).
Defined.

Lemma empty_messages_lost_witness :
  let x := MkSender (msg_caller 1) 0 5 [] 0 0 false false in
  let z := MkReceiver (msg_caller 2) 0 80 0 IPC_NOWAIT false in
  ∃ s1 s2, send_many x (seqZ 1 (2 ^ 16 + 1)) sample_mq = Ret (replicate (length (seqZ 1 (2 ^ 16 + 1))) (Some 0)) s1 ∧
    sys_msgrcv z 0 s1 = Ret (Some (0, Some (5, []))) s2 ∧ sys_msgrcv z 0 s2 = Ret (Some (- ENOMSG, None)) s2 ∧ msghdrs s2 = 2 ^ 16.
Proof.
  intros x z. apply (empty_messages_lost sample_msys x z (seqZ 1 (2 ^ 16 + 1)) (new_msq (msg_caller 1) 7 (512 + 438) 0));
    [apply sample_msys_reach|by vm_compute|done|apply sample_mailbox|by vm_compute|by vm_compute|by vm_compute|done|done|by vm_compute|apply lost_blocks..].
Defined.
