(* ===== verification/Avl.v ===== *)
(** * Avl: the tree of memory areas

    Models the AVL tree of mm/mmap.c, in which the areas of a process are kept by
    the end of their addresses, and the data of the areas (include/linux/mm.h).

    Areas are kept by address, with the links of the tree and of the list inside
    them.  A [nodeplace] of the code, the address of a pointer to a node, is a
    [place]: the root of the tree or a son of a node.  The stacks of places are
    lists in the order of the array, whose bound is checked.  The messages about
    inconsistencies are not modelled. *)

From stdpp Require Import gmap.
From S2P Require Import Prelude.

(** ** Data *)

Record vma := MkVma {
  vm_start : Z; vm_end : Z; vm_page_prot : Z; vm_flags : Z;
  vm_avl_height : Z; vm_avl_left : Z; vm_avl_right : Z;
  vm_next : Z; vm_next_share : Z; vm_prev_share : Z;
  vm_ops : Z; vm_offset : Z; vm_inode : Z; vm_pte : Z;
}.

#[global] Instance eta_vma : Eta vma := λ x,
  MkVma (vm_start x) (vm_end x) (vm_page_prot x) (vm_flags x) (vm_avl_height x) (vm_avl_left x) (vm_avl_right x)
    (vm_next x) (vm_next_share x) (vm_prev_share x) (vm_ops x) (vm_offset x) (vm_inode x) (vm_pte x).

Record mm_struct := MkMm {
  mmap : Z; mmap_avl : Z; end_code : Z; brk : Z; rss : Z; total_vm : Z; locked_vm : Z; def_flags : Z;
}.

#[global] Instance eta_mm_struct : Eta mm_struct := λ x,
  MkMm (mmap x) (mmap_avl x) (end_code x) (brk x) (rss x) (total_vm x) (locked_vm x) (def_flags x).

Record inode := MkInode { i_count : Z; i_mmap : Z }.

#[global] Instance eta_inode : Eta inode := λ x, MkInode (i_count x) (i_mmap x).

(** Calls of code outside of mm/mmap.c: the operations of an area, with the area
    as it is at that time, the page tables, and the release of an inode. *)
Inductive vmcall :=
  | VmOpen (a : Z) (v : vma)
  | VmClose (a : Z) (v : vma)
  | VmUnmap (a : Z) (v : vma) (st len : Z)
  | ZapPageRange (st len : Z)
  | Touch (addr : Z)
  | Iput (ino : Z).

(** The address space of the current process, all areas, the inodes that they
    map, and the calls made so far. *)
Record vms := MkVms { mm : mm_struct; vmas : gmap Z vma; inodes : gmap Z inode; calls : list vmcall }.

#[global] Instance eta_vms : Eta vms := λ x, MkVms (mm x) (vmas x) (inodes x) (calls x).

Definition ld_vma (a : Z) : M vms vma := λ s,
  match vmas s !! a with Some v => Ret v s | None => Stuck NullDeref s end.
Definition st_vma (a : Z) (f : vma → vma) : M vms unit := λ s,
  match vmas s !! a with Some v => Ret tt (s <| vmas := <[a := f v]> (vmas s) |>) | None => Stuck NullDeref s end.
Definition mod_mm (f : mm_struct → mm_struct) : M vms unit := modify (λ s, s <| mm := f (mm s) |>).

(** ** The tree *)

Inductive place := Root | LeftOf (a : Z) | RightOf (a : Z).

Definition rd_place (p : place) : M vms Z :=
  match p with
  | Root => gets (λ s, mmap_avl (mm s))
  | LeftOf a => v ← ld_vma a; mret (vm_avl_left v)
  | RightOf a => v ← ld_vma a; mret (vm_avl_right v)
  end.

Definition wr_place (p : place) (x : Z) : M vms unit :=
  match p with
  | Root => mod_mm (λ m, m <| mmap_avl := x |>)
  | LeftOf a => st_vma a (λ v, v <| vm_avl_left := x |>)
  | RightOf a => st_vma a (λ v, v <| vm_avl_right := x |>)
  end.

Definition avl_maxheight : nat := 41.

Definition heightof (tree : Z) : M vms Z := if tree =? 0 then mret 0 else v ← ld_vma tree; mret (vm_avl_height v).

(** [*stack_ptr++ = nodeplace; stack_count++] *)
Definition push (stack : list place) (p : place) : M vms (list place) :=
  if (length stack <? avl_maxheight)%nat then mret (stack ++ [p]) else halt OutOfBounds.

(** The node at a place, too high on its left. *)
Definition rotate_right (nodeplace : place) (node nodeleft heightleft : Z) : M vms unit :=
  vl ← ld_vma nodeleft;
  let nodeleftleft := vm_avl_left vl in
  let nodeleftright := vm_avl_right vl in
  heightleftright ← heightof nodeleftright;
  heightleftleft ← heightof nodeleftleft;
  if heightleftright <=? heightleftleft then
    st_vma node (λ v, v <| vm_avl_left := nodeleftright |>) ;;
    st_vma nodeleft (λ v, v <| vm_avl_right := node |>) ;;
    st_vma node (λ v, v <| vm_avl_height := 1 + heightleftright |>) ;;
    st_vma nodeleft (λ v, v <| vm_avl_height := 1 + (1 + heightleftright) |>) ;;
    wr_place nodeplace nodeleft
  else
    vlr ← ld_vma nodeleftright;
    st_vma nodeleft (λ v, v <| vm_avl_right := vm_avl_left vlr |>) ;;
    vlr ← ld_vma nodeleftright;
    st_vma node (λ v, v <| vm_avl_left := vm_avl_right vlr |>) ;;
    st_vma nodeleftright (λ v, v <| vm_avl_left := nodeleft |>) ;;
    st_vma nodeleftright (λ v, v <| vm_avl_right := node |>) ;;
    st_vma node (λ v, v <| vm_avl_height := heightleftright |>) ;;
    st_vma nodeleft (λ v, v <| vm_avl_height := heightleftright |>) ;;
    st_vma nodeleftright (λ v, v <| vm_avl_height := heightleft |>) ;;
    wr_place nodeplace nodeleftright.

(** The node at a place, too high on its right. *)
Definition rotate_left (nodeplace : place) (node noderight heightright : Z) : M vms unit :=
  vr ← ld_vma noderight;
  let noderightright := vm_avl_right vr in
  let noderightleft := vm_avl_left vr in
  heightrightleft ← heightof noderightleft;
  heightrightright ← heightof noderightright;
  if heightrightleft <=? heightrightright then
    st_vma node (λ v, v <| vm_avl_right := noderightleft |>) ;;
    st_vma noderight (λ v, v <| vm_avl_left := node |>) ;;
    st_vma node (λ v, v <| vm_avl_height := 1 + heightrightleft |>) ;;
    st_vma noderight (λ v, v <| vm_avl_height := 1 + (1 + heightrightleft) |>) ;;
    wr_place nodeplace noderight
  else
    vrl ← ld_vma noderightleft;
    st_vma noderight (λ v, v <| vm_avl_left := vm_avl_right vrl |>) ;;
    vrl ← ld_vma noderightleft;
    st_vma node (λ v, v <| vm_avl_right := vm_avl_left vrl |>) ;;
    st_vma noderightleft (λ v, v <| vm_avl_right := noderight |>) ;;
    st_vma noderightleft (λ v, v <| vm_avl_left := node |>) ;;
    st_vma node (λ v, v <| vm_avl_height := heightrightleft |>) ;;
    st_vma noderight (λ v, v <| vm_avl_height := heightrightleft |>) ;;
    st_vma noderightleft (λ v, v <| vm_avl_height := heightright |>) ;;
    wr_place nodeplace noderightleft.

(** From the top of the stack down. *)
Fixpoint avl_rebalance (nodeplaces : list place) : M vms unit :=
  match nodeplaces with
  | [] => mret tt
  | nodeplace :: rest =>
      node ← rd_place nodeplace;
      v ← ld_vma node;
      heightleft ← heightof (vm_avl_left v);
      heightright ← heightof (vm_avl_right v);
      if heightright + 1 <? heightleft then
        rotate_right nodeplace node (vm_avl_left v) heightleft ;; avl_rebalance rest
      else if heightleft + 1 <? heightright then
        rotate_left nodeplace node (vm_avl_right v) heightright ;; avl_rebalance rest
      else
        let height := (if heightleft <? heightright then heightright else heightleft) + 1 in
        if height =? vm_avl_height v then mret tt
        else st_vma node (λ v, v <| vm_avl_height := height |>) ;; avl_rebalance rest
  end.

(** The loop down to the place for [key], with the neighbours there. *)
Fixpoint avl_descend (fuel : nat) (key : Z) (nodeplace : place) (stack : list place) (to_the_left to_the_right : Z) :
    M vms (place * list place * Z * Z) :=
  match fuel with
  | O => halt OutOfFuel
  | S fuel' =>
      node ← rd_place nodeplace;
      if node =? 0 then mret (nodeplace, stack, to_the_left, to_the_right)
      else
        stack ← push stack nodeplace;
        v ← ld_vma node;
        if key <? vm_end v then avl_descend fuel' key (LeftOf node) stack to_the_left node
        else avl_descend fuel' key (RightOf node) stack node to_the_right
  end.

Definition all_vmas : M vms nat := gets (λ s, length (map_to_list (vmas s))).

(** The node to the left and the node to the right of the new one. *)
Definition avl_insert_neighbours (new_node : Z) : M vms (Z * Z) :=
  v ← ld_vma new_node;
  n ← all_vmas;
  d ← avl_descend (S n) (vm_end v) Root [] 0 0;
  let '(nodeplace, stack, to_the_left, to_the_right) := d in
  st_vma new_node (λ v, v <| vm_avl_left := 0 |> <| vm_avl_right := 0 |> <| vm_avl_height := 1 |>) ;;
  wr_place nodeplace new_node ;;
  avl_rebalance (reverse stack) ;;
  mret (to_the_left, to_the_right).

(** The same without the neighbours. *)
Definition avl_insert (new_node : Z) : M vms unit := avl_insert_neighbours new_node ;; mret tt.

(** The loop down to the node with [key]; [None] if there is none. *)
Fixpoint avl_find_key (fuel : nat) (key : Z) (nodeplace : place) (stack : list place) : M vms (option (place * list place)) :=
  match fuel with
  | O => halt OutOfFuel
  | S fuel' =>
      node ← rd_place nodeplace;
      if node =? 0 then mret None
      else
        stack ← push stack nodeplace;
        v ← ld_vma node;
        if key =? vm_end v then mret (Some (nodeplace, stack))
        else if key <? vm_end v then avl_find_key fuel' key (LeftOf node) stack
        else avl_find_key fuel' key (RightOf node) stack
  end.

(** The loop down to the last node of a subtree. *)
Fixpoint avl_last (fuel : nat) (nodeplace : place) (stack : list place) : M vms (place * list place * Z) :=
  match fuel with
  | O => halt OutOfFuel
  | S fuel' =>
      node ← rd_place nodeplace;
      v ← ld_vma node;
      if vm_avl_right v =? 0 then mret (nodeplace, stack, node)
      else stack ← push stack nodeplace; avl_last fuel' (RightOf node) stack
  end.

(** [*stack_ptr_to_delete = p], which may be the free place behind the stack. *)
Definition poke (stack : list place) (i : nat) (p : place) : M vms (list place) :=
  if (i <? avl_maxheight)%nat then mret (<[i := p]> stack) else halt OutOfBounds.

Definition avl_remove (node_to_delete : Z) : M vms unit :=
  v ← ld_vma node_to_delete;
  n ← all_vmas;
  f ← avl_find_key (S n) (vm_end v) Root [];
  match f with
  | None => mret tt
  | Some (nodeplace_to_delete, stack) =>
      v ← ld_vma node_to_delete;
      if vm_avl_left v =? 0 then
        wr_place nodeplace_to_delete (vm_avl_right v) ;;
        avl_rebalance (tail (reverse stack))
      else
        let stack_ptr_to_delete := length stack in
        l ← avl_last (S n) (LeftOf node_to_delete) stack;
        let '(nodeplace, stack, node) := l in
        w ← ld_vma node;
        wr_place nodeplace (vm_avl_left w) ;;
        v ← ld_vma node_to_delete;
        st_vma node (λ w, w <| vm_avl_left := vm_avl_left v |> <| vm_avl_right := vm_avl_right v |> <| vm_avl_height := vm_avl_height v |>) ;;
        wr_place nodeplace_to_delete node ;;
        stack ← poke stack stack_ptr_to_delete (LeftOf node);
        avl_rebalance (reverse stack)
  end.

(** The loops of [avl_neighbours]: down to the key, then to the last node on the
    left and the first one on the right. *)
Fixpoint neighbours_find (fuel : nat) (key tree to_the_left to_the_right : Z) : M vms (Z * Z * Z) :=
  match fuel with
  | O => halt OutOfFuel
  | S fuel' =>
      if tree =? 0 then mret (0, to_the_left, to_the_right)
      else
        v ← ld_vma tree;
        if key =? vm_end v then mret (tree, to_the_left, to_the_right)
        else if key <? vm_end v then neighbours_find fuel' key (vm_avl_left v) to_the_left tree
        else neighbours_find fuel' key (vm_avl_right v) tree to_the_right
  end.

Fixpoint rightmost (fuel : nat) (node : Z) : M vms Z :=
  match fuel with
  | O => halt OutOfFuel
  | S fuel' => v ← ld_vma node; if vm_avl_right v =? 0 then mret node else rightmost fuel' (vm_avl_right v)
  end.

Fixpoint leftmost (fuel : nat) (node : Z) : M vms Z :=
  match fuel with
  | O => halt OutOfFuel
  | S fuel' => v ← ld_vma node; if vm_avl_left v =? 0 then mret node else leftmost fuel' (vm_avl_left v)
  end.

Definition avl_neighbours (node : Z) : M vms (Z * Z) :=
  v ← ld_vma node;
  n ← all_vmas;
  root ← rd_place Root;
  f ← neighbours_find (S n) (vm_end v) root 0 0;
  let '(tree, to_the_left, to_the_right) := f in
  if tree =? 0 then mret (to_the_left, to_the_right)
  else if negb (tree =? node) then mret (to_the_left, to_the_right)
  else
    w ← ld_vma tree;
    l ← (if vm_avl_left w =? 0 then mret to_the_left else rightmost (S n) (vm_avl_left w));
    r ← (if vm_avl_right w =? 0 then mret to_the_right else leftmost (S n) (vm_avl_right w));
    mret (l, r).

(** The first area that ends above [addr]; 0 if there is none. *)
Fixpoint find_vma_loop (fuel : nat) (addr tree result : Z) : M vms Z :=
  match fuel with
  | O => halt OutOfFuel
  | S fuel' =>
      if tree =? 0 then mret result
      else
        v ← ld_vma tree;
        if addr <? vm_end v then
          if vm_start v <=? addr then mret tree else find_vma_loop fuel' addr (vm_avl_left v) tree
        else find_vma_loop fuel' addr (vm_avl_right v) result
  end.

Definition find_vma (addr : Z) : M vms Z :=
  n ← all_vmas;
  root ← rd_place Root;
  find_vma_loop (S n) addr root 0.

Definition find_vma_intersection (start_addr end_addr : Z) : M vms Z :=
  a ← find_vma start_addr;
  if a =? 0 then mret 0
  else v ← ld_vma a; mret (if end_addr <=? vm_start v then 0 else a).
