(* ===== verification/AvlFacts.v ===== *)
(** * AvlFacts: the tree of memory areas is an AVL tree

    What the nodes of the tree form is a [tree]; a position in it, with the stack
    of places that leads there, is a list of [frame]s.  Rebalancing keeps the
    order of the nodes and makes the tree balanced again, so that insertion,
    removal and lookup act as on the sorted list of the areas. *)

From stdpp Require Import gmap.
From S2P Require Import Prelude Avl.

(** ** Specification *)

Inductive tree := Leaf | Node (l : tree) (a h : Z) (r : tree).

Fixpoint flat (t : tree) : list Z := match t with Leaf => [] | Node l a _ r => flat l ++ a :: flat r end.

Definition ht (t : tree) : Z := match t with Leaf => 0 | Node _ _ h _ => h end.

(** Heights are right and balanced. *)
Fixpoint avl (t : tree) : Prop :=
  match t with
  | Leaf => True
  | Node l _ h r => avl l ∧ avl r ∧ h = 1 + Z.max (ht l) (ht r) ∧ -1 ≤ ht l - ht r ≤ 1
  end.

(** The nodes from [p] on are [t]. *)
Fixpoint repr (V : gmap Z vma) (p : Z) (t : tree) : Prop :=
  match t with
  | Leaf => p = 0
  | Node l a h r => p = a ∧ a ≠ 0 ∧ ∃ v, V !! a = Some v ∧ vm_avl_height v = h ∧ repr V (vm_avl_left v) l ∧ repr V (vm_avl_right v) r
  end.

(** A node on the way to a position, whose left or right son that is. *)
Inductive frame := FL (a h : Z) (r : tree) | FR (l : tree) (a h : Z).

Definition fr_node (f : frame) : Z := match f with FL a _ _ | FR _ a _ => a end.
Definition fr_nodes (f : frame) : list Z := match f with FL a _ r => a :: flat r | FR l a _ => flat l ++ [a] end.
Definition fill (f : frame) (t : tree) : tree := match f with FL a h r => Node t a h r | FR l a h => Node l a h t end.
Definition fr_place (f : frame) : place := match f with FL a _ _ => LeftOf a | FR _ a _ => RightOf a end.

(** Frames from the position up to the root. *)
Definition place_of (c : list frame) : place := match c with [] => Root | f :: _ => fr_place f end.
Definition plug (c : list frame) (t : tree) : tree := foldl (λ t f, fill f t) t c.
Definition nodes (c : list frame) : list Z := c ≫= fr_nodes.

(** The nodes before and after the position, in order. *)
Fixpoint before (c : list frame) : list Z :=
  match c with [] => [] | FL _ _ _ :: c' => before c' | FR l a _ :: c' => before c' ++ flat l ++ [a] end.
Fixpoint after (c : list frame) : list Z :=
  match c with [] => [] | FL a _ r :: c' => a :: flat r ++ after c' | FR _ _ _ :: c' => after c' end.

(** The stack of places, from its top. *)
Fixpoint places (c : list frame) : list place := match c with [] => [] | _ :: c' => place_of c' :: places c' end.

Definition at_place (s : vms) (p : place) : Z :=
  match p with
  | Root => mmap_avl (mm s)
  | LeftOf a => default 0 (vm_avl_left <$> vmas s !! a)
  | RightOf a => default 0 (vm_avl_right <$> vmas s !! a)
  end.

Definition fr_repr (V : gmap Z vma) (f : frame) : Prop :=
  ∃ v, V !! fr_node f = Some v ∧ fr_node f ≠ 0 ∧
    match f with
    | FL _ h r => vm_avl_height v = h ∧ repr V (vm_avl_right v) r
    | FR l _ h => vm_avl_height v = h ∧ repr V (vm_avl_left v) l
    end.

Fixpoint creps (s : vms) (c : list frame) : Prop :=
  match c with
  | [] => True
  | f :: c' => fr_repr (vmas s) f ∧ at_place s (place_of c') = fr_node f ∧ creps s c'
  end.

(** Everything of an area but its place in the tree. *)
Definition data (v : vma) : vma := v <| vm_avl_height := 0 |> <| vm_avl_left := 0 |> <| vm_avl_right := 0 |>.

(** The states differ in the tree only. *)
Definition tree_only (s s' : vms) : Prop :=
  data <$> vmas s' = data <$> vmas s ∧ inodes s' = inodes s ∧ calls s' = calls s ∧
  (mm s') <| mmap_avl := 0 |> = (mm s) <| mmap_avl := 0 |>.

(** The tree at [c], with [t] at the position. *)
Record zip (s : vms) (c : list frame) (t : tree) : Prop := {
  zp_repr : repr (vmas s) (at_place s (place_of c)) t;
  zp_creps : creps s c;
  zp_nodup : NoDup (nodes c ++ flat t);
}.

(** A context that a tree of height [k] makes balanced. *)
Fixpoint fits (c : list frame) (k : Z) : Prop :=
  match c with
  | [] => True
  | FL _ h r :: c' => avl r ∧ h = 1 + Z.max k (ht r) ∧ -1 ≤ k - ht r ≤ 1 ∧ fits c' h
  | FR l _ h :: c' => avl l ∧ h = 1 + Z.max (ht l) k ∧ -1 ≤ ht l - k ≤ 1 ∧ fits c' h
  end.

(** ** Lemmas: trees in memory *)

Lemma repr_nodes V p t a : repr V p t → a ∈ flat t → ∃ v, V !! a = Some v ∧ a ≠ 0.
Proof.
  revert p. induction t as [|l IHl b h r IHr]; cbn; intros p; [set_solver|]. intros (-> & Hb & v & E & _ & Hl & Hr) Hin.
  apply elem_of_app in Hin as [Hin|[->|Hin]%elem_of_cons]; eauto.
Qed.

Lemma repr_frame V V' p t : (∀ a, a ∈ flat t → V' !! a = V !! a) → repr V p t → repr V' p t.
Proof.
  revert p. induction t as [|l IHl b h r IHr]; cbn; intros p Hf; [done|]. intros (-> & Hb & v & E & Hh & Hl & Hr).
  split_and!; [done|done|]. exists v. rewrite Hf by set_solver. split_and!; [done|done|apply IHl; set_solver|apply IHr; set_solver].
Qed.

Lemma repr_root V p t : repr V p t → p = match t with Leaf => 0 | Node _ a _ _ => a end.
Proof. destruct t; cbn; [done|]. by intros [-> _]. Qed.

Lemma plug_cons f c t : plug (f :: c) t = plug c (fill f t).
Proof. done. Qed.

Lemma nodes_cons f c : nodes (f :: c) = fr_nodes f ++ nodes c.
Proof. done. Qed.

Lemma flat_plug c : ∀ t, flat (plug c t) = before c ++ flat t ++ after c.
Proof.
  induction c as [|f c IH]; intros t; [cbn; by rewrite app_nil_r|]. rewrite plug_cons, IH. destruct f as [a h r|l a h]; cbn; by rewrite <-!app_assoc.
Qed.

Lemma nodes_perm c : Permutation (nodes c) (before c ++ after c).
Proof. induction c as [|f c IH]; [done|]. rewrite nodes_cons, IH. destruct f; cbn; solve_Permutation. Qed.

Lemma plug_app d c t : plug (d ++ c) t = plug c (plug d t).
Proof. apply foldl_app. Qed.

Lemma ht_repr V p t : repr V p t → ∀ s, vmas s = V → heightof p s = Ret (ht t) s.
Proof.
  intros Hr s <-. destruct t as [|l a h r]; cbn in Hr; [by subst p|]. destruct Hr as (-> & Ha & v & E & <- & _).
  unfold heightof, mbind, M_bind, ld_vma. by rewrite (proj2 (Z.eqb_neq _ _) Ha), E.
Qed.

Lemma ht_nonneg t : avl t → 0 ≤ ht t.
Proof. induction t as [|l IHl a h r IHr]; cbn; [done|]. intros (Hl & Hr & -> & _). specialize (IHl Hl). lia. Qed.

(** ** Lemmas: positions *)

Lemma ld_vma_run s a v : vmas s !! a = Some v → ld_vma a s = Ret v s.
Proof. intros E. unfold ld_vma. by rewrite E. Qed.

Lemma st_vma_run s a f v : vmas s !! a = Some v → st_vma a f s = Ret tt (s <| vmas := <[a := f v]> (vmas s) |>).
Proof. intros E. unfold st_vma. by rewrite E. Qed.

Lemma tree_only_refl s : tree_only s s.
Proof. done. Qed.

Lemma tree_only_trans s1 s2 s3 : tree_only s1 s2 → tree_only s2 s3 → tree_only s1 s3.
Proof. unfold tree_only. intros (-> & -> & -> & ->) (-> & -> & -> & ->). done. Qed.

Lemma data_insert (V : gmap Z vma) a v v' : V !! a = Some v → data v' = data v → data <$> <[a := v']> V = data <$> V.
Proof. intros E Ed. rewrite fmap_insert, Ed, insert_id; [done|]. by rewrite lookup_fmap, E. Qed.

Lemma at_place_nodes f c : fr_node f ∈ nodes (f :: c).
Proof. rewrite nodes_cons. destruct f; cbn; set_solver. Qed.

Lemma fr_repr_frame V V' f : (∀ a, a ∈ fr_nodes f → V' !! a = V !! a) → fr_repr V f → fr_repr V' f.
Proof.
  intros Hf (v & E & Hn & Hr). exists v. destruct f as [a h r|l a h]; cbn in *; rewrite Hf by set_solver; split_and!; try done; try apply Hr.
  - eapply repr_frame; [|apply Hr]. set_solver.
  - eapply repr_frame; [|apply Hr]. set_solver.
Qed.

Lemma at_place_frame s s' c :
  (∀ a, a ∈ nodes c → vmas s' !! a = vmas s !! a) → mmap_avl (mm s') = mmap_avl (mm s) → at_place s' (place_of c) = at_place s (place_of c).
Proof. intros Hf Hm. destruct c as [|f c]; [done|]. pose proof (Hf _ (at_place_nodes f c)) as E. destruct f; cbn in *; by rewrite E. Qed.

Lemma creps_frame s s' c :
  (∀ a, a ∈ nodes c → vmas s' !! a = vmas s !! a) → mmap_avl (mm s') = mmap_avl (mm s) → creps s c → creps s' c.
Proof.
  induction c as [|f c IH]; intros Hf Hm; [done|]. rewrite nodes_cons in Hf. intros (H1 & H2 & H3). split_and!.
  - eapply fr_repr_frame; [|done]. set_solver.
  - rewrite (at_place_frame s s'); [done|set_solver|done].
  - apply IH; [set_solver|done..].
Qed.

(** What is written at the position. *)
Definition written (s : vms) (p : place) (x : Z) : vms :=
  match p with
  | Root => s <| mm := (mm s) <| mmap_avl := x |> |>
  | LeftOf a => s <| vmas := alter (λ v, v <| vm_avl_left := x |>) a (vmas s) |>
  | RightOf a => s <| vmas := alter (λ v, v <| vm_avl_right := x |>) a (vmas s) |>
  end.

Lemma written_lookup s c x b : b ∉ nodes c → vmas (written s (place_of c) x) !! b = vmas s !! b.
Proof.
  intros Hb. destruct c as [|f c]; [done|]. assert (fr_node f ≠ b) as Hne by (intros <-; by apply Hb, at_place_nodes).
  destruct f; cbn in *; by rewrite lookup_alter_ne.
Qed.

Lemma written_ok s c x :
  creps s c → NoDup (nodes c) →
  wr_place (place_of c) x s = Ret tt (written s (place_of c) x) ∧ at_place (written s (place_of c) x) (place_of c) = x ∧
  creps (written s (place_of c) x) c ∧ tree_only s (written s (place_of c) x).
Proof.
  intros Hc Hn. destruct c as [|f c]; [done|]. destruct Hc as ((v & E & Hn0 & Hr) & Hp & Hc). rewrite nodes_cons in Hn.
  apply NoDup_app in Hn as (Hn1 & Hd & Hn2). assert (∀ s', (∀ b, b ≠ fr_node f → vmas s' !! b = vmas s !! b) → mm s' = mm s → creps s' c ∧ at_place s' (place_of c) = fr_node f) as Hup.
  { intros s' Hs Hm. assert (∀ b, b ∈ nodes c → vmas s' !! b = vmas s !! b) as Hs'.
    { intros b Hb. apply Hs. intros ->. apply (Hd (fr_node f)); [|done]. destruct f; cbn; [apply list_elem_of_here|apply elem_of_app; right; apply list_elem_of_here]. }
    split; [apply (creps_frame s); [done|by rewrite Hm|done]|]. rewrite <-Hp. apply at_place_frame; [done|by rewrite Hm]. }
  destruct f as [a h r|l a h]; cbn [place_of fr_place fr_node written wr_place] in *; unfold st_vma; rewrite E.
  - rewrite (alter_alt_Some _ _ _ _ E). split_and!; [done|cbn; by rewrite lookup_insert_eq| |split_and!; try done; cbn; by apply data_insert with v].
    destruct (Hup (s <| vmas := <[a := v <| vm_avl_left := x |>]> (vmas s) |>)) as [H1 H2]; [intros b Hb; cbn; by rewrite lookup_insert_ne|done|].
    split_and!; [|done|done]. exists (v <| vm_avl_left := x |>). cbn. rewrite lookup_insert_eq. split_and!; try done; [apply Hr|].
    eapply repr_frame; [|apply Hr]. intros b Hb. rewrite lookup_insert_ne; [done|]. intros ->. apply NoDup_cons in Hn1. by destruct Hn1.
  - rewrite (alter_alt_Some _ _ _ _ E). split_and!; [done|cbn; by rewrite lookup_insert_eq| |split_and!; try done; cbn; by apply data_insert with v].
    destruct (Hup (s <| vmas := <[a := v <| vm_avl_right := x |>]> (vmas s) |>)) as [H1 H2]; [intros b Hb; cbn; by rewrite lookup_insert_ne|done|].
    split_and!; [|done|done]. exists (v <| vm_avl_right := x |>). cbn. rewrite lookup_insert_eq. split_and!; try done; [apply Hr|].
    eapply repr_frame; [|apply Hr]. intros b Hb. rewrite lookup_insert_ne; [done|]. intros ->. cbn in Hn1. apply NoDup_app in Hn1 as (_ & Hx & _). by apply (Hx b Hb), list_elem_of_singleton.
Qed.

(** Another tree is put at the position. *)
Lemma replace_tree s c t V x t' :
  zip s c t → (∀ b, b ∈ nodes c → V !! b = vmas s !! b) → data <$> V = data <$> vmas s → repr V x t' → NoDup (nodes c ++ flat t') →
  ∃ s', wr_place (place_of c) x (s <| vmas := V |>) = Ret tt s' ∧ zip s' c t' ∧ tree_only s s' ∧ (∀ b, b ∉ nodes c → vmas s' !! b = V !! b).
Proof.
  intros [Hr Hc Hn] Hf Hd Hx Hn'. set (s1 := s <| vmas := V |>). pose proof Hn' as (Hn1 & Hdis & _)%NoDup_app.
  assert (creps s1 c) as Hc1 by (by apply (creps_frame s)).
  destruct (written_ok s1 c x Hc1 Hn1) as (E & Hat & Hc' & Ht). exists (written s1 (place_of c) x). split_and!; [done| | |].
  - split; [|done|done]. rewrite Hat. eapply repr_frame; [|exact Hx]. intros b Hb. rewrite written_lookup; [done|]. intros Hb'. by apply (Hdis b).
  - eapply tree_only_trans; [|done]. unfold tree_only. cbn. done.
  - intros b Hb. by rewrite written_lookup.
Qed.

(** The nodes at the position become another tree. *)
Lemma replace_sub s c t V x t' :
  zip s c t → (∀ b, b ∉ flat t → V !! b = vmas s !! b) → data <$> V = data <$> vmas s → repr V x t' → Permutation (flat t') (flat t) →
  ∃ s', wr_place (place_of c) x (s <| vmas := V |>) = Ret tt s' ∧ zip s' c t' ∧ tree_only s s'.
Proof.
  intros Hz Hf Hd Hx Hp. pose proof (zp_nodup _ _ _ Hz) as Hn. pose proof Hn as (Hn1 & Hdis & _)%NoDup_app.
  destruct (replace_tree s c t V x t') as (s' & ? & ? & ? & _); [done|intros b Hb; by apply Hf, Hdis|done|done|by rewrite Hp|by exists s'].
Qed.

(** ** Lemmas: rotations *)

Ltac nodups :=
  repeat match goal with
  | H : NoDup (_ ++ _) |- _ => apply NoDup_app in H as (? & ? & ?)
  | H : NoDup (_ :: _) |- _ => apply NoDup_cons in H as [? ?]
  end.

(** Look up what was inserted last at an address. *)
Ltac vlook := repeat first [rewrite lookup_insert_eq | rewrite lookup_insert_ne by done].

Lemma vmas_upd (s : vms) V : vmas (s <| vmas := V |>) = V.
Proof. done. Qed.

Lemma upd_vmas (s : vms) V V' : (s <| vmas := V |>) <| vmas := V' |> = s <| vmas := V' |>.
Proof. done. Qed.

Ltac st_step := erewrite st_vma_run by (rewrite ?vmas_upd; vlook; done || eassumption); rewrite ?vmas_upd, ?upd_vmas.

(** Name the areas that a write at a place happens with. *)
Ltac name_map V := match goal with |- context [wr_place _ _ (_ <| vmas := ?W |>)] => set (V := W) end.

(** Only links were changed. *)
Ltac data_same := repeat (erewrite data_insert; [|vlook; done || eassumption|done]); done.

(** A subtree none of whose nodes was changed. *)
Ltac kept V Hne :=
  eapply repr_frame; [|eassumption];
  let x := fresh "x" in let Hx := fresh "Hx" in
  intros x Hx; pose proof (Hne x ltac:(left; rewrite !elem_of_app; tauto)); decompose_Forall_hyps; unfold V; vlook; done.

(** The nodes [ks] differ from each other, from the rest of the tree and from all
    others. *)
Lemma apart t ks rest :
  Permutation (flat t) (ks ++ rest) → NoDup (flat t) → NoDup ks ∧ ∀ x, x ∈ rest ∨ x ∉ flat t → Forall (λ k, k ≠ x) ks.
Proof.
  intros Hp. rewrite Hp. intros (Hk & Hd & _)%NoDup_app. split; [done|]. intros x Hx. apply Forall_forall. intros k Hin ->.
  destruct Hx as [Hx|Hx]; [by apply (Hd x)|]. apply Hx. rewrite Hp. apply elem_of_app. by left.
Qed.

Lemma rotate_right_once s c ll b hb lr a h r hl :
  zip s c (Node (Node ll b hb lr) a h r) → ht lr ≤ ht ll →
  ∃ s', rotate_right (place_of c) a b hl s = Ret tt s' ∧ tree_only s s' ∧
    zip s' c (Node ll b (1 + (1 + ht lr)) (Node lr a (1 + ht lr) r)).
Proof.
  intros Hz Hle. destruct (zp_repr _ _ _ Hz) as (Hat & Ha & va & Ea & _ & (Hl & Hb & vb & Eb & _ & Hll & Hlr) & Hr).
  pose proof (zp_nodup _ _ _ Hz) as (_ & _ & Hn)%NoDup_app.
  destruct (λ Hp, apart _ [a; b] (flat ll ++ flat lr ++ flat r) Hp Hn) as [Hks Hne]; [cbn; solve_Permutation|]. rewrite !NoDup_cons in Hks. assert (a ≠ b) by set_solver.
  unfold rotate_right, mbind, M_bind. rewrite (ld_vma_run _ _ _ Eb), (ht_repr _ _ _ Hlr s eq_refl), (ht_repr _ _ _ Hll s eq_refl), (proj2 (Z.leb_le _ _) Hle).
  do 4 st_step. name_map V.
  destruct (replace_sub s c _ V b (Node ll b (1 + (1 + ht lr)) (Node lr a (1 + ht lr) r)) Hz) as (s' & E & Hz' & Ht).
  - intros x Hx. pose proof (Hne x (or_intror Hx)). decompose_Forall_hyps. unfold V. vlook. done.
  - unfold V. data_same.
  - cbn. split_and!; [done|done|]. eexists. split; [unfold V; vlook; done|]. cbn. split_and!; [done|kept V Hne|done|done|].
    eexists. split; [unfold V; vlook; done|]. cbn. split_and!; [done|kept V Hne|kept V Hne].
  - cbn. solve_Permutation.
  - by exists s'.
Qed.

Lemma rotate_right_twice s c ll b hb m1 d hd m2 a h r hl :
  zip s c (Node (Node ll b hb (Node m1 d hd m2)) a h r) → ht ll < hd →
  ∃ s', rotate_right (place_of c) a b hl s = Ret tt s' ∧ tree_only s s' ∧
    zip s' c (Node (Node ll b hd m1) d hl (Node m2 a hd r)).
Proof.
  intros Hz Hlt. destruct (zp_repr _ _ _ Hz) as (Hat & Ha & va & Ea & _ & (Hl & Hb & vb & Eb & _ & Hll & Hlr) & Hr).
  pose proof (ht_repr (vmas s) (vm_avl_right vb) (Node m1 d hd m2) Hlr s eq_refl) as Hht. cbn [ht] in Hht. destruct Hlr as (Hlr & Hd & vd & Ed & Hhd & Hm1 & Hm2).
  pose proof (zp_nodup _ _ _ Hz) as (_ & _ & Hn)%NoDup_app.
  destruct (λ Hp, apart _ [a; b; d] (flat ll ++ flat m1 ++ flat m2 ++ flat r) Hp Hn) as [Hks Hne]; [cbn; solve_Permutation|]. rewrite !NoDup_cons in Hks. assert (a ≠ b ∧ a ≠ d ∧ b ≠ d) as (? & ? & ?) by set_solver.
  unfold rotate_right, mbind, M_bind. rewrite (ld_vma_run _ _ _ Eb), Hht, (ht_repr _ _ _ Hll s eq_refl), (proj2 (Z.leb_gt _ _) Hlt), Hlr, (ld_vma_run _ _ _ Ed).
  st_step. erewrite ld_vma_run by (rewrite ?vmas_upd; vlook; done || eassumption). do 6 st_step. name_map V.
  destruct (replace_sub s c _ V d (Node (Node ll b hd m1) d hl (Node m2 a hd r)) Hz) as (s' & E & Hz' & Ht).
  - intros x Hx. pose proof (Hne x (or_intror Hx)). decompose_Forall_hyps. unfold V. vlook. done.
  - unfold V. data_same.
  - cbn. split_and!; [done|done|]. eexists. split; [unfold V; vlook; done|]. cbn. split_and!; try done.
    all: eexists; split; [unfold V; vlook; done|]; cbn; split_and!; try done; kept V Hne.
  - cbn. solve_Permutation.
  - by exists s'.
Qed.

Lemma rotate_left_once s c l a h rl b hb rr hr :
  zip s c (Node l a h (Node rl b hb rr)) → ht rl ≤ ht rr →
  ∃ s', rotate_left (place_of c) a b hr s = Ret tt s' ∧ tree_only s s' ∧
    zip s' c (Node (Node l a (1 + ht rl) rl) b (1 + (1 + ht rl)) rr).
Proof.
  intros Hz Hle. destruct (zp_repr _ _ _ Hz) as (Hat & Ha & va & Ea & _ & Hl & (Hr & Hb & vb & Eb & _ & Hrl & Hrr)).
  pose proof (zp_nodup _ _ _ Hz) as (_ & _ & Hn)%NoDup_app.
  destruct (λ Hp, apart _ [a; b] (flat l ++ flat rl ++ flat rr) Hp Hn) as [Hks Hne]; [cbn; solve_Permutation|]. rewrite !NoDup_cons in Hks. assert (a ≠ b) by set_solver.
  unfold rotate_left, mbind, M_bind. rewrite (ld_vma_run _ _ _ Eb), (ht_repr _ _ _ Hrl s eq_refl), (ht_repr _ _ _ Hrr s eq_refl), (proj2 (Z.leb_le _ _) Hle).
  do 4 st_step. name_map V.
  destruct (replace_sub s c _ V b (Node (Node l a (1 + ht rl) rl) b (1 + (1 + ht rl)) rr) Hz) as (s' & E & Hz' & Ht).
  - intros x Hx. pose proof (Hne x (or_intror Hx)). decompose_Forall_hyps. unfold V. vlook. done.
  - unfold V. data_same.
  - cbn. split_and!; [done|done|]. eexists. split; [unfold V; vlook; done|]. cbn. split_and!; [done|done|done| |kept V Hne].
    eexists. split; [unfold V; vlook; done|]. cbn. split_and!; [done|kept V Hne|kept V Hne].
  - cbn. solve_Permutation.
  - by exists s'.
Qed.

Lemma rotate_left_twice s c l a h m1 d hd m2 b hb rr hr :
  zip s c (Node l a h (Node (Node m1 d hd m2) b hb rr)) → ht rr < hd →
  ∃ s', rotate_left (place_of c) a b hr s = Ret tt s' ∧ tree_only s s' ∧
    zip s' c (Node (Node l a hd m1) d hr (Node m2 b hd rr)).
Proof.
  intros Hz Hlt. destruct (zp_repr _ _ _ Hz) as (Hat & Ha & va & Ea & _ & Hl & (Hr & Hb & vb & Eb & _ & Hrl & Hrr)).
  pose proof (ht_repr (vmas s) (vm_avl_left vb) (Node m1 d hd m2) Hrl s eq_refl) as Hht. cbn [ht] in Hht. destruct Hrl as (Hrl & Hd & vd & Ed & Hhd & Hm1 & Hm2).
  pose proof (zp_nodup _ _ _ Hz) as (_ & _ & Hn)%NoDup_app.
  destruct (λ Hp, apart _ [a; b; d] (flat l ++ flat m1 ++ flat m2 ++ flat rr) Hp Hn) as [Hks Hne]; [cbn; solve_Permutation|]. rewrite !NoDup_cons in Hks. assert (a ≠ b ∧ a ≠ d ∧ b ≠ d) as (? & ? & ?) by set_solver.
  unfold rotate_left, mbind, M_bind. rewrite (ld_vma_run _ _ _ Eb), Hht, (ht_repr _ _ _ Hrr s eq_refl), (proj2 (Z.leb_gt _ _) Hlt), Hrl, (ld_vma_run _ _ _ Ed).
  st_step. erewrite ld_vma_run by (rewrite ?vmas_upd; vlook; done || eassumption). do 6 st_step. name_map V.
  destruct (replace_sub s c _ V d (Node (Node l a hd m1) d hr (Node m2 b hd rr)) Hz) as (s' & E & Hz' & Ht).
  - intros x Hx. pose proof (Hne x (or_intror Hx)). decompose_Forall_hyps. unfold V. vlook. done.
  - unfold V. data_same.
  - cbn. split_and!; [done|done|]. eexists. split; [unfold V; vlook; done|]. cbn. split_and!; try done.
    all: eexists; split; [unfold V; vlook; done|]; cbn; split_and!; try done; kept V Hne.
  - cbn. solve_Permutation.
  - by exists s'.
Qed.

(** A node with a son that is too high becomes balanced, in the same order. *)
Lemma rotate_right_spec s c l a h r :
  zip s c (Node l a h r) → avl l → avl r → ht l = ht r + 2 →
  ∃ s' t', rotate_right (place_of c) a (match l with Leaf => 0 | Node _ b _ _ => b end) (ht l) s = Ret tt s' ∧ tree_only s s' ∧ zip s' c t' ∧
    avl t' ∧ flat t' = flat (Node l a h r) ∧ ht l ≤ ht t' ≤ ht l + 1.
Proof.
  intros Hz Hl Hr Hh. pose proof (ht_nonneg r Hr). destruct l as [|ll b hb lr]; [cbn in Hh; lia|]. destruct Hl as (Hll & Hlr & Hhb & Hbal). cbn [ht] in *.
  destruct (decide (ht lr ≤ ht ll)) as [Hle|Hgt].
  - destruct (rotate_right_once s c ll b hb lr a h r hb Hz Hle) as (s' & E & Ht & Hz'). eexists s', _. split_and!; [done..| |cbn; by rewrite <-!app_assoc|cbn; lia|cbn; lia].
    cbn. split_and!; try done; lia.
  - destruct lr as [|m1 d hd m2]; [cbn in *; pose proof (ht_nonneg ll Hll); lia|]. cbn [ht] in *.
    destruct (rotate_right_twice s c ll b hb m1 d hd m2 a h r hb Hz ltac:(lia)) as (s' & E & Ht & Hz'). destruct Hlr as (Hm1 & Hm2 & Hhd & Hb2).
    eexists s', _. split_and!; [done..| |cbn; repeat (rewrite <-!app_assoc; cbn); done|cbn; lia|cbn; lia]. cbn. split_and!; try done; lia.
Qed.

Lemma rotate_left_spec s c l a h r :
  zip s c (Node l a h r) → avl l → avl r → ht r = ht l + 2 →
  ∃ s' t', rotate_left (place_of c) a (match r with Leaf => 0 | Node _ b _ _ => b end) (ht r) s = Ret tt s' ∧ tree_only s s' ∧ zip s' c t' ∧
    avl t' ∧ flat t' = flat (Node l a h r) ∧ ht r ≤ ht t' ≤ ht r + 1.
Proof.
  intros Hz Hl Hr Hh. pose proof (ht_nonneg l Hl). destruct r as [|rl b hb rr]; [cbn in Hh; lia|]. destruct Hr as (Hrl & Hrr & Hhb & Hbal). cbn [ht] in *.
  destruct (decide (ht rl ≤ ht rr)) as [Hle|Hgt].
  - destruct (rotate_left_once s c l a h rl b hb rr hb Hz Hle) as (s' & E & Ht & Hz'). eexists s', _. split_and!; [done..| |cbn; by rewrite <-!app_assoc|cbn; lia|cbn; lia].
    cbn. split_and!; try done; lia.
  - destruct rl as [|m1 d hd m2]; [cbn in *; pose proof (ht_nonneg rr Hrr); lia|]. cbn [ht] in *.
    destruct (rotate_left_twice s c l a h m1 d hd m2 b hb rr hb Hz ltac:(lia)) as (s' & E & Ht & Hz'). destruct Hrl as (Hm1 & Hm2 & Hhd & Hb2).
    eexists s', _. split_and!; [done..| |cbn; repeat (rewrite <-!app_assoc; cbn); done|cbn; lia|cbn; lia]. cbn. split_and!; try done; lia.
Qed.

(** ** Lemmas: rebalancing *)

Lemma perm_nodup (l l' : list Z) : NoDup l → Permutation l' l → NoDup l'.
Proof. intros Hn Hp. by rewrite Hp. Qed.

Lemma zip_up s f c t : zip s (f :: c) t → zip s c (fill f t).
Proof.
  intros [Hr ((v & E & Hn0 & Hf) & Hp & Hc) Hn]. rewrite nodes_cons in Hn. split; [|done|].
  - rewrite Hp. destruct f as [a h r|l a h]; cbn in *; rewrite E in Hr; cbn in Hr; destruct Hf as [<- Hf]; split_and!; try done; by exists v.
  - apply (perm_nodup _ _ Hn). destruct f; cbn; solve_Permutation.
Qed.

Lemma zip_root s c t : zip s c t → zip s [] (plug c t).
Proof. revert t. induction c as [|f c IH]; intros t Hz; [done|]. by apply IH, zip_up. Qed.

Lemma zip_left s c l a h r : zip s c (Node l a h r) → zip s (FL a h r :: c) l.
Proof.
  intros [(Hp & Ha & v & E & Hh & Hl & Hr) Hc Hn]. split; [cbn; by rewrite E| |].
  - cbn. split_and!; try done. by exists v.
  - rewrite nodes_cons. apply (perm_nodup _ _ Hn). cbn. solve_Permutation.
Qed.

Lemma zip_right s c l a h r : zip s c (Node l a h r) → zip s (FR l a h :: c) r.
Proof.
  intros [(Hp & Ha & v & E & Hh & Hl & Hr) Hc Hn]. split; [cbn; by rewrite E| |].
  - cbn. split_and!; try done. by exists v.
  - rewrite nodes_cons. apply (perm_nodup _ _ Hn). cbn. solve_Permutation.
Qed.

Lemma fits_avl c : ∀ k t, fits c k → avl t → ht t = k → avl (plug c t).
Proof.
  induction c as [|f c IH]; intros k t Hf Ht Hk; [done|]. rewrite plug_cons. destruct f as [a h r|l a h]; destruct Hf as (Ho & Hh & Hb & Hf);
    apply (IH h); try done; cbn; subst k; split_and!; try done; lia.
Qed.

Lemma rd_place_run s c t : zip s c t → rd_place (place_of c) s = Ret (at_place s (place_of c)) s.
Proof.
  intros [_ Hc _]. destruct c as [|f c]; [done|]. destruct Hc as ((v & E & _) & _). destruct f; cbn in *; unfold mbind, M_bind; by rewrite (ld_vma_run _ _ _ E), E.
Qed.

Lemma zip_height s c l a h r v h' :
  zip s c (Node l a h r) → vmas s !! a = Some v →
  let s' := s <| vmas := <[a := v <| vm_avl_height := h' |>]> (vmas s) |> in zip s' c (Node l a h' r) ∧ tree_only s s'.
Proof.
  intros [(Hp & Ha & v' & E & Hh & Hl & Hr) Hc Hn] E' s'. assert (v' = v) as -> by congruence. pose proof Hn as (_ & Hd & Hn2)%NoDup_app.
  destruct (λ Hq, apart (Node l a h r) [a] (flat l ++ flat r) Hq Hn2) as [_ Hne]; [cbn; solve_Permutation|].
  assert (∀ b, b ∈ nodes c → vmas s' !! b = vmas s !! b) as Hc'. { intros b Hb. apply lookup_insert_ne. intros ->. apply (Hd b Hb). cbn. set_solver. }
  split; [split; [|by apply (creps_frame s)|done]|].
  - rewrite (at_place_frame s) by done. cbn. split_and!; [done|done|]. eexists. split; [apply lookup_insert_eq|]. cbn.
    split_and!; [done|eapply repr_frame; [|done]..]; intros b Hb; apply lookup_insert_ne;
      assert (Forall (λ k, k ≠ b) [a]) as Hf by (apply Hne; set_solver); by decompose_Forall_hyps.
  - split_and!; try done. by apply data_insert with v.
Qed.

(** Whatever changed in the subtree at a position, as long as its height did by at
    most one, the tree is balanced at the end. *)
Lemma avl_rebalance_spec c : ∀ s t k,
  zip s c t → avl t → fits c k → -1 ≤ ht t - k ≤ 1 →
  ∃ s' t', avl_rebalance (places c) s = Ret tt s' ∧ tree_only s s' ∧ zip s' [] t' ∧ avl t' ∧ flat t' = flat (plug c t).
Proof.
  induction c as [|f c IH]; intros s t k Hz Ht Hf Hk; [by exists s, t|]. apply zip_up in Hz. cbn [places avl_rebalance]. unfold mbind at 1, M_bind at 1.
  rewrite (rd_place_run _ _ _ Hz), plug_cons. assert (∃ l a h r, fill f t = Node l a h r ∧ avl l ∧ avl r ∧ fits c h ∧ -2 ≤ ht l - ht r ≤ 2 ∧
    (ht l = ht r + 2 → h - 1 ≤ ht l ≤ h) ∧ (ht r = ht l + 2 → h - 1 ≤ ht r ≤ h) ∧ -1 ≤ 1 + Z.max (ht l) (ht r) - h ≤ 1) as (l & a & h & r & Ef & Hl & Hr & Hfc & Hb & Hh1 & Hh2 & Hh3).
  { destruct f as [a h r|l a h]; destruct Hf as (Ho & Hh & Hb & Hf); cbn; eexists _, _, _, _; split_and!; try done; lia. }
  rewrite Ef in *. pose proof (repr_root _ _ _ (zp_repr _ _ _ Hz)) as Hroot. cbn in Hroot. rewrite Hroot.
  destruct (zp_repr _ _ _ Hz) as (_ & Ha & v & E & Hh & Hrl & Hrr). unfold mbind at 1, M_bind at 1. rewrite (ld_vma_run _ _ _ E).
  unfold mbind at 1, M_bind at 1. rewrite (ht_repr _ _ _ Hrl s eq_refl). unfold mbind at 1, M_bind at 1. rewrite (ht_repr _ _ _ Hrr s eq_refl).
  destruct (ht r + 1 <? ht l) eqn:E1; to_prop.
  - destruct (rotate_right_spec s c l a h r Hz Hl Hr ltac:(lia)) as (s1 & t1 & Er & Ht1 & Hz1 & Ha1 & Hf1 & Hht1). rewrite (repr_root _ _ _ Hrl). unfold mbind, M_bind. rewrite Er.
    destruct (IH s1 t1 h Hz1 Ha1 Hfc ltac:(lia)) as (s' & t' & Er' & Ht' & Hz' & Ha' & Hf'). exists s', t'. split_and!; try done; [by eapply tree_only_trans|].
    by rewrite Hf', !flat_plug, Hf1.
  - destruct (ht l + 1 <? ht r) eqn:E2; to_prop.
    + destruct (rotate_left_spec s c l a h r Hz Hl Hr ltac:(lia)) as (s1 & t1 & Er & Ht1 & Hz1 & Ha1 & Hf1 & Hht1). rewrite (repr_root _ _ _ Hrr). unfold mbind, M_bind. rewrite Er.
      destruct (IH s1 t1 h Hz1 Ha1 Hfc ltac:(lia)) as (s' & t' & Er' & Ht' & Hz' & Ha' & Hf'). exists s', t'. split_and!; try done; [by eapply tree_only_trans|].
      by rewrite Hf', !flat_plug, Hf1.
    + set (height := _ + 1). assert (height = 1 + Z.max (ht l) (ht r)) as Hheight by (unfold height; destruct (Z.ltb_spec (ht l) (ht r)); lia).
      destruct (height =? vm_avl_height v) eqn:E3; to_prop.
      * exists s, (plug c (Node l a h r)). split_and!; try done; [by apply zip_root|]. apply (fits_avl c h); [done| |done]. cbn. split_and!; try done; lia.
      * unfold mbind, M_bind. rewrite (st_vma_run _ _ _ _ E). destruct (zip_height s c l a h r v height Hz E) as [Hz1 Ht1].
        destruct (IH _ (Node l a height r) h Hz1) as (s' & t' & Er' & Ht' & Hz' & Ha' & Hf'); [cbn; split_and!; try done; lia|done|cbn; lia|].
        exists s', t'. split_and!; try done; [by eapply tree_only_trans|]. by rewrite Hf', !flat_plug.
Qed.
