(* ===== verification/AvlOps.v ===== *)
(** * AvlOps: the operations of the tree of memory areas

    Insertion, removal and lookup act as on the list of the areas, sorted by their
    ends, and never leave the stack of places. *)

From stdpp Require Import gmap sorting.
From S2P Require Import Prelude Avl AvlFacts.

(** ** Specification *)

(** The end of an area, the key of the tree. *)
Definition endof (V : gmap Z vma) (a : Z) : Z := default 0 (vm_end <$> V !! a).

Definition last0 (l : list Z) : Z := default 0 (last l).
Definition head0 (l : list Z) : Z := default 0 (head l).

Definition by_end (V : gmap Z vma) (a b : Z) : Prop := endof V a < endof V b.

(** ** Lemmas: positions *)

Lemma zip_down s d : ∀ c t, zip s c (plug d t) → zip s (d ++ c) t.
Proof.
  induction d as [|f d IH]; intros c t Hz; [done|]. cbn [app]. specialize (IH c (fill f t) Hz). destruct f; [by apply zip_left|by apply zip_right].
Qed.

Lemma fits_height c : ∀ t, avl (plug c t) → avl t ∧ fits c (ht t) ∧ Z.of_nat (length c) + ht t ≤ ht (plug c t).
Proof.
  induction c as [|f c IH]; intros t Ha; [cbn in *; split_and!; [done..|lia]|]. rewrite plug_cons in *. apply IH in Ha as (Ha & Hf & Hh).
  destruct f; cbn in *; destruct Ha as (H1 & H2 & -> & H3); split_and!; try done; lia.
Qed.

(** All nodes are areas. *)
Lemma flat_bound s c t : zip s c t → (length (flat t) ≤ length (map_to_list (vmas s)))%nat.
Proof.
  intros [Hr _ Hn]. apply NoDup_app in Hn as (_ & _ & Hn). rewrite <-(length_fmap fst). apply submseteq_length, NoDup_submseteq; [done|].
  intros a Ha. destruct (repr_nodes _ _ _ _ Hr Ha) as (v & E & _). apply list_elem_of_fmap. exists (a, v). split; [done|]. by apply elem_of_map_to_list.
Qed.

Lemma push_run stack p s : (length stack < avl_maxheight)%nat → push stack p s = Ret (stack ++ [p]) s.
Proof. intros H. unfold push. by rewrite (proj2 (Nat.ltb_lt _ _) H). Qed.

Lemma length_places c : length (places c) = length c.
Proof. induction c; cbn; auto. Qed.

Lemma endof_run V a v : V !! a = Some v → endof V a = vm_end v.
Proof. intros E. unfold endof. by rewrite E. Qed.

Lemma last0_snoc l a : last0 (l ++ [a]) = a.
Proof. unfold last0. by rewrite last_snoc. Qed.

(** ** Lemmas: insertion *)

Lemma avl_descend_spec s key T : avl T → ht T ≤ Z.of_nat avl_maxheight → ∀ t fuel c,
  zip s c t → plug c t = T → (length (flat t) < fuel)%nat →
  Forall (λ a, endof (vmas s) a ≤ key) (before c) → Forall (λ a, key < endof (vmas s) a) (after c) →
  StronglySorted (by_end (vmas s)) (flat t) →
  ∃ c', avl_descend fuel key (place_of c) (reverse (places c)) (last0 (before c)) (head0 (after c)) s =
      Ret (place_of c', reverse (places c'), last0 (before c'), head0 (after c')) s ∧
    zip s c' Leaf ∧ plug c' Leaf = T ∧
    Forall (λ a, endof (vmas s) a ≤ key) (before c') ∧ Forall (λ a, key < endof (vmas s) a) (after c').
Proof.
  intros HT Hmax. induction t as [|l IHl a h r IHr]; intros fuel c Hz Hp Hfuel Hb Ha Hs.
  - exists c. split; [|done]. destruct fuel as [|fuel]; [lia|]. cbn [avl_descend]. unfold mbind, M_bind. rewrite (rd_place_run _ _ _ Hz).
    by rewrite (repr_root _ _ _ (zp_repr _ _ _ Hz)).
  - destruct fuel as [|fuel]; [lia|]. cbn [avl_descend]. unfold mbind, M_bind. rewrite (rd_place_run _ _ _ Hz).
    destruct (zp_repr _ _ _ Hz) as (Hat & Ha0 & v & E & _). rewrite Hat, (proj2 (Z.eqb_neq _ _) Ha0).
    rewrite <-Hp in HT, Hmax. destruct (fits_height c _ HT) as (Ht & _ & Hh). cbn [avl ht] in Ht, Hh. destruct Ht as (Hl & Hr & -> & _).
    pose proof (ht_nonneg l Hl). rewrite push_run by (rewrite length_reverse, length_places; lia). rewrite (ld_vma_run _ _ _ E), <-(endof_run _ _ _ E).
    cbn in Hfuel, Hs. rewrite length_app in Hfuel. cbn in Hfuel. apply StronglySorted_app in Hs as (Hx & Hsl & [Hy Hsr]%StronglySorted_cons).
    destruct (Z.ltb_spec key (endof (vmas s) a)) as [Hk|Hk].
    + destruct (IHl fuel (FL a (1 + Z.max (ht l) (ht r)) r :: c)) as (c' & Er & Hrest); [by apply zip_left|done|lia|done| |done|].
      { cbn. apply Forall_cons. split; [done|]. apply Forall_app. split; [|done]. eapply Forall_impl; [exact Hy|]. unfold by_end. intros; cbn in *; lia. }
      exists c'. split; [|done]. rewrite <-Er. by rewrite <-reverse_cons.
    + destruct (IHr fuel (FR l a (1 + Z.max (ht l) (ht r)) :: c)) as (c' & Er & Hrest); [by apply zip_right|done|lia| |done|done|].
      { cbn. rewrite !Forall_app, Forall_singleton. split_and!; [done| |lia]. apply Forall_forall. intros b Hin. specialize (Hx b a Hin ltac:(apply list_elem_of_here)). unfold by_end in Hx. lia. }
      exists c'. split; [|done]. rewrite <-Er. rewrite <-reverse_cons. cbn [before places place_of fr_place]. by rewrite app_assoc, last0_snoc.
Qed.

(** What the tree of a process is: balanced, sorted, and low enough for the stack. *)
Record avl_tree (s : vms) (T : tree) : Prop := {
  at_zip : zip s [] T;
  at_avl : avl T;
  at_sorted : StronglySorted (by_end (vmas s)) (flat T);
  at_height : ht T ≤ Z.of_nat avl_maxheight;
}.

Lemma tree_only_data s s' a v : tree_only s s' → vmas s !! a = Some v → ∃ v', vmas s' !! a = Some v' ∧ data v' = data v.
Proof.
  intros (Hd & _) E. apply (f_equal (lookup a)) in Hd. rewrite !lookup_fmap, E in Hd. destruct (vmas s' !! a) as [v'|]; [|done].
  exists v'. split; [done|]. by apply (inj Some) in Hd.
Qed.

Lemma tree_only_end s s' a : tree_only s s' → endof (vmas s') a = endof (vmas s) a.
Proof.
  intros (Hd & _). apply (f_equal (lookup a)) in Hd. rewrite !lookup_fmap in Hd. unfold endof. destruct (vmas s' !! a), (vmas s !! a); try done.
  apply (inj Some), (f_equal vm_end) in Hd. exact Hd.
Qed.

Lemma avl_insert_spec s T n v :
  avl_tree s T → vmas s !! n = Some v → n ≠ 0 → n ∉ flat T →
  ∃ s' T' l1 l2, avl_insert_neighbours n s = Ret (last0 l1, head0 l2) s' ∧ tree_only s s' ∧ zip s' [] T' ∧ avl T' ∧
    flat T = l1 ++ l2 ∧ flat T' = l1 ++ n :: l2 ∧
    Forall (λ a, endof (vmas s) a ≤ vm_end v) l1 ∧ Forall (λ a, vm_end v < endof (vmas s) a) l2.
Proof.
  intros [Hz Ha Hs Hh] E Hn0 Hn. unfold avl_insert_neighbours, mbind, M_bind, all_vmas, gets. rewrite (ld_vma_run _ _ _ E).
  destruct (avl_descend_spec s (vm_end v) T Ha Hh T (S (length (map_to_list (vmas s)))) [] Hz eq_refl) as (c & Er & Hzc & Hp & Hb & Hf); [|done..|].
  { pose proof (flat_bound _ _ _ Hz). lia. }
  change (last0 (before [])) with 0 in Er. change (head0 (after [])) with 0 in Er. cbn [place_of places] in Er. change (reverse []) with (@nil place) in Er. rewrite Er.
  rewrite (st_vma_run _ _ _ _ E). pose proof (flat_plug c Leaf) as HT. rewrite Hp in HT. cbn in HT.
  assert (n ∉ nodes c) as Hnc by (by rewrite nodes_perm, <-HT). pose proof (zp_nodup _ _ _ Hzc) as Hnd. cbn in Hnd. rewrite app_nil_r in Hnd.
  destruct (replace_tree s c Leaf (<[n := v <| vm_avl_left := 0 |> <| vm_avl_right := 0 |> <| vm_avl_height := 1 |>]> (vmas s)) n (Node Leaf n 1 Leaf) Hzc) as (s1 & Ew & Hz1 & Ht1 & _).
  { intros b Hbn. apply lookup_insert_ne. by intros ->. }
  { by apply data_insert with v. }
  { cbn. split_and!; [done|done|]. eexists. by rewrite lookup_insert_eq. }
  { apply NoDup_app. split_and!; [done| |apply NoDup_singleton]. cbn. set_solver. }
  rewrite Ew. rewrite reverse_involutive. rewrite <-Hp in Ha. destruct (fits_height c _ Ha) as (_ & Hfit & _).
  destruct (avl_rebalance_spec c s1 (Node Leaf n 1 Leaf) 0 Hz1) as (s' & T' & Eb & Ht' & Hz' & Ha' & Hf'); [cbn; lia|done|cbn; lia|]. rewrite Eb.
  exists s', T', (before c), (after c). split_and!; try done; [by eapply tree_only_trans|]. by rewrite Hf', flat_plug.
Qed.

(** ** Lemmas: removal *)

Lemma sorted_keys V l1 n l2 : StronglySorted (by_end V) (l1 ++ n :: l2) → Forall (λ a, endof V a < endof V n) l1 ∧ Forall (λ a, endof V n < endof V a) l2.
Proof.
  intros (Hx & _ & [Hy _]%StronglySorted_cons)%StronglySorted_app. split; [|done]. apply Forall_forall. intros b Hb. apply (Hx b n Hb), list_elem_of_here.
Qed.

(** Where a node is in a tree by its key. *)
Lemma sorted_side V l a h r n :
  StronglySorted (by_end V) (flat (Node l a h r)) → n ∈ flat (Node l a h r) →
  (n = a ∧ endof V n = endof V a) ∨ (n ∈ flat l ∧ endof V n < endof V a) ∨ (n ∈ flat r ∧ endof V a < endof V n).
Proof.
  cbn. intros Hs Hin. apply sorted_keys in Hs as [H1 H2]. rewrite Forall_forall in H1, H2. apply elem_of_app in Hin as [?|[->|?]%elem_of_cons]; eauto.
Qed.

Lemma sorted_sons V l a h r : StronglySorted (by_end V) (flat (Node l a h r)) → StronglySorted (by_end V) (flat l) ∧ StronglySorted (by_end V) (flat r).
Proof. cbn. by intros (_ & ? & [_ ?]%StronglySorted_cons)%StronglySorted_app. Qed.

Lemma avl_find_key_spec s n T : avl T → ht T ≤ Z.of_nat avl_maxheight → ∀ t fuel c,
  zip s c t → plug c t = T → (length (flat t) < fuel)%nat → StronglySorted (by_end (vmas s)) (flat t) → n ∈ flat t →
  ∃ c' l h r, avl_find_key fuel (endof (vmas s) n) (place_of c) (reverse (places c)) s = Ret (Some (place_of c', reverse (place_of c' :: places c'))) s ∧
    zip s c' (Node l n h r) ∧ plug c' (Node l n h r) = T.
Proof.
  intros HT Hmax. induction t as [|l IHl a h r IHr]; intros fuel c Hz Hp Hfuel Hs Hin; [set_solver|].
  destruct fuel as [|fuel]; [lia|]. cbn [avl_find_key]. unfold mbind, M_bind. rewrite (rd_place_run _ _ _ Hz).
  destruct (zp_repr _ _ _ Hz) as (Hat & Ha0 & v & E & _). rewrite Hat, (proj2 (Z.eqb_neq _ _) Ha0).
  rewrite <-Hp in HT, Hmax. destruct (fits_height c _ HT) as (Ht & _ & Hh). cbn [avl ht] in Ht, Hh. destruct Ht as (Hl & Hr & -> & _).
  pose proof (ht_nonneg l Hl). rewrite push_run by (rewrite length_reverse, length_places; lia). rewrite (ld_vma_run _ _ _ E), <-(endof_run _ _ _ E), <-reverse_cons.
  destruct (sorted_sons _ _ _ _ _ Hs) as [Hsl Hsr]. cbn in Hfuel. rewrite length_app in Hfuel. cbn in Hfuel.
  destruct (sorted_side _ _ _ _ _ _ Hs Hin) as [[-> _]|[[Hin' Hk]|[Hin' Hk]]].
  - rewrite Z.eqb_refl. by exists c, l, (1 + Z.max (ht l) (ht r)), r.
  - rewrite (proj2 (Z.eqb_neq _ _)), (proj2 (Z.ltb_lt _ _)) by lia. destruct (IHl fuel (FL a (1 + Z.max (ht l) (ht r)) r :: c)) as (c' & l' & h' & r' & Er & Hrest); [by apply zip_left|done|lia|done|done|].
    exists c', l', h', r'. split; [exact Er|done].
  - rewrite (proj2 (Z.eqb_neq _ _)), (proj2 (Z.ltb_ge _ _)) by lia. destruct (IHr fuel (FR l a (1 + Z.max (ht l) (ht r)) :: c)) as (c' & l' & h' & r' & Er & Hrest); [by apply zip_right|done|lia|done|done|].
    exists c', l', h', r'. split; [exact Er|done].
Qed.

(** Positions reached to the right only. *)
Definition rights (d : list frame) : Prop := Forall (λ f, match f with FR _ _ _ => True | _ => False end) d.

Lemma avl_last_spec s T : avl T → ht T ≤ Z.of_nat avl_maxheight → ∀ t fuel c,
  zip s c t → plug c t = T → (length (flat t) < fuel)%nat → t ≠ Leaf →
  ∃ d l m h, avl_last fuel (place_of c) (reverse (places c)) s = Ret (place_of (d ++ c), reverse (places (d ++ c)), m) s ∧
    rights d ∧ t = plug d (Node l m h Leaf).
Proof.
  intros HT Hmax. induction t as [|l IHl a h r IHr]; intros fuel c Hz Hp Hfuel Hne; [done|].
  destruct fuel as [|fuel]; [lia|]. cbn [avl_last]. unfold mbind, M_bind. rewrite (rd_place_run _ _ _ Hz).
  destruct (zp_repr _ _ _ Hz) as (Hat & Ha0 & v & E & _ & _ & Hrep). rewrite Hat, (ld_vma_run _ _ _ E).
  rewrite <-Hp in HT, Hmax. destruct (fits_height c _ HT) as (Ht & _ & Hh). cbn [avl ht] in Ht, Hh. destruct Ht as (Hl & Hr & -> & _).
  pose proof (ht_nonneg l Hl). assert (r = Leaf ∨ r ≠ Leaf) as [->|Hr0] by (destruct r; auto).
  { cbn in Hrep. rewrite Hrep. exists [], l, a, (1 + Z.max (ht l) (ht Leaf)). split_and!; [done|constructor|done]. }
  assert (vm_avl_right v ≠ 0) as Hnz. { destruct r; [done|]. destruct Hrep as (-> & ? & _). done. }
  rewrite (proj2 (Z.eqb_neq _ _) Hnz), push_run, <-reverse_cons by (rewrite length_reverse, length_places; lia). cbn in Hfuel. rewrite length_app in Hfuel. cbn in Hfuel.
  destruct (IHr fuel (FR l a (1 + Z.max (ht l) (ht r)) :: c)) as (d & l' & m & h' & Er & Hd & ->); [by apply zip_right|done|lia|done|].
  exists (d ++ [FR l a (1 + Z.max (ht l) (ht (plug d (Node l' m h' Leaf))))]), l', m, h'. rewrite <-app_assoc. split_and!; [exact Er| |by rewrite plug_app].
  apply Forall_app. split; [done|]. by apply Forall_singleton.
Qed.

Lemma fits_rename d c n m h r k : fits (d ++ FL n h r :: c) k → fits (d ++ FL m h r :: c) k.
Proof. revert k. induction d as [|[a ha ra|la a ha] d IH]; intros k; cbn; [done|naive_solver..]. Qed.

Lemma rights_after d : rights d → after d = [].
Proof. intros Hd. induction Hd as [|[] d Hf _ IH]; [done|done|exact IH]. Qed.

Lemma rights_flat d t : rights d → flat (plug d t) = before d ++ flat t.
Proof. intros Hd. by rewrite flat_plug, rights_after, app_nil_r. Qed.

(** The entry of the stack for the node that is replaced. *)
Lemma places_rename d c n m h r :
  <[S (length c) := LeftOf m]> (reverse (places (d ++ FL n h r :: c))) = reverse (places (d ++ FL m h r :: c)).
Proof.
  induction d as [|g d IH].
  - cbn [app places]. apply list_insert_ge. rewrite length_reverse. cbn [length]. rewrite length_places. lia.
  - cbn [app places]. rewrite !reverse_cons. destruct d as [|g' d].
    + cbn [app places place_of fr_place]. rewrite (insert_app_r_alt _ _ (S (length c))); rewrite length_reverse; cbn [length]; rewrite length_places; [|lia]. by rewrite Nat.sub_diag.
    + rewrite insert_app_l, IH; [done|]. rewrite length_reverse, length_places, length_app. cbn [length]. lia.
Qed.

Lemma poke_run stack i p s : (i < avl_maxheight)%nat → poke stack i p s = Ret (<[i := p]> stack) s.
Proof. intros H. unfold poke. by rewrite (proj2 (Nat.ltb_lt _ _) H). Qed.

(** The node has no left son: its right son takes its place. *)
Lemma avl_remove_leaf s c n h r v T :
  zip s c (Node Leaf n h r) → plug c (Node Leaf n h r) = T → avl T → vmas s !! n = Some v →
  ∃ s' T', (wr_place (place_of c) (vm_avl_right v) ;; avl_rebalance (places c)) s = Ret tt s' ∧
    tree_only s s' ∧ zip s' [] T' ∧ avl T' ∧ flat T' = before c ++ flat r ++ after c.
Proof.
  intros Hz <- HT E. destruct (zp_repr _ _ _ Hz) as (_ & Hn0 & v' & E' & _ & _ & Hr). assert (v' = v) as -> by congruence.
  destruct (replace_tree s c _ (vmas s) (vm_avl_right v) r Hz) as (s1 & Ew & Hz1 & Ht1 & _); [done|done|done| |].
  { pose proof (zp_nodup _ _ _ Hz) as Hn. cbn in Hn. rewrite <-Permutation_middle in Hn. by apply NoDup_cons in Hn as [_ ?]. }
  destruct (fits_height c _ HT) as ((_ & Hr' & Hh & Hb) & Hfit & _). cbn [ht] in *.
  destruct (avl_rebalance_spec c s1 r h Hz1 Hr' Hfit) as (s' & T' & Eb & Ht' & Hz' & Ha' & Hf'); [pose proof (ht_nonneg r Hr'); lia|].
  exists s', T'. split_and!; try done; [|by eapply tree_only_trans|by rewrite Hf', flat_plug].
  unfold mbind, M_bind. replace s with (s <| vmas := vmas s |>) by (by destruct s). by rewrite Ew.
Qed.

Lemma zip_up_app s d : ∀ c t, zip s (d ++ c) t → zip s c (plug d t).
Proof. induction d as [|f d IH]; intros c t Hz; [done|]. rewrite plug_cons. by apply IH, zip_up. Qed.

(** The last node [m] on its left takes its place. *)
Lemma avl_remove_node s c n h d ll m hm r v w T :
  zip s c (Node (plug d (Node ll m hm Leaf)) n h r) → plug c (Node (plug d (Node ll m hm Leaf)) n h r) = T → avl T →
  rights d → vmas s !! n = Some v → vmas s !! m = Some w →
  ∃ s' T', (wr_place (place_of (d ++ FL n h r :: c)) (vm_avl_left w) ;;
     v ← ld_vma n;
     st_vma m (λ w, w <| vm_avl_left := vm_avl_left v |> <| vm_avl_right := vm_avl_right v |> <| vm_avl_height := vm_avl_height v |>) ;;
     wr_place (place_of c) m ;; avl_rebalance (places (d ++ FL m h r :: c))) s = Ret tt s' ∧
    tree_only s s' ∧ zip s' [] T' ∧ avl T' ∧ flat T' = before c ++ flat (plug d (Node ll m hm Leaf)) ++ flat r ++ after c.
Proof.
  intros Hz <- HT Hd Ev Ew. set (c1 := d ++ FL n h r :: c). assert (zip s c1 (Node ll m hm Leaf)) as Hz1 by (by apply zip_down, zip_left).
  pose proof (zp_repr _ _ _ Hz1) as (_ & Hm0 & w' & Ew' & Hhm & Hll & _). assert (w' = w) as -> by congruence.
  pose proof (zp_nodup _ _ _ Hz1) as Hnd1. cbn [flat] in Hnd1.
  assert (NoDup (m :: nodes c1 ++ flat ll)) as [Hm Hnd2]%NoDup_cons by (apply (perm_nodup _ _ Hnd1); solve_Permutation).
  destruct (replace_tree s c1 _ (vmas s) (vm_avl_left w) ll Hz1) as (s1 & E1 & Hz1' & Ht1 & Hk1); [done..|].
  assert (vmas s1 !! m = Some w) as Ew1 by (rewrite Hk1; [done|]; intros ?; apply Hm, elem_of_app; by left).
  apply (zip_up_app s1 d (FL n h r :: c)), zip_up in Hz1'. cbn [fill] in Hz1'. pose proof (zp_repr _ _ _ Hz1') as (_ & _ & v1 & Ev1 & Hh1 & Hl1 & Hr1).
  assert (Permutation (nodes c1 ++ flat ll) (n :: nodes c ++ flat (plug d ll) ++ flat r)) as Hperm.
  { rewrite rights_flat by done. unfold c1, nodes. rewrite bind_app. cbn. change (d ≫= fr_nodes) with (nodes d). rewrite nodes_perm, (rights_after d) by done. solve_Permutation. }
  rewrite Hperm in Hm, Hnd2. apply NoDup_cons in Hnd2 as [Hn Hnd2]. apply not_elem_of_cons in Hm as [Hmn Hm].
  set (w1 := w <| vm_avl_left := vm_avl_left v1 |> <| vm_avl_right := vm_avl_right v1 |> <| vm_avl_height := vm_avl_height v1 |>).
  destruct (replace_tree s1 c _ (<[m := w1]> (vmas s1)) m (Node (plug d ll) m h r) Hz1') as (s2 & E2 & Hz2 & Ht2 & _).
  { intros b Hb. apply lookup_insert_ne. intros ->. set_solver. }
  { by apply data_insert with w. }
  { cbn. split_and!; [done|done|]. exists w1. rewrite lookup_insert_eq. split_and!; [done|done| |]; (eapply repr_frame; [|eassumption]); intros b Hb; apply lookup_insert_ne; intros ->; set_solver. }
  { apply (perm_nodup (m :: nodes c ++ flat (plug d ll) ++ flat r)); [by constructor|]. cbn. solve_Permutation. }
  apply zip_left, (zip_down s2 d) in Hz2. destruct (fits_height c1 (Node ll m hm Leaf)) as ((Hll' & _ & Hhm' & _) & Hfit & _); [by unfold c1; rewrite plug_app|].
  cbn [ht] in *. pose proof (ht_nonneg ll Hll'). apply (fits_rename d c n m) in Hfit.
  destruct (avl_rebalance_spec _ s2 ll hm Hz2 Hll' Hfit) as (s' & T' & Eb & Ht' & Hz' & Ha' & Hf'); [lia|].
  exists s', T'. split_and!; try done.
  - unfold mbind, M_bind. replace s with (s <| vmas := vmas s |>) by (by destruct s). rewrite E1, (ld_vma_run _ _ _ Ev1), (st_vma_run _ _ _ _ Ew1). fold w1. by rewrite E2.
  - eapply tree_only_trans; [done|]. by eapply tree_only_trans.
  - rewrite Hf', plug_app, plug_cons, flat_plug, rights_flat by done. cbn [fill flat]. rewrite !rights_flat by done. cbn [flat]. by repeat (rewrite <-!app_assoc; cbn [app]).
Qed.

Lemma split_unique (n : Z) l1 l2 k1 k2 : NoDup (l1 ++ n :: l2) → l1 ++ n :: l2 = k1 ++ n :: k2 → l1 = k1 ∧ l2 = k2.
Proof.
  revert k1. induction l1 as [|x l1 IH]; intros [|y k1]; cbn; intros Hn Hk; simplify_eq; try done.
  - apply NoDup_cons in Hn as [Hn _]. set_solver.
  - apply NoDup_cons in Hn as [Hn _]. set_solver.
  - apply NoDup_cons in Hn as [_ Hn]. destruct (IH k1 Hn) as [-> ->]; done.
Qed.

Lemma avl_remove_spec s T n l1 l2 :
  avl_tree s T → flat T = l1 ++ n :: l2 →
  ∃ s' T', avl_remove n s = Ret tt s' ∧ tree_only s s' ∧ zip s' [] T' ∧ avl T' ∧ flat T' = l1 ++ l2.
Proof.
  intros [Hz Ha Hs Hh] HT. assert (n ∈ flat T) as Hin by (rewrite HT; set_solver). pose proof (flat_bound _ _ _ Hz) as Hb.
  destruct (avl_find_key_spec s n T Ha Hh T (S (length (map_to_list (vmas s)))) [] Hz eq_refl ltac:(lia) Hs Hin) as (c & l & h & r & Er & Hzc & Hp).
  destruct (zp_repr _ _ _ Hzc) as (_ & Hn0 & v & E & _ & Hl & _). rewrite (endof_run _ _ _ E) in Er. cbn [place_of places] in Er. change (reverse []) with (@nil place) in Er.
  assert (l1 = before c ++ flat l ∧ l2 = flat r ++ after c) as [-> ->].
  { apply (split_unique n); rewrite <-HT; [by apply (zp_nodup _ _ _ Hz)|]. rewrite <-Hp, flat_plug. cbn. by rewrite <-!app_assoc. }
  unfold avl_remove, mbind, M_bind, all_vmas, gets. rewrite (ld_vma_run _ _ _ E), Er, (ld_vma_run _ _ _ E).
  rewrite <-Hp in Ha, Hh. destruct (fits_height c _ Ha) as ((Hal & Har & Hh0 & _) & _ & Hlen). cbn [ht] in Hlen.
  assert (l = Leaf ∨ l ≠ Leaf) as [->|Hl0] by (destruct l; auto).
  - cbn in Hl. rewrite Hl, reverse_involutive. cbn [tail]. rewrite Hp in Ha. destruct (avl_remove_leaf s c n h r v T Hzc Hp Ha E) as (s' & T' & ? & ? & ? & ? & ?).
    exists s', T'. split_and!; try done. cbn. by rewrite app_nil_r.
  - assert (vm_avl_left v ≠ 0) as Hnz. { destruct l; [done|]. destruct Hl as (-> & ? & _). done. }
    rewrite (proj2 (Z.eqb_neq _ _) Hnz). assert (0 < ht l) as Hpos. { destruct l as [|ll ? ? lr]; [done|]. destruct Hal as (Hll & _ & -> & _). pose proof (ht_nonneg _ Hll). cbn. lia. }
    assert (length (flat l) < S (length (map_to_list (vmas s))))%nat as Hfuel. { pose proof (flat_bound _ _ _ (zip_left _ _ _ _ _ _ Hzc)). lia. }
    destruct (avl_last_spec s _ Ha Hh l _ (FL n h r :: c) (zip_left _ _ _ _ _ _ Hzc) eq_refl Hfuel Hl0) as (d & ll & m & hm & El & Hd & ->). cbn [place_of fr_place places] in El. rewrite El.
    assert (m ∈ flat (plug d (Node ll m hm Leaf))) as Hm by (rewrite rights_flat by done; cbn; set_solver). destruct (repr_nodes _ _ _ _ Hl Hm) as (w & Ew & _).
    rewrite (ld_vma_run _ _ _ Ew). rewrite Hp in Ha. destruct (avl_remove_node s c n h d ll m hm r v w T Hzc Hp Ha Hd E Ew) as (s' & T' & Erun & Ht & Hz' & Ha' & Hf).
    exists s', T'. split_and!; try done; [|by rewrite Hf, <-!app_assoc]. unfold mbind, M_bind in Erun.
    rewrite length_reverse. cbn [length]. rewrite length_places. do 4 (match type of Erun with match ?e with _ => _ end = _ => destruct e; [|done] end).
    rewrite poke_run, places_rename, reverse_involutive; [done|]. lia.
Qed.

(** ** Lemmas: lookup *)

Lemma rightmost_spec s t : ∀ fuel p, repr (vmas s) p t → (length (flat t) < fuel)%nat → t ≠ Leaf → rightmost fuel p s = Ret (last0 (flat t)) s.
Proof.
  induction t as [|l _ a h r IHr]; intros fuel p Hr Hfuel Hne; [done|]. destruct Hr as (-> & Ha & v & E & _ & _ & Hr). destruct fuel as [|fuel]; [lia|].
  cbn [rightmost flat] in *. rewrite length_app in Hfuel. cbn in Hfuel. unfold mbind, M_bind. rewrite (ld_vma_run _ _ _ E). destruct r as [|rl b hb rr].
  - cbn in Hr. rewrite Hr. cbn. by rewrite last0_snoc.
  - assert (vm_avl_right v ≠ 0) as Hnz by (destruct Hr as (-> & ? & _); done). rewrite (proj2 (Z.eqb_neq _ _) Hnz), (IHr fuel) by (done || lia).
    f_equal. unfold last0. rewrite last_app_cons. cbn [flat]. rewrite last_cons, last_app. by rewrite last_cons; destruct (last (flat rr)).
Qed.

Lemma leftmost_spec s t : ∀ fuel p, repr (vmas s) p t → (length (flat t) < fuel)%nat → t ≠ Leaf → leftmost fuel p s = Ret (head0 (flat t)) s.
Proof.
  induction t as [|l IHl a h r _]; intros fuel p Hr Hfuel Hne; [done|]. destruct Hr as (-> & Ha & v & E & _ & Hl & _). destruct fuel as [|fuel]; [lia|].
  cbn [leftmost flat] in *. rewrite length_app in Hfuel. cbn in Hfuel. unfold mbind, M_bind. rewrite (ld_vma_run _ _ _ E). destruct l as [|ll b hb lr].
  - cbn in Hl. by rewrite Hl.
  - assert (vm_avl_left v ≠ 0) as Hnz by (destruct Hl as (-> & ? & _); done). rewrite (proj2 (Z.eqb_neq _ _) Hnz), (IHl fuel) by (done || lia).
    f_equal. unfold head0. cbn [flat]. by destruct (flat ll).
Qed.

Lemma neighbours_find_spec s n : ∀ t fuel c,
  zip s c t → (length (flat t) < fuel)%nat → StronglySorted (by_end (vmas s)) (flat t) → n ∈ flat t →
  ∃ c' l h r, neighbours_find fuel (endof (vmas s) n) (at_place s (place_of c)) (last0 (before c)) (head0 (after c)) s = Ret (n, last0 (before c'), head0 (after c')) s ∧
    zip s c' (Node l n h r) ∧ plug c' (Node l n h r) = plug c t.
Proof.
  induction t as [|l IHl a h r IHr]; intros fuel c Hz Hfuel Hs Hin; [set_solver|].
  destruct fuel as [|fuel]; [lia|]. cbn [neighbours_find]. destruct (zp_repr _ _ _ Hz) as (Hat & Ha0 & v & E & _). rewrite Hat, (proj2 (Z.eqb_neq _ _) Ha0).
  unfold mbind, M_bind. rewrite (ld_vma_run _ _ _ E), <-(endof_run _ _ _ E). destruct (sorted_sons _ _ _ _ _ Hs) as [Hsl Hsr].
  cbn in Hfuel. rewrite length_app in Hfuel. cbn in Hfuel. destruct (sorted_side _ _ _ _ _ _ Hs Hin) as [[-> _]|[[Hin' Hk]|[Hin' Hk]]].
  - rewrite Z.eqb_refl. by exists c, l, h, r.
  - rewrite (proj2 (Z.eqb_neq _ _)), (proj2 (Z.ltb_lt _ _)) by lia. destruct (IHl fuel (FL a h r :: c)) as (c' & l' & h' & r' & Er & Hrest); [by apply zip_left|lia|done|done|].
    exists c', l', h', r'. split; [|done]. rewrite <-Er. cbn [place_of fr_place at_place]. by rewrite E.
  - rewrite (proj2 (Z.eqb_neq _ _)), (proj2 (Z.ltb_ge _ _)) by lia. destruct (IHr fuel (FR l a h :: c)) as (c' & l' & h' & r' & Er & Hrest); [by apply zip_right|lia|done|done|].
    exists c', l', h', r'. split; [|done]. rewrite <-Er. cbn [place_of fr_place at_place before after]. by rewrite E, app_assoc, last0_snoc.
Qed.

Lemma last0_app l k : last0 (l ++ k) = if decide (k = []) then last0 l else last0 k.
Proof. unfold last0. rewrite last_app. destruct k as [|x k]; [done|]. rewrite last_cons. case_decide; [done|]. by destruct (last k). Qed.

Lemma head0_app l k : head0 (l ++ k) = if decide (l = []) then head0 k else head0 l.
Proof. by destruct l. Qed.

Lemma avl_neighbours_spec s T n l1 l2 : avl_tree s T → flat T = l1 ++ n :: l2 → avl_neighbours n s = Ret (last0 l1, head0 l2) s.
Proof.
  intros [Hz Ha Hs Hh] HT. assert (n ∈ flat T) as Hin by (rewrite HT; set_solver). pose proof (flat_bound _ _ _ Hz) as Hb.
  destruct (neighbours_find_spec s n T (S (length (map_to_list (vmas s)))) [] Hz ltac:(lia) Hs Hin) as (c & l & h & r & Er & Hzc & Hp).
  destruct (zp_repr _ _ _ Hzc) as (_ & Hn0 & v & E & _ & Hl & Hr). rewrite (endof_run _ _ _ E) in Er. cbn [place_of before after] in Er. change (last0 []) with 0 in Er. change (head0 []) with 0 in Er.
  assert (l1 = before c ++ flat l ∧ l2 = flat r ++ after c) as [-> ->].
  { apply (split_unique n); rewrite <-HT; [by apply (zp_nodup _ _ _ Hz)|]. cbn [plug foldl] in Hp. rewrite <-Hp, flat_plug. cbn. by rewrite <-!app_assoc. }
  unfold avl_neighbours, mbind, M_bind, all_vmas, gets. rewrite (ld_vma_run _ _ _ E). cbn [rd_place]. unfold gets. cbn [at_place] in Er. rewrite Er, (proj2 (Z.eqb_neq _ _) Hn0), Z.eqb_refl. cbn [negb].
  rewrite (ld_vma_run _ _ _ E), last0_app, head0_app. pose proof (flat_bound _ _ _ (zip_left _ _ _ _ _ _ Hzc)). pose proof (flat_bound _ _ _ (zip_right _ _ _ _ _ _ Hzc)).
  assert (∀ t p, repr (vmas s) p t → if decide (flat t = []) then p = 0 else p ≠ 0 ∧ t ≠ Leaf) as Hemp.
  { intros [|tl x hx tr] p; cbn; [done|]. intros (-> & ? & _). case_decide as Hd; [by destruct (app_cons_not_nil _ _ _ (eq_sym Hd))|done]. }
  pose proof (Hemp _ _ Hl) as Hel. pose proof (Hemp _ _ Hr) as Her. do 2 case_decide; rewrite ?Hel, ?Her; cbn [Z.eqb]; repeat match goal with
    | H : _ ∧ _ |- _ => destruct H as [? ?] | H : ?p ≠ 0 |- context [?p =? 0] => rewrite (proj2 (Z.eqb_neq _ _) H) end; unfold mret, M_ret;
    rewrite ?(rightmost_spec s l), ?(leftmost_spec s r) by (done || lia); done.
Qed.
