(* ===== verification/Mmap.v ===== *)
(** * Mmap: the memory map of a process

    Models mm/mmap.c on top of its tree (Avl): the list of the areas, the rings of
    the areas that map one inode, and the calls that map and unmap memory; and
    [expand_stack] (include/linux/mm.h) with the checks of [do_page_fault]
    (arch/i386/mm/fault.c).

    One process uses its address space at a time, so [mmap_sem] is not modelled.
    [kmalloc] is the address that it returns in a state, 0 if it fails; memory that
    it returns is 0 until it is written.  Which operations an area has is [ops];
    calls of them, of the page tables and of [iput] are recorded.  What the [mmap]
    operation of a file makes of an area is given with the file. *)

From stdpp Require Import gmap.
From S2P Require Import Prelude Vmalloc Avl.

(** ** Data *)

Definition VM_READ : Z := 0x0001.
Definition VM_WRITE : Z := 0x0002.
Definition VM_EXEC : Z := 0x0004.
Definition VM_SHARED : Z := 0x0008.
Definition VM_MAYREAD : Z := 0x0010.
Definition VM_MAYWRITE : Z := 0x0020.
Definition VM_MAYEXEC : Z := 0x0040.
Definition VM_MAYSHARE : Z := 0x0080.
Definition VM_GROWSDOWN : Z := 0x0100.
Definition VM_SHM : Z := 0x0400.
Definition VM_DENYWRITE : Z := 0x0800.
Definition VM_EXECUTABLE : Z := 0x1000.
Definition VM_LOCKED : Z := 0x2000.

Definition PROT_READ : Z := 1.
Definition PROT_WRITE : Z := 2.
Definition PROT_EXEC : Z := 4.
Definition MAP_SHARED : Z := 0x01.
Definition MAP_PRIVATE : Z := 0x02.
Definition MAP_TYPE : Z := 0x0f.
Definition MAP_FIXED : Z := 0x10.
Definition MAP_GROWSDOWN : Z := 0x0100.
Definition MAP_DENYWRITE : Z := 0x0800.
Definition MAP_EXECUTABLE : Z := 0x1000.

Definition MAX_USER_ADDR : Z := TASK_SIZE.
Definition MMAP_SEARCH_START : Z := TASK_SIZE / 3.
Definition RLIM_INFINITY : Z := 2 ^ 31 - 1.

(** Present and accessed, with what a program may do. *)
Definition PAGE_NONE : Z := 0x021.
Definition PAGE_SHARED : Z := 0x027.
Definition PAGE_COPY : Z := 0x025.
Definition PAGE_READONLY : Z := 0x025.

Definition protection_map : list Z :=
  [PAGE_NONE; PAGE_READONLY; PAGE_COPY; PAGE_COPY; PAGE_READONLY; PAGE_READONLY; PAGE_COPY; PAGE_COPY;
   PAGE_NONE; PAGE_READONLY; PAGE_SHARED; PAGE_SHARED; PAGE_READONLY; PAGE_READONLY; PAGE_SHARED; PAGE_SHARED].

(** [protection_map[flags & 0x0f]] *)
Definition protection (flags : Z) : Z := nth (Z.to_nat (Z.land flags 0x0f)) protection_map 0.

(** Which operations an area has. *)
Record vm_operations_struct := MkOps { op_open : bool; op_close : bool; op_unmap : bool }.

(** The limits of the process, as [unsigned long]. *)
Record limits := MkLimits { RLIMIT_DATA : Z; RLIMIT_STACK : Z; RLIMIT_MEMLOCK : Z; RLIMIT_AS : Z }.

(** The counters of memory. *)
Record memory := MkMemory { buffermem : Z; page_cache_size : Z; nr_free_pages : Z; nr_swap_pages : Z; high_memory : Z }.

(** An open file: [locks_verify_locked], [IS_APPEND] and [i_writecount] of its
    inode, and its [mmap] operation, which returns an error or 0 and the area. *)
Record file := MkFile {
  f_mode : Z; f_locked : bool; f_append : bool; f_writecount : Z; f_mmap : option (vma → Z * vma);
}.

(** A place in the list of areas. *)
Inductive lplace := Head | NextOf (a : Z).

Definition rd_next (p : lplace) : M vms Z :=
  match p with Head => gets (λ s, mmap (mm s)) | NextOf a => v ← ld_vma a; mret (vm_next v) end.
Definition wr_next (p : lplace) (x : Z) : M vms unit :=
  match p with Head => mod_mm (λ m, m <| mmap := x |>) | NextOf a => st_vma a (λ v, v <| vm_next := x |>) end.

Definition put_vma (a : Z) (v : vma) : M vms unit := modify (λ s, s <| vmas := <[a := v]> (vmas s) |>).
Definition kfree (a : Z) : M vms unit := modify (λ s, s <| vmas := delete a (vmas s) |>).
Definition log (c : vmcall) : M vms unit := modify (λ s, s <| calls := calls s ++ [c] |>).

Definition ld_inode (i : Z) : M vms inode := λ s,
  match inodes s !! i with Some x => Ret x s | None => Stuck NullDeref s end.
Definition st_inode (i : Z) (f : inode → inode) : M vms unit := λ s,
  match inodes s !! i with Some x => Ret tt (s <| inodes := <[i := f x]> (inodes s) |>) | None => Stuck NullDeref s end.

(** ** Areas *)

(** [_trans] *)
Definition trans (x bit1 bit2 : Z) : Z :=
  if bit1 =? bit2 then Z.land x bit1 else if has x bit1 then bit2 else 0.

Definition vm_flags_of (prot flags : Z) : Z :=
  let prot_bits := Z.lor (Z.lor (trans prot PROT_READ VM_READ) (trans prot PROT_WRITE VM_WRITE)) (trans prot PROT_EXEC VM_EXEC) in
  let flag_bits := Z.lor (Z.lor (trans flags MAP_GROWSDOWN VM_GROWSDOWN) (trans flags MAP_DENYWRITE VM_DENYWRITE)) (trans flags MAP_EXECUTABLE VM_EXECUTABLE) in
  Z.lor prot_bits flag_bits.

Definition vm_enough_memory (m : memory) (pages : Z) : bool :=
  let freepages := Z.shiftr (buffermem m) PAGE_SHIFT + page_cache_size m in
  let freepages := if freepages <=? Z.shiftr (MAP_NR (high_memory m)) 4 + 48 then Z.shiftr freepages 1 else freepages in
  let freepages := freepages + nr_free_pages m + nr_swap_pages m - Z.shiftr (MAP_NR (high_memory m)) 4 in
  pages <? freepages.

(** Into the ring of the inode. *)
Definition insert_shared (vmp : Z) : M vms unit :=
  v ← ld_vma vmp;
  if vm_inode v =? 0 then mret tt
  else
    ino ← ld_inode (vm_inode v);
    let share := i_mmap ino in
    if share =? 0 then
      st_vma vmp (λ v, v <| vm_prev_share := vmp |>) ;;
      st_vma vmp (λ v, v <| vm_next_share := vmp |>) ;;
      st_inode (vm_inode v) (λ i, i <| i_mmap := vmp |>)
    else
      sh ← ld_vma share;
      st_vma vmp (λ v, v <| vm_next_share := vm_next_share sh |>) ;;
      st_vma (vm_next_share sh) (λ v, v <| vm_prev_share := vmp |>) ;;
      st_vma share (λ v, v <| vm_next_share := vmp |>) ;;
      st_vma vmp (λ v, v <| vm_prev_share := share |>).

(** Into the tree, the list and the ring. *)
Definition insert_vm_struct (vmp : Z) : M vms unit :=
  nb ← avl_insert_neighbours vmp;
  let '(prev, next) := nb in
  wr_next (if prev =? 0 then Head else NextOf prev) vmp ;;
  st_vma vmp (λ v, v <| vm_next := next |>) ;;
  insert_shared vmp.

Definition remove_shared_vm_struct (mpnt : Z) : M vms unit :=
  v ← ld_vma mpnt;
  if vm_inode v =? 0 then mret tt
  else if vm_next_share v =? mpnt then
    st_inode (vm_inode v) (λ i, i <| i_mmap := 0 |>)
  else
    ino ← ld_inode (vm_inode v);
    when (i_mmap ino =? mpnt) (st_inode (vm_inode v) (λ i, i <| i_mmap := vm_next_share v |>)) ;;
    st_vma (vm_prev_share v) (λ w, w <| vm_next_share := vm_next_share v |>) ;;
    v ← ld_vma mpnt;
    st_vma (vm_next_share v) (λ w, w <| vm_prev_share := vm_prev_share v |>).

(** [for (vma = mm->mmap; vma; vma = vma->vm_next) avl_insert(vma, &mm->mmap_avl)] *)
Fixpoint avl_insert_all (fuel : nat) (a : Z) : M vms unit :=
  match fuel with
  | O => halt OutOfFuel
  | S fuel' => if a =? 0 then mret tt else avl_insert a ;; v ← ld_vma a; avl_insert_all fuel' (vm_next v)
  end.

Definition build_mmap_avl : M vms unit :=
  mod_mm (λ m, m <| mmap_avl := 0 |>) ;;
  n ← all_vmas;
  a ← gets (λ s, mmap (mm s));
  avl_insert_all (S n) a.

(** [for (vmm = find_vma(current->mm, addr); ; vmm = vmm->vm_next)] *)
Fixpoint unmapped_loop (fuel : nat) (addr len vmm : Z) : M vms Z :=
  match fuel with
  | O => halt OutOfFuel
  | S fuel' =>
      if MAX_USER_ADDR - len <? addr then mret 0
      else if vmm =? 0 then mret addr
      else
        v ← ld_vma vmm;
        if addr + len <=? vm_start v then mret addr
        else unmapped_loop fuel' (vm_end v) len (vm_next v)
  end.

Definition get_unmapped_area (addr len : Z) : M vms Z :=
  if MAX_USER_ADDR <? len then mret 0
  else
    let addr := PAGE_ALIGN (if addr =? 0 then MMAP_SEARCH_START else addr) in
    vmm ← find_vma addr;
    n ← all_vmas;
    unmapped_loop (S n) addr len vmm.

(** The areas from [mpnt] on that begin below [hi] go to the list [free]. *)
Fixpoint detach (fuel : nat) (npp : lplace) (hi mpnt free : Z) : M vms Z :=
  match fuel with
  | O => halt OutOfFuel
  | S fuel' =>
      if mpnt =? 0 then mret free
      else
        v ← ld_vma mpnt;
        if vm_start v <? hi then
          wr_next npp (vm_next v) ;;
          st_vma mpnt (λ v, v <| vm_next := free |>) ;;
          avl_remove mpnt ;;
          m ← rd_next npp;
          detach fuel' npp hi m mpnt
        else mret free
  end.

Section calls.

Context (kmalloc : vms → Z) (ops : Z → vm_operations_struct).

Definition has_op (f : vm_operations_struct → bool) (v : vma) : bool := negb (vm_ops v =? 0) && f (ops (vm_ops v)).

Definition call_open (a : Z) : M vms unit := v ← ld_vma a; when (has_op op_open v) (log (VmOpen a v)).
Definition call_close (a : Z) : M vms unit := v ← ld_vma a; when (has_op op_close v) (log (VmClose a v)).
Definition call_unmap (a st len : Z) : M vms unit := v ← ld_vma a; when (has_op op_unmap v) (log (VmUnmap a v st len)).

(** Same file, operations and rights, side by side. *)
Definition mergeable (p v : vma) : bool :=
  (vm_inode v =? vm_inode p) && (vm_pte v =? vm_pte p) && (vm_ops v =? vm_ops p) && (vm_flags v =? vm_flags p) &&
  (vm_end p =? vm_start v) &&
  (negb (negb (vm_inode v =? 0) || has (vm_flags v) VM_SHM) || (u32 (vm_offset p + vm_end p - vm_start p) =? vm_offset v)).

(** [mpnt] becomes a part of [prev]. *)
Definition merge (prev mpnt : Z) : M vms unit :=
  avl_remove mpnt ;;
  v ← ld_vma mpnt;
  st_vma prev (λ p, p <| vm_end := vm_end v |> <| vm_next := vm_next v |>) ;;
  when (has_op op_close v)
    (st_vma mpnt (λ v, v <| vm_offset := u32 (vm_offset v + (vm_end v - vm_start v)) |> <| vm_start := vm_end v |>) ;;
     call_close mpnt) ;;
  remove_shared_vm_struct mpnt ;;
  when (negb (vm_inode v =? 0)) (st_inode (vm_inode v) (λ i, i <| i_count := i_count i - 1 |>)) ;;
  kfree mpnt.

Fixpoint merge_loop (fuel : nat) (end_addr prev mpnt : Z) : M vms unit :=
  match fuel with
  | O => halt OutOfFuel
  | S fuel' =>
      if mpnt =? 0 then mret tt
      else
        p ← ld_vma prev;
        if vm_start p <? end_addr then
          v ← ld_vma mpnt;
          let next := vm_next v in
          if mergeable p v then merge prev mpnt ;; merge_loop fuel' end_addr prev next
          else merge_loop fuel' end_addr mpnt next
        else mret tt
  end.

Definition merge_segments (start_addr end_addr : Z) : M vms unit :=
  mpnt ← find_vma start_addr;
  if mpnt =? 0 then mret tt
  else
    nb ← avl_neighbours mpnt;
    let '(prev, next) := nb in
    n ← all_vmas;
    if prev =? 0 then merge_loop (S n) end_addr mpnt next else merge_loop (S n) end_addr prev mpnt.

(** [mpnt = kmalloc(...); if (!mpnt) return; *mpnt = *area] and the end of
    [unmap_fixup]: a copy of the area takes its place. *)
Definition fixup_copy (area : Z) : M vms unit :=
  mpnt ← gets kmalloc;
  if mpnt =? 0 then mret tt
  else
    v ← ld_vma area;
    put_vma mpnt v ;;
    call_open mpnt ;;
    when (has_op op_close v) (st_vma area (λ v, v <| vm_end := vm_start v |>) ;; call_close area) ;;
    insert_vm_struct mpnt.

(** The part of the area behind a hole in it. *)
Definition fixup_behind (area addr end_ : Z) (v : vma) (mpnt : Z) : M vms unit :=
  put_vma mpnt (v <| vm_offset := u32 (vm_offset v + (end_ - vm_start v)) |> <| vm_start := end_ |>) ;;
  when (negb (vm_inode v =? 0)) (st_inode (vm_inode v) (λ i, i <| i_count := i_count i + 1 |>)) ;;
  call_open mpnt ;;
  st_vma area (λ v, v <| vm_end := addr |>) ;;
  insert_vm_struct mpnt.

Definition unmap_fixup (area addr len : Z) : M vms unit :=
  v ← ld_vma area;
  let end_ := u32 (addr + len) in
  if (addr <? vm_start v) || (vm_end v <=? addr) || (end_ <=? vm_start v) || (vm_end v <? end_) || (end_ <? addr) then mret tt
  else
    mod_mm (λ m, m <| total_vm := u32 (total_vm m - Z.shiftr len PAGE_SHIFT) |>) ;;
    when (has (vm_flags v) VM_LOCKED) (mod_mm (λ m, m <| locked_vm := u32 (locked_vm m - Z.shiftr len PAGE_SHIFT) |>)) ;;
    if (addr =? vm_start v) && (end_ =? vm_end v) then
      call_close area ;;
      when (negb (vm_inode v =? 0)) (log (Iput (vm_inode v)))
    else if end_ =? vm_end v then
      st_vma area (λ v, v <| vm_end := addr |>) ;; fixup_copy area
    else if addr =? vm_start v then
      st_vma area (λ v, v <| vm_offset := u32 (vm_offset v + (end_ - vm_start v)) |> <| vm_start := end_ |>) ;; fixup_copy area
    else
      mpnt ← gets kmalloc;
      if mpnt =? 0 then mret tt
      else
        fixup_behind area addr end_ v mpnt ;;
        fixup_copy area.

(** [do { ... } while (free)] *)
Fixpoint release_areas (fuel : nat) (addr hi free : Z) : M vms unit :=
  match fuel with
  | O => halt OutOfFuel
  | S fuel' =>
      v ← ld_vma free;
      let rest := vm_next v in
      remove_shared_vm_struct free ;;
      let st := if addr <? vm_start v then vm_start v else addr in
      let end_ := if vm_end v <? hi then vm_end v else hi in
      call_unmap free st (end_ - st) ;;
      log (ZapPageRange st (end_ - st)) ;;
      unmap_fixup free st (end_ - st) ;;
      kfree free ;;
      if rest =? 0 then mret tt else release_areas fuel' addr hi rest
  end.

Definition do_munmap (addr len : Z) : M vms Z :=
  if negb (mask_lo PAGE_SIZE addr =? 0) || (MAX_USER_ADDR <? addr) || (MAX_USER_ADDR - addr <? len) then mret (- EINVAL)
  else
    let len := PAGE_ALIGN len in
    if len =? 0 then mret 0
    else
      mpnt ← find_vma addr;
      if mpnt =? 0 then mret 0
      else
        nb ← avl_neighbours mpnt;
        let '(prev, next) := nb in
        n ← all_vmas;
        free ← detach (S n) (if prev =? 0 then Head else NextOf prev) (u32 (addr + len)) mpnt 0;
        if free =? 0 then mret 0
        else n ← all_vmas; release_areas (S n) addr (u32 (addr + len)) free ;; mret 0.

Definition sys_munmap (addr len : Z) : M vms Z := do_munmap addr len.

(** [while (mpnt)] *)
Fixpoint exit_areas (fuel : nat) (mpnt : Z) : M vms unit :=
  match fuel with
  | O => halt OutOfFuel
  | S fuel' =>
      if mpnt =? 0 then mret tt
      else
        v ← ld_vma mpnt;
        call_unmap mpnt (vm_start v) (vm_end v - vm_start v) ;;
        call_close mpnt ;;
        remove_shared_vm_struct mpnt ;;
        log (ZapPageRange (vm_start v) (vm_end v - vm_start v)) ;;
        when (negb (vm_inode v =? 0)) (log (Iput (vm_inode v))) ;;
        kfree mpnt ;;
        exit_areas fuel' (vm_next v)
  end.

Definition exit_mmap : M vms unit :=
  mpnt ← gets (λ s, mmap (mm s));
  mod_mm (λ m, m <| mmap := 0 |> <| mmap_avl := 0 |> <| rss := 0 |> <| total_vm := 0 |> <| locked_vm := 0 |>) ;;
  n ← all_vmas;
  exit_areas (S n) mpnt.

Context (rlim : limits) (mem : vms → memory).

(** The checks of [do_mmap] on the file; 0 if the mapping is allowed. *)
Definition mmap_allowed (f : option file) (prot flags : Z) : Z :=
  match f with
  | Some f =>
      let type := Z.land flags MAP_TYPE in
      if negb ((type =? MAP_SHARED) || (type =? MAP_PRIVATE)) then - EINVAL
      else if (type =? MAP_SHARED) && has prot PROT_WRITE && negb (has (f_mode f) 2) then - EACCES
      else if (type =? MAP_SHARED) && f_locked f then - EAGAIN
      else if (type =? MAP_SHARED) && f_append f && has (f_mode f) 2 then - EACCES
      else if negb (has (f_mode f) 1) then - EACCES
      else if has flags MAP_DENYWRITE && (0 <? f_writecount f) then - ETXTBSY
      else 0
  | None => if negb (Z.land flags MAP_TYPE =? MAP_PRIVATE) then - EINVAL else 0
  end.

(** The flags of the new area. *)
Definition mmap_flags (f : option file) (prot flags def_flags : Z) : Z :=
  let fl := Z.lor (vm_flags_of prot flags) def_flags in
  match f with
  | Some f =>
      let fl := if has (f_mode f) 1 then Z.lor fl (Z.lor (Z.lor VM_MAYREAD VM_MAYWRITE) VM_MAYEXEC) else fl in
      if has flags MAP_SHARED then
        let fl := Z.lor fl (Z.lor VM_SHARED VM_MAYSHARE) in
        if negb (has (f_mode f) 2) then clr fl (Z.lor VM_MAYWRITE VM_SHARED) else fl
      else fl
  | None => Z.lor fl (Z.lor (Z.lor VM_MAYREAD VM_MAYWRITE) VM_MAYEXEC)
  end.

(** [do { get_user(start); len -= PAGE_SIZE; start += PAGE_SIZE; } while (len > 0)] *)
Fixpoint touch_pages (n : nat) (start : Z) : M vms unit :=
  match n with O => mret tt | S n' => log (Touch start) ;; touch_pages n' (u32 (start + PAGE_SIZE)) end.

(** The new area, filled in, becomes a part of the map. *)
Definition mmap_insert (vma addr len : Z) : M vms Z :=
  v ← ld_vma vma;
  insert_vm_struct vma ;;
  merge_segments (vm_start v) (vm_end v) ;;
  mod_mm (λ m, m <| total_vm := u32 (total_vm m + Z.shiftr len PAGE_SHIFT) |>) ;;
  when (has (vm_flags v) VM_LOCKED)
    (mod_mm (λ m, m <| locked_vm := u32 (locked_vm m + Z.shiftr len PAGE_SHIFT) |>) ;;
     touch_pages (Z.to_nat (Z.shiftr len PAGE_SHIFT)) addr) ;;
  mret addr.

(** The rest of [do_mmap] once there is an area; the operation of the file fails
    or takes a reference to the inode that it maps. *)
Definition mmap_area (f : option file) (vma addr len : Z) : M vms Z :=
  do_munmap addr len ;;
  total ← gets (λ s, total_vm (mm s));
  if RLIMIT_AS rlim <? u32 (Z.shiftl total PAGE_SHIFT + len) then kfree vma ;; mret (- ENOMEM)
  else
    v ← ld_vma vma;
    m ← gets mem;
    if (Z.land (vm_flags v) (Z.lor VM_SHARED VM_WRITE) =? VM_WRITE) && negb (vm_enough_memory m (Z.shiftr len PAGE_SHIFT)) then
      kfree vma ;; mret (- ENOMEM)
    else
      match f ≫= f_mmap with
      | Some op =>
          let '(error, v') := op v in
          if negb (error =? 0) then kfree vma ;; mret error
          else
            put_vma vma v' ;;
            when (negb (vm_inode v' =? 0)) (st_inode (vm_inode v') (λ i, i <| i_count := i_count i + 1 |>)) ;;
            mmap_insert vma addr len
      | None => mmap_insert vma addr len
      end.

Definition do_mmap (f : option file) (addr len prot flags off : Z) : M vms Z :=
  let len := PAGE_ALIGN len in
  if len =? 0 then mret addr
  else if (MAX_USER_ADDR <? len) || (MAX_USER_ADDR - len <? addr) then mret (- EINVAL)
  else if u32 (off + len) <? off then mret (- EINVAL)
  else
    m ← gets mm;
    if has (def_flags m) VM_LOCKED && (RLIMIT_MEMLOCK rlim <? u32 (u32 (Z.shiftl (locked_vm m) PAGE_SHIFT) + len)) then mret (- EAGAIN)
    else
      let error := mmap_allowed f prot flags in
      if negb (error =? 0) then mret error
      else if has flags MAP_FIXED && negb (mask_lo PAGE_SIZE addr =? 0) then mret (- EINVAL)
      else
        addr ← (if has flags MAP_FIXED then mret addr else get_unmapped_area addr len);
        if negb (has flags MAP_FIXED) && (addr =? 0) then mret (- ENOMEM)
        else if match f with Some f => negb (bool_decide (is_Some (f_mmap f))) | None => false end then mret (- ENODEV)
        else
          vma ← gets kmalloc;
          if vma =? 0 then mret (- ENOMEM)
          else
            let fl := mmap_flags f prot flags (def_flags m) in
            put_vma vma (MkVma addr (addr + len) (protection fl) fl 0 0 0 0 0 0 0 off 0 0) ;;
            mmap_area f vma addr len.

Definition sys_brk (brk' : Z) : M vms Z :=
  m ← gets mm;
  let newbrk := PAGE_ALIGN brk' in
  let oldbrk := PAGE_ALIGN (brk m) in
  let set_brk := mod_mm (λ m, m <| brk := brk' |>) ;; mret brk' in
  if brk' <? end_code m then mret (brk m)
  else if oldbrk =? newbrk then set_brk
  else if brk' <=? brk m then
    mod_mm (λ m, m <| brk := brk' |>) ;; do_munmap newbrk (u32 (oldbrk - newbrk)) ;; mret brk'
  else
    let lim := if RLIM_INFINITY <=? RLIMIT_DATA rlim then 2 ^ 32 - 1 else RLIMIT_DATA rlim in
    if lim <? brk' - end_code m then mret (brk m)
    else
      a ← find_vma_intersection oldbrk (u32 (newbrk + PAGE_SIZE));
      if negb (a =? 0) then mret (brk m)
      else
        x ← gets mem;
        if negb (vm_enough_memory x (Z.shiftr (u32 (newbrk - oldbrk)) PAGE_SHIFT)) then mret (brk m)
        else
          r ← do_mmap None oldbrk (u32 (newbrk - oldbrk)) (Z.lor (Z.lor PROT_READ PROT_WRITE) PROT_EXEC) (Z.lor MAP_FIXED MAP_PRIVATE) 0;
          if negb (r =? oldbrk) then mret (brk m) else set_brk.

Definition expand_stack (a address : Z) : M vms Z :=
  v ← ld_vma a;
  m ← gets mm;
  let address := mask_hi PAGE_SIZE address in
  let grow := u32 (vm_start v - address) in
  if (RLIMIT_STACK rlim <? u32 (vm_end v - address)) || (RLIMIT_AS rlim <? u32 (Z.shiftl (total_vm m) PAGE_SHIFT + grow)) then mret (- ENOMEM)
  else
    st_vma a (λ v, v <| vm_start := address |> <| vm_offset := u32 (vm_offset v - grow) |>) ;;
    mod_mm (λ m, m <| total_vm := u32 (total_vm m + Z.shiftr grow PAGE_SHIFT) |>) ;;
    when (has (vm_flags v) VM_LOCKED) (mod_mm (λ m, m <| locked_vm := u32 (locked_vm m + Z.shiftr grow PAGE_SHIFT) |>)) ;;
    mret 0.

(** Bit 0 of the error code is a violation of the protection, bit 1 a write, bit 2
    the user's mode. *)
Definition fault_allowed (error_code : Z) (flags : Z) : bool :=
  let access := Z.land error_code 3 in
  if access =? 0 then has flags (Z.lor VM_READ VM_EXEC) else if access =? 1 then false else has flags VM_WRITE.

(** [do_page_fault] up to the call of the handler: the area that it is called
    with, 0 if the access is a bad one. *)
Definition fault_area (error_code esp address : Z) : M vms Z :=
  a ← find_vma address;
  if a =? 0 then mret 0
  else
    v ← ld_vma a;
    let good := v ← ld_vma a; mret (if fault_allowed error_code (vm_flags v) then a else 0) in
    if vm_start v <=? address then good
    else if negb (has (vm_flags v) VM_GROWSDOWN) then mret 0
    else if has error_code 4 && (u32 (address + 32) <? esp) then mret 0
    else
      r ← expand_stack a address;
      if negb (r =? 0) then mret 0 else good.

End calls.
