(* ===== verification/MmapRights.v ===== *)
(** * MmapRights: who may map, and what a mapping allows

    What [do_mmap] asks of a file, the flags and the page protection of an area and
    the accesses that a fault may serve, each said bit by bit and without the
    operations on words that the code uses, with the proof that the code agrees. *)

From stdpp Require Import gmap.
From S2P Require Import Prelude Vmalloc Avl Mmap.

(** ** Specification *)

(** Bits 0 and 1 of [f_mode] are the right to read and to write, the four low bits
    of [flags] 1 for a shared mapping and 2 for a private one, bit 1 of [prot] the
    wish to write and bit 11 of [flags] the one that nobody does. *)
Definition access_ok (f : option file) (prot flags : Z) : Prop :=
  match f with
  | None => flags mod 16 = 2
  | Some f =>
      Z.testbit (f_mode f) 0 = true ∧ (Z.testbit flags 11 = true → f_writecount f ≤ 0) ∧
      (flags mod 16 = 2 ∨
       flags mod 16 = 1 ∧ f_locked f = false ∧ (Z.testbit prot 1 = true → Z.testbit (f_mode f) 1 = true) ∧
         (Z.testbit (f_mode f) 1 = true → f_append f = false))
  end.

(** Bit [b] of the flags of a new area, where [def] are the flags that all areas of
    the process get: 0 to 2 are what the area allows, 4 to 6 what it may be made to
    allow later.  A file that is not open for writing is shared as if private. *)
Definition granted (f : option file) (prot flags def b : Z) : bool :=
  let shared := match f with Some _ => Z.testbit flags 0 | None => false end in
  let may_write := match f with Some f => negb shared || Z.testbit (f_mode f) 1 | None => true end in
  let is_in := existsb (Z.eqb b) in
  if is_in [0; 1; 2] then Z.testbit prot b || Z.testbit def b
  else if is_in [3] then (shared || Z.testbit def b) && may_write
  else if is_in [4; 6] then true
  else if is_in [5] then may_write
  else if is_in [7] then shared || Z.testbit def b
  else if is_in [8; 11; 12] then Z.testbit flags b || Z.testbit def b
  else Z.testbit def b.

(** The rights of a program on the pages: none, all, or all but writing, which is
    left to the handler of the fault where the area is private. *)
Definition page_rights (fl : Z) : Z :=
  if negb (Z.testbit fl 0 || Z.testbit fl 1 || Z.testbit fl 2) then 0x21
  else if Z.testbit fl 1 && Z.testbit fl 3 then 0x27 else 0x25.

(** Bit 1 of the error code is a write; a read is served only where no page is
    present (bit 0), since then it is no violation of the protection. *)
Definition may_access (error_code fl : Z) : Prop :=
  if Z.testbit error_code 1 then Z.testbit fl 1 = true
  else Z.testbit error_code 0 = false ∧ (Z.testbit fl 0 = true ∨ Z.testbit fl 2 = true).

(** ** Lemmas *)

Lemma has_bits x :
  has x 1 = Z.testbit x 0 ∧ has x 2 = Z.testbit x 1 ∧ has x 4 = Z.testbit x 2 ∧ has x 8 = Z.testbit x 3 ∧ has x 16 = Z.testbit x 4 ∧
  has x 0x100 = Z.testbit x 8 ∧ has x 0x800 = Z.testbit x 11 ∧ has x 0x1000 = Z.testbit x 12.
Proof.
  split_and!; [apply (has_pow2 x 0)|apply (has_pow2 x 1)|apply (has_pow2 x 2)|apply (has_pow2 x 3)|apply (has_pow2 x 4)|apply (has_pow2 x 8)|apply (has_pow2 x 11)|apply (has_pow2 x 12)]; done.
Qed.

Lemma low_bits x : Z.land x 0x0f = x mod 16.
Proof. apply (Z.land_ones x 4). done. Qed.

Lemma access_spec f prot flags : mmap_allowed f prot flags = 0 ↔ access_ok f prot flags.
Proof.
  unfold mmap_allowed, access_ok, MAP_TYPE, MAP_SHARED, MAP_PRIVATE, PROT_WRITE, MAP_DENYWRITE. rewrite low_bits. destruct f as [f|].
  - destruct (has_bits (f_mode f)) as (-> & -> & _), (has_bits prot) as (_ & -> & _), (has_bits flags) as (_ & _ & _ & _ & _ & _ & -> & _).
    generalize (flags mod 16) as t. intros t. destruct (Z.eqb_spec t 1) as [->|H1]; [|destruct (Z.eqb_spec t 2) as [->|H2]]; cbn [orb negb andb Z.eqb].
    + destruct (Z.testbit prot 1), (Z.testbit (f_mode f) 1), (f_locked f), (f_append f), (Z.testbit (f_mode f) 0), (Z.testbit flags 11); cbn; try naive_solver;
        destruct (Z.ltb_spec 0 (f_writecount f)); cbn; naive_solver lia.
    + destruct (Z.testbit (f_mode f) 0), (Z.testbit flags 11); cbn; try naive_solver; destruct (Z.ltb_spec 0 (f_writecount f)); cbn; naive_solver lia.
    + naive_solver.
  - destruct (Z.eqb_spec (flags mod 16) 2); cbn; naive_solver.
Qed.

Lemma flag_words :
  PROT_READ = 2 ^ 0 ∧ PROT_WRITE = 2 ^ 1 ∧ PROT_EXEC = 2 ^ 2 ∧ MAP_GROWSDOWN = 2 ^ 8 ∧ MAP_DENYWRITE = 2 ^ 11 ∧ MAP_EXECUTABLE = 2 ^ 12 ∧
  VM_SHARED = 2 ^ 3 ∧ VM_MAYREAD = 2 ^ 4 ∧ VM_MAYWRITE = 2 ^ 5 ∧ VM_MAYEXEC = 2 ^ 6 ∧ VM_MAYSHARE = 2 ^ 7.
Proof. done. Qed.

(** Each flag is a power of two, so that a bit of a word is a bit of one of them. *)
Ltac by_bits b :=
  destruct flag_words as (W1 & W2 & W3 & W4 & W5 & W6 & W7 & W8 & W9 & W10 & W11); rewrite ?W1, ?W2, ?W3, ?W4, ?W5, ?W6, ?W7, ?W8, ?W9, ?W10, ?W11; clear W1 W2 W3 W4 W5 W6 W7 W8 W9 W10 W11;
  unfold clr; repeat (rewrite Z.lor_spec || rewrite Z.land_spec || rewrite Z.lnot_spec by lia);
  rewrite ?Z.pow2_bits_eqb by lia; cbn [existsb]; rewrite !(Z.eqb_sym b);
  repeat match goal with |- context [?k =? b] => destruct (Z.eqb_spec k b); [subst b; cbn [Z.eqb Pos.eqb orb]|] end; cbn [orb];
  rewrite ?andb_true_r, ?andb_false_r, ?orb_true_r, ?orb_false_r; try done.

Lemma flags_spec f prot flags def b :
  access_ok f prot flags → 0 ≤ b → Z.testbit (mmap_flags f prot flags def) b = granted f prot flags def b.
Proof.
  intros Hok Hb. unfold mmap_flags, vm_flags_of, trans, granted.
  change (PROT_READ =? VM_READ) with true. change (PROT_WRITE =? VM_WRITE) with true. change (PROT_EXEC =? VM_EXEC) with true.
  change (MAP_GROWSDOWN =? VM_GROWSDOWN) with true. change (MAP_DENYWRITE =? VM_DENYWRITE) with true. change (MAP_EXECUTABLE =? VM_EXECUTABLE) with true. cbv iota.
  destruct f as [f|].
  - destruct Hok as [Hr _]. unfold MAP_SHARED. destruct (has_bits (f_mode f)) as (-> & -> & _), (has_bits flags) as (-> & _). rewrite Hr.
    destruct (Z.testbit flags 0) eqn:E0, (Z.testbit (f_mode f) 1) eqn:E1; cbn [negb]; by_bits b.
  - by_bits b.
Qed.

(** The four low bits of a word. *)
Lemma nibble x : Z.land x 0x0f = Z.b2z (Z.testbit x 0) + 2 * Z.b2z (Z.testbit x 1) + 4 * Z.b2z (Z.testbit x 2) + 8 * Z.b2z (Z.testbit x 3).
Proof.
  rewrite low_bits, !Z.testbit_spec' by done. change (2 ^ 0) with 1. change (2 ^ 1) with 2. change (2 ^ 2) with 4. change (2 ^ 3) with 8.
  Z.to_euclidean_division_equations. lia.
Qed.

Lemma protection_spec fl : protection fl = page_rights fl.
Proof.
  unfold protection, page_rights. rewrite nibble. by destruct (Z.testbit fl 0), (Z.testbit fl 1), (Z.testbit fl 2), (Z.testbit fl 3).
Qed.

Lemma fault_spec error_code fl : fault_allowed error_code fl = true ↔ may_access error_code fl.
Proof.
  unfold fault_allowed, may_access. change 3 with (Z.ones 2). rewrite (Z.land_ones error_code 2) by done. change (2 ^ 2) with 4.
  assert (error_code mod 4 = Z.b2z (Z.testbit error_code 0) + 2 * Z.b2z (Z.testbit error_code 1)) as ->.
  { rewrite !Z.testbit_spec' by done. change (2 ^ 0) with 1. change (2 ^ 1) with 2. Z.to_euclidean_division_equations. lia. }
  assert (has fl (Z.lor VM_READ VM_EXEC) = Z.testbit fl 0 || Z.testbit fl 2) as ->.
  { destruct (has_bits fl) as (<- & _ & <- & _). unfold has. rewrite Z.land_lor_distr_r. change VM_READ with 1. change VM_EXEC with 4.
    destruct (Z.eqb_spec (Z.lor (Z.land fl 1) (Z.land fl 4)) 0) as [H|H].
    - apply Z.lor_eq_0_iff in H as [-> ->]. done.
    - destruct (Z.eqb_spec (Z.land fl 1) 0) as [H1|]; [|done]. destruct (Z.eqb_spec (Z.land fl 4) 0) as [H2|]; [|done]. by rewrite H1, H2 in H. }
  change VM_WRITE with 2. destruct (has_bits fl) as (_ & -> & _). destruct (Z.testbit error_code 0), (Z.testbit error_code 1), (Z.testbit fl 0), (Z.testbit fl 2); cbn; naive_solver.
Qed.

(** [(flags & (VM_SHARED | VM_WRITE)) == VM_WRITE] *)
Lemma private_write fl : (Z.land fl (Z.lor VM_SHARED VM_WRITE) =? VM_WRITE) = Z.testbit fl 1 && negb (Z.testbit fl 3).
Proof.
  change (Z.lor VM_SHARED VM_WRITE) with (Z.land 0x0f 0x0a). rewrite Z.land_assoc, nibble. by destruct (Z.testbit fl 0), (Z.testbit fl 1), (Z.testbit fl 2), (Z.testbit fl 3).
Qed.
