(* ===== verification/MmapFacts.v ===== *)
(** * MmapFacts: what the areas of a process are

    The areas of a process are a list of [area]s, sorted and apart; that they are
    in the tree, in the list and in the rings of their inodes is [world].  Every
    step of mm/mmap.c on the links is a step on the lists. *)

From stdpp Require Import gmap sorting.
From S2P Require Import Prelude Vmalloc Avl AvlFacts AvlOps Mmap.

(** ** Specification *)

(** What an area is, without its links. *)
Record area := MkArea {
  a_start : Z; a_end : Z; a_flags : Z; a_prot : Z; a_ops : Z; a_offset : Z; a_inode : Z; a_pte : Z;
}.

#[global] Instance eta_area : Eta area := λ x,
  MkArea (a_start x) (a_end x) (a_flags x) (a_prot x) (a_ops x) (a_offset x) (a_inode x) (a_pte x).

Definition area_of (v : vma) : area :=
  MkArea (vm_start v) (vm_end v) (vm_flags v) (vm_page_prot v) (vm_ops v) (vm_offset v) (vm_inode v) (vm_pte v).

(** Whole pages, in the order of their addresses, apart from each other. *)
Fixpoint areas_ok (lo : Z) (l : list area) : Prop :=
  match l with
  | [] => lo ≤ TASK_SIZE
  | x :: l' => lo ≤ a_start x < a_end x ∧ (PAGE_SIZE | a_start x) ∧ (PAGE_SIZE | a_end x) ∧ areas_ok (a_end x) l'
  end.

(** The list of areas from [p] on. *)
Fixpoint chain (V : gmap Z vma) (p : Z) (l : list Z) : Prop :=
  match l with
  | [] => p = 0
  | a :: l' => p = a ∧ a ≠ 0 ∧ ∃ v, V !! a = Some v ∧ chain V (vm_next v) l'
  end.

Definition holds (V : gmap Z vma) (L : list (Z * area)) : Prop := Forall (λ q, area_of <$> V !! q.1 = Some q.2) L.

(** The areas of the process are [L], in its tree and in its list. *)
Record space (s : vms) (L : list (Z * area)) : Prop := {
  sp_tree : ∃ T, zip s [] T ∧ avl T ∧ flat T = L.*1;
  sp_chain : chain (vmas s) (mmap (mm s)) L.*1;
  sp_holds : holds (vmas s) L;
  sp_ok : areas_ok 0 L.*2;
}.

Definition nextof (V : gmap Z vma) (a : Z) : option Z := vm_next_share <$> V !! a.
Definition prevof (V : gmap Z vma) (a : Z) : option Z := vm_prev_share <$> V !! a.
Definition links (V : gmap Z vma) (a b : Z) : Prop := nextof V a = Some b ∧ prevof V b = Some a.

Fixpoint path (V : gmap Z vma) (x : Z) (l : list Z) (y : Z) : Prop :=
  match l with [] => links V x y | z :: l' => links V x z ∧ path V z l' y end.

Definition ring (V : gmap Z vma) (l : list Z) : Prop := match l with [] => True | h :: t => path V h t h end.

(** The areas that map inode [i] are [R i], in its ring from [i_mmap] on. *)
Record rings (s : vms) (R : Z → list Z) : Prop := {
  rg_inode : ∀ i a, a ∈ R i → i ≠ 0 ∧ is_Some (inodes s !! i);
  rg_head : ∀ i x, inodes s !! i = Some x → i_mmap x = head0 (R i);
  rg_ring : ∀ i, ring (vmas s) (R i);
  rg_nodup : ∀ i, NoDup (R i);
  rg_member : ∀ i a, a ∈ R i → a ≠ 0 ∧ vm_inode <$> vmas s !! a = Some i;
}.

(** The areas of the process, other areas with their [vm_next], and the rings. *)
Record world (s : vms) (L : list (Z * area)) (O : gmap Z (area * Z)) (R : Z → list Z) : Prop := {
  w_space : space s L;
  w_others : ∀ a x, O !! a = Some x → a ≠ 0 ∧ (λ v, (area_of v, vm_next v)) <$> vmas s !! a = Some x;
  w_apart : ∀ a, a ∈ L.*1 → O !! a = None;
  w_rings : rings s R;
}.

(** What the links have no part in. *)
Definition rest (s : vms) : mm_struct * gmap Z Z * list vmcall :=
  ((mm s) <| mmap := 0 |> <| mmap_avl := 0 |>, i_count <$> inodes s, calls s).

(** ** Lemmas: the tree *)

Lemma avl_nodes t : avl t → 2 ^ (ht t / 2) ≤ Z.of_nat (length (flat t)) + 1.
Proof.
  induction t as [|l IHl a h r IHr]; cbn [avl ht flat]; [done|]. intros (Hl & Hr & Hh & Hb). specialize (IHl Hl). specialize (IHr Hr).
  pose proof (ht_nonneg l Hl). pose proof (ht_nonneg r Hr). rewrite length_app. cbn [length].
  destruct (decide (h = 1)) as [->|Hne]; [change (2 ^ (1 / 2)) with 1; lia|]. replace (h / 2) with ((h - 2) / 2 + 1) by (rewrite <-Z.div_add by done; f_equal; lia).
  rewrite Z.pow_add_r, Z.pow_1_r by (try apply Z.div_pos; lia).
  assert (2 ^ ((h - 2) / 2) ≤ 2 ^ (ht l / 2)) by (apply Z.pow_le_mono_r; [lia|]; apply Z.div_le_mono; lia).
  assert (2 ^ ((h - 2) / 2) ≤ 2 ^ (ht r / 2)) by (apply Z.pow_le_mono_r; [lia|]; apply Z.div_le_mono; lia). lia.
Qed.

Lemma areas_room l : ∀ lo, areas_ok lo l → lo + PAGE_SIZE * Z.of_nat (length l) ≤ TASK_SIZE.
Proof.
  induction l as [|x l IH]; intros lo; cbn [areas_ok length]; [lia|]. intros (Hx & [p Hp] & [q Hq] & Hl). apply IH in Hl. unfold PAGE_SIZE in *. nia.
Qed.

Lemma areas_mono l lo lo' : lo' ≤ lo → areas_ok lo l → areas_ok lo' l.
Proof. destruct l; cbn; intros; [lia|naive_solver lia]. Qed.

Lemma areas_app l1 l2 lo : areas_ok lo (l1 ++ l2) ↔ areas_ok lo l1 ∧ areas_ok (default lo (a_end <$> last l1)) l2.
Proof.
  revert lo. induction l1 as [|x l1 IH]; intros lo; cbn [app areas_ok].
  - split; [|by intros [_ ?]]. intros H. split; [|done]. pose proof (areas_room _ _ H). unfold PAGE_SIZE in *. cbn. lia.
  - rewrite IH, last_cons. destruct (last l1); cbn; naive_solver.
Qed.

Lemma areas_below l : ∀ lo, areas_ok lo l → Forall (λ x, lo ≤ a_start x ∧ a_start x < a_end x ≤ TASK_SIZE) l.
Proof.
  induction l as [|x l IH]; intros lo; cbn [areas_ok]; [by constructor|]. intros (Hx & _ & _ & Hl). pose proof (areas_room _ _ Hl) as Hr.
  apply IH in Hl. unfold PAGE_SIZE in Hr. constructor; [lia|]. eapply Forall_impl; [exact Hl|]. cbn. intros; lia.
Qed.

Lemma areas_split l1 x l2 lo :
  areas_ok lo (l1 ++ x :: l2) → Forall (λ y, a_end y ≤ a_start x) l1 ∧ Forall (λ y, a_end x ≤ a_start y) l2.
Proof.
  revert lo. induction l1 as [|y l1 IH]; intros lo; cbn [app areas_ok].
  - intros (_ & _ & _ & Hl). split; [constructor|]. eapply Forall_impl; [apply areas_below, Hl|]. cbn. intros; lia.
  - intros (_ & _ & _ & Hl). destruct (IH _ Hl) as [H1 H2]. split; [|done]. constructor; [|done].
    pose proof (areas_below _ _ Hl) as Hb. rewrite Forall_app, Forall_cons in Hb. destruct Hb as (_ & Hb & _). lia.
Qed.

Lemma holds_end V L a x : holds V L → (a, x) ∈ L → endof V a = a_end x.
Proof.
  intros Hh Hin. unfold holds in Hh. rewrite Forall_forall in Hh. specialize (Hh _ Hin). cbn in Hh. unfold endof. destruct (V !! a) as [v|]; [|done].
  apply (inj Some) in Hh. by subst x.
Qed.

Lemma space_sorted V L lo : holds V L → areas_ok lo L.*2 → StronglySorted (by_end V) L.*1.
Proof.
  revert lo. induction L as [|[a x] L IH]; intros lo Hh Hok; cbn; [constructor|]. destruct Hok as (Hx & _ & _ & Hok). apply StronglySorted_cons. split.
  - apply Forall_forall. intros b Hb. apply list_elem_of_fmap in Hb as ([b' y] & -> & Hy). unfold by_end. cbn [fst].
    rewrite (holds_end _ _ a x Hh), (holds_end _ _ b' y Hh) by set_solver. pose proof (areas_below _ _ Hok) as Hb. rewrite Forall_forall in Hb.
    specialize (Hb y). cbn in *. assert (y ∈ L.*2) as Hin by (apply list_elem_of_fmap; by exists (b', y)). apply Hb in Hin. lia.
  - apply (IH (a_end x)); [by apply Forall_cons in Hh as [_ ?]|done].
Qed.

(** The tree never gets too high for the stack. *)
Lemma tree_fits s T L : zip s [] T → avl T → flat T = L.*1 → holds (vmas s) L → areas_ok 0 L.*2 → avl_tree s T.
Proof.
  intros Hz Ha HT Hh Hok. split; [done|done|rewrite HT; by eapply space_sorted|].
  pose proof (avl_nodes T Ha) as Hn. rewrite HT, length_fmap in Hn. pose proof (areas_room _ _ Hok) as Hr. rewrite length_fmap in Hr. unfold PAGE_SIZE, TASK_SIZE, avl_maxheight in *.
  destruct (decide (ht T ≤ 41)) as [|Hgt]; [lia|]. assert (2 ^ 21 ≤ 2 ^ (ht T / 2)) by (apply Z.pow_le_mono_r; [lia|]; apply Z.div_le_lower_bound; lia). lia.
Qed.

Lemma space_avl s L : space s L → ∃ T, avl_tree s T ∧ flat T = L.*1.
Proof. intros [(T & Hz & Ha & HT) _ Hh Hok]. exists T. split; [by apply (tree_fits s T L)|done]. Qed.

Lemma space_nodup s L : space s L → NoDup L.*1.
Proof. intros [(T & Hz & _ & <-) _ _ _]. by apply (zp_nodup _ _ _ Hz). Qed.

Lemma chain_nonzero V p l a : chain V p l → a ∈ l → a ≠ 0.
Proof. revert p. induction l as [|b l IH]; intros p; cbn; [set_solver|]. intros (_ & Hb & v & _ & Hl) [->|Hin]%elem_of_cons; eauto. Qed.

Lemma space_lookup s L a x : space s L → (a, x) ∈ L → ∃ v, vmas s !! a = Some v ∧ area_of v = x ∧ a ≠ 0.
Proof.
  intros [_ Hc Hh _] Hin. unfold holds in Hh. rewrite Forall_forall in Hh. specialize (Hh _ Hin). cbn in Hh. destruct (vmas s !! a) as [v|]; [|done].
  exists v. split_and!; [done|by apply (inj Some) in Hh|]. eapply chain_nonzero; [exact Hc|]. apply list_elem_of_fmap. by exists (a, x).
Qed.

(** ** Lemmas: lookup *)

(** The first area that ends above an address. *)
Fixpoint above (addr : Z) (L : list (Z * area)) : option (Z * area) :=
  match L with [] => None | q :: L' => if addr <? a_end q.2 then Some q else above addr L' end.

Lemma above_app addr L1 L2 : above addr (L1 ++ L2) = match above addr L1 with Some q => Some q | None => above addr L2 end.
Proof. induction L1 as [|q L1 IH]; [done|]. cbn. by destruct (addr <? a_end q.2). Qed.

Lemma above_none addr L : above addr L = None ↔ Forall (λ q, a_end q.2 ≤ addr) L.
Proof.
  induction L as [|q L IH]; [by split|]. cbn. rewrite Forall_cons. destruct (Z.ltb_spec addr (a_end q.2)); [|naive_solver].
  split; [done|]. intros [? _]. lia.
Qed.

Lemma above_some addr L q : above addr L = Some q → ∃ L1 L2, L = L1 ++ q :: L2 ∧ addr < a_end q.2 ∧ Forall (λ q, a_end q.2 ≤ addr) L1.
Proof.
  induction L as [|r L IH]; [done|]. cbn. destruct (Z.ltb_spec addr (a_end r.2)).
  - intros [= ->]. by exists [], L.
  - intros (L1 & L2 & -> & ? & ?)%IH. exists (r :: L1), L2. split_and!; [done|done|by constructor].
Qed.

Definition above0 (addr : Z) (L : list (Z * area)) : Z := default 0 (fst <$> above addr L).

Lemma find_vma_loop_spec s addr T : ∀ p fuel res L lo,
  repr (vmas s) p T → flat T = L.*1 → holds (vmas s) L → areas_ok lo L.*2 → (length (flat T) < fuel)%nat →
  find_vma_loop fuel addr p res s = Ret (default res (fst <$> above addr L)) s.
Proof.
  induction T as [|l IHl a h r IHr]; intros p fuel res L lo Hr HT Hh Hok Hfuel; (destruct fuel as [|fuel]; [lia|]); cbn [find_vma_loop].
  - symmetry in HT. apply fmap_nil_inv in HT. subst L. cbn in Hr. subst p. done.
  - destruct Hr as (-> & Ha & v & E & _ & Hl & Hr). rewrite (proj2 (Z.eqb_neq _ _) Ha). unfold mbind, M_bind. rewrite (ld_vma_run _ _ _ E).
    cbn [flat] in HT, Hfuel. rewrite length_app in Hfuel. cbn [length] in Hfuel. symmetry in HT. apply fmap_app_inv in HT as (L1 & L2' & HL1 & HL2 & ->).
    destruct L2' as [|[a' x] L2]; [done|]. cbn in HL2. injection HL2 as <- HL2. rewrite fmap_app in Hok. cbn in Hok. destruct (areas_split _ _ _ _ Hok) as [Hb1 Hb2].
    apply areas_app in Hok as [Hok1 (Hse & _ & _ & Hok2)]. unfold holds in Hh. rewrite Forall_app, Forall_cons in Hh. destruct Hh as (Hh1 & Hx & Hh2).
    cbn in Hx. rewrite E in Hx. apply (inj Some) in Hx. subst x. rewrite above_app. cbn [above snd area_of a_end a_start] in *. rewrite Forall_fmap in Hb1.
    destruct (Z.ltb_spec addr (vm_end v)) as [Hlt|Hge].
    + destruct (Z.leb_spec (vm_start v) addr) as [Hle|Hgt].
      * assert (above addr L1 = None) as ->; [|done]. apply above_none. eapply Forall_impl; [exact Hb1|]. intros q Hq. cbn in Hq. lia.
      * rewrite (IHl _ fuel a L1 lo) by (done || lia). by destruct (above addr L1).
    + assert (above addr L1 = None) as ->. { apply above_none. eapply Forall_impl; [exact Hb1|]. intros q Hq. cbn in Hq. lia. }
      by rewrite (IHr _ fuel res L2 (vm_end v)) by (done || lia).
Qed.

Lemma find_vma_spec s L addr : space s L → find_vma addr s = Ret (above0 addr L) s.
Proof.
  intros Hs. destruct (sp_tree _ _ Hs) as (T & Hz & _ & HT). unfold find_vma, mbind, M_bind, all_vmas, gets. cbn [rd_place]. unfold gets.
  apply (find_vma_loop_spec s addr T _ _ _ _ 0); [apply (zp_repr _ _ _ Hz)|done|apply Hs|apply Hs|]. pose proof (flat_bound _ _ _ Hz). lia.
Qed.

Lemma find_vma_intersection_spec s L lo hi : space s L →
  find_vma_intersection lo hi s = Ret (match above lo L with Some q => if hi <=? a_start q.2 then 0 else q.1 | None => 0 end) s.
Proof.
  intros Hs. unfold find_vma_intersection, mbind, M_bind. rewrite (find_vma_spec _ _ _ Hs). unfold above0. destruct (above lo L) as [[a x]|] eqn:E; [|done].
  apply above_some in E as (L1 & L2 & -> & _). destruct (space_lookup s _ a x Hs) as (v & E & <- & Ha); [set_solver|]. cbn. by rewrite (proj2 (Z.eqb_neq _ _) Ha), (ld_vma_run _ _ _ E).
Qed.

(** ** Lemmas: changes elsewhere *)

(** An area but for its ring, and its ring. *)
Definition mask (v : vma) : vma := v <| vm_next_share := 0 |> <| vm_prev_share := 0 |>.
Definition link (v : vma) : Z * Z * Z := (vm_inode v, vm_next_share v, vm_prev_share v).

Lemma fmap_some {B} (f : vma → B) (o o' : option vma) v : f <$> o' = f <$> o → o = Some v → ∃ v', o' = Some v' ∧ f v' = f v.
Proof. intros H ->. destruct o' as [v'|]; [|done]. exists v'. split; [done|]. by apply (inj Some) in H. Qed.

Lemma mask_fields v v' : mask v' = mask v →
  area_of v' = area_of v ∧ vm_next v' = vm_next v ∧ vm_avl_height v' = vm_avl_height v ∧ vm_avl_left v' = vm_avl_left v ∧ vm_avl_right v' = vm_avl_right v.
Proof. unfold mask, area_of. destruct v, v'. cbn. by intros [=]; subst. Qed.

Lemma data_fields v v' : data v' = data v → area_of v' = area_of v ∧ vm_next v' = vm_next v ∧ link v' = link v.
Proof. unfold data, area_of, link. destruct v, v'. cbn. by intros [=]; subst. Qed.

Definition tree_links (v : vma) : Z * Z * Z := (vm_avl_height v, vm_avl_left v, vm_avl_right v).

Lemma repr_ext V V' p t : (∀ a, a ∈ flat t → tree_links <$> V' !! a = tree_links <$> V !! a) → repr V p t → repr V' p t.
Proof.
  revert p. induction t as [|l IHl a h r IHr]; intros p Hf; [done|]. intros (-> & Ha & v & E & Hh & Hl & Hr). cbn. split_and!; [done|done|].
  destruct (fmap_some tree_links _ (V' !! a) v (Hf a ltac:(cbn; set_solver)) E) as (v' & E' & [= Hh' Hl' Hr']). exists v'. rewrite Hl', Hr', Hh'.
  cbn in Hf. split_and!; [done|done|apply IHl|apply IHr]; try done; intros b Hb; apply Hf; set_solver.
Qed.

Lemma list_chain_ext V V' l : ∀ p, (∀ a, a ∈ l → vm_next <$> V' !! a = vm_next <$> V !! a) → chain V p l → chain V' p l.
Proof.
  induction l as [|a l IH]; intros p Hf; [done|]. intros (-> & Ha & v & E & Hl). destruct (fmap_some vm_next _ (V' !! a) v (Hf a ltac:(set_solver)) E) as (v' & E' & Hn).
  split_and!; [done|done|]. exists v'. rewrite Hn. split; [done|]. apply IH; [|done]. intros b Hb. apply Hf. set_solver.
Qed.

Lemma holds_ext V V' L : (∀ a, a ∈ L.*1 → area_of <$> V' !! a = area_of <$> V !! a) → holds V L → holds V' L.
Proof.
  intros Hf Hh. unfold holds in *. rewrite Forall_forall in *. intros [a x] Hin. cbn. rewrite Hf; [by apply (Hh _ Hin)|]. apply list_elem_of_fmap. by exists (a, x).
Qed.

Lemma space_ext s s' L :
  (∀ a, a ∈ L.*1 → mask <$> vmas s' !! a = mask <$> vmas s !! a) → mmap (mm s') = mmap (mm s) → mmap_avl (mm s') = mmap_avl (mm s) → space s L → space s' L.
Proof.
  intros Hf Hm Ha [(T & Hz & HT & Hfl) Hc Hh Hok].
  assert (∀ B (g : vma → B), (∀ v v', mask v' = mask v → g v' = g v) → ∀ a, a ∈ L.*1 → g <$> vmas s' !! a = g <$> vmas s !! a) as Hg.
  { intros B g Hg a Hin. specialize (Hf a Hin). destruct (vmas s' !! a), (vmas s !! a); try done. apply (inj Some) in Hf. cbn. f_equal. by apply Hg. }
  split; [|rewrite Hm; eapply list_chain_ext; [|done]; apply Hg; intros v v' E; apply (mask_fields _ _ E)|eapply holds_ext; [|done]; apply Hg; intros v v' E; apply (mask_fields _ _ E)|done].
  exists T. split_and!; [|done|done]. destruct Hz as [Hr _ Hn]. split; [|done|done]. cbn in *. rewrite Ha. eapply repr_ext; [|done]. rewrite Hfl. apply Hg.
  intros v v' E. unfold tree_links. by destruct (mask_fields _ _ E) as (_ & _ & -> & -> & ->).
Qed.

(** ** Lemmas: rings *)

Lemma path_ext V V' l : ∀ x y,
  (∀ a, a ∈ x :: l → nextof V' a = nextof V a) → (∀ a, a ∈ l ++ [y] → prevof V' a = prevof V a) → path V x l y → path V' x l y.
Proof.
  induction l as [|z l IH]; intros x y Hn Hp; cbn in *.
  - intros [H1 H2]. split; [rewrite Hn|rewrite Hp]; set_solver.
  - intros [[H1 H2] H3]. split; [split; [rewrite Hn|rewrite Hp]; set_solver|]. apply IH; [set_solver..|done].
Qed.

Lemma path_app V l : ∀ x m k y, path V x (l ++ m :: k) y ↔ path V x l m ∧ path V m k y.
Proof. induction l as [|z l IH]; intros; cbn; [done|]. rewrite IH. naive_solver. Qed.

Lemma ring_rotate V l1 l2 : ring V (l1 ++ l2) → ring V (l2 ++ l1).
Proof.
  destruct l1 as [|h l1]; [by rewrite app_nil_r|]. destruct l2 as [|m l2]; [by rewrite app_nil_r|]. cbn. rewrite !path_app. naive_solver.
Qed.

Lemma path_last V l : ∀ x y, path V x l y → prevof V y = Some (default x (last l)).
Proof. induction l as [|z l IH]; intros x y; cbn; [by intros [_ ?]|]. intros [_ H]. rewrite (IH _ _ H), last_cons. by destruct (last l). Qed.

(** The end of a path is another one. *)
Lemma path_retarget V V' y y' l : ∀ x,
  nextof V' (default x (last l)) = Some y' → prevof V' y' = Some (default x (last l)) → NoDup (x :: l) →
  (∀ a, a ∈ x :: l → a ≠ default x (last l) → nextof V' a = nextof V a) → (∀ a, a ∈ l → prevof V' a = prevof V a) →
  path V x l y → path V' x l y'.
Proof.
  induction l as [|z l IH]; intros x Hn Hp Hd Hne Hpe; [done|]. cbn [path]. intros [[H1 H2] H3].
  assert (default x (last (z :: l)) = default z (last l)) as Hl by (rewrite last_cons; by destruct (last l)). rewrite Hl in *.
  apply NoDup_cons in Hd as [Hx Hd]. split; [split; [rewrite Hne|rewrite Hpe]; try done; [set_solver| |set_solver]|].
  - intros ->. apply Hx. destruct (last l) as [w|] eqn:Ew; cbn; [|set_solver]. apply last_Some_elem_of in Ew. set_solver.
  - apply IH; [done..| | |done]; [|set_solver]. intros a Ha. apply Hne. set_solver.
Qed.

Definition only_shares (s s' : vms) : Prop :=
  mask <$> vmas s' = mask <$> vmas s ∧ rest s' = rest s ∧ mmap (mm s') = mmap (mm s) ∧ mmap_avl (mm s') = mmap_avl (mm s).

Definition ring_set (R : Z → list Z) (i : Z) (l : list Z) (j : Z) : list Z := if decide (j = i) then l else R j.

Lemma ring_set_eq R i l : ring_set R i l i = l.
Proof. unfold ring_set. by rewrite decide_True. Qed.

Lemma ring_set_ne R i l j : j ≠ i → ring_set R i l j = R j.
Proof. intros H. unfold ring_set. by rewrite decide_False. Qed.

Lemma mask_insert (V : gmap Z vma) a v v' : V !! a = Some v → mask v' = mask v → mask <$> <[a := v']> V = mask <$> V.
Proof. intros E Ed. rewrite fmap_insert, Ed, insert_id; [done|]. by rewrite lookup_fmap, E. Qed.

Lemma mask_lookup {B} (g : vma → B) (V V' : gmap Z vma) a :
  mask <$> V' = mask <$> V → (∀ v v', mask v' = mask v → g v' = g v) → g <$> V' !! a = g <$> V !! a.
Proof.
  intros H Hg. apply (f_equal (lookup a)) in H. rewrite !lookup_fmap in H. destruct (V' !! a), (V !! a); try done. apply (inj Some) in H. cbn. f_equal. by apply Hg.
Qed.

Lemma mask_inode v v' : mask v' = mask v → vm_inode v' = vm_inode v.
Proof. intros H. apply mask_fields in H as (H & _). by apply (f_equal a_inode) in H. Qed.

Lemma path_links V V' l : ∀ x y, (∀ a, a ∈ x :: y :: l → link <$> V' !! a = link <$> V !! a) → path V x l y → path V' x l y.
Proof.
  intros x y Hf. assert (∀ a, a ∈ x :: y :: l → nextof V' a = nextof V a ∧ prevof V' a = prevof V a) as Hg.
  { intros a Ha. specialize (Hf a Ha). unfold nextof, prevof. destruct (V' !! a), (V !! a); try done. cbn in *. injection Hf as ? ? ?. split; congruence. }
  apply path_ext; intros a Ha; apply Hg; set_solver.
Qed.

Lemma ring_links V V' l : (∀ a, a ∈ l → link <$> V' !! a = link <$> V !! a) → ring V l → ring V' l.
Proof. destruct l as [|h l]; [done|]. intros Hf. apply path_links. set_solver. Qed.

(** One ring has changed. *)
Lemma rings_update s s' R i x x' l :
  rings s R → i ≠ 0 → inodes s !! i = Some x → inodes s' = <[i := x']> (inodes s) → i_mmap x' = head0 l → NoDup l → ring (vmas s') l →
  mask <$> vmas s' = mask <$> vmas s → (∀ a, a ∈ l → a ≠ 0 ∧ vm_inode <$> vmas s !! a = Some i) →
  (∀ a, a ∉ R i → a ∉ l → link <$> vmas s' !! a = link <$> vmas s !! a) → rings s' (ring_set R i l).
Proof.
  intros [H1 H2 H3 H4 H5] Hi0 Ei Ei' Hx Hn Hr Hm Hl Hf. assert (∀ a, vm_inode <$> vmas s' !! a = vm_inode <$> vmas s !! a) as Hi by (intros a; by apply mask_lookup, mask_inode).
  split; intros j; destruct (decide (j = i)) as [->|Hne]; rewrite ?ring_set_eq, ?(ring_set_ne _ _ _ _ Hne); rewrite ?Ei'.
  - intros a _. split; [done|]. rewrite lookup_insert_eq. by eexists.
  - intros a Ha. rewrite lookup_insert_ne by done. by eapply H1.
  - intros y. rewrite lookup_insert_eq. by intros [= <-].
  - intros y. rewrite lookup_insert_ne by done. apply H2.
  - done.
  - eapply ring_links; [|apply H3]. intros a Ha. apply H5 in Ha as [_ Ha]. apply Hf; intros Hin; [apply H5 in Hin as [_ Hin]|apply Hl in Hin as [_ Hin]]; congruence.
  - done.
  - apply H4.
  - intros a Ha. rewrite Hi. by apply Hl.
  - intros a Ha. rewrite Hi. by apply H5.
Qed.

Lemma nextof_insert V a v b : nextof (<[a := v]> V) b = if decide (a = b) then Some (vm_next_share v) else nextof V b.
Proof. unfold nextof. case_decide; subst; [by rewrite lookup_insert_eq|by rewrite lookup_insert_ne]. Qed.

Lemma prevof_insert V a v b : prevof (<[a := v]> V) b = if decide (a = b) then Some (vm_prev_share v) else prevof V b.
Proof. unfold prevof. case_decide; subst; [by rewrite lookup_insert_eq|by rewrite lookup_insert_ne]. Qed.

Definition ring_add (n : Z) (l : list Z) : list Z := match l with [] => [n] | h :: t => h :: n :: t end.

Lemma ld_inode_run s i x : inodes s !! i = Some x → ld_inode i s = Ret x s.
Proof. intros E. unfold ld_inode. by rewrite E. Qed.

Lemma st_inode_run s i f x : inodes s !! i = Some x → st_inode i f s = Ret tt (s <| inodes := <[i := f x]> (inodes s) |>).
Proof. intros E. unfold st_inode. by rewrite E. Qed.

Lemma rings_add s R i n h t x V :
  rings s R → i ≠ 0 → R i = h :: t → inodes s !! i = Some x → n ∉ R i → n ≠ 0 → vm_inode <$> vmas s !! n = Some i → mask <$> V = mask <$> vmas s →
  path V h (n :: t) h → (∀ a, a ∉ n :: h :: t → link <$> V !! a = link <$> vmas s !! a) → rings (s <| vmas := V |>) (ring_set R i (h :: n :: t)).
Proof.
  intros HR Hi0 ER Ex Hn Hn0 En Hm Hp Hl. pose proof (rg_nodup _ _ HR i) as Hnd. rewrite ER in Hn, Hnd. apply (rings_update s _ R i x x); try done.
  - cbn. by rewrite insert_id.
  - by rewrite (rg_head _ _ HR _ _ Ex), ER.
  - apply (perm_nodup (n :: h :: t)); [by constructor|constructor].
  - intros a Ha. rewrite (perm_swap n h t) in Ha. apply elem_of_cons in Ha as [->|Ha]; [done|]. apply (rg_member _ _ HR i). by rewrite ER.
  - rewrite ER. intros a Ha1 Ha2. apply Hl. set_solver.
Qed.

(** Only links of rings were changed. *)
Ltac mask_same := repeat (erewrite mask_insert; [|vlook; done || eassumption|done]); done.
Ltac name_vmas V := match goal with |- context [_ <| vmas := ?W |>] => set (V := W) end.
Ltac st_any := erewrite st_vma_run by (rewrite ?vmas_upd; vlook; done || eassumption); rewrite ?vmas_upd, ?upd_vmas.

Lemma insert_shared_spec s R n v :
  rings s R → vmas s !! n = Some v → n ≠ 0 → (∀ i, n ∉ R i) → (vm_inode v ≠ 0 → is_Some (inodes s !! vm_inode v)) →
  ∃ s', insert_shared n s = Ret tt s' ∧ only_shares s s' ∧
    rings s' (if decide (vm_inode v = 0) then R else ring_set R (vm_inode v) (ring_add n (R (vm_inode v)))).
Proof.
  intros HR E Hn0 Hn Hino. unfold insert_shared, mbind, M_bind. rewrite (ld_vma_run _ _ _ E). destruct (decide (vm_inode v = 0)) as [->|Hi]; [by exists s|].
  rewrite (proj2 (Z.eqb_neq _ _) Hi). destruct (Hino Hi) as [x Ex]. set (i := vm_inode v) in *. rewrite (ld_inode_run _ _ _ Ex), (rg_head _ _ HR _ _ Ex).
  pose proof (rg_ring _ _ HR i) as Hr. pose proof (rg_nodup _ _ HR i) as Hnd. pose proof (rg_member _ _ HR i) as Hmem. destruct (R i) as [|h t] eqn:ER.
  - cbn. do 2 st_any. erewrite st_inode_run by exact Ex. eexists. split; [done|]. rewrite insert_insert_eq. split.
    + split_and!; try done; [cbn; by apply mask_insert with v|]. unfold rest. cbn. f_equal. f_equal. rewrite fmap_insert, insert_id; [done|]. by rewrite lookup_fmap, Ex.
    + eapply rings_update; [done|done|done|done|done|apply NoDup_singleton| |by apply mask_insert with v|intros a ->%list_elem_of_singleton; by rewrite E|].
      * cbn. unfold links. by rewrite nextof_insert, prevof_insert, !decide_True by done.
      * intros a _ Ha. cbn. rewrite lookup_insert_ne; [done|set_solver].
  - change (head0 (h :: t)) with h. assert (h ≠ 0 ∧ ∃ vh, vmas s !! h = Some vh) as (Hh0 & vh & Eh). { destruct (Hmem h) as [? Hv]; [set_solver|]. destruct (vmas s !! h); [by eauto|done]. }
    assert (n ≠ h) by (intros ->; apply (Hn i); rewrite ER; set_solver). rewrite (proj2 (Z.eqb_neq _ _) Hh0), (ld_vma_run _ _ _ Eh). destruct t as [|z t].
    + destruct Hr as [Hr1 Hr2]. unfold nextof in Hr1. rewrite Eh in Hr1. apply (inj Some) in Hr1. rewrite Hr1. do 4 st_any. eexists. split; [done|]. name_vmas V.
      assert (mask <$> V = mask <$> vmas s) as Hmask by (unfold V; mask_same). split; [done|]. apply (rings_add s R i n h [] x); try done; [by rewrite E| |].
      * unfold V. cbn. unfold links. rewrite !nextof_insert, !prevof_insert. repeat case_decide; try done; congruence.
      * intros a Ha. rewrite !not_elem_of_cons in Ha. destruct_and! Ha. unfold V. rewrite !lookup_insert_ne by done. done.
    + destruct Hr as [[Hr1 Hr2] Hr3]. unfold nextof in Hr1. rewrite Eh in Hr1. apply (inj Some) in Hr1. rewrite Hr1. apply NoDup_cons in Hnd as [Hh1 [Hz1 Hnd]%NoDup_cons].
      assert (∃ vz, vmas s !! z = Some vz) as (vz & Ez). { destruct (Hmem z) as [? Hv]; [set_solver|]. destruct (vmas s !! z); [by eauto|done]. }
      assert (n ∉ h :: z :: t) as Hnt by (rewrite <-ER; apply Hn). assert (n ≠ z) by set_solver. assert (z ≠ h) by set_solver. do 4 st_any. eexists. split; [done|]. name_vmas V.
      assert (mask <$> V = mask <$> vmas s) as Hmask by (unfold V; mask_same). split; [done|]. apply (rings_add s R i n h (z :: t) x); try done; [by rewrite E| |].
      * cbn. split_and!; [unfold V, links; rewrite !nextof_insert, !prevof_insert; repeat case_decide; (done || congruence)..|].
        eapply path_ext; [..|exact Hr3]; intros a Ha; unfold V; rewrite ?nextof_insert, ?prevof_insert.
        { assert (h ≠ a ∧ n ≠ a) as [??] by set_solver. repeat case_decide; subst; try done; unfold nextof, prevof; by rewrite ?Ez, ?Eh. }
        { assert (z ≠ a ∧ n ≠ a) as [??] by set_solver. repeat case_decide; subst; try done; unfold nextof, prevof; by rewrite ?Ez, ?Eh. }
      * intros a Ha. rewrite !not_elem_of_cons in Ha. destruct_and! Ha. unfold V. rewrite !lookup_insert_ne by done. done.
Qed.

(** The ring without its first member. *)
Lemma ring_unlink V m z k vz vp p :
  ring V (m :: z :: k) → NoDup (m :: z :: k) → p = default z (last k) → V !! p = Some vp → (<[p := vp <| vm_next_share := z |>]> V) !! z = Some vz →
  ring (<[z := vz <| vm_prev_share := p |>]> (<[p := vp <| vm_next_share := z |>]> V)) (z :: k).
Proof.
  intros [_ Hp] Hnd Hpp Ep Ez. apply NoDup_cons in Hnd as [Hm Hnd]. assert (p ∈ z :: k) as Hin.
  { subst p. destruct (last k) as [w|] eqn:Ew; cbn; [|set_solver]. apply last_Some_elem_of in Ew. set_solver. }
  assert (vm_next_share vz = if decide (p = z) then z else default 0 (nextof V z)) as Hvz.
  { unfold nextof. case_decide as Hd; [rewrite Hd, lookup_insert_eq in Ez; by injection Ez as <-|]. rewrite lookup_insert_ne in Ez by done. by rewrite Ez. }
  cbn [ring]. apply (path_retarget V _ m z k z); rewrite <-?Hpp; try done.
  - rewrite !nextof_insert. repeat case_decide; try done. cbn. by rewrite Hvz.
  - rewrite prevof_insert. by rewrite decide_True.
  - intros a Ha Hne. rewrite !nextof_insert. repeat case_decide; subst; try done. cbn. unfold nextof.
    rewrite lookup_insert_ne in Ez by done. by rewrite Ez.
  - intros a Ha. apply NoDup_cons in Hnd as [Hz _]. rewrite !prevof_insert. repeat case_decide; subst; try done. unfold prevof. by rewrite Ep.
Qed.

Lemma remove_shared_spec s R m v l1 l2 :
  rings s R → vmas s !! m = Some v → (vm_inode v ≠ 0 → R (vm_inode v) = l1 ++ m :: l2) →
  ∃ s', remove_shared_vm_struct m s = Ret tt s' ∧ only_shares s s' ∧
    rings s' (if decide (vm_inode v = 0) then R else ring_set R (vm_inode v) (l1 ++ l2)).
Proof.
  intros HR E HRi. unfold remove_shared_vm_struct, mbind, M_bind. rewrite (ld_vma_run _ _ _ E). destruct (decide (vm_inode v = 0)) as [->|Hi]; [by exists s|].
  rewrite (proj2 (Z.eqb_neq _ _) Hi). specialize (HRi Hi). set (i := vm_inode v) in *. destruct (rg_inode _ _ HR i m) as [_ [x Ex]]; [rewrite HRi; set_solver|].
  pose proof (rg_ring _ _ HR i) as Hr. pose proof (rg_nodup _ _ HR i) as Hnd. pose proof (rg_member _ _ HR i) as Hmem. pose proof (rg_head _ _ HR _ _ Ex) as Hhead. rewrite HRi in Hr, Hnd, Hmem, Hhead.
  apply ring_rotate in Hr. cbn [app] in Hr. assert (NoDup (m :: l2 ++ l1)) as Hnd' by (apply (perm_nodup _ _ Hnd); solve_Permutation).
  assert (∀ a, a ∈ l1 ++ l2 → a ≠ 0 ∧ vm_inode <$> vmas s !! a = Some i) as Hmem' by (intros a Ha; apply Hmem; set_solver).
  assert (NoDup (l1 ++ l2)) as Hnd2 by (apply NoDup_cons in Hnd' as [_ Hn]; apply (perm_nodup _ _ Hn); solve_Permutation).
  assert (∀ a, a ∉ R i → a ∉ l2 ++ l1) as Hout by (rewrite HRi; set_solver).
  destruct (l2 ++ l1) as [|z k] eqn:Ek.
  - apply app_nil in Ek as [-> ->]. destruct Hr as [Hr _]. unfold nextof in Hr. rewrite E in Hr. apply (inj Some) in Hr. rewrite Hr, Z.eqb_refl, (st_inode_run _ _ _ _ Ex).
    eexists. split; [done|]. split; [split_and!; try done; unfold rest; cbn; do 2 f_equal; rewrite fmap_insert, insert_id; [done|]; by rewrite lookup_fmap, Ex|].
    eapply rings_update; try done.
  - pose proof Hr as Hring. destruct Hr as [[Hz1 Hz2] Hp]. unfold nextof in Hz1. rewrite E in Hz1. apply (inj Some) in Hz1. rewrite Hz1.
    assert (m ∉ z :: k) as Hm by (by apply NoDup_cons in Hnd' as [? _]). assert (z ≠ m) as Hzm by set_solver. rewrite (proj2 (Z.eqb_neq _ _) Hzm), (ld_inode_run _ _ _ Ex).
    set (p := vm_prev_share v). assert (p = default z (last k)) as Hpp. { pose proof (path_last _ _ _ _ Hp) as Hl. unfold prevof in Hl. rewrite E in Hl. by apply (inj Some) in Hl. }
    assert (p ∈ z :: k) as Hpin. { rewrite Hpp. destruct (last k) as [w|] eqn:Ew; cbn; [|set_solver]. apply last_Some_elem_of in Ew. set_solver. }
    assert (∀ a, a ∈ z :: k → is_Some (vmas s !! a)) as Hsome. { intros a Ha. destruct (Hmem' a) as [_ Hv]; [rewrite Permutation_app_comm, Ek; done|]. by destruct (vmas s !! a). }
    destruct (Hsome p Hpin) as [vp Ep]. assert (is_Some ((<[p := vp <| vm_next_share := z |>]> (vmas s)) !! z)) as [vz Ez]. { rewrite lookup_insert_is_Some. destruct (decide (p = z)); [by left|right]. split; [done|]. apply Hsome. set_solver. }
    pose proof (ring_unlink (vmas s) m z k vz vp p Hring Hnd' Hpp Ep Ez) as Hring'. rewrite <-Ek in Hring'. apply ring_rotate in Hring'. assert (p ≠ m) as Hpm by (by intros ->).
    set (x' := if i_mmap x =? m then x <| i_mmap := z |> else x).
    assert (when (i_mmap x =? m) (st_inode i (λ i, i <| i_mmap := z |>)) s = Ret tt (s <| inodes := <[i := x']> (inodes s) |>)) as ->.
    { unfold x', when. destruct (i_mmap x =? m); [by apply st_inode_run|]. rewrite insert_id by done. by destruct s. }
    erewrite st_vma_run by exact Ep. erewrite ld_vma_run by (cbn; rewrite lookup_insert_ne by done; exact E). rewrite Hz1. fold p. erewrite st_vma_run by exact Ez. rewrite ?vmas_upd, ?upd_vmas.
    eexists. split; [done|]. assert (mask <$> <[z := vz <| vm_prev_share := p |>]> (<[p := vp <| vm_next_share := z |>]> (vmas s)) = mask <$> vmas s) as Hmask.
    { etrans; [by apply mask_insert with vz|by apply mask_insert with vp]. }
    split.
    + split_and!; try done. unfold rest. cbn. do 2 f_equal. rewrite fmap_insert, insert_id; [done|]. rewrite lookup_fmap, Ex. cbn. f_equal. unfold x'. by destruct (i_mmap x =? m).
    + apply (rings_update s _ R i x x'); try done.
      * unfold x'. rewrite Hhead. destruct l1 as [|h l1]; cbn; [rewrite Z.eqb_refl; cbn; by rewrite app_nil_r in Ek; subst l2|].
        rewrite (proj2 (Z.eqb_neq h m)); [done|]. intros ->. apply NoDup_cons in Hnd as [Hnd _]. set_solver.
      * intros a Ha _. apply Hout in Ha. rewrite vmas_upd. rewrite !lookup_insert_ne; [done|by intros ->|intros ->; apply Ha; set_solver].
Qed.

(** ** Lemmas: the list *)

(** The list from [p] on up to [q]. *)
Fixpoint seg (V : gmap Z vma) (p : Z) (l : list Z) (q : Z) : Prop :=
  match l with
  | [] => p = q
  | a :: l' => p = a ∧ a ≠ 0 ∧ ∃ v, V !! a = Some v ∧ seg V (vm_next v) l' q
  end.

Lemma chain_head V p l : chain V p l → p = head0 l.
Proof. destruct l; cbn; [done|]. by intros [-> _]. Qed.

Lemma chain_app V p l1 l2 : chain V p (l1 ++ l2) ↔ seg V p l1 (head0 l2) ∧ chain V (head0 l2) l2.
Proof.
  revert p. induction l1 as [|a l1 IH]; intros p; cbn; [|naive_solver]. split; [|by intros [-> ?]]. intros H. by rewrite <-(chain_head _ _ _ H).
Qed.

Lemma aseg_app V l1 : ∀ p l2 q, seg V p (l1 ++ l2) q ↔ ∃ r, seg V p l1 r ∧ seg V r l2 q.
Proof. induction l1 as [|a l1 IH]; intros p l2 q; cbn; [naive_solver|]. setoid_rewrite IH. naive_solver. Qed.

Definition place_after (l : list Z) : lplace := if last0 l =? 0 then Head else NextOf (last0 l).

(** [x] is behind [l]. *)
Definition tail_set (s : vms) (l : list Z) (x : Z) : vms :=
  match last l with
  | None => s <| mm := (mm s) <| mmap := x |> |>
  | Some a => s <| vmas := alter (λ v, v <| vm_next := x |>) a (vmas s) |>
  end.

Lemma seg_last V p l q a : seg V p l q → last l = Some a → a ≠ 0 ∧ ∃ v, V !! a = Some v ∧ vm_next v = q.
Proof.
  revert p. induction l as [|b l IH]; intros p; cbn [seg]; [done|]. intros (-> & Hb & v & E & Hs). rewrite last_cons. destruct (last l) as [c|] eqn:El.
  - intros [= ->]. by apply (IH (vm_next v)).
  - intros [= ->]. apply last_None in El. subst l. cbn in Hs. eauto.
Qed.

Lemma seg_ext V V' l : ∀ p q, (∀ a, a ∈ l → vm_next <$> V' !! a = vm_next <$> V !! a) → seg V p l q → seg V' p l q.
Proof.
  induction l as [|a l IH]; intros p q Hf; [done|]. intros (-> & Ha & v & E & Hl). destruct (fmap_some vm_next _ (V' !! a) v (Hf a ltac:(set_solver)) E) as (v' & E' & Hn).
  split_and!; [done|done|]. exists v'. rewrite Hn. split; [done|]. apply IH; [|done]. intros b Hb. apply Hf. set_solver.
Qed.

Lemma wr_next_run s l q x :
  seg (vmas s) (mmap (mm s)) l q → NoDup l →
  wr_next (place_after l) x s = Ret tt (tail_set s l x) ∧ rd_next (place_after l) s = Ret q s ∧
  seg (vmas (tail_set s l x)) (mmap (mm (tail_set s l x))) l x.
Proof.
  intros Hs Hn. unfold place_after, tail_set, last0. destruct (last l) as [a|] eqn:El.
  - destruct (seg_last _ _ _ _ _ Hs El) as (Ha & v & E & Hq). cbn [default from_option]. unfold id. rewrite (proj2 (Z.eqb_neq _ _) Ha). cbn [wr_next rd_next]. split_and!.
    + unfold st_vma. rewrite E. by rewrite (alter_alt_Some _ _ _ _ E).
    + unfold mbind, M_bind. rewrite (ld_vma_run _ _ _ E). by subst q.
    + apply last_Some in El as [l' ->]. apply NoDup_app in Hn as (_ & Hd & _). apply aseg_app in Hs as (r & Hs1 & -> & _ & _). apply aseg_app. exists a. split.
      * eapply seg_ext; [|exact Hs1]. intros b Hb. rewrite vmas_upd, lookup_alter_ne; [done|]. intros ->. apply (Hd b Hb). set_solver.
      * split_and!; [done|done|]. eexists. rewrite vmas_upd, lookup_alter_eq, E. done.
  - apply last_None in El. subst l. cbn in *. by subst.
Qed.
