(* ===== verification/MmapSteps.v ===== *)
(** * MmapSteps: the steps on areas

    Each step of mm/mmap.c on areas and their links as a step on the lists of
    [world]. *)

From stdpp Require Import gmap sorting.
From S2P Require Import Prelude Vmalloc Avl AvlFacts AvlOps Mmap MmapFacts.

(** ** Lemmas: fields *)

(** A projection of all areas is the same. *)
Definition same {B} (g : vma → B) (s s' : vms) : Prop := ∀ a, g <$> vmas s' !! a = g <$> vmas s !! a.

Lemma same_trans {B} (g : vma → B) s1 s2 s3 : same g s1 s2 → same g s2 s3 → same g s1 s3.
Proof. intros H1 H2 a. by rewrite H2, H1. Qed.

Lemma same_fmap {B C} (f : vma → B) (g : vma → C) s s' : f <$> vmas s' = f <$> vmas s → (∀ v v', f v' = f v → g v' = g v) → same g s s'.
Proof.
  intros H Hg a. apply (f_equal (lookup a)) in H. rewrite !lookup_fmap in H. destruct (vmas s' !! a), (vmas s !! a); try done. apply (inj Some) in H. cbn. f_equal. by apply Hg.
Qed.

Lemma same_insert {B} (g : vma → B) s a v v' : vmas s !! a = Some v → g v' = g v → same g s (s <| vmas := <[a := v']> (vmas s) |>).
Proof. intros E Hg b. rewrite vmas_upd. destruct (decide (a = b)) as [<-|]; [by rewrite lookup_insert_eq, E; cbn; rewrite Hg|by rewrite lookup_insert_ne]. Qed.

Lemma same_alter {B} (g : vma → B) s a f : (∀ v, g (f v) = g v) → same g s (s <| vmas := alter f a (vmas s) |>).
Proof. intros Hg b. rewrite vmas_upd. destruct (decide (a = b)) as [<-|]; [rewrite lookup_alter_eq; destruct (vmas s !! a); cbn; by rewrite ?Hg|by rewrite lookup_alter_ne]. Qed.

Lemma tree_only_same s s' : tree_only s s' → same area_of s s' ∧ same vm_next s s' ∧ same link s s'.
Proof. intros (H & _). split_and!; (eapply same_fmap; [exact H|]; intros v v' E; by apply data_fields). Qed.

Lemma tree_only_rest s s' : tree_only s s' → rest s' = rest s ∧ inodes s' = inodes s ∧ mmap (mm s') = mmap (mm s).
Proof.
  intros (_ & Hi & Hc & Hm). unfold rest. rewrite Hi, Hc. split_and!; [|done|by apply (f_equal mmap) in Hm].
  do 2 f_equal. destruct (mm s), (mm s'). cbn in *. by injection Hm as -> -> -> -> -> -> ->.
Qed.

Lemma rings_same s s' R : rings s R → same link s s' → inodes s' = inodes s → rings s' R.
Proof.
  intros [H1 H2 H3 H4 H5] Hl Hi. split; rewrite ?Hi; try done.
  - intros i. eapply ring_links; [|apply H3]. intros a _. apply Hl.
  - intros i a Ha. destruct (H5 i a Ha) as [Ha0 Hv]. split; [done|]. specialize (Hl a). destruct (vmas s' !! a), (vmas s !! a); try done. cbn in *. by injection Hl as -> _ _.
Qed.

Lemma zip_same s s' T : zip s [] T → same tree_links s s' → mmap_avl (mm s') = mmap_avl (mm s) → zip s' [] T.
Proof. intros [Hr _ Hn] Hs Hm. split; [|done|done]. cbn in *. rewrite Hm. eapply repr_ext; [|exact Hr]. intros a _. apply Hs. Qed.

Lemma world_shares s s' L O R R' : world s L O R → only_shares s s' → rings s' R' → world s' L O R'.
Proof.
  intros [Hs Ho Ha HR] (Hm & Hrest & Hmm & Hav) HR'. split; [|..|done|done].
  - eapply space_ext; [|exact Hmm|exact Hav|exact Hs]. intros a _. by apply mask_lookup.
  - intros a x Hx. destruct (Ho a x Hx) as [Ha0 Hv]. split; [done|]. rewrite <-Hv. apply mask_lookup; [done|]. intros v v' E. by destruct (mask_fields _ _ E) as (-> & -> & _).
Qed.

Lemma split_pred {A} (P : A → Prop) l1 l2 k1 k2 :
  l1 ++ l2 = k1 ++ k2 → Forall P l1 → Forall P k1 → Forall (λ a, ¬ P a) l2 → Forall (λ a, ¬ P a) k2 → l1 = k1 ∧ l2 = k2.
Proof.
  revert k1. induction l1 as [|x l1 IH]; intros [|y k1] E H1 H2 H3 H4; cbn in E; decompose_Forall_hyps; try done.
  destruct (IH k1) as [-> ->]; done.
Qed.

(** ** Lemmas: insertion *)

Lemma holds_ends V L : holds V L → Forall (λ q, endof V q.1 = a_end q.2) L.
Proof. intros Hh. apply Forall_forall. intros [a x] Hin. by eapply holds_end. Qed.

Definition ring_ins (R : Z → list Z) (i n : Z) : Z → list Z := if decide (i = 0) then R else ring_set R i (ring_add n (R i)).

Lemma tail_set_same s l x :
  same area_of s (tail_set s l x) ∧ same link s (tail_set s l x) ∧ same tree_links s (tail_set s l x) ∧ inodes (tail_set s l x) = inodes s ∧
  rest (tail_set s l x) = rest s ∧ mmap_avl (mm (tail_set s l x)) = mmap_avl (mm s) ∧ (∀ a, a ∉ l → vmas (tail_set s l x) !! a = vmas s !! a).
Proof.
  unfold tail_set. destruct (last l) as [b|] eqn:E; [|by split_and!]. split_and!; try done; try (by apply same_alter).
  intros a Ha. rewrite vmas_upd, lookup_alter_ne; [done|]. intros ->. apply Ha. by apply last_Some_elem_of.
Qed.

(** Where an area goes that ends at [a_end x]. *)
Lemma sorted_place V L1 x L2 l1 l2 :
  holds V (L1 ++ L2) → areas_ok 0 (L1.*2 ++ x :: L2.*2) → l1 ++ l2 = (L1 ++ L2).*1 →
  Forall (λ a, endof V a ≤ a_end x) l1 → Forall (λ a, a_end x < endof V a) l2 → l1 = L1.*1 ∧ l2 = L2.*1.
Proof.
  intros Hh Hok Hf Hl1 Hl2. pose proof (holds_ends _ _ Hh) as [He1 He2]%Forall_app. destruct (areas_split _ _ _ _ Hok) as [Hb1 Hb2].
  apply areas_below in Hok. rewrite Forall_app, Forall_cons in Hok. destruct Hok as (_ & Hx & Hok). rewrite Forall_fmap in Hb1, Hb2, Hok. rewrite Forall_forall in Hb1, Hb2, Hok, He1, He2.
  apply (split_pred (λ a, endof V a ≤ a_end x)); [by rewrite Hf, fmap_app|done| |eapply Forall_impl; [exact Hl2|]; cbn; lia|]; rewrite Forall_fmap; apply Forall_forall; intros q Hq; cbn.
  - rewrite (He1 q Hq). specialize (Hb1 q Hq). cbn in Hb1. lia.
  - rewrite (He2 q Hq). specialize (Hb2 q Hq). specialize (Hok q Hq). cbn in Hb2, Hok. lia.
Qed.

(** [n] goes behind the areas [l1] of the list. *)
Lemma link_behind s n v l1 l2 :
  chain (vmas s) (mmap (mm s)) (l1 ++ l2) → NoDup (l1 ++ l2) → n ∉ l1 ++ l2 → n ≠ 0 → vmas s !! n = Some v →
  ∃ s', (wr_next (place_after l1) n ;; st_vma n (λ v, v <| vm_next := head0 l2 |>)) s = Ret tt s' ∧
    chain (vmas s') (mmap (mm s')) (l1 ++ n :: l2) ∧
    same area_of s s' ∧ same link s s' ∧ same tree_links s s' ∧ inodes s' = inodes s ∧ rest s' = rest s ∧ mmap_avl (mm s') = mmap_avl (mm s) ∧
    (∀ a, a ∉ n :: l1 → vmas s' !! a = vmas s !! a).
Proof.
  intros [Hs Hc]%chain_app Hnd Hn Hn0 E. apply NoDup_app in Hnd as (Hnd & Hdis & _). destruct (wr_next_run s l1 _ n Hs Hnd) as (Ew & _ & Hseg).
  destruct (tail_set_same s l1 n) as (Sa & Sl & St & Hi & Hr & Hm & Hk). set (s2 := tail_set s l1 n) in *. assert (vmas s2 !! n = Some v) as E2 by (rewrite Hk; [done|set_solver]).
  eexists. split; [unfold mbind, M_bind; rewrite Ew; by apply st_vma_run|]. split_and!; try done; try (eapply same_trans; [eassumption|]; by apply same_insert with v).
  - apply chain_app. split; [|cbn [chain]; split_and!; [done|done|]].
    + eapply seg_ext; [|exact Hseg]. intros a Ha. rewrite vmas_upd, lookup_insert_ne; [done|]. intros ->. set_solver.
    + eexists. rewrite vmas_upd, lookup_insert_eq. split; [done|]. eapply list_chain_ext; [|exact Hc]. intros a Ha. rewrite lookup_insert_ne by (intros ->; set_solver). rewrite Hk; [done|].
      intros Ha'. by apply (Hdis a).
  - intros a Ha. rewrite vmas_upd, lookup_insert_ne by set_solver. apply Hk. set_solver.
Qed.

Lemma insert_vm_struct_spec s L1 L2 O R n x nx :
  world s (L1 ++ L2) O R → O !! n = Some (x, nx) → (∀ i, n ∉ R i) → (a_inode x ≠ 0 → is_Some (inodes s !! a_inode x)) →
  areas_ok 0 (L1 ++ (n, x) :: L2).*2 →
  ∃ s', insert_vm_struct n s = Ret tt s' ∧ world s' (L1 ++ (n, x) :: L2) (delete n O) (ring_ins R (a_inode x) n) ∧ rest s' = rest s.
Proof.
  intros [Hs Ho Hap HR] En Hn Hino Hok. destruct (Ho n _ En) as [Hn0 Hv]. destruct (vmas s !! n) as [v|] eqn:E; [|done]. injection Hv as Hx Hnx.
  assert (n ∉ (L1 ++ L2).*1) as HnL by (intros Hin; apply Hap in Hin; congruence).
  destruct (space_avl _ _ Hs) as (T & HT & HTf). destruct (avl_insert_spec s T n v HT E Hn0) as (s1 & T' & l1 & l2 & Er & Ht & Hz & Ha & Hf & Hf' & Hl1 & Hl2); [by rewrite HTf|].
  rewrite fmap_app, fmap_cons in Hok. cbn [snd] in Hok. rewrite HTf in Hf. replace (vm_end v) with (a_end x) in * by (by subst x).
  destruct (sorted_place _ _ _ _ _ _ (sp_holds _ _ Hs) Hok (eq_sym Hf) Hl1 Hl2) as [-> ->]. destruct (tree_only_same _ _ Ht) as (Sa1 & Sn1 & Sl1). destruct (tree_only_rest _ _ Ht) as (Hr1 & Hi1 & Hm1).
  destruct (tree_only_data _ _ n v Ht E) as (v1 & E1 & Hv1). pose proof (space_nodup _ _ Hs) as Hnd. rewrite Hf in Hnd, HnL.
  destruct (link_behind s1 n v1 L1.*1 L2.*1) as (s2 & E2 & Hc & Sa & Sl & St & Hi & Hr & Hm & Hk); [|done..|].
  { rewrite Hm1. eapply list_chain_ext; [|rewrite <-Hf; apply Hs]. intros a _. apply Sn1. }
  assert (rings s2 R) as HR2. { apply (rings_same s1); [|done|done]. by apply (rings_same s). }
  destruct (fmap_some area_of _ _ v (same_trans _ _ _ _ Sa1 Sa n) E) as (v2 & Ev2 & Hv2). assert (vm_inode v2 = a_inode x) as Hvi by (subst x; by apply (f_equal a_inode) in Hv2).
  destruct (insert_shared_spec s2 R n v2 HR2 Ev2 Hn0 Hn) as (s3 & E3 & Hsh & HR3); [rewrite Hvi, Hi, Hi1; done|]. rewrite Hvi in HR3.
  exists s3. split_and!.
  - unfold insert_vm_struct, mbind, M_bind in *. rewrite Er. unfold place_after in E2. destruct (wr_next _ _ s1); [|done]. by rewrite E2.
  - eapply world_shares; [|exact Hsh|exact HR3]. pose proof (same_trans _ _ _ _ Sa1 Sa) as Sa2. split; [|..|done].
    + split; [exists T'; split_and!; [by apply (zip_same s1)|done|]| | |]; rewrite ?fmap_app, ?fmap_cons; try done.
      pose proof (sp_holds _ _ Hs) as Hh. unfold holds in Hh |- *. rewrite Forall_app, ?Forall_cons in *. split_and!; [| |].
      * eapply (holds_ext _ _ L1); [|apply Hh]. intros a _. apply Sa2.
      * cbn. by rewrite Sa2, E, <-Hx.
      * eapply (holds_ext _ _ L2); [|apply Hh]. intros a _. apply Sa2.
    + intros a y Hy. apply lookup_delete_Some in Hy as [Hne Hy]. destruct (Ho a y Hy) as [Ha0 Hv']. split; [done|]. rewrite <-Hv'. rewrite Hk.
      * specialize (Sa1 a). specialize (Sn1 a). destruct (vmas s1 !! a), (vmas s !! a); try done. cbn in *. congruence.
      * intros [->|Hin]%elem_of_cons; [done|]. rewrite (Hap a) in Hy; [done|]. rewrite Hf. set_solver.
    + intros a. rewrite fmap_app, fmap_cons. intros Hin. apply lookup_delete_None. destruct (decide (n = a)); [by left|right]. apply Hap. rewrite Hf. set_solver.
  - destruct Hsh as (_ & -> & _). by rewrite Hr.
Qed.

(** ** Lemmas: single steps *)

(** Counters, calls and references have no part in it. *)
Lemma world_env s s' L O R :
  world s L O R → vmas s' = vmas s → i_mmap <$> inodes s' = i_mmap <$> inodes s → mmap (mm s') = mmap (mm s) → mmap_avl (mm s') = mmap_avl (mm s) → world s' L O R.
Proof.
  intros [Hs Ho Hap [H1 H2 H3 H4 H5]] Hv Hi Hm Ha. split; rewrite ?Hv; try done.
  - apply (space_ext s); [|done|done|done]. intros a _. by rewrite Hv.
  - assert (∀ i, i_mmap <$> inodes s' !! i = i_mmap <$> inodes s !! i) as Hi' by (intros i; by rewrite <-!lookup_fmap, Hi).
    split; rewrite ?Hv; try done.
    + intros i a Hin. destruct (H1 i a Hin) as [Hi0 [x Hx]]. split; [done|]. specialize (Hi' i). rewrite Hx in Hi'. by destruct (inodes s' !! i).
    + intros i x Hx. specialize (Hi' i). rewrite Hx in Hi'. destruct (inodes s !! i) as [y|] eqn:Ey; [|done]. injection Hi' as ->. by apply H2.
Qed.

(** Areas that are neither of the process nor in a ring. *)
Lemma world_outside s V L O O' R :
  world s L O R → (∀ a, (a ∈ L.*1 ∨ ∃ i, a ∈ R i) → V !! a = vmas s !! a) →
  (∀ a x, O' !! a = Some x → a ≠ 0 ∧ (λ v, (area_of v, vm_next v)) <$> V !! a = Some x) → (∀ a, a ∈ L.*1 → O' !! a = None) →
  world (s <| vmas := V |>) L O' R.
Proof.
  intros [Hs Ho Hap [H1 H2 H3 H4 H5]] Hf Ho' Hap'. split; try done.
  - apply (space_ext s); [|done|done|exact Hs]. intros a Ha. rewrite vmas_upd. by rewrite Hf by auto.
  - split; try done.
    + intros i. eapply ring_links; [|apply H3]. intros a Ha. rewrite vmas_upd. by rewrite Hf by eauto.
    + intros i a Ha. rewrite vmas_upd, Hf by eauto. by apply H5.
Qed.

Lemma world_dom s L O R a : world s L O R → a ∈ L.*1 ∨ (∃ i, a ∈ R i) ∨ is_Some (O !! a) → is_Some (vmas s !! a).
Proof.
  intros [Hs Ho Hap HR] [Ha|[[i Ha]|[x Hx]]].
  - apply list_elem_of_fmap in Ha as ([b x] & -> & Hin). destruct (space_lookup _ _ _ _ Hs Hin) as (v & E & _). by exists v.
  - destruct (rg_member _ _ HR i a Ha) as [_ Hv]. by destruct (vmas s !! a).
  - destruct (Ho a x Hx) as [_ Hv]. by destruct (vmas s !! a).
Qed.

Lemma world_put s L O R n v :
  world s L O R → vmas s !! n = None → n ≠ 0 → world (s <| vmas := <[n := v]> (vmas s) |>) L (<[n := (area_of v, vm_next v)]> O) R ∧ ∀ i, n ∉ R i.
Proof.
  intros Hw En Hn0. assert (∀ a, a ∈ L.*1 ∨ (∃ i, a ∈ R i) ∨ is_Some (O !! a) → n ≠ a) as Hne by (intros a Ha ->; apply (world_dom _ _ _ _ _ Hw) in Ha; rewrite En in Ha; by destruct Ha).
  split; [|intros i Hi; by apply (Hne n); eauto]. apply (world_outside s _ L O); [done|..].
  - intros a Ha. rewrite lookup_insert_ne; [done|]. apply Hne. tauto.
  - intros a x [[<- <-]|[Hna Hx]]%lookup_insert_Some; [by rewrite lookup_insert_eq|]. rewrite lookup_insert_ne by done. by apply (w_others _ _ _ _ Hw).
  - intros a Ha. rewrite lookup_insert_ne by auto. by apply (w_apart _ _ _ _ Hw).
Qed.

Lemma world_free s L O R n x :
  world s L O R → O !! n = Some x → (∀ i, n ∉ R i) → world (s <| vmas := delete n (vmas s) |>) L (delete n O) R.
Proof.
  intros Hw En Hn. apply (world_outside s _ L O); [done|..].
  - intros a Ha. rewrite lookup_delete_ne; [done|]. intros <-. destruct Ha as [Ha|[i Ha]]; [|by eapply Hn]. rewrite (w_apart _ _ _ _ Hw) in En; done.
  - intros a y [Hne Hy]%lookup_delete_Some. rewrite lookup_delete_ne by done. by apply (w_others _ _ _ _ Hw).
  - intros a Ha. apply lookup_delete_None. right. by apply (w_apart _ _ _ _ Hw).
Qed.

(** An area outside of the map, which may be in its ring, is changed. *)
Lemma world_edit_other s L O R a v v' x :
  world s L O R → O !! a = Some x → vmas s !! a = Some v → link v' = link v →
  world (s <| vmas := <[a := v']> (vmas s) |>) L (<[a := (area_of v', vm_next v')]> O) R.
Proof.
  intros [Hs Ho Hap HR] Ex E Hl. assert (∀ b, b ∈ L.*1 → a ≠ b) as Hne by (intros b Hb <-; rewrite Hap in Ex; done). split.
  - apply (space_ext s); [|done|done|exact Hs]. intros b Hb. rewrite vmas_upd, lookup_insert_ne by auto. done.
  - intros b y [[<- <-]|[Hna Hy]]%lookup_insert_Some; rewrite vmas_upd; [rewrite lookup_insert_eq; split; [by eapply Ho|done]|]. rewrite lookup_insert_ne by done. by apply Ho.
  - intros b Hb. rewrite lookup_insert_ne by auto. by apply Hap.
  - apply (rings_same s); [done|by apply same_insert with v|done].
Qed.

(** An area of the map is changed in its place. *)
Lemma world_edit s L1 a x L2 O R v v' :
  world s (L1 ++ (a, x) :: L2) O R → vmas s !! a = Some v → link v' = link v → tree_links v' = tree_links v → vm_next v' = vm_next v →
  areas_ok 0 (L1 ++ (a, area_of v') :: L2).*2 → world (s <| vmas := <[a := v']> (vmas s) |>) (L1 ++ (a, area_of v') :: L2) O R.
Proof.
  intros [Hs Ho Hap HR] E Hl Ht Hn Hok. pose proof (space_nodup _ _ Hs) as Hnd. rewrite fmap_app, fmap_cons in Hnd. cbn [fst] in Hnd.
  assert ((L1 ++ (a, area_of v') :: L2).*1 = (L1 ++ (a, x) :: L2).*1) as HL by (by rewrite !fmap_app, !fmap_cons). split.
  - destruct Hs as [(T & Hz & HT & Hf) Hc Hh _]. split; rewrite ?HL; [|..|done].
    + exists T. split_and!; try done. apply (zip_same s); [done|by apply same_insert with v|done].
    + eapply list_chain_ext; [|exact Hc]. intros b _. by apply (same_insert vm_next s a v v').
    + unfold holds in *. rewrite Forall_app, Forall_cons in *. destruct Hh as (H1 & _ & H2). apply NoDup_app in Hnd as (_ & Hd & [Hd2 _]%NoDup_cons).
      split_and!; [|cbn; by rewrite lookup_insert_eq|]; (eapply holds_ext; [|eassumption]); intros b Hb; rewrite vmas_upd, lookup_insert_ne; try done; intros ->; [by apply (Hd b Hb), list_elem_of_here|done].
  - intros b y Hy. rewrite vmas_upd, lookup_insert_ne; [by apply Ho|]. intros ->. rewrite (Hap b) in Hy; [done|]. rewrite fmap_app, fmap_cons. set_solver.
  - intros b. rewrite HL. apply Hap.
  - apply (rings_same s); [done|by apply same_insert with v|done].
Qed.

(** ** Lemmas: removal *)

Lemma avl_tree_same s s' T :
  avl_tree s T → same tree_links s s' → same area_of s s' → mmap_avl (mm s') = mmap_avl (mm s) → avl_tree s' T.
Proof.
  intros [Hz Ha Hs Hh] St Sa Hm. split; [by apply (zip_same s)|done| |done].
  assert (∀ a, endof (vmas s') a = endof (vmas s) a) as He.
  { intros a. specialize (Sa a). unfold endof. destruct (vmas s' !! a), (vmas s !! a); try done. apply (inj Some), (f_equal a_end) in Sa. exact Sa. }
  revert Hs. generalize (flat T). induction 1 as [|a l Hl IH Hf]; constructor; [done|]. eapply Forall_impl; [exact Hf|]. unfold by_end. intros b. by rewrite !He.
Qed.

Lemma areas_without l1 x l2 : ∀ lo, areas_ok lo (l1 ++ x :: l2) → areas_ok lo (l1 ++ l2).
Proof.
  induction l1 as [|y l1 IH]; intros lo; cbn [app areas_ok].
  - intros (Hx & _ & _ & Hl). eapply areas_mono; [|exact Hl]. lia.
  - intros (Hy & H1 & H2 & Hl). split_and!; try done; [lia..|]. by apply IH.
Qed.

Lemma chain_next V p l1 a l2 v : chain V p (l1 ++ a :: l2) → V !! a = Some v → vm_next v = head0 l2.
Proof.
  intros [_ (_ & _ & v' & E' & Hc)]%chain_app E. rewrite E in E'. injection E' as <-. by apply chain_head in Hc.
Qed.

(** The area leaves the list, then the tree. *)
Lemma detach_step s L1 a x L2 O R free :
  world s (L1 ++ (a, x) :: L2) O R →
  ∃ s', (wr_next (place_after L1.*1) (head0 L2.*1) ;; st_vma a (λ v, v <| vm_next := free |>) ;; avl_remove a) s = Ret tt s' ∧
    world s' (L1 ++ L2) (<[a := (x, free)]> O) R ∧ rest s' = rest s.
Proof.
  intros [Hs Ho Hap HR]. pose proof (space_nodup _ _ Hs) as Hnd. destruct (space_lookup s _ a x Hs) as (v & E & Hx & Ha0); [set_solver|].
  destruct (space_avl _ _ Hs) as (T & HT & Hf). pose proof (sp_chain _ _ Hs) as Hc. rewrite !fmap_app, fmap_cons in *. cbn [fst] in *.
  apply chain_app in Hc as [Hseg Hc]. cbn [chain] in Hc. destruct Hc as (_ & _ & v' & E' & Hc). assert (v' = v) as -> by congruence.
  apply NoDup_app in Hnd as (Hnd1 & Hdis & [Hd2 Hnd2]%NoDup_cons). assert (a ∉ L1.*1) as Ha1 by (intros Hin; by apply (Hdis a Hin), list_elem_of_here).
  destruct (wr_next_run s L1.*1 _ (head0 L2.*1) Hseg Hnd1) as (Ew & _ & Hseg'). destruct (tail_set_same s L1.*1 (head0 L2.*1)) as (Sa & Sl & St & Hi & Hr & Hm & Hk).
  set (s1 := tail_set s L1.*1 (head0 L2.*1)) in *. assert (vmas s1 !! a = Some v) as E1 by (by rewrite Hk). set (s2 := s1 <| vmas := <[a := v <| vm_next := free |>]> (vmas s1) |>).
  assert (same area_of s s2) as Sa2 by (eapply same_trans; [exact Sa|by apply same_insert with v]). assert (same tree_links s s2) as St2 by (eapply same_trans; [exact St|by apply same_insert with v]).
  assert (same link s s2) as Sl2 by (eapply same_trans; [exact Sl|by apply same_insert with v]).
  destruct (avl_remove_spec s2 T a L1.*1 L2.*1) as (s3 & T' & Er & Ht & Hz & Ha & Hf'); [by apply (avl_tree_same s)|done|].
  destruct (tree_only_same _ _ Ht) as (Sa3 & Sn3 & Sl3). destruct (tree_only_rest _ _ Ht) as (Hr3 & Hi3 & Hm3).
  exists s3. split_and!; [unfold mbind, M_bind; by rewrite Ew, (st_vma_run _ _ _ _ E1)| |by rewrite Hr3].
  pose proof (same_trans _ _ _ _ Sa2 Sa3) as Sa'. pose proof (same_trans _ _ _ _ Sl2 Sl3) as Sl'.
  assert (chain (vmas s2) (mmap (mm s2)) (L1.*1 ++ L2.*1)) as Hc2.
  { apply chain_app. split; [eapply seg_ext; [|exact Hseg']|eapply list_chain_ext; [|rewrite <-(chain_head _ _ _ Hc); exact Hc]]; intros b Hb; unfold s2; rewrite vmas_upd, lookup_insert_ne; try (intros ->; done); [done|].
    rewrite Hk; [done|]. intros Hb'. apply (Hdis b Hb'). set_solver. }
  pose proof (sp_ok _ _ Hs) as Hok. pose proof (sp_holds _ _ Hs) as Hh. unfold holds in Hh. rewrite Forall_app, Forall_cons in Hh. destruct Hh as (Hh1 & _ & Hh2). split.
  - split; rewrite ?fmap_app; [by exists T'|rewrite Hm3; eapply list_chain_ext; [|exact Hc2]; intros b _; apply Sn3| |].
    + apply Forall_app. split; (eapply holds_ext; [|eassumption]); intros b _; apply Sa'.
    + rewrite fmap_app, fmap_cons in Hok. cbn [snd] in Hok. by eapply areas_without.
  - intros b y [[<- <-]|[Hne Hy]]%lookup_insert_Some.
    + split; [done|]. specialize (Sa3 a). specialize (Sn3 a). unfold s2 in Sa3, Sn3. rewrite vmas_upd, lookup_insert_eq in Sa3, Sn3. destruct (vmas s3 !! a) as [w|]; [|done]. apply (inj Some) in Sa3, Sn3.
      cbn [fmap option_fmap option_map]. rewrite Sa3, Sn3. by subst x.
    + destruct (Ho b y Hy) as [Hb0 Hv]. split; [done|]. rewrite <-Hv. specialize (Sa3 b). specialize (Sn3 b). unfold s2 in Sa3, Sn3. rewrite vmas_upd, lookup_insert_ne in Sa3, Sn3 by done.
      rewrite Hk in Sa3, Sn3 by (intros Hin; rewrite Hap in Hy; [done|set_solver]). destruct (vmas s3 !! b), (vmas s !! b); try done. cbn in *. congruence.
  - intros b Hb. rewrite fmap_app in Hb. rewrite lookup_insert_ne; [apply Hap; set_solver|]. intros <-. apply elem_of_app in Hb as [?|?]; done.
  - apply (rings_same s); [done|done|by rewrite Hi3].
Qed.
