(* ===== verification/MmapUnmap.v ===== *)
(** * MmapUnmap: unmapping

    [do_munmap] cuts the range out of every area.  If [kmalloc] fails, parts of the
    areas at the ends of the range are lost, but the rest of the map is right. *)

From stdpp Require Import gmap sorting.
From S2P Require Import Prelude Vmalloc Avl AvlFacts AvlOps Mmap MmapFacts MmapSteps.

(** ** Specification *)

(** What is left of an area without the addresses from [lo] to [hi]. *)
Definition cut_left (lo : Z) (x : area) : area := x <| a_end := Z.min lo (a_end x) |>.
Definition cut_right (hi : Z) (x : area) : area :=
  x <| a_offset := if hi <=? a_start x then a_offset x else u32 (a_offset x + (hi - a_start x)) |> <| a_start := Z.max hi (a_start x) |>.
Definition cut (lo hi : Z) (x : area) : list area :=
  (if a_start x <? lo then [cut_left lo x] else []) ++ (if hi <? a_end x then [cut_right hi x] else []).

Definition pages (x : area) : Z := Z.shiftr (a_end x - a_start x) PAGE_SHIFT.
Definition npages (l : list area) : Z := sumZ pages l.
Definition nlocked (l : list area) : Z := sumZ (λ x, if has (a_flags x) VM_LOCKED then pages x else 0) l.

(** The process's counters of pages are right. *)
Definition tally (s : vms) (l : list area) : Prop := total_vm (mm s) = npages l ∧ locked_vm (mm s) = nlocked l.

Definition inode_in (i : Z) (L : list (Z * area)) : list Z := (filter (λ q, a_inode q.2 = i ∧ i ≠ 0) L).*1.

(** Every area that maps an inode is in its ring. *)
Definition cover (L : list (Z * area)) (R : Z → list Z) : Prop := ∀ i, inode_in i L ⊆ R i.

(** The references to inodes: those of areas, [K] others, and those given back. *)
Definition iputs (i : Z) (cs : list vmcall) : Z := sumZ (λ c, match c with Iput j => if j =? i then 1 else 0 | _ => 0 end) cs.
#[global] Arguments iputs : simpl never.

Definition refs (s : vms) (R : Z → list Z) (K : Z → Z) : Prop :=
  ∀ i n, i ≠ 0 → i_count <$> inodes s !! i = Some n → n = K i + Z.of_nat (length (R i)) + iputs i (calls s).

(** Pages taken out of the page tables. *)
Definition zapped (cs : list vmcall) (p : Z) : Prop := ∃ st len, ZapPageRange st len ∈ cs ∧ st ≤ p < st + len.

(** Calls of the operations of areas. *)
Definition op_call (c : vmcall) : bool := match c with VmOpen _ _ | VmClose _ _ | VmUnmap _ _ _ _ => true | _ => false end.
Definition op_calls (cs : list vmcall) : Prop := Forall (λ c, op_call c = true) cs.

(** Only calls were made. *)
Definition called (s s' : vms) (cs : list vmcall) : Prop :=
  (mm s') <| mmap := 0 |> <| mmap_avl := 0 |> = (mm s) <| mmap := 0 |> <| mmap_avl := 0 |> ∧ i_count <$> inodes s' = i_count <$> inodes s ∧ calls s' = calls s ++ cs.

(** ** Lemmas: calls *)

Lemma called_refl s : called s s [].
Proof. unfold called. by rewrite app_nil_r. Qed.

Lemma called_rest s s' : rest s' = rest s → called s s' [].
Proof. unfold called, rest. rewrite app_nil_r. by intros [[H1 H2]%pair_equal_spec H3]%pair_equal_spec. Qed.

Lemma called_trans s1 s2 s3 c1 c2 : called s1 s2 c1 → called s2 s3 c2 → called s1 s3 (c1 ++ c2).
Proof. intros (A1 & B1 & C1) (A2 & B2 & C2). split_and!; [by etrans|by etrans|]. by rewrite C2, C1, app_assoc. Qed.

Lemma called_inode s s' cs i : called s s' cs → is_Some (inodes s !! i) → is_Some (inodes s' !! i).
Proof. intros (_ & Hi & _) [y Hy]. apply (f_equal (lookup i)) in Hi. rewrite !lookup_fmap, Hy in Hi. by destruct (inodes s' !! i). Qed.

Lemma op_calls_nil : op_calls [].
Proof. by apply Forall_nil. Qed.

Lemma op_calls_app c1 c2 : op_calls c1 → op_calls c2 → op_calls (c1 ++ c2).
Proof. intros. by apply Forall_app. Qed.

(** Nothing was called. *)
Ltac no_calls := first [done | apply called_refl | by rewrite app_nil_r | apply op_calls_nil | by eexists | by left].

Lemma world_log s L O R cs : world s L O R → world (s <| calls := cs |>) L O R.
Proof. intros Hw. by apply (world_env s). Qed.

(** ** Lemmas: pieces *)

Lemma areas_within l : ∀ lo hi l2, areas_ok lo l → Forall (λ y, a_end y ≤ hi) l → lo ≤ hi → areas_ok hi l2 → areas_ok lo (l ++ l2).
Proof.
  induction l as [|y l IH]; intros lo hi l2; cbn [app areas_ok]; [intros _ _ Hle Hok; by eapply areas_mono|].
  intros (Hy & H1 & H2 & Hl) [Hyh Hf]%Forall_cons Hle Hok. split_and!; try done; [lia..|]. by apply (IH _ hi).
Qed.

(** Parts of an area in its place. *)
Lemma areas_replace l1 x l2 ys : ∀ lo,
  areas_ok lo (l1 ++ x :: l2) → areas_ok (a_start x) ys → Forall (λ y, a_end y ≤ a_end x) ys → areas_ok lo (l1 ++ ys ++ l2).
Proof.
  induction l1 as [|y l1 IH]; intros lo; cbn [app areas_ok].
  - intros (Hx & _ & _ & Hl) Hy Hf. apply (areas_within _ _ (a_end x)); try done; [by eapply areas_mono; [|exact Hy]; lia|lia].
  - intros (Hy & H1 & H2 & Hl) Hys Hf. split_and!; try done; [lia..|]. by apply IH.
Qed.

Lemma areas_one l1 x l2 : areas_ok 0 (l1 ++ x :: l2) → areas_ok 0 [x].
Proof.
  intros Hok. pose proof (areas_below _ _ Hok) as Hb. rewrite Forall_app, Forall_cons in Hb. destruct Hb as (_ & Hb & _).
  apply areas_app in Hok as [_ (_ & H1 & H2 & _)]. cbn. split_and!; try done; lia.
Qed.

Lemma cut_areas_ok lo hi x : (PAGE_SIZE | lo) → (PAGE_SIZE | hi) → lo < hi → areas_ok 0 [x] → areas_ok (a_start x) (cut lo hi x) ∧ Forall (λ y, a_end y ≤ a_end x) (cut lo hi x).
Proof.
  intros Hlo Hhi Hlt (Hx & H1 & H2 & Ht). cbn in Ht. unfold cut, cut_left, cut_right.
  destruct (Z.ltb_spec (a_start x) lo), (Z.ltb_spec hi (a_end x)); cbn; rewrite ?Forall_cons, ?Forall_nil; cbn; split_and!; try lia; try done;
    (apply Z.min_case || apply Z.max_case); done.
Qed.

Lemma cut_sub lo hi x ys : (PAGE_SIZE | lo) → (PAGE_SIZE | hi) → lo < hi → areas_ok 0 [x] → ys `sublist_of` cut lo hi x →
  areas_ok (a_start x) ys ∧ Forall (λ y, a_end y ≤ a_end x) ys.
Proof.
  intros Hlo Hhi Hlt Hx Hs. destruct (cut_areas_ok lo hi x Hlo Hhi Hlt Hx) as [H1 H2]. split; [|rewrite Forall_forall in *; intros y Hy; apply H2; by eapply elem_of_sublist].
  clear H2. revert H1. generalize (a_start x). induction Hs as [|y l1 l2 Hs IH|y l1 l2 Hs IH]; intros z; cbn [areas_ok]; [done|naive_solver|].
  intros (Hy & _ & _ & Hl). apply IH. eapply areas_mono; [|exact Hl]. lia.
Qed.

(** ** Lemmas: references *)

Lemma iputs_app i c1 c2 : iputs i (c1 ++ c2) = iputs i c1 + iputs i c2.
Proof. apply sumZ_app. Qed.

Lemma iputs_op i cs : op_calls cs → iputs i cs = 0.
Proof. induction 1 as [|c cs Hc _ IH]; [done|]. unfold iputs in *. rewrite sumZ_cons, IH. by destruct c. Qed.

Lemma refs_called s s' R K cs : refs s R K → called s s' cs → op_calls cs → refs s' R K.
Proof.
  intros Hr (_ & Hc & Hcs) Ho i n Hi Hn. rewrite <-lookup_fmap, Hc, lookup_fmap in Hn. rewrite (Hr i n Hi Hn), Hcs, iputs_app, (iputs_op i cs Ho). lia.
Qed.

Lemma refs_ring s R R' K L : refs s R (λ i, K i + Z.of_nat (length (inode_in i L))) → (∀ i, Permutation (R' i) (inode_in i L ++ R i)) → refs s R' K.
Proof. intros Hr Hp i n Hi Hn. rewrite (Hr i n Hi Hn), (Hp i), length_app. lia. Qed.

Lemma inode_one i n x : inode_in i [(n, x)] = if decide (a_inode x = i ∧ i ≠ 0) then [n] else [].
Proof. unfold inode_in. rewrite filter_cons. cbn. by case_decide. Qed.

Lemma inode_app i L1 L2 : inode_in i (L1 ++ L2) = inode_in i L1 ++ inode_in i L2.
Proof. unfold inode_in. by rewrite filter_app, fmap_app. Qed.

Lemma ring_ins_perm R n x i : Permutation (ring_ins R (a_inode x) n i) (inode_in i [(n, x)] ++ R i).
Proof.
  rewrite inode_one. unfold ring_ins. destruct (decide (a_inode x = 0)) as [H0|H0]; [rewrite decide_False by (intros [??]; congruence); done|].
  unfold ring_set. destruct (decide (i = a_inode x)) as [->|Hne]; [rewrite decide_True by done|rewrite decide_False by (intros [??]; congruence); done].
  destruct (R (a_inode x)) as [|h t]; [done|]. cbn. constructor.
Qed.

Lemma inode_length i L : ∀ j, Forall (λ q, a_inode q.2 = j) L → length (inode_in i L) = if decide (j = i ∧ i ≠ 0) then length L else 0%nat.
Proof.
  intros j Hf. unfold inode_in. rewrite length_fmap. induction Hf as [|q L Hq _ IH]; [by case_decide|]. rewrite filter_cons. cbn [length]. subst j.
  destruct (decide (a_inode q.2 = i ∧ i ≠ 0)); cbn [length]; by rewrite IH.
Qed.

Lemma op_calls_zap cs p : op_calls cs → ¬ zapped cs p.
Proof. intros Ho (st & len & Hin & _). unfold op_calls in Ho. rewrite Forall_forall in Ho. by specialize (Ho _ Hin). Qed.

Lemma count_up s L O R i :
  world s L O R → (i ≠ 0 → is_Some (inodes s !! i)) →
  ∃ s', when (negb (i =? 0)) (st_inode i (λ i, i <| i_count := i_count i + 1 |>)) s = Ret tt s' ∧ world s' L O R ∧
    vmas s' = vmas s ∧ mm s' = mm s ∧ calls s' = calls s ∧ (∀ j, is_Some (inodes s !! j) → is_Some (inodes s' !! j)) ∧
    (∀ K, refs s R K → refs s' R (λ j, K j + if decide (i = j ∧ j ≠ 0) then 1 else 0)).
Proof.
  intros Hw Hi. destruct (Z.eqb_spec i 0) as [->|Hne]; cbn [negb when].
  - exists s. split_and!; try done. intros K Hr j n Hj Hn. rewrite (Hr j n Hj Hn), decide_False by (intros [??]; congruence). lia.
  - destruct (Hi Hne) as [x Ex]. rewrite (st_inode_run _ _ _ _ Ex). eexists. split; [done|]. split_and!; try done.
    + apply (world_env s); try done. cbn. rewrite fmap_insert, insert_id; [done|]. by rewrite lookup_fmap, Ex.
    + intros j Hj. cbn. rewrite lookup_insert_is_Some. destruct (decide (i = j)); [by left|by right].
    + intros K Hr j n Hj Hn. cbn in Hn. destruct (decide (i = j)) as [<-|Hij].
      * rewrite lookup_insert_eq in Hn. cbn in Hn. injection Hn as <-. rewrite decide_True by done. rewrite (Hr i (i_count x) Hj) by (by rewrite Ex). cbn. lia.
      * rewrite lookup_insert_ne in Hn by done. rewrite (Hr j n Hj Hn), decide_False by naive_solver. cbn. lia.
Qed.

(** The counters without [len] bytes of [x]. *)
Definition counted (s : vms) (x : area) (len : Z) : vms :=
  s <| mm := (mm s) <| total_vm := u32 (total_vm (mm s) - Z.shiftr len PAGE_SHIFT) |>
    <| locked_vm := if has (a_flags x) VM_LOCKED then u32 (locked_vm (mm s) - Z.shiftr len PAGE_SHIFT) else locked_vm (mm s) |> |>.

(** ** Lemmas: one area *)

Section unmap.

Context (kmalloc : vms → Z) (ops : Z → vm_operations_struct).

Lemma call_run s a v f c :
  vmas s !! a = Some v → (∀ v, op_call (c v) = true) →
  ∃ s' cs, (v ← ld_vma a; when (has_op ops f v) (log (c v))) s = Ret tt s' ∧ called s s' cs ∧ op_calls cs ∧ s' = s <| calls := calls s ++ cs |>.
Proof.
  intros E Hc. unfold mbind, M_bind. rewrite (ld_vma_run _ _ _ E). unfold when. destruct (has_op ops f v).
  - eexists _, [c v]. split_and!; [done|done|by constructor|done].
  - eexists s, []. split_and!; [done|apply called_refl|constructor|]. rewrite app_nil_r. by destruct s.
Qed.

Context (kmalloc_fresh : ∀ s, kmalloc s ≠ 0 → vmas s !! kmalloc s = None).

(** [kmalloc] does not fail. *)
Definition mem_ok : Prop := ∀ s, kmalloc s ≠ 0.
Definition no_mem : Prop := ∀ s, kmalloc s = 0.

(** An area outside of the map is changed and then closed. *)
Lemma close_edited s L O R a v x f (b : bool) :
  world s L O R → O !! a = Some x → vmas s !! a = Some v → (∀ v, link (f v) = link v) →
  ∃ s' O' cs, (when b (st_vma a f ;; call_close ops a)) s = Ret tt s' ∧ world s' L O' R ∧ called s s' cs ∧ op_calls cs ∧
    is_Some (O' !! a) ∧ (∀ b, b ≠ a → O' !! b = O !! b) ∧ inodes s' = inodes s ∧ link <$> vmas s' !! a = Some (link v).
Proof.
  intros Hw Ex E Hl. destruct b; cbn [when]; [|exists s, O, []; split_and!; first [no_calls|by rewrite E]].
  pose proof (world_edit_other s L O R a v (f v) x Hw Ex E (Hl v)) as Hw1. unfold mbind, M_bind. rewrite (st_vma_run _ _ _ _ E). set (s1 := s <| vmas := _ |>) in *.
  destruct (call_run s1 a (f v) op_close (VmClose a)) as (s2 & c2 & E2 & Hc2 & Ho2 & Hs2); [by apply lookup_insert_eq|done|].
  exists s2, (<[a := (area_of (f v), vm_next (f v))]> O), c2. split_and!; try done.
  - rewrite Hs2. by apply world_log.
  - by rewrite lookup_insert_eq.
  - intros b Hb. by rewrite lookup_insert_ne.
  - by rewrite Hs2.
  - rewrite Hs2. change (link <$> vmas s1 !! a = Some (link v)). unfold s1. rewrite vmas_upd, lookup_insert_eq. cbn. by rewrite Hl.
Qed.

(** A copy of [a] takes its place in the map. *)
Lemma fixup_copy_spec s L1 L2 O R a x nx :
  world s (L1 ++ L2) O R → O !! a = Some (x, nx) → (∀ i, a ∉ R i) → (a_inode x ≠ 0 → is_Some (inodes s !! a_inode x)) →
  areas_ok 0 (L1.*2 ++ x :: L2.*2) →
  ∃ s' P O' R' cs, fixup_copy kmalloc ops a s = Ret tt s' ∧ world s' (L1 ++ P ++ L2) O' R' ∧ called s s' cs ∧ op_calls cs ∧
    ((kmalloc s = 0 ∧ P = [] ∧ R' = R) ∨ (kmalloc s ≠ 0 ∧ ∃ n, P = [(n, x)] ∧ R' = ring_ins R (a_inode x) n)) ∧
    is_Some (O' !! a) ∧ (∀ b, b ≠ a → O' !! b = O !! b).
Proof.
  intros Hw Ea Ha Hino Hok. unfold fixup_copy, mbind, M_bind, gets. destruct (Z.eqb_spec (kmalloc s) 0) as [Hk|Hk].
  - exists s, [], O, R, []. split_and!; no_calls.
  - pose proof (kmalloc_fresh s Hk) as Hf. set (n := kmalloc s) in *. destruct (w_others _ _ _ _ Hw a _ Ea) as [Ha0 Hv]. destruct (vmas s !! a) as [v|] eqn:E; [|done]. injection Hv as Hx Hnx.
    rewrite (ld_vma_run _ _ _ E). destruct (world_put s _ O R n v Hw Hf Hk) as [Hw1 HnR]. rewrite Hx, Hnx in Hw1. unfold put_vma, modify.
    set (s1 := s <| vmas := <[n := v]> (vmas s) |>) in *. assert (n ≠ a) as Hna by (intros ->; congruence).
    destruct (call_run s1 n v op_open (VmOpen n)) as (s2 & c2 & E2 & Hc2 & Ho2 & Hs2); [by apply lookup_insert_eq|done|].
    change (call_open ops n s1 = Ret tt s2) in E2. rewrite E2. assert (world s2 (L1 ++ L2) (<[n := (x, nx)]> O) R) as Hw2 by (rewrite Hs2; by apply world_log).
    assert (vmas s2 !! a = Some v) as Ev2 by (rewrite Hs2; cbn; by rewrite lookup_insert_ne).
    destruct (close_edited s2 _ _ R a v (x, nx) (λ v, v <| vm_end := vm_start v |>) (has_op ops op_close v) Hw2) as (s3 & O3 & c3 & E3 & Hw3 & Hc3 & Ho3 & Ha3 & Hb3 & Hi3 & _); [by rewrite lookup_insert_ne|done|done|].
    unfold mbind, M_bind in E3. rewrite E3. destruct (insert_vm_struct_spec s3 L1 L2 O3 R n x nx Hw3) as (s4 & E4 & Hw4 & Hr4); [by rewrite Hb3, lookup_insert_eq|done|by rewrite Hi3, Hs2|by rewrite fmap_app, fmap_cons|].
    rewrite E4. exists s4, [(n, x)], (delete n O3), (ring_ins R (a_inode x) n), (c2 ++ c3 ++ []). split_and!; try done.
    + eapply called_trans; [exact Hc2|]. eapply called_trans; [exact Hc3|by apply called_rest].
    + rewrite app_nil_r. by apply op_calls_app.
    + right. split; [done|]. by exists n.
    + by rewrite lookup_delete_ne.
    + intros b Hb. destruct (decide (n = b)) as [<-|Hnb]; [|by rewrite lookup_delete_ne, Hb3, lookup_insert_ne]. rewrite lookup_delete_eq.
      destruct (O !! n) as [y|] eqn:Ey; [|done]. destruct (w_others _ _ _ _ Hw n y Ey) as [_ Hy]. by rewrite Hf in Hy.
Qed.

(** Instead of the area [x] there are areas [P], all of [ys] if memory suffices; if
    there is none there are no areas, and the reference to the inode is given back
    only where the whole of [x] was to go. *)
Record cut_parts (s s' : vms) (R R' : Z → list Z) (x : area) (ys : list area) (P : list (Z * area)) : Prop := {
  cp_sub : P.*2 `sublist_of` ys;
  cp_all : mem_ok → P.*2 = ys;
  cp_rings : ∀ i, Permutation (R' i) (inode_in i P ++ R i);
  cp_mm : (mm s') <| mmap := 0 |> <| mmap_avl := 0 |> = (mm s) <| mmap := 0 |> <| mmap_avl := 0 |>;
  cp_refs : mem_ok → ∀ K, refs s R (λ i, K i + if decide (a_inode x = i ∧ i ≠ 0) then 1 else 0) → refs s' R' K;
  cp_calls : ∃ cs, calls s' = calls s ++ cs ∧ ∀ p, ¬ zapped cs p;
  cp_inodes : ∀ i, is_Some (inodes s !! i) → is_Some (inodes s' !! i);
  cp_lost : no_mem → P = [] ∧ ∀ K, refs s R (λ i, K i + if decide (ys = [] ∧ a_inode x = i ∧ i ≠ 0) then 1 else 0) → refs s' R' K;
}.

(** The whole area goes. *)
Lemma fixup_whole s L O R a v x :
  world s L O R → vmas s !! a = Some v → area_of v = x →
  ∃ s', (call_close ops a ;; when (negb (vm_inode v =? 0)) (log (Iput (vm_inode v)))) s = Ret tt s' ∧ world s' L O R ∧ cut_parts s s' R R x [] [].
Proof.
  intros Hw E Hx. destruct (call_run s a v op_close (VmClose a) E) as (s1 & c1 & E1 & (_ & _ & Hc1) & Ho1 & Hs1); [done|]. change (call_close ops a s = Ret tt s1) in E1.
  set (c2 := if vm_inode v =? 0 then [] else [Iput (vm_inode v)]). exists (s <| calls := calls s ++ c1 ++ c2 |>). split_and!; [|by apply world_log|].
  - unfold mbind, M_bind. rewrite E1, Hs1. unfold c2. destruct (vm_inode v =? 0); cbn; [by rewrite app_nil_r|]. unfold log, modify. cbn. by rewrite <-app_assoc.
  - assert (∀ K, refs s R (λ i, K i + if decide (a_inode x = i ∧ i ≠ 0) then 1 else 0) → refs (s <| calls := calls s ++ c1 ++ c2 |>) R K) as Hrefs.
    { intros K Hr i n Hi Hn. rewrite (Hr i n Hi Hn). cbn [calls upd]. rewrite !iputs_app, (iputs_op i c1 Ho1). replace (a_inode x) with (vm_inode v) by (by subst x).
      unfold c2, iputs. destruct (Z.eqb_spec (vm_inode v) 0); [rewrite decide_False by (intros [??]; congruence); cbn; lia|].
      cbn. case_decide as Hd; [destruct Hd as [<- _]; rewrite Z.eqb_refl; lia|]. rewrite (proj2 (Z.eqb_neq _ _)) by (intros ?; by apply Hd). lia. }
    split; try done.
    + exists (c1 ++ c2). split; [done|]. intros p (st & len & Hin & Hp). apply elem_of_app in Hin as [Hin|Hin]; [apply (op_calls_zap c1 p Ho1); by exists st, len|].
      unfold c2 in Hin. destruct (vm_inode v =? 0); set_solver.
    + intros _. split; [done|]. intros K Hr. apply Hrefs. intros i n Hi Hn. rewrite (Hr i n Hi Hn). by repeat case_decide; try naive_solver.
Qed.

(** From a copy to the part of the map that it is. *)
Lemma copy_parts s s' R R' x y P cs n0 :
  called s s' cs → op_calls cs → a_inode y = a_inode x → n0 = kmalloc s →
  ((n0 = 0 ∧ P = [] ∧ R' = R) ∨ (n0 ≠ 0 ∧ ∃ n, P = [(n, y)] ∧ R' = ring_ins R (a_inode y) n)) → cut_parts s s' R R' x [y] P.
Proof.
  intros Hc Ho Hy -> Hcase. pose proof Hc as (Hmm & _ & Hcs). split; [..|done| |by exists cs; split; [|intros p; apply op_calls_zap]|intros i; by apply (called_inode s s' cs)|]; destruct Hcase as [(H0 & -> & ->)|(Hne & n & -> & ->)]; try done.
  - cbn. apply sublist_nil_l.
  - intros Hm. by destruct (Hm s).
  - intros i. apply ring_ins_perm.
  - intros Hm. by destruct (Hm s).
  - intros _ K Hr. apply (refs_called s _ _ K cs); [|done|done]. apply (refs_ring s R _ K [(n, y)]); [|apply ring_ins_perm].
    intros i m Hi Hm. rewrite (Hr i m Hi Hm), inode_one, Hy. by case_decide.
  - intros _. split; [done|]. intros K Hr. apply (refs_called s _ _ K cs); [|done|done]. intros i m Hi Hm. rewrite (Hr i m Hi Hm), decide_False by naive_solver. lia.
  - intros Hno. by destruct (Hne (Hno s)).
Qed.

Lemma fixup_end s L1 L2 O R a v x nx f y :
  world s (L1 ++ L2) O R → O !! a = Some (x, nx) → vmas s !! a = Some v → (∀ i, a ∉ R i) → (a_inode x ≠ 0 → is_Some (inodes s !! a_inode x)) →
  link (f v) = link v → area_of (f v) = y → a_inode y = a_inode x → areas_ok 0 (L1.*2 ++ y :: L2.*2) →
  ∃ s' P O' R', (st_vma a f ;; fixup_copy kmalloc ops a) s = Ret tt s' ∧ world s' (L1 ++ P ++ L2) O' R' ∧ cut_parts s s' R R' x [y] P ∧
    is_Some (O' !! a) ∧ (∀ b, b ≠ a → O' !! b = O !! b).
Proof.
  intros Hw Ea E Ha Hino Hl Hy Hyi Hok. unfold mbind, M_bind. rewrite (st_vma_run _ _ _ _ E). pose proof (world_edit_other s _ O R a v (f v) (x, nx) Hw Ea E Hl) as Hw1. rewrite Hy in Hw1.
  destruct (fixup_copy_spec _ L1 L2 _ R a y (vm_next (f v)) Hw1) as (s' & P & O' & R' & cs & E1 & Hw' & Hc & Ho & Hcase & Ha' & Hb'); [by rewrite lookup_insert_eq|done|by rewrite Hyi|done|].
  exists s', P, O', R'. split_and!; try done; [|intros b Hb; by rewrite Hb', lookup_insert_ne].
  destruct (copy_parts _ s' R R' x y P cs _ Hc Ho Hyi eq_refl Hcase). by split.
Qed.

Lemma fixup_behind_spec s L1 L2 O R a v x nx st en n :
  world s (L1 ++ L2) O R → O !! a = Some (x, nx) → vmas s !! a = Some v → area_of v = x → (a_inode x ≠ 0 → is_Some (inodes s !! a_inode x)) →
  vmas s !! n = None → n ≠ 0 → a_start x < en → areas_ok 0 (L1.*2 ++ cut_right en x :: L2.*2) →
  ∃ s' O' cs, fixup_behind ops a st en v n s = Ret tt s' ∧ world s' (L1 ++ (n, cut_right en x) :: L2) O' (ring_ins R (a_inode x) n) ∧
    O' !! a = Some (x <| a_end := st |>, nx) ∧ (∀ b, b ≠ a → O' !! b = O !! b) ∧
    (mm s') <| mmap := 0 |> <| mmap_avl := 0 |> = (mm s) <| mmap := 0 |> <| mmap_avl := 0 |> ∧ calls s' = calls s ++ cs ∧ op_calls cs ∧
    (∀ K, refs s R K → refs s' (ring_ins R (a_inode x) n) K) ∧ (∀ j, is_Some (inodes s !! j) → is_Some (inodes s' !! j)).
Proof.
  intros Hw Ea E Hx Hino Hn Hn0 Hen Hok. set (v1 := v <| vm_offset := u32 (vm_offset v + (en - vm_start v)) |> <| vm_start := en |>).
  assert (area_of v1 = cut_right en x) as Hv1. { subst x. unfold v1, cut_right. cbn in *. rewrite (proj2 (Z.leb_gt _ _) Hen), Z.max_l by lia. done. }
  assert (n ≠ a) as Hna by (intros ->; congruence).
  destruct (world_put s _ O R n v1 Hw Hn Hn0) as [Hw1 HnR]. rewrite Hv1 in Hw1. set (s1 := s <| vmas := <[n := v1]> (vmas s) |>) in *.
  replace (a_inode x) with (vm_inode v) in * by (by subst x). destruct (count_up s1 _ _ R (vm_inode v) Hw1 Hino) as (s2 & E2 & Hw2 & Hv2 & Hm2 & Hc2 & Hi2 & Hr2).
  destruct (call_run s2 n v1 op_open (VmOpen n)) as (s3 & c3 & E3 & (Hm3 & Hi3 & Hc3) & Ho3 & Hs3); [rewrite Hv2; by apply lookup_insert_eq|done|]. change (call_open ops n s2 = Ret tt s3) in E3.
  assert (world s3 (L1 ++ L2) (<[n := (cut_right en x, vm_next v1)]> O) R) as Hw3 by (rewrite Hs3; by apply world_log).
  assert (vmas s3 !! a = Some v) as E3a. { rewrite Hs3. change (vmas s2 !! a = Some v). rewrite Hv2. unfold s1. by rewrite vmas_upd, lookup_insert_ne. }
  assert (nx = vm_next v) as ->. { destruct (w_others _ _ _ _ Hw a _ Ea) as [_ Hv]. rewrite E in Hv. by injection Hv. }
  pose proof (world_edit_other s3 _ _ R a v (v <| vm_end := st |>) (x, vm_next v) Hw3 ltac:(by rewrite lookup_insert_ne) E3a eq_refl) as Hw4.
  assert (area_of (v <| vm_end := st |>) = x <| a_end := st |>) as Hxl by (by subst x). rewrite Hxl in Hw4. set (s4 := s3 <| vmas := _ |>) in *.
  destruct (insert_vm_struct_spec s4 L1 L2 _ R n (cut_right en x) (vm_next v1) Hw4) as (s5 & E5 & Hw5 & Hr5).
  { by rewrite lookup_insert_ne, lookup_insert_eq. } { done. } { subst x. cbn. intros Hi. unfold s4. rewrite Hs3. apply Hi2. by apply Hino. } { by rewrite fmap_app, fmap_cons. }
  assert (a_inode (cut_right en x) = vm_inode v) as Hci by (by subst x). rewrite Hci in Hw5. pose proof (called_rest _ _ Hr5) as Hcall5. destruct Hcall5 as (Hm5 & Hi5 & Hc5).
  exists s5, (delete n (<[a := (x <| a_end := st |>, vm_next v)]> (<[n := (cut_right en x, vm_next v1)]> O))), c3. split_and!; try done.
  - unfold fixup_behind, mbind, M_bind, put_vma, modify. fold v1. fold s1. rewrite E2, E3, (st_vma_run _ _ _ _ E3a). exact E5.
  - by rewrite lookup_delete_ne, lookup_insert_eq.
  - intros b Hb. destruct (decide (n = b)) as [<-|Hnb]; [|by rewrite lookup_delete_ne, !lookup_insert_ne]. rewrite lookup_delete_eq.
    destruct (O !! n) as [y|] eqn:Ey; [|done]. destruct (w_others _ _ _ _ Hw n y Ey) as [_ Hy]. by rewrite Hn in Hy.
  - rewrite Hm5. change (mm s4) with (mm s3). by rewrite Hm3, Hm2.
  - rewrite Hc5, app_nil_r. change (calls s4) with (calls s3). by rewrite Hc3, Hc2.
  - intros K Hr. apply (refs_ring s5 R _ K [(n, cut_right en x)]); [|intros i; rewrite <-Hci; apply ring_ins_perm].
    apply (refs_called s4 s5 R _ []); [|done|apply op_calls_nil]. change (refs s3 R (λ i, K i + Z.of_nat (length (inode_in i [(n, cut_right en x)])))).
    apply (refs_called s2 s3 R _ c3); [|done|done]. intros i m Hi Hm. rewrite (Hr2 K Hr i m Hi Hm), inode_one, Hci. by case_decide.
  - intros j Hj. apply Hi2 in Hj. apply (f_equal (lookup j)) in Hi5. rewrite !lookup_fmap in Hi5. change (inodes s4) with (inodes s3) in Hi5. rewrite Hs3 in Hi5. cbn [inodes upd] in Hi5.
    destruct Hj as [y Hy]. change (i_count <$> inodes s5 !! j = i_count <$> inodes s2 !! j) in Hi5. rewrite Hy in Hi5. by destruct (inodes s5 !! j).
Qed.

Lemma fixup_hole s L1 L2 O R a v x nx st en :
  world s (L1 ++ L2) O R → O !! a = Some (x, nx) → vmas s !! a = Some v → area_of v = x → (∀ i, a ∉ R i) → (a_inode x ≠ 0 → is_Some (inodes s !! a_inode x)) →
  a_start x < en → areas_ok 0 (L1.*2 ++ x <| a_end := st |> :: cut_right en x :: L2.*2) →
  ∃ s' P O' R', (mpnt ← gets kmalloc; if mpnt =? 0 then mret tt else fixup_behind ops a st en v mpnt ;; fixup_copy kmalloc ops a) s = Ret tt s' ∧
    world s' (L1 ++ P ++ L2) O' R' ∧ cut_parts s s' R R' x [x <| a_end := st |>; cut_right en x] P ∧ is_Some (O' !! a) ∧ (∀ b, b ≠ a → O' !! b = O !! b).
Proof.
  intros Hw Ea E Hx Ha Hino Hen Hok. unfold mbind, M_bind, gets. destruct (Z.eqb_spec (kmalloc s) 0) as [Hk|Hk].
  - exists s, [], O, R. split_and!; try done. split; try done; [apply sublist_nil_l|intros Hm; by destruct (Hm s)..| |].
    + exists []. split; [by rewrite app_nil_r|]. intros p. apply op_calls_zap, op_calls_nil.
    + intros _. split; [done|]. intros K Hr i m Hi Hm. rewrite (Hr i m Hi Hm), decide_False by naive_solver. lia.
  - pose proof (kmalloc_fresh s Hk) as Hf. set (n := kmalloc s) in *. pose proof (areas_without _ _ _ _ Hok) as Hok1.
    destruct (fixup_behind_spec s L1 L2 O R a v x nx st en n Hw Ea E Hx Hino Hf Hk Hen Hok1) as (s1 & O1 & c1 & E1 & Hw1 & Ea1 & Hb1 & Hm1 & Hc1 & Ho1 & Hr1 & Hi1). rewrite E1.
    assert (∀ i, a ∉ ring_ins R (a_inode x) n i) as Ha1.
    { intros i. assert (a_inode x = a_inode (cut_right en x)) as -> by done. rewrite ring_ins_perm, inode_one. assert (n ≠ a) by (intros ->; congruence). case_decide; set_solver. }
    destruct (fixup_copy_spec s1 L1 ((n, cut_right en x) :: L2) O1 _ a (x <| a_end := st |>) nx Hw1 Ea1 Ha1) as (s2 & P & O2 & R2 & c2 & E2 & Hw2 & Hc2 & Ho2 & Hcase & Ha2 & Hb2);
      [cbn; intros Hi; by apply Hi1, Hino|done|]. assert (cut_parts s1 s2 (ring_ins R (a_inode x) n) R2 x [x <| a_end := st |>] P) as [H1 H2 H3 H4 H5 H6 H7 _] by (by eapply copy_parts).
    exists s2, (P ++ [(n, cut_right en x)]), O2, R2. rewrite <-app_assoc. split_and!; try done; [|intros b Hb; by rewrite Hb2, Hb1]. split.
    + rewrite fmap_app. by apply (sublist_app _ [_] _ [_]).
    + intros Hm. by rewrite fmap_app, (H2 Hm).
    + intros i. rewrite (H3 i), inode_app, <-app_assoc. apply Permutation_app_head. apply (ring_ins_perm R n (cut_right en x)).
    + by rewrite H4.
    + intros Hm K Hr. by apply (H5 Hm), Hr1.
    + destruct Hc2 as (_ & _ & Hc2). exists (c1 ++ c2). rewrite Hc2, Hc1, app_assoc. split; [done|]. intros p. by apply op_calls_zap, op_calls_app.
    + intros i Hi. by apply H7, Hi1.
    + intros Hno. by destruct (Hk (Hno s)).
Qed.

Lemma unmap_fixup_spec s L1 L2 O R a x nx st en :
  world s (L1 ++ L2) O R → O !! a = Some (x, nx) → (∀ i, a ∉ R i) → (a_inode x ≠ 0 → is_Some (inodes s !! a_inode x)) →
  (PAGE_SIZE | st) → (PAGE_SIZE | en) → a_start x ≤ st < en → en ≤ a_end x → areas_ok 0 (L1.*2 ++ x :: L2.*2) →
  ∃ s' P O' R', unmap_fixup kmalloc ops a st (en - st) s = Ret tt s' ∧ world s' (L1 ++ P ++ L2) O' R' ∧
    cut_parts (counted s x (en - st)) s' R R' x (cut st en x) P ∧ is_Some (O' !! a) ∧ (∀ b, b ≠ a → O' !! b = O !! b).
Proof.
  intros Hw Ea Ha Hino Hst Hen Hlo Hhi Hok. pose proof (areas_below _ _ Hok) as Hb. rewrite Forall_app, Forall_cons in Hb. destruct Hb as (_ & Hxb & _). unfold TASK_SIZE in Hxb.
  destruct (w_others _ _ _ _ Hw a _ Ea) as [_ Hv]. destruct (vmas s !! a) as [v|] eqn:E; [|done]. injection Hv as Hx Hnx.
  unfold unmap_fixup, mbind, M_bind. rewrite (ld_vma_run _ _ _ E). replace (st + (en - st)) with en by lia. rewrite (u32_id en) by lia.
  assert (vm_start v = a_start x ∧ vm_end v = a_end x ∧ vm_flags v = a_flags x ∧ vm_inode v = a_inode x) as (Hs & He & Hfl & Hi) by (by subst x).
  rewrite Hs, He, Hfl. rewrite (proj2 (Z.ltb_ge st (a_start x))), (proj2 (Z.leb_gt (a_end x) st)), (proj2 (Z.leb_gt en (a_start x))), (proj2 (Z.ltb_ge (a_end x) en)), (proj2 (Z.ltb_ge en st)) by lia. cbn [orb].
  set (s1 := counted s x (en - st)). match goal with |- context [mod_mm ?f s] => assert (mod_mm f s = Ret tt (s <| mm := f (mm s) |>)) as -> by done end.
  match goal with |- context [when ?b ?m ?s0] => assert (when b m s0 = Ret tt s1) as -> by (unfold s1, counted, when; by destruct b) end.
  assert (world s1 (L1 ++ L2) O R) as Hw1 by (by apply (world_env s)). assert (vmas s1 !! a = Some v) as E1 by done.
  pose proof (areas_one _ _ _ Hok) as Hx1.
  destruct (cut_areas_ok st en x Hst Hen ltac:(lia) Hx1) as [Hc1 Hc2]. pose proof (areas_replace _ _ _ _ _ Hok Hc1 Hc2) as Hokc. unfold cut in *.
  destruct (Z.ltb_spec (a_start x) st) as [H1|H1], (Z.ltb_spec en (a_end x)) as [H2|H2].
  - rewrite (proj2 (Z.eqb_neq st (a_start x))), (proj2 (Z.eqb_neq en (a_end x))) by lia. cbn [andb app]. unfold cut_left in *. rewrite Z.min_l in * by lia.
    by apply (fixup_hole s1 L1 L2 O R a v x nx st en); try done; lia.
  - assert (en = a_end x) as -> by lia. rewrite (proj2 (Z.eqb_neq st (a_start x))), Z.eqb_refl by lia. cbn [andb app]. unfold cut_left in *. rewrite Z.min_l in * by lia.
    by apply (fixup_end s1 L1 L2 O R a v x nx); try done; subst x.
  - assert (st = a_start x) as -> by lia. rewrite Z.eqb_refl, (proj2 (Z.eqb_neq en (a_end x))) by lia. cbn [andb app].
    apply (fixup_end s1 L1 L2 O R a v x nx); try done; subst x. unfold cut_right. cbn in *. by rewrite (proj2 (Z.leb_gt _ _)), Z.max_l by lia.
  - assert (st = a_start x) as -> by lia. assert (en = a_end x) as -> by lia. rewrite !Z.eqb_refl. cbn [andb app].
    destruct (fixup_whole s1 _ O R a v x Hw1 E1 Hx) as (s' & E' & Hw' & Hp). exists s', [], O, R. split_and!; try done.
Qed.

End unmap.
