(* ===== verification/MmapMunmap.v ===== *)
(** * MmapMunmap: the call [munmap]

    The loops of [do_munmap] over all areas of the range, on top of what happens to
    one area (MmapUnmap). *)

From stdpp Require Import gmap sorting.
From S2P Require Import Prelude Vmalloc Avl AvlFacts AvlOps Mmap MmapFacts MmapSteps MmapUnmap.

(** ** Lemmas: whole pages *)

Lemma page_align_up x : 0 ≤ x ≤ TASK_SIZE → (PAGE_SIZE | PAGE_ALIGN x) ∧ x ≤ PAGE_ALIGN x < x + PAGE_SIZE.
Proof.
  intros Hx. unfold PAGE_ALIGN, PAGE_SIZE, TASK_SIZE in *. rewrite u32_id, mask_hi_div by lia. split; [apply Z.divide_factor_l|].
  pose proof (Z.div_mod (x + 2 ^ 12 - 1) (2 ^ 12) ltac:(lia)). pose proof (Z.mod_pos_bound (x + 2 ^ 12 - 1) (2 ^ 12) ltac:(lia)). lia.
Qed.

Lemma page_aligned x : mask_lo PAGE_SIZE x = 0 ↔ (PAGE_SIZE | x).
Proof. unfold PAGE_SIZE. rewrite mask_lo_mod by done. by rewrite Z.mod_divide. Qed.

(** A range of whole pages ends with a page. *)
Lemma page_range addr len : (PAGE_SIZE | addr) → 0 ≤ addr → 0 ≤ len ≤ TASK_SIZE - addr → (PAGE_SIZE | addr + PAGE_ALIGN len) ∧ addr + PAGE_ALIGN len ≤ TASK_SIZE.
Proof.
  intros [a Ha] Hlo Hlen. destruct (page_align_up len) as [[q Hq] Hb]; [unfold TASK_SIZE, PAGE_SIZE in *; lia|]. split; [exists (a + q); lia|]. unfold TASK_SIZE, PAGE_SIZE in *. lia.
Qed.

(** ** Lemmas: counting pages *)

Lemma pages_div x : pages x = (a_end x - a_start x) / PAGE_SIZE.
Proof. unfold pages, PAGE_SHIFT, PAGE_SIZE. by rewrite Z.shiftr_div_pow2. Qed.

Lemma npages_app l1 l2 : npages (l1 ++ l2) = npages l1 + npages l2.
Proof. apply sumZ_app. Qed.

Lemma nlocked_app l1 l2 : nlocked (l1 ++ l2) = nlocked l1 + nlocked l2.
Proof. apply sumZ_app. Qed.

Lemma npages_one x : npages [x] = pages x.
Proof. unfold npages. rewrite sumZ_cons. cbn. lia. Qed.

Lemma nlocked_one x : nlocked [x] = if has (a_flags x) VM_LOCKED then pages x else 0.
Proof. unfold nlocked. rewrite sumZ_cons. cbn. lia. Qed.

Lemma areas_pages l : ∀ lo, areas_ok lo l → 0 ≤ nlocked l ≤ npages l ∧ lo + PAGE_SIZE * npages l ≤ TASK_SIZE.
Proof.
  unfold npages, nlocked. induction l as [|x l IH]; intros lo; cbn [areas_ok]; [cbn; lia|]. intros (Hx & [p Hp] & [q Hq] & Hl). apply IH in Hl. rewrite !sumZ_cons.
  assert (pages x = q - p) as ->. { rewrite pages_div, Hp, Hq, <-Z.mul_sub_distr_r. by apply Z.div_mul. }
  unfold PAGE_SIZE in *. destruct (has (a_flags x) VM_LOCKED); nia.
Qed.

(** What is cut out of an area, and what is left. *)
Lemma cut_clip lo hi x : a_start x < hi → lo < a_end x → cut (Z.max lo (a_start x)) (Z.min hi (a_end x)) x = cut lo hi x.
Proof.
  intros H1 H2. unfold cut, cut_left, cut_right. f_equal.
  - destruct (Z.ltb_spec (a_start x) lo), (Z.ltb_spec (a_start x) (Z.max lo (a_start x))); try lia; [|done]. by rewrite Z.max_l by lia.
  - destruct (Z.ltb_spec hi (a_end x)), (Z.ltb_spec (Z.min hi (a_end x)) (a_end x)); try lia; [|done]. by rewrite Z.min_l by lia.
Qed.

Lemma cut_pages st en x : (PAGE_SIZE | st) → (PAGE_SIZE | en) → areas_ok 0 [x] → a_start x ≤ st < en → en ≤ a_end x →
  npages (cut st en x) = pages x - Z.shiftr (en - st) PAGE_SHIFT ∧
  nlocked (cut st en x) = if has (a_flags x) VM_LOCKED then pages x - Z.shiftr (en - st) PAGE_SHIFT else 0.
Proof.
  intros [a ->] [b ->] (Hx & [p Hp] & [q Hq] & _) Hlo Hhi. assert (∀ c d, Z.shiftr (c * PAGE_SIZE - d * PAGE_SIZE) PAGE_SHIFT = c - d) as Hsh.
  { intros c d. rewrite <-Z.mul_sub_distr_r. unfold PAGE_SHIFT. rewrite Z.shiftr_div_pow2 by done. by apply Z.div_mul. }
  unfold cut. rewrite npages_app, nlocked_app. unfold pages in *.
  destruct (Z.ltb_spec (a_start x) (a * PAGE_SIZE)), (Z.ltb_spec (b * PAGE_SIZE) (a_end x)); rewrite ?npages_one, ?nlocked_one; unfold pages, cut_left, cut_right; cbn [a_start a_end a_flags upd];
    cbn; rewrite ?Z.min_l, ?Z.max_l by lia; rewrite ?Hp, ?Hq, ?Hsh in *; unfold PAGE_SIZE in *; destruct (has (a_flags x) VM_LOCKED); split; lia.
Qed.

Lemma cut_below lo hi l : lo < hi → Forall (λ x, a_start x < a_end x ≤ lo) l → l ≫= cut lo hi = l.
Proof.
  intros Hlt. induction 1 as [|x l Hx _ IH]; [done|]. cbn. rewrite IH. unfold cut, cut_left. rewrite (proj2 (Z.ltb_lt _ _)), (proj2 (Z.ltb_ge _ _)), Z.min_r by lia. by destruct x.
Qed.

Lemma cut_above lo hi l : lo < hi → Forall (λ x, hi ≤ a_start x < a_end x) l → l ≫= cut lo hi = l.
Proof.
  intros Hlt. induction 1 as [|x l Hx _ IH]; [done|]. cbn. rewrite IH. unfold cut, cut_right. rewrite (proj2 (Z.ltb_ge _ _)), (proj2 (Z.ltb_lt _ _)), (proj2 (Z.leb_le _ _)), Z.max_r by lia. by destruct x.
Qed.

Lemma areas_drop l1 m l2 lo : areas_ok lo (l1 ++ m ++ l2) → areas_ok lo (l1 ++ l2).
Proof. induction m as [|x m IH]; [done|]. cbn [app]. intros Hok. by apply IH, areas_without with x. Qed.

Lemma areas_cut f lo hi : (PAGE_SIZE | lo) → (PAGE_SIZE | hi) → lo < hi → ∀ l1 l2 ys,
  areas_ok 0 (l1 ++ f ++ l2) → ys `sublist_of` f ≫= cut lo hi → areas_ok 0 (l1 ++ ys ++ l2).
Proof.
  intros Hlo Hhi Hlt. induction f as [|x f IH]; intros l1 l2 ys Hok Hs; [by apply sublist_nil_r in Hs as ->|]. cbn in Hs. apply sublist_app_r in Hs as (y1 & y2 & -> & Hs1 & Hs2).
  cbn [app] in Hok. destruct (cut_sub lo hi x y1 Hlo Hhi Hlt (areas_one _ _ _ Hok) Hs1) as [H1 H2]. pose proof (areas_replace _ _ _ _ _ Hok H1 H2) as Hok1.
  rewrite app_assoc in Hok1. apply (IH _ _ y2) in Hok1; [|done]. by rewrite <-!app_assoc in *.
Qed.

(** ** Lemmas: the areas of the range *)

Lemma ring_del s R a v x l1 l2 :
  rings s R → vmas s !! a = Some v → area_of v = x → (vm_inode v ≠ 0 → R (vm_inode v) = l1 ++ a :: l2) →
  let R1 := if decide (vm_inode v = 0) then R else ring_set R (vm_inode v) (l1 ++ l2) in
  (∀ i, Permutation (R i) (inode_in i [(a, x)] ++ R1 i)) ∧ ∀ i, a ∉ R1 i.
Proof.
  intros HR E Hx HRi. assert (vm_inode v = a_inode x) as Hvi by (by subst x). rewrite Hvi in *. intros R1.
  assert (∀ i, a ∈ R i → i = a_inode x) as Hin. { intros i Hi. apply (rg_member _ _ HR) in Hi as [_ Hi]. rewrite E in Hi. cbn in Hi. subst x. cbn. congruence. }
  unfold R1. destruct (decide (a_inode x = 0)) as [H0|H0].
  - split; intros i; [rewrite inode_one, decide_False by (intros [??]; congruence); done|]. intros Hi. pose proof (Hin i Hi). apply (rg_inode _ _ HR) in Hi as [Hi0 _]. congruence.
  - specialize (HRi H0). pose proof (rg_nodup _ _ HR (a_inode x)) as Hnd. rewrite HRi in Hnd. apply (perm_nodup _ (a :: l1 ++ l2)) in Hnd; [|solve_Permutation]. apply NoDup_cons in Hnd as [Hnd _].
    split; intros i; unfold ring_set; rewrite ?inode_one; destruct (decide (i = a_inode x)) as [->|Hne].
    + rewrite decide_True by done. rewrite HRi. cbn. solve_Permutation.
    + by rewrite decide_False by (intros [??]; congruence).
    + done.
    + intros Hi. by apply Hne, Hin.
Qed.

Lemma inode_cons i q L : inode_in i (q :: L) = inode_in i [q] ++ inode_in i L.
Proof. apply (inode_app i [q]). Qed.

Lemma inode_sub i L a : a ∈ inode_in i L → a ∈ L.*1.
Proof. unfold inode_in. intros (q & -> & Hq)%list_elem_of_fmap. apply list_elem_of_filter in Hq as [_ Hq]. apply list_elem_of_fmap. by exists q. Qed.

Lemma zapped_app c1 c2 p : zapped (c1 ++ c2) p ↔ zapped c1 p ∨ zapped c2 p.
Proof. unfold zapped. setoid_rewrite elem_of_app. naive_solver. Qed.

(** The list [free], through [vm_next]. *)
Fixpoint fchain (O : gmap Z (area * Z)) (p : Z) (F : list (Z * area)) : Prop :=
  match F with
  | [] => p = 0
  | (a, x) :: F' => p = a ∧ ∃ nx, O !! a = Some (x, nx) ∧ fchain O nx F'
  end.

Lemma fchain_ext O O' p F : (∀ a, a ∈ F.*1 → O' !! a = O !! a) → fchain O p F → fchain O' p F.
Proof.
  revert p. induction F as [|[a x] F IH]; intros p Hf; [done|]. intros (-> & nx & Ea & Hc). split; [done|]. exists nx. rewrite Hf by (cbn; set_solver). split; [done|].
  apply IH; [|done]. intros b Hb. apply Hf. cbn. set_solver.
Qed.

Lemma fchain_some O p F a : fchain O p F → a ∈ F.*1 → is_Some (O !! a).
Proof.
  revert p. induction F as [|[b y] F IH]; intros p; [set_solver|]. intros (-> & nx & Eb & Hch) Ha. rewrite fmap_cons in Ha. apply elem_of_cons in Ha as [->|Ha]; [by eexists|]. by apply (IH nx).
Qed.

Lemma dom_bound (V : gmap Z vma) l : NoDup l → (∀ a, a ∈ l → is_Some (V !! a)) → (length l ≤ length (map_to_list V))%nat.
Proof.
  intros Hn Hl. rewrite <-(length_fmap fst). apply submseteq_length, NoDup_submseteq; [done|]. intros a Ha. destruct (Hl a Ha) as [v Hv].
  apply list_elem_of_fmap. exists (a, v). split; [done|]. by apply elem_of_map_to_list.
Qed.

Lemma split_start hi (L : list (Z * area)) : ∀ lo, areas_ok lo L.*2 → ∃ M B, L = M ++ B ∧ Forall (λ q, a_start q.2 < hi) M ∧ Forall (λ q, hi ≤ a_start q.2) B.
Proof.
  induction L as [|q L IH]; intros lo Hok; [by exists [], []|]. destruct (decide (a_start q.2 < hi)) as [Hlt|Hge].
  - destruct Hok as (_ & _ & _ & Hok). destruct (IH _ Hok) as (M & B & -> & HM & HB). exists (q :: M), B. split_and!; [done|by constructor|done].
  - exists [], (q :: L). split_and!; [done|constructor|]. destruct Hok as (Hq & _ & _ & Hok). pose proof (areas_below L.*2 _ Hok) as Hb. rewrite Forall_fmap in Hb. constructor; [lia|].
    eapply Forall_impl; [exact Hb|]. intros r. cbn. lia.
Qed.

Lemma inode_nodup i L : NoDup L.*1 → NoDup (inode_in i L).
Proof. intros Hn. unfold inode_in. eapply sublist_NoDup; [exact Hn|]. apply fmap_sublist, sublist_filter. Qed.

Lemma world_weaken s L O O' R : world s L O' R → (∀ a x, O !! a = Some x → O' !! a = Some x) → world s L O R.
Proof.
  intros [H1 H2 H3 H4] Ho. split; try done; [intros a x Hx; by apply H2, Ho|]. intros a Ha. destruct (O !! a) as [x|] eqn:E; [|done]. apply Ho in E. rewrite H3 in E; done.
Qed.

(** A valid range. *)
Definition munmap_ok (addr len : Z) : Prop := (PAGE_SIZE | addr) ∧ 0 ≤ addr ∧ 0 < len ≤ TASK_SIZE - addr.

Section munmap.

Context (kmalloc : vms → Z) (ops : Z → vm_operations_struct).
Context (kmalloc_fresh : ∀ s, kmalloc s ≠ 0 → vmas s !! kmalloc s = None).

(** The area is outside of the range, or a bound of the range is inside of it. *)
Definition apart (lo hi : Z) (x : area) : Prop := a_end x ≤ lo ∨ hi ≤ a_start x.
Definition straddles (lo hi : Z) (x : area) : Prop := a_start x < lo < a_end x ∨ a_start x < hi < a_end x.

#[global] Instance apart_dec lo hi x : Decision (apart lo hi x) := _.
#[global] Instance straddles_dec lo hi x : Decision (straddles lo hi x) := _.

(** The range has been cut out of the areas [F], of which [P] are left; the counters
    of pages are those of all that should be left. *)
Record released (s s' : vms) (R R' : Z → list Z) (lo hi : Z) (F P : list (Z * area)) : Prop := {
  rl_sub : P.*2 `sublist_of` F.*2 ≫= cut lo hi;
  rl_all : mem_ok kmalloc → P.*2 = F.*2 ≫= cut lo hi;
  rl_rings : ∀ i, Permutation (inode_in i F ++ R' i) (inode_in i P ++ R i);
  rl_tally : ∀ l1 l2, areas_ok 0 (l1 ++ F.*2 ++ l2) → tally s (l1 ++ F.*2 ++ l2) → tally s' (l1 ++ (F.*2 ≫= cut lo hi) ++ l2);
  rl_mm : (mm s') <| mmap := 0 |> <| mmap_avl := 0 |> <| total_vm := 0 |> <| locked_vm := 0 |> = (mm s) <| mmap := 0 |> <| mmap_avl := 0 |> <| total_vm := 0 |> <| locked_vm := 0 |>;
  rl_refs : mem_ok kmalloc → ∀ K, refs s R K → refs s' R' K;
  rl_zaps : ∃ cs, calls s' = calls s ++ cs ∧ ∀ p, zapped cs p ↔ lo ≤ p < hi ∧ Exists (λ x, a_start x ≤ p < a_end x) F.*2;
  rl_inodes : ∀ i, is_Some (inodes s !! i) → is_Some (inodes s' !! i);
  rl_lost : no_mem kmalloc → P.*2 = filter (apart lo hi) F.*2 ∧
    ∀ K, refs s R K → refs s' R' (λ i, K i + Z.of_nat (length (inode_in i (filter (λ q, straddles lo hi q.2) F))));
}.

(** The accounts of one area. *)
Lemma released_one s s1 s2 s4 R R1 R4 lo hi a x P c2 V :
  let st := Z.max lo (a_start x) in
  let en := Z.min hi (a_end x) in
  let s3 := s2 <| calls := calls s2 ++ [ZapPageRange st (en - st)] |> in
  called s s1 [] → called s1 s2 c2 → op_calls c2 → (∀ i, Permutation (R i) (inode_in i [(a, x)] ++ R1 i)) →
  cut_parts kmalloc (counted s3 x (en - st)) s4 R1 R4 x (cut st en x) P →
  (PAGE_SIZE | st) → (PAGE_SIZE | en) → areas_ok 0 [x] → a_start x < hi → lo < a_end x → lo < hi →
  released s (s4 <| vmas := V |>) R R4 lo hi [(a, x)] P.
Proof.
  intros st en s3 Hc1 Hc2 Ho2 HR1 [H1 H2 H3 H4 H5 H6 H7 H8] Hst Hen Hx Hxhi Hxlo Hlt. pose proof (called_trans _ _ _ _ _ Hc1 Hc2) as (Hm2 & Hi2 & Hcs2). cbn [app] in Hcs2.
  assert (total_vm (mm s2) = total_vm (mm s) ∧ locked_vm (mm s2) = locked_vm (mm s)) as [Ht2 Hl2] by (split; [by apply (f_equal total_vm) in Hm2|by apply (f_equal locked_vm) in Hm2]).
  assert ([(a, x)].*2 ≫= cut lo hi = cut st en x) as Hcut by (cbn; unfold st, en; by rewrite app_nil_r, cut_clip). assert (a_start x < a_end x) as Hse by (destruct Hx; lia). split.
  - by rewrite Hcut.
  - by rewrite Hcut.
  - intros i. rewrite (H3 i), (HR1 i). solve_Permutation.
  - intros l1 l2 Hok [HT HL]. rewrite Hcut. destruct (cut_pages st en x Hst Hen Hx) as [Hp Hl]; [unfold st, en; lia..|]. pose proof (areas_pages _ _ Hok) as Hb. cbn [fmap list_fmap snd] in *.
    apply (f_equal (λ m, (total_vm m, locked_vm m))) in H4. injection H4 as H4 H4'. unfold tally. cbn [mm upd]. cbn in H4, H4'. rewrite Ht2, HT in H4. rewrite Hl2, HL in H4'.
    destruct (cut_areas_ok st en x Hst Hen ltac:(unfold st, en; lia) Hx) as [Hc Hc']. pose proof (areas_pages _ _ (areas_replace _ _ _ _ _ Hok Hc Hc')) as Hb'.
    rewrite !npages_app, !nlocked_app, npages_one, nlocked_one in *. rewrite Hp, Hl in Hb' |- *. unfold PAGE_SIZE, TASK_SIZE in *. rewrite H4, H4', u32_id by lia.
    destruct (has (a_flags x) VM_LOCKED); rewrite ?u32_id by lia; lia.
  - change (mm (s4 <| vmas := V |>)) with (mm s4). apply (f_equal (λ m, m <| total_vm := 0 |> <| locked_vm := 0 |>)) in H4, Hm2. etrans; [exact H4|]. exact Hm2.
  - intros Hm K Hr. apply (H5 Hm). intros i n Hi Hn. change (i_count <$> inodes s2 !! i = Some n) in Hn. rewrite <-lookup_fmap, Hi2, lookup_fmap in Hn. rewrite (Hr i n Hi Hn), (HR1 i), inode_one.
    change (calls (counted s3 x (en - st))) with (calls s2 ++ [ZapPageRange st (en - st)]). rewrite Hcs2, !iputs_app, (iputs_op i c2 Ho2).
    change (iputs i [ZapPageRange st (en - st)]) with 0. case_decide; cbn; lia.
  - destruct H6 as (c4 & Hc4 & Hz4). exists (c2 ++ [ZapPageRange st (en - st)] ++ c4). split; [change (calls (s4 <| vmas := V |>)) with (calls s4); rewrite Hc4; cbn; rewrite Hcs2; by rewrite <-!app_assoc|].
    intros p. rewrite !zapped_app. cbn [fmap list_fmap snd]. rewrite Exists_cons, Exists_nil. split.
    + intros [Hz|[Hz|Hz]]; [by apply op_calls_zap in Hz| |by apply Hz4 in Hz]. destruct Hz as (st' & len & [= -> ->]%list_elem_of_singleton & Hp). unfold st, en in Hp. split; [lia|]. left. lia.
    + intros [Hp [Hxp|[]]]. right. left. exists st, (en - st). split; [by apply list_elem_of_singleton|]. unfold st, en. lia.
  - intros i Hi. apply H7. apply (called_inode s s2 c2); [|done]. by split_and!.
  - intros Hno. destruct (H8 Hno) as [-> Hrefs]. split; [cbn; rewrite decide_False; [done|unfold apart; lia]|]. intros K Hr. apply Hrefs. intros i n Hi Hn.
    change (i_count <$> inodes s2 !! i = Some n) in Hn. rewrite <-lookup_fmap, Hi2, lookup_fmap in Hn. rewrite (Hr i n Hi Hn), (HR1 i), inode_one, filter_cons.
    change (calls (counted s3 x (en - st))) with (calls s2 ++ [ZapPageRange st (en - st)]). rewrite Hcs2, !iputs_app, (iputs_op i c2 Ho2). change (iputs i [ZapPageRange st (en - st)]) with 0.
    assert (cut st en x = [] ↔ ¬ straddles lo hi x) as Hwhole.
    { unfold cut, straddles, st, en. destruct (Z.ltb_spec (a_start x) (Z.max lo (a_start x))), (Z.ltb_spec (Z.min hi (a_end x)) (a_end x)); cbn; split; try done; try lia; intros []; lia. }
    cbn [snd]. destruct (decide (straddles lo hi x)) as [Hs|Hs]; rewrite ?filter_nil, ?inode_one; cbn; repeat case_decide; cbn; try naive_solver lia.
Qed.

Lemma release_one s L1 L2 O R a x nx lo hi :
  world s (L1 ++ L2) O R → O !! a = Some (x, nx) → (a_inode x ≠ 0 → a ∈ R (a_inode x)) →
  (PAGE_SIZE | lo) → (PAGE_SIZE | hi) → lo < hi → a_start x < hi → lo < a_end x → areas_ok 0 (L1.*2 ++ x :: L2.*2) →
  ∃ s' P O' R', (
      v ← ld_vma a;
      remove_shared_vm_struct a ;;
      let st := if lo <? vm_start v then vm_start v else lo in
      let end_ := if vm_end v <? hi then vm_end v else hi in
      call_unmap ops a st (end_ - st) ;;
      log (ZapPageRange st (end_ - st)) ;;
      unmap_fixup kmalloc ops a st (end_ - st) ;;
      kfree a) s = Ret tt s' ∧
    world s' (L1 ++ P ++ L2) O' R' ∧ released s s' R R' lo hi [(a, x)] P ∧ O' !! a = None ∧ (∀ b, b ≠ a → O' !! b = O !! b).
Proof.
  intros Hw Ea Hcov Hlo Hhi Hlt Hxhi Hxlo Hok. pose proof (areas_one _ _ _ Hok) as Hx1. destruct (w_others _ _ _ _ Hw a _ Ea) as [_ Hv]. destruct (vmas s !! a) as [v|] eqn:E; [|done]. injection Hv as Hx Hnx.
  assert (∃ l1 l2, vm_inode v ≠ 0 → R (vm_inode v) = l1 ++ a :: l2) as (l1 & l2 & HRi).
  { destruct (decide (vm_inode v = 0)) as [|Hne]; [by exists [], []|]. destruct (list_elem_of_split (R (vm_inode v)) a) as (l1 & l2 & ?); [subst x; by apply Hcov|by exists l1, l2]. }
  destruct (ring_del s R a v x l1 l2 (w_rings _ _ _ _ Hw) E Hx HRi) as [Hp1 Ha1]. destruct (remove_shared_spec s R a v l1 l2 (w_rings _ _ _ _ Hw) E HRi) as (s1 & E1 & Hsh & HR1).
  set (R1 := if decide (vm_inode v = 0) then R else _) in *. pose proof (world_shares _ _ _ _ _ _ Hw Hsh HR1) as Hw1. destruct Hsh as (_ & Hrest & _ & _). apply called_rest in Hrest.
  set (st := Z.max lo (a_start x)). set (en := Z.min hi (a_end x)). pose proof Hx1 as (_ & Hd1 & Hd2 & Ht). cbn in Ht. unfold TASK_SIZE in Ht.
  assert (PAGE_SIZE | st) as Hst by (unfold st; by apply Z.max_case). assert (PAGE_SIZE | en) as Hen by (unfold en; by apply Z.min_case).
  assert ((if lo <? vm_start v then vm_start v else lo) = st ∧ (if vm_end v <? hi then vm_end v else hi) = en) as [Est Een].
  { unfold st, en. subst x. cbn. destruct (Z.ltb_spec lo (vm_start v)), (Z.ltb_spec (vm_end v) hi); lia. }
  destruct (w_others _ _ _ _ Hw1 a _ Ea) as [_ Hv1]. destruct (vmas s1 !! a) as [v1|] eqn:Ev1; [|done].
  destruct (call_run ops s1 a v1 op_unmap (λ v, VmUnmap a v st (en - st)) Ev1) as (s2 & c2 & E2 & Hc2 & Ho2 & Hs2); [done|]. change (call_unmap ops a st (en - st) s1 = Ret tt s2) in E2.
  set (s3 := s2 <| calls := calls s2 ++ [ZapPageRange st (en - st)] |>). assert (world s3 (L1 ++ L2) O R1) as Hw3 by (unfold s3; apply world_log; rewrite Hs2; by apply world_log).
  assert (inodes s3 = inodes s1) as Hi3 by (unfold s3; by rewrite Hs2).
  destruct (unmap_fixup_spec kmalloc ops kmalloc_fresh s3 L1 L2 O R1 a x nx st en Hw3 Ea Ha1) as (s4 & P & O4 & R4 & E4 & Hw4 & Hparts & Ha4 & Hb4); try done.
  { intros Hi. rewrite Hi3. apply (called_inode _ _ _ _ Hrest). by apply (rg_inode _ _ (w_rings _ _ _ _ Hw) _ a), Hcov. } { unfold st, en in *. pose proof Hx1 as (? & _). lia. } { unfold st, en. lia. }
  destruct Ha4 as [y Ey]. assert (∀ i, a ∉ R4 i) as HaR4.
  { intros i. rewrite (cp_rings _ _ _ _ _ _ _ _ Hparts i). rewrite elem_of_app. intros [Hin|Hin]; [|by apply (Ha1 i)]. unfold inode_in in Hin. apply list_elem_of_fmap in Hin as ([b z] & -> & Hin).
    apply list_elem_of_filter in Hin as [_ Hin]. cbn in *. rewrite (w_apart _ _ _ _ Hw4 b) in Ey; [done|]. rewrite !fmap_app. apply elem_of_app. right. apply elem_of_app. left. apply list_elem_of_fmap. by exists (b, z). }
  pose proof (world_free s4 _ O4 R4 a y Hw4 Ey HaR4) as Hw5. eexists _, P, (delete a O4), R4. split_and!; [|exact Hw5| |by rewrite lookup_delete_eq|intros b Hb; by rewrite lookup_delete_ne, Hb4].
  - unfold mbind, M_bind. rewrite (ld_vma_run _ _ _ E), E1. cbn zeta. rewrite Est, Een, E2. unfold log at 1, modify at 1. fold s3. by rewrite E4.
  - apply (released_one s s1 s2 s4 R R1 R4 lo hi a x P c2); try done.
Qed.

Lemma released_trans s s1 s2 R R1 R2 lo hi F1 F2 P1 P2 :
  (PAGE_SIZE | lo) → (PAGE_SIZE | hi) → lo < hi →
  released s s1 R R1 lo hi F1 P1 → released s1 s2 R1 R2 lo hi F2 P2 → released s s2 R R2 lo hi (F2 ++ F1) (P2 ++ P1).
Proof.
  intros Hlo Hhi Hlt [A1 A2 A3 A4 A5 A6 (c1 & A7 & A8) A9 A10] [B1 B2 B3 B4 B5 B6 (c2 & B7 & B8) B9 B10]. split.
  - rewrite !fmap_app, bind_app. by apply sublist_app.
  - intros Hm. by rewrite !fmap_app, bind_app, (A2 Hm), (B2 Hm).
  - intros i. rewrite !inode_app, <-!app_assoc, <-(A3 i). rewrite (Permutation_app_swap_app (inode_in i F2)), (B3 i). solve_Permutation.
  - intros l1 l2. rewrite !fmap_app, bind_app, <-!app_assoc. intros Hok Ht. rewrite !(app_assoc l1) in Hok, Ht. pose proof (A4 _ _ Hok Ht) as Ht1. rewrite <-!app_assoc in Ht1.
    apply (B4 l1); [|done]. rewrite app_assoc. apply (areas_cut F1.*2 lo hi); done.
  - by rewrite B5.
  - intros Hm K Hr. by apply (B6 Hm), (A6 Hm).
  - exists (c1 ++ c2). split; [by rewrite B7, A7, app_assoc|]. intros p. rewrite zapped_app, A8, B8, fmap_app, Exists_app. naive_solver.
  - intros i Hi. by apply B9, A9.
  - intros Hno. destruct (A10 Hno) as [EA RA], (B10 Hno) as [EB RB]. rewrite !fmap_app, !filter_app, EA, EB. split; [done|]. intros K Hr. specialize (RB _ (RA K Hr)). intros i n Hi Hn.
    rewrite (RB i n Hi Hn), inode_app, length_app. lia.
Qed.

Lemma release_areas_spec F lo hi : (PAGE_SIZE | lo) → (PAGE_SIZE | hi) → lo < hi → ∀ fuel s L1 L2 O R f,
  (length F ≤ fuel)%nat → F ≠ [] → world s (L1 ++ L2) O R → fchain O f F → NoDup F.*1 → cover F R →
  areas_ok 0 (L1.*2 ++ (reverse F).*2 ++ L2.*2) → Forall (λ q, a_start q.2 < hi ∧ lo < a_end q.2) F →
  ∃ s' P O' R', release_areas kmalloc ops fuel lo hi f s = Ret tt s' ∧ world s' (L1 ++ P ++ L2) O' R' ∧ released s s' R R' lo hi (reverse F) P ∧
    (∀ b, b ∉ F.*1 → O' !! b = O !! b).
Proof.
  intros Hlo Hhi Hlt. induction F as [|[a x] F IH]; intros fuel s L1 L2 O R f Hfuel Hne Hw Hch Hnd Hcov Hok Hall; [done|]. destruct fuel as [|fuel]; [cbn in Hfuel; lia|].
  destruct Hch as (-> & nx & Ea & Hch). apply Forall_cons in Hall as [[Hx1 Hx2] Hall]. rewrite fmap_cons in Hnd. apply NoDup_cons in Hnd as [HaF Hnd]. cbn in Hx1, Hx2, HaF.
  rewrite reverse_cons, fmap_app in Hok. cbn [fmap list_fmap snd] in Hok. rewrite <-app_assoc in Hok. cbn [app] in Hok.
  destruct (release_one s L1 L2 O R a x nx lo hi Hw Ea) as (s1 & P1 & O1 & R1 & E1 & Hw1 & Hr1 & Ha1 & Hb1); try done.
  { intros Hi. apply (Hcov (a_inode x)). unfold inode_in. rewrite filter_cons. cbn. rewrite decide_True by done. apply list_elem_of_here. } { by eapply areas_drop. }
  destruct (w_others _ _ _ _ Hw a _ Ea) as [_ Hv]. destruct (vmas s !! a) as [v|] eqn:E; [|done]. injection Hv as Hxv Hnx.
  cbn [release_areas]. unfold mbind, M_bind in E1 |- *. rewrite (ld_vma_run _ _ _ E) in E1 |- *. cbn zeta in E1 |- *.
  do 4 (match type of E1 with match ?e with _ => _ end = _ => destruct e; [|done] end). rewrite E1, Hnx. destruct F as [|[b y] F].
  - cbn in Hch. subst nx. cbn. exists s1, P1, O1, R1. split_and!; try done. intros b Hb. apply Hb1. set_solver.
  - assert (nx ≠ 0) as Hnx0. { destruct Hch as (-> & ny & Eb & _). by apply (w_others _ _ _ _ Hw) in Eb as [? _]. } rewrite (proj2 (Z.eqb_neq _ _) Hnx0).
    set (G := (b, y) :: F) in *. destruct (IH fuel s1 L1 (P1 ++ L2) O1 R1 nx) as (s' & P & O' & R' & E' & Hw' & Hr' & Hb'); try done.
    { cbn in *. lia. } { eapply fchain_ext; [|exact Hch]. intros c Hc. apply Hb1. by intros ->. }
    { intros i c Hc. assert (c ∈ inode_in i [(a, x)] ++ R1 i) as Hin.
      { rewrite (rl_rings _ _ _ _ _ _ _ _ Hr1 i). apply elem_of_app. right. apply Hcov. rewrite inode_cons. apply elem_of_app. by right. }
      apply elem_of_app in Hin as [Hin|Hin]; [|done]. exfalso. apply HaF. apply inode_sub in Hin, Hc. set_solver. }
    { rewrite app_assoc, fmap_app. apply (areas_cut [x] lo hi); try done; [by rewrite <-app_assoc|]. apply (rl_sub _ _ _ _ _ _ _ _ Hr1). }
    exists s', (P ++ P1), O', R'. rewrite <-app_assoc, reverse_cons. split_and!; try done; [by eapply released_trans|]. intros c Hc. rewrite Hb' by (cbn in *; set_solver). apply Hb1. set_solver.
Qed.

Lemma detach_spec M hi : ∀ fuel s L1 L2 O R free F,
  (length M < fuel)%nat → world s (L1 ++ M ++ L2) O R → Forall (λ q, a_start q.2 < hi) M → Forall (λ q, hi ≤ a_start q.2) L2 → fchain O free F →
  ∃ f s' O', detach fuel (place_after L1.*1) hi (head0 (M ++ L2).*1) free s = Ret f s' ∧ world s' (L1 ++ L2) O' R ∧ fchain O' f (reverse M ++ F) ∧
    (∀ b, b ∉ M.*1 → O' !! b = O !! b) ∧ rest s' = rest s.
Proof.
  induction M as [|[a x] M IH]; intros fuel s L1 L2 O R free F Hfuel Hw HM HL2 Hch; (destruct fuel as [|fuel]; [lia|]); cbn [detach].
  - exists free, s, O. split_and!; try done. cbn [app]. destruct L2 as [|[b y] L2]; [done|]. cbn [fmap list_fmap fst]. change (head0 (b :: L2.*1)) with b.
    destruct (space_lookup s _ b y (w_space _ _ _ _ Hw)) as (v & E & Hv & Hb0); [set_solver|]. rewrite (proj2 (Z.eqb_neq _ _) Hb0). unfold mbind, M_bind. rewrite (ld_vma_run _ _ _ E).
    apply Forall_cons in HL2 as [HL2 _]. cbn in HL2. replace (vm_start v) with (a_start y) by (by subst y). by rewrite (proj2 (Z.ltb_ge _ _) HL2).
  - cbn [app] in *. destruct (space_lookup s _ a x (w_space _ _ _ _ Hw)) as (v & E & Hv & Ha0); [set_solver|]. change (head0 ((a, x) :: M ++ L2).*1) with a. rewrite (proj2 (Z.eqb_neq _ _) Ha0).
    unfold mbind, M_bind. rewrite (ld_vma_run _ _ _ E). apply Forall_cons in HM as [Hx HM]. cbn in Hx. replace (vm_start v) with (a_start x) by (by subst x). rewrite (proj2 (Z.ltb_lt _ _) Hx).
    assert (vm_next v = head0 (M ++ L2).*1) as Hnext. { pose proof (sp_chain _ _ (w_space _ _ _ _ Hw)) as Hc. rewrite fmap_app, fmap_cons in Hc. by apply (chain_next _ _ _ _ _ _ Hc). }
    rewrite Hnext. destruct (detach_step s L1 a x (M ++ L2) O R free Hw) as (s1 & E1 & Hw1 & Hr1). unfold mbind, M_bind in E1.
    do 2 (match type of E1 with match ?e with _ => _ end = _ => destruct e; [|done] end). rewrite E1.
    pose proof (sp_chain _ _ (w_space _ _ _ _ Hw1)) as Hc1. rewrite fmap_app in Hc1. apply chain_app in Hc1 as [Hseg _]. pose proof (space_nodup _ _ (w_space _ _ _ _ Hw1)) as Hnd. rewrite fmap_app in Hnd. apply NoDup_app in Hnd as [Hnd _].
    destruct (wr_next_run s1 L1.*1 _ 0 Hseg Hnd) as (_ & Erd & _). rewrite Erd.
    destruct (IH fuel s1 L1 L2 _ R a ((a, x) :: F) ltac:(cbn in *; lia) Hw1 HM HL2) as (f & s' & O' & E2 & Hw2 & Hch2 & Hb2 & Hr2).
    { split; [done|]. exists free. rewrite lookup_insert_eq. split; [done|]. eapply fchain_ext; [|exact Hch]. intros b Hb. rewrite lookup_insert_ne; [done|]. intros <-.
      destruct (fchain_some _ _ _ a Hch Hb) as [z Hz]. rewrite (w_apart _ _ _ _ Hw a) in Hz; [done|]. rewrite fmap_app, fmap_cons. apply elem_of_app. right. apply list_elem_of_here. }
    exists f, s', O'. split_and!; try done; [by rewrite reverse_cons, <-app_assoc| |by rewrite Hr2]. intros b Hb. rewrite fmap_cons in Hb. apply not_elem_of_cons in Hb as [Hba Hb]. rewrite (Hb2 b Hb), lookup_insert_ne; done.
Qed.

Lemma released_none s s' R lo hi : rest s' = rest s → released s s' R R lo hi [] [].
Proof.
  intros Hr. apply called_rest in Hr as (Hm & Hi & Hc). rewrite app_nil_r in Hc. split; try done.
  { intros l1 l2 _ [HT HL]. cbn in HT, HL |- *. split; [rewrite <-HT; by apply (f_equal total_vm) in Hm|rewrite <-HL; by apply (f_equal locked_vm) in Hm]. }
  { apply (f_equal (λ m, m <| total_vm := 0 |> <| locked_vm := 0 |>)) in Hm. exact Hm. }
  { intros _ K Hr. by apply (refs_called s s' R K []); [|split_and!; rewrite ?app_nil_r|apply op_calls_nil]. }
  2: { intros i. apply (called_inode s s' []). split_and!; [done|done|by rewrite app_nil_r]. }
  2: { intros _. split; [done|]. intros K Hr. assert (refs s' R K) as Hr' by (by apply (refs_called s s' R K []); [|split_and!; rewrite ?app_nil_r|apply op_calls_nil]).
    intros i n Hi' Hn. rewrite (Hr' i n Hi' Hn). cbn. lia. }
  exists []. split; [by rewrite app_nil_r|]. intros p. split; [intros Hz; by apply op_calls_zap in Hz; [|apply op_calls_nil]|]. intros [_ He]. by apply Exists_nil in He.
Qed.

(** Areas before and behind the range. *)
Lemma released_frame s s' R R' lo hi A F B P :
  lo < hi → areas_ok 0 (A ++ F ++ B).*2 → Forall (λ q, a_end q.2 ≤ lo) A → Forall (λ q, hi ≤ a_start q.2) B →
  released s s' R R' lo hi F P → released s s' R R' lo hi (A ++ F ++ B) (A ++ P ++ B).
Proof.
  intros Hlt Hok HA HB [H1 H2 H3 H4 H5 H6 (cs & H7 & H8) H9 H10]. apply areas_below in Hok. rewrite !fmap_app, !Forall_app in Hok. destruct Hok as (HA' & _ & HB').
  assert (A.*2 ≫= cut lo hi = A.*2) as HAc. { apply cut_below; [done|]. rewrite Forall_fmap in HA' |- *. eapply Forall_impl; [apply Forall_and; split; [exact HA|exact HA']|]. cbn. lia. }
  assert (B.*2 ≫= cut lo hi = B.*2) as HBc. { apply cut_above; [done|]. rewrite Forall_fmap in HB' |- *. eapply Forall_impl; [apply Forall_and; split; [exact HB|exact HB']|]. cbn. lia. }
  split; try done; rewrite ?fmap_app, ?bind_app, ?HAc, ?HBc.
  - by apply sublist_app; [|apply sublist_app].
  - intros Hm. by rewrite (H2 Hm).
  - intros i. rewrite !inode_app, <-!app_assoc. apply Permutation_app_head.
    rewrite (Permutation_app_swap_app (inode_in i F)), (Permutation_app_swap_app (inode_in i P)). by apply Permutation_app_head.
  - intros l1 l2. rewrite <-!app_assoc, !(app_assoc l1). by apply H4.
  - exists cs. split; [done|]. intros p. rewrite H8, !Exists_app. split; [naive_solver|]. intros (Hp & [He|[He|He]]); [exfalso|done|exfalso].
    + rewrite Exists_fmap in He. apply Exists_exists in He as (q & Hq & Hpq). rewrite Forall_forall in HA. specialize (HA q Hq). cbn in *. lia.
    + rewrite Exists_fmap in He. apply Exists_exists in He as (q & Hq & Hpq). rewrite Forall_forall in HB. specialize (HB q Hq). cbn in *. lia.
  - intros Hno. destruct (H10 Hno) as [EP RP]. rewrite !filter_app, <-EP, (list_filter_all _ A.*2), (list_filter_all _ B.*2), (list_filter_none _ A), (list_filter_none _ B); [by rewrite app_nil_r|..];
      rewrite ?Forall_fmap; (eapply Forall_impl; [first [exact HA|exact HB]|]); cbn; unfold apart, straddles; intros; lia.
Qed.

Lemma released_tally s s' R R' lo hi F P : released s s' R R' lo hi F P → mem_ok kmalloc → areas_ok 0 F.*2 → tally s F.*2 → tally s' P.*2.
Proof. intros Hr Hm. pose proof (rl_tally _ _ _ _ _ _ _ _ Hr [] []) as H. rewrite !app_nil_r in H. by rewrite (rl_all _ _ _ _ _ _ _ _ Hr Hm). Qed.

Lemma cover_released s s' R R' lo hi F P A B :
  released s s' R R' lo hi F P → NoDup (A ++ F ++ B).*1 → cover (A ++ F ++ B) R → cover (A ++ P ++ B) R'.
Proof.
  intros Hr Hn Hc i. pose proof (rl_rings _ _ _ _ _ _ _ _ Hr i) as Hp. specialize (Hc i). apply (inode_nodup i) in Hn. rewrite !inode_app in *.
  assert (inode_in i F ⊆+ R i) as [X HX]%submseteq_Permutation. { apply NoDup_submseteq; [by apply NoDup_app in Hn as (_ & _ & [? _]%NoDup_app)|set_solver]. }
  rewrite HX in Hp. assert (Permutation (R' i) (inode_in i P ++ X)) as HR'. { apply (Permutation_app_inv_l (inode_in i F)). rewrite Hp. solve_Permutation. }
  intros b Hb. rewrite HR'. apply elem_of_app. rewrite !elem_of_app in Hb. destruct Hb as [Hb|[Hb|Hb]]; [right|by left|right].
  - assert (b ∈ R i) as Hin by (apply Hc; set_solver). rewrite HX in Hin. apply elem_of_app in Hin as [Hin|Hin]; [|done]. apply NoDup_app in Hn as (_ & Hd & _). exfalso. apply (Hd b Hb). set_solver.
  - assert (b ∈ R i) as Hin by (apply Hc; set_solver). rewrite HX in Hin. apply elem_of_app in Hin as [Hin|Hin]; [|done]. apply NoDup_app in Hn as (_ & _ & Hn). apply NoDup_app in Hn as (_ & Hd & _). by destruct (Hd b Hin).
Qed.

Lemma do_munmap_spec s L O R addr len :
  world s L O R → cover L R → munmap_ok addr len →
  ∃ s' L' R', do_munmap kmalloc ops addr len s = Ret 0 s' ∧ world s' L' O R' ∧ cover L' R' ∧ released s s' R R' addr (addr + PAGE_ALIGN len) L L'.
Proof.
  intros Hw Hcov (Ha & Ha0 & Hlen). pose proof (page_range addr len Ha Ha0 ltac:(lia)) as [Hhi Hmax]. destruct (page_align_up len) as [Hal Hal']; [unfold TASK_SIZE in *; lia|].
  unfold do_munmap, MAX_USER_ADDR. rewrite (proj2 (page_aligned addr) Ha). cbn [Z.eqb negb]. rewrite (proj2 (Z.ltb_ge TASK_SIZE addr)), (proj2 (Z.ltb_ge (TASK_SIZE - addr) len)), (proj2 (Z.eqb_neq (PAGE_ALIGN len) 0)) by lia. cbn [orb].
  set (hi := addr + PAGE_ALIGN len) in *. rewrite (u32_id hi) by (unfold TASK_SIZE in *; lia). assert (addr < hi) as Hlt by (unfold hi; lia).
  pose proof (w_space _ _ _ _ Hw) as Hsp. unfold mbind, M_bind. rewrite (find_vma_spec _ _ _ Hsp). unfold above0. destruct (above addr L) as [[a x]|] eqn:Eab.
  2: { exists s, L, R. split_and!; try done. apply above_none in Eab. rewrite <-(app_nil_r L). by apply (released_frame s s R R addr hi L [] [] []); [|rewrite app_nil_r; apply Hsp|..|by apply released_none]. }
  apply above_some in Eab as (A & rest_ & -> & Hax & HA). cbn [fmap option_fmap option_map fst default from_option id]. destruct (space_lookup _ _ a x Hsp) as (v & E & Hv & Ha00); [set_solver|].
  rewrite (proj2 (Z.eqb_neq _ _) Ha00). destruct (space_avl _ _ Hsp) as (T & HT & HTf). rewrite (avl_neighbours_spec s T a A.*1 rest_.*1 HT) by (by rewrite HTf, fmap_app, fmap_cons).
  pose proof (sp_ok _ _ Hsp) as Hok. destruct (split_start hi ((a, x) :: rest_) (default 0 (a_end <$> last A.*2))) as (M & B & HMB & HM & HB); [rewrite fmap_app in Hok; by apply areas_app in Hok as [_ ?]|].
  assert (Forall (λ q, addr < a_end q.2) ((a, x) :: rest_)) as HMa.
  { rewrite fmap_app, fmap_cons in Hok. destruct (areas_split _ _ _ _ Hok) as [_ Hb]. rewrite Forall_fmap in Hb. apply areas_below in Hok. rewrite Forall_app, Forall_cons in Hok. destruct Hok as (_ & _ & Hok). rewrite Forall_fmap in Hok.
    constructor; [done|]. eapply Forall_impl; [apply Forall_and; split; [exact Hb|exact Hok]|]. cbn in *. intros q. lia. }
  rewrite HMB in *. fold (place_after A.*1). unfold all_vmas, gets. pose proof (space_nodup _ _ Hsp) as Hnd.
  apply Forall_app in HMa as [HMa _]. assert (NoDup M.*1) as HndM by (rewrite !fmap_app in Hnd; by apply NoDup_app in Hnd as (_ & _ & [? _]%NoDup_app)).
  destruct (detach_spec M hi (S (length (map_to_list (vmas s)))) s A B O R 0 []) as (f & s1 & O1 & E1 & Hw1 & Hch1 & Hb1 & Hr1); try done.
  { apply Nat.lt_succ_r. rewrite <-(length_fmap fst). apply dom_bound; [done|]. intros b Hb. apply (world_dom _ _ _ _ _ Hw). left. rewrite !fmap_app. set_solver. }
  assert (head0 (M ++ B).*1 = a) as Hhd by (by rewrite <-HMB). rewrite Hhd in E1. rewrite E1. rewrite app_nil_r in Hch1.
  assert (∀ b y, O !! b = Some y → b ∉ M.*1) as HOM. { intros b y Hy Hb. rewrite (w_apart _ _ _ _ Hw b) in Hy; [done|]. rewrite !fmap_app. set_solver. }
  assert (M = [] ∨ M ≠ []) as [->|HM0] by (destruct M; auto).
  - cbn in Hch1. subst f. cbn [Z.eqb]. exists s1, (A ++ B), R. split_and!; try done; [by apply (world_weaken _ _ _ _ _ Hw1); intros b y Hy; rewrite Hb1; [|eapply HOM]|].
    by apply (released_frame s s1 R R addr hi A [] B []); [..|apply released_none].
  - assert (f ≠ 0) as Hf0. { destruct (reverse M) as [|[b y] F] eqn:ErM; [by apply (f_equal reverse) in ErM; rewrite reverse_involutive in ErM|]. destruct Hch1 as (-> & nx & Eb & _). by apply (w_others _ _ _ _ Hw1) in Eb as [? _]. }
    rewrite (proj2 (Z.eqb_neq _ _) Hf0). destruct (release_areas_spec (reverse M) addr hi Ha Hhi Hlt (S (length (map_to_list (vmas s1)))) s1 A B O1 R f) as (s2 & P & O2 & R2 & E2 & Hw2 & Hr2 & Hb2); try done.
    + rewrite length_reverse. apply le_S. rewrite <-(length_fmap fst). apply dom_bound; [done|]. intros b Hb. apply (world_dom _ _ _ _ _ Hw1). right. right. apply (fchain_some _ _ _ b Hch1).
      rewrite fmap_reverse. by apply elem_of_reverse.
    + intros ErM. by apply (f_equal reverse) in ErM; rewrite reverse_involutive in ErM.
    + rewrite fmap_reverse. by rewrite reverse_Permutation.
    + intros i b Hb. apply (Hcov i). rewrite !inode_app. unfold inode_in in Hb |- *. rewrite (reverse_Permutation M) in Hb. set_solver.
    + by rewrite reverse_involutive, <-!fmap_app.
    + rewrite (reverse_Permutation M). apply Forall_and. by split.
    + rewrite E2. rewrite reverse_involutive in Hr2. pose proof (released_trans _ _ _ _ _ _ _ _ _ _ _ _ Ha Hhi Hlt (released_none s s1 R addr hi Hr1) Hr2) as Hr. rewrite !app_nil_r in Hr.
      exists s2, (A ++ P ++ B), R2. split_and!; try done; [|by eapply cover_released|by apply released_frame].
      apply (world_weaken _ _ _ _ _ Hw2). intros b y Hy. rewrite Hb2, Hb1; [done|by eapply HOM|]. rewrite fmap_reverse, elem_of_reverse. by eapply HOM.
Qed.
End munmap.
