(* ===== verification/MmapMerge.v ===== *)
(** * MmapMerge: merging areas

    [merge_segments] changes the list of areas, but not what is mapped where. *)

From stdpp Require Import gmap sorting.
From S2P Require Import Prelude Vmalloc Avl AvlFacts AvlOps Mmap MmapFacts MmapSteps MmapUnmap MmapMunmap.

(** ** Specification *)

(** What there is at an address: rights, operations, file and place in the file. *)
Record attr := MkAttr { t_flags : Z; t_ops : Z; t_inode : Z; t_pte : Z; t_offset : option Z }.

Definition backed (x : area) : bool := negb (a_inode x =? 0) || has (a_flags x) VM_SHM.

Definition attr_at (x : area) (p : Z) : attr :=
  MkAttr (a_flags x) (a_ops x) (a_inode x) (a_pte x) (if backed x then Some (u32 (a_offset x + (p - a_start x))) else None).

(** The map of the process. *)
Fixpoint pmap (l : list area) (p : Z) : option attr :=
  match l with [] => None | x :: l' => if (a_start x <=? p) && (p <? a_end x) then Some (attr_at x p) else pmap l' p end.

(** Only the division into areas has changed. *)
Record merged (s s' : vms) (R R' : Z → list Z) (L L' : list (Z * area)) : Prop := {
  mg_pmap : ∀ p, pmap L'.*2 p = pmap L.*2 p;
  mg_pages : npages L'.*2 = npages L.*2 ∧ nlocked L'.*2 = nlocked L.*2;
  mg_mm : (mm s') <| mmap := 0 |> <| mmap_avl := 0 |> = (mm s) <| mmap := 0 |> <| mmap_avl := 0 |>;
  mg_refs : ∀ K, refs s R K → refs s' R' K;
  mg_calls : ∃ cs, calls s' = calls s ++ cs ∧ op_calls cs;
  mg_names : L'.*1 ⊆ L.*1;
}.

(** ** Lemmas: the map *)

Lemma pmap_app l1 l2 p : pmap (l1 ++ l2) p = match pmap l1 p with Some t => Some t | None => pmap l2 p end.
Proof. induction l1 as [|x l1 IH]; [done|]. cbn. by destruct (_ && _). Qed.

Lemma pmap_none l p : pmap l p = None ↔ Forall (λ x, ¬ (a_start x ≤ p < a_end x)) l.
Proof.
  induction l as [|x l IH]; [by split|]. cbn. rewrite Forall_cons. destruct (Z.leb_spec (a_start x) p), (Z.ltb_spec p (a_end x)); cbn; try (rewrite IH; naive_solver lia).
  split; [done|]. intros [Hn _]. lia.
Qed.

(** The map without a range. *)
Lemma pmap_cut lo hi l p : lo < hi → ∀ b, areas_ok b l → pmap (l ≫= cut lo hi) p = if decide (lo ≤ p < hi) then None else pmap l p.
Proof.
  intros Hlt. induction l as [|x l IH]; intros b; cbn [areas_ok]; [by case_decide|]. intros (Hx & _ & _ & Hl). cbn [mbind list_bind]. rewrite pmap_app, (IH _ Hl). cbn [pmap]. unfold cut, cut_left, cut_right.
  destruct (Z.ltb_spec (a_start x) lo), (Z.ltb_spec hi (a_end x)); cbn [app pmap]; unfold attr_at, backed; cbn;
    repeat match goal with |- context [?a <=? ?c] => destruct (Z.leb_spec a c) | |- context [?a <? ?c] => destruct (Z.ltb_spec a c) end; cbn; try lia; try done; case_decide; try lia; try done.
  all: try (rewrite Z.max_l by lia).
  all: try (destruct (negb (a_inode x =? 0) || has (a_flags x) VM_SHM); [|done]; do 3 f_equal; unfold u32; rewrite ?Zplus_mod_idemp_l; f_equal; lia).
Qed.

(** ** Lemmas: two areas become one *)

Definition mergeable_areas (x y : area) : bool :=
  (a_inode y =? a_inode x) && (a_pte y =? a_pte x) && (a_ops y =? a_ops x) && (a_flags y =? a_flags x) && (a_end x =? a_start y) &&
  (negb (backed y) || (u32 (a_offset x + a_end x - a_start x) =? a_offset y)).

Lemma mergeable_run p v : mergeable p v = mergeable_areas (area_of p) (area_of v).
Proof. done. Qed.

Definition joined (x y : area) : area := x <| a_end := a_end y |>.

Lemma joined_pmap x y l1 l2 lo p :
  mergeable_areas x y = true → areas_ok lo (l1 ++ x :: y :: l2) → pmap (l1 ++ joined x y :: l2) p = pmap (l1 ++ x :: y :: l2) p.
Proof.
  unfold mergeable_areas. rewrite !andb_true_iff, !Z.eqb_eq. intros (((((Hi & Hp) & Ho) & Hf) & He) & Hoff) Hok. apply areas_app in Hok as [_ (Hx & _ & _ & Hy & _)].
  rewrite !pmap_app. destruct (pmap l1 p); [done|]. cbn [pmap]. unfold joined at 1 2. cbn [a_start a_end upd]. unfold attr_at, joined, backed in *. cbn. rewrite Hi, Hp, Ho, Hf in *.
  destruct (Z.leb_spec (a_start x) p), (Z.ltb_spec p (a_end x)), (Z.leb_spec (a_start y) p), (Z.ltb_spec p (a_end y)); cbn; try lia; try done.
  destruct (negb (a_inode x =? 0) || has (a_flags x) VM_SHM); [|done]. cbn in Hoff. apply Z.eqb_eq in Hoff. do 3 f_equal. rewrite <-Hoff. unfold u32. rewrite Zplus_mod_idemp_l. f_equal. lia.
Qed.

Lemma joined_ok x y l1 l2 lo : a_end x = a_start y → areas_ok lo (l1 ++ x :: y :: l2) → areas_ok lo (l1 ++ joined x y :: l2).
Proof.
  intros He. revert lo. induction l1 as [|z l1 IH]; intros lo; cbn [app areas_ok].
  - intros (Hx & H1 & H2 & Hy & H3 & H4 & Hl). cbn. split_and!; try done; lia.
  - intros (Hz & H1 & H2 & Hl). split_and!; try done; [lia..|]. by apply IH.
Qed.

Lemma joined_pages x y lo l1 l2 : a_end x = a_start y → areas_ok lo (l1 ++ x :: y :: l2) → pages (joined x y) = pages x + pages y.
Proof.
  intros He Hok. apply areas_app in Hok as [_ (Hx & [a Ha] & [b Hb] & Hy & _ & [c Hc] & _)]. rewrite !pages_div. cbn. rewrite <-He, Ha, Hb, Hc. rewrite <-!Z.mul_sub_distr_r, !Z.div_mul by done. lia.
Qed.

Section merge.

Context (ops : Z → vm_operations_struct).

(** The second area leaves the tree and the list, the first takes its place. *)
Lemma merge_unlink s L1 p x m y L2 O R v vp :
  world s (L1 ++ (p, x) :: (m, y) :: L2) O R → vmas s !! m = Some v → vmas s !! p = Some vp → a_end x = a_start y →
  ∃ s1 s2 v1, avl_remove m s = Ret tt s1 ∧ vmas s1 !! m = Some v1 ∧ vm_next v1 = vm_next v ∧ area_of v1 = y ∧ link v1 = link v ∧
    st_vma p (λ w, w <| vm_end := vm_end v1 |> <| vm_next := vm_next v1 |>) s1 = Ret tt s2 ∧ vmas s2 !! m = Some v1 ∧
    world s2 (L1 ++ (p, joined x y) :: L2) (<[m := (y, vm_next v)]> O) R ∧ rest s2 = rest s ∧ inodes s2 = inodes s.
Proof.
  intros [Hs Ho Hap HR] E Ep He. pose proof (space_nodup _ _ Hs) as Hnd. destruct (space_avl _ _ Hs) as (T & HT & Hf).
  assert ((L1 ++ (p, x) :: (m, y) :: L2).*1 = (L1.*1 ++ [p]) ++ m :: L2.*1) as HL by (by rewrite fmap_app, <-app_assoc). rewrite HL in *.
  destruct (avl_remove_spec s T m (L1.*1 ++ [p]) L2.*1 HT Hf) as (s1 & T' & Er & Ht & Hz & Ha & Hf').
  destruct (tree_only_same _ _ Ht) as (Sa & Sn & Sl). destruct (tree_only_rest _ _ Ht) as (Hr & Hi & Hm).
  destruct (tree_only_data _ _ m v Ht E) as (v1 & E1 & Hd). destruct (tree_only_data _ _ p vp Ht Ep) as (vp1 & Ep1 & Hdp). apply data_fields in Hd as (Hva & Hvn & Hvl). apply data_fields in Hdp as (Hpa & Hpn & Hpl).
  assert (area_of v = y ∧ area_of vp = x) as [Hy Hx]. { destruct (space_lookup s _ m y Hs) as (w & Ew & Hw & _); [set_solver|]. destruct (space_lookup s _ p x Hs) as (w' & Ew' & Hw' & _); [set_solver|]. split; congruence. }
  assert (p ≠ m ∧ p ∉ L1.*1 ∧ p ∉ L2.*1 ∧ m ∉ L1.*1 ∧ m ∉ L2.*1 ∧ m ≠ 0 ∧ p ≠ 0) as (Hpm & Hp1 & Hp2 & Hm1 & Hm2 & Hm0 & Hp0).
  { pose proof (chain_nonzero _ _ _ m (sp_chain _ _ Hs)) as Hm0. pose proof (chain_nonzero _ _ _ p (sp_chain _ _ Hs)) as Hp0. rewrite HL in Hm0, Hp0.
    rewrite <-app_assoc in Hnd. apply NoDup_app in Hnd as (_ & Hd1 & Hnd). cbn [app] in Hnd. apply NoDup_cons in Hnd as [Hd2 [Hd3 _]%NoDup_cons]. rewrite not_elem_of_cons in Hd2.
    split_and!; try (by apply Hd2); [intros Hin; apply (Hd1 p Hin); set_solver|intros Hin; apply (Hd1 m Hin); set_solver|done|apply Hm0; set_solver|apply Hp0; set_solver]. }
  set (w := vp1 <| vm_end := vm_end v1 |> <| vm_next := vm_next v1 |>). set (s2 := s1 <| vmas := <[p := w]> (vmas s1) |>).
  assert (area_of w = joined x y) as Hw by (unfold w, joined; rewrite <-Hx, <-Hy, <-Hva, <-Hpa; done).
  exists s1, s2, v1. split_and!; try done; [by rewrite Hva|exact (st_vma_run s1 p _ vp1 Ep1)|unfold s2; by rewrite vmas_upd, lookup_insert_ne|]. split.
  - pose proof (sp_holds _ _ Hs) as Hh. unfold holds in Hh. rewrite Forall_app, !Forall_cons in Hh. destruct Hh as (Hh1 & _ & _ & Hh2).
    pose proof (sp_ok _ _ Hs) as Hok. rewrite fmap_app, !fmap_cons in Hok. cbn [snd] in Hok.
    assert (∀ a, a ≠ p → area_of <$> vmas s2 !! a = area_of <$> vmas s !! a ∧ vm_next <$> vmas s2 !! a = vm_next <$> vmas s !! a) as Hk by (intros a Hne; unfold s2; rewrite vmas_upd, lookup_insert_ne by done; split; [apply Sa|apply Sn]).
    split; rewrite ?fmap_app, ?fmap_cons; cbn [fst snd]; [exists T'; split_and!; [apply (zip_same s1); [done|by apply same_insert with vp1|done]|done|by rewrite Hf', <-app_assoc]| | |by eapply joined_ok].
    + pose proof (sp_chain _ _ Hs) as Hc. rewrite HL, <-app_assoc in Hc. cbn [app] in Hc. apply chain_app in Hc as [Hc1 Hc2]. cbn [chain] in Hc2. destruct Hc2 as (_ & _ & vp' & Ep' & _ & _ & v' & E' & Hc2).
      assert (v' = v) as -> by congruence. change (mmap (mm s2)) with (mmap (mm s1)). rewrite Hm. apply chain_app. split; [eapply seg_ext; [|exact Hc1]; intros a Hin; apply Hk; by intros ->|].
      cbn [chain]. split_and!; try done. exists w. unfold s2 at 1. rewrite vmas_upd, lookup_insert_eq. split; [done|]. change (vm_next w) with (vm_next v1). rewrite Hvn. eapply list_chain_ext; [|exact Hc2]. intros a Hin. apply Hk. by intros ->.
    + apply Forall_app. rewrite Forall_cons. split_and!; [|cbn [fst snd]; unfold s2; by rewrite vmas_upd, lookup_insert_eq, <-Hw|]; (eapply holds_ext; [|eassumption]); intros a Hin; apply Hk; by intros ->.
  - intros a z [[<- <-]|[Hne Hz']]%lookup_insert_Some.
    + split; [done|]. unfold s2. rewrite vmas_upd, lookup_insert_ne, E1 by done. cbn. by rewrite Hva, Hvn, Hy.
    + destruct (Ho a z Hz') as [Ha0 Hv]. split; [done|]. assert (a ≠ p) as Hap'. { intros ->. rewrite Hap in Hz'; [done|]. set_solver. }
      rewrite <-Hv. unfold s2. rewrite vmas_upd, lookup_insert_ne by done. specialize (Sa a). specialize (Sn a). destruct (vmas s1 !! a), (vmas s !! a); try done. cbn in *. congruence.
  - intros a. rewrite fmap_app, fmap_cons. cbn [fst]. intros Hin. rewrite lookup_insert_ne; [apply Hap; set_solver|]. intros <-. apply elem_of_app in Hin as [?|[?|?]%elem_of_cons]; done.
  - apply (rings_same s1); [by apply (rings_same s)|by apply same_insert with vp1|done].
Qed.

Lemma count_down s L O R i :
  world s L O R → (i ≠ 0 → is_Some (inodes s !! i)) →
  ∃ s', when (negb (i =? 0)) (st_inode i (λ i, i <| i_count := i_count i - 1 |>)) s = Ret tt s' ∧ world s' L O R ∧
    vmas s' = vmas s ∧ mm s' = mm s ∧ calls s' = calls s ∧ (∀ K, refs s R (λ j, K j + if decide (i = j ∧ j ≠ 0) then 1 else 0) → refs s' R K).
Proof.
  intros Hw Hi. destruct (Z.eqb_spec i 0) as [->|Hne]; cbn [negb when].
  - exists s. split_and!; try done. intros K Hr j n Hj Hn. rewrite (Hr j n Hj Hn), decide_False by (intros [??]; congruence). lia.
  - destruct (Hi Hne) as [x Ex]. rewrite (st_inode_run _ _ _ _ Ex). eexists. split; [done|]. split_and!; try done.
    + apply (world_env s); try done. cbn. rewrite fmap_insert, insert_id; [done|]. by rewrite lookup_fmap, Ex.
    + intros K Hr j n Hj Hn. cbn in Hn. destruct (decide (i = j)) as [<-|Hij].
      * rewrite lookup_insert_eq in Hn. cbn in Hn. injection Hn as <-. rewrite (Hr i (i_count x) Hj) by (by rewrite Ex). rewrite decide_True by done. cbn. lia.
      * rewrite lookup_insert_ne in Hn by done. rewrite (Hr j n Hj Hn), decide_False by naive_solver. cbn. lia.
Qed.

Lemma merge_spec s L1 p x m y L2 O R :
  let L := L1 ++ (p, x) :: (m, y) :: L2 in
  let L' := L1 ++ (p, joined x y) :: L2 in
  world s L O R → cover L R → mergeable_areas x y = true →
  ∃ s' R', merge ops p m s = Ret tt s' ∧ world s' L' O R' ∧ cover L' R' ∧ merged s s' R R' L L'.
Proof.
  intros L L' Hw Hcov Hmg. pose proof (w_space _ _ _ _ Hw) as Hs. assert (a_end x = a_start y) as He by (unfold mergeable_areas in Hmg; rewrite !andb_true_iff, !Z.eqb_eq in Hmg; tauto).
  destruct (space_lookup s _ m y Hs) as (v & E & Hv & Hm0); [unfold L; set_solver|]. destruct (space_lookup s _ p x Hs) as (vp & Ep & Hvp & _); [unfold L; set_solver|].
  destruct (merge_unlink s L1 p x m y L2 O R v vp Hw E Ep He) as (s1 & s2 & v1 & E1 & Ev1 & Hn1 & Ha1 & Hl1 & E2 & Ev2 & Hw2 & Hr2 & Hi2). apply called_rest in Hr2.
  destruct (close_edited ops s2 _ _ R m v1 _ (λ v, v <| vm_offset := u32 (vm_offset v + (vm_end v - vm_start v)) |> <| vm_start := vm_end v |>) (has_op ops op_close v1) Hw2 ltac:(apply lookup_insert_eq) Ev2 (λ _, eq_refl))
    as (s3 & O3 & c3 & E3 & Hw3 & Hc3 & Ho3 & [z3 Em3] & Hb3 & Hi3 & Hlk3).
  destruct (vmas s3 !! m) as [v3|] eqn:Ev3; [|done]. apply (inj Some) in Hlk3. assert (vm_inode v3 = a_inode y) as Hvi. { rewrite Hl1 in Hlk3. unfold link in Hlk3. injection Hlk3 as -> _ _. by subst y. }
  assert (∃ l1 l2, vm_inode v3 ≠ 0 → R (vm_inode v3) = l1 ++ m :: l2) as (l1 & l2 & HRi).
  { destruct (decide (vm_inode v3 = 0)) as [|Hne]; [by exists [], []|]. destruct (list_elem_of_split (R (vm_inode v3)) m) as (l1 & l2 & ?); [|by exists l1, l2].
    apply Hcov. unfold L. rewrite inode_app, inode_cons, (inode_cons _ (m, y)), !inode_one, (decide_True (P := a_inode y = _ ∧ _)) by (by rewrite Hvi in *). set_solver. }
  destruct (ring_del s3 R m v3 (area_of v3) l1 l2 (w_rings _ _ _ _ Hw3) Ev3 eq_refl HRi) as [Hp1 Hm1]. destruct (remove_shared_spec s3 R m v3 l1 l2 (w_rings _ _ _ _ Hw3) Ev3 HRi) as (s4 & E4 & Hsh & HR4).
  set (R4 := if decide (vm_inode v3 = 0) then R else _) in *. pose proof (world_shares _ _ _ _ _ _ Hw3 Hsh HR4) as Hw4. destruct Hsh as (_ & Hrest4 & _ & _). apply called_rest in Hrest4.
  destruct (count_down s4 _ _ R4 (vm_inode v3) Hw4) as (s5 & E5 & Hw5 & Hv5 & Hm5 & Hc5 & Hr5).
  { intros Hi. apply (called_inode _ _ _ _ Hrest4). apply (rg_inode _ _ (w_rings _ _ _ _ Hw3) _ m). rewrite HRi by done. set_solver. }
  pose proof (world_free s5 _ O3 R4 m z3 Hw5 Em3 Hm1) as Hw6. exists (s5 <| vmas := delete m (vmas s5) |>), R4.
  pose proof (called_trans _ _ _ _ _ (called_trans _ _ _ _ _ Hr2 Hc3) Hrest4) as Hcall. cbn [app] in Hcall. rewrite app_nil_r in Hcall. pose proof (sp_ok _ _ Hs) as Hok. unfold L in Hok. rewrite fmap_app, !fmap_cons in Hok. cbn [snd] in Hok.
  assert (m ∉ L'.*1) as HmL. { intros Hin. apply (w_apart _ _ _ _ Hw2) in Hin. by rewrite lookup_insert_eq in Hin. }
  assert (∀ i b, b ∈ inode_in i L' → b ∈ inode_in i L) as HLL.
  { intros i b. unfold L, L'. rewrite !inode_app, (inode_cons _ (p, joined x y)), (inode_cons _ (p, x)), (inode_cons _ (m, y)), !inode_one. cbn [a_inode joined upd]. set_solver. }
  split_and!.
  - unfold merge, mbind, M_bind in *. rewrite E1, (ld_vma_run _ _ _ Ev1), E2, E3, E4. replace (vm_inode v1) with (vm_inode v3) by (unfold link in Hlk3; congruence). by rewrite E5.
  - apply (world_weaken _ _ _ _ _ Hw6). intros b z Hz. assert (m ≠ b) as Hne. { intros <-. rewrite (w_apart _ _ _ _ Hw) in Hz; [done|]. unfold L. rewrite fmap_app. set_solver. }
    by rewrite lookup_delete_ne, Hb3, lookup_insert_ne.
  - intros i b Hb. pose proof (inode_sub _ _ _ Hb) as Hb'. apply HLL, Hcov in Hb. rewrite (Hp1 i) in Hb. apply elem_of_app in Hb as [Hb|Hb]; [|done]. apply inode_sub in Hb. cbn in Hb. apply list_elem_of_singleton in Hb. by subst b.
  - split.
    + intros q. unfold L, L'. rewrite !fmap_app, !fmap_cons. by eapply joined_pmap.
    + unfold L, L'. rewrite !fmap_app, !fmap_cons. cbn [snd]. rewrite !npages_app, !nlocked_app. unfold npages, nlocked. rewrite !sumZ_cons. rewrite (joined_pages x y 0 L1.*2 L2.*2 He Hok). cbn [a_flags joined upd].
      assert (a_flags y = a_flags x) as -> by (unfold mergeable_areas in Hmg; rewrite !andb_true_iff, !Z.eqb_eq in Hmg; tauto). destruct (has (a_flags x) VM_LOCKED); lia.
    + change (mm (s5 <| vmas := ?V |>)) with (mm s5). rewrite Hm5. apply Hcall.
    + intros K Hr. apply Hr5. apply (refs_called s s4 R4 _ c3); [|done|done]. intros i n Hi Hn. rewrite (Hr i n Hi Hn), (Hp1 i), inode_one. cbn [a_inode area_of]. case_decide; cbn; lia.
    + exists c3. split; [|done]. cbn [calls upd]. rewrite Hc5. apply Hcall.
    + unfold L, L'. rewrite !fmap_app. set_solver.
Qed.

Lemma merged_refl s R L : merged s s R R L L.
Proof. split; try done. exists []. split; [by rewrite app_nil_r|apply op_calls_nil]. Qed.

Lemma merged_trans s1 s2 s3 R1 R2 R3 L1 L2 L3 : merged s1 s2 R1 R2 L1 L2 → merged s2 s3 R2 R3 L2 L3 → merged s1 s3 R1 R3 L1 L3.
Proof.
  intros [A1 A2 A3 A4 (c1 & A5 & A6) A7] [B1 B2 B3 B4 (c2 & B5 & B6) B7]. split.
  - intros p. by rewrite B1.
  - split; [by rewrite (proj1 B2), (proj1 A2)|by rewrite (proj2 B2), (proj2 A2)].
  - by rewrite B3.
  - intros K Hr. by apply B4, A4.
  - exists (c1 ++ c2). split; [by rewrite B5, A5, app_assoc|by apply op_calls_app].
  - set_solver.
Qed.

Lemma merge_loop_spec end_ L2 : ∀ fuel s L1 p x O R,
  (length L2 < fuel)%nat → world s (L1 ++ (p, x) :: L2) O R → cover (L1 ++ (p, x) :: L2) R →
  ∃ s' L' R', merge_loop ops fuel end_ p (head0 L2.*1) s = Ret tt s' ∧ world s' L' O R' ∧ cover L' R' ∧ merged s s' R R' (L1 ++ (p, x) :: L2) L'.
Proof.
  induction L2 as [|[m y] L2 IH]; intros fuel s L1 p x O R Hfuel Hw Hcov; (destruct fuel as [|fuel]; [lia|]); cbn [merge_loop].
  { exists s, (L1 ++ [(p, x)]), R. split_and!; try done. apply merged_refl. }
  pose proof (w_space _ _ _ _ Hw) as Hs. destruct (space_lookup s _ m y Hs) as (v & E & Hv & Hm0); [set_solver|]. destruct (space_lookup s _ p x Hs) as (vp & Ep & Hvp & _); [set_solver|].
  change (head0 ((m, y) :: L2).*1) with m. rewrite (proj2 (Z.eqb_neq _ _) Hm0). unfold mbind, M_bind. rewrite (ld_vma_run _ _ _ Ep). destruct (vm_start vp <? end_).
  2: { exists s, (L1 ++ (p, x) :: (m, y) :: L2), R. split_and!; try done. apply merged_refl. }
  rewrite (ld_vma_run _ _ _ E), mergeable_run, Hv, Hvp. assert (vm_next v = head0 L2.*1) as ->.
  { pose proof (sp_chain _ _ Hs) as Hc. rewrite fmap_app, !fmap_cons in Hc. cbn [fst] in Hc. rewrite (cons_middle p), app_assoc in Hc. by apply (chain_next _ _ _ _ _ _ Hc). }
  destruct (mergeable_areas x y) eqn:Emg.
  - destruct (merge_spec s L1 p x m y L2 O R Hw Hcov Emg) as (s1 & R1 & E1 & Hw1 & Hcov1 & Hmg1). rewrite E1. destruct (IH fuel s1 L1 p (joined x y) O R1 ltac:(cbn in *; lia) Hw1 Hcov1) as (s' & L' & R' & E' & Hw' & Hcov' & Hmg').
    exists s', L', R'. split_and!; try done. by eapply merged_trans.
  - rewrite (cons_middle (p, x)), app_assoc in Hw, Hcov |- *. by apply (IH fuel s (L1 ++ [(p, x)]) m y O R ltac:(cbn in *; lia)).
Qed.

Lemma merge_segments_spec s L O R start end_ :
  world s L O R → cover L R → ∃ s' L' R', merge_segments ops start end_ s = Ret tt s' ∧ world s' L' O R' ∧ cover L' R' ∧ merged s s' R R' L L'.
Proof.
  intros Hw Hcov. pose proof (w_space _ _ _ _ Hw) as Hs. unfold merge_segments, mbind, M_bind. rewrite (find_vma_spec _ _ _ Hs). unfold above0. destruct (above start L) as [[a x]|] eqn:Eab.
  2: { exists s, L, R. split_and!; try done. apply merged_refl. }
  apply above_some in Eab as (A & B & -> & _ & _). cbn [fmap option_fmap option_map fst default from_option id]. destruct (space_lookup _ _ a x Hs) as (v & E & Hv & Ha0); [set_solver|].
  rewrite (proj2 (Z.eqb_neq _ _) Ha0). destruct (space_avl _ _ Hs) as (T & HT & HTf). rewrite (avl_neighbours_spec s T a A.*1 B.*1 HT) by (by rewrite HTf, fmap_app, fmap_cons).
  unfold all_vmas, gets. pose proof (flat_bound _ _ _ (at_zip _ _ HT)) as Hlen. rewrite HTf, length_fmap, length_app in Hlen. cbn [length] in Hlen.
  destruct (decide (A = [])) as [->|HA].
  - change (last0 [].*1) with 0. cbn [Z.eqb]. apply (merge_loop_spec end_ B _ s []); [lia|done|done].
  - destruct (exists_last HA) as (A' & [p y] & ->). rewrite fmap_app. cbn [fmap list_fmap fst]. rewrite last0_snoc. destruct (space_lookup _ _ p y Hs) as (w & Ew & _ & Hp0); [set_solver|]. rewrite (proj2 (Z.eqb_neq _ _) Hp0).
    rewrite <-app_assoc in Hw, Hcov |- *. cbn [app] in *. apply (merge_loop_spec end_ ((a, x) :: B)); [|done|done]. rewrite length_app in Hlen. cbn [length] in *. lia.
Qed.

End merge.
