(* ===== verification/MmapMap.v ===== *)
(** * MmapMap: mapping

    [get_unmapped_area] finds the first free range, and [do_mmap] maps exactly its
    range, whatever was there. *)

From stdpp Require Import gmap sorting.
From S2P Require Import Prelude Vmalloc Avl AvlFacts AvlOps Mmap MmapRights MmapFacts MmapSteps MmapUnmap MmapMunmap MmapMerge.

(** ** Specification *)

(** [len] bytes from [r] on are free. *)
Definition free_range (l : list area) (r len : Z) : Prop := r + len ≤ TASK_SIZE ∧ Forall (λ x, a_end x ≤ r ∨ r + len ≤ a_start x) l.

(** ** Lemmas: free ranges *)

Lemma free_pmap l r len : free_range l r len → ∀ p, r ≤ p < r + len → pmap l p = None.
Proof. intros [_ Hf] p Hp. apply pmap_none. eapply Forall_impl; [exact Hf|]. cbn. lia. Qed.

(** An area goes into a free range. *)
Lemma areas_insert l1 y l2 : ∀ lo,
  areas_ok lo (l1 ++ l2) → Forall (λ x, a_end x ≤ a_start y) l1 → Forall (λ x, a_end y ≤ a_start x) l2 → lo ≤ a_start y < a_end y → a_end y ≤ TASK_SIZE →
  (PAGE_SIZE | a_start y) → (PAGE_SIZE | a_end y) → areas_ok lo (l1 ++ y :: l2).
Proof.
  induction l1 as [|x l1 IH]; intros lo; cbn [app areas_ok].
  - intros Hok _ H2 Hy Ht D1 D2. split_and!; try done; [lia..|]. destruct l2 as [|z l2]; [done|]. apply Forall_cons in H2 as [Hz _]. cbn in Hok |- *. naive_solver.
  - intros (Hx & E1 & E2 & Hok) [H1 H1']%Forall_cons H2 Hy Ht D1 D2. split_and!; try done; [lia..|]. apply IH; try done. lia.
Qed.

Lemma free_split (L : list (Z * area)) r len : ∀ lo, 0 < len → areas_ok lo L.*2 → free_range L.*2 r len →
  ∃ A B, L = A ++ B ∧ Forall (λ q, a_end q.2 ≤ r) A ∧ Forall (λ q, r + len ≤ a_start q.2) B.
Proof.
  intros lo Hlen Hok [_ Hf]. destruct (split_start (r + len) L lo Hok) as (A & B & -> & HA & HB). exists A, B. split_and!; try done. rewrite Forall_fmap in Hf. apply Forall_app in Hf as [Hf _].
  eapply Forall_impl; [apply Forall_and; split; [exact Hf|exact HA]|]. cbn. intros q. lia.
Qed.

(** The first free range from [addr] on, 0 if there is none. *)
Definition first_free (l : list area) (addr len r : Z) : Prop :=
  (r = 0 ∧ ∀ r', addr ≤ r' → ¬ free_range l r' len) ∨
  (r ≠ 0 ∧ addr ≤ r ∧ (PAGE_SIZE | r) ∧ free_range l r len ∧ ∀ r', addr ≤ r' < r → ¬ free_range l r' len).

Lemma unmapped_loop_spec s L O R len : world s L O R → 0 < len → ∀ B fuel A addr,
  L = A ++ B → (length B < fuel)%nat → 0 < addr → (PAGE_SIZE | addr) → Forall (λ q, a_end q.2 ≤ addr) A → Forall (λ q, addr < a_end q.2) B →
  ∃ r, unmapped_loop fuel addr len (head0 B.*1) s = Ret r s ∧ first_free L.*2 addr len r.
Proof.
  intros Hw Hlen B. induction B as [|[b y] B IH]; intros fuel A addr HL Hfuel Ha Hd HA HB; (destruct fuel as [|fuel]; [lia|]); cbn [unmapped_loop]; unfold MAX_USER_ADDR.
  all: destruct (Z.ltb_spec (TASK_SIZE - len) addr) as [Hgt|Hle]; [exists 0; split; [done|]; left; split; [done|]; intros r' Hr' [? _]; lia|].
  - exists addr. split; [done|]. right. split_and!; try done; try lia. split; [lia|]. rewrite HL, app_nil_r, Forall_fmap. eapply Forall_impl; [exact HA|]. cbn. lia.
  - pose proof (w_space _ _ _ _ Hw) as Hs. destruct (space_lookup s _ b y Hs) as (v & E & Hv & Hb0); [subst L; set_solver|]. change (head0 ((b, y) :: B).*1) with b. rewrite (proj2 (Z.eqb_neq _ _) Hb0).
    unfold mbind, M_bind. rewrite (ld_vma_run _ _ _ E). assert (vm_next v = head0 B.*1) as ->. { pose proof (sp_chain _ _ Hs) as Hc. rewrite HL, fmap_app, fmap_cons in Hc. by apply (chain_next _ _ _ _ _ _ Hc). }
    replace (vm_start v) with (a_start y) by (by subst y). replace (vm_end v) with (a_end y) by (by subst y).
    pose proof (sp_ok _ _ Hs) as Hok. rewrite HL, fmap_app, fmap_cons in Hok. cbn [snd] in Hok. destruct (areas_split _ _ _ _ Hok) as [Hb1 Hb2]. pose proof (areas_one _ _ _ Hok) as (Hy & _ & Hdy & _).
    destruct (Z.leb_spec (addr + len) (a_start y)) as [Hfit|Hnot].
    + exists addr. split; [done|]. right. split_and!; try done; try lia. split; [lia|]. rewrite HL, fmap_app, fmap_cons, Forall_app, Forall_cons, !Forall_fmap. rewrite Forall_fmap in Hb2.
      split_and!; [eapply Forall_impl; [exact HA|]; cbn; lia|cbn; lia|eapply Forall_impl; [exact Hb2|]; cbn; intros; lia].
    + assert (∀ r', addr ≤ r' < a_end y → ¬ free_range L.*2 r' len) as Hno. { intros r' Hr' [_ Hf]. rewrite HL, fmap_app, fmap_cons, Forall_app, Forall_cons in Hf. destruct Hf as (_ & Hf & _). cbn in Hf. lia. }
      destruct (IH fuel (A ++ [(b, y)]) (a_end y)) as (r & Er & Hr); [by rewrite <-app_assoc|cbn in *; lia|lia|done| | |].
      { apply Forall_app. rewrite Forall_singleton. split; [|cbn; lia]. rewrite Forall_fmap in Hb1. eapply Forall_impl; [exact Hb1|]. cbn. intros; cbn in *; lia. }
      { apply areas_below in Hok. rewrite Forall_app, Forall_cons in Hok. destruct Hok as (_ & _ & Hok). rewrite Forall_fmap in Hok, Hb2. eapply Forall_impl; [apply Forall_and; split; [exact Hok|exact Hb2]|]. cbn. intros q [??]. lia. }
      exists r. split; [done|]. apply Forall_cons in HB as [HBy _]. cbn in HBy. destruct Hr as [[-> Hr]|(Hr0 & Hr1 & Hr2 & Hr3 & Hr4)]; [left|right].
      * split; [done|]. intros r' Hr'. destruct (decide (r' < a_end y)); [apply Hno; lia|apply Hr; lia].
      * split_and!; try done; [lia|]. intros r' Hr'. destruct (decide (r' < a_end y)); [apply Hno; lia|apply Hr4; lia].
Qed.

Lemma get_unmapped_area_spec s L O R addr len :
  world s L O R → 0 ≤ addr ≤ TASK_SIZE → 0 < len ≤ TASK_SIZE →
  ∃ r, get_unmapped_area addr len s = Ret r s ∧ first_free L.*2 (PAGE_ALIGN (if addr =? 0 then MMAP_SEARCH_START else addr)) len r.
Proof.
  intros Hw Ha Hlen. unfold get_unmapped_area, MAX_USER_ADDR. rewrite (proj2 (Z.ltb_ge _ _)) by lia. set (a := if addr =? 0 then MMAP_SEARCH_START else addr).
  assert (0 < a ≤ TASK_SIZE) as Ha' by (unfold a; destruct (Z.eqb_spec addr 0); [by split|lia]). destruct (page_align_up a) as [Hd Hb]; [lia|]. set (b := PAGE_ALIGN a) in *.
  pose proof (w_space _ _ _ _ Hw) as Hs. unfold mbind, M_bind. rewrite (find_vma_spec _ _ _ Hs). unfold all_vmas, gets, above0. pose proof (dom_bound (vmas s) L.*1 (space_nodup _ _ Hs)) as Hlen'. rewrite length_fmap in Hlen'.
  assert (length L ≤ length (map_to_list (vmas s)))%nat as HL by (apply Hlen'; intros c Hc; apply (world_dom _ _ _ _ _ Hw); by left). destruct (above b L) as [q|] eqn:Eab.
  - apply above_some in Eab as (A & B & -> & Hq & HA). rewrite length_app in HL. cbn [length] in HL. apply (unmapped_loop_spec s _ O R len Hw ltac:(lia) (q :: B) _ A b); try done; [cbn [length]; lia|lia|].
    pose proof (sp_ok _ _ Hs) as Hok. rewrite fmap_app, fmap_cons in Hok. destruct (areas_split _ _ _ _ Hok) as [_ Hb2]. apply areas_below in Hok. rewrite Forall_app, Forall_cons in Hok. destruct Hok as (_ & _ & Hok). rewrite Forall_fmap in Hok, Hb2.
    constructor; [done|]. eapply Forall_impl; [apply Forall_and; split; [exact Hok|exact Hb2]|]. cbn. intros r [??]. lia.
  - apply above_none in Eab. apply (unmapped_loop_spec s L O R len Hw ltac:(lia) [] _ L b); try done; [by rewrite app_nil_r|cbn; lia|lia].
Qed.

(** ** Lemmas: a new area *)

Lemma pmap_insert l1 y l2 p : Forall (λ x, a_end x ≤ a_start y) l1 →
  pmap (l1 ++ y :: l2) p = if decide (a_start y ≤ p < a_end y) then Some (attr_at y p) else pmap (l1 ++ l2) p.
Proof.
  intros H1. rewrite !pmap_app. cbn [pmap]. destruct (Z.leb_spec (a_start y) p), (Z.ltb_spec p (a_end y)); cbn [andb]; case_decide; try lia; try done.
  assert (pmap l1 p = None) as ->; [|done]. apply pmap_none. eapply Forall_impl; [exact H1|]. cbn. intros; lia.
Qed.

Lemma cut_free lo hi l : ∀ b, areas_ok b l → lo < hi → Forall (λ x, a_end x ≤ lo ∨ hi ≤ a_start x) (l ≫= cut lo hi).
Proof.
  induction l as [|x l IH]; intros b; cbn [areas_ok]; [by constructor|]. intros (Hx & _ & _ & Hl) Hlt. cbn [mbind list_bind]. apply Forall_app. split; [|by eapply IH].
  unfold cut, cut_left, cut_right. destruct (Z.ltb_spec (a_start x) lo), (Z.ltb_spec hi (a_end x)); cbn; rewrite ?Forall_cons, ?Forall_nil; cbn; repeat split; lia.
Qed.

Lemma pmap_some l p t : ∀ lo, areas_ok lo l → pmap l p = Some t ↔ ∃ x, x ∈ l ∧ a_start x ≤ p < a_end x ∧ t = attr_at x p.
Proof.
  induction l as [|x l IH]; intros lo; cbn [areas_ok pmap]; [intros _; split; [done|]; by intros (x & ?%elem_of_nil & _)|]. intros (Hx & _ & _ & Hl). setoid_rewrite elem_of_cons. specialize (IH _ Hl). apply areas_below in Hl. rewrite Forall_forall in Hl.
  destruct (Z.leb_spec (a_start x) p), (Z.ltb_spec p (a_end x)); cbn [andb].
  - split; [intros [= <-]; exists x; by auto|]. intros (y & [->|Hy] & Hp & ->); [done|]. specialize (Hl y Hy). lia.
  - rewrite IH. split; [naive_solver|]. intros (y & [->|Hy] & Hp & ->); [lia|]. by exists y.
  - rewrite IH. split; [naive_solver|]. intros (y & [->|Hy] & Hp & ->); [lia|]. by exists y.
  - rewrite IH. split; [naive_solver|]. intros (y & [->|Hy] & Hp & ->); [lia|]. by exists y.
Qed.

(** What is left by a failing [kmalloc] was there before. *)
Lemma pmap_sub l l' p t lo : areas_ok lo l → areas_ok lo l' → l' `sublist_of` l → pmap l' p = Some t → pmap l p = Some t.
Proof. intros H1 H2 Hs. rewrite (pmap_some l' p t lo H2), (pmap_some l p t lo H1). intros (x & Hx & ?). exists x. split; [by eapply elem_of_sublist|done]. Qed.

Lemma touch_run n : ∀ a s, ∃ cs, touch_pages n a s = Ret tt (s <| calls := calls s ++ cs |>) ∧ (∀ i, iputs i cs = 0) ∧ ∀ p, ¬ zapped cs p.
Proof.
  induction n as [|n IH]; intros a s; cbn [touch_pages].
  - exists []. rewrite app_nil_r. split_and!; [by destruct s|done|]. intros p. apply op_calls_zap, op_calls_nil.
  - unfold mbind, M_bind, log, modify. destruct (IH (u32 (a + PAGE_SIZE)) (s <| calls := calls s ++ [Touch a] |>)) as (cs & E & Hi & Hz). exists ([Touch a] ++ cs). rewrite E. split_and!.
    + cbn. by rewrite <-app_assoc.
    + intros i. by rewrite iputs_app, Hi.
    + intros p. rewrite zapped_app. intros [(st & len & Hin & _)|Hin]; [set_solver|by apply (Hz p)].
Qed.

(** Counters with [len] bytes more. *)
Definition counted_up (m : mm_struct) (x : area) (len : Z) : mm_struct :=
  m <| total_vm := u32 (total_vm m + Z.shiftr len PAGE_SHIFT) |>
    <| locked_vm := if has (a_flags x) VM_LOCKED then u32 (locked_vm m + Z.shiftr len PAGE_SHIFT) else locked_vm m |>.

Lemma counted_run s x addr len :
  ∃ s' cs, (mod_mm (λ m, m <| total_vm := u32 (total_vm m + Z.shiftr len PAGE_SHIFT) |>) ;;
      when (has (a_flags x) VM_LOCKED)
        (mod_mm (λ m, m <| locked_vm := u32 (locked_vm m + Z.shiftr len PAGE_SHIFT) |>) ;; touch_pages (Z.to_nat (Z.shiftr len PAGE_SHIFT)) addr) ;;
      mret addr) s = Ret addr s' ∧
    s' = (s <| mm := counted_up (mm s) x len |>) <| calls := calls s ++ cs |> ∧ (∀ i, iputs i cs = 0) ∧ ∀ p, ¬ zapped cs p.
Proof.
  unfold mbind, M_bind, mod_mm, modify, when, counted_up. destruct (has (a_flags x) VM_LOCKED).
  - match goal with |- context [touch_pages ?n ?a ?st] => destruct (touch_run n a st) as (cs & E & Hi & Hz) end. rewrite E. by eexists _, cs.
  - eexists _, []. split_and!; [done|by rewrite app_nil_r; destruct s|done|]. intros p. apply op_calls_zap, op_calls_nil.
Qed.

(** The pages of the process with [len] bytes more, as bytes. *)
Lemma total_bytes t len : (PAGE_SIZE | len) → u32 (Z.shiftl (u32 (t + Z.shiftr len PAGE_SHIFT)) PAGE_SHIFT) = u32 (Z.shiftl t PAGE_SHIFT + len).
Proof.
  intros [q ->]. unfold PAGE_SHIFT, PAGE_SIZE, u32. rewrite Z.shiftr_div_pow2, !Z.shiftl_mul_pow2 by done. change (2 ^ 12) with 4096. rewrite Z.div_mul, Z.mul_mod_idemp_l by done. f_equal. lia.
Qed.

Lemma mmap_allowed_sign f prot flags : mmap_allowed f prot flags ≤ 0.
Proof. unfold mmap_allowed. destruct f; repeat (case_match; try done). Qed.

Section mmap.

Context (kmalloc : vms → Z) (ops : Z → vm_operations_struct).
Context (kmalloc_fresh : ∀ s, kmalloc s ≠ 0 → vmas s !! kmalloc s = None).

Definition fixed (m : mm_struct) : mm_struct := m <| mmap := 0 |> <| mmap_avl := 0 |> <| total_vm := 0 |> <| locked_vm := 0 |>.

(** The new area [y] is in the map. *)
Record inserted (s s' : vms) (R R' : Z → list Z) (y : area) (L L' : list (Z * area)) : Prop := {
  in_pmap : ∀ p, pmap L'.*2 p = if decide (a_start y ≤ p < a_end y) then Some (attr_at y p) else pmap L.*2 p;
  in_tally : tally s L.*2 → tally s' L'.*2;
  in_fixed : fixed (mm s') = fixed (mm s);
  in_refs : ∀ K, refs s R (λ i, K i + if decide (a_inode y = i ∧ i ≠ 0) then 1 else 0) → refs s' R' K;
  in_calls : ∃ cs, calls s' = calls s ++ cs ∧ ∀ p, ¬ zapped cs p;
  in_total : total_vm (mm s') = u32 (total_vm (mm s) + Z.shiftr (a_end y - a_start y) PAGE_SHIFT);
}.

Lemma mmap_insert_spec s A B O R n y nx addr len :
  world s (A ++ B) O R → cover (A ++ B) R → O !! n = Some (y, nx) → (∀ i, n ∉ R i) → (a_inode y ≠ 0 → is_Some (inodes s !! a_inode y)) →
  Forall (λ q, a_end q.2 ≤ addr) A → Forall (λ q, addr + len ≤ a_start q.2) B → 0 ≤ addr → 0 < len → addr + len ≤ TASK_SIZE → (PAGE_SIZE | addr) → (PAGE_SIZE | len) →
  a_start y = addr → a_end y = addr + len →
  ∃ s' L' R', mmap_insert ops n addr len s = Ret addr s' ∧ world s' L' (delete n O) R' ∧ cover L' R' ∧ inserted s s' R R' y (A ++ B) L'.
Proof.
  intros Hw Hcov En Hn Hino HA HB Ha Hlen Ht Hd Hdl Hy1 Hy2. destruct (w_others _ _ _ _ Hw n _ En) as [Hn0 Hv]. destruct (vmas s !! n) as [v|] eqn:E; [|done]. injection Hv as Hv Hnx.
  assert (areas_ok 0 (A ++ (n, y) :: B).*2) as Hok.
  { rewrite fmap_app, fmap_cons. cbn [snd]. pose proof (sp_ok _ _ (w_space _ _ _ _ Hw)) as Hok. rewrite fmap_app in Hok. apply areas_insert; rewrite ?Hy1, ?Hy2, ?Forall_fmap; try done; [lia|by apply Z.divide_add_r]. }
  unfold mmap_insert, mbind, M_bind. rewrite (ld_vma_run _ _ _ E). destruct (insert_vm_struct_spec s A B O R n y nx Hw En Hn Hino Hok) as (s1 & E1 & Hw1 & Hr1). rewrite E1. apply called_rest in Hr1 as Hc1.
  assert (cover (A ++ (n, y) :: B) (ring_ins R (a_inode y) n)) as Hcov1.
  { intros i b Hb. rewrite ring_ins_perm. rewrite inode_app, inode_cons in Hb. apply elem_of_app. specialize (Hcov i). rewrite inode_app in Hcov. set_solver. }
  destruct (merge_segments_spec ops s1 _ _ _ (vm_start v) (vm_end v) Hw1 Hcov1) as (s2 & L2 & R2 & E2 & Hw2 & Hcov2 & [M1 M2 M3 M4 (c2 & M5 & M6) M7]). rewrite E2.
  set (s3 := s2 <| mm := counted_up (mm s2) y len |>). replace (vm_flags v) with (a_flags y) by (by subst y).
  destruct (counted_run s2 y addr len) as (s' & cs & E3 & Hs' & Hi3 & Hz3). fold s3 in Hs'. destruct Hc1 as (Hm1 & Hi1 & Hcs1). rewrite app_nil_r in Hcs1.
  exists s', L2, R2. split_and!; [exact E3|by rewrite Hs'; apply world_log; apply (world_env s2)|done|]. assert (fixed (mm s2) = fixed (mm s)) as Hfix.
  { unfold fixed. apply (f_equal (λ m, m <| total_vm := 0 |> <| locked_vm := 0 |>)) in M3, Hm1. etrans; [exact M3|exact Hm1]. }
  split.
  - intros p. rewrite M1, !fmap_app, fmap_cons. apply pmap_insert. rewrite Forall_fmap, Hy1. done.
  - intros [HT HL]. assert (total_vm (mm s2) = total_vm (mm s) ∧ locked_vm (mm s2) = locked_vm (mm s)) as [HT2 HL2].
    { split; [apply (f_equal total_vm) in M3, Hm1|apply (f_equal locked_vm) in M3, Hm1]; cbn in *; congruence. }
    rewrite Hs'. unfold tally. cbn [mm upd calls]. unfold s3, counted_up. cbn. rewrite HT2, HL2, HT, HL, (proj1 M2), (proj2 M2). pose proof (areas_pages _ _ Hok) as Hb.
    assert (pages y = Z.shiftr len PAGE_SHIFT) as Hp by (unfold pages; f_equal; lia). rewrite !fmap_app, fmap_cons in *. cbn [snd] in *. rewrite !npages_app, !nlocked_app in *. unfold npages, nlocked in *. rewrite !sumZ_cons in *. rewrite Hp in *.
    pose proof (areas_pages _ _ (areas_without _ _ _ _ Hok)) as Hb'. rewrite npages_app, nlocked_app in Hb'. unfold npages, nlocked in Hb'. unfold PAGE_SIZE, TASK_SIZE in *.
    assert (0 ≤ Z.shiftr len PAGE_SHIFT) by (apply Z.shiftr_nonneg; lia). destruct (has (a_flags y) VM_LOCKED); rewrite !u32_id by lia; split; lia.
  - rewrite Hs'. exact Hfix.
  - intros K Hr. assert (refs s2 R2 K) as Hr2.
    { apply M4. apply (refs_ring s1 R _ K [(n, y)]); [|apply ring_ins_perm]. apply (refs_called s s1 R _ []); [|split_and!; rewrite ?app_nil_r; done|apply op_calls_nil].
      intros i m Hi Hm. rewrite (Hr i m Hi Hm), inode_one. by case_decide. }
    intros i m Hi Hm. rewrite Hs' in Hm |- *. change (i_count <$> inodes s2 !! i = Some m) in Hm. rewrite (Hr2 i m Hi Hm). cbn [calls upd]. change (calls s3) with (calls s2). rewrite iputs_app, Hi3. lia.
  - exists (c2 ++ cs). rewrite Hs'. cbn [calls upd]. change (calls s3) with (calls s2). rewrite M5, Hcs1, app_assoc. split; [done|]. intros p. rewrite zapped_app. intros [Hz|Hz]; [by apply op_calls_zap in Hz|by apply (Hz3 p)].
  - rewrite Hs', Hy1, Hy2. replace (addr + len - addr) with len by lia. cbn. do 2 f_equal. apply (f_equal total_vm) in M3, Hm1. cbn in *. congruence.
Qed.

Lemma released_range_free s s' R R' lo hi L L' : released kmalloc s s' R R' lo hi L L' → areas_ok 0 L.*2 → lo < hi → hi ≤ TASK_SIZE → free_range L'.*2 lo (hi - lo).
Proof.
  intros Hr Hok Hlt Ht. split; [lia|]. replace (lo + (hi - lo)) with hi by lia. pose proof (cut_free lo hi _ _ Hok Hlt) as Hf. rewrite Forall_forall in *. intros x Hx. apply Hf. eapply elem_of_sublist; [exact Hx|apply Hr].
Qed.

(** The range from [lo] to [hi] is a new area [y], the rest as before. *)
Record mapped (s s' : vms) (R R' : Z → list Z) (lo hi : Z) (y : area) (L L' : list (Z * area)) : Prop := {
  mp_pmap : mem_ok kmalloc → ∀ p, pmap L'.*2 p = if decide (lo ≤ p < hi) then Some (attr_at y p) else pmap L.*2 p;
  mp_new : ∀ p, lo ≤ p < hi → pmap L'.*2 p = Some (attr_at y p);
  mp_old : ∀ p t, ¬ lo ≤ p < hi → pmap L'.*2 p = Some t → pmap L.*2 p = Some t;
  mp_tally : mem_ok kmalloc → tally s L.*2 → tally s' L'.*2;
  mp_fixed : fixed (mm s') = fixed (mm s);
  mp_refs : mem_ok kmalloc → ∀ K, refs s R K → refs s' R' K;
}.

Lemma mapped_steps s s1 s2 s' R R1 R' lo hi y L L1 L' :
  released kmalloc s s1 R R1 lo hi L L1 → inserted s2 s' R1 R' y L1 L' → mm s2 = mm s1 →
  (∀ K, refs s1 R1 K → refs s2 R1 (λ j, K j + if decide (a_inode y = j ∧ j ≠ 0) then 1 else 0)) →
  areas_ok 0 L.*2 → areas_ok 0 L1.*2 → (PAGE_SIZE | lo) → (PAGE_SIZE | hi) → lo < hi → a_start y = lo → a_end y = hi → mapped s s' R R' lo hi y L L'.
Proof.
  intros Hr Hi Hm Hrefs Hok Hok1 Hlo Hhi Hlt <- <-. assert (areas_ok 0 (L.*2 ≫= cut (a_start y) (a_end y))) as Hokc.
  { pose proof (areas_cut L.*2 _ _ Hlo Hhi Hlt [] [] (L.*2 ≫= cut (a_start y) (a_end y))) as H. rewrite !app_nil_r in H. by apply H. } split.
  - intros Hmem p. rewrite (in_pmap _ _ _ _ _ _ _ Hi), (rl_all _ _ _ _ _ _ _ _ _ Hr Hmem). case_decide as Hd; [done|]. by rewrite (pmap_cut _ _ _ _ Hlt _ Hok), decide_False.
  - intros p Hp. by rewrite (in_pmap _ _ _ _ _ _ _ Hi), decide_True.
  - intros p t Hp. rewrite (in_pmap _ _ _ _ _ _ _ Hi), decide_False by done. intros Ht. apply (pmap_sub _ _ _ _ 0 Hokc Hok1) in Ht; [|apply Hr]. by rewrite (pmap_cut _ _ _ _ Hlt _ Hok), decide_False in Ht.
  - intros Hmem Ht. apply (in_tally _ _ _ _ _ _ _ Hi). unfold tally. rewrite Hm. by apply (released_tally _ _ _ _ _ _ _ _ _ Hr Hmem).
  - rewrite (in_fixed _ _ _ _ _ _ _ Hi), Hm. apply Hr.
  - intros Hmem K HK. apply (in_refs _ _ _ _ _ _ _ Hi), Hrefs. by apply (rl_refs _ _ _ _ _ _ _ _ _ Hr).
Qed.

(** The [mmap] operation of a file: an error, or the area in its place, and the
    inode that it maps is there. *)
Definition file_ok (I : gmap Z inode) (f : option file) : Prop := ∀ op v, f ≫= f_mmap = Some op →
  (op v).1 ≤ 0 ∧ ((op v).1 = 0 → vm_start (op v).2 = vm_start v ∧ vm_end (op v).2 = vm_end v ∧ (vm_inode (op v).2 ≠ 0 → is_Some (I !! vm_inode (op v).2))).

(** The area that a file makes of [y]. *)
Definition area_for (f : option file) (y y' : area) : Prop := ∃ v, area_of v = y ∧ y' = match f ≫= f_mmap with Some op => area_of (op v).2 | None => y end.

Context (rlim : limits) (mem : vms → memory).

Lemma released_outside s s' R R' lo hi L L' V : released kmalloc s s' R R' lo hi L L' → released kmalloc s (s' <| vmas := V |>) R R' lo hi L L'.
Proof. by intros [H1 H2 H3 H4 H5 H6 H7 H8 H9]. Qed.

(** An area that is in no ring is given other contents. *)
Lemma world_over s L O R n x v :
  world s L O R → O !! n = Some x → (∀ i, n ∉ R i) → world (s <| vmas := <[n := v]> (vmas s) |>) L (<[n := (area_of v, vm_next v)]> O) R.
Proof.
  intros Hw En Hn. apply (world_outside s _ L O); [done|..].
  - intros a Ha. rewrite lookup_insert_ne; [done|]. intros <-. destruct Ha as [Ha|[i Ha]]; [|by eapply Hn]. rewrite (w_apart _ _ _ _ Hw) in En; done.
  - intros a y [[<- <-]|[Hne Hy]]%lookup_insert_Some; [rewrite lookup_insert_eq; split; [by eapply (w_others _ _ _ _ Hw)|done]|]. rewrite lookup_insert_ne by done. by apply (w_others _ _ _ _ Hw).
  - intros a Ha. rewrite lookup_insert_ne; [by apply (w_apart _ _ _ _ Hw)|]. intros <-. rewrite (w_apart _ _ _ _ Hw) in En; done.
Qed.

(** The area [y] is private and can be written, so that there must be memory for it. *)
Definition needs_memory (y : area) : Prop := Z.testbit (a_flags y) 1 = true ∧ Z.testbit (a_flags y) 3 = false.

(** Why [do_mmap] fails once it has an area: there would be too many pages, there is
    no memory for them, or the operation of the file says so. *)
Definition late_refusal (f : option file) (s' : vms) (len : Z) (y : area) (r : Z) : Prop :=
  (r = - ENOMEM ∧ RLIMIT_AS rlim < u32 (Z.shiftl (total_vm (mm s')) PAGE_SHIFT + len)) ∨
  (r = - ENOMEM ∧ needs_memory y ∧ ∃ s1, vm_enough_memory (mem s1) (Z.shiftr len PAGE_SHIFT) = false) ∨
  ∃ op v, f ≫= f_mmap = Some op ∧ area_of v = y ∧ r = (op v).1.

(** What holds once it has not failed. *)
Definition late_checks (s' : vms) (len : Z) (y : area) : Prop :=
  u32 (Z.shiftl (total_vm (mm s')) PAGE_SHIFT) ≤ RLIMIT_AS rlim ∧
  (needs_memory y → ∃ s1, vm_enough_memory (mem s1) (Z.shiftr len PAGE_SHIFT) = true).

(** What [do_mmap] makes of the range once it has an area. *)
Definition mmap_outcome (f : option file) (s s' : vms) (R R' : Z → list Z) (addr len : Z) (y : area) (L L' : list (Z * area)) (r : Z) : Prop :=
  (r < 0 ∧ late_refusal f s' len y r ∧ released kmalloc s s' R R' addr (addr + len) L L') ∨
  (r = addr ∧ late_checks s' len y ∧ ∃ y', area_for f y y' ∧ a_start y' = addr ∧ a_end y' = addr + len ∧ mapped s s' R R' addr (addr + len) y' L L').

Lemma mmap_area_spec f s L O R n y nx addr len :
  world s L (<[n := (y, nx)]> O) R → O !! n = None → cover L R → (∀ i, n ∉ R i) → 0 ≤ addr → 0 < len → addr + len ≤ TASK_SIZE → (PAGE_SIZE | addr) → (PAGE_SIZE | len) →
  a_start y = addr → a_end y = addr + len → a_inode y = 0 → file_ok (inodes s) f →
  ∃ r s' L' R', mmap_area kmalloc ops rlim mem f n addr len s = Ret r s' ∧ world s' L' O R' ∧ cover L' R' ∧ mmap_outcome f s s' R R' addr len y L L' r.
Proof.
  intros Hw En Hcov Hn Ha Hlen Ht Hd Hdl Hy1 Hy2 Hyi Hf. pose proof (sp_ok _ _ (w_space _ _ _ _ Hw)) as Hok. assert (PAGE_ALIGN len = len) as Hal.
  { destruct (page_align_up len) as [Hd1 Hb]; [lia|]. destruct Hdl as [a Hla], Hd1 as [b Hlb]. unfold PAGE_SIZE in Hla, Hlb, Hb. lia. }
  destruct (do_munmap_spec kmalloc ops kmalloc_fresh s L _ R addr len Hw Hcov) as (s1 & L1 & R1 & E1 & Hw1 & Hcov1 & Hr1); [split_and!; try done; lia|]. rewrite Hal in Hr1.
  pose proof (sp_ok _ _ (w_space _ _ _ _ Hw1)) as Hok1. assert (addr < addr + len) as Hlt by lia. assert (PAGE_SIZE | addr + len) as Hhi by (by apply Z.divide_add_r).
  assert (∀ i, n ∉ R1 i) as Hn1.
  { intros i Hin. assert (n ∈ inode_in i L1 ++ R i) as H. { rewrite <-(rl_rings _ _ _ _ _ _ _ _ _ Hr1 i). apply elem_of_app. by right. }
    apply elem_of_app in H as [H|H]; [|by apply (Hn i)]. apply inode_sub in H. apply (w_apart _ _ _ _ Hw1) in H. by rewrite lookup_insert_eq in H. }
  assert (∀ x, delete n (<[n := x]> O) = O) as Hdel by (intros x; by rewrite delete_insert_id).
  assert (world (s1 <| vmas := delete n (vmas s1) |>) L1 O R1) as Hwf. { rewrite <-(Hdel (y, nx)). by apply (world_free s1 L1 _ R1 n (y, nx)); [|by rewrite lookup_insert_eq|]. }
  assert (late_refusal f s1 len y (- ENOMEM) → ∃ r s' L' R', (kfree n ;; mret (- ENOMEM)) s1 = Ret r s' ∧ world s' L' O R' ∧ cover L' R' ∧ mmap_outcome f s s' R R' addr len y L L' r) as Hfail.
  { intros Hl. eexists (- ENOMEM), _, L1, R1. split_and!; [done|exact Hwf|done|]. left. split; [done|]. split; [exact Hl|by apply released_outside]. }
  destruct (w_others _ _ _ _ Hw1 n _ (lookup_insert_eq _ _ _)) as [Hn0 Hv]. destruct (vmas s1 !! n) as [v|] eqn:E; [|done]. injection Hv as Hv Hnx.
  unfold mmap_area. remember (f ≫= f_mmap) as fo eqn:Ef. symmetry in Ef. unfold mbind, M_bind, gets in Hfail |- *. rewrite E1. destruct (Z.ltb_spec (RLIMIT_AS rlim) (u32 (Z.shiftl (total_vm (mm s1)) PAGE_SHIFT + len))) as [Hlim|Hlim]; [apply Hfail; by left|].
  rewrite (ld_vma_run _ _ _ E), private_write. replace (vm_flags v) with (a_flags y) by (by subst y).
  destruct (Z.testbit (a_flags y) 1 && negb (Z.testbit (a_flags y) 3) && negb (vm_enough_memory (mem s1) (Z.shiftr len PAGE_SHIFT))) eqn:Emem.
  { apply Hfail. right. left. rewrite !andb_true_iff, !negb_true_iff in Emem. destruct Emem as [[? ?] ?]. split_and!; [done|done|by exists s1]. } clear Hfail.
  assert (needs_memory y → ∃ s1, vm_enough_memory (mem s1) (Z.shiftr len PAGE_SHIFT) = true) as Hmemory.
  { intros [H1 H3]. rewrite H1, H3 in Emem. exists s1. by apply negb_false_iff in Emem. }
  assert (∀ s', total_vm (mm s') = u32 (total_vm (mm s1) + Z.shiftr (addr + len - addr) PAGE_SHIFT) → late_checks s' len y) as Hchecks.
  { intros s' Htot. split; [|exact Hmemory]. rewrite Htot. replace (addr + len - addr) with len by lia. by rewrite total_bytes. }
  pose proof (released_range_free _ _ _ _ _ _ _ _ Hr1 Hok ltac:(lia) ltac:(lia)) as Hfree. replace (addr + len - addr) with len in Hfree by lia.
  destruct (free_split L1 addr len 0 Hlen Hok1 Hfree) as (A & B & -> & HA & HB). destruct fo as [op|].
  - destruct (Hf op v Ef) as [Herr Hgood]. destruct (op v) as [e v'] eqn:Eop. cbn [fst snd] in *. destruct (Z.eqb_spec e 0) as [->|He]; cbn [negb Z.eqb].
    + destruct (Hgood eq_refl) as (Hs' & He' & Hi'). pose proof (world_over s1 _ _ R1 n (y, nx) v' Hw1 ltac:(apply lookup_insert_eq) Hn1) as Hw2. rewrite insert_insert_eq in Hw2. unfold put_vma, modify.
      set (s2 := s1 <| vmas := <[n := v']> (vmas s1) |>) in *. destruct (count_up s2 _ _ R1 (vm_inode v') Hw2) as (s3 & E3 & Hw3 & Hv3 & Hm3 & Hc3 & Hi3 & Hr3); [intros Hi; by apply (rl_inodes _ _ _ _ _ _ _ _ _ Hr1), Hi'|].
      rewrite E3. destruct (mmap_insert_spec s3 A B _ R1 n (area_of v') (vm_next v') addr len Hw3 Hcov1 ltac:(apply lookup_insert_eq) Hn1) as (s' & L' & R' & E' & Hw' & Hcov' & Hins); try done.
      { intros Hi. apply Hi3. by apply (rl_inodes _ _ _ _ _ _ _ _ _ Hr1), Hi'. } { cbn. subst y. by rewrite Hs'. } { cbn. subst y. by rewrite He'. }
      assert (a_start (area_of v') = addr ∧ a_end (area_of v') = addr + len) as [Hv1 Hv2] by (cbn; subst y; by rewrite Hs', He').
      rewrite Hdel in Hw'. exists addr, s', L', R'. split_and!; try done. right. split; [done|]. split; [pose proof (in_total _ _ _ _ _ _ _ Hins) as Htot; rewrite Hv1, Hv2, Hm3 in Htot; by apply Hchecks|].
      exists (area_of v'). split_and!; [exists v; by rewrite Ef, Eop|done|done|]. eapply (mapped_steps s s1 s3); done.
    + eexists e, _, (A ++ B), R1. split_and!; [done|exact Hwf|done|]. left. split; [lia|]. split; [right; right; exists op, v; by rewrite Eop|]. by apply released_outside.
  - destruct (mmap_insert_spec s1 A B _ R1 n y nx addr len Hw1 Hcov1 ltac:(apply lookup_insert_eq) Hn1) as (s' & L' & R' & E' & Hw' & Hcov' & Hins); try done. rewrite Hdel in Hw'.
    exists addr, s', L', R'. split_and!; try done. right. split; [done|]. split; [pose proof (in_total _ _ _ _ _ _ _ Hins) as Htot; rewrite Hy1, Hy2 in Htot; by apply Hchecks|].
    exists y. split_and!; try done; [exists v; by rewrite Ef|]. eapply mapped_steps; try done.
    intros K HK i m Hi Hm. rewrite (HK i m Hi Hm), Hyi, decide_False by naive_solver. lia.
Qed.

(** The area that [do_mmap] asks for. *)
Definition new_area (s : vms) (f : option file) (addr len prot flags off : Z) : area :=
  let fl := mmap_flags f prot flags (def_flags (mm s)) in MkArea addr (addr + len) fl (protection fl) 0 off 0 0.

(** The area asked for: its range, the flags and page protection that go with the
    request, and the offset; what it is an area of is up to the file. *)
Record asked (s : vms) (f : option file) (addr len prot flags off : Z) (x : area) : Prop := {
  as_range : a_start x = addr ∧ a_end x = addr + len;
  as_flags : ∀ b, 0 ≤ b → Z.testbit (a_flags x) b = granted f prot flags (def_flags (mm s)) b;
  as_prot : a_prot x = page_rights (a_flags x);
  as_offset : a_offset x = off;
  as_plain : a_ops x = 0 ∧ a_inode x = 0 ∧ a_pte x = 0;
}.

Lemma new_area_asked s f addr len prot flags off : access_ok f prot flags → asked s f addr len prot flags off (new_area s f addr len prot flags off).
Proof. intros Hok. split; try done; cbn; [|apply protection_spec]. intros b. by apply flags_spec. Qed.

Lemma outcome_before f s s' V R R' addr len y L L' r : mmap_outcome f (s <| vmas := V |>) s' R R' addr len y L L' r → mmap_outcome f s s' R R' addr len y L L' r.
Proof.
  intros [(H1 & H0 & [A1 A2 A3 A4 A5 A6 A7 A8 A9])|(H1 & H0 & y' & H2 & H3 & H4 & [A1 A2 A3 A4 A5 A6])]; [by left|right]. split; [done|]. split; [done|]. by exists y'.
Qed.

(** Where the search for a free range starts. *)
Definition hint (addr : Z) : Z := PAGE_ALIGN (if addr =? 0 then MMAP_SEARCH_START else addr).

(** The request is a sensible one, it is allowed, and there is room in the address
    space and memory for an area; [len] is a number of whole pages. *)
Record acceptable (f : option file) (s : vms) (l : list area) (addr len prot flags off : Z) : Prop := {
  ac_range : 0 ≤ addr ∧ addr + len ≤ TASK_SIZE;
  ac_offset : off ≤ u32 (off + len);
  ac_locked : Z.testbit (def_flags (mm s)) 13 = true → u32 (u32 (Z.shiftl (locked_vm (mm s)) PAGE_SHIFT) + len) ≤ RLIMIT_MEMLOCK rlim;
  ac_access : access_ok f prot flags;
  ac_place : if Z.testbit flags 4 then (PAGE_SIZE | addr) else ∃ r, hint addr ≤ r ∧ free_range l r len;
  ac_file : ∀ f', f = Some f' → is_Some (f_mmap f');
  ac_memory : kmalloc s ≠ 0;
}.

(** What [do_mmap] does: it refuses, or it has an address for the new area. *)
Definition mmap_post (f : option file) (s : vms) (L : list (Z * area)) (O : gmap Z (area * Z)) (R : Z → list Z) (addr len prot flags off r : Z) (s' : vms) : Prop :=
  (¬ acceptable f s L.*2 addr (PAGE_ALIGN len) prot flags off ∧ r < 0 ∧ s' = s) ∨
  acceptable f s L.*2 addr (PAGE_ALIGN len) prot flags off ∧
  ∃ addr' L' R', world s' L' O R' ∧ cover L' R' ∧ (PAGE_SIZE | addr') ∧ 0 ≤ addr' ∧ addr' + PAGE_ALIGN len ≤ TASK_SIZE ∧
    (if has flags MAP_FIXED then addr' = addr else addr' ≠ 0 ∧ first_free L.*2 (hint addr) (PAGE_ALIGN len) addr') ∧
    mmap_outcome f s s' R R' addr' (PAGE_ALIGN len) (new_area s f addr' (PAGE_ALIGN len) prot flags off) L L' r.

Lemma do_mmap_spec f s L O R addr len prot flags off :
  world s L O R → cover L R → 0 ≤ addr → 0 < PAGE_ALIGN len → file_ok (inodes s) f →
  ∃ r s', do_mmap kmalloc ops rlim mem f addr len prot flags off s = Ret r s' ∧ mmap_post f s L O R addr len prot flags off r s'.
Proof.
  intros Hw Hcov Ha Hlen Hf. set (P := mmap_post f s L O R addr len prot flags off). set (ok := acceptable f s L.*2 addr (PAGE_ALIGN len) prot flags off) in P.
  assert (∀ e, ¬ ok → e < 0 → ∃ r s', Ret e s = Ret r s' ∧ P r s') as Hrefuse by (intros e Hno He; exists e, s; split; [done|by left]).
  unfold do_mmap. destruct (Z.eqb_spec (PAGE_ALIGN len) 0) as [?|_]; [lia|]. unfold MAX_USER_ADDR. destruct (Z.ltb_spec TASK_SIZE (PAGE_ALIGN len)) as [|Hmax]; cbn [orb]; [apply Hrefuse; [intros []; lia|done]|].
  destruct (Z.ltb_spec (TASK_SIZE - PAGE_ALIGN len) addr) as [|Hroom]; [apply Hrefuse; [intros []; lia|done]|]. destruct (Z.ltb_spec (u32 (off + PAGE_ALIGN len)) off) as [|Hoff]; [apply Hrefuse; [intros []; lia|done]|].
  unfold mbind, M_bind, gets. change VM_LOCKED with (2 ^ 13). rewrite has_pow2 by done. destruct (Z.testbit (def_flags (mm s)) 13 && _) eqn:Elk.
  { apply andb_true_iff in Elk as [Elk1 Elk2%Z.ltb_lt]. apply Hrefuse; [|done]. intros [_ _ Hlk]. specialize (Hlk Elk1). lia. }
  destruct (Z.eqb_spec (mmap_allowed f prot flags) 0) as [Hacc%access_spec|Hne]; cbn [negb].
  2: { apply Hrefuse; [|pose proof (mmap_allowed_sign f prot flags); lia]. intros [_ _ _ Hacc]. by apply access_spec in Hacc. }
  assert (∃ q, PAGE_ALIGN len = q * PAGE_SIZE) as [q Hq] by (destruct (page_align_pages len) as (q & Hq & _); exists q; unfold PAGE_SIZE; lia). assert (PAGE_SIZE | PAGE_ALIGN len) as Hdl by (by exists q).
  assert (has flags MAP_FIXED = Z.testbit flags 4) as Hfx by (by apply (has_pow2 flags 4)).
  destruct (has flags MAP_FIXED && negb (mask_lo PAGE_SIZE addr =? 0)) eqn:Efix.
  { apply andb_true_iff in Efix as [Efix Eal]. apply Hrefuse; [|done]. intros [_ _ _ _ Hpl]. rewrite <-Hfx, Efix, <-page_aligned in Hpl. by rewrite Hpl in Eal. }
  assert (∃ r, (if has flags MAP_FIXED then mret addr else get_unmapped_area addr (PAGE_ALIGN len)) s = Ret r s ∧
    (if has flags MAP_FIXED then r = addr else first_free L.*2 (hint addr) (PAGE_ALIGN len) r)) as (addr' & Er & Hr).
  { destruct (has flags MAP_FIXED); [by exists addr|]. apply (get_unmapped_area_spec s L O R); [done|lia..]. }
  rewrite Er. destruct (negb (has flags MAP_FIXED) && (addr' =? 0)) eqn:E0.
  { apply andb_true_iff in E0 as [E0%negb_true_iff ->%Z.eqb_eq]. apply Hrefuse; [|done]. intros [_ _ _ _ Hpl]. rewrite E0 in Hr. rewrite <-Hfx, E0 in Hpl. destruct Hpl as (r & ? & ?), Hr as [[_ Hr]|[? _]]; [by apply (Hr r)|done]. }
  destruct (match f with Some f => _ | None => false end) eqn:Efm.
  { apply Hrefuse; [|done]. intros [_ _ _ _ _ Hfile]. destruct f as [f|]; [|done]. specialize (Hfile f eq_refl). by rewrite bool_decide_true in Efm. }
  destruct (Z.eqb_spec (kmalloc s) 0) as [|Hk]; [by apply Hrefuse; [intros []|]|]. pose proof (kmalloc_fresh s Hk) as Hfr. set (n := kmalloc s) in *.
  assert ((PAGE_SIZE | addr') ∧ 0 ≤ addr' ∧ addr' + PAGE_ALIGN len ≤ TASK_SIZE ∧
    (if has flags MAP_FIXED then addr' = addr else addr' ≠ 0 ∧ first_free L.*2 (hint addr) (PAGE_ALIGN len) addr')) as (Hd' & Ha' & Ht' & Hr').
  { destruct (has flags MAP_FIXED); cbn [andb negb] in *.
    - subst addr'. apply negb_false_iff, Z.eqb_eq, page_aligned in Efix. split_and!; try done; lia.
    - apply Z.eqb_neq in E0. destruct Hr as [[-> _]|(Hr0 & Hr1 & Hr2 & [Hr3 Hr4] & Hr5)]; [done|]. destruct (page_align_up (if addr =? 0 then MMAP_SEARCH_START else addr)) as [_ Hb]; [destruct (Z.eqb_spec addr 0); [by split|lia]|].
      split_and!; try done; [|by right]. assert (0 ≤ (if addr =? 0 then MMAP_SEARCH_START else addr)) by (destruct (Z.eqb_spec addr 0); [done|lia]). unfold hint in Hr1. lia. }
  assert (ok) as Hokk.
  { split; try done; [lia| | |].
    - intros Hl. rewrite Hl in Elk. by apply Z.ltb_ge in Elk.
    - rewrite <-Hfx. destruct (has flags MAP_FIXED); [by subst addr'|]. destruct Hr' as [H0 [[? _]|(_ & ? & _ & ? & _)]]; [done|by exists addr'].
    - intros f' ->. apply negb_false_iff in Efm. by apply bool_decide_eq_true in Efm. }
  set (fl := mmap_flags f prot flags (def_flags (mm s))). set (v := MkVma addr' (addr' + PAGE_ALIGN len) (protection fl) fl 0 0 0 0 0 0 0 off 0 0).
  destruct (world_put s L O R n v Hw Hfr Hk) as [Hw1 Hn]. unfold put_vma, modify.
  destruct (mmap_area_spec f _ L O R n (area_of v) (vm_next v) addr' (PAGE_ALIGN len) Hw1) as (r & s' & L' & R' & E' & Hw' & Hcov' & Hout); try done.
  { destruct (O !! n) as [z|] eqn:Ez; [|done]. destruct (w_others _ _ _ _ Hw n z Ez) as [_ Hz]. by rewrite Hfr in Hz. }
  exists r, s'. split; [exact E'|]. right. split; [done|]. exists addr', L', R'. split_and!; try done. by eapply outcome_before.
Qed.

End mmap.
