(* ===== verification/MmapSys.v ===== *)
(** * MmapSys: the calls on the memory map

    The stack grows, the break moves, the whole map goes, and no sequence of these
    calls, [do_mmap] and [do_munmap] ever breaks the structures of the map. *)

From stdpp Require Import gmap sorting.
From S2P Require Import Prelude Vmalloc Avl AvlFacts AvlOps Mmap MmapRights MmapFacts MmapSteps MmapUnmap MmapMunmap MmapMerge MmapMap.

(** ** Lemmas: the stack *)

Lemma page_down a : 0 ≤ a → (PAGE_SIZE | mask_hi PAGE_SIZE a) ∧ 0 ≤ mask_hi PAGE_SIZE a ≤ a ∧ a < mask_hi PAGE_SIZE a + PAGE_SIZE.
Proof.
  intros Ha. change PAGE_SIZE with (2 ^ 12). rewrite mask_hi_div by done. pose proof (Z.div_mod a (2 ^ 12) ltac:(done)). pose proof (Z.mod_pos_bound a (2 ^ 12) ltac:(done)).
  pose proof (Z.div_pos a (2 ^ 12) Ha ltac:(done)). split_and!; try lia. apply Z.divide_factor_l.
Qed.

Lemma areas_aligned l : ∀ lo, areas_ok lo l → Forall (λ x, (PAGE_SIZE | a_start x) ∧ (PAGE_SIZE | a_end x)) l.
Proof. induction l as [|x l IH]; intros lo; cbn [areas_ok]; [by constructor|]. intros (_ & H1 & H2 & Hl). constructor; [done|]. by eapply IH. Qed.

Lemma page_below a b : 0 ≤ b → (PAGE_SIZE | a) → a ≤ b → a ≤ mask_hi PAGE_SIZE b.
Proof. intros Hb [p ->] Hle. destruct (page_down b Hb) as ([q ->] & _ & Hlt). unfold PAGE_SIZE in *. lia. Qed.

Lemma page_align_id x : (PAGE_SIZE | x) → 0 ≤ x < 2 ^ 32 → PAGE_ALIGN x = x.
Proof.
  intros [q ->] Hx. unfold PAGE_ALIGN, PAGE_SIZE in *. rewrite u32_id by lia. change 4096 with (2 ^ 12) in *. rewrite mask_hi_div by done. replace (q * 2 ^ 12 + 2 ^ 12 - 1) with (q * 2 ^ 12 + (2 ^ 12 - 1)) by lia.
  rewrite Z.div_add_l by done. change ((2 ^ 12 - 1) / 2 ^ 12) with 0. lia.
Qed.

Lemma page_u32 x : (PAGE_SIZE | x) → (PAGE_SIZE | u32 x).
Proof. intros [q ->]. unfold u32, PAGE_SIZE. change (2 ^ 32) with (2 ^ 20 * 2 ^ 12). rewrite Z.mul_mod_distr_r by done. apply Z.divide_factor_r. Qed.

(** [PAGE_ALIGN] of an address: the end of its page, or 0 in the last page. *)
Lemma page_align_addr x : 0 ≤ x < 2 ^ 32 → (PAGE_SIZE | PAGE_ALIGN x) ∧ (x ≤ PAGE_ALIGN x < x + PAGE_SIZE ∧ PAGE_ALIGN x < 2 ^ 32 ∨ 2 ^ 32 - PAGE_SIZE < x ∧ PAGE_ALIGN x = 0).
Proof.
  intros Hx. unfold PAGE_ALIGN. destruct (decide (x ≤ 2 ^ 32 - PAGE_SIZE)) as [Hle|Hgt].
  - rewrite u32_id by (unfold PAGE_SIZE in *; lia). destruct (page_down (x + PAGE_SIZE - 1)) as (Hd & Hb & Hb'); [unfold PAGE_SIZE; lia|]. split; [done|]. left. destruct Hd as [q Hq]. unfold PAGE_SIZE in *. lia.
  - assert (u32 (x + PAGE_SIZE - 1) = x + PAGE_SIZE - 1 - 2 ^ 32) as ->. { unfold u32. symmetry. apply (Z.mod_unique _ _ 1); unfold PAGE_SIZE in *; lia. }
    destruct (page_down (x + PAGE_SIZE - 1 - 2 ^ 32)) as (Hd & Hb & Hb'); [unfold PAGE_SIZE in *; lia|]. split; [done|]. right. destruct Hd as [q Hq]. unfold PAGE_SIZE in *. lia.
Qed.

(** The area from [lo] on. *)
Definition grown (lo : Z) (x : area) : area := x <| a_start := lo |> <| a_offset := u32 (a_offset x - (a_start x - lo)) |>.

Lemma grown_attr lo x p : attr_at (grown lo x) p = attr_at x p.
Proof.
  unfold attr_at, grown, backed. cbn. destruct (_ || _); [|done]. do 2 f_equal. unfold u32. rewrite <-(Zplus_mod_idemp_l (a_offset x)), Zplus_mod_idemp_l, Zplus_mod_idemp_l. f_equal. lia.
Qed.

Lemma grown_pages lo x : (PAGE_SIZE | a_start x) → (PAGE_SIZE | a_end x) → (PAGE_SIZE | lo) → pages (grown lo x) = pages x + Z.shiftr (a_start x - lo) PAGE_SHIFT.
Proof.
  intros [p Hp] [q Hq] [r Hr]. rewrite !pages_div, Z.shiftr_div_pow2 by done. change (2 ^ PAGE_SHIFT) with PAGE_SIZE. cbn. rewrite Hp, Hq, Hr, <-!Z.mul_sub_distr_r, !Z.div_mul by done. lia.
Qed.

(** ** Lemmas: the tree from the list *)

Lemma sorted_nodup V l : StronglySorted (by_end V) l → NoDup l.
Proof. induction 1 as [|a l _ IH Hf]; constructor; [|done]. intros Hin. rewrite Forall_forall in Hf. specialize (Hf a Hin). unfold by_end in Hf. lia. Qed.

Lemma insert_all_spec L2 : ∀ fuel s L1 T p,
  (length L2 < fuel)%nat → zip s [] T → avl T → flat T = L1.*1 → holds (vmas s) (L1 ++ L2) → areas_ok 0 (L1 ++ L2).*2 → chain (vmas s) p L2.*1 →
  ∃ s' T', avl_insert_all fuel p s = Ret tt s' ∧ zip s' [] T' ∧ avl T' ∧ flat T' = (L1 ++ L2).*1 ∧ tree_only s s'.
Proof.
  induction L2 as [|[a x] L2 IH]; intros fuel s L1 T p Hfuel Hz Ha HT Hh Hok Hc; (destruct fuel as [|fuel]; [cbn in Hfuel; lia|]); cbn [avl_insert_all].
  - cbn in Hc. subst p. exists s, T. rewrite app_nil_r. by split_and!.
  - destruct Hc as (-> & Ha0 & v & E & Hc). cbn in Ha0, E, Hc. cbn [fst]. rewrite (proj2 (Z.eqb_neq _ _) Ha0).
    assert (areas_ok 0 L1.*2) as Hok1 by (rewrite fmap_app in Hok; by apply areas_app in Hok as [? _]). pose proof Hh as [Hh1 Hh2]%Forall_app.
    assert (area_of v = x) as Hx. { apply Forall_cons in Hh2 as [Hv _]. cbn in Hv. rewrite E in Hv. by injection Hv. }
    pose proof (sorted_nodup _ _ (space_sorted _ _ _ Hh Hok)) as Hnd. rewrite fmap_app, fmap_cons in Hnd. rewrite fmap_app, fmap_cons in Hok. cbn [fst snd] in Hnd, Hok.
    destruct (avl_insert_spec s T a v (tree_fits s T L1 Hz Ha HT Hh1 Hok1) E Ha0) as (s1 & T1 & l1 & l2 & E1 & Ht1 & Hz1 & Ha1 & HT1 & HT1' & _ & Hl2); [rewrite HT; apply NoDup_app in Hnd as (_ & Hd & _); intros Hin; by apply (Hd a Hin), list_elem_of_here|].
    assert (l2 = []) as ->.
    { destruct l2 as [|b l2]; [done|]. exfalso. apply Forall_cons in Hl2 as [Hb _]. assert (b ∈ L1.*1) as Hin by (rewrite <-HT, HT1; apply elem_of_app; right; apply list_elem_of_here). apply list_elem_of_fmap in Hin as ([b' y] & -> & Hin).
      cbn [fst] in Hb. rewrite (holds_end _ _ _ _ Hh1 Hin) in Hb. pose proof (areas_one _ _ _ Hok) as (Hxx & _). apply areas_split in Hok as [Hlt _]. rewrite Forall_fmap, Forall_forall in Hlt. specialize (Hlt _ Hin). cbn in Hlt. replace (vm_end v) with (a_end x) in Hb by (by subst x). lia. }
    rewrite app_nil_r in HT1. destruct (tree_only_same _ _ Ht1) as (Sa & Sn & _). destruct (tree_only_data _ _ a v Ht1 E) as (v1 & Ev1 & Hd1). apply data_fields in Hd1 as (_ & Hn1 & _).
    destruct (IH fuel s1 (L1 ++ [(a, x)]) T1 (vm_next v)) as (s' & T' & E' & Hz' & Ha' & HT' & Ht'); rewrite <-?app_assoc; cbn [app]; try done.
    + cbn in Hfuel. lia.
    + by rewrite HT1', fmap_app, <-HT, HT1.
    + apply (holds_ext (vmas s)); [|done]. intros b _. apply Sa.
    + by rewrite fmap_app, fmap_cons.
    + apply (list_chain_ext (vmas s)); [|done]. intros b _. apply Sn.
    + exists s', T'. unfold avl_insert, mbind, M_bind. rewrite E1. unfold mret, M_ret. rewrite (ld_vma_run _ _ _ Ev1), Hn1, E'. rewrite <-app_assoc in HT'. split_and!; try done. by eapply tree_only_trans.
Qed.

(** [build_mmap_avl] makes the tree from the list, whatever was there. *)
Lemma build_mmap_avl_spec s L :
  chain (vmas s) (mmap (mm s)) L.*1 → holds (vmas s) L → areas_ok 0 L.*2 →
  ∃ s', build_mmap_avl s = Ret tt s' ∧ space s' L ∧ tree_only s s'.
Proof.
  intros Hc Hh Hok. unfold build_mmap_avl, mbind, M_bind, mod_mm, modify, all_vmas, gets. set (s1 := s <| mm := _ |>).
  destruct (insert_all_spec L (S (length (map_to_list (vmas s1)))) s1 [] Leaf (mmap (mm s1))) as (s' & T & E & Hz & Ha & HT & Ht); try done.
  - pose proof (sorted_nodup _ _ (space_sorted _ _ _ Hh Hok)) as Hnd. pose proof (dom_bound (vmas s) L.*1 Hnd) as Hl. rewrite length_fmap in Hl. change (vmas s1) with (vmas s). apply Nat.lt_succ_r, Hl.
    intros a (q & -> & Hq)%list_elem_of_fmap. unfold holds in Hh. rewrite Forall_forall in Hh. specialize (Hh q Hq). by destruct (vmas s !! q.1).
  - split; try done. constructor.
  - exists s'. split; [exact E|]. destruct (tree_only_same _ _ Ht) as (Sa & Sn & _). destruct (tree_only_rest _ _ Ht) as (_ & _ & Hm). split.
    + split; [by exists T| |by apply (holds_ext (vmas s))|done]. rewrite Hm. apply (list_chain_ext (vmas s)); [|done]. intros a _. apply Sn.
    + destruct Ht as (H1 & H2 & H3 & H4). by split_and!.
Qed.

Section stack.

Context (rlim : limits).

(** The limits leave room for an area that begins at the page of [address]. *)
Definition stack_room (s : vms) (x : area) (address : Z) : Prop :=
  let lo := mask_hi PAGE_SIZE address in
  a_end x - lo ≤ RLIMIT_STACK rlim ∧ u32 (Z.shiftl (total_vm (mm s)) PAGE_SHIFT + (a_start x - lo)) ≤ RLIMIT_AS rlim.

Lemma expand_stack_spec s L1 a x L2 O R address :
  world s (L1 ++ (a, x) :: L2) O R → Forall (λ q, a_end q.2 ≤ address) L1 → 0 ≤ address < a_start x →
  ∃ r s', expand_stack rlim a address s = Ret r s' ∧
    ((¬ stack_room s x address ∧ r = - ENOMEM ∧ s' = s) ∨
     (stack_room s x address ∧ r = 0 ∧ world s' (L1 ++ (a, grown (mask_hi PAGE_SIZE address) x) :: L2) O R ∧
      (tally s (L1 ++ (a, x) :: L2).*2 → tally s' (L1 ++ (a, grown (mask_hi PAGE_SIZE address) x) :: L2).*2) ∧
      fixed (mm s') = fixed (mm s) ∧ inodes s' = inodes s ∧ calls s' = calls s)).
Proof.
  intros Hw H1 Ha. pose proof (w_space _ _ _ _ Hw) as Hs. destruct (space_lookup s _ a x Hs) as (v & E & Hv & Ha0); [set_solver|]. destruct (page_down address ltac:(lia)) as (Hd & Hlo & _).
  pose proof (sp_ok _ _ Hs) as Hok. rewrite fmap_app, fmap_cons in Hok. cbn [snd] in Hok. pose proof (areas_one _ _ _ Hok) as (Hx & Hdx & Hdx' & Ht). cbn in Ht. unfold TASK_SIZE in Ht. set (lo := mask_hi PAGE_SIZE address) in *.
  unfold expand_stack, mbind, M_bind, gets. rewrite (ld_vma_run _ _ _ E). fold lo. replace (vm_start v) with (a_start x) by (by subst x). replace (vm_end v) with (a_end x) by (by subst x). rewrite (u32_id (a_start x - lo)), (u32_id (a_end x - lo)) by lia.
  destruct (_ || _) eqn:Elim; [exists (- ENOMEM), s; split; [done|]; left; split_and!; try done; intros [R1 R2]; apply orb_true_iff in Elim as [?%Z.ltb_lt|?%Z.ltb_lt]; fold lo in R1, R2; lia|].
  apply orb_false_iff in Elim as [Elim1%Z.ltb_ge Elim2%Z.ltb_ge]. rewrite (st_vma_run _ _ _ _ E). set (v' := v <| vm_start := lo |> <| vm_offset := _ |>).
  assert (area_of v' = grown lo x) as Hv' by (subst x; done).
  assert (areas_ok 0 (L1.*2 ++ grown lo x :: L2.*2)) as Hok'.
  { apply areas_insert; rewrite ?Forall_fmap; cbn; try done; try lia; [by eapply areas_without| |].
    - pose proof (areas_aligned _ _ Hok) as Hal. apply Forall_app in Hal as [Hal _]. rewrite Forall_fmap in Hal. eapply Forall_impl; [apply Forall_and; split; [exact H1|exact Hal]|].
      cbn. intros q (Hq & _ & Hq'). apply page_below; [lia|done|done].
    - destruct (areas_split _ _ _ _ Hok) as [_ H2]. by rewrite Forall_fmap in H2. }
  pose proof (world_edit s L1 a x L2 O R v v' Hw E) as Hw1. rewrite Hv' in Hw1. specialize (Hw1 eq_refl eq_refl eq_refl ltac:(by rewrite fmap_app, fmap_cons)). 
  set (s1 := s <| vmas := _ |>) in *.
  exists 0, (s1 <| mm := counted_up (mm s1) x (a_start x - lo) |>). split.
  { unfold mod_mm, modify, when, counted_up. replace (vm_flags v) with (a_flags x) by (by subst x). by destruct (has (a_flags x) VM_LOCKED). }
  right. split_and!; try done; [by apply (world_env s1)|]. intros [HT HL]. pose proof (grown_pages lo x Hdx Hdx' Hd) as Hp. pose proof (areas_pages _ _ Hok) as Hb. pose proof (areas_pages _ _ Hok') as Hb'.
  unfold tally. cbn. rewrite !fmap_app, !fmap_cons in *. cbn [snd] in *. rewrite HT, HL. rewrite !npages_app, !nlocked_app in *. unfold npages, nlocked, PAGE_SIZE, TASK_SIZE in *. rewrite !sumZ_cons in *. rewrite Hp in *. change (a_flags (grown lo x)) with (a_flags x) in *.
  destruct (has (a_flags x) VM_LOCKED); rewrite !u32_id by lia; lia.
Qed.

(** ** Lemmas: faults *)

(** The map of [l] and what has grown below it. *)
Record grew (l l' : list area) : Prop := {
  gw_old : ∀ p t, pmap l p = Some t → pmap l' p = Some t;
  gw_new : ∀ p t, pmap l' p = Some t → pmap l p = Some t ∨ has (t_flags t) VM_GROWSDOWN = true;
}.

Lemma grew_refl l : grew l l.
Proof. split; by auto. Qed.

Lemma grew_area lo l1 x l2 : areas_ok 0 (l1 ++ x :: l2) → areas_ok 0 (l1 ++ grown lo x :: l2) → lo ≤ a_start x → has (a_flags x) VM_GROWSDOWN = true → grew (l1 ++ x :: l2) (l1 ++ grown lo x :: l2).
Proof.
  intros H H' Hlo Hg. apply areas_split in H as [H1 _], H' as [H1' H2']. split; intros p t; rewrite (pmap_insert _ _ _ _ H1), (pmap_insert _ _ _ _ H1'), grown_attr; cbn; repeat case_decide; try lia; auto.
  - rewrite (proj2 (pmap_none _ _)); [done|]. apply Forall_app. split; (eapply Forall_impl; [first [exact H1'|exact H2']|]); cbn; lia.
  - intros [= <-]. by right.
Qed.

(** The first area that ends above an address, by a search through the list. *)
Definition linear (l : list area) (addr : Z) : option area := find (λ x, addr <? a_end x) l.

Lemma above_linear addr L : snd <$> above addr L = linear L.*2 addr.
Proof. unfold linear. induction L as [|[a x] L IH]; [done|]. cbn. by destruct (addr <? a_end x). Qed.

(** A fault below the area [x] lets it grow: it is the next one above the address,
    it is a stack, the user's stack pointer is not far above the address, and the
    limits allow it. *)
Record stack_grows (s : vms) (l : list area) (error_code esp address : Z) (x : area) : Prop := {
  sg_next : linear l address = Some x;
  sg_below : address < a_start x;
  sg_stack : Z.testbit (a_flags x) 8 = true;
  sg_pointer : Z.testbit error_code 2 = true → esp ≤ u32 (address + 32);
  sg_room : stack_room s x address;
}.

(** The area [x] of [l] now begins at the page of [address]. *)
Definition with_grown (address : Z) (x : area) (l l' : list area) : Prop :=
  ∃ l1 l2, l = l1 ++ x :: l2 ∧ l' = l1 ++ grown (mask_hi PAGE_SIZE address) x :: l2.

(** Whether the access is granted, and the area that grows. *)
Record fault_post (s : vms) (l : list area) (ec esp address r : Z) (s' : vms) (l' : list area) : Prop := {
  fp_grew : grew l l';
  fp_tally : tally s l → tally s' l';
  fp_rest : fixed (mm s') = fixed (mm s) ∧ inodes s' = inodes s ∧ calls s' = calls s;
  fp_access : r ≠ 0 ↔ ∃ t, pmap l' address = Some t ∧ may_access ec (t_flags t);
  fp_same : (∀ x, ¬ stack_grows s l ec esp address x) → s' = s ∧ l' = l;
  fp_grows : ∀ x, stack_grows s l ec esp address x → with_grown address x l l';
}.

Lemma access_granted ec fl a : a ≠ 0 → (if fault_allowed ec fl then a else 0) ≠ 0 ↔ may_access ec fl.
Proof. intros Ha. rewrite <-fault_spec. by destruct (fault_allowed ec fl). Qed.

Lemma fault_none s l ec esp address :
  pmap l address = None → (∀ x, ¬ stack_grows s l ec esp address x) → fault_post s l ec esp address 0 s l.
Proof. intros Hn Hno. split; try done; [apply grew_refl| |by intros x ?%Hno]. rewrite Hn. split; [done|]. by intros (t & ? & _). Qed.

Lemma fault_area_spec s L O R ec esp address :
  world s L O R → cover L R → 0 ≤ address →
  ∃ r s' L', fault_area rlim ec esp address s = Ret r s' ∧ world s' L' O R ∧ cover L' R ∧ fault_post s L.*2 ec esp address r s' L'.*2.
Proof.
  intros Hw Hcov Ha. pose proof (w_space _ _ _ _ Hw) as Hs. unfold fault_area, mbind, M_bind. rewrite (find_vma_spec _ _ _ Hs). unfold above0. pose proof (above_linear address L) as Hlin. destruct (above address L) as [[a x]|] eqn:Eab.
  2: { exists 0, s, L. split_and!; try done. apply fault_none; [|intros x []; by rewrite <-Hlin in *]. apply above_none in Eab. apply pmap_none. rewrite Forall_fmap. eapply Forall_impl; [exact Eab|]. cbn. lia. }
  apply above_some in Eab as (A & B & -> & Hax & HA). cbn [fmap option_fmap option_map fst snd default from_option id] in Hlin |- *. destruct (space_lookup _ _ a x Hs) as (v & E & Hv & Ha0); [set_solver|]. rewrite (proj2 (Z.eqb_neq _ _) Ha0), (ld_vma_run _ _ _ E).
  assert (vm_start v = a_start x ∧ vm_flags v = a_flags x) as [-> ->] by (by subst x).
  assert (∀ y, stack_grows s (A ++ (a, x) :: B).*2 ec esp address y → y = x) as Hx by (intros y [H]; rewrite <-Hlin in H; congruence).
  pose proof (sp_ok _ _ Hs) as Hok. rewrite fmap_app, fmap_cons in Hok, Hx, Hlin |- *. cbn [snd] in *. destruct (Z.leb_spec (a_start x) address) as [Hin|Hout].
  { assert (pmap (A.*2 ++ x :: B.*2) address = Some (attr_at x address)) as Hp by (destruct (areas_split _ _ _ _ Hok); rewrite pmap_insert, decide_True by (done || lia); done).
    exists (if fault_allowed ec (a_flags x) then a else 0), s, (A ++ (a, x) :: B). rewrite (ld_vma_run _ _ _ E), fmap_app, fmap_cons. cbn [snd]. split_and!; try done; [by subst x|]. split; try done; [apply grew_refl| |].
    - rewrite Hp, access_granted by done. split; [intros H; by exists (attr_at x address)|]. by intros (t & [= <-] & H).
    - intros y Hy. destruct (Hx y Hy). destruct Hy. lia. }
  assert (pmap (A.*2 ++ x :: B.*2) address = None) as Hnone.
  { apply pmap_none. apply areas_split in Hok as [_ H2]. apply Forall_app. split; [rewrite Forall_fmap; eapply Forall_impl; [exact HA|]; cbn; lia|]. constructor; [lia|]. eapply Forall_impl; [exact H2|]. cbn. lia. }
  assert (¬ stack_grows s (A.*2 ++ x :: B.*2) ec esp address x → ∃ r s' L', Ret 0 s = Ret r s' ∧ world s' L' O R ∧ cover L' R ∧ fault_post s (A.*2 ++ x :: B.*2) ec esp address r s' L'.*2) as Hbad.
  { intros Hno. exists 0, s, (A ++ (a, x) :: B). rewrite fmap_app, fmap_cons. cbn [snd]. split_and!; try done. apply fault_none; [done|]. intros y Hy. by destruct (Hx y Hy). }
  change VM_GROWSDOWN with (2 ^ 8). change 4 with (2 ^ 2). rewrite !has_pow2 by done. destruct (Z.testbit (a_flags x) 8) eqn:Eg; cbn [negb]; [|apply Hbad; intros []; congruence].
  destruct (Z.testbit ec 2 && _) eqn:Eesp; [apply Hbad; intros [_ _ _ Hsp]; apply andb_true_iff in Eesp as [E2 ?%Z.ltb_lt]; specialize (Hsp E2); lia|].
  destruct (expand_stack_spec s A a x B O R address Hw HA ltac:(lia)) as (r & s' & Er & [(Hroom & -> & ->)|(Hroom & -> & Hw' & Ht' & Hf' & Hi' & Hc')]); rewrite Er; cbn [negb Z.eqb]; [apply Hbad; by intros []|]. clear Hbad.
  pose proof (sp_ok _ _ (w_space _ _ _ _ Hw')) as Hok'. rewrite fmap_app, fmap_cons in Hok'. cbn [snd] in Hok'. destruct (page_down address Ha) as (_ & Hlo & _). set (lo := mask_hi PAGE_SIZE address) in *.
  destruct (space_lookup s' _ a (grown lo x) (w_space _ _ _ _ Hw')) as (v' & E' & Hv' & _); [set_solver|]. rewrite (ld_vma_run _ _ _ E'). assert (vm_flags v' = a_flags x) as -> by (by apply (f_equal a_flags) in Hv').
  exists (if fault_allowed ec (a_flags x) then a else 0), s', (A ++ (a, grown lo x) :: B). rewrite !fmap_app, !fmap_cons in *. cbn [snd] in *. split_and!; try done; [|split; try done].
  - intros i. specialize (Hcov i). rewrite inode_app, inode_cons, inode_one in *. exact Hcov.
  - apply grew_area; [done|done|lia|]. change VM_GROWSDOWN with (2 ^ 8). by rewrite has_pow2.
  - assert (pmap (A.*2 ++ grown lo x :: B.*2) address = Some (attr_at x address)) as ->. { destruct (areas_split _ _ _ _ Hok'). rewrite pmap_insert, decide_True, grown_attr by (done || (cbn; lia)). done. }
    rewrite access_granted by done. split; [intros H; by exists (attr_at x address)|]. by intros (t & [= <-] & H).
  - intros Hno. exfalso. apply (Hno x). split; try done. intros E2. rewrite E2 in Eesp. by apply Z.ltb_ge in Eesp.
  - intros y Hy. destruct (Hx y Hy). by exists A.*2, B.*2.
Qed.

End stack.

(** ** Lemmas: the break *)

Section calls.

Context (kmalloc : vms → Z) (ops : Z → vm_operations_struct).
Context (kmalloc_fresh : ∀ s, kmalloc s ≠ 0 → vmas s !! kmalloc s = None).
Context (rlim : limits) (mem : vms → memory).

(** The process: the areas [l] of its map and the rings of all inodes. *)
Definition process (s : vms) (l : list area) (R : Z → list Z) : Prop :=
  (∃ L, world s L ∅ R ∧ cover L R ∧ L.*2 = l) ∧ 0 < end_code (mm s) ≤ brk (mm s) ∧ brk (mm s) ≤ TASK_SIZE.

(** Its counters, and those of the inodes. *)
Definition accounts (s : vms) (l : list area) (R : Z → list Z) (K : Z → Z) : Prop := tally s l ∧ refs s R K.

(** An area for the memory from [lo] to [hi] as a part of the heap: it can be read,
    written and executed, it is private (2) and at this very place (0x10). *)
Definition heap_area (s : vms) (lo hi : Z) : area → Prop := asked s None lo (hi - lo) 7 0x12 0.

Lemma file_ok_none I : file_ok I None.
Proof. done. Qed.

(** The break may move up to [b]: the data is within its limit, and neither the new
    part of the heap nor the page behind it is in use. *)
Definition brk_room (s : vms) (l : list area) (b : Z) : Prop :=
  (RLIM_INFINITY ≤ RLIMIT_DATA rlim ∨ b - end_code (mm s) ≤ RLIMIT_DATA rlim) ∧ PAGE_ALIGN b ≤ TASK_SIZE ∧
  ∀ p, PAGE_ALIGN (brk (mm s)) ≤ p < PAGE_ALIGN b + PAGE_SIZE → pmap l p = None.

(** What there is at [p] once the break has moved to [b]. *)
Definition brk_map (s : vms) (l : list area) (b : Z) (y : area) (p : Z) : option attr :=
  let old := PAGE_ALIGN (brk (mm s)) in
  let new := PAGE_ALIGN b in
  if decide (new ≤ p < old) then None else if decide (old ≤ p < new) then Some (attr_at y p) else pmap l p.

(** The break has moved to [b], and the heap ends there. *)
Definition brk_moved (s : vms) (l : list area) (b : Z) (s' : vms) (l' : list area) : Prop :=
  end_code (mm s) ≤ b ∧ brk (mm s') = b ∧ (PAGE_ALIGN (brk (mm s)) < PAGE_ALIGN b → brk_room s l b) ∧
  ∃ y, heap_area s (PAGE_ALIGN (brk (mm s))) (PAGE_ALIGN b) y ∧ (mem_ok kmalloc → ∀ p, pmap l' p = brk_map s l b y p).

(** Either nothing has moved, or the break is [b]; down it always moves. *)
Record brk_post (s : vms) (l : list area) (R : Z → list Z) (b r : Z) (s' : vms) (l' : list area) (R' : Z → list Z) : Prop := {
  bp_value : r = brk (mm s');
  bp_process : process s' l' R';
  bp_accounts : mem_ok kmalloc → ∀ K, accounts s l R K → accounts s' l' R' K;
  bp_moves : (brk (mm s') = brk (mm s) ∧ (mem_ok kmalloc → ∀ p, pmap l' p = pmap l p)) ∨ brk_moved s l b s' l';
  bp_down : end_code (mm s) ≤ b ≤ brk (mm s) → brk (mm s') = b;
}.

Lemma heap_asked s lo hi : heap_area s lo hi (new_area s None lo (hi - lo) (Z.lor (Z.lor PROT_READ PROT_WRITE) PROT_EXEC) (Z.lor MAP_FIXED MAP_PRIVATE) 0).
Proof. by apply new_area_asked. Qed.

Lemma brk_none s l R b : process s l R → ¬ end_code (mm s) ≤ b ≤ brk (mm s) → brk_post s l R b (brk (mm s)) s l R.
Proof. intros Hp Hno. split; try done. by left. Qed.

Lemma brk_world s L R b : world s L ∅ R → world (s <| mm := (mm s) <| brk := b |> |>) L ∅ R.
Proof. intros Hw. by apply (world_env s). Qed.

Lemma brk_shrink s L R b :
  world s L ∅ R → cover L R → 0 < end_code (mm s) ≤ b → b ≤ brk (mm s) → brk (mm s) ≤ TASK_SIZE → PAGE_ALIGN b < PAGE_ALIGN (brk (mm s)) → (PAGE_SIZE | PAGE_ALIGN b) → b ≤ PAGE_ALIGN b →
  (PAGE_SIZE | PAGE_ALIGN (brk (mm s))) → PAGE_ALIGN (brk (mm s)) ≤ TASK_SIZE →
  ∃ s', do_munmap kmalloc ops (PAGE_ALIGN b) (u32 (PAGE_ALIGN (brk (mm s)) - PAGE_ALIGN b)) (s <| mm := (mm s) <| brk := b |> |>) = Ret 0 s' ∧ ∃ l' R', brk_post s L.*2 R b b s' l' R'.
Proof.
  intros Hw Hcov He Hb Ht Hlt Hdn Hn Hdo Ho. set (new := PAGE_ALIGN b) in *. set (old := PAGE_ALIGN (brk (mm s))) in *. set (s1 := s <| mm := _ |>). rewrite (u32_id (old - new)) by (unfold TASK_SIZE in *; lia).
  assert (PAGE_SIZE | old - new) as Hd by (by apply Z.divide_sub_r).
  destruct (do_munmap_spec kmalloc ops kmalloc_fresh s1 L ∅ R new (old - new)) as (s' & L' & R' & E & Hw' & Hcov' & Hr); [by apply brk_world|done|split; [done|lia]|]. exists s'. split; [done|].
  rewrite page_align_id in Hr by (done || (unfold TASK_SIZE in *; lia)). replace (new + (old - new)) with old in Hr by lia.
  assert (brk (mm s') = b ∧ end_code (mm s') = end_code (mm s)) as [Hb' He'] by (split; [pose proof (f_equal brk (rl_mm _ _ _ _ _ _ _ _ _ Hr)) as H|pose proof (f_equal end_code (rl_mm _ _ _ _ _ _ _ _ _ Hr)) as H]; exact H).
  exists L'.*2, R'. split; [done|split; [by exists L'|]; rewrite Hb', He'; lia| | |done].
  - intros Hm K [HT HK]. split; [|by apply (rl_refs _ _ _ _ _ _ _ _ _ Hr Hm)]. apply (released_tally _ _ _ _ _ _ _ _ _ Hr Hm); [apply (sp_ok _ _ (w_space _ _ _ _ Hw))|exact HT].
  - right. split; [lia|]. split; [done|]. fold new old. split; [lia|]. eexists. split; [apply heap_asked|]. intros Hm p. unfold brk_map. fold new old. rewrite (rl_all _ _ _ _ _ _ _ _ _ Hr Hm), (pmap_cut _ _ _ _ Hlt _ (sp_ok _ _ (w_space _ _ _ _ Hw))). case_decide; [done|]. by rewrite decide_False by lia.
Qed.

Lemma intersection_none s L lo hi : space s L → find_vma_intersection lo hi s = Ret 0 s → ∀ p, lo ≤ p < hi → pmap L.*2 p = None.
Proof.
  intros Hs. rewrite (find_vma_intersection_spec _ _ _ _ Hs). intros E p Hp. apply pmap_none. rewrite Forall_fmap. destruct (above lo L) as [[a x]|] eqn:Eab.
  - apply above_some in Eab as (A & B & -> & _ & HA). destruct (space_lookup _ _ a x Hs) as (_ & _ & _ & Ha0); [set_solver|]. cbn [fst snd] in E. destruct (Z.leb_spec hi (a_start x)) as [Hle|]; [|congruence].
    pose proof (sp_ok _ _ Hs) as Hok. rewrite fmap_app, fmap_cons in Hok. cbn [snd] in Hok. pose proof (areas_one _ _ _ Hok) as (Hx & _). apply areas_split in Hok as [_ HB]. rewrite Forall_fmap in HB.
    apply Forall_app. split; [eapply Forall_impl; [exact HA|]; cbn; lia|]. constructor; [cbn; lia|]. eapply Forall_impl; [exact HB|]. cbn. lia.
  - apply above_none in Eab. eapply Forall_impl; [exact Eab|]. cbn. lia.
Qed.

(** [do_mmap] for the heap was refused, failed or has mapped the pages. *)
Lemma brk_grow s L R b r s' :
  let old := PAGE_ALIGN (brk (mm s)) in
  process s L.*2 R → end_code (mm s) ≤ b → b ≤ PAGE_ALIGN b → PAGE_ALIGN b < 2 ^ 32 → (PAGE_SIZE | PAGE_ALIGN b) → (PAGE_SIZE | old) → 0 ≤ old → old < PAGE_ALIGN b → brk (mm s) < b → (PAGE_ALIGN b ≤ TASK_SIZE → brk_room s L.*2 b) →
  mmap_post kmalloc rlim mem None s L ∅ R old (PAGE_ALIGN b - old) (Z.lor (Z.lor PROT_READ PROT_WRITE) PROT_EXEC) (Z.lor MAP_FIXED MAP_PRIVATE) 0 r s' →
  ∃ l' R', r < 0 ∧ brk_post s L.*2 R b (brk (mm s)) s' l' R' ∨ r = old ∧ brk_post s L.*2 R b b (s' <| mm := (mm s') <| brk := b |> |>) l' R'.
Proof.
  intros old Hpr He Hb Hn' Hdn Hdo Ho Hlt Hup Hroom. set (new := PAGE_ALIGN b) in *. pose proof Hpr as [(L0 & Hw & Hcov & HL0) [Heb Hbt]]. intros [(_ & Hr & ->)|(_ & addr' & L' & R' & Hw' & Hcov' & _ & _ & Ht & Ha & Hout)]; [exists L.*2, R; left; split; [done|apply brk_none; [done|lia]]|exists L'.*2, R'].
  change (addr' = old) in Ha. subst addr'. rewrite page_align_id in Ht, Hout by (first [by apply Z.divide_sub_r|lia]). replace (old + (new - old)) with new in Ht by lia.
  pose proof (sp_ok _ _ (w_space _ _ _ _ Hw)) as Hok. rewrite HL0 in Hok. specialize (Hroom Ht). pose proof Hroom as (_ & _ & Hfree). fold old new in Hfree. unfold mmap_outcome in Hout. replace (old + (new - old)) with new in Hout by lia. destruct Hout as [(Hr & _ & Hrel)|(-> & _ & y' & (v & Hv & Hy') & Hs1 & Hs2 & Hm)].
  - left. assert (brk (mm s') = brk (mm s) ∧ end_code (mm s') = end_code (mm s)) as [Hb' He'] by (split; [pose proof (f_equal brk (rl_mm _ _ _ _ _ _ _ _ _ Hrel)) as H|pose proof (f_equal end_code (rl_mm _ _ _ _ _ _ _ _ _ Hrel)) as H]; exact H).
    split; [done|]. split; [done|split; [by exists L'|]; rewrite Hb', He'; lia| | |lia].
    + intros Hmem K [HT HK]. split; [|by apply (rl_refs _ _ _ _ _ _ _ _ _ Hrel Hmem)]. by apply (released_tally _ _ _ _ _ _ _ _ _ Hrel Hmem).
    + left. split; [done|]. intros Hmem p. rewrite (rl_all _ _ _ _ _ _ _ _ _ Hrel Hmem), (pmap_cut _ _ _ _ Hlt _ Hok). case_decide; [|done]. rewrite Hfree; [done|]. unfold PAGE_SIZE. lia.
  - right. assert (end_code (mm s') = end_code (mm s)) as He' by (pose proof (f_equal end_code (mp_fixed _ _ _ _ _ _ _ _ _ _ Hm)) as H; exact H). split; [done|]. split; [done| | | |done].
    + split; [exists L'; split_and!; [by apply brk_world|done|done]|]. cbn. rewrite He'. lia.
    + intros Hmem K [HT HK]. split; [by apply (mp_tally _ _ _ _ _ _ _ _ _ _ Hm Hmem)|by apply (mp_refs _ _ _ _ _ _ _ _ _ _ Hm Hmem)].
    + right. split; [done|]. split; [done|]. split; [done|]. eexists. split; [apply heap_asked|]. intros Hmem p. unfold brk_map. fold new old.
      rewrite (mp_pmap _ _ _ _ _ _ _ _ _ _ Hm Hmem). rewrite (decide_False (P := new ≤ p < old)) by lia. cbn in Hy'. by rewrite Hy'.
Qed.

Lemma sys_brk_spec s l R b :
  process s l R → 0 ≤ b < 2 ^ 32 → ∃ r s' l' R', sys_brk kmalloc ops rlim mem b s = Ret r s' ∧ brk_post s l R b r s' l' R'.
Proof.
  intros Hpr Hb'. pose proof Hpr as [(L & Hw & Hcov & <-) [He Hb]]. unfold sys_brk, mbind, M_bind, gets. set (m := mm s) in *.
  assert (¬ end_code m ≤ b ≤ brk m → ∃ r s' l' R', Ret (brk m) s = Ret r s' ∧ brk_post s L.*2 R b r s' l' R') as Hno by (intros Hd; eexists _, s, L.*2, R; split; [done|by apply brk_none]).
  destruct (Z.ltb_spec b (end_code m)) as [|Hbe]; [apply Hno; lia|].
  destruct (page_align_addr b Hb') as (Hdn & Hn). destruct (page_align_addr (brk m)) as (Hdo & Ho); [unfold TASK_SIZE in *; lia|].
  assert (PAGE_SIZE | TASK_SIZE) as Hdt by (by exists 786432). assert (brk m ≤ PAGE_ALIGN (brk m) ≤ TASK_SIZE ∧ PAGE_ALIGN (brk m) < brk m + PAGE_SIZE) as [Ho1 Ho2].
  { destruct Hdt as [q Hq], Hdo as [q' Hq']. unfold TASK_SIZE, PAGE_SIZE in *. lia. } clear Ho. unfold mod_mm, modify.
  destruct (Z.eqb_spec (PAGE_ALIGN (brk m)) (PAGE_ALIGN b)) as [Heq|Hne].
  { eexists _, _, L.*2, R. split; [done|]. split; [done| |done| |done].
    - split; [exists L; split_and!; [by apply brk_world|done|done]|]. cbn. unfold PAGE_SIZE in *. fold m. lia.
    - right. split; [done|]. split; [done|]. fold m. rewrite <-Heq. split; [lia|]. eexists. split; [apply heap_asked|]. intros _ p. unfold brk_map. fold m. rewrite <-Heq, !decide_False by lia. done. }
  destruct (Z.leb_spec b (brk m)) as [Hle|Hgt].
  { destruct (brk_shrink s L R b Hw Hcov) as (s' & E & l' & R' & Hp); fold m; try done; [lia..|unfold PAGE_SIZE, TASK_SIZE in *; destruct Hdn as [q Hq], Hdo as [q' Hq']; lia|unfold PAGE_SIZE, TASK_SIZE in *; lia|lia|]. fold m in E. rewrite E. by exists b, s', l', R'. }
  specialize (Hno ltac:(lia)).
  destruct (_ <? _) eqn:Elim; [exact Hno|].
  pose proof (w_space _ _ _ _ Hw) as Hs. assert (∃ a, find_vma_intersection (PAGE_ALIGN (brk m)) (u32 (PAGE_ALIGN b + PAGE_SIZE)) s = Ret a s) as [a Ei] by (eexists; by apply find_vma_intersection_spec).
  rewrite Ei. destruct (Z.eqb_spec a 0) as [->|]; cbn [negb]; [|exact Hno]. destruct (negb _); [exact Hno|]. set (old := PAGE_ALIGN (brk m)) in *. set (new := PAGE_ALIGN b) in *.
  assert ((PAGE_SIZE | u32 (new - old)) ∧ 0 < u32 (new - old)) as [Hdl Hl0].
  { split; [by apply page_u32, Z.divide_sub_r|]. unfold u32. pose proof (Z.mod_pos_bound (new - old) (2 ^ 32) ltac:(done)). assert ((new - old) mod 2 ^ 32 ≠ 0); [|lia]. intros Hz%Z.mod_divide; [|done]. destruct Hz as [q Hq]. unfold TASK_SIZE in *. lia. }
  pose proof (u32_range (new - old)) as Hl1. pose proof (page_align_id _ Hdl Hl1) as Hal.
  destruct (do_mmap_spec kmalloc ops kmalloc_fresh rlim mem None s L ∅ R old (u32 (new - old)) (Z.lor (Z.lor PROT_READ PROT_WRITE) PROT_EXEC) (Z.lor MAP_FIXED MAP_PRIVATE) 0 Hw Hcov) as (r & s' & E & Hp); [lia|lia|done|]. rewrite E.
  destruct Hn as [[Hn Hn']|[_ Hn]].
  - assert (old < new) as Hlt by (destruct Hdn as [q Hq], Hdo as [q' Hq']; unfold PAGE_SIZE, TASK_SIZE in *; lia). rewrite (u32_id (new - old)) in Hp by (unfold PAGE_SIZE, TASK_SIZE in *; lia).
    destruct (brk_grow s L R b r s') as (l' & R' & [[Hr Hp']|[-> Hp']]); fold m new old; try done; try lia.
    + intros Ht. split_and!; [|done|].
      * destruct (Z.leb_spec RLIM_INFINITY (RLIMIT_DATA rlim)); [by left|right]. apply Z.ltb_ge in Elim. exact Elim.
      * fold m new old. intros p Hr. eapply intersection_none; [exact Hs|exact Ei|]. rewrite u32_id; unfold PAGE_SIZE, TASK_SIZE in *; lia.
    + rewrite (proj2 (Z.eqb_neq r old)) by lia. by exists (brk m), s', l', R'.
    + fold m old. rewrite Z.eqb_refl. eexists b, _, l', R'. split; [done|exact Hp'].
  - destruct Hp as [(_ & Hr & ->)|(_ & addr' & L' & R' & _ & _ & _ & _ & Ht & Ha & _)].
    + rewrite (proj2 (Z.eqb_neq r old)) by lia. exact Hno.
    + exfalso. change (addr' = old) in Ha. rewrite Hal, Hn in Ht. assert (u32 (0 - old) = 2 ^ 32 - old) as Hu by (unfold u32; symmetry; apply (Z.mod_unique _ _ (-1)); unfold TASK_SIZE in *; lia).
      rewrite Hu in Ht. unfold TASK_SIZE in *. lia.
Qed.

End calls.

(** ** Lemmas: exit *)

Section exit.

Context (ops : Z → vm_operations_struct).

Definition left_over (v : vma) : area * Z := (area_of v, vm_next v).

(** The areas [F] are gone, with their pages and references. *)
Record gone (s s' : vms) (R R' : Z → list Z) (F : list (Z * area)) : Prop := {
  go_rings : ∀ i, Permutation (R i) (inode_in i F ++ R' i);
  go_refs : ∀ K, refs s R K → refs s' R' K;
  go_mm : mm s' = mm s;
  go_free : ∀ a, mask <$> vmas s' !! a = if decide (a ∈ F.*1) then None else mask <$> vmas s !! a;
  go_zaps : ∃ cs, calls s' = calls s ++ cs ∧ ∀ p, zapped cs p ↔ Exists (λ x, a_start x ≤ p < a_end x) F.*2;
}.

Lemma gone_trans s s1 s2 R R1 R2 q F : gone s s1 R R1 [q] → gone s1 s2 R1 R2 F → gone s s2 R R2 (q :: F).
Proof.
  intros [A1 A2 A3 A4 (c1 & A5 & A6)] [B1 B2 B3 B4 (c2 & B5 & B6)]. split.
  - intros i. rewrite inode_cons, (A1 i), (B1 i). by rewrite <-app_assoc.
  - intros K HK. by apply B2, A2.
  - by rewrite B3.
  - intros a. rewrite B4, A4, fmap_cons. cbn. destruct (decide (a ∈ F.*1)), (decide (a ∈ [q.1])), (decide (a ∈ q.1 :: F.*1)); try done; set_solver.
  - exists (c1 ++ c2). split; [by rewrite B5, A5, app_assoc|]. intros p. rewrite zapped_app, A6, B6, fmap_cons. cbn. rewrite !Exists_cons, Exists_nil. naive_solver.
Qed.

Lemma iputs_one i j : iputs i [Iput j] = if j =? i then 1 else 0.
Proof. unfold iputs. rewrite sumZ_cons. cbn. lia. Qed.

Lemma gone_one s s3 R R3 a x c cs V :
  called s s3 c → op_calls c → mmap (mm s3) = mmap (mm s) → mmap_avl (mm s3) = mmap_avl (mm s) → mask <$> vmas s3 = mask <$> vmas s → V = delete a (vmas s3) →
  (∀ i, Permutation (R i) (inode_in i [(a, x)] ++ R3 i)) →
  cs = ZapPageRange (a_start x) (a_end x - a_start x) :: (if a_inode x =? 0 then [] else [Iput (a_inode x)]) →
  gone s (s3 <| calls := calls s3 ++ cs |> <| vmas := V |>) R R3 [(a, x)].
Proof.
  intros Hc Ho Hm Hav Hmask -> Hp ->. pose proof Hc as (Hmm & Hi & Hcs). split.
  - done.
  - intros K HK. apply (refs_called s s3 R K c) in HK; [|done..]. intros i n Hi0 Hn. change (i_count <$> inodes s3 !! i = Some n) in Hn. rewrite (HK i n Hi0 Hn), (Hp i), inode_one, length_app. cbn [calls upd]. rewrite !iputs_app.
    change (ZapPageRange ?u ?w :: ?t) with ([ZapPageRange u w] ++ t). rewrite iputs_app. change (iputs i [ZapPageRange _ _]) with 0.
    destruct (Z.eqb_spec (a_inode x) 0) as [H0|H0]; [rewrite decide_False by (intros [??]; congruence); change (iputs i []) with 0; cbn; lia|]. rewrite iputs_one. destruct (Z.eqb_spec (a_inode x) i); [rewrite decide_True by done|rewrite decide_False by (intros [??]; congruence)]; cbn; lia.
  - change (mm s3 = mm s). destruct (mm s3), (mm s). cbn in *. congruence.
  - intros b. change (mask <$> delete a (vmas s3) !! b = if decide (b ∈ [a]) then None else mask <$> vmas s !! b). destruct (decide (b ∈ [a])) as [->%list_elem_of_singleton|Hne]; [by rewrite lookup_delete_eq|].
    rewrite lookup_delete_ne by set_solver. by rewrite <-!lookup_fmap, Hmask.
  - eexists. split; [cbn [calls upd]; rewrite Hcs, <-app_assoc; done|]. intros p. rewrite zapped_app. cbn. rewrite Exists_cons, Exists_nil. split.
    + intros [Hz|(st & len & Hin & Hp')]; [by apply op_calls_zap in Hz|]. apply elem_of_cons in Hin as [[= -> ->]|Hin]; [left; lia|]. destruct (a_inode x =? 0); set_solver.
    + intros [Hx|[]]. right. exists (a_start x), (a_end x - a_start x). split; [apply list_elem_of_here|lia].
Qed.

Lemma exit_area s O R a x nx :
  world s [] O R → O !! a = Some (x, nx) → (a_inode x ≠ 0 → a ∈ R (a_inode x)) →
  ∃ s' R', (
      v ← ld_vma a;
      call_unmap ops a (vm_start v) (vm_end v - vm_start v) ;;
      call_close ops a ;;
      remove_shared_vm_struct a ;;
      log (ZapPageRange (vm_start v) (vm_end v - vm_start v)) ;;
      when (negb (vm_inode v =? 0)) (log (Iput (vm_inode v))) ;;
      kfree a) s = Ret tt s' ∧ world s' [] (delete a O) R' ∧ gone s s' R R' [(a, x)].
Proof.
  intros Hw Ea Hcov. destruct (w_others _ _ _ _ Hw a _ Ea) as [Ha0 Hv]. destruct (vmas s !! a) as [v|] eqn:E; [|done]. injection Hv as Hx Hnx.
  destruct (call_run ops s a v op_unmap (λ w, VmUnmap a w (vm_start v) (vm_end v - vm_start v)) E) as (s1 & c1 & E1 & Hc1 & Ho1 & Hs1); [done|]. change (call_unmap ops a (vm_start v) (vm_end v - vm_start v) s = Ret tt s1) in E1.
  assert (vmas s1 !! a = Some v) as Ev1 by (by rewrite Hs1). destruct (call_run ops s1 a v op_close (VmClose a) Ev1) as (s2 & c2 & E2 & Hc2 & Ho2 & Hs2); [done|]. change (call_close ops a s1 = Ret tt s2) in E2.
  assert (world s2 [] O R) as Hw2 by (rewrite Hs2, Hs1; by apply world_log, world_log). assert (vmas s2 !! a = Some v) as Ev2 by (by rewrite Hs2).
  assert (∃ l1 l2, vm_inode v ≠ 0 → R (vm_inode v) = l1 ++ a :: l2) as (l1 & l2 & HRi).
  { destruct (decide (vm_inode v = 0)) as [|Hne]; [by exists [], []|]. destruct (list_elem_of_split (R (vm_inode v)) a) as (l1 & l2 & ?); [subst x; by apply Hcov|by exists l1, l2]. }
  destruct (ring_del s2 R a v x l1 l2 (w_rings _ _ _ _ Hw2) Ev2 Hx HRi) as [Hp Ha]. destruct (remove_shared_spec s2 R a v l1 l2 (w_rings _ _ _ _ Hw2) Ev2 HRi) as (s3 & E3 & Hsh & HR3).
  set (R3 := if decide (vm_inode v = 0) then R else _) in *. pose proof (world_shares _ _ _ _ _ _ Hw2 Hsh HR3) as Hw3. destruct Hsh as (Hmask & Hrest & Hmm & Hav). apply called_rest in Hrest as Hc3.
  set (cs := ZapPageRange (vm_start v) (vm_end v - vm_start v) :: if vm_inode v =? 0 then [] else [Iput (vm_inode v)]). set (s4 := s3 <| calls := calls s3 ++ cs |>).
  assert (world s4 [] O R3) as Hw4 by (by apply world_log). exists (s4 <| vmas := delete a (vmas s4) |>), R3. split_and!.
  - unfold mbind, M_bind. rewrite (ld_vma_run _ _ _ E), E1, E2, E3. unfold log, modify, when, kfree, s4, cs. destruct (Z.eqb_spec (vm_inode v) 0); cbn [negb]; [done|]. cbn. by rewrite <-app_assoc.
  - by apply (world_free s4 [] O R3 a (x, nx)).
  - pose proof (called_trans _ _ _ _ _ Hc1 (called_trans _ _ _ _ _ Hc2 Hc3)) as Hc. apply (gone_one s s3 R R3 a x _ _ _ Hc); try done.
    + apply op_calls_app; [done|]. by rewrite app_nil_r.
    + by rewrite Hmm, Hs2, Hs1.
    + by rewrite Hav, Hs2, Hs1.
    + by rewrite Hmask, Hs2, Hs1.
    + unfold cs. by subst x.
Qed.

Lemma exit_areas_spec F : ∀ fuel s O R f,
  (length F < fuel)%nat → world s [] O R → fchain O f F → NoDup F.*1 → cover F R →
  ∃ s' O' R', exit_areas ops fuel f s = Ret tt s' ∧ world s' [] O' R' ∧ gone s s' R R' F.
Proof.
  induction F as [|[a x] F IH]; intros fuel s O R f Hfuel Hw Hch Hnd Hcov; (destruct fuel as [|fuel]; [cbn in Hfuel; lia|]); cbn [exit_areas].
  - cbn in Hch. subst f. exists s, O, R. split_and!; try done. split; try done. exists []. rewrite app_nil_r. split; [done|]. intros p. rewrite Exists_nil. split; [|done]. by apply op_calls_zap, op_calls_nil.
  - destruct Hch as (-> & nx & Ea & Hch). rewrite fmap_cons in Hnd. apply NoDup_cons in Hnd as [HaF Hnd]. cbn in HaF. destruct (w_others _ _ _ _ Hw a _ Ea) as [Ha0 Hv]. rewrite (proj2 (Z.eqb_neq _ _) Ha0).
    destruct (exit_area s O R a x nx Hw Ea) as (s1 & R1 & E1 & Hw1 & Hg1); [intros Hi; apply (Hcov (a_inode x)); rewrite inode_cons, inode_one, decide_True by done; apply list_elem_of_here|].
    destruct (vmas s !! a) as [v|] eqn:E; [|done]. injection Hv as Hx Hnx. unfold mbind, M_bind in E1 |- *. rewrite (ld_vma_run _ _ _ E) in E1 |- *.
    do 5 (match type of E1 with match ?e with _ => _ end = _ => destruct e; [|done] end). rewrite E1, Hnx.
    destruct (IH fuel s1 (delete a O) R1 nx ltac:(cbn in *; lia) Hw1) as (s' & O' & R' & E' & Hw' & Hg'); [|done| |].
    { eapply fchain_ext; [|exact Hch]. intros b Hb. apply lookup_delete_ne. by intros ->. }
    { intros i b Hb. assert (b ∈ R i) as Hin by (apply Hcov; rewrite inode_cons; apply elem_of_app; by right). rewrite (go_rings _ _ _ _ _ Hg1 i) in Hin. apply elem_of_app in Hin as [Hin|Hin]; [|done].
      exfalso. apply HaF. apply inode_sub in Hin, Hb. cbn in Hin. apply list_elem_of_singleton in Hin as ->. done. }
    exists s', O', R'. split_and!; try done. by eapply gone_trans.
Qed.

Lemma fchain_of V O l : ∀ p, chain V p l.*1 → holds V l → (∀ a v, a ∈ l.*1 → V !! a = Some v → O !! a = Some (area_of v, vm_next v)) → fchain O p l.
Proof.
  induction l as [|[a x] l IH]; intros p; [done|]. intros (-> & Ha & v & E & Hc) [Hx Hh]%Forall_cons HO. cbn in Hx, E. rewrite E in Hx. injection Hx as Hx. split; [done|]. exists (vm_next v). rewrite (HO a v), Hx by (try done; apply list_elem_of_here).
  split; [done|]. apply IH; [done|done|]. intros b w Hb. apply HO. cbn. by right.
Qed.

Lemma exit_mmap_spec s L R :
  world s L ∅ R → cover L R →
  let m := (mm s) <| mmap := 0 |> <| mmap_avl := 0 |> <| rss := 0 |> <| total_vm := 0 |> <| locked_vm := 0 |> in
  ∃ s' R', exit_mmap ops s = Ret tt s' ∧ world s' [] ∅ R' ∧ gone (s <| mm := m |>) s' R R' L.
Proof.
  intros Hw Hcov m. pose proof (w_space _ _ _ _ Hw) as Hs. pose proof (space_nodup _ _ Hs) as Hnd. unfold exit_mmap, mbind, M_bind, gets, mod_mm, modify, all_vmas. set (s1 := s <| mm := m |>).
  set (O := delete 0 (left_over <$> vmas s)). assert (world s1 [] O R) as Hw1.
  { split; [split; [exists Leaf|..]|..]; try done.
    - split_and!; try done. split; try done. constructor.
    - constructor.
    - intros a x Hx. unfold O in Hx. apply lookup_delete_Some in Hx as [Ha Hx]. rewrite lookup_fmap in Hx. split; [done|]. exact Hx.
    - by intros a Ha%elem_of_nil.
    - by destruct (w_rings _ _ _ _ Hw). }
  destruct (exit_areas_spec L (S (length (map_to_list (vmas s1)))) s1 O R (mmap (mm s))) as (s' & O' & R' & E & Hw' & Hg); try done.
  - pose proof (dom_bound (vmas s) L.*1 Hnd) as Hl. rewrite length_fmap in Hl. specialize (Hl ltac:(intros a Ha; apply (world_dom _ _ _ _ _ Hw); by left)). change (vmas s1) with (vmas s). lia.
  - apply (fchain_of (vmas s)); [by apply Hs|by apply Hs|]. intros a v Ha Ev. unfold O. rewrite lookup_delete_ne, lookup_fmap, Ev; [done|]. pose proof (chain_nonzero _ _ _ a (sp_chain _ _ Hs) Ha). done.
  - exists s', R'. split_and!; [exact E| |done]. by eapply world_weaken.
Qed.

End exit.
