(* ===== verification/MmapCalls.v ===== *)
(** * MmapCalls: what the memory map promises

    A process maps and unmaps memory, moves its break, faults and exits.  Its map
    stays right under any sequence of these requests; what each of them does is
    said in terms of [pmap], what there is at each address. *)

From stdpp Require Import gmap sorting.
From S2P Require Import Prelude Vmalloc Avl AvlFacts AvlOps Mmap MmapRights MmapFacts MmapSteps MmapUnmap MmapMunmap MmapMerge MmapMap MmapSys.

(** ** Requests *)

Inductive request :=
  | RMmap (f : option file) (addr len prot flags off : Z)
  | RMunmap (addr len : Z)
  | RBrk (b : Z)
  | RFault (error_code esp address : Z).

(** Numbers are [unsigned long]. *)
Definition request_ok (s : vms) (q : request) : Prop :=
  match q with
  | RMmap f addr len _ _ _ => 0 ≤ addr < 2 ^ 32 ∧ 0 ≤ len < 2 ^ 32 ∧ file_ok (inodes s) f
  | RMunmap addr len => 0 ≤ addr < 2 ^ 32 ∧ 0 ≤ len < 2 ^ 32
  | RBrk b => 0 ≤ b < 2 ^ 32
  | RFault _ _ address => 0 ≤ address < 2 ^ 32
  end.

Lemma pmap_covered l p : areas_ok 0 l → Exists (λ x, a_start x ≤ p < a_end x) l ↔ is_Some (pmap l p).
Proof.
  intros Hok. rewrite Exists_exists. split; [intros (x & Hx & Hp); exists (attr_at x p); apply (pmap_some l p _ 0 Hok); by exists x|]. intros [t Ht]. apply (pmap_some l p t 0 Hok) in Ht as (x & Hx & Hp & _). by exists x.
Qed.

Section calls.

Context (kmalloc : vms → Z) (ops : Z → vm_operations_struct) (rlim : limits) (mem : vms → memory).

Definition run (q : request) : M vms Z :=
  match q with
  | RMmap f addr len prot flags off => do_mmap kmalloc ops rlim mem f addr len prot flags off
  | RMunmap addr len => sys_munmap kmalloc ops addr len
  | RBrk b => sys_brk kmalloc ops rlim mem b
  | RFault error_code esp address => fault_area rlim error_code esp address
  end.

Definition step (s s' : vms) : Prop := ∃ q r, request_ok s q ∧ run q s = Ret r s'.

Context (kmalloc_fresh : ∀ s, kmalloc s ≠ 0 → vmas s !! kmalloc s = None).

(** ** Lemmas: one request *)

Lemma process_fixed s s' l R R' : process s l R → fixed (mm s') = fixed (mm s) → ∀ L', world s' L' ∅ R' → cover L' R' → process s' L'.*2 R'.
Proof.
  intros [_ Hb] Hf L' Hw Hc. split; [by exists L'|]. assert (end_code (mm s') = end_code (mm s) ∧ brk (mm s') = brk (mm s)) as [-> ->]; [|done].
  split; [by apply (f_equal end_code) in Hf|by apply (f_equal brk) in Hf].
Qed.

Lemma released_accounts s s' L L' R R' lo hi K :
  released kmalloc s s' R R' lo hi L L' → mem_ok kmalloc → areas_ok 0 L.*2 → accounts s L.*2 R K → accounts s' L'.*2 R' K.
Proof.
  intros Hr Hm Hok [HT HK]. split; [|by apply (rl_refs _ _ _ _ _ _ _ _ _ Hr Hm)]. by apply (released_tally _ _ _ _ _ _ _ _ _ Hr Hm).
Qed.

(** What [do_munmap] does with a valid range. *)
Record unmapped (lo hi : Z) (s : vms) (l : list area) (R : Z → list Z) (s' : vms) (l' : list area) (R' : Z → list Z) : Prop := {
  un_sub : l' `sublist_of` l ≫= cut lo hi;
  un_all : mem_ok kmalloc → l' = l ≫= cut lo hi;
  un_accounts : mem_ok kmalloc → ∀ K, accounts s l R K → accounts s' l' R' K;
  un_zaps : ∃ cs, calls s' = calls s ++ cs ∧ ∀ p, zapped cs p ↔ lo ≤ p < hi ∧ is_Some (pmap l p);
}.

Lemma released_unmapped s s' L L' R R' lo hi :
  released kmalloc s s' R R' lo hi L L' → areas_ok 0 L.*2 → unmapped lo hi s L.*2 R s' L'.*2 R'.
Proof.
  intros Hr Hok. split; [apply Hr|apply Hr|intros Hm K; by eapply released_accounts|]. destruct (rl_zaps _ _ _ _ _ _ _ _ _ Hr) as (cs & Hcs & Hz). exists cs. split; [done|]. intros p. by rewrite Hz, pmap_covered.
Qed.

Lemma munmap_refused addr len s : 0 ≤ addr → 0 ≤ len → ¬ munmap_ok addr len →
  do_munmap kmalloc ops addr len s = Ret (if negb (mask_lo PAGE_SIZE addr =? 0) || (TASK_SIZE <? addr) || (TASK_SIZE - addr <? len) then - EINVAL else 0) s.
Proof.
  intros Ha Hl Hno. unfold do_munmap, MAX_USER_ADDR. destruct (_ || _) eqn:E; [done|]. apply orb_false_iff in E as [[E1 E2]%orb_false_iff E3]. apply negb_false_iff, Z.eqb_eq, page_aligned in E1. apply Z.ltb_ge in E2, E3.
  assert (len = 0) as -> by (destruct (decide (len = 0)); [done|]; exfalso; apply Hno; split; [done|lia]). done.
Qed.

Lemma munmap_request s l R addr len :
  process s l R → 0 ≤ addr → 0 ≤ len →
  ∃ r s' l' R', do_munmap kmalloc ops addr len s = Ret r s' ∧ process s' l' R' ∧
    (munmap_ok addr len → r = 0 ∧ unmapped addr (addr + PAGE_ALIGN len) s l R s' l' R') ∧
    (¬ munmap_ok addr len → s' = s ∧ l' = l ∧ R' = R ∧ r = if negb (mask_lo PAGE_SIZE addr =? 0) || (TASK_SIZE <? addr) || (TASK_SIZE - addr <? len) then - EINVAL else 0).
Proof.
  intros Hpr Ha Hl. pose proof Hpr as [(L & Hw & Hcov & <-) _]. destruct (decide (mask_lo PAGE_SIZE addr = 0 ∧ 0 < len ≤ TASK_SIZE - addr)) as [[Hd Hlen]|Hno].
  - assert (munmap_ok addr len) as Hok by (split; [by apply page_aligned|lia]). destruct (do_munmap_spec kmalloc ops kmalloc_fresh s L ∅ R addr len Hw Hcov Hok) as (s' & L' & R' & E & Hw' & Hcov' & Hr).
    exists 0, s', L'.*2, R'. split_and!; [done|by eapply process_fixed; [done|apply Hr|..]| |done]. intros _. split; [done|]. apply released_unmapped; [done|]. by apply (w_space _ _ _ _ Hw).
  - assert (¬ munmap_ok addr len) as Hno' by (intros (H1 & H2 & H3); apply Hno; by rewrite page_aligned). eexists _, s, L.*2, R. split_and!; [by apply munmap_refused|done|done|done].
Qed.

(** The address of a new mapping. *)
Definition chosen (l : list area) (addr len flags addr' : Z) : Prop :=
  (PAGE_SIZE | addr') ∧ 0 ≤ addr' ∧ addr' + len ≤ TASK_SIZE ∧
  if has flags MAP_FIXED then addr' = addr
  else addr' ≠ 0 ∧ first_free l (hint addr) len addr'.

(** The range is as [y] says, and the rest of the map as before. *)
Record remapped (lo hi : Z) (y : area) (l l' : list area) : Prop := {
  re_range : a_start y = lo ∧ a_end y = hi;
  re_new : ∀ p, lo ≤ p < hi → pmap l' p = Some (attr_at y p);
  re_old : ∀ p t, ¬ lo ≤ p < hi → pmap l' p = Some t → pmap l p = Some t;
  re_all : mem_ok kmalloc → ∀ p, ¬ lo ≤ p < hi → pmap l' p = pmap l p;
}.

(** What [do_mmap] returns for [len] bytes, a number of whole pages. *)
Definition mmap_result (f : option file) (addr len prot flags off : Z) (s : vms) (l : list area) (r : Z) (s' : vms) (l' : list area) : Prop :=
  (len = 0 ∧ r = addr ∧ s' = s ∧ l' = l) ∨
  (len ≠ 0 ∧ ¬ acceptable kmalloc rlim f s l addr len prot flags off ∧ r < 0 ∧ s' = s ∧ l' = l) ∨
  (len ≠ 0 ∧ acceptable kmalloc rlim f s l addr len prot flags off ∧
   ∃ addr' x, chosen l addr len flags addr' ∧ asked s f addr' len prot flags off x ∧
     ((r < 0 ∧ late_refusal rlim mem f s' len x r ∧ (mem_ok kmalloc → l' = if has flags MAP_FIXED then l ≫= cut addr' (addr' + len) else l)) ∨
      (r = addr' ∧ late_checks rlim mem s' len x ∧ ∃ y, area_for f x y ∧ remapped addr' (addr' + len) y l l'))).

Lemma cut_free_id lo hi l : ∀ b, lo < hi → areas_ok b l → Forall (λ x, a_end x ≤ lo ∨ hi ≤ a_start x) l → l ≫= cut lo hi = l.
Proof.
  induction l as [|x l IH]; intros b Hlt; [done|]. intros (Hx & _ & _ & Hok) [Hf Hl]%Forall_cons. cbn [mbind list_bind]. rewrite (IH _ Hlt Hok Hl).
  destruct Hf as [Hf|Hf]; [pose proof (cut_below lo hi [x] Hlt) as H|pose proof (cut_above lo hi [x] Hlt) as H]; cbn in H; rewrite app_nil_r in H; rewrite H by (constructor; [lia|constructor]); done.
Qed.

Lemma mmap_request s l R f addr len prot flags off :
  process s l R → 0 ≤ addr → file_ok (inodes s) f →
  ∃ r s' l' R', do_mmap kmalloc ops rlim mem f addr len prot flags off s = Ret r s' ∧ process s' l' R' ∧
    (mem_ok kmalloc → ∀ K, accounts s l R K → accounts s' l' R' K) ∧ mmap_result f addr (PAGE_ALIGN len) prot flags off s l r s' l'.
Proof.
  intros Hpr Ha Hf. pose proof Hpr as [(L & Hw & Hcov & <-) _]. destruct (page_align_pages len) as (n & Hn & Hn0). destruct (decide (PAGE_ALIGN len = 0)) as [H0|Hne].
  { exists addr, s, L.*2, R. split_and!; [by unfold do_mmap; rewrite H0|done|done|by left]. }
  destruct (do_mmap_spec kmalloc ops kmalloc_fresh rlim mem f s L ∅ R addr len prot flags off Hw Hcov Ha ltac:(lia) Hf) as (r & s' & E & [(Hno & Hr & ->)|(Hyes & addr' & L' & R' & Hw' & Hcov' & Hd & H1 & H2 & H3 & Hout)]).
  { exists r, s, L.*2, R. split_and!; try done. right. by left. }
  pose proof (new_area_asked s f addr' (PAGE_ALIGN len) prot flags off (ac_access _ _ _ _ _ _ _ _ _ _ Hyes)) as Hask. set (x := new_area _ _ _ _ _ _ _) in *.
  pose proof (sp_ok _ _ (w_space _ _ _ _ Hw)) as Hok. assert (chosen L.*2 addr (PAGE_ALIGN len) flags addr') as Hch by done. destruct Hout as [(Hr & Hlate & Hrel)|(-> & Hlate & y & Hy & Hy1 & Hy2 & Hm)]; exists r, s', L'.*2, R' || exists addr', s', L'.*2, R'.
  - split_and!; [done|by eapply process_fixed; [done|apply Hrel|..]|intros Hmem K; by eapply released_accounts|]. right. right. split; [done|]. split; [done|]. exists addr', x. split; [done|]. split; [done|]. left. split; [done|]. split; [done|]. intros Hmem. rewrite (rl_all _ _ _ _ _ _ _ _ _ Hrel Hmem).
    destruct (has flags MAP_FIXED); [done|]. apply (cut_free_id _ _ _ 0); [lia|done|]. destruct H3 as [H3 [[-> _]|(_ & _ & _ & [_ Hfree] & _)]]; done.
  - split_and!; [done|by eapply process_fixed; [done|apply Hm|..]| |].
    + intros Hmem K [HT HK]. split; [by apply (mp_tally _ _ _ _ _ _ _ _ _ _ Hm Hmem)|by apply (mp_refs _ _ _ _ _ _ _ _ _ _ Hm Hmem)].
    + right. right. split; [done|]. split; [done|]. exists addr', x. split; [done|]. split; [done|]. right. split; [done|]. split; [done|]. exists y. split; [done|]. split; [done|apply Hm|apply Hm|]. intros Hmem p Hp. by rewrite (mp_pmap _ _ _ _ _ _ _ _ _ _ Hm Hmem), decide_False.
Qed.

Lemma run_request s l R q :
  process s l R → request_ok s q →
  ∃ r s' l' R', run q s = Ret r s' ∧ process s' l' R' ∧ (mem_ok kmalloc → ∀ K, accounts s l R K → accounts s' l' R' K).
Proof.
  intros Hpr. pose proof Hpr as [(L & Hw & Hcov & <-) Hb]. destruct q as [f addr len prot flags off|addr len|b|ec esp address]; cbn [request_ok run].
  - intros (Ha & _ & Hf). destruct (mmap_request s L.*2 R f addr len prot flags off Hpr ltac:(lia) Hf) as (r & s' & l' & R' & E & Hp & Hm & _). by exists r, s', l', R'.
  - intros [Ha Hl]. destruct (munmap_request s L.*2 R addr len Hpr ltac:(lia) ltac:(lia)) as (r & s' & l' & R' & E & Hp & Hyes & Hno). exists r, s', l', R'. split_and!; [done|done|]. intros Hm K HK.
    destruct (decide (mask_lo PAGE_SIZE addr = 0 ∧ 0 < len ≤ TASK_SIZE - addr)) as [[Hd Hlen]|Hn].
    + apply Hyes; [|done|done]. split; [by apply page_aligned|lia].
    + destruct Hno as (-> & -> & -> & _); [|done]. intros (H1 & H2 & H3). apply Hn. by rewrite page_aligned.
  - intros Hb'. destruct (sys_brk_spec kmalloc ops kmalloc_fresh rlim mem s L.*2 R b Hpr Hb') as (r & s' & l' & R' & E & [_ Hp Hm _ _]). by exists r, s', l', R'.
  - intros Ha. destruct (fault_area_spec rlim s L ∅ R ec esp address Hw Hcov ltac:(lia)) as (r & s' & L' & E & Hw' & Hcov' & [_ Ht (Hf & Hi & Hc) _ _ _]). exists r, s', L'.*2, R. split_and!; [done|by eapply process_fixed|].
    intros _ K [HT HK]. split; [by apply Ht|]. intros i n Hi0. rewrite Hi, Hc. by apply HK.
Qed.

(** ** Properties *)

(** C11: whatever requests a process makes, its map stays a list of disjoint areas
    of whole pages in the order of their addresses, with a balanced tree of the same
    areas and the ring of every mapped inode; no request runs into a null pointer,
    an overflow of the stack of the tree or an endless loop; and as long as memory
    lasts the counters of pages and of references to inodes are right. *)
Theorem map_reachable s0 l0 R0 s :
  process s0 l0 R0 → rtc step s0 s →
  ∃ l R, process s l R ∧ (mem_ok kmalloc → ∀ K, accounts s0 l0 R0 K → accounts s l R K) ∧
    ∀ q, request_ok s q → ∃ r s', run q s = Ret r s'.
Proof.
  intros Hp Hs. revert l0 R0 Hp. induction Hs as [s|s s1 s2 (q & r & Hq & E) _ IH]; intros l R Hp.
  - exists l, R. split_and!; [done|done|]. intros q Hq. destruct (run_request s l R q Hp Hq) as (r & s' & _ & _ & E & _). by exists r, s'.
  - destruct (run_request s l R q Hp Hq) as (r' & s' & l' & R' & E' & Hp' & Ha'). rewrite E in E'. injection E' as <- <-.
    destruct (IH l' R' Hp') as (l2 & R2 & Hp2 & Ha2 & Hq2). exists l2, R2. split_and!; [done| |done]. intros Hm K HK. by apply (Ha2 Hm), (Ha' Hm).
Qed.

(** C17: [munmap] of a valid range cuts exactly the range out of every area, takes
    exactly the mapped pages of the range out of the page tables and keeps the
    counters right, if memory for the new areas can be had; otherwise parts of
    areas may be missing, but nothing else changes.  An invalid range is refused
    with EINVAL. *)
Theorem munmap_cuts s l R addr len :
  process s l R → 0 ≤ addr → 0 ≤ len →
  ∃ r s' l' R', sys_munmap kmalloc ops addr len s = Ret r s' ∧ process s' l' R' ∧
    (munmap_ok addr len → r = 0 ∧ unmapped addr (addr + PAGE_ALIGN len) s l R s' l' R') ∧
    (¬ munmap_ok addr len → s' = s ∧ l' = l ∧ R' = R ∧ r = if negb (mask_lo PAGE_SIZE addr =? 0) || (TASK_SIZE <? addr) || (TASK_SIZE - addr <? len) then - EINVAL else 0).
Proof. apply munmap_request. Qed.


(** C27: [sys_brk] returns the break that is then in force, and the map stays right.
    Either the break has not moved, or it is the one asked for, not below the code,
    and has moved up only within the limit of the data and over addresses that, with
    one page more, were free.  Down to the code it always moves.  As long as memory
    lasts, the pages from the new break to the old one are gone or those from the
    old one to the new one are mapped as heap, every other address is as before, and
    the counters are right. *)
Theorem brk_moves s l R b :
  process s l R → 0 ≤ b < 2 ^ 32 →
  ∃ s' l' R', sys_brk kmalloc ops rlim mem b s = Ret (brk (mm s')) s' ∧ process s' l' R' ∧
    (mem_ok kmalloc → ∀ K, accounts s l R K → accounts s' l' R' K) ∧
    (brk (mm s') = brk (mm s) ∧ (mem_ok kmalloc → ∀ p, pmap l' p = pmap l p) ∨ brk_moved kmalloc rlim s l b s' l') ∧
    (end_code (mm s) ≤ b ≤ brk (mm s) → brk (mm s') = b).
Proof.
  intros Hp Hb. destruct (sys_brk_spec kmalloc ops kmalloc_fresh rlim mem s l R b Hp Hb) as (r & s' & l' & R' & E & [-> H1 H2 H3 H4]). by exists s', l', R'.
Qed.

End calls.

(** C28: the search through the tree finds the same area as one through the list:
    the first that ends above the address. *)
Theorem find_vma_linear s l R addr :
  process s l R → ∃ a, find_vma addr s = Ret a s ∧
    match linear l addr with Some x => a ≠ 0 ∧ area_of <$> vmas s !! a = Some x | None => a = 0 end.
Proof.
  intros [(L & Hw & _ & <-) _]. pose proof (w_space _ _ _ _ Hw) as Hs. exists (above0 addr L). split; [by apply find_vma_spec|]. rewrite <-above_linear. unfold above0. destruct (above addr L) as [[a x]|] eqn:E; [|done]. cbn.
  apply above_some in E as (A & B & -> & _). destruct (space_lookup s _ a x Hs) as (v & Ev & Hv & Ha); [set_solver|]. by rewrite Ev, <-Hv.
Qed.

(** C26: a fault below a stack lets it grow down to the page of the address exactly
    when [stack_grows] says so: it is the next area above, the user's stack pointer
    is at most 32 bytes above the address, and the limits leave room; otherwise
    nothing changes.  Then the handler is called if and only if the address is
    mapped and its area allows the access: to write, or to read what is not there
    where it allows to read or to execute.  Whatever was mapped stays as it was. *)
Theorem fault_granted rlim s l R error_code esp address :
  process s l R → 0 ≤ address →
  ∃ r s' l', fault_area rlim error_code esp address s = Ret r s' ∧ process s' l' R ∧ grew l l' ∧ (∀ K, accounts s l R K → accounts s' l' R K) ∧
    (r ≠ 0 ↔ ∃ t, pmap l' address = Some t ∧ may_access error_code (t_flags t)) ∧
    (∀ x, stack_grows rlim s l error_code esp address x → with_grown address x l l') ∧
    ((∀ x, ¬ stack_grows rlim s l error_code esp address x) → s' = s ∧ l' = l).
Proof.
  intros Hp Ha. pose proof Hp as [(L & Hw & Hcov & <-) _]. destruct (fault_area_spec rlim s L ∅ R error_code esp address Hw Hcov Ha) as (r & s' & L' & E & Hw' & Hcov' & [Hg Ht (Hf & Hi & Hc) Hr Hsame Hgrows]).
  exists r, s', L'.*2. split_and!; try done; [by eapply process_fixed|]. intros K [HT HK]. split; [by apply Ht|]. intros i n Hi0. rewrite Hi, Hc. by apply HK.
Qed.

(** C29: at exit every area is freed, exactly the mapped pages leave the page
    tables, every reference to an inode is given back, and the areas of other
    processes keep their contents and their places in the rings. *)
Theorem exit_frees ops s l R :
  process s l R →
  ∃ s' R' A, exit_mmap ops s = Ret tt s' ∧ length A = length l ∧ world s' [] ∅ R' ∧
    mm s' = (mm s) <| mmap := 0 |> <| mmap_avl := 0 |> <| rss := 0 |> <| total_vm := 0 |> <| locked_vm := 0 |> ∧
    (∀ a, mask <$> vmas s' !! a = if decide (a ∈ A) then None else mask <$> vmas s !! a) ∧ (∀ i a, a ∈ R' i ↔ a ∈ R i ∧ a ∉ A) ∧
    (∀ K, refs s R K → refs s' R' K) ∧ ∃ cs, calls s' = calls s ++ cs ∧ ∀ p, zapped cs p ↔ is_Some (pmap l p).
Proof.
  intros [(L & Hw & Hcov & <-) _]. destruct (exit_mmap_spec ops s L R Hw Hcov) as (s' & R' & E & Hw' & [G1 G2 G3 G4 (cs & G5 & G6)]). exists s', R', L.*1. split_and!; try done; [by rewrite !length_fmap| |].
  - intros i a. pose proof (rg_nodup _ _ (w_rings _ _ _ _ Hw) i) as Hnd. rewrite (G1 i) in Hnd |- *. apply NoDup_app in Hnd as (_ & Hd & _). rewrite elem_of_app. split; [|intros [[Hin|Hin] Hno]; [by apply inode_sub in Hin|done]].
    intros Hin. split; [by right|]. intros HL. apply list_elem_of_fmap in HL as ([b x] & -> & HL). cbn in Hin. apply (Hd b); [|done]. assert (b ∈ R i) as HR by (rewrite (G1 i); apply elem_of_app; by right).
    destruct (rg_inode _ _ (w_rings _ _ _ _ Hw) i b HR) as [Hi0 _]. destruct (rg_member _ _ (w_rings _ _ _ _ Hw) i b HR) as [_ Hv]. destruct (space_lookup s L b x (w_space _ _ _ _ Hw) HL) as (v & Ev & <- & _). rewrite Ev in Hv. injection Hv as Hv.
    unfold inode_in. apply list_elem_of_fmap. exists (b, area_of v). split; [done|]. by apply list_elem_of_filter.
  - exists cs. split; [done|]. intros p. rewrite G6. apply pmap_covered, (w_space _ _ _ _ Hw).
Qed.

(** ** Lemmas: no memory *)

Lemma straddling_inodes (lo hi i : Z) (L : list (Z * area)) : i ≠ 0 →
  length (inode_in i (filter (λ q, straddles lo hi q.2) L)) = length (filter (λ x, straddles lo hi x ∧ a_inode x = i) L.*2).
Proof.
  intros Hi. induction L as [|[a x] L IH]; [done|]. rewrite fmap_cons, !filter_cons. cbn [snd]. destruct (decide (straddles lo hi x)) as [Hs|Hs].
  - rewrite inode_cons, inode_one, length_app, IH. repeat case_decide; cbn; try lia; naive_solver.
  - rewrite IH, decide_False by naive_solver. done.
Qed.

Lemma npages_pos x l lo : areas_ok lo (x :: l) → 0 < npages (x :: l).
Proof.
  intros (Hx & [p Hp] & [q Hq] & Hl). pose proof (areas_pages _ _ Hl) as [Hb _]. unfold npages in *. rewrite sumZ_cons, pages_div, Hp, Hq, <-Z.mul_sub_distr_r, Z.div_mul by done. unfold PAGE_SIZE in *. lia.
Qed.

(** The pages of what should be left are those of the untouched areas and more. *)
Lemma cut_npages lo hi l : ∀ b, 0 ≤ b → (PAGE_SIZE | lo) → (PAGE_SIZE | hi) → lo < hi → areas_ok b l →
  npages (filter (apart lo hi) l) ≤ npages (l ≫= cut lo hi) ∧ (Exists (straddles lo hi) l → npages (filter (apart lo hi) l) < npages (l ≫= cut lo hi)).
Proof.
  induction l as [|x l IH]; intros b Hb Hlo Hhi Hlt; [intros _; split; [done|by intros ?%Exists_nil]|]. intros Hx. pose proof Hx as (Hxb & _ & _ & Hok). specialize (IH (a_end x) ltac:(lia) Hlo Hhi Hlt Hok).
  cbn [mbind list_bind]. rewrite npages_app, filter_cons, Exists_cons. destruct (decide (apart lo hi x)) as [Hap|Hap].
  - assert (cut lo hi x = [x]) as ->. { destruct Hap as [Hap|Hap]; [pose proof (cut_below lo hi [x] Hlt) as H|pose proof (cut_above lo hi [x] Hlt) as H]; cbn in H; rewrite app_nil_r in H; apply H; (constructor; [lia|constructor]). }
    rewrite npages_one. unfold npages in *. rewrite sumZ_cons. unfold straddles, apart in *. split; [lia|]. intros [?|?]; [lia|naive_solver lia].
  - pose proof (areas_one [] x l (areas_mono _ _ 0 Hb Hx)) as Hx1. destruct (cut_areas_ok lo hi x Hlo Hhi Hlt Hx1) as [Hc _]. pose proof (areas_pages _ _ Hc) as [Hp _]. split; [lia|]. intros [Hs|?]; [|naive_solver lia].
    destruct (cut lo hi x) as [|y c] eqn:Ec; [|apply npages_pos in Hc; lia]. exfalso. unfold cut in Ec. unfold straddles in Hs. destruct (Z.ltb_spec (a_start x) lo), (Z.ltb_spec hi (a_end x)); cbn in Ec; try done. lia.
Qed.

(** C39: [unmap_fixup] gives up if [kmalloc] fails, when the area is already out of
    the map: without memory, [munmap] returns 0, and every area that a bound of the
    range lies inside of is gone as a whole.  The counters of pages are those of the
    parts that should be left, so that they are too large, and the references to
    the inodes of these areas stay counted, while no area has them any longer. *)
Theorem munmap_loses_area ops s l R K addr len :
  process s l R → accounts s l R K → munmap_ok addr len →
  let hi := addr + PAGE_ALIGN len in
  ∃ s' l' R', sys_munmap (λ _, 0) ops addr len s = Ret 0 s' ∧ process s' l' R' ∧ l' = filter (apart addr hi) l ∧
    total_vm (mm s') = npages (l ≫= cut addr hi) ∧ (Exists (straddles addr hi) l → npages l' < total_vm (mm s')) ∧
    refs s' R' (λ i, K i + Z.of_nat (length (filter (λ x, straddles addr hi x ∧ a_inode x = i) l))).
Proof.
  intros Hp [HT HK] Hmok hi. pose proof Hp as [(L & Hw & Hcov & <-) _]. pose proof Hmok as (Ha & Ha0 & Hlen). destruct (page_range addr len Ha Ha0 ltac:(lia)) as [Hhi _]. fold hi in Hhi.
  pose proof (sp_ok _ _ (w_space _ _ _ _ Hw)) as Hok. assert (addr < hi) as Hlt. { destruct (page_align_up len) as [_ Hb]; [lia|]. unfold hi. lia. }
  destruct (do_munmap_spec (λ _, 0) ops ltac:(done) s L ∅ R addr len Hw Hcov Hmok) as (s' & L' & R' & E & Hw' & Hcov' & Hr). fold hi in Hr.
  destruct (rl_lost _ _ _ _ _ _ _ _ _ Hr ltac:(done)) as [El Hrefs]. pose proof (rl_tally _ _ _ _ _ _ _ _ _ Hr [] []) as Ht. rewrite !app_nil_r in Ht. destruct (Ht Hok HT) as [Htot _]. cbn [app] in Htot.
  exists s', L'.*2, R'. split_and!; [exact E|by eapply process_fixed; [done|apply Hr|..]|exact El|exact Htot| |].
  - intros He. rewrite Htot, El. by apply (cut_npages addr hi L.*2 0).
  - intros i n Hi Hn. by rewrite (Hrefs K HK i n Hi Hn), straddling_inodes.
Qed.

(** ** Samples *)

(** An allocator that returns an address behind all others. *)
Definition fresh_key (V : gmap Z vma) : Z := 1 + foldr Z.max 0 (map_to_list V).*1.

Lemma fresh_key_fresh V : V !! fresh_key V = None.
Proof.
  destruct (V !! fresh_key V) as [v|] eqn:E; [|done]. exfalso. assert (∀ l a, a ∈ l → a ≤ foldr Z.max 0 l) as Hmax.
  { induction l as [|b l IH]; intros a; [by intros ?%elem_of_nil|]. intros [->|Ha]%elem_of_cons; cbn; [lia|]. specialize (IH a Ha). lia. }
  assert (fresh_key V ∈ (map_to_list V).*1) as Hin by (apply list_elem_of_fmap; exists (fresh_key V, v); split; [done|by apply elem_of_map_to_list]). specialize (Hmax _ _ Hin). unfold fresh_key in Hmax at 1. lia.
Qed.

Lemma fresh_key_positive V : fresh_key V ≠ 0.
Proof. unfold fresh_key. assert (∀ l, 0 ≤ foldr Z.max 0 l) as H by (induction l; cbn; lia). specialize (H (map_to_list V).*1). lia. Qed.

Definition sample_kmalloc (s : vms) : Z := fresh_key (vmas s).
Definition sample_ops (o : Z) : vm_operations_struct := MkOps (o =? 1) (o =? 1) false.
Definition sample_limits : limits := MkLimits (2 ^ 31 - 1) (2 ^ 31 - 1) (2 ^ 31 - 1) (2 ^ 31 - 1).
Definition sample_memory (_ : vms) : memory := MkMemory 0 0 5000 10000 (2 ^ 24).

(** A program in a file, its heap and its stack. *)
Definition sample_text : area := MkArea 0x8000 0xb000 0x75 0x25 1 0 5 0.
Definition sample_heap : area := MkArea 0xb000 0xc000 0x77 0x25 0 0 0 0.
Definition sample_stack : area := MkArea 0xbfffe000 0xc0000000 0x177 0x25 0 0 0 0.

Definition sample : vms := MkVms
  (MkMm 16 32 0xb000 0xc000 0 6 0 0)
  {[ 16 := MkVma 0x8000 0xb000 0x25 0x75 1 0 0 32 16 16 1 0 5 0;
     32 := MkVma 0xb000 0xc000 0x25 0x77 2 16 48 48 0 0 0 0 0 0;
     48 := MkVma 0xbfffe000 0xc0000000 0x25 0x177 1 0 0 0 0 0 0 0 0 0 ]}
  {[ 5 := MkInode 1 16 ]} [].

Definition sample_rings (i : Z) : list Z := if i =? 5 then [16] else [].

Lemma sample_process : process sample [sample_text; sample_heap; sample_stack] sample_rings.
Proof.
  split; [|by vm_compute]. exists [(16, sample_text); (32, sample_heap); (48, sample_stack)]. split_and!; [split| |done].
  - split.
    + exists (Node (Node Leaf 16 1 Leaf) 32 2 (Node Leaf 48 1 Leaf)). split_and!; [split|..]; try done; [|by apply (bool_decide_unpack _); vm_compute].
      cbn [repr]. split; [done|]. split; [done|]. eexists. split; [by vm_compute|]. cbn. split_and!; try done; eexists; (split; [by vm_compute|]); by split_and!.
    + cbn [chain fmap list_fmap fst]. do 3 (split; [done|]; split; [done|]; eexists; split; [by vm_compute|]). done.
    + repeat constructor.
    + cbn. unfold PAGE_SIZE. split_and!; try done; [by exists 8|by exists 11|by exists 11|by exists 12|by exists 786430|by exists 786432].
  - done.
  - done.
  - split.
    + intros i a. unfold sample_rings. destruct (Z.eqb_spec i 5) as [->|]; [|by intros ?%elem_of_nil]. intros _. split; [done|]. by eexists.
    + intros i x. cbn [inodes sample]. by intros [<- <-]%lookup_singleton_Some.
    + intros i. unfold sample_rings. by destruct (i =? 5).
    + intros i. unfold sample_rings. destruct (i =? 5); [apply NoDup_singleton|constructor].
    + intros i a. unfold sample_rings. destruct (Z.eqb_spec i 5) as [->|]; [|by intros ?%elem_of_nil]. by intros ->%list_elem_of_singleton.
  - intros i a. unfold inode_in, sample_rings. cbn. destruct (decide (5 = i ∧ i ≠ 0)) as [[<- _]|]; cbn; [done|].
    rewrite !decide_False by naive_solver. by intros ?%elem_of_nil.
Qed.

Lemma sample_accounts : accounts sample [sample_text; sample_heap; sample_stack] sample_rings (λ _, 0).
Proof. split; [done|]. intros i n Hi. cbn [inodes sample]. destruct (decide (5 = i)) as [<-|Hne]; [by intros [= <-]|]. by rewrite lookup_singleton_ne. Qed.

Lemma sample_fresh s : sample_kmalloc s ≠ 0 → vmas s !! sample_kmalloc s = None.
Proof. intros _. apply fresh_key_fresh. Qed.

Lemma sample_mem_ok : mem_ok sample_kmalloc.
Proof. intros s. apply fresh_key_positive. Qed.

(** The file of the program, open for reading. *)
Definition sample_file : option file := Some (MkFile 1 false false 0 (Some (λ v, (0, v <| vm_inode := 5 |> <| vm_ops := 1 |>)))).

Lemma sample_file_ok : file_ok (inodes sample) sample_file.
Proof. intros op v [= <-]. by cbn. Qed.

Lemma sample_request : request_ok sample (RMunmap 0x9000 0x1000).
Proof. by vm_compute. Qed.

Lemma map_reachable_witness : ∃ s l R,
  rtc (step sample_kmalloc sample_ops sample_limits sample_memory) sample s ∧ vmas s ≠ vmas sample ∧ process s l R ∧ accounts s l R (λ _, 0).
Proof.
  destruct (run sample_kmalloc sample_ops sample_limits sample_memory (RMunmap 0x9000 0x1000) sample) as [r s|] eqn:E; [|by vm_compute in E].
  assert (rtc (step sample_kmalloc sample_ops sample_limits sample_memory) sample s) as Hs by (apply rtc_once; exists (RMunmap 0x9000 0x1000), r; split; [exact sample_request|exact E]).
  destruct (map_reachable sample_kmalloc sample_ops sample_limits sample_memory sample_fresh sample _ _ s sample_process Hs) as (l & R & Hp & Ha & _).
  exists s, l, R. split; [exact Hs|]. split; [|split; [exact Hp|apply Ha; [apply sample_mem_ok|apply sample_accounts]]]. intros H. apply (f_equal (lookup 16)) in H. vm_compute in E. injection E as _ <-. vm_compute in H. discriminate H.
Defined.

Lemma sample_range : munmap_ok 0x9000 0x1000.
Proof. split; [by exists 9|done]. Qed.

Lemma munmap_cuts_witness : ∃ s' l' R',
  sys_munmap sample_kmalloc sample_ops 0x9000 0x1000 sample = Ret 0 s' ∧ process s' l' R' ∧ accounts s' l' R' (λ _, 0) ∧
  l' = [sample_text <| a_end := 0x9000 |>; sample_text <| a_start := 0xa000 |> <| a_offset := 0x2000 |>; sample_heap; sample_stack].
Proof.
  destruct (munmap_cuts sample_kmalloc sample_ops sample_fresh sample _ _ 0x9000 0x1000 sample_process ltac:(done) ltac:(done)) as (r & s' & l' & R' & E & Hp & Hyes & _).
  destruct (Hyes sample_range) as [-> [_ H1 H2 _]]. exists s', l', R'. split; [exact E|]. split; [exact Hp|]. split; [apply H2; [apply sample_mem_ok|apply sample_accounts]|]. rewrite (H1 sample_mem_ok). vm_compute. reflexivity.
Defined.


Lemma brk_moves_witness : ∃ s' l' R' y,
  sys_brk sample_kmalloc sample_ops sample_limits sample_memory 0xe123 sample = Ret 0xe123 s' ∧ process s' l' R' ∧ brk (mm s') = 0xe123 ∧
  heap_area sample 0xc000 0xf000 y ∧ pmap l' 0xd000 = Some (attr_at y 0xd000).
Proof.
  destruct (brk_moves sample_kmalloc sample_ops sample_limits sample_memory sample_fresh sample _ _ 0xe123 sample_process ltac:(done)) as (s' & l' & R' & E & Hp & _ & H & _).
  assert (brk (mm s') = 0xe123) as Hb by (vm_compute in E; injection E as _ <-; reflexivity). rewrite Hb in E. exists s', l', R'.
  destruct H as [[H _]|(_ & _ & _ & y & Hy & H)]; [rewrite Hb in H; vm_compute in H; discriminate H|]. exists y. split; [exact E|]. split; [exact Hp|]. split; [exact Hb|]. clear E. split; [exact Hy|].
  rewrite (H sample_mem_ok). reflexivity.
Defined.

Lemma find_vma_linear_witness : find_vma 0xb123 sample = Ret 32 sample ∧ linear [sample_text; sample_heap; sample_stack] 0xb123 = Some sample_heap.
Proof.
  destruct (find_vma_linear sample _ _ 0xb123 sample_process) as (a & E & H). split; [|reflexivity]. rewrite E. f_equal. vm_compute in E. injection E as <-. reflexivity.
Defined.

Lemma fault_granted_witness : ∃ s' l', fault_area sample_limits 6 0xbfffd100 0xbfffd0f0 sample = Ret 48 s' ∧ process s' l' sample_rings ∧ is_Some (pmap l' 0xbfffd0f0).
Proof.
  destruct (fault_granted sample_limits sample _ _ 6 0xbfffd100 0xbfffd0f0 sample_process ltac:(done)) as (r & s' & l' & E & Hp & _ & _ & Hr & _ & _). assert (r = 48) as -> by (vm_compute in E; injection E as <- _; reflexivity).
  exists s', l'. split; [exact E|]. split; [exact Hp|]. destruct Hr as [Hr _]. destruct (Hr ltac:(lia)) as (t & Ht & _). exists t. exact Ht.
Defined.

Lemma exit_frees_witness : ∃ s', exit_mmap sample_ops sample = Ret tt s' ∧ inodes s' !! 5 = Some (MkInode 1 0) ∧ iputs 5 (calls s') = 1.
Proof.
  destruct (exit_frees sample_ops sample _ _ sample_process) as (s' & R' & A & E & _ & _ & _ & _ & _ & HK & _). exists s'. split; [exact E|]. vm_compute in E. injection E as <-. split; vm_compute; reflexivity.
Defined.

Lemma munmap_loses_area_witness : ∃ s' R', sys_munmap (λ _, 0) sample_ops 0x9000 0x1000 sample = Ret 0 s' ∧ process s' [sample_heap; sample_stack] R' ∧
  total_vm (mm s') = npages [sample_heap; sample_stack] + 2 ∧ refs s' R' (λ i, if i =? 5 then 1 else 0).
Proof.
  destruct (munmap_loses_area sample_ops sample _ _ (λ _, 0) 0x9000 0x1000 sample_process sample_accounts sample_range) as (s' & l' & R' & E & Hp & -> & Ht & _ & Hr).
  exists s', R'. split; [exact E|]. split; [exact Hp|]. split; [exact Ht|]. intros i n Hi Hn. rewrite (Hr i n Hi Hn). destruct (Z.eqb_spec i 5) as [->|Hne]; [reflexivity|]. cbn. rewrite decide_False by (intros [_ H]; congruence). reflexivity.
Defined.
