(* ===== verification/Deci.v ===== *)
(** * Deci: the DECI1 packet header and its checksum

    Models [struct decihdr_s], [struct deci_reset_pkt_s],
    [struct deci_acknak_pkt_s] and [deci_cksum] of
    include/linux/ps2mrp-psnet.h.  The structures are packed and the i386 is
    little-endian: a header is eight 32-bit words of memory.  [hdr_of_words]
    reads the fields out of memory the way a C field access does, and
    [words_of_hdr] is the memory a header with these fields occupies. *)

From S2P Require Import Prelude.

(** ** Code *)

Definition DECI_MAGIC : Z := 0xa14c.
Definition REQ_TRESET : Z := 0x54010000.
Definition REQ_ZACKNAK : Z := 0x01010100.
Definition MRP_MAX_PKT_SIZE : Z := 0x4000.

Record decihdr_s := MkHdr {
  magic : Z;
  size : Z;
  category : Z;
  priority : Z;
  reply : Z;
  tag : Z;
  acktag : Z;
  ackcode : Z;
  pad : Z;
  crsv : Z;
  cid : Z;
  seq : Z;
  req : Z;
  cksum : Z;
}.

(** [sizeof(struct decihdr_s)] in bytes and in words. *)
Definition sizeof_hdr : Z := 0x20.
Definition hdr_words : nat := 8.

Record deci_reset_pkt_s := MkResetPkt {
  rp_hdr : decihdr_s;
  rp_reset_mode : Z;
}.

Record deci_acknak_pkt_s := MkAckNak {
  an_hdr : decihdr_s;
  ack : Z;
  nak : Z;
}.

(** Word [i] of a structure in memory. *)
Definition word_at (ws : list Z) (i : nat) : Z := default 0 (ws !! i).

Definition lo16 (w : Z) : Z := u16 w.
Definition hi16 (w : Z) : Z := u16 (w / 2 ^ 16).

Definition hdr_of_words (ws : list Z) : decihdr_s := {|
  magic := lo16 (word_at ws 0);
  size := hi16 (word_at ws 0);
  category := word_at ws 1;
  priority := lo16 (word_at ws 2);
  reply := hi16 (word_at ws 2);
  tag := u8 (word_at ws 3);
  acktag := u8 (word_at ws 3 / 2 ^ 8);
  ackcode := u8 (word_at ws 3 / 2 ^ 16);
  pad := u8 (word_at ws 3 / 2 ^ 24);
  crsv := word_at ws 4;
  cid := lo16 (word_at ws 5);
  seq := hi16 (word_at ws 5);
  req := word_at ws 6;
  cksum := word_at ws 7;
|}.

Definition words_of_hdr (h : decihdr_s) : list Z :=
  [magic h + 2 ^ 16 * size h;
   category h;
   priority h + 2 ^ 16 * reply h;
   word_of_bytes (tag h) (acktag h) (ackcode h) (pad h);
   crsv h;
   cid h + 2 ^ 16 * seq h;
   req h;
   cksum h].

Definition deci_cksum (hdr : list Z) : Z :=
  let rc := word_at hdr 0 in
  let rc := u32 (rc + word_at hdr 1) in
  let rc := u32 (rc + word_at hdr 2) in
  let rc := u32 (rc + word_at hdr 3) in
  let rc := u32 (rc + word_at hdr 4) in
  let rc := u32 (rc + word_at hdr 5) in
  let rc := u32 (rc + word_at hdr 6) in
  rc.

(** ** Well-formed headers *)

Record hdr_ok (h : decihdr_s) : Prop := {
  ok_magic : 0 ≤ magic h < 2 ^ 16;
  ok_size : 0 ≤ size h < 2 ^ 16;
  ok_category : is_word (category h);
  ok_priority : 0 ≤ priority h < 2 ^ 16;
  ok_reply : 0 ≤ reply h < 2 ^ 16;
  ok_tag : is_byte (tag h);
  ok_acktag : is_byte (acktag h);
  ok_ackcode : is_byte (ackcode h);
  ok_pad : is_byte (pad h);
  ok_crsv : is_word (crsv h);
  ok_cid : 0 ≤ cid h < 2 ^ 16;
  ok_seq : 0 ≤ seq h < 2 ^ 16;
  ok_req : is_word (req h);
  ok_cksum : is_word (cksum h);
}.

(** The header with its checksum field filled in. *)
Definition seal (h : decihdr_s) : decihdr_s :=
  {| magic := magic h; size := size h; category := category h;
     priority := priority h; reply := reply h; tag := tag h;
     acktag := acktag h; ackcode := ackcode h; pad := pad h;
     crsv := crsv h; cid := cid h; seq := seq h; req := req h;
     cksum := deci_cksum (words_of_hdr h) |}.

(** ** Lemmas *)

Lemma lo16_pair a b : 0 ≤ a < 2 ^ 16 → lo16 (a + 2 ^ 16 * b) = a.
Proof.
  intros. unfold lo16, u16. rewrite Z.mul_comm, Z_mod_plus_full. by apply Z.mod_small.
Qed.

Lemma hi16_pair a b : 0 ≤ a < 2 ^ 16 → 0 ≤ b < 2 ^ 16 → hi16 (a + 2 ^ 16 * b) = b.
Proof.
  intros. unfold hi16. rewrite Z.mul_comm, Z.div_add, Z.div_small by lia.
  by apply u16_id.
Qed.

Lemma pair_lo16_hi16 w : is_word w → lo16 w + 2 ^ 16 * hi16 w = w.
Proof. unfold is_word, lo16, hi16, u16. intros. Z.div_mod_to_equations. lia. Qed.

Lemma u8_word_of_bytes a b c d :
  is_byte a → is_byte b → is_byte c → is_byte d →
  u8 (word_of_bytes a b c d) = a ∧ u8 (word_of_bytes a b c d / 2 ^ 8) = b ∧
  u8 (word_of_bytes a b c d / 2 ^ 16) = c ∧ u8 (word_of_bytes a b c d / 2 ^ 24) = d.
Proof.
  intros Ha Hb Hc Hd. pose proof (bytes_of_word_of_bytes _ _ _ _ Ha Hb Hc Hd) as H.
  unfold bytes_of_word in H. by simplify_eq.
Qed.

Lemma hdr_words_roundtrip h : hdr_ok h → hdr_of_words (words_of_hdr h) = h.
Proof.
  intros []. destruct h. unfold hdr_of_words, words_of_hdr, word_at in *.
  cbn -[Z.add Z.mul Z.pow Z.div word_of_bytes] in *.
  rewrite !lo16_pair, !hi16_pair by done.
  destruct (u8_word_of_bytes tag0 acktag0 ackcode0 pad0) as (-> & -> & -> & ->); done.
Qed.

Lemma word_at_range ws i : Forall is_word ws → is_word (word_at ws i).
Proof.
  intros Hw. unfold word_at.
  destruct (ws !! i) eqn:E; [by eapply Forall_lookup_1 | unfold is_word; cbn; lia].
Qed.

Lemma hdr_of_words_ok ws : Forall is_word ws → hdr_ok (hdr_of_words ws).
Proof.
  intros Hw. split; cbn; unfold lo16, hi16, is_byte;
    auto using u16_range, u8_range, word_at_range.
Qed.

(** The checksum is the sum of the first seven words, modulo [2 ^ 32]. *)
Lemma deci_cksum_sum ws :
  deci_cksum ws =
  u32 (word_at ws 0 + word_at ws 1 + word_at ws 2 + word_at ws 3 +
       word_at ws 4 + word_at ws 5 + word_at ws 6).
Proof.
  unfold deci_cksum. repeat (rewrite u32_add_l; rewrite <-?Z.add_assoc). done.
Qed.

Lemma deci_cksum_ext ws ws' :
  (∀ i, (i < 7)%nat → word_at ws i = word_at ws' i) → deci_cksum ws = deci_cksum ws'.
Proof. intros H. unfold deci_cksum. by rewrite !H by lia. Qed.

Lemma hdr_words_agree h c i :
  (i < 7)%nat →
  word_at (words_of_hdr {| magic := magic h; size := size h; category := category h;
     priority := priority h; reply := reply h; tag := tag h;
     acktag := acktag h; ackcode := ackcode h; pad := pad h;
     crsv := crsv h; cid := cid h; seq := seq h; req := req h; cksum := c |}) i =
  word_at (words_of_hdr h) i.
Proof. intros Hi. do 7 (destruct i as [|i]; [done|]). lia. Qed.

(** A header reads the same with more memory behind it. *)
Lemma word_at_app ws l i : (i < length ws)%nat → word_at (ws ++ l) i = word_at ws i.
Proof. intros Hi. unfold word_at. by rewrite lookup_app_l. Qed.

Lemma hdr_of_words_app ws l :
  (hdr_words ≤ length ws)%nat → hdr_of_words (ws ++ l) = hdr_of_words ws.
Proof. unfold hdr_words. intros Hl. unfold hdr_of_words. by rewrite !word_at_app by lia. Qed.

Lemma deci_cksum_app ws l :
  (hdr_words ≤ length ws)%nat → deci_cksum (ws ++ l) = deci_cksum ws.
Proof.
  unfold hdr_words. intros Hl. apply deci_cksum_ext. intros i Hi. apply word_at_app. lia.
Qed.

Lemma seal_ok h : hdr_ok h → hdr_ok (seal h).
Proof.
  intros []. split; cbn -[deci_cksum]; try done.
  rewrite deci_cksum_sum. apply u32_range.
Qed.

(** ** Properties *)

Definition sample_hdr : decihdr_s :=
  {| magic := DECI_MAGIC; size := 0x24; category := 1; priority := 2; reply := 3;
     tag := 4; acktag := 5; ackcode := 6; pad := 0; crsv := 7; cid := 8; seq := 9;
     req := REQ_TRESET; cksum := 0 |}.

Lemma sample_hdr_ok : hdr_ok sample_hdr.
Proof. split; vm_compute; split; congruence. Qed.

(** A sealed header passes the driver's checksum test. *)
Theorem deci_seal_valid (h : decihdr_s) :
  hdr_ok h →
  let ws := words_of_hdr (seal h) in
  cksum (hdr_of_words ws) = deci_cksum ws ∧
  hdr_of_words ws = seal h.
Proof.
  intros Hok. assert (hdr_ok (seal h)) as Hs by by apply seal_ok.
  cbn zeta. rewrite hdr_words_roundtrip by done. split; [|done].
  apply deci_cksum_ext. intros i Hi. symmetry. by apply hdr_words_agree.
Qed.

Lemma deci_seal_valid_witness :
  cksum (hdr_of_words (words_of_hdr (seal sample_hdr))) =
    deci_cksum (words_of_hdr (seal sample_hdr)) ∧
  hdr_of_words (words_of_hdr (seal sample_hdr)) = seal sample_hdr.
Proof. exact (deci_seal_valid sample_hdr sample_hdr_ok). Defined.

(** The checksum detects every corruption confined to one 32-bit word of
    the header: if a header passes the driver's test, one that differs from
    it in exactly one word (the checksum word included) fails it. *)
Theorem deci_cksum_detects (ws ws' : list Z) (i : nat) :
  Forall is_word ws → Forall is_word ws' →
  cksum (hdr_of_words ws) = deci_cksum ws →
  (i < hdr_words)%nat → word_at ws i ≠ word_at ws' i →
  (∀ j, j ≠ i → word_at ws j = word_at ws' j) →
  cksum (hdr_of_words ws') ≠ deci_cksum ws'.
Proof.
  intros Hw Hw' Hck Hi Hne Heq Hck'. unfold hdr_words in Hi.
  pose proof (word_at_range ws i Hw) as R1. pose proof (word_at_range ws' i Hw') as R2.
  cbn [cksum hdr_of_words] in Hck, Hck'. rewrite deci_cksum_sum in Hck, Hck'.
  assert (Hcase : i = 7%nat ∨ (i < 7)%nat) by lia. destruct Hcase as [->|Hlt].
  - rewrite <-?(Heq 0%nat), <-?(Heq 1%nat), <-?(Heq 2%nat), <-?(Heq 3%nat),
      <-?(Heq 4%nat), <-?(Heq 5%nat), <-?(Heq 6%nat)
      in Hck' by lia. congruence.
  - rewrite <-(Heq 7%nat) in Hck' by lia. rewrite Hck in Hck'.
    unfold u32, is_word in *.
    do 7 (destruct i as [|i];
      [rewrite <-?(Heq 0%nat), <-?(Heq 1%nat), <-?(Heq 2%nat), <-?(Heq 3%nat),
         <-?(Heq 4%nat), <-?(Heq 5%nat), <-?(Heq 6%nat)
         in Hck' by lia; Z.div_mod_to_equations; lia|]).
    lia.
Qed.

Lemma deci_cksum_detects_witness :
  cksum (hdr_of_words (<[3%nat := 99]> (words_of_hdr (seal sample_hdr)))) ≠
  deci_cksum (<[3%nat := 99]> (words_of_hdr (seal sample_hdr))).
Proof.
  apply (deci_cksum_detects (words_of_hdr (seal sample_hdr)) _ 3).
  - by_compute.
  - by_compute.
  - reflexivity.
  - unfold hdr_words. lia.
  - vm_compute. congruence.
  - intros j Hj. unfold word_at. by rewrite list_lookup_insert_ne.
Defined.
