(* ===== verification/MrpHw.v ===== *)
(** * MrpHw: the MRP board as the drivers see it

    The three register windows of the PlayStation 2 TOOL's MRP interface
    ([struct base0], [struct base2], [struct mrpregs] and [struct base4] of
    include/linux/ps2mrp-psnet.h and include/linux/ps2mrp.h) and the accesses
    the drivers make to them.

    The board itself is not in the repository: [MrpDevice] is the interface
    to it, a state [D] with a volatile read and a volatile write of each
    register, both of which may change the state in any way.  Nothing is
    assumed of a device except where a theorem says so.  [simdev] is one
    concrete device, a register file with a FIFO in each direction, on which
    the theorems are evaluated.

    [io D U] is the state a driver runs in: its own data [U], the device, the
    processor's interrupt flag, and the log of what the driver did, in order.
    [irqs_off], [wake_up] and [udelay] are the kernel services the drivers
    call that only leave a trace. *)

From S2P Require Import Prelude.

(** ** Registers *)

Inductive reg :=
| BID | RST | CPS | CPR | FST | TXC | RXC | F1C
| IST | ISP | IER | CSI | FSI | AEO | AFO
| FIFOPORT | IDK4C | IDK50 | BASE4.

#[global] Instance reg_eq_dec : EqDecision reg.
Proof. solve_decision. Defined.

(** [struct mrpregs] holds 16-bit registers; the others are 32-bit. *)
Definition reg_wrap (r : reg) (v : Z) : Z :=
  match r with
  | FIFOPORT | IDK4C | IDK50 | BASE4 => u32 v
  | _ => u16 v
  end.

Class MrpDevice (D : Type) := {
  dev_read : reg → D → Z * D;
  dev_write : reg → Z → D → D;
}.

(** ** What a driver can be seen doing *)

Inductive ev :=
| Rd (r : reg) (v : Z)     (** volatile read that returned [v] *)
| Wr (r : reg) (v : Z)     (** volatile write of [v] *)
| Udelay (n : Z)           (** busy wait of [n] microseconds *)
| Wake (q : Z)             (** [wake_up] of wait queue [q] *)
| Slept (q : Z)            (** [interruptible_sleep_on] of wait queue [q] *)
| SelWait (q : Z)          (** [select_wait] on wait queue [q] *)
| ToUser (bs : list Z)     (** bytes stored at the caller's pointer, which advances *)
| ModUse (n : Z)           (** the module's use count changes by [n] *)
| FileOpened (minor : Z)   (** the kernel has a new open file on this minor number *)
| FileClosed (minor : Z).  (** ... and one less *)

Record io (D U : Type) := MkIo {
  unit_of : U;
  dev : D;
  irqs_on : bool;
  log : list ev;
}.
Arguments MkIo {D U} _ _ _ _.
Arguments unit_of {D U} _.
Arguments dev {D U} _.
Arguments irqs_on {D U} _.
Arguments log {D U} _.

#[global] Instance eta_io {D U} : Eta (io D U) :=
  λ x, MkIo (unit_of x) (dev x) (irqs_on x) (log x).

Section Access.
Context {D U : Type} `{MrpDevice D}.

Definition rd (r : reg) : M (io D U) Z := λ s,
  let '(v, d) := dev_read r (dev s) in
  Ret (reg_wrap r v)
      (s <| dev := d |> <| log := log s ++ [Rd r (reg_wrap r v)] |>).

Definition wr (r : reg) (v : Z) : M (io D U) unit := λ s,
  Ret tt (s <| dev := dev_write r (reg_wrap r v) (dev s) |>
            <| log := log s ++ [Wr r (reg_wrap r v)] |>).

(** [r |= m] and [r &= m] on a volatile register: a read and then a write. *)
Definition wr_or (r : reg) (m : Z) : M (io D U) unit :=
  v ← rd r; wr r (Z.lor v m).

Definition wr_and (r : reg) (m : Z) : M (io D U) unit :=
  v ← rd r; wr r (Z.land v m).

Definition emit (e : ev) : M (io D U) unit :=
  modify (λ s, s <| log := log s ++ [e] |>).

Definition udelay (n : Z) : M (io D U) unit := emit (Udelay n).
Definition wake_up (q : Z) : M (io D U) unit := emit (Wake q).

Definition cli : M (io D U) unit := modify (λ s, s <| irqs_on := false |>).
Definition sti : M (io D U) unit := modify (λ s, s <| irqs_on := true |>).
Definition save_flags : M (io D U) bool := gets irqs_on.
Definition restore_flags (b : bool) : M (io D U) unit :=
  modify (λ s, s <| irqs_on := b |>).

Definition getu {A} (f : U → A) : M (io D U) A := gets (λ s, f (unit_of s)).
Definition modu (f : U → U) : M (io D U) unit :=
  modify (λ s, s <| unit_of := f (unit_of s) |>).

(** What happens while the process sleeps, and whether a signal ends the
    sleep.  [__sleep_on] restores the interrupt flag it was called with. *)
Record nap := MkNap {
  nap_env : io D U → io D U;
  nap_signal : bool;
}.

Definition sleep_on (q : Z) (n : nap) : M (io D U) unit := λ s,
  Ret tt ((nap_env n (s <| log := log s ++ [Slept q] |>)) <| irqs_on := irqs_on s |>).

(** The words a driver pushed into the FIFO, oldest first. *)
Definition fifo_writes (l : list ev) : list Z :=
  l ≫= λ e, match e with Wr FIFOPORT v => [v] | _ => [] end.

(** The values written to register [r], oldest first. *)
Definition writes_to (r : reg) (l : list ev) : list Z :=
  l ≫= λ e, match e with Wr r' v => if decide (r = r') then [v] else [] | _ => [] end.

Definition wakes (l : list ev) : list Z :=
  l ≫= λ e, match e with Wake q => [q] | _ => [] end.

(** The bytes stored into the caller's buffer, in order. *)
Definition to_user (l : list ev) : list Z :=
  l ≫= λ e, match e with ToUser bs => bs | _ => [] end.

(** How often the module is in use. *)
Definition use_count (l : list ev) : Z :=
  foldr (λ e n, match e with ModUse k => k + n | _ => n end) 0 l.

End Access.

Lemma fifo_writes_app l1 l2 : fifo_writes (l1 ++ l2) = fifo_writes l1 ++ fifo_writes l2.
Proof. apply bind_app. Qed.

Lemma fifo_writes_words ws : fifo_writes (Wr FIFOPORT <$> ws) = ws.
Proof. induction ws as [|w ws IH]; [done|]. cbn in *. by f_equal. Qed.

Lemma wakes_app l1 l2 : wakes (l1 ++ l2) = wakes l1 ++ wakes l2.
Proof. apply bind_app. Qed.

Lemma wakes_rd r ws : wakes (Rd r <$> ws) = [].
Proof. induction ws; done. Qed.

Lemma to_user_rd r ws : to_user (Rd r <$> ws) = [].
Proof. induction ws; done. Qed.

Lemma to_user_app l1 l2 : to_user (l1 ++ l2) = to_user l1 ++ to_user l2.
Proof. apply bind_app. Qed.

Lemma use_count_app l1 l2 : use_count (l1 ++ l2) = use_count l1 + use_count l2.
Proof.
  unfold use_count. induction l1 as [|e l1 IH]; [done|]. cbn -[Z.add].
  destruct e; rewrite IH; lia.
Qed.

Section Returns.
Context {D U : Type} `{MrpDevice D}.

Lemma rd_returns r : returns (rd (D:=D) (U:=U) r).
Proof. intros s. unfold rd. destruct (dev_read r (dev s)). by do 2 eexists. Qed.

Lemma wr_returns r v : returns (wr (D:=D) (U:=U) r v).
Proof. intros s. by do 2 eexists. Qed.

Lemma wr_or_returns r m : returns (wr_or (D:=D) (U:=U) r m).
Proof. apply returns_bind; [apply rd_returns|]. intros v. apply wr_returns. Qed.

Lemma wr_and_returns r m : returns (wr_and (D:=D) (U:=U) r m).
Proof. apply returns_bind; [apply rd_returns|]. intros v. apply wr_returns. Qed.

Lemma modu_returns f : returns (modu (D:=D) (U:=U) f).
Proof. intros s. by do 2 eexists. Qed.

Lemma getu_returns {A} (f : U → A) : returns (getu (D:=D) f).
Proof. intros s. by do 2 eexists. Qed.

Lemma emit_returns e : returns (emit (D:=D) (U:=U) e).
Proof. intros s. by do 2 eexists. Qed.

End Returns.

#[export] Hint Resolve rd_returns wr_returns wr_or_returns wr_and_returns modu_returns
  getu_returns emit_returns : returns.

(** ** A concrete device *)

Record simdev := MkSim {
  sim_regs : reg → Z;
  sim_rx : list Z;   (** words the other side has sent *)
  sim_tx : list Z;   (** words the driver has sent *)
}.

#[global] Instance eta_simdev : Eta simdev :=
  λ x, MkSim (sim_regs x) (sim_rx x) (sim_tx x).

(** Bit 0 of FST says that the receive FIFO is empty. *)
Definition sim_read (r : reg) (d : simdev) : Z * simdev :=
  match r with
  | FIFOPORT =>
      match sim_rx d with
      | [] => (0, d)
      | w :: ws => (w, d <| sim_rx := ws |>)
      end
  | FST => (match sim_rx d with [] => 1 | _ => 0 end, d)
  | _ => (sim_regs d r, d)
  end.

Definition sim_write (r : reg) (v : Z) (d : simdev) : simdev :=
  match r with
  | FIFOPORT => d <| sim_tx := sim_tx d ++ [v] |>
  | _ => d <| sim_regs := λ r', if decide (r' = r) then v else sim_regs d r' |>
  end.

#[global] Instance sim_device : MrpDevice simdev :=
  {| dev_read := sim_read; dev_write := sim_write |}.

(** ** Reasoning about a driver against an arbitrary device

    [uwp m Q E u]: started with driver data [u], on any device in any state,
    [m] either returns with its result and its final data in [Q], or gets
    stuck for a reason in [E]. *)

Section Uwp.
Context {D U : Type} `{MrpDevice D}.

Definition uwp {A} (m : M (io D U) A) (Q : A → U → Prop) (E : stuck → Prop) (u : U) : Prop :=
  ∀ s, unit_of s = u → wp m (λ a s', Q a (unit_of s')) (λ w _, E w) s.

Lemma reg_wrap_idemp r v : reg_wrap r (reg_wrap r v) = reg_wrap r v.
Proof. destruct r; cbn; first [apply u32_id, u32_range | apply u16_id, u16_range]. Qed.

Lemma reg_wrap_range r v : 0 ≤ reg_wrap r v < 2 ^ 32.
Proof.
  pose proof (u32_range v). pose proof (u16_range v).
  destruct r; cbn [reg_wrap]; lia.
Qed.

Lemma uwp_mono {A} (m : M (io D U) A) (Q Q' : A → U → Prop) (E E' : stuck → Prop) u :
  (∀ a u', Q a u' → Q' a u') → (∀ w, E w → E' w) → uwp m Q E u → uwp m Q' E' u.
Proof. intros HQ HE Hm s Hs. eapply wp_mono; [| |by apply Hm]; cbn; auto. Qed.

Lemma uwp_ret {A} (a : A) Q E u : Q a u → uwp (mret a) Q E u.
Proof. intros HQ s <-. exact HQ. Qed.

Lemma uwp_bind {A B} (m : M (io D U) A) (k : A → M (io D U) B) Q E u :
  uwp m (λ a u', uwp (k a) Q E u') E u → uwp (m ≫= k) Q E u.
Proof.
  intros Hm s Hs. apply wp_bind. eapply wp_mono; [| |by apply Hm]; [|done].
  intros a s' Ha. by apply Ha.
Qed.

Lemma uwp_halt {A} w (Q : A → U → Prop) E u : E w → uwp (halt w) Q E u.
Proof. intros HE s _. exact HE. Qed.

Lemma uwp_rd r Q E u :
  (∀ v, reg_wrap r v = v → 0 ≤ v < 2 ^ 32 → Q v u) → uwp (rd r) Q E u.
Proof.
  intros HQ s <-. unfold wp, rd. destruct (dev_read r (dev s)) as [v d].
  apply HQ; [apply reg_wrap_idemp | apply reg_wrap_range].
Qed.

Lemma uwp_wr r v Q E u : Q tt u → uwp (wr r v) Q E u.
Proof. intros HQ s <-. exact HQ. Qed.

Lemma uwp_wr_or r m Q E u : Q tt u → uwp (wr_or r m) Q E u.
Proof. intros HQ. apply uwp_bind, uwp_rd. intros. by apply uwp_wr. Qed.

Lemma uwp_wr_and r m Q E u : Q tt u → uwp (wr_and r m) Q E u.
Proof. intros HQ. apply uwp_bind, uwp_rd. intros. by apply uwp_wr. Qed.

Lemma uwp_emit e Q E u : Q tt u → uwp (emit e) Q E u.
Proof. intros HQ s <-. exact HQ. Qed.

Lemma uwp_cli Q E u : Q tt u → uwp cli Q E u.
Proof. intros HQ s <-. exact HQ. Qed.

Lemma uwp_sti Q E u : Q tt u → uwp sti Q E u.
Proof. intros HQ s <-. exact HQ. Qed.

Lemma uwp_save_flags Q E u : (∀ b, Q b u) → uwp save_flags Q E u.
Proof. intros HQ s <-. apply HQ. Qed.

Lemma uwp_restore_flags b Q E u : Q tt u → uwp (restore_flags b) Q E u.
Proof. intros HQ s <-. exact HQ. Qed.

Lemma uwp_getu {A} (f : U → A) Q E u : Q (f u) u → uwp (getu f) Q E u.
Proof. intros HQ s <-. exact HQ. Qed.

Lemma uwp_modu f Q E u : Q tt (f u) → uwp (modu f) Q E u.
Proof. intros HQ s <-. exact HQ. Qed.

Lemma uwp_when b (m : M (io D U) unit) Q E u :
  (b = true → uwp m Q E u) → (b = false → Q tt u) → uwp (when b m) Q E u.
Proof. intros H1 H2. destruct b; [by apply H1 | apply uwp_ret; by apply H2]. Qed.

Lemma uwp_for_each {B} (I : U → Prop) (l : list B) (f : B → M (io D U) unit) E u :
  (∀ x u', x ∈ l → I u' → uwp (f x) (λ _ u'', I u'') E u') →
  I u → uwp (for_each l f) (λ _ u', I u') E u.
Proof.
  revert u. induction l as [|x l IH]; intros u Hf HI; cbn; [by apply uwp_ret|].
  apply uwp_bind. eapply uwp_mono; [| |apply Hf; [set_solver|done]]; [|done].
  intros [] u' HI'. apply IH; [|done]. intros y u'' Hy. apply Hf. set_solver.
Qed.

End Uwp.

(** One step of a [uwp] proof through straight-line code. *)
Ltac ustep :=
  lazymatch goal with
  | |- uwp (mbind _ _) _ _ _ => apply uwp_bind
  | |- uwp (mret _) _ _ _ => apply uwp_ret
  | |- uwp (rd _) _ _ _ => apply uwp_rd; intros ? ? ?
  | |- uwp (wr _ _) _ _ _ => apply uwp_wr
  | |- uwp (wr_or _ _) _ _ _ => apply uwp_wr_or
  | |- uwp (wr_and _ _) _ _ _ => apply uwp_wr_and
  | |- uwp (emit _) _ _ _ => apply uwp_emit
  | |- uwp (udelay _) _ _ _ => apply uwp_emit
  | |- uwp (wake_up _) _ _ _ => apply uwp_emit
  | |- uwp cli _ _ _ => apply uwp_cli
  | |- uwp sti _ _ _ => apply uwp_sti
  | |- uwp save_flags _ _ _ => apply uwp_save_flags; intros ?
  | |- uwp (restore_flags _) _ _ _ => apply uwp_restore_flags
  | |- uwp (getu _) _ _ _ => apply uwp_getu
  | |- uwp (modu _) _ _ _ => apply uwp_modu
  | |- uwp (halt _) _ _ _ => apply uwp_halt
  | |- uwp (match ?x with _ => _ end) _ _ _ =>
      let E := fresh "E" in destruct x eqn:E
  end.

Ltac usteps := repeat (ustep; cbv beta).
