(* ===== verification/PowCtrl.v ===== *)
(** * PowCtrl: the power control driver

    Models drivers/char/ps2powctrl.c with include/linux/ps2powctrl.h: the front
    panel's LED, the power switch and the reset lines of the board, which the
    driver polls from a kernel timer twice a second.

    The driver runs in a [pmach]: its own data and the board ([io]), the timer
    wheel and the clock, the table of character devices and the mapped areas.
    [f1c_latch] is what the LED theorem relies on: the board keeps what is
    written to the F1C register. *)

From stdpp Require Import gmap strings.
From S2P Require Import Prelude Chrdev Vmalloc Host Timer MrpHw.

(** ** Code *)

Definition PW_HZ : Z := 100.
Definition MRP_TIMER_UNIT : Z := PW_HZ / 2.
Definition LED_BLINK_WAIT_HIGH : Z := 1.
Definition LED_BLINK_OFF : Z := 0.

Definition MRP_POWEROFF_REQ : Z := Z.shiftl 1 10.
Definition MRP_POWEROFF_ACK : Z := Z.shiftl 1 3.
Definition MRP_SHUTDOWN_REQ : Z := Z.shiftl 1 2.
Definition MRP_TLED_MASK : Z := 3.
Definition MRP_TLED_ORANGE : Z := 0.
Definition MRP_TLED_OFF : Z := 3.

Definition MRP_POWCTRL_POWEROFF_DISABLE : Z := 1.
Definition MRP_POWCTRL_POWEROFF_ENABLE : Z := 0.
Definition MRPF_DETECT : Z := 1.

Definition POWCTRL_DEVICE_NAME : string := "powctrl".
Definition POWCTRL_DBG_NORMAL : Z := 1.

(** The numbers of include/asm-i386/ioctl.h. *)
Definition _IOC_NONE : Z := 0.
Definition _IOC_WRITE : Z := 1.
Definition _IOC_READ : Z := 2.
Definition _IOC (dir type nr size : Z) : Z :=
  Z.lor (Z.lor (Z.shiftl dir 30) (Z.shiftl type 8)) (Z.lor nr (Z.shiftl size 16)).
Definition _IOC_DIR (nr : Z) : Z := Z.land (Z.shiftr nr 30) 3.
Definition _IOC_TYPE (nr : Z) : Z := Z.land (Z.shiftr nr 8) 255.
Definition _IOC_NR (nr : Z) : Z := Z.land nr 255.
Definition _IOC_SIZE (nr : Z) : Z := Z.land (Z.shiftr nr 16) 16383.

Definition POWCTRL_IOC_MAGIC : Z := 98.
Definition POWCTRL_IOCPOWEROFF : Z := _IOC _IOC_NONE POWCTRL_IOC_MAGIC 3 0.
Definition POWCTRL_IOCPOWSTAT : Z := _IOC _IOC_NONE POWCTRL_IOC_MAGIC 4 0.
Definition POWCTRL_IOCTIMER : Z := _IOC _IOC_WRITE POWCTRL_IOC_MAGIC 5 2.
Definition POWCTRL_IOC_TLED_COLOR : Z := _IOC _IOC_WRITE POWCTRL_IOC_MAGIC 6 2.
Definition POWCTRL_IOC_TLED_BLINK : Z := _IOC _IOC_WRITE POWCTRL_IOC_MAGIC 7 2.
Definition POWCTRL_IOCPOWDBG : Z := _IOC _IOC_WRITE POWCTRL_IOC_MAGIC 8 4.
Definition POWCTRL_IOC_MAXNR : Z := 8.

(** The driver's variables; [pw_base0] to [pw_flags] are [mrp_unit]. *)
Record powctrl := MkPow {
  powctrl_dbglevel : Z;
  powctrl_major : Z;
  powctrl_timer_enable : Z;
  powctrl_blink : Z;
  powctrl_blkcnt : Z;
  powctrl_color : Z;
  pw_base0 : Z; pw_base2 : Z; pw_mrpregs : Z; pw_irq : Z; pw_flags : Z;
}.

#[global] Instance eta_pow : Eta powctrl := λ x,
  MkPow (powctrl_dbglevel x) (powctrl_major x) (powctrl_timer_enable x) (powctrl_blink x)
    (powctrl_blkcnt x) (powctrl_color x)
    (pw_base0 x) (pw_base2 x) (pw_mrpregs x) (pw_irq x) (pw_flags x).

Record pmach (D V : Type) := MkPm {
  pm_io : io D powctrl;
  pm_wheel : wheel;
  pm_jiffies : Z;
  pm_chrdevs : list device_struct;
  pm_vm : V;
}.
Arguments MkPm {D V} _ _ _ _ _.
Arguments pm_io {D V} _.
Arguments pm_wheel {D V} _.
Arguments pm_jiffies {D V} _.
Arguments pm_chrdevs {D V} _.
Arguments pm_vm {D V} _.

#[global] Instance eta_pm {D V} : Eta (pmach D V) := λ x,
  MkPm (pm_io x) (pm_wheel x) (pm_jiffies x) (pm_chrdevs x) (pm_vm x).

Section Regs.
Context {D : Type} `{MrpDevice D}.

Local Abbreviation P := (M (io D powctrl)).

Definition powctrl_get_f1c : P Z := rd F1C.
Definition powctrl_set_f1c (f1c : Z) : P unit := wr F1C f1c.

Definition powctrl_set_color (color : Z) : P unit :=
  temp ← powctrl_get_f1c;
  let temp := u16 (clr temp MRP_TLED_MASK) in
  let temp := u16 (Z.lor temp (Z.land (u16 color) MRP_TLED_MASK)) in
  powctrl_set_f1c temp.

Definition powctrl_turn_tled : P unit :=
  temp ← powctrl_get_f1c;
  let color := Z.land temp MRP_TLED_MASK in
  c ← getu powctrl_color;
  if negb (color =? c) then powctrl_set_color c else powctrl_set_color MRP_TLED_OFF.

Definition powctrl_poweroff_ack (acknak : Z) : P unit :=
  bid ← rd BID;
  if negb (bid =? 0x4126) then mret tt
  else
    temp ← powctrl_get_f1c;
    let temp := if negb (acknak =? 0) then Z.lor temp MRP_POWEROFF_ACK
                else clr temp MRP_POWEROFF_ACK in
    powctrl_set_f1c temp.

(** The two nested counting loops only pass time. *)
Definition powctrl_poweroff_request : P unit :=
  temp ← powctrl_get_f1c;
  powctrl_set_f1c (Z.lor temp MRP_SHUTDOWN_REQ) ;;
  modu (λ u, u <| powctrl_timer_enable := 1 |>) ;;
  powctrl_get_f1c ;;
  mret tt.

Definition powctrl_system_poweroff : P unit := powctrl_poweroff_ack MRP_POWCTRL_POWEROFF_ENABLE.

Definition powctrl_reset_mrp : P unit :=
  wr RST 0x8000 ;;
  udelay 10 ;;
  wr FST 0xc0c0 ;;
  udelay 10 ;;
  wr FST 0 ;;
  wr RST 0 ;;
  udelay 10.

Definition powctrl_reset_pif : P unit :=
  temp ← rd IDK50;
  let temp := clr temp 0x20 in
  let temp := Z.lor temp 0x40000000 in
  wr IDK50 temp ;;
  udelay 10 ;;
  let temp := clr temp 0x40000000 in
  wr IDK50 temp ;;
  temp ← rd IDK4C;
  wr IDK4C (Z.lor temp 0x40).

(** [powctrl_observe_status] up to the start of the timer: whether the timer is
    to be started again. *)
Definition observe_board : P bool :=
  enable ← getu powctrl_timer_enable;
  if negb (enable =? 0) then
    powctrl_reset_pif ;;
    blink ← getu powctrl_blink;
    blkcnt ← getu powctrl_blkcnt;
    (if negb (blink =? 0) then
       if blink <=? blkcnt then
         powctrl_turn_tled ;;
         modu (λ u, u <| powctrl_blkcnt := 0 |>)
       else modu (λ u, u <| powctrl_blkcnt := s32 (blkcnt + 1) |>)
     else modu (λ u, u <| powctrl_blkcnt := 0 |>)) ;;
    temp ← powctrl_get_f1c;
    mret (negb (has temp MRP_POWEROFF_REQ))
  else mret true.

(** [va size] is what [verify_area] answers for [size] bytes at the caller's
    pointer; [user size] is the number stored there. *)
Definition powctrl_ioctl (va user : Z → Z) (cmd : Z) : P Z :=
  let size := _IOC_SIZE cmd in
  if negb (_IOC_TYPE cmd =? POWCTRL_IOC_MAGIC) then mret (- EINVAL)
  else if POWCTRL_IOC_MAXNR <? _IOC_NR cmd then mret (- EINVAL)
  else
    let r := if has (_IOC_DIR cmd) _IOC_READ then va size
             else if has (_IOC_DIR cmd) _IOC_WRITE then va size else 0 in
    if negb (r =? 0) then mret r
    else
      enable ← getu powctrl_timer_enable;
      when (negb (enable =? 0)) powctrl_reset_pif ;;
      if cmd =? POWCTRL_IOCPOWEROFF then powctrl_poweroff_request ;; mret 0
      else if cmd =? POWCTRL_IOCPOWSTAT then
        enable ← getu powctrl_timer_enable;
        if negb (enable =? 0) then powctrl_get_f1c else mret (-1)
      else if cmd =? POWCTRL_IOCTIMER then
        rslt ← getu powctrl_timer_enable;
        modu (λ u, u <| powctrl_timer_enable := if negb (u16 (user size) =? 0) then 1 else 0 |>) ;;
        powctrl_reset_pif ;;
        mret rslt
      else if cmd =? POWCTRL_IOC_TLED_COLOR then
        rslt ← getu powctrl_color;
        let c := Z.land (u16 (user size)) MRP_TLED_MASK in
        modu (λ u, u <| powctrl_blink := LED_BLINK_OFF |> <| powctrl_blkcnt := 0 |>
                     <| powctrl_color := c |>) ;;
        powctrl_set_color c ;;
        mret rslt
      else if cmd =? POWCTRL_IOC_TLED_BLINK then
        rslt ← getu powctrl_blink;
        let c := Z.land (u16 (user size)) MRP_TLED_MASK in
        modu (λ u, u <| powctrl_blink := LED_BLINK_WAIT_HIGH |> <| powctrl_blkcnt := 0 |>
                     <| powctrl_color := c |>) ;;
        powctrl_set_color c ;;
        mret rslt
      else if cmd =? POWCTRL_IOCPOWDBG then
        rslt ← getu powctrl_dbglevel;
        modu (λ u, u <| powctrl_dbglevel := s32 (user size) |>) ;;
        mret rslt
      else mret (- EINVAL).

Definition powctrl_open : P Z := emit (ModUse 1) ;; mret 0.
Definition powctrl_release : P unit := emit (ModUse (-1)).

End Regs.

Section Init.
Context {D V : Type} `{MrpDevice D} `{Mapper V}.
Context (B : bios) (high_memory : Z).
(** The addresses of [powctrl_timer] and of [powctrl_fops]. *)
Context (powctrl_timer : nat) (powctrl_fops : Z).

Local Abbreviation pst := (pmach D V).

Definition on_io {A} (m : M (io D powctrl) A) : M pst A := λ s,
  match m (pm_io s) with
  | Ret a x => Ret a (s <| pm_io := x |>)
  | Stuck w x => Stuck w (s <| pm_io := x |>)
  end.

Definition pm_map {A} (f : V → out V A) : M pst A := λ s,
  match f (pm_vm s) with
  | Ret a v => Ret a (s <| pm_vm := v |>)
  | Stuck w v => Stuck w (s <| pm_vm := v |>)
  end.

(** [powctrl_timer.expires = jiffies + MRP_TIMER_UNIT; add_timer(&powctrl_timer);] *)
Definition start_timer : M pst unit :=
  modify (λ s, s <| pm_wheel :=
    add_timer powctrl_timer
      (set_expires powctrl_timer (u32 (pm_jiffies s + MRP_TIMER_UNIT)) (pm_wheel s)) |>).

Definition powctrl_observe_status : M pst unit :=
  again ← on_io observe_board;
  when again start_timer.

Definition powctrl_base (bus dev_fn where_ : Z) : Z :=
  match pcibios_read_config_dword B bus dev_fn where_ with
  | None => 0
  | Some val =>
      let val := u32 val in
      if Z.land val 7 =? 0 then clr val 0xf else 0
  end.

Definition powctrl_remap (base : Z) : M pst Z :=
  if MAP_NR base <? MAP_NR high_memory then mret 0
  else
    rc ← pm_map (remap (u32 (PAGE_ALIGN base)) PAGE_SIZE);
    if rc =? 0 then mret 0 else mret (u32 (rc + mask_lo PAGE_SIZE base)).

(** [init_timer] clears the links of the timer, which is not running. *)
Definition powctrl_setup (line : Z) : M pst Z :=
  on_io (modu (λ u, u <| pw_irq := u8 line |>)) ;;
  on_io (modu (λ u, u <| pw_flags := Z.lor (pw_flags u) MRPF_DETECT |>)) ;;
  iRc ← (λ s, let '(r, tb) := register_chrdev 0 POWCTRL_DEVICE_NAME powctrl_fops (pm_chrdevs s) in
              Ret r (s <| pm_chrdevs := tb |>));
  if iRc <=? 0 then mret 0
  else
    on_io (modu (λ u, u <| powctrl_major := iRc |>)) ;;
    on_io powctrl_reset_mrp ;;
    on_io powctrl_reset_pif ;;
    on_io (powctrl_poweroff_ack MRP_POWCTRL_POWEROFF_DISABLE) ;;
    on_io (modu (λ u, u <| powctrl_blink := LED_BLINK_OFF |>)) ;;
    on_io (modu (λ u, u <| powctrl_color := MRP_TLED_ORANGE |>)) ;;
    on_io (powctrl_set_color MRP_TLED_ORANGE) ;;
    on_io (modu (λ u, u <| powctrl_timer_enable := 1 |>)) ;;
    start_timer ;;
    mret 0.

Definition powctrl_init : M pst Z :=
  if negb (pcibios_present B) then mret 0
  else
    match pcibios_find_device B PCI_VENDOR_ID_SONY PCI_DEVICE_ID_SONY_PS2_MRP 0 with
    | None => mret 0
    | Some (bus, dev_fn) =>
        let base0 := powctrl_base bus dev_fn PCI_BASE_ADDRESS_0 in
        if base0 =? 0 then mret 0 else
        let base2 := powctrl_base bus dev_fn PCI_BASE_ADDRESS_2 in
        if base2 =? 0 then mret 0 else
        let base3 := powctrl_base bus dev_fn PCI_BASE_ADDRESS_3 in
        if base3 =? 0 then mret 0 else
        rc ← powctrl_remap base0;
        if rc =? 0 then mret 0 else
        on_io (modu (λ u, u <| pw_base0 := rc |>)) ;;
        rc ← powctrl_remap base2;
        if rc =? 0 then mret 0 else
        on_io (modu (λ u, u <| pw_base2 := rc |>)) ;;
        rc ← powctrl_remap base3;
        if rc =? 0 then mret 0 else
        on_io (modu (λ u, u <| pw_mrpregs := rc |>)) ;;
        match pcibios_read_config_byte B bus dev_fn PCI_INTERRUPT_LINE with
        | None => mret 0
        | Some line => powctrl_setup line
        end
    end.

Definition powctrl_cleanup_module : M pst unit :=
  major ← gets (λ s, powctrl_major (unit_of (pm_io s)));
  if major <=? 0 then mret tt
  else
    modify (λ s, s <| pm_wheel := (del_timer powctrl_timer (pm_wheel s)).2 |>) ;;
    (λ s, match unregister_chrdev major POWCTRL_DEVICE_NAME (pm_chrdevs s) with
          | Some (_, tb) => Ret tt (s <| pm_chrdevs := tb |>)
          | None => Stuck NullDeref s
          end) ;;
    u ← gets (λ s, unit_of (pm_io s));
    pm_map (unmap (pw_base0 u)) ;;
    pm_map (unmap (pw_base2 u)) ;;
    pm_map (unmap (pw_mrpregs u)).

End Init.

(** ** The LED *)

(** A board that keeps what is written to F1C. *)
Class F1cLatch (D : Type) `{MrpDevice D} := {
  latch : D → Z;
  latch_read d : dev_read F1C d = (latch d, d);
  latch_write v d : latch (dev_write F1C v d) = v;
  latch_rd r d : latch (dev_read r d).2 = latch d;
  latch_wr r v d : r ≠ F1C → latch (dev_write r v d) = latch d;
}.

#[global] Instance sim_latch : F1cLatch simdev.
Proof.
  refine {| latch := λ d, sim_regs d F1C |}; [done|done| |].
  - intros [] d; try done. cbn. by destruct (sim_rx d).
  - intros [] v d Hr; done.
Defined.

Section Led.
Context {D : Type} `{HD : MrpDevice D} `{HL : !F1cLatch D}.

Local Abbreviation ios := (io D powctrl).

Definition f1c (s : ios) : Z := u16 (latch (dev s)).
Definition tled (s : ios) : Z := Z.land (f1c s) MRP_TLED_MASK.

(** [n] times the timer runs out. *)
Fixpoint polls (n : nat) : M ios bool :=
  match n with
  | O => mret true
  | S n' => again ← observe_board; if (again : bool) then polls n' else mret false
  end.

(** The LED blinks: [lit] says that it shows its color. *)
Record blinking (b c cnt : Z) (lit : bool) (rest : Z) (s : ios) : Prop := {
  bk_enable : powctrl_timer_enable (unit_of s) ≠ 0;
  bk_blink : powctrl_blink (unit_of s) = b;
  bk_cnt : powctrl_blkcnt (unit_of s) = cnt;
  bk_color : powctrl_color (unit_of s) = c;
  bk_led : tled s = if lit then c else MRP_TLED_OFF;
  bk_rest : clr (f1c s) MRP_TLED_MASK = rest;
}.

(** Storing a color in the LED's two bits. *)
Lemma color_bits f c (g := Z.lor (clr f 3) (Z.land c 3)) :
  0 ≤ f < 2 ^ 16 → 0 ≤ c ≤ 3 →
  Z.land g 3 = c ∧ clr g 3 = clr f 3 ∧ 0 ≤ g < 2 ^ 16.
Proof.
  intros Hf Hc. assert (Z.land c 3 = c) as Ec.
  { change 3 with (Z.ones 2). rewrite Z.land_ones by lia. apply Z.mod_small. lia. }
  assert (∀ x, Z.land (Z.land x (Z.lnot 3)) 3 = 0) as H0.
  { intros x. rewrite <-Z.land_assoc. change (Z.land (Z.lnot 3) 3) with 0. apply Z.land_0_r. }
  subst g. rewrite Ec. unfold clr. split; [|split].
  - by rewrite Z.land_lor_distr_l, H0, Z.lor_0_l.
  - rewrite Z.land_lor_distr_l, <-Z.land_assoc, Z.land_diag.
    rewrite <-Ec at 1. rewrite <-(Z.land_assoc c). change (Z.land 3 (Z.lnot 3)) with 0.
    by rewrite Z.land_0_r, Z.lor_0_r.
  - apply lor_range; [lia| |lia]. by apply land_range.
Qed.

Lemma rd_latch r (s : ios) :
  ∃ s', rd r s = Ret (reg_wrap r (dev_read r (dev s)).1) s' ∧ latch (dev s') = latch (dev s) ∧
    unit_of s' = unit_of s.
Proof.
  unfold rd. pose proof (latch_rd r (dev s)) as Hl. destruct (dev_read r (dev s)) as [v d].
  eexists. split; [done|]. done.
Qed.

Lemma reset_pif_latch (s : ios) :
  ∃ s', powctrl_reset_pif s = Ret tt s' ∧ latch (dev s') = latch (dev s) ∧ unit_of s' = unit_of s.
Proof.
  unfold powctrl_reset_pif, mbind, M_bind, udelay, emit, modify, wr. cbn.
  destruct (rd_latch IDK50 s) as (s1 & -> & L1 & U1). cbn.
  match goal with |- context [rd IDK4C ?x] => destruct (rd_latch IDK4C x) as (s2 & -> & L2 & U2) end.
  cbn in *. eexists. split; [done|]. cbn. rewrite latch_wr, L2, !latch_wr by done. by rewrite U2.
Qed.

Lemma f1c_read (s : ios) :
  ∃ s', powctrl_get_f1c s = Ret (f1c s) s' ∧ f1c s' = f1c s ∧ unit_of s' = unit_of s ∧
    dev s' = dev s.
Proof.
  unfold powctrl_get_f1c, rd. rewrite latch_read. eexists. split; [done|]. done.
Qed.

Lemma f1c_write v (s : ios) :
  ∃ s', powctrl_set_f1c v s = Ret tt s' ∧ f1c s' = u16 v ∧ unit_of s' = unit_of s.
Proof.
  eexists. split; [done|]. split; [|done]. unfold f1c. cbn. rewrite latch_write.
  apply u16_id, u16_range.
Qed.

Lemma set_color_latch c (s : ios) :
  0 ≤ c ≤ 3 →
  ∃ s', powctrl_set_color c s = Ret tt s' ∧ tled s' = c ∧
    clr (f1c s') MRP_TLED_MASK = clr (f1c s) MRP_TLED_MASK ∧ unit_of s' = unit_of s.
Proof.
  intros Hc. unfold powctrl_set_color, mbind, M_bind.
  destruct (f1c_read s) as (s1 & -> & E & U & _).
  pose proof (u16_range (latch (dev s))) as Hr. fold (f1c s) in Hr.
  destruct (color_bits (f1c s) c Hr Hc) as (B1 & B2 & B3).
  assert (0 ≤ clr (f1c s) MRP_TLED_MASK < 2 ^ 16) as Hclr by (by apply land_range).
  unfold MRP_TLED_MASK in *. rewrite (u16_id c), (u16_id (clr _ _)), (u16_id (Z.lor _ _)) by (done || lia).
  destruct (f1c_write (Z.lor (clr (f1c s) 3) (Z.land c 3)) s1) as (s2 & E2 & F2 & U2).
  rewrite u16_id in F2 by done. exists s2. unfold tled, MRP_TLED_MASK. by rewrite F2, U2.
Qed.

Lemma turn_latch (s : ios) c lit :
  0 ≤ c ≤ 3 → powctrl_color (unit_of s) = c → tled s = (if (lit : bool) then c else MRP_TLED_OFF) →
  ∃ s', powctrl_turn_tled s = Ret tt s' ∧
    tled s' = (if negb lit then c else MRP_TLED_OFF) ∧
    clr (f1c s') MRP_TLED_MASK = clr (f1c s) MRP_TLED_MASK ∧ unit_of s' = unit_of s.
Proof.
  intros Hc Hcol Hled. unfold powctrl_turn_tled, mbind, M_bind.
  destruct (f1c_read s) as (s1 & -> & E & U & Hd). unfold getu, gets. rewrite U, Hcol.
  fold (tled s). rewrite Hled.
  assert (∀ x, 0 ≤ x ≤ 3 → ∃ s', powctrl_set_color x s1 = Ret tt s' ∧ tled s' = x ∧
    clr (f1c s') MRP_TLED_MASK = clr (f1c s) MRP_TLED_MASK ∧ unit_of s' = unit_of s) as Hset.
  { intros x Hx. rewrite <-E, <-U. by apply set_color_latch. }
  unfold MRP_TLED_OFF. destruct lit; cbn [negb].
  - rewrite Z.eqb_refl. by apply Hset.
  - destruct (3 =? c) eqn:Ec; to_prop; [rewrite <-Ec; apply Hset; lia|by apply Hset].
Qed.

(** The next state of the counter and the LED. *)
Definition blink_next (b : Z) (x : Z * bool) : Z * bool :=
  if b <=? x.1 then (0, negb x.2) else (x.1 + 1, x.2).

Lemma observe_blinks b c cnt lit rest s :
  blinking b c cnt lit rest s → 0 < b < 2 ^ 31 - 1 → 0 ≤ cnt ≤ b → 0 ≤ c ≤ 3 →
  has rest MRP_POWEROFF_REQ = false →
  ∃ s', observe_board s = Ret true s' ∧
    let '(cnt', lit') := blink_next b (cnt, lit) in blinking b c cnt' lit' rest s'.
Proof.
  intros [Hen Hb Hcnt Hcol Hled Hrest] Hbr Hcr Hc Hreq.
  assert (∀ x : ios, clr (f1c x) MRP_TLED_MASK = rest → has (f1c x) MRP_POWEROFF_REQ = false) as HR.
  { intros x Hx. rewrite <-Hx, has_clr in Hreq by one_bit.
    change (has MRP_TLED_MASK MRP_POWEROFF_REQ) with false in Hreq. by rewrite andb_true_r in Hreq. }
  unfold observe_board, mbind, M_bind, getu, gets.
  rewrite (proj2 (Z.eqb_neq _ _)) by done. cbn [negb].
  destruct (reset_pif_latch s) as (s1 & -> & L1 & U1). rewrite U1, Hb, Hcnt.
  assert (f1c s1 = f1c s) as F1 by (unfold f1c; by rewrite L1).
  rewrite (proj2 (Z.eqb_neq b 0)) by lia. cbn [negb]. unfold blink_next. cbn [fst snd].
  destruct (b <=? cnt) eqn:E; to_prop.
  - destruct (turn_latch s1 c lit) as (s2 & -> & T2 & R2 & U2); [done|by rewrite U1|unfold tled; by rewrite F1|].
    unfold modu, modify.
    match goal with |- context [powctrl_get_f1c ?x] => set (s3 := x) end.
    destruct (f1c_read s3) as (s4 & -> & F4 & U4 & D4). unfold mret, M_ret.
    assert (f1c s3 = f1c s2) as F3 by done.
    assert (clr (f1c s2) MRP_TLED_MASK = rest) as R3 by (by rewrite R2, F1).
    exists s4. rewrite F3, HR by done. split; [done|].
    split; rewrite ?U4; subst s3; cbn; rewrite ?U2, ?U1; try done.
    + unfold tled. rewrite F4. by destruct lit.
    + by rewrite F4.
  - unfold modu, modify.
    match goal with |- context [powctrl_get_f1c ?x] => set (s3 := x) end.
    destruct (f1c_read s3) as (s4 & -> & F4 & U4 & D4). unfold mret, M_ret.
    assert (f1c s3 = f1c s) as F3 by done.
    exists s4. rewrite F3, HR by done. split; [done|].
    split; rewrite ?U4; subst s3; cbn; rewrite ?U1; try done.
    + apply s32_id. lia.
    + unfold tled. by rewrite F4, F3.
    + by rewrite F4, F3.
Qed.

Lemma blink_next_iter b n :
  0 < b →
  Nat.iter n (blink_next b) (0, true) =
  (Z.of_nat n mod (b + 1), Z.even (Z.of_nat n / (b + 1))).
Proof.
  intros Hb. induction n as [|n IH]; [by rewrite Z.mod_0_l, Z.div_0_l by lia|].
  rewrite Nat.iter_succ, IH. unfold blink_next. cbn [fst snd].
  set (q := Z.of_nat n / (b + 1)). set (r := Z.of_nat n mod (b + 1)).
  pose proof (Z.mod_pos_bound (Z.of_nat n) (b + 1) ltac:(lia)) as Hr. fold r in Hr.
  assert (Z.of_nat n = (b + 1) * q + r) as En by (apply Z.div_mod; lia).
  destruct (b <=? r) eqn:E; to_prop.
  - assert (Z.of_nat (S n) / (b + 1) = q + 1 ∧ Z.of_nat (S n) mod (b + 1) = 0) as [-> ->].
    { symmetry in En. split; [symmetry; apply (Z.div_unique _ _ _ 0); [lia|]|
        symmetry; apply (Z.mod_unique _ _ (q + 1)); [lia|]]; nia. }
    by rewrite Z.add_1_r, Z.even_succ, <-Z.negb_even.
  - assert (Z.of_nat (S n) / (b + 1) = q ∧ Z.of_nat (S n) mod (b + 1) = r + 1) as [-> ->]; [|done].
    split; [symmetry; apply (Z.div_unique _ _ _ (r + 1)); [lia|]|
      symmetry; apply (Z.mod_unique _ _ q); [lia|]]; nia.
Qed.

Lemma polls_blink b c rest n : ∀ x s,
  blinking b c x.1 x.2 rest s → 0 < b < 2 ^ 31 - 1 → 0 ≤ x.1 ≤ b → 0 ≤ c ≤ 3 →
  has rest MRP_POWEROFF_REQ = false →
  ∃ s', polls n s = Ret true s' ∧
    let y := Nat.iter n (blink_next b) x in blinking b c y.1 y.2 rest s'.
Proof.
  induction n as [|n IH]; intros x s Hs Hb Hx Hc Hreq; [by exists s|].
  destruct (observe_blinks b c x.1 x.2 rest s) as (s1 & E & H1); [done..|].
  rewrite <-surjective_pairing in H1.
  cbn [polls]. unfold mbind, M_bind. rewrite E. cbv iota. rewrite Nat.iter_succ_r.
  destruct (blink_next b x) as [cnt lit] eqn:Ex. apply IH; [done|done| |done|done].
  unfold blink_next in Ex. cbn [fst]. destruct (b <=? x.1) eqn:El; to_prop; simplify_eq; lia.
Qed.

End Led.

(** ** Lemmas: the timer and the device table *)

Section Machine.
Context {D V : Type} `{HD : MrpDevice D} `{HV : Mapper V}.
Context (B : bios) (high_memory : Z) (id : nat) (fops_ptr : Z).

Local Abbreviation pst := (pmach D V).

Lemma wp_on_io {A} (m : M (io D powctrl) A) (R : A → powctrl → Prop) Q (s : pst) :
  uwp m R (λ _, False) (unit_of (pm_io s)) →
  (∀ a x, m (pm_io s) = Ret a x → R a (unit_of x) → Q a (s <| pm_io := x |>)) →
  wp (on_io m) Q never s.
Proof.
  intros Hm HQ. specialize (Hm (pm_io s) eq_refl). unfold wp, on_io in *.
  destruct (m (pm_io s)) as [a x|]; [|done]. by apply HQ.
Qed.

(** What the driver has changed while it looks for the board: its own data, and
    the mapped areas, where there is room for [k] more. *)
Record searching (s0 : pst) (k : nat) (s : pst) : Prop := {
  se_wheel : pm_wheel s = pm_wheel s0;
  se_jiffies : pm_jiffies s = pm_jiffies s0;
  se_chrdevs : pm_chrdevs s = pm_chrdevs s0;
  se_major : powctrl_major (unit_of (pm_io s)) = 0;
  se_room : room k (pm_vm s);
}.

Lemma searching_less s0 k s : searching s0 (S k) s → searching s0 k s.
Proof. intros []. split; try done. by apply room_less. Qed.

Lemma searching_io s0 k s x :
  searching s0 k s → powctrl_major (unit_of x) = 0 → searching s0 k (s <| pm_io := x |>).
Proof. intros [] Hx. by split. Qed.

(** After [powctrl_init]: either nothing was found or could be had, or the driver
    is registered and its timer is running. *)
Definition loaded (s0 : pst) (r : Z) (s : pst) : Prop :=
  r = 0 ∧ (searching s0 0 s ∨
    let major := powctrl_major (unit_of (pm_io s)) in
    0 < major < MAX_CHRDEV ∧ fops (device (pm_chrdevs s0) major) = 0 ∧
    pm_chrdevs s =
      set_device major {| name := Some POWCTRL_DEVICE_NAME; fops := fops_ptr |} (pm_chrdevs s0) ∧
    pm_wheel s =
      add_timer id (set_expires id (u32 (pm_jiffies s0 + MRP_TIMER_UNIT)) (pm_wheel s0)) ∧
    room 0 (pm_vm s)).

Lemma wp_remap s0 k base Q s :
  searching s0 (S k) s →
  (∀ rc s', searching s0 k s' → Q rc s') →
  wp (powctrl_remap high_memory base) Q never s.
Proof.
  intros Hs HQ. unfold powctrl_remap. destruct (_ <? _); [by apply HQ, searching_less|].
  apply wp_bind. unfold wp at 1, pm_map.
  destruct (remap_room k (u32 (PAGE_ALIGN base)) (pm_vm s)) as (a & v' & -> & Hr & _);
    [by destruct Hs|apply u32_range|].
  assert (searching s0 k (s <| pm_vm := v' |>)) by (destruct Hs; by split).
  destruct (a =? 0); by apply HQ.
Qed.

Lemma wp_setup s0 line s :
  searching s0 0 s → wp (powctrl_setup id fops_ptr line) (loaded s0) never s.
Proof.
  intros Hs. unfold powctrl_setup. set (R := λ (_ : unit) u, powctrl_major u = 0).
  apply wp_bind, (wp_on_io _ R); [usteps; apply Hs|]. intros [] x1 _ Hx1.
  apply (searching_io _ _ _ x1) in Hs; [|done].
  apply wp_bind, (wp_on_io _ R); [usteps; exact Hx1|]. intros [] x2 _ Hx2.
  apply (searching_io _ _ _ x2) in Hs; [|done].
  destruct Hs as [Hw Hj Hc _ Hroom]. apply wp_bind. unfold wp at 1.
  rewrite Hc. destruct (register_chrdev 0 _ _ _) as [r tb] eqn:Er.
  destruct (register_any _ _ _ _ _ _ (eq_refl : 0 < MAX_CHRDEV) Er) as [[Hr ->]|(Hr & Hfree & ->)].
  { rewrite (proj2 (Z.leb_le _ _)) by done. apply wp_ret. split; [done|]. left. by split. }
  rewrite (proj2 (Z.leb_gt _ _)) by lia. set (K := λ (_ : unit) u, powctrl_major u = r).
  unfold powctrl_reset_mrp, powctrl_reset_pif, powctrl_poweroff_ack, powctrl_set_color,
    powctrl_get_f1c, powctrl_set_f1c.
  do 8 (apply wp_bind, (wp_on_io _ K); [by usteps|]; let x := fresh "x" in intros [] x _ ?).
  apply wp_bind. unfold wp, start_timer, modify. split; [done|]. right.
  cbn -[add_timer set_expires register_chrdev set_device device]. subst K. cbn beta in *.
  match goal with Hm : powctrl_major ?u = r |- context [powctrl_major ?u] => rewrite Hm end.
  cbn in Hw, Hj. by rewrite Hw, Hj.
Qed.

Lemma wp_init s0 :
  searching s0 3 s0 → wp (powctrl_init B high_memory id fops_ptr) (loaded s0) never s0.
Proof.
  intros Hs. assert (∀ k s, searching s0 k s → loaded s0 0 s) as Hnone.
  { intros k s H. split; [done|]. left. induction k; [done|]. by apply IHk, searching_less. }
  unfold powctrl_init. destruct (negb _); [by eapply Hnone|].
  destruct (pcibios_find_device _ _ _ _) as [[bus dev_fn]|]; [|by eapply Hnone].
  do 3 (destruct (powctrl_base _ _ _ _ =? 0); [by eapply Hnone|]).
  set (R := λ (_ : unit) u, powctrl_major u = 0).
  apply wp_bind, (wp_remap s0 2); [done|]. intros rc0 s1 H1. destruct (rc0 =? 0); [by eapply Hnone|].
  apply wp_bind, (wp_on_io _ R); [usteps; apply H1|]. intros [] x1 _ Hx1.
  apply (searching_io _ _ _ x1) in H1; [|done].
  apply wp_bind, (wp_remap s0 1); [done|]. intros rc2 s2 H2. destruct (rc2 =? 0); [by eapply Hnone|].
  apply wp_bind, (wp_on_io _ R); [usteps; apply H2|]. intros [] x2 _ Hx2.
  apply (searching_io _ _ _ x2) in H2; [|done].
  apply wp_bind, (wp_remap s0 0); [done|]. intros rc3 s3 H3. destruct (rc3 =? 0); [by eapply Hnone|].
  apply wp_bind, (wp_on_io _ R); [usteps; apply H3|]. intros [] x3 _ Hx3.
  apply (searching_io _ _ _ x3) in H3; [|done].
  destruct (pcibios_read_config_byte _ _ _ _) as [line|]; [|by eapply Hnone].
  by apply wp_setup.
Qed.

Lemma wp_cleanup s0 s1 :
  loaded s0 0 s1 → fops_ptr ≠ 0 → table_ok MAX_CHRDEV (pm_chrdevs s0) →
  wp (powctrl_cleanup_module id) (λ _ s2,
    (powctrl_major (unit_of (pm_io s1)) = 0 ∧ s2 = s1) ∨
    (0 < powctrl_major (unit_of (pm_io s1)) ∧
     pm_wheel s2 = (del_timer id (pm_wheel s1)).2 ∧
     pm_chrdevs s2 = set_device (powctrl_major (unit_of (pm_io s1))) no_device (pm_chrdevs s0) ∧
     room 0 (pm_vm s2))) never s1.
Proof.
  intros [_ Hl] Hf Htb. cbv zeta in Hl. unfold powctrl_cleanup_module. apply wp_bind, wp_gets.
  destruct Hl as [Hs|(Hm & Hfree & Hset & Hw & Hroom)].
  { rewrite (se_major _ _ _ Hs). by left. }
  rewrite (proj2 (Z.leb_gt _ _)) by lia. apply wp_bind, wp_modify, wp_bind. unfold wp at 1.
  cbn [pm_chrdevs upd]. rewrite Hset. unfold unregister_chrdev. rewrite unregister_set by done.
  apply wp_bind, wp_gets, wp_bind. cbn [pm_io upd].
  set (u := unit_of _). unfold wp at 1, pm_map at 1. cbn [pm_vm upd].
  destruct (unmap_room 0 (pw_base0 u) (pm_vm s1) Hroom) as (v1 & -> & R1).
  apply wp_bind. unfold wp at 1, pm_map at 1. cbn [pm_vm upd].
  destruct (unmap_room 0 (pw_base2 u) v1 R1) as (v2 & -> & R2).
  unfold wp, pm_map. cbn [pm_vm upd].
  destruct (unmap_room 0 (pw_mrpregs u) v2 R2) as (v3 & -> & R3). right. split; [apply Hm|done].
Qed.

(** The value of F1C that was read last decides whether the timer goes on. *)
Lemma observe_again (x : io D powctrl) :
  ∃ again x', observe_board x = Ret again x' ∧
    (again = false ↔ powctrl_timer_enable (unit_of x) ≠ 0 ∧
      ∃ v, last (log x') = Some (Rd F1C v) ∧ has v MRP_POWEROFF_REQ = true).
Proof.
  apply (wp_Ret observe_board). unfold observe_board.
  apply wp_bind. unfold wp at 1, getu, gets.
  destruct (powctrl_timer_enable (unit_of x) =? 0) eqn:E; to_prop; cbn [negb].
  { unfold wp, mret, M_ret. naive_solver. }
  apply wp_bind, wp_returns; [unfold powctrl_reset_pif, udelay; returns|]. intros [] x1.
  do 2 (apply wp_bind, wp_returns; [by do 2 eexists|]; intros ? ?).
  apply wp_bind, wp_returns.
  { unfold powctrl_turn_tled, powctrl_set_color, powctrl_get_f1c, powctrl_set_f1c. returns. }
  intros [] x2. unfold wp, powctrl_get_f1c, rd, mbind, M_bind.
  destruct (dev_read F1C (dev x2)) as [v d]. cbn -[has]. rewrite last_snoc.
  rewrite negb_false_iff. naive_solver.
Qed.

End Machine.

(** ** Theorems *)

(** with blinking switched on, the polls alternate the LED between its color
    and off, each state lasting [b + 1] polls, for as long as no power-off
    request shows in the register; no other bit of the register changes, and
    the polling goes on. *)
Theorem led_blinks {D} `{HD : MrpDevice D} `{HL : !F1cLatch D} (n : nat) (b c : Z)
    (s : io D powctrl) :
  powctrl_timer_enable (unit_of s) ≠ 0 → powctrl_blink (unit_of s) = b → 0 < b < 2 ^ 31 - 1 →
  powctrl_blkcnt (unit_of s) = 0 → powctrl_color (unit_of s) = c → tled s = c →
  has (f1c s) MRP_POWEROFF_REQ = false →
  ∃ s', polls n s = Ret true s' ∧
    tled s' = (if Z.even (Z.of_nat n / (b + 1)) then c else MRP_TLED_OFF) ∧
    clr (f1c s') MRP_TLED_MASK = clr (f1c s) MRP_TLED_MASK.
Proof.
  intros Hen Hb Hbr Hcnt Hcol Hled Hreq.
  assert (0 ≤ c ≤ 3) as Hc.
  { subst c. rewrite <-Hled. unfold tled. change MRP_TLED_MASK with (Z.ones 2).
    rewrite Z.land_ones by lia. pose proof (Z.mod_pos_bound (f1c s) (2 ^ 2)). lia. }
  destruct (polls_blink b c (clr (f1c s) MRP_TLED_MASK) n (0, true) s) as (s' & E & Hs'); try done.
  - cbn. lia.
  - rewrite has_clr by one_bit. by rewrite Hreq.
  - cbv zeta in Hs'. rewrite blink_next_iter in Hs' by lia. exists s'. split; [done|]. by destruct Hs'.
Qed.

(** each time the timer runs out the driver starts it again, half a second
    later, unless it is enabled and the register it has just read asks for
    power-off: then polling ends. *)
Theorem poll_restarts_timer {D V} `{HD : MrpDevice D} (id : nat) (s : pmach D V) p :
  wheel_inv (pm_wheel s) p → p !! id = None → 0 ≤ pm_jiffies s < 2 ^ 32 - 1 - MRP_TIMER_UNIT →
  ∃ (again : bool) x s', powctrl_observe_status id s = Ret tt s' ∧ pm_io s' = x ∧
    (again = false ↔ powctrl_timer_enable (unit_of (pm_io s)) ≠ 0 ∧
      ∃ v, last (log x) = Some (Rd F1C v) ∧ has v MRP_POWEROFF_REQ = true) ∧
    wheel_inv (pm_wheel s')
      (if again
       then <[id := Z.max (pm_jiffies s + MRP_TIMER_UNIT) (timer_jiffies (pm_wheel s))]> p
       else p).
Proof.
  intros Hw Hp Hj. destruct (observe_again (pm_io s)) as (again & x & E & Hagain).
  exists again, x. unfold powctrl_observe_status, mbind, M_bind, on_io. rewrite E.
  change MRP_TIMER_UNIT with 50 in *.
  destruct again; eexists; (split; [done|]); (split; [done|]); (split; [done|]); [|done].
  cbn -[add_timer set_expires]. change (u32 (pm_jiffies s + MRP_TIMER_UNIT)) with (u32 (pm_jiffies s + 50)).
  rewrite u32_id by lia. apply inv_start; [done|done|lia].
Qed.

(** loading the driver starts its timer and registers it, or leaves both the
    timers and the table of devices alone; unloading it afterwards leaves the
    same timers running as before and gives the major number back. *)
Theorem powctrl_load_unload {D V} `{HD : MrpDevice D} `{HV : Mapper V} B high_memory id fops_ptr
    (s : pmach D V) p :
  wheel_inv (pm_wheel s) p → p !! id = None → 0 ≤ pm_jiffies s < 2 ^ 32 - 1 - MRP_TIMER_UNIT →
  powctrl_major (unit_of (pm_io s)) = 0 → room 3 (pm_vm s) →
  fops_ptr ≠ 0 → table_ok MAX_CHRDEV (pm_chrdevs s) →
  ∃ s1 s2, powctrl_init B high_memory id fops_ptr s = Ret 0 s1 ∧
    powctrl_cleanup_module id s1 = Ret tt s2 ∧
    let major := powctrl_major (unit_of (pm_io s1)) in
    (if major =? 0 then wheel_inv (pm_wheel s1) p ∧ pm_chrdevs s1 = pm_chrdevs s
     else wheel_inv (pm_wheel s1)
            (<[id := Z.max (pm_jiffies s + MRP_TIMER_UNIT) (timer_jiffies (pm_wheel s))]> p) ∧
          get_chrfops major (pm_chrdevs s1) = fops_ptr) ∧
    wheel_inv (pm_wheel s2) p ∧
    ∀ m, 0 ≤ m → fops (device (pm_chrdevs s2) m) = fops (device (pm_chrdevs s) m).
Proof.
  intros Hw Hp Hj Hm Hroom Hf Htb. change MRP_TIMER_UNIT with 50 in *.
  destruct (proj1 (wp_Ret _ _ _) (wp_init B high_memory id fops_ptr s ltac:(by split)))
    as (r & s1 & E1 & [-> Hl]).
  destruct (proj1 (wp_Ret _ _ _) (wp_cleanup id fops_ptr s s1 (conj eq_refl Hl) Hf Htb))
    as ([] & s2 & E2 & Hc).
  exists s1, s2. split; [done|]. split; [done|]. cbv zeta in *.
  destruct Hl as [[Hwh _ Hch Hmaj _]|(Hmaj & Hfree & Hset & Hwh & _)].
  - rewrite Hmaj in *. destruct Hc as [[_ ->]|[? _]]; [|lia]. cbn. by rewrite Hch, Hwh.
  - destruct Hc as [[? _]|(_ & Hw2 & Hc2 & _)]; [lia|].
    rewrite (proj2 (Z.eqb_neq _ 0)) by lia. pose proof (tb_length _ _ Htb) as Hlen.
    rewrite u32_id in Hwh by (change MRP_TIMER_UNIT with 50; lia).
    pose proof (inv_start _ _ id (pm_jiffies s + 50) Hw Hp ltac:(lia)) as H1.
    rewrite Hw2, Hc2, Hwh, Hset. split; [split; [done|]|split].
    + unfold get_chrfops, get_fops. rewrite (proj2 (Z.ltb_lt _ _)) by lia.
      rewrite device_set, Z.eqb_refl by lia. done.
    + apply (inv_stop _ _ id) in H1. by rewrite delete_insert_id in H1.
    + intros m Hm0. rewrite device_set by lia. destruct (_ =? m) eqn:E; to_prop; [|done].
      by subst m.
Qed.

(** ** Instances *)

Definition sample_pow : powctrl := {|
  powctrl_dbglevel := POWCTRL_DBG_NORMAL; powctrl_major := 0; powctrl_timer_enable := 1;
  powctrl_blink := LED_BLINK_WAIT_HIGH; powctrl_blkcnt := 0; powctrl_color := 2;
  pw_base0 := 0; pw_base2 := 0; pw_mrpregs := 0; pw_irq := 0; pw_flags := 0;
|}.

(** The LED is red and the power switch is on. *)
Definition sample_panel : simdev :=
  {| sim_regs := λ r, match r with F1C => 0x802 | _ => 0 end; sim_rx := []; sim_tx := [] |}.

Definition sample_pm : pmach simdev vm_host := {|
  pm_io := MkIo sample_pow sample_panel true [];
  pm_wheel := empty_wheel; pm_jiffies := 0; pm_chrdevs := empty_table; pm_vm := (boot_vm, 0%nat);
|}.

Lemma led_blinks_witness :
  ∃ s', polls 7 (MkIo sample_pow sample_panel true []) = Ret true s' ∧
    tled s' = 3 ∧ clr (f1c s') MRP_TLED_MASK = 0x800.
Proof.
  destruct (led_blinks 7 1 2 (MkIo sample_pow sample_panel true []) ltac:(done) eq_refl ltac:(lia)
    eq_refl eq_refl eq_refl eq_refl) as (s' & E & H1 & H2).
  exists s'. split; [exact E|]. split; [exact H1|exact H2].
Defined.

Lemma poll_restarts_timer_witness :
  ∃ (again : bool) x s', powctrl_observe_status 5 sample_pm = Ret tt s' ∧ pm_io s' = x ∧
    (again = false ↔ 1 ≠ 0 ∧
      ∃ v, last (log x) = Some (Rd F1C v) ∧ has v MRP_POWEROFF_REQ = true) ∧
    wheel_inv (pm_wheel s') (if again then <[5%nat := 50]> ∅ else ∅).
Proof. by apply (poll_restarts_timer 5 sample_pm ∅); [exact empty_wheel_inv| |]. Defined.

Lemma powctrl_load_unload_witness :
  ∃ s1 s2, powctrl_init (H0:=sample_mapper) sample_bios 0x1000000 5 9 sample_pm = Ret 0 s1 ∧
    powctrl_cleanup_module (H0:=sample_mapper) 5 s1 = Ret tt s2 ∧
    powctrl_major (unit_of (pm_io s1)) = 127 ∧ wheel_inv (pm_wheel s1) (<[5%nat := 50]> ∅) ∧
    wheel_inv (pm_wheel s2) ∅.
Proof.
  destruct (powctrl_load_unload (HV:=sample_mapper) sample_bios 0x1000000 5 9 sample_pm ∅
    empty_wheel_inv) as (s1 & s2 & E1 & E2 & H1 & H2 & _).
  - done.
  - done.
  - done.
  - do 9 apply room_less. exact sample_room.
  - done.
  - exact empty_table_ok.
  - assert (powctrl_major (unit_of (pm_io s1)) = 127) as Hm
      by (vm_compute in E1; by injection E1 as <-).
    rewrite Hm in H1. exists s1, s2. split; [exact E1|]. split; [exact E2|]. split; [exact Hm|].
    split; [apply H1|exact H2].
Defined.
