(* ===== verification/Reboot.v ===== *)
(** * Reboot: halting and resetting the machine

    Models from kernel/sys.c [sys_reboot] and [ctrl_alt_del], built with
    [CONFIG_PS2_SBC_POWCTRL] and without the SCSI and APM options, over the
    model of the power control driver. *)

From S2P Require Import Prelude MrpHw PowCtrl Cred.

(** ** Code *)

(** How a call ends: it returns, the machine is reset, the process exits, or a
    signal was sent to init. *)
Inductive reboot_end := Returned (r : Z) | HardReset | Exited | InitSignalled.

Record rb (D : Type) := MkRb {
  rb_io : io D powctrl;
  rb_cred : cred;
  C_A_D : Z;
  all_killed : bool;        (** SIGKILL was sent to every process *)
}.
Arguments MkRb {D} _ _ _ _.
Arguments rb_io {D} _.
Arguments rb_cred {D} _.
Arguments C_A_D {D} _.
Arguments all_killed {D} _.

#[global] Instance eta_rb {D} : Eta (rb D) := λ x,
  MkRb (rb_io x) (rb_cred x) (C_A_D x) (all_killed x).

Section Reboot.
Context {D : Type} `{HD : MrpDevice D}.

Definition on_board {A} (m : M (io D powctrl) A) : M (rb D) A := λ s,
  match m (rb_io s) with
  | Ret a x => Ret a (s <| rb_io := x |>)
  | Stuck w x => Stuck w (s <| rb_io := x |>)
  end.

Definition rb_suser : M (rb D) bool := λ s,
  let '(p, c) := suser (rb_cred s) in Ret p (s <| rb_cred := c |>).

Definition sys_reboot (magic magic_too flag : Z) : M (rb D) reboot_end :=
  p ← rb_suser;
  if negb p then mret (Returned (- EPERM))
  else if negb (u32 magic =? 0xfee1dead) || negb (s32 magic_too =? 672274793) then
    mret (Returned (- EINVAL))
  else if u32 flag =? 0x01234567 then
    on_board powctrl_system_poweroff ;;
    mret HardReset
  else if u32 flag =? 0x89ABCDEF then
    modify (λ s, s <| C_A_D := 1 |>) ;;
    mret (Returned 0)
  else if u32 flag =? 0 then
    modify (λ s, s <| C_A_D := 0 |>) ;;
    mret (Returned 0)
  else if u32 flag =? 0xCDEF0123 then
    on_board powctrl_reset_pif ;;
    on_board powctrl_poweroff_request ;;
    modify (λ s, s <| all_killed := true |>) ;;
    on_board powctrl_system_poweroff ;;
    mret Exited
  else mret (Returned (- EINVAL)).

Definition ctrl_alt_del : M (rb D) reboot_end :=
  c ← gets C_A_D;
  if negb (c =? 0) then mret HardReset else mret InitSignalled.

End Reboot.

(** ** Lemmas *)

Section Facts.
Context {D : Type} `{HD : MrpDevice D} `{HL : !F1cLatch D}.

(** The board is the one the driver was written for. *)
Hypothesis board_id : ∀ d : D, (dev_read BID d).1 = 0x4126.

Lemma request_latch (s : io D powctrl) :
  ∃ s', powctrl_poweroff_request s = Ret tt s' ∧ f1c s' = Z.lor (f1c s) MRP_SHUTDOWN_REQ.
Proof.
  unfold powctrl_poweroff_request, mbind, M_bind.
  destruct (f1c_read s) as (s1 & -> & E1 & _ & _).
  destruct (f1c_write (Z.lor (f1c s) MRP_SHUTDOWN_REQ) s1) as (s2 & -> & E2 & _).
  unfold modu, modify.
  match goal with |- context [powctrl_get_f1c ?x] => destruct (f1c_read x) as (s3 & -> & E3 & _ & _) end.
  exists s3. split; [done|]. rewrite E3. etransitivity; [exact E2|]. apply u16_id.
  apply lor_range; [lia|apply u16_range|]. vm_compute. split; congruence.
Qed.

Lemma poweroff_latch (s : io D powctrl) :
  ∃ s', powctrl_system_poweroff s = Ret tt s' ∧ f1c s' = clr (f1c s) MRP_POWEROFF_ACK.
Proof.
  unfold powctrl_system_poweroff, powctrl_poweroff_ack, mbind, M_bind.
  destruct (rd_latch BID s) as (s1 & -> & L1 & _). rewrite board_id. cbn [reg_wrap].
  change (u16 0x4126 =? 0x4126) with true. cbn [negb].
  destruct (f1c_read s1) as (s2 & -> & E2 & _ & _).
  assert (f1c s1 = f1c s) as E1 by (unfold f1c; by rewrite L1). rewrite E1.
  destruct (f1c_write (clr (f1c s) MRP_POWEROFF_ACK) s2) as (s3 & E3 & F3 & _).
  exists s3. split; [exact E3|]. rewrite F3. apply u16_id, land_range; [lia|apply u16_range].
Qed.

End Facts.

(** ** Theorems *)

(** the system call does nothing for a process that is not root, or that does
    not give both magic numbers; the halt command asks the board for a
    shutdown and withdraws the acknowledgement that holds off power-off,
    changing no other bit, after all processes were killed. *)
Theorem reboot_guarded_halt {D} `{HD : MrpDevice D} `{HL : !F1cLatch D}
    (magic magic_too flag : Z) (s : rb D) :
  (∀ d : D, (dev_read BID d).1 = 0x4126) →
  if decide (euid (rb_cred s) ≠ 0) then
    sys_reboot magic magic_too flag s = Ret (Returned (- EPERM)) s
  else if decide (u32 magic ≠ 0xfee1dead ∨ s32 magic_too ≠ 672274793) then
    ∃ s', sys_reboot magic magic_too flag s = Ret (Returned (- EINVAL)) s' ∧
      rb_io s' = rb_io s ∧ C_A_D s' = C_A_D s ∧ all_killed s' = all_killed s
  else if decide (u32 flag = 0xCDEF0123) then
    ∃ s', sys_reboot magic magic_too flag s = Ret Exited s' ∧ all_killed s' = true ∧
      f1c (rb_io s') = clr (Z.lor (f1c (rb_io s)) MRP_SHUTDOWN_REQ) MRP_POWEROFF_ACK
  else True.
Proof.
  intros Hid. unfold sys_reboot, mbind, M_bind, rb_suser.
  case_decide as He; [rewrite suser_no by done; by destruct s|].
  assert (euid (rb_cred s) = 0) as E0 by lia. unfold suser. rewrite E0. cbn [Z.eqb negb].
  case_decide as Hm.
  { replace (negb (u32 magic =? _) || _) with true; [by eexists|]. symmetry.
    rewrite orb_true_iff, !negb_true_iff, !Z.eqb_neq. done. }
  replace (negb (u32 magic =? _) || _) with false; last first.
  { symmetry. rewrite orb_false_iff, !negb_false_iff, !Z.eqb_eq. lia. }
  case_decide as Hf; [|done]. rewrite Hf. eqb_eval. unfold on_board. cbn [rb_io upd].
  destruct (reset_pif_latch (rb_io s)) as (x1 & -> & L1 & _). cbn [rb_io upd].
  destruct (request_latch x1) as (x2 & -> & E2). cbn [rb_io upd]. unfold modify. cbn [rb_io upd].
  destruct (poweroff_latch Hid x2) as (x3 & -> & E3).
  eexists. split; [reflexivity|]. split; [reflexivity|]. cbn [rb_io upd]. rewrite E3, E2.
  by replace (f1c x1) with (f1c (rb_io s)) by (unfold f1c; by rewrite L1).
Qed.

(** ** Instances *)

(** A board of which only the identification and F1C matter. *)
Record panel := MkPanel { panel_f1c : Z }.

#[global] Instance panel_device : MrpDevice panel := {|
  dev_read r d := (match r with BID => 0x4126 | F1C => panel_f1c d | _ => 0 end, d);
  dev_write r v d := match r with F1C => MkPanel v | _ => d end;
|}.

#[global] Instance panel_latch : F1cLatch panel.
Proof. by refine {| latch := panel_f1c |}; [..|intros []]. Defined.

Definition sample_rb : rb panel :=
  {| rb_io := MkIo sample_pow (MkPanel 0x80a) true []; rb_cred := root_cred; C_A_D := 1;
     all_killed := false |}.

Lemma reboot_guarded_halt_witness :
  ∃ s', sys_reboot 0xfee1dead 672274793 0xCDEF0123 sample_rb = Ret Exited s' ∧
    all_killed s' = true ∧ f1c (rb_io s') = 0x806.
Proof.
  pose proof (reboot_guarded_halt 0xfee1dead 672274793 0xCDEF0123 sample_rb (λ _, eq_refl)) as H.
  rewrite decide_False in H by (by vm_compute).
  rewrite decide_False in H by (vm_compute; by intros []).
  rewrite decide_True in H by done. exact H.
Defined.
