(* ===== verification/Mrp.v ===== *)
(** * Mrp: one unit of the DECI1 driver and its interrupt side

    Models [struct mrp_unit] and the FIFO routines of
    include/linux/ps2mrp-psnet.h, and from drivers/char/ps2mrp-psnet.c the
    routines that run on one unit: [mrp_send], [mrp_recv], [mrp_reset],
    [mrp_bootp], [mrp_cpr], [mrp_cps] and [mrp_interrupt] with the register
    reads of its debugging output ([mrp_dump_regs], [mrp_stat_decode]).

    Buffers obtained from [kmalloc] are lists of 32-bit words: an access past
    the end is [Stuck OutOfBounds], what C does with it is undefined.  The
    four [wait_queue]s appear in the log as [Wake 1] to [Wake 4].
    [MRP_NOMATCHING] is defined, as in the header. *)

From S2P Require Import Prelude Ring Deci MrpHw.

(** ** Constants *)

Definition MRP_UNIT_MAX : Z := 4.
Definition mrp_debug : Z := 99.

Definition MRPF_DETECT : Z := 0x0001.
Definition MRPF_VALID : Z := 0x0002.
Definition MRPF_RESET : Z := 0x0004.
Definition MRPF_OPENED : Z := 0x0008.
Definition MRPF_SBUSY : Z := 0x0010.
Definition MRPF_RDONE : Z := 0x0020.
Definition MRPF_REQTAG : Z := 0x0040.
Definition MRPF_CPOPEN : Z := 0x0080.
Definition MRPF_CPBUSY : Z := 0x0100.

Definition MRP_FSTF_0001 : Z := 0x0001.
Definition MRP_FSTF_0010 : Z := 0x0010.
Definition MRP_FSTF_0040 : Z := 0x0040.
Definition MRP_FSTF_0080 : Z := 0x0080.
Definition MRP_FSTF_4000 : Z := 0x4000.
Definition MRP_FSTF_8000 : Z := 0x8000.

Definition IDK4CF_0004 : Z := 0x0004.
Definition IDK4CF_0040 : Z := 0x0040.
Definition IDK50F_00000020 : Z := 0x00000020.
Definition IDK50F_40000000 : Z := 0x40000000.

Definition MRP_STATF_CPR : Z := 0x01.
Definition MRP_STATF_CPS : Z := 0x02.
Definition MRP_STATF_BOOTP : Z := 0x04.
Definition MRP_STATF_RESET : Z := 0x08.
Definition MRP_STATF_RECV : Z := 0x10.
Definition MRP_STATF_WAKE : Z := 0x20.

Definition MRP_RESETF_2000 : Z := 0x2000.
Definition MRP_RESETF_4000 : Z := 0x4000.
Definition MRP_RESETF_8000 : Z := 0x8000.

Definition MRP_CPRF_0100 : Z := 0x0100.
Definition MRP_CPRF_0200 : Z := 0x0200.

(** ** The unit *)

Record mrp_unit := MkUnit {
  flags : Z;
  irq : Z;
  base0 : Z;               (** address of the mapped window, 0 for NULL *)
  base2 : Z;
  regs : Z;
  sendbuf : list Z;        (** empty for NULL *)
  recvbuf : list Z;        (** empty for NULL *)
  deci_out : option Z;     (** byte offset into [sendbuf], [None] for NULL *)
  deci_in : option Z;      (** byte offset into [recvbuf], [None] for NULL *)
  slen : Z;
  rlen : Z;
  nintr : Z;
  buf38 : option (list Z);
  nbytes38 : Z;
  buf40 : option (list Z);
  nbytes40 : Z;
  deci_tag_for_reset : Z;
  sendring : ringbuf_s;
  recvring : ringbuf_s;
  base4 : Z;
  reset_mode : Z;
}.

#[global] Instance eta_mrp_unit : Eta mrp_unit := λ x,
  MkUnit (flags x) (irq x) (base0 x) (base2 x) (regs x) (sendbuf x) (recvbuf x)
    (deci_out x) (deci_in x) (slen x) (rlen x) (nintr x) (buf38 x) (nbytes38 x)
    (buf40 x) (nbytes40 x) (deci_tag_for_reset x) (sendring x) (recvring x)
    (base4 x) (reset_mode x).

(** A unit as [memset] leaves it in [mrp_init]. *)
Definition zero_unit : mrp_unit :=
  {| flags := 0; irq := 0; base0 := 0; base2 := 0; regs := 0; sendbuf := [];
     recvbuf := []; deci_out := None; deci_in := None; slen := 0; rlen := 0;
     nintr := 0; buf38 := None; nbytes38 := 0; buf40 := None; nbytes40 := 0;
     deci_tag_for_reset := 0; sendring := ring_zero; recvring := ring_zero;
     base4 := 0; reset_mode := 0 |}.

Section Unit.
Context {D : Type} `{MrpDevice D}.

Local Abbreviation st := (io D mrp_unit).

Definition set_flag (m : Z) : M st unit :=
  modu (λ u, u <| flags := Z.lor (flags u) m |>).

Definition clear_flag (m : Z) : M st unit :=
  modu (λ u, u <| flags := clr (flags u) m |>).

(** The register reads made by the arguments of a [mrp_printk(level, ...)]. *)
Definition printk_rd (level : Z) (r : reg) : M st unit :=
  when (level <=? mrp_debug) (rd r ;; mret tt).

(** ** FIFO transfers *)

(** [base2->fifoport = src[i]] *)
Definition put_word (src : list Z) (i : nat) : M st unit :=
  match src !! i with
  | Some w => wr FIFOPORT w
  | None => halt OutOfBounds
  end.

Definition mrp_put_fifo (src : list Z) (nbytes : Z) : M st Z :=
  let nw := u32 (Z.shiftr (nbytes + 3) 2) in
  let k := Z.to_nat (Z.land nw 7) in
  let loops := Z.to_nat (Z.shiftr (s32 nw) 3) in
  (* switch (nw & 7): case k falls through to case 1 *)
  for_each (List.seq 0 k) (put_word src) ;;
  (* for (loops = (signed int)nw>>3; loops-- > 0; buf += 8) *)
  for_each (List.seq 0 loops) (λ l,
    for_each (List.seq 0 8) (λ j, put_word src (k + 8 * l + j))) ;;
  wr TXC 1 ;;
  wr_or IER MRP_STATF_WAKE ;;
  set_flag MRPF_SBUSY ;;
  mret nw.

(** [recvbuf[i] = base2->fifoport], [i] counting words *)
Definition get_word (i : nat) : M st unit :=
  w ← rd FIFOPORT;
  b ← getu recvbuf;
  if decide (i < length b)%nat then modu (λ u, u <| recvbuf := <[i := w]> b |>)
  else halt OutOfBounds.

Definition mrp_get_fifo (off : Z) (nbytes : Z) : M st unit :=
  let nw := Z.shiftr (u32 (u32 nbytes + 3)) 2 in
  let k := Z.to_nat (Z.land nw 7) in
  let loops := Z.to_nat (Z.shiftr nw 3) in
  let b := Z.to_nat (Z.shiftr off 2) in
  (* switch (nw & 7) *)
  for_each (List.seq 0 k) (λ j, get_word (b + j)) ;;
  (* while (loops) *)
  for_each (List.seq 0 loops) (λ l,
    for_each (List.seq 0 8) (λ j, get_word (b + k + 8 * l + j))).

(** ** Sending and receiving *)

Definition mrp_send : M st Z :=
  u ← getu (λ u, u);
  let src := match deci_out u with
             | Some off => drop (Z.to_nat (Z.shiftr off 2)) (sendbuf u)
             | None => []
             end in
  mrp_put_fifo src (slen u).

(** The header at the start of [recvbuf]. *)
Definition recv_hdr : M st decihdr_s := getu (λ u, hdr_of_words (recvbuf u)).

(** Error exit: acknowledge the word and listen again. *)
Definition recv_fail : M st Z :=
  wr RXC 1 ;; wr_or IER MRP_STATF_RECV ;; mret (-1).

(** After a good header: the rest of the packet, and its checksum. *)
Definition recv_body : M st Z :=
  p ← getu deci_in;
  n ← getu rlen;
  mrp_get_fifo (default 0 p) (n - 4) ;;
  wr RXC 1 ;;
  hdr ← recv_hdr;
  sum ← getu (λ u, deci_cksum (recvbuf u));
  if negb (cksum hdr =? sum) then
    wr_or IER MRP_STATF_RECV ;; mret 1
  else
    set_flag MRPF_RDONE ;; wake_up 4 ;; mret 1.

(** From the label [rescan_header] on.  [fuel] bounds the number of header
    words examined. *)
Fixpoint recv_header (fuel : nat) : M st Z :=
  match fuel with
  | O => halt OutOfFuel
  | S fuel' =>
      mrp_get_fifo 0 4 ;;
      f ← rd FST;
      if has f MRP_FSTF_0010 then printk_rd 1 FST ;; recv_fail
      else
        hdr ← recv_hdr;
        modu (λ u, u <| rlen := size hdr |>
                     <| deci_in := (λ p, p + 4) <$> deci_in u |>) ;;
        if negb (magic hdr =? DECI_MAGIC) || (MRP_MAX_PKT_SIZE <? size hdr) then
          f ← rd FST;
          if negb (has f MRP_FSTF_0001) then recv_header fuel'
          else recv_fail
        else
          recv_body
  end.

Definition mrp_recv (fuel : nat) : M st Z :=
  f ← getu flags;
  if has f MRPF_RDONE then mret 0
  else
    modu (λ u, u <| deci_in := Some 0 |>) ;;
    f ← rd FST;
    if has f MRP_FSTF_0001 then printk_rd 1 FST ;; recv_fail
    else recv_header fuel.

(** ** Reset and boot protocol *)

Definition mrp_reset : M st Z :=
  fl ← save_flags;
  cli ;;
  wr IER 0 ;;
  wr RST MRP_RESETF_8000 ;;
  udelay 10 ;;
  wr FST 0xc0c0 ;;
  udelay 10 ;;
  wr FST 0 ;;
  wr ISP 0 ;;
  wr CSI 7 ;;
  wr RST 0 ;;
  udelay 20 ;;
  wr IER (Z.lor (Z.lor MRP_STATF_CPR MRP_STATF_BOOTP) MRP_STATF_RECV) ;;
  modu (λ u,
    let tmp := u16 (flags u) in
    let tmp := u16 (Z.lor tmp MRPF_RESET) in
    let tmp := u16 (clr tmp MRPF_SBUSY) in
    let tmp := u16 (clr tmp MRPF_RDONE) in
    let tmp := u16 (clr tmp MRPF_CPBUSY) in
    u <| flags := tmp |>) ;;
  wake_up 3 ;;
  modu (λ u, u <| rlen := 0 |> <| slen := 0 |>
               <| sendring := ring_clear (sendring u) |>
               <| recvring := ring_clear (recvring u) |>) ;;
  restore_flags fl ;;
  mret 0.

Definition mrp_bootp : M st Z :=
  cpr ← rd CPR;
  wr FST (Z.lor (Z.lor MRP_FSTF_0040 MRP_FSTF_0080) (Z.lor MRP_FSTF_4000 MRP_FSTF_8000)) ;;
  udelay 10 ;;
  wr FST 0 ;;
  clear_flag (Z.lor MRPF_SBUSY MRPF_RDONE) ;;
  modu (λ u, u <| rlen := 0 |> <| slen := 0 |>) ;;
  u ← getu (λ u, u);
  (if has cpr MRP_CPRF_0100 then
     if has cpr MRP_CPRF_0200 then wake_up 3
     else
       match buf40 u with
       | Some b => mrp_put_fifo b (nbytes40 u) ;; mret tt
       | None => mret tt
       end
   else
     match buf38 u with
     | Some b => mrp_put_fifo b (nbytes38 u) ;; mret tt
     | None => mret tt
     end) ;;
  wr CPS cpr ;;
  wr CSI 4 ;;
  wr FSI 4 ;;
  wr_or IER MRP_STATF_BOOTP ;;
  mret 0.

(** ** The control port *)

Definition mrp_cpr : M st unit :=
  u ← getu (λ u, u);
  if count (recvring u) <=? 0xfff then
    c ← rd CPR;
    modu (λ u, u <| recvring := ringbuf_put (recvring u) c |>) ;;
    wr CSI 1 ;;
    wr FSI 2 ;;
    wr_or IER MRP_STATF_CPR ;;
    wake_up 1
  else mret tt.

Definition mrp_cps : M st unit :=
  u ← getu (λ u, u);
  if has (flags u) MRPF_CPBUSY then
    if 0 <? count (sendring u) then
      set_flag MRPF_CPBUSY ;;
      u ← getu (λ u, u);
      let '(c, ring) := ringbuf_get (sendring u) in
      modu (λ u, u <| sendring := ring |>) ;;
      wr CPR c ;;
      wr FSI 1 ;;
      wr_or IER MRP_STATF_CPS ;;
      wake_up 2
    else mret tt
  else mret tt.

(** ** The interrupt handler *)

Definition mrp_dump_regs : M st unit :=
  when (3 <=? mrp_debug)
    (for_each [BID; RST; CPS; CPR; FST; TXC; RXC; F1C; IST; ISP; IER; CSI; FSI; AEO; AFO]
       (λ r, rd r ;; mret tt)).

(** The letters of the pending interrupts, most significant first; [nbytes] is
    the size of [buf]. *)
Definition mrp_stat_decode (nbytes : Z) : M st (list Byte.byte) :=
  if nbytes <? 9 then mret []
  else
    ist ← rd IST;
    ier ← rd IER;
    let stat := u16 (Z.land ist ier) in
    let bits := [Byte.x38; Byte.x34; Byte.x77; Byte.x72; Byte.x52; Byte.x62;
                 Byte.x43; Byte.x63] in
    mret (imap (λ i c, if has stat (Z.shiftl 1 (7 - Z.of_nat i)) then c else Byte.x2d) bits).

(** What [mrp_interrupt] does about the pending interrupts [stat]. *)
Definition interrupt_dispatch (fuel : nat) (stat : Z) : M st unit :=
  if negb (has stat MRP_STATF_RECV) && negb (has stat MRP_STATF_WAKE) then
    if has stat MRP_STATF_RESET then
      wr_and RST (Z.lor MRP_RESETF_2000 MRP_RESETF_4000) ;;
      mrp_reset ;; mret tt
    else if has stat MRP_STATF_BOOTP then
      wr_and IER (Z.lnot MRP_STATF_BOOTP) ;;
      mrp_bootp ;; mret tt
    else if has stat MRP_STATF_CPR then
      wr_and IER (Z.lnot MRP_STATF_CPR) ;;
      mrp_cpr
    else if has stat MRP_STATF_CPS then
      wr_and IER (Z.lnot MRP_STATF_CPS) ;;
      wr CSI 2 ;;
      clear_flag MRPF_CPBUSY ;;
      mrp_cps ;;
      wake_up 2
    else if negb (stat =? 0) then wr IER 0
    else mret tt
  else
    when (has stat MRP_STATF_WAKE)
      (wr_and IER (Z.lnot MRP_STATF_WAKE) ;;
       clear_flag MRPF_SBUSY ;;
       wake_up 3) ;;
    when (has stat MRP_STATF_RECV)
      (wr_and IER (Z.lnot MRP_STATF_RECV) ;;
       mrp_recv fuel ;; mret tt).

Definition mrp_interrupt (fuel : nat) : M st unit :=
  fl ← save_flags;
  cli ;;
  i4c ← rd IDK4C;
  if negb (has i4c IDK4CF_0004) then restore_flags fl
  else
    modu (λ u, u <| nintr := s32 (nintr u + 1) |>) ;;
    ist ← rd IST;
    ier ← rd IER;
    let stat := u16 (Z.land ist ier) in
    when (2 <=? mrp_debug) (mrp_stat_decode 9 ;; mrp_dump_regs) ;;
    interrupt_dispatch fuel stat ;;
    restore_flags fl.

End Unit.
