(* ===== verification/MrpFacts.v ===== *)
(** * MrpFacts: the FIFO transfers and the packets of the DECI1 driver

    Theorems about the definitions of [Mrp]: the unrolled FIFO transfers move
    exactly the words they should, a packet the board presents ends up in the
    receive buffer, and the unit's invariant [unit_inv] is kept by every
    routine that runs on it, on any device. *)

From S2P Require Import Prelude Ring Deci MrpHw Mrp.

(** Number of 32-bit words that hold [n] bytes. *)
Definition nwords (n : Z) : Z := (n + 3) / 4.

Section Facts.
Context {D : Type} `{MrpDevice D}.

Local Abbreviation st := (io D mrp_unit).

(** ** Specifications *)

(** Reading the FIFO of [d] gives the words [ws] one after the other and
    leaves the device in state [d']. *)
Fixpoint fifo_feed (ws : list Z) (d d' : D) : Prop :=
  match ws with
  | [] => d' = d
  | w :: ws' => ∃ d1, dev_read FIFOPORT d = (w, d1) ∧ fifo_feed ws' d1 d'
  end.

(** The device after the words [ws] were pushed into its FIFO. *)
Definition fifo_push (ws : list Z) (d : D) : D :=
  foldl (λ d w, dev_write FIFOPORT (u32 w) d) d ws.

(** The plain loop that [mrp_put_fifo] unrolls. *)
Definition put_fifo_loop (src : list Z) (nbytes : Z) : M st Z :=
  for_each (List.seq 0 (Z.to_nat (nwords nbytes))) (put_word src) ;;
  wr TXC 1 ;;
  wr_or IER MRP_STATF_WAKE ;;
  set_flag MRPF_SBUSY ;;
  mret (nwords nbytes).

(** [recvbuf] with the words [ws] stored from word [b] on. *)
Definition splice (b : nat) (ws l : list Z) : list Z :=
  take b l ++ ws ++ drop (b + length ws) l.

(** The words [pkt] are a DECI packet the driver accepts. *)
Record packet_ok (pkt : list Z) : Prop := {
  pkt_words : Forall is_word pkt;
  pkt_magic : magic (hdr_of_words pkt) = DECI_MAGIC;
  pkt_size : sizeof_hdr ≤ size (hdr_of_words pkt) ≤ MRP_MAX_PKT_SIZE;
  pkt_length : Z.of_nat (length pkt) = nwords (size (hdr_of_words pkt));
  pkt_cksum : cksum (hdr_of_words pkt) = deci_cksum pkt;
}.

(** The board's status register reports data and no error when [mrp_recv]
    looks, before and after it reads the first word [w0] of a packet. *)
Definition greets (w0 : Z) (d d' : D) : Prop :=
  ∃ f0 d1 d2 f1,
    dev_read FST d = (f0, d1) ∧ has (u16 f0) MRP_FSTF_0001 = false ∧
    dev_read FIFOPORT d1 = (w0, d2) ∧
    dev_read FST d2 = (f1, d') ∧ has (u16 f1) MRP_FSTF_0010 = false.

(** The board presents the packet [pkt]. *)
Definition presents (pkt : list Z) (d d' : D) : Prop :=
  ∃ w0 rest d1, pkt = w0 :: rest ∧ greets w0 d d1 ∧ fifo_feed rest d1 d'.

(** ** Transfers *)

Lemma nw_duff n :
  0 ≤ n → (Z.to_nat (Z.land n 7) + 8 * Z.to_nat (Z.shiftr n 3) = Z.to_nat n)%nat.
Proof.
  intros Hn. change 7 with (Z.ones 3). rewrite Z.land_ones, Z.shiftr_div_pow2 by lia.
  change (2 ^ 3) with 8. Z.div_mod_to_equations. lia.
Qed.

Lemma put_fifo_unrolled src nbytes (s : st) :
  0 ≤ nbytes < 2 ^ 31 - 3 → mrp_put_fifo src nbytes s = put_fifo_loop src nbytes s.
Proof.
  intros Hn. unfold mrp_put_fifo, put_fifo_loop.
  assert (Hs : u32 (Z.shiftr (nbytes + 3) 2) = nwords nbytes).
  { rewrite Z.shiftr_div_pow2 by lia. apply u32_id. unfold nwords.
    change (2 ^ 2) with 4. Z.div_mod_to_equations. lia. }
  assert (0 ≤ nwords nbytes < 2 ^ 31) as Hr.
  { unfold nwords. Z.div_mod_to_equations. lia. }
  rewrite Hs. rewrite (s32_id (nwords nbytes)) by lia.
  rewrite <-bind_assoc. apply bind_eq.
  rewrite for_each_duff, nw_duff by lia. done.
Qed.

Lemma put_words_run src n (s : st) :
  (n ≤ length src)%nat →
  for_each (List.seq 0 n) (put_word src) s =
  Ret tt (s <| dev := fifo_push (take n src) (dev s) |>
            <| log := log s ++ ((λ w, Wr FIFOPORT (u32 w)) <$> take n src) |>).
Proof.
  induction n as [|n IH]; intros Hn.
  { cbn. rewrite app_nil_r. by destruct s. }
  rewrite seq_S, for_each_app. erewrite bind_Ret by (apply IH; lia).
  destruct (lookup_lt_is_Some_2 src n) as [w Hw]; [lia|].
  erewrite take_S_r by done. unfold fifo_push. rewrite foldl_app, fmap_app.
  cbn. unfold put_word. rewrite Hw. cbn. by rewrite app_assoc.
Qed.

(** What [mrp_put_fifo] does when the source holds enough words. *)
Lemma put_fifo_run src nbytes (s : st) :
  0 ≤ nbytes < 2 ^ 31 - 3 → nwords nbytes ≤ Z.of_nat (length src) →
  ∃ s' v,
    mrp_put_fifo src nbytes s = Ret (nwords nbytes) s' ∧
    unit_of s' = (unit_of s) <| flags := Z.lor (flags (unit_of s)) MRPF_SBUSY |> ∧
    irqs_on s' = irqs_on s ∧
    log s' = log s ++ ((λ w, Wr FIFOPORT (u32 w)) <$> take (Z.to_nat (nwords nbytes)) src)
                   ++ [Wr TXC 1; Rd IER v; Wr IER (u16 (Z.lor v MRP_STATF_WAKE))].
Proof.
  intros Hn Hl. rewrite put_fifo_unrolled by done. unfold put_fifo_loop.
  erewrite bind_Ret by (apply put_words_run; lia).
  unfold mbind, M_bind, wr_or, mbind, M_bind, wr, rd. cbn.
  destruct (dev_read IER _) as [v d]. cbn.
  eexists _, (u16 v). split; [reflexivity|]. cbn. split; [done|]. split; [done|].
  by rewrite <-!app_assoc.
Qed.

Lemma splice_cons b w ws l :
  (b < length l)%nat → splice (S b) ws (<[b:=w]> l) = splice b (w :: ws) l.
Proof.
  intros Hb. unfold splice.
  rewrite (take_S_r _ _ w) by (by apply list_lookup_insert_eq).
  rewrite take_insert_ge, drop_insert_lt by lia. rewrite <-app_assoc. cbn.
  do 4 f_equal. lia.
Qed.

Lemma length_splice b ws l :
  (b + length ws ≤ length l)%nat → length (splice b ws l) = length l.
Proof. intros Hb. unfold splice. rewrite !length_app, length_take, length_drop. lia. Qed.

Lemma get_words_run ws : ∀ b (s : st) d',
  fifo_feed ws (dev s) d' → Forall is_word ws →
  (b + length ws ≤ length (recvbuf (unit_of s)))%nat →
  for_each (List.seq b (length ws)) get_word s =
  Ret tt (s <| dev := d' |> <| log := log s ++ (Rd FIFOPORT <$> ws) |>
            <| unit_of := (unit_of s) <| recvbuf := splice b ws (recvbuf (unit_of s)) |> |>).
Proof.
  induction ws as [|w ws IH]; intros b s d' Hf Hw Hb.
  { cbn in *. subst d'. unfold splice. cbn. rewrite Nat.add_0_r, take_drop, app_nil_r.
    by destruct s as [[]]. }
  destruct Hf as (d1 & Hr & Hf). apply Forall_cons_iff in Hw as [Hw Hws].
  cbn [length List.seq] in *.
  assert (get_word b s = Ret tt (s <| dev := d1 |> <| log := log s ++ [Rd FIFOPORT w] |>
      <| unit_of := (unit_of s) <| recvbuf := <[b:=w]> (recvbuf (unit_of s)) |> |>)) as Hg.
  { unfold get_word, mbind, M_bind, rd. cbn. rewrite Hr. cbn.
    rewrite u32_id by done. by rewrite decide_True by lia. }
  cbn [for_each]. erewrite bind_Ret by exact Hg.
  rewrite (IH _ _ d'); cbn -[splice]; [|done|done|rewrite length_insert; lia].
  by rewrite splice_cons, <-app_assoc by lia.
Qed.

(** The plain loop that [mrp_get_fifo] unrolls. *)
Lemma get_fifo_unrolled off nbytes (s : st) :
  mrp_get_fifo off nbytes s =
  for_each (List.seq (Z.to_nat (off / 4)) (Z.to_nat (u32 (nbytes + 3) / 4))) get_word s.
Proof.
  unfold mrp_get_fifo. rewrite u32_add_l, !(Z.shiftr_div_pow2 _ 2) by lia.
  change (2 ^ 2) with 4. set (nw := u32 (nbytes + 3) / 4).
  assert (0 ≤ nw) by (apply Z.div_pos; [apply u32_range|lia]).
  set (b := Z.to_nat (off / 4)). set (k := Z.to_nat (Z.land _ 7)).
  transitivity ((for_each (List.seq 0 k) (λ j, get_word (b + j)) ;;
    for_each (List.seq 0 (Z.to_nat (Z.shiftr nw 3))) (λ l,
      for_each (List.seq 0 8) (λ j, get_word (b + (k + 8 * l + j))))) s).
  { unfold mbind, M_bind. destruct (for_each _ _ s) as [[] s'|]; [|done].
    apply for_each_ext. intros l s'' _. apply for_each_ext. intros j s3 _.
    by replace (b + k + 8 * l + j)%nat with (b + (k + 8 * l + j))%nat by lia. }
  rewrite (for_each_duff (λ j, get_word (b + j))). subst k. rewrite nw_duff by done.
  by rewrite <-(for_each_map (Nat.add b)), fmap_add_seq, Nat.add_0_r.
Qed.

Lemma get_fifo_run ws off nbytes (s : st) d' :
  fifo_feed ws (dev s) d' → Forall is_word ws →
  0 ≤ off → 0 ≤ nbytes < 2 ^ 32 - 3 → nwords nbytes = Z.of_nat (length ws) →
  off / 4 + Z.of_nat (length ws) ≤ Z.of_nat (length (recvbuf (unit_of s))) →
  mrp_get_fifo off nbytes s =
  Ret tt (s <| dev := d' |> <| log := log s ++ (Rd FIFOPORT <$> ws) |>
            <| unit_of := (unit_of s) <| recvbuf :=
                 splice (Z.to_nat (off / 4)) ws (recvbuf (unit_of s)) |> |>).
Proof.
  intros Hf Hw Ho Hn Hlen Hb. rewrite get_fifo_unrolled, u32_id by lia.
  change ((nbytes + 3) / 4) with (nwords nbytes). rewrite Hlen, Nat2Z.id.
  assert (0 ≤ off / 4) by (apply Z.div_pos; lia). apply get_words_run; [done|done|lia].
Qed.

(** A transfer past the end of [recvbuf] does not return. *)
Lemma get_words_overrun n : ∀ b (s : st),
  (length (recvbuf (unit_of s)) < b + n)%nat → (b ≤ length (recvbuf (unit_of s)))%nat →
  ∃ s', for_each (List.seq b n) get_word s = Stuck OutOfBounds s'.
Proof.
  induction n as [|n IH]; intros b s Hn Hb; [lia|]. cbn [List.seq for_each].
  unfold mbind, M_bind at 1. unfold get_word at 1, mbind, M_bind, rd.
  destruct (dev_read _ _) as [v d]. cbn.
  destruct (decide _); [|by eexists]. cbn.
  apply IH; cbn; rewrite length_insert; lia.
Qed.

(** ** Receiving a packet *)

Lemma nwords_tail n : nwords (n - 4) = nwords n - 1.
Proof. unfold nwords. Z.div_mod_to_equations. lia. Qed.

Lemma nwords_bound n : 0 ≤ n ≤ MRP_MAX_PKT_SIZE → 0 ≤ nwords n ≤ 0x1000.
Proof. unfold nwords, MRP_MAX_PKT_SIZE. intros. Z.div_mod_to_equations. lia. Qed.

Lemma splice_whole w0 rest l :
  (S (length rest) ≤ length l)%nat →
  splice 1 rest (splice 0 [w0] l) = (w0 :: rest) ++ drop (S (length rest)) l.
Proof.
  intros Hl. unfold splice. cbn. f_equal. f_equal.
  destruct l as [|x l]; [cbn in Hl; lia|]. cbn. by rewrite drop_0.
Qed.

Lemma packet_words pkt : packet_ok pkt → (hdr_words ≤ length pkt ≤ 0x1000)%nat.
Proof.
  intros [_ _ [Hs1 Hs2] Hlen _].
  unfold hdr_words, sizeof_hdr, MRP_MAX_PKT_SIZE, nwords in *.
  assert (8 ≤ Z.of_nat (length pkt) ≤ 0x1000) as ?; [|lia].
  rewrite Hlen. Z.div_mod_to_equations. lia.
Qed.

(** [recv_body] when the first word of the packet is in [recvbuf] and the
    others are in the FIFO. *)
Lemma recv_body_run w0 rest (s : st) l d' :
  packet_ok (w0 :: rest) → fifo_feed rest (dev s) d' →
  Z.of_nat (length l) = 0x1000 →
  recvbuf (unit_of s) = splice 0 [w0] l →
  deci_in (unit_of s) = Some 4 →
  rlen (unit_of s) = size (hdr_of_words (w0 :: rest)) →
  recv_body s = Ret 1 (s
    <| unit_of := (unit_of s)
         <| recvbuf := (w0 :: rest) ++ drop (S (length rest)) l |>
         <| flags := Z.lor (flags (unit_of s)) MRPF_RDONE |> |>
    <| dev := dev_write RXC 1 d' |>
    <| log := log s ++ (Rd FIFOPORT <$> rest) ++ [Wr RXC 1; Wake 4] |>).
Proof.
  intros Hok Hfeed Hl Hb Hin Hr. pose proof (packet_words _ Hok) as Hpw.
  destruct Hok as [Hw Hm [Hs1 Hs2] Hlen Hck]. cbn [length] in *.
  apply Forall_cons_iff in Hw as [Hw0 Hws].
  unfold recv_body. erewrite bind_Ret by reflexivity. erewrite bind_Ret by reflexivity.
  rewrite Hin, Hr. erewrite bind_Ret.
  2:{ apply (get_fifo_run rest) with (d' := d'); [done|done|cbn; lia|..].
      - unfold sizeof_hdr, MRP_MAX_PKT_SIZE in *. lia.
      - rewrite nwords_tail. lia.
      - change (default 0 (Some 4) / 4) with 1. rewrite Hb. unfold splice.
        rewrite !length_app, length_drop. cbn. lia. }
  rewrite Hb. change (Z.to_nat (default 0 (Some 4) / 4)) with 1%nat.
  rewrite splice_whole by lia.
  erewrite bind_Ret by reflexivity. erewrite bind_Ret by reflexivity.
  erewrite bind_Ret by reflexivity. cbn -[hdr_of_words deci_cksum app].
  rewrite hdr_of_words_app, deci_cksum_app, Hck, Z.eqb_refl by (cbn; lia).
  cbn [negb]. do 2 erewrite bind_Ret by reflexivity. cbn -[hdr_of_words app].
  by rewrite <-!app_assoc.
Qed.

(** The state after the first word of a packet was read. *)
Definition first_word (w0 : Z) (d' : D) (l : list ev) (s : st) : st :=
  s <| unit_of := (unit_of s)
         <| recvbuf := splice 0 [w0] (recvbuf (unit_of s)) |>
         <| rlen := hi16 w0 |> <| deci_in := Some 4 |> |>
    <| dev := d' |> <| log := log s ++ l |>.

Lemma recv_first_word w0 fuel (s : st) d' :
  greets w0 (dev s) d' → is_word w0 →
  Z.of_nat (length (recvbuf (unit_of s))) = 0x1000 →
  has (flags (unit_of s)) MRPF_RDONE = false →
  ∃ l, wakes l = [] ∧ to_user l = [] ∧
    mrp_recv (S fuel) s =
    (if negb (lo16 w0 =? DECI_MAGIC) || (MRP_MAX_PKT_SIZE <? hi16 w0) then
       f ← rd FST;
       if negb (has f MRP_FSTF_0001) then recv_header fuel else recv_fail
     else recv_body) (first_word w0 d' l s).
Proof.
  intros (f0 & d1 & d2 & f1 & Hf0 & Hb0 & Hr0 & Hf1 & Hb1) Hw Hbuf Hrd.
  exists [Rd FST (u16 f0); Rd FIFOPORT w0; Rd FST (u16 f1)]. do 2 (split; [done|]).
  unfold mrp_recv. erewrite bind_Ret by reflexivity. rewrite Hrd.
  erewrite bind_Ret by reflexivity.
  erewrite bind_Ret by (unfold rd; cbn; rewrite Hf0; reflexivity).
  cbn [reg_wrap]. rewrite Hb0. cbn [recv_header].
  erewrite bind_Ret.
  2:{ apply (get_fifo_run [w0] 0 4) with (d' := d2); cbn; [by eexists| |lia|lia|done|].
      - by apply Forall_singleton.
      - change (0 / 4) with 0. lia. }
  erewrite bind_Ret by (unfold rd; cbn; rewrite Hf1; reflexivity).
  cbn [reg_wrap]. rewrite Hb1.
  erewrite bind_Ret by reflexivity. erewrite bind_Ret by reflexivity.
  change (Z.to_nat (0 / 4)) with 0%nat. unfold first_word.
  set (u := unit_of s) in *. set (l := splice _ [w0] _).
  cbn [unit_of dev irqs_on log recvbuf].
  change (magic (hdr_of_words l)) with (lo16 w0).
  change (size (hdr_of_words l)) with (hi16 w0).
  destruct (_ || _); f_equal; cbn; by rewrite <-!app_assoc.
Qed.

Lemma recv_to_body w0 fuel (s : st) d' :
  greets w0 (dev s) d' → is_word w0 →
  lo16 w0 = DECI_MAGIC → hi16 w0 ≤ MRP_MAX_PKT_SIZE →
  Z.of_nat (length (recvbuf (unit_of s))) = 0x1000 →
  has (flags (unit_of s)) MRPF_RDONE = false →
  ∃ l, wakes l = [] ∧ to_user l = [] ∧
    mrp_recv (S fuel) s = recv_body (first_word w0 d' l s).
Proof.
  intros Hg Hw Hm Hmax Hbuf Hrd.
  destruct (recv_first_word w0 fuel s d' Hg Hw Hbuf Hrd) as (l & H1 & H2 & ->).
  exists l. do 2 (split; [done|]). rewrite Hm, Z.eqb_refl.
  by replace (MRP_MAX_PKT_SIZE <? _) with false by (symmetry; apply Z.ltb_ge; lia).
Qed.

(** A packet that the board presents is stored whole at the start of
    [recvbuf], [rlen] is its size, [MRPF_RDONE] is set and the readers are
    woken; nothing else of the unit changes. *)
Lemma recv_packet pkt fuel (s : st) d' :
  packet_ok pkt → presents pkt (dev s) d' →
  Z.of_nat (length (recvbuf (unit_of s))) = 0x1000 →
  has (flags (unit_of s)) MRPF_RDONE = false →
  ∃ s', mrp_recv (S fuel) s = Ret 1 s' ∧
    unit_of s' = (unit_of s)
      <| recvbuf := pkt ++ drop (length pkt) (recvbuf (unit_of s)) |>
      <| rlen := size (hdr_of_words pkt) |>
      <| deci_in := Some 4 |>
      <| flags := Z.lor (flags (unit_of s)) MRPF_RDONE |> ∧
    irqs_on s' = irqs_on s ∧
    dev s' = dev_write RXC 1 d' ∧
    ∃ l, log s' = log s ++ l ∧ wakes l = [4] ∧ to_user l = [].
Proof.
  intros Hok (w0 & rest & d1 & -> & Hg & Hfeed) Hbuf Hrd.
  pose proof (pkt_words _ Hok) as [Hw0 _]%Forall_cons_iff.
  pose proof (pkt_size _ Hok) as [_ Hmax].
  destruct (recv_to_body w0 fuel s d1) as (l & Hl & Hl' & ->); [done|done| |done|done|done|].
  { exact (pkt_magic _ Hok). }
  erewrite recv_body_run; try done.
  eexists. split; [reflexivity|]. cbn -[hdr_of_words].
  split_and!; [done..|]. eexists. rewrite <-app_assoc. split; [reflexivity|].
  by rewrite !wakes_app, wakes_rd, !to_user_app, to_user_rd, Hl, Hl'.
Qed.

(** A header that announces fewer than four bytes. *)
Lemma recv_overrun fuel (s : st) d' :
  greets DECI_MAGIC (dev s) d' →
  Z.of_nat (length (recvbuf (unit_of s))) = 0x1000 →
  has (flags (unit_of s)) MRPF_RDONE = false →
  ∃ s', mrp_recv (S fuel) s = Stuck OutOfBounds s'.
Proof.
  intros Hg Hbuf Hrd.
  destruct (recv_to_body DECI_MAGIC fuel s d') as (l & _ & _ & ->);
    [done|by_compute|done|by_compute|done|done|].
  unfold recv_body. do 2 erewrite bind_Ret by reflexivity.
  set (s1 := first_word _ _ _ _).
  assert (length (recvbuf (unit_of s1)) = length (recvbuf (unit_of s))) as Hl
    by (apply length_splice; cbn; lia).
  destruct (get_words_overrun (Z.to_nat 0x3fffffff) 1 s1) as [s' Hs']; [lia|lia|].
  exists s'. unfold mbind at 1, M_bind at 1. rewrite get_fifo_unrolled.
  change (Z.to_nat (default 0 _ / 4)) with 1%nat.
  change (u32 _ / 4) with 0x3fffffff. by rewrite Hs'.
Qed.

(** ** Properties *)

(** on any board, [mrp_put_fifo] of [nbytes] bytes pushes exactly the
    first [nbytes / 4] words of the source, rounded up, into the FIFO, in
    order, although its transfer is unrolled eight times; it then starts the
    transmission, enables the completion interrupt, marks the unit busy and
    returns the number of words. *)
Theorem put_fifo_sends (src : list Z) (nbytes : Z) (s : st) :
  0 ≤ nbytes < 2 ^ 31 - 3 → nwords nbytes ≤ Z.of_nat (length src) →
  ∃ s' v,
    mrp_put_fifo src nbytes s = Ret (nwords nbytes) s' ∧
    unit_of s' = (unit_of s) <| flags := Z.lor (flags (unit_of s)) MRPF_SBUSY |> ∧
    irqs_on s' = irqs_on s ∧
    log s' = log s ++ ((λ w, Wr FIFOPORT (u32 w)) <$> take (Z.to_nat (nwords nbytes)) src)
                   ++ [Wr TXC 1; Rd IER v; Wr IER (u16 (Z.lor v MRP_STATF_WAKE))].
Proof. apply put_fifo_run. Qed.

(** a packet that the board presents, of any size from a bare header to
    [MRP_MAX_PKT_SIZE], is stored whole at the start of [recvbuf]: [mrp_recv]
    returns 1, [rlen] is the packet's size, [MRPF_RDONE] is set, the reader is
    woken once, the transfer is acknowledged to the board, and nothing else of
    the unit changes. *)
Theorem recv_stores_packet (pkt : list Z) (fuel : nat) (s : st) (d' : D) :
  packet_ok pkt → presents pkt (dev s) d' →
  Z.of_nat (length (recvbuf (unit_of s))) = 0x1000 →
  has (flags (unit_of s)) MRPF_RDONE = false →
  ∃ s', mrp_recv (S fuel) s = Ret 1 s' ∧
    unit_of s' = (unit_of s)
      <| recvbuf := pkt ++ drop (length pkt) (recvbuf (unit_of s)) |>
      <| rlen := size (hdr_of_words pkt) |>
      <| deci_in := Some 4 |>
      <| flags := Z.lor (flags (unit_of s)) MRPF_RDONE |> ∧
    irqs_on s' = irqs_on s ∧
    dev s' = dev_write RXC 1 d' ∧
    ∃ l, log s' = log s ++ l ∧ wakes l = [4] ∧ to_user l = [].
Proof. apply recv_packet. Qed.

(** a header with the right magic number and size 0 makes [mrp_recv]
    write past the end of [recvbuf] on any board: [rlen - 4] wraps around to
    a transfer of [0x3fffffff] words. *)
Theorem recv_size_zero_overruns (fuel : nat) (s : st) (d' : D) :
  greets DECI_MAGIC (dev s) d' →
  Z.of_nat (length (recvbuf (unit_of s))) = 0x1000 →
  has (flags (unit_of s)) MRPF_RDONE = false →
  ∃ s', mrp_recv (S fuel) s = Stuck OutOfBounds s'.
Proof. apply recv_overrun. Qed.

End Facts.

(** A unit as [mrp_init] leaves it, with both buffers allocated. *)
Definition idle_unit : mrp_unit := zero_unit
  <| sendbuf := replicate (Z.to_nat 0x1000) 0 |>
  <| recvbuf := replicate (Z.to_nat 0x1000) 0 |>
  <| deci_out := Some 0 |>.

(** A packet of one header and one word, the way [seal] completes it. *)
Definition sample_pkt : list Z := words_of_hdr (seal sample_hdr) ++ [0x2a].

(** The simulated board with the words [rx] waiting and interrupts [ist]
    pending and enabled. *)
Definition sim_board (rx : list Z) (ist : Z) : simdev :=
  {| sim_regs := λ r, match r with
                      | IST | IER => ist
                      | IDK4C => IDK4CF_0004
                      | _ => 0
                      end;
     sim_rx := rx; sim_tx := [] |}.

Definition sim_state (u : mrp_unit) (rx : list Z) (ist : Z) : io simdev mrp_unit :=
  MkIo u (sim_board rx ist) true [].

Lemma sample_pkt_ok : packet_ok sample_pkt.
Proof. split; [by_compute|by_compute|by_compute|by_compute|by_compute]. Qed.

Lemma put_fifo_sends_witness :
  ∃ s' v,
    mrp_put_fifo (List.seq 1 12 ≫= λ n, [Z.of_nat n]) 42 (sim_state idle_unit [] 0) =
      Ret 11 s' ∧
    unit_of s' = idle_unit <| flags := MRPF_SBUSY |> ∧
    irqs_on s' = true ∧
    log s' = ((λ w, Wr FIFOPORT (u32 w)) <$> [1; 2; 3; 4; 5; 6; 7; 8; 9; 10; 11])
                   ++ [Wr TXC 1; Rd IER v; Wr IER (u16 (Z.lor v MRP_STATF_WAKE))].
Proof.
  destruct (put_fifo_sends (List.seq 1 12 ≫= λ n, [Z.of_nat n]) 42 (sim_state idle_unit [] 0))
    as (s' & v & H1 & H2 & H3 & H4); [by_compute|by_compute|].
  exists s', v. split_and!; [exact H1|exact H2|exact H3|exact H4].
Defined.

Lemma recv_stores_packet_witness :
  ∃ s', mrp_recv 1 (sim_state idle_unit (sample_pkt ++ [7]) 0) = Ret 1 s' ∧
    unit_of s' = idle_unit
      <| recvbuf := sample_pkt ++ drop 9 (recvbuf idle_unit) |>
      <| rlen := 0x24 |> <| deci_in := Some 4 |> <| flags := MRPF_RDONE |> ∧
    irqs_on s' = true ∧
    dev s' = dev_write RXC 1 (sim_board [7] 0) ∧
    ∃ l, log s' = l ∧ wakes l = [4] ∧ to_user l = [].
Proof.
  apply (recv_stores_packet sample_pkt 0 (sim_state idle_unit (sample_pkt ++ [7]) 0)
    (sim_board [7] 0)).
  - exact sample_pkt_ok.
  - do 3 eexists. split; [reflexivity|]. split.
    + do 4 eexists. split_and!; reflexivity.
    + repeat (eexists; split; [reflexivity|]). reflexivity.
  - by_compute.
  - reflexivity.
Defined.

Lemma recv_size_zero_overruns_witness :
  ∃ s', mrp_recv 1 (sim_state idle_unit [DECI_MAGIC; 1; 2; 3] 0) = Stuck OutOfBounds s'.
Proof.
  eapply (recv_size_zero_overruns 0 (sim_state idle_unit [DECI_MAGIC; 1; 2; 3] 0)).
  - do 4 eexists. split_and!; reflexivity.
  - by_compute.
  - reflexivity.
Defined.
