(* ===== verification/MrpInv.v ===== *)
(** * MrpInv: the invariant of a DECI1 unit

    [unit_inv] is what every routine of the driver relies on and keeps: the
    buffers have their size, the rings are well formed, the packets kept for
    the boot protocol are as long as recorded and, when [MRPF_RDONE] is set,
    the receive buffer holds a packet with a valid header whose size is
    [rlen].  It is kept by the send, reset, boot and control-port routines
    and by the interrupt handler on any device. *)

From S2P Require Import Prelude Ring Deci MrpHw Mrp MrpFacts.

(** ** The invariant *)

(** [recvbuf] holds a packet of [rlen] bytes. *)
Record held_packet (u : mrp_unit) : Prop := {
  held_magic : magic (hdr_of_words (recvbuf u)) = DECI_MAGIC;
  held_size : size (hdr_of_words (recvbuf u)) = rlen u;
  held_max : rlen u ≤ MRP_MAX_PKT_SIZE;
  held_cksum : cksum (hdr_of_words (recvbuf u)) = deci_cksum (recvbuf u);
}.

(** A packet kept for the boot protocol. *)
Definition boot_ok (b : option (list Z)) (n : Z) : Prop :=
  match b with
  | Some ws => 0 ≤ n ≤ MRP_MAX_PKT_SIZE ∧ nwords n ≤ Z.of_nat (length ws)
  | None => True
  end.

Record unit_inv (u : mrp_unit) : Prop := {
  inv_flags : 0 ≤ flags u < 2 ^ 16;
  inv_cpbusy : has (flags u) MRPF_CPBUSY = false;
  inv_recvbuf : Z.of_nat (length (recvbuf u)) = 0x1000;
  inv_recvwords : Forall is_word (recvbuf u);
  inv_sendbuf : Z.of_nat (length (sendbuf u)) = 0x1000;
  inv_slen : 0 ≤ slen u ≤ MRP_MAX_PKT_SIZE;
  inv_out : 0 < slen u → deci_out u = Some 0;
  inv_rlen : 0 ≤ rlen u < 2 ^ 16;
  inv_packet : has (flags u) MRPF_RDONE = true → held_packet u;
  inv_sendring : ring_ok (sendring u);
  inv_recvring : ring_ok (recvring u);
  inv_buf38 : boot_ok (buf38 u) (nbytes38 u);
  inv_buf40 : boot_ok (buf40 u) (nbytes40 u);
}.

(** Nothing gets stuck. *)
Definition total : stuck → Prop := λ _, False.

(** The only way to get stuck is a board that floods [mrp_recv]. *)
Definition flooded : stuck → Prop := λ w, w = OutOfBounds ∨ w = OutOfFuel.

(** ** Tactics *)

Lemma flags_lor f m : 0 ≤ f < 2 ^ 16 → 0 ≤ m < 2 ^ 16 → 0 ≤ Z.lor f m < 2 ^ 16.
Proof. apply lor_range. lia. Qed.

Lemma flags_clr f m : 0 ≤ f < 2 ^ 16 → 0 ≤ clr f m < 2 ^ 16.
Proof. apply land_range. lia. Qed.

Lemma held_packet_ext u u' :
  recvbuf u = recvbuf u' → rlen u = rlen u' → held_packet u → held_packet u'.
Proof. intros Hb Hl []. rewrite Hb, Hl in *. by constructor. Qed.

Create HintDb mrp.
#[export] Hint Resolve flags_lor flags_clr u16_range ring_clear_ok : mrp.
#[export] Hint Extern 1 (0 ≤ ?m < 2 ^ 16) => (is_const m; split; vm_compute; congruence) : mrp.

(** The invariant of an updated unit, from the one of the unit before. *)
Ltac solve_inv :=
  match goal with
  | Hi : unit_inv ?u |- unit_inv _ =>
      let H1 := fresh in
      pose proof Hi as H1; destruct H1; constructor; cbn -[hdr_of_words deci_cksum] in *;
      try solve [assumption | auto with mrp | lia
                | flag_simpl;
                  first [discriminate | congruence
                        | intros; eapply held_packet_ext; [| |by eauto]; reflexivity]]
  end.

Section Inv.
Context {D : Type} `{MrpDevice D}.

Local Abbreviation st := (io D mrp_unit).

(** ** Sending *)

Lemma uwp_put_fifo src n Q E u :
  0 ≤ n ≤ MRP_MAX_PKT_SIZE → nwords n ≤ Z.of_nat (length src) →
  Q (nwords n) (u <| flags := Z.lor (flags u) MRPF_SBUSY |>) →
  uwp (mrp_put_fifo (D:=D) src n) Q E u.
Proof.
  intros Hn Hl HQ s <-. unfold MRP_MAX_PKT_SIZE in Hn.
  destruct (put_fifo_run src n s) as (s' & v & Hr & Hu & _); [lia|done|].
  unfold wp. rewrite Hr. by rewrite Hu.
Qed.

Lemma uwp_send Q E u :
  unit_inv u →
  (∀ r, Q r (u <| flags := Z.lor (flags u) MRPF_SBUSY |>)) →
  uwp (mrp_send (D:=D)) Q E u.
Proof.
  intros Hi HQ. unfold mrp_send. usteps. destruct Hi.
  apply uwp_put_fifo; [done| |done].
  destruct (decide (0 < slen u)) as [Hs|Hs].
  - rewrite inv_out0 by done. cbn. rewrite drop_0, inv_sendbuf0.
    apply nwords_bound. lia.
  - assert (slen u = 0) as -> by lia. change (nwords 0) with 0. lia.
Qed.

(** ** Reset and boot protocol *)

(** The truncations to [unsigned short] in [mrp_reset] lose no flag. *)
Lemma reset_flags f :
  0 ≤ f < 2 ^ 16 →
  u16 (clr (u16 (clr (u16 (clr (u16 (Z.lor (u16 f) MRPF_RESET)) MRPF_SBUSY))
    MRPF_RDONE)) MRPF_CPBUSY) =
  clr (clr (clr (Z.lor f MRPF_RESET) MRPF_SBUSY) MRPF_RDONE) MRPF_CPBUSY.
Proof.
  intros Hf. rewrite (u16_id f) by done. by repeat (rewrite u16_id by auto 6 with mrp).
Qed.

(** What [mrp_reset] makes of a unit. *)
Definition reset_unit (u : mrp_unit) : mrp_unit :=
  u <| flags := clr (clr (clr (Z.lor (flags u) MRPF_RESET) MRPF_SBUSY) MRPF_RDONE) MRPF_CPBUSY |>
    <| rlen := 0 |> <| slen := 0 |>
    <| sendring := ring_clear (sendring u) |> <| recvring := ring_clear (recvring u) |>.

Lemma reset_unit_inv u : unit_inv u → unit_inv (reset_unit u).
Proof.
  intros Hi. unfold reset_unit. solve_inv; try (by apply ring_clear_ok).
  all: unfold MRP_MAX_PKT_SIZE; lia.
Qed.

Lemma uwp_reset Q E u :
  0 ≤ flags u < 2 ^ 16 → Q 0 (reset_unit u) → uwp (mrp_reset (D:=D)) Q E u.
Proof.
  intros Hf HQ. unfold mrp_reset. usteps. cbn -[u16].
  rewrite reset_flags by done. exact HQ.
Qed.

Lemma reset_returns : returns (mrp_reset (D:=D)).
Proof. unfold mrp_reset, save_flags, cli, restore_flags, udelay, wake_up. returns. Qed.

Lemma boot_unit_inv u :
  unit_inv u →
  unit_inv (u <| flags := clr (flags u) (Z.lor MRPF_SBUSY MRPF_RDONE) |>
              <| rlen := 0 |> <| slen := 0 |>).
Proof. intros Hi. solve_inv. all: unfold MRP_MAX_PKT_SIZE; lia. Qed.

Lemma sbusy_inv u :
  unit_inv u → unit_inv (u <| flags := Z.lor (flags u) MRPF_SBUSY |>).
Proof. intros Hi. solve_inv. Qed.

Lemma uwp_bootp u :
  unit_inv u → uwp (mrp_bootp (D:=D)) (λ r u', r = 0 ∧ unit_inv u') total u.
Proof.
  intros Hi. pose proof (inv_buf38 _ Hi) as H38. pose proof (inv_buf40 _ Hi) as H40.
  apply boot_unit_inv in Hi. unfold mrp_bootp, clear_flag. usteps; try done.
  all: cbn in *; repeat match goal with
    | E : buf38 _ = Some _ |- _ => rewrite E in H38
    | E : buf40 _ = Some _ |- _ => rewrite E in H40
    end; apply uwp_put_fifo; [first [apply H38 | apply H40]..|];
    usteps; split; [done|];
    by apply sbusy_inv in Hi.
Qed.

(** ** The control port *)

Lemma uwp_cpr u :
  unit_inv u → uwp (mrp_cpr (D:=D)) (λ _ u', unit_inv u') total u.
Proof.
  intros Hi. unfold mrp_cpr. usteps; [|done]. to_prop.
  solve_inv. apply ring_put_spec; [done|]. unfold RINGBUF_SIZE. lia.
Qed.

(** [MRPF_CPBUSY] is never set: only [mrp_cps] would set it, if it was set. *)
Lemma cps_idle (s : st) : unit_inv (unit_of s) → mrp_cps s = Ret tt s.
Proof.
  intros Hi. unfold mrp_cps. erewrite bind_Ret by reflexivity.
  by rewrite (inv_cpbusy _ Hi).
Qed.

Lemma uwp_cps u :
  unit_inv u → uwp (mrp_cps (D:=D)) (λ _ u', unit_inv u') total u.
Proof. intros Hi s <-. unfold wp. by rewrite cps_idle. Qed.

(** ** Receiving *)

(** [b'] is [b] but for words from [k] on. *)
Record rewritten (k : nat) (b b' : list Z) : Prop := {
  rw_length : length b' = length b;
  rw_words : Forall is_word b';
  rw_before : ∀ i, (i < k)%nat → b' !! i = b !! i;
}.

Lemma uwp_get_word k j u b0 (E : stuck → Prop) :
  (k ≤ j)%nat → rewritten k b0 (recvbuf u) → E OutOfBounds →
  uwp (get_word (D:=D) j)
    (λ _ u', ∃ b, u' = u <| recvbuf := b |> ∧ rewritten k b0 b) E u.
Proof.
  intros Hj [Hl Hw Hb] HE. unfold get_word. usteps; [|done].
  eexists. split; [reflexivity|]. split.
  - by rewrite length_insert.
  - by apply Forall_insert.
  - intros i Hi. rewrite list_lookup_insert_ne by lia. by apply Hb.
Qed.

Lemma uwp_get_fifo off n u (E : stuck → Prop) :
  Forall is_word (recvbuf u) → E OutOfBounds →
  uwp (mrp_get_fifo (D:=D) off n)
    (λ _ u', ∃ b, u' = u <| recvbuf := b |> ∧
       rewritten (Z.to_nat (Z.shiftr off 2)) (recvbuf u) b) E u.
Proof.
  intros Hw HE. set (k := Z.to_nat (Z.shiftr off 2)).
  set (I := λ u', ∃ b, u' = u <| recvbuf := b |> ∧ rewritten k (recvbuf u) b).
  assert (∀ j u', (k ≤ j)%nat → I u' → uwp (get_word (D:=D) j) (λ _ u'', I u'') E u')
    as Hstep.
  { intros j u' Hj (b & -> & Hb). eapply uwp_mono; [| |by eapply uwp_get_word]; [|done].
    cbn. intros _ u'' (b'' & -> & Hb'). by exists b''. }
  unfold mrp_get_fifo. apply uwp_bind. fold k.
  eapply uwp_mono; [| |apply (uwp_for_each I)]; [|done| |].
  - intros [] u' HI. apply (uwp_for_each I); [|done]. intros l u'' _ HI'.
    apply (uwp_for_each I); [|done]. intros. apply Hstep; [lia|done].
  - intros. apply Hstep; [lia|done].
  - exists (recvbuf u). split; [by destruct u|]. by split.
Qed.

(** While [mrp_recv] looks for a header. *)
Record scanning (u : mrp_unit) : Prop := {
  scan_inv : unit_inv u;
  scan_idle : has (flags u) MRPF_RDONE = false;
  scan_in : ∃ p, deci_in u = Some p ∧ 0 ≤ p;
}.

Lemma scanning_store u k b :
  scanning u → rewritten k (recvbuf u) b → scanning (u <| recvbuf := b |>).
Proof.
  intros [Hi Hd Hp] [Hl Hw _]. split; [|done|done].
  destruct Hi. constructor; cbn; try assumption; [lia|]. by rewrite Hd.
Qed.

Lemma scanning_header u :
  scanning u →
  scanning (u <| rlen := size (hdr_of_words (recvbuf u)) |>
              <| deci_in := (λ p, p + 4) <$> deci_in u |>).
Proof.
  intros [Hi Hd (p & Hp & ?)]. rewrite Hp. split; [|done|cbn; eexists; split; [done|lia]].
  pose proof (ok_size _ (hdr_of_words_ok _ (inv_recvwords _ Hi))).
  destruct Hi. constructor; cbn -[hdr_of_words]; try assumption. by rewrite Hd.
Qed.

Lemma scanning_done u :
  scanning u →
  magic (hdr_of_words (recvbuf u)) = DECI_MAGIC →
  size (hdr_of_words (recvbuf u)) = rlen u → rlen u ≤ MRP_MAX_PKT_SIZE →
  cksum (hdr_of_words (recvbuf u)) = deci_cksum (recvbuf u) →
  unit_inv (u <| flags := Z.lor (flags u) MRPF_RDONE |>).
Proof.
  intros [Hi Hd _] Hm Hs Hmax Hck. by solve_inv.
Qed.

(** Words after the first do not change where a packet starts. *)
Lemma rewritten_head k b b' :
  rewritten k b b' → (0 < k)%nat →
  magic (hdr_of_words b') = magic (hdr_of_words b) ∧
  size (hdr_of_words b') = size (hdr_of_words b).
Proof.
  intros [_ _ Hb] Hk. unfold hdr_of_words, word_at. cbn. by rewrite Hb.
Qed.

Lemma uwp_recv_fail u : unit_inv u → uwp (recv_fail (D:=D)) (λ _ u', unit_inv u') flooded u.
Proof. intros Hi. unfold recv_fail. by usteps. Qed.

Lemma uwp_recv_body u p :
  scanning u → deci_in u = Some p → 4 ≤ p →
  magic (hdr_of_words (recvbuf u)) = DECI_MAGIC →
  size (hdr_of_words (recvbuf u)) = rlen u → rlen u ≤ MRP_MAX_PKT_SIZE →
  uwp (recv_body (D:=D)) (λ _ u', unit_inv u') flooded u.
Proof.
  intros Hu Hp Hge Hm Hs Hmax. unfold recv_body, recv_hdr, set_flag. usteps. rewrite Hp.
  eapply uwp_mono; [| |apply (uwp_get_fifo _ _ _ flooded); [apply Hu|by left]]; [|done].
  intros _ u1 (b & -> & Hb).
  destruct (rewritten_head _ _ _ Hb) as [Hm' Hs'].
  { cbn. rewrite Z.shiftr_div_pow2 by lia. change (2 ^ 2) with 4.
    assert (1 ≤ p / 4) by (apply Z.div_le_lower_bound; lia). lia. }
  apply (scanning_store _ _ _ Hu) in Hb. usteps; [apply Hb|]. to_prop.
  apply scanning_done; cbn -[hdr_of_words deci_cksum] in *; congruence.
Qed.

Lemma uwp_recv_header fuel : ∀ u,
  scanning u → uwp (recv_header (D:=D) fuel) (λ _ u', unit_inv u') flooded u.
Proof.
  induction fuel as [|fuel IH]; intros u Hu; cbn [recv_header]; [apply uwp_halt; by right|].
  apply uwp_bind. eapply uwp_mono; [| |apply (uwp_get_fifo _ _ _ flooded); [apply Hu|by left]]; [|done].
  intros _ u1 (b & -> & Hb). apply (scanning_store _ _ _ Hu) in Hb.
  unfold recv_hdr, printk_rd. change (1 <=? mrp_debug) with true. cbn [when].
  set (u2 := u <| recvbuf := b |>) in *. usteps.
  - by apply uwp_recv_fail, Hb.
  - by apply IH, scanning_header.
  - by apply uwp_recv_fail, scanning_header.
  - apply scanning_header in Hb as Hb'. to_prop.
    destruct (scan_in _ Hb) as (p & Hp & ?).
    apply (uwp_recv_body _ (p + 4)); [done| |lia|done|done|done].
    by apply (f_equal (fmap (λ p, p + 4))) in Hp.
Qed.

Lemma uwp_recv fuel u :
  unit_inv u → uwp (mrp_recv (D:=D) fuel) (λ _ u', unit_inv u') flooded u.
Proof.
  intros Hi. unfold mrp_recv, printk_rd. change (1 <=? mrp_debug) with true. cbn [when].
  assert (unit_inv (u <| deci_in := Some 0 |>)) as Hi' by solve_inv.
  usteps; [done|by apply uwp_recv_fail|].
  apply uwp_recv_header. split; [done|done|]. exists 0. split; [done|lia].
Qed.

(** ** The interrupt handler *)

Lemma uwp_trace Q E u :
  Q tt u → uwp (D:=D) (when (2 <=? mrp_debug) (mrp_stat_decode 9 ;; mrp_dump_regs)) Q E u.
Proof.
  intros HQ. change (2 <=? mrp_debug) with true. cbn [when].
  unfold mrp_stat_decode, mrp_dump_regs. change (9 <? 9) with false.
  change (3 <=? mrp_debug) with true. cbn [when]. usteps.
  eapply uwp_mono; [| |apply (uwp_for_each (λ u', u' = u))]; cbn; [|done| |done].
  - by intros [] ? ->.
  - intros r ? _ ->. by usteps.
Qed.

Lemma sbusy_clear_inv u :
  unit_inv u → unit_inv (u <| flags := clr (flags u) MRPF_SBUSY |>).
Proof. intros Hi. solve_inv. Qed.

Lemma cpbusy_clear_inv u :
  unit_inv u → unit_inv (u <| flags := clr (flags u) MRPF_CPBUSY |>).
Proof. intros Hi. solve_inv. Qed.

Lemma uwp_total {A} (m : M st A) (Q : A → mrp_unit → Prop) (E : stuck → Prop) u :
  uwp m Q total u → uwp m Q E u.
Proof. by apply uwp_mono. Qed.

Lemma uwp_interrupt fuel Q E u :
  Q tt u →
  (∀ stat, uwp (interrupt_dispatch (D:=D) fuel stat) Q E (u <| nintr := s32 (nintr u + 1) |>)) →
  uwp (mrp_interrupt (D:=D) fuel) Q E u.
Proof.
  intros HQ Hd. unfold mrp_interrupt. do 7 (ustep; cbv beta); [by ustep|].
  do 6 (ustep; cbv beta). apply uwp_bind, uwp_trace, uwp_bind.
  eapply uwp_mono; [| |apply Hd]; [|done]. intros [] u' Hu. by ustep.
Qed.

Lemma uwp_dispatch fuel stat u :
  unit_inv u → uwp (interrupt_dispatch (D:=D) fuel stat) (λ _ u', unit_inv u') flooded u.
Proof.
  intros Hi. unfold interrupt_dispatch, clear_flag.
  destruct (negb (has stat MRP_STATF_RECV) && negb (has stat MRP_STATF_WAKE)).
  - usteps; [..|assumption|assumption].
    + apply uwp_reset; [apply Hi|]. usteps. by apply reset_unit_inv.
    + eapply uwp_mono; [| |apply uwp_total, uwp_bootp, Hi]; [|done].
      intros ? ? [_ ?]. by ustep.
    + apply uwp_total, uwp_cpr, Hi.
    + eapply uwp_mono; [| |apply uwp_total, uwp_cps, cpbusy_clear_inv, Hi]; [|done].
      intros. by ustep.
  - apply uwp_bind.
    apply uwp_mono with (Q := λ _ u', unit_inv u') (E := flooded); [|done|].
    + intros _ u' Hi'. apply uwp_when; [intros _|done]. do 2 ustep.
      ustep. eapply uwp_mono; [| |apply uwp_recv, Hi']; [|done]. intros. by ustep.
    + apply uwp_when; [intros _|done]. usteps. by apply sbusy_clear_inv.
Qed.

(** ** Interrupts off and on *)

(** Whatever happens before, [restore_flags] has the last word. *)
Lemma wp_any {S A} (m : M S A) (Q : A → S → Prop) (s : S) :
  (∀ a s', Q a s') → wp m Q (λ _ _, True) s.
Proof. intros HQ. unfold wp. by destruct (m s). Qed.

Lemma interrupt_irqs fuel (s : st) :
  wp (mrp_interrupt fuel) (λ _ s', irqs_on s' = irqs_on s) (λ _ _, True) s.
Proof.
  unfold mrp_interrupt. apply wp_bind. cbn [save_flags]. unfold save_flags.
  apply wp_gets. do 2 (apply wp_bind, wp_any; intros ? ?).
  destruct (negb _); [done|].
  do 5 (apply wp_bind, wp_any; intros ? ?). done.
Qed.

(** ** What a routine leaves alone *)

(** [m] does not change what [f] observes of the unit. *)
Definition keeps {A B} (f : mrp_unit → B) (m : M st A) : Prop :=
  ∀ u, uwp m (λ _ u', f u' = f u) (λ _, True) u.

Section Keeps.
Context {B : Type} (f : mrp_unit → B).

Lemma keeps_bind {A A'} (m : M st A) (k : A → M st A') :
  keeps f m → (∀ a, keeps f (k a)) → keeps f (m ≫= k).
Proof.
  intros Hm Hk u. apply uwp_bind. eapply uwp_mono; [| |apply Hm]; [|done].
  intros a u' Hu. eapply uwp_mono; [| |apply Hk]; [|done]. cbn. congruence.
Qed.

Lemma keeps_modu g : (∀ u, f (g u) = f u) → keeps f (modu g).
Proof. intros Hg u. apply uwp_modu, Hg. Qed.

Lemma keeps_when b m : keeps f m → keeps f (when b m).
Proof. intros Hm. destruct b; [done|]. intros u. by apply uwp_ret. Qed.

Lemma keeps_for_each {C} (l : list C) g : (∀ x, keeps f (g x)) → keeps f (for_each l g).
Proof.
  intros Hg u. apply (uwp_for_each (λ u', f u' = f u)); [|done].
  intros x u' _ Hu. eapply uwp_mono; [| |apply Hg]; [|done]. cbn. congruence.
Qed.

End Keeps.

(** Decompose a [keeps] goal along the code. *)
Ltac keeps :=
  repeat first
    [ assumption
    | apply keeps_bind; [|intros ?]
    | apply keeps_when
    | apply keeps_for_each; intros ?
    | apply keeps_modu; intros ?; reflexivity
    | match goal with
      | |- keeps _ (match ?x with _ => _ end) => destruct x
      | |- keeps _ _ => solve [intros u; usteps; done]
      end ].

Lemma recv_keeps_sendring fuel : keeps sendring (mrp_recv fuel).
Proof.
  assert (keeps sendring (recv_header fuel)).
  { induction fuel as [|fuel IH]; cbn [recv_header];
      unfold recv_body, recv_hdr, recv_fail, printk_rd, mrp_get_fifo, get_word, set_flag; keeps. }
  unfold mrp_recv, recv_fail, printk_rd. keeps.
Qed.

(** [MRPF_CPBUSY] is off when [mrp_interrupt] calls [mrp_cps]. *)
Lemma cps_after_clear_keeps_sendring :
  keeps sendring (clear_flag MRPF_CPBUSY ;; mrp_cps ;; wake_up 2).
Proof.
  intros u. unfold mrp_cps, clear_flag. do 4 (ustep; cbv beta). ustep.
  cbn -[has clr]. rewrite has_clr, andb_false_r by one_bit. by usteps.
Qed.

Lemma dispatch_sendring fuel stat u :
  uwp (interrupt_dispatch (D:=D) fuel stat)
    (λ _ u', sendring u' = sendring u ∨ sendring u' = ring_clear (sendring u))
    (λ _, True) u.
Proof.
  destruct (decide (has stat MRP_STATF_RESET = true ∧ has stat MRP_STATF_RECV = false ∧
                    has stat MRP_STATF_WAKE = false)) as [(E1 & E2 & E3)|Hn].
  - unfold interrupt_dispatch, mrp_reset. rewrite E1, E2, E3. cbn [negb andb].
    usteps. by right.
  - apply uwp_mono with (Q := λ _ u', sendring u' = sendring u) (E := λ _, True);
      [by left|done|]. revert u.
    enough (keeps sendring (interrupt_dispatch fuel stat)) by done.
    unfold interrupt_dispatch.
    pose proof (recv_keeps_sendring fuel) as Hr.
    pose proof cps_after_clear_keeps_sendring as Hc.
    destruct (has stat MRP_STATF_RESET), (has stat MRP_STATF_RECV),
      (has stat MRP_STATF_WAKE); try (exfalso; tauto); cbn [negb andb when];
      unfold mrp_bootp, mrp_cpr, mrp_put_fifo, put_word, set_flag; keeps.
Qed.

(** ** Boards with a receive FIFO *)

(** A board whose FIFO holds [level] words, of which each read of the port
    takes one, and whose status bit 0 says that it is empty. *)
Class FifoBoard := {
  level : D → nat;
  level_port d : level (dev_read FIFOPORT d).2 = pred (level d);
  level_fst d : level (dev_read FST d).2 = level d;
  fst_empty d : has (u16 (dev_read FST d).1) MRP_FSTF_0001 = true ↔ level d = 0%nat;
}.

Section Fifo.
Context `{FifoBoard}.

Lemma wp_rd_fst Q E (s : st) :
  (∀ v s', unit_of s' = unit_of s → level (dev s') = level (dev s) →
     (has v MRP_FSTF_0001 = true ↔ level (dev s) = 0%nat) → Q v s') →
  wp (rd FST) Q E s.
Proof.
  intros HQ. unfold wp, rd. pose proof (level_fst (dev s)) as H1.
  pose proof (fst_empty (dev s)) as H2. destruct (dev_read FST (dev s)) as [v d].
  by apply HQ.
Qed.

Lemma wp_get_header_word Q E (s : st) :
  (∀ s', level (dev s') = pred (level (dev s)) → Q tt s') →
  (∀ s', E OutOfBounds s') →
  wp (mrp_get_fifo 0 4) Q E s.
Proof.
  intros HQ HE. unfold wp. rewrite get_fifo_unrolled.
  change (Z.to_nat (u32 (4 + 3) / 4)) with 1%nat. cbn [List.seq for_each].
  unfold get_word, mbind, M_bind, rd.
  pose proof (level_port (dev s)) as Hl. destruct (dev_read FIFOPORT (dev s)) as [w d].
  cbn. destruct (decide _); [by apply HQ|apply HE].
Qed.

(** A transfer returns or runs off the buffer. *)
Lemma uwp_get_fifo_returns off n u :
  uwp (mrp_get_fifo (D:=D) off n) (λ _ _, True) (λ w, w = OutOfBounds) u.
Proof.
  intros s Hs. unfold wp. rewrite get_fifo_unrolled. revert s Hs.
  refine (uwp_for_each (λ _, True) _ get_word (λ w, w = OutOfBounds) u _ I).
  intros j u' _ _. unfold get_word. by usteps.
Qed.

Lemma recv_body_returns u :
  uwp (recv_body (D:=D)) (λ _ _, True) (λ w, w = OutOfBounds) u.
Proof.
  unfold recv_body, recv_hdr, set_flag. usteps.
  eapply uwp_mono; [| |apply uwp_get_fifo_returns]; [|done].
  intros _ u' _. by usteps.
Qed.

Lemma recv_fail_returns E u : uwp (recv_fail (D:=D)) (λ _ _, True) E u.
Proof. unfold recv_fail. by usteps. Qed.

Lemma fifo_error_returns E u :
  uwp (D:=D) (printk_rd 1 FST ;; recv_fail) (λ _ _, True) E u.
Proof.
  unfold printk_rd. change (1 <=? mrp_debug) with true. cbn [when]. usteps.
  apply recv_fail_returns.
Qed.

Lemma recv_header_terminates fuel : ∀ s : st,
  (0 < level (dev s) ≤ fuel)%nat →
  wp (recv_header fuel) (λ _ _, True) (λ w _, w = OutOfBounds) s.
Proof.
  induction fuel as [|fuel IH]; intros s Hf; [lia|]. cbn [recv_header].
  apply wp_bind, wp_get_header_word; [|done]. intros s1 Hl1.
  apply wp_bind, wp_rd_fst. intros f s2 _ Hl2 _.
  destruct (has f MRP_FSTF_0010).
  { exact (fifo_error_returns (λ w, w = OutOfBounds) _ s2 eq_refl). }
  apply wp_bind. cbn -[recv_header]. apply wp_bind. cbn -[recv_header].
  destruct (_ || _).
  - apply wp_bind, wp_rd_fst. intros g s3 _ Hl3 He. cbn in Hl3, He.
    destruct (has g MRP_FSTF_0001) eqn:Eg; cbn [negb].
    + exact (recv_fail_returns (λ w, w = OutOfBounds) _ s3 eq_refl).
    + apply IH. assert (level (dev s2) ≠ 0%nat) by (intros E; apply He in E; congruence). lia.
  - exact (recv_body_returns _ _ eq_refl).
Qed.

Lemma recv_terminates fuel (s : st) :
  (level (dev s) ≤ fuel)%nat →
  wp (mrp_recv fuel) (λ _ _, True) (λ w _, w = OutOfBounds) s.
Proof.
  intros Hf. unfold mrp_recv. apply wp_bind. cbn -[recv_header].
  destruct (has _ MRPF_RDONE); [done|]. apply wp_bind. cbn -[recv_header].
  apply wp_bind, wp_rd_fst. intros f s1 _ Hl He. cbn in Hl, He.
  destruct (has f MRP_FSTF_0001) eqn:Ef.
  - exact (fifo_error_returns (λ w, w = OutOfBounds) _ s1 eq_refl).
  - apply recv_header_terminates.
    assert (level (dev s) ≠ 0%nat) by (intros E; apply He in E; congruence). lia.
Qed.

(** ** Properties *)

(** C35: the search for a packet header terminates on every board with a
    receive FIFO: with as many rounds as there are words in the FIFO,
    [mrp_recv] never runs out of rounds, whatever the words are. *)
Theorem recv_scan_terminates (fuel : nat) (s : st) :
  (level (dev s) ≤ fuel)%nat →
  ∀ s', mrp_recv fuel s ≠ Stuck OutOfFuel s'.
Proof.
  intros Hf s' Hr. pose proof (recv_terminates fuel s Hf) as Hw.
  unfold wp in Hw. by rewrite Hr in Hw.
Qed.

End Fifo.

(** the interrupt handler keeps the unit's invariant and the processor's
    interrupt flag on every board, whatever its registers and its FIFO
    return, in every branch: spurious, reset, boot request, control port,
    transmission done and packet received.  The only way not to return is a
    board that sends more than the buffer holds or never stops sending. *)
Theorem interrupt_keeps_inv (fuel : nat) (s : st) :
  unit_inv (unit_of s) →
  match mrp_interrupt fuel s with
  | Ret _ s' => unit_inv (unit_of s') ∧ irqs_on s' = irqs_on s
  | Stuck w _ => w = OutOfBounds ∨ w = OutOfFuel
  end.
Proof.
  intros Hi. pose proof (interrupt_irqs fuel s) as H2.
  assert (H1 : uwp (mrp_interrupt fuel) (λ _ u', unit_inv u') flooded (unit_of s)).
  { apply uwp_interrupt; [done|]. intros stat. apply uwp_dispatch. solve_inv. }
  specialize (H1 s eq_refl). unfold wp in H1, H2. by destruct (mrp_interrupt fuel s).
Qed.

(** C37: no byte ever leaves the control port's send ring.  On every board and
    for every combination of pending interrupts, the handler leaves the ring
    as it was, or empties it by a reset: when the board can take the next
    byte, the handler clears [MRPF_CPBUSY] just before it calls [mrp_cps],
    which sends only if the flag is set. *)
Theorem sendring_never_drained (fuel : nat) (s s' : st) :
  mrp_interrupt fuel s = Ret tt s' →
  sendring (unit_of s') = sendring (unit_of s) ∨
  sendring (unit_of s') = ring_clear (sendring (unit_of s)).
Proof.
  intros Hr.
  assert (H1 : uwp (mrp_interrupt (D:=D) fuel) (λ _ u', sendring u' = sendring (unit_of s) ∨
      sendring u' = ring_clear (sendring (unit_of s))) (λ _, True) (unit_of s)).
  { apply uwp_interrupt; [by left|]. intros stat. exact (dispatch_sendring fuel stat _). }
  specialize (H1 s eq_refl). unfold wp in H1. by rewrite Hr in H1.
Qed.

End Inv.

#[export] Hint Resolve reset_returns : returns.

(** ** Instances *)

#[export] Instance sim_fifo : FifoBoard (D:=simdev).
Proof.
  refine {| level := λ d, length (sim_rx d) |}.
  - intros d. cbn. destruct (sim_rx d) eqn:E; cbn; [by rewrite E|done].
  - done.
  - intros d. cbn. destruct (sim_rx d); split; done.
Defined.

Lemma idle_unit_inv : unit_inv idle_unit.
Proof.
  assert (Forall is_word (replicate (Z.to_nat 0x1000) 0)).
  { apply Forall_replicate. by_compute. }
  split; cbn -[replicate Z.of_nat Z.to_nat hdr_of_words ring_zero];
    rewrite ?length_replicate; try apply ring_zero_ok; try done; unfold MRP_MAX_PKT_SIZE; lia.
Qed.

Lemma recv_scan_terminates_witness :
  ∃ r s', mrp_recv 3 (sim_state idle_unit [1; 2; 3] 0) = Ret r s'.
Proof.
  assert (Hw : ∀ s', mrp_recv 3 (sim_state idle_unit [1; 2; 3] 0) ≠ Stuck OutOfFuel s')
    by (apply (recv_scan_terminates 3 (sim_state idle_unit [1; 2; 3] 0)); cbn; lia).
  destruct (mrp_recv 3 (sim_state idle_unit [1; 2; 3] 0)) as [r s'|w s'] eqn:E; [by exists r, s'|].
  destruct w; [..|by destruct (Hw s')]; vm_compute in E; discriminate E.
Defined.

Lemma interrupt_keeps_inv_witness :
  ∃ s', mrp_interrupt 1 (sim_state idle_unit sample_pkt MRP_STATF_RECV) = Ret tt s' ∧
    unit_inv (unit_of s') ∧ irqs_on s' = true.
Proof.
  pose proof (interrupt_keeps_inv 1 (sim_state idle_unit sample_pkt MRP_STATF_RECV)
    idle_unit_inv) as H.
  destruct (mrp_interrupt 1 _) as [[] s'|w s'] eqn:E.
  - exists s'. split; [reflexivity|exact H].
  - vm_compute in E. discriminate E.
Defined.

Lemma sendring_never_drained_witness :
  let u := idle_unit <| flags := MRPF_CPBUSY |>
                     <| sendring := ringbuf_put ring_zero 0x41 |> in
  ∃ s', mrp_interrupt 1 (sim_state u [] MRP_STATF_CPS) = Ret tt s' ∧
    (sendring (unit_of s') = sendring u ∨ sendring (unit_of s') = ring_clear (sendring u)).
Proof.
  intros u. destruct (mrp_interrupt 1 (sim_state u [] MRP_STATF_CPS)) as [[] s'|w s'] eqn:E.
  - exists s'. split; [reflexivity|].
    exact (sendring_never_drained 1 (sim_state u [] MRP_STATF_CPS) s' E).
  - vm_compute in E. discriminate E.
Defined.
