(* ===== verification/MrpFops.v ===== *)
(** * MrpFops: the file operations of the DECI1 driver

    Models [mrp_read], [mrp_write], [mrp_select], [mrp_open], [mrp_release]
    and [mrp_ioctl] of drivers/char/ps2mrp-psnet.c, with the compatibility
    routines [copy_to_user] and [copy_from_user].

    An operation runs on the unit that [minor & 3] names; the monad's state
    holds that unit.  Bit [0x40] of the minor number selects the control port
    instead of the packet interface.  What the operations take from the rest
    of the kernel is an argument:
    - [va n] is what [verify_area] returns for [n] bytes of the caller's
      buffer;
    - [ub] are the bytes of the caller's buffer, [kb] the run of [kfree] and
      [kmalloc] in a reset packet ([kmalloc_out]);
    - [naps] are the sleeps of the process, in order: what the rest of the
      system does to the unit meanwhile, and whether a signal is pending at
      the end.  An operation that sleeps more often than [naps] tells is
      [Stuck Asleep]. *)

From S2P Require Import Prelude Ring Deci MrpHw Mrp.

(** ** Constants *)

Definition MRP_IOCTL_GT : Z := 0xa14c4754.
Definition MRP_IOCTL_RF : Z := 0xa14c5246.
Definition MRP_IOCTL_SF : Z := 0xa14c5346.
Definition MRP_IOCTL_SY : Z := 0xa14c5359.
Definition MRP_IOCTL_DECI : Z := 0xa14c4126.

Definition SEL_IN : Z := 1.
Definition SEL_OUT : Z := 2.

Section Fops.
Context {D : Type} `{MrpDevice D}.

Local Abbreviation st := (io D mrp_unit).
Local Abbreviation nap := (nap (D:=D) (U:=mrp_unit)).

(** ** Copying to the caller *)

(** [put_user] and [memcpy_tofs]. *)
Definition put_bytes (bs : list Z) : M st unit := emit (ToUser bs).

(** [copy_to_user(buf, from, n)], [from] being [mem]. *)
Definition copy_to_user (va : Z → Z) (mem : list Z) (n : Z) : M st Z :=
  if negb (va n =? 0) then mret (va n)
  else if Z.of_nat (length mem) <? n then halt OutOfBounds
  else put_bytes (take (Z.to_nat n) mem) ;; mret 0.

(** [n] bytes of the caller's buffer stored at the start of a buffer of
    words. *)
Definition memcpy_fromfs (mem : list Z) (ub : list Z) (n : Z) : list Z :=
  words_of_bytes (take (Z.to_nat n) ub ++ drop (Z.to_nat n) (bytes_of_words mem)).

(** ** read *)

(** [while (bytes_copied < nbytes)] of the control port, with [n] bytes still
    to copy.  A sleep ends at the head of the loop, where [continue] goes. *)
Fixpoint cp_read_loop (nonblock : bool) (naps : list nap) : nat → M st Z :=
  fix bytes (n : nat) : M st Z :=
    match n with
    | O => mret 0
    | S n' =>
        ring ← getu recvring;
        if count ring =? 0 then
          if nonblock then sti ;; mret (- EWOULDBLOCK)
          else
            match naps with
            | [] => halt Asleep
            | nap :: naps' =>
                sleep_on 1 nap ;;
                if nap_signal nap then sti ;; mret (- EINTR)
                else cp_read_loop nonblock naps' n
            end
        else
          let '(c, ring') := ringbuf_get ring in
          modu (λ u, u <| recvring := ring' |>) ;;
          put_bytes [c] ;;
          bytes n'
    end.

(** The control-port half of [mrp_read]. *)
Definition mrp_read_cp (nonblock : bool) (nbytes : Z) (va : Z → Z) (naps : list nap) : M st Z :=
  u ← getu (λ u, u);
  if negb (has (flags u) MRPF_CPOPEN) then mret (- ENODEV)
  else
    cli ;;
    let rc := va nbytes in
    if negb (rc =? 0) then sti ;; mret rc
    else
      rc ← cp_read_loop nonblock naps (Z.to_nat nbytes);
      if negb (rc =? 0) then mret rc
      else
        wr_or IER MRP_STATF_CPR ;;
        sti ;;
        mret (Z.max 0 nbytes).

(** The acknowledgement that [mrp_read] puts together on its stack. *)
Definition acknak_of (tag : Z) : deci_acknak_pkt_s :=
  let hdr := {| magic := DECI_MAGIC; size := 0x22; category := 0; priority := 0;
                reply := 0; tag := 0; acktag := 0; ackcode := 0; pad := 0; crsv := 0;
                cid := 0; seq := 0; req := REQ_ZACKNAK; cksum := 0 |} in
  {| an_hdr := {| magic := magic hdr; size := size hdr; category := category hdr;
                  priority := priority hdr; reply := reply hdr; Deci.tag := Deci.tag hdr;
                  acktag := acktag hdr; ackcode := ackcode hdr; pad := pad hdr;
                  crsv := crsv hdr; cid := cid hdr; seq := seq hdr; req := req hdr;
                  cksum := deci_cksum (words_of_hdr hdr) |};
     ack := u8 tag; nak := 0 |}.

(** The packet half of [mrp_read]. *)
Definition mrp_read_packet (nbytes : Z) (va : Z → Z) : M st Z :=
  u ← getu (λ u, u);
  let bytes_copied := rlen u in
  if negb (has (flags u) MRPF_OPENED) then mret (- ENODEV)
  else if negb (has (flags u) MRPF_RESET) then mret (- EIO)
  else if nbytes <? MRP_MAX_PKT_SIZE then mret (- EINVAL)
  else
    let rc := va nbytes in
    if negb (rc =? 0) then mret rc
    else
      cli ;;
      when (has (flags u) MRPF_REQTAG)
        (let _acknak := acknak_of (deci_tag_for_reset u) in
         mrp_send ;;
         u ← getu (λ u, u);
         (* interrupts are off: nothing will set the flag *)
         if has (flags u) MRPF_RDONE then mret tt else halt BusyLoop) ;;
      u ← getu (λ u, u);
      rc ← copy_to_user va (bytes_of_words (recvbuf u)) bytes_copied;
      if negb (rc =? 0) then sti ;; mret rc
      else
        modu (λ u, u <| deci_in := Some 0 |> <| rlen := 0 |>
                     <| flags := clr (flags u) MRPF_RDONE |>) ;;
        wr_or IER MRP_STATF_RECV ;;
        sti ;;
        mret bytes_copied.

Definition mrp_read (minor : Z) (nonblock : bool) (nbytes : Z) (va : Z → Z)
    (naps : list nap) : M st Z :=
  let index := Z.land minor 3 in
  if 3 <? index then mret (- ENODEV)
  else
    f ← getu flags;
    if negb (has f MRPF_VALID) then mret (- ENODEV)
    else if has minor 0x40 then mrp_read_cp nonblock nbytes va naps
    else mrp_read_packet nbytes va.

(** ** write *)

(** [while (bytes_processed < data_len)] of the control port; [ub] are the
    bytes still to process. *)
Fixpoint cp_write_loop (nonblock : bool) (naps : list nap) : list Z → M st Z :=
  fix bytes (ub : list Z) : M st Z :=
    match ub with
    | [] => mret 0
    | c :: ub' =>
        ring ← getu recvring;
        if RINGBUF_SIZE - 1 <=? count ring then
          if nonblock then sti ;; mret (- EWOULDBLOCK)
          else
            match naps with
            | [] => halt Asleep
            | nap :: naps' =>
                sleep_on 2 nap ;;
                if nap_signal nap then sti ;; mret (- EINTR)
                else cp_write_loop nonblock naps' ub
            end
        else
          modu (λ u, u <| recvring := ringbuf_put ring c |>) ;;
          bytes ub'
    end.

(** The control-port half of [mrp_write]. *)
Definition mrp_write_cp (nonblock : bool) (ub : list Z) (len : Z) (va : Z → Z)
    (naps : list nap) : M st Z :=
  u ← getu (λ u, u);
  if negb (has (flags u) MRPF_CPOPEN) then mret (- ENODEV)
  else
    let rc := va len in
    if negb (rc =? 0) then mret rc
    else
      cli ;;
      rc ← cp_write_loop nonblock naps (take (Z.to_nat len) ub);
      if negb (rc =? 0) then mret rc
      else
        sti ;;
        mrp_cps ;;
        mret (Z.max 0 len).

(** [pkt.reset_mode] of a reset packet. *)
Definition pkt_reset_mode (ub : list Z) (len : Z) : Z :=
  if negb (0x23 <? u32 len) then 0
  else Z.land (Z.shiftr (s32 (word_at (words_of_bytes ub) 8)) 4) 0x0f.

(** The old block is freed and a new one asked for: what the allocator makes
    of the freed block, the sleeps of [kmalloc(len, GFP_KERNEL)], and the new
    block ([None] for NULL). *)
Record kmalloc_out := MkKmallocOut {
  km_junk : list Z;
  km_naps : list nap;
  km_block : option (list Z);
}.

(** A [kmalloc] that does not sleep. *)
Definition kmalloc_at_once (blk : option (list Z)) : kmalloc_out := MkKmallocOut [] [] blk.

(** [if (buf) kfree(buf)]: the unit still points to the block, whose words
    are no longer its own. *)
Definition freed_block (km : kmalloc_out) (b : option (list Z)) : option (list Z) :=
  (λ ws, resize (length ws) 0 (km_junk km)) <$> b.

(** [kmalloc] sleeps on no queue of the unit. *)
Definition kmalloc_block (km : kmalloc_out) : M st (option (list Z)) :=
  for_each (km_naps km) (sleep_on 0) ;; mret (km_block km).

(** [switch (pkt.reset_mode)]: [false] when [kmalloc] failed.  Case 2 falls
    through to the default.  While [kmalloc] sleeps the unit has a freed
    block. *)
Definition keep_boot_packet (mode : Z) (ub : list Z) (len : Z) (kb : kmalloc_out) : M st bool :=
  if mode =? 1 then
    modu (λ u, u <| reset_mode := 1 |>) ;;
    modu (λ u, u <| buf38 := freed_block kb (buf38 u) |>) ;;
    blk ← kmalloc_block kb;
    match blk with
    | None => modu (λ u, u <| buf38 := None |>) ;; mret false
    | Some blk =>
        modu (λ u, u <| nbytes38 := len |> <| buf38 := Some (memcpy_fromfs blk ub len) |>) ;;
        mret true
    end
  else if mode =? 0 then
    modu (λ u, u <| reset_mode := 0 |>) ;;
    modu (λ u, u <| buf40 := freed_block kb (buf40 u) |>) ;;
    blk ← kmalloc_block kb;
    match blk with
    | None => modu (λ u, u <| buf40 := None |>) ;; mret false
    | Some blk =>
        modu (λ u, u <| nbytes40 := len |> <| buf40 := Some (memcpy_fromfs blk ub len) |>) ;;
        mret true
    end
  else
    modu (λ u, u <| reset_mode := -1 |>) ;; mret true.

(** A [REQ_TRESET] packet. *)
Definition mrp_write_treset (hdr : decihdr_s) (ub : list Z) (len : Z)
    (kb : kmalloc_out) : M st Z :=
  let mode := pkt_reset_mode ub len in
  cli ;;
  ok ← keep_boot_packet mode ub len kb;
  if negb ok then sti ;; mret (- ENOMEM)
  else
    when (mode =? 0) (mrp_reset ;; mret tt) ;;
    modu (λ u, u <| deci_tag_for_reset := tag hdr |>) ;;
    when (negb (tag hdr =? 0)) (set_flag MRPF_REQTAG ;; wake_up 4) ;;
    sti ;;
    mret len.

(** [while (mrp->flags & MRPF_SBUSY)]: 0 when the unit is free. *)
Fixpoint wait_not_busy (nonblock : bool) (naps : list nap) : M st Z :=
  f ← getu flags;
  if has f MRPF_SBUSY then
    if nonblock then mret (- EWOULDBLOCK)
    else
      match naps with
      | [] => halt Asleep
      | nap :: naps' =>
          sleep_on 3 nap ;;
          if nap_signal nap then mret (- EINTR)
          else wait_not_busy nonblock naps'
      end
  else mret 0.

(** Any other packet: wait until the unit is free, then send. *)
Definition mrp_write_packet (nonblock : bool) (ub : list Z) (len : Z)
    (naps : list nap) : M st Z :=
  f ← getu flags;
  if negb (has f MRPF_RESET) then mret (- EIO)
  else
    cli ;;
    rc ← wait_not_busy nonblock naps;
    if negb (rc =? 0) then sti ;; mret rc
    else
      u ← getu (λ u, u);
      if 4 * Z.of_nat (length (sendbuf u)) <? len then halt OutOfBounds
      else
        modu (λ u, u <| sendbuf := memcpy_fromfs (sendbuf u) ub len |>
                     <| deci_out := Some 0 |> <| slen := len |>) ;;
        mrp_send ;;
        sti ;;
        mret len.

Definition mrp_write (minor : Z) (nonblock : bool) (ub : list Z) (len : Z) (va : Z → Z)
    (kb : kmalloc_out) (naps : list nap) : M st Z :=
  let index := Z.land minor 3 in
  if MRP_UNIT_MAX <=? index then mret (- ENODEV)
  else
    f ← getu flags;
    if negb (has f MRPF_VALID) then mret (- ENODEV)
    else if has minor 0x40 then mrp_write_cp nonblock ub len va naps
    else if negb (has f MRPF_OPENED) then mret (- ENODEV)
    else if u32 len <? sizeof_hdr then mret (- EINVAL)
    else if MRP_MAX_PKT_SIZE <? len then mret (- EINVAL)
    else
      let rc := va len in
      if negb (rc =? 0) then mret rc
      else
        let hdrw := words_of_bytes (take (Z.to_nat sizeof_hdr) ub) in
        let hdr := hdr_of_words hdrw in
        if negb (magic hdr =? DECI_MAGIC) then mret (- EINVAL)
        else if negb (len =? size hdr) then mret (- EINVAL)
        else if negb (cksum hdr =? deci_cksum hdrw) then mret (- EINVAL)
        else if req hdr =? REQ_TRESET then mrp_write_treset hdr ub len kb
        else mrp_write_packet nonblock ub len naps.

(** ** select *)

Definition select_wait (q : Z) : M st unit := emit (SelWait q).

Definition mrp_select (minor sel_type : Z) : M st Z :=
  let index := Z.land minor 3 in
  if 3 <? index then mret 0
  else
    u ← getu (λ u, u);
    if has minor 0x40 then
      if sel_type =? SEL_IN then
        if 0 <? count (recvring u) then mret 1
        else select_wait 1 ;; mret 0
      else if sel_type =? SEL_OUT then
        if count (sendring u) <=? RINGBUF_SIZE - 2 then mret 1
        else select_wait 2 ;; mret 0
      else mret 0
    else if sel_type =? SEL_IN then
      if has (flags u) (Z.lor MRPF_RDONE MRPF_REQTAG) then mret 1
      else select_wait 4 ;; mret 0
    else if sel_type =? SEL_OUT then
      if negb (has (flags u) MRPF_SBUSY) then mret 1
      else select_wait 3 ;; mret 0
    else mret 0.

(** ** open and release *)

Definition MOD_INC_USE_COUNT : M st unit := emit (ModUse 1).
Definition MOD_DEC_USE_COUNT : M st unit := emit (ModUse (-1)).

Definition mrp_open (minor : Z) : M st Z :=
  let index := Z.land minor 3 in
  if 3 <? index then mret (- ENODEV)
  else
    f ← getu flags;
    if negb (has f MRPF_VALID) then mret (- ENODEV)
    else
      bid ← rd BID;
      if negb (bid =? 0x4126) then mret (- EIO)
      else
        let m := if has minor 0x40 then MRPF_CPOPEN else MRPF_OPENED in
        if has f m then mret (- EBUSY)
        else
          modu (λ u, u <| flags := Z.lor f m |>) ;;
          MOD_INC_USE_COUNT ;;
          mret 0.

Definition mrp_release (minor : Z) : M st unit :=
  let index := Z.land minor 3 in
  if 3 <? index then mret tt
  else
    f ← getu flags;
    if negb (has f MRPF_VALID) then mret tt
    else
      let m := if has minor 0x40 then MRPF_CPOPEN else MRPF_OPENED in
      let f' := if has f m then clr f m else f in
      modu (λ u, u <| flags := f' |>) ;;
      MOD_DEC_USE_COUNT.

(** ** ioctl *)

Definition mrp_ioctl (minor : Z) (nonblock : bool) (cmd : Z) (va : Z → Z)
    (naps : list nap) : M st Z :=
  let index := Z.land minor 3 in
  if 3 <? index then mret (- ENODEV)
  else
    f ← getu flags;
    if negb (has f MRPF_VALID) then mret (- ENODEV)
    else if has minor 0x40 && has f MRPF_CPOPEN then mret (- ENODEV)
    else if has minor 0x40 && negb (cmd =? MRP_IOCTL_GT) then mret (- EINVAL)
    else if cmd =? MRP_IOCTL_RF then
      cli ;;
      modu (λ u, u <| rlen := 0 |>) ;;
      wr_or IER MRP_STATF_RECV ;;
      clear_flag MRPF_RDONE ;;
      sti ;;
      mret 0
    else if cmd =? MRP_IOCTL_GT then
      copy_to_user va (bytes_of_word MRP_IOCTL_DECI) 4 ;;
      mret 0
    else if cmd =? MRP_IOCTL_SF then
      cli ;;
      modu (λ u, u <| slen := 0 |>) ;;
      wr_and IER (Z.lnot MRP_STATF_WAKE) ;;
      clear_flag MRPF_SBUSY ;;
      sti ;;
      mret 0
    else if cmd =? MRP_IOCTL_SY then
      cli ;;
      rc ← wait_not_busy nonblock naps;
      if negb (rc =? 0) then mret rc
      else sti ;; mret 0
    else mret 0.

End Fops.
