(* ===== verification/MrpFopsFacts.v ===== *)
(** * MrpFopsFacts: what the DECI1 file operations do

    The packet interface end to end: which packets [mrp_write] accepts and
    what it sends for them, what [mrp_read] returns, and that a packet written
    on one side is read unchanged on the other.  Then the operations that do
    not do what their callers expect. *)

From S2P Require Import Prelude Ring Deci MrpHw Mrp MrpFacts MrpInv MrpFops.

(** ** Specifications *)

(** The packets [mrp_write] accepts: the [len] bytes [ub]. *)
Definition write_valid (ub : list Z) (len : Z) : bool :=
  let hdrw := words_of_bytes (take (Z.to_nat sizeof_hdr) ub) in
  let hdr := hdr_of_words hdrw in
  (sizeof_hdr <=? len) && (len <=? MRP_MAX_PKT_SIZE) &&
  (magic hdr =? DECI_MAGIC) && (size hdr =? len) && (cksum hdr =? deci_cksum hdrw).

(** The unit can be used through the packet interface. *)
Definition packet_open (u : mrp_unit) : Prop :=
  has (flags u) MRPF_VALID = true ∧ has (flags u) MRPF_OPENED = true.

(** [ws] are the words that carry the bytes [ub]. *)
Definition carries (ws ub : list Z) : Prop :=
  Z.of_nat (length ws) = nwords (Z.of_nat (length ub)) ∧
  take (length ub) (bytes_of_words ws) = ub.

Section FopsFacts.
Context {D : Type} `{MrpDevice D}.

Local Abbreviation st := (io D mrp_unit).
Local Abbreviation nap := (nap (D:=D) (U:=mrp_unit)).

Lemma minor_index minor : (3 <? Z.land minor 3) = false ∧ (MRP_UNIT_MAX <=? Z.land minor 3) = false.
Proof.
  assert (0 ≤ Z.land minor 3 < 4).
  { change 3 with (Z.ones 2). rewrite Z.land_ones by lia. apply Z.mod_pos_bound. lia. }
  unfold MRP_UNIT_MAX. split; [apply Z.ltb_ge|apply Z.leb_gt]; lia.
Qed.

(** ** write *)

Lemma length_memcpy mem ub n :
  0 ≤ n ≤ 4 * Z.of_nat (length mem) → n ≤ Z.of_nat (length ub) →
  length (memcpy_fromfs mem ub n) = length mem.
Proof.
  intros Hn Hu. unfold memcpy_fromfs.
  rewrite length_words_of_bytes, length_app, length_take, length_drop, length_bytes_of_words.
  replace (Z.to_nat n `min` length ub + (4 * length mem - Z.to_nat n) + 3)%nat
    with (3 + length mem * 4)%nat by lia.
  rewrite Nat.div_add by lia. done.
Qed.

(** The first bytes of the copy are the caller's. *)
Lemma memcpy_carries mem ub n :
  Forall is_byte ub → Z.of_nat (length ub) = n →
  n ≤ 4 * Z.of_nat (length mem) →
  carries (take (Z.to_nat (nwords n)) (memcpy_fromfs mem ub n)) ub.
Proof.
  intros Hb Hn Hl. split.
  - rewrite length_take, length_memcpy by lia. rewrite Hn.
    assert (0 ≤ nwords n ≤ Z.of_nat (length mem)); [|lia].
    unfold nwords. Z.div_mod_to_equations. lia.
  - rewrite bytes_of_words_take, take_take, Nat.min_l.
    2:{ unfold nwords. Z.div_mod_to_equations. lia. }
    unfold memcpy_fromfs. replace (Z.to_nat n) with (length ub) by lia.
    rewrite take_bytes_of_words, take_app_le, !firstn_all; [done| | |].
    + rewrite firstn_all. lia.
    + apply Forall_app. split; [by apply Forall_take|].
      apply Forall_drop, bytes_of_words_range.
    + rewrite firstn_all, length_app. lia.
Qed.

(** The header in the words is the header in the bytes. *)
Lemma carries_header ws ub :
  carries ws ub → Forall is_word ws → (32 ≤ length ub)%nat →
  take hdr_words ws = words_of_bytes (take 32 ub).
Proof.
  intros [_ Hc] Hw Hl.
  rewrite <-(words_of_bytes_of_words (take hdr_words ws)) by by apply Forall_take.
  rewrite bytes_of_words_take. change (4 * hdr_words)%nat with 32%nat. f_equal.
  rewrite <-Hc, take_take. by rewrite Nat.min_l by done.
Qed.

Lemma write_valid_spec ub len :
  write_valid ub len = true →
  let hdrw := words_of_bytes (take 32 ub) in
  sizeof_hdr ≤ len ≤ MRP_MAX_PKT_SIZE ∧ magic (hdr_of_words hdrw) = DECI_MAGIC ∧
  size (hdr_of_words hdrw) = len ∧ cksum (hdr_of_words hdrw) = deci_cksum hdrw.
Proof. unfold write_valid. intros Hv. by to_prop. Qed.

Lemma write_valid_packet ub len ws :
  write_valid ub len = true → Z.of_nat (length ub) = len →
  carries ws ub → Forall is_word ws →
  packet_ok ws ∧ size (hdr_of_words ws) = len.
Proof.
  intros Hv Hlen Hc Hw.
  destruct (write_valid_spec _ _ Hv) as (Hr & Hm & Hs & Hck).
  assert (Hl : (32 ≤ length ub)%nat) by (unfold sizeof_hdr in Hr; lia).
  pose proof (carries_header _ _ Hc Hw Hl) as Hh. destruct Hc as [Hn _].
  assert (H8 : length (take hdr_words ws) = hdr_words).
  { rewrite Hh, length_words_of_bytes, length_take, Nat.min_l by done. done. }
  assert (Eh : hdr_of_words ws = hdr_of_words (take hdr_words ws)).
  { rewrite <-(take_drop hdr_words ws) at 1. apply hdr_of_words_app. by rewrite H8. }
  assert (Ec : deci_cksum ws = deci_cksum (take hdr_words ws)).
  { rewrite <-(take_drop hdr_words ws) at 1. apply deci_cksum_app. by rewrite H8. }
  rewrite <-Hh, <-Eh in Hm, Hs, Hck. rewrite <-Ec in Hck.
  split; [|done]. split; [done|done|by rewrite Hs|congruence|done].
Qed.

(** [mrp_write] on the packet interface: the checks are [write_valid]. *)
Lemma write_checks minor nonblock ub len va kb naps (s : st) :
  has minor 0x40 = false → packet_open (unit_of s) → - 2 ^ 31 ≤ len < 2 ^ 31 → va len = 0 →
  mrp_write minor nonblock ub len va kb naps s =
  let hdr := hdr_of_words (words_of_bytes (take (Z.to_nat sizeof_hdr) ub)) in
  if write_valid ub len then
    if req hdr =? REQ_TRESET then mrp_write_treset hdr ub len kb s
    else mrp_write_packet nonblock ub len naps s
  else Ret (- EINVAL) s.
Proof.
  intros Hmin [Hval Hop] Hlen Hva.
  unfold mrp_write. destruct (minor_index minor) as [_ ->].
  erewrite bind_Ret by reflexivity. rewrite Hval, Hmin, Hop, Hva. cbn [negb Z.eqb].
  unfold write_valid. set (hdrw := words_of_bytes _). clearbody hdrw. cbn zeta.
  rewrite (Z.eqb_sym (size _) len).
  destruct (u32 len <? sizeof_hdr) eqn:E1.
  { to_prop. replace (sizeof_hdr <=? len) with false; [done|].
    symmetry. apply Z.leb_gt. unfold u32, sizeof_hdr in *. Z.div_mod_to_equations. lia. }
  destruct (MRP_MAX_PKT_SIZE <? len) eqn:E2.
  { to_prop. replace (len <=? MRP_MAX_PKT_SIZE) with false; [by rewrite andb_false_r|].
    symmetry. by apply Z.leb_gt. }
  replace (len <=? MRP_MAX_PKT_SIZE) with true by (symmetry; apply Z.leb_le; by to_prop).
  destruct (decide (0 ≤ len)) as [Hpos|Hneg].
  - replace (sizeof_hdr <=? len) with true.
    2:{ symmetry. apply Z.leb_le. to_prop. by rewrite u32_id in E1 by lia. }
    by destruct (magic _ =? _), (len =? _), (cksum _ =? _), (req _ =? _).
  - assert ((len =? size (hdr_of_words hdrw)) = false) as ->.
    { apply Z.eqb_neq. cbn -[hi16]. pose proof (u16_range (word_at hdrw 0 / 2 ^ 16)).
      unfold hi16. lia. }
    replace (sizeof_hdr <=? len) with false by (symmetry; apply Z.leb_gt; unfold sizeof_hdr; lia).
    by destruct (magic _ =? _).
Qed.

Lemma push_words ws :
  Forall is_word ws → (λ w, Wr FIFOPORT (u32 w)) <$> ws = Wr FIFOPORT <$> ws.
Proof. induction 1; [done|]. cbn. rewrite u32_id by done. by f_equal. Qed.

Lemma memcpy_words mem ub n :
  Forall is_byte ub → Forall is_word (memcpy_fromfs mem ub n).
Proof.
  intros Hb. apply words_of_bytes_range, Forall_app. split; [by apply Forall_take|].
  apply Forall_drop, bytes_of_words_range.
Qed.

(** A packet on a reset and idle unit goes out. *)
Lemma write_packet_run nonblock ub len naps (s : st) :
  unit_inv (unit_of s) →
  has (flags (unit_of s)) MRPF_RESET = true → has (flags (unit_of s)) MRPF_SBUSY = false →
  Forall is_byte ub → Z.of_nat (length ub) = len → len ≤ MRP_MAX_PKT_SIZE →
  ∃ s' ws v,
    mrp_write_packet nonblock ub len naps s = Ret len s' ∧
    carries ws ub ∧ Forall is_word ws ∧
    log s' = log s ++ (Wr FIFOPORT <$> ws)
                   ++ [Wr TXC 1; Rd IER v; Wr IER (u16 (Z.lor v MRP_STATF_WAKE))] ∧
    irqs_on s' = true ∧
    unit_of s' = (unit_of s)
      <| sendbuf := memcpy_fromfs (sendbuf (unit_of s)) ub len |>
      <| deci_out := Some 0 |> <| slen := len |>
      <| flags := Z.lor (flags (unit_of s)) MRPF_SBUSY |>.
Proof.
  intros Hinv Hres Hbusy Hub Hlen Hmax. unfold mrp_write_packet.
  erewrite bind_Ret by reflexivity. rewrite Hres. cbn [negb].
  erewrite bind_Ret by reflexivity.
  erewrite bind_Ret.
  2:{ destruct naps; cbn; unfold mbind, M_bind; cbn; rewrite Hbusy; reflexivity. }
  cbn [Z.eqb negb]. erewrite bind_Ret by reflexivity.
  assert (Hcap : (4 * Z.of_nat (length (sendbuf (unit_of s))) <? len) = false).
  { rewrite (inv_sendbuf _ Hinv). apply Z.ltb_ge. unfold MRP_MAX_PKT_SIZE in *. lia. }
  cbn [unit_of]. rewrite Hcap. erewrite bind_Ret by reflexivity.
  set (ws := memcpy_fromfs (sendbuf (unit_of s)) ub len).
  set (s1 := _ <| unit_of := _ |>).
  assert (Hl : Z.of_nat (length ws) = 0x1000).
  { unfold ws. rewrite length_memcpy; [apply (inv_sendbuf _ Hinv)| |lia].
    to_prop. lia. }
  destruct (put_fifo_run ws len s1) as (s2 & v & Hrun & Hu & Hirq & Hlog).
  { unfold MRP_MAX_PKT_SIZE in *. lia. }
  { pose proof (nwords_bound len). lia. }
  unfold mrp_send. erewrite bind_Ret. 2:{ erewrite bind_Ret by reflexivity. exact Hrun. }
  assert (Hw : Forall is_word (take (Z.to_nat (nwords len)) ws))
    by by apply Forall_take, memcpy_words.
  eexists _, _, v. split; [reflexivity|]. split; [|split; [exact Hw|]].
  { apply memcpy_carries; [done|done|]. to_prop. lia. }
  rewrite <-push_words by done. cbn. by rewrite Hlog, Hu.
Qed.

(** ** read *)

(** A packet the driver holds goes to the caller. *)
Lemma read_packet_run minor nonblock nbytes va naps (s : st) :
  has minor 0x40 = false → packet_open (unit_of s) → unit_inv (unit_of s) →
  has (flags (unit_of s)) MRPF_RESET = true → has (flags (unit_of s)) MRPF_RDONE = true →
  has (flags (unit_of s)) MRPF_REQTAG = false →
  MRP_MAX_PKT_SIZE ≤ nbytes → va nbytes = 0 → va (rlen (unit_of s)) = 0 →
  ∃ s' v,
    mrp_read minor nonblock nbytes va naps s = Ret (rlen (unit_of s)) s' ∧
    log s' = log s ++ [ToUser (take (Z.to_nat (rlen (unit_of s)))
                                 (bytes_of_words (recvbuf (unit_of s))));
                       Rd IER v; Wr IER (u16 (Z.lor v MRP_STATF_RECV))] ∧
    irqs_on s' = true ∧
    unit_of s' = (unit_of s) <| deci_in := Some 0 |> <| rlen := 0 |>
                   <| flags := clr (flags (unit_of s)) MRPF_RDONE |>.
Proof.
  intros Hmin [Hval Hop] Hinv Hres Hdone Htag Hn Hva Hva'.
  unfold mrp_read. destruct (minor_index minor) as [-> _].
  erewrite bind_Ret by reflexivity. rewrite Hval, Hmin. cbn [negb].
  unfold mrp_read_packet. erewrite bind_Ret by reflexivity.
  rewrite Hop, Hres, Htag, Hva. cbn [negb Z.eqb when].
  replace (nbytes <? _) with false by (symmetry; apply Z.ltb_ge; lia).
  do 3 erewrite bind_Ret by reflexivity.
  assert (Hl : (Z.of_nat (length (bytes_of_words (recvbuf (unit_of s)))) <? rlen (unit_of s)) = false).
  { apply Z.ltb_ge. rewrite length_bytes_of_words.
    pose proof (inv_recvbuf _ Hinv). destruct (inv_packet _ Hinv Hdone) as [_ _ Hmax _].
    unfold MRP_MAX_PKT_SIZE in *. lia. }
  erewrite bind_Ret.
  2:{ unfold copy_to_user. rewrite Hva'. cbn [negb Z.eqb].
      replace (_ <? _) with false by (symmetry; exact Hl). reflexivity. }
  cbn [negb Z.eqb]. erewrite bind_Ret by reflexivity.
  unfold wr_or, mbind, M_bind, rd, wr. cbn -[bytes_of_words take].
  destruct (dev_read IER _) as [v d]. eexists _, (u16 v). split; [reflexivity|].
  cbn -[bytes_of_words take]. by rewrite <-!app_assoc.
Qed.

(** Receiving a packet and reading it. *)
Lemma recv_then_read fuel minor nonblock nbytes va naps ws ub (s : st) d' :
  has minor 0x40 = false → packet_open (unit_of s) → unit_inv (unit_of s) →
  has (flags (unit_of s)) MRPF_RESET = true → has (flags (unit_of s)) MRPF_RDONE = false →
  has (flags (unit_of s)) MRPF_REQTAG = false →
  MRP_MAX_PKT_SIZE ≤ nbytes → (∀ n, va n = 0) →
  packet_ok ws → carries ws ub → size (hdr_of_words ws) = Z.of_nat (length ub) →
  presents ws (dev s) d' →
  ∃ s1 s2,
    mrp_recv (S fuel) s = Ret 1 s1 ∧
    mrp_read minor nonblock nbytes va naps s1 = Ret (Z.of_nat (length ub)) s2 ∧
    to_user (log s2) = to_user (log s) ++ ub ∧
    has (flags (unit_of s2)) MRPF_RDONE = false.
Proof.
  intros Hmin Hop Hinv Hres Hrd Htag Hn Hva Hok [Hlen Hc] Hs Hp.
  destruct (recv_packet ws fuel s d' Hok Hp (inv_recvbuf _ Hinv) Hrd)
    as (s1 & Hr & Hu & _ & _ & l & Hlog & _ & Hto).
  assert (unit_inv (unit_of s1)) as Hinv1.
  { pose proof (uwp_recv (S fuel) _ Hinv s eq_refl) as Hw. unfold wp in Hw. by rewrite Hr in Hw. }
  assert (Hrlen : rlen (unit_of s1) = Z.of_nat (length ub)) by (by rewrite Hu).
  destruct (read_packet_run minor nonblock nbytes va naps s1) as (s2 & v & Hread & Hlog2 & _ & Hu2);
    try done.
  1-4: rewrite Hu; unfold packet_open in *; cbn [flags upd]; flag_simpl; rewrite ?Hres, ?Htag;
    naive_solver.
  exists s1, s2. rewrite Hread, Hrlen. split_and!; [done|done| |].
  - rewrite Hlog2, Hlog, !to_user_app, Hto, app_nil_r. cbn -[bytes_of_words take].
    rewrite !app_nil_r, Hrlen, Nat2Z.id, Hu. cbn -[bytes_of_words take].
    unfold bytes_of_words. rewrite bind_app, take_app_le; [by f_equal|].
    fold (bytes_of_words ws). rewrite length_bytes_of_words.
    unfold nwords in Hlen. Z.div_mod_to_equations. lia.
  - rewrite Hu2. cbn [flags upd]. by flag_simpl.
Qed.

(** ** A reset request with a tag *)

Definition boot_reset_unit (u : mrp_unit) (boot : list Z) (len t : Z) : mrp_unit :=
  (reset_unit (u <| reset_mode := 0 |> <| nbytes40 := len |> <| buf40 := Some boot |>))
    <| deci_tag_for_reset := t |>.

Lemma write_treset_run hdr ub len blk (s : st) :
  unit_inv (unit_of s) → pkt_reset_mode ub len = 0 → tag hdr ≠ 0 →
  ∃ s',
    mrp_write_treset hdr ub len (kmalloc_at_once (Some blk)) s = Ret len s' ∧
    unit_of s' = let u := boot_reset_unit (unit_of s) (memcpy_fromfs blk ub len) len (tag hdr) in
                 u <| flags := Z.lor (flags u) MRPF_REQTAG |>.
Proof.
  intros Hinv Hmode Htag. unfold mrp_write_treset. rewrite Hmode.
  apply Z.eqb_neq in Htag as ->. cbn [negb when Z.eqb].
  set (Q := λ (r : Z) (u' : mrp_unit), r = len ∧
    u' = (boot_reset_unit (unit_of s) (memcpy_fromfs blk ub len) len (tag hdr))
           <| flags := Z.lor (flags (reset_unit (unit_of s))) MRPF_REQTAG |>).
  enough (Hw : uwp (D:=D) (cli ;; ok ← keep_boot_packet 0 ub len (kmalloc_at_once (Some blk));
    if negb ok then sti ;; mret (- ENOMEM)
    else (mrp_reset ;; mret tt) ;;
         modu (λ u, u <| deci_tag_for_reset := tag hdr |>) ;;
         (set_flag MRPF_REQTAG ;; wake_up 4) ;; sti ;; mret len) Q total (unit_of s)).
  { specialize (Hw s eq_refl). apply wp_Ret in Hw as (a & s' & Hr & -> & Hu). by exists s'. }
  unfold keep_boot_packet, kmalloc_block, set_flag.
  cbn [Z.eqb kmalloc_at_once for_each km_naps km_block]. usteps; [done|].
  apply uwp_reset; [apply Hinv|]. usteps. by split.
Qed.

Lemma write_treset_returns hdr ub len blk (s : st) :
  wp (mrp_write_treset hdr ub len (kmalloc_at_once (Some blk))) (λ r s', r = len ∧ irqs_on s' = true) never s.
Proof.
  unfold mrp_write_treset. apply wp_bind, wp_returns; [unfold cli; returns|]. intros _ s1.
  apply wp_bind. apply wp_mono with (Q := λ ok _, ok = true) (E := never); [|done|].
  2:{ unfold keep_boot_packet. by destruct (_ =? 1); [|destruct (_ =? 0)]. }
  intros ok s2 ->. cbn [negb]. unfold set_flag, wake_up.
  do 3 (apply wp_bind, wp_returns; [returns|intros [] ?]). done.
Qed.

(** A read that has to acknowledge the tag waits for a packet with interrupts
    off. *)
Lemma read_reqtag_hangs minor nonblock nbytes va naps (s : st) :
  has minor 0x40 = false → packet_open (unit_of s) → unit_inv (unit_of s) →
  has (flags (unit_of s)) MRPF_RESET = true → has (flags (unit_of s)) MRPF_RDONE = false →
  has (flags (unit_of s)) MRPF_REQTAG = true →
  MRP_MAX_PKT_SIZE ≤ nbytes → va nbytes = 0 →
  ∃ s', mrp_read minor nonblock nbytes va naps s = Stuck BusyLoop s'.
Proof.
  intros Hmin [Hval Hop] Hinv Hres Hdone Htag Hn Hva.
  unfold mrp_read. destruct (minor_index minor) as [-> _].
  erewrite bind_Ret by reflexivity. rewrite Hval, Hmin. cbn [negb].
  unfold mrp_read_packet. erewrite bind_Ret by reflexivity.
  rewrite Hop, Hres, Htag, Hva. cbn [negb Z.eqb when].
  replace (nbytes <? _) with false by (symmetry; apply Z.ltb_ge; lia).
  erewrite bind_Ret by reflexivity.
  set (s1 := s <| irqs_on := false |>).
  assert (Hs : uwp (D:=D) mrp_send (λ _ u, has (flags u) MRPF_RDONE = false) total (unit_of s1)).
  { apply uwp_send; [done|]. intros _. cbn [flags upd]. flag_simpl. done. }
  specialize (Hs s1 eq_refl). apply wp_Ret in Hs as (a & s2 & Hr & Hd).
  exists s2. unfold mbind at 1, M_bind at 1. erewrite bind_Ret by exact Hr.
  erewrite bind_Ret by reflexivity. by rewrite Hd.
Qed.

(** ** A packet that is too long *)

(** What a header with a wrong size leaves behind when the FIFO is empty. *)
Lemma recv_bad_header w0 fuel (s : st) d1 f1 d2 :
  greets w0 (dev s) d1 → is_word w0 → MRP_MAX_PKT_SIZE < hi16 w0 →
  dev_read FST d1 = (f1, d2) → has (u16 f1) MRP_FSTF_0001 = true →
  Z.of_nat (length (recvbuf (unit_of s))) = 0x1000 →
  has (flags (unit_of s)) MRPF_RDONE = false →
  ∃ s', mrp_recv (S fuel) s = Ret (-1) s' ∧
    flags (unit_of s') = flags (unit_of s) ∧
    rlen (unit_of s') = hi16 w0 ∧
    length (recvbuf (unit_of s')) = length (recvbuf (unit_of s)).
Proof.
  intros Hg Hw Hbig Hf Hempty Hbuf Hrd.
  destruct (recv_first_word w0 fuel s d1 Hg Hw Hbuf Hrd) as (l & _ & _ & ->).
  replace (MRP_MAX_PKT_SIZE <? hi16 w0) with true by (symmetry; by apply Z.ltb_lt).
  rewrite orb_true_r. erewrite bind_Ret by (unfold rd; cbn; rewrite Hf; reflexivity).
  cbn [reg_wrap]. rewrite Hempty. cbn [negb].
  unfold recv_fail, wr_or, mbind, M_bind, rd, wr. cbn -[splice hi16].
  destruct (dev_read IER _) as [v d]. eexists. split; [reflexivity|].
  cbn -[splice hi16]. split_and!; [done|done|]. apply length_splice. cbn. lia.
Qed.

(** A read then copies more than the buffer holds. *)
Lemma read_overrun minor nonblock nbytes va naps (s : st) :
  has minor 0x40 = false → packet_open (unit_of s) →
  has (flags (unit_of s)) MRPF_RESET = true → has (flags (unit_of s)) MRPF_REQTAG = false →
  Z.of_nat (length (recvbuf (unit_of s))) = 0x1000 → MRP_MAX_PKT_SIZE < rlen (unit_of s) →
  MRP_MAX_PKT_SIZE ≤ nbytes → (∀ n, va n = 0) →
  ∃ s', mrp_read minor nonblock nbytes va naps s = Stuck OutOfBounds s'.
Proof.
  intros Hmin [Hval Hop] Hres Htag Hl Hr Hn Hva.
  unfold mrp_read. destruct (minor_index minor) as [-> _].
  erewrite bind_Ret by reflexivity. rewrite Hval, Hmin. cbn [negb].
  unfold mrp_read_packet. erewrite bind_Ret by reflexivity.
  rewrite Hop, Hres, Htag, Hva. cbn [negb Z.eqb when].
  replace (nbytes <? _) with false by (symmetry; apply Z.ltb_ge; lia).
  do 3 erewrite bind_Ret by reflexivity.
  eexists. unfold copy_to_user, mbind at 1, M_bind at 1. rewrite Hva. cbn [negb Z.eqb].
  replace (_ <? _) with true; [reflexivity|].
  symmetry. apply Z.ltb_lt. rewrite length_bytes_of_words. cbn [unit_of upd].
  unfold MRP_MAX_PKT_SIZE in *. lia.
Qed.

(** ** The control port *)

Definition cp_open (u : mrp_unit) : Prop :=
  has (flags u) MRPF_VALID = true ∧ has (flags u) MRPF_CPOPEN = true.

(** Bytes that fit go into the ring. *)
Lemma cp_write_loop_run nonblock naps bs : ∀ s : st,
  ring_ok (recvring (unit_of s)) →
  count (recvring (unit_of s)) + Z.of_nat (length bs) ≤ RINGBUF_SIZE - 1 →
  ∃ s', cp_write_loop nonblock naps bs s = Ret 0 s' ∧
    (∃ r, unit_of s' = (unit_of s) <| recvring := r |> ∧ ring_ok r ∧
       ring_content r = ring_content (recvring (unit_of s)) ++ (u8 <$> bs)) ∧
    dev s' = dev s ∧ log s' = log s ∧ irqs_on s' = irqs_on s.
Proof.
  induction bs as [|c bs IH]; intros s Hok Hfit.
  { exists s. split; [by destruct naps|]. split; [|done].
    exists (recvring (unit_of s)). rewrite app_nil_r. split; [by destruct (unit_of s)|done]. }
  cbn [length] in Hfit.
  destruct (ring_put_spec (recvring (unit_of s)) c Hok) as [Hok' Hc'];
    [unfold RINGBUF_SIZE in *; lia|].
  assert (Hcnt : count (ringbuf_put (recvring (unit_of s)) c) = count (recvring (unit_of s)) + 1).
  { rewrite <-!length_ring_content, Hc', length_app by done. cbn. lia. }
  set (s1 := s <| unit_of := (unit_of s) <| recvring := ringbuf_put (recvring (unit_of s)) c |> |>).
  destruct (IH s1) as (s' & Hr & (r & Hu & Hrok & Hrc) & Hd & Hl & Hi).
  { done. }
  { cbn [s1 unit_of upd recvring]. lia. }
  exists s'. split_and!; [|exists r|done|done|done].
  - rewrite <-Hr. assert ((RINGBUF_SIZE - 1 <=? count (recvring (unit_of s))) = false) as Hlt
      by (apply Z.leb_gt; lia).
    destruct naps; cbn [cp_write_loop]; erewrite bind_Ret by reflexivity; rewrite Hlt;
      by erewrite bind_Ret by reflexivity.
  - rewrite Hu, Hrc. cbn [s1 unit_of upd recvring]. rewrite Hc', <-app_assoc. done.
Qed.

(** Bytes come out of the ring in order; a non-blocking read of more than
    the ring holds empties it and fails. *)
Lemma cp_read_loop_run naps n : ∀ s : st,
  ring_ok (recvring (unit_of s)) →
  let q := ring_content (recvring (unit_of s)) in
  ∃ s', cp_read_loop true naps n s =
          Ret (if decide (n ≤ length q)%nat then 0 else - EWOULDBLOCK) s' ∧
    (∃ r, unit_of s' = (unit_of s) <| recvring := r |> ∧ ring_ok r ∧ ring_content r = drop n q) ∧
    dev s' = dev s ∧ irqs_on s' = (if decide (n ≤ length q)%nat then irqs_on s else true) ∧
    ∃ l, log s' = log s ++ l ∧ to_user l = take n q.
Proof.
  induction n as [|n IH]; intros s Hok q.
  { exists s. rewrite !decide_True by lia. split; [by destruct naps|].
    split; [exists (recvring (unit_of s)); by destruct (unit_of s)|].
    do 2 (split; [done|]). exists []. by rewrite app_nil_r. }
  pose proof (length_ring_content _ Hok) as Hlen. fold q in Hlen.
  destruct (count (recvring (unit_of s)) =? 0) eqn:E; to_prop.
  { assert (q = []) as Hq by (apply nil_length_inv; lia). rewrite Hq.
    exists (s <| irqs_on := true |>). rewrite !decide_False by (cbn; lia).
    split. { destruct naps; cbn [cp_read_loop]; erewrite bind_Ret by reflexivity;
      rewrite (proj2 (Z.eqb_eq _ _) E); reflexivity. }
    split; [exists (recvring (unit_of s)); destruct s as [[]]; cbn; by rewrite <-Hq|].
    do 2 (split; [done|]). exists []. by rewrite app_nil_r. }
  destruct (ring_get_spec _ Hok) as [Hok' Hc']; [pose proof (ring_count _ Hok); lia|].
  destruct (ringbuf_get (recvring (unit_of s))) as [c ring'] eqn:Eg. cbn [fst snd] in *.
  set (s1 := s <| unit_of := (unit_of s) <| recvring := ring' |> |> <| log := log s ++ [ToUser [c]] |>).
  destruct (IH s1 Hok') as (s' & Hr & (r & Hu & Hrok & Hrc) & Hd & Hi & l & Hl & Ht).
  fold q in Hc'. change (ring_content (recvring (unit_of s1))) with (ring_content ring') in *.
  assert (length q = S (length (ring_content ring'))) as Hlq by by rewrite Hc'.
  assert (∀ (A : Type) (a b : A), (if decide (S n ≤ length q)%nat then a else b) =
    (if decide (n ≤ length (ring_content ring'))%nat then a else b)) as Hdec.
  { intros A a b. do 2 case_decide; done || lia. }
  exists s'. rewrite !Hdec. split_and!; [|exists r|done|done|].
  - rewrite <-Hr. apply Z.eqb_neq in E.
    destruct naps; cbn [cp_read_loop]; erewrite bind_Ret by reflexivity; rewrite E, Eg;
      by do 2 erewrite bind_Ret by reflexivity.
  - rewrite Hu, Hrc, Hc'. done.
  - exists (ToUser [c] :: l). rewrite Hl, Hc'. cbn. rewrite <-app_assoc. split; [done|].
    cbn in Ht. by rewrite <-Ht.
Qed.

End FopsFacts.

(** ** Properties *)

(** C2: a packet travels unchanged from one side to the other.  A valid packet
    of [len] bytes written by [mrp_write] on an open, reset and idle unit is
    accepted ([len] is returned); if the other side's board presents exactly
    the words that the write pushed into the FIFO, [mrp_recv] there stores the
    packet and [mrp_read] returns [len] and gives the caller exactly the
    bytes that were written.  This holds for every packet length, multiple of
    four or not, and for any two boards. *)
Theorem packet_roundtrip {DA DB : Type} `{MrpDevice DA} `{MrpDevice DB}
    (mA mB : Z) (nbA nbB : bool) (ub : list Z) (len nbytes : Z) (vaA vaB : Z → Z)
    (kb : kmalloc_out (D:=DA)) napsA napsB (fuel : nat)
    (sA : io DA mrp_unit) (sB : io DB mrp_unit) :
  has mA 0x40 = false → unit_inv (unit_of sA) → packet_open (unit_of sA) →
  has (flags (unit_of sA)) MRPF_RESET = true → has (flags (unit_of sA)) MRPF_SBUSY = false →
  Forall is_byte ub → Z.of_nat (length ub) = len → vaA len = 0 →
  write_valid ub len = true →
  req (hdr_of_words (words_of_bytes (take (Z.to_nat sizeof_hdr) ub))) ≠ REQ_TRESET →
  has mB 0x40 = false → unit_inv (unit_of sB) → packet_open (unit_of sB) →
  has (flags (unit_of sB)) MRPF_RESET = true → has (flags (unit_of sB)) MRPF_RDONE = false →
  has (flags (unit_of sB)) MRPF_REQTAG = false →
  MRP_MAX_PKT_SIZE ≤ nbytes → (∀ n, vaB n = 0) →
  ∃ sA' sent,
    mrp_write mA nbA ub len vaA kb napsA sA = Ret len sA' ∧
    fifo_writes (log sA') = fifo_writes (log sA) ++ sent ∧
    ∀ d', presents sent (dev sB) d' →
      ∃ sB1 sB2,
        mrp_recv (S fuel) sB = Ret 1 sB1 ∧
        mrp_read mB nbB nbytes vaB napsB sB1 = Ret len sB2 ∧
        to_user (log sB2) = to_user (log sB) ++ ub.
Proof.
  intros HmA HiA HoA HrA HbA Hub Hlen HvA Hv Hreq HmB HiB HoB HrB HdB HtB Hn HvB.
  destruct (write_valid_spec _ _ Hv) as ([Hge Hle] & _).
  destruct (write_packet_run nbA ub len napsA sA) as (sA' & ws & v & Hw & Hc & Hws & Hlog & _);
    try done.
  destruct (write_valid_packet _ _ _ Hv Hlen Hc Hws) as [Hok Hsize].
  exists sA', ws. split_and!.
  - rewrite write_checks; try done. 2:{ unfold sizeof_hdr, MRP_MAX_PKT_SIZE in *. lia. }
    cbn zeta. rewrite Hv. by apply Z.eqb_neq in Hreq as ->.
  - rewrite Hlog, !fifo_writes_app, fifo_writes_words. cbn. by rewrite app_nil_r.
  - intros d' Hp. rewrite <-Hlen in Hsize.
    destruct (recv_then_read fuel mB nbB nbytes vaB napsB ws ub sB d')
      as (s1 & s2 & H1 & H2 & H3 & _); try done.
    exists s1, s2. by rewrite H2, Hlen.
Qed.

Section Props.
Context {D : Type} `{MrpDevice D}.

Local Abbreviation st := (io D mrp_unit).
Local Abbreviation nap := (nap (D:=D) (U:=mrp_unit)).

(** [mrp_write] on the packet interface accepts exactly the valid packets
    (size between a header and [MRP_MAX_PKT_SIZE], magic number, size field
    equal to the length, checksum), for every length a caller can pass,
    negative ones included: an invalid packet is refused with [-EINVAL] and
    nothing at all changes; a valid one is accepted on a unit that is reset
    and idle when memory can be had, and the interrupt flag is set again. *)
Theorem write_accepts_valid (minor : Z) (nonblock : bool) (ub : list Z) (len : Z)
    (va : Z → Z) (blk : list Z) (naps : list nap) (s : st) :
  has minor 0x40 = false → packet_open (unit_of s) → unit_inv (unit_of s) →
  has (flags (unit_of s)) MRPF_RESET = true → has (flags (unit_of s)) MRPF_SBUSY = false →
  - 2 ^ 31 ≤ len < 2 ^ 31 → va len = 0 → Forall is_byte ub → Z.of_nat (length ub) = Z.max 0 len →
  (write_valid ub len = false →
     mrp_write minor nonblock ub len va (kmalloc_at_once (Some blk)) naps s = Ret (- EINVAL) s) ∧
  (write_valid ub len = true →
     ∃ s', mrp_write minor nonblock ub len va (kmalloc_at_once (Some blk)) naps s = Ret len s' ∧
       irqs_on s' = true).
Proof.
  intros Hmin Hop Hinv Hres Hbusy Hlen Hva Hub Hul. rewrite write_checks by done. cbn zeta.
  split; intros Hv; rewrite Hv; [done|].
  destruct (write_valid_spec _ _ Hv) as ([Hge Hle] & _). unfold sizeof_hdr in Hge.
  destruct (req _ =? REQ_TRESET).
  - pose proof (write_treset_returns (hdr_of_words
      (words_of_bytes (take (Z.to_nat sizeof_hdr) ub))) ub len blk s) as Hw.
    apply wp_Ret in Hw as (r & s' & Hr & -> & Hi). by exists s'.
  - destruct (write_packet_run nonblock ub len naps s)
      as (s' & ws & v & Hw & _ & _ & _ & Hi & _); try done; [lia|]. by exists s'.
Qed.

(** a reset request with a tag makes the next read hang the machine.
    After [mrp_write] accepted a [REQ_TRESET] packet of mode 0 whose tag is not
    0, any [mrp_read] with a large enough buffer loops for ever with
    interrupts off, because nothing was received yet and nothing can be:
    the flag [MRPF_REQTAG] that makes it wait is never cleared. *)
Theorem treset_then_read_hangs (minor : Z) (nb nb' : bool) (ub : list Z) (len : Z)
    (va : Z → Z) (blk : list Z) (naps naps' : list nap) (nbytes : Z) (s : st) :
  has minor 0x40 = false → packet_open (unit_of s) → unit_inv (unit_of s) →
  Forall is_byte ub → Z.of_nat (length ub) = len → len ≤ 4 * Z.of_nat (length blk) →
  write_valid ub len = true → (∀ n, va n = 0) →
  let hdr := hdr_of_words (words_of_bytes (take (Z.to_nat sizeof_hdr) ub)) in
  req hdr = REQ_TRESET → tag hdr ≠ 0 → pkt_reset_mode ub len = 0 →
  MRP_MAX_PKT_SIZE ≤ nbytes →
  ∃ s1 s2,
    mrp_write minor nb ub len va (kmalloc_at_once (Some blk)) naps s = Ret len s1 ∧
    mrp_read minor nb' nbytes va naps' s1 = Stuck BusyLoop s2.
Proof.
  intros Hmin Hop Hinv Hub Hlen Hblk Hv Hva hdr Hreq Htag Hmode Hn.
  destruct (write_valid_spec _ _ Hv) as ([Hge Hle] & _).
  destruct (write_treset_run hdr ub len blk s Hinv Hmode Htag) as (s1 & Hw & Hu).
  assert (Hop1 : packet_open (unit_of s1)).
  { rewrite Hu. destruct Hop. unfold packet_open, boot_reset_unit, reset_unit.
    cbn [flags upd]. flag_simpl. done. }
  assert (Hinv1 : unit_inv (unit_of s1)).
  { rewrite Hu. apply reset_unit_inv in Hinv as Hr. cbn zeta.
    assert (boot_ok (Some (memcpy_fromfs blk ub len)) len).
    { unfold boot_ok, sizeof_hdr in *. rewrite length_memcpy by lia. split; [lia|].
      unfold nwords. Z.div_mod_to_equations. lia. }
    destruct Hr. constructor; cbn -[hdr_of_words deci_cksum memcpy_fromfs boot_ok] in *; try done;
      [auto with mrp|..]; flag_simpl; done. }
  destruct (read_reqtag_hangs minor nb' nbytes va naps' s1) as [s2 Hr]; try done.
  1-3: rewrite Hu; unfold boot_reset_unit, reset_unit; cbn [flags upd]; by flag_simpl.
  exists s1, s2. split; [|done]. rewrite write_checks; try done.
  - cbn zeta. fold hdr. by rewrite Hv, Hreq, Z.eqb_refl.
  - unfold sizeof_hdr, MRP_MAX_PKT_SIZE in *. lia.
Qed.

(** after the board sent one word that announces a packet longer than
    [MRP_MAX_PKT_SIZE], [mrp_recv] fails but leaves the announced size in
    [rlen], and the next [mrp_read] copies that many bytes out of the 16 KB
    [recvbuf], past its end, although no packet was received. *)
Theorem bad_header_read_overruns (minor : Z) (nb : bool) (nbytes : Z) (va : Z → Z)
    (naps : list nap) (fuel : nat) (w0 : Z) (s : st) (d1 d2 : D) (f1 : Z) :
  has minor 0x40 = false → packet_open (unit_of s) → unit_inv (unit_of s) →
  has (flags (unit_of s)) MRPF_RESET = true → has (flags (unit_of s)) MRPF_RDONE = false →
  has (flags (unit_of s)) MRPF_REQTAG = false →
  is_word w0 → MRP_MAX_PKT_SIZE < hi16 w0 → greets w0 (dev s) d1 →
  dev_read FST d1 = (f1, d2) → has (u16 f1) MRP_FSTF_0001 = true →
  MRP_MAX_PKT_SIZE ≤ nbytes → (∀ n, va n = 0) →
  ∃ s1 s2,
    mrp_recv (S fuel) s = Ret (-1) s1 ∧
    mrp_read minor nb nbytes va naps s1 = Stuck OutOfBounds s2.
Proof.
  intros Hmin Hop Hinv Hres Hdone Htag Hw Hbig Hg Hf He Hn Hva.
  pose proof (inv_recvbuf _ Hinv) as Hbuf.
  destruct (recv_bad_header w0 fuel s d1 f1 d2) as (s1 & Hr & Hfl & Hrl & Hl); try done.
  destruct (read_overrun minor nb nbytes va naps s1) as [s2 Hr2];
    unfold packet_open in *; rewrite ?Hfl, ?Hrl, ?Hl; try done.
  by exists s1, s2.
Qed.

(** bytes written to the control port come back to the local reader
    instead of going out: [mrp_write] appends them to [recvring], leaves
    [sendring] alone, and touches no register of the board. *)
Theorem cp_write_echoes (minor : Z) (nb : bool) (ub : list Z) (va : Z → Z)
    (kb : kmalloc_out (D:=D)) (naps : list nap) (s : st) :
  has minor 0x40 = true → cp_open (unit_of s) → unit_inv (unit_of s) →
  (∀ n, va n = 0) →
  count (recvring (unit_of s)) + Z.of_nat (length ub) ≤ RINGBUF_SIZE - 1 →
  ∃ s', mrp_write minor nb ub (Z.of_nat (length ub)) va kb naps s =
          Ret (Z.of_nat (length ub)) s' ∧
    ring_content (recvring (unit_of s')) =
      ring_content (recvring (unit_of s)) ++ (u8 <$> ub) ∧
    sendring (unit_of s') = sendring (unit_of s) ∧
    dev s' = dev s ∧ log s' = log s.
Proof.
  intros Hmin [Hval Hop] Hinv Hva Hfit.
  unfold mrp_write. destruct (minor_index minor) as [_ ->].
  erewrite bind_Ret by reflexivity. rewrite Hval, Hmin. cbn [negb].
  unfold mrp_write_cp. erewrite bind_Ret by reflexivity. rewrite Hop, Hva. cbn [negb Z.eqb].
  erewrite bind_Ret by reflexivity. rewrite Nat2Z.id, firstn_all.
  destruct (cp_write_loop_run nb naps ub (s <| irqs_on := false |>))
    as (s1 & Hr & (r & Hu & Hok & Hc) & Hd & Hl & Hi); [apply Hinv|done|].
  erewrite bind_Ret by exact Hr. cbn [negb Z.eqb]. erewrite bind_Ret by reflexivity.
  erewrite bind_Ret.
  2:{ apply cps_idle. cbn [unit_of upd]. rewrite Hu. cbn [unit_of upd]. solve_inv. }
  rewrite Z.max_r by lia. eexists. split; [reflexivity|]. cbn [unit_of upd dev log].
  by rewrite Hu, Hd, Hl.
Qed.

(** what a non-blocking read of the control port does with the [q] bytes
    that are waiting.  It gives the caller the first [nbytes] of them in order
    and takes them out of the ring.  If fewer are waiting it returns
    [-EWOULDBLOCK], yet the bytes are gone: the ring is empty. *)
Theorem cp_read_nonblocking (minor nbytes : Z) (va : Z → Z) (naps : list nap) (s : st) :
  has minor 0x40 = true → cp_open (unit_of s) → unit_inv (unit_of s) →
  0 ≤ nbytes → (∀ n, va n = 0) →
  let q := ring_content (recvring (unit_of s)) in
  ∃ s', mrp_read minor true nbytes va naps s =
          Ret (if decide (nbytes ≤ Z.of_nat (length q)) then nbytes else - EWOULDBLOCK) s' ∧
    ring_content (recvring (unit_of s')) = drop (Z.to_nat nbytes) q ∧
    to_user (log s') = to_user (log s) ++ take (Z.to_nat nbytes) q ∧
    irqs_on s' = true.
Proof.
  intros Hmin [Hval Hop] Hinv Hn Hva q.
  unfold mrp_read. destruct (minor_index minor) as [-> _].
  erewrite bind_Ret by reflexivity. rewrite Hval, Hmin. cbn [negb].
  unfold mrp_read_cp. erewrite bind_Ret by reflexivity. rewrite Hop, Hva. cbn [negb Z.eqb].
  erewrite bind_Ret by reflexivity.
  destruct (cp_read_loop_run naps (Z.to_nat nbytes) (s <| irqs_on := false |>))
    as (s1 & Hr & (r & Hu & Hok & Hc) & Hd & Hi & l & Hl & Ht); [apply Hinv|].
  change (ring_content (recvring (unit_of (s <| irqs_on := false |>)))) with q in *.
  cbn [log upd] in Hl. erewrite bind_Ret by exact Hr.
  destruct (decide (nbytes ≤ Z.of_nat (length q))) as [Hle|Hgt].
  - rewrite decide_True by lia. cbn [negb Z.eqb].
    unfold wr_or, mbind, M_bind, rd, wr. destruct (dev_read IER _) as [v d].
    rewrite Z.max_r by done. eexists. split; [reflexivity|].
    cbn [sti modify unit_of upd log irqs_on]. rewrite Hu, Hl, !to_user_app, Ht. cbn.
    rewrite !app_nil_r. done.
  - rewrite decide_False in Hi by lia. rewrite decide_False by lia. exists s1. by rewrite Hu, Hl, to_user_app, Ht.
Qed.

(** [MRP_IOCTL_SY] on a busy unit with [O_NONBLOCK] returns [-EWOULDBLOCK]
    with the processor's interrupts off, whatever they were before. *)
Theorem ioctl_sy_leaves_irqs_off (minor : Z) (va : Z → Z) (naps : list nap) (s : st) :
  has minor 0x40 = false → has (flags (unit_of s)) MRPF_VALID = true →
  has (flags (unit_of s)) MRPF_SBUSY = true →
  mrp_ioctl minor true MRP_IOCTL_SY va naps s =
  Ret (- EWOULDBLOCK) (s <| irqs_on := false |>).
Proof.
  intros Hmin Hval Hb. unfold mrp_ioctl. destruct (minor_index minor) as [-> _].
  erewrite bind_Ret by reflexivity. rewrite Hval, Hmin.
  cbn [negb andb]. eqb_eval. erewrite bind_Ret by reflexivity.
  destruct naps; cbn [wait_not_busy];
    (erewrite bind_Ret; [|erewrite bind_Ret by reflexivity; cbn [unit_of upd]; rewrite Hb; reflexivity]);
    reflexivity.
Qed.

(** [select] and the operations agree on the packet interface: when
    [mrp_select] reports that the unit can be written, a non-blocking
    [mrp_write] does not answer [-EWOULDBLOCK], whatever is written; when it
    does not report it, [mrp_write] of a valid packet answers just that. *)
Theorem select_out_agrees (minor : Z) (ub : list Z) (len : Z) (va : Z → Z) (blk : list Z)
    (naps : list nap) (s : st) :
  has minor 0x40 = false → packet_open (unit_of s) → unit_inv (unit_of s) →
  has (flags (unit_of s)) MRPF_RESET = true →
  Forall is_byte ub → Z.of_nat (length ub) = len → va len = 0 →
  write_valid ub len = true →
  req (hdr_of_words (words_of_bytes (take (Z.to_nat sizeof_hdr) ub))) ≠ REQ_TRESET →
  ∃ r s1 w s2,
    mrp_select minor SEL_OUT s = Ret r s1 ∧
    mrp_write minor true ub len va (kmalloc_at_once (Some blk)) naps s = Ret w s2 ∧
    (r = 1 ∧ w = len ∨ r = 0 ∧ w = - EWOULDBLOCK).
Proof.
  intros Hmin Hop Hinv Hres Hub Hlen Hva Hv Hreq.
  destruct (write_valid_spec _ _ Hv) as ([Hge Hle] & _). unfold sizeof_hdr in Hge.
  rewrite write_checks by (try done; unfold MRP_MAX_PKT_SIZE in *; lia).
  cbn zeta. rewrite Hv. apply Z.eqb_neq in Hreq as ->.
  unfold mrp_select. destruct (minor_index minor) as [-> _].
  erewrite bind_Ret by reflexivity. rewrite Hmin. eqb_eval.
  destruct (has (flags (unit_of s)) MRPF_SBUSY) eqn:Hb; cbn [negb].
  - eexists _, _, _, (s <| irqs_on := true |>).
    split; [reflexivity|]. split; [|right; split; reflexivity].
    unfold mrp_write_packet. erewrite bind_Ret by reflexivity. rewrite Hres. cbn [negb].
    erewrite bind_Ret by reflexivity.
    destruct naps; cbn [wait_not_busy];
      (erewrite bind_Ret; [|erewrite bind_Ret by reflexivity; cbn [unit_of upd]; rewrite Hb;
        reflexivity]); reflexivity.
  - destruct (write_packet_run true ub len naps s) as (s2 & ws & v & Hw & _); try done.
    eexists _, _, _, s2. split; [reflexivity|]. split; [exact Hw|by left].
Qed.

End Props.

(** ** Instances *)

Definition flagged_unit (f : Z) : mrp_unit := idle_unit <| flags := f |>.

(** Detected, valid, reset and open for packets; open for the control port. *)
Definition open_flags : Z := 0xf.
Definition cp_flags : Z := 0x87.

(** A packet of 35 bytes, and a reset request with tag 4. *)
Definition sample_bytes : list Z :=
  bytes_of_words (words_of_hdr (seal
    {| magic := DECI_MAGIC; size := 0x23; category := 1; priority := 2; reply := 3;
       tag := 4; acktag := 5; ackcode := 6; pad := 0; crsv := 7; cid := 8; seq := 9;
       req := 10; cksum := 0 |})) ++ [1; 2; 3].

Definition treset_bytes : list Z :=
  bytes_of_words (words_of_hdr (seal
    {| magic := DECI_MAGIC; size := 0x20; category := 1; priority := 2; reply := 3;
       tag := 4; acktag := 5; ackcode := 6; pad := 0; crsv := 7; cid := 8; seq := 9;
       req := REQ_TRESET; cksum := 0 |})).

Lemma flagged_unit_inv f :
  0 ≤ f < 2 ^ 16 → has f MRPF_CPBUSY = false → has f MRPF_RDONE = false →
  unit_inv (flagged_unit f).
Proof.
  intros Hf Hc Hr. pose proof idle_unit_inv as [].
  split; cbn -[hdr_of_words ring_zero idle_unit] in *; try assumption.
  by rewrite Hr.
Qed.

Definition no_naps : list (nap (D:=simdev) (U:=mrp_unit)) := [].

Lemma packet_roundtrip_witness :
  let va := λ _ : Z, 0 in
  let sA := sim_state (flagged_unit open_flags) [] 0 in
  let sB := sim_state (flagged_unit open_flags) (words_of_bytes sample_bytes) 0 in
  ∃ sA' sB1 sB2,
    mrp_write 0 true sample_bytes 35 va (kmalloc_at_once None) no_naps sA = Ret 35 sA' ∧
    fifo_writes (log sA') = words_of_bytes sample_bytes ∧
    mrp_recv 1 sB = Ret 1 sB1 ∧
    mrp_read 1 false 0x4000 va no_naps sB1 = Ret 35 sB2 ∧
    to_user (log sB2) = sample_bytes.
Proof.
  intros va sA sB.
  destruct (packet_roundtrip 0 1 true false sample_bytes 35 0x4000 va va (kmalloc_at_once None) no_naps no_naps
    0 sA sB) as (sA' & sent & Hw & Hf & Hk);
    [first [reflexivity | by_compute | discriminate | split; reflexivity
           | apply flagged_unit_inv; by_compute | done] .. |].
  assert (sent = words_of_bytes sample_bytes) as ->.
  { cut (fifo_writes (log sA') = words_of_bytes sample_bytes).
    { rewrite Hf. exact id. }
    change (match Ret 35 sA' with Ret _ s => fifo_writes (log s) | Stuck _ _ => [] end =
      words_of_bytes sample_bytes).
    rewrite <-Hw. vm_compute. reflexivity. }
  destruct (Hk (sim_board [] 0)) as (sB1 & sB2 & H1 & H2 & H3).
  { do 3 eexists. split; [reflexivity|]. split.
    - do 4 eexists. split_and!; reflexivity.
    - repeat (eexists; split; [reflexivity|]). reflexivity. }
  exists sA', sB1, sB2. split_and!; [exact Hw|exact Hf|exact H1|exact H2|exact H3].
Defined.

Lemma write_accepts_valid_witness :
  let s := sim_state (flagged_unit open_flags) [] 0 in
  (write_valid sample_bytes 35 = false →
     mrp_write 0 true sample_bytes 35 (λ _, 0) (kmalloc_at_once (Some [])) no_naps s = Ret (- EINVAL) s) ∧
  (write_valid sample_bytes 35 = true →
     ∃ s', mrp_write 0 true sample_bytes 35 (λ _, 0) (kmalloc_at_once (Some [])) no_naps s = Ret 35 s' ∧
       irqs_on s' = true).
Proof.
  intros s.
  apply (write_accepts_valid 0 true sample_bytes 35 (λ _, 0) [] no_naps s);
    first [reflexivity | by_compute | discriminate | split; reflexivity
          | apply flagged_unit_inv; by_compute | done].
Defined.

Lemma treset_then_read_hangs_witness :
  let s := sim_state (flagged_unit open_flags) [] 0 in
  ∃ s1 s2,
    mrp_write 0 true treset_bytes 32 (λ _, 0) (kmalloc_at_once (Some (replicate 8 0))) no_naps s = Ret 32 s1 ∧
    mrp_read 0 false 0x4000 (λ _, 0) no_naps s1 = Stuck BusyLoop s2.
Proof.
  intros s.
  apply (treset_then_read_hangs 0 true false treset_bytes 32 (λ _, 0) (replicate 8 0)
    no_naps no_naps 0x4000 s);
    first [reflexivity | by_compute | discriminate | split; reflexivity
          | apply flagged_unit_inv; by_compute | done].
Defined.

Lemma bad_header_read_overruns_witness :
  let s := sim_state (flagged_unit open_flags) [0xffffa14c] 0 in
  ∃ s1 s2,
    mrp_recv 1 s = Ret (-1) s1 ∧
    mrp_read 0 false 0x4000 (λ _, 0) no_naps s1 = Stuck OutOfBounds s2.
Proof.
  intros s.
  apply (bad_header_read_overruns 0 false 0x4000 (λ _, 0) no_naps 0 0xffffa14c s
    (sim_board [] 0) (sim_board [] 0) 1);
    first [reflexivity | by_compute | discriminate | split; reflexivity
          | apply flagged_unit_inv; by_compute | do 4 eexists; split_and!; reflexivity].
Defined.

Lemma cp_write_echoes_witness :
  let s := sim_state (flagged_unit cp_flags) [] 0 in
  ∃ s', mrp_write 0x40 true [0x68; 0x69] 2 (λ _, 0) (kmalloc_at_once None) no_naps s = Ret 2 s' ∧
    ring_content (recvring (unit_of s')) = [] ++ [0x68; 0x69] ∧
    sendring (unit_of s') = sendring (unit_of s) ∧
    dev s' = dev s ∧ log s' = log s.
Proof.
  intros s.
  apply (cp_write_echoes 0x40 true [0x68; 0x69] (λ _, 0) (kmalloc_at_once None) no_naps s);
    first [reflexivity | by_compute | split; reflexivity
          | apply flagged_unit_inv; by_compute | done].
Defined.

Lemma cp_read_nonblocking_witness :
  let s := sim_state ((flagged_unit cp_flags) <| recvring := ringbuf_put ring_zero 7 |>) [] 0 in
  ∃ s', mrp_read 0x40 true 2 (λ _, 0) no_naps s = Ret (- EWOULDBLOCK) s' ∧
    ring_content (recvring (unit_of s')) = [] ∧
    to_user (log s') = [7] ∧ irqs_on s' = true.
Proof.
  intros s.
  destruct (cp_read_nonblocking 0x40 2 (λ _, 0) no_naps s) as (s' & H1 & H2 & H3 & H4).
  - reflexivity.
  - split; reflexivity.
  - assert (unit_inv (flagged_unit cp_flags)) as Hi by (apply flagged_unit_inv; by_compute).
    solve_inv. apply ring_put_spec; [apply ring_zero_ok|by_compute].
  - lia.
  - done.
  - exists s'. rewrite H1, H2, H3, H4. split_and!; vm_compute; reflexivity.
Defined.

Lemma ioctl_sy_leaves_irqs_off_witness :
  let s := sim_state (flagged_unit (Z.lor open_flags MRPF_SBUSY)) [] 0 in
  mrp_ioctl 0 true MRP_IOCTL_SY (λ _, 0) no_naps s = Ret (- EWOULDBLOCK) (s <| irqs_on := false |>).
Proof.
  intros s. apply (ioctl_sy_leaves_irqs_off 0 (λ _, 0) no_naps s); reflexivity.
Defined.

Lemma select_out_agrees_witness :
  let s := sim_state (flagged_unit (Z.lor open_flags MRPF_SBUSY)) [] 0 in
  ∃ r s1 w s2,
    mrp_select 0 SEL_OUT s = Ret r s1 ∧
    mrp_write 0 true sample_bytes 35 (λ _, 0) (kmalloc_at_once (Some [])) no_naps s = Ret w s2 ∧
    (r = 1 ∧ w = 35 ∨ r = 0 ∧ w = - EWOULDBLOCK).
Proof.
  intros s.
  apply (select_out_agrees 0 sample_bytes 35 (λ _, 0) [] no_naps s);
    first [reflexivity | by_compute | discriminate | split; reflexivity
          | apply flagged_unit_inv; by_compute | done].
Defined.
