(* ===== verification/MrpSys.v ===== *)
(** * MrpSys: a DECI1 unit in use

    The unit, its board and the files open on it as a transition system.  A
    step is one file operation that returns, as the kernel calls it (only on
    an open file, except for open itself), or one interrupt.  While a call
    sleeps, other calls and interrupts make steps of their own.  The kernel
    records in the log which files it has opened and closed; [sys_inv] ties
    the driver's flags and the module's use count to them, and holds in every
    reachable state. *)

From stdpp Require Import relations.
From S2P Require Import Prelude Ring Deci MrpHw Mrp MrpFacts MrpInv MrpFops MrpFopsFacts.

(** The two interfaces of a unit. *)
Inductive plane := Packet | Control.

#[global] Instance plane_eq_dec : EqDecision plane.
Proof. solve_decision. Defined.

Definition plane_of (minor : Z) : plane := if has minor 0x40 then Control else Packet.

Definition plane_flag (p : plane) : Z :=
  match p with Packet => MRPF_OPENED | Control => MRPF_CPOPEN end.

Create HintDb stable.

Section Sys.
Context {D : Type} `{MrpDevice D}.

Local Abbreviation st := (io D mrp_unit).
Local Abbreviation nap := (nap (D:=D) (U:=mrp_unit)).

(** ** The transition system *)

(** The open files, from what the kernel has recorded of them. *)
Definition file_event (fs : list plane) (e : ev) : list plane :=
  match e with
  | FileOpened minor => plane_of minor :: fs
  | FileClosed minor => list_difference fs [plane_of minor]
  | _ => fs
  end.

Definition files_of (l : list ev) : list plane := foldl file_event [] l.

Definition files (s : st) : list plane := files_of (log s).

(** The kernel's own record. *)
Definition note (e : ev) (s : st) : st := s <| log := log s ++ [e] |>.

Section Step.
Context (env : st → st → Prop).

(** While a process sleeps in a call on a file of interface [p], the rest of
    the system makes any number of [env] steps; the file stays open. *)
Definition nap_ok (p : plane) (n : nap) : Prop :=
  ∀ s, rtc env s (nap_env n s) ∧ (p ∈ files s → p ∈ files (nap_env n s)).

(** The block that [kmalloc] returns is as large as asked for. *)
Definition block_ok (kb : kmalloc_out (D:=D)) (len : Z) : Prop :=
  ∀ blk, km_block kb = Some blk → len ≤ 4 * Z.of_nat (length blk).

Inductive mrp_step : st → st → Prop :=
| StepOpen s minor r s' :
    mrp_open minor s = Ret r s' →
    mrp_step s (if r =? 0 then note (FileOpened minor) s' else s')
| StepRelease s minor s' :
    plane_of minor ∈ files s → mrp_release minor s = Ret tt s' →
    mrp_step s (note (FileClosed minor) s')
| StepRead s minor nonblock nbytes va naps r s' :
    plane_of minor ∈ files s → Forall (nap_ok (plane_of minor)) naps →
    mrp_read minor nonblock nbytes va naps s = Ret r s' → mrp_step s s'
| StepWrite s minor nonblock ub len va kb naps r s' :
    plane_of minor ∈ files s → Forall (nap_ok (plane_of minor)) naps →
    Forall (nap_ok (plane_of minor)) (km_naps kb) →
    Forall is_byte ub → len = Z.of_nat (length ub) → block_ok kb len →
    mrp_write minor nonblock ub len va kb naps s = Ret r s' → mrp_step s s'
| StepSelect s minor sel_type r s' :
    plane_of minor ∈ files s → mrp_select minor sel_type s = Ret r s' → mrp_step s s'
| StepIoctl s minor nonblock cmd va naps r s' :
    plane_of minor ∈ files s → Forall (nap_ok (plane_of minor)) naps →
    mrp_ioctl minor nonblock cmd va naps s = Ret r s' → mrp_step s s'
| StepInterrupt s fuel s' :
    mrp_interrupt fuel s = Ret tt s' → mrp_step s s'.

End Step.

(** Calls whose sleeps are filled with such steps again, [k] deep: while one
    process sleeps, others open, close, read and write, sleep themselves, and
    the board interrupts. *)
Fixpoint step_at (k : nat) : st → st → Prop :=
  match k with
  | O => mrp_step (λ _ _, False)
  | S k' => mrp_step (step_at k')
  end.

Definition sys_step (s s' : st) : Prop := ∃ k, step_at k s s'.

(** ** The invariant *)

Record sys_inv (s : st) : Prop := {
  sys_unit : unit_inv (unit_of s);
  sys_valid : has (flags (unit_of s)) MRPF_VALID = true;
  sys_flag p : has (flags (unit_of s)) (plane_flag p) = bool_decide (p ∈ files s);
  sys_nodup : NoDup (files s);
  sys_use : use_count (log s) = Z.of_nat (length (files s));
}.

(** A log that tells of no open file. *)
Definition idle_log (l : list ev) : Prop := use_count l = 0 ∧ files_of l = [].

(** A unit as [mrp_init] leaves it. *)
Definition sys_start (s : st) : Prop :=
  unit_inv (unit_of s) ∧ idle_log (log s) ∧
  has (flags (unit_of s)) MRPF_VALID = true ∧
  (∀ p, has (flags (unit_of s)) (plane_flag p) = false).

(** ** What the open files are compared with *)

Definition obs (s : st) : bool * bool * bool * Z * list plane :=
  (has (flags (unit_of s)) MRPF_VALID, has (flags (unit_of s)) MRPF_OPENED,
   has (flags (unit_of s)) MRPF_CPOPEN, use_count (log s), files s).

Definition in_sync (o : bool * bool * bool * Z * list plane) : Prop :=
  let '(valid, opened, cpopen, use, fs) := o in
  valid = true ∧ opened = bool_decide (Packet ∈ fs) ∧ cpopen = bool_decide (Control ∈ fs) ∧
  NoDup fs ∧ use = Z.of_nat (length fs).

Lemma in_sync_obs s :
  in_sync (obs s) ↔ has (flags (unit_of s)) MRPF_VALID = true ∧
    (∀ p, has (flags (unit_of s)) (plane_flag p) = bool_decide (p ∈ files s)) ∧
    NoDup (files s) ∧ use_count (log s) = Z.of_nat (length (files s)).
Proof.
  split.
  - intros (H1 & H2 & H3 & H4 & H5). split_and!; try done. by intros [].
  - intros (H1 & H2 & H3 & H4). split_and!; try done; [apply (H2 Packet)|apply (H2 Control)].
Qed.

Lemma sys_inv_sync s : sys_inv s ↔ unit_inv (unit_of s) ∧ in_sync (obs s).
Proof.
  rewrite in_sync_obs. split; [by intros []|]. by intros (? & ? & ? & ? & ?).
Qed.

(** An event that is no business of the open files. *)
Definition plain (e : ev) : bool :=
  match e with ModUse _ | FileOpened _ | FileClosed _ => false | _ => true end.

Lemma plain_log l e : plain e = true → use_count (l ++ [e]) = use_count l ∧ files_of (l ++ [e]) = files_of l.
Proof.
  intros He. rewrite use_count_app. unfold files_of. rewrite foldl_app.
  by destruct e; try discriminate; cbn; rewrite Z.add_0_r.
Qed.

Lemma idle_plain l e : idle_log l → plain e = true → idle_log (l ++ [e]).
Proof. intros [H1 H2] He. destruct (plain_log l e He) as [E1 E2]. split; congruence. Qed.

Lemma obs_plain s s' e :
  log s' = log s ++ [e] → plain e = true → flags (unit_of s') = flags (unit_of s) → obs s' = obs s.
Proof.
  intros Hl He Hf. unfold obs, files. rewrite Hf, Hl.
  by destruct (plain_log (log s) e He) as [-> ->].
Qed.

(** ** What an operation leaves alone *)

Section Stable.
Context (G : bool * bool * bool * Z * list plane → Prop).

(** Whatever [G] says of the flags, the use count and the files is still so
    when [m] returns. *)
Definition stable {A} (m : M st A) : Prop :=
  ∀ s, G (obs s) → match m s with Ret _ s' => G (obs s') | Stuck _ _ => True end.

Definition nap_stable (n : nap) : Prop := ∀ s, G (obs s) → G (obs (nap_env n s)).

Lemma stable_same {A} (m : M st A) :
  (∀ s, match m s with Ret _ s' => obs s' = obs s | Stuck _ _ => True end) → stable m.
Proof. intros Hm s Hs. specialize (Hm s). destruct (m s); [by rewrite Hm|done]. Qed.

Lemma stable_bind {A B} (m : M st A) (k : A → M st B) :
  stable m → (∀ a, stable (k a)) → stable (m ≫= k).
Proof.
  intros Hm Hk s Hs. unfold mbind, M_bind. specialize (Hm s Hs).
  destruct (m s) as [a s'|]; [|done]. exact (Hk a s' Hm).
Qed.

Lemma stable_when b m : stable m → stable (when b m).
Proof. intros Hm. destruct b; [done|by apply stable_same]. Qed.

Lemma stable_for_each {C} (l : list C) g : (∀ x, x ∈ l → stable (g x)) → stable (for_each l g).
Proof.
  induction l as [|x l IH]; cbn; intros Hg; [by apply stable_same|].
  apply stable_bind; [apply Hg; set_solver|]. intros _. apply IH. intros y Hy. apply Hg. set_solver.
Qed.

Lemma stable_emit e : plain e = true → stable (emit e).
Proof. intros He. apply stable_same. intros s. eapply obs_plain; [reflexivity|done|done]. Qed.

Lemma stable_rd r : stable (rd r).
Proof.
  apply stable_same. intros s. unfold rd. destruct (dev_read r (dev s)). eapply obs_plain; [reflexivity|done|done].
Qed.

Lemma stable_wr r v : stable (wr r v).
Proof. apply stable_same. intros s. eapply obs_plain; [reflexivity|done|done]. Qed.

Lemma stable_wr_or r m : stable (wr_or r m).
Proof. apply stable_bind; [apply stable_rd|]. intros v. apply stable_wr. Qed.

Lemma stable_wr_and r m : stable (wr_and r m).
Proof. apply stable_bind; [apply stable_rd|]. intros v. apply stable_wr. Qed.

Lemma stable_modu f :
  (∀ u m, m ∈ [MRPF_VALID; MRPF_OPENED; MRPF_CPOPEN] → has (flags (f u)) m = has (flags u) m) →
  stable (modu f).
Proof. intros Hf. apply stable_same. intros s. unfold obs. cbn. by rewrite !Hf by set_solver. Qed.

Lemma stable_sleep q n : nap_stable n → stable (sleep_on q n).
Proof.
  intros Hn s Hs. apply (Hn (s <| log := log s ++ [Slept q] |>)).
  by rewrite (obs_plain s _ (Slept q)).
Qed.

(** Decompose a [stable] goal along the code. *)
Ltac stable :=
  repeat match goal with
  | |- stable (mbind _ _) => apply stable_bind; [|intros ?]
  | |- stable (when _ _) => apply stable_when
  | |- stable (for_each _ _) => apply stable_for_each; intros ? ?
  | |- stable (rd _) => apply stable_rd
  | |- stable (wr _ _) => apply stable_wr
  | |- stable (wr_or _ _) => apply stable_wr_or
  | |- stable (wr_and _ _) => apply stable_wr_and
  | |- stable (emit _) => apply stable_emit; reflexivity
  | |- stable (udelay _) => apply stable_emit; reflexivity
  | |- stable (wake_up _) => apply stable_emit; reflexivity
  | |- stable (put_bytes _) => apply stable_emit; reflexivity
  | |- stable (select_wait _) => apply stable_emit; reflexivity
  | |- stable (modu _) =>
      let m := fresh "m" in let Hm := fresh in
      apply stable_modu; intros ? m Hm;
      rewrite !elem_of_cons, elem_of_nil in Hm; destruct Hm as [->|[->|[->|[]]]];
      cbn [flags upd]; flag_simpl; reflexivity
  | |- stable (set_flag _) => unfold set_flag
  | |- stable (clear_flag _) => unfold clear_flag
  | |- stable (sleep_on _ _) => by apply stable_sleep
  | |- stable (match ?x with _ => _ end) => destruct x eqn:?
  | |- stable (let '(_, _) := ?x in _) => destruct x
  | |- stable _ => solve [auto with stable | apply stable_same; intros ?; reflexivity]
  end.

Lemma stable_put_fifo src n : stable (mrp_put_fifo src n).
Proof. unfold mrp_put_fifo, put_word. stable. Qed.

Lemma stable_get_fifo off n : stable (mrp_get_fifo off n).
Proof. unfold mrp_get_fifo, get_word. stable. Qed.

Lemma stable_send : stable mrp_send.
Proof. unfold mrp_send. stable. apply stable_put_fifo. Qed.

Lemma stable_reset : stable mrp_reset.
Proof. unfold mrp_reset. stable. Qed.

Lemma stable_cps : stable mrp_cps.
Proof. unfold mrp_cps. stable. Qed.

#[local] Hint Resolve stable_put_fifo stable_get_fifo stable_send stable_reset stable_cps : stable.

Lemma stable_recv fuel : stable (mrp_recv fuel).
Proof.
  assert (stable recv_fail) by (unfold recv_fail; stable).
  assert (stable recv_body) by (unfold recv_body, recv_hdr; stable).
  assert (stable (recv_header fuel)).
  { induction fuel; cbn [recv_header]; unfold printk_rd, recv_hdr; stable. }
  unfold mrp_recv, printk_rd. stable.
Qed.

Lemma stable_interrupt fuel : stable (mrp_interrupt fuel).
Proof.
  pose proof (stable_recv fuel).
  assert (stable mrp_bootp) by (unfold mrp_bootp; stable).
  assert (stable mrp_cpr) by (unfold mrp_cpr; stable).
  unfold mrp_interrupt, interrupt_dispatch, mrp_stat_decode, mrp_dump_regs. stable.
Qed.

Lemma stable_copy_to_user va mem n : stable (copy_to_user va mem n).
Proof. unfold copy_to_user. stable. Qed.

#[local] Hint Resolve stable_copy_to_user : stable.

Lemma stable_cp_read_loop nonblock naps :
  Forall nap_stable naps → ∀ n, stable (cp_read_loop nonblock naps n).
Proof.
  induction 1 as [|nap naps Hn _ IH]; intros n; induction n; cbn [cp_read_loop]; stable.
Qed.

Lemma stable_read minor nonblock nbytes va naps :
  Forall nap_stable naps → stable (mrp_read minor nonblock nbytes va naps).
Proof.
  intros Hn. pose proof (stable_cp_read_loop nonblock naps Hn).
  unfold mrp_read, mrp_read_cp, mrp_read_packet. stable.
Qed.

Lemma stable_cp_write_loop nonblock naps :
  Forall nap_stable naps → ∀ ub, stable (cp_write_loop nonblock naps ub).
Proof.
  induction 1 as [|nap naps Hn _ IH]; intros ub; induction ub; cbn [cp_write_loop]; stable.
Qed.

Lemma stable_wait nonblock naps : Forall nap_stable naps → stable (wait_not_busy nonblock naps).
Proof. induction 1; cbn [wait_not_busy]; stable. Qed.

Lemma stable_write minor nonblock ub len va kb naps :
  Forall nap_stable naps → Forall nap_stable (km_naps kb) → stable (mrp_write minor nonblock ub len va kb naps).
Proof.
  intros Hn Hk. pose proof (stable_cp_write_loop nonblock naps Hn).
  pose proof (stable_wait nonblock naps Hn).
  assert (stable (kmalloc_block kb)).
  { unfold kmalloc_block. stable. rewrite Forall_forall in Hk. by apply stable_sleep, Hk. }
  unfold mrp_write, mrp_write_cp, mrp_write_treset, keep_boot_packet, mrp_write_packet. stable.
Qed.

Lemma stable_select minor sel_type : stable (mrp_select minor sel_type).
Proof. unfold mrp_select. stable. Qed.

Lemma stable_ioctl minor nonblock cmd va naps :
  Forall nap_stable naps → stable (mrp_ioctl minor nonblock cmd va naps).
Proof.
  intros Hn. pose proof (stable_wait nonblock naps Hn). unfold mrp_ioctl. stable.
Qed.

End Stable.

(** ** The unit's invariant *)

Definition inv_op {A} (m : M st A) : Prop :=
  ∀ u, unit_inv u → uwp m (λ _ u', unit_inv u') (λ _, True) u.

Definition nap_inv (n : nap) : Prop :=
  ∀ s, unit_inv (unit_of s) → unit_inv (unit_of (nap_env n s)).

Lemma uwp_sleep q n Q E u :
  nap_inv n → unit_inv u → (∀ u', unit_inv u' → Q tt u') → uwp (sleep_on q n) Q E u.
Proof.
  intros Hn Hu HQ s <-. apply HQ. by apply (Hn (s <| log := log s ++ [Slept q] |>)).
Qed.

Lemma recvring_inv u r : unit_inv u → ring_ok r → unit_inv (u <| recvring := r |>).
Proof. intros Hi Hr. solve_inv. Qed.

(** One byte out of, or into, the ring. *)
Lemma inv_ring_get u (m : M st Z) :
  unit_inv u → (count (recvring u) =? 0) = false → inv_op m →
  uwp (D:=D) (let '(c, ring') := ringbuf_get (recvring u) in
       modu (λ u, u <| recvring := ring' |>) ;; put_bytes [c] ;; m)
    (λ _ u', unit_inv u') (λ _, True) u.
Proof.
  intros Hi E Hm. to_prop. pose proof (ring_count _ (inv_recvring _ Hi)).
  destruct (ring_get_spec (recvring u) (inv_recvring _ Hi)) as [Hr _]; [lia|].
  destruct (ringbuf_get (recvring u)) as [c ring']. unfold put_bytes.
  apply uwp_bind, uwp_modu, uwp_bind, uwp_emit. by apply Hm, recvring_inv.
Qed.

Lemma inv_ring_put u c (m : M st Z) :
  unit_inv u → (RINGBUF_SIZE - 1 <=? count (recvring u)) = false → inv_op m →
  uwp (D:=D) (modu (λ u', u' <| recvring := ringbuf_put (recvring u) c |>) ;; m)
    (λ _ u', unit_inv u') (λ _, True) u.
Proof.
  intros Hi E Hm. to_prop.
  destruct (ring_put_spec (recvring u) c (inv_recvring _ Hi)) as [Hr _]; [lia|].
  apply uwp_bind, uwp_modu. by apply Hm, recvring_inv.
Qed.

Lemma inv_sleep_loop nonblock q (n : nap) (k : M st Z) e1 e2 :
  nap_inv n → inv_op k →
  inv_op (if (nonblock : bool) then sti ;; mret e1
          else sleep_on q n ;; if nap_signal n then sti ;; mret e2 else k).
Proof.
  intros Hn Hk u Hi. destruct nonblock; [by usteps|].
  apply uwp_bind, uwp_sleep; [done|done|]. intros u' Hi'.
  destruct (nap_signal n); [by usteps|by apply Hk].
Qed.

Lemma inv_cp_read_loop nonblock naps :
  Forall nap_inv naps → ∀ n, inv_op (cp_read_loop nonblock naps n).
Proof.
  induction 1 as [|nap naps Hn _ IH]; intros n; induction n as [|n IHn]; intros u Hi;
    cbn [cp_read_loop]; try (by apply uwp_ret);
    apply uwp_bind, uwp_getu; (destruct (count (recvring u) =? 0) eqn:E; [|by apply inv_ring_get]).
  - destruct nonblock; [by usteps|by apply uwp_halt].
  - by apply inv_sleep_loop.
Qed.

Lemma inv_cp_write_loop nonblock naps :
  Forall nap_inv naps → ∀ ub, inv_op (cp_write_loop nonblock naps ub).
Proof.
  induction 1 as [|nap naps Hn _ IH]; intros ub; induction ub as [|c ub IHn]; intros u Hi;
    cbn [cp_write_loop]; try (by apply uwp_ret);
    apply uwp_bind, uwp_getu;
    (destruct (RINGBUF_SIZE - 1 <=? count (recvring u)) eqn:E; [|by apply inv_ring_put]).
  - destruct nonblock; [by usteps|by apply uwp_halt].
  - by apply inv_sleep_loop.
Qed.

Lemma inv_wait nonblock naps : Forall nap_inv naps → inv_op (wait_not_busy nonblock naps).
Proof.
  induction 1 as [|nap naps Hn _ IH]; intros u Hi; cbn [wait_not_busy];
    apply uwp_bind, uwp_getu; (destruct (has _ _); [|by apply uwp_ret]);
    (destruct nonblock; [by apply uwp_ret|]); [by apply uwp_halt|].
  apply uwp_bind, uwp_sleep; [done|done|]. intros u' Hi'.
  destruct (nap_signal nap); [by apply uwp_ret|by apply IH].
Qed.

Lemma uwp_loop (m k : M st Z) u :
  unit_inv u → inv_op m → inv_op k →
  uwp (rc ← m; if negb (rc =? 0) then mret rc else k) (λ _ u', unit_inv u') (λ _, True) u.
Proof.
  intros Hi Hm Hk. apply uwp_bind. eapply uwp_mono; [| |by apply Hm]; [|done].
  intros rc u' Hi'. destruct (negb _); [by apply uwp_ret|by apply Hk].
Qed.

Lemma inv_read_done u :
  unit_inv u → unit_inv (u <| deci_in := Some 0 |> <| rlen := 0 |>
                           <| flags := clr (flags u) MRPF_RDONE |>).
Proof. intros Hi. solve_inv. Qed.

Lemma inv_read_packet nbytes va : inv_op (mrp_read_packet nbytes va).
Proof.
  intros u Hi. unfold mrp_read_packet. do 2 (ustep; cbv beta).
  do 4 (ustep; [by ustep|]). do 2 (ustep; cbv beta).
  apply uwp_bind, uwp_mono with (Q := λ _ u', unit_inv u') (E := λ _, True); [|done|].
  - intros _ u' Hi'. do 2 (ustep; cbv beta). apply uwp_bind.
    unfold copy_to_user, put_bytes. ustep; [|ustep]; usteps; try done.
    all: by apply inv_read_done.
  - apply uwp_when; [|done]. intros _. apply uwp_bind, uwp_send; [done|]. intros _.
    usteps; [|done]. by apply sbusy_inv.
Qed.

Lemma inv_read minor nonblock nbytes va naps :
  Forall nap_inv naps → inv_op (mrp_read minor nonblock nbytes va naps).
Proof.
  intros Hn u Hi. unfold mrp_read. ustep; [by ustep|]. do 2 (ustep; cbv beta).
  ustep; [by ustep|]. ustep; [|by apply inv_read_packet].
  unfold mrp_read_cp. do 2 (ustep; cbv beta). ustep; [by ustep|]. do 2 (ustep; cbv beta).
  ustep; [by usteps|]. apply uwp_loop; [done|by apply inv_cp_read_loop|].
  intros u' Hi'. by usteps.
Qed.

Lemma inv_reset_op : inv_op mrp_reset.
Proof. intros u Hi. apply uwp_reset; [apply Hi|]. by apply reset_unit_inv. Qed.

Lemma boot_packet_ok blk ub len :
  len ≤ 4 * Z.of_nat (length blk) → Z.of_nat (length ub) = len → len ≤ MRP_MAX_PKT_SIZE →
  boot_ok (Some (memcpy_fromfs blk ub len)) len.
Proof.
  intros Hb Hu Hm. cbn -[memcpy_fromfs]. rewrite length_memcpy by lia. split; [lia|].
  unfold nwords. Z.div_mod_to_equations. lia.
Qed.

Lemma uwp_kmalloc kb Q u :
  Forall nap_inv (km_naps kb) → unit_inv u → (∀ u', unit_inv u' → Q (km_block kb) u') →
  uwp (kmalloc_block kb) Q (λ _, True) u.
Proof.
  intros Hn Hu HQ. unfold kmalloc_block. apply uwp_bind.
  revert u Hu. induction Hn as [|n ns Hn _ IH]; intros u Hu; cbn [for_each].
  - apply uwp_ret, uwp_ret. by apply HQ.
  - apply uwp_bind, uwp_sleep; [done|done|]. intros u' Hu'. by apply IH.
Qed.

(** A freed block is still as long as it was. *)
Lemma boot_ok_freed (kb : kmalloc_out (D:=D)) b n : boot_ok b n → boot_ok (freed_block kb b) n.
Proof. destruct b; cbn; [|done]. by rewrite length_resize. Qed.

Lemma inv_keep_boot mode ub len kb :
  Forall nap_inv (km_naps kb) →
  block_ok kb len → Z.of_nat (length ub) = len → len ≤ MRP_MAX_PKT_SIZE →
  inv_op (keep_boot_packet mode ub len kb).
Proof.
  intros Hn Hk Hu Hm u Hi.
  assert (∀ blk, km_block kb = Some blk → boot_ok (Some (memcpy_fromfs blk ub len)) len) as Hb
    by (intros blk E; apply boot_packet_ok; auto).
  unfold keep_boot_packet. usteps.
  1,2: apply uwp_kmalloc; [done|solve_inv; by apply boot_ok_freed|]; clear u Hi; intros u Hi;
    destruct (km_block kb); usteps; solve_inv; by apply Hb.
  solve_inv.
Qed.

Lemma inv_write_treset hdr ub len kb :
  Forall nap_inv (km_naps kb) → block_ok kb len → Z.of_nat (length ub) = len → len ≤ MRP_MAX_PKT_SIZE →
  inv_op (mrp_write_treset hdr ub len kb).
Proof.
  intros Hn Hk Hu Hm u Hi. unfold mrp_write_treset, set_flag. do 2 (ustep; cbv beta).
  apply uwp_bind. eapply uwp_mono; [| |by apply inv_keep_boot]; [|done].
  clear u Hi. intros ok u Hi. ustep; [by usteps|].
  apply uwp_bind, uwp_mono with (Q := λ _ u', unit_inv u') (E := λ _, True); [|done|].
  - clear u Hi. intros _ u Hi.
    assert (unit_inv (u <| deci_tag_for_reset := tag hdr |>)) as Hi' by solve_inv.
    do 2 (ustep; cbv beta). apply uwp_bind, uwp_when; intros _; usteps; [|done].
    clear Hi. solve_inv.
  - apply uwp_when; [|done]. intros _. apply uwp_bind.
    eapply uwp_mono; [| |by apply inv_reset_op]; [|done]. intros. by ustep.
Qed.

Lemma inv_loaded u ub len :
  unit_inv u → Z.of_nat (length ub) = len → len ≤ MRP_MAX_PKT_SIZE →
  unit_inv (u <| sendbuf := memcpy_fromfs (sendbuf u) ub len |>
              <| deci_out := Some 0 |> <| slen := len |>).
Proof.
  intros Hi Hl Hm. pose proof (inv_sendbuf _ Hi).
  assert (Hs : Z.of_nat (length (memcpy_fromfs (sendbuf u) ub len)) = 0x1000)
    by (rewrite length_memcpy; unfold MRP_MAX_PKT_SIZE in *; lia).
  destruct Hi. constructor; cbn -[hdr_of_words deci_cksum memcpy_fromfs] in *; try done; [lia|].
  intros Hr. eapply held_packet_ext; [| |by eauto]; reflexivity.
Qed.

Lemma inv_write_packet nonblock ub len naps :
  Forall nap_inv naps → Z.of_nat (length ub) = len → len ≤ MRP_MAX_PKT_SIZE →
  inv_op (mrp_write_packet nonblock ub len naps).
Proof.
  intros Hn Hl Hm u Hi. unfold mrp_write_packet. do 2 (ustep; cbv beta).
  ustep; [by ustep|]. do 2 (ustep; cbv beta). apply uwp_bind.
  eapply uwp_mono; [| |by apply inv_wait]; [|done]. clear u Hi E. intros rc u Hi.
  ustep; [by usteps|]. do 2 (ustep; cbv beta). ustep; [by ustep|]. do 2 (ustep; cbv beta).
  apply (inv_loaded _ ub len) in Hi as Hi'; [|done|done].
  apply uwp_bind, uwp_send; [done|]. intros r. usteps. by apply sbusy_inv in Hi'.
Qed.

Lemma inv_write minor nonblock ub len va kb naps :
  Forall nap_inv naps → Forall nap_inv (km_naps kb) → Forall is_byte ub →
  len = Z.of_nat (length ub) → block_ok kb len →
  inv_op (mrp_write minor nonblock ub len va kb naps).
Proof.
  intros Hn Hkn Hb Hl Hk u Hi. unfold mrp_write. ustep; [by ustep|]. do 2 (ustep; cbv beta).
  ustep; [by ustep|]. ustep.
  - unfold mrp_write_cp. do 2 (ustep; cbv beta). ustep; [by ustep|].
    ustep; [by ustep|]. do 2 (ustep; cbv beta).
    apply uwp_loop; [done|by apply inv_cp_write_loop|].
    intros u' Hi'. do 2 (ustep; cbv beta). apply uwp_bind.
    eapply uwp_mono; [| |by apply uwp_cps]; [|by intros ? []]. intros. by ustep.
  - do 2 (ustep; [by ustep|]). ustep; [by ustep|]. to_prop.
    do 4 (ustep; [by ustep|]).
    ustep; [by apply inv_write_treset|by apply inv_write_packet].
Qed.

Lemma inv_select minor sel_type : inv_op (mrp_select minor sel_type).
Proof. intros u Hi. unfold mrp_select, select_wait. by usteps. Qed.

Lemma inv_ioctl minor nonblock cmd va naps :
  Forall nap_inv naps → inv_op (mrp_ioctl minor nonblock cmd va naps).
Proof.
  intros Hn u Hi. unfold mrp_ioctl, clear_flag, copy_to_user, put_bytes.
  ustep; [by ustep|]. do 2 (ustep; cbv beta). do 3 (ustep; [by ustep|]).
  ustep; [usteps|ustep; [by usteps|ustep; [usteps|ustep; [|by ustep]]]].
  - solve_inv.
  - solve_inv.
  - do 2 (ustep; cbv beta). apply uwp_loop; [done|by apply inv_wait|].
    intros u' Hi'. by usteps.
Qed.

Lemma inv_open minor : inv_op (mrp_open minor).
Proof.
  intros u Hi. unfold mrp_open, MOD_INC_USE_COUNT. usteps; try done.
  destruct (has minor 0x40); solve_inv.
Qed.

Lemma inv_release minor : inv_op (mrp_release minor).
Proof.
  intros u Hi. unfold mrp_release, MOD_DEC_USE_COUNT. usteps; try done.
  destruct (has minor 0x40);
    [destruct (has (flags u) MRPF_CPOPEN)|destruct (has (flags u) MRPF_OPENED)]; solve_inv.
Qed.

Lemma inv_interrupt fuel : inv_op (mrp_interrupt fuel).
Proof.
  intros u Hi. apply uwp_interrupt; [done|]. intros stat.
  eapply uwp_mono; [| |apply uwp_dispatch]; [done|done|]. solve_inv.
Qed.

(** ** Steps *)

Lemma inv_op_run {A} (m : M st A) s a s' :
  inv_op m → unit_inv (unit_of s) → m s = Ret a s' → unit_inv (unit_of s').
Proof.
  intros Hm Hi Hr. specialize (Hm _ Hi s eq_refl). unfold wp in Hm. by rewrite Hr in Hm.
Qed.

(** The agreement, with a file open on [p]. *)
Definition in_sync_open (p : plane) (o : bool * bool * bool * Z * list plane) : Prop :=
  in_sync o ∧ p ∈ o.2.

Lemma stable_run {A} (m : M st A) s a s' :
  stable in_sync m → m s = Ret a s' → in_sync (obs s) → in_sync (obs s').
Proof. intros Hs Hr Ho. specialize (Hs s Ho). by rewrite Hr in Hs. Qed.

Lemma stable_open_run {A} p (m : M st A) s a s' :
  stable (in_sync_open p) m → m s = Ret a s' → p ∈ files s → in_sync (obs s) → in_sync (obs s').
Proof. intros Hs Hr Hp Ho. specialize (Hs s (conj Ho Hp)). rewrite Hr in Hs. apply Hs. Qed.

Lemma minor_flag minor :
  (if has minor 0x40 then MRPF_CPOPEN else MRPF_OPENED) = plane_flag (plane_of minor).
Proof. unfold plane_of. by destruct (has minor 0x40). Qed.

Lemma plane_flag_has p q : has (plane_flag q) (plane_flag p) = bool_decide (p = q).
Proof. by destruct p, q. Qed.

Lemma plane_flag_one p : one_bit (plane_flag p).
Proof. destruct p; cbn; one_bit. Qed.

(** What [mrp_open] does on a valid unit. *)
Lemma open_spec minor (s : st) :
  has (flags (unit_of s)) MRPF_VALID = true →
  let p := plane_of minor in
  ∃ r s', mrp_open minor s = Ret r s' ∧
    (has (flags (unit_of s)) (plane_flag p) = true → r = - EIO ∨ r = - EBUSY) ∧
    (r = - EIO ∨ r = - EBUSY → obs s' = obs s) ∧
    (r = 0 ∨ r = - EIO ∨ r = - EBUSY) ∧
    (has (flags (unit_of s)) (plane_flag p) = false → r = 0 ∨ r = - EIO) ∧
    (r = 0 → flags (unit_of s') = Z.lor (flags (unit_of s)) (plane_flag p) ∧
             use_count (log s') = use_count (log s) + 1 ∧ files s' = files s).
Proof.
  intros Hv p. unfold mrp_open. destruct (minor_index minor) as [-> _].
  erewrite bind_Ret by reflexivity. rewrite Hv. cbn [negb]. cbn zeta.
  rewrite minor_flag. fold p. pose proof (stable_rd (λ o, o = obs s) BID s eq_refl) as Hst.
  unfold mbind at 1, M_bind at 1. destruct (rd BID s) as [bid s1|] eqn:Eb.
  2:{ unfold rd in Eb. by destruct (dev_read BID (dev s)). }
  destruct (negb (bid =? 0x4126)).
  { exists (- EIO), s1. split_and!; [done|by left|done|by right; left|by right|done]. }
  destruct (has (flags (unit_of s)) (plane_flag p)).
  { exists (- EBUSY), s1. split_and!; [done|by right|done|by right; right|done|done]. }
  eexists _, _. split; [reflexivity|]. split; [done|]. split; [by intros []|].
  do 2 (split; [by left|]). intros _. cbn [unit_of log upd]. split; [done|].
  unfold obs in Hst. injection Hst as _ _ _ Hu Hfs. unfold files, files_of in *. cbn [log upd].
  rewrite use_count_app, foldl_app, Hu. by split.
Qed.

Lemma files_opened minor s : files (note (FileOpened minor) s) = plane_of minor :: files s.
Proof. unfold files, files_of, note. cbn [log upd]. by rewrite foldl_app. Qed.

Lemma files_closed minor s : files (note (FileClosed minor) s) = list_difference (files s) [plane_of minor].
Proof. unfold files, files_of, note. cbn [log upd]. by rewrite foldl_app. Qed.

(** What the driver itself does is not recorded as an open file. *)
Lemma open_files minor s r s' : mrp_open minor s = Ret r s' → files s' = files s.
Proof.
  assert (Hm : ∀ l n, files_of (l ++ [ModUse n]) = files_of l)
    by (intros; unfold files_of; by rewrite foldl_app).
  assert (Hr : ∀ l a v, files_of (l ++ [Rd a v]) = files_of l)
    by (intros; unfold files_of; by rewrite foldl_app).
  unfold mrp_open, mret, M_ret, mbind, M_bind, rd, getu, modu, MOD_INC_USE_COUNT, emit, modify, files, gets.
  intros E. repeat case_match; cbn in *; simplify_eq/=; rewrite ?Hm, ?Hr; done.
Qed.

Lemma step_open minor s r s' :
  mrp_open minor s = Ret r s' → in_sync (obs s) →
  in_sync (obs (if r =? 0 then note (FileOpened minor) s' else s')).
Proof.
  intros Hr Hy. pose proof Hy as (H2 & H3 & H4 & H5)%in_sync_obs.
  destruct (open_spec minor s H2) as (r' & s'' & Hr' & Hbusy & Hsame & Hcases & _ & Hok).
  rewrite Hr' in Hr. injection Hr as -> ->.
  destruct (r =? 0) eqn:E0; to_prop.
  - destruct (Hok E0) as (Hf & Hu & Hfs). subst r.
    assert (plane_of minor ∉ files s) as Hnot.
    { rewrite <-(bool_decide_eq_true (plane_of minor ∈ files s)), <-H3.
      intros Hx. apply Hbusy in Hx as [|]; discriminate. }
    apply in_sync_obs. rewrite files_opened, Hfs. cbn [note unit_of log upd]. split_and!.
    + rewrite Hf, has_lor, H2. done.
    + intros p. rewrite Hf, has_lor, H3.
      rewrite plane_flag_has, <-bool_decide_or. apply bool_decide_ext.
      rewrite elem_of_cons. tauto.
    + by constructor.
    + rewrite use_count_app, Hu, H5. cbn. lia.
  - by rewrite Hsame by (by destruct Hcases).
Qed.

(** What [mrp_release] does on a valid unit. *)
Lemma release_spec minor (s : st) :
  has (flags (unit_of s)) MRPF_VALID = true →
  let p := plane_of minor in
  has (flags (unit_of s)) (plane_flag p) = true →
  mrp_release minor s = Ret tt (s
    <| unit_of := (unit_of s) <| flags := clr (flags (unit_of s)) (plane_flag p) |> |>
    <| log := log s ++ [ModUse (-1)] |>).
Proof.
  intros Hv p Hf. unfold mrp_release. destruct (minor_index minor) as [-> _].
  erewrite bind_Ret by reflexivity. rewrite Hv. cbn [negb]. cbn zeta.
  rewrite minor_flag. fold p. rewrite Hf. done.
Qed.

Lemma step_release minor s s' :
  mrp_release minor s = Ret tt s' → plane_of minor ∈ files s → in_sync (obs s) →
  in_sync (obs (note (FileClosed minor) s')).
Proof.
  intros Hr Hin (H2 & H3 & H4 & H5)%in_sync_obs.
  assert (Hp : has (flags (unit_of s)) (plane_flag (plane_of minor)) = true)
    by (by rewrite H3; apply bool_decide_eq_true).
  rewrite release_spec in Hr by done. injection Hr as <-.
  assert (Hfs : ∀ l, files_of (l ++ [ModUse (-1)]) = files_of l)
    by (intros l; unfold files_of; by rewrite foldl_app).
  apply in_sync_obs. rewrite files_closed. unfold files in *. cbn [note unit_of log upd flags].
  rewrite Hfs. split_and!.
  - rewrite has_clr, H2 by one_bit. by destruct (plane_of minor).
  - intros p. rewrite has_clr, H3, plane_flag_has by apply plane_flag_one.
    rewrite <-bool_decide_not, <-bool_decide_and. apply bool_decide_ext.
    rewrite list_elem_of_difference, list_elem_of_singleton. done.
  - by apply NoDup_list_difference.
  - rewrite !use_count_app, H5. cbn.
    assert (Hl : files_of (log s) ≡ₚ plane_of minor :: list_difference (files_of (log s)) [plane_of minor]).
    { apply NoDup_Permutation; [done| |].
      - constructor; [|by apply NoDup_list_difference].
        rewrite list_elem_of_difference, list_elem_of_singleton. tauto.
      - intros q. rewrite elem_of_cons, list_elem_of_difference, list_elem_of_singleton.
        destruct (decide (q = plane_of minor)) as [->|]; tauto. }
    rewrite Hl at 1. cbn. lia.
Qed.

(** What the environment must keep, a step keeps. *)
Definition env_ok (env : st → st → Prop) : Prop :=
  ∀ s s', env s s' →
    (unit_inv (unit_of s) → unit_inv (unit_of s')) ∧ (in_sync (obs s) → in_sync (obs s')).

Lemma env_ok_rtc env s s' : env_ok env → rtc env s s' →
  (unit_inv (unit_of s) → unit_inv (unit_of s')) ∧ (in_sync (obs s) → in_sync (obs s')).
Proof.
  intros He. induction 1 as [|x y z Hxy _ IH]; [done|]. destruct (He _ _ Hxy). tauto.
Qed.

Lemma naps_inv env p naps : env_ok env → Forall (nap_ok env p) naps → Forall nap_inv naps.
Proof.
  intros He Hf. eapply Forall_impl; [done|]. intros n Hn s. destruct (Hn s) as [Hs _].
  by apply (env_ok_rtc _ _ _ He Hs).
Qed.

Lemma naps_stable env p naps :
  env_ok env → Forall (nap_ok env p) naps → Forall (nap_stable (in_sync_open p)) naps.
Proof.
  intros He Hf. eapply Forall_impl; [done|]. intros n Hn s [Hs Hp]. destruct (Hn s) as [Hr Hk].
  split; [by apply (env_ok_rtc _ _ _ He Hr)|by apply Hk].
Qed.

Lemma step_unit env s s' :
  env_ok env → mrp_step env s s' → unit_inv (unit_of s) → unit_inv (unit_of s').
Proof.
  intros He Hst Hu. destruct Hst.
  - assert (unit_inv (unit_of s')) by (by eapply inv_op_run; [apply inv_open|..]).
    by destruct (r =? 0).
  - change (unit_inv (unit_of s')). by eapply inv_op_run; [apply inv_release|..].
  - eapply inv_op_run; [eapply inv_read; by eapply naps_inv|done..].
  - eapply inv_op_run; [|exact Hu|eassumption]. eapply inv_write; try done; by eapply naps_inv.
  - eapply inv_op_run; [apply inv_select|done..].
  - eapply inv_op_run; [eapply inv_ioctl; by eapply naps_inv|done..].
  - eapply inv_op_run; [apply inv_interrupt|done..].
Qed.

Lemma step_sync env s s' :
  env_ok env → mrp_step env s s' → in_sync (obs s) → in_sync (obs s').
Proof.
  intros He Hst. destruct Hst.
  - by apply step_open.
  - by apply step_release.
  - eapply stable_open_run; [eapply stable_read; by eapply naps_stable|done..].
  - eapply stable_open_run; [|eassumption|done]. eapply stable_write; by eapply naps_stable.
  - eapply stable_run; [apply stable_select|done..].
  - eapply stable_open_run; [eapply stable_ioctl; by eapply naps_stable|done..].
  - eapply stable_run; [apply stable_interrupt|done..].
Qed.

Lemma env_ok_step env : env_ok env → env_ok (mrp_step env).
Proof. intros He s s' Hs. split; [by eapply step_unit|by eapply step_sync]. Qed.

Lemma env_ok_at k : env_ok (step_at k).
Proof. induction k; cbn; apply env_ok_step; [by intros ??|done]. Qed.

Lemma start_inv s : sys_start s → sys_inv s.
Proof.
  intros (H1 & (H2 & H3) & H4 & H5). apply sys_inv_sync. split; [done|].
  apply in_sync_obs. unfold files. rewrite H2, H3. split_and!; [done| |constructor|done].
  intros p. rewrite H5. done.
Qed.

Lemma reachable_inv s0 s : sys_start s0 → rtc sys_step s0 s → sys_inv s.
Proof.
  intros Hs Hr. apply start_inv, sys_inv_sync in Hs as [Hu Ho]. apply sys_inv_sync.
  destruct (env_ok_rtc sys_step s0 s) as [H1 H2]; [|done|tauto].
  intros x y [k Hk]. by apply (env_ok_at k).
Qed.

(** ** Properties *)


(** opening is exclusive: in every reachable state, opening an interface
    that already has an open file fails (with [-EBUSY], or [-EIO] when the
    board does not identify itself) and changes neither the flags nor the use
    count; opening one that has none either succeeds or fails with [-EIO]. *)
Theorem open_exclusive (s0 s : st) (minor : Z) :
  sys_start s0 → rtc sys_step s0 s →
  ∃ r s', mrp_open minor s = Ret r s' ∧
    (plane_of minor ∈ files s → (r = - EBUSY ∨ r = - EIO) ∧ obs s' = obs s) ∧
    (plane_of minor ∉ files s → r = 0 ∨ r = - EIO).
Proof.
  intros Hs Hr. destruct (reachable_inv _ _ Hs Hr) as [H1 H2 H3 H4 H5].
  destruct (open_spec minor _ H2) as (r & s' & Ho & Hbusy & Hsame & _ & Hfree & _).
  rewrite H3 in Hbusy, Hfree. exists r, s'. split; [done|]. split; intros Hin.
  - specialize (Hbusy (bool_decide_eq_true_2 _ Hin)). split; [tauto|by apply Hsame].
  - by apply Hfree, bool_decide_eq_false_2.
Qed.

End Sys.

(** ** Instances *)

Definition start_sys : io simdev mrp_unit :=
  MkIo (flagged_unit 0x3)
    ((sim_board [] 0) <| sim_regs := λ r, match r with BID => 0x4126 | _ => 0 end |>) true [].

Lemma start_sys_ok : sys_start start_sys.
Proof.
  split_and!; [apply flagged_unit_inv; by_compute|done|done|by intros []].
Qed.

(** A sleep during which another process opens the control port, if it can. *)
Definition open_nap : nap (D:=simdev) (U:=mrp_unit) :=
  MkNap (λ s, match mrp_open 0x40 s with
              | Ret r s' => if r =? 0 then note (FileOpened 0x40) s' else s'
              | Stuck _ _ => s
              end) false.

Lemma open_nap_ok p : nap_ok (step_at 0) p open_nap.
Proof.
  intros s. cbn [open_nap nap_env]. destruct (mrp_open 0x40 s) as [r s'|] eqn:E; [|done].
  split; [by apply rtc_once, StepOpen|].
  apply open_files in E. destruct (r =? 0); rewrite ?files_opened, E; set_solver.
Qed.

(** The packet interface is opened; then a reset packet is written, and the
    control port is opened while [kmalloc] sleeps. *)
Definition reset_memory : kmalloc_out (D:=simdev) := MkKmallocOut [] [open_nap] (Some (replicate 8 0)).

Lemma busy_steps : ∃ s, rtc sys_step start_sys s ∧ files s = [Control; Packet].
Proof.
  destruct (mrp_open 0 start_sys) as [r s1|w s1] eqn:E1; [|by vm_compute in E1].
  assert (Hf1 : r = 0 ∧ files (note (FileOpened 0) s1) = [Packet])
    by (vm_compute in E1; by injection E1 as <- <-).
  destruct Hf1 as [-> Hf1].
  destruct (mrp_write 0 false treset_bytes 32 (λ _, 0) reset_memory [] (note (FileOpened 0) s1))
    as [r s2|w s2] eqn:E2; [|by vm_compute in E1; injection E1 as <-; vm_compute in E2].
  assert (Hf2 : files s2 = [Control; Packet])
    by (vm_compute in E1; injection E1 as <-; vm_compute in E2; by injection E2 as _ <-).
  exists s2. split; [|exact Hf2]. apply rtc_l with (note (FileOpened 0) s1).
  - exists 0%nat. exact (StepOpen _ _ _ 0 _ E1).
  - apply rtc_once. exists 1%nat. cbn [step_at].
    apply (StepWrite _ _ 0 false treset_bytes 32 (λ _, 0) reset_memory [] r); try exact E2.
    + rewrite Hf1. by left.
    + constructor.
    + constructor; [apply open_nap_ok|constructor].
    + by_compute.
    + by_compute.
    + intros blk [= <-]. by_compute.
Qed.


Lemma open_exclusive_witness :
  ∃ s r s', rtc sys_step start_sys s ∧ mrp_open 0 s = Ret r s' ∧
    (r = - EBUSY ∨ r = - EIO) ∧ obs s' = obs s.
Proof.
  destruct busy_steps as (s & Hr & Hf).
  destruct (open_exclusive start_sys s 0 start_sys_ok Hr) as (r & s' & Ho & Hbusy & _).
  exists s, r, s'. split; [exact Hr|]. split; [exact Ho|]. apply Hbusy. rewrite Hf.
  right. by left.
Defined.
