(* ===== verification/MrpInit.v ===== *)
(** * MrpInit: loading and unloading the DECI1 driver

    Models from drivers/char/ps2mrp-psnet.c [mrp_base], [mrp_remap],
    [mrp_init] and [cleanup_module]: the driver looks for up to four boards,
    maps their windows, gets a major number, allocates the packet buffers,
    asks for the interrupt line and enables the board; unloading takes all of
    this back.

    [host] is the part of the kernel these functions change: the four units with
    their boards, the mapped areas, the interrupt lines, the table of character
    devices and the allocated memory.  Whether the [k]-th allocation succeeds is
    [kmem k], and what the memory then holds is [junk k]. *)

From stdpp Require Import strings.
From S2P Require Import Prelude Ring Irq Chrdev Vmalloc Host Deci MrpHw Mrp MrpFacts MrpInv MrpSys.

Record host (D V : Type) := MkHost {
  units : list (io D mrp_unit);
  vm : V;
  irqs : irq_state;
  chrdevs : list device_struct;
  mrp_major : Z;
  proc_mrp : bool;           (** /proc/mrp is registered *)
  nalloc : nat;              (** the number of the next [kmalloc] *)
  live : Z;                  (** the packet buffers not yet freed *)
}.
Arguments MkHost {D V} _ _ _ _ _ _ _ _.
Arguments units {D V} _.
Arguments vm {D V} _.
Arguments irqs {D V} _.
Arguments chrdevs {D V} _.
Arguments mrp_major {D V} _.
Arguments proc_mrp {D V} _.
Arguments nalloc {D V} _.
Arguments live {D V} _.

#[global] Instance eta_host {D V} : Eta (host D V) := λ x,
  MkHost (units x) (vm x) (irqs x) (chrdevs x) (mrp_major x) (proc_mrp x) (nalloc x) (live x).

(** ** Code *)

Section Init.
Context {D V : Type} `{MrpDevice D} `{Mapper V}.
Context (B : bios) (high_memory : Z) (kmem : nat → bool) (junk : nat → nat → Z).
(** The addresses of the units, of [mrp_interrupt] and of [mrp_fops]. *)
Context (unit_ptr : nat → Z) (mrp_interrupt_ptr mrp_fops_ptr : Z).

Local Abbreviation hst := (host D V).

Definition on_unit {A} (i : nat) (m : M (io D mrp_unit) A) : M hst A := λ h,
  match units h !! i with
  | None => Stuck OutOfBounds h
  | Some s =>
      match m s with
      | Ret a s' => Ret a (h <| units := <[i := s']> (units h) |>)
      | Stuck w s' => Stuck w (h <| units := <[i := s']> (units h) |>)
      end
  end.

Definition on_vm {A} (f : V → out V A) : M hst A := λ h,
  match f (vm h) with
  | Ret a v => Ret a (h <| vm := v |>)
  | Stuck w v => Stuck w (h <| vm := v |>)
  end.

(** [kmalloc(MRP_MAX_PKT_SIZE, GFP_KERNEL)]: the words of the new block. *)
Definition kmalloc_pkt : M hst (option (list Z)) := λ h,
  let k := nalloc h in
  let h := h <| nalloc := S k |> in
  if kmem k then
    Ret (Some ((λ i, u32 (junk k i)) <$> List.seq 0 (Z.to_nat (MRP_MAX_PKT_SIZE / 4))))
        (h <| live := live h + 1 |>)
  else Ret None h.

Definition kfree : M hst unit := modify (λ h, h <| live := live h - 1 |>).

Definition mrp_request_irq (irq flags : Z) (i : nat) : M hst Z := λ h,
  let k := nalloc h in
  let '(r, x) := request_irq irq mrp_interrupt_ptr flags "MRP" (unit_ptr i) (kmem k) (irqs h) in
  Ret r (h <| irqs := x |> <| nalloc := S k |>).

Definition mrp_base (bus dev_fn where_ : Z) : Z :=
  match pcibios_read_config_dword B bus dev_fn where_ with
  | None => 0
  | Some address =>
      let address := u32 address in
      if has address 0x7 then 0 else clr address 0xf
  end.

Definition mrp_remap (base : Z) : M hst Z :=
  if MAP_NR base <? MAP_NR high_memory then mret 0
  else
    rc ← on_vm (remap (mask_hi PAGE_SIZE base) PAGE_SIZE);
    if rc =? 0 then mret 0 else mret (u32 (mask_lo PAGE_SIZE base + rc)).

Definition clear_units : M hst unit :=
  modify (λ h, h <| units := (λ s, s <| unit_of := zero_unit |>) <$> units h |>).

(** The body of the loop over the boards: [None] for [break], [Some false] for
    [continue], [Some true] when the board is counted. *)
Definition probe_unit (index : nat) : M hst (option bool) :=
  match pcibios_find_device B PCI_VENDOR_ID_SONY PCI_DEVICE_ID_SONY_PS2_MRP (Z.of_nat index) with
  | None => mret None
  | Some (bus, dev_fn) =>
      let addr0 := mrp_base bus dev_fn PCI_BASE_ADDRESS_0 in
      if addr0 =? 0 then mret (Some false) else
      let addr2 := mrp_base bus dev_fn PCI_BASE_ADDRESS_2 in
      if addr2 =? 0 then mret (Some false) else
      let addr3 := mrp_base bus dev_fn PCI_BASE_ADDRESS_3 in
      if addr3 =? 0 then mret (Some false) else
      let addr4 := mrp_base bus dev_fn PCI_BASE_ADDRESS_4 in
      rc ← mrp_remap addr0;
      if rc =? 0 then mret (Some false) else
      on_unit index (modu (λ u, u <| base0 := rc |>)) ;;
      rc ← mrp_remap addr2;
      if rc =? 0 then mret (Some false) else
      on_unit index (modu (λ u, u <| base2 := rc |>)) ;;
      rc ← mrp_remap addr3;
      if rc =? 0 then mret (Some false) else
      on_unit index (modu (λ u, u <| regs := rc |>)) ;;
      when (negb (addr4 =? 0))
        (rc ← mrp_remap addr4;
         when (negb (rc =? 0)) (on_unit index (modu (λ u, u <| base4 := rc |>)))) ;;
      match pcibios_read_config_byte B bus dev_fn PCI_INTERRUPT_LINE with
      | None => mret (Some false)
      | Some line =>
          on_unit index (modu (λ u, u <| irq := u8 line |>)) ;;
          on_unit index (set_flag MRPF_DETECT) ;;
          on_unit index (modu (λ u, u <| reset_mode := -2 |>)) ;;
          mret (Some true)
      end
  end.

(** [for (index = 0; index < MRP_UNIT_MAX; index++)], counting [boards_found] *)
Fixpoint probe_units (l : list nat) : M hst Z :=
  match l with
  | [] => mret 0
  | index :: l' =>
      r ← probe_unit index;
      match r with
      | None => mret 0
      | Some found => n ← probe_units l'; mret (Z.b2z found + n)
      end
  end.

(** The board's enable sequence. *)
Definition enable_board : M (io D mrp_unit) unit :=
  wr_and IDK50 (Z.lnot IDK50F_00000020) ;;
  wr_or IDK50 IDK50F_40000000 ;;
  udelay 10 ;;
  wr_and IDK50 (Z.lnot IDK50F_40000000) ;;
  wr_or IDK4C IDK4CF_0040 ;;
  wr IER 0 ;;
  set_flag MRPF_VALID.

(** The body of the loop over the detected units. *)
Definition setup_unit (index : nat) : M hst unit :=
  f ← on_unit index (getu flags);
  if Z.land f MRPF_DETECT =? 0 then mret tt else
  rc ← kmalloc_pkt;
  match rc with
  | None => mret tt
  | Some b =>
      on_unit index (modu (λ u, u <| sendbuf := b |>)) ;;
      rc ← kmalloc_pkt;
      match rc with
      | None => mret tt
      | Some b =>
          on_unit index (modu (λ u, u <| recvbuf := b |>)) ;;
          line ← on_unit index (getu irq);
          iRc ← mrp_request_irq line (Z.lor SA_INTERRUPT SA_SHIRQ) index;
          iRc ← (if iRc =? 0 then mrp_request_irq line SA_SHIRQ index else mret iRc);
          if iRc =? 0 then mret tt else on_unit index enable_board
      end
  end.

Definition mrp_init : M hst Z :=
  clear_units ;;
  if negb (pcibios_present B) then mret 0 else
  boards_found ← probe_units (List.seq 0 4);
  if boards_found =? 0 then mret 0 else
  iRc ← (λ h, let '(r, tb) := register_chrdev 0 "mrp" mrp_fops_ptr (chrdevs h) in
              Ret r (h <| chrdevs := tb |>));
  if iRc <=? 0 then mret 0 else
  modify (λ h, h <| mrp_major := iRc |>) ;;
  modify (λ h, h <| proc_mrp := true |>) ;;
  for_each (List.seq 0 4) setup_unit ;;
  mret 0.

(** The body of the loop of [cleanup_module]. *)
Definition cleanup_unit (index : nat) : M hst unit :=
  u ← on_unit index (getu (λ u, u));
  when (has (flags u) MRPF_VALID)
    (on_unit index (wr_or IDK50 0x20 ;; wr_and IDK4C (Z.lnot 0x40)) ;;
     modify (λ h, h <| irqs := free_irq (irq u) (unit_ptr index) (irqs h) |>)) ;;
  when (negb (bool_decide (sendbuf u = []))) kfree ;;
  when (negb (bool_decide (recvbuf u = []))) kfree ;;
  when (bool_decide (is_Some (buf38 u))) kfree ;;
  when (bool_decide (is_Some (buf40 u))) kfree ;;
  when (negb (base0 u =? 0)) (on_vm (unmap (base0 u))) ;;
  when (negb (base2 u =? 0)) (on_vm (unmap (base2 u))) ;;
  when (negb (regs u =? 0)) (on_vm (unmap (regs u))).

Definition cleanup_module : M hst unit :=
  major ← gets mrp_major;
  if major =? 0 then mret tt else
  for_each (List.seq 0 4) cleanup_unit ;;
  (λ h, match unregister_chrdev major "mrp" (chrdevs h) with
        | Some (_, tb) => Ret tt (h <| chrdevs := tb |>)
        | None => Stuck NullDeref h
        end) ;;
  modify (λ h, h <| proc_mrp := false |>).

End Init.

(** ** Looking for boards *)

(** A unit without buffers, as the search for boards leaves it. *)
Record blank (u : mrp_unit) : Prop := {
  bl_flags : flags u = 0 ∨ flags u = MRPF_DETECT;
  bl_irq : 0 ≤ irq u < 2 ^ 8;
  bl_bufs : sendbuf u = [] ∧ recvbuf u = [];
  bl_len : slen u = 0 ∧ rlen u = 0;
  bl_rings : sendring u = ring_zero ∧ recvring u = ring_zero;
  bl_boot : buf38 u = None ∧ buf40 u = None;
}.

Lemma mrp_base_range B bus dev_fn w : 0 ≤ mrp_base B bus dev_fn w < 2 ^ 32.
Proof.
  unfold mrp_base. destruct (pcibios_read_config_dword _ _ _ _) as [a|]; [|lia].
  destruct (has (u32 a) 7); [lia|]. apply land_range; [lia|]. apply u32_range.
Qed.

Section Probe.
Context {D V : Type} `{MrpDevice D} `{Mapper V}.
Context (B : bios) (high_memory : Z) (h0 : host D V).

Local Abbreviation hst := (host D V).

Definition quiet (s : io D mrp_unit) : Prop := blank (unit_of s) ∧ idle_log (log s).

Record probing (n : nat) (h : hst) : Prop := {
  pr_room : room n (vm h);
  pr_len : length (units h) = 4%nat;
  pr_units : Forall quiet (units h);
  pr_irqs : irqs h = irqs h0;
  pr_chrdevs : chrdevs h = chrdevs h0;
  pr_major : mrp_major h = mrp_major h0;
  pr_live : live h = live h0;
}.

Lemma probing_less k n h : probing (k + n) h → probing n h.
Proof.
  induction k as [|k IH]; [done|]. intros []. apply IH. split; try done. by apply room_less.
Qed.

Lemma wp_mrp_remap n base (Q : Z → hst → Prop) h :
  0 ≤ base < 2 ^ 32 → probing (S n) h → (∀ rc h', probing n h' → Q rc h') →
  wp (mrp_remap high_memory base) Q never h.
Proof.
  intros Hb Hp HQ. unfold mrp_remap. destruct (_ <? _).
  - apply HQ. by apply (probing_less 1).
  - destruct Hp. unfold wp, mbind, M_bind, on_vm.
    destruct (remap_room n (mask_hi PAGE_SIZE base) (vm h)) as (a & v' & -> & Hr & _ & _);
      [done|by apply land_range|].
    destruct (a =? 0); by apply HQ.
Qed.

Lemma wp_on_modu n i f (Q : unit → hst → Prop) h :
  (i < 4)%nat → (∀ u, blank u → blank (f u)) → probing n h →
  (∀ h', probing n h' → Q tt h') → wp (on_unit i (modu f)) Q never h.
Proof.
  intros Hi Hf [] HQ. destruct (lookup_lt_is_Some_2 (units h) i) as [s Hs]; [lia|].
  unfold wp, on_unit. rewrite Hs. cbn. apply HQ. split; try done; cbn.
  - by rewrite length_insert.
  - apply Forall_insert; [done|]. rewrite Forall_lookup in pr_units0.
    destruct (pr_units0 i s Hs) as [Hbl Hu]. split; [by apply Hf|done].
Qed.

(** One step through the search for a board. *)
Ltac probe_step :=
  lazymatch goal with
  | |- wp (mbind _ _) _ _ _ => apply wp_bind
  | |- wp (mrp_remap _ _) _ _ _ =>
      eapply wp_mrp_remap; [apply mrp_base_range|eassumption|intros ? ? ?]
  | |- wp (on_unit _ (set_flag _)) _ _ _ => unfold set_flag
  | |- wp (on_unit _ (modu _)) _ _ _ =>
      eapply wp_on_modu; [done| |eassumption|intros ? ?]; [intros ? []; by constructor|]
  | |- wp (if ?b then _ else _) _ _ _ => destruct b
  | |- wp (mret _) _ _ _ => apply wp_ret
  | |- wp (when ?b _) _ _ _ => unfold when; destruct b
  end.

Lemma wp_detected n i h (answer : option Z) :
  (i < 4)%nat → probing n h → wp
    (match answer with
     | None => mret (Some false)
     | Some line =>
         on_unit i (modu (λ u, u <| irq := u8 line |>)) ;;
         on_unit i (set_flag MRPF_DETECT) ;;
         on_unit i (modu (λ u, u <| reset_mode := -2 |>)) ;;
         mret (Some true)
     end) (λ _ h', probing n h') never h.
Proof.
  intros Hi Hp. destruct answer as [line|]; [|done].
  probe_step. eapply wp_on_modu; [done| |eassumption|intros ? ?].
  { intros u []. constructor; try done. apply u8_range. }
  probe_step. unfold set_flag. eapply wp_on_modu; [done| |eassumption|intros ? ?].
  { intros u [[Hf|Hf]]; constructor; try done; cbn; rewrite Hf; by right. }
  probe_step. probe_step. probe_step. done.
Qed.

Lemma wp_probe_unit n i h :
  (i < 4)%nat → probing (4 + n) h → wp (probe_unit B high_memory i) (λ _ h', probing n h') never h.
Proof.
  intros Hi Hp. unfold probe_unit.
  destruct (pcibios_find_device _ _ _ _) as [[bus dev_fn]|]; [|by apply (probing_less 4)].
  do 3 (destruct (_ =? 0); [by apply (probing_less 4)|]).
  probe_step. probe_step. probe_step; [by apply (probing_less 3)|].
  do 4 probe_step. probe_step; [by apply (probing_less 2)|].
  do 4 probe_step. probe_step; [by apply (probing_less 1)|].
  do 3 probe_step. probe_step; [|probe_step; apply wp_detected; [done|by apply (probing_less 1)]].
  probe_step. probe_step. probe_step; [probe_step|]; by apply wp_detected.
Qed.

Lemma wp_probe_units n l : ∀ h,
  Forall (λ i, i < 4)%nat l → probing (4 * length l + n) h →
  wp (probe_units B high_memory l) (λ _ h', probing n h') never h.
Proof.
  induction l as [|i l IH]; intros h Hl Hp; cbn [probe_units]; [done|].
  apply Forall_cons in Hl as [Hi Hl]. apply wp_bind. cbn [length] in Hp.
  replace (4 * S (length l) + n)%nat with (4 + (4 * length l + n))%nat in Hp by lia.
  eapply wp_mono; [| |by eapply wp_probe_unit]; [|done]. cbn. intros [b|] h' Hp'.
  - apply wp_bind. eapply wp_mono; [| |by apply IH]; done.
  - by apply (probing_less (4 * length l)).
Qed.

End Probe.

(** ** Setting up the detected units *)

Definition buf_count (u : mrp_unit) : Z :=
  Z.b2z (negb (bool_decide (sendbuf u = []))) + Z.b2z (negb (bool_decide (recvbuf u = []))).

Section Setup.
Context {D V : Type} `{MrpDevice D} `{Mapper V}.
Context (kmem : nat → bool) (junk : nat → nat → Z).
Context (unit_ptr : nat → Z) (mrp_interrupt_ptr mrp_fops_ptr : Z).

Local Abbreviation hst := (host D V).

(** A unit as loading the driver leaves it. *)
Record ready (s : io D mrp_unit) : Prop := {
  rd_irq : 0 ≤ irq (unit_of s) < 2 ^ 8;
  rd_boot : buf38 (unit_of s) = None ∧ buf40 (unit_of s) = None;
  rd_use : idle_log (log s);
  rd_start : has (flags (unit_of s)) MRPF_VALID = true → sys_start s;
}.

Lemma blank_invalid u : blank u → has (flags u) MRPF_VALID = false.
Proof. by intros [[-> | ->]]. Qed.

Lemma quiet_ready s : quiet s → ready s ∧ buf_count (unit_of s) = 0.
Proof.
  intros [[Hf Hi [Hs Hr] _ _ Hb] Hu]. split; [split; [done|done|done|]|].
  - destruct Hf as [Hf|Hf]; by rewrite Hf.
  - unfold buf_count. by rewrite Hs, Hr.
Qed.

Lemma enable_spec (s : io D mrp_unit) :
  ∃ s', enable_board s = Ret tt s' ∧
    unit_of s' = (unit_of s) <| flags := Z.lor (flags (unit_of s)) MRPF_VALID |> ∧
    (idle_log (log s) → idle_log (log s')).
Proof.
  unfold enable_board, wr_or, wr_and, rd, wr, udelay, emit, set_flag, modu, modify, mbind, M_bind.
  repeat (destruct (dev_read _ _) as [? ?]; cbn [unit_of dev irqs_on log upd]).
  eexists. split; [reflexivity|]. split; [done|]. cbn [log].
  intros Hl. by repeat apply idle_plain.
Qed.

Lemma on_unit_run {A} i (m : M (io D mrp_unit) A) (h : hst) s a s' :
  units h !! i = Some s → m s = Ret a s' →
  on_unit i m h = Ret a (h <| units := <[i := s']> (units h) |>).
Proof. intros Hs Hm. unfold on_unit. by rewrite Hs, Hm. Qed.

(** The memory of a new packet buffer. *)
Definition new_block (k : nat) : list Z :=
  (λ i, u32 (junk k i)) <$> List.seq 0 (Z.to_nat (MRP_MAX_PKT_SIZE / 4)).

Lemma new_block_ok k : Z.of_nat (length (new_block k)) = 0x1000 ∧ Forall is_word (new_block k).
Proof.
  split; [unfold new_block; by rewrite length_fmap, length_seq|].
  apply Forall_fmap, Forall_forall. intros i _. apply u32_range.
Qed.

Lemma new_block_nonempty k : new_block k ≠ [].
Proof. destruct (new_block_ok k) as [Hl _]. intros E. by rewrite E in Hl. Qed.

(** A blank unit with both buffers is what the file operations start from. *)
Lemma valid_start (s s' : io D mrp_unit) b1 b2 :
  quiet s → Z.of_nat (length b1) = 0x1000 → Z.of_nat (length b2) = 0x1000 → Forall is_word b2 →
  unit_of s' = (unit_of s) <| sendbuf := b1 |> <| recvbuf := b2 |>
    <| flags := Z.lor (flags (unit_of s)) MRPF_VALID |> →
  idle_log (log s') → sys_start s'.
Proof.
  intros [[Hf Hi _ [Hsl Hrl] [Hsr Hrr] [H38 H40]] _] H1 H2 H3 Hu Hl.
  assert (Hf' : flags (unit_of s') = 2 ∨ flags (unit_of s') = 3)
    by (rewrite Hu; cbn; destruct Hf as [-> | ->]; [by left|by right]).
  assert (Hbits : 0 ≤ flags (unit_of s') < 2 ^ 16 ∧ has (flags (unit_of s')) MRPF_CPBUSY = false ∧
    has (flags (unit_of s')) MRPF_RDONE = false ∧ has (flags (unit_of s')) MRPF_VALID = true ∧
    ∀ p, has (flags (unit_of s')) (plane_flag p) = false)
    by (destruct Hf' as [-> | ->]; (split_and!; [lia|lia|done|done|done|by intros []])).
  destruct Hbits as (B1 & B2 & B3 & B4 & B5).
  split; [|by split_and!]. split; rewrite ?B3; try done; rewrite Hu; cbn -[ring_zero];
    rewrite ?Hsl, ?Hrl, ?Hsr, ?Hrr, ?H38, ?H40; try done; apply ring_zero_ok.
Qed.

Definition first_request (h : hst) (s : io D mrp_unit) (i : nat) : Z * irq_state :=
  request_irq (irq (unit_of s)) mrp_interrupt_ptr (Z.lor SA_INTERRUPT SA_SHIRQ) "MRP" (unit_ptr i)
    (kmem (S (S (nalloc h)))) (irqs h).

(** [h] is [h0] with unit [i] in state [s], [k] allocations made, [l] buffers
    in use and the interrupt lines in state [x]. *)
Definition setting (h0 : hst) (i : nat) (s : io D mrp_unit) (k : nat) (l : Z) (x : irq_state)
    (h : hst) : Prop :=
  (units h = <[i := s]> (units h0) ∧ nalloc h = k ∧ live h = l ∧ irqs h = x) ∧
  chrdevs h = chrdevs h0 ∧ vm h = vm h0 ∧ mrp_major h = mrp_major h0.

Section Rules.
Context (h0 : hst) (i : nat) (Hi : (i < length (units h0))%nat).

Lemma wp_set_unit {A} (m : M (io D mrp_unit) A) s a s' k l x (Q : A → hst → Prop) h :
  setting h0 i s k l x h → m s = Ret a s' → (∀ h', setting h0 i s' k l x h' → Q a h') →
  wp (on_unit i m) Q never h.
Proof.
  intros ((Hu & Hk & Hl & Hx) & Hr) Hm HQ. unfold wp, on_unit.
  rewrite Hu, list_lookup_insert_eq, Hm by done. apply HQ. split; [|done].
  cbn. rewrite ?list_insert_insert_eq. done.
Qed.

Lemma wp_kmalloc s k l x (Q : option (list Z) → hst → Prop) h :
  setting h0 i s k l x h →
  (kmem k = true → ∀ h', setting h0 i s (S k) (l + 1) x h' → Q (Some (new_block k)) h') →
  (kmem k = false → ∀ h', setting h0 i s (S k) l x h' → Q None h') →
  wp (kmalloc_pkt kmem junk) Q never h.
Proof.
  intros ((Hu & Hk & Hl & Hx) & Hr) H1 H2. unfold wp, kmalloc_pkt. rewrite Hk.
  destruct (kmem k) eqn:E; [apply H1|apply H2]; try done; (split; [|done]); cbn; by rewrite ?Hl.
Qed.

Lemma wp_request q f s k l x (Q : Z → hst → Prop) h :
  setting h0 i s k l x h →
  (let r := request_irq q mrp_interrupt_ptr f "MRP" (unit_ptr i) (kmem k) x in
   ∀ h', setting h0 i s (S k) l r.2 h' → Q r.1 h') →
  wp (mrp_request_irq kmem unit_ptr mrp_interrupt_ptr q f i) Q never h.
Proof.
  intros ((Hu & Hk & Hl & Hx) & Hr) HQ. unfold wp, mrp_request_irq. rewrite Hk, Hx. cbv zeta in HQ.
  destruct (request_irq _ _ _ _ _ _ _) as [r x']. apply HQ. split; done.
Qed.

End Rules.

(** What setting up unit [i], in state [s] before, may leave. *)
Definition setup_post (h0 : hst) (i : nat) (s : io D mrp_unit) (h : hst) : Prop :=
  ∃ s' k l x, setting h0 i s' k l x h ∧ ready s' ∧ irq (unit_of s') = irq (unit_of s) ∧
    l = live h0 + buf_count (unit_of s') ∧
    (x = irqs h0 ∨ has (flags (unit_of s')) MRPF_VALID = true ∧ x = (first_request h0 s i).2) ∧
    (flags (unit_of s) = MRPF_DETECT → kmem (nalloc h0) = true → kmem (S (nalloc h0)) = true →
     has (flags (unit_of s')) MRPF_VALID = true ∧ x = (first_request h0 s i).2).

Lemma wp_setup_last i h s s2 k r h8 :
  (i < length (units h))%nat → quiet s →
  unit_of s2 = (unit_of s) <| sendbuf := new_block (nalloc h) |>
    <| recvbuf := new_block (S (nalloc h)) |> →
  idle_log (log s2) → r ≠ 0 →
  setting h i s2 k (live h + 1 + 1) (first_request h s i).2 h8 →
  wp (if r =? 0 then mret tt else on_unit i enable_board) (λ _ h', setup_post h i s h') never h8.
Proof.
  intros Hi Hq Hu2 Hl2 Hr H8. apply Z.eqb_neq in Hr as ->.
  destruct (enable_spec s2) as (s' & He & Hu & Hl). rewrite Hu2 in Hu.
  eapply wp_set_unit; [done|done|exact He|]. intros h9 H9.
  pose proof (new_block_ok (nalloc h)) as [N1 _]. pose proof (new_block_ok (S (nalloc h))) as [N2 N3].
  assert (Hst : sys_start s')
    by (eapply (valid_start s); [done|exact N1|exact N2|exact N3|exact Hu|by apply Hl]).
  destruct Hq as [Hbl _]. assert (Hv : has (flags (unit_of s')) MRPF_VALID = true) by apply Hst.
  do 4 eexists. split; [exact H9|]. split.
  { split; [..|done]; rewrite ?Hu; cbn; [apply Hbl|apply Hbl|by apply Hl]. }
  split; [by rewrite Hu|]. split; [|split; [by right|done]].
  unfold buf_count. rewrite Hu. cbn.
  rewrite !bool_decide_eq_false_2 by apply new_block_nonempty. cbn. lia.
Qed.

(** With memory for both buffers the unit ends up valid whatever becomes of the
    interrupt line: the second request never succeeds. *)
Lemma wp_setup_unit i h s :
  units h !! i = Some s → quiet s → irq_inv (irqs h) →
  wp (setup_unit kmem junk unit_ptr mrp_interrupt_ptr i) (λ _ h', setup_post h i s h') never h.
Proof.
  intros Hs Hq Hirq. pose proof Hq as [Hbl Huse].
  assert (Hi : (i < length (units h))%nat) by by eapply lookup_lt_Some.
  assert (H1 : setting h i s (nalloc h) (live h) (irqs h) h)
    by (split; [split; [by rewrite list_insert_id|done]|done]).
  destruct (quiet_ready s Hq) as [Hready Hb0]. unfold setup_unit.
  apply wp_bind. eapply wp_set_unit; [done|done|reflexivity|]. clear H1. intros h1 H1.
  destruct (Z.land _ MRPF_DETECT =? 0) eqn:Ed.
  { apply wp_ret. exists s, (nalloc h), (live h), (irqs h). rewrite Hb0, Z.add_0_r.
    split_and!; try done; [by left|]. intros Hf. by rewrite Hf in Ed. }
  apply wp_bind. eapply wp_kmalloc; [done|intros K1|intros K1]; intros h2 H2.
  2:{ apply wp_ret. do 4 eexists. split; [done|]. rewrite Hb0, Z.add_0_r.
      split_and!; try done; [by left|congruence]. }
  apply wp_bind. eapply wp_set_unit; [done|done|reflexivity|]. intros h3 H3.
  apply wp_bind. eapply wp_kmalloc; [done|intros K2|intros K2]; intros h4 H4.
  2:{ apply wp_ret. do 4 eexists. split; [done|].
      split; [destruct Hready; split; try done; cbn; by rewrite (blank_invalid _ Hbl)|].
      split; [done|]. split; [|split; [by left|congruence]].
      unfold buf_count. cbn. rewrite bool_decide_eq_false_2 by apply new_block_nonempty.
      destruct (bl_bufs _ Hbl) as [_ ->]. done. }
  apply wp_bind. eapply wp_set_unit; [done|done|reflexivity|]. intros h5 H5.
  apply wp_bind. eapply wp_set_unit; [done|done|reflexivity|]. intros h6 H6. cbn [unit_of irq upd].
  apply wp_bind. eapply wp_request; [done|]. cbv zeta. intros h7 H7.
  fold (first_request h s i) in H7 |- *.
  pose proof (bl_irq _ Hbl) as [Hq0 _].
  destruct (request_cases (irq (unit_of s)) mrp_interrupt_ptr (Z.lor SA_INTERRUPT SA_SHIRQ) "MRP"
    (unit_ptr i) (kmem (S (S (nalloc h)))) (irqs h) Hirq Hq0) as [_ [[Hr Hx]|[Hr _]]].
  - fold (first_request h s i) in Hr. apply wp_bind. rewrite (proj2 (Z.eqb_neq _ _)) by exact Hr.
    apply wp_ret. eapply wp_setup_last; [done|done| | |exact Hr|exact H7]; done.
  - apply wp_bind. fold (first_request h s i) in Hr. rewrite (proj2 (Z.eqb_eq _ _)) by exact Hr.
    eapply wp_request; [done|]. cbv zeta. intros h8 H8.
    destruct (request_slow_busy (irq (unit_of s)) mrp_interrupt_ptr (Z.lor SA_INTERRUPT SA_SHIRQ) SA_SHIRQ
      "MRP" "MRP" (unit_ptr i) (unit_ptr i) (kmem (S (S (nalloc h)))) (kmem (S (S (S (nalloc h)))))
      (irqs h) Hirq Hq0 eq_refl eq_refl Hr) as [Hr' Hx'].
    fold (first_request h s i) in Hr', Hx'. rewrite Hx' in H8.
    eapply wp_setup_last; [done|done| | |exact Hr'|exact H8]; done.
Qed.


(** *** All units *)

(** The actions of the driver's own units. *)
Definition ours (a : irqaction) : Prop := dev_id a ∈ unit_ptr <$> List.seq 0 4.
Definition of_unit (i : nat) (a : irqaction) : Prop := dev_id a = unit_ptr i.

#[global] Instance ours_dec a : Decision (ours a).
Proof. unfold ours. apply _. Defined.
#[global] Instance of_unit_dec i a : Decision (of_unit i a).
Proof. unfold of_unit. apply _. Defined.

Definition buffers (l : list (io D mrp_unit)) : Z :=
  foldr (λ s n, buf_count (unit_of s) + n) 0 l.

Lemma buffers_insert l i s s' :
  l !! i = Some s →
  buffers (<[i := s']> l) = buffers l - buf_count (unit_of s) + buf_count (unit_of s').
Proof.
  revert i. unfold buffers. induction l as [|t l IH]; intros [|i]; cbn -[buf_count]; [done|done|..].
  - intros [= ->]. lia.
  - intros Hs. rewrite IH by done. lia.
Qed.

Context (Hptr : ∀ i j, (i < 4)%nat → (j < 4)%nat → unit_ptr i = unit_ptr j → i = j).
Context (h0 : hst).

Record loaded (k : nat) (h : hst) : Prop := {
  ld_irq : irq_inv (irqs h);
  ld_len : length (units h) = 4%nat;
  ld_ready : Forall ready (units h);
  ld_quiet i s : (k ≤ i)%nat → units h !! i = Some s → quiet s;
  ld_others j : line j → filter (λ a, ¬ ours a) (chain (irqs h) j) = chain (irqs h0) j;
  ld_ours i j s : line j → units h !! i = Some s →
    (length (filter (of_unit i) (chain (irqs h) j)) ≤
     if has (flags (unit_of s)) MRPF_VALID && (irq (unit_of s) =? j)%Z then 1 else 0)%nat;
  ld_live : live h = live h0 + buffers (units h);
  ld_frame : chrdevs h = chrdevs h0 ∧ vm h = vm h0 ∧ mrp_major h = mrp_major h0;
}.

Lemma unit_ours i a : (i < 4)%nat → of_unit i a → ours a.
Proof.
  intros Hi Ha. unfold ours. rewrite Ha. apply list_elem_of_fmap. exists i.
  split; [done|]. apply elem_of_seq. lia.
Qed.

(** One more action, of unit [i], at the end of line [q]. *)
Lemma loaded_chain (h : hst) i q act (x' : irq_state) :
  (i < 4)%nat → of_unit i act →
  (∀ j, line j → chain x' j = if q =? j then chain (irqs h) q ++ [act] else chain (irqs h) j) →
  line q →
  (∀ j, line j → filter (λ a, ¬ ours a) (chain x' j) = filter (λ a, ¬ ours a) (chain (irqs h) j)) ∧
  ∀ n j, (n < 4)%nat → line j → length (filter (of_unit n) (chain x' j)) =
    (length (filter (of_unit n) (chain (irqs h) j)) +
     if bool_decide (n = i) && (q =? j)%Z then 1 else 0)%nat.
Proof.
  intros Hi Ha Hch Hq. split.
  - intros j Hj. rewrite Hch by done. destruct (Z.eqb_spec q j) as [->|]; [|done].
    rewrite filter_app, filter_cons_False; [by rewrite app_nil_r|].
    intros Hn. by apply Hn, (unit_ours i).
  - intros n j Hn Hj. rewrite Hch by done. destruct (Z.eqb_spec q j) as [->|].
    2:{ rewrite andb_false_r. lia. }
    rewrite filter_app, length_app, andb_true_r. f_equal. case_bool_decide as Hni.
    + subst n. by rewrite filter_cons_True.
    + rewrite filter_cons_False; [done|]. intros Ha'. apply Hni, Hptr; [done|done|].
      unfold of_unit in *. congruence.
Qed.

Lemma loaded_step k h s h' :
  loaded k h → (k < 4)%nat → units h !! k = Some s → setup_post h k s h' → loaded (S k) h'.
Proof.
  intros [Hirq Hlen Hrd Hqt Hoth Hour Hlive Hfr] Hk Hs (s' & n & l & x & Hset & Hrs & Hi & Hl & Hx & _).
  destruct Hset as ((Hu & _ & Hlv & Hxx) & Hfr'). pose proof (Hqt k s ltac:(lia) Hs) as Hq.
  pose proof Hq as [Hbl _]. destruct (quiet_ready s Hq) as [_ Hb0].
  assert (Hchains : irq_inv x ∧ (∀ j, line j → filter (λ a, ¬ ours a) (chain x j) = chain (irqs h0) j) ∧
    ∀ m j t, line j → units h' !! m = Some t → (length (filter (of_unit m) (chain x j)) ≤
      if has (flags (unit_of t)) MRPF_VALID && (irq (unit_of t) =? j)%Z then 1 else 0)%nat).
  { assert (Hsame : ∀ m j t, line j → units h' !! m = Some t →
      (length (filter (of_unit m) (chain (irqs h) j)) ≤
      if has (flags (unit_of t)) MRPF_VALID && (irq (unit_of t) =? j)%Z then 1 else 0)%nat).
    { intros m j t Hj Ht. rewrite Hu in Ht. destruct (decide (m = k)) as [->|Hne].
      - specialize (Hour k j s Hj Hs). rewrite (blank_invalid _ Hbl) in Hour. cbn in Hour. lia.
      - rewrite list_lookup_insert_ne in Ht by done. by apply Hour. }
    destruct Hx as [->|[Hv ->]]; [done|]. unfold first_request.
    destruct (request_cases (irq (unit_of s)) mrp_interrupt_ptr (Z.lor SA_INTERRUPT SA_SHIRQ) "MRP"
      (unit_ptr k) (kmem (S (S (nalloc h)))) (irqs h) Hirq) as [Hinv' Hc]; [apply Hbl|].
    split; [done|]. destruct Hc as [[_ ->]|(_ & Hline & Hch)]; [done|].
    destruct (loaded_chain h k _ (MkAction mrp_interrupt_ptr (Z.lor SA_INTERRUPT SA_SHIRQ) 0 "MRP"
      (unit_ptr k)) _ Hk eq_refl Hch Hline) as [C1 C2]. split.
    { intros j Hj. rewrite C1 by done. by apply Hoth. }
    intros m j t Hj Ht. assert (m < 4)%nat.
    { rewrite <-Hlen. rewrite Hu in Ht. apply lookup_lt_Some in Ht. by rewrite length_insert in Ht. }
    rewrite C2 by done. case_bool_decide as Hm; cbn [andb]; [subst m|specialize (Hsame m j t Hj Ht); lia].
    rewrite Hu, list_lookup_insert_eq in Ht by lia. injection Ht as <-. rewrite Hv, Hi. cbn [andb].
    specialize (Hour k j s Hj Hs). rewrite (blank_invalid _ Hbl) in Hour. cbn in Hour. lia. }
  destruct Hchains as (C1 & C2 & C3). split; rewrite ?Hxx; try done.
  - by rewrite Hu, length_insert.
  - rewrite Hu. by apply Forall_insert.
  - intros i t Hi' Ht. rewrite Hu, list_lookup_insert_ne in Ht by lia. apply (Hqt i); [lia|done].
  - rewrite Hlv, Hl, Hu, (buffers_insert _ _ s) by done. lia.
  - destruct Hfr as (F1 & F2 & F3), Hfr' as (G1 & G2 & G3). split_and!; congruence.
Qed.

Lemma wp_setup_units n : ∀ k h,
  (k + n ≤ 4)%nat → loaded k h →
  wp (for_each (List.seq k n) (setup_unit kmem junk unit_ptr mrp_interrupt_ptr))
    (λ _ h', loaded (k + n) h') never h.
Proof.
  induction n as [|n IH]; intros k h Hk Hld; cbn [List.seq for_each].
  { apply wp_ret. by rewrite Nat.add_0_r. }
  apply wp_bind. destruct (lookup_lt_is_Some_2 (units h) k) as [s Hs]; [rewrite (ld_len _ _ Hld); lia|].
  eapply wp_mono; [| |apply wp_setup_unit; [exact Hs|by eapply ld_quiet|apply Hld]]; [|done].
  intros [] h' Hpost. replace (k + S n)%nat with (S k + n)%nat by lia.
  apply IH; [lia|]. eapply loaded_step; [done|lia|done|done].
Qed.

End Setup.

(** ** Loading *)

Section Load.
Context {D V : Type} `{MrpDevice D} `{Mapper V}.
Context (B : bios) (high_memory : Z) (kmem : nat → bool) (junk : nat → nat → Z).
Context (unit_ptr : nat → Z) (mrp_interrupt_ptr mrp_fops_ptr : Z).
Context (Hptr : ∀ i j, (i < 4)%nat → (j < 4)%nat → unit_ptr i = unit_ptr j → i = j).

Local Abbreviation hst := (host D V).

(** A kernel that has not loaded the driver yet. *)
Record can_load (h : hst) : Prop := {
  cl_room : room 16 (vm h);
  cl_len : length (units h) = 4%nat;
  cl_use : Forall (λ s, idle_log (log s)) (units h);
  cl_irq : irq_inv (irqs h);
  cl_table : table_ok MAX_CHRDEV (chrdevs h);
  cl_free j : line j → Forall (λ a, ¬ ours unit_ptr a) (chain (irqs h) j);
  cl_major : mrp_major h = 0;
}.

(** What [mrp_init] may leave: nothing of the driver registered, or the units
    set up behind a major number. *)
Definition init_post (h h' : hst) : Prop :=
  room 0 (vm h') ∧
  (Forall quiet (units h') ∧ mrp_major h' = 0 ∧ irqs h' = irqs h ∧ chrdevs h' = chrdevs h ∧
   live h' = live h ∨
   ∃ hr, loaded unit_ptr hr 4 h' ∧ irqs hr = irqs h ∧ live hr = live h ∧ 0 < mrp_major h' ∧
     register_chrdev 0 "mrp" mrp_fops_ptr (chrdevs h) = (mrp_major h', chrdevs h')).

Lemma probing_start h : can_load h →
  probing h 16 (h <| units := (λ s, s <| unit_of := zero_unit |>) <$> units h |>).
Proof.
  intros []. split; try done; cbn; [by rewrite length_fmap|].
  apply Forall_fmap. eapply Forall_impl; [exact cl_use0|]. intros s Hs. split; [|done].
  constructor; try done. by left.
Qed.

Lemma probing_loaded h h' (tb : list device_struct) major :
  can_load h → probing h 0 h' →
  let hr := h' <| chrdevs := tb |> <| mrp_major := major |> <| proc_mrp := true |> in
  loaded unit_ptr hr 0 hr.
Proof.
  intros [] [] hr. split; cbn -[buffers]; try done.
  - by rewrite pr_irqs0.
  - eapply Forall_impl; [exact pr_units0|]. intros s Hs. by apply quiet_ready.
  - intros i s _ Hs. rewrite Forall_lookup in pr_units0. by eapply pr_units0.
  - intros j Hj. rewrite pr_irqs0. apply list_filter_all. by apply cl_free0.
  - intros i j s Hj Hs. rewrite pr_irqs0. rewrite Forall_lookup in pr_units0.
    destruct (pr_units0 i s Hs) as [Hbl _]. rewrite (blank_invalid _ Hbl). cbn.
    assert (i < 4)%nat by (rewrite <-pr_len0; by eapply lookup_lt_Some).
    rewrite list_filter_none; [done|]. eapply Forall_impl; [by apply cl_free0|].
    intros a Ha Hi. by apply Ha, (unit_ours unit_ptr i).
  - enough (buffers (units h') = 0) as -> by lia. clear -pr_units0.
    induction pr_units0 as [|s l Hs _ IH]; [done|]. cbn -[buf_count].
    unfold buffers in IH. rewrite IH. by rewrite (proj2 (quiet_ready s Hs)).
Qed.

Lemma wp_mrp_init h :
  can_load h →
  wp (mrp_init B high_memory kmem junk unit_ptr mrp_interrupt_ptr mrp_fops_ptr)
    (λ r h', r = 0 ∧ init_post h h') never h.
Proof.
  intros Hcl. pose proof (probing_start h Hcl) as Hp. unfold mrp_init.
  apply wp_bind, wp_modify. set (h1 := h <| units := _ |>) in *.
  assert (Hnone : ∀ h', probing h 0 h' → init_post h h').
  { intros h' []. split; [done|]. left. split_and!; try done. rewrite pr_major0. apply Hcl. }
  destruct (negb (pcibios_present B)).
  { apply wp_ret. split; [done|]. by apply Hnone, (probing_less h 16). }
  apply wp_bind. eapply wp_mono; [| |apply (wp_probe_units _ _ h 0 (List.seq 0 4)); [|done]];
    [|done|by repeat constructor]. intros n h2 Hp2. cbn beta.
  destruct (n =? 0); [apply wp_ret; split; [done|by apply Hnone]|]. clear h1 Hp.
  unfold wp, mbind, M_bind. rewrite (pr_chrdevs _ _ _ Hp2).
  destruct (register_chrdev 0 "mrp" mrp_fops_ptr (chrdevs h)) as [r tb] eqn:Er.
  destruct (Z.leb_spec r 0) as [Hr|Hr].
  - destruct (register_any _ _ _ _ _ _ (eq_refl : 0 < MAX_CHRDEV) Er) as [[_ ->]|[? _]]; [|lia].
    split; [done|]. apply Hnone. destruct Hp2. by split.
  - destruct (register_any _ _ _ _ _ _ (eq_refl : 0 < MAX_CHRDEV) Er) as [[? _]|_]; [lia|].
    pose proof (probing_loaded h h2 tb r Hcl Hp2) as Hld. cbv zeta in Hld.
    pose proof (wp_setup_units kmem junk unit_ptr mrp_interrupt_ptr Hptr _ 4 0 _ ltac:(lia) Hld) as Hw.
    unfold wp, modify in *. cbn [List.seq] in Hw |- *.
    destruct (for_each _ _ _) as [u h3|w h3]; [|done].
    split; [done|]. destruct (ld_frame _ _ _ _ Hw) as (F1 & F2 & F3). cbn in F1, F2, F3.
    split; [rewrite F2; apply Hp2|]. right. eexists. split; [exact Hw|]. cbn.
    rewrite F1, F3. split; [apply Hp2|]. split; [apply Hp2|]. done.
Qed.

End Load.

(** ** Unloading *)

Section Unload.
Context {D V : Type} `{MrpDevice D} `{Mapper V}.
Context (unit_ptr : nat → Z).
Context (Hptr : ∀ i j, (i < 4)%nat → (j < 4)%nat → unit_ptr i = unit_ptr j → i = j).

Local Abbreviation hst := (host D V).

Context (h0 : hst).

(** Units below [k] have been taken down, but for [n] of their buffers. *)
Record unloading (k : nat) (n : Z) (h : hst) : Prop := {
  ul_irq : irq_inv (irqs h);
  ul_len : length (units h) = 4%nat;
  ul_units : Forall (λ s, 0 ≤ irq (unit_of s) ∧ buf38 (unit_of s) = None ∧
    buf40 (unit_of s) = None) (units h);
  ul_others j : line j → filter (λ a, ¬ ours unit_ptr a) (chain (irqs h) j) = chain (irqs h0) j;
  ul_ours i j s : line j → units h !! i = Some s →
    (length (filter (of_unit unit_ptr i) (chain (irqs h) j)) ≤
     if bool_decide (k ≤ i)%nat && has (flags (unit_of s)) MRPF_VALID && (irq (unit_of s) =? j)%Z
     then 1 else 0)%nat;
  ul_live : live h = live h0 + n + buffers (drop k (units h));
  ul_room : room 0 (vm h);
  ul_chrdevs : chrdevs h = chrdevs h0;
}.

Lemma loaded_unloading h : loaded unit_ptr h0 4 h → room 0 (vm h) → unloading 0 0 h.
Proof.
  intros [] Hroom. split; rewrite ?Z.add_0_r; try done; [|apply ld_frame0].
  eapply Forall_impl; [exact ld_ready0|]. intros s []. split; [lia|done].
Qed.

(** The chains after the actions of unit [k] are gone. *)
Lemma free_chains k q (x : irq_state) :
  (k < 4)%nat → irq_inv x → 0 ≤ q →
  (∀ j, line j → (length (filter (of_unit unit_ptr k) (chain x j)) ≤
     if (q =? j)%Z then 1 else 0)%nat) →
  let x' := free_irq q (unit_ptr k) x in
  irq_inv x' ∧
  (∀ j, line j → filter (λ a, ¬ ours unit_ptr a) (chain x' j) = filter (λ a, ¬ ours unit_ptr a) (chain x j)) ∧
  (∀ j, line j → filter (of_unit unit_ptr k) (chain x' j) = []) ∧
  (∀ i j, (i < 4)%nat → i ≠ k → line j →
     filter (of_unit unit_ptr i) (chain x' j) = filter (of_unit unit_ptr i) (chain x j)).
Proof.
  intros Hk Hx Hq Hcnt. cbv zeta. destruct (free_cases q (unit_ptr k) x Hx Hq) as [Hinv Hch].
  split; [done|].
  assert (Hline : ∀ j, line j → ∃ l1 a l2, chain (free_irq q (unit_ptr k) x) j = l1 ++ l2 ∧
    (chain x j = l1 ++ a :: l2 ∧ of_unit unit_ptr k a ∨
     chain x j = l1 ++ l2 ∧ filter (of_unit unit_ptr k) (l1 ++ l2) = [])).
  { intros j Hj. rewrite Hch by done. specialize (Hcnt j Hj).
    destruct (Z.eqb_spec q j) as [_|Hne].
    - pose proof (unlink_cases (unit_ptr k) (chain x j)) as Hu.
      destruct (unlink _ _) as [l'|]; cbn.
      + destruct Hu as (l1 & a & l2 & -> & -> & Ha). exists l1, a, l2. split; [done|]. by left.
      + exists (chain x j), irq2, []. rewrite app_nil_r. split; [done|]. right.
        split; [done|]. by apply list_filter_none.
    - exists (chain x j), irq2, []. rewrite app_nil_r. split; [done|]. right. split; [done|].
      apply nil_length_inv. lia. }
  split_and!.
  - intros j Hj. destruct (Hline j Hj) as (l1 & a & l2 & -> & [[-> Ha]|[-> _]]); [|done].
    rewrite !filter_app. f_equal. rewrite filter_cons_False; [done|].
    intros Hn. by apply Hn, (unit_ours unit_ptr k).
  - intros j Hj. specialize (Hcnt j Hj).
    destruct (Hline j Hj) as (l1 & a & l2 & -> & [[E Ha]|[_ Hn]]); [|done].
    rewrite E in Hcnt. rewrite filter_app, filter_cons_True, length_app in Hcnt by done. cbn in Hcnt.
    apply nil_length_inv. rewrite filter_app, length_app. destruct (_ =? j); lia.
  - intros i j Hi Hne Hj. destruct (Hline j Hj) as (l1 & a & l2 & -> & [[-> Ha]|[-> _]]); [|done].
    rewrite !filter_app. f_equal. rewrite filter_cons_False; [done|].
    intros Hn. apply Hne, Hptr; [done|done|]. unfold of_unit in *. congruence.
Qed.

Lemma wp_kfree_when k n b (Q : unit → hst → Prop) h :
  unloading k (n + Z.b2z b) h → (∀ h', unloading k n h' → Q tt h') → wp (when b kfree) Q never h.
Proof.
  intros [] HQ. destruct b; apply HQ; cbn in *; split; try done; cbn; lia.
Qed.

Lemma wp_unmap_when k n b a (Q : unit → hst → Prop) h :
  unloading k n h → (∀ h', unloading k n h' → Q tt h') → wp (when b (on_vm (unmap a))) Q never h.
Proof.
  intros [] HQ. destruct b; [|by apply HQ]. unfold wp, when, on_vm.
  destruct (unmap_room 0 a (vm h)) as (v' & -> & Hv); [done|]. by apply HQ.
Qed.

Lemma buffers_drop k (l : list (io D mrp_unit)) s :
  l !! k = Some s → buffers (drop k l) = buf_count (unit_of s) + buffers (drop (S k) l).
Proof. intros Hs. by rewrite (drop_S l s k Hs). Qed.

(** Units keep their data when only the board is touched. *)
Lemma board_off (s : io D mrp_unit) :
  ∃ s', (wr_or IDK50 0x20 ;; wr_and IDK4C (Z.lnot 0x40)) s = Ret tt s' ∧ unit_of s' = unit_of s.
Proof.
  unfold wr_or, wr_and, rd, wr, mbind, M_bind.
  repeat (destruct (dev_read _ _) as [? ?]; cbn [unit_of dev irqs_on log upd]).
  eexists. split; reflexivity.
Qed.

Lemma unloading_unit k n h s s' (x : irq_state) :
  unloading k n h → units h !! k = Some s → unit_of s' = unit_of s → irq_inv x →
  (∀ j, line j → filter (λ a, ¬ ours unit_ptr a) (chain x j) = chain (irqs h0) j) →
  (∀ j, line j → filter (of_unit unit_ptr k) (chain x j) = []) →
  (∀ i j, (i < 4)%nat → i ≠ k → line j →
     filter (of_unit unit_ptr i) (chain x j) = filter (of_unit unit_ptr i) (chain (irqs h) j)) →
  unloading (S k) (n + buf_count (unit_of s)) (h <| units := <[k := s']> (units h) |> <| irqs := x |>).
Proof.
  intros [] Hs Hs' Hx H1 H2 H3. split; cbn -[buffers buf_count]; try done.
  - by rewrite length_insert.
  - apply Forall_insert; [done|]. rewrite Hs'. rewrite Forall_lookup in ul_units0. by eapply ul_units0.
  - intros i j t Hj Ht. destruct (decide (i = k)) as [->|Hne].
    + rewrite H2 by done. cbn. lia.
    + rewrite list_lookup_insert_ne in Ht by done.
      assert (i < 4)%nat by (rewrite <-ul_len0; by eapply lookup_lt_Some).
      rewrite H3 by done. specialize (ul_ours0 i j t Hj Ht). etrans; [exact ul_ours0|].
      repeat case_bool_decide; try lia; done.
  - rewrite ul_live0, (buffers_drop _ _ s) by done. rewrite drop_insert_lt by lia. lia.
Qed.

Lemma same_unit (h : hst) k s :
  units h !! k = Some s → h <| units := <[k := s]> (units h) |> = h.
Proof. intros Hs. destruct h; cbn in *. by rewrite list_insert_id. Qed.

(** Releasing the interrupt line of unit [k]. *)
Lemma wp_cleanup_irq k h s :
  (k < 4)%nat → unloading k 0 h → units h !! k = Some s → 0 ≤ irq (unit_of s) →
  wp (when (has (flags (unit_of s)) MRPF_VALID)
      (on_unit k (wr_or IDK50 0x20 ;; wr_and IDK4C (Z.lnot 0x40)) ;;
       modify (λ h, h <| irqs := free_irq (irq (unit_of s)) (unit_ptr k) (irqs h) |>)))
    (λ _ h', unloading (S k) (0 + buf_count (unit_of s)) h') never h.
Proof.
  intros Hk Hul Hs Hq. pose proof (λ j Hj, ul_ours _ _ _ Hul k j s Hj Hs) as Hc.
  rewrite bool_decide_eq_true_2 in Hc by lia.
  destruct (has (flags (unit_of s)) MRPF_VALID) eqn:Hv; cbn [when andb] in *.
  - destruct (board_off s) as (s' & Hb & Hu). apply wp_bind. unfold wp at 1.
    rewrite (on_unit_run k _ h s _ s' Hs Hb). apply wp_modify.
    destruct (free_chains k (irq (unit_of s)) (irqs h) Hk (ul_irq _ _ _ Hul) Hq Hc) as (F1 & F2 & F3 & F4).
    eapply unloading_unit; try done. intros j Hj. rewrite F2 by done. by apply Hul.
  - apply wp_ret. rewrite <-(same_unit h k s Hs).
    assert (Hx : ∀ g : hst, g <| irqs := irqs g |> = g) by by intros [].
    rewrite <-(Hx (h <| units := _ |>)). eapply unloading_unit; try done; try apply Hul.
    intros j Hj. apply nil_length_inv. specialize (Hc j Hj). cbn. lia.
Qed.

Lemma wp_cleanup_unit k h :
  (k < 4)%nat → unloading k 0 h →
  wp (cleanup_unit unit_ptr k) (λ _ h', unloading (S k) 0 h') never h.
Proof.
  intros Hk Hul. destruct (lookup_lt_is_Some_2 (units h) k) as [s Hs]; [rewrite (ul_len _ _ _ Hul); lia|].
  pose proof (ul_units _ _ _ Hul) as Hun. rewrite Forall_lookup in Hun.
  destruct (Hun k s Hs) as (Hq & H38 & H40).
  unfold cleanup_unit. apply wp_bind. unfold wp at 1.
  rewrite (on_unit_run k (getu (λ u, u)) h s _ s Hs eq_refl), (same_unit h k s Hs).
  apply wp_bind. eapply wp_mono; [| |by apply wp_cleanup_irq]; [|done].
  intros [] h1 H1. rewrite H38, H40. unfold buf_count in H1. rewrite Z.add_0_l, Z.add_comm in H1.
  apply wp_bind. eapply wp_kfree_when; [exact H1|]. intros h2 H2.
  apply wp_bind. eapply (wp_kfree_when _ 0); [exact H2|]. intros h3 H3.
  apply wp_bind. eapply (wp_kfree_when _ 0); [exact H3|]. intros h4 H4.
  apply wp_bind. eapply (wp_kfree_when _ 0); [exact H4|]. intros h5 H5.
  apply wp_bind. eapply wp_unmap_when; [exact H5|]. intros h6 H6.
  apply wp_bind. eapply wp_unmap_when; [exact H6|]. intros h7 H7.
  eapply wp_unmap_when; [exact H7|]. done.
Qed.

Lemma wp_cleanup_units n : ∀ k h,
  (k + n ≤ 4)%nat → unloading k 0 h →
  wp (for_each (List.seq k n) (cleanup_unit unit_ptr)) (λ _ h', unloading (k + n) 0 h') never h.
Proof.
  induction n as [|n IH]; intros k h Hk Hul; cbn [List.seq for_each].
  { apply wp_ret. by rewrite Nat.add_0_r. }
  apply wp_bind. eapply wp_mono; [| |apply wp_cleanup_unit; [lia|exact Hul]]; [|done].
  intros [] h' Hpost. replace (k + S n)%nat with (S k + n)%nat by lia. apply IH; [lia|done].
Qed.

End Unload.

(** ** Properties *)

Section Properties.
Context {D V : Type} `{MrpDevice D} `{Mapper V}.
Context (B : bios) (high_memory : Z) (kmem : nat → bool) (junk : nat → nat → Z).
Context (unit_ptr : nat → Z) (mrp_interrupt_ptr mrp_fops_ptr : Z).

Local Abbreviation hst := (host D V).
Local Abbreviation load := (mrp_init B high_memory kmem junk unit_ptr mrp_interrupt_ptr mrp_fops_ptr).

(** C5: loading the driver always returns, whatever the firmware reports and
    whichever allocations fail, and every unit it marks valid is in a state
    from which the file operations and interrupts keep the driver's invariant
    (its buffers are allocated, nothing is open, nothing is in flight); the
    driver's operations are then registered under [mrp_major]. *)
Theorem init_starts_units (h : hst) :
  (∀ i j, (i < 4)%nat → (j < 4)%nat → unit_ptr i = unit_ptr j → i = j) → can_load unit_ptr h →
  ∃ h', load h = Ret 0 h' ∧
    ∀ i s, units h' !! i = Some s → has (flags (unit_of s)) MRPF_VALID = true →
      sys_start s ∧ 0 < mrp_major h' ∧
      get_chrfops (mrp_major h') (chrdevs h') = mrp_fops_ptr.
Proof.
  intros Hptr Hcl.
  pose proof (wp_mrp_init B high_memory kmem junk unit_ptr mrp_interrupt_ptr mrp_fops_ptr Hptr h Hcl) as Hw.
  unfold wp in Hw. destruct (load h) as [r h'|]; [|done]. destruct Hw as [-> [_ Hpost]].
  exists h'. split; [done|]. intros i s Hs Hv.
  destruct Hpost as [[Hq _]|(hr & Hld & _ & _ & Hm & Hreg)].
  - rewrite Forall_lookup in Hq. destruct (Hq i s Hs) as [Hbl _]. by rewrite (blank_invalid _ Hbl) in Hv.
  - pose proof (ld_ready _ _ _ _ Hld) as Hrd. rewrite Forall_lookup in Hrd. split; [by apply (Hrd i s Hs)|].
    split; [done|]. pose proof (tb_length _ _ (cl_table _ _ Hcl)) as Hl.
    destruct (register_any _ _ _ _ _ _ (eq_refl : 0 < MAX_CHRDEV) Hreg) as [[? _]|(Hr & _ & Htb)]; [lia|].
    unfold get_chrfops, get_fops. rewrite (proj2 (Z.ltb_lt _ _)) by lia.
    rewrite Htb, device_set, Z.eqb_refl by lia. done.
Qed.

(** a detected unit with memory for its two buffers is marked valid and its
    board enabled whether or not the driver got the interrupt line: when the
    line refuses a fast shared handler, [request_irq]'s error is taken for
    success, no handler is installed and no second request is made; when it
    accepts one, the second request is made and refused. *)
Theorem setup_ignores_irq_error (h : hst) (i : nat) (s : io D mrp_unit) :
  units h !! i = Some s → quiet s → flags (unit_of s) = MRPF_DETECT → irq_inv (irqs h) →
  kmem (nalloc h) = true → kmem (S (nalloc h)) = true →
  let r := request_irq (irq (unit_of s)) mrp_interrupt_ptr (Z.lor SA_INTERRUPT SA_SHIRQ) "MRP"
    (unit_ptr i) (kmem (S (S (nalloc h)))) (irqs h) in
  ∃ s' h', setup_unit kmem junk unit_ptr mrp_interrupt_ptr i h = Ret tt h' ∧
    units h' !! i = Some s' ∧ has (flags (unit_of s')) MRPF_VALID = true ∧
    irqs h' = r.2 ∧ (r.1 ≠ 0 → irqs h' = irqs h).
Proof.
  intros Hs Hq Hf Hirq K1 K2 r.
  pose proof (wp_setup_unit kmem junk unit_ptr mrp_interrupt_ptr i h s Hs Hq Hirq) as Hw.
  unfold wp in Hw. destruct (setup_unit _ _ _ _ _ _) as [[] h'|]; [|done].
  destruct Hw as (s' & k & l & x & ((Hu & _ & _ & Hx) & _) & _ & _ & _ & _ & Hfull).
  destruct (Hfull Hf K1 K2) as [Hv Hxr]. exists s', h'. split; [done|].
  split; [rewrite Hu; apply list_lookup_insert_eq; by eapply lookup_lt_Some|]. split; [done|].
  unfold first_request in Hxr. fold r in Hxr. split; [congruence|]. intros Hr.
  destruct Hq as [[_ [Hq0 _]] _].
  destruct (request_cases (irq (unit_of s)) mrp_interrupt_ptr (Z.lor SA_INTERRUPT SA_SHIRQ) "MRP"
    (unit_ptr i) (kmem (S (S (nalloc h)))) (irqs h) Hirq Hq0) as [_ [[_ Hc]|[Hc _]]]; [|done].
  fold r in Hc. congruence.
Qed.

(** C34: unloading the driver after loading it, whatever was found and whichever
    allocations failed, returns and leaves every interrupt line with the handlers
    it had before, every major number with the operations it had before, and no
    packet buffer allocated. *)
Theorem load_unload (h : hst) :
  (∀ i j, (i < 4)%nat → (j < 4)%nat → unit_ptr i = unit_ptr j → i = j) → mrp_fops_ptr ≠ 0 →
  can_load unit_ptr h →
  ∃ h1 h2, load h = Ret 0 h1 ∧ cleanup_module unit_ptr h1 = Ret tt h2 ∧
    (∀ j, line j → chain (irqs h2) j = chain (irqs h) j) ∧
    (∀ m, 0 ≤ m → get_chrfops m (chrdevs h2) = get_chrfops m (chrdevs h)) ∧
    live h2 = live h.
Proof.
  intros Hptr Hfops Hcl.
  pose proof (wp_mrp_init B high_memory kmem junk unit_ptr mrp_interrupt_ptr mrp_fops_ptr Hptr h Hcl) as Hw.
  unfold wp in Hw. destruct (load h) as [r h1|]; [|done]. destruct Hw as [-> [Hroom Hpost]].
  exists h1. unfold cleanup_module, mbind, M_bind, gets.
  destruct Hpost as [(_ & -> & Hi & Hc & Hl)|(hr & Hld & Hi & Hl & Hm & Hreg)].
  { exists h1. rewrite Hi, Hc, Hl. split_and!; done. }
  rewrite (proj2 (Z.eqb_neq _ _)) by lia.
  pose proof (wp_cleanup_units unit_ptr Hptr hr 4 0 h1 ltac:(lia)
    (loaded_unloading unit_ptr hr h1 Hld Hroom)) as Hw. unfold wp in Hw.
  destruct (for_each _ _ _) as [[] h2|]; [|done]. cbn [Nat.add] in Hw.
  pose proof (cl_table _ _ Hcl) as Htb. pose proof (tb_length _ _ Htb) as Hlen.
  destruct (register_any _ _ _ _ _ _ (eq_refl : 0 < MAX_CHRDEV) Hreg) as [[? _]|(Hr & Hfree & Hset)]; [lia|].
  destruct (ld_frame _ _ _ _ Hld) as (F1 & _ & _).
  rewrite (ul_chrdevs _ _ _ _ _ Hw), <-F1, Hset. unfold unregister_chrdev. rewrite unregister_set by done.
  eexists. split; [done|]. split; [reflexivity|]. cbn. split; [|split].
  - intros j Hj. rewrite <-Hi, <-(ul_others _ _ _ _ _ Hw j Hj). symmetry. apply list_filter_all.
    apply Forall_forall. intros a Ha Hour. unfold ours in Hour.
    apply list_elem_of_fmap in Hour as (i & Hd & Hin%elem_of_seq).
    destruct (lookup_lt_is_Some_2 (units h2) i) as [s Hs]; [rewrite (ul_len _ _ _ _ _ Hw); lia|].
    pose proof (ul_ours _ _ _ _ _ Hw i j s Hj Hs) as Hn. rewrite bool_decide_eq_false_2 in Hn by lia.
    cbn in Hn. assert (filter (of_unit unit_ptr i) (chain (irqs h2) j) = []) as Hnil
      by (apply nil_length_inv; lia).
    apply filter_nil_Forall in Hnil. rewrite Forall_forall in Hnil. by apply (Hnil a Ha).
  - intros m Hm0. unfold get_chrfops, get_fops. destruct (m <? MAX_CHRDEV); [|done].
    rewrite device_set by lia. destruct (Z.eqb_spec (mrp_major h1) m) as [<-|]; [|done]. by rewrite Hfree.
  - rewrite (ul_live _ _ _ _ _ Hw), drop_ge by (rewrite (ul_len _ _ _ _ _ Hw); lia). cbn. lia.
Qed.

End Properties.

(** ** Instances *)

Definition sample_ptr (i : nat) : Z := 0x100 + Z.of_nat i.

Definition sample_host (x : irq_state) : host simdev vm_host := {|
  units := replicate 4 (MkIo zero_unit (sim_board [] 0) true []);
  vm := (boot_vm, 0%nat); irqs := x; chrdevs := empty_table; mrp_major := 0;
  proc_mrp := false; nalloc := 0; live := 0;
|}.

Lemma sample_ptr_inj i j : (i < 4)%nat → (j < 4)%nat → sample_ptr i = sample_ptr j → i = j.
Proof. unfold sample_ptr. lia. Qed.

Lemma sample_can_load :
  can_load (V:=vm_host) (H0:=sample_mapper) sample_ptr (sample_host (init_IRQ irqs_init)).
Proof.
  split.
  - split; [exact boot_vm_inv|]. by vm_compute.
  - done.
  - by repeat constructor.
  - exact init_inv.
  - exact empty_table_ok.
  - assert (Hall : Forall (λ j, Forall (λ a, ¬ ours sample_ptr a) (chain (init_IRQ irqs_init) j))
      (seqZ 0 16)) by by_compute.
    intros j Hj. rewrite Forall_forall in Hall. apply Hall, elem_of_seqZ. unfold line in Hj. lia.
  - done.
Qed.

Lemma init_starts_units_witness :
  ∃ h' s, mrp_init (H0:=sample_mapper) sample_bios 0x1000000 (λ _, true) (λ _ _, 0) sample_ptr 7 9
      (sample_host (init_IRQ irqs_init)) = Ret 0 h' ∧
    units h' !! 0%nat = Some s ∧ sys_start s ∧ get_chrfops (mrp_major h') (chrdevs h') = 9.
Proof.
  destruct (init_starts_units (H0:=sample_mapper) sample_bios 0x1000000 (λ _, true) (λ _ _, 0)
    sample_ptr 7 9 (sample_host (init_IRQ irqs_init)) sample_ptr_inj sample_can_load) as (h' & E & Hs).
  destruct (units h' !! 0%nat) as [s|] eqn:Es; [|by vm_compute in E; injection E as <-].
  assert (Hv : has (flags (unit_of s)) MRPF_VALID = true)
    by (vm_compute in E; injection E as <-; vm_compute in Es; injection Es as <-; by vm_compute).
  destruct (Hs 0%nat s Es Hv) as (H1 & _ & H2). exists h', s. split_and!; done.
Defined.

(** A detected unit on line 13, which the coprocessor's handler does not share. *)
Definition coprocessor_host : host simdev vm_host :=
  (sample_host (init_IRQ irqs_init))
    <| units := [MkIo (zero_unit <| flags := MRPF_DETECT |> <| irq := 13 |>) (sim_board [] 0) true []] |>.

Lemma setup_ignores_irq_error_witness :
  ∃ s' h', setup_unit (λ _, true) (λ _ _, 0) sample_ptr 7 0 coprocessor_host = Ret tt h' ∧
    units h' !! 0%nat = Some s' ∧ has (flags (unit_of s')) MRPF_VALID = true ∧
    chain (irqs h') 13 = [irq13].
Proof.
  destruct (setup_ignores_irq_error (λ _, true) (λ _ _, 0) sample_ptr 7 coprocessor_host 0%nat
    (MkIo (zero_unit <| flags := MRPF_DETECT |> <| irq := 13 |>) (sim_board [] 0) true []))
    as (s' & h' & E & Hs & Hv & _ & Hx).
  - reflexivity.
  - split; [|by split]. constructor; try done; by right.
  - reflexivity.
  - exact init_inv.
  - reflexivity.
  - reflexivity.
  - exists s', h'. split; [exact E|]. split; [exact Hs|]. split; [exact Hv|].
    rewrite Hx; [reflexivity|]. by vm_compute.
Defined.

Lemma load_unload_witness :
  ∃ h1 h2, mrp_init (H0:=sample_mapper) sample_bios 0x1000000 (λ _, true) (λ _ _, 0) sample_ptr 7 9
      (sample_host (init_IRQ irqs_init)) = Ret 0 h1 ∧
    cleanup_module (H0:=sample_mapper) sample_ptr h1 = Ret tt h2 ∧
    chain (irqs h2) 10 = [] ∧ live h2 = 0.
Proof.
  destruct (load_unload (H0:=sample_mapper) sample_bios 0x1000000 (λ _, true) (λ _ _, 0)
    sample_ptr 7 9 (sample_host (init_IRQ irqs_init)) sample_ptr_inj ltac:(lia) sample_can_load)
    as (h1 & h2 & E1 & E2 & H1 & _ & H2).
  exists h1, h2. split; [exact E1|]. split; [exact E2|]. split; [|exact H2].
  rewrite H1; [reflexivity|]. by split; lia.
Defined.
